(* ===== verification/_CoqProject ===== *)
-Q . S2P
Prelude.v
PidAlloc.v
Pipe.v
Flock.v
Wheel.v
Pmm.v
Vma.v
Frames.v
Heap.v
RbTree.v
RbSpec.v
RbProofs.v
RbTheorems.v
Hrtimer.v
HrtimerProofs.v
Fair.v
FairProofs.v
FairTheorems.v
FairHooks.v
FairPick.v
FdTable.v
FdProofs.v
Eventfd.v
Elf.v
Futex.v
Crc32.v
Block.v
BlockProofs.v
Blkcache.v
BlkcacheProofs.v
Net.v
Tcp.v
TcpStream.v
TcpRecv.v
TcpSystem.v
TcpOpen.v
TcpFrame.v
TcpTable.v
TcpLeak.v
TcpFlaws.v
Loop.v
Bytes.v
Fat.v
FatTable.v
FatFile.v
FatWrite.v
FatTime.v
FatName.v
FatDir.v
FatImage.v
FatSlots.v
FatUpdate.v
FatLayout.v
FatRun.v
FatCreate.v
FatVfs.v
FatKeep.v
FatOps.v
FatMkdir.v
FatRename.v
FatTheorems.v
FatFlaws.v
