(* ===== verification/Prelude.v ===== *)
(** * NeoOS kernel: verification library

    A model, in the functions and step relations of this library, of the parts of the NeoOS
    kernel (src/kernel) that decide something on data of their own: memory, scheduling order,
    time, locks, descriptors, blocking communication, images, block storage, the FAT filesystem and the network;
    with the theorems that make these parts correct.

    ** Conventions

    A C integer is a [Z], and a result stored into an object of w bits is wrapped by [u8], [u16],
    [u32], [u64] or [i64].  Pointers are addresses or table indices; a dereference the model
    cannot follow (null, freed, outside a buffer) is a failed run, [None] or a result of its own,
    and the theorems show where it cannot happen.  A critical section of a lock is one function.
    Where the code drops the lock, to sleep, to wake a queue, to call a driver or to run a
    callback, the operation is cut into its sections, and a step relation interleaves the
    sections of all threads with whatever else may happen there: stores of user code, clock
    ticks, signals, failing transfers.  Allocation failure is an answer the caller is given, so
    every theorem covers it.  Recursion that is not structural carries fuel, chosen from the
    size of the state (the number of nodes, areas, frames or table entries); running out of it is
    a failed run, and the theorems that an operation returns show that the fuel is enough.

    ** Files and the code they model

    - Prelude.v: machine integers, error numbers, tactics, lemmas on lists, bits and maps.
    - PidAlloc.v: sched/pid_alloc.c, the bitmap of process numbers with its rising cursor.
    - Pipe.v: ipc/pipe.c and the wait queues of sync/waitq.c as the pipe uses them.
    - Flock.v: fs/flock.c, advisory record locks with sleepers and deadlock detection.
    - Wheel.v: time/wheel.c, the hierarchical timer wheel and the loop of ktimerd.
    - Pmm.v: mm/pmm.c, the buddy allocator on its linked free lists, and its boot.
    - Frames.v: the class [FrameAllocator], what pmm.c promises its clients, with the buddy
      allocator as an instance.
    - Heap.v: mm/heap.c, proved against [FrameAllocator] only.
    - Vma.v: mm/vma.c, the areas of a process, with page tables, vnodes and heap as calls.
    - RbTree.v, RbSpec.v, RbProofs.v, RbTheorems.v: lib/rbtree.c on memory, abstract trees and
      what memory represents them, the fix-ups, the whole operations.
    - Hrtimer.v, HrtimerProofs.v: time/hrtimer.c, the per-CPU timers on top of the tree.
    - Fair.v, FairProofs.v, FairTheorems.v, FairHooks.v, FairPick.v: sched/fair.c,
      sched_entity.h and sched_prio.c, the EEVDF class on top of the tree, its run queue
      invariant, the hooks sched.c calls, and the choice of the next thread.
    - FdTable.v, FdProofs.v: sched/fd_table.c, descriptor tables and their references.
    - Eventfd.v: ipc/eventfd.c, event counters, created over the descriptor tables.
    - Elf.v: elf.c, the loader of ELF64 and NOX images.
    - Futex.v: ipc/futex.c with the deadline arithmetic of time/ktime.h.
    - Crc32.v: lib/crc32.c.
    - Block.v, BlockProofs.v: block/blockdev.c and block/part.c, the registry of disks and
      partitions, transfers, and the scan of GPT and MBR tables; it uses Crc32.v.
    - Blkcache.v, BlkcacheProofs.v: fs/blkcache.c, the sector cache over Block.v.
    - Net.v: net/net.c and net/route.c, checksums, IPv4, UDP and the routing table.
    - Tcp.v: net/tcp.c, the control block, every operation on it, the connection table, the
      receive path and the timer.  TcpStream.v and TcpRecv.v: the sending and the receiving half
      of a connection against an abstract byte stream; TcpSystem.v: two endpoints over a network
      that loses, repeats and reorders; TcpOpen.v: the handshake, and the stream theorem.
      TcpFrame.v and TcpTable.v: what each section does to slots and timers, and the table as a
      whole; TcpLeak.v: slots nothing frees; TcpFlaws.v: runs that go wrong.
    - Loop.v: loops the code does not bound, with the rules to reason about them; Bytes.v: sectors
      and on-disk records as lists of bytes, little-endian fields.
    - fs/fatfs.c.  Fat.v: the volume, the table, cluster chains and file data; FatTime.v, FatName.v:
      packed dates, short and long names; FatDir.v: directory slots, entries, lookup, creation and
      erasure; FatVfs.v: every operation of fatfs_ops.  The proofs go up the same way: FatTable.v,
      FatFile.v and FatWrite.v (table, chains, transfers), FatImage.v (a disk in memory),
      FatSlots.v (the iterator), FatUpdate.v (writing slots), FatLayout.v (directories as lists of
      entries), FatRun.v and FatCreate.v (the slots of a name, a new entry), FatKeep.v (what a
      change leaves alone), FatOps.v, FatMkdir.v and FatRename.v (the operations), FatTheorems.v
      (the results, with a sample volume), FatFlaws.v (where the driver goes wrong).

    ** What the theorems show

    Allocators.  The buddy allocator returns free aligned blocks, merges on free and starts from
    exactly the usable memory ([pmm_alloc_spec], [pmm_free_spec], [pmm_init_exact],
    [pmm_alloc_free_roundtrip]); the heap on top of any frame allocator never touches memory it
    does not own and never hands a byte out twice, for requests of up to 2^63 bytes
    ([heap_memory_safe]; [heap_size_wraps] shows why); process numbers are the
    first free in cyclic order ([pid_alloc_correct]); descriptor numbers are the lowest free, and
    tables keep their counts and references through fork and teardown ([fd_alloc_lowest],
    [fd_table_wf], [fd_fork_spec]).

    Address spaces.  munmap, mprotect and fixed mmap change exactly the bytes of their range
    ([vma_munmap_spec], [vma_mprotect_spec], [vma_mmap_fixed_spec]), munmap also in the page tables;
    every sequence of calls returns, and nothing is writable and executable ([vma_wx_invariant]); a
    loaded image has its bytes, zeros and protections at their addresses, but for pages whose
    mapping failed, which the loader does not notice ([elf_load_spec]).

    Scheduling.  Insertion and deletion keep a red-black tree over the in-order sequence, walks
    end and visit it, and the loops are logarithmic ([rb_insert_spec], [rb_erase_spec],
    [rb_walk_spec], [rb_loops_logarithmic]).  Every hook of the fair class runs to its end and
    keeps the run queue, virtual time never goes back, and with exact aggregates the pick is the
    eligible entity with the earliest deadline, or the earliest of all queued ones when none is
    eligible ([fair_hooks_correct], [fair_floor_monotone], [fair_pick_earliest]);
    [fair_stale_pick] is a run of the hooks after which an aggregate is not exact.

    Blocking.  Pipes are FIFO and lose no reader's wake-up ([ring_refines_fifo], [pipe_fifo],
    [pipe_reader_not_lost]); record locks exclude, change exactly the bytes asked for and lose no
    sleeper ([flock_exclusion], [flock_setlk_spec], [flock_waiter_not_lost]), but a failed request
    can lose bytes ([flock_enolck_drops_lock]); futexes close the race between the check and the
    sleep, conserve wakes and never follow a dead stack frame ([futex_race_closed],
    [futex_wakes_conserved], [futex_lists_live]); event counters add up and lose no sleeper while
    no sum passes 2^64 ([eventfd_correct]; [eventfd_write_wraps] is a run in which one does).

    Time.  The timers of the wheel are never early, and due no later than their expiry rounded up
    to the granularity of their level ([wheel_never_early], [wheel_on_time]).  For every high-resolution timer that is queued the
    device of its CPU is armed in time, and callbacks start in the order of the expiries
    ([hrtimer_armed], [hrtimer_order]), provided that starts of one timer do not overlap, that a
    thread is not moved in the middle of one, and that no cancel loads the state between the two
    stores of the handler; [hrtimer_double_start], [hrtimer_start_migrates] and
    [hrtimer_cancel_window] are the runs in which each condition fails.

    Storage.  Checksums are polynomial division and catch every four-byte burst ([crc32_spec],
    [crc32_detects_bursts]); whatever is on a disk, its partitions are disjoint, transfers stay
    inside them and the scan stays inside its buffers ([partitions_disjoint],
    [partition_io_contained], [part_scan_bounds]); a cached read returns what the disk holds
    under every interleaving of reads and writes ([blkcache_coherent]).

    Filesystem.  A directory is the list of its entries and a file the bytes of its chain, on any
    store that keeps what is written.  Creating, removing and renaming change one entry and no
    other lookup, keep every other chain and its bytes, and answer their errors exactly when they
    should ([fatfs_create_correct], [fatfs_unlink_correct], [fatfs_rename_correct],
    [fatfs_mkdir_correct]); removing marks the whole run of slots of the entry and no other; listing agrees with lookup ([fatfs_readdir_correct]); a write
    overwrites the byte string and extends chain and size, or fails with the directory unchanged,
    and a read gives the bytes ([fatfs_write_correct], [fatfs_read_correct]); the cursor of a
    transfer finds what the walk from the head finds ([fat_cursor_exact]); freeing ends on every
    table whose links stay inside it, cyclic ones included ([fat_free_chain_ends]), and allocation takes a free entry
    ([fat_alloc_spec]).  But a full volume hands out clusters behind its end
    ([fat_alloc_past_end]), a write to a cyclic chain never returns ([fat_cycle_hangs]), and some
    names cannot be found again ([fat_trailing_dot], [fat_alias_nine]).

    Network.  The Internet checksum detects every changed 16-bit word ([l4_checksum_detects]), a
    datagram sent over a device is received as it was sent ([udp_round_trip]), and the route is
    the longest match ([route_lookup_longest]).  The handshake opens ([handshake_ok]); from there
    on what an application reads is a prefix of what the other wrote, and end-of-file means all of
    it, under every loss, repetition and reordering ([tcp_stream]); the one timer of the stack is
    never later than any deadline, with its callback cut at each lock and at each word its scan
    reads and everything else interleaved ([timer_never_late]).  A half-open connection that dies is never
    reclaimed ([orphan_forever]).

    ** Bounds and assumptions

    Machine widths are those of the source; the wheel bounds its clock away from the end of
    64-bit jiffies; the fair class states the order of deadlines under the window in which
    wrap-around comparison is an order.  The sector cache assumes that two writes of one sector
    are not in flight together, which the filesystem lock of its callers gives.  The transfers of
    a block driver, the page-table walk of futexes and the operations behind a descriptor are
    arguments of the definitions, and nothing more is assumed of them than each theorem says.
    The stream theorem covers streams of up to 2^31 - 2^16 bytes: the network of the model keeps
    segments for ever, and beyond that length an old one is no longer distinguishable from a new
    one.  Initial sequence numbers are arbitrary.  The loops of tcp.c carry the fuel that
    [output_loop_done], [drain_done], [parse_loop_enough] and [flush_done] show to be enough.

    A [while] of Loop.v is cut off after 2^40 passes and [None] stands for a loop that goes on: each
    of the FAT theorems shows the result [Some], with at most 2^32 passes, so the bound is never
    met, and the rule for endless loops holds for every bound.  The FAT driver is proved over the
    class [BlockStore] with the laws [BlockLaws]: a write is kept and changes no other sector; that
    is what [blkcache_coherent] gives its clients, and FatImage.v has an instance.  Volumes have a
    consistent geometry ([vol_ok]), the entries behind the last cluster are not free
    ([tail_reserved]), directories are runs of complete entries ([layout]) and files lie below
    4 GiB by a cluster; names to be created are bytes a long name can keep ([storable]).  The clock
    and the uninitialised name buffer are the class [FatEnv].

    ** Not modelled

    Locks themselves, context switching, page tables and TLB, interrupts, processors and drivers
    are hardware or memory-model behaviour that a critical section as one step abstracts from.
    The path interface of fatfs.c that only its selftests call is left out.  The VFS layer and the
    other filesystems, the links below IPv4, signals, terminals, epoll, processes and the system call
    layer compose the parts above with user memory and hardware and are not modelled yet.
    Boot selftests, serial messages and the debug build of the heap are left out. *)

From stdpp Require Import base numbers list gmap.
From Stdlib Require Import ZArith Lia.

#[global] Open Scope Z_scope.

(** ** Machine integers

    A w-bit C integer is a [Z]; every arithmetic result that the source
    stores into an unsigned object is wrapped explicitly. *)

Abbreviation W8  := 256 (only parsing).
Abbreviation W16 := 65536 (only parsing).
Abbreviation W32 := 4294967296 (only parsing).
Abbreviation W64 := 18446744073709551616 (only parsing).
Abbreviation W63 := 9223372036854775808 (only parsing).

Definition u8 (z : Z) : Z := z mod W8.
Definition u16 (z : Z) : Z := z mod W16.
Definition u32 (z : Z) : Z := z mod W32.
Definition u64 (z : Z) : Z := z mod W64.

(** Reinterpretation of a 64-bit pattern as [int64_t] (two's complement). *)
Definition i64 (z : Z) : Z := (z + W63) mod W64 - W63.

Definition UINT64_MAX : Z := W64 - 1.

(** Errno values of kernel/errno.h that the modelled code returns. *)
Definition EPERM := 1.
Definition ENOENT := 2.
Definition ESRCH := 3.
Definition EINTR := 4.
Definition EIO := 5.
Definition EBADF := 9.
Definition EAGAIN := 11.
Definition ENOMEM := 12.
Definition EFAULT := 14.
Definition EINVAL := 22.
Definition EMFILE := 24.
Definition ESPIPE := 29.
Definition EPIPE := 32.
Definition EDEADLK := 35.
Definition ENOLCK := 37.

(** A C truth value used as a condition. *)
Definition ctrue (z : Z) : bool := negb (z =? 0).
Definition b2z (b : bool) : Z := if b then 1 else 0.

(** ** Tactics *)

(** [lia] with division and modulo by constants. *)
Ltac dlia := Z.to_euclidean_division_equations; lia.

(** Turns boolean comparisons on [Z] into propositions. *)
Ltac zbool :=
  repeat match goal with
  | H : (_ && _)%bool = true |- _ => apply andb_prop in H as [? ?]
  | H : (_ || _)%bool = false |- _ => apply orb_false_elim in H as [? ?]
  | H : (_ =? _) = true |- _ => apply Z.eqb_eq in H
  | H : (_ =? _) = false |- _ => apply Z.eqb_neq in H
  | H : (_ <? _) = true |- _ => apply Z.ltb_lt in H
  | H : (_ <? _) = false |- _ => apply Z.ltb_ge in H
  | H : (_ <=? _) = true |- _ => apply Z.leb_le in H
  | H : (_ <=? _) = false |- _ => apply Z.leb_gt in H
  | H : negb _ = true |- _ => apply negb_true_iff in H
  | H : negb _ = false |- _ => apply negb_false_iff in H
  end.

(** Case analysis on every boolean test on [Z] in the goal. *)
Ltac zcases :=
  repeat match goal with
  | |- context [?a =? ?b] => destruct (Z.eqb_spec a b)
  | |- context [?a <? ?b] => destruct (Z.ltb_spec a b)
  | |- context [?a <=? ?b] => destruct (Z.leb_spec a b)
  end.

(** ** Record update

    [r <| f := v |>] is the record [r] with field [f] set to [v], for a record
    type with an [Eta] instance that lists its fields. *)

Class Eta (R : Type) := eta : R -> R.
Class Setter {R T : Type} (f : R -> T) := upd : (T -> T) -> R -> R.
Arguments upd {R T} f {_} g r.

#[export] Hint Extern 1 (@Setter ?R ?T ?f) =>
  let g := fresh "g" in let r := fresh "r" in
  refine (fun (g : T -> T) (r : R) => _);
  let b := eval hnf in (eta r) in
  match b with context C [f r] => let b := context C [g (f r)] in exact b end : typeclass_instances.

Notation "r <| f := v |>" := (upd f (fun _ => v) r) (at level 12, left associativity, f at level 9, v at level 200).

(** Reads of the fields of an updated record in the goal. *)
Ltac fields :=
  repeat match goal with
  | |- context [?p (@upd ?R ?T ?f ?S ?g ?r)] =>
      let _ := constr:(_ : Setter p) in
      first [change (p (@upd R T f S g r)) with (p r)
            |progress change (p (@upd R T f S g r)) with (g (p r)); cbv beta]
  end.
Ltac fields_in H :=
  repeat match type of H with
  | context [?p (@upd ?R ?T ?f ?S ?g ?r)] =>
      let _ := constr:(_ : Setter p) in
      first [change (p (@upd R T f S g r)) with (p r) in H
            |progress change (p (@upd R T f S g r)) with (g (p r)) in H; cbv beta in H]
  end.

(** ** Facts about machine integers *)

Lemma u64_range z : 0 <= u64 z < W64.
Proof. unfold u64. apply Z.mod_pos_bound. lia. Qed.

Lemma u32_range z : 0 <= u32 z < W32.
Proof. unfold u32. apply Z.mod_pos_bound. lia. Qed.

Lemma u16_range z : 0 <= u16 z < W16.
Proof. unfold u16. apply Z.mod_pos_bound. lia. Qed.

Lemma i64_range z : - W63 <= i64 z < W63.
Proof. unfold i64. dlia. Qed.

Lemma u64_small z : 0 <= z < W64 -> u64 z = z.
Proof. intros. unfold u64. by apply Z.mod_small. Qed.

Lemma u32_small z : 0 <= z < W32 -> u32 z = z.
Proof. intros. unfold u32. by apply Z.mod_small. Qed.

Lemma u16_small z : 0 <= z < W16 -> u16 z = z.
Proof. intros. unfold u16. by apply Z.mod_small. Qed.

Lemma i64_small z : - W63 <= z < W63 -> i64 z = z.
Proof. intros. unfold i64. rewrite Z.mod_small; lia. Qed.

Create HintDb machine.
Create Rewrite HintDb machine.
#[export] Hint Resolve u64_range u32_range u16_range i64_range : machine.
#[export] Hint Rewrite u64_small u32_small u16_small i64_small using lia : machine.

Lemma u64_lor a b : 0 <= a < W64 -> 0 <= b < W64 -> 0 <= Z.lor a b < W64.
Proof.
  intros Ha Hb. split; [by apply Z.lor_nonneg; lia|].
  destruct (Z.eq_dec (Z.lor a b) 0) as [->|Hne]; [lia|].
  assert (0 <= Z.lor a b) by (apply Z.lor_nonneg; lia).
  change W64 with (2 ^ 64). apply Z.log2_lt_pow2; [lia|].
  rewrite Z.log2_lor by lia. apply Z.max_lub_lt.
  - destruct (Z.eq_dec a 0) as [->|]; [done|]. by apply Z.log2_lt_pow2; lia.
  - destruct (Z.eq_dec b 0) as [->|]; [done|]. by apply Z.log2_lt_pow2; lia.
Qed.

Lemma u64_land a b : 0 <= a -> 0 <= b < W64 -> 0 <= Z.land a b < W64.
Proof.
  intros Ha Hb. split; [by apply Z.land_nonneg; lia|].
  destruct (Z.eq_dec (Z.land a b) 0) as [->|Hne]; [lia|].
  assert (0 <= Z.land a b) by (apply Z.land_nonneg; lia).
  change W64 with (2 ^ 64). apply Z.log2_lt_pow2; [lia|].
  pose proof (Z.log2_land a b ltac:(lia) ltac:(lia)).
  destruct (Z.eq_dec b 0) as [->|]; [by rewrite Z.land_0_r in Hne|].
  assert (Z.log2 b < 64) by (apply Z.log2_lt_pow2; lia). lia.
Qed.

(** ** C arrays

    An array object is the list of its elements; [zget] reads index [i]
    (with a default that no in-range access meets), [zset] writes it. *)

Definition zget {A} (d : A) (l : list A) (i : Z) : A := nth (Z.to_nat i) l d.
Definition zset {A} (l : list A) (i : Z) (x : A) : list A := <[Z.to_nat i := x]> l.

Lemma zget_zset {A} (d : A) l i j x :
  0 <= i < Z.of_nat (length l) -> 0 <= j ->
  zget d (zset l i x) j = if i =? j then x else zget d l j.
Proof.
  intros Hi Hj. unfold zget, zset. rewrite !nth_lookup, list_lookup_insert.
  destruct (Z.eqb_spec i j) as [->|Hne].
  - rewrite decide_True by lia. done.
  - rewrite decide_False by lia. done.
Qed.

Lemma zset_length {A} (l : list A) i x : length (zset l i x) = length l.
Proof. apply length_insert. Qed.

Lemma zset_Forall {A} (P : A -> Prop) l i x :
  Forall P l -> P x -> Forall P (zset l i x).
Proof. intros. unfold zset. by apply Forall_insert. Qed.

Lemma zget_Forall {A} (P : A -> Prop) d l i : Forall P l -> P d -> P (zget d l i).
Proof.
  intros Hl Hd. unfold zget. rewrite nth_lookup.
  destruct (l !! Z.to_nat i) eqn:E; [|done]. simpl. by eapply Forall_lookup_1.
Qed.

#[export] Hint Rewrite @zset_length : machine.

(** ** Counting *)

Fixpoint countb {A} (f : A -> bool) (l : list A) : nat :=
  match l with
  | [] => 0
  | x :: l => ((if f x then 1 else 0) + countb f l)%nat
  end.

Section countb.
Context {A : Type}.
Implicit Types (f g : A -> bool) (l : list A).

Lemma countb_app f l k : countb f (l ++ k) = (countb f l + countb f k)%nat.
Proof. induction l; simpl; lia. Qed.

Lemma countb_le_length f l : (countb f l <= length l)%nat.
Proof. induction l; simpl; [lia|]. destruct (f a); lia. Qed.

Lemma countb_ext f g l : (forall x, x ∈ l -> f x = g x) -> countb f l = countb g l.
Proof.
  induction l as [|a l IH]; simpl; intros H; [done|].
  rewrite (H a), IH; [done| |]; intros; try apply H; set_solver.
Qed.

(** Overwriting one cell changes the count by that cell. *)
Lemma countb_insert f l i x y :
  l !! i = Some y ->
  (countb f (<[i := x]> l) + (if f y then 1 else 0) = countb f l + (if f x then 1 else 0))%nat.
Proof.
  revert i. induction l as [|a l IH]; intros [|i] H; simplify_eq/=; [lia|].
  specialize (IH i H). lia.
Qed.

Lemma countb_pos f l : (0 < countb f l)%nat <-> exists i x, l !! i = Some x /\ f x = true.
Proof.
  induction l as [|a l IH]; simpl.
  - split; [lia|]. intros (i & x & H & _). done.
  - destruct (f a) eqn:E.
    + split; [|lia]. intros _. by exists 0%nat, a.
    + rewrite IH. split.
      * intros (i & x & H & Hf). by exists (S i), x.
      * intros ([|i] & x & H & Hf); simpl in H; [congruence|by exists i, x].
Qed.
End countb.

(** Counting through the indices. *)
Lemma countb_seq {A} (f : A -> bool) (l : list A) :
  countb (fun i => match l !! i with Some x => f x | None => false end) (seq 0 (length l))
  = countb f l.
Proof.
  induction l as [|x l IH] using rev_ind; [done|].
  rewrite length_app, seq_app, !countb_app. simpl. f_equal.
  - rewrite <- IH. apply countb_ext. intros i Hi%elem_of_seq.
    by rewrite lookup_app_l by lia.
  - rewrite lookup_app_r, Nat.sub_diag by lia. done.
Qed.

(** ** Filtered lists *)

Lemma filter_ext_in {A} (P Q : A -> Prop) `{!forall x, Decision (P x), !forall x, Decision (Q x)} (l : list A) :
  (forall x, x ∈ l -> P x <-> Q x) -> filter P l = filter Q l.
Proof.
  induction l as [|x l IH]; intros HP; [done|]. rewrite !filter_cons, IH by (intros; apply HP; by right).
  assert (P x <-> Q x) by (apply HP; left). repeat case_decide; tauto || done.
Qed.

Lemma filter_all {A} (P : A -> Prop) `{!forall x, Decision (P x)} (l : list A) : (forall x, x ∈ l -> P x) -> filter P l = l.
Proof.
  induction l as [|x l IH]; intros HP; [done|]. rewrite filter_cons, IH by (intros; apply HP; by right). rewrite decide_True; [done|apply HP; left].
Qed.

Lemma filter_none {A} (P : A -> Prop) `{!forall x, Decision (P x)} (l : list A) : (forall x, x ∈ l -> ~ P x) -> filter P l = [].
Proof.
  induction l as [|x l IH]; intros HP; [done|]. rewrite filter_cons, IH by (intros; apply HP; by right). rewrite decide_False; [done|apply HP; left].
Qed.

(** Taking a prefix out of a duplicate-free list leaves the rest of it. *)
Lemma filter_not_prefix {A} `{!EqDecision A} (l : list A) n : NoDup l -> filter (fun x => x ∉ take n l) l = drop n l.
Proof.
  intros Hnd. transitivity (filter (fun x => x ∉ take n l) (take n l ++ drop n l)); [by rewrite take_drop|].
  rewrite <- (take_drop n l) in Hnd. apply NoDup_app in Hnd as (_ & Hd & _). rewrite filter_app.
  rewrite filter_none by (intros x Hx Hn; done). apply filter_all. intros x Hx Hp. by apply (Hd x).
Qed.

(** ** Alignment to a power of two, as the source masks it *)

Lemma land_low x k : 0 <= k -> Z.land x (2 ^ k - 1) = x mod 2 ^ k.
Proof. intros. rewrite <- Z.land_ones by done. by rewrite Z.ones_equiv, Z.sub_1_r. Qed.

Lemma land_align x k :
  0 <= k <= 64 -> 0 <= x < W64 -> Z.land x (u64 (Z.lnot (2 ^ k - 1))) = x - x mod 2 ^ k.
Proof.
  intros Hk Hx. unfold u64. change W64 with (2 ^ 64).
  rewrite <- (Z.land_ones (Z.lnot _)) by lia.
  rewrite Z.land_comm, <- Z.land_assoc, (Z.land_comm _ x), Z.land_ones by lia.
  rewrite Z.mod_small by (change (2 ^ 64) with W64; lia).
  rewrite Z.land_comm, <- Z.ldiff_land.
  replace (2 ^ k - 1) with (Z.ones k) by (rewrite Z.ones_equiv; lia).
  rewrite Z.ldiff_ones_r by lia.
  rewrite Z.shiftr_div_pow2, Z.shiftl_mul_pow2 by lia.
  pose proof (Z.div_mod x (2 ^ k) ltac:(lia)). lia.
Qed.

(** ** Congruence modulo 2^64

    Wrapped sums and products are compared up to [eqm]; [u64] and [i64] do not see the
    difference. *)

Definition eqm (x y : Z) : Prop := exists k, x = y + k * W64.

#[export] Instance eqm_equiv : Equivalence eqm.
Proof.
  split.
  - intros x. exists 0. ring.
  - intros x y [k ->]. exists (- k). ring.
  - intros x y z [k ->] [j ->]. exists (k + j). ring.
Qed.

#[export] Instance eqm_add : Proper (eqm ==> eqm ==> eqm) Z.add.
Proof. intros x x' [k ->] y y' [j ->]. exists (k + j). ring. Qed.

#[export] Instance eqm_sub : Proper (eqm ==> eqm ==> eqm) Z.sub.
Proof. intros x x' [k ->] y y' [j ->]. exists (k - j). ring. Qed.

#[export] Instance eqm_mul : Proper (eqm ==> eqm ==> eqm) Z.mul.
Proof. intros x x' [k ->] y y' [j ->]. exists (x' * j + k * y' + k * j * W64). ring. Qed.

#[export] Instance eqm_u64 : Proper (eqm ==> eq) u64.
Proof. intros x x' [k ->]. apply Z_mod_plus_full. Qed.

#[export] Instance eqm_i64 : Proper (eqm ==> eq) i64.
Proof. intros x x' [k ->]. unfold i64. f_equal. replace (x' + k * W64 + W63) with (x' + W63 + k * W64) by ring. apply Z_mod_plus_full. Qed.

Lemma u64_eqm x : eqm (u64 x) x.
Proof. exists (- (x / W64)). unfold u64. pose proof (Z_div_mod_eq_full x W64). lia. Qed.

Lemma i64_eqm x : eqm (i64 x) x.
Proof. exists (- ((x + W63) / W64)). unfold i64. pose proof (Z_div_mod_eq_full (x + W63) W64). lia. Qed.

Lemma eq_eqm x y : x = y -> eqm x y.
Proof. by intros ->. Qed.

(** Equal wraps of terms that agree once the inner wraps are dropped. *)
Ltac wrap_ring := (apply eqm_i64 || apply eqm_u64); rewrite ?i64_eqm, ?u64_eqm; apply eq_eqm.

(** ** Sums over lists *)

Definition zsum {A} (f : A -> Z) (l : list A) : Z := foldr (fun x acc => f x + acc) 0 l.

Lemma zsum_app {A} (f : A -> Z) l k : zsum f (l ++ k) = zsum f l + zsum f k.
Proof. induction l as [|x l IH]; simpl; [done|]. rewrite IH. ring. Qed.

Lemma zsum_ext {A} (f g : A -> Z) l : (forall x, x ∈ l -> f x = g x) -> zsum f l = zsum g l.
Proof.
  intros H. induction l as [|x l IH]; simpl; [done|]. rewrite H by (apply elem_of_cons; by left). f_equal. apply IH.
  intros y Hy. apply H. apply elem_of_cons. by right.
Qed.

Lemma zsum_middle {A} (f : A -> Z) l x k : zsum f (l ++ x :: k) = f x + zsum f (l ++ k).
Proof. rewrite !zsum_app. simpl. ring. Qed.

Lemma zsum_insert {A} (f : A -> Z) l i x y : l !! i = Some y -> zsum f (<[i := x]> l) = zsum f l - f y + f x.
Proof.
  revert i. induction l as [|z l IH]; intros [|i] H; simpl in *; simplify_eq; [ring|]. rewrite (IH i H). ring.
Qed.
