(* ===== verification/PidAlloc.v ===== *)
(** * PID number allocator (kernel/sched/pid_alloc.c, pid_alloc.h)

    A bitmap of the whole pid space and a rising cursor.  The bitmap is the
    list of its [PID_WORDS] 64-bit words; the spinlock is not modelled, each
    public operation being one critical section of it.

    Theorems: the word-skipping [scan] equals a naive first-free search; the
    allocator hands out the first free pid in cyclic order from the cursor,
    reports exhaustion exactly when every pid is taken, and no interleaving of
    allocations and frees makes two live processes share a pid. *)

From stdpp Require Import base numbers list sets.
From S2P Require Import Prelude.

Definition MAX_PIDS : Z := 1048576.
Definition PID_WORDS : Z := 16384.

Record pid_allocator := PidAllocator {
  bitmap : list Z;
  cursor : Z;
  wrapped : Z;
}.

(** ** Operations *)

(** [bm[w]]; the accesses below are in range, see [pid_wf]. *)
Definition word (bm : list Z) (w : Z) : Z := zget 0 bm w.

Definition bit_test (bm : list Z) (pid : Z) : Z :=
  Z.land (Z.shiftr (word bm (Z.shiftr pid 6)) (Z.land pid 63)) 1.

Definition bit_set (bm : list Z) (pid : Z) : list Z :=
  let w := Z.shiftr pid 6 in
  zset bm w (Z.lor (word bm w) (Z.shiftl 1 (Z.land pid 63))).

Definition bit_clear (bm : list Z) (pid : Z) : list Z :=
  let w := Z.shiftr pid 6 in
  zset bm w (Z.land (word bm w) (u64 (Z.lnot (Z.shiftl 1 (Z.land pid 63))))).

Definition pid_allocator_init : pid_allocator :=
  {| bitmap := bit_set (repeat 0 (Z.to_nat PID_WORDS)) 0; cursor := 1; wrapped := 0 |}.

(** The loop of [scan]; [None] would be a loop that does not end. *)
Fixpoint scan_loop (fuel : nat) (a : pid_allocator) (pid to : Z) : option Z :=
  match fuel with
  | O => None
  | S fuel =>
      if pid <? to then
        let w := Z.shiftr pid 6 in
        if word (bitmap a) w =? UINT64_MAX then
          scan_loop fuel a (Z.shiftl (w + 1) 6) to
        else if negb (ctrue (bit_test (bitmap a) pid)) then Some pid
        else scan_loop fuel a (pid + 1) to
      else Some 0
  end.

Definition scan (a : pid_allocator) (from to : Z) : option Z :=
  scan_loop (S (Z.to_nat (to - from))) a from to.

Definition pid_alloc (a : pid_allocator) : option (Z * pid_allocator) :=
  pid1 ← scan a (cursor a) MAX_PIDS;
  let a1 := if pid1 =? 0 then PidAllocator (bitmap a) (cursor a) 1 else a in
  pid ← (if pid1 =? 0 then scan a1 1 (cursor a1) else Some pid1);
  if pid =? 0 then Some (0, a1)
  else
    let bm := bit_set (bitmap a1) pid in
    if MAX_PIDS <=? pid + 1 then Some (pid, PidAllocator bm 1 1)
    else Some (pid, PidAllocator bm (pid + 1) (wrapped a1)).

Definition pid_free (a : pid_allocator) (pid : Z) : pid_allocator :=
  if (pid <=? 0) || (MAX_PIDS <=? pid) then a
  else PidAllocator (bit_clear (bitmap a) pid) (cursor a) (wrapped a).

Definition pid_alloc_has_wrapped (a : pid_allocator) : Z := wrapped a.

(** ** Abstraction and invariant *)

Definition in_use (a : pid_allocator) (pid : Z) : bool :=
  Z.testbit (word (bitmap a) (pid / 64)) (pid mod 64).

Record pid_wf (a : pid_allocator) : Prop := {
  pw_len : length (bitmap a) = Z.to_nat PID_WORDS;
  pw_words : Forall (fun w => 0 <= w < W64) (bitmap a);
  pw_cursor : 1 <= cursor a < MAX_PIDS;
  pw_idle : in_use a 0 = true;
}.

(** The pids of [[from, to)] in increasing order. *)
Definition pids (from to : Z) : list Z := seqZ from (to - from).

(** Reference definition: the first free pid in cyclic order from [cur]. *)
Definition next_free (used : Z -> bool) (cur : Z) : option Z :=
  List.find (fun p => negb (used p)) (pids cur MAX_PIDS ++ pids 1 cur).

(** ** Bit-level lemmas *)

Lemma pid_split pid : Z.shiftr pid 6 = pid / 64 /\ Z.land pid 63 = pid mod 64.
Proof.
  split; [by rewrite Z.shiftr_div_pow2 by lia|].
  change 63 with (Z.ones 6). by rewrite Z.land_ones by lia.
Qed.

Lemma land_1_testbit z k : 0 <= k -> Z.land (Z.shiftr z k) 1 = b2z (Z.testbit z k).
Proof.
  intros Hk. change 1 with (Z.ones 1). rewrite Z.land_ones by lia.
  rewrite Z.shiftr_div_pow2 by lia. change (2 ^ 1) with 2.
  rewrite <- Z.testbit_spec' by lia. by destruct (Z.testbit z k).
Qed.

Lemma bit_test_in_use a pid : ctrue (bit_test (bitmap a) pid) = in_use a pid.
Proof.
  unfold bit_test, in_use. destruct (pid_split pid) as [-> ->].
  rewrite land_1_testbit by dlia.
  by destruct (Z.testbit _ _).
Qed.

Lemma word_range a w : pid_wf a -> 0 <= word (bitmap a) w < W64.
Proof.
  intros Hwf. unfold word. apply (zget_Forall (fun w => 0 <= w < W64)); [apply Hwf|lia].
Qed.

(** Pids below [MAX_PIDS] index a word of the bitmap. *)
Lemma pid_index a pid :
  pid_wf a -> 0 <= pid < MAX_PIDS -> 0 <= pid / 64 < Z.of_nat (length (bitmap a)).
Proof. intros Hwf Hp. rewrite (pw_len _ Hwf). unfold MAX_PIDS, PID_WORDS in *. dlia. Qed.

Lemma shift1_testbit k i : 0 <= k -> 0 <= i -> Z.testbit (Z.shiftl 1 k) i = (k =? i).
Proof.
  intros. rewrite Z.shiftl_1_l, Z.pow2_bits_eqb by lia. done.
Qed.

Lemma in_use_set a c w pid q :
  pid_wf a -> 0 <= pid < MAX_PIDS -> 0 <= q ->
  in_use (PidAllocator (bit_set (bitmap a) pid) c w) q = ((pid =? q) || in_use a q)%bool.
Proof.
  intros Hwf Hp Hq. unfold in_use, bit_set, word; simpl.
  destruct (pid_split pid) as [-> ->].
  rewrite zget_zset by (auto using pid_index; dlia).
  destruct (Z.eqb_spec (pid / 64) (q / 64)) as [E|E].
  - rewrite Z.lor_spec, shift1_testbit, E, orb_comm by dlia. f_equal.
    destruct (Z.eqb_spec pid q), (Z.eqb_spec (pid mod 64) (q mod 64)); try done; dlia.
  - destruct (Z.eqb_spec pid q); [by subst|done].
Qed.

Lemma in_use_clear a c w pid q :
  pid_wf a -> 0 <= pid < MAX_PIDS -> 0 <= q ->
  in_use (PidAllocator (bit_clear (bitmap a) pid) c w) q = (negb (pid =? q) && in_use a q)%bool.
Proof.
  intros Hwf Hp Hq. unfold in_use, bit_clear, word; simpl.
  destruct (pid_split pid) as [-> ->].
  rewrite zget_zset by (auto using pid_index; dlia).
  destruct (Z.eqb_spec (pid / 64) (q / 64)) as [E|E].
  - unfold u64. change W64 with (2 ^ 64).
    rewrite Z.land_spec, Z.mod_pow2_bits_low, Z.lnot_spec, shift1_testbit, E, andb_comm by dlia.
    f_equal. f_equal.
    destruct (Z.eqb_spec pid q), (Z.eqb_spec (pid mod 64) (q mod 64)); try done; dlia.
  - destruct (Z.eqb_spec pid q); [by subst|done].
Qed.

(** A full word has all 64 of its pids in use. *)
Lemma full_word_in_use a pid q :
  word (bitmap a) (pid / 64) = UINT64_MAX -> pid / 64 = q / 64 -> in_use a q = true.
Proof.
  intros Hw E. unfold in_use. rewrite <- E, Hw.
  change UINT64_MAX with (Z.ones 64). apply Z.ones_spec_low. dlia.
Qed.

(** ** The scan *)

Definition free_in (a : pid_allocator) (p : Z) : bool := negb (in_use a p).

Lemma pids_cons from to : from < to -> pids from to = from :: pids (from + 1) to.
Proof. intros. unfold pids. rewrite seqZ_cons by lia. f_equal. f_equal; lia. Qed.

Lemma pids_nil from to : to <= from -> pids from to = [].
Proof. intros. unfold pids. apply seqZ_nil. lia. Qed.

Lemma elem_of_pids from to p : p ∈ pids from to <-> from <= p < to.
Proof. unfold pids. rewrite elem_of_seqZ. lia. Qed.

Lemma find_pids_skip f from to n :
  (forall q, from <= q < from + Z.of_nat n -> f q = false) ->
  List.find f (pids from to) = List.find f (pids (from + Z.of_nat n) to).
Proof.
  revert from. induction n as [|n IH]; intros from Hf; [by rewrite Z.add_0_r|].
  destruct (Z.lt_ge_cases from to) as [Hlt|Hge].
  - rewrite pids_cons by done. simpl. rewrite Hf by lia.
    rewrite IH by (intros; apply Hf; lia). f_equal. f_equal. lia.
  - by rewrite !pids_nil by lia.
Qed.

Lemma scan_loop_spec fuel a pid to :
  pid_wf a -> 0 <= pid -> Z.max 0 (to - pid) < Z.of_nat fuel ->
  scan_loop fuel a pid to = Some (default 0 (List.find (free_in a) (pids pid to))).
Proof.
  intros Hwf. revert pid. induction fuel as [|fuel IH]; intros pid Hpid Hfuel; simpl.
  - lia.
  - destruct (Z.ltb_spec pid to) as [Hlt|Hge]; [|by rewrite pids_nil].
    rewrite bit_test_in_use. destruct (pid_split pid) as [-> _].
    rewrite Z.shiftl_mul_pow2 by lia. change (2 ^ 6) with 64.
    destruct (Z.eqb_spec (word (bitmap a) (pid / 64)) UINT64_MAX) as [Hfull|_].
    + rewrite IH by dlia. do 2 f_equal.
      replace ((pid / 64 + 1) * 64) with (pid + Z.of_nat (Z.to_nat ((pid / 64 + 1) * 64 - pid))) by dlia.
      symmetry. apply find_pids_skip. intros q Hq. unfold free_in.
      rewrite (full_word_in_use a pid q); [done|done|dlia].
    + rewrite (pids_cons pid to) by done. simpl. unfold free_in at 1.
      destruct (in_use a pid); simpl; [|done]. rewrite IH by lia. done.
Qed.

Lemma pidalloc_scan_spec a from to :
  pid_wf a -> 0 <= from ->
  scan a from to = Some (default 0 (List.find (free_in a) (pids from to))).
Proof. intros. unfold scan. apply scan_loop_spec; [done|done|lia]. Qed.

Lemma find_app {A} (f : A -> bool) l1 l2 :
  List.find f (l1 ++ l2) =
  match List.find f l1 with Some x => Some x | None => List.find f l2 end.
Proof. induction l1 as [|x l1 IH]; [done|]. simpl. by destruct (f x). Qed.

Lemma find_pids_Some f from to p :
  List.find f (pids from to) = Some p -> from <= p < to /\ f p = true.
Proof.
  intros [Hin Hf]%find_some. split; [|done].
  by apply elem_of_pids, list_elem_of_In.
Qed.

Lemma find_pids_None f from to :
  List.find f (pids from to) = None <-> (forall p, from <= p < to -> f p = false).
Proof.
  split.
  - intros H p Hp. eapply find_none; [done|]. by apply list_elem_of_In, elem_of_pids.
  - intros H. destruct (List.find f (pids from to)) as [p|] eqn:E; [|done].
    apply find_pids_Some in E as [Hp Hf]. by rewrite H in Hf.
Qed.

Lemma find_pids_first f from to p q :
  List.find f (pids from to) = Some p -> from <= q < p -> f q = false.
Proof.
  intros E Hq. pose proof (find_pids_Some _ _ _ _ E) as [Hp _].
  destruct (f q) eqn:Hfq; [|done]. exfalso.
  assert (exists r, List.find f (pids from (q + 1)) = Some r) as [r Hr].
  { destruct (List.find f (pids from (q + 1))) eqn:E'; [eauto|].
    rewrite find_pids_None in E'. rewrite E' in Hfq by lia. done. }
  assert (pids from to = pids from (q + 1) ++ pids (q + 1) to) as Happ.
  { unfold pids. replace (to - from) with ((q + 1 - from) + (to - (q + 1))) by lia.
    rewrite seqZ_app by lia. f_equal. f_equal. lia. }
  rewrite Happ, find_app, Hr in E. apply find_pids_Some in Hr as [Hr _].
  simplify_eq. lia.
Qed.

(** ** Allocation *)

(** The concrete allocator computes the reference [next_free]. *)
Lemma pid_alloc_next_free a :
  pid_wf a ->
  match next_free (in_use a) (cursor a) with
  | Some p => exists c w, pid_alloc a = Some (p, PidAllocator (bit_set (bitmap a) p) c w)
      /\ c = (if MAX_PIDS <=? p + 1 then 1 else p + 1)
      /\ 1 <= p < MAX_PIDS /\ in_use a p = false
  | None => pid_alloc a = Some (0, PidAllocator (bitmap a) (cursor a) 1)
  end.
Proof.
  intros Hwf. pose proof (pw_cursor _ Hwf) as Hc. unfold next_free, pid_alloc.
  rewrite find_app. change (fun p => negb (in_use a p)) with (free_in a).
  rewrite pidalloc_scan_spec by (done || lia). simpl.
  destruct (List.find (free_in a) (pids (cursor a) MAX_PIDS)) as [p|] eqn:E1; simpl.
  - apply find_pids_Some in E1 as [Hp Hf%negb_true_iff].
    destruct (Z.eqb_spec p 0); [lia|]. simpl. destruct (Z.eqb_spec p 0); [lia|].
    destruct (Z.leb_spec MAX_PIDS (p + 1)); do 2 eexists; repeat split; eauto; lia.
  - assert (pid_wf (PidAllocator (bitmap a) (cursor a) 1)) as Hwf1 by by destruct Hwf.
    rewrite pidalloc_scan_spec by (done || lia). simpl.
    change (free_in (PidAllocator (bitmap a) (cursor a) 1)) with (free_in a).
    destruct (List.find (free_in a) (pids 1 (cursor a))) as [p|] eqn:E2; simpl; [|done].
    apply find_pids_Some in E2 as [Hp Hf%negb_true_iff].
    destruct (Z.eqb_spec p 0); [lia|].
    destruct (Z.leb_spec MAX_PIDS (p + 1)); do 2 eexists; repeat split; eauto; lia.
Qed.

(** ** Invariant preservation *)

Lemma shift1_range pid : 0 <= Z.shiftl 1 (pid mod 64) < W64.
Proof.
  rewrite Z.shiftl_1_l. split; [apply Z.pow_nonneg; lia|].
  change W64 with (2 ^ 64). apply Z.pow_lt_mono_r; dlia.
Qed.

Lemma bit_set_wf a pid c w :
  pid_wf a -> 0 <= pid < MAX_PIDS -> 1 <= c < MAX_PIDS ->
  pid_wf (PidAllocator (bit_set (bitmap a) pid) c w).
Proof.
  intros Hwf Hp Hc. split; simpl; [| |done|].
  - unfold bit_set. rewrite zset_length. apply Hwf.
  - unfold bit_set. destruct (pid_split pid) as [-> ->].
    apply (zset_Forall (fun w => 0 <= w < W64)); [apply Hwf|].
    apply u64_lor; [by apply word_range|apply shift1_range].
  - rewrite in_use_set by (done || lia). rewrite (pw_idle _ Hwf). apply orb_true_r.
Qed.

Lemma bit_clear_wf a pid c w :
  pid_wf a -> 0 < pid < MAX_PIDS -> 1 <= c < MAX_PIDS ->
  pid_wf (PidAllocator (bit_clear (bitmap a) pid) c w).
Proof.
  intros Hwf Hp Hc. split; simpl; [| |done|].
  - unfold bit_clear. rewrite zset_length. apply Hwf.
  - unfold bit_clear. apply (zset_Forall (fun w => 0 <= w < W64)); [apply Hwf|].
    apply u64_land; [by apply word_range|apply u64_range].
  - rewrite in_use_clear by (done || lia). rewrite (pw_idle _ Hwf).
    by destruct (Z.eqb_spec pid 0); [lia|].
Qed.

Lemma pid_allocator_init_wf : pid_wf pid_allocator_init.
Proof.
  split; [by vm_compute| |by vm_compute|by vm_compute].
  assert (forallb (fun w => (0 <=? w) && (w <? W64)) (bitmap pid_allocator_init) = true) as H
    by by vm_compute.
  rewrite forallb_forall in H. apply Forall_forall. intros w Hw.
  specialize (H w (proj1 (list_elem_of_In _ _) Hw)). zbool. lia.
Qed.

Lemma in_use_init p : 1 <= p < MAX_PIDS -> in_use pid_allocator_init p = false.
Proof.
  intros Hp. unfold in_use, word.
  assert (bitmap pid_allocator_init = zset (repeat 0 (Z.to_nat PID_WORDS)) 0 1) as ->
    by reflexivity.
  rewrite zget_zset; [|rewrite repeat_length; unfold PID_WORDS; lia|dlia].
  unfold zget. rewrite nth_repeat.
  destruct (Z.eqb_spec 0 (p / 64)); [|apply Z.bits_0].
  change 1 with (Z.shiftl 1 0) at 1. rewrite shift1_testbit by dlia.
  apply Z.eqb_neq. dlia.
Qed.

(** ** Clients: sequences of allocations and frees *)

Inductive pid_op := OpAlloc | OpFree (p : Z).

(** [live] are the pids handed out and not yet freed; a client frees only what
    it owns. *)
Definition pid_step (op : pid_op) (st : pid_allocator * list Z)
    : option (pid_allocator * list Z) :=
  let '(a, live) := st in
  match op with
  | OpAlloc =>
      '(p, a') ← pid_alloc a;
      Some (a', if p =? 0 then live else p :: live)
  | OpFree p =>
      Some (if bool_decide (p ∈ live) then (pid_free a p, list_difference live [p]) else st)
  end.

Fixpoint pid_run (ops : list pid_op) (st : pid_allocator * list Z)
    : option (pid_allocator * list Z) :=
  match ops with
  | [] => Some st
  | op :: ops => st' ← pid_step op st; pid_run ops st'
  end.

Record pid_inv (st : pid_allocator * list Z) : Prop := {
  pi_wf : pid_wf st.1;
  pi_nodup : NoDup st.2;
  pi_live : forall p, 1 <= p < MAX_PIDS -> in_use st.1 p = bool_decide (p ∈ st.2);
  pi_range : forall p, p ∈ st.2 -> 1 <= p < MAX_PIDS;
}.

Lemma next_free_range a p :
  pid_wf a -> next_free (in_use a) (cursor a) = Some p ->
  1 <= (if MAX_PIDS <=? p + 1 then 1 else p + 1) < MAX_PIDS.
Proof.
  intros Hwf E. pose proof (pid_alloc_next_free a Hwf) as H. rewrite E in H.
  destruct H as (c & w & _ & _ & Hp & _). unfold MAX_PIDS in *. zcases; lia.
Qed.

Lemma pid_step_inv op st : pid_inv st -> exists st', pid_step op st = Some st' /\ pid_inv st'.
Proof.
  destruct st as [a live]. intros [Hwf Hnd Hlive Hrange]. simpl in *.
  destruct op as [|p]; simpl.
  - pose proof (pid_alloc_next_free a Hwf) as H.
    destruct (next_free (in_use a) (cursor a)) as [p|] eqn:E.
    + destruct H as (c & w & -> & -> & Hp & Hf). simpl. eexists; split; [done|].
      destruct (Z.eqb_spec p 0); [lia|].
      assert (p ∉ live) as Hnin by (intros Hin; rewrite Hlive, bool_decide_true in Hf by done; done).
      split; simpl.
      * apply bit_set_wf; [done|lia|by eapply next_free_range].
      * by constructor.
      * intros q Hq. rewrite in_use_set by (done || lia). rewrite Hlive by done.
        destruct (Z.eqb_spec p q); simpl; [rewrite bool_decide_true; set_solver|].
        apply bool_decide_ext. set_solver.
      * intros q [->|?]%elem_of_cons; auto.
    + rewrite H. simpl. eexists; split; [done|]. by destruct Hwf; split.
  - eexists; split; [done|]. case_bool_decide as Hin; [|done].
    pose proof (Hrange p Hin) as Hp. unfold pid_free.
    destruct (Z.leb_spec p 0); [lia|]. destruct (Z.leb_spec MAX_PIDS p); [lia|]. simpl.
    split; simpl.
    * apply bit_clear_wf; [done|lia|apply Hwf].
    * by apply NoDup_list_difference.
    * intros q Hq. rewrite in_use_clear by (done || lia). rewrite Hlive by done.
      destruct (Z.eqb_spec p q); simpl.
      -- symmetry. apply bool_decide_false. rewrite list_elem_of_difference. set_solver.
      -- apply bool_decide_ext. rewrite list_elem_of_difference. set_solver.
    * intros q [? _]%list_elem_of_difference. auto.
Qed.

Lemma pid_run_inv ops st : pid_inv st -> exists st', pid_run ops st = Some st' /\ pid_inv st'.
Proof.
  revert st. induction ops as [|op ops IH]; intros st Hinv; simpl; [eauto|].
  destruct (pid_step_inv op st Hinv) as (st' & -> & Hinv'). simpl. by apply IH.
Qed.

(** ** Properties *)

(** C34: the optimised allocator (word-skipping scan from the cursor to the end,
    then from 1 to the cursor) always returns, and returns exactly the first free
    pid in cyclic order from the cursor; it marks that pid and no other, moves the
    cursor just past it, and answers 0 without touching the bitmap exactly when
    no pid is free. *)
Theorem pid_alloc_correct (a : pid_allocator) :
  pid_wf a ->
  exists p a', pid_alloc a = Some (p, a') /\ pid_wf a' /\
    match next_free (in_use a) (cursor a) with
    | Some q => p = q /\ (forall r, 0 <= r -> in_use a' r = ((q =? r) || in_use a r)%bool)
        /\ cursor a' = (if q + 1 <? MAX_PIDS then q + 1 else 1)
    | None => p = 0 /\ bitmap a' = bitmap a /\ cursor a' = cursor a
        /\ (forall r, 1 <= r < MAX_PIDS -> in_use a r = true)
    end.
Proof.
  intros Hwf. pose proof (pid_alloc_next_free a Hwf) as H.
  destruct (next_free (in_use a) (cursor a)) as [q|] eqn:E.
  - destruct H as (c & w & -> & -> & Hq & Hf). do 2 eexists. split; [done|].
    split; [apply bit_set_wf; [done|lia|by eapply next_free_range]|].
    split; [done|]. split; [intros; by apply in_use_set; [|lia|]|].
    simpl. zcases; lia.
  - rewrite H. do 2 eexists. split; [done|]. split; [by destruct Hwf|].
    repeat split. intros r Hr. unfold next_free in E. rewrite find_app in E.
    destruct (List.find _ (pids (cursor a) _)) eqn:E1; [done|].
    rewrite find_pids_None in E1, E. apply negb_false_iff.
    destruct (Z.lt_ge_cases r (cursor a)); [apply E|apply E1]; lia.
Qed.

Lemma pid_alloc_correct_witness :
  exists p a', pid_alloc pid_allocator_init = Some (p, a') /\ pid_wf a' /\ p = 1.
Proof.
  destruct (pid_alloc_correct pid_allocator_init pid_allocator_init_wf)
    as (p & a' & E & Hwf & _).
  exists p, a'. split; [exact E|]. split; [exact Hwf|].
  assert (fst <$> pid_alloc pid_allocator_init = Some 1) as H1 by (vm_compute; reflexivity).
  rewrite E in H1. simpl in H1. congruence.
Defined.

(** reuse distance.  A pid below the cursor -- in particular one just freed
    behind it -- is handed out only when every pid from the cursor to the top is
    in use. *)
Theorem pid_alloc_reuse_distance (a a' : pid_allocator) (p : Z) :
  pid_wf a -> pid_alloc a = Some (p, a') -> 0 < p < cursor a ->
  (forall q, cursor a <= q < MAX_PIDS -> in_use a q = true)
  /\ (forall q, 1 <= q < p -> in_use a q = true) /\ wrapped a' = 1.
Proof.
  intros Hwf E Hp. unfold pid_alloc in E.
  rewrite pidalloc_scan_spec in E by (done || (destruct Hwf; lia)). simpl in E.
  destruct (List.find (free_in a) (pids (cursor a) MAX_PIDS)) as [r|] eqn:E1; simpl in E.
  - apply find_pids_Some in E1 as [Hr _]. pose proof (pw_cursor _ Hwf).
    destruct (Z.eqb_spec r 0); [lia|]. simpl in E.
    destruct (Z.eqb_spec r 0); [lia|]. destruct (_ <=? _); simplify_eq; lia.
  - rewrite pidalloc_scan_spec in E by (by destruct Hwf). simpl in E.
    change (free_in (PidAllocator (bitmap a) (cursor a) 1)) with (free_in a) in E.
    destruct (List.find (free_in a) (pids 1 (cursor a))) as [r|] eqn:E2; simpl in E;
      [|simplify_eq; lia].
    destruct (Z.eqb_spec r 0); [simplify_eq; lia|].
    assert (p = r /\ wrapped a' = 1) as [-> Hw] by (destruct (_ <=? _); by simplify_eq).
    rewrite find_pids_None in E1. split; [|split; [|done]].
    + intros q Hq. apply negb_false_iff, E1, Hq.
    + intros q Hq. apply negb_false_iff. by apply (find_pids_first (free_in a) _ _ _ _ E2).
Qed.

(** Cursor parked on the last pid, which is the only one taken above the cursor. *)
Definition wrap_demo : pid_allocator :=
  PidAllocator (bit_set (bitmap pid_allocator_init) (MAX_PIDS - 1)) (MAX_PIDS - 1) 0.

Lemma pid_alloc_reuse_distance_witness :
  in_use wrap_demo (MAX_PIDS - 1) = true /\ 0 < 1 < cursor wrap_demo.
Proof.
  assert (pid_wf wrap_demo) as Hwf
    by (apply bit_set_wf; [apply pid_allocator_init_wf|unfold MAX_PIDS; lia..]).
  assert (exists a', pid_alloc wrap_demo = Some (1, a')) as [a' E].
  { destruct (pid_alloc wrap_demo) as [[p a']|] eqn:E.
    - assert (fst <$> pid_alloc wrap_demo = Some 1) as H by (vm_compute; reflexivity).
      rewrite E in H. simpl in H. exists a'. congruence.
    - assert (fst <$> pid_alloc wrap_demo = Some 1) as H by (vm_compute; reflexivity).
      rewrite E in H. discriminate. }
  assert (0 < 1 < cursor wrap_demo) as Hc by (unfold wrap_demo, MAX_PIDS; simpl; lia).
  split; [|exact Hc].
  apply (proj1 (pid_alloc_reuse_distance wrap_demo a' 1 Hwf E Hc)).
  change (MAX_PIDS - 1 <= MAX_PIDS - 1 < MAX_PIDS). lia.
Defined.

(** whatever the sequence of allocations and frees from boot, every call
    returns, the pids that are live at any moment are pairwise distinct, lie in
    [1, MAX_PIDS), and are exactly the pids whose bit is set. *)
Theorem pid_live_distinct (ops : list pid_op) :
  exists a live, pid_run ops (pid_allocator_init, []) = Some (a, live) /\ NoDup live /\
    (forall p, p ∈ live <-> 1 <= p < MAX_PIDS /\ in_use a p = true).
Proof.
  destruct (pid_run_inv ops (pid_allocator_init, [])) as ([a live] & E & Hinv).
  { split; simpl; [apply pid_allocator_init_wf|constructor| |set_solver].
    intros p Hp. by rewrite in_use_init by done. }
  exists a, live. split; [exact E|]. destruct Hinv as [_ Hnd Hlive Hrange]; simpl in *.
  split; [done|]. intros p. split.
  - intros Hin. pose proof (Hrange p Hin) as Hp. split; [done|].
    rewrite Hlive by done. by apply bool_decide_true.
  - intros [Hp Hu]. rewrite Hlive in Hu by done. by apply bool_decide_eq_true in Hu.
Qed.
