(* ===== verification/Pipe.v ===== *)
(** * POSIX pipes (kernel/ipc/pipe.c, pipe.h)

    [pipe] is the ring buffer with its end counts.  [pipe_read_ep],
    [pipe_write_ep], [pipe_dup_ep] and [pipe_close_ep] are modelled as the
    critical sections of the pipe lock they consist of, with the points where
    the lock is dropped (sleeping, waking a wait queue) as the control points
    [pc] of a thread; [exec] interleaves the sections of any number of threads.
    A wait queue (kernel/sync/waitq.c) is the FIFO of the threads blocked on it:
    [waitq_sleep] enqueues before the pipe lock is released, [waitq_wake_all]
    empties the queue.  Ghost fields record every byte that entered and left.

    Theorems: the ring refines a bounded FIFO; the bytes delivered are a prefix
    of the bytes accepted under every interleaving; a blocked reader always has
    a wake-up coming once data or end-of-file is there; and a blocked writer
    need not: a trace is exhibited in which the last reader closes and the
    writer sleeps for ever. *)

From stdpp Require Import base numbers list gmap sets.
From S2P Require Import Prelude.

Definition PIPE_CAPACITY : Z := 4096.

Record pipe := Pipe {
  buf : list Z;
  head : Z;
  count : Z;
  readers_open : Z;
  writers_open : Z;
  refs : Z;
}.

(** ** The ring buffer *)

(** [pipe_alloc] (kmalloc and zeroing) followed by [pipe_init_ends]. *)
Definition pipe_alloc : pipe :=
  Pipe (repeat 0 (Z.to_nat PIPE_CAPACITY)) 0 0 0 0 0.

Definition pipe_init_ends (p : pipe) : pipe :=
  Pipe (buf p) (head p) (count p) 1 1 2.

(** [n] bytes starting at ring index [i]. *)
Definition ring_slice (b : list Z) (i n : Z) : list Z :=
  (fun k => zget 0 b ((i + k) mod PIPE_CAPACITY)) <$> seqZ 0 n.

Definition ring_read (p : pipe) (want : Z) : list Z * pipe :=
  let n := if want <? count p then want else count p in
  (ring_slice (buf p) (head p) n,
   Pipe (buf p) ((head p + n) mod PIPE_CAPACITY) (count p - n)
        (readers_open p) (writers_open p) (refs p)).

(** The store loop: byte [i] of [l] goes to index [(tail + i) % PIPE_CAPACITY]. *)
Fixpoint ring_store (b : list Z) (tail : Z) (l : list Z) : list Z :=
  match l with
  | [] => b
  | x :: l => ring_store (zset b (tail mod PIPE_CAPACITY) x) (tail + 1) l
  end.

(** [inp] is the caller's buffer from the current position on. *)
Definition ring_write (p : pipe) (inp : list Z) (want : Z) : Z * pipe :=
  let space := PIPE_CAPACITY - count p in
  let n := if want <? space then want else space in
  let tail := (head p + count p) mod PIPE_CAPACITY in
  (n, Pipe (ring_store (buf p) tail (take (Z.to_nat n) inp)) (head p) (count p + n)
           (readers_open p) (writers_open p) (refs p)).

(** ** Control points of a thread *)

Inductive wq := Readers | Writers.

Inductive pc :=
  | Done (rc : Z)                                   (* outside; [rc] is the last result *)
  | RdLoop (nb : bool) (len : Z)                    (* about to take the lock *)
  | RdAsleep (nb : bool) (len : Z)                  (* blocked on [readers] *)
  | RdResumed (nb : bool) (len : Z)                 (* back from schedule() *)
  | WrLoop (nb : bool) (data : list Z) (written : Z)
  | WrFull (nb : bool) (data : list Z) (written : Z)  (* readers woken, about to re-lock *)
  | WrAsleep (nb : bool) (data : list Z) (written : Z)
  | WrResumed (nb : bool) (data : list Z) (written : Z)
  | Wake (qs : list wq) (k : pc).                   (* wake-ups still to issue, then [k] *)

(** ** pipe_read_ep *)

Definition pipe_read_enter (nb : bool) (len : Z) : pc :=
  if len =? 0 then Done 0 else RdLoop nb len.

(** One pass of the loop with the lock held: the bytes taken, the pipe, and
    where the thread stands when the lock is dropped.  [sig] is
    [signal_pending_any] as [waitq_sleep] sees it. *)
Definition pipe_read_section (p : pipe) (nb : bool) (len : Z) (sig : bool)
    : list Z * pipe * pc :=
  if 0 <? count p then
    let '(out, p') := ring_read p (u32 len) in
    (out, p', Wake [Writers] (Done (Z.of_nat (length out))))
  else if writers_open p =? 0 then ([], p, Done 0)
  else if nb then ([], p, Done (- EAGAIN))
  else if sig then ([], p, Done (- EINTR))
  else ([], p, RdAsleep nb len).

(** ** pipe_write_ep *)

Definition pipe_write_enter (nb : bool) (data : list Z) : pc :=
  if Z.of_nat (length data) =? 0 then Done 0 else WrLoop nb data 0.

(** [written ? written : -err] *)
Definition partial (written err : Z) : Z := if written =? 0 then - err else written.

(** The loop body up to the point where the lock is dropped: the bytes stored,
    the pipe, the next control point, and whether SIGPIPE is raised. *)
Definition pipe_write_section (p : pipe) (nb : bool) (data : list Z) (written : Z)
    : list Z * pipe * pc * bool :=
  let len := Z.of_nat (length data) in
  if readers_open p =? 0 then ([], p, Done (partial written EPIPE), true)
  else
    let rest := drop (Z.to_nat written) data in
    let '(n, p') := ring_write p rest (u32 (len - written)) in
    let stored := take (Z.to_nat n) rest in
    let written' := written + n in
    if written' =? len then (stored, p', Wake [Readers] (Done written'), false)
    else if nb then (stored, p', Wake [Readers] (Done (partial written' EAGAIN)), false)
    else (stored, p', Wake [Readers] (WrFull nb data written'), false).

(** After the re-lock: sleep if the ring is full, otherwise go round the loop
    without dropping the lock. *)
Definition pipe_write_full_section (p : pipe) (nb : bool) (data : list Z) (written : Z)
    (sig : bool) : list Z * pipe * pc * bool :=
  if count p =? PIPE_CAPACITY then
    if sig then ([], p, Done (partial written EINTR), false)
    else ([], p, WrAsleep nb data written, false)
  else pipe_write_section p nb data written.

(** ** pipe_dup_ep, pipe_close_ep, pipe_poll_ep *)

Definition pipe_dup_ep (p : pipe) (as_reader as_writer : bool) : pipe :=
  Pipe (buf p) (head p) (count p)
       (readers_open p + b2z as_reader) (writers_open p + b2z as_writer) (refs p + 1).

(** The locked part and what follows it; [true] when the pipe is freed. *)
Definition pipe_close_ep (p : pipe) (as_reader as_writer : bool) : pipe * bool * pc :=
  let p' := Pipe (buf p) (head p) (count p)
       (readers_open p - b2z as_reader) (writers_open p - b2z as_writer) (refs p - 1) in
  if refs p' =? 0 then (p', true, Done 0)
  else (p', false,
        Wake ((if writers_open p' =? 0 then [Readers] else [])
              ++ (if readers_open p' =? 0 then [Writers] else [])) (Done 0)).

Definition POLLIN : Z := 1.
Definition POLLOUT : Z := 4.
Definition POLLHUP : Z := 16.

Definition pipe_poll_ep (p : pipe) (as_reader as_writer : bool) (events : Z) : Z :=
  let mask := if as_reader && (0 <? count p) then POLLIN else 0 in
  let mask := if as_writer && (count p <? PIPE_CAPACITY) then Z.lor mask POLLOUT else mask in
  let mask := if as_reader && (writers_open p =? 0) && (count p =? 0)
              then Z.lor mask POLLHUP else mask in
  Z.land mask events.

(** ** Threads over one pipe *)

Record sys := Sys {
  pp : pipe;
  freed : bool;
  wq_readers : list nat;
  wq_writers : list nat;
  thr : gmap nat pc;
  sent : list Z;      (* ghost: bytes stored so far, in order *)
  rcvd : list Z;      (* ghost: bytes handed to readers, in order *)
  sigpipes : list nat (* ghost: threads that were sent SIGPIPE *)
}.

Definition is_rd_asleep (k : pc) : bool := match k with RdAsleep _ _ => true | _ => false end.
Definition is_wr_asleep (k : pc) : bool := match k with WrAsleep _ _ _ => true | _ => false end.

Definition in_read (k : pc) : bool :=
  match k with RdLoop _ _ | RdAsleep _ _ | RdResumed _ _ => true | _ => false end.
Fixpoint in_write (k : pc) : bool :=
  match k with
  | WrLoop _ _ _ | WrFull _ _ _ | WrAsleep _ _ _ | WrResumed _ _ _ => true
  | Wake _ k => in_write k
  | _ => false
  end.

Definition no_thread (f : pc -> bool) (th : gmap nat pc) : bool :=
  forallb (fun kv => negb (f kv.2)) (map_to_list th).

(** Back from [schedule()]: a sleeping control point becomes a resumed one. *)
Definition resume (k : pc) : pc :=
  match k with
  | RdAsleep nb len => RdResumed nb len
  | WrAsleep nb d w => WrResumed nb d w
  | _ => k
  end.

Definition wake_threads (q : list nat) (th : gmap nat pc) : gmap nat pc :=
  foldr (fun t th => alter resume t th) th q.

(** [waitq_wake_all] on one of the pipe's two queues. *)
Definition waitq_wake_all (q : wq) (s : sys) : sys :=
  match q with
  | Readers => Sys (pp s) (freed s) [] (wq_writers s)
                   (wake_threads (wq_readers s) (thr s)) (sent s) (rcvd s) (sigpipes s)
  | Writers => Sys (pp s) (freed s) (wq_readers s) []
                   (wake_threads (wq_writers s) (thr s)) (sent s) (rcvd s) (sigpipes s)
  end.

(** Installs control point [k] for thread [t]; a thread that blocks is appended
    to its queue ([waitq_enqueue]). *)
Definition goto (t : nat) (k : pc) (s : sys) : sys :=
  Sys (pp s) (freed s)
      (if is_rd_asleep k then wq_readers s ++ [t] else wq_readers s)
      (if is_wr_asleep k then wq_writers s ++ [t] else wq_writers s)
      (<[t := k]> (thr s)) (sent s) (rcvd s) (sigpipes s).

Definition after_read (t : nat) (s : sys) (r : list Z * pipe * pc) : sys :=
  let '(out, p, k) := r in
  goto t k (Sys p (freed s) (wq_readers s) (wq_writers s) (thr s)
                (sent s) (rcvd s ++ out) (sigpipes s)).

Definition after_write (t : nat) (s : sys) (r : list Z * pipe * pc * bool) : sys :=
  let '(stored, p, k, sg) := r in
  goto t k (Sys p (freed s) (wq_readers s) (wq_writers s) (thr s) (sent s ++ stored) (rcvd s)
                (if sg then t :: sigpipes s else sigpipes s)).

Inductive event :=
  | ECallRead (t : nat) (nb : bool) (len : Z)
  | ECallWrite (t : nat) (nb : bool) (data : list Z)
  | ERun (t : nat) (sig : bool)                   (* next section of thread [t] *)
  | ESignal (t : nat)                             (* a signal takes [t] off its queue *)
  | EDup (as_reader as_writer : bool)
  | EClose (t : nat) (as_reader : bool).          (* closes a read end, or a write end *)

(** One atomic section.  A call needs an open end of its direction, and an end
    is not closed under the calls in progress on it (the rule of
    kernel/sched/fd_table.h for a bare descriptor pointer). *)
Definition exec (e : event) (s : sys) : option sys :=
  if freed s then None else
  match e with
  | ECallRead t nb len =>
      match thr s !! t with
      | Some (Done _) =>
          if (0 <? readers_open (pp s)) && (0 <=? len) && (len <? W64)
          then Some (goto t (pipe_read_enter nb len) s) else None
      | _ => None
      end
  | ECallWrite t nb data =>
      match thr s !! t with
      | Some (Done _) =>
          if (0 <? writers_open (pp s)) && (Z.of_nat (length data) <? W32)
          then Some (goto t (pipe_write_enter nb data) s) else None
      | _ => None
      end
  | ERun t sig =>
      match thr s !! t with
      | Some (RdLoop nb len) => Some (after_read t s (pipe_read_section (pp s) nb len sig))
      | Some (RdResumed nb len) =>
          Some (if sig then goto t (Done (- EINTR)) s
                else after_read t s (pipe_read_section (pp s) nb len false))
      | Some (WrLoop nb d w) => Some (after_write t s (pipe_write_section (pp s) nb d w))
      | Some (WrFull nb d w) => Some (after_write t s (pipe_write_full_section (pp s) nb d w sig))
      | Some (WrResumed nb d w) =>
          Some (if sig then goto t (Done (partial w EINTR)) s
                else after_write t s (pipe_write_section (pp s) nb d w))
      | Some (Wake (q :: qs) k) => Some (goto t (Wake qs k) (waitq_wake_all q s))
      | Some (Wake [] k) => Some (goto t k s)
      | _ => None
      end
  | ESignal t =>
      match thr s !! t with
      | Some (RdAsleep nb len) =>
          Some (Sys (pp s) (freed s) (list_difference (wq_readers s) [t]) (wq_writers s)
                    (<[t := RdResumed nb len]> (thr s)) (sent s) (rcvd s) (sigpipes s))
      | Some (WrAsleep nb d w) =>
          Some (Sys (pp s) (freed s) (wq_readers s) (list_difference (wq_writers s) [t])
                    (<[t := WrResumed nb d w]> (thr s)) (sent s) (rcvd s) (sigpipes s))
      | _ => None
      end
  | EDup r w =>
      if (xorb r w) && (if r then 0 <? readers_open (pp s) else 0 <? writers_open (pp s))
      then Some (Sys (pipe_dup_ep (pp s) r w) (freed s) (wq_readers s) (wq_writers s)
                     (thr s) (sent s) (rcvd s) (sigpipes s))
      else None
  | EClose t r =>
      match thr s !! t with
      | Some (Done _) =>
          let last := if r then readers_open (pp s) =? 1 else writers_open (pp s) =? 1 in
          if (if r then 0 <? readers_open (pp s) else 0 <? writers_open (pp s))
             && (negb last || no_thread (if r then in_read else in_write) (thr s))
          then let '(p, fr, k) := pipe_close_ep (pp s) r (negb r) in
               Some (goto t k (Sys p fr (wq_readers s) (wq_writers s) (thr s)
                                   (sent s) (rcvd s) (sigpipes s)))
          else None
      | _ => None
      end
  end.

Fixpoint run (es : list event) (s : sys) : option sys :=
  match es with [] => Some s | e :: es => s' ← exec e s; run es s' end.

(** A fresh pipe and [n] idle threads. *)
Definition sys_init (n : nat) : sys :=
  Sys (pipe_init_ends pipe_alloc) false [] []
      (list_to_map (map (fun t => (t, Done 0)) (seq 0 n))) [] [] [].

(** ** Abstraction: the bytes in the pipe, oldest first *)

Definition contents (p : pipe) : list Z := ring_slice (buf p) (head p) (count p).

Record pipe_wf (p : pipe) : Prop := {
  pf_len : length (buf p) = Z.to_nat PIPE_CAPACITY;
  pf_head : 0 <= head p < PIPE_CAPACITY;
  pf_count : 0 <= count p <= PIPE_CAPACITY;
}.

Lemma ring_slice_length b i n : length (ring_slice b i n) = Z.to_nat n.
Proof. unfold ring_slice. by rewrite length_fmap, length_seqZ. Qed.

Lemma ring_slice_ext b b' i i' n :
  (forall k, 0 <= k < n ->
     zget 0 b ((i + k) mod PIPE_CAPACITY) = zget 0 b' ((i' + k) mod PIPE_CAPACITY)) ->
  ring_slice b i n = ring_slice b' i' n.
Proof.
  intros H. unfold ring_slice. apply list_fmap_ext. intros j k Hk.
  apply lookup_seqZ in Hk. apply H. lia.
Qed.

Lemma ring_slice_mod b i n : ring_slice b (i mod PIPE_CAPACITY) n = ring_slice b i n.
Proof. apply ring_slice_ext. intros k Hk. f_equal. unfold PIPE_CAPACITY. dlia. Qed.

Lemma ring_slice_app b i n m :
  0 <= n -> 0 <= m ->
  ring_slice b i (n + m) = ring_slice b i n ++ ring_slice b (i + n) m.
Proof.
  intros Hn Hm. unfold ring_slice. rewrite seqZ_app, fmap_app by lia. f_equal.
  replace (seqZ (0 + n) m) with (Z.add n <$> seqZ 0 m) by (rewrite fmap_add_seqZ; f_equal; lia).
  rewrite <- list_fmap_compose. apply list_fmap_ext. intros j k _. simpl.
  f_equal. f_equal. lia.
Qed.

Lemma ring_store_length b t l : length (ring_store b t l) = length b.
Proof.
  revert b t. induction l as [|x l IH]; intros b t; simpl; [done|].
  by rewrite IH, zset_length.
Qed.

(** Slots outside the stored window keep their byte. *)
Lemma ring_store_other b t l j :
  length b = Z.to_nat PIPE_CAPACITY -> 0 <= j < PIPE_CAPACITY ->
  (forall k, 0 <= k < Z.of_nat (length l) -> (t + k) mod PIPE_CAPACITY <> j) ->
  zget 0 (ring_store b t l) j = zget 0 b j.
Proof.
  revert b t. induction l as [|x l IH]; intros b t Hb Hj Hne; [done|]. simpl in *.
  rewrite IH; [|by rewrite zset_length|done|].
  - rewrite zget_zset by (unfold PIPE_CAPACITY in *; dlia).
    destruct (Z.eqb_spec (t mod PIPE_CAPACITY) j) as [E|]; [|done].
    exfalso. apply (Hne 0); [lia|]. by rewrite Z.add_0_r.
  - intros k Hk. replace (t + 1 + k) with (t + (k + 1)) by lia. apply Hne. lia.
Qed.

(** The stored window reads back as what was stored. *)
Lemma ring_store_slice b t l :
  length b = Z.to_nat PIPE_CAPACITY -> Z.of_nat (length l) <= PIPE_CAPACITY ->
  ring_slice (ring_store b t l) t (Z.of_nat (length l)) = l.
Proof.
  revert b t. induction l as [|x l IH]; intros b t Hb Hl; [done|]. cbn [length] in *.
  replace (Z.of_nat (S (length l))) with (1 + Z.of_nat (length l)) by lia.
  rewrite ring_slice_app by lia. cbn [ring_store].
  rewrite IH by (rewrite ?zset_length; lia).
  change (ring_slice ?b ?i 1) with [zget 0 b ((i + 0) mod PIPE_CAPACITY)].
  rewrite Z.add_0_r, ring_store_other; [| |unfold PIPE_CAPACITY; dlia|].
  - rewrite zget_zset by (unfold PIPE_CAPACITY in *; dlia). by rewrite Z.eqb_refl.
  - by rewrite zset_length.
  - intros k Hk. unfold PIPE_CAPACITY in *. dlia.
Qed.

Lemma ring_read_spec p want :
  pipe_wf p -> 0 <= want ->
  let '(out, p') := ring_read p want in
  out = take (Z.to_nat want) (contents p) /\ contents p' = drop (Z.to_nat want) (contents p)
  /\ pipe_wf p' /\ count p' = count p - Z.of_nat (length out)
  /\ readers_open p' = readers_open p /\ writers_open p' = writers_open p /\ refs p' = refs p.
Proof.
  intros [Hl Hh Hc] Hw. unfold ring_read.
  set (n := if want <? count p then want else count p).
  assert (0 <= n <= count p /\ n <= want /\ (n = want \/ n = count p)) as Hn
    by (subst n; zcases; lia).
  assert (contents p = ring_slice (buf p) (head p) n
                       ++ ring_slice (buf p) (head p + n) (count p - n)) as Hsplit.
  { unfold contents. rewrite <- ring_slice_app by lia. f_equal. lia. }
  unfold contents at 2; simpl. rewrite ring_slice_mod, Hsplit.
  destruct (Z.eq_dec n want) as [->|Hne].
  - rewrite take_app_length', drop_app_length' by by rewrite ring_slice_length.
    rewrite ring_slice_length. repeat split; simpl; try done; unfold PIPE_CAPACITY in *; dlia.
  - replace (count p - n) with 0 by lia.
    change (ring_slice ?b ?i 0) with (@nil Z). rewrite app_nil_r.
    rewrite take_ge, drop_ge by (rewrite ring_slice_length; lia).
    rewrite ring_slice_length. repeat split; simpl; try done; unfold PIPE_CAPACITY in *; dlia.
Qed.

Lemma ring_write_spec p inp want :
  pipe_wf p -> 0 <= want <= Z.of_nat (length inp) ->
  let '(n, p') := ring_write p inp want in
  n = Z.min want (PIPE_CAPACITY - count p) /\ contents p' = contents p ++ take (Z.to_nat n) inp
  /\ pipe_wf p' /\ count p' = count p + n
  /\ readers_open p' = readers_open p /\ writers_open p' = writers_open p /\ refs p' = refs p.
Proof.
  intros [Hl Hh Hc] Hw. unfold ring_write.
  set (n := if want <? PIPE_CAPACITY - count p then want else PIPE_CAPACITY - count p).
  assert (n = Z.min want (PIPE_CAPACITY - count p)) as Hn by (subst n; zcases; lia).
  set (l := take (Z.to_nat n) inp).
  assert (Z.of_nat (length l) = n) as Hln by (subst l; rewrite length_take; lia).
  set (t := (head p + count p) mod PIPE_CAPACITY).
  repeat split; simpl; try done; try lia; [|by rewrite ring_store_length].
  unfold contents; simpl. rewrite ring_slice_app by lia. f_equal.
  - apply ring_slice_ext. intros k Hk. apply ring_store_other; [done|unfold PIPE_CAPACITY; dlia|].
    intros j Hj. subst t. unfold PIPE_CAPACITY in *. dlia.
  - rewrite <- ring_slice_mod. fold t. rewrite <- Hln at 1. apply ring_store_slice; [done|lia].
Qed.

(** ** The invariant of the interleaved system *)

(** The thread still has a [waitq_wake_all] on the readers' queue to issue. *)
Fixpoint wakes_readers (k : pc) : bool :=
  match k with
  | Wake qs k => existsb (fun q => match q with Readers => true | Writers => false end) qs
                 || wakes_readers k
  | _ => false
  end.

Fixpoint pc_ok (k : pc) : Prop :=
  match k with
  | Done _ => True
  | RdLoop _ len | RdAsleep _ len | RdResumed _ len => 0 < len < W64
  | WrLoop _ d w | WrFull _ d w | WrAsleep _ d w | WrResumed _ d w =>
      0 <= w < Z.of_nat (length d) /\ Z.of_nat (length d) < W32
  | Wake _ k => match k with Done _ | WrFull _ _ _ => True | _ => False end /\ pc_ok k
  end.

(** A queue holds exactly the threads blocked on it. *)
Definition queue_ok (f : pc -> bool) (th : gmap nat pc) (q : list nat) : Prop :=
  forall t, t ∈ q <-> exists k, th !! t = Some k /\ f k = true.

(** Some thread still has to wake the readers. *)
Definition reader_waker (th : gmap nat pc) : Prop :=
  exists t k, th !! t = Some k /\ wakes_readers k = true.

Record inv (s : sys) : Prop := {
  iv_wf : pipe_wf (pp s);
  iv_fifo : sent s = rcvd s ++ contents (pp s);
  iv_ends : 0 <= readers_open (pp s) /\ 0 <= writers_open (pp s)
            /\ refs (pp s) = readers_open (pp s) + writers_open (pp s)
            /\ (freed s = true <-> refs (pp s) = 0);
  iv_pcs : map_Forall (fun _ k => pc_ok k) (thr s);
  iv_queue : queue_ok is_rd_asleep (thr s) (wq_readers s)
             /\ queue_ok is_wr_asleep (thr s) (wq_writers s);
  iv_open : map_Forall (fun _ k => in_read k = true -> 0 < readers_open (pp s)) (thr s);
  iv_wake : wq_readers s <> [] -> 0 < count (pp s) \/ writers_open (pp s) = 0 ->
            reader_waker (thr s);
}.

(** What a section may do to the pipe and the ghost traces. *)
Record section_ok (p p' : pipe) (stored out : list Z) (k : pc) : Prop := {
  so_wf : pipe_wf p';
  so_bytes : contents p ++ stored = out ++ contents p';
  so_ends : readers_open p' = readers_open p /\ writers_open p' = writers_open p
            /\ refs p' = refs p;
  so_pc : pc_ok k;
  so_sleep : is_rd_asleep k = true -> count p' = 0 /\ 0 < writers_open p';
  so_wake : count p' <= count p \/ wakes_readers k = true;
}.

Lemma pipe_read_section_ok p nb len sig :
  pipe_wf p -> 0 < len < W64 -> 0 <= writers_open p ->
  let '(out, p', k) := pipe_read_section p nb len sig in section_ok p p' [] out k.
Proof.
  intros Hwf Hlen Hw. unfold pipe_read_section.
  destruct (Z.ltb_spec 0 (count p)) as [Hc|Hc].
  - pose proof (ring_read_spec p (u32 len) Hwf ltac:(apply u32_range)) as H.
    destruct (ring_read p (u32 len)) as [out p']. destruct H as (Ho & Hd & Hwf' & Hcnt & Hr).
    split; simpl; try done; try lia.
    rewrite app_nil_r, Ho, Hd. by rewrite take_drop.
  - pose proof (pf_count _ Hwf).
    destruct (Z.eqb_spec (writers_open p) 0), nb, sig; split; simpl; try done; try lia;
      by rewrite app_nil_r.
Qed.

Lemma pipe_write_section_ok p nb d w :
  pipe_wf p -> 0 <= w < Z.of_nat (length d) /\ Z.of_nat (length d) < W32 ->
  let '(stored, p', k, _) := pipe_write_section p nb d w in section_ok p p' stored [] k.
Proof.
  intros Hwf [Hd Hw]. unfold pipe_write_section.
  destruct (Z.eqb_spec (readers_open p) 0) as [Hr|Hr].
  { split; simpl; try done; try lia. by rewrite app_nil_r. }
  rewrite u32_small by lia.
  pose proof (ring_write_spec p (drop (Z.to_nat w) d) (Z.of_nat (length d) - w) Hwf) as H.
  destruct (ring_write _ _ _) as [n p']. destruct H as (Hn & Hc & Hwf' & Hcnt & Hrest).
  { rewrite length_drop. lia. }
  pose proof (pf_count _ Hwf).
  destruct (Z.eqb_spec (w + n) (Z.of_nat (length d))), nb;
    split; simpl; try done; try (by right); try lia.
Qed.

Lemma pipe_write_full_section_ok p nb d w sig :
  pipe_wf p -> 0 <= w < Z.of_nat (length d) /\ Z.of_nat (length d) < W32 ->
  let '(stored, p', k, _) := pipe_write_full_section p nb d w sig in section_ok p p' stored [] k.
Proof.
  intros Hwf Hd. unfold pipe_write_full_section.
  destruct (Z.eqb_spec (count p) PIPE_CAPACITY); [|by apply pipe_write_section_ok].
  destruct sig; split; simpl; try done; try lia; by rewrite app_nil_r.
Qed.

(** ** Threads and queues under [goto] and [waitq_wake_all] *)

Lemma resume_idemp k : resume (resume k) = resume k.
Proof. by destruct k. Qed.

Lemma lookup_wake_threads q th t :
  wake_threads q th !! t = (if decide (t ∈ q) then resume else id) <$> th !! t.
Proof.
  unfold wake_threads. induction q as [|u q IH]; simpl.
  - by destruct (th !! t).
  - rewrite lookup_alter. destruct (decide (u = t)) as [->|]; rewrite IH;
      repeat case_decide; try set_solver; destruct (th !! t); simpl; by rewrite ?resume_idemp.
Qed.

Lemma resume_wakes k : wakes_readers (resume k) = wakes_readers k.
Proof. by destruct k. Qed.

Lemma queue_ok_goto f th q t k :
  queue_ok f th q -> (forall k0, th !! t = Some k0 -> f k0 = false) ->
  queue_ok f (<[t := k]> th) (if f k then q ++ [t] else q).
Proof.
  intros Hq Ht u.
  assert (t ∉ q) as Hne.
  { intros (k0 & Hk & Ha)%Hq. by rewrite (Ht _ Hk) in Ha. }
  destruct (decide (u = t)) as [->|Hut].
  - rewrite lookup_insert_eq. destruct (f k) eqn:Hk.
    + split; [eauto|]. set_solver.
    + split; [done|]. intros (k0 & [= <-] & ?). congruence.
  - rewrite lookup_insert_ne by done. rewrite <- (Hq u). destruct (f k); set_solver.
Qed.

Lemma queue_ok_wake f th q ws :
  queue_ok f th q -> (forall t k, t ∈ ws -> th !! t = Some k -> f k = false) ->
  (forall k, f (resume k) = true -> f k = true) ->
  queue_ok f (wake_threads ws th) q.
Proof.
  intros Hq Hws Hres t. rewrite (Hq t), lookup_wake_threads.
  destruct (th !! t) as [k|] eqn:E; simpl; [|naive_solver]. case_decide as Hin; [|done].
  pose proof (Hws t k Hin E) as Hk. split; intros (k' & [= <-] & Hk'); [congruence|].
  apply Hres in Hk'. congruence.
Qed.

Lemma queue_ok_drain f th q :
  queue_ok f th q -> (forall k, f (resume k) = false) -> queue_ok f (wake_threads q th) [].
Proof.
  intros Hq Hres t. split; [set_solver|]. rewrite lookup_wake_threads.
  intros (k & E & Hk). destruct (th !! t) as [k0|] eqn:Ht; simpl in E; [|done].
  simplify_eq. case_decide as Hin; [by rewrite Hres in Hk|].
  exfalso. apply Hin, Hq. eauto.
Qed.

Lemma reader_waker_goto th t k :
  reader_waker th ->
  (forall k0, th !! t = Some k0 -> wakes_readers k0 = true -> wakes_readers k = true) ->
  reader_waker (<[t := k]> th).
Proof.
  intros (u & ku & Hu & Hp) Hk. destruct (decide (u = t)) as [->|Hne].
  - exists t, k. rewrite lookup_insert_eq. eauto.
  - exists u, ku. rewrite lookup_insert_ne by done. eauto.
Qed.

Lemma pipe_inv_section s t k0 p' stored out k sg :
  inv s -> thr s !! t = Some k0 -> is_rd_asleep k0 = false -> is_wr_asleep k0 = false ->
  (wakes_readers k0 = true -> wakes_readers k = true) -> (in_read k = true -> in_read k0 = true) ->
  section_ok (pp s) p' stored out k ->
  inv (goto t k (Sys p' (freed s) (wq_readers s) (wq_writers s) (thr s)
                     (sent s ++ stored) (rcvd s ++ out) sg)).
Proof.
  intros [Hwf Hfifo Hends Hpcs Hq Hopen Hwake] Ht Ha Ha' Hpend Hread [Swf Sb Se Sp Ss Sw].
  destruct Se as (Er & Ew & Ef). split; unfold goto; cbn [pp freed wq_readers thr sent rcvd].
  - done.
  - by rewrite Hfifo, <- !app_assoc, Sb.
  - rewrite Er, Ew, Ef. done.
  - by apply map_Forall_insert_2.
  - destruct Hq. split; (apply queue_ok_goto; [done|]); intros k1 Hk1; by simplify_eq.
  - apply map_Forall_insert_2; [|rewrite Er; done]. rewrite Er.
    intros Hk%Hread. by eapply (Hopen t k0).
  - intros Hne Hor. destruct (is_rd_asleep k) eqn:Hk.
    { destruct (Ss eq_refl). lia. }
    destruct Sw as [Hle|Hin].
    + apply reader_waker_goto; [apply Hwake; [done|lia]|]. intros k1 Hk1 Hp. simplify_eq. auto.
    + exists t, k. by rewrite lookup_insert_eq.
Qed.

(** A control-point change that leaves the pipe alone. *)
Lemma inv_goto s t k0 k :
  inv s -> thr s !! t = Some k0 -> is_rd_asleep k0 = false -> is_wr_asleep k0 = false ->
  is_rd_asleep k = false ->
  (wq_readers s <> [] -> wakes_readers k0 = true -> wakes_readers k = true) -> (in_read k = true -> in_read k0 = true \/ 0 < readers_open (pp s)) -> pc_ok k ->
  inv (goto t k s).
Proof.
  intros [Hwf Hfifo Hends Hpcs Hq Hopen Hwake] Ht Ha Ha' Hk Hpend Hread Hok.
  split; unfold goto; cbn [pp freed wq_readers thr sent rcvd]; try done.
  - by apply map_Forall_insert_2.
  - destruct Hq. split; (apply queue_ok_goto; [done|]); intros k1 Hk1; by simplify_eq.
  - apply map_Forall_insert_2; [|done]. intros [H|H]%Hread; [by eapply (Hopen t k0)|done].
  - rewrite Hk. intros Hne Hor.
    apply reader_waker_goto; [by apply Hwake|]. intros k1 Hk1 Hp. simplify_eq. auto.
Qed.

Lemma wake_threads_Forall (P : pc -> Prop) q th :
  (forall k, P k -> P (resume k)) ->
  map_Forall (fun _ k => P k) th -> map_Forall (fun _ k => P k) (wake_threads q th).
Proof.
  intros Hres H t k. rewrite lookup_wake_threads.
  destruct (th !! t) as [k0|] eqn:E; [|done]. simpl. intros [= <-].
  specialize (H t k0 E). case_decide; auto.
Qed.

Lemma reader_waker_wake q th : reader_waker th -> reader_waker (wake_threads q th).
Proof.
  intros (t & k & Ht & Hp). exists t. eexists. rewrite lookup_wake_threads, Ht. split; [done|].
  case_decide; [by rewrite resume_wakes|done].
Qed.

Lemma inv_wake_all s q : inv s -> inv (waitq_wake_all q s).
Proof.
  intros [Hwf Hfifo Hends Hpcs [Hqr Hqw] Hopen Hwake].
  assert (forall k, pc_ok k -> pc_ok (resume k)) as Hok by by intros [].
  assert (forall t k, t ∈ wq_readers s -> thr s !! t = Some k -> is_wr_asleep k = false) as Hrw.
  { intros t k (k' & Ht & Hk)%Hqr Hk'. rewrite Ht in Hk'. injection Hk' as <-. by destruct k'. }
  assert (forall t k, t ∈ wq_writers s -> thr s !! t = Some k -> is_rd_asleep k = false) as Hwr.
  { intros t k (k' & Ht & Hk)%Hqw Hk'. rewrite Ht in Hk'. injection Hk' as <-. by destruct k'. }
  destruct q; split; cbn [waitq_wake_all pp freed wq_readers wq_writers thr sent rcvd]; try done.
  - by apply wake_threads_Forall.
  - split; [apply queue_ok_drain; [done|by intros []]|].
    apply queue_ok_wake; [done..|by intros []].
  - apply wake_threads_Forall; [|done]. by intros [].
  - by apply wake_threads_Forall.
  - split; [apply queue_ok_wake; [done..|by intros []]|].
    apply queue_ok_drain; [done|by intros []].
  - apply wake_threads_Forall; [|done]. by intros [].
  - intros. by apply reader_waker_wake, Hwake.
Qed.

Lemma queue_ok_remove f th q t k :
  queue_ok f th q -> f k = false -> queue_ok f (<[t := k]> th) (list_difference q [t]).
Proof.
  intros Hq Hk u. rewrite list_elem_of_difference, (Hq u), list_elem_of_singleton.
  destruct (decide (u = t)) as [->|Hne].
  - rewrite lookup_insert_eq. split; [naive_solver|]. intros (k0 & [= <-] & ?). congruence.
  - rewrite lookup_insert_ne by done. naive_solver.
Qed.

Lemma queue_ok_insert f th q t k k0 :
  queue_ok f th q -> th !! t = Some k0 -> f k0 = false -> f k = false ->
  queue_ok f (<[t := k]> th) q.
Proof.
  intros Hq Ht H0 Hk. pose proof (queue_ok_goto f th q t k Hq) as H.
  rewrite Hk in H. apply H. intros k1 Hk1. by simplify_eq.
Qed.

Lemma no_thread_spec f th t k : no_thread f th = true -> th !! t = Some k -> f k = false.
Proof.
  unfold no_thread. rewrite forallb_forall. intros H Ht. apply negb_true_iff, (H (t, k)).
  by apply list_elem_of_In, elem_of_map_to_list.
Qed.

Lemma inv_signal s t s' : inv s -> exec (ESignal t) s = Some s' -> inv s'.
Proof.
  intros [Hwf Hfifo Hends Hpcs [Hqr Hqw] Hopen Hwake]. unfold exec.
  destruct (freed s) eqn:Hf; [done|]. destruct (thr s !! t) as [k0|] eqn:Ht; [|done].
  pose proof (Hpcs t k0 Ht) as Hok. pose proof (Hopen t k0 Ht) as Hop. simpl in Hok, Hop.
  destruct k0; intros [= <-]; split; simpl; try done.
  - by apply map_Forall_insert_2.
  - split; [by apply queue_ok_remove|by eapply queue_ok_insert].
  - apply map_Forall_insert_2; [|done]. intros _. by apply Hop.
  - intros Hne Hor. apply reader_waker_goto.
    + apply Hwake; [|done]. by destruct (wq_readers s).
    + intros k1 Hk1. by simplify_eq.
  - by apply map_Forall_insert_2.
  - split; [by eapply queue_ok_insert|by apply queue_ok_remove].
  - by apply map_Forall_insert_2.
  - intros Hne Hor. apply reader_waker_goto; [by apply Hwake|]. intros k1 Hk1. by simplify_eq.
Qed.

Lemma inv_dup s r w s' : inv s -> exec (EDup r w) s = Some s' -> inv s'.
Proof.
  intros [Hwf Hfifo Hends Hpcs Hq Hopen Hwake]. unfold exec.
  destruct (freed s) eqn:Hf; [done|].
  destruct (xorb r w && _) eqn:Hx; [|done]. intros [= <-]. zbool.
  assert (pipe_wf (pipe_dup_ep (pp s) r w)) by by destruct Hwf.
  split; simpl; try done.
  - destruct r, w; simpl in *; zbool; try done; intuition lia.
  - intros t k Ht Hk. specialize (Hopen t k Ht Hk). destruct r; simpl; lia.
  - intros Hne Hor. apply Hwake; [done|]. destruct w; simpl in *; lia.
Qed.

Lemma inv_close s t r s' : inv s -> exec (EClose t r) s = Some s' -> inv s'.
Proof.
  intros [Hwf Hfifo Hends Hpcs [Hqr Hqw] Hopen Hwake]. unfold exec.
  destruct (freed s) eqn:Hf; [done|]. destruct (thr s !! t) as [k0|] eqn:Ht; [|done].
  destruct k0 as [rc| | | | | | | |]; try done.
  destruct (_ && _) eqn:Hg; [|done]. zbool. unfold pipe_close_ep.
  set (p' := Pipe _ _ _ _ _ _).
  assert (pipe_wf p') as Hwf' by by destruct Hwf.
  assert (map_Forall (fun _ k => in_read k = true -> 0 < readers_open p') (thr s)) as Hopen'.
  { intros u k Hu Hk. specialize (Hopen u k Hu Hk). subst p'. destruct r; simpl in *; [|lia].
    destruct (Z.eqb_spec (readers_open (pp s)) 1) as [E|E]; [|lia].
    rewrite (no_thread_spec in_read _ _ _ H0 Hu) in Hk. done. }
  assert (0 <= readers_open p' /\ 0 <= writers_open p'
          /\ refs p' = readers_open p' + writers_open p') as He.
  { subst p'. destruct r; simpl in *; zbool; lia. }
  assert (forall k, pc_ok k -> is_rd_asleep k = false -> is_wr_asleep k = false ->
            in_read k = false -> map_Forall (fun _ k => pc_ok k) (<[t := k]> (thr s))
            /\ (queue_ok is_rd_asleep (<[t := k]> (thr s)) (wq_readers s)
                /\ queue_ok is_wr_asleep (<[t := k]> (thr s)) (wq_writers s))
            /\ map_Forall (fun _ k => in_read k = true -> 0 < readers_open p')
                 (<[t := k]> (thr s))) as Hk.
  { intros k Hok Ha Ha' Hr. split; [by apply map_Forall_insert_2|].
    split; [split; by eapply queue_ok_insert|]. apply map_Forall_insert_2; [|done]. congruence. }
  assert (contents p' = contents (pp s)) as Hc by done.
  destruct (Z.eqb_spec (refs p') 0) as [Hz|Hz]; intros [= <-].
  - destruct (Hk (Done 0)) as (K1 & K2 & K3); [done..|].
    split; [exact Hwf'|exact Hfifo|simpl; intuition lia|exact K1|exact K2|exact K3|].
    simpl. intros Hne. exfalso. destruct (wq_readers s) as [|u q] eqn:Eq; [done|].
    destruct (proj1 (Hqr u)) as (k & Hu & Hk'); [set_solver|].
    specialize (Hopen' u k Hu). destruct k; try done. specialize (Hopen' eq_refl). lia.
  - set (qs := _ ++ _). destruct (Hk (Wake qs (Done 0))) as (K1 & K2 & K3); [done..|].
    split; [exact Hwf'|exact Hfifo|simpl; intuition congruence|exact K1|exact K2|exact K3|].
    simpl. intros Hne Hor. destruct (Z.eqb_spec (writers_open p') 0) as [Hw|Hw].
    + exists t. eexists. rewrite lookup_insert_eq. split; [done|].
      simpl in Hw. unfold qs. by rewrite Hw.
    + apply reader_waker_goto; [|intros k1 Hk1; by simplify_eq].
      apply Hwake; [done|]. subst p'; simpl in *. destruct r; simpl in *; lia.
Qed.

Lemma pipe_write_section_not_in_read p nb d w :
  let '(_, _, k, _) := pipe_write_section p nb d w in in_read k = false.
Proof.
  unfold pipe_write_section. destruct (_ =? 0); [done|].
  destruct (ring_write _ _ _). by destruct (_ =? _), nb.
Qed.

Lemma inv_run_section s t sig s' : inv s -> exec (ERun t sig) s = Some s' -> inv s'.
Proof.
  intros Hinv. pose proof Hinv as [Hwf _ Hends Hpcs _ _ _]. unfold exec.
  destruct (freed s) eqn:Hf; [done|]. destruct (thr s !! t) as [k0|] eqn:Ht; [|done].
  pose proof (Hpcs t k0 Ht) as Hok; simpl in Hok.
  assert (forall nb len sig', in_read k0 = true -> is_rd_asleep k0 = false ->
     0 < len < W64 -> inv (after_read t s (pipe_read_section (pp s) nb len sig'))) as HR.
  { intros nb len sig' Hr Ha Hl. pose proof (pipe_read_section_ok (pp s) nb len sig' Hwf Hl) as H.
    destruct (pipe_read_section _ _ _ _) as [[out p'] k]. specialize (H ltac:(lia)).
    unfold after_read. rewrite <- (app_nil_r (sent s)).
    eapply pipe_inv_section; try done; destruct k0; try done. }
  assert (forall r, in_read k0 = false -> is_rd_asleep k0 = false -> is_wr_asleep k0 = false ->
     wakes_readers k0 = false -> (let '(stored, p', k, _) := r in section_ok (pp s) p' stored [] k
        /\ in_read k = false) -> inv (after_write t s r)) as HW.
  { intros [[[stored p'] k] sg] Hr Ha Ha' Hp [H Hk]. unfold after_write.
    rewrite <- (app_nil_r (rcvd s)). eapply pipe_inv_section; try done; congruence. }
  assert (forall nb d w, 0 <= w < Z.of_nat (length d) /\ Z.of_nat (length d) < W32 ->
     let '(stored, p', k, _) := pipe_write_section (pp s) nb d w in
     section_ok (pp s) p' stored [] k /\ in_read k = false) as HS.
  { intros nb d w Hd. pose proof (pipe_write_section_ok (pp s) nb d w Hwf Hd) as H.
    pose proof (pipe_write_section_not_in_read (pp s) nb d w) as Hn.
    by destruct (pipe_write_section _ _ _ _) as [[[stored p'] k] sg]. }
  destruct k0 as [rc|nb len|nb len|nb len|nb d w|nb d w|nb d w|nb d w|[|q qs] k]; try done;
    simpl in Hok; intros [= <-].
  - by apply HR.
  - destruct sig; [by eapply inv_goto|by apply HR].
  - apply HW; try done. by apply HS.
  - apply HW; try done. pose proof (pipe_write_full_section_ok (pp s) nb d w sig Hwf Hok) as H.
    specialize (HS nb d w Hok). unfold pipe_write_full_section in *.
    destruct (count (pp s) =? PIPE_CAPACITY); [by destruct sig|exact HS].
  - destruct sig; [by eapply inv_goto|]. apply HW; try done. by apply HS.
  - destruct Hok as [Hk Hok]. destruct k; try done; by eapply inv_goto.
  - destruct Hok as [Hk Hok]. eapply (inv_goto _ _ (Wake (q :: qs) k)); try done.
    + by apply inv_wake_all.
    + destruct q; simpl; rewrite lookup_wake_threads, Ht; simpl; by case_decide.
    + by destruct q.
Qed.

Lemma pipe_exec_inv e s s' : inv s -> exec e s = Some s' -> inv s'.
Proof.
  intros Hinv. destruct e as [t nb len|t nb data|t sig|t|r w|t r].
  - unfold exec. destruct (freed s); [done|]. destruct (thr s !! t) as [[]|] eqn:Ht; try done.
    destruct (_ && _) eqn:Hg; [|done]. intros [= <-]. zbool.
    unfold pipe_read_enter. destruct (Z.eqb_spec len 0); eapply inv_goto; simpl; try done; auto.
    lia.
  - unfold exec. destruct (freed s); [done|]. destruct (thr s !! t) as [[]|] eqn:Ht; try done.
    destruct (_ && _) eqn:Hg; [|done]. intros [= <-]. zbool.
    unfold pipe_write_enter. destruct (Z.eqb_spec (Z.of_nat (length data)) 0);
      eapply inv_goto; simpl; try done. lia.
  - by apply inv_run_section.
  - by apply inv_signal.
  - by apply inv_dup.
  - by apply inv_close.
Qed.

Lemma pipe_run_inv es s s' : inv s -> run es s = Some s' -> inv s'.
Proof.
  revert s. induction es as [|e es IH]; intros s Hinv; simpl; [by intros [= <-]|].
  destruct (exec e s) as [s1|] eqn:E; [|done]. simpl. apply IH. by eapply pipe_exec_inv.
Qed.

Lemma sys_init_inv n : inv (sys_init n).
Proof.
  assert (forall t k, thr (sys_init n) !! t = Some k -> k = Done 0) as Hthr.
  { unfold sys_init; simpl. intros t k Ht.
    apply elem_of_list_to_map_2, list_elem_of_In, in_map_iff in Ht as (? & ? & ?). congruence. }
  split.
  - split; [by vm_compute|by vm_compute|by vm_compute].
  - reflexivity.
  - by vm_compute.
  - intros t k Ht. by rewrite (Hthr t k Ht).
  - split; intros t; (split; [by intros ?%not_elem_of_nil|]); intros (k & Ht & Hk);
      by rewrite (Hthr t k Ht) in Hk.
  - intros t k Ht. by rewrite (Hthr t k Ht).
  - by intros H.
Qed.

(** ** Properties *)

(** the ring buffer implements a bounded byte queue.  Reading removes and
    returns the oldest [min want count] bytes in order; writing appends the
    first [min want space] bytes of the caller's buffer; both keep the ring well
    formed across the wrap-around. *)
Theorem ring_refines_fifo (p : pipe) (want : Z) (inp : list Z) :
  pipe_wf p -> 0 <= want ->
  (let '(out, p') := ring_read p want in
     out = take (Z.to_nat want) (contents p) /\ contents p' = drop (Z.to_nat want) (contents p)
     /\ pipe_wf p')
  /\ (want <= Z.of_nat (length inp) ->
      let '(n, p') := ring_write p inp want in
      n = Z.min want (PIPE_CAPACITY - Z.of_nat (length (contents p)))
      /\ contents p' = contents p ++ take (Z.to_nat n) inp /\ pipe_wf p').
Proof.
  intros Hwf Hw. split.
  - pose proof (ring_read_spec p want Hwf Hw) as H. destruct (ring_read p want). tauto.
  - intros Hl. pose proof (ring_write_spec p inp want Hwf (conj Hw Hl)) as H.
    destruct (ring_write p inp want). unfold contents at 1. rewrite ring_slice_length.
    pose proof (pf_count _ Hwf). rewrite Z2Nat.id by lia. tauto.
Qed.

(** A ring whose three bytes straddle the end of the buffer. *)
Definition wrapped_ring : pipe :=
  Pipe (ring_store (repeat 0 (Z.to_nat PIPE_CAPACITY)) 4094 [1; 2; 3]) 4094 3 1 1 2.

Lemma wrapped_ring_wf : pipe_wf wrapped_ring.
Proof. split; by vm_compute. Qed.

Lemma ring_refines_fifo_witness :
  (ring_read wrapped_ring 2).1 = [1; 2] /\ contents (ring_read wrapped_ring 2).2 = [3]
  /\ contents (ring_write wrapped_ring [9; 8] 2).2 = [1; 2; 3; 9; 8].
Proof.
  pose proof (ring_refines_fifo wrapped_ring 2 [9; 8] wrapped_ring_wf) as [H1 H2]; [lia|].
  specialize (H2 ltac:(simpl; lia)).
  assert (contents wrapped_ring = [1; 2; 3]) as Hc by (vm_compute; reflexivity).
  rewrite Hc in H1, H2.
  destruct (ring_read wrapped_ring 2) as [out p1] eqn:E1.
  destruct (ring_write wrapped_ring [9; 8] 2) as [n p2] eqn:E2.
  destruct H1 as (Ho & Hr & _), H2 as (Hn & Hw & _). cbn [fst snd].
  split; [exact Ho|]. split; [exact Hr|]. rewrite Hw, Hn. reflexivity.
Defined.

(** C25: end-to-end FIFO under concurrency.  However the critical sections of any
    number of readers, writers, closers and signals interleave, the bytes
    delivered to readers, in order, followed by the bytes still in the ring, are
    exactly the bytes accepted from writers: nothing is lost, duplicated or
    reordered, and at most [PIPE_CAPACITY] bytes are in flight. *)
Theorem pipe_fifo (n : nat) (es : list event) (s : sys) :
  run es (sys_init n) = Some s ->
  sent s = rcvd s ++ contents (pp s)
  /\ Z.of_nat (length (contents (pp s))) <= PIPE_CAPACITY.
Proof.
  intros H. pose proof (pipe_run_inv es _ s (sys_init_inv n) H) as [Hwf Hf _ _ _ _ _].
  split; [done|]. unfold contents. rewrite ring_slice_length. destruct Hwf. lia.
Qed.

(** Two writers' bytes and one partial read. *)
Definition fifo_events : list event :=
  [ECallWrite 0 false [1; 2; 3]; ERun 0 false; ECallWrite 1 false [4]; ERun 1 false;
   ECallRead 2 false 2; ERun 2 false].

Lemma pipe_fifo_witness :
  exists s, run fifo_events (sys_init 3) = Some s /\ rcvd s = [1; 2]
            /\ sent s = rcvd s ++ contents (pp s).
Proof.
  destruct (run fifo_events (sys_init 3)) as [s|] eqn:E.
  - exists s. split; [reflexivity|].
    assert (rcvd <$> run fifo_events (sys_init 3) = Some [1; 2]) as Hr by (vm_compute; reflexivity).
    rewrite E in Hr. simpl in Hr. split; [congruence|].
    exact (proj1 (pipe_fifo 3 fifo_events s E)).
  - exfalso. assert (rcvd <$> run fifo_events (sys_init 3) = Some [1; 2]) as Hr
      by (vm_compute; reflexivity). rewrite E in Hr. discriminate.
Defined.

(** C29: no lost wake-up for readers (rules 1 and 3 of pipe.c).  In every
    reachable state, a thread blocked in [pipe_read_ep] faces an empty pipe that
    still has a write end open, unless some thread is on its way to waking the
    readers' queue; so a reader never sleeps through data or end-of-file. *)
Theorem pipe_reader_not_lost (n : nat) (es : list event) (s : sys) (t : nat) (nb : bool) (len : Z) :
  run es (sys_init n) = Some s -> thr s !! t = Some (RdAsleep nb len) ->
  (count (pp s) = 0 /\ 0 < writers_open (pp s))
  \/ exists u k, thr s !! u = Some k /\ wakes_readers k = true.
Proof.
  intros H Ht. pose proof (pipe_run_inv es _ s (sys_init_inv n) H) as [Hwf _ He _ [Hq _] _ Hw].
  assert (wq_readers s <> []) as Hne.
  { intros E. assert (t ∈ wq_readers s) as Hin by (apply Hq; eauto).
    rewrite E in Hin. by apply elem_of_nil in Hin. }
  pose proof (pf_count _ Hwf).
  destruct (Z.lt_ge_cases 0 (count (pp s))); [right; apply Hw; auto|].
  destruct (Z.eq_dec (writers_open (pp s)) 0); [right; apply Hw; auto|]. left. lia.
Qed.

(** A reader blocks, then the only writer closes. *)
Definition reader_events : list event :=
  [ECallRead 0 false 5; ERun 0 false; EClose 1 false].

Lemma pipe_reader_not_lost_witness :
  exists s, run reader_events (sys_init 2) = Some s /\ writers_open (pp s) = 0
            /\ exists u k, thr s !! u = Some k /\ wakes_readers k = true.
Proof.
  destruct (run reader_events (sys_init 2)) as [s|] eqn:E.
  - exists s. split; [reflexivity|].
    assert ((fun s => (writers_open (pp s), thr s !! 0%nat)) <$> run reader_events (sys_init 2)
            = Some (0, Some (RdAsleep false 5))) as Hr by (vm_compute; reflexivity).
    rewrite E in Hr. simpl in Hr. injection Hr as Hw Ht. split; [exact Hw|].
    destruct (pipe_reader_not_lost 2 reader_events s 0 false 5 E Ht) as [[_ Hbad]|Hok];
      [lia|exact Hok].
  - exfalso. assert ((fun s => writers_open (pp s)) <$> run reader_events (sys_init 2) = Some 0)
      as Hr by (vm_compute; reflexivity). rewrite E in Hr. discriminate.
Defined.

(** The ring holds one byte; a blocking 4096-byte write fills it and drops the
    lock to wake the readers; the last reader closes in that window. *)
Definition lost_writer_events : list event :=
  [ECallWrite 1 false [0]; ERun 1 false; ERun 1 false; ERun 1 false;
   ECallWrite 1 false (repeat 7 4096); ERun 1 false; ERun 1 false; ERun 1 false;
   EClose 0 true; ERun 0 false; ERun 0 false;
   ERun 1 false].

(** the writers' side of rule 3 does not hold.  After waking the readers of a
    full pipe, [pipe_write_ep] re-locks and tests only [count == PIPE_CAPACITY]
    before sleeping; a last reader that closes in between has already issued its
    wake-up, so the writer blocks on a pipe without readers while every other
    thread is outside the pipe code and no wake-up is pending. *)
Theorem pipe_writer_lost_wakeup :
  exists s d, run lost_writer_events (sys_init 2) = Some s
    /\ thr s = {[ 0%nat := Done 0; 1%nat := WrAsleep false d 4095 ]}
    /\ wq_writers s = [1%nat] /\ readers_open (pp s) = 0 /\ writers_open (pp s) = 1
    /\ freed s = false /\ sigpipes s = [].
Proof.
  eexists _, (repeat 7 4096). split; [vm_compute; reflexivity|].
  split; [apply map_eq; intros t; by vm_compute|]. by vm_compute.
Qed.

(** poll agrees with read.  For a descriptor of the read end, POLLIN or
    POLLHUP is reported exactly when a non-blocking read would not answer
    -EAGAIN. *)
Theorem pipe_poll_read_ready (p : pipe) (len : Z) (sig : bool) :
  pipe_wf p -> 0 < len ->
  (pipe_poll_ep p true false (Z.lor POLLIN POLLHUP) <> 0 <->
   (pipe_read_section p true len sig).2 <> Done (- EAGAIN)).
Proof.
  intros Hwf Hlen. pose proof (pf_count _ Hwf). unfold pipe_poll_ep, pipe_read_section.
  destruct (Z.ltb_spec 0 (count p)), (Z.eqb_spec (writers_open p) 0), (Z.eqb_spec (count p) 0);
    simpl; try lia; try (split; [by intros ? | done]).
Qed.

Lemma pipe_poll_read_ready_witness :
  pipe_poll_ep wrapped_ring true false (Z.lor POLLIN POLLHUP) <> 0.
Proof.
  apply (pipe_poll_read_ready wrapped_ring 1 false).
  - exact wrapped_ring_wf.
  - lia.
  - vm_compute. discriminate.
Defined.
