(* ===== verification/Flock.v ===== *)
(** * Advisory record locks (kernel/fs/flock.c, flock.h)

    The global table of lock ranges, the table of F_SETLKW waiters, and the
    operations on them.  Every operation of the C file runs under [flock_lock];
    [flock_fcntl] drops it only while it sleeps and before it wakes the wait
    queue, and these are the control points [fpc] of a thread.

    The abstract view of a table is [held]: which process holds which byte of
    which file in which mode.  Theorems: a successful F_SETLK replaces the mode
    of exactly the requested bytes of exactly the calling process, an unlock
    removes them, two processes never hold conflicting bytes under any
    interleaving, F_GETLK reports a conflict iff there is one, a sleeper whose
    range has become free has a wake-up coming, -EDEADLK is only returned on a
    cycle of waiting processes, and -ENOLCK does not always leave the table as it
    was. *)

From stdpp Require Import base numbers list gmap.
From S2P Require Import Prelude.

Definition FLOCK_MAX : nat := 512.
Definition FLOCK_WAITERS : nat := 64.
Abbreviation END_OF_FILE := UINT64_MAX.

Definition F_GETLK : Z := 5.
Definition F_SETLK : Z := 6.
Definition F_SETLKW : Z := 7.
Definition F_RDLCK : Z := 0.
Definition F_WRLCK : Z := 1.
Definition F_UNLCK : Z := 2.

(** Vnodes are identified by their address. *)
Record lock_rec := LockRec {
  in_use : bool;
  vn : Z;
  pid : Z;
  type : Z;
  start : Z;
  end_ : Z;                                  (* inclusive *)
}.

Record waiter := Waiter {
  w_in_use : bool;
  w_pid : Z;
  w_vn : Z;
  w_type : Z;
  w_start : Z;
  w_end : Z;
}.

Definition set_in_use (b : bool) (r : lock_rec) : lock_rec :=
  LockRec b (vn r) (pid r) (type r) (start r) (end_ r).
Definition set_start (s : Z) (r : lock_rec) : lock_rec :=
  LockRec (in_use r) (vn r) (pid r) (type r) s (end_ r).
Definition set_end (e : Z) (r : lock_rec) : lock_rec :=
  LockRec (in_use r) (vn r) (pid r) (type r) (start r) e.

Definition no_rec : lock_rec := LockRec false 0 0 0 0 0.
Definition no_waiter : waiter := Waiter false 0 0 0 0 0.

Definition overlaps (s1 e1 s2 e2 : Z) : bool := (s1 <=? e2) && (s2 <=? e1).

(** ** Operations on the table *)

Definition mine (v p : Z) (r : lock_rec) : bool := in_use r && (vn r =? v) && (pid r =? p).

Definition conflicts (v p ty s e : Z) (r : lock_rec) : bool :=
  in_use r && (vn r =? v) && negb (pid r =? p)
  && overlaps (start r) (end_ r) s e
  && ((type r =? F_WRLCK) || (ty =? F_WRLCK)).

Definition conflict_locked (rs : list lock_rec) (v p ty s e : Z) : option lock_rec :=
  find (conflicts v p ty s e) rs.

Definition rec_alloc_locked (rs : list lock_rec) : option (nat * list lock_rec) :=
  match list_find (fun r => in_use r = false) rs with
  | Some (i, r) => Some (i, <[i := set_in_use true r]> rs)
  | None => None
  end.

Definition free_recs_locked (rs : list lock_rec) : nat :=
  countb (fun r => negb (in_use r)) rs.

Definition is_split (v p s e : Z) (r : lock_rec) : bool :=
  mine v p r && (start r <? s) && (e <? end_ r).

(** One turn of carve_locked's second loop; [None] is a write through a null
    [tail]. *)
Definition carve_step (v p s e : Z) (rs : list lock_rec) (i : nat) : option (list lock_rec) :=
  match rs !! i with
  | None => None
  | Some r =>
    if negb (mine v p r) || negb (overlaps (start r) (end_ r) s e) then Some rs
    else if (s <=? start r) && (end_ r <=? e) then Some (<[i := set_in_use false r]> rs)
    else if (start r <? s) && (e <? end_ r) then
      match rec_alloc_locked rs with
      | None => None
      | Some (t, rs1) =>
        Some (<[i := set_end (u64 (s - 1)) r]> (<[t := set_start (u64 (e + 1)) r]> rs1))
      end
    else if start r <? s then Some (<[i := set_end (u64 (s - 1)) r]> rs)
    else Some (<[i := set_start (u64 (e + 1)) r]> rs)
  end.

Fixpoint carve_loop (v p s e : Z) (rs : list lock_rec) (ixs : list nat) : option (list lock_rec) :=
  match ixs with
  | [] => Some rs
  | i :: ixs => match carve_step v p s e rs i with
               | Some rs => carve_loop v p s e rs ixs
               | None => None
               end
  end.

Definition carve_locked (rs : list lock_rec) (v p s e : Z) : option (Z * list lock_rec) :=
  let splits := countb (is_split v p s e) rs in
  if (free_recs_locked rs <? splits)%nat then Some (- ENOLCK, rs)
  else match carve_loop v p s e rs (seq 0 FLOCK_MAX) with
       | Some rs' => Some (0, rs')
       | None => None
       end.

(** Whether record [j] is to be folded into record [i]. *)
Definition touch (a b : lock_rec) : bool :=
  overlaps (start a) (end_ a) (start b) (end_ b)
  || (negb (end_ a =? END_OF_FILE) && (u64 (end_ a + 1) =? start b))
  || (negb (end_ b =? END_OF_FILE) && (u64 (end_ b + 1) =? start a)).

Definition joinable (v p : Z) (i : nat) (a : lock_rec) (j : nat) (b : lock_rec) : bool :=
  negb (j =? i)%nat && mine v p b && (type b =? type a) && touch a b.

(** The inner loop of merge_locked: the first [j] to fold into [i]. *)
Definition merge_partner (v p : Z) (rs : list lock_rec) (i : nat) : option nat :=
  match rs !! i with
  | Some a =>
    if mine v p a then
      find (fun j => match rs !! j with Some b => joinable v p i a j b | None => false end)
           (seq 0 FLOCK_MAX)
    else None
  | None => None
  end.

Fixpoint merge_find (v p : Z) (rs : list lock_rec) (ixs : list nat) : option (nat * nat) :=
  match ixs with
  | [] => None
  | i :: ixs => match merge_partner v p rs i with
               | Some j => Some (i, j)
               | None => merge_find v p rs ixs
               end
  end.

Definition join_recs (rs : list lock_rec) (i j : nat) : list lock_rec :=
  match rs !! i, rs !! j with
  | Some a, Some b =>
    let a1 := if start b <? start a then set_start (start b) a else a in
    let a2 := if end_ a1 <? end_ b then set_end (end_ b) a1 else a1 in
    <[j := set_in_use false b]> (<[i := a2]> rs)
  | _, _ => rs
  end.

(** The [changed] loop; [None] if [fuel] turns do not finish it. *)
Fixpoint merge_loop (fuel : nat) (v p : Z) (rs : list lock_rec) : option (list lock_rec) :=
  match fuel with
  | O => None
  | S fuel => match merge_find v p rs (seq 0 FLOCK_MAX) with
              | Some (i, j) => merge_loop fuel v p (join_recs rs i j)
              | None => Some rs
              end
  end.

Definition merge_locked (rs : list lock_rec) (v p : Z) : option (list lock_rec) :=
  merge_loop (S FLOCK_MAX) v p rs.

Definition waiter_of (ws : list waiter) (p : Z) : option waiter :=
  find (fun w => w_in_use w && (w_pid w =? p)) ws.

Fixpoint deadlock_hops (hops : nat) (rs : list lock_rec) (ws : list waiter) (p holder : Z) : bool :=
  match hops with
  | O => false
  | S hops =>
    if holder =? p then true
    else match waiter_of ws holder with
         | None => false
         | Some w =>
           match conflict_locked rs (w_vn w) (w_pid w) (w_type w) (w_start w) (w_end w) with
           | None => false
           | Some next => deadlock_hops hops rs ws p (pid next)
           end
         end
  end.

Definition deadlock_locked (rs : list lock_rec) (ws : list waiter) (p holder : Z) : bool :=
  deadlock_hops FLOCK_WAITERS rs ws p holder.

(** ** fcntl *)

Inductive vnode_type := VNODE_FILE | VNODE_DIR | VNODE_OTHER.

Record vnode := Vnode { vn_addr : Z; vn_type : vnode_type; vn_size : Z }.

Record file_descriptor := FileDescriptor {
  f_vn : option vnode;
  f_position : Z;
  f_writable : bool;
}.

Record k_flock := KFlock {
  l_type : Z;
  l_whence : Z;
  l_start : Z;
  l_len : Z;
  l_pid : Z;
}.

(** [int64_t] arithmetic wraps (two's complement). *)
Definition range_of (f : file_descriptor) (fl : k_flock) : Z + Z * Z :=
  let base :=
    if l_whence fl =? 0 then Some 0
    else if l_whence fl =? 1 then Some (i64 (f_position f))
    else if l_whence fl =? 2 then
      match f_vn f with Some v => Some (i64 (vn_size v)) | None => None end
    else None in
  match base with
  | None => inl (- EINVAL)
  | Some base =>
    let st := i64 (base + l_start fl) in
    let '(st, len) := if l_len fl <? 0 then (i64 (st + l_len fl), i64 (- l_len fl))
                      else (st, l_len fl) in
    if st <? 0 then inl (- EINVAL)
    else inr (u64 st, if len =? 0 then END_OF_FILE else u64 (u64 st + u64 len - 1))
  end.

Definition getlk_section (rs : list lock_rec) (fl : k_flock) (v p ty s e : Z) : k_flock :=
  match (if ty =? F_UNLCK then None else conflict_locked rs v p ty s e) with
  | None => KFlock F_UNLCK (l_whence fl) (l_start fl) (l_len fl) (l_pid fl)
  | Some c => KFlock (type c) 0 (i64 (start c))
                (if end_ c =? END_OF_FILE then 0 else i64 (u64 (end_ c - start c + 1)))
                (pid c)
  end.

(** A pending lock request. *)
Record request := Request { q_vn : Z; q_pid : Z; q_type : Z; q_s : Z; q_e : Z }.

(** Lines 216-224: replace what the process held in the range and merge. *)
Definition take_section (rs : list lock_rec) (q : request) : option (Z * list lock_rec) :=
  match carve_locked rs (q_vn q) (q_pid q) (q_s q) (q_e q) with
  | None => None
  | Some (rc, rs1) =>
    if rc =? 0 then
      match rec_alloc_locked rs1 with
      | None => Some (- ENOLCK, rs1)
      | Some (i, rs2) =>
        match merge_locked
                (<[i := LockRec true (q_vn q) (q_pid q) (q_type q) (q_s q) (q_e q)]> rs2)
                (q_vn q) (q_pid q) with
        | Some rs3 => Some (0, rs3)
        | None => None
        end
      end
    else Some (rc, rs1)
  end.

(** Where a thread of the lock code stands between two critical sections. *)
Inductive fpc :=
  | FDone (rc : Z)
  | FAsleep (slot : nat) (q : request)       (* queued on [flock_wait] *)
  | FWoken (slot : nat) (q : request)        (* dequeued, not yet holding the lock again *)
  | FWake (rc : Z).                          (* about to wake [flock_wait], then return *)

Record fsys := FSys {
  recs : list lock_rec;
  waiters : list waiter;
  thr : gmap nat fpc;
}.

Definition flock_init : fsys := FSys (repeat no_rec FLOCK_MAX) (repeat no_waiter FLOCK_WAITERS) ∅.

(** Lines 200-229 from a held [flock_lock]: one turn of the wait loop, or the
    taking of the lock.  [sig]: a signal is pending when waitq_sleep looks. *)
Definition setlk_section (rs : list lock_rec) (ws : list waiter) (cmd : Z) (q : request)
    (sig : bool) : option (list lock_rec * list waiter * fpc) :=
  match conflict_locked rs (q_vn q) (q_pid q) (q_type q) (q_s q) (q_e q) with
  | Some c =>
    if cmd =? F_SETLK then Some (rs, ws, FDone (- EAGAIN))
    else if deadlock_locked rs ws (q_pid q) (pid c) then Some (rs, ws, FDone (- EDEADLK))
    else match list_find (fun w => w_in_use w = false) ws with
         | None => Some (rs, ws, FDone (- ENOLCK))
         | Some (i, _) =>
           let w b := Waiter b (q_pid q) (q_vn q) (q_type q) (q_s q) (q_e q) in
           if sig then Some (rs, <[i := w false]> ws, FDone (- EINTR))
           else Some (rs, <[i := w true]> ws, FAsleep i q)
         end
  | None =>
    if (free_recs_locked rs <? 1)%nat then Some (rs, ws, FDone (- ENOLCK))
    else match take_section rs q with
         | Some (rc, rs') => Some (rs', ws, FWake rc)
         | None => None
         end
  end.

(** [flock_fcntl] up to its first release of the lock, for process [p]. *)
Definition flock_fcntl (rs : list lock_rec) (ws : list waiter) (p : Z)
    (f : file_descriptor) (cmd : Z) (fl : k_flock) (sig : bool) :
    option (k_flock * list lock_rec * list waiter * fpc) :=
  let ret rc := Some (fl, rs, ws, FDone rc) in
  match f_vn f with
  | None => ret (- EINVAL)
  | Some vnd =>
    if negb (match vn_type vnd with VNODE_FILE => true | _ => false end) then ret (- EINVAL)
    else
      let ty := l_type fl in
      if negb (ty =? F_RDLCK) && negb (ty =? F_WRLCK) && negb (ty =? F_UNLCK) then ret (- EINVAL)
      else if negb (cmd =? F_GETLK) && (ty =? F_WRLCK) && negb (f_writable f) then ret (- EBADF)
      else match range_of f fl with
      | inl rc => ret rc
      | inr (s, e) =>
        let v := vn_addr vnd in
        if cmd =? F_GETLK then Some (getlk_section rs fl v p ty s e, rs, ws, FDone 0)
        else if ty =? F_UNLCK then
          match carve_locked rs v p s e with
          | Some (rc, rs') => Some (fl, rs', ws, FWake rc)
          | None => None
          end
        else match setlk_section rs ws cmd (Request v p ty s e) sig with
             | Some (rs', ws', k) => Some (fl, rs', ws', k)
             | None => None
             end
      end
  end.

(** [release (mine vn pid)] and [release (of pid)]: the two release loops. *)
Definition release_where (f : lock_rec -> bool) (rs : list lock_rec) : list lock_rec :=
  (fun r => if f r then set_in_use false r else r) <$> rs.

Definition flock_release_vnode (rs : list lock_rec) (v p : Z) : list lock_rec * fpc :=
  (release_where (mine v p) rs, if existsb (mine v p) rs then FWake 0 else FDone 0).

Definition flock_release_pid (rs : list lock_rec) (p : Z) : list lock_rec * fpc :=
  let f r := in_use r && (pid r =? p) in
  (release_where f rs, if existsb f rs then FWake 0 else FDone 0).

(** ** Interleavings *)

Inductive event :=
  | EFcntl (t : nat) (p : Z) (f : file_descriptor) (cmd : Z) (fl : k_flock) (sig : bool)
  | EReleaseVnode (t : nat) (v p : Z)
  | EReleasePid (t : nat) (p : Z)
  | ERun (t : nat) (eintr sig : bool)        (* [t] continues *)
  | ESignal (t : nat).                       (* a signal dequeues a sleeping [t] *)

Definition idle (s : fsys) (t : nat) : bool :=
  match thr s !! t with None | Some (FDone _) => true | _ => false end.

Definition wake_thread (k : fpc) : fpc :=
  match k with FAsleep i q => FWoken i q | k => k end.

Definition clear_waiter (ws : list waiter) (i : nat) : list waiter :=
  alter (fun w => Waiter false (w_pid w) (w_vn w) (w_type w) (w_start w) (w_end w)) i ws.

Definition exec (ev : event) (s : fsys) : option fsys :=
  match ev with
  | EFcntl t p f cmd fl sig =>
    if idle s t then
      match flock_fcntl (recs s) (waiters s) p f cmd fl sig with
      | Some (_, rs, ws, k) => Some (FSys rs ws (<[t := k]> (thr s)))
      | None => None
      end
    else None
  | EReleaseVnode t v p =>
    if idle s t then
      let '(rs, k) := flock_release_vnode (recs s) v p in
      Some (FSys rs (waiters s) (<[t := k]> (thr s)))
    else None
  | EReleasePid t p =>
    if idle s t then
      let '(rs, k) := flock_release_pid (recs s) p in
      Some (FSys rs (waiters s) (<[t := k]> (thr s)))
    else None
  | ERun t eintr sig =>
    match thr s !! t with
    | Some (FWake rc) =>
      Some (FSys (recs s) (waiters s) (<[t := FDone rc]> (wake_thread <$> thr s)))
    | Some (FWoken i q) =>
      let ws := clear_waiter (waiters s) i in
      if eintr then Some (FSys (recs s) ws (<[t := FDone (- EINTR)]> (thr s)))
      else match setlk_section (recs s) ws F_SETLKW q sig with
           | Some (rs, ws, k) => Some (FSys rs ws (<[t := k]> (thr s)))
           | None => None
           end
    | _ => None
    end
  | ESignal t =>
    match thr s !! t with
    | Some (FAsleep i q) => Some (FSys (recs s) (waiters s) (<[t := FWoken i q]> (thr s)))
    | _ => None
    end
  end.

Fixpoint run (es : list event) (s : fsys) : option fsys :=
  match es with
  | [] => Some s
  | ev :: es => match exec ev s with Some s' => run es s' | None => None end
  end.

Local Opaque FLOCK_MAX FLOCK_WAITERS.

(** ** The abstract view: who holds which byte *)

Definition covers (v p ty b : Z) (r : lock_rec) : Prop :=
  in_use r = true /\ vn r = v /\ pid r = p /\ type r = ty /\ start r <= b <= end_ r.

Definition held (rs : list lock_rec) (v p ty b : Z) : Prop :=
  exists i r, rs !! i = Some r /\ covers v p ty b r.

(** [held] without record [i]. *)
Definition held_but (i : nat) (rs : list lock_rec) (v p ty b : Z) : Prop :=
  exists j r, j <> i /\ rs !! j = Some r /\ covers v p ty b r.

Definition rec_ok (r : lock_rec) : Prop :=
  in_use r = true -> 0 <= start r <= end_ r /\ end_ r < W64.

Definition table_ok (rs : list lock_rec) : Prop :=
  length rs = FLOCK_MAX /\ Forall rec_ok rs.

Lemma held_split rs i r v p ty b :
  rs !! i = Some r -> held rs v p ty b <-> covers v p ty b r \/ held_but i rs v p ty b.
Proof.
  intros Hi. split.
  - intros (j & r' & Hj & Hc). destruct (decide (j = i)) as [->|]; [|by right; exists j, r'].
    left. congruence.
  - intros [Hc|(j & r' & _ & Hj & Hc)]; [by exists i, r|by exists j, r'].
Qed.

Lemma held_but_insert rs i x v p ty b : held_but i (<[i := x]> rs) v p ty b <-> held_but i rs v p ty b.
Proof.
  unfold held_but.
  split; intros (j & r & Hne & Hj & Hc); exists j, r; split_and!; try done.
  - by rewrite list_lookup_insert_ne in Hj by done.
  - by rewrite list_lookup_insert_ne by done.
Qed.

Lemma held_insert rs i r x v p ty b :
  rs !! i = Some r ->
  held (<[i := x]> rs) v p ty b <-> covers v p ty b x \/ held_but i rs v p ty b.
Proof.
  intros Hi. rewrite (held_split _ i x), held_but_insert; [done|].
  apply list_lookup_insert_eq. by eapply lookup_lt_Some.
Qed.

Lemma table_ok_insert rs i x : table_ok rs -> rec_ok x -> table_ok (<[i := x]> rs).
Proof. intros [Hl Hf] Hx. split; [by rewrite length_insert|]. by apply Forall_insert. Qed.

Lemma table_ok_lookup rs i r : table_ok rs -> rs !! i = Some r -> rec_ok r.
Proof. intros [_ Hf] Hi. by eapply Forall_lookup_1. Qed.

Lemma mine_spec v p r : mine v p r = true <-> in_use r = true /\ vn r = v /\ pid r = p.
Proof. unfold mine. rewrite !andb_true_iff, !Z.eqb_eq. tauto. Qed.

Lemma overlaps_spec s1 e1 s2 e2 :
  overlaps s1 e1 s2 e2 = true <-> s1 <= e2 /\ s2 <= e1.
Proof. unfold overlaps. rewrite andb_true_iff, !Z.leb_le. done. Qed.

Lemma conflict_spec rs v p ty s e :
  match conflict_locked rs v p ty s e with
  | Some c => c ∈ rs /\ conflicts v p ty s e c = true
  | None => forall r, r ∈ rs -> conflicts v p ty s e r = false
  end.
Proof.
  unfold conflict_locked. destruct (find _ rs) eqn:E.
  - apply find_some in E as [? ?]. by rewrite list_elem_of_In.
  - intros r Hr. eapply find_none; [exact E|]. by rewrite <- list_elem_of_In.
Qed.

(** A record conflicts iff it covers a byte of the range in a conflicting mode. *)
Lemma conflicts_covers v p ty s e r :
  rec_ok r -> s <= e ->
  conflicts v p ty s e r = true <->
  exists b p' ty', s <= b <= e /\ p' <> p /\ covers v p' ty' b r /\ (ty' = F_WRLCK \/ ty = F_WRLCK).
Proof.
  intros Hr Hse. unfold conflicts, covers.
  rewrite !andb_true_iff, orb_true_iff, negb_true_iff, overlaps_spec, !Z.eqb_eq, Z.eqb_neq. split.
  - intros [[[[Hu Hv] Hp] [H1 H2]] Ht]. specialize (Hr Hu).
    exists (Z.max s (start r)), (pid r), (type r). split_and!; try done; lia.
  - intros (b & p' & ty' & Hb & Hp & (Hu & Hv & Hp' & Hty & Hc) & Ht).
    subst. split_and!; try done; lia.
Qed.

Lemma conflict_held rs v p ty s e :
  table_ok rs -> s <= e ->
  (exists c, conflict_locked rs v p ty s e = Some c) <->
  exists b p' ty', s <= b <= e /\ p' <> p /\ held rs v p' ty' b /\ (ty' = F_WRLCK \/ ty = F_WRLCK).
Proof.
  intros Hok Hse. pose proof (conflict_spec rs v p ty s e) as Hc.
  destruct (conflict_locked rs v p ty s e) as [c|].
  - destruct Hc as [[i Hi]%list_elem_of_lookup_1 Hc]. split; [intros _|by eauto].
    apply conflicts_covers in Hc as (b & p' & ty' & ? & ? & ? & ?);
      [|by eapply table_ok_lookup|done].
    exists b, p', ty'. split_and!; try done; try lia. by exists i, c.
  - split; [intros [c Hx]; done|].
    intros (b & p' & ty' & ? & ? & (i & r & Hi & Hcov) & ?).
    specialize (Hc r (list_elem_of_lookup_2 _ _ _ Hi)).
    rewrite (proj2 (conflicts_covers v p ty s e r ltac:(by eapply table_ok_lookup) Hse)) in Hc;
      [done|]. eauto 10.
Qed.

Lemma rec_alloc_spec rs :
  match rec_alloc_locked rs with
  | Some (i, rs') => exists r, rs !! i = Some r /\ in_use r = false /\ rs' = <[i := set_in_use true r]> rs
  | None => free_recs_locked rs = 0%nat
  end.
Proof.
  unfold rec_alloc_locked. destruct (list_find _ rs) as [[i r]|] eqn:E.
  - apply list_find_Some in E as (Hi & Hu & _). eauto.
  - apply list_find_None in E. unfold free_recs_locked.
    destruct (countb _ rs) eqn:Ec; [done|].
    destruct (proj1 (countb_pos (fun r => negb (in_use r)) rs)) as (i & x & Hi & Hx); [lia|].
    apply negb_true_iff in Hx. rewrite Forall_lookup in E. by destruct (E i x Hi).
Qed.

Lemma covers_off v p ty b r : in_use r = false -> ~ covers v p ty b r.
Proof. intros H [H' _]. congruence. Qed.

Lemma held_but_insert_free rs i t y x v p ty b :
  t <> i -> rs !! t = Some y -> in_use y = false ->
  held_but i (<[t := x]> rs) v p ty b <-> held_but i rs v p ty b \/ covers v p ty b x.
Proof.
  intros Hti Ht Hy. pose proof (lookup_lt_Some _ _ _ Ht). split.
  - intros (j & r & Hne & Hj & Hc). destruct (decide (j = t)) as [->|Hjt].
    + rewrite list_lookup_insert_eq in Hj by done. right. congruence.
    + rewrite list_lookup_insert_ne in Hj by done. left. by exists j, r.
  - intros [(j & r & Hne & Hj & Hc)|Hc].
    + exists j, r. split_and!; try done. rewrite list_lookup_insert_ne; [done|].
      intros <-. destruct Hc. congruence.
    + exists t, x. split_and!; try done. by apply list_lookup_insert_eq.
Qed.

(** ** Carving a range out of a process's locks *)

Section carve.
Context (v p s e : Z) (Hrange : 0 <= s <= e) (Hmax : e < W64).

Definition in_hole (v' p' b : Z) : Prop := v' = v /\ p' = p /\ s <= b <= e.

Definition clean (rs : list lock_rec) (i : nat) : Prop :=
  forall r, rs !! i = Some r -> mine v p r = true -> overlaps (start r) (end_ r) s e = false.

(** What one turn of the loop at index [i] guarantees. *)
Record step_ok (rs rs' : list lock_rec) (i : nat) : Prop := {
  so_table : table_ok rs';
  so_held : forall v' p' ty b, ~ in_hole v' p' b -> held rs' v' p' ty b <-> held rs v' p' ty b;
  so_clean : forall k, k = i \/ clean rs k -> clean rs' k;
  so_split : forall k, k <> i -> forall r r', rs !! k = Some r -> rs' !! k = Some r' ->
               is_split v p s e r' = is_split v p s e r;
}.

(** Replacing record [i] by a shortened copy. *)
Lemma replace_ok rs i r x :
  table_ok rs -> rs !! i = Some r -> rec_ok x ->
  (mine v p x = true -> overlaps (start x) (end_ x) s e = false) ->
  (forall v' p' ty b, ~ in_hole v' p' b -> covers v' p' ty b x <-> covers v' p' ty b r) ->
  step_ok rs (<[i := x]> rs) i.
Proof.
  intros Hok Hi Hx Hcl Hcov. pose proof (lookup_lt_Some _ _ _ Hi) as Hlt. split.
  - by apply table_ok_insert.
  - intros v' p' ty b Hh.
    rewrite (held_insert _ _ r), (held_split _ i r) by done. by rewrite Hcov.
  - intros k Hk y Hy Hm. destruct (decide (k = i)) as [->|Hne].
    + rewrite list_lookup_insert_eq in Hy by done. simplify_eq. auto.
    + rewrite list_lookup_insert_ne in Hy by done. destruct Hk; [done|eauto].
  - intros k Hne y y' Hy Hy'. rewrite list_lookup_insert_ne in Hy' by done. congruence.
Qed.

(** Cutting the part inside the hole off one side of a record. *)
Lemma trim_ok rs i r x :
  table_ok rs -> rs !! i = Some r -> mine v p r = true ->
  in_use x = in_use r -> vn x = vn r -> pid x = pid r -> type x = type r ->
  0 <= start x <= end_ x -> end_ x < W64 ->
  (start r < s /\ start x = start r /\ end_ x = s - 1 /\ s <= end_ r <= e)
  \/ (e < end_ r /\ end_ x = end_ r /\ start x = e + 1 /\ s <= start r <= e) ->
  step_ok rs (<[i := x]> rs) i.
Proof.
  intros Hok Hi Hm Hu Hv Hp Ht Hx1 Hx2 Hcase. apply mine_spec in Hm as (Hu' & Hv' & Hp').
  eapply replace_ok; [done|done|by intros ?| |].
  - intros _. apply not_true_is_false. rewrite overlaps_spec. lia.
  - intros v' p' ty b Hh. unfold covers, in_hole in *. rewrite Hu, Hv, Hp, Ht.
    split; intros (? & ? & ? & ? & ?); split_and!; try done; lia.
Qed.

Lemma same_ok rs i : table_ok rs -> clean rs i -> step_ok rs rs i.
Proof.
  intros Hok Hc. split; [done|done| |by intros; simplify_eq].
  intros k [->|]; done.
Qed.

(** The hole in the middle: the tail goes to a free record [t]. *)
Lemma flock_split_ok rs i r t y :
  table_ok rs -> rs !! i = Some r -> mine v p r = true -> start r < s -> e < end_ r ->
  rs !! t = Some y -> in_use y = false ->
  step_ok rs (<[i := set_end (s - 1) r]> (<[t := set_start (e + 1) r]> rs)) i.
Proof.
  intros Hok Hi Hm Hs He Ht Hy.
  pose proof (table_ok_lookup _ _ _ Hok Hi) as Hr. apply mine_spec in Hm as (Hu & Hv & Hp).
  specialize (Hr Hu).
  assert (t <> i) as Hti by congruence.
  pose proof (lookup_lt_Some _ _ _ Hi). pose proof (lookup_lt_Some _ _ _ Ht).
  assert (<[t:=set_start (e + 1) r]> rs !! i = Some r) as Hi' by (by rewrite list_lookup_insert_ne).
  split.
  - repeat apply table_ok_insert; try done; intros _; simpl; lia.
  - intros v' p' ty b Hh.
    rewrite (held_insert _ _ r), (held_split rs i r) by done.
    rewrite (held_but_insert_free _ _ _ y) by done.
    assert (covers v' p' ty b r <-> covers v' p' ty b (set_end (s - 1) r)
              \/ covers v' p' ty b (set_start (e + 1) r)) as ->; [|tauto].
    unfold covers, in_hole in *. simpl. split; [|intuition lia].
    intros (? & ? & ? & ? & ?).
    destruct (Z.lt_ge_cases b s); [left; split_and!; try done; lia|].
    destruct (Z.le_gt_cases b e); [|right; split_and!; try done; lia].
    destruct Hh. split_and!; congruence || lia.
  - intros k Hk z Hz Hm. destruct (decide (k = i)) as [->|Hne].
    + rewrite list_lookup_insert_eq in Hz by (by rewrite length_insert). simplify_eq. simpl.
      apply not_true_is_false. rewrite overlaps_spec. lia.
    + rewrite list_lookup_insert_ne in Hz by done. destruct (decide (k = t)) as [->|Hkt].
      * rewrite list_lookup_insert_eq in Hz by done. simplify_eq. simpl.
        apply not_true_is_false. rewrite overlaps_spec. lia.
      * rewrite list_lookup_insert_ne in Hz by done. destruct Hk; [done|eauto].
  - intros k Hne z z' Hz Hz'. rewrite list_lookup_insert_ne in Hz' by done.
    destruct (decide (k = t)) as [->|Hkt].
    + rewrite list_lookup_insert_eq in Hz' by done. simplify_eq. unfold is_split, mine. simpl.
      rewrite Hy. simpl. rewrite Hu. simpl.
      rewrite (proj2 (Z.ltb_ge (e + 1) s)) by lia. by rewrite andb_false_r.
    + rewrite list_lookup_insert_ne in Hz' by done. congruence.
Qed.

Definition split_at (rs : list lock_rec) (i : nat) : bool :=
  match rs !! i with Some r => is_split v p s e r | None => false end.

Lemma carve_step_ok rs i :
  table_ok rs -> (i < length rs)%nat ->
  (split_at rs i = true -> (0 < free_recs_locked rs)%nat) ->
  exists rs', carve_step v p s e rs i = Some rs' /\ step_ok rs rs' i
    /\ (free_recs_locked rs
        <= free_recs_locked rs' + (if split_at rs i then 1 else 0))%nat.
Proof.
  intros Hok [r Hi]%lookup_lt_is_Some Hfree. unfold carve_step, split_at in *. rewrite Hi in *.
  pose proof (table_ok_lookup _ _ _ Hok Hi) as Hr. unfold is_split in *.
  destruct (mine v p r) eqn:Hm; cbn [negb orb andb] in *.
  2:{ exists rs. split_and!; [done| |lia]. apply same_ok; [done|]. intros y Hy. congruence. }
  destruct (overlaps (start r) (end_ r) s e) eqn:Ho; cbn [negb] in *.
  2:{ exists rs. split_and!; [done| |lia]. apply same_ok; [done|]. intros y Hy. congruence. }
  pose proof (proj1 (mine_spec _ _ _) Hm) as (Hu & Hv & Hp). specialize (Hr Hu).
  apply overlaps_spec in Ho.
  assert (forall x, in_use x = true -> free_recs_locked (<[i := x]> rs) = free_recs_locked rs) as Hkeep.
  { intros x Hx. pose proof (countb_insert (fun r => negb (in_use r)) rs i x r Hi) as Hc.
    simpl in Hc. rewrite Hu, Hx in Hc. unfold free_recs_locked. simpl in Hc. lia. }
  destruct (Z.leb_spec s (start r)), (Z.leb_spec (end_ r) e), (Z.ltb_spec (start r) s),
    (Z.ltb_spec e (end_ r)); try lia; cbn [andb] in *.
  - eexists. split_and!; [reflexivity| |].
    + eapply replace_ok; [done|done|by intros ?| |]; [simpl; unfold mine; simpl; done|].
      intros v' p' ty b Hh. unfold covers, in_hole in *. simpl. split; [intros [? _]; done|].
      intros (_ & ? & ? & _ & ?). destruct Hh. split_and!; congruence || lia.
    + pose proof (countb_insert (fun r => negb (in_use r)) rs i (set_in_use false r) r Hi) as Hc.
      simpl in Hc. rewrite Hu in Hc. simpl in Hc. unfold free_recs_locked. lia.
  - eexists. split_and!; [reflexivity| |by rewrite Hkeep; [lia|]].
    rewrite u64_small by lia. by eapply trim_ok; eauto; simpl; lia.
  - eexists. split_and!; [reflexivity| |by rewrite Hkeep; [lia|]].
    rewrite u64_small by lia. by eapply trim_ok; eauto; simpl; lia.
  - pose proof (rec_alloc_spec rs) as Ha. specialize (Hfree eq_refl).
    destruct (rec_alloc_locked rs) as [[t rs1]|]; [|lia].
    destruct Ha as (y & Ht & Hy & ->). rewrite list_insert_insert_eq.
    assert (t <> i) by congruence.
    eexists. split_and!; [reflexivity| |].
    + rewrite !u64_small by lia. by eapply flock_split_ok.
    + pose proof (countb_insert (fun r => negb (in_use r)) rs t (set_start (u64 (e + 1)) r) y Ht) as H1'.
      pose proof (countb_insert (fun r => negb (in_use r)) (<[t:=set_start (u64 (e + 1)) r]> rs) i
        (set_end (u64 (s - 1)) r) r ltac:(by rewrite list_lookup_insert_ne)) as H2'.
      simpl in H1', H2'. rewrite Hu, Hy in *. simpl in *. unfold free_recs_locked. lia.
Qed.

Lemma carve_loop_ok ixs rs :
  table_ok rs -> NoDup ixs -> Forall (fun i => (i < FLOCK_MAX)%nat) ixs ->
  (countb (split_at rs) ixs <= free_recs_locked rs)%nat ->
  exists rs', carve_loop v p s e rs ixs = Some rs' /\ table_ok rs'
    /\ (forall v' p' ty b, ~ in_hole v' p' b -> held rs' v' p' ty b <-> held rs v' p' ty b)
    /\ (forall k, k ∈ ixs \/ clean rs k -> clean rs' k).
Proof.
  revert rs. induction ixs as [|i ixs IH]; intros rs Hok Hnd Hlt Hc; cbn [carve_loop countb] in *.
  { exists rs. split_and!; try done. intros k [?%elem_of_nil|]; done. }
  apply NoDup_cons in Hnd as [Hni Hnd]. apply Forall_cons in Hlt as [Hi Hlt].
  destruct (carve_step_ok rs i Hok) as (rs1 & -> & [Ht Hh Hcl Hsp] & Hf).
  { destruct Hok as [-> _]. done. }
  { intros E. rewrite E in Hc. lia. }
  assert (countb (split_at rs1) ixs = countb (split_at rs) ixs) as Hsame.
  { apply countb_ext. intros k Hk. unfold split_at.
    rewrite Forall_forall in Hlt. specialize (Hlt k Hk).
    destruct (lookup_lt_is_Some_2 rs k) as [r Hr]; [by destruct Hok as [-> _]|].
    destruct (lookup_lt_is_Some_2 rs1 k) as [r1 Hr1]; [by destruct Ht as [-> _]|].
    rewrite Hr, Hr1. eapply Hsp; [|done|done]. by intros ->. }
  destruct (IH rs1) as (rs' & He & Ht' & Hh' & Hcl'); try done.
  { destruct (split_at rs i); lia. }
  exists rs'. split_and!; try done.
  - intros v' p' ty b Hout. rewrite Hh' by done. by apply Hh.
  - intros k Hk. apply Hcl'. rewrite elem_of_cons in Hk.
    destruct Hk as [[->|]|]; auto.
Qed.

Lemma carve_locked_ok rs :
  table_ok rs ->
  exists rc rs', carve_locked rs v p s e = Some (rc, rs') /\ table_ok rs'
    /\ ((rc = - ENOLCK /\ rs' = rs)
        \/ (rc = 0 /\ forall v' p' ty b,
             held rs' v' p' ty b <-> ~ in_hole v' p' b /\ held rs v' p' ty b)).
Proof.
  intros Hok. unfold carve_locked.
  destruct (Nat.ltb_spec (free_recs_locked rs) (countb (is_split v p s e) rs)) as [|Hle].
  { exists (- ENOLCK), rs. auto. }
  destruct (carve_loop_ok (seq 0 FLOCK_MAX) rs) as (rs' & -> & Ht & Hh & Hcl); try done.
  { apply NoDup_seq. }
  { apply Forall_forall. intros i Hi%elem_of_seq. lia. }
  { rewrite <- (proj1 Hok). unfold split_at. rewrite countb_seq. lia. }
  exists 0, rs'. split_and!; try done. right. split; [done|].
  intros v' p' ty b. split; [|intros [? ?]; by apply Hh].
  intros Hheld. assert (~ in_hole v' p' b) as Hout; [|split; [done|by apply Hh]].
  intros (-> & -> & Hb). destruct Hheld as (i & r & Hi & Hu & Hv & Hp & _ & Hr).
  assert (clean rs' i) as Hc.
  { apply Hcl. left. apply elem_of_seq. apply lookup_lt_Some in Hi. destruct Ht as [-> _] in Hi. lia. }
  specialize (Hc r Hi (proj2 (mine_spec _ _ _) (conj Hu (conj Hv Hp)))).
  apply not_true_iff_false in Hc. apply Hc, overlaps_spec. lia.
Qed.
End carve.

(** ** Merging *)

Lemma touch_hull a b x :
  rec_ok a -> rec_ok b -> in_use a = true -> in_use b = true -> touch a b = true ->
  Z.min (start a) (start b) <= x <= Z.max (end_ a) (end_ b) <->
  start a <= x <= end_ a \/ start b <= x <= end_ b.
Proof.
  intros Ha Hb Hua Hub Ht. specialize (Ha Hua). specialize (Hb Hub).
  unfold touch, overlaps, UINT64_MAX, u64 in Ht.
  rewrite !orb_true_iff, !andb_true_iff, !negb_true_iff, !Z.leb_le, !Z.eqb_eq, !Z.eqb_neq in Ht.
  destruct Ht as [[Ht|[Hn Ht]]|[Hn Ht]]; [lia| |]; rewrite Z.mod_small in Ht by lia; lia.
Qed.

(** The record that absorbs its neighbour. *)
Definition hull (a b : lock_rec) : lock_rec :=
  let a1 := if start b <? start a then set_start (start b) a else a in
  if end_ a1 <? end_ b then set_end (end_ b) a1 else a1.

Lemma hull_spec a b :
  start (hull a b) = Z.min (start a) (start b) /\ end_ (hull a b) = Z.max (end_ a) (end_ b)
  /\ in_use (hull a b) = in_use a /\ vn (hull a b) = vn a /\ pid (hull a b) = pid a
  /\ type (hull a b) = type a.
Proof.
  unfold hull. destruct (Z.ltb_spec (start b) (start a)); simpl;
    destruct (Z.ltb_spec (end_ a) (end_ b)); simpl; split_and!; try done; lia.
Qed.

(** Record [i] grows to what records [i] and [j] covered. *)
Lemma held_widen rs i j a b x v p ty c :
  rs !! i = Some a -> rs !! j = Some b ->
  (covers v p ty c x <-> covers v p ty c a \/ covers v p ty c b) ->
  held (<[i := x]> rs) v p ty c <-> held rs v p ty c.
Proof.
  intros Hi Hj Hx. rewrite (held_insert _ _ a), (held_split rs i a), Hx by done.
  split; [|tauto]. intros [[?|Hb]|?]; [tauto| |tauto].
  destruct (decide (j = i)) as [->|]; [left; congruence|]. right. by exists j, b.
Qed.

(** Dropping a record that another one covers. *)
Lemma held_drop rs i j x b v p ty c :
  rs !! i = Some x -> rs !! j = Some b -> i <> j -> (covers v p ty c b -> covers v p ty c x) ->
  held (<[j := set_in_use false b]> rs) v p ty c <-> held rs v p ty c.
Proof.
  intros Hi Hj Hne Hx. rewrite (held_insert _ _ b), (held_split rs j b) by done.
  split.
  - intros [[? _]|?]; [done|tauto].
  - intros [Hc|?]; [|tauto]. right. exists i, x. auto.
Qed.

Lemma join_recs_ok v p rs i j a b :
  table_ok rs -> rs !! i = Some a -> rs !! j = Some b -> mine v p a = true ->
  joinable v p i a j b = true ->
  table_ok (join_recs rs i j)
  /\ (forall v' p' ty x, held (join_recs rs i j) v' p' ty x <-> held rs v' p' ty x)
  /\ (countb in_use (join_recs rs i j) < countb in_use rs)%nat.
Proof.
  intros Hok Hi Hj Ha Hjoin. unfold joinable in Hjoin.
  rewrite !andb_true_iff, negb_true_iff, Nat.eqb_neq, Z.eqb_eq in Hjoin.
  destruct Hjoin as [[[Hne Hb] Hty] Htouch].
  apply mine_spec in Ha as (Hua & Hva & Hpa). apply mine_spec in Hb as (Hub & Hvb & Hpb).
  pose proof (table_ok_lookup _ _ _ Hok Hi) as Hra. pose proof (table_ok_lookup _ _ _ Hok Hj) as Hrb.
  pose proof (fun x => touch_hull a b x Hra Hrb Hua Hub Htouch) as Hx.
  pose proof (hull_spec a b) as (Hs & He & Hu & Hv & Hp & Ht).
  pose proof (Hra Hua). pose proof (Hrb Hub).
  assert (join_recs rs i j = <[j := set_in_use false b]> (<[i := hull a b]> rs)) as ->
    by (unfold join_recs; by rewrite Hi, Hj).
  assert (<[i:=hull a b]> rs !! j = Some b) as Hj' by (by rewrite list_lookup_insert_ne).
  split_and!.
  - apply table_ok_insert; [apply table_ok_insert; [done|]|by intros ?]. intros _. lia.
  - intros v' p' ty x.
    assert (covers v' p' ty x (hull a b) <-> covers v' p' ty x a \/ covers v' p' ty x b) as Hc.
    { unfold covers. rewrite Hs, He, Hu, Hv, Hp, Ht, Hx. rewrite Hua, Hub, Hva, Hvb, Hpa, Hpb, Hty. tauto. }
    rewrite (held_drop _ i j (hull a b) b), (held_widen _ i j a b); try done.
    + apply list_lookup_insert_eq. by eapply lookup_lt_Some.
    + tauto.
  - pose proof (countb_insert in_use rs i (hull a b) a Hi) as H1.
    pose proof (countb_insert in_use _ j (set_in_use false b) b Hj') as H2.
    simpl in H2. rewrite Hub in H2. rewrite Hu, Hua in H1. lia.
Qed.

Lemma merge_find_spec v p rs ixs :
  match merge_find v p rs ixs with
  | Some (i, j) => merge_partner v p rs i = Some j
  | None => forall i, i ∈ ixs -> merge_partner v p rs i = None
  end.
Proof.
  induction ixs as [|i ixs IH]; simpl; [intros ? []%elem_of_nil|].
  destruct (merge_partner v p rs i) eqn:E; [done|].
  destruct (merge_find v p rs ixs) as [[? ?]|]; [done|].
  intros k [->|Hk]%elem_of_cons; [done|by apply IH].
Qed.

Lemma merge_partner_Some v p rs i j :
  merge_partner v p rs i = Some j ->
  exists a b, rs !! i = Some a /\ rs !! j = Some b /\ mine v p a = true
              /\ joinable v p i a j b = true.
Proof.
  unfold merge_partner. destruct (rs !! i) as [a|]; [|done].
  destruct (mine v p a) eqn:Em; [|done]. intros [_ H]%find_some.
  destruct (rs !! j) as [b|]; [|done]. eauto 10.
Qed.

(** No two records of [p] on [v] with the same mode overlap or touch. *)
Definition minimal (v p : Z) (rs : list lock_rec) : Prop :=
  forall i j a b, i <> j -> rs !! i = Some a -> rs !! j = Some b ->
  mine v p a = true -> mine v p b = true -> type b = type a -> touch a b = false.

Lemma merge_loop_ok fuel v p rs :
  table_ok rs -> (countb in_use rs < fuel)%nat ->
  exists rs', merge_loop fuel v p rs = Some rs' /\ table_ok rs' /\ minimal v p rs'
    /\ forall v' p' ty b, held rs' v' p' ty b <-> held rs v' p' ty b.
Proof.
  revert rs. induction fuel as [|fuel IH]; intros rs Hok Hf; [lia|]. cbn [merge_loop].
  pose proof (merge_find_spec v p rs (seq 0 FLOCK_MAX)) as Hfind.
  destruct (merge_find v p rs _) as [[i j]|].
  - apply merge_partner_Some in Hfind as (a & b & Hi & Hj & Hm & Hjn).
    destruct (join_recs_ok v p rs i j a b) as (Hok' & Hh & Hlt); try done.
    destruct (IH (join_recs rs i j) Hok') as (rs' & He & Hok'' & Hmin & Hh'); [lia|].
    exists rs'. split_and!; try done. intros v' p' ty x. by rewrite Hh', Hh.
  - exists rs. split_and!; try done. intros i j a b Hne Hi Hj Ha Hb Hty.
    assert (forall k r, rs !! k = Some r -> k ∈ seq 0 FLOCK_MAX) as Hseq.
    { intros k r Hk%lookup_lt_Some. apply elem_of_seq. destruct Hok as [<- _]. lia. }
    specialize (Hfind i (Hseq i a Hi)). unfold merge_partner in Hfind. rewrite Hi, Ha in Hfind.
    pose proof (find_none _ _ Hfind j) as Hn. rewrite <- list_elem_of_In in Hn.
    specialize (Hn (Hseq j b Hj)). cbn beta in Hn. rewrite Hj in Hn. unfold joinable in Hn.
    rewrite Hb, Hty, Z.eqb_refl in Hn. rewrite (proj2 (Nat.eqb_neq j i)) in Hn by done. exact Hn.
Qed.

Lemma merge_locked_ok rs v p :
  table_ok rs ->
  exists rs', merge_locked rs v p = Some rs' /\ table_ok rs' /\ minimal v p rs'
    /\ forall v' p' ty b, held rs' v' p' ty b <-> held rs v' p' ty b.
Proof.
  intros Hok. apply merge_loop_ok; [done|].
  pose proof (countb_le_length in_use rs). destruct Hok as [Hl _]. lia.
Qed.

(** ** Taking a lock *)

Definition req_ok (q : request) : Prop :=
  0 <= q_s q <= q_e q /\ q_e q < W64 /\ (q_type q = F_RDLCK \/ q_type q = F_WRLCK).

(** The bytes a request is about. *)
Definition asked (q : request) (v p b : Z) : Prop := in_hole (q_vn q) (q_pid q) (q_s q) (q_e q) v p b.

Lemma take_section_ok rs q :
  table_ok rs -> req_ok q ->
  exists rc rs', take_section rs q = Some (rc, rs') /\ table_ok rs'
    /\ ((rc = 0 /\ minimal (q_vn q) (q_pid q) rs'
         /\ forall v p ty b, held rs' v p ty b <->
              (asked q v p b /\ ty = q_type q) \/ (~ asked q v p b /\ held rs v p ty b))
        \/ (rc = - ENOLCK /\ forall v p ty b, held rs' v p ty b -> held rs v p ty b)).
Proof.
  intros Hok (Hr1 & Hr2 & Hty). unfold take_section.
  destruct (carve_locked_ok (q_vn q) (q_pid q) (q_s q) (q_e q) Hr1 Hr2 rs Hok)
    as (rc & rs1 & -> & Hok1 & [[-> ->]|[-> Hh]]).
  { exists (- ENOLCK), rs. split_and!; try done. right. auto. }
  simpl. pose proof (rec_alloc_spec rs1) as Ha. destruct (rec_alloc_locked rs1) as [[i rs2]|].
  2:{ exists (- ENOLCK), rs1. split_and!; try done. right. split; [done|]. intros. by apply Hh. }
  destruct Ha as (y & Hi & Hy & ->). rewrite list_insert_insert_eq.
  set (x := LockRec true _ _ _ _ _).
  destruct (merge_locked_ok (<[i := x]> rs1) (q_vn q) (q_pid q)) as (rs3 & -> & Hok3 & Hmin & Hh3).
  { apply table_ok_insert; [done|]. intros _. simpl. lia. }
  exists 0, rs3. split_and!; try done. left. split_and!; try done.
  intros v p ty b. rewrite Hh3, (held_insert _ _ y) by done.
  assert (held_but i rs1 v p ty b <-> held rs1 v p ty b) as ->.
  { rewrite (held_split rs1 i y) by done. pose proof (covers_off v p ty b y Hy). tauto. }
  rewrite Hh. unfold asked, in_hole, covers, x. simpl.
  split; intros [?|?]; [left|right|left|right]; intuition congruence.
Qed.

(** ** The table invariant *)

(** The lock discipline, byte by byte: two processes share a byte only if both
    read it, and one process holds a byte in one mode. *)
Record excl (rs : list lock_rec) : Prop := {
  ex_type : forall v p ty b, held rs v p ty b -> ty = F_RDLCK \/ ty = F_WRLCK;
  ex_shared : forall v b p1 p2 t1 t2, held rs v p1 t1 b -> held rs v p2 t2 b -> p1 <> p2 ->
                t1 = F_RDLCK /\ t2 = F_RDLCK;
  ex_own : forall v b p t1 t2, held rs v p t1 b -> held rs v p t2 b -> t1 = t2;
}.

Definition table_inv (rs : list lock_rec) : Prop := table_ok rs /\ excl rs.

(** Losing locks keeps the discipline. *)
Lemma excl_shrink rs rs' :
  excl rs -> (forall v p ty b, held rs' v p ty b -> held rs v p ty b) -> excl rs'.
Proof. intros [H1 H2 H3] Hs. split; eauto. Qed.

Lemma excl_take rs rs' q :
  excl rs -> req_ok q -> table_ok rs ->
  conflict_locked rs (q_vn q) (q_pid q) (q_type q) (q_s q) (q_e q) = None ->
  (forall v p ty b, held rs' v p ty b <->
     (asked q v p b /\ ty = q_type q) \/ (~ asked q v p b /\ held rs v p ty b)) ->
  excl rs'.
Proof.
  intros [H1 H2 H3] (Hr1 & Hr2 & Hty) Hok Hc Hh.
  assert (forall v p b p' ty', asked q v p b -> p' <> p -> held rs v p' ty' b ->
            q_type q = F_RDLCK /\ ty' = F_RDLCK) as Hno.
  { intros v p b p' ty' (-> & -> & Hb) Hp Hheld.
    pose proof (conflict_held rs (q_vn q) (q_pid q) (q_type q) (q_s q) (q_e q) Hok ltac:(lia)) as [_ Hx].
    assert (~ (ty' = F_WRLCK \/ q_type q = F_WRLCK)) as Hn.
    { intros Hor. destruct Hx as [c Hx]; [eauto 10|]. congruence. }
    destruct (H1 _ _ _ _ Hheld), Hty; tauto. }
  assert (forall v p p' b, asked q v p b -> asked q v p' b -> p = p') as Hsame
    by (unfold asked, in_hole; intuition congruence).
  split.
  - intros v p ty b [[_ ->]|[_ ?]]%Hh; eauto.
  - intros v b p1 p2 t1 t2 [[A1 ->]|[A1 B1]]%Hh [[A2 ->]|[A2 B2]]%Hh Hne.
    + destruct Hne. eauto.
    + eapply Hno; [done| |done]. congruence.
    + apply and_comm. eapply Hno; [done| |done]. congruence.
    + eauto.
  - intros v b p t1 t2 [[A1 ->]|[A1 B1]]%Hh [[A2 ->]|[A2 B2]]%Hh; done || eauto.
Qed.

Lemma release_where_ok f rs :
  table_inv rs ->
  table_inv (release_where f rs)
  /\ forall v p ty b, held (release_where f rs) v p ty b <->
       exists i r, rs !! i = Some r /\ f r = false /\ covers v p ty b r.
Proof.
  intros [[Hl Hf] He].
  assert (forall v p ty b, held (release_where f rs) v p ty b <->
            exists i r, rs !! i = Some r /\ f r = false /\ covers v p ty b r) as Hh.
  { intros v p ty b. unfold held, release_where. split.
    - intros (i & r & Hi & Hc). rewrite list_lookup_fmap in Hi.
      destruct (rs !! i) as [r0|] eqn:E; [|done]. simpl in Hi. injection Hi as <-.
      destruct (f r0) eqn:Ef; [by destruct Hc|]. eauto 10.
    - intros (i & r & Hi & Hfr & Hc). exists i, r. rewrite list_lookup_fmap, Hi. simpl.
      by rewrite Hfr. }
  split; [|done]. split; [split|].
  - unfold release_where. by rewrite length_fmap.
  - apply Forall_fmap, (Forall_impl _ _ _ Hf). intros r Hr. simpl. destruct (f r); [by intros ?|done].
  - eapply excl_shrink; [exact He|]. intros v p ty b (i & r & ? & _ & ?)%Hh. by exists i, r.
Qed.

(** ** The system invariant *)

Lemma range_of_ok f fl s e :
  - W63 <= l_len fl < W63 -> range_of f fl = inr (s, e) -> 0 <= s <= e /\ e < W64.
Proof.
  unfold range_of. intros Hl H. destruct (if _ : bool then _ else _) as [base|]; [|done].
  set (st := i64 (base + l_start fl)) in H. pose proof (i64_range (base + l_start fl)) as Hst.
  fold st in Hst. clearbody st.
  destruct (Z.ltb_spec (l_len fl) 0).
  - pose proof (i64_range (st + l_len fl)).
    destruct (Z.ltb_spec (i64 (st + l_len fl)) 0); [done|]. injection H as <- <-.
    destruct (Z.eqb_spec (i64 (- l_len fl)) 0) as [E|E];
      unfold UINT64_MAX, u64, i64 in *; dlia.
  - destruct (Z.ltb_spec st 0); [done|]. injection H as <- <-.
    destruct (Z.eqb_spec (l_len fl) 0) as [E|E];
      unfold UINT64_MAX, u64 in *; rewrite !(Z.mod_small st) by lia; [lia|].
    rewrite (Z.mod_small (l_len fl)) by lia. rewrite Z.mod_small by lia. lia.
Qed.

(** What a critical section that starts with table [rs] may do. *)
Record section_ok (rs rs' : list lock_rec) (k : fpc) : Prop := {
  se_inv : table_inv rs';
  se_wake : rs' = rs \/ exists rc, k = FWake rc;
  se_asleep : forall i q, k = FAsleep i q ->
    req_ok q /\ rs' = rs /\ conflict_locked rs (q_vn q) (q_pid q) (q_type q) (q_s q) (q_e q) <> None;
  se_woken : forall i q, k <> FWoken i q;
}.

Lemma section_same rs rc : table_inv rs -> section_ok rs rs (FDone rc).
Proof. intros H. split; auto; done. Qed.

Lemma section_change rs rs' rc : table_inv rs' -> section_ok rs rs' (FWake rc).
Proof. intros H. split; eauto; done. Qed.

(** A branch that returns without touching the table. *)
Ltac section_ret := repeat eapply ex_intro; split; [reflexivity|by apply section_same].

Lemma setlk_section_ok rs ws cmd q sig :
  table_inv rs -> req_ok q ->
  exists rs' ws' k, setlk_section rs ws cmd q sig = Some (rs', ws', k) /\ section_ok rs rs' k.
Proof.
  intros Hinv Hq. unfold setlk_section.
  destruct (conflict_locked rs _ _ _ _ _) as [c|] eqn:Hc.
  - destruct (cmd =? F_SETLK); [section_ret|].
    destruct (deadlock_locked rs ws (q_pid q) (pid c)); [section_ret|].
    destruct (list_find (fun w => w_in_use w = false) ws) as [[i w]|]; [|section_ret].
    destruct sig; [section_ret|].
    eexists _, _, _. split; [reflexivity|]. split; [done|by left| |done].
    intros i' q' [= <- <-]. split; [done|]. split; [done|]. congruence.
  - destruct (_ <? 1)%nat; [section_ret|]. destruct Hinv as [Hok He].
    destruct (take_section_ok rs q Hok Hq) as (rc & rs' & -> & Hok' & Hcase).
    eexists _, _, _. split; [reflexivity|]. apply section_change. split; [done|].
    destruct Hcase as [(_ & _ & Hh)|[_ Hh]]; [by eapply excl_take|by eapply excl_shrink].
Qed.

Lemma flock_fcntl_ok rs ws p f cmd fl sig :
  table_inv rs -> - W63 <= l_len fl < W63 ->
  exists fl' rs' ws' k, flock_fcntl rs ws p f cmd fl sig = Some (fl', rs', ws', k)
                        /\ section_ok rs rs' k.
Proof.
  intros Hinv Hl. unfold flock_fcntl.
  destruct (f_vn f) as [vnd|]; [|section_ret].
  destruct (negb _); [section_ret|].
  destruct (negb (l_type fl =? F_RDLCK) && _ && _) eqn:Ety; [section_ret|].
  destruct (_ && _ && negb (f_writable f)); [section_ret|].
  destruct (range_of f fl) as [rc|[s e]] eqn:Er; [section_ret|].
  apply range_of_ok in Er as [Hr1 Hr2]; [|done].
  destruct (cmd =? F_GETLK); [section_ret|].
  destruct (Z.eqb_spec (l_type fl) F_UNLCK) as [|Hnu].
  - destruct Hinv as [Hok He].
    destruct (carve_locked_ok (vn_addr vnd) p s e Hr1 Hr2 rs Hok) as (rc & rs' & -> & Hok' & Hcase).
    eexists _, _, _, _. split; [reflexivity|]. apply section_change. split; [done|].
    destruct Hcase as [[_ ->]|[_ Hh]]; [done|]. eapply excl_shrink; [done|]. intros; by apply Hh.
  - destruct (setlk_section_ok rs ws cmd (Request (vn_addr vnd) p (l_type fl) s e) sig Hinv)
      as (rs' & ws' & k & -> & Hk); [|eauto 10].
    split_and!; simpl; lia.
Qed.

Lemma release_section_ok f rs :
  table_inv rs ->
  section_ok rs (release_where f rs) (if existsb f rs then FWake 0 else FDone 0).
Proof.
  intros Hinv. destruct (existsb f rs) eqn:E.
  - apply section_change. by apply release_where_ok.
  - assert (release_where f rs = rs) as ->; [|by apply section_same].
    unfold release_where. rewrite <- (list_fmap_id rs) at 2. apply list_fmap_ext. intros i r Hi.
    simpl. destruct (f r) eqn:Ef; [|done]. apply not_true_iff_false in E. destruct E.
    apply existsb_exists. exists r. split; [|done]. apply list_elem_of_In.
    by eapply list_elem_of_lookup_2.
Qed.

Definition blocked_ok (s : fsys) (k : fpc) : Prop :=
  match k with
  | FAsleep _ q =>
    req_ok q /\ (conflict_locked (recs s) (q_vn q) (q_pid q) (q_type q) (q_s q) (q_e q) <> None
                 \/ exists u rc, thr s !! u = Some (FWake rc))
  | FWoken _ q => req_ok q
  | _ => True
  end.

Record inv (s : fsys) : Prop := {
  iv_table : table_inv (recs s);
  iv_thr : map_Forall (fun _ k => blocked_ok s k) (thr s);
}.

(** An [l_len] is an [int64_t]. *)
Definition event_ok (ev : event) : Prop :=
  match ev with EFcntl _ _ _ _ fl _ => - W63 <= l_len fl < W63 | _ => True end.

(** A thread that is not about to wake anybody runs one section. *)
Lemma flock_inv_section s t rs' ws' k :
  inv s -> (forall rc, thr s !! t <> Some (FWake rc)) -> section_ok (recs s) rs' k ->
  inv (FSys rs' ws' (<[t := k]> (thr s))).
Proof.
  intros [Ht Hb] Hnw [Hi Hw Has Hwo]. split; [done|]. simpl.
  apply map_Forall_lookup_2. intros u k' Hu. destruct (decide (u = t)) as [->|Hne].
  - rewrite lookup_insert_eq in Hu. injection Hu as <-. destruct k as [| i q |i q|]; try done.
    + destruct (Has i q eq_refl) as (? & -> & ?). simpl. auto.
    + by destruct (Hwo i q).
  - rewrite lookup_insert_ne in Hu by done. specialize (map_Forall_lookup_1 _ _ _ _ Hb Hu) as Hbu.
    destruct k' as [|i q|i q|]; try done. simpl in *. destruct Hbu as [Hq Hbu]. split; [done|].
    destruct Hw as [->|[rc ->]]; [|right; exists t, rc; by rewrite lookup_insert_eq].
    destruct Hbu as [?|(v & rc & Hv)]; [by left|]. right. exists v, rc.
    rewrite lookup_insert_ne; [done|]. intros ->. by destruct (Hnw rc).
Qed.

Lemma idle_not_waking s t rc : idle s t = true -> thr s !! t <> Some (FWake rc).
Proof. unfold idle. destruct (thr s !! t) as [[]|]; done. Qed.

Lemma flock_inv_wake s t rc :
  inv s -> inv (FSys (recs s) (waiters s) (<[t := FDone rc]> (wake_thread <$> thr s))).
Proof.
  intros [Ht Hb]. split; [done|]. apply map_Forall_lookup_2. intros u k Hu. simpl in Hu.
  destruct (decide (u = t)) as [->|Hne]; [rewrite lookup_insert_eq in Hu; by injection Hu as <-|].
  rewrite lookup_insert_ne, lookup_fmap in Hu by done.
  destruct (thr s !! u) as [k'|] eqn:E; [|done]. simpl in Hu. injection Hu as <-.
  specialize (map_Forall_lookup_1 _ _ _ _ Hb E) as Hbu. destruct k'; simpl in *; tauto.
Qed.

Lemma flock_exec_inv ev s s' : inv s -> event_ok ev -> exec ev s = Some s' -> inv s'.
Proof.
  intros Hinv Hev H. pose proof (iv_table _ Hinv) as Ht.
  destruct ev as [t p f cmd fl sig|t v p|t p|t eintr sig|t]; simpl in H.
  - destruct (idle s t) eqn:Ei; [|done].
    destruct (flock_fcntl_ok (recs s) (waiters s) p f cmd fl sig Ht Hev)
      as (fl' & rs' & ws' & k & E & Hs). rewrite E in H. injection H as <-.
    apply flock_inv_section; auto using idle_not_waking.
  - destruct (idle s t) eqn:Ei; [|done]. injection H as <-.
    apply flock_inv_section; [done|by intros; apply idle_not_waking|by apply release_section_ok].
  - destruct (idle s t) eqn:Ei; [|done]. injection H as <-.
    apply flock_inv_section; [done|by intros; apply idle_not_waking|].
    exact (release_section_ok (fun r => in_use r && (pid r =? p)) _ Ht).
  - destruct (thr s !! t) as [[rc|i q|i q|rc]|] eqn:E; try done.
    + assert (forall rc, thr s !! t <> Some (FWake rc)) as Hn by congruence.
      pose proof (map_Forall_lookup_1 _ _ _ _ (iv_thr _ Hinv) E) as Hq. simpl in Hq.
      destruct eintr; [injection H as <-; by apply flock_inv_section; auto using section_same|].
      destruct (setlk_section_ok (recs s) (clear_waiter (waiters s) i) F_SETLKW q sig Ht Hq)
        as (rs' & ws' & k & Es & Hs). rewrite Es in H. injection H as <-. by apply flock_inv_section.
    + injection H as <-. by apply flock_inv_wake.
  - destruct (thr s !! t) as [[rc|i q|i q|rc]|] eqn:E; try done. injection H as <-.
    pose proof (map_Forall_lookup_1 _ _ _ _ (iv_thr _ Hinv) E) as [Hq _].
    split; [done|]. apply map_Forall_lookup_2. intros u k Hu. simpl in Hu.
    destruct (decide (u = t)) as [->|Hne]; [rewrite lookup_insert_eq in Hu; by injection Hu as <-|].
    rewrite lookup_insert_ne in Hu by done.
    pose proof (map_Forall_lookup_1 _ _ _ _ (iv_thr _ Hinv) Hu) as Hbu.
    destruct k as [|i' q'|i' q'|]; try done. simpl in *. destruct Hbu as [? Hbu]. split; [done|].
    destruct Hbu as [?|(v & rc & Hv)]; [by left|]. right. exists v, rc.
    rewrite lookup_insert_ne; [done|]. intros ->. congruence.
Qed.

Lemma flock_run_inv es s s' : inv s -> Forall event_ok es -> run es s = Some s' -> inv s'.
Proof.
  revert s. induction es as [|ev es IH]; simpl; intros s Hinv Hok H; [by injection H as <-|].
  apply Forall_cons in Hok as [Hev Hok].
  destruct (exec ev s) as [s1|] eqn:E; [|done]. eauto using flock_exec_inv.
Qed.

Lemma not_held_repeat n v p ty b : ~ held (repeat no_rec n) v p ty b.
Proof.
  intros (i & r & Hi & Hu & _). apply list_elem_of_lookup_2, list_elem_of_In, repeat_spec in Hi.
  by subst r.
Qed.

Lemma flock_init_inv : inv flock_init.
Proof.
  split; [split; [split|split]|]; simpl.
  - apply repeat_length.
  - apply Forall_forall. intros r Hr%list_elem_of_In%repeat_spec. subst. by intros ?.
  - intros v p ty b []%not_held_repeat.
  - intros v b p1 p2 t1 t2 []%not_held_repeat.
  - intros v b p t1 t2 []%not_held_repeat.
  - apply map_Forall_empty.
Qed.

(** ** Properties *)

(** C15: mutual exclusion of record locks.  Whatever the processes do and however
    their calls, releases and sleeps interleave, two processes hold the same byte
    of a file at the same time only if both hold it for reading, and a process
    holds a byte in one mode only. *)
Theorem flock_exclusion (es : list event) (s : fsys) (v b p1 p2 t1 t2 : Z) :
  Forall event_ok es -> run es flock_init = Some s ->
  held (recs s) v p1 t1 b -> held (recs s) v p2 t2 b ->
  (p1 <> p2 -> t1 = F_RDLCK /\ t2 = F_RDLCK) /\ (p1 = p2 -> t1 = t2).
Proof.
  intros Hok Hrun H1 H2. pose proof (flock_run_inv _ _ _ flock_init_inv Hok Hrun) as [[_ [_ Hs Ho]] _].
  split; [eauto|]. intros ->. eauto.
Qed.

(** A regular file, and requests on it. *)
Definition demo_file : file_descriptor := FileDescriptor (Some (Vnode 7 VNODE_FILE 100)) 0 true.
Definition setlk (t : nat) (p ty st len : Z) : event :=
  EFcntl t p demo_file F_SETLK (KFlock ty 0 st len 0) false.

Definition shared_events : list event := [setlk 0 1 F_RDLCK 0 10; setlk 1 2 F_RDLCK 5 10].

Lemma covers_compute v p ty b r :
  in_use r && (vn r =? v) && (pid r =? p) && (type r =? ty) && (start r <=? b) && (b <=? end_ r) = true ->
  covers v p ty b r.
Proof. unfold covers. rewrite !andb_true_iff, !Z.eqb_eq, !Z.leb_le. tauto. Qed.

Lemma shared_run :
  exists s, run shared_events flock_init = Some s
    /\ recs s !! 0%nat = Some (LockRec true 7 1 F_RDLCK 0 9)
    /\ recs s !! 1%nat = Some (LockRec true 7 2 F_RDLCK 5 14).
Proof. eexists. split; [vm_compute; reflexivity|]. split; reflexivity. Qed.

Lemma flock_exclusion_witness :
  exists s, run shared_events flock_init = Some s
    /\ held (recs s) 7 1 F_RDLCK 5 /\ held (recs s) 7 2 F_RDLCK 5
    /\ (1 <> 2 -> F_RDLCK = F_RDLCK /\ F_RDLCK = F_RDLCK).
Proof.
  destruct shared_run as (s & E & R0 & R1).
  assert (held (recs s) 7 1 F_RDLCK 5) as H1.
  { exists 0%nat, (LockRec true 7 1 F_RDLCK 0 9). split; [exact R0|].
    apply covers_compute. reflexivity. }
  assert (held (recs s) 7 2 F_RDLCK 5) as H2.
  { exists 1%nat, (LockRec true 7 2 F_RDLCK 5 14). split; [exact R1|].
    apply covers_compute. reflexivity. }
  exists s. split; [exact E|]. split; [exact H1|]. split; [exact H2|].
  apply (flock_exclusion shared_events s 7 5 1 2 F_RDLCK F_RDLCK); [|exact E|exact H1|exact H2].
  repeat constructor; simpl; lia.
Defined.

(** F_SETLK, byte by byte.  On a well-formed table a request for [type] on a
    range is refused with -EAGAIN, leaving the table alone, exactly when another
    process holds a conflicting byte of the range; when it returns 0 the caller
    holds exactly the requested bytes in the new mode, every other byte of every
    process is as before, and the caller's records are merged; the only other
    answer is -ENOLCK, after which nobody holds more than before. *)
Theorem flock_setlk_spec (rs : list lock_rec) (ws : list waiter) (q : request) (sig : bool) :
  table_inv rs -> req_ok q ->
  exists rs' k, setlk_section rs ws F_SETLK q sig = Some (rs', ws, k) /\ table_inv rs'
    /\ (k = FDone (- EAGAIN) <->
        exists b p ty, q_s q <= b <= q_e q /\ p <> q_pid q /\ held rs (q_vn q) p ty b
                       /\ (ty = F_WRLCK \/ q_type q = F_WRLCK))
    /\ ((k = FDone (- EAGAIN) /\ rs' = rs)
        \/ (k = FWake 0 /\ minimal (q_vn q) (q_pid q) rs'
            /\ forall v p ty b, held rs' v p ty b <->
                 (asked q v p b /\ ty = q_type q) \/ (~ asked q v p b /\ held rs v p ty b))
        \/ ((k = FDone (- ENOLCK) \/ k = FWake (- ENOLCK))
            /\ forall v p ty b, held rs' v p ty b -> held rs v p ty b)).
Proof.
  intros Hinv Hq. pose proof Hq as (Hr & _ & _). destruct Hinv as [Hok He].
  pose proof (conflict_held rs (q_vn q) (q_pid q) (q_type q) (q_s q) (q_e q) Hok ltac:(lia)) as Hc.
  destruct (setlk_section_ok rs ws F_SETLK q sig (conj Hok He) Hq) as (rs' & ws' & k & E & [Hi _ _ _]).
  rewrite E. unfold setlk_section in E. destruct (conflict_locked rs _ _ _ _ _) as [c|].
  - simpl in E. injection E as <- <- <-. exists rs, (FDone (- EAGAIN)).
    split_and!; try done; [|by left]. split; [intros _; apply Hc; eauto|done].
  - assert (forall k0, k0 <> FDone (- EAGAIN) -> k0 = FDone (- EAGAIN) <->
        exists b p ty, q_s q <= b <= q_e q /\ p <> q_pid q /\ held rs (q_vn q) p ty b
                       /\ (ty = F_WRLCK \/ q_type q = F_WRLCK)) as Hno.
    { intros k0 Hk. split; [done|]. intros Hx. apply Hc in Hx as [? ?]. done. }
    destruct (_ <? 1)%nat.
    + injection E as <- <- <-. exists rs, (FDone (- ENOLCK)). split_and!; try done; [by apply Hno|].
      right; right. auto.
    + destruct (take_section_ok rs q Hok Hq) as (rc & rs1 & Et & Hok1 & Hcase).
      rewrite Et in E. injection E as <- <- <-. exists rs1, (FWake rc).
      split_and!; try done; [by apply Hno|]. right.
      destruct Hcase as [(-> & Hm & Hh)|[-> Hh]]; auto.
Qed.

Lemma flock_setlk_spec_witness :
  let rs := repeat no_rec FLOCK_MAX in
  exists rs' k, setlk_section rs [] F_SETLK (Request 7 1 F_WRLCK 3 5) false = Some (rs', [], k)
                /\ table_inv rs' /\ k <> FDone (- EAGAIN).
Proof.
  intros rs.
  destruct (flock_setlk_spec rs [] (Request 7 1 F_WRLCK 3 5) false) as (rs' & k & E & Hi & Hk & _).
  - exact (iv_table _ flock_init_inv).
  - split; [simpl; lia|]. split; [simpl; lia|]. right. reflexivity.
  - exists rs', k. split; [exact E|]. split; [exact Hi|]. intros ->.
    destruct (proj1 Hk eq_refl) as (b & p & ty & _ & _ & Hh & _). exact (not_held_repeat _ _ _ _ _ Hh).
Defined.

(** no lost wake-up for F_SETLKW.  In every reachable state a process asleep
    in [flock_fcntl] still conflicts with some lock, or a thread is about to wake
    the queue; a lock that becomes available is never slept through. *)
Theorem flock_waiter_not_lost (es : list event) (s : fsys) (t : nat) (i : nat) (q : request) :
  Forall event_ok es -> run es flock_init = Some s -> thr s !! t = Some (FAsleep i q) ->
  (exists c, conflict_locked (recs s) (q_vn q) (q_pid q) (q_type q) (q_s q) (q_e q) = Some c)
  \/ exists u rc, thr s !! u = Some (FWake rc).
Proof.
  intros Hok Hrun Ht. pose proof (flock_run_inv _ _ _ flock_init_inv Hok Hrun) as [_ Hb].
  destruct (map_Forall_lookup_1 _ _ _ _ Hb Ht) as [_ [Hc|?]]; [left|by right].
  destruct (conflict_locked _ _ _ _ _ _); [eauto|done].
Qed.

Definition waiter_events : list event :=
  [setlk 0 1 F_WRLCK 0 10; ERun 0 false false;
   EFcntl 1 2 demo_file F_SETLKW (KFlock F_RDLCK 0 5 1 0) false; EReleasePid 0 1].

Lemma waiter_run :
  exists s, run waiter_events flock_init = Some s
    /\ thr s !! 1%nat = Some (FAsleep 0 (Request 7 2 F_RDLCK 5 5)).
Proof. eexists. split; [vm_compute; reflexivity|]. reflexivity. Qed.

Lemma flock_waiter_not_lost_witness :
  exists s, run waiter_events flock_init = Some s
    /\ ((exists c, conflict_locked (recs s) 7 2 F_RDLCK 5 5 = Some c)
        \/ exists u rc, thr s !! u = Some (FWake rc)).
Proof.
  destruct waiter_run as (s & E & Ht). exists s. split; [exact E|].
  apply (flock_waiter_not_lost waiter_events s 1 0 (Request 7 2 F_RDLCK 5 5)); [|exact E|exact Ht].
  repeat constructor; simpl; lia.
Defined.

(** Process [p] waits for a lock of process [p']. *)
Definition waits_for (rs : list lock_rec) (ws : list waiter) (p p' : Z) : Prop :=
  exists w r, w ∈ ws /\ w_in_use w = true /\ w_pid w = p /\ r ∈ rs /\ pid r = p'
    /\ conflicts (w_vn w) p (w_type w) (w_start w) (w_end w) r = true.

Lemma deadlock_hops_sound hops rs ws p holder :
  deadlock_hops hops rs ws p holder = true -> rtc (waits_for rs ws) holder p.
Proof.
  revert holder. induction hops as [|hops IH]; intros holder H; [done|]. cbn [deadlock_hops] in H.
  destruct (Z.eqb_spec holder p) as [E|E]; [by rewrite E|].
  destruct (waiter_of ws holder) as [w|] eqn:Ew; [|done].
  unfold waiter_of in Ew. apply find_some in Ew as [Hw Hp]. zbool.
  pose proof (conflict_spec rs (w_vn w) (w_pid w) (w_type w) (w_start w) (w_end w)) as Hc.
  destruct (conflict_locked rs _ _ _ _ _) as [r|]; [|done]. destruct Hc as [Hr Hc].
  apply (rtc_l _ _ (pid r)); [|by apply IH]. exists w, r.
  split_and!; try done; [by apply list_elem_of_In|]. congruence.
Qed.

(** -EDEADLK is never spurious.  It is answered only when the holder of the
    conflicting lock already waits, directly or through a chain of sleeping
    processes, for a lock of the caller. *)
Theorem flock_deadlock_sound (rs rs' : list lock_rec) (ws ws' : list waiter) (cmd : Z)
    (q : request) (sig : bool) :
  setlk_section rs ws cmd q sig = Some (rs', ws', FDone (- EDEADLK)) ->
  exists c, c ∈ rs /\ conflicts (q_vn q) (q_pid q) (q_type q) (q_s q) (q_e q) c = true
            /\ rtc (waits_for rs ws) (pid c) (q_pid q).
Proof.
  unfold setlk_section. intros H.
  pose proof (conflict_spec rs (q_vn q) (q_pid q) (q_type q) (q_s q) (q_e q)) as Hc.
  destruct (conflict_locked rs _ _ _ _ _) as [c|].
  - destruct (cmd =? F_SETLK); [done|].
    destruct (deadlock_locked rs ws (q_pid q) (pid c)) eqn:Ed.
    + exists c. destruct Hc. split_and!; try done. by eapply deadlock_hops_sound.
    + destruct (list_find (fun w => w_in_use w = false) ws) as [[? ?]|]; [destruct sig|]; done.
  - destruct (_ <? 1)%nat; [done|]. destruct (take_section rs q) as [[? ?]|]; done.
Qed.

Lemma flock_deadlock_sound_witness :
  let rs := [LockRec true 7 1 F_WRLCK 0 0; LockRec true 7 2 F_WRLCK 1 1] in
  let ws := [Waiter true 1 7 F_WRLCK 1 1; no_waiter] in
  exists c, c ∈ rs /\ conflicts 7 2 F_WRLCK 0 0 c = true /\ rtc (waits_for rs ws) (pid c) 2.
Proof.
  intros rs ws.
  apply (flock_deadlock_sound rs rs ws ws F_SETLKW (Request 7 2 F_WRLCK 0 0) false).
  vm_compute. reflexivity.
Defined.

(** Process 1 holds bytes 0-99 of file 7 for writing, 510 processes share byte 0
    of file 8, and one record of the pool is left. *)
Definition crowd : list lock_rec :=
  LockRec true 7 1 F_WRLCK 0 99 ::
  ((fun n => LockRec true 8 (1000 + Z.of_nat n) F_RDLCK 0 0) <$> seq 0 510) ++ [no_rec].

Lemma crowd_inv : table_inv crowd.
Proof.
  assert (Forall rec_ok crowd) as Hok.
  { apply Forall_cons. split; [intros _; simpl; lia|]. apply Forall_app. split.
    - apply Forall_fmap, Forall_forall. intros n _ _. simpl. lia.
    - apply Forall_singleton. by intros ?. }
  assert (forall v p ty b, held crowd v p ty b ->
            (v = 7 /\ p = 1 /\ ty = F_WRLCK) \/ (v = 8 /\ ty = F_RDLCK)) as Hh.
  { intros v p ty b (i & r & Hi%list_elem_of_lookup_2 & Hu & Hv & Hp & Hty & _). subst.
    unfold crowd in Hi. rewrite elem_of_cons, elem_of_app, list_elem_of_fmap, list_elem_of_singleton in Hi.
    destruct Hi as [-> | [(n & -> & _) | ->]]; [by left|by right|done]. }
  split; [split; [reflexivity|done]|split].
  - intros v p ty b H%Hh. intuition.
  - intros v b p1 p2 t1 t2 H1%Hh H2%Hh. intuition congruence.
  - intros v b p t1 t2 H1%Hh H2%Hh. intuition congruence.
Qed.

(** C40: -ENOLCK is not atomic.  With one record left, F_SETLK of a read lock on
    bytes 40-49 inside the caller's own write lock on 0-99 passes the guard
    [free_recs_locked() < 1], spends the record on splitting the old lock, fails
    to allocate the new one and returns -ENOLCK: the caller held byte 45 before
    the failed call and no longer holds it in any mode afterwards. *)
Theorem flock_enolck_drops_lock :
  table_inv crowd /\ held crowd 7 1 F_WRLCK 45
  /\ exists rs', flock_fcntl crowd [] 1 demo_file F_SETLK (KFlock F_RDLCK 0 40 10 0) false
                 = Some (KFlock F_RDLCK 0 40 10 0, rs', [], FWake (- ENOLCK))
      /\ forall ty, ~ held rs' 7 1 ty 45.
Proof.
  split; [exact crowd_inv|]. split.
  - exists 0%nat, (LockRec true 7 1 F_WRLCK 0 99). split; [reflexivity|].
    apply covers_compute. reflexivity.
  - eexists. split; [vm_compute; reflexivity|]. intros ty (i & r & Hi & Hc).
    apply list_elem_of_lookup_2, list_elem_of_In in Hi.
    assert (forallb (fun r => negb (mine 7 1 r && (start r <=? 45) && (45 <=? end_ r)))
      (match take_section crowd (Request 7 1 F_RDLCK 40 49) with
       | Some (_, rs) => rs | None => [] end) = true) as Hn by (vm_compute; reflexivity).
    rewrite forallb_forall in Hn. specialize (Hn r Hi). destruct Hc as (Hu & Hv & Hp & _ & Hb).
    rewrite (proj2 (mine_spec 7 1 r)) in Hn by done. simpl in Hn. lia.
Qed.
