(* ===== verification/Wheel.v ===== *)
(** * The hierarchical timer wheel (kernel/time/wheel.c, wheel.h)

    Four levels of 64 buckets with granularities 1, 8, 64 and 512 jiffies, and
    the list of due timers.  A doubly linked list of timers is the list of the
    timers' identities, headed at a location [loc]; the [pprev] back pointer of a
    pending timer is the location of the list it is on, and [None] (the null
    pointer) when it is idle.  Time is the argument [now] of the operations that
    read the clock.  The operations run under [wheel_lock]; ktimerd drops it
    around each callback, so [ktimerd]'s loop is the two steps [ktimerd_collect]
    and [ktimerd_pop], which [exec] interleaves with arming and cancelling.

    Theorems: a timer never fires early; it is due no later than its expiry
    rounded up to the granularity of the level it was first filed at, however
    often it cascades; next_expiry_locked is never later than the next moment a
    timer becomes due and is UINT64_MAX exactly when nothing is pending; a
    cancelled timer does not fire. *)

From stdpp Require Import base numbers list gmap.
From S2P Require Import Prelude.

Definition LVL_SIZE : Z := 64.
Definition LVL_SHIFT (l : Z) : Z := 3 * l.
Definition LEVELS : Z := 4.

(** The list heads of [struct wheel_base]. *)
Inductive loc := LBucket (l i : Z) | LDue.

#[global] Instance loc_eq_dec : EqDecision loc.
Proof. solve_decision. Defined.

#[global] Instance loc_countable : Countable loc.
Proof.
  apply (inj_countable' (fun p => match p with LBucket l i => Some (l, i) | LDue => None end)
                        (fun o => match o with Some (l, i) => LBucket l i | None => LDue end)).
  by intros [].
Defined.

Record timer_list := TimerList {
  expires : Z;
  pprev : option loc;
}.

Record wheel_base := WheelBase {
  heads : gmap loc (list Z);
  clk : Z;
  timers : gmap Z timer_list;
}.

Definition lst (b : wheel_base) (p : loc) : list Z := default [] (heads b !! p).
Definition timer_setup : timer_list := TimerList 0 None.
Definition tm (b : wheel_base) (t : Z) : timer_list := default timer_setup (timers b !! t).

Definition set_head (b : wheel_base) (p : loc) (ts : list Z) : wheel_base :=
  WheelBase (<[p := ts]> (heads b)) (clk b) (timers b).
Definition set_pprev (b : wheel_base) (t : Z) (p : option loc) : wheel_base :=
  WheelBase (heads b) (clk b) (<[t := TimerList (expires (tm b t)) p]> (timers b)).
Definition set_expires (b : wheel_base) (t e : Z) : wheel_base :=
  WheelBase (heads b) (clk b) (<[t := TimerList e (pprev (tm b t))]> (timers b)).
Definition set_clk (b : wheel_base) (c : Z) : wheel_base := WheelBase (heads b) c (timers b).

(** ** Filing *)

Definition level_for (delta : Z) : Z :=
  match find (fun l => delta <? Z.shiftl LVL_SIZE (LVL_SHIFT l)) [0; 1; 2] with
  | Some l => l
  | None => LEVELS - 1
  end.

Definition link_locked (b : wheel_base) (p : loc) (t : Z) : wheel_base :=
  set_pprev (set_head b p (t :: lst b p)) t (Some p).

(** The bucket of a timer that expires at [e], seen from the wheel clock [c]. *)
Definition slot_time (c e : Z) : Z * Z :=
  let exp := if e <? c then c else e in
  let l := level_for (u64 (exp - c)) in
  let g := Z.shiftl 1 (LVL_SHIFT l) in
  let st := Z.land (u64 (exp + g - 1)) (u64 (Z.lnot (g - 1))) in
  let max := u64 (c + Z.shiftl (LVL_SIZE - 1) (LVL_SHIFT l)) in
  (l, if max <? st then Z.land max (u64 (Z.lnot (g - 1))) else st).

Definition enqueue_locked (b : wheel_base) (t : Z) : wheel_base :=
  let '(l, st) := slot_time (clk b) (expires (tm b t)) in
  let idx := Z.land (Z.shiftr st (LVL_SHIFT l)) (LVL_SIZE - 1) in
  link_locked b (LBucket l idx) t.

Definition detach_locked (b : wheel_base) (t : Z) : wheel_base :=
  match pprev (tm b t) with
  | Some p => set_pprev (set_head b p (filter (fun x => x <> t) (lst b p))) t None
  | None => b
  end.

Definition timer_pending (b : wheel_base) (t : Z) : bool :=
  match pprev (tm b t) with Some _ => true | None => false end.

(** ** Advancing the clock *)

(** One timer of an emptied bucket: due, or filed again. *)
Definition settle (b : wheel_base) (t : Z) : wheel_base :=
  let b := set_pprev b t None in
  if expires (tm b t) <=? clk b then link_locked b LDue t else enqueue_locked b t.

(** The body of the loop over the levels. *)
Definition collect_level (b : wheel_base) (l : Z) : wheel_base :=
  let g := Z.shiftl 1 (LVL_SHIFT l) in
  if ctrue (Z.land (clk b) (g - 1)) then b
  else
    let idx := Z.land (Z.shiftr (clk b) (LVL_SHIFT l)) (LVL_SIZE - 1) in
    foldl settle (set_head b (LBucket l idx) []) (lst b (LBucket l idx)).

Definition collect_jiffy (b : wheel_base) : wheel_base :=
  let b := foldl collect_level b [3; 2; 1; 0] in set_clk b (u64 (clk b + 1)).

(** The [while (b->clk <= now)] loop; [fuel] counts the jiffies left. *)
Fixpoint collect_loop (fuel : nat) (b : wheel_base) (now : Z) : wheel_base :=
  match fuel with
  | O => b
  | S fuel => if clk b <=? now then collect_loop fuel (collect_jiffy b) now else b
  end.

Definition collect_expired_locked (b : wheel_base) (now : Z) : wheel_base :=
  collect_loop (Z.to_nat (now + 1 - clk b)) b now.

(** When bucket [i] of level [l] is next emptied. *)
Definition bucket_slot (c l i : Z) : Z :=
  let g := Z.shiftl 1 (LVL_SHIFT l) in
  let base := Z.land (u64 (c + g - 1)) (u64 (Z.lnot (g - 1))) in
  let base_idx := Z.land (Z.shiftr base (LVL_SHIFT l)) (LVL_SIZE - 1) in
  u64 (base + Z.land (u32 (i - base_idx)) (LVL_SIZE - 1) * g).

(** The buckets in the order the two loops visit them. *)
Definition all_buckets : list (Z * Z) :=
  l ← [0; 1; 2; 3]; i ← seqZ 0 LVL_SIZE; [(l, i)].

Definition next_expiry_locked (b : wheel_base) : Z :=
  match lst b LDue with
  | _ :: _ => clk b
  | [] =>
    foldl (fun best '(l, i) =>
             match lst b (LBucket l i) with
             | [] => best
             | _ :: _ => let slot := bucket_slot (clk b) l i in
                         if slot <? best then slot else best
             end)
          UINT64_MAX all_buckets
  end.

Definition forward_locked (b : wheel_base) (now : Z) : wheel_base :=
  if now <? clk b then b
  else if next_expiry_locked b =? UINT64_MAX then set_clk b now
  else collect_expired_locked b now.

(** ** The interface; the second component is the argument of [arm_for]. *)

Definition rearm (b : wheel_base) (t e now : Z) : wheel_base :=
  let b := if timer_pending b t then detach_locked b t else b in
  let b := forward_locked b now in
  enqueue_locked (set_expires b t e) t.

Definition mod_timer (b : wheel_base) (t e now : Z) : wheel_base * Z :=
  let b := rearm b t e now in (b, next_expiry_locked b).

Definition timer_reduce (b : wheel_base) (t e now : Z) : wheel_base * option Z :=
  if timer_pending b t && (expires (tm b t) <=? e) then (b, None)
  else let b := rearm b t e now in (b, Some (next_expiry_locked b)).

Definition del_timer (b : wheel_base) (t : Z) : wheel_base * bool :=
  let was := timer_pending b t in (if was then detach_locked b t else b, was).

Definition ktimerd_collect (b : wheel_base) (now : Z) : wheel_base := collect_expired_locked b now.

(** Takes the first due timer off the list: the one whose callback runs next. *)
Definition ktimerd_pop (b : wheel_base) : option (Z * wheel_base) :=
  match lst b LDue with
  | [] => None
  | t :: _ => Some (t, detach_locked b t)
  end.

Definition wheel_init (now : Z) : wheel_base := WheelBase ∅ now ∅.

(** ** Arithmetic of the levels *)

(** The granularity of level [l]. *)
Definition gran (l : Z) : Z := Z.shiftl 1 (LVL_SHIFT l).

Definition level_ok (l : Z) : Prop := l = 0 \/ l = 1 \/ l = 2 \/ l = 3.

(** [st] is the first multiple of the granularity, from [c] on, that bucket [i]
    of level [l] stands for. *)
Definition is_slot (c l i st : Z) : Prop :=
  st mod gran l = 0 /\ (st / gran l) mod 64 = i /\ c <= st < c + 64 * gran l.

(** Splits on the level and makes its granularity explicit. *)
Ltac levels H :=
  destruct H as [-> | [-> | [-> | ->]]];
  change (gran 0) with 1 in *; change (gran 1) with 8 in *;
  change (gran 2) with 64 in *; change (gran 3) with 512 in *.

Lemma gran_pos l : level_ok l -> 0 < gran l <= 512.
Proof. intros H. levels H; lia. Qed.

Lemma gran_mono l l' : level_ok l -> level_ok l' -> l' <= l -> gran l' <= gran l.
Proof. intros H H' Hle. levels H; levels H'; lia. Qed.

Lemma is_slot_unique c l i s1 s2 : level_ok l -> is_slot c l i s1 -> is_slot c l i s2 -> s1 = s2.
Proof. intros H (A1 & B1 & C1) (A2 & B2 & C2). levels H; dlia. Qed.

Lemma mask_low x l : level_ok l -> Z.land x (gran l - 1) = x mod gran l.
Proof.
  intros H. unfold gran, LVL_SHIFT. rewrite Z.shiftl_1_l. apply land_low. destruct H as [|[|[|]]]; lia.
Qed.

Lemma mask_align x l :
  level_ok l -> 0 <= x < W64 ->
  Z.land x (u64 (Z.lnot (gran l - 1))) = x - x mod gran l.
Proof.
  intros H Hx. unfold gran, LVL_SHIFT. rewrite Z.shiftl_1_l. apply land_align; [|done].
  destruct H as [|[|[|]]]; lia.
Qed.

Lemma mask_index x l :
  level_ok l -> Z.land (Z.shiftr x (LVL_SHIFT l)) (LVL_SIZE - 1) = (x / gran l) mod 64.
Proof.
  intros H. change (LVL_SIZE - 1) with (2 ^ 6 - 1). rewrite land_low by lia.
  unfold gran, LVL_SHIFT. rewrite Z.shiftl_1_l, Z.shiftr_div_pow2; [done|].
  destruct H as [|[|[|]]]; lia.
Qed.

Lemma bucket_slot_spec c l i :
  level_ok l -> 0 <= i < 64 -> 0 <= c < W63 -> is_slot c l i (bucket_slot c l i).
Proof.
  intros Hl Hi Hc. unfold bucket_slot. fold (gran l). pose proof (gran_pos l Hl).
  rewrite (u64_small (c + gran l - 1)) by lia. rewrite !mask_align by (done || lia).
  rewrite mask_index by done. change (LVL_SIZE - 1) with (2 ^ 6 - 1). rewrite land_low by lia.
  change (2 ^ 6) with 64.
  set (k := (c + gran l - 1) / gran l).
  assert (c + gran l - 1 - (c + gran l - 1) mod gran l = k * gran l) as ->
    by (subst k; pose proof (Z.div_mod (c + gran l - 1) (gran l) ltac:(lia)); lia).
  rewrite Z.div_mul by lia.
  assert (u32 (i - k mod 64) mod 64 = (i - k) mod 64) as -> by (unfold u32; dlia).
  replace (k * gran l + (i - k) mod 64 * gran l) with ((k + (i - k) mod 64) * gran l) by lia.
  assert (c <= k * gran l < c + gran l) by (subst k; levels Hl; dlia).
  assert (0 <= (i - k) mod 64 < 64) by dlia.
  rewrite u64_small by nia. unfold is_slot. rewrite Z.mod_mul, Z.div_mul by lia.
  split; [done|]. split; [dlia|nia].
Qed.

(** A bucket is emptied at [c] exactly when its slot is [c]. *)
Lemma bucket_slot_now c l i :
  level_ok l -> 0 <= i < 64 -> 0 <= c < W63 ->
  bucket_slot c l i = c <-> c mod gran l = 0 /\ (c / gran l) mod 64 = i.
Proof.
  intros Hl Hi Hc. pose proof (bucket_slot_spec c l i Hl Hi Hc) as Hs.
  pose proof (gran_pos l Hl). split.
  - intros E. rewrite E in Hs. destruct Hs; tauto.
  - intros [H1 H2]. eapply is_slot_unique; [done|done|]. split_and!; try done; lia.
Qed.

(** Any other bucket keeps its slot when the clock advances. *)
Lemma bucket_slot_next c l i :
  level_ok l -> 0 <= i < 64 -> 0 <= c -> c + 1 < W63 -> bucket_slot c l i <> c ->
  bucket_slot (c + 1) l i = bucket_slot c l i.
Proof.
  intros Hl Hi Hc Hc' Hne.
  pose proof (bucket_slot_spec c l i Hl Hi ltac:(lia)) as (A & B & C).
  pose proof (gran_pos l Hl).
  eapply is_slot_unique; [done|apply bucket_slot_spec; done || lia|].
  split_and!; try done; lia.
Qed.

Lemma level_for_spec d :
  0 <= d -> level_ok (level_for d)
  /\ (level_for d < 3 -> d < 64 * gran (level_for d))
  /\ (forall l, level_ok l -> l < 3 -> d < 64 * gran l -> level_for d <= l).
Proof.
  intros Hd.
  assert (level_for d = if d <? 64 then 0 else if d <? 512 then 1 else if d <? 4096 then 2 else 3) as ->
    by (unfold level_for; cbn [find]; change (Z.shiftl LVL_SIZE (LVL_SHIFT 0)) with 64;
        change (Z.shiftl LVL_SIZE (LVL_SHIFT 1)) with 512;
        change (Z.shiftl LVL_SIZE (LVL_SHIFT 2)) with 4096;
        by destruct (d <? 64), (d <? 512), (d <? 4096)).
  destruct (Z.ltb_spec d 64), (Z.ltb_spec d 512), (Z.ltb_spec d 4096);
    (split; [unfold level_ok; lia|]);
    (split; [change (gran 0) with 1; change (gran 1) with 8; change (gran 2) with 64; lia|]);
    intros l Hl; levels Hl; lia.
Qed.

Lemma slot_time_spec c e l st :
  0 <= c < W63 -> 0 <= e < W63 -> slot_time c e = (l, st) ->
  l = level_for (Z.max c e - c) /\ level_ok l
  /\ is_slot c l ((st / gran l) mod 64) st
  /\ st < Z.max c e + gran l /\ (l < 3 -> e - st < 2 * gran l) /\ (c < e -> c < st).
Proof.
  intros Hc He. unfold slot_time.
  replace (if e <? c then c else e) with (Z.max c e)
    by (destruct (Z.ltb_spec e c); lia).
  rewrite (u64_small (Z.max c e - c)) by lia.
  pose proof (level_for_spec (Z.max c e - c) ltac:(lia)) as (Hl & Hlt & _).
  set (l0 := level_for (Z.max c e - c)) in *. clearbody l0. pose proof (gran_pos l0 Hl).
  fold (gran l0). rewrite (u64_small (Z.max c e + gran l0 - 1)) by lia.
  assert (Z.shiftl (LVL_SIZE - 1) (LVL_SHIFT l0) = 63 * gran l0) as ->
    by (destruct Hl as [-> | [-> | [-> | ->]]]; reflexivity).
  rewrite (u64_small (c + 63 * gran l0)) by lia. rewrite !mask_align by (done || lia).
  intros [= <- <-]. split; [done|]. split; [done|]. unfold is_slot.
  destruct (Z.ltb_spec (c + 63 * gran l0) (Z.max c e + gran l0 - 1 - (Z.max c e + gran l0 - 1) mod gran l0));
    levels Hl; dlia.
Qed.

(** ** Links: a timer is on the list its back pointer names *)

(** [ts] are the timers of the emptied bucket [p] that are still to be settled. *)
Record linked (b : wheel_base) (p : loc) (ts : list Z) : Prop := {
  ln_iff : forall q t, pprev (tm b t) = Some q <-> t ∈ lst b q \/ (q = p /\ t ∈ ts);
  ln_nodup : forall q, NoDup (lst b q);
  ln_rest : NoDup ts;
  ln_disj : forall t, t ∈ ts -> t ∉ lst b p;
}.

Definition links_ok (b : wheel_base) : Prop := linked b LDue [].

Lemma links_ok_iff b p : links_ok b <-> linked b p [].
Proof.
  split; intros [H1 H2 H3 H4]; split; try done.
  - intros q t. rewrite H1. split; intros [?|[_ []%elem_of_nil]]; by left.
  - intros t []%elem_of_nil.
  - intros q t. rewrite H1. split; intros [?|[_ []%elem_of_nil]]; by left.
  - intros t []%elem_of_nil.
Qed.

Lemma tm_set_pprev b t p t' :
  tm (set_pprev b t p) t' = if decide (t' = t) then TimerList (expires (tm b t)) p else tm b t'.
Proof.
  unfold tm at 1, set_pprev; simpl. case_decide as E.
  - subst. by rewrite lookup_insert_eq.
  - by rewrite lookup_insert_ne by done.
Qed.

Lemma tm_set_expires b t e t' :
  tm (set_expires b t e) t' = if decide (t' = t) then TimerList e (pprev (tm b t)) else tm b t'.
Proof.
  unfold tm at 1, set_expires; simpl. case_decide as E.
  - subst. by rewrite lookup_insert_eq.
  - by rewrite lookup_insert_ne by done.
Qed.

Lemma lst_set_head b p ts q : lst (set_head b p ts) q = if decide (q = p) then ts else lst b q.
Proof.
  unfold lst, set_head; simpl. case_decide as E.
  - subst. by rewrite lookup_insert_eq.
  - by rewrite lookup_insert_ne by done.
Qed.

Lemma tm_link b p t t' :
  tm (link_locked b p t) t'
  = if decide (t' = t) then TimerList (expires (tm b t)) (Some p) else tm b t'.
Proof. unfold link_locked. by rewrite tm_set_pprev. Qed.

Lemma lst_link b p t q : lst (link_locked b p t) q = if decide (q = p) then t :: lst b p else lst b q.
Proof. unfold link_locked. change (lst (set_pprev ?b t (Some p)) q) with (lst b q). apply lst_set_head. Qed.

(** Linking a detached timer at [q]. *)
Lemma linked_link b p ts q t :
  linked b p ts -> pprev (tm b t) = None -> linked (link_locked b q t) p ts.
Proof.
  intros [H1 H2 H3 H4] Ht.
  assert (forall q', t ∉ lst b q') as Hno.
  { intros q' Hin. assert (pprev (tm b t) = Some q') by (apply H1; by left). congruence. }
  assert (t ∉ ts) as Hts.
  { intros Hin. assert (pprev (tm b t) = Some p) by (apply H1; by right). congruence. }
  split.
  - intros q' t'. rewrite tm_link, lst_link. case_decide as E1; [subst t'; simpl|rewrite H1].
    + case_decide as E2; [subst q'|].
      * split; [left; apply elem_of_cons; by left|done].
      * split; [congruence|]. intros [?|[_ ?]]; [by destruct (Hno q')|done].
    + case_decide as E2; [subst q'; rewrite elem_of_cons; naive_solver|done].
  - intros q'. rewrite lst_link. case_decide; [apply NoDup_cons|]; auto.
  - done.
  - intros t' Hin. rewrite lst_link. case_decide; [subst q|by apply H4].
    rewrite elem_of_cons. intros [->|?]; [done|by destruct (H4 t')].
Qed.

(** Unlinking: the first of the rest is taken in hand. *)
Lemma linked_take b p t ts : linked b p (t :: ts) -> linked (set_pprev b t None) p ts.
Proof.
  intros [H1 H2 H3 H4]. apply NoDup_cons in H3 as [H3 H3'].
  assert (pprev (tm b t) = Some p) as Hp by (apply H1; right; split; [done|apply elem_of_cons; by left]).
  split; try done.
  - intros q t'. rewrite tm_set_pprev. change (lst (set_pprev b t None) q) with (lst b q).
    case_decide as E; [subst t'; simpl|rewrite H1, elem_of_cons; naive_solver].
    split; [done|]. intros [Hin|[-> Hin]]; [|done].
    assert (pprev (tm b t) = Some q) by (apply H1; by left). assert (q = p) as -> by congruence.
    destruct (H4 t); [apply elem_of_cons; by left|done].
  - intros t' Hin. apply (H4 t'). apply elem_of_cons. by right.
Qed.

Lemma detach_ok b t :
  links_ok b -> links_ok (detach_locked b t) /\ pprev (tm (detach_locked b t) t) = None
  /\ clk (detach_locked b t) = clk b
  /\ forall t', expires (tm (detach_locked b t) t') = expires (tm b t')
        /\ (t' <> t -> pprev (tm (detach_locked b t) t') = pprev (tm b t')).
Proof.
  intros Hl. pose proof Hl as [H1 H2 _ _].
  unfold detach_locked. destruct (pprev (tm b t)) as [p|] eqn:Hp; [|done].
  change (tm (set_pprev (set_head b p ?l) t None)) with (tm (set_pprev b t None)).
  split_and!; try done.
  - split; [| |by apply NoDup_nil|by intros ? ?%elem_of_nil].
    + intros q t'. change (tm (set_pprev (set_head b p ?l) t None)) with (tm (set_pprev b t None)).
      change (lst (set_pprev ?b t None) q) with (lst b q). rewrite tm_set_pprev, lst_set_head.
      specialize (H1 q t'). rewrite elem_of_nil in *.
      case_decide as E1; [subst t'; simpl|]; (case_decide as E2; [subst q; rewrite list_elem_of_filter|]);
        naive_solver.
    + intros q. change (lst (set_pprev ?b t None) q) with (lst b q). rewrite lst_set_head.
      case_decide; [by apply NoDup_filter|done].
  - rewrite tm_set_pprev, decide_True by done. done.
  - intros t'. rewrite tm_set_pprev. case_decide; [subst; split; done|done].
Qed.

(** ** The wheel timer by timer

    What a jiffy does to one timer depends on the clock, its expiry and its
    place only. *)

Definition file (c e : Z) : loc :=
  let '(l, st) := slot_time c e in LBucket l ((st / gran l) mod 64).

Definition settled (c e : Z) : loc := if e <=? c then LDue else file c e.

Definition place_level (c e : Z) (pl : option loc) (l : Z) : option loc :=
  match pl with
  | Some (LBucket l' i) =>
    if (l' =? l) && (c mod gran l =? 0) && (i =? (c / gran l) mod 64) then Some (settled c e) else pl
  | _ => pl
  end.

Definition place_jiffy (c e : Z) (pl : option loc) : option loc :=
  foldl (place_level c e) pl [3; 2; 1; 0].

Lemma slot_time_level c e : 0 <= c < W63 -> 0 <= e < W63 -> level_ok (slot_time c e).1.
Proof.
  intros Hc He. destruct (slot_time c e) as [l st] eqn:E.
  by destruct (slot_time_spec c e l st Hc He E) as (_ & ? & _).
Qed.

Lemma enqueue_file b t :
  0 <= clk b < W63 -> 0 <= expires (tm b t) < W63 ->
  enqueue_locked b t = link_locked b (file (clk b) (expires (tm b t))) t.
Proof.
  intros Hc He. unfold enqueue_locked, file.
  pose proof (slot_time_level (clk b) (expires (tm b t)) Hc He) as Hl.
  destruct (slot_time _ _) as [l st]. by rewrite mask_index.
Qed.

(** Clock and expiries stay below 2^63 jiffies. *)
Definition in_range (b : wheel_base) : Prop :=
  0 <= clk b < W63 /\ forall t, 0 <= expires (tm b t) < W63.

Lemma settle_ok b p t ts :
  in_range b -> linked b p (t :: ts) ->
  linked (settle b t) p ts /\ clk (settle b t) = clk b
  /\ forall t', tm (settle b t) t' =
       if decide (t' = t) then TimerList (expires (tm b t)) (Some (settled (clk b) (expires (tm b t))))
       else tm b t'.
Proof.
  intros [Hc He] Hl. apply linked_take in Hl. unfold settle, settled.
  set (b1 := set_pprev b t None) in *.
  assert (tm b1 t = TimerList (expires (tm b t)) None) as Ht
    by (unfold b1; by rewrite tm_set_pprev, decide_True).
  assert (forall q, linked (link_locked b1 q t) p ts /\ clk (link_locked b1 q t) = clk b
    /\ forall t', tm (link_locked b1 q t) t' =
         if decide (t' = t) then TimerList (expires (tm b t)) (Some q) else tm b t') as Hq.
  { intros q. split_and!; [|done|].
    - apply linked_link; [done|by rewrite Ht].
    - intros t'. rewrite tm_link, Ht. case_decide; [done|].
      unfold b1. by rewrite tm_set_pprev, decide_False. }
  rewrite Ht. cbn [expires]. change (clk b1) with (clk b).
  destruct (expires (tm b t) <=? clk b); [apply Hq|].
  rewrite enqueue_file by (rewrite ?Ht; simpl; auto). rewrite Ht. apply Hq.
Qed.

Lemma foldl_settle_ok b p ts :
  in_range b -> linked b p ts ->
  linked (foldl settle b ts) p [] /\ clk (foldl settle b ts) = clk b
  /\ forall t, tm (foldl settle b ts) t =
       if decide (t ∈ ts) then TimerList (expires (tm b t)) (Some (settled (clk b) (expires (tm b t))))
       else tm b t.
Proof.
  revert b. induction ts as [|t ts IH]; intros b Hr Hl; cbn [foldl].
  { split_and!; done. }
  destruct (settle_ok b p t ts Hr Hl) as (Hl1 & Hc1 & Ht1).
  destruct (IH (settle b t)) as (Hl2 & Hc2 & Ht2); [|done|].
  { destruct Hr as [Hc He]. split; [by rewrite Hc1|]. intros t'. rewrite Ht1. case_decide; [subst|]; apply He. }
  split_and!; [done|congruence|]. intros t'. rewrite Ht2, Hc1, Ht1.
  apply ln_rest in Hl as [Hn _]%NoDup_cons.
  destruct (decide (t' = t)) as [->|Hne].
  - rewrite (decide_False (P := t ∈ ts)) by done. rewrite decide_True; [done|apply elem_of_cons; by left].
  - destruct (decide (t' ∈ ts)).
    + rewrite decide_True; [done|apply elem_of_cons; by right].
    + rewrite decide_False; [done|]. rewrite elem_of_cons. intros [?|?]; done.
Qed.

Lemma collect_level_ok b l :
  level_ok l -> in_range b -> links_ok b ->
  links_ok (collect_level b l) /\ clk (collect_level b l) = clk b
  /\ forall t, tm (collect_level b l) t =
       TimerList (expires (tm b t)) (place_level (clk b) (expires (tm b t)) (pprev (tm b t)) l).
Proof.
  intros Hl Hr Hk. unfold collect_level, place_level. fold (gran l).
  rewrite mask_low, mask_index by done. unfold ctrue.
  destruct (Z.eqb_spec (clk b mod gran l) 0) as [E|E]; cbn [negb].
  2:{ split_and!; try done. intros t. destruct (tm b t) as [e [[l' i|]|]]; try done. simpl.
      by rewrite andb_false_r. }
  set (p := LBucket l ((clk b / gran l) mod 64)).
  destruct (foldl_settle_ok (set_head b p []) p (lst b p)) as (Hl1 & Hc1 & Ht1); [done| |].
  { pose proof Hk as [H1 H2 _ _]. split; [| |done|].
    - intros q t. change (tm (set_head b p []) t) with (tm b t). rewrite H1, lst_set_head, elem_of_nil.
      case_decide as Eq; [subst; rewrite elem_of_nil|]; intuition congruence.
    - intros q. rewrite lst_set_head. case_decide; [by apply NoDup_nil|done].
    - intros t _. rewrite lst_set_head, decide_True by done. apply not_elem_of_nil. }
  split_and!; [by apply (links_ok_iff _ p)|done|].
  intros t. rewrite Ht1. change (tm (set_head b p []) t) with (tm b t). change (clk (set_head b p [])) with (clk b).
  destruct Hk as [H1 _ _ _]. specialize (H1 p t). rewrite elem_of_nil in H1.
  destruct (decide (t ∈ lst b p)) as [Hin|Hout].
  - rewrite (proj2 H1) by (by left). unfold p. by rewrite !Z.eqb_refl.
  - destruct (tm b t) as [e [[l' i|]|]] eqn:Et; try done. cbn [pprev expires] in *.
    destruct (Z.eqb_spec l' l) as [->|]; [|done].
    destruct (Z.eqb_spec i ((clk b / gran l) mod 64)) as [->|]; [|done].
    destruct Hout. by destruct (proj1 H1 eq_refl) as [?|[_ ?]].
Qed.

Lemma links_set_clk b c : links_ok b -> links_ok (set_clk b c).
Proof. by intros [H1 H2 H3 H4]; split. Qed.

Lemma collect_jiffy_ok b :
  in_range b -> clk b + 1 < W63 -> links_ok b ->
  links_ok (collect_jiffy b) /\ clk (collect_jiffy b) = clk b + 1
  /\ forall t, tm (collect_jiffy b) t =
       TimerList (expires (tm b t)) (place_jiffy (clk b) (expires (tm b t)) (pprev (tm b t))).
Proof.
  intros Hr Hmax Hk. unfold collect_jiffy.
  assert (forall ls b, Forall level_ok ls -> in_range b -> links_ok b ->
    links_ok (foldl collect_level b ls) /\ clk (foldl collect_level b ls) = clk b
    /\ forall t, tm (foldl collect_level b ls) t =
         TimerList (expires (tm b t)) (foldl (place_level (clk b) (expires (tm b t))) (pprev (tm b t)) ls))
    as Hfold.
  { clear. induction ls as [|l ls IH]; intros b Hls Hr Hk; cbn [foldl].
    { split_and!; try done. intros t. by destruct (tm b t). }
    apply Forall_cons in Hls as [Hl Hls].
    destruct (collect_level_ok b l Hl Hr Hk) as (Hk1 & Hc1 & Ht1).
    destruct (IH (collect_level b l)) as (Hk2 & Hc2 & Ht2); try done.
    { destruct Hr as [Hc He]. split; [by rewrite Hc1|]. intros t. rewrite Ht1. apply He. }
    split_and!; [done|congruence|]. intros t. by rewrite Ht2, Ht1, Hc1. }
  destruct (Hfold [3; 2; 1; 0] b) as (Hk1 & Hc1 & Ht1); try done.
  { repeat constructor; unfold level_ok; lia. }
  split_and!; [|cbn [set_clk clk]; rewrite Hc1, u64_small by (destruct Hr; lia); done|exact Ht1].
  by apply links_set_clk.
Qed.

(** ** Timing of one timer *)

(** The place of a timer that expires at [e], when the next jiffy is [c]: it is
    due only past its expiry, and a bucket below the last level is emptied at
    most two granules before the expiry. *)
Definition place_ok (c e : Z) (pl : option loc) : Prop :=
  match pl with
  | None => True
  | Some LDue => e < c
  | Some (LBucket l i) =>
    level_ok l /\ 0 <= i < 64 /\ (l < 3 -> e - bucket_slot c l i < 2 * gran l)
  end.

(** [x] rounded up to the granularity of level [l]. *)
Definition round_up (l x : Z) : Z := (x + gran l - 1) / gran l * gran l.

Lemma round_up_spec l x : level_ok l -> x <= round_up l x < x + gran l.
Proof. intros Hl. unfold round_up. levels Hl; dlia. Qed.

Lemma round_up_mono l l' x : level_ok l -> level_ok l' -> l' <= l -> round_up l' x <= round_up l x.
Proof. intros Hl Hl' Hle. unfold round_up. levels Hl; levels Hl'; dlia. Qed.

(** The timer is due once the clock has passed [B]. *)
Definition due_by (B c e : Z) (pl : option loc) : Prop :=
  match pl with
  | None => False
  | Some LDue => True
  | Some (LBucket l i) => bucket_slot c l i <= B /\ round_up l e <= B
  end.

Lemma wheel_file_ok c e :
  0 <= c < W63 -> 0 <= e < W63 ->
  exists l i st, file c e = LBucket l i /\ level_ok l /\ 0 <= i < 64 /\ bucket_slot c l i = st
    /\ l = level_for (Z.max c e - c) /\ c <= st <= round_up l (Z.max c e)
    /\ (l < 3 -> e - st < 2 * gran l) /\ (c < e -> c < st).
Proof.
  intros Hc He. unfold file. destruct (slot_time c e) as [l st] eqn:E.
  destruct (slot_time_spec c e l st Hc He E) as (Hlf & Hl & Hs & H1 & H2 & H3).
  assert (0 <= (st / gran l) mod 64 < 64) by dlia.
  exists l, ((st / gran l) mod 64), st. split_and!; try done; try lia.
  - eapply is_slot_unique; [done| |done]. by apply bucket_slot_spec.
  - destruct Hs as (_ & _ & ?). lia.
  - destruct Hs as (Hm & _ & _). unfold round_up. levels Hl; dlia.
Qed.

(** A bucket is emptied in this jiffy, or nothing happens to its timers. *)
Lemma place_jiffy_bucket c e l i :
  level_ok l -> 0 <= i < 64 -> 0 <= c < W63 -> 0 <= e < W63 ->
  place_jiffy c e (Some (LBucket l i)) =
  if bucket_slot c l i =? c then Some (settled c e) else Some (LBucket l i).
Proof.
  intros Hl Hi Hc He. unfold place_jiffy.
  assert (forall l' i' l'', level_ok l' -> 0 <= i' < 64 -> bucket_slot c l' i' <> c ->
            place_level c e (Some (LBucket l' i')) l'' = Some (LBucket l' i')) as Hstay.
  { intros l' i' l'' Hl' Hi' Hne. unfold place_level.
    destruct (Z.eqb_spec l' l'') as [<-|]; [|done].
    destruct (Z.eqb_spec (c mod gran l') 0), (Z.eqb_spec i' ((c / gran l') mod 64)); try done.
    destruct Hne. by apply bucket_slot_now. }
  assert (forall l'', place_level c e (Some (settled c e)) l'' = Some (settled c e)) as Hset.
  { intros l''. unfold settled. destruct (Z.leb_spec e c); [done|].
    destruct (wheel_file_ok c e Hc He) as (l' & i' & st & -> & Hl' & Hi' & <- & _ & _ & _ & Hlt).
    apply Hstay; try done. lia. }
  assert (forall l', l <> l' -> place_level c e (Some (LBucket l i)) l' = Some (LBucket l i)) as Hother.
  { intros l' Hne. unfold place_level. by destruct (Z.eqb_spec l l'). }
  destruct (Z.eqb_spec (bucket_slot c l i) c) as [E|E].
  - apply bucket_slot_now in E; try done. destruct E as [E1 E2].
    assert (place_level c e (Some (LBucket l i)) l = Some (settled c e)) as Hnow.
    { unfold place_level. by rewrite E1, E2, !Z.eqb_refl. }
    revert Hset Hother Hnow Hl. clear. generalize (place_level c e) as f. intros f Hset Hother Hnow Hl.
    cbn [foldl]. destruct Hl as [->|[->|[->| ->]]]; repeat (rewrite Hother by done); rewrite Hnow; by rewrite ?Hset.
  - cbn [foldl]. by rewrite !Hstay.
Qed.

Lemma place_ok_jiffy c e pl :
  0 <= c -> c + 1 < W63 -> 0 <= e < W63 -> place_ok c e pl -> place_ok (c + 1) e (place_jiffy c e pl).
Proof.
  intros Hc Hc' He Hp. destruct pl as [[l i|]|]; [|simpl in *; lia|done].
  destruct Hp as (Hl & Hi & Ht). rewrite place_jiffy_bucket by (done || lia).
  destruct (Z.eqb_spec (bucket_slot c l i) c) as [E|E].
  - unfold settled. destruct (Z.leb_spec e c); [simpl; lia|].
    destruct (wheel_file_ok c e) as (l' & i' & st & -> & Hl' & Hi' & Hst & _ & _ & H2 & H3); try lia.
    simpl. rewrite bucket_slot_next, Hst by (done || lia). done.
  - simpl. rewrite bucket_slot_next by (done || lia). done.
Qed.

Lemma due_by_jiffy B c e pl :
  0 <= c -> c + 1 < W63 -> 0 <= e < W63 -> place_ok c e pl ->
  due_by B c e pl -> due_by B (c + 1) e (place_jiffy c e pl).
Proof.
  intros Hc Hc' He Hp Hd. destruct pl as [[l i|]|]; [|done|done].
  destruct Hp as (Hl & Hi & Ht), Hd as [H1 H2]. rewrite place_jiffy_bucket by (done || lia).
  destruct (Z.eqb_spec (bucket_slot c l i) c) as [E|E].
  - unfold settled. destruct (Z.leb_spec e c) as [|Hec]; [done|].
    destruct (wheel_file_ok c e) as (l' & i' & st & -> & Hl' & Hi' & Hst & Hlf & Hst' & _ & H3); try lia.
    simpl. rewrite bucket_slot_next, Hst by (done || lia).
    assert (l' <= l) as Hle.
    { destruct (Z.eq_dec l 3) as [->|Hl3]; [destruct Hl' as [|[|[|]]]; lia|].
      assert (l < 3) as Hlt by (destruct Hl as [|[|[|]]]; lia). specialize (Ht Hlt).
      rewrite Hlf. apply level_for_spec; [lia|done|done|]. pose proof (gran_pos l Hl). lia. }
    pose proof (round_up_mono l l' e Hl Hl' Hle). rewrite (Z.max_r c e) in Hst' by lia. lia.
  - simpl. rewrite bucket_slot_next by (done || lia). done.
Qed.

(** Before its bucket's slot a timer stays where it is. *)
Lemma place_jiffy_before c e l i :
  level_ok l -> 0 <= i < 64 -> 0 <= c -> c + 1 < W63 -> 0 <= e < W63 -> c < bucket_slot c l i ->
  place_jiffy c e (Some (LBucket l i)) = Some (LBucket l i)
  /\ bucket_slot (c + 1) l i = bucket_slot c l i.
Proof.
  intros Hl Hi Hc Hc' He Hb. rewrite place_jiffy_bucket by (done || lia).
  rewrite (proj2 (Z.eqb_neq _ _)) by lia. split; [done|]. apply bucket_slot_next; done || lia.
Qed.

(** ** The invariant and the operations *)

Record winv (b : wheel_base) : Prop := {
  wi_links : links_ok b;
  wi_range : in_range b;
  wi_place : forall t, place_ok (clk b) (expires (tm b t)) (pprev (tm b t));
}.

(** What the passing of time does to the timers. *)
Record advances (b b' : wheel_base) : Prop := {
  ad_expires : forall t, expires (tm b' t) = expires (tm b t);
  ad_idle : forall t, pprev (tm b' t) = None <-> pprev (tm b t) = None;
  ad_due : forall t, pprev (tm b t) = Some LDue -> pprev (tm b' t) = Some LDue;
  ad_due_by : forall t B, due_by B (clk b) (expires (tm b t)) (pprev (tm b t)) ->
                due_by B (clk b') (expires (tm b t)) (pprev (tm b' t));
  ad_before : forall t l i, pprev (tm b t) = Some (LBucket l i) -> clk b' <= bucket_slot (clk b) l i ->
                pprev (tm b' t) = Some (LBucket l i) /\ bucket_slot (clk b') l i = bucket_slot (clk b) l i;
}.

Lemma advances_refl b : advances b b.
Proof. by split. Qed.

Lemma advances_trans b1 b2 b3 :
  clk b2 <= clk b3 -> advances b1 b2 -> advances b2 b3 -> advances b1 b3.
Proof.
  intros Hc [E1 I1 D1 B1 F1] [E2 I2 D2 B2 F2]. split.
  - intros t. by rewrite E2.
  - intros t. by rewrite I2.
  - auto.
  - intros t B H. rewrite <- (E1 t). apply B2. rewrite E1. by apply B1.
  - intros t l i H Hle. destruct (F1 t l i H ltac:(lia)) as [H2 Hb]. rewrite <- Hb in Hle |- *. by apply (F2 t).
Qed.

Lemma jiffy_ok b :
  winv b -> clk b + 1 < W63 ->
  winv (collect_jiffy b) /\ clk (collect_jiffy b) = clk b + 1 /\ advances b (collect_jiffy b).
Proof.
  intros [Hk [Hc He] Hp] Hmax.
  destruct (collect_jiffy_ok b (conj Hc He) Hmax Hk) as (Hk' & Hc' & Ht).
  split; [split|split; [exact Hc'|split]].
  - exact Hk'.
  - split; [lia|]. intros t. rewrite Ht. apply He.
  - intros t. rewrite Ht, Hc'. simpl. apply place_ok_jiffy; auto; lia.
  - intros t. by rewrite Ht.
  - intros t. rewrite Ht. simpl. specialize (Hp t).
    destruct (pprev (tm b t)) as [[l i|]|] eqn:E; [|done|done].
    destruct Hp as (Hl & Hi & _). rewrite place_jiffy_bucket by auto.
    by destruct (bucket_slot _ _ _ =? _).
  - intros t E. rewrite Ht, E. done.
  - intros t B H. rewrite Ht, Hc'. simpl. apply due_by_jiffy; auto; lia.
  - intros t l i E Hle. specialize (Hp t). rewrite E in Hp. destruct Hp as (Hl & Hi & _).
    rewrite Ht, Hc', E. simpl. apply place_jiffy_before; auto; lia.
Qed.

Lemma collect_ok b now :
  winv b -> now + 1 < W63 ->
  winv (collect_expired_locked b now) /\ clk (collect_expired_locked b now) = Z.max (clk b) (now + 1)
  /\ advances b (collect_expired_locked b now).
Proof.
  intros Hinv Hmax. unfold collect_expired_locked.
  remember (Z.to_nat (now + 1 - clk b)) as n eqn:En.
  revert b Hinv En. induction n as [|n IH]; intros b Hinv En; cbn [collect_loop].
  { split_and!; [done|lia|apply advances_refl]. }
  rewrite (proj2 (Z.leb_le _ _)) by lia.
  destruct (jiffy_ok b Hinv ltac:(lia)) as (Hinv1 & Hc1 & Ha1).
  destruct (IH (collect_jiffy b) Hinv1 ltac:(lia)) as (Hinv2 & Hc2 & Ha2).
  split_and!; [done|lia|]. eapply advances_trans; [|done|done]. lia.
Qed.

Lemma all_buckets_spec l i : (l, i) ∈ all_buckets <-> level_ok l /\ 0 <= i < 64.
Proof.
  unfold all_buckets. rewrite list_elem_of_bind.
  setoid_rewrite list_elem_of_bind. setoid_rewrite list_elem_of_singleton.
  setoid_rewrite elem_of_seqZ. unfold LVL_SIZE, level_ok. split.
  - intros (l' & (i' & [= -> ->] & Hi) & Hl). repeat rewrite elem_of_cons in Hl.
    rewrite elem_of_nil in Hl. split; [tauto|lia].
  - intros [Hl Hi]. exists l. split; [exists i; split; [done|lia]|].
    repeat rewrite elem_of_cons. tauto.
Qed.

(** The scan of [next_expiry_locked] computes a minimum. *)
Definition scan_step (b : wheel_base) (best : Z) (p : Z * Z) : Z :=
  let '(l, i) := p in
  match lst b (LBucket l i) with
  | [] => best
  | _ :: _ => let slot := bucket_slot (clk b) l i in if slot <? best then slot else best
  end.

Lemma scan_min b ps best :
  foldl (scan_step b) best ps <= best
  /\ (forall l i, (l, i) ∈ ps -> lst b (LBucket l i) <> [] ->
        foldl (scan_step b) best ps <= bucket_slot (clk b) l i)
  /\ (foldl (scan_step b) best ps = best \/
      exists l i, (l, i) ∈ ps /\ lst b (LBucket l i) <> []
                  /\ foldl (scan_step b) best ps = bucket_slot (clk b) l i).
Proof.
  revert best. induction ps as [|[l i] ps IH]; intros best; cbn [foldl].
  { split_and!; [lia|by intros ? ? ?%elem_of_nil|by left]. }
  destruct (IH (scan_step b best (l, i))) as (H1 & H2 & H3).
  assert (scan_step b best (l, i) <= best
    /\ (lst b (LBucket l i) <> [] -> scan_step b best (l, i) <= bucket_slot (clk b) l i)
    /\ (scan_step b best (l, i) = best \/ (lst b (LBucket l i) <> []
         /\ scan_step b best (l, i) = bucket_slot (clk b) l i))) as (S1 & S2 & S3).
  { unfold scan_step. destruct (lst b (LBucket l i)); [split_and!; [lia|done|by left]|].
    destruct (Z.ltb_spec (bucket_slot (clk b) l i) best); split_and!; try (intros; lia); auto.
  }
  split_and!.
  - lia.
  - intros l' i' [[= -> ->]|Hin]%elem_of_cons Hne; [specialize (S2 Hne); lia|by apply H2].
  - destruct H3 as [H3|(l' & i' & Hin & Hne & H3)].
    + destruct S3 as [S3|[Hne S3]]; [left; congruence|]. right. exists l, i.
      split_and!; [apply elem_of_cons; by left|done|congruence].
    + right. exists l', i'. split_and!; [apply elem_of_cons; by right|done|done].
Qed.

Lemma lst_pending b p : winv b -> lst b p <> [] <-> exists t, pprev (tm b t) = Some p.
Proof.
  intros [[H1 _ _ _] _ _]. split.
  - intros Hne. destruct (lst b p) as [|t ts] eqn:E; [done|]. exists t. apply H1. left.
    rewrite E. apply elem_of_cons. by left.
  - intros [t Ht] E. apply H1 in Ht as [Ht|[_ []%elem_of_nil]]. rewrite E in Ht.
    by apply elem_of_nil in Ht.
Qed.

Lemma next_expiry_ok b :
  winv b -> lst b LDue = [] ->
  (forall t l i, pprev (tm b t) = Some (LBucket l i) -> next_expiry_locked b <= bucket_slot (clk b) l i)
  /\ (next_expiry_locked b = UINT64_MAX <-> forall t, pprev (tm b t) = None)
  /\ (next_expiry_locked b <> UINT64_MAX ->
      exists t l i, pprev (tm b t) = Some (LBucket l i) /\ next_expiry_locked b = bucket_slot (clk b) l i).
Proof.
  intros Hinv Hd. pose proof Hinv as [_ [Hc _] Hp].
  assert (next_expiry_locked b = foldl (scan_step b) UINT64_MAX all_buckets) as ->
    by (unfold next_expiry_locked; by rewrite Hd).
  destruct (scan_min b all_buckets UINT64_MAX) as (_ & H2 & H3).
  assert (forall t l i, pprev (tm b t) = Some (LBucket l i) ->
    foldl (scan_step b) UINT64_MAX all_buckets <= bucket_slot (clk b) l i < UINT64_MAX) as Hle.
  { intros t l i E. specialize (Hp t). rewrite E in Hp. destruct Hp as (Hl & Hi & _). split.
    - apply H2; [by apply all_buckets_spec|]. apply lst_pending; eauto.
    - destruct (bucket_slot_spec (clk b) l i Hl Hi Hc) as (_ & _ & ?). pose proof (gran_pos l Hl).
      unfold UINT64_MAX. lia. }
  split_and!.
  - intros t l i E. apply (Hle t l i E).
  - split.
    + intros E t. destruct (pprev (tm b t)) as [[l i|]|] eqn:Et; [|exfalso|done].
      * specialize (Hle t l i Et). lia.
      * by apply (proj2 (lst_pending b LDue Hinv) (ex_intro _ t Et)).
    + intros Hnone. destruct H3 as [->|(l & i & _ & Hne & _)]; [done|].
      apply lst_pending in Hne as [t Ht]; [|done]. by rewrite Hnone in Ht.
  - intros Hne. destruct H3 as [?|(l & i & Hin & Hne' & ->)]; [done|].
    apply lst_pending in Hne' as [t Ht]; [|done]. eauto.
Qed.

(** next_expiry_locked tells an empty wheel from a non-empty one. *)
Lemma next_expiry_empty b :
  winv b -> next_expiry_locked b = UINT64_MAX -> forall t, pprev (tm b t) = None.
Proof.
  intros Hinv. pose proof Hinv as [_ [Hc _] _].
  destruct (lst b LDue) as [|t0 ts] eqn:E; [by apply next_expiry_ok|].
  unfold next_expiry_locked. rewrite E. unfold UINT64_MAX. lia.
Qed.

Lemma forward_ok b now :
  winv b -> 0 <= now -> now + 1 < W63 ->
  winv (forward_locked b now) /\ advances b (forward_locked b now)
  /\ clk b <= clk (forward_locked b now) <= Z.max (clk b) (now + 1)
  /\ now <= clk (forward_locked b now).
Proof.
  intros Hinv Hnow Hmax. unfold forward_locked.
  destruct (Z.ltb_spec now (clk b)).
  { split_and!; [done|apply advances_refl|lia|lia|lia]. }
  destruct (Z.eqb_spec (next_expiry_locked b) UINT64_MAX) as [E|E].
  - pose proof (next_expiry_empty b Hinv E) as Hnone. destruct Hinv as [Hk [Hc He] Hp].
    assert (forall t, tm (set_clk b now) t = tm b t) as Ht by done.
    split_and!; simpl; try lia.
    + split; [by apply links_set_clk|split; [simpl; lia|done]|].
      intros t. rewrite Ht, Hnone. done.
    + split; try done; intros t; intros; rewrite ?Ht, ?Hnone in *; done.
  - destruct (collect_ok b now Hinv Hmax) as (H1 & H2 & H3). rewrite H2.
    split_and!; done || lia.
Qed.

Lemma detach_winv b t : winv b -> winv (detach_locked b t).
Proof.
  intros [Hk [Hc He] Hp]. destruct (detach_ok b t Hk) as (Hk' & Hn & Hc' & Ht). split; [done| |].
  - split; [by rewrite Hc'|]. intros t'. rewrite (proj1 (Ht t')). apply He.
  - intros t'. destruct (Ht t') as [He' Hp']. rewrite Hc', He'.
    destruct (decide (t' = t)) as [->|Hne]; [by rewrite Hn|]. rewrite Hp' by done. apply Hp.
Qed.

(** Removing a timer that may be pending. *)
Lemma wheel_remove_ok b t :
  winv b ->
  let b1 := if timer_pending b t then detach_locked b t else b in
  winv b1 /\ pprev (tm b1 t) = None /\ clk b1 = clk b
  /\ forall t', t' <> t -> tm b1 t' = tm b t'.
Proof.
  intros Hinv b1. subst b1. unfold timer_pending. destruct (pprev (tm b t)) as [p|] eqn:E; [|done].
  destruct (detach_ok b t (wi_links _ Hinv)) as (_ & Hn & Hc & Ht).
  split_and!; [by apply detach_winv|done|done|]. intros t' Hne. destruct (Ht t') as [H1 H2].
  specialize (H2 Hne). destruct (tm (detach_locked b t) t'), (tm b t'); simpl in *. congruence.
Qed.

Lemma file_winv b t e :
  winv b -> pprev (tm b t) = None -> 0 <= e < W63 ->
  let b' := enqueue_locked (set_expires b t e) t in
  winv b' /\ clk b' = clk b /\ tm b' t = TimerList e (Some (file (clk b) e))
  /\ forall t', t' <> t -> tm b' t' = tm b t'.
Proof.
  intros [[H1 H2 H3 H4] [Hc He] Hp] Hn Hre b'.
  assert (forall t', tm (set_expires b t e) t' = if decide (t' = t) then TimerList e None else tm b t') as Htm
    by (intros t'; rewrite tm_set_expires; by rewrite Hn).
  assert (b' = link_locked (set_expires b t e) (file (clk b) e) t) as Hb'.
  { subst b'. rewrite enqueue_file; rewrite ?Htm, ?decide_True by done; done. }
  assert (forall t', tm b' t' = if decide (t' = t) then TimerList e (Some (file (clk b) e)) else tm b t') as Ht.
  { intros t'. rewrite Hb', tm_link, !Htm. rewrite (decide_True (P := t = t)) by done. by case_decide. }
  assert (clk b' = clk b) as Hcb by (by rewrite Hb').
  split; [split|].
  - rewrite Hb'. apply linked_link; [|by rewrite Htm, decide_True].
    split; try done. intros q t'. change (lst (set_expires b t e) q) with (lst b q). rewrite <- H1, Htm.
    case_decide; [subst; by rewrite Hn|done].
  - split; [by rewrite Hcb|]. intros t'. rewrite Ht. by case_decide.
  - intros t'. rewrite Ht, Hcb. case_decide; [cbn [expires pprev]|apply Hp].
    destruct (wheel_file_ok (clk b) e Hc Hre) as (l & i & st & -> & Hl & Hi & <- & _ & _ & Hlt & _). done.
  - split; [done|]. rewrite Ht, decide_True by done. split; [done|].
    intros t' Hne. by rewrite Ht, decide_False.
Qed.

Lemma rearm_ok b t e now :
  winv b -> 0 <= now -> now + 1 < W63 -> 0 <= e < W63 ->
  let b' := rearm b t e now in
  winv b' /\ clk b <= clk b' <= Z.max (clk b) (now + 1) /\ now <= clk b'
  /\ tm b' t = TimerList e (Some (file (clk b') e))
  /\ forall t', t' <> t -> expires (tm b' t') = expires (tm b t')
       /\ (pprev (tm b' t') = None <-> pprev (tm b t') = None).
Proof.
  intros Hinv Hnow Hmax He. unfold rearm.
  destruct (wheel_remove_ok b t Hinv) as (Hinv1 & Hn1 & Hc1 & Ht1).
  set (b1 := if timer_pending b t then _ else b) in *.
  destruct (forward_ok b1 now Hinv1 Hnow Hmax) as (Hinv2 & Had & Hc2 & Hnc).
  destruct (file_winv (forward_locked b1 now) t e Hinv2) as (Hinv3 & Hc3 & Ht3 & Ho3); [|done|].
  { by apply (ad_idle _ _ Had). }
  rewrite Hc3. split_and!; try done; try lia.
  intros t' Hne. rewrite Ho3 by done. rewrite (ad_expires _ _ Had), (ad_idle _ _ Had), Ht1 by done. done.
Qed.

Lemma wheel_init_winv now : 0 <= now < W63 -> winv (wheel_init now).
Proof.
  intros Hn. assert (forall t, tm (wheel_init now) t = TimerList 0 None) as Ht by done.
  assert (forall p, lst (wheel_init now) p = []) as Hl by done.
  split; [split| |].
  - intros q t. rewrite Ht, Hl, !elem_of_nil. simpl. intuition congruence.
  - intros q. rewrite Hl. by apply NoDup_nil.
  - by apply NoDup_nil.
  - by intros ? ?%elem_of_nil.
  - split; [done|]. intros t. rewrite Ht. simpl. lia.
  - intros t. by rewrite Ht.
Qed.

(** ** Interleaving arming, cancelling and ktimerd *)

Record wsys := WSys {
  wb : wheel_base;
  time : Z;                                  (* the last clock reading *)
  fired : list (Z * Z * Z);                  (* timer, its expiry, time of the callback *)
}.

Inductive event :=
  | EMod (t e now : Z)
  | EReduce (t e now : Z)
  | EDel (t : Z)
  | ECollect (now : Z)                       (* ktimerd: collect_expired_locked *)
  | EPop (now : Z).                          (* ktimerd: the next callback starts *)

Definition clock_ok (s : wsys) (now : Z) : bool := (time s <=? now) && (now + 1 <? W63).

Definition exec (ev : event) (s : wsys) : option wsys :=
  match ev with
  | EMod t e now =>
    if clock_ok s now && (0 <=? e) && (e <? W63)
    then Some (WSys (mod_timer (wb s) t e now).1 now (fired s)) else None
  | EReduce t e now =>
    if clock_ok s now && (0 <=? e) && (e <? W63)
    then Some (WSys (timer_reduce (wb s) t e now).1 now (fired s)) else None
  | EDel t => Some (WSys (del_timer (wb s) t).1 (time s) (fired s))
  | ECollect now =>
    if clock_ok s now then Some (WSys (ktimerd_collect (wb s) now) now (fired s)) else None
  | EPop now =>
    if clock_ok s now then
      match ktimerd_pop (wb s) with
      | Some (t, b) => Some (WSys b now ((t, expires (tm (wb s) t), now) :: fired s))
      | None => None
      end
    else None
  end.

Fixpoint run (es : list event) (s : wsys) : option wsys :=
  match es with
  | [] => Some s
  | ev :: es => match exec ev s with Some s' => run es s' | None => None end
  end.

Definition sys_init (now : Z) : wsys := WSys (wheel_init now) now [].

Record sinv (s : wsys) : Prop := {
  si_winv : winv (wb s);
  si_time : 0 <= time s /\ clk (wb s) <= time s + 1;
  si_fired : forall t e n, (t, e, n) ∈ fired s -> e <= n;
}.

Lemma pop_ok b t b' :
  winv b -> ktimerd_pop b = Some (t, b') ->
  winv b' /\ clk b' = clk b /\ pprev (tm b t) = Some LDue /\ expires (tm b t) < clk b
  /\ forall t', pprev (tm b t') = None -> pprev (tm b' t') = None.
Proof.
  intros Hinv. unfold ktimerd_pop. destruct (lst b LDue) as [|t0 ts] eqn:E; [done|]. intros [= -> <-].
  assert (pprev (tm b t) = Some LDue) as Hd.
  { apply (ln_iff _ _ _ (wi_links _ Hinv)). left. rewrite E. apply elem_of_cons. by left. }
  destruct (detach_ok b t (wi_links _ Hinv)) as (_ & Hn & Hc & Ht).
  split_and!; [by apply detach_winv|done|done| |].
  - pose proof (wi_place _ Hinv t) as Hp. by rewrite Hd in Hp.
  - intros t' Hn'. destruct (decide (t' = t)) as [->|Hne]; [done|]. by rewrite (proj2 (Ht t')).
Qed.

(** Events that leave an idle timer [t] alone. *)
Definition not_arming (t : Z) (ev : event) : Prop :=
  match ev with EMod t' _ _ | EReduce t' _ _ => t' <> t | _ => True end.

Lemma wheel_exec_ok ev s s' :
  sinv s -> exec ev s = Some s' ->
  sinv s' /\ forall t, not_arming t ev -> pprev (tm (wb s) t) = None ->
    pprev (tm (wb s') t) = None
    /\ exists new, fired s' = new ++ fired s /\ forall e n, (t, e, n) ∉ new.
Proof.
  intros [Hinv [Ht0 Hclk] Hf] H.
  assert (forall t, exists new : list (Z * Z * Z), fired s = new ++ fired s /\ forall e n, (t, e, n) ∉ new) as Hnil.
  { intros t. exists []. split; [done|]. by intros ? ? ?%elem_of_nil. }
  destruct ev as [t e now|t e now|t|now|now]; simpl in H; unfold clock_ok in H.
  - destruct (_ && _ && _) eqn:E; [|done]. injection H as <-. zbool. unfold mod_timer. cbn [fst].
    destruct (rearm_ok (wb s) t e now Hinv) as (Hi & Hc & _ & _ & Ho); try lia.
    split; [split; cbn [wb time fired fst]; [done|lia|done]|]. intros t' Hne Hn. split; [by apply Ho|apply Hnil].
  - destruct (_ && _ && _) eqn:E; [|done]. injection H as <-. zbool. unfold timer_reduce.
    destruct (timer_pending (wb s) t && _).
    + split; [split; cbn [wb time fired fst]; [done|lia|done]|]. intros t' _ Hn. split; [done|apply Hnil].
    + destruct (rearm_ok (wb s) t e now Hinv) as (Hi & Hc & _ & _ & Ho); try lia.
      split; [split; cbn [wb time fired fst]; [done|lia|done]|]. intros t' Hne Hn. split; [by apply Ho|apply Hnil].
  - injection H as <-. unfold del_timer. cbn [fst]. destruct (wheel_remove_ok (wb s) t Hinv) as (Hi & Hn & Hc & Ho).
    split; [split; cbn [wb time fired fst]; [done|lia|done]|]. intros t' _ Hn'. split; [|apply Hnil].
    destruct (decide (t' = t)) as [->|]; [done|]. by rewrite Ho.
  - destruct (_ && _) eqn:E; [|done]. injection H as <-. zbool. unfold ktimerd_collect.
    destruct (collect_ok (wb s) now Hinv) as (Hi & Hc & Ha); [lia|].
    split; [split; cbn [wb time fired fst]; [done|lia|done]|]. intros t' _ Hn'. split; [|apply Hnil].
    by apply (ad_idle _ _ Ha).
  - destruct (_ && _) eqn:E; [|done]. zbool.
    destruct (ktimerd_pop (wb s)) as [[t b]|] eqn:Ep; [|done]. injection H as <-.
    destruct (pop_ok _ _ _ Hinv Ep) as (Hi & Hc & Hd & He & Ho).
    split; [split; cbn [wb time fired]; [done|lia|]|].
    + intros t' e' n' [[= -> -> ->]|Hin]%elem_of_cons; [lia|eauto].
    + intros t' _ Hn'. split; [by apply Ho|]. exists [(t, expires (tm (wb s) t), now)].
      split; [done|]. intros e' n' [= -> _ _]%list_elem_of_singleton. congruence.
Qed.

Lemma wheel_run_ok es s s' : sinv s -> run es s = Some s' -> sinv s'.
Proof.
  revert s. induction es as [|ev es IH]; simpl; intros s Hs H; [by injection H as <-|].
  destruct (exec ev s) as [s1|] eqn:E; [|done]. apply (IH s1); [|done]. by apply (wheel_exec_ok ev s).
Qed.

Lemma sys_init_sinv now : 0 <= now < W63 -> sinv (sys_init now).
Proof.
  intros H. split; simpl; [by apply wheel_init_winv|lia|by intros ? ? ? ?%elem_of_nil].
Qed.

(** ** Properties *)

(** C18: never early.  However arming, re-arming, cancelling, clock passes and
    callbacks interleave, every callback ktimerd starts runs at a time not before
    the expiry its timer was armed with. *)
Theorem wheel_never_early (es : list event) (now : Z) (s : wsys) (t e n : Z) :
  0 <= now < W63 -> run es (sys_init now) = Some s -> (t, e, n) ∈ fired s -> e <= n.
Proof. intros Hn H Hin. exact (si_fired _ (wheel_run_ok _ _ _ (sys_init_sinv _ Hn) H) t e n Hin). Qed.

(** One timer past the finest level, fired after its bucket came round. *)
Definition fire_events : list event := [EMod 5 1103 1003; ECollect 1103; ECollect 1104; EPop 1104].

Lemma fire_run :
  exists s, run fire_events (sys_init 1003) = Some s /\ (5, 1103, 1104) ∈ fired s.
Proof.
  assert (fired <$> run fire_events (sys_init 1003) = Some [(5, 1103, 1104)]) as H
    by (vm_compute; reflexivity).
  apply fmap_Some in H as (s & E & Hs). exists s. split; [exact E|].
  rewrite <- Hs. apply elem_of_cons. by left.
Qed.

Lemma wheel_never_early_witness :
  exists s, run fire_events (sys_init 1003) = Some s /\ (5, 1103, 1104) ∈ fired s /\ 1103 <= 1104.
Proof.
  destruct fire_run as (s & E & Hin). exists s. split; [exact E|]. split; [exact Hin|].
  apply (wheel_never_early fire_events 1003 s 5 1103 1104); [lia|exact E|exact Hin].
Defined.

(** Events that neither arm nor cancel the timer [t]. *)
Definition not_touching (t : Z) (ev : event) : Prop :=
  match ev with EMod t' _ _ | EReduce t' _ _ | EDel t' => t' <> t | _ => True end.

(** The timer [t], armed for [e], is pending and will be due by [B], or its callback
    has been started since [old]. *)
Definition tracked (B t e : Z) (old : list (Z * Z * Z)) (s : wsys) : Prop :=
  exists new, fired s = new ++ old /\
  ((expires (tm (wb s) t) = e /\ due_by B (clk (wb s)) e (pprev (tm (wb s) t)))
   \/ (pprev (tm (wb s) t) = None /\ e < clk (wb s) /\ exists n, (t, e, n) ∈ new)).

Lemma tracked_advance B t e old s b n : winv (wb s) -> tm b t = tm (wb s) t -> clk b = clk (wb s) ->
  forall b', advances b b' -> clk b <= clk b' -> tracked B t e old s -> tracked B t e old (WSys b' n (fired s)).
Proof.
  intros Hinv Ht Hc b' Ha Hle (new & Ef & H). exists new. split; [done|]. cbn [wb].
  destruct H as [[He Hd]|(Hn & He & Hf)].
  - left. rewrite (ad_expires _ _ Ha), Ht. split; [done|]. rewrite <- He, <- Ht in Hd |- *. apply (ad_due_by _ _ Ha). by rewrite Hc.
  - right. split; [apply (ad_idle _ _ Ha); by rewrite Ht|]. split; [lia|done].
Qed.

Lemma tracked_rearm B t e old s t' e' now : winv (wb s) -> t' <> t -> 0 <= now -> now + 1 < W63 -> 0 <= e' < W63 ->
  tracked B t e old s -> tracked B t e old (WSys (rearm (wb s) t' e' now) now (fired s)).
Proof.
  intros Hinv Hne H1 H2 H3 H. unfold rearm. destruct (wheel_remove_ok (wb s) t' Hinv) as (Hinv1 & Hn1 & Hc1 & Ht1).
  set (b1 := if timer_pending (wb s) t' then _ else wb s) in *.
  destruct (forward_ok b1 now Hinv1 H1 H2) as (Hinv2 & Had & Hc2 & _).
  assert (Hf : tracked B t e old (WSys (forward_locked b1 now) now (fired s))).
  { eapply (tracked_advance B t e old s b1); [done|by apply Ht1|done|done|lia|done]. }
  destruct (file_winv (forward_locked b1 now) t' e' Hinv2) as (_ & Hc3 & _ & Ho3); [by apply (ad_idle _ _ Had)|done|].
  destruct Hf as (new & Ef & Hf). exists new. split; [done|]. cbn [wb fired] in *. by rewrite Hc3, Ho3 by done.
Qed.

Lemma exec_tracked B t e old ev s s' : sinv s -> not_touching t ev -> exec ev s = Some s' ->
  tracked B t e old s -> tracked B t e old s'.
Proof.
  intros [Hinv [Ht0 Hclk] _] Hev H Hs. destruct ev as [t' e' now|t' e' now|t'|now|now]; simpl in H, Hev; unfold clock_ok in H.
  - destruct (_ && _ && _) eqn:E; [|done]. injection H as <-. zbool. apply tracked_rearm; try done; lia.
  - destruct (_ && _ && _) eqn:E; [|done]. injection H as <-. zbool. unfold timer_reduce.
    destruct (timer_pending (wb s) t' && _); [exact Hs|]. apply tracked_rearm; try done; lia.
  - injection H as <-. unfold del_timer. cbn [fst]. destruct (wheel_remove_ok (wb s) t' Hinv) as (_ & _ & Hc & Ho).
    eapply (tracked_advance B t e old s); [done|by apply Ho|exact Hc|apply advances_refl|lia|done].
  - destruct (_ && _) eqn:E; [|done]. injection H as <-. zbool. destruct (collect_ok (wb s) now Hinv) as (_ & Hc & Ha); [lia|].
    eapply (tracked_advance B t e old s); [done|done|done|exact Ha|unfold ktimerd_collect in *; lia|done].
  - destruct (_ && _) eqn:E; [|done]. destruct (ktimerd_pop (wb s)) as [[t' b]|] eqn:Ep; [|done]. injection H as <-.
    destruct (pop_ok _ _ _ Hinv Ep) as (_ & Hc & Hd & He & _). unfold ktimerd_pop in Ep.
    destruct (lst (wb s) LDue) as [|t0 ts]; [done|]. injection Ep as -> <-.
    destruct (detach_ok (wb s) t' (wi_links _ Hinv)) as (_ & Hn & _ & Ht).
    destruct Hs as (new & Ef & Hs). exists ((t', expires (tm (wb s) t'), now) :: new). cbn [fired wb]. rewrite Ef. split; [done|].
    rewrite Hc. destruct (decide (t = t')) as [->|Hne].
    + right. destruct Hs as [[He' _]|(Hx & _)]; [|congruence]. split; [done|]. split; [congruence|]. exists now. rewrite He'. by left.
    + destruct (Ht t) as [H1 H2]. rewrite H1, H2 by done. destruct Hs as [?|(? & ? & n & ?)]; [by left|right].
      split; [done|]. split; [done|]. exists n. by right.
Qed.

(** C20: bounded lateness, on jiffies below 2^63.  A timer is armed for jiffy [e] when the wheel clock is [c].
    Whatever happens then to the other timers, and however often the timer cascades: once
    a pass has reached [B], the expiry (or [c], if that is later) rounded up to the
    granularity of the level the timer was first filed at, less than 512 jiffies more, the
    timer is on the due list or its callback has been started; and as long as the clock has
    not passed [e] the timer is pending in a bucket, its callback not started. *)
Theorem wheel_on_time (es : list event) (s s1 s2 : wsys) (t e now : Z) :
  sinv s -> exec (EMod t e now) s = Some s1 -> Forall (not_touching t) es -> run es s1 = Some s2 ->
  let c := clk (wb s1) in
  let B := round_up (level_for (Z.max c e - c)) (Z.max c e) in
  exists new, fired s2 = new ++ fired s1 /\ Z.max c e <= B < Z.max c e + 512
    /\ (B < clk (wb s2) -> pprev (tm (wb s2) t) = Some LDue \/ exists n, (t, e, n) ∈ new)
    /\ (clk (wb s2) <= e -> exists l i, pprev (tm (wb s2) t) = Some (LBucket l i)).
Proof.
  intros Hs H1 Hes Hrun c B. pose proof (proj1 (wheel_exec_ok _ _ _ Hs H1)) as Hs1.
  assert (Hb : 0 <= e < W63 /\ tm (wb s1) t = TimerList e (Some (file c e))).
  { simpl in H1. unfold clock_ok in H1. destruct (_ && _ && _) eqn:E; [|done]. injection H1 as <-. zbool. destruct Hs as [Hinv [Ht0 _] _].
    unfold c. cbn [wb mod_timer fst]. destruct (rearm_ok (wb s) t e now Hinv) as (_ & _ & _ & Ht & _); try lia. done. }
  destruct Hb as [He Ht]. destruct (wheel_file_ok c e) as (l & i & st & Hf & Hl & Hi & Hst & Hlf & Hb & _);
    [apply (wi_range _ (si_winv _ Hs1))|done|].
  assert (HB : Z.max c e <= B < Z.max c e + 512).
  { unfold B. rewrite <- Hlf. pose proof (round_up_spec l (Z.max c e) Hl). pose proof (gran_pos l Hl). lia. }
  assert (Htr : tracked B t e (fired s1) s1).
  { exists []. split; [done|]. left. rewrite Ht, Hf. split; [done|]. cbn [pprev due_by]. fold c. rewrite Hst. unfold B. rewrite <- Hlf.
    split; [lia|]. unfold round_up. apply Z.mul_le_mono_nonneg_r; [|apply Z.div_le_mono]; pose proof (gran_pos l Hl); lia. }
  clearbody c B. clear Hs H1 Ht Hf Hst Hlf Hb.
  assert (Hend : sinv s2 /\ tracked B t e (fired s1) s2).
  { revert Hs1 Htr Hrun. generalize (fired s1) as old. clear s. revert s1. induction Hes as [|ev es Hev _ IH]; intros s1 old Hs1 Htr Hrun; simpl in Hrun.
    - by injection Hrun as <-.
    - destruct (exec ev s1) as [s'|] eqn:E; [|done].
      apply (IH s'); [by apply (wheel_exec_ok ev s1)|by eapply exec_tracked|done]. }
  destruct Hend as [Hs2 (new & Ef & H)]. exists new. split_and!; [done|lia|lia| |]; intros Hclk.
  - destruct H as [[He' Hd]|(_ & _ & ?)]; [left|by right]. destruct (pprev (tm (wb s2) t)) as [[l' i'|]|] eqn:Ep; [exfalso|done|done].
    pose proof (wi_place _ (si_winv _ Hs2) t) as Hp. rewrite Ep in Hp. destruct Hp as (Hl' & Hi' & _), Hd as [Hd _].
    destruct (bucket_slot_spec (clk (wb s2)) l' i' Hl' Hi') as (_ & _ & ?); [apply (wi_range _ (si_winv _ Hs2))|]. lia.
  - destruct H as [[He' Hd]|(_ & ? & _)]; [|lia]. pose proof (wi_place _ (si_winv _ Hs2) t) as Hp.
    destruct (pprev (tm (wb s2) t)) as [[l' i'|]|]; [eauto| |done]. simpl in Hp. lia.
Qed.

(** The timer 5 cascades while the timer 6 is armed, re-armed and cancelled. *)
Definition late_events : list event := [EMod 6 1050 1010; ECollect 1100; EMod 6 1300 1101; EDel 6; ECollect 1104].

Lemma wheel_on_time_witness :
  match exec (EMod 5 1103 1003) (sys_init 1003) with
  | Some s1 => match run late_events s1 with
               | Some s2 => pprev (tm (wb s2) 5) = Some LDue \/ exists n, (5, 1103, n) ∈ fired s2
               | None => False
               end
  | None => False
  end.
Proof.
  assert (Hc : match exec (EMod 5 1103 1003) (sys_init 1003) with
    | Some s1 => clk (wb s1) = 1003 /\ fired s1 = [] /\ match run late_events s1 with Some s2 => clk (wb s2) = 1105 | None => False end
    | None => False end) by (vm_compute; auto).
  destruct (exec (EMod 5 1103 1003) (sys_init 1003)) as [s1|] eqn:E1; [|exact Hc]. destruct Hc as (Ec & Ef & Hc).
  destruct (run late_events s1) as [s2|] eqn:E2; [|exact Hc].
  destruct (wheel_on_time late_events (sys_init 1003) s1 s2 5 1103 1003) as (new & En & _ & Hd & _);
    [apply sys_init_sinv; lia|exact E1|repeat constructor; discriminate|exact E2|].
  rewrite Ec, Hc in Hd. rewrite En, Ef, app_nil_r. apply Hd. vm_compute. reflexivity.
Defined.

(** the hardware timer is armed for the right moment.  With no timer due,
    [next_expiry_locked] is UINT64_MAX exactly when nothing is pending; otherwise
    it is the slot of some pending timer's bucket, and no pass before it makes any
    timer due, so sleeping until then misses nothing. *)
Theorem wheel_next_expiry (b : wheel_base) :
  winv b -> lst b LDue = [] ->
  (next_expiry_locked b = UINT64_MAX <-> forall t, pprev (tm b t) = None)
  /\ (next_expiry_locked b <> UINT64_MAX -> exists t l i,
        pprev (tm b t) = Some (LBucket l i) /\ next_expiry_locked b = bucket_slot (clk b) l i)
  /\ (forall now, now + 1 < W63 -> now < next_expiry_locked b ->
        lst (collect_expired_locked b now) LDue = []).
Proof.
  intros Hinv Hd. destruct (next_expiry_ok b Hinv Hd) as (H1 & H2 & H3). split_and!; [done|done|].
  intros now Hmax Hlt. destruct (collect_ok b now Hinv Hmax) as (Hi & Hc & Ha).
  destruct (lst (collect_expired_locked b now) LDue) as [|t ts] eqn:E; [done|exfalso].
  destruct (proj1 (lst_pending _ LDue Hi)) as [t' Ht']; [by rewrite E|].
  destruct (pprev (tm b t')) as [[l i|]|] eqn:Et.
  - pose proof (wi_place _ Hinv t') as Hp. rewrite Et in Hp. destruct Hp as (Hl & Hli & _).
    destruct (bucket_slot_spec (clk b) l i Hl Hli (proj1 (wi_range _ Hinv))) as (_ & _ & Hs).
    specialize (H1 t' l i Et).
    destruct (ad_before _ _ Ha t' l i Et) as [Hx _]; [lia|]. congruence.
  - by apply (proj2 (lst_pending b LDue Hinv) (ex_intro _ t' Et)).
  - apply (ad_idle _ _ Ha) in Et. congruence.
Qed.

Lemma wheel_next_expiry_witness :
  lst (collect_expired_locked (mod_timer (wheel_init 1003) 5 1103 1003).1 1103) LDue = [].
Proof.
  apply (wheel_next_expiry (mod_timer (wheel_init 1003) 5 1103 1003).1).
  - apply (rearm_ok (wheel_init 1003) 5 1103 1003); try lia. apply wheel_init_winv. lia.
  - vm_compute. reflexivity.
  - lia.
  - vm_compute. reflexivity.
Defined.

(** a timer that is not pending, because it fired or because [del_timer]
    returned, does not fire again until it is armed again, whatever else happens
    to the wheel. *)
Theorem wheel_idle_never_fires (es : list event) (s s' : wsys) (t : Z) :
  sinv s -> pprev (tm (wb s) t) = None -> Forall (not_arming t) es -> run es s = Some s' ->
  exists new, fired s' = new ++ fired s /\ forall e n, (t, e, n) ∉ new.
Proof.
  intros Hs Hn Hes. revert s Hs Hn. induction Hes as [|ev es Hev _ IH]; simpl; intros s Hs Hn H.
  { injection H as <-. exists []. split; [done|]. by intros ? ? ?%elem_of_nil. }
  destruct (exec ev s) as [s1|] eqn:E; [|done].
  destruct (wheel_exec_ok ev s s1 Hs E) as (Hs1 & Ht). destruct (Ht t Hev Hn) as (Hn1 & new1 & Ef1 & Hf1).
  destruct (IH s1 Hs1 Hn1 H) as (new2 & Ef2 & Hf2).
  exists (new2 ++ new1). rewrite Ef2, Ef1. split; [by rewrite app_assoc|].
  intros e n [?|?]%elem_of_app; [by apply (Hf2 e n)|by apply (Hf1 e n)].
Qed.

Definition cancel_events : list event := [EMod 5 10 0; EMod 6 10 0; EDel 5].

Lemma cancel_run :
  exists s, run cancel_events (sys_init 0) = Some s /\ pprev (tm (wb s) 5) = None
    /\ exists s', run [ECollect 20; EPop 20] s = Some s' /\ fired s' = [(6, 10, 20)] ++ fired s.
Proof.
  assert ((fun s => (pprev (tm (wb s) 5), fired s, fired <$> run [ECollect 20; EPop 20] s))
            <$> run cancel_events (sys_init 0) = Some (None, [], Some [(6, 10, 20)])) as H
    by (vm_compute; reflexivity).
  apply fmap_Some in H as (s & E & [= H1 H2 H3]). symmetry in H3. apply fmap_Some in H3 as (s' & E' & Hs').
  exists s. split; [exact E|]. split; [by symmetry|]. exists s'. split; [exact E'|].
  rewrite <- Hs', <- H2. reflexivity.
Qed.

Lemma wheel_idle_never_fires_witness :
  exists s s' new, run cancel_events (sys_init 0) = Some s
    /\ run [ECollect 20; EPop 20] s = Some s'
    /\ fired s' = new ++ fired s /\ forall e n, (5, e, n) ∉ new.
Proof.
  destruct cancel_run as (s & E & Hn & s' & E' & _).
  destruct (wheel_idle_never_fires [ECollect 20; EPop 20] s s' 5) as [new Hnew].
  - apply (wheel_run_ok cancel_events (sys_init 0)); [apply sys_init_sinv; lia|exact E].
  - exact Hn.
  - repeat constructor.
  - exact E'.
  - exists s, s', new. split; [exact E|]. split; [exact E'|exact Hnew].
Defined.
