(* ===== verification/Pmm.v ===== *)
(** * The physical page allocator (kernel/mm/pmm.c, pmm.h)

    A buddy allocator of orders 0 to 14.  Free blocks are linked through their
    own memory: [mem] holds the [next] and [prev] words of a block at its
    physical address, the null pointer is 0, and a read or write through it is
    [None].  [frame_order] and [frame_refcount] are the per-frame arrays, with
    the values [pmm_init] fills them with as defaults.

    The abstract state is the set of free blocks, [free_block s f o]: the block
    of [2^o] frames at frame [f].  Theorems: the invariant (the linked lists hold
    exactly the free blocks, which are aligned, disjoint, never contain frame 0,
    have no references, add up to the free count, and are fully coalesced) holds
    after [pmm_init], and every allocation, free and share of owned frames keeps
    it; an allocation returns a free, aligned block or reports that no block is
    large enough; a free returns exactly the block's frames once the last
    reference is gone; freeing address 0, in contrast, goes through a null
    pointer. *)

From stdpp Require Import base numbers list gmap.
From S2P Require Import Prelude.

Definition PMM_FRAME_SIZE : Z := 4096.
Definition PMM_MAX_ORDER : Z := 14.
Definition PMM_MAX_FRAMES : Z := 1048576.
Definition ORDER_NONE : Z := 255.

Record pmm := Pmm {
  free_lists : gmap Z Z;                     (* order -> address of the first block, 0 if none *)
  mem : gmap Z (Z * Z);                      (* [next] and [prev] stored in a free block *)
  frame_order : gmap Z Z;
  total_free_frames : Z;
  total_usable_frames : Z;
  frame_limit : Z;
  frame_refcount : gmap Z Z;
}.

Definition frame_to_phys (frame : Z) : Z := u64 (frame * PMM_FRAME_SIZE).
Definition phys_to_frame (phys : Z) : Z := phys / PMM_FRAME_SIZE.

Definition list_head (s : pmm) (o : Z) : Z := default 0 (free_lists s !! o).
Definition forder (s : pmm) (f : Z) : Z := default ORDER_NONE (frame_order s !! f).
Definition refcount (s : pmm) (f : Z) : Z := default 1 (frame_refcount s !! f).
Definition node (m : gmap Z (Z * Z)) (a : Z) : Z * Z := default (0, 0) (m !! a).

(** Field writes through a block pointer; [None] if it is null. *)
Definition set_next (m : gmap Z (Z * Z)) (a n : Z) : option (gmap Z (Z * Z)) :=
  if a =? 0 then None else Some (<[a := (n, (node m a).2)]> m).
Definition set_prev (m : gmap Z (Z * Z)) (a p : Z) : option (gmap Z (Z * Z)) :=
  if a =? 0 then None else Some (<[a := ((node m a).1, p)]> m).

Definition with_list (s : pmm) (o h : Z) (m : gmap Z (Z * Z)) (f v : Z) : pmm :=
  Pmm (<[o := h]> (free_lists s)) m (<[f := v]> (frame_order s)) (total_free_frames s)
      (total_usable_frames s) (frame_limit s) (frame_refcount s).
Definition with_total (s : pmm) (n : Z) : pmm :=
  Pmm (free_lists s) (mem s) (frame_order s) n (total_usable_frames s) (frame_limit s)
      (frame_refcount s).
Definition with_refcount (s : pmm) (rc : gmap Z Z) : pmm :=
  Pmm (free_lists s) (mem s) (frame_order s) (total_free_frames s) (total_usable_frames s)
      (frame_limit s) rc.

(** ** The free lists *)

Definition list_push (s : pmm) (order block : Z) : option pmm :=
  m ← set_prev (mem s) block 0;
  m ← set_next m block (list_head s order);
  m ← (if list_head s order =? 0 then Some m else set_prev m (list_head s order) block);
  Some (with_list s order block m (phys_to_frame block) (u8 order)).

Definition list_remove (s : pmm) (order block : Z) : option pmm :=
  if block =? 0 then None
  else
    let '(next, prev) := node (mem s) block in
    m ← (if prev =? 0 then Some (mem s) else set_next (mem s) prev next);
    m ← (if next =? 0 then Some m else set_prev m next prev);
    Some (with_list s order (if prev =? 0 then next else list_head s order) m
                    (phys_to_frame block) ORDER_NONE).

(** ** Allocation *)

(** The smallest order from [o] on with a free block. *)
Definition find_order (s : pmm) (o : Z) : option Z :=
  find (fun k => negb (list_head s k =? 0)) (seqZ o (PMM_MAX_ORDER + 1 - o)).

(** The splitting loop, [n = found_order - order] turns. *)
Fixpoint split_loop (n : nat) (s : pmm) (phys order : Z) : option pmm :=
  match n with
  | O => Some s
  | S n =>
    let found_order := order + Z.of_nat n in
    s ← list_push s found_order (u64 (phys + Z.shiftl PMM_FRAME_SIZE found_order));
    split_loop n s phys order
  end.

Definition set_refcounts (rc : gmap Z Z) (frame order v : Z) : gmap Z Z :=
  foldl (fun rc i => <[frame + i := v]> rc) rc (seqZ 0 (Z.shiftl 1 order)).

Definition pmm_alloc_locked (s : pmm) (order : Z) : option (Z * pmm) :=
  if PMM_MAX_ORDER <? order then Some (0, s)
  else match find_order s order with
  | None => Some (0, s)
  | Some found_order =>
    let phys := list_head s found_order in
    s ← list_remove s found_order phys;
    s ← split_loop (Z.to_nat (found_order - order)) s phys order;
    let s := with_refcount s (set_refcounts (frame_refcount s) (phys_to_frame phys) order 1) in
    Some (phys, with_total s (u64 (total_free_frames s - Z.shiftl 1 order)))
  end.

(** ** Freeing *)

Definition bad_free (phys_addr order : Z) : bool :=
  ctrue (Z.land phys_addr (PMM_FRAME_SIZE - 1))
  || (PMM_MAX_FRAMES <=? phys_to_frame phys_addr)
  || (PMM_MAX_FRAMES - phys_to_frame phys_addr <? Z.shiftl 1 order).

Definition drop_refcounts (s : pmm) (frame order : Z) : gmap Z Z :=
  foldl (fun rc i => <[frame + i := u16 (default 1 (rc !! (frame + i)) - 1)]> rc)
        (frame_refcount s) (seqZ 0 (Z.shiftl 1 order)).

(** The coalescing loop; at most [PMM_MAX_ORDER - order] turns. *)
Fixpoint merge_loop (n : nat) (s : pmm) (frame order : Z) : option (pmm * Z * Z) :=
  match n with
  | O => Some (s, frame, order)
  | S n =>
    let buddy_frame := Z.lxor frame (Z.shiftl 1 order) in
    if (PMM_MAX_FRAMES <=? buddy_frame) || negb (forder s buddy_frame =? order)
    then Some (s, frame, order)
    else
      s ← list_remove s order (frame_to_phys buddy_frame);
      merge_loop n s (if frame <? buddy_frame then frame else buddy_frame) (order + 1)
  end.

Definition pmm_free_locked (s : pmm) (phys_addr order : Z) : option pmm :=
  let frame := phys_to_frame phys_addr in
  if bad_free phys_addr order then Some s
  else
    let s := with_refcount s (drop_refcounts s frame order) in
    if existsb (fun i => negb (refcount s (frame + i) =? 0)) (seqZ 0 (Z.shiftl 1 order)) then Some s
    else
      let s := with_total s (u64 (total_free_frames s + Z.shiftl 1 order)) in
      r ← merge_loop (Z.to_nat (PMM_MAX_ORDER - order)) s frame order;
      let '(s, frame, order) := r in
      list_push s order (frame_to_phys frame).

Definition pmm_free_frame_count (s : pmm) : Z := total_free_frames s.

Definition pmm_frame_share (s : pmm) (phys : Z) : pmm :=
  with_refcount s (<[phys_to_frame phys := u16 (refcount s (phys_to_frame phys) + 1)]> (frame_refcount s)).

Definition pmm_frame_refcount (s : pmm) (phys : Z) : Z := refcount s (phys_to_frame phys).

(** ** Boot *)

(** The loop of [add_region]; [fuel] bounds the frames left. *)
Fixpoint add_loop (fuel : nat) (s : pmm) (phys end_ : Z) : option pmm :=
  match fuel with
  | O => None
  | S fuel =>
    if (phys + PMM_FRAME_SIZE <=? end_) && negb (PMM_MAX_FRAMES <=? phys_to_frame phys) then
      s ← pmm_free_locked s phys 0;
      let lim := if frame_limit s <? phys_to_frame phys + 1 then phys_to_frame phys + 1 else frame_limit s in
      add_loop fuel
        (Pmm (free_lists s) (mem s) (frame_order s) (total_free_frames s) (total_usable_frames s + 1) lim
             (frame_refcount s)) (phys + PMM_FRAME_SIZE) end_
    else Some s
  end.

Definition add_region (s : pmm) (start end_ : Z) : option pmm :=
  let start := Z.land (u64 (start + PMM_FRAME_SIZE - 1)) (u64 (Z.lnot (PMM_FRAME_SIZE - 1))) in
  let end_ := Z.land end_ (u64 (Z.lnot (PMM_FRAME_SIZE - 1))) in
  add_loop (S (Z.to_nat PMM_MAX_FRAMES)) s start end_.

Record multiboot_mmap_entry := MmapEntry { base_addr : Z; length_ : Z; etype : Z }.

Definition MULTIBOOT_MEMORY_AVAILABLE : Z := 1.

(** The body of the loop over the memory-map entries. *)
Definition add_entry (kernel_start kernel_end : Z) (s : pmm) (e : multiboot_mmap_entry) : option pmm :=
  if negb (etype e =? MULTIBOOT_MEMORY_AVAILABLE) then Some s
  else
    let start := if base_addr e <? 1048576 then 1048576 else base_addr e in
    let region_end := u64 (base_addr e + length_ e) in
    if (start <? kernel_end) && (kernel_start <? region_end) then
      s ← (if start <? kernel_start then add_region s start kernel_start else Some s);
      if kernel_end <? region_end then add_region s kernel_end region_end else Some s
    else add_region s start region_end.

Definition empty_pmm : pmm := Pmm ∅ ∅ ∅ 0 0 0 ∅.

Fixpoint add_entries (ks ke : Z) (s : pmm) (es : list multiboot_mmap_entry) : option pmm :=
  match es with
  | [] => Some s
  | e :: es => s ← add_entry ks ke s e; add_entries ks ke s es
  end.

Definition pmm_init (kernel_start kernel_end : Z) (entries : list multiboot_mmap_entry) : option pmm :=
  add_entries kernel_start kernel_end empty_pmm entries.

(** ** Doubly linked segments in memory *)

(** The last element of [l], or [p]. *)
Definition lastd (p : Z) (l : list Z) : Z := default p (last l).
Definition hdd (n : Z) (l : list Z) : Z := match l with [] => n | a :: _ => a end.

(** [l] is linked in [m], preceded by [p] and followed by [n]. *)
Fixpoint dseg (m : gmap Z (Z * Z)) (p : Z) (l : list Z) (n : Z) : Prop :=
  match l with
  | [] => True
  | a :: l => a <> 0 /\ m !! a = Some (hdd n l, p) /\ dseg m a l n
  end.

Lemma lastd_cons p a l : lastd p (a :: l) = lastd a l.
Proof. unfold lastd. rewrite last_cons. by destruct (last l). Qed.

Lemma lastd_snoc p l z : lastd p (l ++ [z]) = z.
Proof. unfold lastd. by rewrite last_snoc. Qed.

Lemma hdd_app n l k : hdd n (l ++ k) = hdd (hdd n k) l.
Proof. by destruct l. Qed.

Lemma dseg_app m p l k n : dseg m p (l ++ k) n <-> dseg m p l (hdd n k) /\ dseg m (lastd p l) k n.
Proof.
  revert p. induction l as [|a l IH]; intros p; simpl; [tauto|].
  rewrite IH, hdd_app, lastd_cons. tauto.
Qed.

Lemma dseg_frame m m' p l n : (forall a, a ∈ l -> m' !! a = m !! a) -> dseg m p l n -> dseg m' p l n.
Proof.
  revert p. induction l as [|a l IH]; intros p Hm; simpl; [done|].
  intros (H1 & H2 & H3). split_and!; [done|rewrite Hm by set_solver; done|].
  apply IH; [|done]. intros b Hb. apply Hm. set_solver.
Qed.

Lemma dseg_insert m p l n a x : a ∉ l -> dseg m p l n -> dseg (<[a := x]> m) p l n.
Proof. intros Ha. apply dseg_frame. intros b Hb. rewrite lookup_insert_ne; [done|]. congruence. Qed.

Lemma dseg_node m p l n a : dseg m p l n -> a ∈ l -> m !! a = Some (node m a) /\ a <> 0.
Proof.
  revert p. induction l as [|b l IH]; intros p; simpl; [intros _ []%elem_of_nil|].
  intros (H1 & H2 & H3) [->|Ha]%elem_of_cons; [|by eapply IH]. unfold node. by rewrite H2.
Qed.

(** Redirecting the last node's [next]. *)
Lemma dseg_set_last m p l z n n' :
  NoDup (l ++ [z]) -> dseg m p (l ++ [z]) n ->
  dseg (<[z := (n', (node m z).2)]> m) p (l ++ [z]) n'.
Proof.
  intros [_ [Hd _]]%NoDup_app. rewrite !dseg_app. simpl. intros [H1 (H2 & H3 & _)].
  assert (z ∉ l) as Hz by (intros Hz; apply (Hd z Hz); apply elem_of_cons; by left).
  split; [by apply dseg_insert|]. split_and!; [done| |done].
  rewrite lookup_insert_eq. unfold node. by rewrite H3.
Qed.

(** Redirecting the first node's [prev]. *)
Lemma dseg_set_first m p p' c l n :
  NoDup (c :: l) -> dseg m p (c :: l) n ->
  dseg (<[c := ((node m c).1, p')]> m) p' (c :: l) n.
Proof.
  intros [Hc _]%NoDup_cons (H1 & H2 & H3). simpl. split_and!; [done| |by apply dseg_insert].
  rewrite lookup_insert_eq. unfold node. by rewrite H2.
Qed.

Lemma set_next_some m a n : a <> 0 -> set_next m a n = Some (<[a := (n, (node m a).2)]> m).
Proof. intros H. unfold set_next. by rewrite (proj2 (Z.eqb_neq _ _) H). Qed.

Lemma set_prev_some m a p : a <> 0 -> set_prev m a p = Some (<[a := ((node m a).1, p)]> m).
Proof. intros H. unfold set_prev. by rewrite (proj2 (Z.eqb_neq _ _) H). Qed.

(** Pushing on a list: the memory part of [list_push]. *)
Lemma push_mem m l b :
  dseg m 0 l 0 -> NoDup (b :: l) -> b <> 0 ->
  exists m', (m1 ← set_prev m b 0; m2 ← set_next m1 b (hdd 0 l);
              if hdd 0 l =? 0 then Some m2 else set_prev m2 (hdd 0 l) b) = Some m'
    /\ dseg m' 0 (b :: l) 0 /\ forall a, a ∉ b :: l -> m' !! a = m !! a.
Proof.
  intros Hl [Hb Hnd]%NoDup_cons Hb0. rewrite set_prev_some by done. cbn [mbind option_bind].
  rewrite set_next_some by done. cbn [mbind option_bind]. rewrite insert_insert_eq.
  set (m2 := <[b := _]> m).
  assert (m2 !! b = Some (hdd 0 l, 0)) as Hm2
    by (unfold m2; rewrite lookup_insert_eq; unfold node; by rewrite lookup_insert_eq).
  assert (dseg m2 0 l 0) as Hl2 by (by apply dseg_insert).
  destruct l as [|c l]; simpl.
  - exists m2. split_and!; try done. intros a Ha. unfold m2. rewrite lookup_insert_ne; [done|]. set_solver.
  - assert (b <> c) as Hbc by set_solver. rewrite (proj2 (Z.eqb_neq c 0)) by (by destruct Hl).
    rewrite set_prev_some by (by destruct Hl). eexists. split; [reflexivity|]. split.
    + split; [done|]. split; [by rewrite lookup_insert_ne by done|].
      by apply (dseg_set_first m2 0).
    + intros a Ha. unfold m2. rewrite !lookup_insert_ne; [done| |]; set_solver.
Qed.

(** Unlinking [b]: the memory part of [list_remove]. *)
Lemma remove_mem m l1 b l2 :
  dseg m 0 (l1 ++ b :: l2) 0 -> NoDup (l1 ++ b :: l2) ->
  node m b = (hdd 0 l2, lastd 0 l1) /\ b <> 0
  /\ (lastd 0 l1 = 0 <-> l1 = [])
  /\ exists m', (m1 ← (if lastd 0 l1 =? 0 then Some m else set_next m (lastd 0 l1) (hdd 0 l2));
                 if hdd 0 l2 =? 0 then Some m1 else set_prev m1 (hdd 0 l2) (lastd 0 l1)) = Some m'
       /\ dseg m' 0 (l1 ++ l2) 0 /\ forall a, a ∉ l1 ++ l2 -> m' !! a = m !! a.
Proof.
  intros Hd Hnd. pose proof Hd as Hd'. apply dseg_app in Hd' as [H1 (Hb0 & Hb & H2)]. simpl in H1.
  assert (NoDup (l1 ++ l2) /\ b ∉ l1 /\ b ∉ l2) as (Hnd' & Hb1 & Hb2).
  { rewrite <- (Permutation_middle l1 l2 b) in Hnd. apply NoDup_cons in Hnd as [Hn Hnd].
    split; [done|]. rewrite elem_of_app in Hn. tauto. }
  assert (lastd 0 l1 = 0 <-> l1 = []) as Hl0.
  { destruct l1 as [|z l1'] using rev_ind; [done|]. rewrite lastd_snoc.
    destruct (dseg_node _ _ _ _ z H1) as [_ ?]; [set_solver|]. split; [done|]. by destruct l1'. }
  split; [unfold node; by rewrite Hb|]. split; [done|]. split; [done|].
  assert (exists m1, (if lastd 0 l1 =? 0 then Some m else set_next m (lastd 0 l1) (hdd 0 l2)) = Some m1
    /\ dseg m1 0 l1 (hdd 0 l2) /\ dseg m1 b l2 0 /\ forall a, a ∉ l1 -> m1 !! a = m !! a) as
    (m1 & -> & Hs1 & Hs2 & Hf1).
  { destruct l1 as [|z l1'] using rev_ind; [exists m; done|].
    destruct (Z.eqb_spec (lastd 0 (l1' ++ [z])) 0) as [E|E]; [apply Hl0 in E; by destruct l1'|].
    rewrite lastd_snoc in *. rewrite set_next_some by done. eexists. split; [reflexivity|]. split_and!.
    - apply (dseg_set_last m 0 l1' z b); [|done]. apply NoDup_app in Hnd'. tauto.
    - apply dseg_insert; [|done]. apply NoDup_app in Hnd' as (_ & Hx & _). apply Hx. set_solver.
    - intros a Ha. rewrite lookup_insert_ne; [done|]. set_solver. }
  destruct l2 as [|c l2]; simpl.
  - exists m1. split_and!; [done| |].
    + rewrite app_nil_r. done.
    + rewrite app_nil_r. done.
  - pose proof Hs2 as (Hc0 & _ & _). rewrite (proj2 (Z.eqb_neq _ _) Hc0).
    rewrite set_prev_some by done. eexists. split; [reflexivity|]. split.
    + apply dseg_app. apply NoDup_app in Hnd' as (_ & Hx & Hnd2). split.
      * apply dseg_insert; [|done]. intros Hc. apply (Hx c Hc). set_solver.
      * by apply (dseg_set_first m1 b).
    + intros a Ha. rewrite lookup_insert_ne by set_solver. apply Hf1. set_solver.
Qed.

(** ** Lists of free blocks *)

Definition addr (f : Z) : Z := f * PMM_FRAME_SIZE.
Definition ord (o : Z) : Prop := 0 <= o <= PMM_MAX_ORDER.

(** An aligned block inside the managed range that does not contain frame 0. *)
Definition block_ok (f o : Z) : Prop :=
  ord o /\ 0 < f /\ f mod 2 ^ o = 0 /\ f + 2 ^ o <= PMM_MAX_FRAMES.

(** The free lists hold the blocks [L o] (by frame) for each order [o]. *)
Record binv (s : pmm) (L : Z -> list Z) : Prop := {
  bi_head : forall o, ord o -> list_head s o = hdd 0 (addr <$> L o);
  bi_seg : forall o, ord o -> dseg (mem s) 0 (addr <$> L o) 0;
  bi_nodup : forall o, NoDup (L o);
  bi_order : forall o f, f ∈ L o <-> forder s f = o /\ ord o;
  bi_none : forall f, ord (forder s f) \/ forder s f = ORDER_NONE;
  bi_block : forall o f, f ∈ L o -> block_ok f o;
  bi_disj : forall o1 f1 o2 f2, f1 ∈ L o1 -> f2 ∈ L o2 ->
              (f1 = f2 /\ o1 = o2) \/ f1 + 2 ^ o1 <= f2 \/ f2 + 2 ^ o2 <= f1;
}.

Definition upd (L : Z -> list Z) (o : Z) (l : list Z) : Z -> list Z :=
  fun o' => if decide (o' = o) then l else L o'.

(** The block at [f] of order [o] meets no block of [L]. *)
Definition fresh (L : Z -> list Z) (f o : Z) : Prop :=
  forall o' f', f' ∈ L o' -> f' + 2 ^ o' <= f \/ f + 2 ^ o <= f'.

Definition same_rest (s s' : pmm) : Prop :=
  total_free_frames s' = total_free_frames s /\ total_usable_frames s' = total_usable_frames s
  /\ frame_limit s' = frame_limit s /\ frame_refcount s' = frame_refcount s.

Lemma upd_eq L o l : upd L o l o = l.
Proof. unfold upd. by rewrite decide_True. Qed.

Lemma upd_ne L o l o' : o' <> o -> upd L o l o' = L o'.
Proof. intros. unfold upd. by rewrite decide_False. Qed.

Lemma pow_pos o : 0 <= o -> 0 < 2 ^ o.
Proof. intros. lia. Qed.

Lemma block_ok_pow f o : block_ok f o -> 1 <= 2 ^ o /\ 0 < f < PMM_MAX_FRAMES.
Proof. intros ([H1 _] & H2 & _ & H4). pose proof (pow_pos o H1). lia. Qed.

Lemma addr_inj f g : addr f = addr g -> f = g.
Proof. unfold addr, PMM_FRAME_SIZE. lia. Qed.

Lemma addr_elem f (l : list Z) : addr f ∈ addr <$> l <-> f ∈ l.
Proof.
  rewrite list_elem_of_fmap. split; [intros (g & E & Hg); by apply addr_inj in E as ->|eauto].
Qed.

Lemma addr_nodup (l : list Z) : NoDup l -> NoDup (addr <$> l).
Proof. intros. apply NoDup_fmap_2; [|done]. intros ? ?. apply addr_inj. Qed.

Lemma phys_to_frame_addr f : phys_to_frame (addr f) = f.
Proof. unfold phys_to_frame, addr. apply Z.div_mul. done. Qed.

Lemma frame_to_phys_addr f : 0 <= f < PMM_MAX_FRAMES -> frame_to_phys f = addr f.
Proof. unfold frame_to_phys, addr, PMM_MAX_FRAMES, PMM_FRAME_SIZE. intros. apply u64_small. lia. Qed.

Lemma forder_with_list s o h m f v f' :
  forder (with_list s o h m f v) f' = if decide (f' = f) then v else forder s f'.
Proof.
  unfold forder. simpl. case_decide; [subst; by rewrite lookup_insert_eq|by rewrite lookup_insert_ne].
Qed.

Lemma head_with_list s o h m f v o' :
  list_head (with_list s o h m f v) o' = if decide (o' = o) then h else list_head s o'.
Proof.
  unfold list_head. simpl. case_decide; [subst; by rewrite lookup_insert_eq|by rewrite lookup_insert_ne].
Qed.

(** The lists of other orders are not touched by writes to the blocks of [o]. *)
Lemma other_seg s L o o' m' (ads : list Z) :
  binv s L -> ord o -> ord o' -> o' <> o ->
  (forall a, a ∈ ads -> exists f, a = addr f /\ ~ (exists k, k <> o /\ f ∈ L k)) ->
  (forall a, a ∉ ads -> m' !! a = mem s !! a) -> dseg m' 0 (addr <$> L o') 0.
Proof.
  intros Hb Ho Ho' Hne Hads Hm. eapply dseg_frame; [|by apply Hb]. intros a Ha. apply Hm.
  intros Hin. destruct (Hads a Hin) as (f & -> & Hf). apply Hf. exists o'. split; [done|].
  by apply addr_elem.
Qed.

Lemma push_ok s L f o :
  binv s L -> block_ok f o -> fresh L f o ->
  exists s', list_push s o (addr f) = Some s' /\ binv s' (upd L o (f :: L o)) /\ same_rest s s'.
Proof.
  intros Hb Hf Hfr. pose proof (block_ok_pow _ _ Hf) as [Hp Hf0]. pose proof Hf as [Ho _].
  assert (forall o', f ∉ L o') as Hn.
  { intros o' Hin. destruct (Hfr o' f Hin); [|lia].
    pose proof (block_ok_pow _ _ (bi_block _ _ Hb _ _ Hin)). lia. }
  destruct (push_mem (mem s) (addr <$> L o) (addr f)) as (m' & Em & Hseg & Hfrm).
  { by apply Hb. }
  { apply (addr_nodup (f :: L o)). apply NoDup_cons. split; [apply Hn|apply Hb]. }
  { unfold addr, PMM_FRAME_SIZE. lia. }
  unfold list_push. rewrite (bi_head _ _ Hb o Ho).
  destruct (set_prev (mem s) (addr f) 0) as [m1|]; [|done]. cbn [mbind option_bind] in Em |- *.
  destruct (set_next m1 _ _) as [m2|]; [|done]. cbn [mbind option_bind] in Em |- *. rewrite Em.
  cbn [mbind option_bind]. eexists. split; [reflexivity|]. split; [|done].
  rewrite phys_to_frame_addr.
  assert (u8 o = o) as -> by (unfold u8; rewrite Z.mod_small; [done|]; unfold ord, PMM_MAX_ORDER in Ho; lia).
  split.
  - intros o' Ho'. rewrite head_with_list. case_decide as E; [subst; by rewrite upd_eq|].
    rewrite upd_ne by done. by apply Hb.
  - intros o' Ho'. change (mem (with_list s o (addr f) m' f o)) with m'.
    destruct (decide (o' = o)) as [->|Hne]; [by rewrite upd_eq|]. rewrite upd_ne by done.
    eapply (other_seg s L o o' m' (addr f :: (addr <$> L o))); try done.
    intros a [->|Ha]%elem_of_cons; [exists f; split; [done|]; intros (k & _ & Hk); by destruct (Hn k)|].
    apply list_elem_of_fmap in Ha as (g & -> & Hg). exists g. split; [done|].
    intros (k & Hk & Hgk). apply Hb in Hg as [E1 _], Hgk as [E2 _]. congruence.
  - intros o'. unfold upd. case_decide; [|apply Hb]. apply NoDup_cons. split; [apply Hn|apply Hb].
  - intros o' g. rewrite forder_with_list. unfold upd. case_decide as E1; [subst o'; rewrite elem_of_cons|];
      case_decide as E2; [subst g|rewrite (bi_order _ _ Hb)|subst g|apply Hb].
    + intuition.
    + intuition.
    + split; [intros Hin; by destruct (Hn o')|intros [? _]; congruence].
  - intros g. rewrite forder_with_list. case_decide; [by left|apply Hb].
  - intros o' g. unfold upd. case_decide as E; [subst o'; intros [->|Hin]%elem_of_cons; [done|]|];
      by apply Hb.
  - intros o1 f1 o2 f2. unfold upd. intros H1 H2.
    destruct (decide (o1 = o)) as [->|], (decide (o2 = o)) as [->|];
      rewrite ?elem_of_cons in *; try (by apply Hb);
      repeat match goal with H : _ \/ _ |- _ => destruct H as [->|H] end; try (by apply Hb); try (by left);
      match goal with H : ?g ∈ L _ |- _ => destruct (Hfr _ g H); lia end.
Qed.

Lemma pmm_remove_ok s L f o :
  binv s L -> f ∈ L o ->
  exists s' l1 l2, L o = l1 ++ f :: l2 /\ list_remove s o (addr f) = Some s'
    /\ binv s' (upd L o (l1 ++ l2)) /\ same_rest s s'.
Proof.
  intros Hb Hin. pose proof (bi_block _ _ Hb _ _ Hin) as [Ho _].
  pose proof (bi_nodup _ _ Hb o) as Hnd. apply list_elem_of_split in Hin as (l1 & l2 & El). rewrite El in Hnd.
  pose proof (bi_seg _ _ Hb o Ho) as Hseg. rewrite El, fmap_app, fmap_cons in Hseg.
  pose proof (addr_nodup _ Hnd) as Hnd'. rewrite fmap_app, fmap_cons in Hnd'.
  destruct (remove_mem _ _ _ _ Hseg Hnd') as (Hnode & Hb0 & Hl0 & m' & Em & Hseg' & Hfrm).
  assert (NoDup (l1 ++ l2) /\ f ∉ l1 ++ l2) as [Hnd2 Hfn].
  { rewrite <- (Permutation_middle l1 l2 f) in Hnd. by apply NoDup_cons in Hnd as [? ?]. }
  assert (forall g, g ∈ l1 ++ l2 <-> g ∈ L o /\ g <> f) as Hel.
  { intros g. rewrite El, !elem_of_app, elem_of_cons. rewrite elem_of_app in Hfn.
    split; [intros H; split; [tauto|intros ->; tauto]|tauto]. }
  unfold list_remove. rewrite (proj2 (Z.eqb_neq _ _) Hb0), Hnode.
  destruct (if lastd 0 (addr <$> l1) =? 0 then _ else _) as [m1|]; [|done].
  cbn [mbind option_bind] in Em |- *. rewrite Em. cbn [mbind option_bind].
  eexists _, l1, l2. split; [done|]. split; [reflexivity|]. split; [|done]. rewrite phys_to_frame_addr.
  split.
  - intros o' Ho'. rewrite head_with_list. case_decide as E.
    + subst. rewrite upd_eq, (bi_head _ _ Hb o Ho), El, !fmap_app, fmap_cons.
      destruct (Z.eqb_spec (lastd 0 (addr <$> l1)) 0) as [E|E].
      * apply Hl0 in E. by rewrite E.
      * destruct (addr <$> l1) eqn:E'; [by destruct E|done].
    + rewrite upd_ne by done. by apply Hb.
  - intros o' Ho'. change (mem (with_list s o ?h m' f ORDER_NONE)) with m'.
    destruct (decide (o' = o)) as [->|Hne]; [rewrite upd_eq, fmap_app; done|]. rewrite upd_ne by done.
    eapply (other_seg s L o o' m' (addr <$> l1 ++ l2)); try done; [|by rewrite fmap_app].
    intros a (g & -> & [Hg _]%Hel)%list_elem_of_fmap. exists g. split; [done|].
    intros (k & Hk & Hgk). apply Hb in Hg as [E1 _], Hgk as [E2 _]. congruence.
  - intros o'. unfold upd. case_decide; [done|apply Hb].
  - assert (forder s f = o) as Hfo.
    { apply (bi_order _ _ Hb). rewrite El. apply elem_of_app. right. apply elem_of_cons. by left. }
    intros o' g. rewrite forder_with_list. unfold upd. case_decide as E1; [subst o'; rewrite Hel|];
      case_decide as E2; [subst g|rewrite (bi_order _ _ Hb); intuition|subst g|apply Hb].
    + split; [tauto|]. intros [H _]. unfold ord, ORDER_NONE, PMM_MAX_ORDER in *. lia.
    + rewrite (bi_order _ _ Hb). split; [intros [? ?]; congruence|].
      intros [H1 H2]. unfold ord, ORDER_NONE, PMM_MAX_ORDER in *. lia.
  - intros g. rewrite forder_with_list. case_decide; [by right|apply Hb].
  - intros o' g. unfold upd. case_decide as E; [subst o'; rewrite Hel; intros [? _]|]; by apply Hb.
  - assert (forall k g, g ∈ upd L o (l1 ++ l2) k -> g ∈ L k) as Hsub.
    { intros k g. unfold upd. case_decide; [subst; rewrite Hel; tauto|done]. }
    intros o1 f1 o2 f2 H1%Hsub H2%Hsub. by apply Hb.
Qed.

(** ** The free frames and their number *)

Definition freeL (L : Z -> list Z) (x : Z) : Prop := exists o f, f ∈ L o /\ f <= x < f + 2 ^ o.

Definition tot_of (L : Z -> list Z) (os : list Z) : Z :=
  foldr (fun o acc => 2 ^ o * Z.of_nat (length (L o)) + acc) 0 os.
Definition tot (L : Z -> list Z) : Z := tot_of L (seqZ 0 (PMM_MAX_ORDER + 1)).

Lemma tot_of_upd L o l os :
  NoDup os -> tot_of (upd L o l) os =
  tot_of L os + (if decide (o ∈ os) then 2 ^ o * (Z.of_nat (length l) - Z.of_nat (length (L o))) else 0).
Proof.
  induction os as [|a os IH]; intros Hnd; [reflexivity|].
  apply NoDup_cons in Hnd as [Ha Hnd]. cbn [tot_of foldr]. fold (tot_of (upd L o l) os). fold (tot_of L os).
  rewrite IH by done. destruct (decide (o = a)) as [->|Hne].
  - rewrite upd_eq, (decide_False (P := a ∈ os)) by done.
    rewrite decide_True by (apply elem_of_cons; by left). lia.
  - rewrite upd_ne by done. rewrite (decide_ext (o ∈ a :: os) (o ∈ os)); [lia|].
    rewrite elem_of_cons. naive_solver.
Qed.

Lemma tot_upd L o l :
  ord o -> tot (upd L o l) = tot L + 2 ^ o * (Z.of_nat (length l) - Z.of_nat (length (L o))).
Proof.
  intros Ho. unfold tot. rewrite tot_of_upd by apply NoDup_seqZ. rewrite decide_True; [done|].
  apply elem_of_seqZ. unfold ord in Ho. lia.
Qed.

Lemma tot_push L o f : ord o -> tot (upd L o (f :: L o)) = tot L + 2 ^ o.
Proof. intros Ho. rewrite tot_upd by done. simpl length. lia. Qed.

Lemma tot_remove L o l1 f l2 :
  ord o -> L o = l1 ++ f :: l2 -> tot (upd L o (l1 ++ l2)) = tot L - 2 ^ o.
Proof. intros Ho E. rewrite tot_upd, E, !length_app by done. simpl length. lia. Qed.

Lemma NoDup_range_length (l : list Z) n :
  NoDup l -> (forall x, x ∈ l -> 0 <= x < n) -> Z.of_nat (length l) <= Z.max 0 n.
Proof.
  intros Hnd Hr. assert (length l <= length (seqZ 0 n))%nat as H.
  { apply submseteq_length, NoDup_submseteq; [done|]. intros x Hx. apply elem_of_seqZ.
    specialize (Hr x Hx). lia. }
  rewrite length_seqZ in H. lia.
Qed.

Lemma tot_bounds s L : binv s L -> 0 <= tot L < W63.
Proof.
  intros Hb.
  assert (forall o, 0 <= Z.of_nat (length (L o)) <= PMM_MAX_FRAMES) as Hlen.
  { intros o. split; [lia|]. transitivity (Z.max 0 PMM_MAX_FRAMES); [|by vm_compute].
    apply NoDup_range_length; [apply Hb|]. intros x Hx.
    pose proof (block_ok_pow _ _ (bi_block _ _ Hb _ _ Hx)). lia. }
  assert (forall os, Forall ord os -> 0 <= tot_of L os <= Z.of_nat (length os) * (2 ^ 14 * PMM_MAX_FRAMES)) as H.
  { induction os as [|o os IH]; intros Hos; [simpl; lia|]. apply Forall_cons in Hos as [Ho Hos].
    cbn [tot_of foldr]. fold (tot_of L os). specialize (IH Hos). specialize (Hlen o).
    assert (0 < 2 ^ o <= 2 ^ 14) by (unfold ord, PMM_MAX_ORDER in Ho; split; [lia|apply Z.pow_le_mono_r; lia]).
    simpl length. nia. }
  specialize (H (seqZ 0 (PMM_MAX_ORDER + 1))). unfold tot.
  destruct H as [H1 H2]; [|rewrite length_seqZ in H2; split; [done|]; eapply Z.le_lt_trans; [exact H2|by vm_compute]].
  apply Forall_forall. intros o Ho%elem_of_seqZ. unfold ord. lia.
Qed.

(** ** Buddies *)

Definition buddy (f o : Z) : Z := Z.lxor f (Z.shiftl 1 o).

Lemma lxor_1_even k : Z.lxor (2 * k) 1 = 2 * k + 1.
Proof.
  symmetry. apply Z.add_nocarry_lxor. apply Z.bits_inj'. intros n Hn. rewrite Z.land_spec, Z.bits_0.
  destruct (Z.eq_dec n 0) as [->|]; [by rewrite Z.testbit_even_0|].
  change 1 with (2 ^ 0). by rewrite Z.pow2_bits_false, andb_false_r by lia.
Qed.

Lemma buddy_spec f o :
  0 <= o -> f mod 2 ^ o = 0 ->
  (f mod 2 ^ (o + 1) = 0 /\ buddy f o = f + 2 ^ o)
  \/ (f mod 2 ^ (o + 1) = 2 ^ o /\ buddy f o = f - 2 ^ o).
Proof.
  intros Ho Hf. pose proof (pow_pos o Ho). set (k := f / 2 ^ o).
  assert (f = k * 2 ^ o) as Ef by (subst k; pose proof (Z.div_mod f (2 ^ o) ltac:(lia)); lia).
  assert (buddy f o = Z.lxor k 1 * 2 ^ o) as Eb.
  { unfold buddy. rewrite Ef, <- (Z.shiftl_mul_pow2 k), <- Z.shiftl_lxor, Z.shiftl_mul_pow2 by done. done. }
  rewrite Z.pow_add_r, Z.pow_1_r by lia.
  destruct (Z.Even_or_Odd k) as [[j Hj]|[j Hj]].
  - left. rewrite Eb, Hj, lxor_1_even. split; [|lia].
    rewrite Ef, Hj. replace (2 * j * 2 ^ o) with (j * (2 ^ o * 2)) by lia. apply Z.mod_mul. lia.
  - right. rewrite Eb, Hj, <- lxor_1_even, Z.lxor_assoc, Z.lxor_nilpotent, Z.lxor_0_r. split; [|lia].
    rewrite Ef, Hj. replace ((2 * j + 1) * 2 ^ o) with (2 ^ o + j * (2 ^ o * 2)) by lia.
    rewrite Z.mod_add by lia. apply Z.mod_small. lia.
Qed.

Lemma mod_pow_weaken f o : 0 <= o -> f mod 2 ^ (o + 1) = 0 -> f mod 2 ^ o = 0.
Proof.
  intros Ho H. rewrite Z.pow_add_r, Z.pow_1_r in H by lia. pose proof (pow_pos o Ho).
  pose proof (Z.div_mod f (2 ^ o * 2) ltac:(lia)) as E. rewrite H in E.
  rewrite E. replace (2 ^ o * 2 * (f / (2 ^ o * 2)) + 0) with (2 * (f / (2 ^ o * 2)) * 2 ^ o) by lia.
  apply Z.mod_mul. lia.
Qed.

(** The two halves of a block. *)
Lemma block_halves f o :
  0 <= o -> block_ok f (o + 1) -> block_ok f o /\ block_ok (f + 2 ^ o) o /\ buddy (f + 2 ^ o) o = f.
Proof.
  intros Ho ([H1 H2] & H3 & H4 & H5). pose proof (pow_pos o Ho).
  pose proof (mod_pow_weaken f o Ho H4) as Hm.
  assert (2 ^ (o + 1) = 2 * 2 ^ o) as Ep by (rewrite Z.pow_add_r, Z.pow_1_r by lia; lia).
  assert ((f + 2 ^ o) mod 2 ^ o = 0) as Hm2.
  { rewrite <- Zplus_mod_idemp_r, Z.mod_same, Z.add_0_r by lia. done. }
  split_and!; [split_and!; unfold ord; try lia..|].
  destruct (buddy_spec f o Ho Hm) as [[_ Hb]|[Hb _]]; [|lia].
  unfold buddy in *. rewrite <- Hb, Z.lxor_assoc, Z.lxor_nilpotent, Z.lxor_0_r. done.
Qed.

(** A block and its buddy make a block of the next order. *)
Lemma block_merge f o :
  o < PMM_MAX_ORDER -> block_ok f o -> block_ok (buddy f o) o ->
  let m := if f <? buddy f o then f else buddy f o in
  block_ok m (o + 1) /\ forall x, m <= x < m + 2 ^ (o + 1) <->
    f <= x < f + 2 ^ o \/ buddy f o <= x < buddy f o + 2 ^ o.
Proof.
  intros Hlt ([H1 H2] & H3 & H4 & H5) (_ & B3 & B4 & B5) m. pose proof (pow_pos o H1).
  assert (2 ^ (o + 1) = 2 * 2 ^ o) as Ep by (rewrite Z.pow_add_r, Z.pow_1_r by lia; lia).
  unfold m. destruct (buddy_spec f o H1 H4) as [[Hm Hb]|[Hm Hb]]; rewrite Hb in *.
  - rewrite (proj2 (Z.ltb_lt _ _)) by lia. split; [|lia]. split_and!; unfold ord; lia.
  - rewrite (proj2 (Z.ltb_ge _ _)) by lia. split; [|lia]. split_and!; unfold ord; try lia.
    rewrite <- Zminus_mod_idemp_l, Hm, Z.sub_diag. apply Z.mod_0_l. lia.
Qed.

(** ** Reference counts *)

Lemma refcount_fold (g : Z -> Z) (ks : list Z) (rc : gmap Z Z) (frame x : Z) :
  NoDup ks ->
  default 1 (foldl (fun rc i => <[frame + i := g (default 1 (rc !! (frame + i)))]> rc) rc ks !! x)
  = if decide (x - frame ∈ ks) then g (default 1 (rc !! x)) else default 1 (rc !! x).
Proof.
  revert rc. induction ks as [|k ks IH]; intros rc Hnd; [done|].
  apply NoDup_cons in Hnd as [Hk Hnd]. cbn [foldl]. rewrite IH by done.
  destruct (decide (x = frame + k)) as [->|Hne].
  - rewrite lookup_insert_eq. replace (frame + k - frame) with k by lia.
    rewrite decide_False, decide_True; [done|apply elem_of_cons; by left|done].
  - rewrite lookup_insert_ne by lia. rewrite (decide_ext (x - frame ∈ k :: ks) (x - frame ∈ ks)); [done|].
    rewrite elem_of_cons. split; [intros [?|?]; [lia|done]|by right].
Qed.

(** The frames of a block. *)
Definition in_block (f o x : Z) : Prop := f <= x < f + 2 ^ o.

#[global] Instance in_block_dec f o x : Decision (in_block f o x).
Proof. unfold in_block. apply _. Defined.

Lemma block_index f o x : 0 <= o -> x - f ∈ seqZ 0 (Z.shiftl 1 o) <-> in_block f o x.
Proof. intros Ho. rewrite elem_of_seqZ, Z.shiftl_1_l. unfold in_block. lia. Qed.

Lemma refcount_set s f o v x :
  0 <= o -> refcount (with_refcount s (set_refcounts (frame_refcount s) f o v)) x
            = if decide (in_block f o x) then v else refcount s x.
Proof.
  intros Ho. unfold refcount, set_refcounts. simpl. rewrite (refcount_fold (fun _ => v)) by apply NoDup_seqZ.
  by rewrite (decide_ext _ _ _ _ (block_index f o x Ho)).
Qed.

Lemma refcount_drop s f o x :
  0 <= o -> refcount (with_refcount s (drop_refcounts s f o)) x
            = if decide (in_block f o x) then u16 (refcount s x - 1) else refcount s x.
Proof.
  intros Ho. unfold refcount, drop_refcounts. simpl.
  rewrite (refcount_fold (fun v => u16 (v - 1))) by apply NoDup_seqZ.
  by rewrite (decide_ext _ _ _ _ (block_index f o x Ho)).
Qed.

(** ** The invariant *)

Record pinv (s : pmm) (L : Z -> list Z) : Prop := {
  pi_binv : binv s L;
  pi_refs : forall x, freeL L x -> refcount s x = 0;
  pi_total : total_free_frames s = tot L;
  pi_coalesced : forall o f, o < PMM_MAX_ORDER -> f ∈ L o -> buddy f o ∉ L o;
}.

(** [binv] does not depend on the counters. *)
Lemma binv_rest s L n rc : binv s L -> binv (with_total (with_refcount s rc) n) L.
Proof. by intros [H1 H2 H3 H4 H5 H6 H7]; split. Qed.

Lemma freeL_push L o f x :
  freeL (upd L o (f :: L o)) x <-> freeL L x \/ in_block f o x.
Proof.
  unfold freeL, upd, in_block. split.
  - intros (o' & g & Hg & Hx). case_decide; [subst; apply elem_of_cons in Hg as [->|Hg]|]; eauto.
  - intros [(o' & g & Hg & Hx)|Hx].
    + exists o', g. split; [|done]. case_decide; [subst; apply elem_of_cons|]; auto.
    + exists o, f. split; [|done]. rewrite decide_True by done. apply elem_of_cons. by left.
Qed.

Lemma freeL_remove s L o l1 f l2 x :
  binv s L -> L o = l1 ++ f :: l2 ->
  freeL L x <-> freeL (upd L o (l1 ++ l2)) x \/ in_block f o x.
Proof.
  intros Hb E. unfold freeL, upd, in_block. split.
  - intros (o' & g & Hg & Hx). destruct (decide (o' = o)) as [->|Hne].
    + rewrite E, elem_of_app, elem_of_cons in Hg. destruct Hg as [Hg|[->|Hg]]; [left|by right|left];
        exists o, g; (split; [rewrite decide_True by done; apply elem_of_app; auto|done]).
    + left. exists o', g. by rewrite decide_False.
  - intros [(o' & g & Hg & Hx)|Hx].
    + exists o', g. split; [|done]. case_decide; [|done]. subst. rewrite E.
      rewrite elem_of_app in *. rewrite elem_of_cons. tauto.
    + exists o, f. split; [|done]. rewrite E. apply elem_of_app. right. apply elem_of_cons. by left.
Qed.

(** Taking a block out leaves its frames unused. *)
Lemma fresh_removed s L o l1 f l2 :
  binv s L -> L o = l1 ++ f :: l2 -> fresh (upd L o (l1 ++ l2)) f o.
Proof.
  intros Hb E o' g Hg. pose proof (bi_nodup _ _ Hb o) as Hnd. rewrite E in Hnd.
  rewrite <- (Permutation_middle l1 l2 f) in Hnd. apply NoDup_cons in Hnd as [Hn _].
  assert (f ∈ L o) as Hf by (rewrite E; apply elem_of_app; right; apply elem_of_cons; by left).
  unfold upd in Hg. destruct (decide (o' = o)) as [->|Hne].
  - assert (g ∈ L o) as Hg' by (rewrite E; rewrite elem_of_app in *; rewrite elem_of_cons; tauto).
    destruct (bi_disj _ _ Hb _ _ _ _ Hf Hg') as [[-> _]|[?|?]]; [done|lia|lia].
  - destruct (bi_disj _ _ Hb _ _ _ _ Hf Hg) as [[_ ->]|[?|?]]; [done|lia|lia].
Qed.

Lemma fresh_not_free L f o x : fresh L f o -> in_block f o x -> ~ freeL L x.
Proof. intros Hf Hx (o' & g & Hg & Hx'). unfold in_block in Hx. destruct (Hf o' g Hg); lia. Qed.

Lemma fresh_not_elem s L f o o' : binv s L -> 0 <= o -> fresh L f o -> f ∉ L o'.
Proof.
  intros Hb Ho Hf Hin. pose proof (block_ok_pow _ _ (bi_block _ _ Hb _ _ Hin)). pose proof (pow_pos o Ho).
  destruct (Hf o' f Hin); lia.
Qed.

(** ** Allocation *)

Lemma pmm_split_ok n s L f order :
  binv s L -> 0 <= order -> block_ok f (order + Z.of_nat n) -> fresh L f (order + Z.of_nat n) ->
  exists s' L', split_loop n s (addr f) order = Some s' /\ binv s' L' /\ same_rest s s'
    /\ fresh L' f order /\ tot L' = tot L + 2 ^ (order + Z.of_nat n) - 2 ^ order
    /\ (forall x, freeL L' x <-> freeL L x \/ f + 2 ^ order <= x < f + 2 ^ (order + Z.of_nat n))
    /\ (forall o g, g ∈ L' o -> g ∈ L o \/ (order <= o < order + Z.of_nat n /\ g = f + 2 ^ o)).
Proof.
  revert s L. induction n as [|n IH]; intros s L Hb Ho Hf Hfr.
  { replace (order + Z.of_nat 0) with order in * by lia. exists s, L. split_and!; try done; try lia.
    - intros x. split; [tauto|]. intros [?|?]; [done|lia].
    - by left. }
  replace (order + Z.of_nat (S n)) with (order + Z.of_nat n + 1) in * by lia.
  set (fo := order + Z.of_nat n) in *. assert (0 <= fo) as Hfo by lia. pose proof (pow_pos fo Hfo).
  destruct (block_halves f fo Hfo Hf) as (Hlo & Hhi & _). pose proof (block_ok_pow _ _ Hhi) as [_ Hr].
  assert (2 ^ (fo + 1) = 2 * 2 ^ fo) as Ep by (rewrite Z.pow_add_r, Z.pow_1_r by lia; lia).
  assert (fresh L (f + 2 ^ fo) fo) as Hfr1.
  { intros o' g Hg. destruct (Hfr o' g Hg); lia. }
  destruct (push_ok s L (f + 2 ^ fo) fo Hb Hhi Hfr1) as (s1 & E1 & Hb1 & Hr1).
  assert (u64 (addr f + Z.shiftl PMM_FRAME_SIZE fo) = addr (f + 2 ^ fo)) as Ea.
  { rewrite Z.shiftl_mul_pow2 by done. unfold addr, PMM_FRAME_SIZE, PMM_MAX_FRAMES in *. rewrite u64_small; lia. }
  cbn [split_loop]. fold fo. rewrite Ea, E1. cbn [mbind option_bind].
  destruct (IH s1 (upd L fo (f + 2 ^ fo :: L fo)) Hb1 Ho Hlo) as (s' & L' & E & Hb' & Hr' & Hf' & Ht & Hfree & Hel).
  { intros o' g. unfold upd. intros Hg.
    destruct (decide (o' = fo)) as [->|]; [apply elem_of_cons in Hg as [->|Hg]; [lia|]|];
      (destruct (Hfr _ g Hg); lia). }
  exists s', L'. split_and!; try done.
  - destruct Hr1 as (? & ? & ? & ?), Hr' as (? & ? & ? & ?). split_and!; congruence.
  - rewrite Ht, tot_push by apply Hlo. lia.
  - intros x. rewrite Hfree, freeL_push. unfold in_block.
    assert (2 ^ order <= 2 ^ fo) by (apply Z.pow_le_mono_r; lia). intuition lia.
  - intros o g Hg. destruct (Hel o g Hg) as [Hin|[? ->]]; [|right; split; [lia|done]].
    unfold upd in Hin. case_decide as E2; [subst o; apply elem_of_cons in Hin as [->|Hin]|];
      [right; split; [lia|done]|by left|by left].
Qed.

Lemma find_order_spec s L o :
  binv s L -> 0 <= o ->
  match find_order s o with
  | Some k => o <= k /\ ord k /\ exists f l, L k = f :: l /\ list_head s k = addr f
  | None => forall k, o <= k -> L k = []
  end.
Proof.
  intros Hb Ho. unfold find_order. destruct (find _ _) as [k|] eqn:E.
  - apply find_some in E as [Hk Hh]. apply list_elem_of_In, elem_of_seqZ in Hk.
    assert (ord k) as Hok by (unfold ord; lia). split; [lia|]. split; [done|].
    apply negb_true_iff, Z.eqb_neq in Hh. rewrite (bi_head _ _ Hb k Hok) in *.
    destruct (L k) as [|f l]; [done|]. eauto.
  - intros k Hk. destruct (L k) as [|f l] eqn:El; [done|exfalso].
    assert (block_ok f k) as Hf by (apply (bi_block _ _ Hb); rewrite El; apply elem_of_cons; by left).
    pose proof (block_ok_pow _ _ Hf). destruct Hf as [Hok _].
    pose proof (find_none _ _ E k) as Hn. cbv beta in Hn.
    rewrite (bi_head _ _ Hb k Hok), El in Hn. simpl in Hn.
    rewrite (proj2 (Z.eqb_neq _ _)) in Hn by (unfold addr, PMM_FRAME_SIZE; lia).
    discriminate Hn. apply list_elem_of_In, elem_of_seqZ. unfold ord in Hok. lia.
Qed.

(** What an allocation of order [o] at frame [f] does. *)
Record allocated (s s' : pmm) (L L' : Z -> list Z) (f o : Z) : Prop := {
  al_block : block_ok f o;
  al_was_free : forall x, in_block f o x -> freeL L x;
  al_refs : forall x, refcount s' x = if decide (in_block f o x) then 1 else refcount s x;
  al_free : forall x, freeL L' x <-> freeL L x /\ ~ in_block f o x;
  al_count : total_free_frames s' = total_free_frames s - 2 ^ o;
}.

Lemma pow_split o k : 0 <= o <= k -> 2 ^ k = 2 ^ o * 2 ^ (k - o).
Proof. intros. rewrite <- Z.pow_add_r by lia. f_equal. lia. Qed.

Lemma block_ok_smaller f k o : 0 <= o <= k -> block_ok f k -> block_ok f o.
Proof.
  intros Hok ([H1 H2] & H3 & H4 & H5). pose proof (pow_pos o ltac:(lia)).
  assert (2 ^ o <= 2 ^ k) by (apply Z.pow_le_mono_r; lia). split_and!; unfold ord; try lia.
  rewrite (pow_split o k) in H4 by lia. pose proof (pow_pos (k - o) ltac:(lia)).
  pose proof (Z.div_mod f (2 ^ o * 2 ^ (k - o)) ltac:(nia)) as E. rewrite H4 in E.
  rewrite E. replace (2 ^ o * 2 ^ (k - o) * (f / (2 ^ o * 2 ^ (k - o))) + 0)
    with (2 ^ (k - o) * (f / (2 ^ o * 2 ^ (k - o))) * 2 ^ o) by lia.
  apply Z.mod_mul. lia.
Qed.

(** Splitting creates no pair of free buddies: the buddy of each new block contains
    the block handed out. *)
Lemma split_coalesced (L L2 : Z -> list Z) f o k :
  0 <= o <= k -> block_ok f k -> (forall k', f ∉ L2 k') ->
  (forall k' g, g ∈ L2 k' -> g ∈ L k' \/ (o <= k' < k /\ g = f + 2 ^ k')) ->
  (forall k' g, k' < PMM_MAX_ORDER -> g ∈ L k' -> buddy g k' ∉ L k') ->
  forall k' g, k' < PMM_MAX_ORDER -> g ∈ L2 k' -> buddy g k' ∉ L2 k'.
Proof.
  intros Hok Hf Hn Hsrc Hco k' g Hk' Hg Hgb.
  assert (o <= k' < k -> buddy (f + 2 ^ k') k' = f) as Hbud.
  { intros Hk0. apply block_halves; [lia|]. apply (block_ok_smaller f k); [lia|done]. }
  assert (buddy (buddy g k') k' = g) as Hinv.
  { unfold buddy. by rewrite Z.lxor_assoc, Z.lxor_nilpotent, Z.lxor_0_r. }
  destruct (Hsrc _ _ Hg) as [Hg'|[Hk0 ->]], (Hsrc _ _ Hgb) as [Hgb'|[Hk1 Hgb']].
  - by apply (Hco k' g).
  - rewrite Hgb', Hbud in Hinv by done. subst. by destruct (Hn k').
  - rewrite Hbud in Hgb by done. by destruct (Hn k').
  - rewrite Hbud in Hgb by done. by destruct (Hn k').
Qed.

Lemma alloc_ok s L o :
  pinv s L -> 0 <= o ->
  ((PMM_MAX_ORDER < o \/ forall k, o <= k -> L k = []) /\ pmm_alloc_locked s o = Some (0, s))
  \/ exists f s' L', pmm_alloc_locked s o = Some (addr f, s') /\ pinv s' L' /\ allocated s s' L L' f o.
Proof.
  intros [Hb Hrefs Htot Hco] Ho. unfold pmm_alloc_locked.
  destruct (Z.ltb_spec PMM_MAX_ORDER o); [left; auto|].
  pose proof (find_order_spec s L o Hb Ho) as Hfind. destruct (find_order s o) as [k|]; [|left; auto].
  right. destruct Hfind as (Hok & Hk & f & l & El & Hh). rewrite Hh.
  assert (f ∈ L k) as Hin by (rewrite El; apply elem_of_cons; by left).
  pose proof (bi_block _ _ Hb _ _ Hin) as Hf.
  destruct (pmm_remove_ok s L f k Hb Hin) as (s1 & l1 & l2 & El' & E1 & Hb1 & Hr1).
  set (L1 := upd L k (l1 ++ l2)) in *.
  pose proof (fresh_removed s L k l1 f l2 Hb El') as Hfr. fold L1 in Hfr.
  assert (o + Z.of_nat (Z.to_nat (k - o)) = k) as Ek by lia.
  destruct (pmm_split_ok (Z.to_nat (k - o)) s1 L1 f o) as (s2 & L2 & E2 & Hb2 & Hr2 & Hfr2 & Ht2 & Hfree2 & Hel2);
    rewrite ?Ek in *; try done.
  rewrite E1. cbn [mbind option_bind]. rewrite E2. cbn [mbind option_bind]. rewrite phys_to_frame_addr.
  assert (total_free_frames s2 = tot L /\ forall x, refcount s2 x = refcount s x) as [Hts Hrs].
  { destruct Hr1 as (? & _ & _ & Hx), Hr2 as (? & _ & _ & Hy). split; [congruence|].
    intros x. unfold refcount. by rewrite Hy, Hx. }
  pose proof (block_ok_smaller f k o ltac:(lia) Hf) as Hfo. pose proof (block_ok_pow _ _ Hfo) as [Hpo _].
  assert (2 ^ o <= 2 ^ k) as Hle by (apply Z.pow_le_mono_r; lia).
  assert (tot L2 = tot L - 2 ^ o) as Ht by (rewrite Ht2; unfold L1; rewrite (tot_remove _ _ _ f) by done; lia).
  pose proof (tot_bounds _ _ Hb2). pose proof (tot_bounds _ _ Hb).
  assert (forall x, freeL L2 x <-> freeL L x /\ ~ in_block f o x) as Hfree.
  { intros x. rewrite Hfree2, (freeL_remove s L k l1 f l2 x Hb El'). fold L1.
    pose proof (fresh_not_free L1 f k x Hfr) as Hn. unfold in_block in *. split.
    - intros [Hx|Hx]; [split; [by left|intros ?; by apply Hn; [lia|]]|split; [right; lia|lia]].
    - intros [[Hx|Hx] Hno]; [by left|right; lia]. }
  eexists f, _, L2. split; [cbn [with_total with_refcount total_free_frames]; reflexivity|].
  cbn [total_free_frames with_refcount]. rewrite Hts, Z.shiftl_1_l, u64_small by lia.
  split; split.
  - by apply binv_rest.
  - intros x Hx. change (refcount (with_total ?s ?n) x) with (refcount s x).
    rewrite refcount_set by done. apply Hfree in Hx as [Hx Hn]. rewrite decide_False by done.
    rewrite Hrs. by apply Hrefs.
  - simpl. lia.
  - apply (split_coalesced L L2 f o k); try done; [by intros; apply (fresh_not_elem s2 L2 f o)|].
    intros k' g Hg. destruct (Hel2 k' g Hg) as [Hx|?]; [|by right]. left. unfold L1, upd in Hx.
    case_decide; [subst; rewrite El'; rewrite elem_of_app in *; rewrite elem_of_cons; tauto|done].
  - done.
  - intros x Hx. exists k, f. split; [done|]. unfold in_block in *. lia.
  - intros x. change (refcount (with_total ?s ?n) x) with (refcount s x).
    rewrite refcount_set, Hrs by done. done.
  - done.
  - simpl. lia.
Qed.

(** ** Freeing *)

Definition coalesced (L : Z -> list Z) : Prop :=
  forall o f, o < PMM_MAX_ORDER -> f ∈ L o -> buddy f o ∉ L o.

Lemma buddy_invol f o : buddy (buddy f o) o = f.
Proof. unfold buddy. by rewrite Z.lxor_assoc, Z.lxor_nilpotent, Z.lxor_0_r. Qed.

Lemma buddy_neq f o : 0 <= o -> f mod 2 ^ o = 0 -> buddy f o <> f.
Proof. intros Ho Hf. pose proof (pow_pos o Ho). destruct (buddy_spec f o Ho Hf) as [[_ ->]|[_ ->]]; lia. Qed.

Lemma upd_sub L o l1 f l2 o' g : L o = l1 ++ f :: l2 -> g ∈ upd L o (l1 ++ l2) o' -> g ∈ L o'.
Proof.
  intros E. unfold upd. case_decide; [|done]. subst. rewrite E, !elem_of_app, elem_of_cons. tauto.
Qed.

(** The result of coalescing the block [f] of order [o] into the lists. *)
Record merged (s s' : pmm) (L L' : Z -> list Z) (f o f' o' : Z) : Prop := {
  mg_binv : binv s' L';
  mg_rest : same_rest s s';
  mg_block : block_ok f' o';
  mg_fresh : fresh L' f' o';
  mg_tot : tot L' + 2 ^ o' = tot L + 2 ^ o;
  mg_free : forall x, freeL L' x \/ in_block f' o' x <-> freeL L x \/ in_block f o x;
  mg_stop : o' < PMM_MAX_ORDER -> buddy f' o' ∉ L' o';
  mg_coalesced : coalesced L';
}.

Lemma merge_ok n s L f o :
  n = Z.to_nat (PMM_MAX_ORDER - o) -> binv s L -> block_ok f o -> fresh L f o -> coalesced L ->
  exists s' L' f' o', merge_loop n s f o = Some (s', f', o') /\ merged s s' L L' f o f' o'.
Proof.
  revert s L f o. induction n as [|n IH]; intros s L f o En Hb Hf Hfr Hco; cbn [merge_loop].
  { exists s, L, f, o. split; [done|]. split; try done. intros. destruct Hf as [[? ?] _]. lia. }
  pose proof Hf as ([Ho _] & _ & Hal & _). fold (buddy f o).
  destruct ((PMM_MAX_FRAMES <=? buddy f o) || negb (forder s (buddy f o) =? o)) eqn:Ec.
  { exists s, L, f, o. split; [done|]. split; try done.
    intros _ Hin. pose proof (block_ok_pow _ _ (bi_block _ _ Hb _ _ Hin)) as [_ Hr].
    apply (bi_order _ _ Hb) in Hin as [E _].
    rewrite (proj2 (Z.leb_gt _ _)), (proj2 (Z.eqb_eq _ _) E) in Ec by lia. done. }
  apply orb_false_iff in Ec as [_ Eo%negb_false_iff%Z.eqb_eq].
  assert (buddy f o ∈ L o) as Hin by (apply Hb; split; [done|apply Hf]).
  pose proof (bi_block _ _ Hb _ _ Hin) as Hbud. pose proof (block_ok_pow _ _ Hbud) as [_ Hr].
  rewrite frame_to_phys_addr by lia.
  destruct (pmm_remove_ok s L (buddy f o) o Hb Hin) as (s1 & l1 & l2 & El & E1 & Hb1 & Hr1).
  rewrite E1. cbn [mbind option_bind].
  destruct (block_merge f o ltac:(lia) Hf Hbud) as [Hm Hmx].
  set (m := if f <? buddy f o then f else buddy f o) in *.
  set (L1 := upd L o (l1 ++ l2)) in *.
  assert (fresh L1 m (o + 1)) as Hfr1.
  { intros o' g Hg. pose proof (fresh_removed s L o l1 (buddy f o) l2 Hb El o' g Hg) as H1.
    pose proof (Hfr o' g (upd_sub _ _ _ _ _ _ _ El Hg)) as H2.
    assert (2 ^ (o + 1) = 2 * 2 ^ o) as Ep by (rewrite Z.pow_add_r, Z.pow_1_r by lia; lia).
    assert (0 <= o') as Ho' by (apply (bi_block _ _ Hb1) in Hg as [[? _] _]; lia).
    pose proof (pow_pos o' Ho'). unfold m.
    destruct (buddy_spec f o Ho Hal) as [[_ Eb]|[_ Eb]]; rewrite Eb in *;
      [rewrite (proj2 (Z.ltb_lt _ _)) by lia|rewrite (proj2 (Z.ltb_ge _ _)) by lia]; lia. }
  destruct (IH s1 L1 m (o + 1)) as (s' & L' & f' & o' & E & [M1 M2 M3 M4 M5 M6 M7 M8]); try done; [lia| |].
  { intros o0 g0 Hlt H0 Hb0. apply (Hco o0 g0 Hlt); by eapply upd_sub. }
  exists s', L', f', o'. split; [done|]. split; try done.
  - destruct Hr1 as (? & ? & ? & ?), M2 as (? & ? & ? & ?). split_and!; congruence.
  - rewrite M5. unfold L1. rewrite (tot_remove _ _ _ (buddy f o)) by (done || apply Hf).
    rewrite Z.pow_add_r, Z.pow_1_r by lia. lia.
  - intros x. rewrite M6, (freeL_remove s L o l1 (buddy f o) l2 x Hb El). fold L1.
    unfold in_block in *. rewrite Hmx. tauto.
Qed.

(** Nothing to merge with. *)
Lemma merge_stop n s f o : forder s (buddy f o) <> o -> merge_loop n s f o = Some (s, f, o).
Proof.
  intros H. destruct n as [|n]; [done|]. cbn [merge_loop]. fold (buddy f o).
  rewrite (proj2 (Z.eqb_neq _ _) H). by rewrite orb_true_r.
Qed.

Lemma push_coalesced L f o :
  0 <= o -> f mod 2 ^ o = 0 -> (o < PMM_MAX_ORDER -> buddy f o ∉ L o) -> coalesced L ->
  coalesced (upd L o (f :: L o)).
Proof.
  intros Ho Hal Hn Hco o' g Hlt. unfold upd. case_decide as E; [subst o'|by apply Hco].
  rewrite !elem_of_cons. intros [->|Hg] [Hb|Hb].
  - by apply (buddy_neq f o).
  - by apply Hn.
  - apply Hn; [done|]. by rewrite <- Hb, buddy_invol.
  - by apply (Hco o g).
Qed.

(** What a free of the block [f] of order [o] does. *)
Record released (s s' : pmm) (L L' : Z -> list Z) (f o : Z) : Prop := {
  re_refs : forall x, refcount s' x = if decide (in_block f o x) then refcount s x - 1 else refcount s x;
  re_last : (forall x, in_block f o x -> refcount s x = 1) ->
    total_free_frames s' = total_free_frames s + 2 ^ o
    /\ forall x, freeL L' x <-> freeL L x \/ in_block f o x;
  re_shared : (exists x, in_block f o x /\ refcount s x <> 1) ->
    total_free_frames s' = total_free_frames s /\ L' = L;
}.

Lemma good_free f o : block_ok f o -> bad_free (addr f) o = false.
Proof.
  intros Hf. pose proof (block_ok_pow _ _ Hf). destruct Hf as ([Ho _] & Hf & _ & Hm).
  unfold bad_free. rewrite phys_to_frame_addr, Z.shiftl_1_l.
  change (PMM_FRAME_SIZE - 1) with (2 ^ 12 - 1). rewrite land_low by lia.
  unfold addr, PMM_FRAME_SIZE. change 4096 with (2 ^ 12). rewrite Z.mod_mul by lia. simpl.
  rewrite (proj2 (Z.leb_gt _ _)), (proj2 (Z.ltb_ge _ _)) by lia. done.
Qed.

Lemma pmm_free_ok s L f o :
  pinv s L -> block_ok f o -> (forall x, in_block f o x -> ~ freeL L x /\ 0 < refcount s x < W16) ->
  exists s' L', pmm_free_locked s (addr f) o = Some s' /\ pinv s' L' /\ released s s' L L' f o.
Proof.
  intros [Hb Hrefs Htot Hco] Hf Hown. pose proof (block_ok_pow _ _ Hf) as [Hpo Hr].
  pose proof Hf as ([Ho _] & _ & Hal & _).
  unfold pmm_free_locked. rewrite (good_free f o Hf), phys_to_frame_addr.
  set (s1 := with_refcount s (drop_refcounts s f o)).
  assert (forall x, refcount s1 x = if decide (in_block f o x) then refcount s x - 1 else refcount s x) as Hrc.
  { intros x. unfold s1. rewrite refcount_drop by done. case_decide as E; [|done].
    destruct (Hown x E). rewrite u16_small; [done|]. lia. }
  assert (forall x, freeL L x -> refcount s1 x = 0) as Hrefs1.
  { intros x Hx. rewrite Hrc. rewrite decide_False; [by apply Hrefs|]. intros E. by destruct (Hown x E). }
  destruct (existsb _ _) eqn:Ex.
  - exists s1, L. split; [done|]. split; [split; try done; by apply (binv_rest s L (total_free_frames s))|].
    apply existsb_exists in Ex as (i & Hi & Hne). apply list_elem_of_In, elem_of_seqZ in Hi.
    rewrite Z.shiftl_1_l in Hi. apply negb_true_iff, Z.eqb_neq in Hne.
    assert (in_block f o (f + i)) as Hib by (unfold in_block; lia).
    rewrite Hrc, decide_True in Hne by done.
    split; [exact Hrc| |done]. intros Hall. specialize (Hall _ Hib). lia.
  - assert (forall x, in_block f o x -> refcount s x = 1) as Hall.
    { intros x Hx. apply not_true_iff_false in Ex. destruct (Z.eq_dec (refcount s x) 1); [done|].
      destruct Ex. apply existsb_exists. exists (x - f).
      rewrite <- list_elem_of_In, elem_of_seqZ, Z.shiftl_1_l. unfold in_block in Hx. split; [lia|].
      replace (f + (x - f)) with x by lia. apply negb_true_iff, Z.eqb_neq.
      rewrite Hrc, decide_True by done. lia. }
    assert (fresh L f o) as Hfr.
    { intros o' g Hg. destruct (Z.le_gt_cases (g + 2 ^ o') f); [by left|].
      destruct (Z.le_gt_cases (f + 2 ^ o) g); [by right|]. exfalso.
      pose proof (block_ok_pow _ _ (bi_block _ _ Hb _ _ Hg)).
      destruct (Hown (Z.max f g)) as [Hn _]; [unfold in_block; lia|]. apply Hn. exists o', g. split; [done|lia]. }
    set (s2 := with_total s1 _).
    assert (binv s2 L) as Hb2 by (by apply binv_rest).
    destruct (merge_ok _ s2 L f o eq_refl Hb2 Hf Hfr Hco) as (s3 & L3 & f' & o' & E3 & [M1 M2 M3 M4 M5 M6 M7 M8]).
    rewrite E3. cbn [mbind option_bind]. pose proof (block_ok_pow _ _ M3) as [_ Hr'].
    rewrite frame_to_phys_addr by lia.
    destruct (push_ok s3 L3 f' o' M1 M3 M4) as (s4 & E4 & Hb4 & Hr4).
    pose proof M3 as ([Ho' _] & _ & Hal' & _).
    pose proof (tot_bounds _ _ Hb4) as Htb. rewrite tot_push in Htb by apply M3.
    pose proof (tot_bounds _ _ Hb).
    assert (forall x, refcount s4 x = refcount s1 x) as Hrc4.
    { intros x. destruct M2 as (_ & _ & _ & X1), Hr4 as (_ & _ & _ & X2). unfold refcount. by rewrite X2, X1. }
    assert (total_free_frames s4 = total_free_frames s + 2 ^ o) as Ht4.
    { destruct M2 as (X1 & _), Hr4 as (X2 & _). rewrite X2, X1. simpl. rewrite Z.shiftl_1_l, u64_small; lia. }
    assert (forall x, freeL (upd L3 o' (f' :: L3 o')) x <-> freeL L x \/ in_block f o x) as Hfree
      by (intros x; by rewrite freeL_push, M6).
    exists s4, (upd L3 o' (f' :: L3 o')). split; [done|]. split; split; try done.
    + intros x [Hx|Hx]%Hfree; rewrite Hrc4; [by apply Hrefs1|]. rewrite Hrc, decide_True, Hall by done. done.
    + rewrite Ht4, tot_push, M5 by apply M3. lia.
    + by apply push_coalesced.
    + intros x. by rewrite Hrc4.
    + intros (x & Hx & Hne). by specialize (Hall x Hx).
Qed.

(** ** Boot *)

(** While the memory map is read, a frame that is not free was never touched. *)
Record boot_inv (s : pmm) (L : Z -> list Z) : Prop := {
  bo_pinv : pinv s L;
  bo_seed : forall x, ~ freeL L x -> refcount s x = 1;
}.

Lemma pinv_counters s L u l :
  pinv s L -> pinv (Pmm (free_lists s) (mem s) (frame_order s) (total_free_frames s) u l (frame_refcount s)) L.
Proof. intros [[H1 H2 H3 H4 H5 H6 H7] P2 P3 P4]. split; [by split|done..]. Qed.

Lemma in_block_0 f x : in_block f 0 x <-> x = f.
Proof. unfold in_block. simpl. lia. Qed.

(** Seeding one frame. *)
Lemma seed_ok s L f :
  boot_inv s L -> 0 < f < PMM_MAX_FRAMES -> ~ freeL L f ->
  exists s' L', pmm_free_locked s (addr f) 0 = Some s' /\ boot_inv s' L'
    /\ forall x, freeL L' x <-> freeL L x \/ x = f.
Proof.
  intros [Hp Hs] Hf Hn. assert (block_ok f 0) as Hb.
  { split_and!; [unfold ord, PMM_MAX_ORDER; lia|lia|apply Z.mod_1_r|simpl; lia]. }
  destruct (pmm_free_ok s L f 0 Hp Hb) as (s' & L' & E & Hp' & [R1 R2 _]).
  { intros x ->%in_block_0. rewrite Hs by done. split; [done|lia]. }
  destruct R2 as [_ Hfree]; [intros x ->%in_block_0; by apply Hs|].
  assert (forall x, freeL L' x <-> freeL L x \/ x = f) as Hfree' by (intros x; by rewrite Hfree, in_block_0).
  exists s', L'. split; [done|]. split; [|done]. split; [done|].
  intros x Hx. rewrite R1. rewrite decide_False; [apply Hs; intros ?; apply Hx, Hfree'; by left|].
  intros ->%in_block_0. apply Hx, Hfree'. by right.
Qed.

Lemma add_loop_ok fuel s L f e :
  boot_inv s L -> 0 < f -> 0 <= e -> PMM_MAX_FRAMES - f < Z.of_nat fuel -> (0 < fuel)%nat ->
  (forall x, f <= x < Z.min e PMM_MAX_FRAMES -> ~ freeL L x) ->
  exists s' L', add_loop fuel s (addr f) (addr e) = Some s' /\ boot_inv s' L'
    /\ forall x, freeL L' x <-> freeL L x \/ f <= x < Z.min e PMM_MAX_FRAMES.
Proof.
  revert s L f. induction fuel as [|fuel IH]; intros s L f Hb Hf He Hfuel Hpos Hn; [lia|].
  cbn [add_loop]. rewrite phys_to_frame_addr.
  destruct ((addr f + PMM_FRAME_SIZE <=? addr e) && negb (PMM_MAX_FRAMES <=? f)) eqn:E.
  - apply andb_true_iff in E as [E1%Z.leb_le E2%negb_true_iff%Z.leb_gt].
    assert (f < e) as Hfe by (unfold addr, PMM_FRAME_SIZE in E1; lia).
    destruct (seed_ok s L f Hb) as (s1 & L1 & -> & Hb1 & Hfree1); [lia|apply Hn; lia|].
    cbn [mbind option_bind]. replace (addr f + PMM_FRAME_SIZE) with (addr (f + 1))
      by (unfold addr, PMM_FRAME_SIZE; lia).
    match goal with |- context [add_loop fuel ?s2 _ _] => destruct (IH s2 L1 (f + 1)) as (s' & L' & -> & Hb' & Hfree') end.
    + destruct Hb1 as [Hp Hs]. split; [by apply pinv_counters|done].
    + lia.
    + done.
    + lia.
    + lia.
    + intros x Hx [Hin|Hin]%Hfree1; [|lia]. by apply (Hn x); [lia|].
    + exists s', L'. split; [done|]. split; [done|]. intros x. rewrite Hfree', Hfree1.
      assert (f <= x < Z.min e PMM_MAX_FRAMES <-> x = f \/ f + 1 <= x < Z.min e PMM_MAX_FRAMES) by lia. tauto.
  - exists s, L. split; [done|]. split; [done|]. intros x.
    assert (Z.min e PMM_MAX_FRAMES <= f) as Hle.
    { apply andb_false_iff in E as [E%Z.leb_gt|E%negb_false_iff%Z.leb_le]; [|lia].
      unfold addr, PMM_FRAME_SIZE in E. lia. }
    split; [by left|intros [?|?]; [done|lia]].
Qed.

(** The whole frames of [start, end). *)
Definition within (start end_ x : Z) : Prop :=
  start <= addr x /\ addr x + PMM_FRAME_SIZE <= end_ /\ x < PMM_MAX_FRAMES.

Lemma add_region_ok s L start end_ :
  boot_inv s L -> 0 < start < W63 -> 0 <= end_ < W63 ->
  (forall x, within start end_ x -> ~ freeL L x) ->
  exists s' L', add_region s start end_ = Some s' /\ boot_inv s' L'
    /\ forall x, freeL L' x <-> freeL L x \/ within start end_ x.
Proof.
  intros Hb Hs He Hn. unfold add_region.
  rewrite (u64_small (start + PMM_FRAME_SIZE - 1)) by (unfold PMM_FRAME_SIZE; lia).
  change (PMM_FRAME_SIZE - 1) with (2 ^ 12 - 1). rewrite !land_align by (unfold PMM_FRAME_SIZE; lia).
  set (f := (start + PMM_FRAME_SIZE - 1) / PMM_FRAME_SIZE). set (e := end_ / PMM_FRAME_SIZE).
  assert (start + PMM_FRAME_SIZE - 1 - (start + PMM_FRAME_SIZE - 1) mod 2 ^ 12 = addr f) as ->
    by (subst f; unfold addr, PMM_FRAME_SIZE; change (2 ^ 12) with 4096; dlia).
  assert (end_ - end_ mod 2 ^ 12 = addr e) as ->
    by (subst e; unfold addr, PMM_FRAME_SIZE; change (2 ^ 12) with 4096; dlia).
  assert (forall x, within start end_ x <-> f <= x < Z.min e PMM_MAX_FRAMES) as Hw.
  { intros x. unfold within, f, e, addr, PMM_FRAME_SIZE. dlia. }
  destruct (add_loop_ok (S (Z.to_nat PMM_MAX_FRAMES)) s L f e) as (s' & L' & E & Hb' & Hfree); try done.
  - subst f. unfold PMM_FRAME_SIZE. dlia.
  - subst e. unfold PMM_FRAME_SIZE. dlia.
  - assert (0 < f) by (subst f; unfold PMM_FRAME_SIZE; dlia). lia.
  - lia.
  - intros x Hx. by apply Hn, Hw.
  - exists s', L'. split; [done|]. split; [done|]. intros x. by rewrite Hfree, Hw.
Qed.

(** The frames the kernel may use: whole frames of an available entry, above
    1 MiB and outside the kernel image. *)
Definition usable_in (ks ke : Z) (e : multiboot_mmap_entry) (x : Z) : Prop :=
  etype e = MULTIBOOT_MEMORY_AVAILABLE /\ within (base_addr e) (base_addr e + length_ e) x
  /\ 1048576 <= addr x /\ (addr x + PMM_FRAME_SIZE <= ks \/ ke <= addr x).

Definition entry_ok (e : multiboot_mmap_entry) : Prop :=
  0 <= base_addr e /\ 0 <= length_ e /\ base_addr e + length_ e < W63.

Lemma add_entry_ok ks ke s L e :
  boot_inv s L -> 1048576 <= ks <= ke -> ke < W63 -> entry_ok e ->
  (forall x, usable_in ks ke e x -> ~ freeL L x) ->
  exists s' L', add_entry ks ke s e = Some s' /\ boot_inv s' L'
    /\ forall x, freeL L' x <-> freeL L x \/ usable_in ks ke e x.
Proof.
  intros Hb Hk Hk' (He1 & He2 & He3) Hn. unfold add_entry, usable_in in *.
  destruct (Z.eqb_spec (etype e) MULTIBOOT_MEMORY_AVAILABLE) as [Et|Et]; simpl.
  2:{ exists s, L. split; [done|]. split; [done|]. intros x. tauto. }
  set (start := if base_addr e <? 1048576 then 1048576 else base_addr e).
  assert (start = Z.max 1048576 (base_addr e)) as Es
    by (subst start; destruct (Z.ltb_spec (base_addr e) 1048576); lia).
  rewrite (u64_small (base_addr e + length_ e)) by lia. clearbody start.
  assert (base_addr e <= base_addr e + length_ e) as Hen by lia.
  set (en := base_addr e + length_ e) in *. clearbody en. unfold PMM_FRAME_SIZE in *.
  destruct (Z.ltb_spec start ke), (Z.ltb_spec ks en); simpl.
  2-4: destruct (add_region_ok s L start en Hb) as (s' & L' & -> & Hb' & Hf); try lia;
    [intros x Hx; apply Hn; unfold within, PMM_FRAME_SIZE in *; lia|];
    exists s', L'; split; [done|]; split; [done|]; intros x; rewrite Hf;
    match goal with |- _ <-> _ \/ ?U => assert (within start en x <-> U) as ->; [|done] end;
    unfold within, PMM_FRAME_SIZE; lia.
  assert (exists s1 L1, (if start <? ks then add_region s start ks else Some s) = Some s1 /\ boot_inv s1 L1
    /\ forall x, freeL L1 x <-> freeL L x \/ within start ks x) as (s1 & L1 & -> & Hb1 & Hf1).
  { destruct (Z.ltb_spec start ks).
    - apply add_region_ok; try done; try lia. intros x Hx. apply Hn. unfold within, PMM_FRAME_SIZE in *. lia.
    - exists s, L. split; [done|]. split; [done|]. intros x.
      assert (~ within start ks x) by (unfold within, PMM_FRAME_SIZE; lia). tauto. }
  cbn [mbind option_bind]. destruct (Z.ltb_spec ke en).
  - destruct (add_region_ok s1 L1 ke en Hb1) as (s' & L' & -> & Hb' & Hf); try lia.
    { intros x Hx [Hx'|Hx']%Hf1; [|unfold within, PMM_FRAME_SIZE in *; lia].
      apply (Hn x); [unfold within, PMM_FRAME_SIZE in *; lia|done]. }
    exists s', L'. split; [done|]. split; [done|]. intros x. rewrite Hf, Hf1.
    match goal with |- _ <-> _ \/ ?U => assert (within start ks x \/ within ke en x <-> U) as <-; [|tauto] end.
    unfold within, PMM_FRAME_SIZE. lia.
  - exists s1, L1. split; [done|]. split; [done|]. intros x. rewrite Hf1.
    match goal with |- _ <-> _ \/ ?U => assert (within start ks x <-> U) as ->; [|done] end.
    unfold within, PMM_FRAME_SIZE. lia.
Qed.

(** No frame lies in two available entries. *)
Definition entries_disjoint (es : list multiboot_mmap_entry) : Prop :=
  forall i j e1 e2 x, es !! i = Some e1 -> es !! j = Some e2 -> i <> j ->
  etype e1 = MULTIBOOT_MEMORY_AVAILABLE -> etype e2 = MULTIBOOT_MEMORY_AVAILABLE ->
  within (base_addr e1) (base_addr e1 + length_ e1) x ->
  ~ within (base_addr e2) (base_addr e2 + length_ e2) x.

Definition no_blocks : Z -> list Z := fun _ => [].

Lemma empty_boot : boot_inv empty_pmm no_blocks.
Proof.
  assert (forall x, ~ freeL no_blocks x) as Hn by (intros x (o & f & Hf & _); by apply elem_of_nil in Hf).
  split; [split|].
  - split.
    + done.
    + done.
    + intros o. by apply NoDup_nil.
    + intros o f. unfold no_blocks. rewrite elem_of_nil. split; [done|].
      intros [E [? ?]]. unfold forder, PMM_MAX_ORDER in *. simpl in E. rewrite lookup_empty in E.
      unfold ORDER_NONE in E. simpl in E. lia.
    + intros f. right. done.
    + by intros o f ?%elem_of_nil.
    + by intros o1 f1 o2 f2 ?%elem_of_nil.
  - intros x Hx. by destruct (Hn x).
  - reflexivity.
  - by intros o f _ ?%elem_of_nil.
  - done.
Qed.

Lemma add_entries_ok ks ke es s L :
  boot_inv s L -> 1048576 <= ks <= ke -> ke < W63 -> Forall entry_ok es -> entries_disjoint es ->
  (forall e x, e ∈ es -> usable_in ks ke e x -> ~ freeL L x) ->
  exists s' L', add_entries ks ke s es = Some s' /\ boot_inv s' L'
    /\ forall x, freeL L' x <-> freeL L x \/ exists e, e ∈ es /\ usable_in ks ke e x.
Proof.
  revert s L. induction es as [|e es IH]; intros s L Hb Hk Hk' Hok Hdis Hn.
  { exists s, L. split; [done|]. split; [done|]. intros x. split; [by left|].
    intros [?|(e & He & _)]; [done|]. by apply elem_of_nil in He. }
  apply Forall_cons in Hok as [He Hok].
  destruct (add_entry_ok ks ke s L e Hb Hk Hk' He) as (s1 & L1 & E1 & Hb1 & Hf1).
  { intros x. apply Hn. apply elem_of_cons. by left. }
  cbn [add_entries]. rewrite E1. cbn [mbind option_bind].
  destruct (IH s1 L1) as (s' & L' & E' & Hb' & Hf'); try done.
  { intros i j e1 e2 x Hi Hj Hne. apply (Hdis (S i) (S j)); try done. congruence. }
  { intros e' x He' Hu [Hx|Hx]%Hf1.
    - apply (Hn e' x); [apply elem_of_cons; by right|done|done].
    - apply list_elem_of_lookup in He' as [j Hj]. destruct Hu as (? & Hw & _), Hx as (? & Hw' & _).
      by apply (Hdis 0%nat (S j) e e' x). }
  exists s', L'. split; [done|]. split; [done|]. intros x. rewrite Hf', Hf1. setoid_rewrite elem_of_cons.
  split.
  - intros [[?|?]|(e' & ? & ?)]; [by left|right; exists e; auto|right; exists e'; auto].
  - intros [?|(e' & [->|?] & ?)]; [auto|auto|right; exists e'; auto].
Qed.

(** ** Properties *)

(** A machine with frames 256 to 271, of which the kernel occupies two. *)
Definition demo_entries : list multiboot_mmap_entry :=
  [MmapEntry 0 1048576 2; MmapEntry 1048576 65536 1].
Definition demo_pmm : option pmm := pmm_init 1048576 1056768 demo_entries.

Lemma demo_entries_ok : Forall entry_ok demo_entries /\ entries_disjoint demo_entries.
Proof.
  split; [repeat constructor; unfold entry_ok; simpl; lia|].
  intros [|[|i]] [|[|j]] e1 e2 x Hi Hj Hne T1 T2; simpl in Hi, Hj; by simplify_eq.
Qed.

Lemma demo_boot :
  exists s L, demo_pmm = Some s /\ boot_inv s L /\ forall x, freeL L x <-> 258 <= x < 272.
Proof.
  destruct demo_entries_ok as [H1 H2].
  destruct (add_entries_ok 1048576 1056768 demo_entries empty_pmm no_blocks empty_boot
              ltac:(lia) ltac:(lia) H1 H2) as (s & L & E & Hb & Hf);
    [by intros e x _ _ (? & ? & ?%elem_of_nil & _)|].
  exists s, L. split; [exact E|]. split; [exact Hb|]. clear E Hb. intros x. rewrite Hf. split.
  - intros [(? & ? & ?%elem_of_nil & _)|(e & He & Hu)]; [done|]. unfold demo_entries in He.
    rewrite !elem_of_cons, elem_of_nil in He.
    destruct He as [-> |[-> |[]]]; destruct Hu as (Ht & Hw & _ & Hk); [done|].
    unfold within, addr, PMM_FRAME_SIZE, PMM_MAX_FRAMES in *. simpl in *. lia.
  - intros Hx. right. exists (MmapEntry 1048576 65536 1). split; [apply elem_of_cons; right; apply elem_of_cons; by left|].
    unfold usable_in, within, addr, PMM_FRAME_SIZE, PMM_MAX_FRAMES. simpl. split; [reflexivity|lia].
Qed.

(** C1: allocation.  Under the invariant, [pmm_alloc_locked] either answers 0, and
    then the order is above the maximum or no free block of that order or larger
    exists and nothing changes, or it returns the address of an aligned block
    inside the managed range, all of whose frames were free, now have reference
    count 1, and are the only frames that stop being free; the invariant (linked
    lists, alignment, disjointness, coalescing, free count) is kept. *)
Theorem pmm_alloc_spec (s : pmm) (L : Z -> list Z) (o : Z) :
  pinv s L -> 0 <= o ->
  ((PMM_MAX_ORDER < o \/ forall k, o <= k -> L k = []) /\ pmm_alloc_locked s o = Some (0, s))
  \/ exists f s' L', pmm_alloc_locked s o = Some (addr f, s') /\ pinv s' L' /\ allocated s s' L L' f o.
Proof. apply alloc_ok. Qed.

Lemma pmm_alloc_spec_witness :
  exists s L f s' L', demo_pmm = Some s /\ pmm_alloc_locked s 0 = Some (addr f, s')
    /\ pinv s' L' /\ allocated s s' L L' f 0.
Proof.
  destruct demo_boot as (s & L & E & [Hp _] & Hf).
  destruct (pmm_alloc_spec s L 0 Hp ltac:(lia)) as [[[H|H] _]|(f & s' & L' & H)].
  - unfold PMM_MAX_ORDER in H. lia.
  - exfalso. assert (freeL L 260) as (o & g & Hg & Hx) by (apply Hf; lia).
    destruct (bi_block _ _ (pi_binv _ _ Hp) _ _ Hg) as ([Ho _] & _).
    rewrite (H o Ho) in Hg. by apply elem_of_nil in Hg.
  - exists s, L, f, s', L'. split; [exact E|exact H].
Defined.

(** C2: freeing.  Freeing a block whose frames are owned (not free, reference
    count at least 1) takes one reference from each frame; when that was the last
    one for all of them the block's frames, and no others, become free, merged
    with every free buddy up to the maximal order; when some frame is still shared
    the free lists do not change.  The invariant is kept either way. *)
Theorem pmm_free_spec (s : pmm) (L : Z -> list Z) (f o : Z) :
  pinv s L -> block_ok f o -> (forall x, in_block f o x -> ~ freeL L x /\ 0 < refcount s x < W16) ->
  exists s' L', pmm_free_locked s (addr f) o = Some s' /\ pinv s' L' /\ released s s' L L' f o.
Proof. apply pmm_free_ok. Qed.

Lemma pmm_free_spec_witness :
  exists s L s' L', demo_pmm = Some s /\ pmm_free_locked s (addr 256) 1 = Some s'
    /\ pinv s' L' /\ released s s' L L' 256 1.
Proof.
  destruct demo_boot as (s & L & E & [Hp Hseed] & Hf).
  destruct (pmm_free_spec s L 256 1 Hp) as (s' & L' & H).
  - split; [unfold ord, PMM_MAX_ORDER; lia|]. split; [lia|]. split; [reflexivity|by vm_compute].
  - intros x Hx. assert (~ freeL L x) as Hn by (rewrite Hf; unfold in_block in Hx; lia).
    split; [exact Hn|]. rewrite (Hseed x Hn). lia.
  - exists s, L, s', L'. split; [exact E|exact H].
Defined.

(** allocating a block and freeing it again restores the free frames and
    their number exactly. *)
Theorem pmm_alloc_free_roundtrip (s s1 : pmm) (L : Z -> list Z) (o phys : Z) :
  pinv s L -> 0 <= o -> pmm_alloc_locked s o = Some (phys, s1) -> phys <> 0 ->
  exists s2 L2, pmm_free_locked s1 phys o = Some s2 /\ pinv s2 L2
    /\ total_free_frames s2 = total_free_frames s /\ forall x, freeL L2 x <-> freeL L x.
Proof.
  intros Hp Ho E Hne. destruct (alloc_ok s L o Hp Ho) as [[_ E']|(f & s' & L' & E' & Hp' & [A1 A2 A3 A4 A5])].
  { congruence. }
  rewrite E' in E. injection E as <- <-.
  destruct (pmm_free_ok s' L' f o Hp' A1) as (s2 & L2 & E2 & Hp2 & [_ R2 _]).
  { intros x Hx. rewrite A3, decide_True by done. split; [|lia]. rewrite A4. tauto. }
  destruct R2 as [Ht Hfree]; [intros x Hx; by rewrite A3, decide_True|].
  exists s2, L2. split_and!; [done|done|lia|]. intros x. rewrite Hfree, A4. split.
  - intros [[? _]|?]; [done|by apply A2].
  - destruct (decide (in_block f o x)); tauto.
Qed.

Lemma demo_alloc :
  exists s L s1, demo_pmm = Some s /\ pinv s L /\ pmm_alloc_locked s 2 = Some (addr 260, s1).
Proof.
  destruct demo_boot as (s & L & E & [Hp _] & _). exists s, L.
  assert ((fun s => fst <$> pmm_alloc_locked s 2) <$> demo_pmm = Some (Some (addr 260))) as H
    by (vm_compute; reflexivity).
  rewrite E in H. injection H as H. apply fmap_Some in H as ([a s1] & Ea & Ha). simpl in Ha. subst a.
  exists s1. split; [exact E|]. split; [exact Hp|exact Ea].
Qed.

Lemma pmm_alloc_free_roundtrip_witness :
  exists s s1 s2, demo_pmm = Some s /\ pmm_alloc_locked s 2 = Some (addr 260, s1)
    /\ pmm_free_locked s1 (addr 260) 2 = Some s2 /\ total_free_frames s2 = total_free_frames s.
Proof.
  destruct demo_alloc as (s & L & s1 & E & Hp & Ea).
  destruct (pmm_alloc_free_roundtrip s s1 L 2 (addr 260) Hp) as (s2 & L2 & Ef & _ & Ht & _).
  - lia.
  - exact Ea.
  - unfold addr, PMM_FRAME_SIZE. lia.
  - exists s, s1, s2. split; [exact E|]. split; [exact Ea|]. split; [exact Ef|exact Ht].
Defined.

(** boot.  Given a memory map whose available entries do not overlap, [pmm_init]
    completes, establishes the invariant, and the free frames are exactly the
    whole frames of available entries below 4 GiB that lie above 1 MiB and do not
    touch the kernel image. *)
Theorem pmm_init_exact (ks ke : Z) (es : list multiboot_mmap_entry) :
  1048576 <= ks <= ke -> ke < W63 -> Forall entry_ok es -> entries_disjoint es ->
  exists s L, pmm_init ks ke es = Some s /\ pinv s L
    /\ forall x, freeL L x <-> exists e, e ∈ es /\ usable_in ks ke e x.
Proof.
  intros Hk Hk' Hok Hdis.
  destruct (add_entries_ok ks ke es empty_pmm no_blocks) as (s & L & E & [Hp _] & Hf); try done.
  - apply empty_boot.
  - by intros e x _ _ (? & ? & ?%elem_of_nil & _).
  - exists s, L. split_and!; [done|done|]. intros x. rewrite Hf. split; [|by right].
    intros [(? & ? & ?%elem_of_nil & _)|?]; done.
Qed.

Lemma pmm_init_exact_witness :
  exists s L, pmm_init 1048576 1056768 demo_entries = Some s /\ pinv s L
    /\ forall x, freeL L x <-> exists e, e ∈ demo_entries /\ usable_in 1048576 1056768 e x.
Proof.
  destruct demo_entries_ok as [H1 H2].
  apply (pmm_init_exact 1048576 1056768 demo_entries); [lia|lia|exact H1|exact H2].
Defined.

(** a free of address 0 is not ignored.  The validation in [pmm_free_locked]
    lets physical address 0 (what a failed [pmm_alloc] returns) through, and
    frame 0 still has its boot-time reference count of 1, so the call goes on to
    link a null block pointer into the order-0 list and dereferences it. *)
Theorem pmm_free_null_faults (s : pmm) (L : Z -> list Z) :
  pinv s L -> refcount s 0 = 1 -> ~ freeL L 1 -> pmm_free_locked s 0 0 = None.
Proof.
  intros Hp Hr Hn. unfold pmm_free_locked. change (bad_free 0 0) with false. cbv iota.
  change (phys_to_frame 0) with 0.
  set (s1 := with_refcount s (drop_refcounts s 0 0)).
  assert (refcount s1 0 = 0) as Hr1.
  { unfold s1. rewrite refcount_drop by lia. rewrite decide_True by (unfold in_block; simpl; lia). by rewrite Hr. }
  change (seqZ 0 (Z.shiftl 1 0)) with [0]. cbn [existsb]. change (0 + 0) with 0. rewrite Hr1. cbn [negb orb Z.eqb].
  rewrite merge_stop; [reflexivity|]. change (buddy 0 0) with 1.
  intros Ho. apply Hn. exists 0, 1. split; [|simpl; lia]. apply (pi_binv _ _ Hp). split; [exact Ho|].
  unfold ord, PMM_MAX_ORDER. lia.
Qed.

Lemma pmm_free_null_faults_witness : exists s, demo_pmm = Some s /\ pmm_free_locked s 0 0 = None.
Proof.
  destruct demo_boot as (s & L & E & [Hp Hseed] & Hf). exists s. split; [exact E|].
  apply (pmm_free_null_faults s L Hp); [apply Hseed; rewrite Hf; lia|rewrite Hf; lia].
Defined.
