(* ===== verification/Vma.v ===== *)
(** * Virtual memory areas (kernel/mm/vma.c, vma.h)

    A process's mapping list, sorted and without overlaps, as the list of its
    [vma] records (the [next] pointers are the list order), with the placement
    cursor [mmap_next].  What an operation does outside the list is recorded in
    [log]: page-table calls of kernel/mm/paging.c, vnode references, freed frames.
    [heap] answers the calls of [kmalloc]: [None] when memory is out, otherwise
    the stale contents of the [vn] and [file_off] words of the new record.
    [map_ok va] tells whether [paging_map_into] finds the table frames it needs.
    Every definition is a section run under [mm_lock]; [vma_fault] drops it to
    read a file page, so it is the two sections [vma_fault_locked] and
    [vma_install_faulted_page_locked].

    The abstract view is [view l a]: protection, flags and, for a file mapping,
    vnode and file offset of the byte at [a].  Theorems: lookups, [munmap],
    [mmap], [mprotect] and [vma_range_mapped] against the view, the sortedness
    and W^X invariants, and counterexamples for the cases in which the code
    misses them. *)

From stdpp Require Import base numbers list.
From S2P Require Import Prelude.

Definition PROT_NONE : Z := 0.
Definition PROT_READ : Z := 1.
Definition PROT_WRITE : Z := 2.
Definition PROT_EXEC : Z := 4.
Definition MAP_SHARED : Z := 1.
Definition MAP_PRIVATE : Z := 2.
Definition MAP_FIXED : Z := 16.
Definition MAP_ANONYMOUS : Z := 32.
Abbreviation VMA_PHYS := 64.
Abbreviation VMA_FILE := 4096.
Abbreviation MMAP_BASE := 87960930222080.
Abbreviation MMAP_LIMIT := 105553116266496.
Definition PAGE : Z := 4096.

(** Page-table bits of kernel/mm/paging.h. *)
Definition PAGE_PRESENT : Z := 1.
Definition PAGE_WRITABLE : Z := 2.
Definition PAGE_USER : Z := 4.
Definition PAGE_NOFREE : Z := 1024.
Definition PAGE_NO_EXECUTE : Z := 9223372036854775808.

Record vma := Vma {
  start : Z;
  end_ : Z;
  prot : Z;
  flags : Z;
  vn : Z;                                    (* 0: no file *)
  file_off : Z;
}.

Inductive effect :=
  | EUnmap (lo hi : Z) (free_frames : bool)  (* unmap_range *)
  | ESetprot (lo hi pf : Z)                  (* paging_setprot_from on every page *)
  | EMap (va frame pf : Z)                   (* paging_map_into succeeded *)
  | EVnodeRef (vn : Z)
  | EVnodePut (vn : Z)
  | EPmmFree (frame : Z).

Record process := Process {
  vmas : list vma;
  mmap_next : Z;
  pml4_phys : Z;
  heap : list (option (Z * Z));
  log : list effect;                         (* newest first *)
}.

Definition has (x bit : Z) : bool := ctrue (Z.land x bit).

Definition set_end (e : Z) (v : vma) : vma := Vma (start v) e (prot v) (flags v) (vn v) (file_off v).
Definition set_start (s : Z) (v : vma) : vma := Vma s (end_ v) (prot v) (flags v) (vn v) (file_off v).
Definition set_off (o : Z) (v : vma) : vma := Vma (start v) (end_ v) (prot v) (flags v) (vn v) o.
Definition set_prot (x : Z) (v : vma) : vma := Vma (start v) (end_ v) x (flags v) (vn v) (file_off v).
Definition set_file (f o : Z) (v : vma) : vma := Vma (start v) (end_ v) (prot v) (flags v) f o.

Definition with_vmas (p : process) (l : list vma) : process :=
  Process l (mmap_next p) (pml4_phys p) (heap p) (log p).
Definition with_next (p : process) (n : Z) : process :=
  Process (vmas p) n (pml4_phys p) (heap p) (log p).
Definition emit (e : effect) (p : process) : process :=
  Process (vmas p) (mmap_next p) (pml4_phys p) (heap p) (e :: log p).

Definition kmalloc (p : process) : option (Z * Z) * process :=
  match heap p with
  | [] => (None, p)
  | r :: h => (r, Process (vmas p) (mmap_next p) (pml4_phys p) h (log p))
  end.

(** ** Lookup and insertion *)

Definition page_down (a : Z) : Z := Z.land a (u64 (Z.lnot 4095)).
Definition page_up (a : Z) : Z := Z.land (u64 (a + 4095)) (u64 (Z.lnot 4095)).

Fixpoint vma_find (l : list vma) (addr : Z) : option vma :=
  match l with
  | [] => None
  | v :: l => if (start v <=? addr) && (addr <? end_ v) then Some v
              else if addr <? start v then None
              else vma_find l addr
  end.

(** The areas that end at or before [s], and the rest. *)
Fixpoint before (s : Z) (l : list vma) : list vma * list vma :=
  match l with
  | v :: l' => if end_ v <=? s then let '(pre, suf) := before s l' in (v :: pre, suf) else ([], l)
  | [] => ([], [])
  end.

Definition vma_insert (p : process) (s e pr fl : Z) : bool * process :=
  let '(pre, suf) := before s (vmas p) in
  let mergeable := negb (has fl VMA_FILE) in
  let joins v := (prot v =? pr) && (flags v =? fl) in
  let fresh :=
    match kmalloc p with
    | (None, p') => (false, p')
    | (Some _, p') => (true, with_vmas p' (pre ++ Vma s e pr fl 0 0 :: suf))
    end in
  let forward :=
    match suf with
    | nx :: suf' => if mergeable && (start nx =? e) && joins nx
                    then (true, with_vmas p (pre ++ set_start s nx :: suf')) else fresh
    | [] => fresh
    end in
  match last pre with
  | Some prev =>
    if mergeable && (end_ prev =? s) && joins prev then
      let pre' := removelast pre in
      match suf with
      | nx :: suf' =>
        if (start nx =? e) && joins nx
        then (true, with_vmas p (pre' ++ set_end (end_ nx) prev :: suf'))
        else (true, with_vmas p (pre' ++ set_end e prev :: suf))
      | [] => (true, with_vmas p (pre' ++ [set_end e prev]))
      end
    else forward
  | None => forward
  end.

Definition unmap_range (p : process) (lo hi : Z) (free_frames : bool) : process :=
  if pml4_phys p =? 0 then p else emit (EUnmap lo hi free_frames) p.

(** ** munmap *)

(** The loop of vma_munmap_locked over the areas [l] still to visit; [rev_pre] are the
    ones before them, in reverse. *)
Fixpoint munmap_loop (p : process) (rev_pre l : list vma) (s e : Z) : Z * process :=
  match l with
  | [] => (0, with_vmas p (rev rev_pre))
  | v :: rest =>
    if end_ v <=? s then munmap_loop p (v :: rev_pre) rest s e
    else if e <=? start v then (0, with_vmas p (rev rev_pre ++ v :: rest))
    else
      let lo := if s <? start v then start v else s in
      let hi := if end_ v <? e then end_ v else e in
      let p := unmap_range p lo hi (negb (has (flags v) VMA_PHYS)) in
      let is_file := has (flags v) VMA_FILE && ctrue (vn v) in
      if (start v <? s) && (e <? end_ v) then
        match kmalloc p with
        | (None, p) => (- ENOMEM, with_vmas p (rev rev_pre ++ v :: rest))
        | (Some _, p) =>
          let tail := Vma e (end_ v) (prot v) (flags v) (if is_file then vn v else 0)
                          (if is_file then u64 (file_off v + (e - start v)) else 0) in
          let p := if is_file then emit (EVnodeRef (vn v)) p else p in
          (0, with_vmas p (rev rev_pre ++ set_end s v :: tail :: rest))
        end
      else if start v <? s then munmap_loop p (set_end s v :: rev_pre) rest s e
      else if e <? end_ v then
        let v' := if has (flags v) VMA_FILE then set_off (u64 (file_off v + (e - start v))) v else v in
        (0, with_vmas p (rev rev_pre ++ set_start e v' :: rest))
      else munmap_loop (if is_file then emit (EVnodePut (vn v)) p else p) rev_pre rest s e
  end.

Definition vma_munmap_locked (p : process) (addr len : Z) : Z * process :=
  if ctrue (Z.land addr 4095) then (- EINVAL, p)
  else
    let e := page_up (u64 (addr + len)) in
    if e <=? addr then (- EINVAL, p) else munmap_loop p [] (vmas p) addr e.

(** ** mmap *)

Definition writable_and_exec (pr : Z) : bool := has pr PROT_WRITE && has pr PROT_EXEC.

(** The placement part the three mmap variants share: MAP_FIXED replaces, otherwise
    the cursor advances. *)
Definition place (p : process) (addr len fl : Z) : (Z + Z) * process :=
  if has fl MAP_FIXED then
    if ctrue (Z.land addr 4095) then (inl (- EINVAL), p)
    else (inr addr, (vma_munmap_locked p addr len).2)
  else
    let addr := mmap_next p in
    if (MMAP_LIMIT <? u64 (addr + len)) || (u64 (addr + len) <? addr) then (inl (- ENOMEM), p)
    else (inr addr, with_next p (u64 (addr + len))).

Definition vma_mmap_locked (p : process) (addr len pr fl : Z) : Z * process :=
  if len =? 0 then (- EINVAL, p)
  else if writable_and_exec pr then (- EINVAL, p)
  else
    let len := page_up len in
    match place p addr len fl with
    | (inl rc, p) => (rc, p)
    | (inr addr, p) =>
      match vma_insert p addr (u64 (addr + len)) pr fl with
      | (false, p) => (- ENOMEM, p)
      | (true, p) => (i64 addr, p)
      end
    end.

(** Sets [vn] and [file_off] of the area that [vma_find] returns. *)
Fixpoint set_found (l : list vma) (addr f o : Z) : option (list vma) :=
  match l with
  | [] => None
  | v :: l => if (start v <=? addr) && (addr <? end_ v) then Some (set_file f o v :: l)
              else if addr <? start v then None
              else (cons v) <$> set_found l addr f o
  end.

Definition vma_mmap_file_locked (p : process) (addr len pr fl f off : Z) : Z * process :=
  if len =? 0 then (- EINVAL, p)
  else
    let len := page_up len in
    match place p addr len fl with
    | (inl rc, p) => (rc, p)
    | (inr addr, p) =>
      match vma_insert p addr (u64 (addr + len)) pr (Z.lor MAP_PRIVATE VMA_FILE) with
      | (false, p) => (- ENOMEM, p)
      | (true, p) =>
        match set_found (vmas p) addr f off with
        | None => (- ENOMEM, p)
        | Some l => (i64 addr, with_vmas p l)
        end
      end
    end.

Definition vma_mmap_file (p : process) (addr len pr fl f off : Z) : Z * process :=
  if f =? 0 then (- EBADF, p)
  else if has pr PROT_EXEC && has pr PROT_WRITE then (- EINVAL, p)
  else
    let '(rc, p) := vma_mmap_file_locked (emit (EVnodeRef f) p) addr len pr fl f off in
    if rc <? 0 then (rc, emit (EVnodePut f) p) else (rc, p).

Definition vma_register_image_segment (p : process) (s e pr : Z) : bool * process :=
  vma_insert p s e pr MAP_PRIVATE.

(** Eager mapping of one frame per page; on a failure the pages mapped so far are
    unmapped again.  [todo] are the pages left, [done_] the addresses mapped; [good] is
    the test on a frame that vma_map_frames_locked has and vma_map_phys_locked has not. *)
Fixpoint map_pages (p : process) (good map_ok : Z -> bool) (todo : list (Z * Z)) (done_ : list Z) (pf : Z) :
    bool * process :=
  match todo with
  | [] => (true, p)
  | (va, frame) :: todo =>
    if good frame && map_ok va then map_pages (emit (EMap va frame pf) p) good map_ok todo (va :: done_) pf
    else (false, foldr (fun va p => emit (EUnmap va (va + PAGE) false) p) p done_)
  end.

(** The common tail of vma_map_phys_locked and vma_map_frames_locked. *)
Definition map_eager (p : process) (good map_ok : Z -> bool) (pages : Z -> list (Z * Z)) (len pr : Z) : Z * process :=
  let addr := mmap_next p in
  if (MMAP_LIMIT <? u64 (addr + len)) || (u64 (addr + len) <? addr) then (- ENOMEM, p)
  else match vma_insert p addr (u64 (addr + len)) pr (Z.lor MAP_SHARED VMA_PHYS) with
  | (false, p) => (- ENOMEM, p)
  | (true, p) =>
    let p := with_next p (u64 (addr + len)) in
    let pf := Z.lor (Z.lor (Z.lor PAGE_USER PAGE_NO_EXECUTE) PAGE_NOFREE)
                    (if has pr PROT_WRITE then PAGE_WRITABLE else 0) in
    match map_pages p good map_ok (pages addr) [] pf with
    | (true, p) => (i64 addr, p)
    | (false, p) => (- ENOMEM, (vma_munmap_locked p addr len).2)
    end
  end.

Definition vma_map_phys_locked (p : process) (map_ok : Z -> bool) (phys len pr : Z) : Z * process :=
  if len =? 0 then (- EINVAL, p)
  else if has pr PROT_EXEC then (- EINVAL, p)
  else
    let len := page_up len in
    map_eager p (fun _ => true) map_ok
      (fun addr => (fun i => (addr + i * PAGE, phys + i * PAGE)) <$> seqZ 0 (len / PAGE)) len pr.

Definition vma_map_frames_locked (p : process) (map_ok : Z -> bool) (frames : list Z) (pr : Z) : Z * process :=
  let n := Z.of_nat (length frames) in
  if n =? 0 then (- EINVAL, p)
  else if has pr PROT_EXEC then (- EINVAL, p)
  else map_eager p ctrue map_ok (fun addr => zip ((fun i => addr + i * PAGE) <$> seqZ 0 n) frames)
         (u64 (n * PAGE)) pr.

(** ** mprotect *)

(** Splits an area; [None] if there is no memory for the second half, whose [vn] and
    [file_off] words keep what the heap left in them. *)
Definition vma_split_at (p : process) (v : vma) (at_ : Z) : option (vma * vma) * process :=
  match kmalloc p with
  | (None, p) => (None, p)
  | (Some (jvn, joff), p) =>
    (Some (set_end at_ v, Vma at_ (end_ v) (prot v) (flags v) jvn joff), p)
  end.

Definition pte_flags (pr : Z) : Z :=
  if pr =? PROT_NONE then 0
  else Z.lor (Z.lor (Z.lor PAGE_PRESENT PAGE_USER) (if has pr PROT_WRITE then PAGE_WRITABLE else 0))
             (if has pr PROT_EXEC then 0 else PAGE_NO_EXECUTE).

(** The loop of vma_mprotect_locked; [fuel] bounds its turns, of which an area takes
    at most two: whatever the list, [2 * length + 3] is enough ([mprotect_total]). *)
Fixpoint mprotect_loop (fuel : nat) (p : process) (rev_pre l : list vma) (s e pr : Z) : option (Z * process) :=
  match fuel with
  | O => None
  | S fuel =>
    match l with
    | [] => Some (0, with_vmas p (rev rev_pre))
    | v :: rest =>
      if end_ v <=? s then mprotect_loop fuel p (v :: rev_pre) rest s e pr
      else if e <=? start v then Some (0, with_vmas p (rev rev_pre ++ v :: rest))
      else if start v <? s then
        match vma_split_at p v s with
        | (None, p) => Some (- ENOMEM, with_vmas p (rev rev_pre ++ v :: rest))
        | (Some (v, tail), p) => mprotect_loop fuel p (v :: rev_pre) (tail :: rest) s e pr
        end
      else
        let '(split, p) := if e <? end_ v
                           then match vma_split_at p v e with
                                | (None, p) => (None, p)
                                | (Some (v, tail), p) => (Some (v, tail :: rest), p)
                                end
                           else (Some (v, rest), p) in
        match split with
        | None => Some (- ENOMEM, with_vmas p (rev rev_pre ++ v :: rest))
        | Some (v, rest) =>
          let v := set_prot pr v in
          let p := if pml4_phys p =? 0 then p else emit (ESetprot (start v) (end_ v) (pte_flags pr)) p in
          mprotect_loop fuel p (v :: rev_pre) rest s e pr
        end
    end
  end.

Definition vma_mprotect_locked (p : process) (addr len pr : Z) : option (Z * process) :=
  if ctrue (Z.land addr 4095) then Some (- EINVAL, p)
  else if len =? 0 then Some (0, p)
  else if writable_and_exec pr then Some (- EINVAL, p)
  else
    let e := page_up (u64 (addr + len)) in
    if e <=? addr then Some (- EINVAL, p)
    else mprotect_loop (2 * length (vmas p) + 3) p [] (vmas p) addr e pr.

(** ** Faults *)

Record vma_fault_io := FaultIo { io_vn : Z; io_file_off : Z; io_page_va : Z; io_prot : Z }.

Inductive fault_rc := SIGSEGV | HANDLED | NEEDS_IO (io : vma_fault_io) | NOMEM.

Definition user_flags (pr : Z) : Z :=
  Z.lor (Z.lor PAGE_USER (if has pr PROT_WRITE then PAGE_WRITABLE else 0))
        (if has pr PROT_EXEC then 0 else PAGE_NO_EXECUTE).

(** [frame] is what [pmm_alloc (0)] returns, 0 when no frame is free. *)
Definition vma_fault_locked (p : process) (map_ok : Z -> bool) (frame addr : Z) (write : bool) :
    fault_rc * process :=
  match vma_find (vmas p) addr with
  | None => (SIGSEGV, p)
  | Some v =>
    if prot v =? PROT_NONE then (SIGSEGV, p)
    else if write && negb (has (prot v) PROT_WRITE) then (SIGSEGV, p)
    else if has (flags v) VMA_PHYS then (SIGSEGV, p)
    else if has (flags v) VMA_FILE then
      if vn v =? 0 then (SIGSEGV, p)
      else (NEEDS_IO (FaultIo (vn v) (u64 (file_off v + (page_down addr - start v))) (page_down addr) (prot v)),
            emit (EVnodeRef (vn v)) p)
    else if frame =? 0 then (NOMEM, p)
    else if map_ok (page_down addr) then (HANDLED, emit (EMap (page_down addr) frame (user_flags (prot v))) p)
    else (NOMEM, emit (EPmmFree frame) p)
  end.

(** [present]: whether a page is already mapped at the address. *)
Definition vma_install_faulted_page_locked (p : process) (map_ok present : Z -> bool) (io : vma_fault_io)
    (frame : Z) : bool * process :=
  match vma_find (vmas p) (io_page_va io) with
  | None => (false, p)
  | Some v =>
    if negb (has (flags v) VMA_FILE) || negb (vn v =? io_vn io) then (false, p)
    else if negb (u64 (file_off v + (io_page_va io - start v)) =? io_file_off io) then (false, p)
    else if present (io_page_va io) then (false, p)
    else if map_ok (io_page_va io)
    then (true, emit (EMap (io_page_va io) frame (user_flags (io_prot io))) p)
    else (false, p)
  end.

(** ** Whole address spaces *)

Definition vma_destroy_all_locked (p : process) : process :=
  with_vmas
    (foldl (fun p v =>
              let p := unmap_range p (start v) (end_ v) (negb (has (flags v) VMA_PHYS)) in
              if has (flags v) VMA_FILE && ctrue (vn v) then emit (EVnodePut (vn v)) p else p)
           p (vmas p)) [].

(** Copies of the areas [l], or [None] when a [kmalloc] of [dst] fails; the references
    taken so far stay in the log. *)
Fixpoint copy_loop (dst : process) (l : list vma) : option (list vma) * process :=
  match l with
  | [] => (Some [], dst)
  | v :: l =>
    match kmalloc dst with
    | (None, dst) => (None, dst)
    | (Some _, dst) =>
      let is_file := has (flags v) VMA_FILE && ctrue (vn v) in
      let dst := if is_file then emit (EVnodeRef (vn v)) dst else dst in
      let c := Vma (start v) (end_ v) (prot v) (flags v) (if is_file then vn v else 0) (file_off v) in
      match copy_loop dst l with
      | (Some cs, dst) => (Some (c :: cs), dst)
      | (None, dst) => (None, dst)
      end
    end
  end.

Definition vma_copy_all (dst src : process) : bool * process :=
  match copy_loop dst (vmas src) with
  | (None, dst) => (false, with_vmas dst [])
  | (Some cs, dst) => (true, with_vmas (with_next dst (mmap_next src)) cs)
  end.

Definition vma_forget_all (p : process) : process := with_vmas p [].

(** ** Queries *)

Definition vma_mremap_locked (p : process) (old_addr old_size new_size fl : Z) : Z :=
  if ctrue fl then - EINVAL
  else if ctrue (Z.land old_addr 4095) then - EINVAL
  else if (old_size =? 0) || (new_size =? 0) then - EINVAL
  else
    let old_end := u64 (old_addr + page_up old_size) in
    let new_end := u64 (old_addr + page_up new_size) in
    match vma_find (vmas p) old_addr with
    | None => - EFAULT
    | Some v => if (end_ v <? old_end) || (end_ v <? new_end) then - ENOMEM else i64 old_addr
    end.

(** The loop of vma_range_mapped. *)
Fixpoint range_loop (fuel : nat) (l : list vma) (cursor e : Z) : option bool :=
  match fuel with
  | O => None
  | S fuel =>
    if cursor <? e then
      match vma_find l cursor with
      | None => Some false
      | Some v => range_loop fuel l (end_ v) e
      end
    else Some true
  end.

Definition vma_range_mapped (p : process) (addr len : Z) : option bool :=
  if len =? 0 then Some true
  else
    let e := u64 (addr + len) in
    if e <? addr then Some false else range_loop (S (length (vmas p))) (vmas p) addr e.

(** ** The abstract view *)

(** Areas are nonempty, in order and disjoint, from [lo] on. *)
Fixpoint sorted_from (lo : Z) (l : list vma) : Prop :=
  match l with
  | [] => True
  | v :: l => lo <= start v < end_ v /\ sorted_from (end_ v) l
  end.

Definition sorted (l : list vma) : Prop := sorted_from 0 l.

Definition is_file (v : vma) : bool := has (flags v) VMA_FILE && ctrue (vn v).

(** Protection, flags and file position of the byte at [a] of area [v]. *)
Definition attr (v : vma) (a : Z) : Z * Z * option (Z * Z) :=
  (prot v, flags v, if is_file v then Some (vn v, u64 (file_off v + (a - start v))) else None).

Definition view (l : list vma) (a : Z) : option (Z * Z * option (Z * Z)) :=
  match vma_find l a with Some v => Some (attr v a) | None => None end.

Definition in_area (v : vma) (a : Z) : bool := (start v <=? a) && (a <? end_ v).

Lemma find_below lo l a : sorted_from lo l -> a < lo -> vma_find l a = None.
Proof.
  revert lo. induction l as [|v l IH]; intros lo Hs Ha; [done|]. destruct Hs as [Hv Hs]. simpl.
  rewrite (proj2 (Z.leb_gt _ _)) by lia. simpl. by rewrite (proj2 (Z.ltb_lt _ _)) by lia.
Qed.

Lemma find_cons lo v l a :
  sorted_from lo (v :: l) -> vma_find (v :: l) a = if in_area v a then Some v else vma_find l a.
Proof.
  intros [Hv Hs]. simpl. fold (in_area v a). destruct (in_area v a); [done|].
  destruct (Z.ltb_spec a (start v)); [|done]. symmetry. eapply find_below; [done|lia].
Qed.

Lemma view_below lo l a : sorted_from lo l -> a < lo -> view l a = None.
Proof. intros. unfold view. by erewrite find_below. Qed.

Lemma view_cons lo v l a :
  sorted_from lo (v :: l) -> view (v :: l) a = if in_area v a then Some (attr v a) else view l a.
Proof. intros H. unfold view. rewrite (find_cons lo) by done. by destruct (in_area v a). Qed.

Lemma sorted_weaken lo lo' l : lo' <= lo -> sorted_from lo l -> sorted_from lo' l.
Proof. destruct l as [|v l]; simpl; [done|]. intros ? [? ?]. split; [lia|done]. Qed.

(** The view looks at an area through its attributes only. *)
Lemma attr_same v v' a :
  prot v' = prot v -> flags v' = flags v -> is_file v' = is_file v ->
  (is_file v = true -> vn v' = vn v /\ u64 (file_off v' + (a - start v')) = u64 (file_off v + (a - start v))) ->
  attr v' a = attr v a.
Proof.
  intros H1 H2 H3 H4. unfold attr. rewrite H1, H2, H3. destruct (is_file v); [|done].
  destruct (H4 eq_refl) as [-> ->]. done.
Qed.

Lemma u64_shift x y a b : x + a = y + b -> u64 (u64 x + a) = u64 (y + b).
Proof. intros E. unfold u64. rewrite Zplus_mod_idemp_l. by rewrite E. Qed.

(** ** munmap *)

Lemma kmalloc_fields p r p' :
  kmalloc p = (r, p') -> vmas p' = vmas p /\ mmap_next p' = mmap_next p /\ log p' = log p
  /\ pml4_phys p' = pml4_phys p /\ (r = None -> heap p = [] \/ exists h, heap p = None :: h).
Proof.
  unfold kmalloc. destruct (heap p) as [|[j|] h]; intros [= <- <-]; simpl; split_and!; try done; eauto.
Qed.

Lemma unmap_range_fields p lo hi b :
  vmas (unmap_range p lo hi b) = vmas p /\ mmap_next (unmap_range p lo hi b) = mmap_next p
  /\ heap (unmap_range p lo hi b) = heap p /\ pml4_phys (unmap_range p lo hi b) = pml4_phys p.
Proof. unfold unmap_range. by destruct (_ =? 0). Qed.

(** [l'] is [l] with the bytes of [s, e) taken out. *)
Definition cut (s e : Z) (l l' : list vma) : Prop :=
  forall a, view l' a = if (s <=? a) && (a <? e) then None else view l a.

(** Case analysis on the comparisons of a view equation. *)
Ltac view_cases :=
  unfold in_area in *; cbn [start end_ set_end set_start set_off set_prot set_file] in *;
  repeat match goal with
  | |- context [?x <=? ?y] => destruct (Z.leb_spec x y)
  | |- context [?x <? ?y] => destruct (Z.ltb_spec x y)
  end; cbn [andb] in *; try lia.

Lemma cut_skip lo s e v l l' :
  sorted_from lo (v :: l) -> sorted_from (end_ v) l' -> end_ v <= s -> cut s e l l' -> cut s e (v :: l) (v :: l').
Proof.
  intros Hs Hs' Hv Hc a. rewrite (view_cons lo v l) by done.
  rewrite (view_cons lo v l') by (destruct Hs; done). rewrite Hc.
  view_cases; done.
Qed.

Lemma cut_stop lo s e v l : sorted_from lo (v :: l) -> e <= start v -> cut s e (v :: l) (v :: l).
Proof.
  intros Hs Hv a. destruct ((s <=? a) && (a <? e)) eqn:E; [|done].
  apply andb_true_iff in E as [E1%Z.leb_le E2%Z.ltb_lt].
  apply (view_below (start v)); [|lia]. destruct Hs. split; [lia|done].
Qed.

Lemma cut_middle lo s e v tail l :
  sorted_from lo (v :: l) -> start v < s < e -> e < end_ v -> start tail = e -> end_ tail = end_ v ->
  (forall a, e <= a < end_ v -> attr tail a = attr v a) ->
  cut s e (v :: l) (set_end s v :: tail :: l) /\ sorted_from lo (set_end s v :: tail :: l).
Proof.
  intros Hs Hv He H1 H2 Ha. assert (sorted_from lo (set_end s v :: tail :: l)) as Hs'.
  { destruct Hs as [? Hs]. simpl. rewrite H1, H2. split; [lia|]. split; [lia|done]. }
  split; [|done]. intros a. rewrite (view_cons lo v l), (view_cons lo (set_end s v)) by done.
  rewrite (view_cons s tail l) by (by destruct Hs'). unfold in_area. rewrite H1, H2.
  change (attr (set_end s v) a) with (attr v a).
  destruct Hs as [_ Hs]. pose proof (fun H => view_below _ l a Hs H) as Hb.
  view_cases; try (rewrite Ha by lia); done || (rewrite Hb by lia; done) || idtac.
Qed.

Lemma cut_trim_tail lo s e v l l' :
  sorted_from lo (v :: l) -> start v < s -> s < end_ v -> end_ v <= e ->
  sorted_from (end_ v) l' -> cut s e l l' ->
  cut s e (v :: l) (set_end s v :: l') /\ sorted_from lo (set_end s v :: l').
Proof.
  intros Hs Hv He Hee Hs' Hc. assert (sorted_from lo (set_end s v :: l')) as Hs2.
  { destruct Hs as [? Hs]. simpl. split; [lia|]. apply (sorted_weaken (end_ v)); [lia|done]. }
  split; [|done]. intros a. rewrite (view_cons lo v l), (view_cons lo (set_end s v)) by done. rewrite Hc.
  change (attr (set_end s v) a) with (attr v a).
  destruct Hs as [_ Hs]. pose proof (fun H => view_below _ l a Hs H) as Hb.
  view_cases; done || (rewrite Hb by lia; done).
Qed.

Lemma cut_trim_head lo s e v v' l :
  sorted_from lo (v :: l) -> s <= start v -> start v < e -> e < end_ v -> start v' = e -> end_ v' = end_ v ->
  (forall a, e <= a < end_ v -> attr v' a = attr v a) ->
  cut s e (v :: l) (v' :: l) /\ sorted_from lo (v' :: l).
Proof.
  intros Hs Hv He Hee H1 H2 Ha. assert (sorted_from lo (v' :: l)) as Hs2.
  { destruct Hs as [? Hs]. simpl. rewrite H1, H2. split; [lia|done]. }
  split; [|done]. intros a. rewrite (view_cons lo v l), (view_cons lo v') by done. unfold in_area. rewrite H1, H2.
  destruct Hs as [_ Hs]. pose proof (fun H => view_below _ l a Hs H) as Hb.
  view_cases; try (rewrite Ha by lia); done || (rewrite Hb by lia; done).
Qed.

Lemma cut_drop lo s e v l l' :
  sorted_from lo (v :: l) -> s <= start v -> end_ v <= e -> cut s e l l' -> cut s e (v :: l) l'.
Proof. intros Hs Hv He Hc a. rewrite (view_cons lo v l), Hc by done. view_cases; done. Qed.

(** What a pass of the loop leaves of the areas [l]. *)
Record munmapped (p p' : process) (rp l : list vma) (s e lo rc : Z) (l' : list vma) : Prop := {
  mu_vmas : vmas p' = rev rp ++ l';
  mu_sorted : sorted_from lo l';
  mu_next : mmap_next p' = mmap_next p;
  mu_pml4 : pml4_phys p' = pml4_phys p;
  mu_cut : (rc = 0 /\ cut s e l l')
           \/ (rc = - ENOMEM /\ l' = l /\ lo < s /\ (heap p = [] \/ exists h, heap p = None :: h));
}.

(** The second half of an area that is cut in the middle. *)
Definition tail_of (v : vma) (e : Z) : vma :=
  Vma e (end_ v) (prot v) (flags v) (if is_file v then vn v else 0)
      (if is_file v then u64 (file_off v + (e - start v)) else 0).

Lemma tail_attr v e a : attr (tail_of v e) a = attr v a.
Proof.
  apply attr_same; try done; unfold tail_of; unfold is_file; simpl.
  - destruct (has (flags v) VMA_FILE); [|done]. simpl. by destruct (ctrue (vn v)) eqn:E.
  - intros ->. split; [done|]. apply u64_shift. lia.
Qed.

Lemma head_attr v e a :
  attr (set_start e (if has (flags v) VMA_FILE then set_off (u64 (file_off v + (e - start v))) v else v)) a
  = attr v a.
Proof.
  destruct (has (flags v) VMA_FILE) eqn:Ef.
  - apply attr_same; try done. intros _. split; [done|]. simpl. apply u64_shift. lia.
  - apply attr_same; try done. unfold is_file. rewrite Ef. done.
Qed.

Lemma munmap_middle p rp v l s e lo :
  s < e -> sorted_from lo (v :: l) -> start v < s -> e < end_ v ->
  exists rc p' l',
    (match kmalloc p with
     | (None, p) => (- ENOMEM, with_vmas p (rev rp ++ v :: l))
     | (Some _, p) =>
       (0, with_vmas (if is_file v then emit (EVnodeRef (vn v)) p else p)
                     (rev rp ++ set_end s v :: tail_of v e :: l))
     end) = (rc, p') /\ munmapped p p' rp (v :: l) s e lo rc l'.
Proof.
  intros Hse Hs Hv He. pose proof Hs as [Hv' _].
  destruct (kmalloc p) as [[j|] p2] eqn:Ek; apply kmalloc_fields in Ek as (K1 & K2 & _ & K3 & K4).
  - destruct (cut_middle lo s e v (tail_of v e) l Hs) as [Hc Hs']; try done.
    { intros a _. apply tail_attr. }
    eexists 0, _, (set_end s v :: tail_of v e :: l). split; [reflexivity|].
    split; try done; [| |by left]; destruct (is_file v); done.
  - eexists _, _, (v :: l). split; [reflexivity|]. split; try done. right. split_and!; try done; [lia|auto].
Qed.

Lemma munmapped_heap p p1 p' rp l s e lo rc l' :
  mmap_next p1 = mmap_next p -> pml4_phys p1 = pml4_phys p -> heap p1 = heap p ->
  munmapped p1 p' rp l s e lo rc l' -> munmapped p p' rp l s e lo rc l'.
Proof. intros H1 H2 H3 [M1 M2 M3 M4 M5]. split; try done; congruence || (by rewrite <- H3). Qed.

Lemma munmap_loop_ok p rp l s e lo :
  s < e -> sorted_from lo l ->
  exists rc p' l', munmap_loop p rp l s e = (rc, p') /\ munmapped p p' rp l s e lo rc l'.
Proof.
  intros Hse. revert p rp lo. induction l as [|v l IH]; intros p rp lo Hs.
  { eexists 0, _, []. split; [reflexivity|]. split; try done; [by rewrite app_nil_r|].
    left. split; [done|]. intros a. by destruct (_ && _). }
  cbn [munmap_loop]. pose proof Hs as [Hv Hl].
  destruct (Z.leb_spec (end_ v) s).
  { destruct (IH p (v :: rp) (end_ v) Hl) as (rc & p' & l' & -> & [M1 M2 M3 M4 M5]).
    exists rc, p', (v :: l'). split; [done|]. split; try done.
    - rewrite M1. simpl. by rewrite <- app_assoc.
    - destruct M5 as [[? ?]|(? & -> & ? & ?)]; [left; split; [done|by eapply cut_skip]|].
      right. split_and!; try done. lia. }
  destruct (Z.leb_spec e (start v)).
  { eexists 0, _, (v :: l). split; [reflexivity|]. split; try done. left. split; [done|by eapply cut_stop]. }
  match goal with |- context [unmap_range p ?lo' ?hi ?b] =>
    pose proof (unmap_range_fields p lo' hi b) as (_ & U2 & U3 & U4); set (p1 := unmap_range p lo' hi b) in * end.
  fold (is_file v).
  destruct (Z.ltb_spec (start v) s), (Z.ltb_spec e (end_ v)); cbn [andb].
  - destruct (munmap_middle p1 rp v l s e lo) as (rc & p' & l' & Em & M); try done.
    exists rc, p', l'. split; [exact Em|]. by apply (munmapped_heap p p1).
  - destruct (IH p1 (set_end s v :: rp) (end_ v) Hl) as (rc & p' & l' & -> & [M1 M2 M3 M4 M5]).
    destruct M5 as [[-> Hc]|(_ & _ & ? & _)]; [|lia].
    destruct (cut_trim_tail lo s e v l l' Hs) as [Hc' Hs']; try done.
    exists 0, p', (set_end s v :: l'). split; [done|].
    split; [rewrite M1; simpl; by rewrite <- app_assoc|done|congruence|congruence|by left].
  - destruct (cut_trim_head lo s e v
      (set_start e (if has (flags v) VMA_FILE then set_off (u64 (file_off v + (e - start v))) v else v)) l Hs)
      as [Hc Hs']; try done; [by destruct (has (flags v) VMA_FILE)|by intros; apply head_attr|].
    eexists 0, _, _. split; [reflexivity|]. split; try done. by left.
  - match goal with |- context [munmap_loop ?p2 rp l s e] =>
      destruct (IH p2 rp (end_ v) Hl) as (rc & p' & l' & -> & M); set (p2' := p2) in * end.
    exists rc, p', l'. split; [done|].
    assert (munmapped p p' rp l s e (end_ v) rc l') as [M1 M2 M3 M4 M5].
    { apply (munmapped_heap p p2'); try done; unfold p2'; by destruct (is_file v). }
    destruct M5 as [[-> Hc]|(_ & _ & ? & _)]; [|lia].
    split; try done; [apply (sorted_weaken (end_ v)); [lia|done]|]. left. split; [done|]. by eapply cut_drop.
Qed.

(** ** Insertion *)

Lemma sorted_app lo l k :
  sorted_from lo (l ++ k) <->
  sorted_from lo l /\ sorted_from (match last l with Some v => end_ v | None => lo end) k.
Proof.
  revert lo. induction l as [|v l IH]; intros lo; simpl; [tauto|]. rewrite IH.
  assert (match last l with Some w => end_ w | None => end_ v end
          = match last (v :: l) with Some w => end_ w | None => lo end) as ->
    by (rewrite last_cons; by destruct (last l)).
  tauto.
Qed.

Lemma view_app lo l k a :
  sorted_from lo (l ++ k) -> view (l ++ k) a = match view l a with Some x => Some x | None => view k a end.
Proof.
  revert lo. induction l as [|v l IH]; intros lo Hs; [done|]. simpl in Hs. pose proof Hs as [Hv Hl].
  change ((v :: l) ++ k) with (v :: (l ++ k)). rewrite (view_cons lo) by done.
  rewrite (view_cons lo v l). 2:{ split; [done|]. by apply sorted_app in Hl as [? _]. }
  destruct (in_area v a); [done|]. by eapply IH.
Qed.

Lemma before_spec s l :
  let '(pre, suf) := before s l in
  l = pre ++ suf /\ Forall (fun v => end_ v <= s) pre /\ match suf with v :: _ => s < end_ v | [] => True end.
Proof.
  induction l as [|v l IH]; [done|]. cbn [before]. destruct (Z.leb_spec (end_ v) s).
  - destruct (before s l) as [pre suf]. destruct IH as (-> & H1 & H2). split_and!; try done. by constructor.
  - done.
Qed.

(** [l'] is [l] with [s, e) mapped anonymously, with protection [pr] and flags [fl]. *)
Definition filled (s e pr fl : Z) (l l' : list vma) : Prop :=
  forall a, view l' a = if (s <=? a) && (a <? e) then Some (pr, fl, None) else view l a.

(** Putting an area that covers exactly [s, e) between [pre] and [suf]. *)
Lemma fill_between lo pre suf v s e :
  sorted_from lo (pre ++ suf) -> 0 <= lo -> lo <= s < e ->
  Forall (fun v => end_ v <= s) pre -> (forall w rest, suf = w :: rest -> e <= start w) ->
  start v = s -> end_ v = e -> is_file v = false ->
  filled s e (prot v) (flags v) (pre ++ suf) (pre ++ v :: suf) /\ sorted_from lo (pre ++ v :: suf).
Proof.
  intros Hs Hlo Hse Hpre Hsuf Hv1 Hv2 Hf. pose proof Hs as [Hs1 Hs2]%sorted_app.
  assert (sorted_from lo (pre ++ v :: suf)) as Hs'.
  { apply sorted_app. split; [done|]. simpl. rewrite Hv1, Hv2. split.
    - destruct (last pre) as [w|] eqn:E; [|lia]. apply last_Some in E as [l' ->].
      apply Forall_app in Hpre as [_ [Hw _]%Forall_cons]. lia.
    - destruct suf as [|w rest]; [done|]. specialize (Hsuf w rest eq_refl). destruct Hs2. split; [lia|done]. }
  split; [|done]. intros a. rewrite (view_app lo pre (v :: suf)), (view_app lo pre suf) by done.
  assert (sorted_from s (v :: suf)) as Hsv.
  { apply sorted_app in Hs' as [_ [? ?]]. split; [lia|]. done. }
  rewrite (view_cons s v suf) by done. unfold in_area. rewrite Hv1, Hv2.
  assert (s <= a -> view pre a = None) as Hp.
  { intros Ha. clear -Hpre Ha Hs1. revert lo Hs1. induction Hpre as [|w pre Hw _ IH]; intros lo Hs1; [done|].
    rewrite (view_cons lo) by done. unfold in_area. rewrite (proj2 (Z.ltb_ge _ _)) by lia. rewrite andb_false_r.
    destruct Hs1. by eapply IH. }
  assert (attr v a = (prot v, flags v, None)) as Ha by (unfold attr; by rewrite Hf).
  view_cases; rewrite ?Hp, ?Ha by lia; done.
Qed.

(** Growing an anonymous area over a free neighbouring range. *)
Lemma grow_area lo pre v v' suf s e :
  sorted_from lo (pre ++ v :: suf) -> sorted_from lo (pre ++ v' :: suf) ->
  prot v' = prot v -> flags v' = flags v -> has (flags v) VMA_FILE = false ->
  (forall a, in_area v' a = in_area v a || (s <=? a) && (a <? e)) ->
  (forall a, (s <=? a) && (a <? e) = true -> view (pre ++ v :: suf) a = None) ->
  filled s e (prot v) (flags v) (pre ++ v :: suf) (pre ++ v' :: suf).
Proof.
  intros Hs Hs' Hp Hf Hnf Hin Hfree a. specialize (Hfree a).
  rewrite (view_app lo) in Hfree |- * by done. rewrite (view_app lo pre (v :: suf)) by done.
  apply sorted_app in Hs as [_ Hs], Hs' as [_ Hs'].
  rewrite (view_cons _ v) in Hfree |- * by done. rewrite (view_cons _ v') by done. rewrite Hin.
  assert (forall w, flags w = flags v -> attr w a = (prot w, flags v, None)) as Hat.
  { intros w Hw. unfold attr, is_file. by rewrite Hw, Hnf. }
  rewrite (Hat v), (Hat v') by done. rewrite Hp.
  destruct ((s <=? a) && (a <? e)); [|by rewrite orb_false_r].
  rewrite orb_true_r. destruct (view pre a); [by discriminate Hfree|]. done.
Qed.

(** Joining two adjacent anonymous areas with the same attributes. *)
Lemma join_areas lo pre v w suf :
  sorted_from lo (pre ++ v :: w :: suf) -> end_ v = start w -> prot w = prot v -> flags w = flags v ->
  has (flags v) VMA_FILE = false ->
  sorted_from lo (pre ++ set_end (end_ w) v :: suf)
  /\ forall a, view (pre ++ set_end (end_ w) v :: suf) a = view (pre ++ v :: w :: suf) a.
Proof.
  intros Hs He Hp Hf Hnf. assert (sorted_from lo (pre ++ set_end (end_ w) v :: suf)) as Hs'.
  { apply sorted_app in Hs as [H1 (H2 & H3 & H4)]. apply sorted_app. split; [done|]. simpl. split; [lia|done]. }
  split; [done|]. intros a. rewrite !(view_app lo) by done. destruct (view pre a); [done|].
  apply sorted_app in Hs as [_ Hs], Hs' as [_ Hs']. rewrite (view_cons _ _ suf) by done.
  rewrite (view_cons _ v (w :: suf)) by done. pose proof Hs as [Hv Hw]. rewrite (view_cons _ w) by done.
  assert (attr w a = attr v a) as -> by (unfold attr, is_file; by rewrite Hp, Hf, Hnf).
  change (attr (set_end (end_ w) v) a) with (attr v a). destruct Hw as [Hw _].
  view_cases; done.
Qed.

Lemma suffix_after lo pre suf s e :
  sorted_from lo (pre ++ suf) -> s < e -> (forall a, s <= a < e -> view (pre ++ suf) a = None) ->
  match suf with v :: _ => s < end_ v | [] => True end ->
  forall w rest, suf = w :: rest -> e <= start w.
Proof.
  intros Hs Hse Hfree Hsuf w rest ->. destruct (Z.le_gt_cases e (start w)); [done|exfalso].
  specialize (Hfree (Z.max s (start w)) ltac:(lia)). rewrite (view_app lo) in Hfree by done.
  destruct (view pre _); [done|]. apply sorted_app in Hs as [_ Hs]. rewrite (view_cons _ w rest) in Hfree by done.
  unfold in_area in Hfree. destruct Hs. rewrite (proj2 (Z.leb_le _ _)), (proj2 (Z.ltb_lt _ _)) in Hfree by lia. done.
Qed.

Record inserted (p p' : process) (s e pr fl : Z) (ok : bool) : Prop := {
  in_next : mmap_next p' = mmap_next p;
  in_pml4 : pml4_phys p' = pml4_phys p;
  in_sorted : sorted (vmas p');
  in_view : (ok = true /\ filled s e pr fl (vmas p) (vmas p'))
            \/ (ok = false /\ vmas p' = vmas p /\ (heap p = [] \/ exists h, heap p = None :: h));
}.

Lemma vma_insert_ok p s e pr fl :
  sorted (vmas p) -> 0 <= s < e -> (forall a, s <= a < e -> view (vmas p) a = None) ->
  exists ok p', vma_insert p s e pr fl = (ok, p') /\ inserted p p' s e pr fl ok.
Proof.
  intros Hs Hse Hfree. unfold vma_insert. pose proof (before_spec s (vmas p)) as Hb.
  destruct (before s (vmas p)) as [pre suf]. destruct Hb as (El & Hpre & Hsuf). unfold sorted in *.
  rewrite El in Hs, Hfree. pose proof (suffix_after 0 pre suf s e Hs ltac:(lia) Hfree Hsuf) as Hafter.
  assert (forall a, (s <=? a) && (a <? e) = true -> view (pre ++ suf) a = None) as Hfree'.
  { intros a [E1%Z.leb_le E2%Z.ltb_lt]%andb_true_iff. by apply Hfree. }
  set (fresh := match kmalloc p with (None, p') => _ | _ => _ end).
  assert (exists ok p', fresh = (ok, p') /\ inserted p p' s e pr fl ok) as Hfresh.
  { unfold fresh. destruct (kmalloc p) as [[j|] p2] eqn:Ek; apply kmalloc_fields in Ek as (K1 & K2 & _ & K3 & K4).
    - destruct (fill_between 0 pre suf (Vma s e pr fl 0 0) s e) as [Hf Hs']; try done; try lia.
      { unfold is_file. simpl. by rewrite andb_false_r. }
      eexists true, _. split; [reflexivity|]. split; try done. left. split; [done|]. by rewrite El.
    - eexists false, p2. split; [reflexivity|]. split; try done; [by rewrite K1, El|]. right. auto. }
  set (forward := match suf with [] => fresh | nx :: suf' => _ end).
  assert (exists ok p', forward = (ok, p') /\ inserted p p' s e pr fl ok) as Hforward.
  { unfold forward. destruct suf as [|nx suf']; [done|].
    destruct (negb _ && (start nx =? e) && _) eqn:Ej; [|done].
    rewrite !andb_true_iff, negb_true_iff, !Z.eqb_eq in Ej. destruct Ej as [[Ej1 Ej2] [Ej3 Ej4]].
    assert (sorted_from 0 (pre ++ set_start s nx :: suf')) as Hs'.
    { apply sorted_app in Hs as [H1 [H2 H3]]. apply sorted_app. split; [done|]. simpl. split; [|done].
      destruct (last pre) as [w|] eqn:E; [|lia]. apply last_Some in E as [l' ->].
      apply Forall_app in Hpre as [_ [Hw _]%Forall_cons]. lia. }
    eexists true, _. split; [reflexivity|]. split; try done. left. split; [done|]. simpl. rewrite El, <- Ej3, <- Ej4.
    apply (grow_area 0); try done; [by rewrite Ej4|]. intros a. apply sorted_app in Hs as [_ [Hn _]]. view_cases; done. }
  destruct (last pre) as [prev|] eqn:Elast; [|done]. apply last_Some in Elast as [pre' ->].
  destruct (negb _ && (end_ prev =? s) && _) eqn:Ej; [|done].
  rewrite !andb_true_iff, negb_true_iff, !Z.eqb_eq in Ej. destruct Ej as [[Ej1 Ej2] [Ej3 Ej4]].
  rewrite removelast_last. rewrite <- app_assoc in *. cbn [app] in *.
  assert (sorted_from 0 (pre' ++ set_end e prev :: suf)) as Hs'.
  { apply sorted_app in Hs as [H1 [H2 H3]]. apply sorted_app. split; [done|]. simpl. split; [lia|].
    destruct suf as [|w rest]; [done|]. specialize (Hafter w rest eq_refl). destruct H3. split; [lia|done]. }
  assert (filled s e pr fl (pre' ++ prev :: suf) (pre' ++ set_end e prev :: suf)) as Hfill.
  { rewrite <- Ej3, <- Ej4. apply (grow_area 0); try done; [by rewrite Ej4|]. intros a.
    apply sorted_app in Hs as [_ [Hn _]]. view_cases; done. }
  destruct suf as [|nx suf']; [eexists true, _; split; [reflexivity|]; split; try done; left; by rewrite El|].
  destruct ((start nx =? e) && _) eqn:Ek.
  - rewrite !andb_true_iff, !Z.eqb_eq in Ek. destruct Ek as [Ek2 [Ek3 Ek4]].
    destruct (join_areas 0 pre' (set_end e prev) nx suf') as [Hs2 Hv2]; simpl; try done; try congruence.
    eexists true, _. split; [reflexivity|]. split; try done. left. split; [done|]. simpl. rewrite El.
    intros a. rewrite <- (Hfill a). exact (Hv2 a).
  - eexists true, _. split; [reflexivity|]. split; try done. left. by rewrite El.
Qed.

(** ** munmap and mmap *)

Lemma page_up_exact x : 0 <= x -> x + 4095 < 2 ^ 64 -> page_up x = (x + 4095) / 4096 * 4096.
Proof.
  intros H1 H2. unfold page_up. rewrite (u64_small (x + 4095)) by lia.
  change 4095 with (2 ^ 12 - 1) at 2. rewrite land_align by lia. change (2 ^ 12) with 4096. dlia.
Qed.

Lemma aligned_land a : ctrue (Z.land a 4095) = negb (a mod 4096 =? 0).
Proof. unfold ctrue. change 4095 with (Z.ones 12). by rewrite Z.land_ones by lia. Qed.

(** The end of a page-rounded range that does not reach the top of the address space. *)
Definition up (x : Z) : Z := (x + 4095) / 4096 * 4096.

Lemma munmap_ok p addr len :
  sorted (vmas p) -> 0 <= addr -> addr mod 4096 = 0 -> 0 < len -> addr + len <= 2 ^ 64 - 4096 ->
  exists rc p', vma_munmap_locked p addr len = (rc, p')
    /\ munmapped p p' [] (vmas p) addr (up (addr + len)) 0 rc (vmas p').
Proof.
  intros Hs H0 Ha Hl Hle. unfold vma_munmap_locked. rewrite aligned_land, Ha. cbn [Z.eqb negb].
  rewrite (u64_small (addr + len)) by lia. rewrite page_up_exact by lia. fold (up (addr + len)).
  assert (addr < up (addr + len)) by (unfold up; dlia). rewrite (proj2 (Z.leb_gt _ _)) by lia.
  destruct (munmap_loop_ok p [] (vmas p) addr (up (addr + len)) 0) as (rc & p' & l' & -> & M); [lia|done|].
  exists rc, p'. split; [done|]. pose proof (mu_vmas _ _ _ _ _ _ _ _ _ M) as E. simpl in E. by rewrite E.
Qed.

(** Only an area cut in its middle can fail. *)
Lemma munmap_nomem p rp l s e : fst (munmap_loop p rp l s e) = - ENOMEM -> exists v, v ∈ l /\ start v < s /\ e < end_ v.
Proof.
  revert p rp. induction l as [|v l IH]; intros p rp; [done|]. cbn [munmap_loop].
  assert (Hl : forall q rq, fst (munmap_loop q rq l s e) = - ENOMEM -> exists v0, v0 ∈ v :: l /\ start v0 < s /\ e < end_ v0).
  { intros q rq H. destruct (IH q rq H) as (w & Hw & ?). exists w. split; [by right|done]. }
  destruct (_ <=? s); [apply Hl|]. destruct (e <=? _); [done|].
  destruct (Z.ltb_spec (start v) s), (Z.ltb_spec e (end_ v)); cbn [andb]; try apply Hl; [|done].
  intros _. exists v. split; [by left|done].
Qed.

(** The new entries of the log unmap exactly the mapped bytes of [s, e), with the
    frames freed unless the byte belongs to a device mapping. *)
Definition swept (on : bool) (s e : Z) (l : list vma) (new : list effect) : Prop :=
  forall a b, (exists lo hi, EUnmap lo hi b ∈ new /\ lo <= a < hi) <->
    (on = true /\ s <= a < e /\ exists pr fl f, view l a = Some (pr, fl, f) /\ b = negb (has fl VMA_PHYS)).

Definition is_unmap (x : effect) : bool := match x with EUnmap _ _ _ => true | _ => false end.

Lemma swept_none on s e l lo new : sorted_from lo l -> e <= lo -> Forall (fun x => is_unmap x = false) new -> swept on s e l new.
Proof.
  intros Hs He Hn a b. split.
  - intros (x & y & Hin & _). rewrite Forall_forall in Hn. by specialize (Hn _ Hin).
  - intros (_ & Ha & pr & fl & f & Hv & _). rewrite (view_below lo) in Hv by (done || lia). done.
Qed.

Lemma swept_skip on s e v l lo new : sorted_from lo (v :: l) -> end_ v <= s -> swept on s e l new -> swept on s e (v :: l) new.
Proof.
  intros Hs Hv Hw a b. rewrite (Hw a b). rewrite (view_cons lo v l) by done. unfold in_area.
  split; intros (Ho & Ha & H); (split; [done|]; split; [done|]); rewrite (proj2 (Z.ltb_ge a (end_ v))), andb_false_r in * by lia; done.
Qed.

(** An area that meets the range: the call of [unmap_range], then [new] for the rest. *)
Lemma swept_area on s e v l lo new mid : sorted_from lo (v :: l) -> s < end_ v -> start v < e ->
  Forall (fun x => is_unmap x = false) mid -> swept on s e l new ->
  swept on s e (v :: l) (new ++ mid ++ (if on then [EUnmap (if s <? start v then start v else s) (if end_ v <? e then end_ v else e)
                                                       (negb (has (flags v) VMA_PHYS))] else [])).
Proof.
  intros Hs H1 H2 Hm Hw a b. pose proof Hs as [Hv Hl]. rewrite (view_cons lo v l) by done. split.
  - intros (x & y & [Hin|[Hin|Hin]%elem_of_app]%elem_of_app & Hxy).
    + destruct (proj1 (Hw a b) ltac:(eauto)) as (Ho & Ha & pr & fl & f & Hf & Hb). split; [done|]. split; [done|].
      destruct (in_area v a) eqn:E; [|by exists pr, fl, f]. exfalso. apply andb_true_iff in E as [_ E%Z.ltb_lt].
      rewrite (view_below (end_ v)) in Hf by done. done.
    + rewrite Forall_forall in Hm. by specialize (Hm _ Hin).
    + destruct on; [|by apply elem_of_nil in Hin]. apply list_elem_of_singleton in Hin as [= -> -> ->].
      assert (start v <= a < end_ v /\ s <= a < e) as [Ha1 Ha2] by (revert Hxy; zcases; lia).
      split; [done|]. split; [done|]. unfold in_area. rewrite (proj2 (Z.leb_le _ _)), (proj2 (Z.ltb_lt _ _)) by lia.
      eexists _, _, _. split; [reflexivity|done].
  - intros (Ho & Ha & pr & fl & f & Hf & Hb). destruct (in_area v a) eqn:E.
    + apply andb_true_iff in E as [E1%Z.leb_le E2%Z.ltb_lt]. injection Hf as _ <- _. subst on b.
      eexists _, _. split; [rewrite !elem_of_app; right; right; by left|]. zcases; lia.
    + destruct (proj2 (Hw a b)) as (x & y & Hin & Hxy); [eauto 7|]. exists x, y. split; [|done]. apply elem_of_app. by left.
Qed.

Lemma unmap_range_log p lo hi b : log (unmap_range p lo hi b) =
  (if negb (pml4_phys p =? 0) then [EUnmap lo hi b] else []) ++ log p.
Proof. unfold unmap_range. by destruct (_ =? 0). Qed.

Lemma munmap_swept p rp l s e lo : s < e -> sorted_from lo l ->
  exists new, log (snd (munmap_loop p rp l s e)) = new ++ log p /\ swept (negb (pml4_phys p =? 0)) s e l new.
Proof.
  intros Hse. revert p rp lo. induction l as [|v l IH]; intros p rp lo Hs.
  { exists []. split; [done|]. by apply (swept_none _ _ _ _ e). }
  pose proof Hs as [Hv Hl]. cbn [munmap_loop]. destruct (Z.leb_spec (end_ v) s).
  { destruct (IH p (v :: rp) (end_ v) Hl) as (new & E & Hw). exists new. split; [done|]. by eapply swept_skip. }
  destruct (Z.leb_spec e (start v)).
  { exists []. split; [done|]. apply (swept_none _ _ _ _ (start v)); [split; [lia|done]|done|done]. }
  set (x := if s <? start v then _ else _). set (y := if end_ v <? e then _ else _). set (b := negb (has _ _)).
  pose proof (unmap_range_log p x y b) as El. pose proof (unmap_range_fields p x y b) as (_ & _ & _ & Ep).
  revert El Ep. generalize (unmap_range p x y b) as p1. subst x y b. intros p1 El Ep. fold (is_file v).
  set (U := if negb (pml4_phys p =? 0) then _ else []) in El.
  assert (Hin : forall new mid, swept (negb (pml4_phys p =? 0)) s e l new -> Forall (fun x => is_unmap x = false) mid ->
    swept (negb (pml4_phys p =? 0)) s e (v :: l) (new ++ mid ++ U)) by (intros; by eapply swept_area).
  assert (Hlast : e < end_ v -> forall mid, Forall (fun x => is_unmap x = false) mid ->
    swept (negb (pml4_phys p =? 0)) s e (v :: l) (mid ++ U)).
  { intros He mid Hm. apply (Hin []); [|done]. apply (swept_none _ _ _ _ (end_ v)); [done|lia|done]. }
  destruct (Z.ltb_spec (start v) s), (Z.ltb_spec e (end_ v)); cbn [andb].
  - destruct (kmalloc p1) as [[j|] p2] eqn:Ek; apply kmalloc_fields in Ek as (_ & _ & K & _).
    + exists ((if is_file v then [EVnodeRef (vn v)] else []) ++ U). split; [|apply Hlast; [done|destruct (is_file v); by repeat constructor]].
      rewrite <- app_assoc, <- El. destruct (is_file v); cbn; by rewrite K.
    + exists ([] ++ U). split; [cbn; by rewrite K|by apply Hlast].
  - destruct (IH p1 (set_end s v :: rp) (end_ v) Hl) as (new & E & Hw). rewrite Ep in Hw. exists (new ++ [] ++ U).
    split; [rewrite E, El; by rewrite <- app_assoc|by apply Hin].
  - exists ([] ++ U). split; [done|by apply Hlast].
  - set (p2 := if is_file v then _ else p1). destruct (IH p2 rp (end_ v) Hl) as (new & E & Hw).
    assert (Ep2 : pml4_phys p2 = pml4_phys p) by (unfold p2; by destruct (is_file v)). rewrite Ep2 in Hw.
    exists (new ++ (if is_file v then [EVnodePut (vn v)] else []) ++ U).
    split; [|apply Hin; [done|destruct (is_file v); by repeat constructor]]. rewrite E, <- !app_assoc, <- El. unfold p2. by destruct (is_file v).
Qed.

(** C13: on a sorted list of areas, munmap of a page-aligned range that does not wrap takes exactly the bytes of the range, rounded up
    to whole pages, out of the address space: every other byte keeps its protection, its
    flags and its file position, and the list stays sorted.  It fails only when an area
    that reaches beyond both ends of the range has to be cut in its middle and there is no
    memory for the second half, with -ENOMEM and an unchanged list.  Either way, in a
    process that has page tables, every byte of the range that was mapped is unmapped
    from them and no other byte is, its frame being freed unless it belongs to a device. *)
Theorem vma_munmap_spec p addr len :
  sorted (vmas p) -> 0 <= addr -> addr mod 4096 = 0 -> 0 < len -> addr + len <= 2 ^ 64 - 4096 ->
  exists rc p' new, vma_munmap_locked p addr len = (rc, p')
    /\ sorted (vmas p') /\ mmap_next p' = mmap_next p
    /\ ((rc = 0 /\ cut addr (up (addr + len)) (vmas p) (vmas p'))
        \/ (rc = - ENOMEM /\ vmas p' = vmas p /\ fst (kmalloc p) = None
            /\ exists v, v ∈ vmas p /\ start v < addr /\ up (addr + len) < end_ v))
    /\ log p' = new ++ log p /\ swept (negb (pml4_phys p =? 0)) addr (up (addr + len)) (vmas p) new.
Proof.
  intros Hs H0 Ha Hl Hle. destruct (munmap_ok p addr len) as (rc & p' & E & [M1 M2 M3 M4 M5]); try done.
  unfold vma_munmap_locked in E |- *. revert E. rewrite aligned_land, Ha. cbn [Z.eqb negb].
  rewrite (u64_small (addr + len)) by lia. rewrite page_up_exact by lia. fold (up (addr + len)).
  assert (addr < up (addr + len)) by (unfold up; dlia). rewrite (proj2 (Z.leb_gt _ _)) by lia. intros E.
  destruct (munmap_swept p [] (vmas p) addr (up (addr + len)) 0) as (new & El & Hw); [done..|].
  pose proof (munmap_nomem p [] (vmas p) addr (up (addr + len))) as Hn. rewrite E in El, Hn. cbn [fst snd] in El, Hn.
  exists rc, p', new. split_and!; try done. destruct M5 as [?|(-> & ? & _ & Hh)]; [by left|right].
  split_and!; try done; [|by apply Hn]. unfold kmalloc. destruct Hh as [->|[h ->]]; done.
Qed.

Lemma vma_munmap_spec_witness :
  let p := Process [Vma 0x1000 0x9000 1 2 0 0] MMAP_BASE 0x7000 [Some (0, 0)] [] in
  exists rc p' new, vma_munmap_locked p 0x3000 0x1001 = (rc, p')
    /\ sorted (vmas p') /\ mmap_next p' = mmap_next p
    /\ ((rc = 0 /\ cut 0x3000 (up (0x3000 + 0x1001)) (vmas p) (vmas p'))
        \/ (rc = - ENOMEM /\ vmas p' = vmas p /\ fst (kmalloc p) = None
            /\ exists v, v ∈ vmas p /\ start v < 0x3000 /\ up (0x3000 + 0x1001) < end_ v))
    /\ log p' = new ++ log p /\ swept (negb (pml4_phys p =? 0)) 0x3000 (up (0x3000 + 0x1001)) (vmas p) new.
Proof.
  apply (vma_munmap_spec (Process [Vma 0x1000 0x9000 1 2 0 0] MMAP_BASE 0x7000 [Some (0, 0)] []));
    [repeat split; vm_compute; congruence|lia|reflexivity|lia|lia].
Defined.

Lemma filled_cut s e pr fl l l1 l2 : cut s e l l1 -> filled s e pr fl l1 l2 -> filled s e pr fl l l2.
Proof. intros H1 H2 a. rewrite H2, H1. by destruct (_ && _). Qed.

(** The start of every mmap variant: where the new range goes, and the list it meets. *)
Definition fixed_ok (addr len : Z) : Prop :=
  0 <= addr /\ addr mod 4096 = 0 /\ 0 < len /\ addr + len <= 2 ^ 63 - 8192.

Lemma up_bounds x : x <= up x < x + 4096.
Proof. unfold up. dlia. Qed.

Lemma up_shift a x : a mod 4096 = 0 -> up (a + up x) = a + up x /\ up (a + x) = a + up x.
Proof. unfold up. intros. dlia. Qed.

(** mmap with MAP_FIXED replaces: the bytes of the page-rounded range carry the new
    protection and flags, whatever was mapped there before, and all other bytes are as
    they were; should there be no memory for the new area the range is left unmapped and
    the call returns -ENOMEM.  The first allocation succeeds: when it fails, the range is
    not cleared and the list can lose its order (see vma_mmap_fixed_overlap). *)
Theorem vma_mmap_fixed_spec p addr len pr fl j h :
  sorted (vmas p) -> heap p = Some j :: h -> fixed_ok addr len -> has fl MAP_FIXED = true ->
  writable_and_exec pr = false ->
  exists rc p', vma_mmap_locked p addr len pr fl = (rc, p') /\ sorted (vmas p') /\ mmap_next p' = mmap_next p
    /\ ((rc = addr /\ filled addr (up (addr + len)) pr fl (vmas p) (vmas p'))
        \/ (rc = - ENOMEM /\ cut addr (up (addr + len)) (vmas p) (vmas p'))).
Proof.
  intros Hs Hh (H0 & Ha & Hl & Hle) Hfl Hwx. unfold vma_mmap_locked, place. rewrite Hfl, Hwx.
  rewrite (proj2 (Z.eqb_neq len 0)) by lia. rewrite aligned_land, Ha. cbn [Z.eqb negb].
  rewrite page_up_exact by lia. fold (up len). pose proof (up_bounds len). pose proof (up_shift addr len Ha) as [U1 U2].
  destruct (munmap_ok p addr (up len)) as (rc & p1 & -> & [M1 M2 M3 M4 M5]); try done; try lia.
  rewrite U1 in *. cbn [snd]. rewrite (u64_small (addr + up len)) by lia. rewrite U2.
  destruct M5 as [[-> Hc]|(_ & _ & _ & [E|[h' E]])]; [|congruence|congruence].
  destruct (vma_insert_ok p1 addr (addr + up len) pr fl) as (ok & p2 & -> & [I1 I2 I3 I4]); [done|lia| |].
  { intros a Hla. rewrite Hc. rewrite (proj2 (Z.leb_le _ _)), (proj2 (Z.ltb_lt _ _)) by lia. done. }
  destruct I4 as [[-> Hf]|(-> & E & _)].
  - eexists _, p2. split; [reflexivity|]. split_and!; try done; [congruence|]. left.
    split; [by rewrite i64_small by lia|]. by eapply filled_cut.
  - eexists _, p2. split; [reflexivity|]. split_and!; try done; [congruence|]. right. by rewrite E.
Qed.

Lemma vma_mmap_fixed_spec_witness :
  let p := Process [Vma 0x1000 0x9000 1 2 0 0] MMAP_BASE 0 [Some (0, 0); Some (0, 0)] [] in
  exists rc p', vma_mmap_locked p 0x3000 0x1001 3 0x32 = (rc, p') /\ sorted (vmas p') /\ mmap_next p' = MMAP_BASE
    /\ ((rc = 0x3000 /\ filled 0x3000 (up (0x3000 + 0x1001)) 3 0x32 (vmas p) (vmas p'))
        \/ (rc = - ENOMEM /\ cut 0x3000 (up (0x3000 + 0x1001)) (vmas p) (vmas p'))).
Proof.
  apply (vma_mmap_fixed_spec (Process [Vma 0x1000 0x9000 1 2 0 0] MMAP_BASE 0 [Some (0, 0); Some (0, 0)] [])
           0x3000 0x1001 3 0x32 (0, 0) [Some (0, 0)]);
    [repeat split; vm_compute; congruence|reflexivity|repeat split; lia|reflexivity|reflexivity].
Defined.

(** Nothing is mapped between the cursor and the limit of the mmap area. *)
Definition cursor_ok (p : process) : Prop :=
  MMAP_BASE <= mmap_next p <= MMAP_LIMIT /\ mmap_next p mod 4096 = 0
  /\ forall a, mmap_next p <= a < MMAP_LIMIT -> view (vmas p) a = None.

(** mmap without MAP_FIXED, while nothing is mapped ahead of the cursor, maps the
    page-rounded length at the cursor and nowhere else, and again nothing is mapped ahead
    of the new cursor; it fails with -ENOMEM exactly when the range does not fit below
    MMAP_LIMIT or there is no memory for the area, and then maps nothing. *)
Theorem vma_mmap_cursor_spec p addr len pr fl :
  sorted (vmas p) -> cursor_ok p -> 0 < len <= 2 ^ 47 -> has fl MAP_FIXED = false ->
  writable_and_exec pr = false ->
  exists rc p', vma_mmap_locked p addr len pr fl = (rc, p') /\ sorted (vmas p') /\ cursor_ok p'
    /\ ((rc = mmap_next p /\ mmap_next p' = mmap_next p + up len /\ mmap_next p' <= MMAP_LIMIT
         /\ filled (mmap_next p) (mmap_next p + up len) pr fl (vmas p) (vmas p'))
        \/ (rc = - ENOMEM /\ vmas p' = vmas p
            /\ (MMAP_LIMIT < mmap_next p + up len \/ fst (kmalloc p) = None))).
Proof.
  intros Hs (Hb & Hal & Hfree) Hl Hfl Hwx. unfold vma_mmap_locked, place. rewrite Hfl, Hwx.
  rewrite (proj2 (Z.eqb_neq len 0)) by lia. rewrite page_up_exact by lia. fold (up len).
  pose proof (up_bounds len).
  rewrite (u64_small (mmap_next p + up len)) by lia. rewrite (proj2 (Z.ltb_ge (mmap_next p + up len) _)) by lia.
  rewrite orb_false_r. destruct (Z.ltb_spec 105553116266496 (mmap_next p + up len)) as [Hbig|Hfit].
  { eexists _, p. split; [reflexivity|]. split; [done|]. split; [done|]. right. auto. }
  set (p1 := with_next p _). rewrite (u64_small (mmap_next p + up len)) by lia. assert (up len mod 4096 = 0) by (unfold up; dlia).
  destruct (vma_insert_ok p1 (mmap_next p) (mmap_next p + up len) pr fl) as (ok & p2 & -> & [I1 I2 I3 I4]);
    [done|lia|intros a Ha; apply Hfree; lia|]. cbn [mmap_next vmas heap p1 with_next] in *.
  assert (cursor_ok p2) as Hc.
  { split_and!; [rewrite I1; lia|rewrite I1; lia|rewrite I1; dlia|].
    intros a. rewrite I1. intros Ha. destruct I4 as [[_ Hf]|(_ & -> & _)]; [|apply Hfree; lia].
    rewrite Hf. rewrite (proj2 (Z.ltb_ge a _)) by lia. rewrite andb_false_r. apply Hfree. lia. }
  destruct I4 as [[-> Hf]|(-> & E & Hk)].
  - eexists _, p2. split; [reflexivity|]. split_and!; try done. left. rewrite i64_small by lia. split_and!; try done. lia.
  - eexists _, p2. split; [reflexivity|]. split_and!; try done. right. split_and!; try done.
    right. unfold kmalloc. destruct Hk as [->|[h ->]]; done.
Qed.

Lemma vma_mmap_cursor_spec_witness :
  let p := Process [Vma 0x1000 0x9000 1 2 0 0] MMAP_BASE 0 [Some (0, 0)] [] in
  exists rc p', vma_mmap_locked p 0 0x1001 3 0x22 = (rc, p') /\ sorted (vmas p') /\ cursor_ok p'
    /\ ((rc = mmap_next p /\ mmap_next p' = mmap_next p + up 0x1001 /\ mmap_next p' <= MMAP_LIMIT
         /\ filled (mmap_next p) (mmap_next p + up 0x1001) 3 0x22 (vmas p) (vmas p'))
        \/ (rc = - ENOMEM /\ vmas p' = vmas p
            /\ (MMAP_LIMIT < mmap_next p + up 0x1001 \/ fst (kmalloc p) = None))).
Proof.
  apply (vma_mmap_cursor_spec (Process [Vma 0x1000 0x9000 1 2 0 0] MMAP_BASE 0 [Some (0, 0)] []));
    [repeat split; vm_compute; congruence| |lia|reflexivity|reflexivity].
  split; [vm_compute; split; congruence|]. split; [reflexivity|].
  intros a Ha. cbn [mmap_next vmas] in *. unfold view, vma_find. cbn [start end_].
  rewrite (proj2 (Z.ltb_ge a _)), andb_false_r, (proj2 (Z.ltb_ge a _)) by lia. done.
Defined.

(** A mapping placed with MAP_FIXED just ahead of the cursor. *)
Definition ahead : process :=
  snd (vma_mmap_locked (Process [] MMAP_BASE 0 (replicate 8 (Some (0, 0))) []) (MMAP_BASE + PAGE) PAGE PROT_READ
         (Z.lor MAP_PRIVATE MAP_FIXED)).

(** the cursor is not moved past a mapping that MAP_FIXED placed ahead of it, so a later
    mmap of two pages without MAP_FIXED succeeds over that mapping: the list holds two areas
    for the same page, and the page that was mapped read-only answers with the newer
    mapping's protection. *)
Theorem vma_mmap_overlaps_fixed :
  let '(rc, p') := vma_mmap_locked ahead 0 (2 * PAGE) (Z.lor PROT_READ PROT_WRITE) MAP_PRIVATE in
  rc = MMAP_BASE /\ ~ sorted (vmas p')
  /\ view (vmas ahead) (MMAP_BASE + PAGE) = Some (PROT_READ, Z.lor MAP_PRIVATE MAP_FIXED, None)
  /\ view (vmas p') (MMAP_BASE + PAGE) = Some (Z.lor PROT_READ PROT_WRITE, MAP_PRIVATE, None)
  /\ length (filter (fun v => in_area v (MMAP_BASE + PAGE) = true) (vmas p')) = 2%nat.
Proof.
  vm_compute. split_and!; try reflexivity. intros (_ & [H _] & _). by apply H.
Qed.

(** the result of clearing the range of a MAP_FIXED mapping is ignored: when the one
    allocation that splitting the old area needs fails and the next one succeeds, the new
    area is inserted over the old one and mmap reports success. *)
Theorem vma_mmap_fixed_overlap :
  let p := Process [Vma 0x1000 0x9000 1 2 0 0] MMAP_BASE 0 [None; Some (0, 0)] [] in
  let '(rc, p') := vma_mmap_locked p 0x3000 PAGE 3 (Z.lor MAP_PRIVATE MAP_FIXED) in
  rc = 0x3000 /\ ~ sorted (vmas p').
Proof. vm_compute. split; [reflexivity|]. intros (_ & [H _] & _). by apply H. Qed.

(** ** mprotect *)

Definition pview (l : list vma) (a : Z) : option (Z * Z) := fst <$> view l a.

Lemma pview_cons lo v l a :
  sorted_from lo (v :: l) -> pview (v :: l) a = if in_area v a then Some (prot v, flags v) else pview l a.
Proof. intros H. unfold pview. rewrite (view_cons lo) by done. by destruct (in_area v a). Qed.

Lemma pview_below lo l a : sorted_from lo l -> a < lo -> pview l a = None.
Proof. intros. unfold pview. by erewrite view_below. Qed.

(** [l'] is [l] with protection [pr] on the mapped bytes of [s, b). *)
Definition reprot (s b pr : Z) (l l' : list vma) : Prop :=
  forall a, pview l' a = if (s <=? a) && (a <? b) then (fun x => (pr, snd x)) <$> pview l a else pview l a.

Lemma reprot_nothing s b pr l lo : sorted_from lo l -> b <= lo \/ b <= s -> reprot s b pr l l.
Proof.
  intros Hs Hb a. destruct ((s <=? a) && (a <? b)) eqn:E; [|done].
  apply andb_true_iff in E as [E1%Z.leb_le E2%Z.ltb_lt]. rewrite (pview_below lo) by (done || lia). done.
Qed.

Lemma reprot_cons s b pr v l l' lo :
  sorted_from lo (v :: l) -> sorted_from (end_ v) l' -> s <= start v -> end_ v <= b -> reprot s b pr l l' ->
  reprot s b pr (v :: l) (set_prot pr v :: l').
Proof.
  intros Hs Hs' H1 H2 Hr a. pose proof Hs as [Hv Hl]. rewrite (pview_cons lo v l) by done.
  rewrite (pview_cons lo (set_prot pr v) l') by done. change (in_area (set_prot pr v) a) with (in_area v a).
  rewrite Hr. unfold in_area. view_cases; done.
Qed.

Lemma reprot_skip s b pr v l l' lo :
  sorted_from lo (v :: l) -> sorted_from (end_ v) l' -> end_ v <= s -> reprot s b pr l l' ->
  reprot s b pr (v :: l) (v :: l').
Proof.
  intros Hs Hs' H1 Hr a. pose proof Hs as [Hv Hl]. rewrite (pview_cons lo v l), (pview_cons lo v l'), Hr by done.
  unfold in_area. view_cases; done.
Qed.

(** Splitting an area in two changes neither protection nor flags of any byte. *)
Lemma split_same lo v l at_ j1 j2 :
  sorted_from lo (v :: l) -> start v < at_ < end_ v ->
  sorted_from lo (set_end at_ v :: Vma at_ (end_ v) (prot v) (flags v) j1 j2 :: l)
  /\ forall a, pview (set_end at_ v :: Vma at_ (end_ v) (prot v) (flags v) j1 j2 :: l) a = pview (v :: l) a.
Proof.
  intros Hs Ha. assert (sorted_from lo (set_end at_ v :: Vma at_ (end_ v) (prot v) (flags v) j1 j2 :: l)) as Hs'.
  { destruct Hs. simpl. split; [lia|]. split; [lia|done]. }
  split; [done|]. intros a. rewrite (pview_cons lo) by done. rewrite (pview_cons at_) by (by destruct Hs').
  rewrite (pview_cons lo v l) by done. destruct Hs as [? _]. unfold in_area. view_cases; done.
Qed.

(** What the loop leaves of [l]: the new protection on [s, b), where [b] is the end of the
    range unless memory ran out. *)
Definition mprotected (p p' : process) (rp l : list vma) (s e pr lo rc : Z) : Prop :=
  exists l' b, vmas p' = rev rp ++ l' /\ sorted_from lo l' /\ mmap_next p' = mmap_next p
    /\ reprot s b pr l l' /\ s <= b <= e /\ (rc = 0 /\ b = e \/ rc = - ENOMEM).

Lemma vma_split_ok p v at_ r p' :
  vma_split_at p v at_ = (r, p') ->
  mmap_next p' = mmap_next p
  /\ match r with
     | None => True
     | Some (v1, tail) => v1 = set_end at_ v /\ exists j1 j2, tail = Vma at_ (end_ v) (prot v) (flags v) j1 j2
     end.
Proof.
  unfold vma_split_at. destruct (kmalloc p) as [[[j1 j2]|] p2] eqn:E;
    apply kmalloc_fields in E as (_ & K & _); intros [= <- <-]; eauto 6.
Qed.

Lemma emit_fields b x p : mmap_next (if (b : bool) then p else emit x p) = mmap_next p.
Proof. by destruct b. Qed.

Ltac parts :=
  split_and!; try done; try lia; try (by left); try (by right);
  try (by rewrite app_nil_r); try (by rewrite <- app_assoc).

(** From the first area at or above [s] on. *)
Lemma mprotect_above fuel p rp l s e pr lo :
  sorted_from lo l -> s <= lo <= e -> (length l < fuel)%nat ->
  exists rc p' l' b, mprotect_loop fuel p rp l s e pr = Some (rc, p')
    /\ vmas p' = rev rp ++ l' /\ sorted_from lo l' /\ mmap_next p' = mmap_next p
    /\ reprot s b pr l l' /\ lo <= b <= e /\ (rc = 0 /\ b = e \/ rc = - ENOMEM).
Proof.
  revert p rp l lo. induction fuel as [|fuel IH]; intros p rp l lo Hs Hlo Hf; [lia|]. cbn [mprotect_loop].
  destruct l as [|v l].
  { eexists _, _, [], e. split; [reflexivity|]. parts.
    intros a. by destruct (_ && _). }
  cbn [length] in Hf. pose proof Hs as [Hv Hl]. rewrite (proj2 (Z.leb_gt _ _)) by lia.
  destruct (Z.leb_spec e (start v)).
  { eexists _, _, (v :: l), e. split; [reflexivity|]. parts.
    apply (reprot_nothing _ _ _ _ (start v)); [|lia]. split; [lia|done]. }
  rewrite (proj2 (Z.ltb_ge (start v) s)) by lia. destruct (Z.ltb_spec e (end_ v)).
  - destruct (vma_split_at p v e) as [[[v1 tail]|] p2] eqn:Esp; apply vma_split_ok in Esp as [Hn Esp].
    + destruct Esp as (-> & j1 & j2 & ->).
      destruct (split_same lo v l e j1 j2 Hs) as [Hs2 Hp]; [lia|].
      match goal with |- context [mprotect_loop fuel ?q ?rp' (?t :: l) s e pr] =>
        set (q' := q); assert (mprotect_loop fuel q' rp' (t :: l) s e pr = Some (0, with_vmas q' (rev rp' ++ t :: l)))
          as -> by (destruct fuel; [lia|]; cbn [mprotect_loop end_ start];
                    rewrite (proj2 (Z.leb_gt (end_ v) s)) by lia; by rewrite Z.leb_refl) end.
      eexists _, _, (set_prot pr (set_end e v) :: Vma e (end_ v) (prot v) (flags v) j1 j2 :: l), e.
      split; [reflexivity|].
      parts.
      * simpl. by rewrite <- app_assoc.
      * unfold q'. cbn [mmap_next with_vmas]. by rewrite emit_fields.
      * intros a. rewrite <- Hp. revert a.
        apply (reprot_cons _ _ _ _ _ _ lo); try done; try (by destruct Hs2); try (simpl; lia).
        apply (reprot_nothing _ _ _ _ e); [by destruct Hs2|lia].
    + eexists _, _, (v :: l), (start v). split; [reflexivity|]. parts.
      apply (reprot_nothing _ _ _ _ (start v)); [|lia]. split; [lia|done].
  - match goal with |- context [mprotect_loop fuel ?q ?rp' l s e pr] =>
      destruct (IH q rp' l (end_ v) Hl) as (rc & p' & l' & b & -> & H1 & H2 & H3 & H4 & H5 & H6); [lia|lia|] end.
    eexists _, _, (set_prot pr v :: l'), b. split; [reflexivity|].
    parts.
    + rewrite H1. simpl. by rewrite <- app_assoc.
    + rewrite H3. apply emit_fields.
    + apply (reprot_cons _ _ _ _ _ _ lo); done || lia.
Qed.

Lemma mprotect_loop_ok fuel p rp l s e pr lo :
  s < e -> sorted_from lo l -> (S (length l) < fuel)%nat ->
  exists rc p', mprotect_loop fuel p rp l s e pr = Some (rc, p') /\ mprotected p p' rp l s e pr lo rc.
Proof.
  intros Hse. revert p rp l lo. induction fuel as [|fuel IH]; intros p rp l lo Hs Hf; [lia|].
  destruct (decide (s <= lo /\ lo <= e)) as [Hlo|Hlo].
  { destruct (mprotect_above (S fuel) p rp l s e pr lo) as (rc & p' & l' & b & E & H1 & H2 & H3 & H4 & H5 & H6);
      [done|lia|lia|]. exists rc, p'. split; [done|]. exists l', b. split_and!; done || lia. }
  destruct l as [|v l].
  { cbn [mprotect_loop]. eexists _, _. split; [reflexivity|]. exists [], e.
    parts. intros a. by destruct (_ && _). }
  cbn [length] in Hf. pose proof Hs as [Hv Hl]. destruct (decide (s <= start v)) as [Hsv|Hsv].
  { destruct (decide (start v <= e)).
    - destruct (mprotect_above (S fuel) p rp (v :: l) s e pr (start v))
        as (rc & p' & l' & b & E & H1 & H2 & H3 & H4 & H5 & H6); [split; [lia|done]|lia|simpl; lia|].
      exists rc, p'. split; [done|]. exists l', b. parts. apply (sorted_weaken (start v)); [lia|done].
    - cbn [mprotect_loop]. rewrite (proj2 (Z.leb_gt _ _)), (proj2 (Z.leb_le _ _)) by lia.
      eexists _, _. split; [reflexivity|]. exists (v :: l), e. parts.
      apply (reprot_nothing _ _ _ _ (start v)); [|lia]. split; [lia|done]. }
  cbn [mprotect_loop]. destruct (Z.leb_spec (end_ v) s).
  { destruct (IH p (v :: rp) l (end_ v) Hl) as (rc & p' & -> & l' & b & H1 & H2 & H3 & H4 & H5 & H6); [lia|].
    exists rc, p'. split; [done|]. exists (v :: l'), b. parts.
    - rewrite H1. simpl. by rewrite <- app_assoc.
    - by apply (reprot_skip _ _ _ _ _ _ lo). }
  rewrite (proj2 (Z.leb_gt e _)), (proj2 (Z.ltb_lt _ s)) by lia.
  destruct (vma_split_at p v s) as [[[v1 tail]|] p2] eqn:Esp; apply vma_split_ok in Esp as [Hn Esp].
  - destruct Esp as (-> & j1 & j2 & ->). destruct (split_same lo v l s j1 j2 Hs) as [Hs2 Hp]; [lia|].
    match goal with |- context [mprotect_loop fuel ?q ?rp' ?l2 s e pr] =>
      destruct (mprotect_above fuel q rp' l2 s e pr s) as (rc & p' & l' & b & -> & H1 & H2 & H3 & H4 & H5 & H6);
        [by destruct Hs2|lia|simpl; lia|] end.
    exists rc, p'. split; [done|]. exists (set_end s v :: l'), b. parts.
    + rewrite H1. simpl. by rewrite <- app_assoc.
    + simpl. split; [lia|done].
    + intros a. rewrite <- Hp. revert a. apply (reprot_skip _ _ _ _ _ _ lo); done.
  - eexists _, _. split; [reflexivity|]. exists (v :: l), s. parts.
    apply (reprot_nothing _ _ _ _ lo); [done|lia].
Qed.

(** mprotect of a page-aligned range gives every mapped byte of the page-rounded range
    the new protection, leaves the flags, every byte outside the range and the set of mapped
    bytes alone, and keeps the list sorted.  If an allocation fails it returns -ENOMEM with
    the new protection on an initial part [addr, b) of the range only.  The loop always
    ends. *)
Theorem vma_mprotect_spec p addr len pr :
  sorted (vmas p) -> 0 <= addr -> addr mod 4096 = 0 -> 0 < len -> addr + len <= 2 ^ 64 - 4096 ->
  writable_and_exec pr = false ->
  exists rc p' b, vma_mprotect_locked p addr len pr = Some (rc, p')
    /\ sorted (vmas p') /\ mmap_next p' = mmap_next p
    /\ reprot addr b pr (vmas p) (vmas p') /\ addr <= b <= up (addr + len)
    /\ (rc = 0 /\ b = up (addr + len) \/ rc = - ENOMEM).
Proof.
  intros Hs H0 Ha Hl Hle Hwx. unfold vma_mprotect_locked. rewrite aligned_land, Ha, Hwx. cbn [Z.eqb negb].
  rewrite (proj2 (Z.eqb_neq len 0)) by lia. rewrite (u64_small (addr + len)) by lia. rewrite page_up_exact by lia.
  fold (up (addr + len)). pose proof (up_bounds (addr + len)). rewrite (proj2 (Z.leb_gt _ _)) by lia.
  destruct (mprotect_loop_ok (2 * length (vmas p) + 3) p [] (vmas p) addr (up (addr + len)) pr 0)
    as (rc & p' & -> & l' & b & H1 & H2 & H3 & H4 & H5 & H6); [lia|done|lia|].
  exists rc, p', b. simpl in H1. rewrite H1. parts.
Qed.

Lemma vma_mprotect_spec_witness :
  let p := Process [Vma 0x1000 0x9000 1 2 0 0] MMAP_BASE 0 [Some (0, 0); Some (0, 0)] [] in
  exists rc p' b, vma_mprotect_locked p 0x3000 0x1001 3 = Some (rc, p')
    /\ sorted (vmas p') /\ mmap_next p' = mmap_next p
    /\ reprot 0x3000 b 3 (vmas p) (vmas p') /\ 0x3000 <= b <= up (0x3000 + 0x1001)
    /\ (rc = 0 /\ b = up (0x3000 + 0x1001) \/ rc = - ENOMEM).
Proof.
  apply (vma_mprotect_spec (Process [Vma 0x1000 0x9000 1 2 0 0] MMAP_BASE 0 [Some (0, 0); Some (0, 0)] []));
    [repeat split; vm_compute; congruence|lia|reflexivity|lia|lia|reflexivity].
Defined.

(** mprotect of the second page of a file mapping hands that page to whatever the heap
    left in the new record: the vnode and offset of the area split off are never set, so
    whatever words [jvn] and [joff] the allocation returns become its file. *)
Theorem vma_mprotect_loses_file jvn joff :
  let p := Process [Vma 0x1000 0x3000 PROT_READ (Z.lor MAP_PRIVATE VMA_FILE) 7 0] MMAP_BASE 0 [Some (jvn, joff)] [] in
  exists p', vma_mprotect_locked p 0x2000 PAGE PROT_READ = Some (0, p')
    /\ view (vmas p) 0x2000 = Some (PROT_READ, Z.lor MAP_PRIVATE VMA_FILE, Some (7, 0x1000))
    /\ vma_find (vmas p') 0x2000 = Some (Vma 0x2000 0x3000 PROT_READ (Z.lor MAP_PRIVATE VMA_FILE) jvn joff).
Proof. eexists. split; [reflexivity|]. split; reflexivity. Qed.

(** ** vma_range_mapped *)

Lemma find_in lo l a v : sorted_from lo l -> vma_find l a = Some v -> v ∈ l /\ lo <= start v <= a /\ a < end_ v.
Proof.
  revert lo. induction l as [|w l IH]; intros lo Hs Hf; [done|]. rewrite (find_cons lo) in Hf by done.
  destruct Hs as [Hw Hl]. destruct (in_area w a) eqn:E.
  - injection Hf as <-. apply andb_true_iff in E as [E1%Z.leb_le E2%Z.ltb_lt]. split; [apply elem_of_cons; auto|lia].
  - destruct (IH _ Hl Hf) as (? & ? & ?). split; [apply elem_of_cons; auto|lia].
Qed.

(** The areas that end after [c]. *)
Definition remaining (l : list vma) (c : Z) : nat := length (filter (fun v => c < end_ v) l).

Lemma remaining_drop l c v : v ∈ l -> c < end_ v -> (remaining l (end_ v) < remaining l c)%nat.
Proof.
  intros Hv Hc. induction l as [|w l IH]; [by apply elem_of_nil in Hv|].
  assert (remaining l (end_ v) <= remaining l c)%nat as Hle.
  { clear -Hc. unfold remaining. induction l as [|w l IH]; [done|]. rewrite !filter_cons.
    destruct (decide (end_ v < end_ w)), (decide (c < end_ w)); simpl; lia. }
  unfold remaining in *. rewrite !filter_cons. apply elem_of_cons in Hv as [->|Hv].
  - rewrite decide_False, decide_True by lia. simpl. lia.
  - specialize (IH Hv). destruct (decide (end_ v < end_ w)), (decide (c < end_ w)); simpl; lia.
Qed.

Lemma range_loop_ok fuel l c e :
  sorted l -> (remaining l c < fuel)%nat ->
  exists b, range_loop fuel l c e = Some b /\ (b = true <-> forall a, c <= a < e -> is_Some (vma_find l a)).
Proof.
  intros Hs. revert c. induction fuel as [|fuel IH]; intros c Hf; [lia|]. cbn [range_loop].
  destruct (Z.ltb_spec c e) as [Hc|Hc]; [|exists true; split; [done|]; split; [lia|done]].
  destruct (vma_find l c) as [v|] eqn:Ev.
  2:{ exists false. split; [done|]. split; [done|]. intros H. specialize (H c ltac:(lia)). rewrite Ev in H. by destruct H. }
  destruct (find_in _ _ _ _ Hs Ev) as (Hin & Hv & Hv'). pose proof (remaining_drop l c v Hin ltac:(lia)).
  destruct (IH (end_ v)) as (b & -> & Hb); [lia|]. exists b. split; [done|]. rewrite Hb. split; intros H' a Ha.
  - destruct (Z.lt_ge_cases a (end_ v)); [|apply H'; lia]. exists v.
    clear -Hs Ev Ha H0 Hv. unfold sorted in Hs. revert Hs Ev. generalize 0. induction l as [|w l IH]; intros lo Hs Ev; [done|].
    rewrite (find_cons lo) in Ev |- * by done. destruct Hs as [Hw Hl]. destruct (in_area w c) eqn:E1.
    + injection Ev as ->. unfold in_area. rewrite (proj2 (Z.leb_le _ _)), (proj2 (Z.ltb_lt _ _)) by lia. done.
    + destruct (find_in _ _ _ _ Hl Ev) as (_ & ? & _). unfold in_area. rewrite (proj2 (Z.ltb_ge a (end_ w))) by lia.
      rewrite andb_false_r. by eapply IH.
  - apply H'. lia.
Qed.

(** vma_range_mapped, which the system calls use to check a user range, terminates and
    answers true exactly when every byte of the range is mapped, for a range that does not
    wrap around the address space; a range that wraps is refused. *)
Theorem vma_range_mapped_spec p addr len :
  sorted (vmas p) -> 0 <= addr < 2 ^ 64 -> 0 <= len < 2 ^ 64 ->
  exists b, vma_range_mapped p addr len = Some b
    /\ (b = true <-> (len = 0 \/ addr + len < 2 ^ 64) /\ forall a, addr <= a < addr + len -> is_Some (view (vmas p) a)).
Proof.
  intros Hs Ha Hl. unfold vma_range_mapped.
  assert (forall a, is_Some (view (vmas p) a) <-> is_Some (vma_find (vmas p) a)) as Hv.
  { intros a. unfold view. destruct (vma_find _ a); split; eauto; by intros []. }
  destruct (Z.eqb_spec len 0) as [->|Hn]; [exists true; split; [done|]; split; [|done]; split; [by left|lia]|].
  destruct (Z.lt_ge_cases (addr + len) (2 ^ 64)) as [Hw|Hw].
  - rewrite u64_small by lia. rewrite (proj2 (Z.ltb_ge _ _)) by lia.
    destruct (range_loop_ok (S (length (vmas p))) (vmas p) addr (addr + len) Hs) as (b & -> & Hb).
    { unfold remaining. pose proof (length_filter (fun v => addr < end_ v) (vmas p)). lia. }
    exists b. split; [done|]. rewrite Hb. split; [intros H; split; [by right|]|intros [_ H]]; intros a Hr; by apply Hv, H.
  - assert (u64 (addr + len) = addr + len - 2 ^ 64) as -> by (unfold u64; change W64 with (2 ^ 64); dlia).
    rewrite (proj2 (Z.ltb_lt _ _)) by lia. exists false. split; [done|]. split; [done|]. intros [[?|?] _]; lia.
Qed.

Lemma vma_range_mapped_spec_witness :
  let p := Process [Vma 0x1000 0x3000 1 2 0 0; Vma 0x3000 0x5000 3 2 0 0] MMAP_BASE 0 [] [] in
  exists b, vma_range_mapped p 0x1800 0x3000 = Some b
    /\ (b = true <-> (0x3000 = 0 \/ 0x1800 + 0x3000 < 2 ^ 64)
                     /\ forall a, 0x1800 <= a < 0x1800 + 0x3000 -> is_Some (view (vmas p) a)).
Proof.
  apply (vma_range_mapped_spec (Process [Vma 0x1000 0x3000 1 2 0 0; Vma 0x3000 0x5000 3 2 0 0] MMAP_BASE 0 [] []));
    [repeat split; vm_compute; congruence|lia|lia].
Defined.

(** ** W^X *)

Definition pte_wx (pf : Z) : bool := has pf PAGE_WRITABLE && negb (has pf PAGE_NO_EXECUTE).

Definition area_safe (v : vma) : Prop := writable_and_exec (prot v) = false.

Definition effect_safe (x : effect) : Prop :=
  match x with ESetprot _ _ pf | EMap _ _ pf => pte_wx pf = false | _ => True end.

Definition wx_safe (p : process) : Prop := Forall area_safe (vmas p) /\ Forall effect_safe (log p).

(** The operations of a process on its address space; [OpInstall] completes the [k]-th
    outstanding file fault. *)
Inductive op :=
  | OpMmap (addr len pr fl : Z)
  | OpMmapFile (addr len pr fl f off : Z)
  | OpMunmap (addr len : Z)
  | OpMprotect (addr len pr : Z)
  | OpMapPhys (map_ok : Z -> bool) (phys len pr : Z)
  | OpMapFrames (map_ok : Z -> bool) (frames : list Z) (pr : Z)
  | OpRegister (s e pr : Z)
  | OpFault (map_ok : Z -> bool) (frame addr : Z) (write : bool)
  | OpInstall (map_ok present : Z -> bool) (k : nat) (frame : Z)
  | OpDestroy.

Definition space : Type := process * list vma_fault_io.

Definition exec (o : op) (sp : space) : option space :=
  let '(p, ios) := sp in
  match o with
  | OpMmap addr len pr fl => Some (snd (vma_mmap_locked p addr len pr fl), ios)
  | OpMmapFile addr len pr fl f off => Some (snd (vma_mmap_file p addr len pr fl f off), ios)
  | OpMunmap addr len => Some (snd (vma_munmap_locked p addr len), ios)
  | OpMprotect addr len pr => (fun r => (snd r, ios)) <$> vma_mprotect_locked p addr len pr
  | OpMapPhys map_ok phys len pr => Some (snd (vma_map_phys_locked p map_ok phys len pr), ios)
  | OpMapFrames map_ok frames pr => Some (snd (vma_map_frames_locked p map_ok frames pr), ios)
  | OpRegister s e pr => Some (snd (vma_register_image_segment p s e pr), ios)
  | OpFault map_ok frame addr write =>
    let '(rc, p) := vma_fault_locked p map_ok frame addr write in
    Some (p, match rc with NEEDS_IO io => ios ++ [io] | _ => ios end)
  | OpInstall map_ok present k frame =>
    match ios !! k with
    | None => Some sp
    | Some io => Some (snd (vma_install_faulted_page_locked p map_ok present io frame), delete k ios)
    end
  | OpDestroy => Some (vma_destroy_all_locked p, ios)
  end.

Fixpoint run (os : list op) (sp : space) : option space :=
  match os with
  | [] => Some sp
  | o :: os => match exec o sp with Some sp => run os sp | None => None end
  end.

Lemma user_flags_wx pr : writable_and_exec pr = false -> pte_wx (user_flags pr) = false.
Proof.
  unfold writable_and_exec, user_flags. by destruct (has pr PROT_WRITE), (has pr PROT_EXEC).
Qed.

Lemma pte_flags_wx pr : writable_and_exec pr = false -> pte_wx (pte_flags pr) = false.
Proof.
  unfold writable_and_exec, pte_flags. destruct (pr =? PROT_NONE); [done|].
  by destruct (has pr PROT_WRITE), (has pr PROT_EXEC).
Qed.

Lemma kmalloc_safe p : wx_safe p -> wx_safe (snd (kmalloc p)).
Proof. unfold kmalloc. by destruct (heap p). Qed.

Lemma emit_safe p x : effect_safe x -> wx_safe p -> wx_safe (emit x p).
Proof. intros Hx [H1 H2]. split; [done|]. by constructor. Qed.

Lemma with_vmas_safe p l : Forall area_safe l -> wx_safe p -> wx_safe (with_vmas p l).
Proof. intros Hl [_ H]. by split. Qed.

Lemma with_next_safe p n : wx_safe p -> wx_safe (with_next p n).
Proof. by intros [H1 H2]. Qed.

Lemma unmap_range_safe p lo hi b : wx_safe p -> wx_safe (unmap_range p lo hi b).
Proof. intros H. unfold unmap_range. destruct (_ =? 0); [done|]. by apply emit_safe. Qed.

Create HintDb wx.
#[export] Hint Resolve kmalloc_safe emit_safe with_vmas_safe with_next_safe unmap_range_safe : wx.

Lemma insert_safe p s e pr fl :
  writable_and_exec pr = false -> wx_safe p -> wx_safe (snd (vma_insert p s e pr fl)).
Proof.
  intros Hpr Hp. pose proof Hp as [Hl Hg]. unfold vma_insert. pose proof (before_spec s (vmas p)) as Hb.
  destruct (before s (vmas p)) as [pre suf]. destruct Hb as (El & _). rewrite El in Hl. apply Forall_app in Hl as [H1 H2].
  assert (wx_safe (snd (match kmalloc p with
                        | (None, p') => (false, p')
                        | (Some _, p') => (true, with_vmas p' (pre ++ Vma s e pr fl 0 0 :: suf)) end))) as Hfresh.
  { pose proof (kmalloc_safe p Hp) as Hk. destruct (kmalloc p) as [[j|] p']; simpl in *; [|done].
    apply with_vmas_safe; [|done]. apply Forall_app. split; [done|]. by constructor. }
  assert (forall nx suf', suf = nx :: suf' -> wx_safe (with_vmas p (pre ++ set_start s nx :: suf'))) as Hfw.
  { intros nx suf' ->. apply with_vmas_safe; [|done]. apply Forall_app. split; [done|].
    apply Forall_cons in H2 as [? ?]. by constructor. }
  destruct (last pre) as [prev|] eqn:Elast.
  2:{ destruct suf; [done|]. destruct (negb _ && _ && _); [by apply Hfw|done]. }
  destruct (negb _ && _ && _); [|destruct suf; [done|]; destruct (negb _ && _ && _); [by apply Hfw|done]].
  apply last_Some in Elast as [pre' ->]. rewrite removelast_last. apply Forall_app in H1 as [H1 H1'].
  apply Forall_cons in H1' as [Hpv _].
  assert (forall x k, Forall area_safe k -> wx_safe (with_vmas p (pre' ++ set_end x prev :: k))) as Hbw.
  { intros x k Hk. apply with_vmas_safe; [|done]. apply Forall_app. split; [done|]. by constructor. }
  destruct suf as [|nx suf']; [by apply Hbw|]. destruct (_ && _); apply Hbw; [by apply Forall_cons in H2 as [_ ?]|done].
Qed.

Lemma Forall_rev_app {A} (P : A -> Prop) l k : Forall P l -> Forall P k -> Forall P (rev l ++ k).
Proof. intros Hl Hk. apply Forall_app. split; [by apply Forall_rev|done]. Qed.

Lemma munmap_safe p rp l s e :
  wx_safe p -> Forall area_safe rp -> Forall area_safe l -> wx_safe (snd (munmap_loop p rp l s e)).
Proof.
  revert p rp. induction l as [|v l IH]; intros p rp Hp Hr Hl; cbn [munmap_loop].
  { apply with_vmas_safe; [by apply Forall_rev|done]. }
  pose proof Hl as [Hv Hl']%Forall_cons.
  destruct (end_ v <=? s); [apply IH; try done; by constructor|].
  destruct (e <=? start v); [apply with_vmas_safe; [by apply Forall_rev_app|done]|].
  match goal with |- context [unmap_range p ?lo' ?hi ?b] =>
    pose proof (unmap_range_safe p lo' hi b Hp) as Hp1; set (p1 := unmap_range p lo' hi b) in * end.
  destruct ((start v <? s) && _).
  - pose proof (kmalloc_safe p1 Hp1) as Hk. destruct (kmalloc p1) as [[j|] p2]; simpl in Hk |- *.
    + apply with_vmas_safe; [apply Forall_rev_app; [done|]; constructor; [done|]; by constructor|].
      destruct (_ && _); [by apply emit_safe|done].
    + apply with_vmas_safe; [by apply Forall_rev_app|done].
  - destruct (start v <? s); [apply IH; try done; by constructor|].
    destruct (e <? end_ v).
    + apply with_vmas_safe; [|done]. apply Forall_rev_app; [done|]. constructor; [|done]. by destruct (has (flags v) VMA_FILE).
    + apply IH; try done. destruct (_ && _); [by apply emit_safe|done].
Qed.

Lemma munmap_locked_safe p addr len : wx_safe p -> wx_safe (snd (vma_munmap_locked p addr len)).
Proof.
  intros Hp. unfold vma_munmap_locked. destruct (ctrue _); [done|]. destruct (_ <=? _); [done|].
  apply munmap_safe; [done|constructor|apply Hp].
Qed.

Lemma place_safe p addr len fl : wx_safe p -> wx_safe (snd (place p addr len fl)).
Proof.
  intros Hp. unfold place. destruct (has fl MAP_FIXED).
  - destruct (ctrue _); [done|]. by apply munmap_locked_safe.
  - destruct (_ || _); [done|]. by apply with_next_safe.
Qed.

Lemma mmap_safe p addr len pr fl : wx_safe p -> wx_safe (snd (vma_mmap_locked p addr len pr fl)).
Proof.
  intros Hp. unfold vma_mmap_locked. destruct (len =? 0); [done|]. destruct (writable_and_exec pr) eqn:Ewx; [done|].
  pose proof (place_safe p addr (page_up len) fl Hp) as Hpl. destruct (place _ _ _ _) as [[rc|a] p1]; [done|].
  match goal with |- context [vma_insert p1 ?s ?e pr fl] =>
    pose proof (insert_safe p1 s e pr fl Ewx Hpl) as Hi; by destruct (vma_insert p1 s e pr fl) as [[] p2] end.
Qed.

Lemma set_found_safe l a f o l' : set_found l a f o = Some l' -> Forall area_safe l -> Forall area_safe l'.
Proof.
  revert l'. induction l as [|v l IH]; intros l' E Hl; simpl in E; [done|]. apply Forall_cons in Hl as [Hv Hl].
  destruct (_ && _); [injection E as <-; by constructor|]. destruct (_ <? _); [done|].
  apply fmap_Some in E as (l2 & E & ->). constructor; [done|]. by apply IH.
Qed.

Lemma mmap_file_safe p addr len pr fl f off : wx_safe p -> wx_safe (snd (vma_mmap_file p addr len pr fl f off)).
Proof.
  intros Hp. unfold vma_mmap_file. destruct (f =? 0); [done|]. rewrite andb_comm.
  destruct (has pr PROT_WRITE && has pr PROT_EXEC) eqn:Ewx; [done|].
  assert (wx_safe (snd (vma_mmap_file_locked (emit (EVnodeRef f) p) addr len pr fl f off))) as Hm.
  { pose proof (emit_safe p (EVnodeRef f) I Hp) as Hp1. revert Hp1. generalize (emit (EVnodeRef f) p) as q. intros q Hq.
    unfold vma_mmap_file_locked. destruct (len =? 0); [done|].
    pose proof (place_safe q addr (page_up len) fl Hq) as Hpl. destruct (place _ _ _ _) as [[rc|a] p1]; [done|].
    match goal with |- context [vma_insert p1 ?s ?e pr ?g] =>
      pose proof (insert_safe p1 s e pr g Ewx Hpl) as Hi; destruct (vma_insert p1 s e pr g) as [[] p2] end; [|done].
    destruct (set_found (vmas p2) a f off) as [l|] eqn:E; [|done]. apply with_vmas_safe; [|done].
    eapply set_found_safe; [done|]. apply Hi. }
  destruct (vma_mmap_file_locked _ _ _ _ _ _ _) as [rc p1]. simpl in Hm. destruct (rc <? 0); [|done]. by apply emit_safe.
Qed.

Lemma map_pages_safe p good ok todo done_ pf :
  pte_wx pf = false -> wx_safe p -> wx_safe (snd (map_pages p good ok todo done_ pf)).
Proof.
  intros Hpf. revert p done_. induction todo as [|[va fr] todo IH]; intros p done_ Hp; [done|]. cbn [map_pages].
  destruct (_ && _); [apply IH; by apply emit_safe|]. cbn [snd].
  induction done_ as [|d done_ IHd]; [done|]. simpl. by apply emit_safe.
Qed.

Lemma map_eager_safe p good ok pages len pr :
  has pr PROT_EXEC = false -> wx_safe p -> wx_safe (snd (map_eager p good ok pages len pr)).
Proof.
  intros Hx Hp. unfold map_eager. destruct (_ || _); [done|].
  match goal with |- context [vma_insert p ?s ?e pr ?g] =>
    pose proof (insert_safe p s e pr g) as Hi; destruct (vma_insert p s e pr g) as [[] p1] end;
    (assert (wx_safe p1) as Hp1 by (apply Hi; [unfold writable_and_exec; by rewrite Hx, andb_false_r|done])); [|done].
  match goal with |- context [map_pages ?q good ok ?t [] ?pf] =>
    pose proof (map_pages_safe q good ok t [] pf) as Hm; destruct (map_pages q good ok t [] pf) as [[] p2] end;
    (assert (wx_safe p2) as Hp2 by (apply Hm; [by destruct (has pr PROT_WRITE)|by apply with_next_safe])); [done|].
  by apply munmap_locked_safe.
Qed.

Lemma split_safe p v at_ :
  wx_safe p -> area_safe v ->
  let '(r, p') := vma_split_at p v at_ in
  wx_safe p' /\ match r with Some (v1, v2) => area_safe v1 /\ area_safe v2 | None => True end.
Proof.
  intros Hp Hv. unfold vma_split_at. pose proof (kmalloc_safe p Hp). by destruct (kmalloc p) as [[[j1 j2]|] p2].
Qed.

Lemma mprotect_safe fuel p rp l s e pr rc p' :
  writable_and_exec pr = false -> wx_safe p -> Forall area_safe rp -> Forall area_safe l ->
  mprotect_loop fuel p rp l s e pr = Some (rc, p') -> wx_safe p'.
Proof.
  intros Hpr. revert p rp l. induction fuel as [|fuel IH]; intros p rp l Hp Hr Hl; [done|]. cbn [mprotect_loop].
  destruct l as [|v l]; [intros [= <- <-]; apply with_vmas_safe; [by apply Forall_rev|done]|].
  pose proof Hl as [Hv Hl']%Forall_cons.
  destruct (end_ v <=? s); [apply IH; try done; by constructor|].
  destruct (e <=? start v); [intros [= <- <-]; apply with_vmas_safe; [by apply Forall_rev_app|done]|].
  destruct (start v <? s).
  { pose proof (split_safe p v s Hp Hv) as Hsp. destruct (vma_split_at p v s) as [[[v1 v2]|] p1].
    - destruct Hsp as (? & ? & ?). apply IH; try done; by constructor.
    - intros [= <- <-]. apply with_vmas_safe; [by apply Forall_rev_app|apply Hsp]. }
  assert (forall q v1 k, wx_safe q -> Forall area_safe k ->
    mprotect_loop fuel (if pml4_phys q =? 0 then q else emit (ESetprot (start v1) (end_ v1) (pte_flags pr)) q)
      (set_prot pr v1 :: rp) k s e pr = Some (rc, p') -> wx_safe p') as Hgo.
  { intros q v1 k Hq Hk. apply IH; try done; [|by constructor]. destruct (_ =? 0); [done|].
    apply emit_safe; [by apply pte_flags_wx|done]. }
  destruct (e <? end_ v); [|by apply (Hgo p v)].
  pose proof (split_safe p v e Hp Hv) as Hsp. destruct (vma_split_at p v e) as [[[v1 v2]|] p1].
  - destruct Hsp as (? & ? & ?). apply (Hgo p1 v1); [done|by constructor].
  - intros [= <- <-]. apply with_vmas_safe; [by apply Forall_rev_app|apply Hsp].
Qed.

(** The turns the areas [l] can take. *)
Fixpoint turns (s : Z) (l : list vma) : nat :=
  match l with [] => 0 | v :: l => (if start v <? s then 2 else 1) + turns s l end.

Lemma turns_length s l : (turns s l <= 2 * length l)%nat.
Proof. induction l as [|v l IH]; cbn [turns length]; [lia|]. destruct (_ <? _); lia. Qed.

(** The loop ends on every list, sorted or not. *)
Lemma mprotect_loop_total fuel p rp l s e pr : s < e -> (S (turns s l) < fuel)%nat -> is_Some (mprotect_loop fuel p rp l s e pr).
Proof.
  intros Hse. revert p rp l. induction fuel as [|fuel IH]; intros p rp l Hf; [lia|]. cbn [mprotect_loop].
  destruct l as [|v l]; [done|]. cbn [turns] in Hf. assert (Hl : (S (turns s l) < fuel)%nat) by (destruct (_ <? _) in Hf; lia).
  destruct (Z.leb_spec (end_ v) s); [by apply IH|]. destruct (e <=? start v); [done|].
  destruct (Z.ltb_spec (start v) s).
  { unfold vma_split_at. destruct (kmalloc p) as [[[j1 j2]|] p1]; [|done]. apply IH. cbn [turns start].
    rewrite Z.ltb_irrefl. lia. }
  destruct (Z.ltb_spec e (end_ v)); [|by apply IH]. unfold vma_split_at. destruct (kmalloc p) as [[[j1 j2]|] p1]; [|done].
  destruct fuel as [|fuel]; [lia|]. cbn [mprotect_loop end_ start]. rewrite (proj2 (Z.leb_gt (end_ v) s)), Z.leb_refl by lia. done.
Qed.

Lemma mprotect_total p addr len pr : is_Some (vma_mprotect_locked p addr len pr).
Proof.
  unfold vma_mprotect_locked. do 3 (case_match; [done|]). destruct (Z.leb_spec (page_up (u64 (addr + len))) addr); [done|].
  apply mprotect_loop_total; [done|]. pose proof (turns_length addr (vmas p)). lia.
Qed.

Lemma find_safe l a v : Forall area_safe l -> vma_find l a = Some v -> area_safe v.
Proof.
  induction 1 as [|w l Hw _ IH]; simpl; [done|]. destruct (_ && _); [by intros [= <-]|]. by destruct (_ <? _).
Qed.

Definition io_safe (io : vma_fault_io) : Prop := writable_and_exec (io_prot io) = false.

Lemma fault_safe p ok frame addr w rc p' :
  wx_safe p -> vma_fault_locked p ok frame addr w = (rc, p') ->
  wx_safe p' /\ match rc with NEEDS_IO io => io_safe io | _ => True end.
Proof.
  intros Hp. unfold vma_fault_locked. destruct (vma_find _ _) as [v|] eqn:Ev; [|by intros [= <- <-]].
  pose proof (find_safe _ _ _ (proj1 Hp) Ev) as Hv.
  repeat (case_match; [by intros [= <- <-]|]). intros E. repeat case_match; simplify_eq; split; try done; apply emit_safe; try done.
  by apply user_flags_wx.
Qed.

Lemma destroy_safe p : wx_safe p -> wx_safe (vma_destroy_all_locked p).
Proof.
  intros Hp. unfold vma_destroy_all_locked. apply with_vmas_safe; [constructor|].
  generalize (vmas p) as l. intros l. revert p Hp. induction l as [|v l IH]; intros p Hp; [done|]. simpl. apply IH.
  pose proof (unmap_range_safe p (start v) (end_ v) (negb (has (flags v) VMA_PHYS)) Hp).
  destruct (_ && _); [by apply emit_safe|done].
Qed.

Definition space_safe (sp : space) : Prop := wx_safe (fst sp) /\ Forall io_safe (snd sp).

(** Image segments are the loader's choice. *)
Definition op_safe (o : op) : Prop :=
  match o with OpRegister _ _ pr => writable_and_exec pr = false | _ => True end.

Lemma exec_safe o sp : op_safe o -> space_safe sp -> exists sp', exec o sp = Some sp' /\ space_safe sp'.
Proof.
  destruct sp as [p ios]. intros Ho [Hp Hio]. simpl in Hp, Hio. destruct o; cbn [exec]; try (eexists; split; [reflexivity|]).
  - split; [by apply mmap_safe|done].
  - split; [by apply mmap_file_safe|done].
  - split; [by apply munmap_locked_safe|done].
  - destruct (mprotect_total p addr len pr) as [[rc p'] E]. rewrite E. eexists. split; [reflexivity|].
    split; [|done]. cbn [fst snd]. unfold vma_mprotect_locked in E.
    repeat (case_match; [by simplify_eq|]). eapply mprotect_safe; [| | | |exact E]; try done. apply Hp.
  - split; [|done]. cbn [fst]. unfold vma_map_phys_locked. destruct (_ =? 0); [done|].
    destruct (has pr PROT_EXEC) eqn:Ex; [done|]. by apply map_eager_safe.
  - split; [|done]. cbn [fst]. unfold vma_map_frames_locked. destruct (_ =? 0); [done|].
    destruct (has pr PROT_EXEC) eqn:Ex; [done|]. by apply map_eager_safe.
  - split; [by apply insert_safe|done].
  - destruct (vma_fault_locked _ _ _ _ _) as [rc p'] eqn:Ef. eexists. split; [reflexivity|]. apply fault_safe in Ef as [Hp' Hrc]; [|done].
    split; [done|]. destruct rc; try done. apply Forall_app. split; [done|]. by constructor.
  - destruct (ios !! k) as [io|] eqn:Ek; (eexists; split; [reflexivity|]); [|done]. split; [|by apply Forall_delete]. cbn [fst].
    assert (io_safe io) by (by eapply Forall_lookup_1). unfold vma_install_faulted_page_locked.
    repeat case_match; try done. apply emit_safe; [by apply user_flags_wx|done].
  - split; [by apply destroy_safe|done].
Qed.


Definition wx_demo_ops : list op :=
  [OpMmap 0 0x3000 PROT_READ MAP_PRIVATE; OpMprotect (MMAP_BASE + PAGE) PAGE (Z.lor PROT_READ PROT_EXEC);
   OpFault (fun _ => true) 0x5000 (MMAP_BASE + PAGE) false].

Definition fresh_process : process := Process [] MMAP_BASE 0x7000 (replicate 8 (Some (0, 0))) [].


(** A write fault on a file page is read in while another thread of the process makes the
    page read-only. *)
Definition stale_ops : list op :=
  [OpMmapFile 0 PAGE (Z.lor PROT_READ PROT_WRITE) MAP_PRIVATE 7 0; OpFault (fun _ => true) 0 MMAP_BASE true;
   OpMprotect MMAP_BASE PAGE PROT_READ; OpInstall (fun _ => true) (fun _ => false) 0 0x5000].

(** the page is then installed with the protection remembered before the lock was
    dropped: mprotect has returned, the area is read-only, and the page-table entry written
    after that is writable. *)
Theorem vma_fault_stale_prot :
  exists p l, run stale_ops (fresh_process, []) = Some (p, [])
    /\ pview (vmas p) MMAP_BASE = Some (PROT_READ, Z.lor MAP_PRIVATE VMA_FILE)
    /\ log p = EMap MMAP_BASE 0x5000 (Z.lor (Z.lor PAGE_USER PAGE_WRITABLE) PAGE_NO_EXECUTE) :: l.
Proof. eexists _, _. split; [reflexivity|]. split; reflexivity. Qed.

Definition refs (f : Z) (l : list effect) : Z :=
  foldr (fun x n => match x with EVnodeRef g => if g =? f then n + 1 else n
                                | EVnodePut g => if g =? f then n - 1 else n | _ => n end) 0 l.

(** a fork that runs out of memory half way frees the areas it had copied without
    dropping the vnode references they hold: the child has no area and one reference. *)
Theorem vma_copy_all_leaks :
  let f := Vma 0x1000 0x2000 PROT_READ (Z.lor MAP_PRIVATE VMA_FILE) 7 0 in
  let parent := Process [f; Vma 0x2000 0x3000 PROT_READ MAP_PRIVATE 0 0] MMAP_BASE 0 [] [] in
  let '(ok, child) := vma_copy_all (Process [] MMAP_BASE 0 [Some (0, 0); None] []) parent in
  ok = false /\ vmas child = [] /\ refs 7 (log child) = 1.
Proof. split; [|split]; reflexivity. Qed.
