(* ===== verification/Frames.v ===== *)
(** * What the frame allocator promises its clients

    [FrameAllocator] is the interface through which the rest of the kernel sees
    kernel/mm/pmm.c: the two calls, and the laws that make them an allocator, stated
    per frame.  [pmm_frames] discharges the laws with the theorems on the buddy
    allocator of Pmm.v; Heap.v is verified against the interface only. *)

From stdpp Require Import base numbers list gmap.
From S2P Require Import Prelude Pmm.

Class FrameAllocator (S : Type) := {
  fr_alloc : S -> Z -> option (Z * S);         (* pmm_alloc; address 0: none *)
  fr_free : S -> Z -> Z -> option S;           (* pmm_free *)
  fr_inv : S -> Prop;
  fr_used : S -> Z -> Prop;                    (* the frame has exactly one owner *)
  fr_block : Z -> Z -> Prop;                   (* frame, order: a block it may hand out *)
  fr_block_range f o : fr_block f o -> 0 <= o /\ 0 < f /\ f + 2 ^ o <= PMM_MAX_FRAMES;
  fr_alloc_law s o : fr_inv s -> 0 <= o ->
    fr_alloc s o = Some (0, s)
    \/ exists f s', fr_alloc s o = Some (addr f, s') /\ fr_inv s' /\ fr_block f o
         /\ (forall x, in_block f o x -> ~ fr_used s x)
         /\ (forall x, fr_used s' x <-> fr_used s x \/ in_block f o x);
  fr_free_law s f o : fr_inv s -> fr_block f o -> (forall x, in_block f o x -> fr_used s x) ->
    exists s', fr_free s (addr f) o = Some s' /\ fr_inv s'
      /\ forall x, fr_used s' x <-> fr_used s x /\ ~ in_block f o x;
}.

(** The frame [x] lies in a block of the buddy allocator's free lists. *)
Definition pmm_free_frame (s : pmm) (x : Z) : Prop :=
  exists f o, forder s f = o /\ ord o /\ in_block f o x.

Definition pmm_used (s : pmm) (x : Z) : Prop := ~ pmm_free_frame s x /\ refcount s x = 1.

Lemma free_frame_lists s L x : pinv s L -> pmm_free_frame s x <-> freeL L x.
Proof.
  intros [Hb _ _ _]. split.
  - intros (f & o & E & Ho & Hx). exists o, f. split; [by apply (bi_order _ _ Hb)|done].
  - intros (o & f & Hf & Hx). apply (bi_order _ _ Hb) in Hf as [E Ho]. by exists f, o.
Qed.

Lemma pmm_block_range f o : block_ok f o -> 0 <= o /\ 0 < f /\ f + 2 ^ o <= PMM_MAX_FRAMES.
Proof. by intros ([? ?] & ? & ? & ?). Qed.

Lemma pmm_alloc_law s o : (exists L, pinv s L) -> 0 <= o ->
  pmm_alloc_locked s o = Some (0, s)
  \/ exists f s', pmm_alloc_locked s o = Some (addr f, s') /\ (exists L, pinv s' L) /\ block_ok f o
       /\ (forall x, in_block f o x -> ~ pmm_used s x)
       /\ (forall x, pmm_used s' x <-> pmm_used s x \/ in_block f o x).
Proof.
  intros [L Hp] Ho. destruct (alloc_ok s L o Hp Ho) as [[_ E]|(f & s' & L' & E & Hp' & [A1 A2 A3 A4 A5])]; [by left|].
  right. exists f, s'. split; [done|]. split; [by exists L'|]. split; [done|]. split.
  - intros x Hx [Hn _]. apply Hn, (free_frame_lists s L x Hp). by apply A2.
  - intros x. unfold pmm_used. rewrite A3, (free_frame_lists s' L' x Hp'), (free_frame_lists s L x Hp), A4.
    destruct (decide (in_block f o x)); [split; [by right|split; [tauto|done]]|tauto].
Qed.

Lemma pmm_free_law s f o : (exists L, pinv s L) -> block_ok f o -> (forall x, in_block f o x -> pmm_used s x) ->
  exists s', pmm_free_locked s (addr f) o = Some s' /\ (exists L, pinv s' L)
    /\ forall x, pmm_used s' x <-> pmm_used s x /\ ~ in_block f o x.
Proof.
  intros [L Hp] Hb Hu. destruct (pmm_free_ok s L f o Hp Hb) as (s' & L' & E & Hp' & [R1 R2 R3]).
  - intros x Hx. destruct (Hu x Hx) as [Hn ->]. split; [|lia]. by rewrite <- (free_frame_lists s L x Hp).
  - exists s'. split; [done|]. split; [by exists L'|]. intros x.
    destruct (R2 (fun x Hx => proj2 (Hu x Hx))) as [_ Hf].
    unfold pmm_used. rewrite R1, (free_frame_lists s' L' x Hp'), (free_frame_lists s L x Hp), Hf.
    destruct (decide (in_block f o x)); tauto.
Qed.

#[export] Instance pmm_frames : FrameAllocator pmm := {
  fr_alloc := pmm_alloc_locked;
  fr_free := pmm_free_locked;
  fr_inv s := exists L, pinv s L;
  fr_used := pmm_used;
  fr_block := block_ok;
  fr_block_range := pmm_block_range;
  fr_alloc_law := pmm_alloc_law;
  fr_free_law := pmm_free_law;
}.
