(* ===== verification/Heap.v ===== *)
(** * The kernel heap (kernel/mm/heap.c)

    Size classes carved out of single frames, and whole buddy blocks for what is
    larger, in the configuration without NEOOS_DEBUG_HEAP.  The memory the heap
    itself writes is typed: [pages] holds the [struct heap_page] header at the start
    of every block the heap owns (by its address in the physical map), [mem] the
    [next] word of a slot.  A header or word that is not there is a wild access, and
    the operation answers [None].  Frames come from a [FrameAllocator].

    [live] is the ghost map from every pointer handed out and not freed to the size
    asked for.  The theorems show that no sequence of kmalloc, kfree of live
    pointers and writes of the owners into their own blocks makes the heap fault,
    that live blocks are aligned, disjoint from one another and from all headers,
    and that a freed slot is handed out again without a new frame. *)

From stdpp Require Import base numbers list gmap.
From S2P Require Import Prelude Pmm Frames.

Definition PHYSMAP_BASE : Z := 0xFFFF800000000000.
Definition HEAP_LARGE_MARKER : Z := 0xFFFFFFFF.
Definition heap_size_classes : list Z := [16; 32; 64; 128; 256; 512; 1024; 2048].

(** sizeof (struct heap_page), rounded up by its alignment of 64, and
    sizeof (struct heap_free_slot). *)
Definition HEAP_PAGE_SIZEOF : Z := 64.
Definition HEAP_SLOT_SIZEOF : Z := 8.

Definition phys_to_virt (phys : Z) : Z := u64 (PHYSMAP_BASE + phys).
Definition virt_to_phys_physmap (virt : Z) : Z := u64 (virt - PHYSMAP_BASE).

Record heap_page := HeapPage {
  next : Z;
  free_list : Z;
  size_class : Z;
  meta : Z;
}.

Record heap (S : Type) := Heap {
  class_pages : list Z;
  pages : gmap Z heap_page;
  mem : gmap Z Z;
  frames : S;
}.
Arguments Heap {S}.
Arguments class_pages {S}.
Arguments pages {S}.
Arguments mem {S}.
Arguments frames {S}.

Definition size_class_for (size : Z) : option (nat * Z) := list_find (fun c => size <= c) heap_size_classes.

Section Heap.
Context {S : Type} `{FrameAllocator S}.

Definition with_frames (h : heap S) (fs : S) : heap S := Heap (class_pages h) (pages h) (mem h) fs.
Definition with_page (h : heap S) (page : Z) (p : heap_page) : heap S :=
  Heap (class_pages h) (<[page := p]> (pages h)) (mem h) (frames h).
Definition with_mem (h : heap S) (m : gmap Z Z) : heap S := Heap (class_pages h) (pages h) m (frames h).
Definition with_class (h : heap S) (i : nat) (page : Z) : heap S :=
  Heap (<[i := page]> (class_pages h)) (pages h) (mem h) (frames h).

Definition heap_init (fs : S) : heap S := Heap (replicate (length heap_size_classes) 0) ∅ ∅ fs.

(** The slots of a fresh page, threaded into its free list. *)
Fixpoint carve (area sc : Z) (m : gmap Z Z) (fl : Z) (ks : list Z) : gmap Z Z * Z :=
  match ks with
  | [] => (m, fl)
  | i :: ks => let slot := area + i * sc in carve area sc (<[slot := fl]> m) slot ks
  end.

Definition slot_count (sc : Z) : Z := (PMM_FRAME_SIZE - HEAP_PAGE_SIZEOF) / sc.

(** Page 0: no frame. *)
Definition heap_new_page (h : heap S) (sc : Z) : option (Z * heap S) :=
  match fr_alloc (frames h) 0 with
  | None => None
  | Some (phys, fs) =>
    let h := with_frames h fs in
    if phys =? 0 then Some (0, h)
    else
      let page := phys_to_virt phys in
      let area := page + HEAP_PAGE_SIZEOF in
      let '(m, fl) := carve area sc (mem h) 0 (seqZ 0 (slot_count sc)) in
      Some (page, with_page (with_mem h m) page (HeapPage 0 fl sc (slot_count sc)))
  end.

(** The scan of a class for a page with a free slot; [fuel] bounds its turns. *)
Fixpoint find_page (fuel : nat) (h : heap S) (page : Z) : option Z :=
  match fuel with
  | O => None
  | Datatypes.S fuel =>
    if page =? 0 then Some 0
    else match pages h !! page with
         | None => None
         | Some p => if free_list p =? 0 then find_page fuel h (next p) else Some page
         end
  end.

Definition take_slot (h : heap S) (page : Z) : option (Z * heap S) :=
  match pages h !! page with
  | None => None
  | Some p =>
    let slot := free_list p in
    match mem h !! slot with
    | None => None
    | Some nx => Some (slot, with_page h page (HeapPage (next p) nx (size_class p) (u32 (meta p - 1))))
    end
  end.

Fixpoint order_loop (fuel : nat) (order frames_needed : Z) : option Z :=
  match fuel with
  | O => None
  | Datatypes.S fuel =>
    if u64 (Z.shiftl 1 order) <? frames_needed then order_loop fuel (order + 1) frames_needed else Some order
  end.

Definition kmalloc_large (h : heap S) (size : Z) : option (Z * heap S) :=
  let needed := u64 (size + HEAP_PAGE_SIZEOF) in
  let frames_needed := u64 (needed + PMM_FRAME_SIZE - 1) / PMM_FRAME_SIZE in
  match order_loop 64 0 frames_needed with
  | None => None
  | Some order =>
    match fr_alloc (frames h) order with
    | None => None
    | Some (phys, fs) =>
      let h := with_frames h fs in
      if phys =? 0 then Some (0, h)
      else
        let page := phys_to_virt phys in
        Some (page + HEAP_PAGE_SIZEOF, with_page h page (HeapPage 0 0 HEAP_LARGE_MARKER order))
    end
  end.

Definition kmalloc_small (h : heap S) (i : nat) (sc : Z) : option (Z * heap S) :=
  match class_pages h !! i with
  | None => None
  | Some head =>
    match find_page (Datatypes.S (size (pages h))) h head with
    | None => None
    | Some page =>
      if page =? 0 then
        match heap_new_page h sc with
        | None => None
        | Some (page, h) =>
          if page =? 0 then Some (0, h)
          else match pages h !! page with
               | None => None
               | Some p => take_slot (with_class (with_page h page (HeapPage head (free_list p) (size_class p) (meta p)))
                                        i page) page
               end
        end
      else take_slot h page
    end
  end.

(** Pointer 0: no memory. *)
Definition kmalloc_locked (h : heap S) (size : Z) : option (Z * heap S) :=
  if size =? 0 then Some (0, h)
  else
    let size := if size <? HEAP_SLOT_SIZEOF then HEAP_SLOT_SIZEOF else size in
    match size_class_for size with
    | Some (i, sc) => kmalloc_small h i sc
    | None => kmalloc_large h size
    end.

Definition kfree_locked (h : heap S) (ptr : Z) : option (heap S) :=
  if ptr =? 0 then Some h
  else
    let page := Z.land ptr (u64 (Z.lnot 0xFFF)) in
    match pages h !! page with
    | None => None
    | Some p =>
      if size_class p =? HEAP_LARGE_MARKER then
        match fr_free (frames h) (virt_to_phys_physmap page) (meta p) with
        | None => None
        | Some fs => Some (Heap (class_pages h) (delete page (pages h)) (mem h) fs)
        end
      else Some (with_page (with_mem h (<[ptr := free_list p]> (mem h))) page
                   (HeapPage (next p) ptr (size_class p) (u32 (meta p + 1))))
    end.

(** ** The invariant *)

Fixpoint pchain (ps : gmap Z heap_page) (hd : Z) (l : list Z) : Prop :=
  match l with
  | [] => hd = 0
  | p :: l => hd = p /\ p <> 0 /\ exists hdr, ps !! p = Some hdr /\ pchain ps (next hdr) l
  end.

Fixpoint schain (m : gmap Z Z) (hd : Z) (l : list Z) : Prop :=
  match l with
  | [] => hd = 0
  | s :: l => hd = s /\ s <> 0 /\ exists n, m !! s = Some n /\ schain m n l
  end.

Definition is_slot (pg sc s : Z) : Prop :=
  exists i, 0 <= i < slot_count sc /\ s = pg + HEAP_PAGE_SIZEOF + i * sc.

Definition virt (f : Z) : Z := PHYSMAP_BASE + addr f.

Definition order_of (p : heap_page) : Z := if size_class p =? HEAP_LARGE_MARKER then meta p else 0.

(** A page of a size class with its header, its free slots [fl] and the class. *)
Record page_ok (h : heap S) (pg sc : Z) (fl : list Z) : Prop := {
  pg_hdr : exists nx hd, pages h !! pg = Some (HeapPage nx hd sc (Z.of_nat (length fl))) /\ schain (mem h) hd fl;
  pg_nodup : NoDup fl;
  pg_slots : forall s, s ∈ fl -> is_slot pg sc s;
}.

(** The blocks of the heap: by frame, in frames it owns, disjoint. *)
Record blocks_ok (ps : gmap Z heap_page) (fs : S) : Prop := {
  bl_block : forall pg p, ps !! pg = Some p ->
    exists f, pg = virt f /\ fr_block f (order_of p) /\ forall x, in_block f (order_of p) x -> fr_used fs x;
  bl_disj : forall f f' p p', ps !! virt f = Some p -> ps !! virt f' = Some p' -> f <> f' ->
    forall x, in_block f (order_of p) x -> in_block f' (order_of p') x -> False;
}.

Record hinv (h : heap S) (live : gmap Z Z) (C : nat -> list Z) (F : Z -> list Z) : Prop := {
  hi_frames : fr_inv (frames h);
  hi_len : length (class_pages h) = length heap_size_classes;
  hi_chain : forall i hd, class_pages h !! i = Some hd -> pchain (pages h) hd (C i);
  hi_cnodup : forall i, NoDup (C i);
  hi_page : forall i sc pg, heap_size_classes !! i = Some sc -> pg ∈ C i -> page_ok h pg sc (F pg);
  hi_blocks : blocks_ok (pages h) (frames h);
  hi_slots : forall i sc pg s, heap_size_classes !! i = Some sc -> pg ∈ C i -> is_slot pg sc s ->
    (s ∈ F pg /\ live !! s = None) \/ (s ∉ F pg /\ exists size, live !! s = Some size /\ 0 < size <= sc);
  hi_live : forall p size, live !! p = Some size ->
    (exists i sc pg, heap_size_classes !! i = Some sc /\ pg ∈ C i /\ is_slot pg sc p)
    \/ (exists pg nx hd o, pages h !! pg = Some (HeapPage nx hd HEAP_LARGE_MARKER o) /\ p = pg + HEAP_PAGE_SIZEOF
          /\ 2048 < size /\ size + HEAP_PAGE_SIZEOF <= 2 ^ o * PMM_FRAME_SIZE);
}.

(** ** Size classes and slots *)

Lemma class_facts i sc :
  heap_size_classes !! i = Some sc ->
  16 <= sc <= 2048 /\ sc mod 16 = 0 /\ 1 <= slot_count sc <= 252 /\ HEAP_PAGE_SIZEOF + slot_count sc * sc <= 4096.
Proof.
  unfold heap_size_classes. intros E. do 8 (destruct i as [|i]; [injection E as <-; vm_compute; repeat split; congruence|]).
  done.
Qed.

Lemma class_inj i j sc : heap_size_classes !! i = Some sc -> heap_size_classes !! j = Some sc -> i = j.
Proof.
  intros Hi Hj. assert (NoDup heap_size_classes) as Hn by (by apply (bool_decide_unpack _); vm_compute).
  by eapply NoDup_lookup.
Qed.

Lemma size_class_for_spec sz :
  match size_class_for sz with
  | Some (i, sc) => heap_size_classes !! i = Some sc /\ sz <= sc
  | None => 2048 < sz
  end.
Proof.
  unfold size_class_for. destruct (list_find _ _) as [[i sc]|] eqn:E.
  - apply list_find_Some in E as (H1 & H2 & _). done.
  - apply list_find_None in E. unfold heap_size_classes in E. rewrite !Forall_cons in E. lia.
Qed.

Lemma slot_range i sc pg s :
  heap_size_classes !! i = Some sc -> is_slot pg sc s ->
  pg + HEAP_PAGE_SIZEOF <= s /\ s + sc <= pg + 4096 /\ (s - pg) mod 16 = 0.
Proof.
  intros Hc%class_facts (k & Hk & ->). unfold HEAP_PAGE_SIZEOF in *. split; [nia|]. split; [nia|].
  replace (pg + 64 + k * sc - pg) with (64 + k * sc) by lia. rewrite Zplus_mod, Zmult_mod.
  destruct Hc as (_ & -> & _). by rewrite Z.mul_0_r.
Qed.

Lemma slots_disjoint i sc pg s t :
  heap_size_classes !! i = Some sc -> is_slot pg sc s -> is_slot pg sc t -> s = t \/ s + sc <= t \/ t + sc <= s.
Proof. intros Hc%class_facts (k & Hk & ->) (j & Hj & ->). destruct (Z.lt_trichotomy k j) as [?|[->|?]]; [|by left|]; nia. Qed.

Lemma virt_facts f : 0 < f < PMM_MAX_FRAMES ->
  virt f mod 4096 = 0 /\ 0 < virt f /\ virt f + 2 ^ 33 < W64 /\ phys_to_virt (addr f) = virt f
  /\ virt_to_phys_physmap (virt f) = addr f.
Proof.
  unfold virt, phys_to_virt, virt_to_phys_physmap, addr, PHYSMAP_BASE, PMM_MAX_FRAMES, PMM_FRAME_SIZE. intros Hf.
  rewrite !u64_small by lia. split_and!; try lia. dlia.
Qed.

Lemma virt_inj f g : virt f = virt g -> f = g.
Proof. unfold virt, addr, PMM_FRAME_SIZE. lia. Qed.

Lemma addr_nonzero f : 0 < f -> addr f =? 0 = false.
Proof. intros. apply Z.eqb_neq. unfold addr, PMM_FRAME_SIZE. lia. Qed.

Lemma page_of pg s : pg mod 4096 = 0 -> pg <= s < pg + 4096 -> 0 <= s < W64 -> Z.land s (u64 (Z.lnot 0xFFF)) = pg.
Proof.
  intros Hp Hs Hb. change 0xFFF with (2 ^ 12 - 1). rewrite land_align by lia. change (2 ^ 12) with 4096. dlia.
Qed.

Lemma block_frame ps fs pg p :
  blocks_ok ps fs -> ps !! pg = Some p -> exists f, pg = virt f /\ 0 < f < PMM_MAX_FRAMES.
Proof.
  intros Hb Hp. destruct (bl_block _ _ Hb _ _ Hp) as (f & -> & Hbl & _). exists f. split; [done|].
  apply fr_block_range in Hbl as (? & ? & ?). pose proof (pow_pos (order_of p)). lia.
Qed.

(** A slot lies in one page only. *)
Lemma slot_of_page i j sc sc' pg pg' s :
  heap_size_classes !! i = Some sc -> heap_size_classes !! j = Some sc' ->
  pg mod 4096 = 0 -> pg' mod 4096 = 0 -> is_slot pg sc s -> is_slot pg' sc' s -> pg = pg'.
Proof.
  intros Hi Hj Hp Hp' H1 H2. pose proof (slot_range _ _ _ _ Hi H1). pose proof (slot_range _ _ _ _ Hj H2).
  pose proof (class_facts _ _ Hi). pose proof (class_facts _ _ Hj). unfold HEAP_PAGE_SIZEOF in *. dlia.
Qed.

Definition slots (pg sc : Z) : list Z := (fun k => pg + HEAP_PAGE_SIZEOF + k * sc) <$> seqZ 0 (slot_count sc).

Lemma slots_elem pg sc s : s ∈ slots pg sc <-> is_slot pg sc s.
Proof.
  unfold slots, is_slot. rewrite list_elem_of_fmap. split; intros (k & Hk & Hs); exists k; rewrite elem_of_seqZ in *; split; done || lia.
Qed.

Lemma slots_nodup i sc pg : heap_size_classes !! i = Some sc -> NoDup (slots pg sc).
Proof.
  intros Hc%class_facts. unfold slots. apply NoDup_fmap_2_strong; [|apply NoDup_seqZ]. intros. nia.
Qed.

Lemma slots_length pg i sc : heap_size_classes !! i = Some sc -> Z.of_nat (length (slots pg sc)) = slot_count sc.
Proof. intros Hc%class_facts. unfold slots. rewrite length_fmap, length_seqZ. lia. Qed.

Lemma free_length i sc pg fl :
  heap_size_classes !! i = Some sc -> NoDup fl -> (forall s, s ∈ fl -> is_slot pg sc s) ->
  Z.of_nat (length fl) <= slot_count sc.
Proof.
  intros Hc Hn Hs. rewrite <- (slots_length pg i sc Hc). apply inj_le, submseteq_length, NoDup_submseteq; [done|].
  intros s Hs'. by apply slots_elem, Hs.
Qed.

(** ** Chains *)

Lemma schain_frame m m' hd l : (forall s, s ∈ l -> m' !! s = m !! s) -> schain m hd l -> schain m' hd l.
Proof.
  revert hd. induction l as [|s l IH]; intros hd Hm; [done|]. intros (-> & Hs & n & E & Hc). split; [done|]. split; [done|].
  exists n. split; [rewrite Hm; [done|apply elem_of_cons; by left]|]. apply IH; [|done].
  intros t Ht. apply Hm, elem_of_cons. by right.
Qed.

Lemma pchain_frame ps ps' hd l :
  (forall p hdr, p ∈ l -> ps !! p = Some hdr -> exists hdr', ps' !! p = Some hdr' /\ next hdr' = next hdr) ->
  pchain ps hd l -> pchain ps' hd l.
Proof.
  revert hd. induction l as [|p l IH]; intros hd Hm; [done|]. intros (-> & Hp & hdr & E & Hc). split; [done|]. split; [done|].
  destruct (Hm p hdr) as (hdr' & E' & En); [apply elem_of_cons; by left|done|]. exists hdr'. split; [done|]. rewrite En.
  apply IH; [|done]. intros q hq Hq. apply Hm, elem_of_cons. by right.
Qed.

Lemma pchain_length ps hd l : pchain ps hd l -> NoDup l -> (length l <= size ps)%nat.
Proof.
  intros Hc Hn. rewrite <- (size_list_to_set (C := gset Z) l Hn), <- size_dom. apply subseteq_size.
  intros p Hp%elem_of_list_to_set. clear Hn. revert hd Hc. induction l as [|q l IH]; intros hd Hc; [by apply elem_of_nil in Hp|].
  destruct Hc as (_ & _ & hdr & E & Hc). apply elem_of_cons in Hp as [->|Hp]; [by eapply elem_of_dom_2|by eapply IH].
Qed.

Lemma find_page_ok (h : heap S) fuel hd l :
  pchain (pages h) hd l -> (length l < fuel)%nat ->
  exists pg, find_page fuel h hd = Some pg
    /\ ((pg = 0) \/ (pg ∈ l /\ pg <> 0 /\ exists p, pages h !! pg = Some p /\ free_list p <> 0)).
Proof.
  revert hd l. induction fuel as [|fuel IH]; intros hd l Hc Hf; [lia|]. cbn [find_page].
  destruct l as [|q l]; simpl in Hc; [subst hd; exists 0; auto|]. destruct Hc as (-> & Hq & hdr & E & Hc).
  rewrite (proj2 (Z.eqb_neq q 0)), E by done. destruct (Z.eqb_spec (free_list hdr) 0).
  - destruct (IH (next hdr) l Hc) as (pg & -> & Hpg); [simpl in Hf; lia|]. exists pg. split; [done|].
    destruct Hpg as [?|(? & ?)]; [by left|right]. split; [by apply elem_of_cons; right|done].
  - exists q. split; [done|]. right. split; [apply elem_of_cons; by left|]. eauto.
Qed.

Lemma carve_ok area sc m ks hd l :
  schain m hd l -> (forall k, k ∈ ks -> area + k * sc ∉ l /\ area + k * sc <> 0) -> NoDup ((fun k => area + k * sc) <$> ks) ->
  exists m' fl, carve area sc m hd ks = (m', fl)
    /\ schain m' fl (rev ((fun k => area + k * sc) <$> ks) ++ l)
    /\ forall a, a ∉ ((fun k => area + k * sc) <$> ks) -> m' !! a = m !! a.
Proof.
  revert m hd l. induction ks as [|k ks IH]; intros m hd l Hc Hk Hn; [by exists m, hd|]. cbn [carve].
  rewrite fmap_cons in *. apply NoDup_cons in Hn as [Hnk Hn]. destruct (Hk k) as [Hkl Hk0]; [apply elem_of_cons; by left|].
  destruct (IH (<[area + k * sc := hd]> m) (area + k * sc) (area + k * sc :: l)) as (m' & fl & -> & Hc' & Hm').
  - split; [done|]. split; [done|]. exists hd. rewrite lookup_insert_eq. split; [done|].
    apply (schain_frame m); [|done]. intros s Hs. rewrite lookup_insert_ne; [done|]. intros <-. done.
  - intros j Hj. rewrite not_elem_of_cons. destruct (Hk j) as [H1 H2]; [apply elem_of_cons; by right|]. split; [|done].
    split; [|done]. intros E. apply Hnk. rewrite <- E. by apply (list_elem_of_fmap_2 (fun k => area + k * sc)).
  - done.
  - exists m', fl. split; [done|]. split; [simpl; by rewrite <- app_assoc|].
    intros a [Ha1 Ha2]%not_elem_of_cons. rewrite Hm' by done. by rewrite lookup_insert_ne by done.
Qed.

(** ** One page of a class changes *)

Definition upd_at {A B} `{EqDecision A} (f : A -> B) (k : A) (v : B) : A -> B :=
  fun x => if decide (x = k) then v else f x.

Lemma upd_at_eq {A B} `{EqDecision A} (f : A -> B) k v : upd_at f k v k = v.
Proof. unfold upd_at. by rewrite decide_True. Qed.

Lemma upd_at_ne {A B} `{EqDecision A} (f : A -> B) k v x : x <> k -> upd_at f k v x = f x.
Proof. intros. unfold upd_at. by rewrite decide_False. Qed.

Lemma blocks_update ps fs pg p p' :
  blocks_ok ps fs -> ps !! pg = Some p -> order_of p' = order_of p -> blocks_ok (<[pg := p']> ps) fs.
Proof.
  intros [B1 B2] Hp Ho. assert (forall q r, <[pg := p']> ps !! q = Some r -> exists r', ps !! q = Some r' /\ order_of r = order_of r') as Hl.
  { intros q r Hq. destruct (decide (q = pg)) as [->|Hne].
    - rewrite lookup_insert_eq in Hq. injection Hq as <-. by exists p.
    - rewrite lookup_insert_ne in Hq by done. by exists r. }
  split.
  - intros q r (r' & Hq & ->)%Hl. by apply B1.
  - intros f f' r r' (r1 & Hf & ->)%Hl (r2 & Hf' & ->)%Hl. by apply B2.
Qed.

Lemma large_not_class i : heap_size_classes !! i <> Some HEAP_LARGE_MARKER.
Proof. intros ?%class_facts. unfold HEAP_LARGE_MARKER in *. lia. Qed.

Lemma class_page_aligned h live C F i sc pg :
  hinv h live C F -> heap_size_classes !! i = Some sc -> pg ∈ C i -> exists f, pg = virt f /\ 0 < f < PMM_MAX_FRAMES.
Proof.
  intros Hi Hc Hp. destruct (hi_page _ _ _ _ Hi _ _ _ Hc Hp) as [(nx & hd & E & _) _ _].
  by eapply block_frame; [apply (hi_blocks _ _ _ _ Hi)|].
Qed.

Lemma page_update h live C F i sc pg nx hd len hd' fl' m' live' :
  hinv h live C F -> heap_size_classes !! i = Some sc -> pg ∈ C i ->
  pages h !! pg = Some (HeapPage nx hd sc len) ->
  (forall s, ~ is_slot pg sc s -> m' !! s = mem h !! s) ->
  (forall s, live' !! s = live !! s \/ is_slot pg sc s) ->
  schain m' hd' fl' -> NoDup fl' -> (forall s, s ∈ fl' -> is_slot pg sc s) ->
  (forall s, is_slot pg sc s ->
     (s ∈ fl' /\ live' !! s = None) \/ (s ∉ fl' /\ exists size, live' !! s = Some size /\ 0 < size <= sc)) ->
  hinv (with_page (with_mem h m') pg (HeapPage nx hd' sc (Z.of_nat (length fl')))) live' C (upd_at F pg fl').
Proof.
  intros Hi Hc Hp Hpg Hm Hl Hs Hn Hfl Hsl. pose proof (class_page_aligned _ _ _ _ _ _ _ Hi Hc Hp) as (f & -> & Hf).
  pose proof (virt_facts f Hf) as (Hal & _).
  assert (forall j sc' pg' s, heap_size_classes !! j = Some sc' -> pg' ∈ C j -> pg' <> virt f -> is_slot pg' sc' s ->
            ~ is_slot (virt f) sc s) as Hother.
  { intros j sc' pg' s Hj Hpj Hne H1 H2. pose proof (class_page_aligned _ _ _ _ _ _ _ Hi Hj Hpj) as (g & -> & Hg).
    pose proof (virt_facts g Hg) as (Hal' & _). by apply Hne, (slot_of_page j i sc' sc _ _ s). }
  assert (forall j sc', heap_size_classes !! j = Some sc' -> virt f ∈ C j -> sc' = sc) as Hsame.
  { intros j sc' Hj Hpj. destruct (hi_page _ _ _ _ Hi _ _ _ Hj Hpj) as [(nx' & hd1 & E & _) _ _]. congruence. }
  split; cbn [frames class_pages pages mem with_page with_mem].
  - apply Hi.
  - apply Hi.
  - intros j hd1 Hj. apply (pchain_frame (pages h)); [|by apply (hi_chain _ _ _ _ Hi)].
    intros p hdr _ E. destruct (decide (p = virt f)) as [->|Hne].
    + rewrite lookup_insert_eq. eexists. split; [done|]. rewrite Hpg in E. by injection E as <-.
    + rewrite lookup_insert_ne by done. by exists hdr.
  - apply Hi.
  - intros j sc' pg' Hj Hpj. destruct (decide (pg' = virt f)) as [->|Hne].
    + rewrite (Hsame j sc' Hj Hpj), upd_at_eq. split; [|done|done]. exists nx, hd'. cbn. by rewrite lookup_insert_eq.
    + rewrite upd_at_ne by done. destruct (hi_page _ _ _ _ Hi _ _ _ Hj Hpj) as [(nx' & hd1 & E & Hch) H2 H3].
      split; [|done|done]. exists nx', hd1. cbn. rewrite lookup_insert_ne by done. split; [done|].
      apply (schain_frame (mem h)); [|done]. intros s Hs'. apply Hm. by eapply Hother; [..|apply H3].
  - eapply blocks_update; [apply Hi|done|]. unfold order_of. cbn [size_class].
    rewrite (proj2 (Z.eqb_neq sc _)); [done|]. intros ->. by eapply large_not_class.
  - intros j sc' pg' s Hj Hpj Hs'. destruct (decide (pg' = virt f)) as [->|Hne].
    + rewrite (Hsame j sc' Hj Hpj) in *. rewrite upd_at_eq. by apply Hsl.
    + rewrite upd_at_ne by done. destruct (Hl s) as [->|Hs2]; [by eapply (hi_slots _ _ _ _ Hi)|].
      exfalso. by eapply Hother.
  - intros p size Hlive. destruct (Hl p) as [E|Hs2]; [|by left; exists i, sc, (virt f)].
    rewrite E in Hlive. destruct (hi_live _ _ _ _ Hi _ _ Hlive) as [?|(pg' & nx' & hd1 & o & E' & ?)]; [by left|right].
    exists pg', nx', hd1, o. rewrite lookup_insert_ne; [done|]. intros <-. rewrite Hpg in E'. injection E' as _ _ -> _.
    by eapply large_not_class.
Qed.

Lemma take_slot_ok h live C F i sc pg s fl sz :
  hinv h live C F -> heap_size_classes !! i = Some sc -> pg ∈ C i -> F pg = s :: fl -> 0 < sz <= sc ->
  exists h', take_slot h pg = Some (s, h') /\ hinv h' (<[s := sz]> live) C (upd_at F pg fl)
    /\ live !! s = None /\ is_slot pg sc s /\ frames h' = frames h.
Proof.
  intros Hi Hc Hp Hf Hz. destruct (hi_page _ _ _ _ Hi _ _ _ Hc Hp) as [(nx & hd & E & Hch) Hn Hsl].
  rewrite Hf in *. destruct Hch as (-> & Hs0 & n & Em & Hch). apply NoDup_cons in Hn as [Hns Hn].
  assert (is_slot pg sc s) as Hs by (apply Hsl, elem_of_cons; by left).
  destruct (hi_slots _ _ _ _ Hi _ _ _ _ Hc Hp Hs) as [[_ Hlive]|[Hx _]];
    [|rewrite Hf in Hx; apply not_elem_of_cons in Hx as [? _]; done].
  unfold take_slot. rewrite E. cbn [free_list next size_class meta]. rewrite Em.
  eexists. split; [reflexivity|]. split_and!; try done.
  pose proof (free_length i sc pg fl Hc Hn (fun t Ht => Hsl t (proj2 (elem_of_cons _ _ _) (or_intror Ht)))).
  rewrite u32_small by (simpl; pose proof (class_facts _ _ Hc); lia).
  replace (Z.of_nat (length (s :: fl)) - 1) with (Z.of_nat (length fl)) by (simpl; lia).
  change (with_page h pg ?x) with (with_page (with_mem h (mem h)) pg x).
  eapply page_update; try done.
  - intros t. destruct (decide (t = s)) as [->|]; [by right|left]. by rewrite lookup_insert_ne.
  - intros t Ht. apply Hsl, elem_of_cons. by right.
  - intros t Ht. destruct (decide (t = s)) as [->|Hne].
    + right. split; [done|]. exists sz. by rewrite lookup_insert_eq.
    + rewrite lookup_insert_ne by done. destruct (hi_slots _ _ _ _ Hi _ _ _ _ Hc Hp Ht) as [[Hin ?]|[Hin ?]].
      * left. rewrite Hf in Hin. apply elem_of_cons in Hin as [?|?]; done.
      * right. rewrite Hf in Hin. apply not_elem_of_cons in Hin as [_ ?]. done.
Qed.

(** ** kfree *)

Lemma aligned_ptr h live C F i sc pg p :
  hinv h live C F -> heap_size_classes !! i = Some sc -> pg ∈ C i -> is_slot pg sc p ->
  p <> 0 /\ Z.land p (u64 (Z.lnot 0xFFF)) = pg.
Proof.
  intros Hi Hc Hp Hs. pose proof (class_page_aligned _ _ _ _ _ _ _ Hi Hc Hp) as (f & -> & Hf).
  pose proof (virt_facts f Hf) as (Ha & Hv & Hw & _). pose proof (slot_range _ _ _ _ Hc Hs).
  pose proof (class_facts _ _ Hc). unfold HEAP_PAGE_SIZEOF in *. split; [lia|]. apply page_of; lia.
Qed.

Lemma kfree_small_ok h live C F i sc pg p sz :
  hinv h live C F -> heap_size_classes !! i = Some sc -> pg ∈ C i -> is_slot pg sc p -> live !! p = Some sz ->
  exists h', kfree_locked h p = Some h' /\ hinv h' (delete p live) C (upd_at F pg (p :: F pg)) /\ frames h' = frames h.
Proof.
  intros Hi Hc Hp Hs Hl. destruct (hi_page _ _ _ _ Hi _ _ _ Hc Hp) as [(nx & hd & E & Hch) Hn Hsl].
  destruct (aligned_ptr _ _ _ _ _ _ _ _ Hi Hc Hp Hs) as [Hp0 Hpg]. unfold kfree_locked.
  rewrite (proj2 (Z.eqb_neq p 0)), Hpg, E by done. cbn [size_class free_list next meta].
  rewrite (proj2 (Z.eqb_neq sc _)) by (intros ->; by eapply large_not_class).
  assert (p ∉ F pg) as Hnp.
  { destruct (hi_slots _ _ _ _ Hi _ _ _ _ Hc Hp Hs) as [[_ ?]|[? _]]; congruence. }
  eexists. split; [reflexivity|]. split; [|done].
  assert (Z.of_nat (length (p :: F pg)) <= slot_count sc).
  { apply (free_length i sc pg); [done|by constructor|]. intros s [->|Hin]%elem_of_cons; [done|by apply Hsl]. }
  pose proof (class_facts _ _ Hc). rewrite u32_small by (simpl in *; lia).
  replace (Z.of_nat (length (F pg)) + 1) with (Z.of_nat (length (p :: F pg))) by (simpl; lia).
  eapply page_update; try done.
  - intros s Hns. rewrite lookup_insert_ne; [done|]. intros <-. done.
  - intros s. destruct (decide (s = p)) as [->|]; [by right|left]. by rewrite lookup_delete_ne.
  - split; [done|]. split; [done|]. exists hd. rewrite lookup_insert_eq. split; [done|].
    apply (schain_frame (mem h)); [|done]. intros s Hs'. rewrite lookup_insert_ne; [done|]. intros <-. done.
  - by constructor.
  - intros s [->|Hin]%elem_of_cons; [done|by apply Hsl].
  - intros s Hs'. destruct (decide (s = p)) as [->|Hne].
    + left. rewrite lookup_delete_eq. split; [apply elem_of_cons; by left|done].
    + rewrite lookup_delete_ne by done. rewrite elem_of_cons.
      destruct (hi_slots _ _ _ _ Hi _ _ _ _ Hc Hp Hs') as [[? ?]|[? ?]]; [left; auto|right]. split; [by intros [?|?]|done].
Qed.

(** Giving the frames of a large block back. *)
Lemma blocks_delete ps fs fs' f p :
  blocks_ok ps fs -> ps !! virt f = Some p ->
  (forall x, fr_used fs' x <-> fr_used fs x /\ ~ in_block f (order_of p) x) -> blocks_ok (delete (virt f) ps) fs'.
Proof.
  intros [B1 B2] Hp Hu. split.
  - intros q r [Hne Hq]%lookup_delete_Some. destruct (B1 q r Hq) as (g & -> & Hb & Hg). exists g. split; [done|]. split; [done|].
    intros x Hx. apply Hu. split; [by apply Hg|]. intros Hx'. eapply (B2 f g p r); try done. congruence.
  - intros g g' r r' [_ Hq]%lookup_delete_Some [_ Hq']%lookup_delete_Some. by apply B2.
Qed.

Lemma kfree_large_ok h live C F pg nx hd o sz :
  hinv h live C F -> pages h !! pg = Some (HeapPage nx hd HEAP_LARGE_MARKER o) ->
  live !! (pg + HEAP_PAGE_SIZEOF) = Some sz ->
  exists h', kfree_locked h (pg + HEAP_PAGE_SIZEOF) = Some h' /\ hinv h' (delete (pg + HEAP_PAGE_SIZEOF) live) C F.
Proof.
  intros Hi E Hl. pose proof (hi_blocks _ _ _ _ Hi) as Hb.
  destruct (bl_block _ _ Hb _ _ E) as (f & -> & Hbl & Hu). unfold order_of in Hbl, Hu. cbn in Hbl, Hu.
  pose proof (fr_block_range _ _ Hbl) as (Ho & Hf & Hfo). pose proof (pow_pos o Ho).
  destruct (virt_facts f) as (Ha & Hv & Hw & _ & Hvp); [lia|]. unfold kfree_locked, HEAP_PAGE_SIZEOF in *.
  rewrite (proj2 (Z.eqb_neq _ 0)) by lia. rewrite (page_of (virt f)) by lia. rewrite E. cbn [size_class meta].
  rewrite Z.eqb_refl, Hvp. destruct (fr_free_law (frames h) f o (hi_frames _ _ _ _ Hi) Hbl Hu) as (fs & -> & Hfi & Hfu).
  eexists. split; [reflexivity|].
  assert (forall i sc pg', heap_size_classes !! i = Some sc -> pg' ∈ C i -> pg' <> virt f) as Hcl.
  { intros i sc pg' Hc Hp ->. destruct (hi_page _ _ _ _ Hi _ _ _ Hc Hp) as [(nx' & hd' & E' & _) _ _].
    rewrite E in E'. injection E' as _ _ <- _. by eapply large_not_class. }
  assert (forall i hd', class_pages h !! i = Some hd' -> exists sc, heap_size_classes !! i = Some sc) as Hcs.
  { intros i hd' Hi'. apply lookup_lt_Some in Hi'. rewrite (hi_len _ _ _ _ Hi) in Hi'. by apply lookup_lt_is_Some_2. }
  split; cbn [frames class_pages pages mem]; try done; try apply Hi.
  - intros i hd' Hi'. apply (pchain_frame (pages h)); [|by apply (hi_chain _ _ _ _ Hi)].
    intros p hdr Hp Ep. destruct (Hcs _ _ Hi') as [sc Hc]. exists hdr. rewrite lookup_delete_ne; [done|].
    intros <-. by eapply Hcl.
  - intros i sc pg' Hc Hp. destruct (hi_page _ _ _ _ Hi _ _ _ Hc Hp) as [(nx' & hd' & E' & Hch) H2 H3].
    split; [|done|done]. exists nx', hd'. cbn. rewrite lookup_delete_ne; [done|]. intros <-. by eapply Hcl.
  - eapply blocks_delete; [done|done|]. exact Hfu.
  - intros i sc pg' s Hc Hp Hs. pose proof (hi_slots _ _ _ _ Hi _ _ _ _ Hc Hp Hs) as Hsl.
    rewrite lookup_delete_ne; [done|]. intros <-. pose proof (slot_range _ _ _ _ Hc Hs) as Hr.
    pose proof (class_page_aligned _ _ _ _ _ _ _ Hi Hc Hp) as (g & -> & Hg). destruct (virt_facts g Hg) as (Hga & _).
    apply (Hcl _ _ _ Hc Hp). unfold HEAP_PAGE_SIZEOF in Hr. pose proof (class_facts _ _ Hc). dlia.
  - intros p sz' [Hne Hp]%lookup_delete_Some. destruct (hi_live _ _ _ _ Hi _ _ Hp) as [?|(pg' & nx' & hd' & o' & E' & -> & ?)]; [by left|].
    right. exists pg', nx', hd', o'. rewrite lookup_delete_ne; [done|]. intros <-. by apply Hne.
Qed.

(** ** kmalloc *)

Lemma blocks_insert ps fs fs' f p :
  blocks_ok ps fs -> fr_block f (order_of p) -> (forall x, in_block f (order_of p) x -> ~ fr_used fs x) ->
  (forall x, fr_used fs' x <-> fr_used fs x \/ in_block f (order_of p) x) ->
  ps !! virt f = None /\ blocks_ok (<[virt f := p]> ps) fs'.
Proof.
  intros [B1 B2] Hb Hn Hu. pose proof (fr_block_range _ _ Hb) as (Ho & _ & _). pose proof (pow_pos _ Ho).
  assert (forall g r x, ps !! virt g = Some r -> in_block g (order_of r) x -> fr_used fs x) as Hold.
  { intros g r x Hg Hx. destruct (B1 _ _ Hg) as (g' & <-%virt_inj & _ & Hall). by apply Hall. }
  assert (ps !! virt f = None) as Hf.
  { destruct (ps !! virt f) as [r|] eqn:E; [exfalso|done]. destruct (B1 _ _ E) as (g & <-%virt_inj & Hg & Hall).
    pose proof (fr_block_range _ _ Hg) as (Hgo & _ & _). pose proof (pow_pos _ Hgo).
    apply (Hn f); [unfold in_block; lia|]. apply Hall. unfold in_block. lia. }
  split; [done|]. split.
  - intros q r Hq. destruct (decide (q = virt f)) as [->|Hne].
    + rewrite lookup_insert_eq in Hq. injection Hq as <-. exists f. split_and!; try done. intros x Hx. apply Hu. by right.
    + rewrite lookup_insert_ne in Hq by done. destruct (B1 q r Hq) as (g & -> & Hg & Hall). exists g.
      split_and!; try done. intros x Hx. apply Hu. left. by apply Hall.
  - intros g g' r r' Hg Hg' Hne x Hx Hx'. rewrite lookup_insert_Some in Hg, Hg'.
    destruct Hg as [[Eg <-]|[Ng Hg]], Hg' as [[Eg' <-]|[Ng' Hg']].
    + apply Hne, virt_inj. congruence.
    + apply virt_inj in Eg as <-. by apply (Hn x), (Hold g' r').
    + apply virt_inj in Eg' as <-. by apply (Hn x), (Hold g r).
    + exact (B2 g g' r r' Hg Hg' Hne x Hx Hx').
Qed.

Lemma fresh_page_not_live h live C F f s :
  hinv h live C F -> pages h !! virt f = None -> 0 < f < PMM_MAX_FRAMES -> virt f <= s < virt f + 4096 -> live !! s = None.
Proof.
  intros Hi Hn Hf Hs. destruct (live !! s) as [sz|] eqn:E; [exfalso|done]. destruct (virt_facts f Hf) as (Ha & _).
  destruct (hi_live _ _ _ _ Hi _ _ E) as [(i & sc & pg & Hc & Hp & Hsl)|(pg & nx & hd & o & Ep & -> & _)].
  - pose proof (class_page_aligned _ _ _ _ _ _ _ Hi Hc Hp) as (g & -> & Hg). destruct (virt_facts g Hg) as (Hga & _).
    pose proof (slot_range _ _ _ _ Hc Hsl). pose proof (class_facts _ _ Hc). unfold HEAP_PAGE_SIZEOF in *.
    assert (virt g = virt f) as Eg by dlia. destruct (hi_page _ _ _ _ Hi _ _ _ Hc Hp) as [(nx & hd & E' & _) _ _]. congruence.
  - destruct (block_frame _ _ _ _ (hi_blocks _ _ _ _ Hi) Ep) as (g & -> & Hg). destruct (virt_facts g Hg) as (Hga & _).
    unfold HEAP_PAGE_SIZEOF in *. assert (virt g = virt f) as Eg by dlia. congruence.
Qed.

Lemma class_page_lookup h live C F i hd q :
  hinv h live C F -> class_pages h !! i = Some hd -> q ∈ C i -> is_Some (pages h !! q).
Proof.
  intros Hi Hh Hq. assert (exists sc, heap_size_classes !! i = Some sc) as [sc Hc].
  { apply lookup_lt_is_Some_2. rewrite <- (hi_len _ _ _ _ Hi). by eapply lookup_lt_Some. }
  destruct (hi_page _ _ _ _ Hi _ _ _ Hc Hq) as [(nx & hd' & E & _) _ _]. by eexists.
Qed.

Lemma order_loop_ok fuel o n :
  0 <= o -> 0 < n <= 2 ^ 52 -> (52 - o < Z.of_nat fuel) -> o <= 52 ->
  exists o', order_loop fuel o n = Some o' /\ o <= o' <= 52 /\ n <= 2 ^ o'.
Proof.
  revert o. induction fuel as [|fuel IH]; intros o Ho Hn Hf Ho2; [lia|]. cbn [order_loop].
  rewrite Z.shiftl_1_l. assert (2 ^ o <= 2 ^ 52) by (apply Z.pow_le_mono_r; lia).
  rewrite u64_small by lia. destruct (Z.ltb_spec (2 ^ o) n).
  - assert (o <> 52) by (intros ->; lia). destruct (IH (o + 1)) as (o' & -> & ? & ?); [lia..|]. exists o'. split; [done|]. lia.
  - exists o. split; [done|]. lia.
Qed.

(** A new large block. *)
Lemma large_block_ok h live C F fs f o sz :
  hinv h live C F -> fr_inv fs -> fr_block f o -> (forall x, in_block f o x -> ~ fr_used (frames h) x) ->
  (forall x, fr_used fs x <-> fr_used (frames h) x \/ in_block f o x) ->
  2048 < sz -> sz + HEAP_PAGE_SIZEOF <= 2 ^ o * PMM_FRAME_SIZE ->
  live !! (virt f + HEAP_PAGE_SIZEOF) = None
  /\ hinv (with_page (with_frames h fs) (virt f) (HeapPage 0 0 HEAP_LARGE_MARKER o))
          (<[virt f + HEAP_PAGE_SIZEOF := sz]> live) C F.
Proof.
  intros Hi Hfs Hb Hn Hu Hsz Hfit. pose proof (fr_block_range _ _ Hb) as (Ho & Hf & Hfo). pose proof (pow_pos o Ho).
  destruct (blocks_insert (pages h) (frames h) fs f (HeapPage 0 0 HEAP_LARGE_MARKER o)) as [Hnone Hbl];
    [apply Hi|exact Hb|exact Hn|exact Hu|].
  assert (forall s, virt f <= s < virt f + 4096 -> live !! s = None) as Hnl.
  { intros s. eapply fresh_page_not_live; [done|done|lia]. }
  split; [apply Hnl; unfold HEAP_PAGE_SIZEOF; lia|]. split; cbn [frames class_pages pages mem with_page with_frames]; try done; try apply Hi.
  - intros i hd Hh. apply (pchain_frame (pages h)); [|by apply (hi_chain _ _ _ _ Hi)].
    intros q hdr _ Eq. exists hdr. rewrite lookup_insert_ne; [done|]. intros <-. congruence.
  - intros i sc pg Hc Hp. destruct (hi_page _ _ _ _ Hi _ _ _ Hc Hp) as [(nx & hd & E & Hch) H2 H3].
    split; [|done|done]. exists nx, hd. cbn. rewrite lookup_insert_ne; [done|]. intros <-. congruence.
  - intros i sc pg s Hc Hp Hs. pose proof (hi_slots _ _ _ _ Hi _ _ _ _ Hc Hp Hs) as Hsl.
    rewrite lookup_insert_ne; [done|]. intros <-.
    pose proof (class_page_aligned _ _ _ _ _ _ _ Hi Hc Hp) as (g & -> & Hg). destruct (virt_facts g Hg) as (Hga & _).
    destruct (virt_facts f) as (Hfa & _); [lia|].
    pose proof (slot_range _ _ _ _ Hc Hs). pose proof (class_facts _ _ Hc). unfold HEAP_PAGE_SIZEOF in *.
    assert (virt g = virt f) as Eg by dlia. destruct (hi_page _ _ _ _ Hi _ _ _ Hc Hp) as [(nx & hd & E' & _) _ _]. congruence.
  - intros p sz' Hp. rewrite lookup_insert_Some in Hp. destruct Hp as [[<- <-]|[_ Hp]].
    + right. exists (virt f), 0, 0, o. by rewrite lookup_insert_eq.
    + destruct (hi_live _ _ _ _ Hi _ _ Hp) as [?|(pg & nx & hd & o' & E' & ?)]; [by left|right].
      exists pg, nx, hd, o'. rewrite lookup_insert_ne; [done|]. intros <-. congruence.
Qed.

(** What a kmalloc of [sz] bytes gives. *)
Definition malloced (h : heap S) (live : gmap Z Z) (sz : Z) (r : option (Z * heap S)) : Prop :=
  exists p h', r = Some (p, h')
    /\ ((p = 0 /\ h' = h) \/ (p <> 0 /\ live !! p = None /\ exists C F, hinv h' (<[p := sz]> live) C F)).

Lemma with_frames_id (h : heap S) : with_frames h (frames h) = h.
Proof. by destruct h. Qed.

Lemma kmalloc_large_ok h live C F sz :
  hinv h live C F -> 2048 < sz <= 2 ^ 63 -> malloced h live sz (kmalloc_large h sz).
Proof.
  intros Hi Hsz. unfold kmalloc_large, HEAP_PAGE_SIZEOF, PMM_FRAME_SIZE.
  rewrite (u64_small (sz + 64)), (u64_small (sz + 64 + 4096 - 1)) by lia.
  destruct (order_loop_ok 64 0 ((sz + 64 + 4096 - 1) / 4096)) as (o & -> & Ho & Hno); [lia|dlia|lia|lia|].
  destruct (fr_alloc_law (frames h) o (hi_frames _ _ _ _ Hi)) as [->|(f & fs & -> & Hfs & Hb & Hn & Hu)]; [lia| |].
  - exists 0, h. split; [cbn; by rewrite with_frames_id|by left].
  - pose proof (fr_block_range _ _ Hb) as (_ & Hf & Hfo). pose proof (pow_pos o ltac:(lia)).
    rewrite addr_nonzero by lia. destruct (virt_facts f) as (_ & Hv & _ & -> & _); [lia|].
    destruct (large_block_ok h live C F fs f o sz) as [Hl Hi']; try done; try lia.
    { unfold HEAP_PAGE_SIZEOF, PMM_FRAME_SIZE. dlia. }
    eexists _, _. split; [reflexivity|]. right. unfold HEAP_PAGE_SIZEOF in *. split; [lia|]. split; [done|]. by exists C, F.
Qed.

(** A new page of a class, linked in front of the class's pages. *)
Definition linked (h : heap S) (fs : S) (i : nat) (sc head f : Z) (m : gmap Z Z) (fl : Z) : heap S :=
  Heap (<[i := virt f]> (class_pages h)) (<[virt f := HeapPage head fl sc (slot_count sc)]> (pages h)) m fs.

Lemma new_page_ok h live C F fs i sc head f m fl :
  hinv h live C F -> heap_size_classes !! i = Some sc -> class_pages h !! i = Some head ->
  fr_inv fs -> fr_block f 0 -> (forall x, in_block f 0 x -> ~ fr_used (frames h) x) ->
  (forall x, fr_used fs x <-> fr_used (frames h) x \/ in_block f 0 x) ->
  schain m fl (rev (slots (virt f) sc)) -> (forall a, a ∉ slots (virt f) sc -> m !! a = mem h !! a) ->
  hinv (linked h fs i sc head f m fl) live (upd_at C i (virt f :: C i)) (upd_at F (virt f) (rev (slots (virt f) sc))).
Proof.
  intros Hi Hc Hh Hfs Hb Hn Hu Hch Hm. pose proof (fr_block_range _ _ Hb) as (_ & Hf & Hfo).
  assert (order_of (HeapPage head fl sc (slot_count sc)) = 0) as Ho.
  { unfold order_of. cbn. rewrite (proj2 (Z.eqb_neq sc _)); [done|]. intros ->. by eapply large_not_class. }
  destruct (blocks_insert (pages h) (frames h) fs f (HeapPage head fl sc (slot_count sc))) as [Hnone Hbl];
    [apply Hi|rewrite Ho; done..|]. change (2 ^ 0) with 1 in Hfo. destruct (virt_facts f) as (Hfa & Hv & _); [lia|].
  assert (forall j q, is_Some (heap_size_classes !! j) -> q ∈ C j -> q <> virt f) as Hq.
  { intros j q [sc' Hj] Hq ->. destruct (hi_page _ _ _ _ Hi _ _ _ Hj Hq) as [(nx & hd & E & _) _ _]. congruence. }
  assert (forall j q, class_pages h !! j = Some q -> is_Some (heap_size_classes !! j)) as Hlen.
  { intros j q Hj. apply lookup_lt_is_Some_2. rewrite <- (hi_len _ _ _ _ Hi). by eapply lookup_lt_Some. }
  assert (forall j hd, class_pages h !! j = Some hd ->
            pchain (<[virt f := HeapPage head fl sc (slot_count sc)]> (pages h)) hd (C j)) as Hpc.
  { intros j hd Hj. apply (pchain_frame (pages h)); [|by apply (hi_chain _ _ _ _ Hi)].
    intros q hdr Hin Eq. exists hdr. rewrite lookup_insert_ne; [done|]. intros <-. eapply Hq; [by eapply Hlen|done|done]. }
  assert (forall j sc' pg s, heap_size_classes !! j = Some sc' -> pg ∈ C j -> is_slot pg sc' s -> ~ is_slot (virt f) sc s) as Hother.
  { intros j sc' pg s Hj Hpj H1 H2. pose proof (class_page_aligned _ _ _ _ _ _ _ Hi Hj Hpj) as (g & -> & Hg).
    destruct (virt_facts g Hg) as (Hga & _). apply (Hq j (virt g)); [by eexists|done|]. by apply (slot_of_page j i sc' sc _ _ s). }
  split; cbn [linked frames class_pages pages mem]; try done.
  - rewrite length_insert. apply Hi.
  - intros j hd Hj. destruct (decide (j = i)) as [->|Hne].
    + rewrite upd_at_eq. rewrite list_lookup_insert_eq in Hj by (by eapply lookup_lt_Some). injection Hj as <-.
      split; [done|]. split; [lia|]. rewrite lookup_insert_eq. eexists. split; [done|]. by apply Hpc.
    + rewrite upd_at_ne by done. rewrite list_lookup_insert_ne in Hj by done. by apply Hpc.
  - intros j. destruct (decide (j = i)) as [->|Hne]; [|rewrite upd_at_ne by done; apply Hi].
    rewrite upd_at_eq. apply NoDup_cons. split; [|apply Hi]. intros Hin. by eapply Hq; [eexists|..].
  - intros j sc' pg Hj Hpj. destruct (decide (pg = virt f)) as [->|Hne].
    + assert (j = i) as ->.
      { destruct (decide (j = i)); [done|]. rewrite upd_at_ne in Hpj by done. exfalso. by eapply Hq; [eexists|..]. }
      assert (sc' = sc) as -> by congruence. rewrite upd_at_eq. split.
      * exists head, fl. cbn. rewrite lookup_insert_eq, length_rev, (slots_length _ i) by done. done.
      * rewrite <- Permutation_rev. by apply (slots_nodup i).
      * intros s. rewrite <- Permutation_rev. by rewrite slots_elem.
    + assert (pg ∈ C j) as Hpj'.
      { destruct (decide (j = i)) as [->|]; [|by rewrite upd_at_ne in Hpj]. rewrite upd_at_eq in Hpj.
        apply elem_of_cons in Hpj as [?|?]; done. }
      rewrite upd_at_ne by done. destruct (hi_page _ _ _ _ Hi _ _ _ Hj Hpj') as [(nx & hd & E & Hs) H2 H3].
      split; [|done|done]. exists nx, hd. cbn. rewrite lookup_insert_ne by done. split; [done|].
      apply (schain_frame (mem h)); [|done]. intros s Hin. apply Hm. rewrite slots_elem. eapply Hother; [done|done|by apply H3].
  - intros j sc' pg s Hj Hpj Hs. destruct (decide (pg = virt f)) as [->|Hne].
    + assert (j = i) as ->.
      { destruct (decide (j = i)); [done|]. rewrite upd_at_ne in Hpj by done. exfalso. by eapply Hq; [eexists|..]. }
      assert (sc' = sc) as -> by congruence. rewrite upd_at_eq. left. rewrite <- Permutation_rev, slots_elem. split; [done|].
      pose proof (slot_range _ _ _ _ Hj Hs). pose proof (class_facts _ _ Hj). unfold HEAP_PAGE_SIZEOF in *.
      eapply fresh_page_not_live; [done|done|lia|lia].
    + assert (pg ∈ C j) as Hpj'.
      { destruct (decide (j = i)) as [->|]; [|by rewrite upd_at_ne in Hpj]. rewrite upd_at_eq in Hpj.
        apply elem_of_cons in Hpj as [?|?]; done. }
      rewrite upd_at_ne by done. by eapply (hi_slots _ _ _ _ Hi).
  - intros p sz Hp. destruct (hi_live _ _ _ _ Hi _ _ Hp) as [(j & sc' & pg & Hj & Hpj & Hs)|(pg & nx & hd & o & E & ?)].
    + left. exists j, sc', pg. split_and!; try done. destruct (decide (j = i)) as [->|]; [|by rewrite upd_at_ne].
      rewrite upd_at_eq. apply elem_of_cons. by right.
    + right. exists pg, nx, hd, o. rewrite lookup_insert_ne; [done|]. intros <-. congruence.
Qed.

Lemma slot_nonempty (F : Z -> list Z) h live C i sc pg :
  hinv h live C F -> heap_size_classes !! i = Some sc -> pg ∈ C i ->
  (exists p, pages h !! pg = Some p /\ free_list p <> 0) -> exists s fl, F pg = s :: fl.
Proof.
  intros Hi Hc Hp (p & E & Hfl). destruct (hi_page _ _ _ _ Hi _ _ _ Hc Hp) as [(nx & hd & E' & Hch) _ _].
  rewrite E in E'. injection E' as ->. cbn in Hfl. destruct (F pg) as [|s fl]; [done|eauto].
Qed.

Lemma kmalloc_small_ok h live C F i sc sz :
  hinv h live C F -> heap_size_classes !! i = Some sc -> 0 < sz <= sc -> malloced h live sz (kmalloc_small h i sc).
Proof.
  intros Hi Hc Hsz. unfold kmalloc_small.
  destruct (lookup_lt_is_Some_2 (class_pages h) i) as [head Hh].
  { rewrite (hi_len _ _ _ _ Hi). by eapply lookup_lt_Some. }
  rewrite Hh. destruct (find_page_ok h (Datatypes.S (size (pages h))) head (C i)) as (pg & -> & Hpg).
  { by apply (hi_chain _ _ _ _ Hi). }
  { pose proof (pchain_length _ _ _ (hi_chain _ _ _ _ Hi _ _ Hh) (hi_cnodup _ _ _ _ Hi i)). lia. }
  destruct Hpg as [->|(Hin & Hpg0 & Hp)].
  2:{ rewrite (proj2 (Z.eqb_neq pg 0)) by done. destruct (slot_nonempty F h live C i sc pg) as (s & fl & Hf); try done.
      destruct (take_slot_ok h live C F i sc pg s fl sz) as (h' & -> & Hi' & Hl & Hs & _); try done.
      destruct (aligned_ptr _ _ _ _ _ _ _ _ Hi Hc Hin Hs) as [Hs0 _].
      exists s, h'. split; [done|]. right. split_and!; try done. eauto. }
  cbn [Z.eqb]. unfold heap_new_page.
  destruct (fr_alloc_law (frames h) 0 (hi_frames _ _ _ _ Hi)) as [->|(f & fs & -> & Hfs & Hb & Hn & Hu)]; [lia| |].
  { exists 0, h. split; [cbn; by rewrite with_frames_id|by left]. }
  pose proof (fr_block_range _ _ Hb) as (_ & Hf & Hfo). change (2 ^ 0) with 1 in Hfo.
  rewrite addr_nonzero by lia. destruct (virt_facts f) as (Ha & Hv & _ & -> & _); [lia|].
  destruct (carve_ok (virt f + HEAP_PAGE_SIZEOF) sc (mem h) (seqZ 0 (slot_count sc)) 0 []) as (m & fl & Ec & Hch & Hm).
  { done. }
  { pose proof (class_facts _ _ Hc). intros k Hk%elem_of_seqZ. unfold HEAP_PAGE_SIZEOF. split; [by apply not_elem_of_nil|]. nia. }
  { apply (slots_nodup i); done. }
  change (mem (with_frames h fs)) with (mem h). rewrite Ec. rewrite (proj2 (Z.eqb_neq (virt f) 0)) by lia.
  cbn [pages with_page with_mem with_frames]. rewrite lookup_insert_eq. cbn [free_list size_class meta].
  set (h2 := with_class _ _ _). assert (h2 = linked h fs i sc head f m fl) as ->.
  { unfold h2, linked, with_class, with_page, with_mem, with_frames. cbn. by rewrite insert_insert_eq. }
  fold (slots (virt f) sc) in *. rewrite app_nil_r in Hch.
  pose proof (new_page_ok h live C F fs i sc head f m fl Hi Hc Hh Hfs Hb Hn Hu Hch Hm) as Hi2.
  pose proof (class_facts _ _ Hc) as Hcf. pose proof (slots_length (virt f) i sc Hc) as Hsl.
  destruct (rev (slots (virt f) sc)) as [|s fl'] eqn:Er.
  { apply (f_equal length) in Er. rewrite length_rev in Er. simpl in Er. lia. }
  destruct (take_slot_ok _ _ _ _ i sc (virt f) s fl' sz Hi2) as (h' & Et & Hi' & Hl & Hs & _); try done.
  { rewrite upd_at_eq. apply elem_of_cons. by left. }
  { by rewrite upd_at_eq. }
  rewrite Et. exists s, h'. split; [done|]. right. split_and!; [|done|eauto].
  pose proof (slot_range _ _ _ _ Hc Hs). unfold HEAP_PAGE_SIZEOF in *. lia.
Qed.

Lemma kmalloc_ok h live C F sz :
  hinv h live C F -> 0 < sz <= 2 ^ 63 -> malloced h live sz (kmalloc_locked h sz).
Proof.
  intros Hi Hsz. unfold kmalloc_locked, HEAP_SLOT_SIZEOF. rewrite (proj2 (Z.eqb_neq sz 0)) by lia.
  pose proof (size_class_for_spec (if sz <? 8 then 8 else sz)) as Hc. destruct (size_class_for _) as [[i sc]|].
  - destruct Hc as [Hc Hle]. eapply kmalloc_small_ok; [done|done|]. destruct (Z.ltb_spec sz 8); lia.
  - destruct (Z.ltb_spec sz 8); [lia|]. eapply kmalloc_large_ok; [done|lia].
Qed.

(** ** Live blocks *)

(** The block of frames that holds a live block, and where in it. *)
Lemma live_extent h live C F p sz :
  hinv h live C F -> live !! p = Some sz ->
  exists f hdr, pages h !! virt f = Some hdr /\ 0 < f < PMM_MAX_FRAMES
    /\ virt f + HEAP_PAGE_SIZEOF <= p /\ 0 < sz /\ p + sz <= virt f + 2 ^ order_of hdr * 4096 /\ p mod 16 = 0
    /\ ((exists i, heap_size_classes !! i = Some (size_class hdr) /\ is_slot (virt f) (size_class hdr) p /\ sz <= size_class hdr
           /\ virt f ∈ C i)
        \/ p = virt f + HEAP_PAGE_SIZEOF /\ size_class hdr = HEAP_LARGE_MARKER).
Proof.
  intros Hi Hl. destruct (hi_live _ _ _ _ Hi _ _ Hl) as [(i & sc & pg & Hc & Hp & Hs)|(pg & nx & hd & o & E & -> & Hsz & Hfit)].
  - destruct (hi_page _ _ _ _ Hi _ _ _ Hc Hp) as [(nx & hd & E & _) _ _].
    pose proof (class_page_aligned _ _ _ _ _ _ _ Hi Hc Hp) as (f & -> & Hf). destruct (virt_facts f Hf) as (Ha & _).
    destruct (hi_slots _ _ _ _ Hi _ _ _ _ Hc Hp Hs) as [[_ ?]|(_ & sz' & E' & Hsz)]; [congruence|].
    assert (sz' = sz) as -> by congruence. pose proof (slot_range _ _ _ _ Hc Hs) as (R1 & R2 & R3).
    eexists f, _. split; [exact E|]. unfold order_of. cbn [size_class].
    rewrite (proj2 (Z.eqb_neq sc _)) by (intros ->; by eapply large_not_class). change (2 ^ 0 * 4096) with 4096.
    split_and!; try lia; [dlia|]. left. exists i. split_and!; try done. lia.
  - destruct (block_frame _ _ _ _ (hi_blocks _ _ _ _ Hi) E) as (f & -> & Hf). destruct (virt_facts f Hf) as (Ha & _).
    eexists f, _. split; [exact E|]. unfold order_of, HEAP_PAGE_SIZEOF, PMM_FRAME_SIZE in *. cbn. split_and!; try lia; try (by right). dlia.
Qed.

(** Blocks of different pages lie apart in memory. *)
Lemma pages_apart h live C F f g p q :
  hinv h live C F -> pages h !! virt f = Some p -> pages h !! virt g = Some q -> f <> g ->
  virt f + 2 ^ order_of p * 4096 <= virt g \/ virt g + 2 ^ order_of q * 4096 <= virt f.
Proof.
  intros Hi Hp Hq Hne. pose proof (hi_blocks _ _ _ _ Hi) as Hb.
  destruct (bl_block _ _ Hb _ _ Hp) as (f' & <-%virt_inj & Hf%fr_block_range & _).
  destruct (bl_block _ _ Hb _ _ Hq) as (g' & <-%virt_inj & Hg%fr_block_range & _).
  pose proof (bl_disj _ _ Hb f g p q Hp Hq Hne (Z.max f g)) as Hd. unfold in_block in Hd.
  pose proof (pow_pos (order_of p)). pose proof (pow_pos (order_of q)). unfold virt, addr, PMM_FRAME_SIZE. lia.
Qed.

Lemma live_disjoint h live C F p q sp sq :
  hinv h live C F -> live !! p = Some sp -> live !! q = Some sq -> p <> q -> p + sp <= q \/ q + sq <= p.
Proof.
  intros Hi Hp Hq Hne. destruct (live_extent _ _ _ _ _ _ Hi Hp) as (f & hp & Ef & Hf & P1 & P2 & P3 & _ & Pk).
  destruct (live_extent _ _ _ _ _ _ Hi Hq) as (g & hq & Eg & Hg & Q1 & Q2 & Q3 & _ & Qk).
  unfold HEAP_PAGE_SIZEOF in *. destruct (decide (f = g)) as [<-|Hfg].
  - rewrite Ef in Eg. injection Eg as <-. destruct Pk as [(i & Hc & Hs & Hsz & _)|[-> El]], Qk as [(j & Hc' & Hs' & Hsz' & _)|[-> El']].
    + pose proof (slots_disjoint _ _ _ _ _ Hc Hs Hs'). lia.
    + rewrite El' in Hc. by eapply large_not_class in Hc.
    + rewrite El in Hc'. by eapply large_not_class in Hc'.
    + done.
  - pose proof (pages_apart _ _ _ _ f g _ _ Hi Ef Eg Hfg). lia.
Qed.

(** Owners write only into their own blocks: the word at [a] may change if it overlaps one. *)
Definition writes_own (live m m' : gmap Z Z) : Prop :=
  forall a, m' !! a = m !! a \/ exists p sz, live !! p = Some sz /\ p < a + 8 /\ a < p + sz.

Lemma write_ok h live C F m' : hinv h live C F -> writes_own live (mem h) m' -> hinv (with_mem h m') live C F.
Proof.
  intros Hi Hw. split; cbn [with_mem frames class_pages pages mem]; try apply Hi. intros i sc pg Hc Hp.
  destruct (hi_page _ _ _ _ Hi _ _ _ Hc Hp) as [(nx & hd & E & Hch) H2 H3]. split; [|done|done].
  exists nx, hd. split; [done|]. apply (schain_frame (mem h)); [|done]. intros s Hs. destruct (Hw s) as [?|(p & sz & Hl & O1 & O2)]; [done|].
  exfalso. pose proof (H3 s Hs) as Hsl. pose proof (slot_range _ _ _ _ Hc Hsl) as (R1 & R2 & _). pose proof (class_facts _ _ Hc).
  pose proof (class_page_aligned _ _ _ _ _ _ _ Hi Hc Hp) as (f & -> & Hf).
  destruct (live_extent _ _ _ _ _ _ Hi Hl) as (g & hp & Eg & Hg & P1 & P2 & P3 & _ & Pk). unfold HEAP_PAGE_SIZEOF in *.
  destruct (decide (f = g)) as [<-|Hfg].
  - rewrite E in Eg. injection Eg as <-. cbn [size_class] in Pk. destruct Pk as [(j & _ & Hs' & Hsz & _)|[_ ->]]; [|by eapply large_not_class].
    destruct (slots_disjoint _ _ _ _ _ Hc Hsl Hs') as [<-|?]; [|lia].
    destruct (hi_slots _ _ _ _ Hi _ _ _ _ Hc Hp Hsl) as [[_ ?]|[? _]]; congruence || done.
  - destruct (pages_apart _ _ _ _ f g _ _ Hi E Eg Hfg) as [Ha|Ha]; [|lia]. unfold order_of in Ha. cbn [size_class] in Ha.
    rewrite (proj2 (Z.eqb_neq sc _)) in Ha by (intros ->; by eapply large_not_class). change (2 ^ 0 * 4096) with 4096 in Ha. lia.
Qed.

Lemma kfree_ok h live C F p sz :
  hinv h live C F -> live !! p = Some sz -> exists h' C' F', kfree_locked h p = Some h' /\ hinv h' (delete p live) C' F'.
Proof.
  intros Hi Hl. destruct (hi_live _ _ _ _ Hi _ _ Hl) as [(i & sc & pg & Hc & Hp & Hs)|(pg & nx & hd & o & E & -> & _)].
  - destruct (kfree_small_ok h live C F i sc pg p sz) as (h' & ? & ? & _); try done. eauto.
  - destruct (kfree_large_ok h live C F pg nx hd o sz) as (h' & ? & ?); try done. eauto.
Qed.

Lemma heap_init_ok fs : fr_inv fs -> hinv (heap_init fs) ∅ (fun _ => []) (fun _ => []).
Proof.
  intros Hfs. split; cbn [heap_init frames class_pages pages mem]; try done.
  - intros i hd Hi. by apply lookup_replicate in Hi as [-> _].
  - intros _. apply NoDup_nil_2.
  - by intros i sc pg _ ?%elem_of_nil.
  - by intros i sc pg s _ ?%elem_of_nil.
Qed.

(** ** Executions *)

Inductive hstep : heap S * gmap Z Z -> heap S * gmap Z Z -> Prop :=
  | step_malloc h live sz p h' :
      0 < sz <= 2 ^ 63 -> kmalloc_locked h sz = Some (p, h') ->
      hstep (h, live) (h', if p =? 0 then live else <[p := sz]> live)
  | step_free h live p sz h' :
      live !! p = Some sz -> kfree_locked h p = Some h' -> hstep (h, live) (h', delete p live)
  | step_write h live m' :
      writes_own live (mem h) m' -> hstep (h, live) (with_mem h m', live).

Definition heap_reach (fs : S) (h : heap S) (live : gmap Z Z) : Prop :=
  rtc hstep (heap_init fs, ∅) (h, live).

Lemma heap_reach_inv fs h live : fr_inv fs -> heap_reach fs h live -> exists C F, hinv h live C F.
Proof.
  intros Hfs Hr. unfold heap_reach in Hr.
  assert (forall x y, rtc hstep x y -> (exists C F, hinv (fst x) (snd x) C F) -> exists C F, hinv (fst y) (snd y) C F) as Hgen.
  { induction 1 as [x|x y z Hs _ IH]; [done|]. intros (C & F & Hi). apply IH. destruct Hs as [h0 l0 sz p h' Hsz E|h0 l0 p sz h' Hl E|h0 l0 m' Hw].
    - destruct (kmalloc_ok h0 l0 C F sz Hi Hsz) as (p' & h'' & E' & Hk). cbn in *. rewrite E in E'. injection E' as <- <-.
      destruct Hk as [[-> ->]|(Hp & _ & C' & F' & Hi')]; [by exists C, F|]. rewrite (proj2 (Z.eqb_neq p 0)) by done. eauto.
    - destruct (kfree_ok h0 l0 C F p sz Hi Hl) as (h'' & C' & F' & E' & Hi'). cbn in *. rewrite E in E'. injection E' as <-. eauto.
    - exists C, F. by apply write_ok. }
  apply (Hgen _ _ Hr). do 2 eexists. by apply heap_init_ok.
Qed.

(** C3: memory safety of the heap over any frame allocator that keeps its interface, for requests
    of 1 to 2^63 bytes.  In every state reachable by kmalloc calls with such sizes, kfree of live pointers and
    writes of the owners into their own blocks: live blocks are pairwise disjoint, 16-byte aligned, inside the
    address space and clear of every page header; and neither a kmalloc of such a size nor the kfree of a
    live pointer makes a wild access or runs out of fuel.  The bound is needed: close to 2^64 the rounding
    of the size wraps and kmalloc answers a block of one frame ([heap_size_wraps]). *)
Theorem heap_memory_safe fs h live :
  fr_inv fs -> heap_reach fs h live ->
  (forall p q sp sq, live !! p = Some sp -> live !! q = Some sq -> p <> q -> p + sp <= q \/ q + sq <= p)
  /\ (forall p sz, live !! p = Some sz -> p mod 16 = 0 /\ 0 < p /\ 0 < sz /\ p + sz < 2 ^ 64
        /\ forall pg hdr, pages h !! pg = Some hdr -> p + sz <= pg \/ pg + HEAP_PAGE_SIZEOF <= p)
  /\ (forall sz, 0 < sz <= 2 ^ 63 -> is_Some (kmalloc_locked h sz))
  /\ (forall p sz, live !! p = Some sz -> is_Some (kfree_locked h p)).
Proof.
  intros Hfs Hr. destruct (heap_reach_inv fs h live Hfs Hr) as (C & F & Hi). split_and!.
  - intros p q sp sq. by eapply live_disjoint.
  - intros p sz Hl. destruct (live_extent _ _ _ _ _ _ Hi Hl) as (f & hp & Ef & Hf & P1 & P2 & P3 & P4 & _).
    destruct (virt_facts f Hf) as (_ & Hv & Hw & _). unfold HEAP_PAGE_SIZEOF in *.
    destruct (bl_block _ _ (hi_blocks _ _ _ _ Hi) _ _ Ef) as (f' & <-%virt_inj & Hb%fr_block_range & _).
    split_and!; try done; try lia.
    + unfold virt, addr, PHYSMAP_BASE, PMM_FRAME_SIZE, PMM_MAX_FRAMES in *. lia.
    + intros pg hdr Hpg. destruct (block_frame _ _ _ _ (hi_blocks _ _ _ _ Hi) Hpg) as (g & -> & Hg).
      destruct (decide (f = g)) as [<-|Hfg]; [by right|].
      destruct (bl_block _ _ (hi_blocks _ _ _ _ Hi) _ _ Hpg) as (g' & <-%virt_inj & Hb'%fr_block_range & _).
      pose proof (pow_pos (order_of hdr)). destruct (pages_apart _ _ _ _ f g _ _ Hi Ef Hpg Hfg); lia.
  - intros sz Hsz. destruct (kmalloc_ok h live C F sz Hi Hsz) as (p & h' & -> & _). by eexists.
  - intros p sz Hl. destruct (kfree_ok h live C F p sz Hi Hl) as (h' & _ & _ & -> & _). by eexists.
Qed.

Lemma find_page_some (h : heap S) fuel hd l pg p :
  pchain (pages h) hd l -> pg ∈ l -> pages h !! pg = Some p -> free_list p <> 0 ->
  find_page fuel h hd <> Some 0.
Proof.
  revert hd l. induction fuel as [|fuel IH]; intros hd l Hc Hin E Hfl; [done|]. cbn [find_page].
  destruct l as [|q l]; [by apply elem_of_nil in Hin|]. destruct Hc as (-> & Hq & hdr & E' & Hc).
  rewrite (proj2 (Z.eqb_neq q 0)), E' by done. destruct (Z.eqb_spec (free_list hdr) 0) as [E0|E0]; [|congruence].
  apply elem_of_cons in Hin as [->|Hin]; [congruence|]. by eapply IH.
Qed.

(** freed slots are not stranded.  In a reachable state, after the kfree of a block of a
    size class, wherever its page is in the class's list, a kmalloc of any size of that
    class succeeds without asking for a frame. *)
Theorem heap_slot_reused fs h live p sz hdr i sz' :
  fr_inv fs -> heap_reach fs h live -> live !! p = Some sz ->
  pages h !! Z.land p (u64 (Z.lnot 0xFFF)) = Some hdr -> 8 <= sz' -> size_class_for sz' = Some (i, size_class hdr) ->
  exists h' q h'', kfree_locked h p = Some h' /\ kmalloc_locked h' sz' = Some (q, h'') /\ q <> 0 /\ frames h'' = frames h.
Proof.
  intros Hfs Hr Hl Hhdr H8 Hsz'. destruct (heap_reach_inv fs h live Hfs Hr) as (C & F & Hi).
  pose proof (size_class_for_spec sz') as Hc'. rewrite Hsz' in Hc'. destruct Hc' as [Hc Hle'].
  destruct (hi_live _ _ _ _ Hi _ _ Hl) as [(j & sc & pg & Hj & Hp & Hs)|(pg & nx & hd & o & E & -> & Hbig & _)].
  2:{ exfalso. destruct (block_frame _ _ _ _ (hi_blocks _ _ _ _ Hi) E) as (f & -> & Hf). destruct (virt_facts f Hf) as (? & ? & ? & _).
      unfold HEAP_PAGE_SIZEOF in *. rewrite (page_of (virt f)), E in Hhdr by lia. injection Hhdr as <-. by eapply large_not_class. }
  destruct (aligned_ptr _ _ _ _ _ _ _ _ Hi Hj Hp Hs) as [_ Hpg]. rewrite Hpg in Hhdr.
  assert (size_class hdr = sc) as Esc.
  { destruct (hi_page _ _ _ _ Hi _ _ _ Hj Hp) as [(nx & hd & E & _) _ _]. rewrite E in Hhdr. by injection Hhdr as <-. }
  rewrite Esc in *. assert (j = i) as -> by (by eapply class_inj). pose proof (class_facts _ _ Hc) as Hcf.
  destruct (kfree_small_ok h live C F i sc pg p sz) as (h' & Ef & Hi' & Hfr); try done.
  exists h'. destruct (hi_page _ _ _ _ Hi' _ _ _ Hc Hp) as [(nx & hd & E & Hch) _ _].
  rewrite upd_at_eq in Hch. destruct Hch as (-> & Hp0 & _).
  unfold kmalloc_locked, HEAP_SLOT_SIZEOF. rewrite (proj2 (Z.eqb_neq sz' 0)), (proj2 (Z.ltb_ge sz' 8)), Hsz' by lia.
  unfold kmalloc_small. destruct (lookup_lt_is_Some_2 (class_pages h') i) as [head Hh].
  { rewrite (hi_len _ _ _ _ Hi'). by eapply lookup_lt_Some. }
  rewrite Hh. pose proof (hi_chain _ _ _ _ Hi' _ _ Hh) as Hpc.
  destruct (find_page_ok h' (Datatypes.S (size (pages h'))) head (C i) Hpc) as (pg' & Efp & Hpg').
  { pose proof (pchain_length _ _ _ Hpc (hi_cnodup _ _ _ _ Hi' i)). lia. }
  rewrite Efp. destruct Hpg' as [->|(Hin & Hpg0 & Hfl)]; [by eapply find_page_some in Efp|].
  rewrite (proj2 (Z.eqb_neq pg' 0)) by done. destruct (slot_nonempty _ h' _ C i sc pg' Hi' Hc Hin Hfl) as (s & fl & Es).
  destruct (take_slot_ok h' _ C _ i sc pg' s fl sz' Hi' Hc Hin Es) as (h'' & Et & _ & _ & Hs' & Hfr'); [lia|].
  exists s, h''. destruct (aligned_ptr _ _ _ _ _ _ _ _ Hi' Hc Hin Hs') as [Hs0 _]. split_and!; try done. congruence.
Qed.
End Heap.

(** ** On the buddy allocator *)

(** One kmalloc on the memory of [demo_pmm]: the last slot of a page of the class 128. *)
Definition demo_ptr : Z := virt 258 + HEAP_PAGE_SIZEOF + 30 * 128.

Lemma demo_kmalloc :
  exists s L h hdr, demo_pmm = Some s /\ pinv s L /\ kmalloc_locked (heap_init s) 100 = Some (demo_ptr, h)
    /\ pages h !! Z.land demo_ptr (u64 (Z.lnot 0xFFF)) = Some hdr /\ size_class hdr = 128.
Proof.
  destruct demo_boot as (s & L & E & [Hp _] & _). exists s, L.
  assert ((fun s => (fun r => (fst r, size_class <$> pages (snd r) !! Z.land demo_ptr (u64 (Z.lnot 0xFFF))))
                      <$> kmalloc_locked (heap_init s) 100) <$> demo_pmm = Some (Some (demo_ptr, Some 128))) as Hc
    by (vm_compute; reflexivity).
  rewrite E in Hc. injection Hc as Hc. apply fmap_Some in Hc as ([p h] & Ea & Ha). injection Ha as <- Hs.
  symmetry in Hs. apply fmap_Some in Hs as (hdr & Eh & Hs). exists h, hdr.
  split; [exact E|]. split; [exact Hp|]. split; [exact Ea|]. split; [exact Eh|]. by symmetry.
Qed.

Lemma heap_demo_reach (s : pmm) h : kmalloc_locked (heap_init s) 100 = Some (demo_ptr, h) -> heap_reach s h {[demo_ptr := 100]}.
Proof.
  intros E. eapply rtc_l; [|apply rtc_refl].
  replace {[demo_ptr := 100]} with (if demo_ptr =? 0 then ∅ else <[demo_ptr := 100]> (∅ : gmap Z Z)) by reflexivity.
  by apply step_malloc.
Qed.

Lemma heap_memory_safe_witness :
  exists s h, demo_pmm = Some s /\ heap_reach s h {[demo_ptr := 100]}
    /\ (forall sz, 0 < sz <= 2 ^ 63 -> is_Some (kmalloc_locked h sz)) /\ is_Some (kfree_locked h demo_ptr).
Proof.
  destruct demo_kmalloc as (s & L & h & hdr & Ed & Hp & Ek & _ & _). exists s, h. split; [exact Ed|].
  assert (heap_reach s h {[demo_ptr := 100]}) as Hr by exact (heap_demo_reach s h Ek). split; [exact Hr|].
  assert (fr_inv s) as Hfs by (by exists L).
  destruct (heap_memory_safe s h {[demo_ptr := 100]} Hfs Hr) as (_ & _ & H1 & H2).
  split; [exact H1|]. apply (H2 demo_ptr 100). apply lookup_singleton_eq.
Defined.

Lemma heap_slot_reused_witness :
  exists s h h' q h'', demo_pmm = Some s /\ heap_reach s h {[demo_ptr := 100]}
    /\ kfree_locked h demo_ptr = Some h' /\ kmalloc_locked h' 65 = Some (q, h'') /\ q <> 0 /\ frames h'' = frames h.
Proof.
  destruct demo_kmalloc as (s & L & h & hdr & Ed & Hp & Ek & Eh & Hs).
  assert (heap_reach s h {[demo_ptr := 100]}) as Hr by exact (heap_demo_reach s h Ek).
  assert (fr_inv s) as Hfs by (by exists L).
  destruct (heap_slot_reused s h {[demo_ptr := 100]} demo_ptr 100 hdr 3 65 Hfs Hr) as (h' & q & h'' & H1 & H2 & H3 & H4).
  - apply lookup_singleton_eq.
  - exact Eh.
  - lia.
  - rewrite Hs. reflexivity.
  - exists s, h, h', q, h''. split; [exact Ed|]. split; [exact Hr|]. auto.
Defined.

(** the size of a large allocation is not checked for overflow: a kmalloc of 2^64 - 1 bytes
    gets one frame and succeeds. *)
Theorem heap_size_wraps {S} `{FrameAllocator S} (h : heap S) f fs :
  fr_alloc (frames h) 0 = Some (addr f, fs) -> 0 < f < PMM_MAX_FRAMES ->
  kmalloc_locked h (2 ^ 64 - 1)
  = Some (virt f + HEAP_PAGE_SIZEOF, with_page (with_frames h fs) (virt f) (HeapPage 0 0 HEAP_LARGE_MARKER 0)).
Proof.
  intros E Hf. unfold kmalloc_locked. change (2 ^ 64 - 1 =? 0) with false. change (2 ^ 64 - 1 <? HEAP_SLOT_SIZEOF) with false.
  change (size_class_for (2 ^ 64 - 1)) with (@None (nat * Z)). cbn [negb]. unfold kmalloc_large.
  change (order_loop 64 0 _) with (Some 0). cbv beta iota zeta. rewrite E. cbv beta iota zeta. rewrite addr_nonzero by lia.
  destruct (virt_facts f Hf) as (_ & _ & _ & -> & _). reflexivity.
Qed.
