(* ===== verification/RbTree.v ===== *)
(** * Red-black trees (kernel/lib/rbtree.c, rbtree.h): the code

    The tree as the code has it: nodes in memory at their addresses, with child
    pointers and the word [__rb_parent_color] that packs the parent pointer with the
    colour in bit 0, the root pointer, and the memory [aux] that the augment callbacks
    of a user work on.  Operations are programs of a small state monad; [None] is the
    dereference of a null or wild pointer, or fuel that runs out.

    The source writes the fix-ups and the rotation twice, once per direction; here a
    [dir] says which.  [__rb_rotate L] is [__rb_rotate_left].  The proofs are in
    RbSpec.v and RbProofs.v. *)

From stdpp Require Import base numbers list gmap.
From S2P Require Import Prelude.

Abbreviation RB_RED := 0.
Abbreviation RB_BLACK := 1.

Record rb_node := RbNode {
  __rb_parent_color : Z;
  rb_right : Z;
  rb_left : Z;
}.

Record rbst (A : Type) := RbSt {
  nodes : gmap Z rb_node;
  root : Z;
  aux : A;
}.
Arguments RbSt {A}.
Arguments nodes {A}.
Arguments root {A}.
Arguments aux {A}.

Definition rb_parent (n : rb_node) : Z := Z.land (__rb_parent_color n) (u64 (Z.lnot 3)).
Definition rb_color (n : rb_node) : Z := Z.land (__rb_parent_color n) 1.
Definition rb_is_red (n : rb_node) : bool := negb (ctrue (rb_color n)).
Definition rb_is_black (n : rb_node) : bool := ctrue (rb_color n).

Definition with_pc (w : Z) (n : rb_node) : rb_node := RbNode w (rb_right n) (rb_left n).

Inductive dir := L | R.
#[export] Instance dir_eq_dec : EqDecision dir.
Proof. solve_decision. Defined.

Definition opp (d : dir) : dir := match d with L => R | R => L end.
Definition kid (d : dir) (n : rb_node) : Z := match d with L => rb_left n | R => rb_right n end.
Definition with_kid (d : dir) (c : Z) (n : rb_node) : rb_node :=
  match d with
  | L => RbNode (__rb_parent_color n) (rb_right n) c
  | R => RbNode (__rb_parent_color n) c (rb_left n)
  end.

(** ** The monad *)

Definition M (A X : Type) : Type := rbst A -> option (X * rbst A).

Declare Scope rb_scope.
Delimit Scope rb_scope with rb.

Section Monad.
Context {A : Type}.

Definition ret {X} (x : X) : M A X := fun st => Some (x, st).
Definition bind {X Y} (m : M A X) (f : X -> M A Y) : M A Y :=
  fun st => match m st with Some (x, st) => f x st | None => None end.
Definition skip : M A unit := ret tt.

Definition get (a : Z) : M A rb_node :=
  fun st => match nodes st !! a with Some n => Some (n, st) | None => None end.
Definition upd (a : Z) (f : rb_node -> rb_node) : M A unit :=
  fun st => match nodes st !! a with
            | Some n => Some (tt, RbSt (<[a := f n]> (nodes st)) (root st) (aux st))
            | None => None
            end.
Definition get_root : M A Z := fun st => Some (root st, st).
Definition set_root (r : Z) : M A unit := fun st => Some (tt, RbSt (nodes st) r (aux st)).
End Monad.

Notation "x <- e ;; f" := (bind e (fun x => f))
  (at level 100, e at next level, f at level 200, right associativity) : rb_scope.
Notation "e ;;; f" := (bind e (fun _ => f)) (at level 100, f at level 200, right associativity) : rb_scope.
Open Scope rb_scope.

(** The callbacks of an augmented tree. *)
Record rb_augment_callbacks (A : Type) := RbAugment {
  aug_propagate : Z -> Z -> M A unit;
  aug_copy : Z -> Z -> M A unit;
  aug_rotate : Z -> Z -> M A unit;
}.
Arguments RbAugment {A}.
Arguments aug_propagate {A}.
Arguments aug_copy {A}.
Arguments aug_rotate {A}.

Section RbTree.
Context {A : Type}.
Variable aug : option (rb_augment_callbacks A).

Definition propagate (a stop : Z) : M A unit := match aug with Some cb => aug_propagate cb a stop | None => skip end.
Definition copy (a b : Z) : M A unit := match aug with Some cb => aug_copy cb a b | None => skip end.
Definition rotated (a b : Z) : M A unit := match aug with Some cb => aug_rotate cb a b | None => skip end.

(** ** Fields *)

Definition parent_of (a : Z) : M A Z := n <- get a ;; ret (rb_parent n).
Definition child (d : dir) (a : Z) : M A Z := n <- get a ;; ret (kid d n).
Definition set_child (d : dir) (a c : Z) : M A unit := upd a (with_kid d c).

Definition rb_set_parent (a p : Z) : M A unit :=
  upd a (fun n => with_pc (Z.lor (Z.land (__rb_parent_color n) 3) p) n).
Definition rb_set_parent_color (a p color : Z) : M A unit := upd a (fun n => with_pc (Z.lor p color) n).
Definition rb_set_black (a : Z) : M A unit := upd a (fun n => with_pc (Z.lor (__rb_parent_color n) RB_BLACK) n).
Definition rb_set_red (a : Z) : M A unit :=
  upd a (fun n => with_pc (Z.land (__rb_parent_color n) (u64 (Z.lnot 1))) n).

(** A NIL child counts as black. *)
Definition node_is_black (a : Z) : M A bool := if a =? 0 then ret true else n <- get a ;; ret (rb_is_black n).

Definition when (b : bool) (e : M A unit) : M A unit := if b then e else skip.
Definition nonnull (a : Z) : bool := negb (a =? 0).

(** Points the slot that holds [old] under [parent] (0: the root) at [newn]. *)
Definition relink (parent old newn : Z) : M A unit :=
  if nonnull parent then
    l <- child L parent ;;
    if l =? old then set_child L parent newn else set_child R parent newn
  else set_root newn.

(** ** Rotations *)

Definition __rb_rotate (d : dir) (node : Z) : M A unit :=
  pivot <- child (opp d) node ;;
  parent <- parent_of node ;;
  inner <- child d pivot ;;
  set_child (opp d) node inner ;;;
  when (nonnull inner) (rb_set_parent inner node) ;;;
  set_child d pivot node ;;;
  rb_set_parent node pivot ;;;
  rb_set_parent pivot parent ;;;
  relink parent node pivot ;;;
  rotated node pivot.

Definition __rb_rotate_left : Z -> M A unit := __rb_rotate L.
Definition __rb_rotate_right : Z -> M A unit := __rb_rotate R.

(** ** Insertion *)

(** Cases 2 and 3 of the fix-up, for a parent that is the [d] child of the grandparent. *)
Definition insert_rotate (d : dir) (node parent gparent : Z) : M A unit :=
  c <- child (opp d) parent ;;
  parent <- (if node =? c then __rb_rotate d parent ;;; ret node else ret parent) ;;
  rb_set_black parent ;;;
  rb_set_red gparent ;;;
  __rb_rotate (opp d) gparent.

Fixpoint insert_loop (fuel : nat) (node : Z) : M A unit :=
  match fuel with
  | O => fun _ => None
  | S fuel =>
    parent <- parent_of node ;;
    if parent =? 0 then rb_set_parent_color node 0 RB_BLACK
    else
      pn <- get parent ;;
      if rb_is_black pn then skip
      else
        gparent <- parent_of parent ;;
        gl <- child L gparent ;;
        let d := if parent =? gl then L else R in
        uncle <- child (opp d) gparent ;;
        ub <- node_is_black uncle ;;
        if negb ub then
          rb_set_black uncle ;;;
          rb_set_black parent ;;;
          rb_set_red gparent ;;;
          insert_loop fuel gparent
        else insert_rotate d node parent gparent
  end.

Definition __rb_insert (node : Z) : M A unit := fun st => insert_loop (S (size (nodes st))) node st.

Definition rb_link_node (node parent : Z) (slot : option dir) : M A unit :=
  upd node (fun _ => RbNode parent 0 0) ;;;
  match slot with Some d => set_child d parent node | None => set_root node end.

Definition rb_insert_augmented (node : Z) : M A unit :=
  p <- parent_of node ;;
  propagate p 0 ;;;
  __rb_insert node.

(** ** Deletion *)

Definition transplant (u v : Z) : M A unit :=
  up <- parent_of u ;;
  (if up =? 0 then set_root v
   else l <- child L up ;; if u =? l then set_child L up v else set_child R up v) ;;;
  when (nonnull v) (rb_set_parent v up).

(** Follows the [d] links to the end. *)
Fixpoint descend (d : dir) (fuel : nat) (n : Z) : M A Z :=
  match fuel with
  | O => fun _ => None
  | S fuel => c <- child d n ;; if nonnull c then descend d fuel c else ret n
  end.

Definition subtree_min (n : Z) : M A Z := fun st => descend L (S (size (nodes st))) n st.

(** The sibling [w] on the side opposite to the doubly black [d] child of [parent] is
    black and has a red child, which is brought to the far side of the new sibling. *)
Definition erase_straighten (d : dir) (parent w : Z) : M A Z :=
  far <- child (opp d) w ;;
  fb <- node_is_black far ;;
  if fb : bool then
    near <- child d w ;;
    when (nonnull near) (rb_set_black near) ;;;
    rb_set_red w ;;;
    __rb_rotate (opp d) w ;;;
    child (opp d) parent
  else ret w.

Definition erase_last (d : dir) (parent w : Z) : M A unit :=
  w <- erase_straighten d parent w ;;
  wn <- get w ;;
  pn <- get parent ;;
  rb_set_parent_color w (rb_parent wn) (rb_color pn) ;;;
  rb_set_black parent ;;;
  far <- child (opp d) w ;;
  when (nonnull far) (rb_set_black far) ;;;
  __rb_rotate d parent.

(** A red sibling becomes the grandparent, and the new sibling is black. *)
Definition erase_sibling (d : dir) (parent : Z) : M A Z :=
  w <- child (opp d) parent ;;
  wn <- get w ;;
  if rb_is_red wn then
    rb_set_black w ;;;
    rb_set_red parent ;;;
    __rb_rotate d parent ;;;
    child (opp d) parent
  else ret w.

Fixpoint erase_loop (fuel : nat) (x parent : Z) : M A Z :=
  match fuel with
  | O => fun _ => None
  | S fuel =>
    r <- get_root ;;
    xb <- (if x =? r then ret false else node_is_black x) ;;
    if negb xb then ret x
    else
      pl <- child L parent ;;
      let d := if x =? pl then L else R in
      w <- erase_sibling d parent ;;
      wl <- child L w ;;
      lb <- node_is_black wl ;;
      wr <- child R w ;;
      rb <- node_is_black wr ;;
      if lb && rb then
        rb_set_red w ;;;
        pp <- parent_of parent ;;
        erase_loop fuel parent pp
      else erase_last d parent w ;;; get_root
  end.

Definition __rb_erase_fixup (x parent : Z) : M A unit :=
  x <- (fun st => erase_loop (S (S (size (nodes st)))) x parent st) ;;
  when (nonnull x) (rb_set_black x).

(** [y], whose subtree hangs off its right link, takes the place and the colour of [z]. *)
Definition splice (z y : Z) : M A unit :=
  transplant z y ;;;
  zl <- child L z ;;
  set_child L y zl ;;;
  rb_set_parent zl y ;;;
  yn' <- get y ;;
  zn' <- get z ;;
  rb_set_parent_color y (rb_parent yn') (rb_color zn').

(** Takes the minimum [y] of the right subtree of [z] out of its place and gives it the
    rest of that subtree; answers the parent that [x] then has. *)
Definition pull_min (z y : Z) (yn : rb_node) : M A Z :=
  if rb_parent yn =? z then ret y
  else
    transplant y (rb_right yn) ;;;
    zr <- child R z ;;
    set_child R y zr ;;;
    rb_set_parent zr y ;;;
    ret (rb_parent yn).

(** Takes [z] out; answers [x], its parent, and whether a black node is missing there.  The
    lowest node whose subtree changed, [aug_from], is that parent in every case. *)
Definition erase_node (z : Z) : M A (Z * Z * bool) :=
  zn <- get z ;;
  if rb_left zn =? 0 then transplant z (rb_right zn) ;;; ret (rb_right zn, rb_parent zn, rb_is_black zn)
  else if rb_right zn =? 0 then transplant z (rb_left zn) ;;; ret (rb_left zn, rb_parent zn, rb_is_black zn)
  else
    y <- subtree_min (rb_right zn) ;;
    yn <- get y ;;
    x_parent <- pull_min z y yn ;;
    splice z y ;;;
    copy z y ;;;
    ret (rb_right yn, x_parent, rb_is_black yn).

Definition __rb_erase (z : Z) : M A unit :=
  r <- erase_node z ;;
  let '(x, x_parent, y_black) := r in
  let aug_from := x_parent in
  when (nonnull aug_from) (propagate aug_from 0) ;;;
  when y_black (__rb_erase_fixup x x_parent) ;;;
  when (nonnull aug_from) (propagate aug_from 0).

Definition rb_erase_augmented (z : Z) : M A unit := __rb_erase z.

(** ** Replacement *)

Definition rb_replace_node (victim newn : Z) : M A unit :=
  vn <- get victim ;;
  let parent := rb_parent vn in
  upd newn (fun _ => vn) ;;;
  when (nonnull (rb_left vn)) (rb_set_parent (rb_left vn) newn) ;;;
  when (nonnull (rb_right vn)) (rb_set_parent (rb_right vn) newn) ;;;
  if parent =? 0 then set_root newn
  else l <- child L parent ;; if victim =? l then set_child L parent newn else set_child R parent newn.

(** ** Iteration *)

Definition rb_end (d : dir) : M A Z :=
  r <- get_root ;; if r =? 0 then ret 0 else fun st => descend d (S (size (nodes st))) r st.
Definition rb_first : M A Z := rb_end L.
Definition rb_last : M A Z := rb_end R.

(** Climbs while the node is the [d] child of its parent. *)
Fixpoint climb (d : dir) (fuel : nat) (n : Z) : M A Z :=
  match fuel with
  | O => fun _ => None
  | S fuel =>
    p <- parent_of n ;;
    if p =? 0 then ret 0
    else c <- child d p ;; if n =? c then climb d fuel p else ret p
  end.

(** The neighbour on the side [d]. *)
Definition rb_step (d : dir) (node : Z) : M A Z :=
  n <- get node ;;
  if __rb_parent_color n =? node then ret 0
  else if nonnull (kid d n) then fun st => descend (opp d) (S (size (nodes st))) (kid d n) st
  else fun st => climb d (S (size (nodes st))) node st.
Definition rb_next : Z -> M A Z := rb_step R.
Definition rb_prev : Z -> M A Z := rb_step L.

(** ** The cached variant: every operation returns the new [rb_leftmost] *)

Definition rb_insert_augmented_cached (node : Z) (lm : Z) (leftmost : bool) : M A Z :=
  rb_insert_augmented node ;;; ret (if leftmost then node else lm).

Definition rb_erase_augmented_cached (node : Z) (lm : Z) : M A Z :=
  lm <- (if lm =? node then rb_next node else ret lm) ;;
  __rb_erase node ;;; ret lm.
End RbTree.

Definition rb_insert_color (node : Z) : M unit unit := __rb_insert None node.
Definition rb_erase (node : Z) : M unit unit := __rb_erase None node.

Definition rb_insert_color_cached (node : Z) (lm : Z) (leftmost : bool) : M unit Z :=
  __rb_insert None node ;;; ret (if leftmost then node else lm).
Definition rb_erase_cached (node : Z) (lm : Z) : M unit Z :=
  lm <- (if lm =? node then rb_next node else ret lm) ;;
  __rb_erase None node ;;; ret lm.
