(* ===== verification/RbSpec.v ===== *)
(** * Red-black trees: what the memory represents

    Abstract trees carry the address of every node.  [zrep st ctx t] says that the
    memory of [st] holds the tree [plug ctx t], seen from the subtree [t] at the end
    of the path [ctx]: every pointer, every parent link and every colour bit is right,
    and no address occurs twice.  The lemmas give the effect of the elementary
    writes and of a rotation on what is represented; colours are [true] for black. *)

From stdpp Require Import base numbers list gmap.
From S2P Require Import Prelude RbTree.

(** ** The packed word *)

Definition cz (b : bool) : Z := if b then RB_BLACK else RB_RED.

Definition okaddr (a : Z) : Prop := 0 < a < W64 /\ a mod 8 = 0.
Definition okptr (a : Z) : Prop := a = 0 \/ okaddr a.

Definition word (p : Z) (b : bool) : Z := p + cz b.

Lemma lor_add_low p c : p mod 4 = 0 -> c = 0 \/ c = 1 -> Z.lor p c = p + c.
Proof.
  intros Hp [-> | ->]; [by rewrite Z.lor_0_r, Z.add_0_r|].
  symmetry. rewrite <- Z.lxor_lor, Z.add_nocarry_lxor; try done.
  all: change 1 with (Z.ones 1); rewrite Z.land_ones by lia; change (2 ^ 1) with 2; dlia.
Qed.

Lemma okptr_mod p : okptr p -> p mod 4 = 0 /\ 0 <= p < W64 - 1.
Proof. intros [->|[? ?]]; [split; [done|lia]|]. split; dlia. Qed.

Lemma cz_cases b : cz b = 0 \/ cz b = 1.
Proof. destruct b; [by right|by left]. Qed.

Lemma word_lor p b : okptr p -> Z.lor p (cz b) = word p b.
Proof. intros [? _]%okptr_mod. apply lor_add_low; [done|apply cz_cases]. Qed.

Lemma land_3 x : Z.land x 3 = x mod 4.
Proof. change 3 with (Z.ones 2). by rewrite Z.land_ones by lia. Qed.

Lemma land_1 x : Z.land x 1 = x mod 2.
Proof. change 1 with (Z.ones 1). by rewrite Z.land_ones by lia. Qed.

Section words.
Context (p : Z) (b : bool) (x y : Z).
Hypothesis Hp : okptr p.

Lemma rb_parent_word : rb_parent (RbNode (word p b) x y) = p.
Proof.
  pose proof (okptr_mod p Hp). pose proof (cz_cases b). unfold rb_parent, word. cbn.
  change 3 with (2 ^ 2 - 1). rewrite land_align by lia. change (2 ^ 2) with 4. dlia.
Qed.

Lemma rb_color_word : rb_color (RbNode (word p b) x y) = cz b.
Proof.
  pose proof (okptr_mod p Hp). pose proof (cz_cases b). unfold rb_color, word. cbn. rewrite land_1. dlia.
Qed.

Lemma rb_black_word : rb_is_black (RbNode (word p b) x y) = b.
Proof. unfold rb_is_black. rewrite rb_color_word. by destruct b. Qed.

Lemma rb_red_word : rb_is_red (RbNode (word p b) x y) = negb b.
Proof. unfold rb_is_red. rewrite rb_color_word. by destruct b. Qed.

Lemma set_parent_word q : okptr q -> Z.lor (Z.land (word p b) 3) q = word q b.
Proof.
  intros Hq. rewrite Z.lor_comm, land_3. pose proof (okptr_mod p Hp). pose proof (cz_cases b).
  replace (word p b mod 4) with (cz b) by (unfold word; dlia). by apply word_lor.
Qed.

Lemma set_black_word : Z.lor (word p b) RB_BLACK = word p true.
Proof.
  rewrite <- !word_lor by done. rewrite <- Z.lor_assoc. f_equal. by destruct b.
Qed.

Lemma set_red_word : Z.land (word p b) (u64 (Z.lnot 1)) = word p false.
Proof.
  pose proof (okptr_mod p Hp). pose proof (cz_cases b). change 1 with (2 ^ 1 - 1).
  rewrite land_align by (unfold word; lia). change (2 ^ 1) with 2. unfold word, cz at 3. dlia.
Qed.
End words.

(** ** Trees and paths *)

Inductive tree := Leaf | Node (b : bool) (l : tree) (a : Z) (r : tree).

(** The node [a] with [x] on the side [d] and [y] on the other. *)
Definition mk (d : dir) (b : bool) (x : tree) (a : Z) (y : tree) : tree :=
  match d with L => Node b x a y | R => Node b y a x end.

Definition mkn (d : dir) (w x y : Z) : rb_node := match d with L => RbNode w y x | R => RbNode w x y end.

Definition ptr (t : tree) : Z := match t with Leaf => 0 | Node _ _ a _ => a end.

Fixpoint addrs (t : tree) : list Z :=
  match t with Leaf => [] | Node _ l a r => addrs l ++ a :: addrs r end.

Inductive frame := Fr (d : dir) (b : bool) (a : Z) (s : tree).

Fixpoint plug (ctx : list frame) (t : tree) : tree :=
  match ctx with [] => t | Fr d b a s :: ctx => plug ctx (mk d b t a s) end.

Definition cpar (ctx : list frame) : Z := match ctx with [] => 0 | Fr _ _ a _ :: _ => a end.

Fixpoint caddrs (ctx : list frame) : list Z :=
  match ctx with [] => [] | Fr _ _ a s :: ctx => a :: addrs s ++ caddrs ctx end.

Fixpoint rep (m : gmap Z rb_node) (t : tree) (par : Z) : Prop :=
  match t with
  | Leaf => True
  | Node b l a r => m !! a = Some (RbNode (word par b) (ptr r) (ptr l)) /\ rep m l a /\ rep m r a
  end.

Fixpoint crep (m : gmap Z rb_node) (rt : Z) (ctx : list frame) (h : Z) : Prop :=
  match ctx with
  | [] => rt = h
  | Fr d b a s :: ctx => m !! a = Some (mkn d (word (cpar ctx) b) h (ptr s)) /\ rep m s a /\ crep m rt ctx a
  end.

Definition zaddrs (ctx : list frame) (t : tree) : list Z := caddrs ctx ++ addrs t.

Record zrep {A} (st : rbst A) (ctx : list frame) (t : tree) : Prop := {
  zr_ctx : crep (nodes st) (root st) ctx (ptr t);
  zr_tree : rep (nodes st) t (cpar ctx);
  zr_nodup : NoDup (zaddrs ctx t);
  zr_ok : Forall okaddr (zaddrs ctx t);
}.

Lemma rep_mk m d b x a y par :
  rep m (mk d b x a y) par <-> m !! a = Some (mkn d (word par b) (ptr x) (ptr y)) /\ rep m x a /\ rep m y a.
Proof. destruct d; simpl; tauto. Qed.

Lemma ptr_mk d b x a y : ptr (mk d b x a y) = a.
Proof. by destruct d. Qed.

Lemma addrs_mk d b x a y : addrs (mk d b x a y) ≡ₚ a :: addrs x ++ addrs y.
Proof. destruct d; simpl; [|rewrite (Permutation_app_comm (addrs x))]; by rewrite <- Permutation_middle. Qed.

Lemma mkn_opp d w x y : mkn (opp d) w x y = mkn d w y x.
Proof. by destruct d. Qed.

Lemma mk_opp d b x a y : mk (opp d) b x a y = mk d b y a x.
Proof. by destruct d. Qed.

Lemma opp_opp d : opp (opp d) = d.
Proof. by destruct d. Qed.

Lemma kid_mkn d w x y : kid d (mkn d w x y) = x.
Proof. by destruct d. Qed.

Lemma kid_opp_mkn d w x y : kid (opp d) (mkn d w x y) = y.
Proof. by destruct d. Qed.

Lemma with_kid_mkn d w x y c : with_kid d c (mkn d w x y) = mkn d w c y.
Proof. by destruct d. Qed.

Lemma with_kid_opp_mkn d w x y c : with_kid (opp d) c (mkn d w x y) = mkn d w x c.
Proof. by destruct d. Qed.

Lemma pc_mkn d w x y : __rb_parent_color (mkn d w x y) = w.
Proof. by destruct d. Qed.

Lemma with_pc_mkn d w w' x y : with_pc w' (mkn d w x y) = mkn d w' x y.
Proof. by destruct d. Qed.

Lemma parent_mkn d p b x y : okptr p -> rb_parent (mkn d (word p b) x y) = p.
Proof. intros. destruct d; by apply rb_parent_word. Qed.

Lemma color_mkn d p b x y : okptr p -> rb_color (mkn d (word p b) x y) = cz b.
Proof. intros. destruct d; by apply rb_color_word. Qed.

Lemma black_mkn d p b x y : okptr p -> rb_is_black (mkn d (word p b) x y) = b.
Proof. intros. destruct d; by apply rb_black_word. Qed.

Lemma red_mkn d p b x y : okptr p -> rb_is_red (mkn d (word p b) x y) = negb b.
Proof. intros. destruct d; by apply rb_red_word. Qed.

Lemma zaddrs_mk d b a s ctx t : zaddrs (Fr d b a s :: ctx) t ≡ₚ zaddrs ctx (mk d b t a s).
Proof.
  unfold zaddrs. simpl. rewrite addrs_mk. rewrite <- Permutation_middle, <- app_assoc.
  constructor. rewrite (Permutation_app_comm (addrs t)), !app_assoc. f_equiv. by rewrite Permutation_app_comm.
Qed.

Lemma zrep_move {A} (st : rbst A) d b a s ctx t : zrep st (Fr d b a s :: ctx) t <-> zrep st ctx (mk d b t a s).
Proof.
  pose proof (zaddrs_mk d b a s ctx t) as HP. split; intros [H1 H2 H3 H4]; split.
  - rewrite ptr_mk. apply H1.
  - apply rep_mk. destruct H1 as (? & ? & ?). done.
  - by rewrite <- HP.
  - by rewrite <- HP.
  - rewrite ptr_mk in H1. apply rep_mk in H2 as (? & ? & ?). done.
  - apply rep_mk in H2 as (? & ? & ?). done.
  - by rewrite HP.
  - by rewrite HP.
Qed.

Lemma plug_app c1 c2 t : plug (c1 ++ c2) t = plug c2 (plug c1 t).
Proof. revert t. induction c1 as [|[d b a s] c1 IH]; intros t; simpl; [done|]. by rewrite IH. Qed.

(** Any position of a represented tree can be looked at. *)
Lemma zrep_plug {A} (st : rbst A) c1 c2 t : zrep st (c1 ++ c2) t <-> zrep st c2 (plug c1 t).
Proof. revert t. induction c1 as [|[d b a s] c1 IH]; intros t; simpl; [done|]. by rewrite <- IH, <- zrep_move. Qed.

(** ** Frames *)

Lemma rep_frame m m' t p : (forall a, a ∈ addrs t -> m' !! a = m !! a) -> rep m t p -> rep m' t p.
Proof.
  revert p. induction t as [|b l IHl a r IHr]; intros p Hm; [done|]. simpl in *. intros (H1 & H2 & H3).
  rewrite Hm by (rewrite elem_of_app, elem_of_cons; auto). split; [done|]. split.
  - apply IHl; [|done]. intros x Hx. apply Hm. rewrite elem_of_app. auto.
  - apply IHr; [|done]. intros x Hx. apply Hm. rewrite elem_of_app, elem_of_cons. auto.
Qed.

Lemma crep_frame m m' rt ctx h : (forall a, a ∈ caddrs ctx -> m' !! a = m !! a) -> crep m rt ctx h -> crep m' rt ctx h.
Proof.
  revert h. induction ctx as [|[d b a s] ctx IH]; intros h Hm; [done|]. simpl in *. intros (H1 & H2 & H3).
  rewrite Hm by (rewrite elem_of_cons; auto). split; [done|]. split.
  - apply (rep_frame m); [|done]. intros x Hx. apply Hm. rewrite elem_of_cons, elem_of_app. auto.
  - apply IH; [|done]. intros x Hx. apply Hm. rewrite elem_of_cons, elem_of_app. auto.
Qed.

Lemma rep_lookup m t p a : rep m t p -> a ∈ addrs t -> is_Some (m !! a).
Proof.
  revert p. induction t as [|b l IHl x r IHr]; intros p; simpl; [by intros _ ?%elem_of_nil|].
  intros (H1 & H2 & H3) [?|[->|?]%elem_of_cons]%elem_of_app; eauto.
Qed.

Lemma ptr_zero t : Forall okaddr (addrs t) -> ptr t = 0 -> t = Leaf.
Proof.
  destruct t as [|b l a r]; [done|]. simpl. intros [_ [[? _] _]%Forall_cons]%Forall_app. lia.
Qed.

Lemma ptr_in t : t <> Leaf -> ptr t ∈ addrs t.
Proof. destruct t; [done|]. intros _. simpl. rewrite elem_of_app, elem_of_cons. auto. Qed.

Lemma ptr_ok t : Forall okaddr (addrs t) -> okptr (ptr t).
Proof.
  intros H. destruct t as [|b l a r]; [by left|right]. eapply Forall_forall in H; [done|]. by apply (ptr_in (Node b l a r)).
Qed.

Lemma ptr_ne t a : Forall okaddr (addrs t) -> okaddr a -> a ∉ addrs t -> ptr t <> a.
Proof.
  intros Ht [Ha _] Hn <-. destruct t as [|b l x r]; [simpl in Ha; lia|]. by apply Hn, (ptr_in (Node b l x r)).
Qed.

Lemma cpar_ok ctx : Forall okaddr (caddrs ctx) -> okptr (cpar ctx).
Proof. destruct ctx as [|[d b a s] ctx]; [by left|]. intros [? _]%Forall_cons. by right. Qed.

(** [m'] is [m] except at the addresses of [l]. *)
Definition same_off (l : list Z) (m m' : gmap Z rb_node) : Prop := forall a, a ∉ l -> m' !! a = m !! a.

Lemma same_off_trans l1 l2 m m1 m2 : same_off l1 m m1 -> same_off l2 m1 m2 -> same_off (l1 ++ l2) m m2.
Proof. intros H1 H2 a [??]%not_elem_of_app. rewrite H2, H1; done. Qed.

Lemma same_off_insert a n m : same_off [a] m (<[a := n]> m).
Proof. intros x Hx%not_elem_of_cons. rewrite lookup_insert_ne; [done|]. destruct Hx. congruence. Qed.

(** ** Elementary steps *)

Section steps.
Context {A : Type}.
Implicit Types (st : rbst A).

Lemma bind_ok {X Y} (e : M A X) (f : X -> M A Y) st x st' : e st = Some (x, st') -> bind e f st = f x st'.
Proof. intros E. unfold bind. by rewrite E. Qed.

Lemma get_ok st a n : nodes st !! a = Some n -> get a st = Some (n, st).
Proof. intros E. unfold get. by rewrite E. Qed.

Lemma parent_ok st a n : nodes st !! a = Some n -> parent_of a st = Some (rb_parent n, st).
Proof. intros E. unfold parent_of. by rewrite (bind_ok _ _ _ _ _ (get_ok _ _ _ E)). Qed.

Lemma child_ok st d a n : nodes st !! a = Some n -> child d a st = Some (kid d n, st).
Proof. intros E. unfold child. by rewrite (bind_ok _ _ _ _ _ (get_ok _ _ _ E)). Qed.

Definition with_nodes st (m : gmap Z rb_node) : rbst A := RbSt m (root st) (aux st).

Lemma upd_ok st a f n : nodes st !! a = Some n -> upd a f st = Some (tt, with_nodes st (<[a := f n]> (nodes st))).
Proof. intros E. unfold upd. by rewrite E. Qed.

(** The parent link of a subtree, if there is one. *)
Lemma reparent_ok st t p q :
  rep (nodes st) t p -> okptr p -> okptr q -> NoDup (addrs t) -> Forall okaddr (addrs t) ->
  exists m', when (nonnull (ptr t)) (rb_set_parent (ptr t) q) st = Some (tt, with_nodes st m')
    /\ rep m' t q /\ same_off (addrs t) (nodes st) m'.
Proof.
  intros Hr Hp Hq Hn Hok. destruct t as [|b l a r].
  { exists (nodes st). split; [by destruct st|]. split; [done|]. by intros ? ?. }
  assert (okaddr a) as [Ha _].
  { simpl in Hok. apply Forall_app in Hok as [_ Hok]. by apply Forall_cons in Hok as [? _]. }
  simpl in Hr. destruct Hr as (H1 & H2 & H3). unfold nonnull, ptr. rewrite (proj2 (Z.eqb_neq a 0)) by lia. cbn [negb when].
  eexists. split; [unfold rb_set_parent; by rewrite (upd_ok _ _ _ _ H1)|]. cbn [with_pc rb_right rb_left __rb_parent_color].
  rewrite set_parent_word by done. simpl in Hn. apply NoDup_app in Hn as (N1 & N2 & N3). apply NoDup_cons in N3 as [N3 N4].
  split; [|intros x Hx; rewrite lookup_insert_ne; [done|intros <-; apply Hx; simpl; rewrite elem_of_app, elem_of_cons; auto]].
  simpl. rewrite lookup_insert_eq. split; [done|]. split.
  - apply (rep_frame (nodes st)); [|done]. intros x Hx. rewrite lookup_insert_ne; [done|]. intros <-.
    apply (N2 a Hx). apply elem_of_cons. by left.
  - apply (rep_frame (nodes st)); [|done]. intros x Hx. rewrite lookup_insert_ne; [done|]. by intros <-.
Qed.

(** The slot of the path that points at [h]. *)
Lemma relink_ok st ctx h h' :
  crep (nodes st) (root st) ctx h -> NoDup (caddrs ctx) -> Forall okaddr (caddrs ctx) -> h ∉ caddrs ctx -> h <> 0 ->
  exists m' rt', relink (cpar ctx) h h' st = Some (tt, RbSt m' rt' (aux st))
    /\ crep m' rt' ctx h' /\ same_off (caddrs ctx) (nodes st) m'.
Proof.
  intros Hc Hn Hok Hh H0. destruct ctx as [|[d b a s] ctx].
  { exists (nodes st), h'. split; [done|]. split; [done|]. by intros ? ?. }
  simpl in *. destruct Hc as (E & Hs & Hc). apply NoDup_cons in Hn as [Na Hn]. apply Forall_cons in Hok as [[Ha ?] Hok].
  apply NoDup_app in Hn as (Ns & Nd & Nc). apply Forall_app in Hok as [Oks Okc].
  apply not_elem_of_cons in Hh as [Hha [Hhs Hhc]%not_elem_of_app]. apply not_elem_of_app in Na as [Nas Nac].
  unfold relink, nonnull. rewrite (proj2 (Z.eqb_neq a 0)) by lia. cbn [negb]. rewrite (bind_ok _ _ _ _ _ (child_ok _ L _ _ E)).
  assert (ptr s <> h) as Hne by (destruct s as [|? ? x ?]; simpl in *; [done|intros ->; apply Hhs; rewrite elem_of_app, elem_of_cons; auto]).
  exists (<[a := mkn d (word (cpar ctx) b) h' (ptr s)]> (nodes st)), (root st). split.
  - destruct d; cbn [kid mkn rb_left].
    + rewrite Z.eqb_refl. unfold set_child. by rewrite (upd_ok _ _ _ _ E).
    + rewrite (proj2 (Z.eqb_neq (ptr s) h)) by done. unfold set_child. by rewrite (upd_ok _ _ _ _ E).
  - split.
    + rewrite lookup_insert_eq. split; [done|]. split.
      * apply (rep_frame (nodes st)); [|done]. intros x Hx. rewrite lookup_insert_ne; [done|]. by intros <-.
      * apply (crep_frame (nodes st)); [|done]. intros x Hx. rewrite lookup_insert_ne; [done|]. by intros <-.
    + intros x Hx. rewrite lookup_insert_ne; [done|]. intros <-. apply Hx, elem_of_cons. by left.
Qed.

(** Recolouring the node in focus. *)
Lemma zrep_recolor st ctx b b' l a r :
  zrep st ctx (Node b l a r) ->
  zrep (with_nodes st (<[a := RbNode (word (cpar ctx) b') (ptr r) (ptr l)]> (nodes st))) ctx (Node b' l a r).
Proof.
  intros [H1 H2 H3 H4]. unfold zaddrs in *. simpl in *. destruct H2 as (E & Hl & Hr).
  pose proof H3 as N. apply NoDup_app in N as (Nc & Nd & N). apply NoDup_app in N as (Nl & Nlr & N). apply NoDup_cons in N as [Na Nr].
  assert (a ∉ caddrs ctx) by (intros Hx; apply (Nd a Hx); rewrite elem_of_app, elem_of_cons; auto).
  assert (a ∉ addrs l) by (intros Hx; apply (Nlr a Hx); rewrite elem_of_cons; auto).
  split; cbn [nodes root with_nodes]; try done.
  - apply (crep_frame (nodes st)); [|done]. intros x Hx. rewrite lookup_insert_ne; [done|]. by intros <-.
  - simpl. rewrite lookup_insert_eq. split; [done|].
    split; (apply (rep_frame (nodes st)); [|done]); intros x Hx; rewrite lookup_insert_ne; try done; by intros <-.
Qed.
End steps.

Lemma zaddrs_plug c1 c2 t : zaddrs (c1 ++ c2) t ≡ₚ zaddrs c2 (plug c1 t).
Proof. revert t. induction c1 as [|[d b a s] c1 IH]; intros t; simpl; [done|]. by rewrite <- IH, <- zaddrs_mk. Qed.
