(* ===== verification/RbProofs.v ===== *)
(** * Red-black trees: the operations are correct

    Insertion and deletion against the abstract trees of RbSpec.v: they end, touch no
    pointer outside the tree, keep the in-order sequence (plus or minus the node) and
    restore the red-black invariant [rbtree]; iteration visits the in-order sequence. *)

From stdpp Require Import base numbers list gmap.
From S2P Require Import Prelude RbTree RbSpec.

Ltac step H := rewrite (bind_ok _ _ _ _ _ H).

(** ** Rotation *)

Section rotate.
Context {A : Type}.
Variable aug : option (rb_augment_callbacks A).

(** The facts about the addresses around a rotation. *)
Lemma rotate_facts (st : rbst A) ctx d b x a bp i p o :
  zrep st ctx (mk d b x a (mk d bp i p o)) ->
  let l := caddrs ctx ++ a :: p :: addrs x ++ addrs i ++ addrs o in
  zaddrs ctx (mk d b x a (mk d bp i p o)) ≡ₚ l /\ zaddrs ctx (mk d bp (mk d b x a i) p o) ≡ₚ l
  /\ NoDup l /\ Forall okaddr l.
Proof.
  intros [_ _ H3 H4]. cbv zeta.
  assert (zaddrs ctx (mk d b x a (mk d bp i p o)) ≡ₚ caddrs ctx ++ a :: p :: addrs x ++ addrs i ++ addrs o) as E1.
  { unfold zaddrs. rewrite !addrs_mk. f_equiv. f_equiv. by rewrite <- Permutation_middle. }
  assert (zaddrs ctx (mk d bp (mk d b x a i) p o) ≡ₚ caddrs ctx ++ a :: p :: addrs x ++ addrs i ++ addrs o) as E2.
  { unfold zaddrs. rewrite !addrs_mk. f_equiv. simpl. rewrite <- app_assoc. by rewrite Permutation_swap. }
  split; [done|]. split; [done|]. by rewrite <- E1.
Qed.

Lemma rotate_core (st : rbst A) ctx d b x a bp i p o :
  zrep st ctx (mk d b x a (mk d bp i p o)) ->
  exists st1, __rb_rotate aug d a st = rotated aug a p st1
    /\ zrep st1 ctx (mk d bp (mk d b x a i) p o) /\ aux st1 = aux st.
Proof.
  intros Hz. pose proof (rotate_facts _ _ _ _ _ _ _ _ _ _ Hz) as (E1 & E2 & Hn & Hok). destruct Hz as [Hc Hr _ _].
  rewrite ptr_mk in Hc. apply rep_mk in Hr as (Ea & Hx & (Ep & Hi & Ho)%rep_mk). rewrite ptr_mk in Ea.
  rewrite <- E2 in Hok, Hn. pose proof Hn as Hn2. pose proof Hok as Hok2. rewrite E2 in Hn2, Hok2.
  apply NoDup_app in Hn2 as (Nc & Ncd & [Na [Np [Nx [Nxd [Ni [Nid No]]%NoDup_app]]%NoDup_app]%NoDup_cons]%NoDup_cons).
  apply Forall_app in Hok2 as [Okc [Oka [Okp [Okx [Oki Oko]%Forall_app]%Forall_app]%Forall_cons]%Forall_cons].
  rewrite not_elem_of_cons, !not_elem_of_app in Na. rewrite !not_elem_of_app in Np. destruct Na as (Nap & Nax & Nai & Nao), Np as (Npx & Npi & Npo).
  assert (forall y, y ∈ caddrs ctx -> y <> a /\ y <> p /\ y ∉ addrs i /\ y ∉ addrs x /\ y ∉ addrs o) as Hcy.
  { intros y Hy. specialize (Ncd y Hy). rewrite !not_elem_of_cons, !not_elem_of_app in Ncd. tauto. }
  assert (forall y, y ∈ addrs x -> y ∉ addrs i /\ y ∉ addrs o) as Hxy.
  { intros y Hy. specialize (Nxd y Hy). rewrite not_elem_of_app in Nxd. tauto. }
  assert (okptr (cpar ctx)) as Okpar by (by apply cpar_ok). assert (okptr a /\ okptr p) as [Oka' Okp'] by (split; by right).
  unfold __rb_rotate. step (child_ok st (opp d) _ _ Ea). rewrite kid_opp_mkn. step (parent_ok st _ _ Ea). rewrite parent_mkn by done.
  step (child_ok st d _ _ Ep). rewrite kid_mkn. unfold set_child. step (upd_ok st _ (with_kid (opp d) (ptr i)) _ Ea).
  rewrite with_kid_opp_mkn. set (st1 := with_nodes st _).
  destruct (reparent_ok st1 i p a) as (m2 & R2 & Hi2 & S2); try done.
  { apply (rep_frame (nodes st)); [|done]. intros y Hy. cbn. rewrite lookup_insert_ne; [done|]. by intros <-. }
  step R2. assert (m2 !! p = Some (mkn d (word a bp) (ptr i) (ptr o))) as Ep2.
  { rewrite S2 by done. cbn. by rewrite lookup_insert_ne. }
  step (upd_ok (with_nodes st1 m2) p (with_kid d a) _ Ep2). rewrite with_kid_mkn. cbn [nodes with_nodes].
  set (m3 := <[p := _]> m2). assert (m3 !! a = Some (mkn d (word (cpar ctx) b) (ptr x) (ptr i))) as Ea3.
  { unfold m3. rewrite lookup_insert_ne by done. rewrite S2 by done. cbn. by rewrite lookup_insert_eq. }
  unfold rb_set_parent at 1. step (upd_ok (with_nodes (with_nodes st1 m2) m3) a
    (fun n => with_pc (Z.lor (Z.land (__rb_parent_color n) 3) p) n) _ Ea3).
  rewrite pc_mkn, with_pc_mkn, set_parent_word by done. cbn [nodes with_nodes]. set (m4 := <[a := _]> m3).
  assert (m4 !! p = Some (mkn d (word a bp) a (ptr o))) as Ep4.
  { unfold m4, m3. by rewrite lookup_insert_ne, lookup_insert_eq. }
  unfold rb_set_parent at 1. match goal with |- context [bind (upd p ?f)] =>
    step (upd_ok (with_nodes (with_nodes (with_nodes st1 m2) m3) m4) p f _ Ep4) end.
  rewrite pc_mkn, with_pc_mkn, set_parent_word by done. cbn [nodes with_nodes]. set (m5 := <[p := _]> m4).
  assert (forall y, y <> a -> y <> p -> y ∉ addrs i -> m5 !! y = nodes st !! y) as S5.
  { intros y H1 H2 H3. unfold m5, m4, m3. rewrite !lookup_insert_ne by done. rewrite S2 by done. cbn. by rewrite lookup_insert_ne. }
  match goal with |- context [relink (cpar ctx) a p] =>
    destruct (relink_ok (with_nodes (with_nodes (with_nodes (with_nodes st1 m2) m3) m4) m5) ctx a p) as (m6 & rt & R6 & Hc6 & S6) end; try done.
  { cbn. apply (crep_frame (nodes st)); [|done]. intros y Hy. destruct (Hcy y Hy) as (? & ? & ? & _). by apply S5. }
  { intros Hy. by destruct (Hcy a Hy) as (? & _). }
  { destruct Oka as [? _]. lia. }
  step R6. eexists. split; [reflexivity|]. cbn [aux with_nodes]. split; [|done]. cbn [nodes with_nodes] in S6.
  assert (forall y, y ∉ caddrs ctx -> y <> a -> y <> p -> y ∉ addrs i -> m6 !! y = nodes st !! y) as S6'.
  { intros y H1 H2 H3 H4. rewrite S6 by done. by apply S5. }
  split; cbn [nodes root]; [by rewrite ptr_mk| |done|done].
  assert (m6 !! p = Some (mkn d (word (cpar ctx) bp) a (ptr o))) as Ep6.
  { rewrite S6; [unfold m5; by rewrite lookup_insert_eq|]. intros Hy. by destruct (Hcy p Hy) as (_ & ? & _). }
  assert (m6 !! a = Some (mkn d (word p b) (ptr x) (ptr i))) as Ea6.
  { rewrite S6; [unfold m5, m4; rewrite lookup_insert_ne by done; by rewrite lookup_insert_eq|].
    intros Hy. by destruct (Hcy a Hy) as (? & _). }
  apply rep_mk. rewrite ptr_mk. split; [done|]. split.
  - apply rep_mk. split; [done|]. split.
    + apply (rep_frame (nodes st)); [|done]. intros y Hy. destruct (Hxy y Hy). apply S6'; try done; [|by intros -> ..].
      intros Hy'. by destruct (Hcy y Hy') as (_ & _ & _ & ? & _).
    + apply (rep_frame m2); [|done]. intros y Hy. rewrite S6.
      * unfold m5, m4, m3. rewrite !lookup_insert_ne; [done|by intros <-..].
      * intros Hy'. by destruct (Hcy y Hy') as (_ & _ & ? & _).
  - apply (rep_frame (nodes st)); [|done]. intros y Hy. apply S6'; try by intros ->.
    + intros Hy'. by destruct (Hcy y Hy') as (_ & _ & _ & _ & ?).
    + intros Hy'. by apply (Nid y Hy').
Qed.
End rotate.

(** ** The invariant *)

Definition isblack (t : tree) : bool := match t with Leaf => true | Node b _ _ _ => b end.

(** Every path to a leaf has [n] black nodes. *)
Fixpoint bal (t : tree) (n : nat) : Prop :=
  match t with
  | Leaf => n = O
  | Node true l _ r => match n with S n => bal l n /\ bal r n | O => False end
  | Node false l _ r => bal l n /\ bal r n
  end.

(** A red node has black children. *)
Fixpoint nrr (t : tree) : Prop :=
  match t with
  | Leaf => True
  | Node b l _ r => (b = false -> isblack l = true /\ isblack r = true) /\ nrr l /\ nrr r
  end.

Definition rbtree (t : tree) : Prop := isblack t = true /\ nrr t /\ exists n, bal t n.

(** The same for a path: what it asks of the subtree at its end, of black height [n] and
    with a root that is black or not. *)
Fixpoint cbal (ctx : list frame) (n : nat) : Prop :=
  match ctx with [] => True | Fr _ b _ s :: ctx => bal s n /\ cbal ctx (if b then S n else n) end.

Fixpoint cnrr (ctx : list frame) (hb : bool) : Prop :=
  match ctx with
  | [] => True
  | Fr _ b _ s :: ctx => (b = false -> hb = true /\ isblack s = true) /\ nrr s /\ cnrr ctx b
  end.

Fixpoint croot (ctx : list frame) (hb : bool) : Prop :=
  match ctx with [] => hb = true | Fr _ b _ _ :: ctx => croot ctx b end.

Lemma bal_mk d b x a y n :
  bal (mk d b x a y) n <-> if b then match n with S n => bal x n /\ bal y n | O => False end else bal x n /\ bal y n.
Proof. destruct d, b; simpl; [done| |destruct n; tauto|tauto]. done. Qed.

Lemma nrr_mk d b x a y :
  nrr (mk d b x a y) <-> (b = false -> isblack x = true /\ isblack y = true) /\ nrr x /\ nrr y.
Proof. destruct d; simpl; tauto. Qed.

Lemma isblack_mk d b x a y : isblack (mk d b x a y) = b.
Proof. by destruct d. Qed.

Record rbz (ctx : list frame) (t : tree) (n : nat) : Prop := {
  rz_bal : bal t n;
  rz_cbal : cbal ctx n;
  rz_nrr : nrr t;
  rz_cnrr : cnrr ctx (isblack t);
  rz_root : croot ctx (isblack t);
}.

Lemma rbz_move d b a s ctx t : (exists n, rbz (Fr d b a s :: ctx) t n) <-> exists n, rbz ctx (mk d b t a s) n.
Proof.
  split.
  - intros (n & [H1 H2 H3 H4 H5]). exists (if b then S n else n). simpl in *.
    split; rewrite ?isblack_mk, ?nrr_mk, ?bal_mk; try tauto. destruct b; tauto.
  - intros (n & [H1 H2 H3 H4 H5]). rewrite ?isblack_mk, ?nrr_mk, ?bal_mk in *. destruct b.
    + destruct n as [|n]; [done|]. exists n. split; simpl; tauto.
    + exists n. split; simpl; tauto.
Qed.

Lemma rbtree_zip ctx t : rbtree (plug ctx t) <-> exists n, rbz ctx t n.
Proof.
  revert t. induction ctx as [|[d b a s] ctx IH]; intros t.
  - simpl. split; [intros (H1 & H2 & n & H3); exists n; by split|]. intros (n & [H1 H2 H3 H4 H5]). simpl in *.
    split; [done|]. eauto.
  - simpl. by rewrite IH, <- rbz_move.
Qed.

Lemma addrs_mk_ext d b b' x x' a y y' :
  addrs x = addrs x' -> addrs y = addrs y' -> addrs (mk d b x a y) = addrs (mk d b' x' a y').
Proof. intros H1 H2. destruct d; simpl; by rewrite H1, H2. Qed.

Lemma addrs_plug_ext ctx t t' : addrs t = addrs t' -> addrs (plug ctx t) = addrs (plug ctx t').
Proof. revert t t'. induction ctx as [|[d b a s] ctx IH]; intros t t' E; [done|]. simpl. apply IH. by apply addrs_mk_ext. Qed.

Lemma addrs_rotate d b x a bp i p o b1 b2 :
  addrs (mk d b x a (mk d bp i p o)) = addrs (mk d b1 (mk d b2 x a i) p o).
Proof. destruct d; simpl; by rewrite <- !app_assoc. Qed.

(** The shape without the colours. *)
Fixpoint skel (t : tree) : tree :=
  match t with Leaf => Leaf | Node _ l a r => Node true (skel l) a (skel r) end.

Lemma skel_mk d b x a y : skel (mk d b x a y) = mk d true (skel x) a (skel y).
Proof. by destruct d. Qed.

Lemma skel_plug ctx t t' : skel t = skel t' -> skel (plug ctx t) = skel (plug ctx t').
Proof. revert t t'. induction ctx as [|[d b a s] ctx IH]; intros t t' E; [done|]. simpl. apply IH. by rewrite !skel_mk, E. Qed.

(** ** Insertion *)

Section insert.
Context {A : Type}.
Variable aug : option (rb_augment_callbacks A).

(** What the user's memory says about the tree: blind to colours, kept by rotations. *)
Variable P : A -> tree -> Prop.
Hypothesis P_color : forall x t t', skel t = skel t' -> P x t -> P x t'.
Hypothesis P_rotate : forall (st : rbst A) ctx d b x a bp i p o,
  zrep st ctx (mk d bp (mk d b x a i) p o) -> P (aux st) (plug ctx (mk d b x a (mk d bp i p o))) ->
  exists st', rotated aug a p st = Some (tt, st') /\ nodes st' = nodes st /\ root st' = root st
    /\ P (aux st') (plug ctx (mk d bp (mk d b x a i) p o)).

Definition Zp (st : rbst A) (ctx : list frame) (t : tree) : Prop := zrep st ctx t /\ P (aux st) (plug ctx t).

Lemma Zp_move st d b a s ctx t : Zp st (Fr d b a s :: ctx) t <-> Zp st ctx (mk d b t a s).
Proof. unfold Zp. by rewrite zrep_move. Qed.

Lemma Zp_up st d b a s ctx t : Zp st (Fr d b a s :: ctx) t -> Zp st ctx (mk d b t a s).
Proof. apply Zp_move. Qed.

Lemma Zp_down st d b a s ctx t : Zp st ctx (mk d b t a s) -> Zp st (Fr d b a s :: ctx) t.
Proof. apply Zp_move. Qed.

Lemma Zp_node st ctx d b x a y :
  Zp st ctx (mk d b x a y) -> nodes st !! a = Some (mkn d (word (cpar ctx) b) (ptr x) (ptr y)).
Proof. intros [[_ H _ _] _]. by apply rep_mk in H as (? & _). Qed.

Lemma Zp_ok st ctx t a : Zp st ctx t -> a ∈ zaddrs ctx t -> okaddr a.
Proof. intros [[_ _ _ H] _] Ha. by eapply Forall_forall in H. Qed.

Lemma Zp_par_ok st ctx t : Zp st ctx t -> okptr (cpar ctx).
Proof. intros [[_ _ _ H] _]. apply cpar_ok. by apply Forall_app in H as [? _]. Qed.

Lemma Zp_root_ok st ctx d b x a y : Zp st ctx (mk d b x a y) -> okaddr a.
Proof.
  intros H. apply (Zp_ok _ _ _ _ H). unfold zaddrs. rewrite elem_of_app, addrs_mk, elem_of_cons. auto.
Qed.

Lemma rotate_ok st ctx d b x a bp i p o :
  Zp st ctx (mk d b x a (mk d bp i p o)) ->
  exists st', __rb_rotate aug d a st = Some (tt, st') /\ Zp st' ctx (mk d bp (mk d b x a i) p o).
Proof.
  intros [Hz Hp]. destruct (rotate_core aug _ _ _ _ _ _ _ _ _ _ Hz) as (st1 & -> & Hz1 & Ha).
  rewrite <- Ha in Hp. destruct (P_rotate _ _ _ _ _ _ _ _ _ _ Hz1 Hp) as (st2 & E & Hn & Hr & Hp2).
  exists st2. split; [done|]. split; [|done]. destruct Hz1 as [Z1 Z2 Z3 Z4]. split; rewrite ?Hn, ?Hr; done.
Qed.

(** Writing the colour of the node in focus. *)
Lemma Zp_recolor st ctx d b b' x a y :
  Zp st ctx (mk d b x a y) ->
  Zp (with_nodes st (<[a := mkn d (word (cpar ctx) b') (ptr x) (ptr y)]> (nodes st))) ctx (mk d b' x a y).
Proof.
  intros [Hz Hp]. split; [destruct d; by eapply zrep_recolor|]. cbn. eapply P_color; [|done]. apply skel_plug. by rewrite !skel_mk.
Qed.

Lemma set_black_ok st ctx d b x a y :
  Zp st ctx (mk d b x a y) -> exists st', rb_set_black a st = Some (tt, st') /\ Zp st' ctx (mk d true x a y).
Proof.
  intros H. unfold rb_set_black. rewrite (upd_ok _ _ _ _ (Zp_node _ _ _ _ _ _ _ H)). eexists. split; [reflexivity|].
  rewrite pc_mkn, with_pc_mkn, set_black_word by (by eapply Zp_par_ok). by eapply Zp_recolor.
Qed.

Lemma set_red_ok st ctx d b x a y :
  Zp st ctx (mk d b x a y) -> exists st', rb_set_red a st = Some (tt, st') /\ Zp st' ctx (mk d false x a y).
Proof.
  intros H. unfold rb_set_red. rewrite (upd_ok _ _ _ _ (Zp_node _ _ _ _ _ _ _ H)). eexists. split; [reflexivity|].
  rewrite pc_mkn, with_pc_mkn, set_red_word by (by eapply Zp_par_ok). by eapply Zp_recolor.
Qed.

Lemma node_is_black_ok st ctx t : Zp st ctx t -> node_is_black (ptr t) st = Some (isblack t, st).
Proof.
  intros H. unfold node_is_black. destruct t as [|b l a r]; [done|]. pose proof (Zp_root_ok st ctx L b l a r H) as [Ha _].
  simpl. rewrite (proj2 (Z.eqb_neq a 0)) by lia. step (get_ok _ _ _ (Zp_node _ _ L _ _ _ _ H)).
  rewrite black_mkn by (by eapply Zp_par_ok). done.
Qed.

(** The addresses of the parent, the node and the sibling are different. *)
Lemma Zp_distinct st ctx d b x a y :
  Zp st ctx (mk d b x a y) -> a <> ptr x /\ a <> ptr y /\ (ptr x = ptr y -> x = Leaf /\ y = Leaf).
Proof.
  intros H. pose proof (Zp_root_ok _ _ _ _ _ _ _ H) as Ha. destruct H as [[_ _ N O] _].
  assert (NoDup (a :: addrs x ++ addrs y)) as N'. { apply NoDup_app in N as (_ & _ & N). by rewrite addrs_mk in N. }
  assert (Forall okaddr (a :: addrs x ++ addrs y)) as O'. { apply Forall_app in O as [_ O]. by rewrite addrs_mk in O. }
  apply NoDup_cons in N' as [Na N']. apply Forall_cons in O' as [_ [Ox Oy]%Forall_app]. apply not_elem_of_app in Na as [Nx Ny].
  apply NoDup_app in N' as (_ & Nd & _). split; [intros E; by eapply (ptr_ne x a)|]. split; [intros E; by eapply (ptr_ne y a)|].
  intros E. destruct x as [|bx lx ax rx].
  - split; [done|]. apply ptr_zero; [done|]. by rewrite <- E.
  - exfalso. destruct y as [|bb ly ay ry].
    + apply (ptr_zero (Node bx lx ax rx)) in Ox; done.
    + apply (Nd ax); [apply (ptr_in (Node bx lx ax rx)); done|]. simpl in E. subst ay. by apply (ptr_in (Node bb ly ax ry)).
Qed.

Lemma mk_any d b l a r : Node b l a r = mk d b (if d then l else r) a (if d then r else l).
Proof. by destruct d. Qed.

(** Cases 2 and 3: one or two rotations put a black node on top of two red ones. *)
Lemma insert_rotate_ok st ctx dg dp p s g u i a o n :
  Zp st ctx (mk dg true (mk dp false (mk dg false i a o) p s) g u) ->
  bal i n -> bal o n -> bal s n -> bal u n -> nrr i -> nrr o -> nrr s -> nrr u ->
  isblack i = true -> isblack o = true -> isblack s = true -> isblack u = true ->
  exists st' T, insert_rotate aug dg a p g st = Some (tt, st') /\ Zp st' ctx T
    /\ bal T (S n) /\ nrr T /\ isblack T = true
    /\ addrs T = addrs (mk dg true (mk dp false (mk dg false i a o) p s) g u).
Proof.
  intros HZ Bi Bo Bs Bu Ni No Ns Nu Ki Ko Ks Ku. unfold insert_rotate.
  pose proof (Zp_down _ _ _ _ _ _ _ HZ) as HZp. pose proof (Zp_node _ _ _ _ _ _ _ HZp) as Ep.
  pose proof (Zp_distinct _ _ _ _ _ _ _ HZp) as (_ & _ & Hd). rewrite ptr_mk in Hd, Ep.
  step (child_ok st (opp dg) _ _ Ep). destruct (decide (dp = dg)) as [->|Hne].
  - rewrite kid_opp_mkn. rewrite (proj2 (Z.eqb_neq a (ptr s))) by (intros E; destruct (Hd E) as [E' _]; by destruct dg).
    cbn [ret bind]. change (bind (ret p) ?f st) with (f p st). cbv beta.
    destruct (set_black_ok _ _ _ _ _ _ _ HZp) as (st1 & E1 & HZ1). step E1.
    apply Zp_up in HZ1. destruct (set_red_ok _ _ _ _ _ _ _ HZ1) as (st2 & E2 & HZ2). step E2.
    rewrite <- (mk_opp dg false), <- (mk_opp dg true) in HZ2. destruct (rotate_ok _ _ _ _ _ _ _ _ _ _ HZ2) as (st3 & E3 & HZ3).
    eexists st3, _. split; [exact E3|]. split; [exact HZ3|].
    rewrite !mk_opp, !bal_mk, !nrr_mk, !isblack_mk. split_and!; try done.
    destruct dg; simpl; by rewrite <- ?app_assoc.
  - assert (dp = opp dg) as -> by (by destruct dp, dg). rewrite mkn_opp, kid_opp_mkn, Z.eqb_refl.
    rewrite mk_opp in HZp. destruct (rotate_ok _ _ _ _ _ _ _ _ _ _ HZp) as (st0 & E0 & HZ0).
    unfold bind at 1. unfold bind at 1. rewrite E0. cbn [ret].
    destruct (set_black_ok _ _ _ _ _ _ _ HZ0) as (st1 & E1 & HZ1). step E1.
    apply Zp_up in HZ1. destruct (set_red_ok _ _ _ _ _ _ _ HZ1) as (st2 & E2 & HZ2). step E2.
    rewrite <- (mk_opp dg false _ g), <- (mk_opp dg true _ a) in HZ2. destruct (rotate_ok _ _ _ _ _ _ _ _ _ _ HZ2) as (st3 & E3 & HZ3).
    eexists st3, _. split; [exact E3|]. split; [exact HZ3|].
    rewrite !mk_opp, !bal_mk, !nrr_mk, !isblack_mk. split_and!; try done.
    destruct dg; simpl; rewrite <- ?app_assoc; simpl; by rewrite <- ?app_assoc.
Qed.

Lemma Zp_top st ctx t : Zp st ctx t -> Zp st [] (plug ctx t).
Proof. intros [H1 H2]. split; [|done]. apply zrep_plug. by rewrite app_nil_r. Qed.

(** The side of a child, as the code finds it: by comparing with the left child. *)
Lemma side_ok st ctx d b x a y :
  Zp st ctx (mk d b x a y) -> x <> Leaf \/ y <> Leaf ->
  (if ptr x =? kid L (mkn d (word (cpar ctx) b) (ptr x) (ptr y)) then L else R) = d.
Proof.
  intros H Hne. pose proof (Zp_distinct _ _ _ _ _ _ _ H) as (_ & _ & Hd). destruct d; simpl; [by rewrite Z.eqb_refl|].
  destruct (Z.eqb_spec (ptr x) (ptr y)) as [E|]; [|done]. destruct (Hd E), Hne; done.
Qed.

Lemma insert_loop_ok fuel st ctx l a r n :
  Zp st ctx (Node false l a r) -> (length ctx < fuel)%nat ->
  bal (Node false l a r) n -> nrr (Node false l a r) -> cbal ctx n -> cnrr ctx true -> croot ctx true ->
  exists st' T, insert_loop aug fuel a st = Some (tt, st') /\ Zp st' [] T /\ rbtree T
    /\ addrs T = addrs (plug ctx (Node false l a r)).
Proof.
  revert st ctx l a r n. induction fuel as [|fuel IH]; intros st ctx l a r n HZ Hf Hb Hn Hcb Hcn Hcr; [lia|].
  change (Node false l a r) with (mk L false l a r) in HZ.
  pose proof (Zp_node _ _ _ _ _ _ _ HZ) as Ea. pose proof (Zp_par_ok _ _ _ HZ) as Hpo.
  cbn [insert_loop]. step (parent_ok st _ _ Ea). rewrite parent_mkn by done.
  destruct ctx as [|[dp bp p s] ctx].
  { cbn [cpar Z.eqb]. unfold rb_set_parent_color. rewrite (upd_ok _ _ _ _ Ea). eexists _, (mk L true l a r).
    split; [reflexivity|]. rewrite with_pc_mkn. change (Z.lor 0 RB_BLACK) with (word 0 true). split; [by eapply (Zp_recolor _ [])|].
    split; [|done]. apply (rbtree_zip []). exists (S n). split; simpl in *; tauto. }
  cbn [cpar]. pose proof (Zp_up _ _ _ _ _ _ _ HZ) as HZp. pose proof (Zp_root_ok _ _ _ _ _ _ _ HZp) as [Hp0 _].
  rewrite (proj2 (Z.eqb_neq p 0)) by lia. pose proof (Zp_node _ _ _ _ _ _ _ HZp) as Ep. step (get_ok st _ _ Ep).
  rewrite black_mkn by (by eapply Zp_par_ok). destruct bp.
  { eexists _, _. split; [reflexivity|]. split; [exact (Zp_top _ _ _ HZ)|]. split; [|done].
    apply rbtree_zip. exists n. simpl in *. split; try done. split; [done|apply Hcn]. }
  step (parent_ok st _ _ Ep). rewrite parent_mkn by (by eapply Zp_par_ok). simpl in Hcb, Hcn, Hcr.
  destruct Hcb as [Bs Hcb], Hcn as [Hsb [Ns Hcn]]. destruct (Hsb eq_refl) as [_ Ks].
  destruct ctx as [|[dg bg g u] ctx]; [done|]. simpl in Hcb, Hcn, Hcr. destruct Hcb as [Bu Hcb], Hcn as [Hub [Nu Hcn]].
  assert (bg = true) as -> by (destruct bg; [done|]; by destruct (Hub eq_refl)).
  cbn [cpar]. pose proof (Zp_up _ _ _ _ _ _ _ HZp) as HZg. pose proof (Zp_node _ _ _ _ _ _ _ HZg) as Eg.
  step (child_ok st L _ _ Eg). pose proof (side_ok _ _ _ _ _ _ _ HZg) as Hside. rewrite ptr_mk in Hside, Eg |- *.
  rewrite Hside by (left; by destruct dp). cbv zeta. step (child_ok st (opp dg) _ _ Eg). rewrite kid_opp_mkn.
  assert (Zp st (Fr (opp dg) true g (mk dp false (mk L false l a r) p s) :: ctx) u) as HZu by (apply Zp_down; by rewrite mk_opp).
  step (node_is_black_ok _ _ _ HZu). destruct (isblack u) eqn:Ku; cbn [negb].
  - destruct Hb as [Bl Br], Hn as (Kn & Nl & Nr). destruct (Kn eq_refl) as [Kl Kr]. change (mk L false l a r) with (Node false l a r) in HZg.
    rewrite (mk_any dg) in HZg. destruct (insert_rotate_ok _ _ _ _ _ _ _ _ _ _ _ n HZg) as (st' & T & E & HZ' & BT & NT & KT & AT);
      try done; try (by destruct dg).
    eexists st', _. split; [exact E|]. split; [exact (Zp_top _ _ _ HZ')|]. split.
    + apply rbtree_zip. exists (S n). by split; rewrite ?KT.
    + simpl. apply addrs_plug_ext. rewrite AT. by rewrite <- mk_any.
  - destruct u as [|bu ul ua ur]; [done|]. simpl in Ku. subst bu. change (Node false ul ua ur) with (mk L false ul ua ur) in HZu. cbn [ptr].
    destruct (set_black_ok _ _ _ _ _ _ _ HZu) as (st1 & E1 & HZ1). step E1.
    apply Zp_up in HZ1. rewrite mk_opp in HZ1. apply Zp_down in HZ1.
    destruct (set_black_ok _ _ _ _ _ _ _ HZ1) as (st2 & E2 & HZ2). step E2.
    apply Zp_up in HZ2. destruct (set_red_ok _ _ _ _ _ _ _ HZ2) as (st3 & E3 & HZ3). step E3.
    rewrite <- (opp_opp dg), mk_opp in HZ3.
    set (t1 := mk dp true (mk L false l a r) p s) in *. set (u1 := mk L true ul ua ur) in *.
    assert (mk (opp dg) false u1 g t1 = Node false (if dg then t1 else u1) g (if dg then u1 else t1)) as E4 by (by destruct dg).
    rewrite E4 in HZ3. simpl in Bu, Nu. destruct Nu as (Ku & Nul & Nur). destruct (Ku eq_refl) as [Kul Kur].
    destruct (IH st3 ctx _ g _ (S n) HZ3) as (st' & T & E & HZ' & RT & AT); try done.
    + simpl in Hf. lia.
    + rewrite <- E4, bal_mk. unfold u1, t1. rewrite !bal_mk. simpl in Hb. tauto.
    + rewrite <- E4, nrr_mk. unfold u1, t1. rewrite !isblack_mk, !nrr_mk. simpl in Hn |- *. tauto.
    + exists st', T. split; [exact E|]. split; [done|]. split; [done|]. rewrite AT, <- E4, mk_opp. simpl.
      apply addrs_plug_ext. apply addrs_mk_ext; [|done]. unfold t1. by destruct dp.
Qed.

(** ** Deletion: the fix-up *)

Definition blacken (t : tree) : tree := match t with Leaf => Leaf | Node _ l a r => Node true l a r end.

Lemma blacken_mk d b x a y : blacken (mk d b x a y) = mk d true x a y.
Proof. by destruct d. Qed.

Lemma blacken_black t : isblack t = true -> blacken t = t.
Proof. destruct t as [|[] l a r]; done. Qed.

Lemma bal_red_blacken t n : isblack t = false -> bal t n -> bal (blacken t) (S n).
Proof. destruct t as [|[] l a r]; done. Qed.

(** Setting a subtree's root black, if it has one. *)
Lemma when_black_ok st ctx t :
  Zp st ctx t -> exists st', when (nonnull (ptr t)) (rb_set_black (ptr t)) st = Some (tt, st') /\ Zp st' ctx (blacken t).
Proof.
  intros H. destruct t as [|b l a r]; [by exists st|]. pose proof (Zp_root_ok st ctx L b l a r H) as [Ha _].
  unfold nonnull. simpl. rewrite (proj2 (Z.eqb_neq a 0)) by lia. by apply (set_black_ok st ctx L b l a r).
Qed.

(** The doubly black subtree [t], one black short on the [d] side of [p]. *)
Record short (d : dir) (b : bool) (p : Z) (s : tree) (ctx : list frame) (n : nat) : Prop := {
  sh_bal : bal s (S n);
  sh_cbal : cbal ctx (if b then S (S n) else S n);
  sh_nrr : nrr s;
  sh_red : b = false -> isblack s = true;
  sh_cnrr : cnrr ctx b;
  sh_root : croot ctx b;
}.

Lemma erase_sibling_ok st d b p s ctx t n :
  Zp st (Fr d b p s :: ctx) t -> short d b p s ctx n ->
  exists st' b' i w o ctx', erase_sibling aug d p st = Some (w, st')
    /\ Zp st' (Fr d b' p (mk d true i w o) :: ctx') t /\ short d b' p (mk d true i w o) ctx' n
    /\ (b' = false \/ ctx' = ctx)
    /\ addrs (plug (Fr d b' p (mk d true i w o) :: ctx') t) = addrs (plug (Fr d b p s :: ctx) t).
Proof.
  intros HZ [B C N R CN CR]. unfold erase_sibling. pose proof (Zp_up _ _ _ _ _ _ _ HZ) as HZp.
  step (child_ok st (opp d) _ _ (Zp_node _ _ _ _ _ _ _ HZp)). rewrite kid_opp_mkn.
  destruct s as [|bs sl w sr]; [done|]. cbn [ptr]. rewrite (mk_any d) in HZ, HZp, B, N |- *.
  set (i := if d then sl else sr) in *. set (o := if d then sr else sl) in *.
  assert (Zp st (Fr (opp d) b p t :: ctx) (mk d bs i w o)) as HZs by (apply Zp_down; by rewrite mk_opp).
  step (get_ok st _ _ (Zp_node _ _ _ _ _ _ _ HZs)). rewrite red_mkn by (by eapply Zp_par_ok).
  destruct bs; cbn [negb].
  { exists st, b, i, w, o, ctx. split; [done|]. split; [done|]. split; [split; try done; by rewrite isblack_mk|]. auto. }
  assert (b = true) as ->. { destruct b; [done|]. by specialize (R eq_refl). }
  rewrite bal_mk, nrr_mk in *. destruct B as [Bi Bo], N as (Ki & Ni & No). destruct (Ki eq_refl) as [Kbi Kbo].
  destruct (set_black_ok _ _ _ _ _ _ _ HZs) as (st1 & E1 & HZ1). step E1. apply Zp_up in HZ1. rewrite mk_opp in HZ1.
  destruct (set_red_ok _ _ _ _ _ _ _ HZ1) as (st2 & E2 & HZ2). step E2.
  destruct (rotate_ok _ _ _ _ _ _ _ _ _ _ HZ2) as (st3 & E3 & HZ3). step E3. apply Zp_down in HZ3.
  step (child_ok st3 (opp d) _ _ (Zp_node _ _ _ _ _ _ _ HZ3)) || rewrite (child_ok st3 (opp d) _ _ (Zp_node _ _ _ _ _ _ _ HZ3)).
  rewrite kid_opp_mkn. destruct i as [|bi il ia ir] eqn:Ei; [done|]. simpl in Kbi. subst bi. cbn [ptr].
  rewrite (mk_any d) in HZ3, Bi, Ni. eexists st3, false, _, ia, _, (Fr d true w o :: ctx). split; [reflexivity|].
  split; [by apply Zp_down|]. split; [|split; [by left|]].
  - split; try done; simpl; rewrite ?isblack_mk; done.
  - simpl. apply addrs_plug_ext. rewrite <- mk_any. unfold i, o in *. destruct d; simpl; subst; simpl; rewrite <- ?app_assoc; simpl; by rewrite <- ?app_assoc.
Qed.

Lemma red_node d t : isblack t = false -> exists x a y, t = mk d false x a y.
Proof. destruct t as [|[] l a r]; try done. intros _. rewrite (mk_any d). eauto. Qed.

(** The sibling's red child ends on the far side. *)
Lemma erase_straighten_ok st d b p i w o ctx t n :
  Zp st (Fr d b p (mk d true i w o) :: ctx) t -> short d b p (mk d true i w o) ctx n ->
  isblack i && isblack o = false ->
  exists st' i' w' o', erase_straighten aug d p w st = Some (w', st')
    /\ Zp st' (Fr d b p (mk d true i' w' o') :: ctx) t /\ short d b p (mk d true i' w' o') ctx n
    /\ isblack o' = false
    /\ addrs (mk d true i' w' o') = addrs (mk d true i w o).
Proof.
  intros HZ Hs Hred. unfold erase_straighten.
  assert (Zp st (Fr (opp d) b p t :: ctx) (mk d true i w o)) as HZs by (apply Zp_up in HZ; apply Zp_down; by rewrite mk_opp).
  step (child_ok st (opp d) _ _ (Zp_node _ _ _ _ _ _ _ HZs)). rewrite kid_opp_mkn.
  assert (Zp st (Fr (opp d) true w i :: Fr (opp d) b p t :: ctx) o) as HZo by (apply Zp_down; by rewrite mk_opp).
  step (node_is_black_ok _ _ _ HZo). destruct (isblack o) eqn:Ko.
  2:{ exists st, i, w, o. done. }
  rewrite andb_true_r in Hred. destruct (red_node d i Hred) as (ii & ia & io & ->). clear Hred HZo.
  step (child_ok st d _ _ (Zp_node _ _ _ _ _ _ _ HZs)). rewrite kid_mkn.
  destruct (when_black_ok st _ _ (Zp_down _ _ _ _ _ _ _ HZs)) as (st1 & E1 & HZ1). step E1. apply Zp_up in HZ1. rewrite blacken_mk in HZ1.
  destruct (set_red_ok _ _ _ _ _ _ _ HZ1) as (st2 & E2 & HZ2). step E2.
  rewrite <- (mk_opp d false), <- (mk_opp d true _ ia) in HZ2.
  destruct (rotate_ok _ _ _ _ _ _ _ _ _ _ HZ2) as (st3 & E3 & HZ3). step E3. rewrite !mk_opp in HZ3.
  apply Zp_up in HZ3. rewrite mk_opp in HZ3. rewrite (child_ok st3 (opp d) _ _ (Zp_node _ _ _ _ _ _ _ HZ3)). rewrite kid_opp_mkn, ptr_mk.
  eexists st3, _, _, _. split; [reflexivity|]. split; [by apply Zp_down|].
  destruct Hs as [B C N R CN CR]. rewrite !bal_mk in B. rewrite !nrr_mk in N.
  destruct N as (_ & (Kr & ? & ?) & ?). destruct (Kr eq_refl).
  split; [|split; [by rewrite isblack_mk|destruct d; simpl; rewrite <- ?app_assoc; simpl; by rewrite <- ?app_assoc]].
  split; rewrite ?bal_mk, ?nrr_mk, ?isblack_mk; try done; tauto.
Qed.

Lemma set_parent_color_ok st ctx d b b' x a y q :
  Zp st ctx (mk d b x a y) -> q = cpar ctx ->
  exists st', rb_set_parent_color a q (cz b') st = Some (tt, st') /\ Zp st' ctx (mk d b' x a y).
Proof.
  intros H ->. unfold rb_set_parent_color. rewrite (upd_ok _ _ _ _ (Zp_node _ _ _ _ _ _ _ H)). eexists. split; [reflexivity|].
  rewrite with_pc_mkn, word_lor by (by eapply Zp_par_ok). by eapply Zp_recolor.
Qed.

(** A black sibling with a red child pays for the missing black. *)
Lemma erase_last_ok st d b p i w o ctx t n :
  Zp st (Fr d b p (mk d true i w o) :: ctx) t -> short d b p (mk d true i w o) ctx n ->
  isblack i && isblack o = false -> bal t n -> nrr t -> isblack t = true ->
  exists st' T, erase_last aug d p w st = Some (tt, st') /\ Zp st' [] T /\ rbtree T
    /\ addrs T = addrs (plug (Fr d b p (mk d true i w o) :: ctx) t).
Proof.
  intros HZ Hs Hred Bt Nt Kt. unfold erase_last.
  destruct (erase_straighten_ok _ _ _ _ _ _ _ _ _ _ HZ Hs Hred) as (st1 & i' & w' & o' & E1 & HZ1 & [B C N R CN CR] & Ko & Ad).
  step E1. clear HZ Hs Hred E1. rewrite bal_mk, nrr_mk in *. destruct B as [Bi Bo], N as (_ & Ni & No).
  assert (Zp st1 (Fr (opp d) b p t :: ctx) (mk d true i' w' o')) as HZs by (apply Zp_up in HZ1; apply Zp_down; by rewrite mk_opp).
  step (get_ok st1 _ _ (Zp_node _ _ _ _ _ _ _ HZs)). step (get_ok st1 _ _ (Zp_node _ _ _ _ _ _ _ (Zp_up _ _ _ _ _ _ _ HZ1))).
  rewrite parent_mkn, color_mkn; [|by eapply Zp_par_ok; apply Zp_up in HZ1|by eapply (Zp_par_ok _ (Fr (opp d) b p t :: ctx))].
  destruct (set_parent_color_ok _ _ _ _ b _ _ _ p HZs eq_refl) as (st2 & E2 & HZ2). cbn [cpar]. step E2.
  apply Zp_up in HZ2. rewrite mk_opp in HZ2. destruct (set_black_ok _ _ _ _ _ _ _ HZ2) as (st3 & E3 & HZ3). step E3.
  assert (Zp st3 (Fr (opp d) true p t :: ctx) (mk d b i' w' o')) as HZ4 by (apply Zp_down; by rewrite mk_opp).
  step (child_ok st3 (opp d) _ _ (Zp_node _ _ _ _ _ _ _ HZ4)). rewrite kid_opp_mkn.
  assert (Zp st3 (Fr (opp d) b w' i' :: Fr (opp d) true p t :: ctx) o') as HZ5 by (apply Zp_down; by rewrite mk_opp).
  destruct (when_black_ok _ _ _ HZ5) as (st4 & E4 & HZ6). step E4. apply Zp_up in HZ6. rewrite mk_opp in HZ6.
  apply Zp_up in HZ6. rewrite mk_opp in HZ6. destruct (rotate_ok _ _ _ _ _ _ _ _ _ _ HZ6) as (st5 & E5 & HZ7).
  eexists st5, _. split; [exact E5|]. split; [exact (Zp_top _ _ _ HZ7)|]. split.
  - apply rbtree_zip. exists (if b then S (S n) else S n). split; rewrite ?isblack_mk; try done.
    + pose proof (bal_red_blacken o' n Ko Bo). destruct b; rewrite !bal_mk; tauto.
    + rewrite !nrr_mk, !isblack_mk. destruct (red_node d o' Ko) as (ox & oa & oy & ->). rewrite blacken_mk, isblack_mk, nrr_mk in *.
      split; [done|]. split; [split; [done|tauto]|]. split; [done|tauto].
  - simpl. apply addrs_plug_ext. rewrite <- (addrs_mk_ext d b b t t p _ _ eq_refl Ad).
    destruct (red_node d o' Ko) as (ox & oa & oy & ->). rewrite blacken_mk.
    destruct d; simpl; rewrite <- ?app_assoc; simpl; by rewrite <- ?app_assoc.
Qed.

Lemma Zp_root_ptr st ctx t : Zp st ctx t -> (ptr t =? root st) = match ctx with [] => true | _ => false end.
Proof.
  intros [[Hc _ N O] _]. destruct ctx as [|[d b a s] ctx]; simpl in Hc; [by rewrite Hc, Z.eqb_refl|].
  apply Z.eqb_neq. intros E. assert (root st ∈ caddrs (Fr d b a s :: ctx)) as Hin.
  { destruct Hc as (_ & _ & Hc). clear -Hc. revert a d b s Hc. induction ctx as [|[d' b' a' s'] ctx IH]; intros a d b s Hc.
    - simpl in Hc. rewrite Hc. apply elem_of_cons. by left.
    - destruct Hc as (_ & _ & Hc). specialize (IH a' d' b' s' Hc). simpl in *. rewrite elem_of_cons, elem_of_app. auto. }
  apply NoDup_app in N as (_ & Nd & _). apply Forall_app in O as [Oc Ot].
  eapply Forall_forall in Oc; [|exact Hin]. rewrite <- E in Hin, Oc. destruct t as [|bt l x r]; [destruct Oc as [Oc _]; simpl in Oc; lia|].
  apply (Nd _ Hin). by apply ptr_in.
Qed.

Lemma erase_loop_ok fuel st ctx t n :
  Zp st ctx t -> (length ctx < fuel)%nat \/ (isblack t = false /\ (0 < fuel)%nat) ->
  bal t n -> nrr (blacken t) -> cbal ctx (S n) -> cnrr ctx true -> croot ctx true ->
  exists st' ctx' t', erase_loop aug fuel (ptr t) (cpar ctx) st = Some (ptr t', st') /\ Zp st' ctx' t'
    /\ rbtree (plug ctx' (blacken t')) /\ addrs (plug ctx' t') = addrs (plug ctx t).
Proof.
  revert st ctx t n. induction fuel as [|fuel IH]; intros st ctx t n HZ Hf Hb Hn Hcb Hcn Hcr; [lia|].
  assert (ctx = [] \/ isblack t = false -> rbtree (plug ctx (blacken t))) as Hdone.
  { intros Hd. apply rbtree_zip. assert (isblack (blacken t) = true) as Kb by (by destruct t).
    destruct (isblack t) eqn:Kt; [destruct Hd as [->|]; [|done]|].
    - exists n. split; rewrite ?Kb; simpl; try done. by rewrite blacken_black.
    - exists (S n). split; rewrite ?Kb; try done. by apply bal_red_blacken. }
  cbn [erase_loop]. unfold get_root at 1. change (bind (fun st0 => Some (root st0, st0)) ?f st) with (f (root st) st). cbv beta.
  rewrite (Zp_root_ptr st ctx t HZ). destruct ctx as [|[d b p s] ctx].
  { change (bind (ret false) ?f st) with (f false st). cbv beta. cbn [negb]. exists st, [], t. split; [done|]. split; [done|]. auto. }
  step (node_is_black_ok _ _ _ HZ). destruct (isblack t) eqn:Kt; cbn [negb].
  2:{ exists st, (Fr d b p s :: ctx), t. split; [done|]. split; [done|]. auto. }
  destruct Hf as [Hf|[? _]]; [|done]. rewrite blacken_black in Hn by done. simpl in Hcb, Hcn, Hcr.
  assert (short d b p s ctx n) as Hs by (split; try tauto).
  pose proof (Zp_up _ _ _ _ _ _ _ HZ) as HZp. cbn [cpar]. step (child_ok st L _ _ (Zp_node _ _ _ _ _ _ _ HZp)).
  rewrite (side_ok _ _ _ _ _ _ _ HZp) by (right; destruct Hcb as [Bs _]; by destruct s). cbv zeta.
  destruct (erase_sibling_ok _ _ _ _ _ _ _ _ HZ Hs) as (st1 & b' & i & w & o & ctx' & E1 & HZ1 & Hs1 & Hl & Ad). step E1.
  assert (Zp st1 (Fr (opp d) b' p t :: ctx') (mk d true i w o)) as HZs by (apply Zp_up in HZ1; apply Zp_down; by rewrite mk_opp).
  pose proof (Zp_node _ _ _ _ _ _ _ HZs) as Ew.
  assert (exists kl kr, (Zp st1 (Fr L true w kr :: Fr (opp d) b' p t :: ctx') kl) /\ (Zp st1 (Fr R true w kl :: Fr (opp d) b' p t :: ctx') kr)
     /\ nodes st1 !! w = Some (RbNode (word p true) (ptr kr) (ptr kl)) /\ isblack kl && isblack kr = isblack i && isblack o) as (kl & kr & HZl & HZr & Ew' & Ek).
  { destruct d; [exists i, o|exists o, i; rewrite andb_comm]; (split; [by apply Zp_down|]); (split; [by apply Zp_down|]); done. }
  step (child_ok st1 L _ _ Ew'). cbn [kid rb_left]. step (node_is_black_ok _ _ _ HZl). step (child_ok st1 R _ _ Ew'). cbn [kid rb_right].
  step (node_is_black_ok _ _ _ HZr). rewrite Ek. destruct (isblack i && isblack o) eqn:Ebo.
  - destruct (set_red_ok _ _ _ _ _ _ _ HZs) as (st2 & E2 & HZ2). step E2. apply Zp_up in HZ2. rewrite mk_opp in HZ2.
    step (parent_ok st2 _ _ (Zp_node _ _ _ _ _ _ _ HZ2)). rewrite parent_mkn by (by eapply Zp_par_ok).
    destruct Hs1 as [B C N R CN CR]. rewrite bal_mk, nrr_mk in *. destruct B as [Bi Bo], N as (_ & Ni & No).
    apply andb_true_iff in Ebo as [Ki Ko].
    destruct (IH st2 ctx' _ (if b' then S n else n) HZ2) as (st' & ctx2 & t' & E & HZ' & RB & AD).
    + rewrite isblack_mk. simpl in Hf. destruct Hl as [->| ->]; [right; split; [done|lia]|left; lia].
    + destruct b'; rewrite !bal_mk; tauto.
    + rewrite blacken_mk, !nrr_mk, ?isblack_mk. split; [done|]. split; [done|]. tauto.
    + by destruct b'.
    + destruct b'; [done|]. clear -CN. destruct ctx' as [|[dd bb aa ss] c]; [done|]. simpl in *. tauto.
    + clear -CR CN. destruct b'; [done|]. destruct ctx' as [|[dd bb aa ss] c]; [done|]. done.
    + rewrite ptr_mk in E. exists st', ctx2, t'. split; [exact E|]. split; [done|]. split; [done|]. rewrite AD, <- Ad. simpl. apply addrs_plug_ext.
      apply addrs_mk_ext; [done|]. by apply addrs_mk_ext.
  - destruct (erase_last_ok _ _ _ _ _ _ _ _ _ _ HZ1 Hs1 Ebo Hb Hn Kt) as (st' & T & E & HZ' & RT & AT). step E.
    unfold get_root. destruct HZ' as [HZr' HP']. pose proof (zr_ctx _ _ _ HZr') as Er. simpl in Er. rewrite Er.
    exists st', [], T. split; [done|]. split; [by split|]. simpl. rewrite AT, Ad. split; [|done].
    rewrite blacken_black; [done|]. apply RT.
Qed.
End insert.

(** ** Deletion: taking a node out *)

Section splice.
Context {A : Type}.
Implicit Types (st : rbst A).

(** [transplant] points the slot of [u] at the subtree [v], whose parent link may be stale. *)
Lemma transplant_ok st ctx u w r l v q :
  crep (nodes st) (root st) ctx u -> nodes st !! u = Some (RbNode (word (cpar ctx) w) r l) -> okaddr u ->
  NoDup (caddrs ctx ++ addrs v) -> Forall okaddr (caddrs ctx ++ addrs v) -> u ∉ caddrs ctx ->
  rep (nodes st) v q -> okptr q ->
  exists m' rt', transplant u (ptr v) st = Some (tt, RbSt m' rt' (aux st))
    /\ crep m' rt' ctx (ptr v) /\ rep m' v (cpar ctx) /\ same_off (caddrs ctx ++ addrs v) (nodes st) m'.
Proof.
  intros Hc Hu Hou Hn Hok Huc Hr Hq. apply NoDup_app in Hn as (Nc & Nd & Nv). apply Forall_app in Hok as [Oc Ov].
  unfold transplant. step (parent_ok st _ _ Hu). rewrite rb_parent_word by (by apply cpar_ok).
  destruct (relink_ok st ctx u (ptr v)) as (m1 & rt & E1 & Hc1 & S1); try done; [destruct Hou; lia|].
  match goal with |- context [bind ?e ?f] => assert (e st = Some (tt, RbSt m1 rt (aux st))) as E1' end.
  { unfold relink, nonnull in E1. destruct (cpar ctx =? 0); [exact E1|]. cbn [negb] in E1. rewrite <- E1.
    unfold bind. destruct (child L (cpar ctx) st) as [[x st1]|]; [|done]. by rewrite Z.eqb_sym. }
  step E1'. destruct (reparent_ok (RbSt m1 rt (aux st)) v q (cpar ctx)) as (m2 & E2 & R2 & S2); try done.
  { cbn. apply (rep_frame (nodes st)); [|done]. intros a Ha. apply S1. intros Ha'. by apply (Nd a). }
  { by apply cpar_ok. }
  exists m2, rt. split; [exact E2|]. cbn in S2. split.
  - apply (crep_frame m1); [|done]. intros a Ha. apply S2. by apply Nd.
  - split; [done|]. intros a [Ha1 Ha2]%not_elem_of_app. rewrite S2, S1; done.
Qed.

(** Unlinking a node with at most one child. *)
Lemma rbproofs_unlink_ok st ctx d b z r :
  zrep st ctx (mk d b Leaf z r) ->
  exists st', transplant z (ptr r) st = Some (tt, st') /\ zrep st' ctx r /\ aux st' = aux st
    /\ nodes st' !! z = nodes st !! z.
Proof.
  intros [Hc Ht Hn Ho]. rewrite ptr_mk in Hc. apply rep_mk in Ht as (Ez & _ & Hr).
  assert (zaddrs ctx (mk d b Leaf z r) ≡ₚ z :: caddrs ctx ++ addrs r) as E.
  { unfold zaddrs. rewrite addrs_mk. simpl. by rewrite <- Permutation_middle. }
  rewrite E in Hn, Ho. apply NoDup_cons in Hn as [Nz Hn]. apply Forall_cons in Ho as [Oz Ho]. pose proof Nz as [Nzc Nzr]%not_elem_of_app.
  assert (exists x y, nodes st !! z = Some (RbNode (word (cpar ctx) b) x y)) as (x & y & Ez') by (destruct d; eauto).
  destruct (transplant_ok st ctx z b x y r z) as (m & rt & Et & Hc' & Hr' & S); try done; [by right|].
  eexists. split; [exact Et|]. split; [by split|]. split; [done|]. cbn. by apply S.
Qed.

Lemma splice_ok st ctx bz l z rz b y r q :
  crep (nodes st) (root st) ctx z -> nodes st !! z = Some (RbNode (word (cpar ctx) bz) rz (ptr l)) ->
  rep (nodes st) l z -> l <> Leaf -> rep (nodes st) (Node b Leaf y r) q -> okptr q ->
  NoDup (caddrs ctx ++ z :: addrs l ++ y :: addrs r) -> Forall okaddr (caddrs ctx ++ z :: addrs l ++ y :: addrs r) ->
  exists st', splice z y st = Some (tt, st') /\ zrep st' ctx (Node bz l y r) /\ aux st' = aux st.
Proof.
  intros Hc Ez Hl Hlne Hy Hq Hn Ho.
  assert (caddrs ctx ++ z :: addrs l ++ y :: addrs r ≡ₚ z :: (caddrs ctx ++ y :: addrs r) ++ addrs l) as E1.
  { rewrite <- Permutation_middle. constructor. rewrite <- app_assoc. f_equiv. by rewrite Permutation_app_comm. }
  rewrite E1 in Hn, Ho. apply NoDup_cons in Hn as [Nz Hn]. apply Forall_cons in Ho as [Oz Ho].
  pose proof Hn as Hn2. pose proof Ho as Ho2. apply NoDup_app in Hn as (Nv & Nvl & Nl). apply Forall_app in Ho as [Ov Ol].
  apply not_elem_of_app in Nz as [Nzv Nzl]. pose proof Nzv as [Nzc [Nzy Nzr]%not_elem_of_cons]%not_elem_of_app.
  pose proof Nv as (Nc & Ncv & [Nyr Nr]%NoDup_cons)%NoDup_app. pose proof Ov as [Oc [Oy Or]%Forall_cons]%Forall_app.
  assert (forall a, a ∈ addrs l -> a <> z /\ a <> y /\ a ∉ caddrs ctx /\ a ∉ addrs r) as Hla.
  { intros a Ha. split; [by intros ->|]. assert (a ∉ caddrs ctx ++ y :: addrs r) as Hx by (intros Hx; by apply (Nvl a)).
    apply not_elem_of_app in Hx as [? [? ?]%not_elem_of_cons]. done. }
  assert (forall a, a ∈ caddrs ctx -> a <> z /\ a <> y /\ a ∉ addrs l) as Hca.
  { intros a Ha. split; [by intros ->|]. split; [intros ->; apply (Ncv y Ha), elem_of_cons; by left|].
    apply Nvl. apply elem_of_app. by left. }
  unfold splice. destruct (transplant_ok st ctx z bz rz (ptr l) (Node b Leaf y r) q) as (m1 & rt & E2 & Hc1 & Hv1 & S1); try done.
  cbn [ptr] in *. step E2. clear E2. simpl in Hv1, S1. destruct Hv1 as (Ey1 & _ & Hr1).
  assert (m1 !! z = Some (RbNode (word (cpar ctx) bz) rz (ptr l))) as Ez1 by (rewrite S1; done).
  match goal with |- context [bind (child L z) _ ?s] => set (st1 := s) end. step (child_ok st1 L _ _ Ez1). cbn [kid rb_left].
  unfold set_child. step (upd_ok st1 _ (with_kid L (ptr l)) _ Ey1). cbn [with_kid __rb_parent_color rb_right].
  set (m2 := <[y := _]> (nodes st1)).
  assert (rep m2 l z) as Hl2.
  { apply (rep_frame (nodes st)); [|done]. intros a Ha. destruct (Hla a Ha) as (? & ? & ? & ?). unfold m2.
    rewrite lookup_insert_ne by done. apply S1. rewrite not_elem_of_app, not_elem_of_cons. done. }
  destruct (reparent_ok (with_nodes st1 m2) l z y) as (m3 & E3 & Hl3 & S3); try done; [by right..|].
  assert (nonnull (ptr l) = true) as Enn.
  { destruct l as [|bl ll la lr]; [done|]. unfold nonnull. simpl in *. apply Forall_app in Ol as [_ [[? _] _]%Forall_cons].
    by rewrite (proj2 (Z.eqb_neq la 0)) by lia. }
  rewrite Enn in E3. cbn [when] in E3. step E3. cbn [nodes with_nodes] in S3.
  assert (m3 !! y = Some (RbNode (word (cpar ctx) b) (ptr r) (ptr l))) as Ey3.
  { rewrite S3; [unfold m2; by rewrite lookup_insert_eq|]. intros Hx. by destruct (Hla y Hx) as (_ & ? & _). }
  assert (m3 !! z = Some (RbNode (word (cpar ctx) bz) rz (ptr l))) as Ez3.
  { rewrite S3 by done. unfold m2. by rewrite lookup_insert_ne. }
  match goal with |- context [bind (get y) _ ?s] => set (st3 := s) end. step (get_ok st3 _ _ Ey3). step (get_ok st3 _ _ Ez3).
  rewrite rb_parent_word, rb_color_word by (by apply cpar_ok). unfold rb_set_parent_color. rewrite (upd_ok st3 _ _ _ Ey3).
  cbn [with_pc rb_right rb_left]. rewrite word_lor by (by apply cpar_ok). eexists. split; [reflexivity|]. split; [|done].
  assert (forall a, a <> y -> a ∉ addrs l -> a ∉ caddrs ctx -> a ∉ addrs r -> m3 !! a = nodes st !! a) as S4.
  { intros a H1 H2 H3 H4. rewrite S3 by done. unfold m2. rewrite lookup_insert_ne by done. apply S1. rewrite not_elem_of_app, not_elem_of_cons. done. }
  split; cbn [nodes root with_nodes st3].
  - apply (crep_frame m1); [|done]. intros a Ha. destruct (Hca a Ha) as (? & ? & ?). rewrite lookup_insert_ne by done.
    rewrite S3 by done. unfold m2. by rewrite lookup_insert_ne.
  - simpl. rewrite lookup_insert_eq. split; [done|]. split.
    + apply (rep_frame m3); [|done]. intros a Ha. destruct (Hla a Ha) as (_ & ? & _). by rewrite lookup_insert_ne.
    + apply (rep_frame m1); [|done]. intros a Ha. assert (a <> y) by (intros ->; done).
      assert (a ∉ addrs l) by (apply Nvl; rewrite elem_of_app, elem_of_cons; auto).
      rewrite lookup_insert_ne by done. rewrite S3 by done. unfold m2. by rewrite lookup_insert_ne.
  - unfold zaddrs. simpl. assert (caddrs ctx ++ addrs l ++ y :: addrs r ≡ₚ (caddrs ctx ++ y :: addrs r) ++ addrs l) as ->; [|done].
    rewrite <- app_assoc. f_equiv. by rewrite Permutation_app_comm.
  - unfold zaddrs. simpl. assert (caddrs ctx ++ addrs l ++ y :: addrs r ≡ₚ (caddrs ctx ++ y :: addrs r) ++ addrs l) as ->; [|done].
    rewrite <- app_assoc. f_equiv. by rewrite Permutation_app_comm.
Qed.
End splice.

(** ** In-order positions *)

Fixpoint cleft (ctx : list frame) : list Z :=
  match ctx with
  | [] => []
  | Fr L _ _ _ :: ctx => cleft ctx
  | Fr R _ a s :: ctx => cleft ctx ++ addrs s ++ [a]
  end.

Fixpoint cright (ctx : list frame) : list Z :=
  match ctx with
  | [] => []
  | Fr L _ a s :: ctx => a :: addrs s ++ cright ctx
  | Fr R _ _ _ :: ctx => cright ctx
  end.

Lemma addrs_plug ctx t : addrs (plug ctx t) = cleft ctx ++ addrs t ++ cright ctx.
Proof.
  revert t. induction ctx as [|[[] b a s] ctx IH]; intros t; simpl; [by rewrite app_nil_r|..].
  - rewrite IH. simpl. by rewrite <- app_assoc.
  - rewrite IH. simpl. rewrite <- !app_assoc. done.
Qed.

Definition all_left (ctx : list frame) : Prop := Forall (fun f => match f with Fr d _ _ _ => d = L end) ctx.

Lemma all_left_cleft ctx : all_left ctx -> cleft ctx = [].
Proof. induction 1 as [|[d b a s] ctx Hd _ IH]; [done|]. simpl in *. by subst d. Qed.

Lemma nodes_length {A} (st : rbst A) ctx t : zrep st ctx t -> (length (zaddrs ctx t) <= size (nodes st))%nat.
Proof.
  intros [Hc Ht Hn _]. rewrite <- (size_list_to_set (C := gset Z) _ Hn), <- size_dom. apply subseteq_size.
  intros a Ha%elem_of_list_to_set. apply elem_of_dom. unfold zaddrs in Ha. apply elem_of_app in Ha as [Ha|Ha]; [|by eapply rep_lookup].
  clear -Hc Ha. revert Hc. generalize (ptr t). induction ctx as [|[d b x s] ctx IH]; intros h Hc; [by apply elem_of_nil in Ha|].
  simpl in *. destruct Hc as (E & Hs & Hc). apply elem_of_cons in Ha as [->|[Ha|Ha]%elem_of_app]; [done|by eapply rep_lookup|by eapply IH].
Qed.

Lemma ctx_length ctx : (length ctx <= length (caddrs ctx))%nat.
Proof. induction ctx as [|[d b a s] ctx IH]; simpl; [done|]. rewrite length_app. lia. Qed.

Fixpoint height (t : tree) : nat := match t with Leaf => 0 | Node _ l _ r => S (Nat.max (height l) (height r)) end.

Lemma height_length t : (height t <= length (addrs t))%nat.
Proof. induction t as [|b l IHl a r IHr]; simpl; [done|]. rewrite length_app. simpl. lia. Qed.

(** The end of the [d] links. *)
Lemma descend_ok {A} fuel (st : rbst A) ctx d t :
  zrep st ctx t -> t <> Leaf -> (height t <= fuel)%nat ->
  exists cy b y x, descend d fuel (ptr t) st = Some (y, st) /\ t = plug cy (mk d b Leaf y x)
    /\ Forall (fun f => match f with Fr d' _ _ _ => d' = d end) cy.
Proof.
  revert ctx t. induction fuel as [|fuel IH]; intros ctx t Hz Hne Hf.
  { destruct t as [|b l a r]; [done|]. simpl in Hf. lia. }
  destruct t as [|b l a r]; [done|]. rewrite (mk_any d) in Hz, Hf |- *. rewrite ptr_mk. set (k := if d then l else r) in *.
  set (o := if d then r else l) in *. cbn [descend]. pose proof (zr_tree _ _ _ Hz) as (E & _ & _)%rep_mk.
  step (child_ok st d _ _ E). rewrite kid_mkn. pose proof (proj2 (zrep_move st d b a o ctx k) Hz) as Hk.
  destruct k as [|bk kl ka kr] eqn:Ek.
  { cbn [ptr nonnull Z.eqb negb]. exists [], b, a, o. done. }
  assert (nonnull (ptr (Node bk kl ka kr)) = true) as ->.
  { unfold nonnull. pose proof (zr_ok _ _ _ Hk) as Ho. apply Forall_app in Ho as [_ Ho]. simpl in *.
    apply Forall_app in Ho as [_ [[? _] _]%Forall_cons]. by rewrite (proj2 (Z.eqb_neq ka 0)) by lia. }
  destruct (IH _ _ Hk) as (cy & by_ & y & x & Ed & Et & Hall); [done| |].
  { destruct d; cbn [mk height] in *; lia. }
  exists (cy ++ [Fr d b a o]), by_, y, x. split; [exact Ed|]. rewrite plug_app, <- Et. split; [done|].
  apply Forall_app. split; [done|]. by constructor.
Qed.

Lemma subtree_min_ok {A} (st : rbst A) ctx t :
  zrep st ctx t -> t <> Leaf ->
  exists cy b y x, subtree_min (ptr t) st = Some (y, st) /\ t = plug cy (Node b Leaf y x) /\ all_left cy.
Proof. pose proof (height_length t).
  intros Hz Hne. pose proof (nodes_length st ctx t Hz) as Hl. unfold zaddrs in Hl. rewrite length_app in Hl.
  destruct (descend_ok (S (size (nodes st))) st ctx L t Hz Hne) as (cy & b & y & x & E & Et & Ha); [lia|].
  by exists cy, b, y, x.
Qed.

(** ** Black heights around a removed node *)

Lemma cbal_readdr c1 d b a a' s c2 n : cbal (c1 ++ Fr d b a s :: c2) n <-> cbal (c1 ++ Fr d b a' s :: c2) n.
Proof. revert n. induction c1 as [|[d' b' x t] c1 IH]; intros n; simpl; [done|]. by rewrite IH. Qed.

Lemma cnrr_readdr c1 d b a a' s c2 h : cnrr (c1 ++ Fr d b a s :: c2) h <-> cnrr (c1 ++ Fr d b a' s :: c2) h.
Proof. revert h. induction c1 as [|[d' b' x t] c1 IH]; intros n; simpl; [done|]. by rewrite IH. Qed.

Lemma croot_readdr c1 d b a a' s c2 h : croot (c1 ++ Fr d b a s :: c2) h <-> croot (c1 ++ Fr d b a' s :: c2) h.
Proof. revert h. induction c1 as [|[d' b' x t] c1 IH]; intros n; simpl; [done|]. by rewrite IH. Qed.

Lemma cnrr_weaken ctx h : cnrr ctx h -> cnrr ctx true.
Proof. destruct ctx as [|[d b a s] ctx]; [done|]. simpl. intros (H & ? & ?). split; [|done]. intros Hb. by destruct (H Hb). Qed.

Lemma croot_weaken ctx h : croot ctx h -> croot ctx true.
Proof. by destruct ctx as [|[d b a s] ctx]. Qed.

(** What is left where a node with one subtree [t] was: a tree, or one a black short. *)
Definition hole_ok (ctx : list frame) (t : tree) (b : bool) : Prop :=
  if b then exists n, bal t n /\ nrr t /\ cbal ctx (S n) /\ cnrr ctx true /\ croot ctx true
  else rbtree (plug ctx t).

Lemma hole_after ctx d b z t n : rbz ctx (mk d b Leaf z t) n -> hole_ok ctx t b.
Proof.
  intros [B C N CN CR]. rewrite ?isblack_mk, bal_mk, nrr_mk in *. destruct N as (K & _ & N). unfold hole_ok. destruct b.
  - destruct n as [|n]; [done|]. exists n. split_and!; try done; apply B.
  - apply rbtree_zip. exists n. destruct (K eq_refl) as [_ Kt]. split; rewrite ?Kt; try done; [apply B|by eapply cnrr_weaken|by eapply croot_weaken].
Qed.

Lemma hole_readdr c1 d b a a' s c2 t h :
  hole_ok (c1 ++ Fr d b a s :: c2) t h -> hole_ok (c1 ++ Fr d b a' s :: c2) t h.
Proof.
  unfold hole_ok. destruct h.
  - intros (n & H1 & H2 & H3 & H4 & H5). exists n. split_and!; try done; [by eapply cbal_readdr|by eapply cnrr_readdr|by eapply croot_readdr].
  - rewrite !rbtree_zip. intros (n & [H1 H2 H3 H4 H5]). exists n.
    split; try done; [by eapply cbal_readdr|by eapply cnrr_readdr|by eapply croot_readdr].
Qed.
