(* ===== verification/RbTheorems.v ===== *)
(** * Red-black trees: deletion as a whole, iteration, and the theorems

    [erase_node] and [__rb_erase] on top of the fix-up of RbProofs.v, the in-order walks,
    and the properties of the operations that users of kernel/lib/rbtree.c call. *)

From stdpp Require Import base numbers list gmap.
From S2P Require Import Prelude RbTree RbSpec RbProofs.

(** ** Taking the node out *)

Section erase.
Context {A : Type}.
Implicit Types (st : rbst A).
Variable aug : option (rb_augment_callbacks A).

(** The callbacks may change the user's memory, never the tree; they keep it [good] and do
    not fail on nodes of [U], where the nodes of the tree are. *)
Variable good : A -> Prop.
Variable U : Z -> Prop.
Definition harmless (r : option (unit * rbst A)) st : Prop :=
  exists st', r = Some (tt, st') /\ nodes st' = nodes st /\ root st' = root st /\ good (aux st').
Hypothesis copy_harmless : forall st a b, good (aux st) -> U a -> U b -> harmless (copy aug a b st) st.

Lemma zrep_same (st st' : rbst A) ctx t : nodes st' = nodes st -> root st' = root st -> zrep st ctx t -> zrep st' ctx t.
Proof. intros H1 H2 [Z1 Z2 Z3 Z4]. split; rewrite ?H1, ?H2; done. Qed.

Definition erased (st : rbst A) (T : tree) (z : Z) (r : option (Z * Z * bool * rbst A)) : Prop :=
  exists st' cx x bk, r = Some (ptr x, cpar cx, bk, st') /\ zrep st' cx x /\ hole_ok cx x bk /\ good (aux st')
    /\ exists l1 l2, addrs T = l1 ++ z :: l2 /\ addrs (plug cx x) = l1 ++ l2.

(** At most one subtree. *)
Lemma erase_one_ok st ctx d b z x :
  zrep st ctx (mk d b Leaf z x) -> rbtree (plug ctx (mk d b Leaf z x)) -> good (aux st) ->
  erased st (plug ctx (mk d b Leaf z x)) z
    (bind (transplant z (ptr x)) (fun _ => ret (ptr x, cpar ctx, b)) st).
Proof.
  intros Hz Hrb Hg. destruct (rbproofs_unlink_ok _ _ _ _ _ _ Hz) as (st' & E & Hz' & Ex & _). step E.
  exists st', ctx, x, b. split; [done|]. split; [done|]. apply rbtree_zip in Hrb as (n & Hrb).
  split; [by eapply hole_after|]. split; [by rewrite Ex|]. exists (cleft ctx ++ if d then [] else addrs x), ((if d then addrs x else []) ++ cright ctx).
  rewrite !addrs_plug. destruct d; simpl; rewrite <- ?app_assoc; done.
Qed.

Lemma two_child_addrs ctx b l z by_ y x cy :
  all_left cy ->
  exists l1 l2, addrs (plug ctx (Node b l z (plug cy (Node by_ Leaf y x)))) = l1 ++ z :: l2
    /\ addrs (plug (cy ++ Fr R b y l :: ctx) x) = l1 ++ l2.
Proof.
  intros Hall. exists (cleft ctx ++ addrs l), (y :: addrs (plug cy x) ++ cright ctx). rewrite plug_app. simpl.
  rewrite !addrs_plug. simpl. rewrite !addrs_plug, (all_left_cleft _ Hall). simpl. rewrite <- !app_assoc. simpl. by rewrite <- ?app_assoc.
Qed.

Lemma splice_perm (c l r : list Z) z y : c ++ l ++ z :: y :: r ≡ₚ c ++ z :: l ++ y :: r.
Proof. f_equiv. by rewrite <- Permutation_middle. Qed.

Lemma insert_perm (c l r : list Z) z y : c ++ z :: l ++ y :: r ≡ₚ y :: c ++ l ++ z :: r.
Proof.
  rewrite <- splice_perm, !app_assoc. rewrite (Permutation_swap y z r), <- Permutation_middle. done.
Qed.

(** The minimum of the right subtree is its root. *)
Lemma pull_here_ok st ctx b l z by_ y x :
  zrep st ctx (Node b l z (Node by_ Leaf y x)) -> l <> Leaf ->
  exists st', splice z y st = Some (tt, st') /\ zrep st' (Fr R b y l :: ctx) x /\ aux st' = aux st.
Proof.
  intros Hz Hl. pose proof Hz as [Hc (Ez & Hrl & Hry) Hn Ho]. unfold zaddrs in Hn, Ho. simpl in Hn, Ho. rewrite splice_perm in Hn, Ho.
  destruct (splice_ok st ctx b l z y by_ y x z) as (st' & E & Hz' & Ex); try done.
  { right. apply Forall_app in Ho as [_ [? _]%Forall_cons]. done. }
  exists st'. split; [done|]. split; [|done]. by apply (zrep_move st' R b y l ctx x).
Qed.

(** The minimum of the right subtree lies deeper. *)
Lemma pull_deep_ok st ctx b l z by_ y x d' b' p s cy :
  let r := plug (Fr d' b' p s :: cy) in
  zrep st ctx (Node b l z (r (Node by_ Leaf y x))) -> l <> Leaf ->
  forall yn, nodes st !! y = Some yn ->
  exists st1 st', pull_min z y yn st = Some (p, st1) /\ splice z y st1 = Some (tt, st')
    /\ zrep st' ((Fr d' b' p s :: cy) ++ Fr R b y l :: ctx) x /\ aux st' = aux st.
Proof.
  intros r Hz Hl yn Ey. pose proof (proj2 (zrep_move st R b z l ctx (r (Node by_ Leaf y x))) Hz) as Hzr.
  unfold r in Hzr. apply zrep_plug in Hzr. cbn [app] in Hzr.
  pose proof (zr_tree _ _ _ Hzr) as (Ey' & _ & _). rewrite Ey' in Ey. injection Ey as <-.
  pose proof (zr_nodup _ _ _ Hzr) as Hn. pose proof (zr_ok _ _ _ Hzr) as Ho. unfold pull_min.
  assert (okptr p) as Op by (right; apply Forall_app in Ho as [Ho _]; simpl in Ho; by apply Forall_cons in Ho as [? _]).
  cbn [cpar] in *. rewrite rb_parent_word by done.
  assert (p <> z) as Hpz.
  { intros ->. apply NoDup_app in Hn as (Hn & _). simpl in Hn. apply NoDup_cons in Hn as [Hn _]. apply Hn.
    rewrite elem_of_app. right. clear. induction cy as [|[? ? ? ?] cy IH]; simpl; [apply elem_of_cons; by left|].
    apply elem_of_cons. right. rewrite elem_of_app. auto. }
  rewrite (proj2 (Z.eqb_neq p z)) by done. cbn [rb_right].
  destruct (rbproofs_unlink_ok st _ L by_ y x Hzr) as (st1 & E1 & Hz1 & Ex1 & Ey1). step E1. clear E1.
  assert (y ∉ zaddrs ((Fr d' b' p s :: cy) ++ Fr R b z l :: ctx) x) as Hy.
  { intros Hy. pose proof Hn as (_ & Nd & [Nx _]%NoDup_cons)%NoDup_app. apply elem_of_app in Hy as [Hy|Hy]; [|done].
    apply (Nd y Hy). simpl. apply elem_of_cons. by left. }
  assert (okaddr y) as Oy.
  { apply Forall_app in Ho as [_ Ho]. simpl in Ho. by apply Forall_cons in Ho as [? _]. }
  apply (zrep_plug st1 (Fr d' b' p s :: cy) (Fr R b z l :: ctx) x) in Hz1. set (r' := plug (Fr d' b' p s :: cy) x) in *.
  assert (y ∉ zaddrs ctx (Node b l z r')) as Hy'.
  { change (Node b l z r') with (mk R b r' z l). rewrite <- zaddrs_mk. unfold r'. by rewrite <- zaddrs_plug. }
  apply (zrep_move st1 R b z l ctx r') in Hz1. cbn [mk] in Hz1. destruct Hz1 as [Hc (Ez & Hrl & Hrr) Hn1 Ho1].
  unfold zaddrs in Hn1, Ho1, Hy'. simpl in Hn1, Ho1, Hy'. rewrite !not_elem_of_app, not_elem_of_cons in Hy'. destruct Hy' as (Yc & Yl & Yz & Yr).
  pose proof Hn1 as (Nc & Ncd & (Nl & Nld & [Nzr Nr]%NoDup_cons)%NoDup_app)%NoDup_app.
  pose proof Ho1 as [Oc [Ol [Oz Or]%Forall_cons]%Forall_app]%Forall_app.
  step (child_ok st1 R _ _ Ez). cbn [kid rb_right]. unfold set_child. rewrite Ey' in Ey1.
  step (upd_ok st1 _ (with_kid R (ptr r')) _ Ey1). cbn [with_kid __rb_parent_color rb_left ptr]. set (m2 := <[y := _]> (nodes st1)).
  destruct (reparent_ok (with_nodes st1 m2) r' z y) as (m3 & E3 & Hr3 & S3); try done; try (by right).
  { cbn. apply (rep_frame (nodes st1)); [|done]. intros a Ha. unfold m2. rewrite lookup_insert_ne; [done|]. by intros <-. }
  assert (nonnull (ptr r') = true) as Enn.
  { unfold nonnull. destruct (Z.eqb_spec (ptr r') 0) as [E0|]; [|done]. apply ptr_zero in E0; [|done]. exfalso.
    apply (f_equal addrs) in E0. unfold r' in E0. rewrite addrs_plug in E0. apply app_eq_nil in E0 as [E0 E0']. apply app_eq_nil in E0' as [_ E0'].
    by destruct d'; simpl in E0, E0'; [|destruct (cleft cy), (addrs s)]. }
  rewrite Enn in E3. cbn [when] in E3. step E3. cbn [nodes with_nodes] in S3. set (st3 := with_nodes (with_nodes st1 m2) m3).
  assert (forall a, a <> y -> a ∉ addrs r' -> m3 !! a = nodes st1 !! a) as S4.
  { intros a H1 H2. rewrite S3 by done. unfold m2. by rewrite lookup_insert_ne. }
  destruct (splice_ok st3 ctx b l z (ptr r') by_ y r' p) as (st' & E4 & Hz' & Ex4); cbn [st3 nodes root with_nodes].
  - apply (crep_frame (nodes st1)); [|done]. intros a Ha. apply S4; [by intros ->|]. intros Ha'. apply (Ncd a Ha). rewrite elem_of_app, elem_of_cons. auto.
  - by rewrite S4.
  - apply (rep_frame (nodes st1)); [|done]. intros a Ha. apply S4; [by intros ->|]. intros Ha'. apply (Nld a Ha). rewrite elem_of_cons. auto.
  - done.
  - simpl. split; [|done]. rewrite S3 by done. unfold m2. by rewrite lookup_insert_eq.
  - done.
  - rewrite insert_perm. apply NoDup_cons. split; [|done]. rewrite !not_elem_of_app, not_elem_of_cons. done.
  - rewrite insert_perm. by constructor.
  - exists st3, st'. split; [done|]. split; [exact E4|]. split; [|by rewrite Ex4]. apply (zrep_plug st' (Fr d' b' p s :: cy) (Fr R b y l :: ctx) x).
    by apply (zrep_move st' R b y l ctx r').
Qed.

Lemma erase_node_ok st ctx b l z r :
  zrep st ctx (Node b l z r) -> rbtree (plug ctx (Node b l z r)) ->
  good (aux st) -> (forall a, a ∈ addrs (plug ctx (Node b l z r)) -> U a) ->
  erased st (plug ctx (Node b l z r)) z (erase_node aug z st).
Proof.
  intros Hz Hrb Hg HU. pose proof (zr_tree _ _ _ Hz) as (Ez & _ & _). pose proof (zr_ok _ _ _ Hz) as Ho. unfold zaddrs in Ho. simpl in Ho.
  apply Forall_app in Ho as [Oc [Ol [Oz Or]%Forall_cons]%Forall_app]. assert (okptr (cpar ctx)) as Op by (by apply cpar_ok).
  unfold erase_node. step (get_ok st _ _ Ez). cbn [rb_left rb_right]. rewrite rb_black_word, rb_parent_word by done.
  destruct (Z.eqb_spec (ptr l) 0) as [E0|Nl]; [apply ptr_zero in E0 as ->; [|done]; by apply (erase_one_ok st ctx L)|].
  destruct (Z.eqb_spec (ptr r) 0) as [E0|Nr]; [apply ptr_zero in E0 as ->; [|done]; by apply (erase_one_ok st ctx R)|].
  assert (l <> Leaf) as Hl by (by intros ->). assert (r <> Leaf) as Hr by (by intros ->).
  pose proof (proj2 (zrep_move st R b z l ctx r) Hz) as Hzr.
  destruct (subtree_min_ok st _ r Hzr Hr) as (cy & by_ & y & x & Em & -> & Hall). step Em. clear Em.
  pose proof (proj2 (zrep_plug st cy (Fr R b z l :: ctx) _) Hzr) as Hzy. pose proof (zr_tree _ _ _ Hzy) as (Ey & _ & _).
  step (get_ok st _ _ Ey). cbn [rb_right]. pose proof (cpar_ok _ (proj1 (proj1 (Forall_app _ _ _) (zr_ok _ _ _ Hzy)))) as Opy.
  rewrite rb_black_word by done.
  assert (hole_ok (cy ++ Fr R b y l :: ctx) x by_) as Hhole.
  { apply (hole_readdr _ _ _ z). assert (rbtree (plug (cy ++ Fr R b z l :: ctx) (mk L by_ Leaf y x))) as (n & Hn)%rbtree_zip by (by rewrite plug_app).
    by eapply hole_after. }
  destruct (two_child_addrs ctx b l z by_ y x cy Hall) as (l1 & l2 & A1 & A2).
  assert (exists st1 st2, pull_min z y (RbNode (word (cpar (cy ++ Fr R b z l :: ctx)) by_) (ptr x) (ptr Leaf)) st
            = Some (cpar (cy ++ Fr R b y l :: ctx), st1)
          /\ splice z y st1 = Some (tt, st2) /\ zrep st2 (cy ++ Fr R b y l :: ctx) x /\ aux st2 = aux st) as (st1 & st2 & E1 & E2 & Hz2 & Ex2).
  { destruct cy as [|[d' b' p s] cy].
    - destruct (pull_here_ok st ctx b l z by_ y x Hz Hl) as (st' & E & Hz' & Ex). exists st, st'. split; [|done].
      unfold pull_min. rewrite rb_parent_word by done. cbn [app cpar]. by rewrite Z.eqb_refl.
    - destruct (pull_deep_ok st ctx b l z by_ y x d' b' p s cy Hz Hl _ Ey) as (st1 & st' & E1 & E2 & Hz' & Ex). by exists st1, st'. }
  step E1. step E2. destruct (copy_harmless st2 z y) as (st3 & E3 & Hn3 & Hr3 & Hg3).
  { by rewrite Ex2. }
  { apply HU. rewrite A1, elem_of_app, elem_of_cons. auto. }
  { apply HU. change (y ∈ zaddrs [] (plug ctx (Node b l z (plug cy (Node by_ Leaf y x))))).
    rewrite <- zaddrs_plug, app_nil_r. change (Node b l z ?t) with (mk R b t z l). rewrite <- zaddrs_mk, <- zaddrs_plug. unfold zaddrs. simpl.
    rewrite elem_of_app, elem_of_cons. auto. }
  step E3. exists st3, (cy ++ Fr R b y l :: ctx), x, by_. split; [done|]. split; [by eapply zrep_same|]. split; [done|]. split; [done|].
  by exists l1, l2.
Qed.

Lemma skel_addrs t t' : skel t = skel t' -> addrs t = addrs t'.
Proof. revert t'. induction t as [|b l IHl a r IHr]; intros [|b' l' a' r']; simpl; try done. intros [= E1 -> E2]. by rewrite (IHl _ E1), (IHr _ E2). Qed.

Lemma rotated_addrs ctx d b x a bp i p o :
  addrs (plug ctx (mk d bp (mk d b x a i) p o)) = addrs (plug ctx (mk d b x a (mk d bp i p o))).
Proof. apply addrs_plug_ext. destruct d; simpl; by rewrite <- app_assoc. Qed.

(** ** Deletion *)

Hypothesis rotate_harmless : forall st ctx d b x a bp i p o, zrep st ctx (mk d bp (mk d b x a i) p o) ->
  good (aux st) -> (forall z, z ∈ addrs (plug ctx (mk d bp (mk d b x a i) p o)) -> U z) -> harmless (rotated aug a p st) st.
Hypothesis propagate_harmless : forall st T a, zrep st [] T -> a ∈ addrs T ->
  good (aux st) -> (forall z, z ∈ addrs T -> U z) -> harmless (propagate aug a 0 st) st.

Lemma fixup_ok st cx x n :
  zrep st cx x -> bal x n -> nrr x -> cbal cx (S n) -> cnrr cx true -> croot cx true ->
  good (aux st) -> (forall z, z ∈ addrs (plug cx x) -> U z) ->
  exists st' T, __rb_erase_fixup aug (ptr x) (cpar cx) st = Some (tt, st') /\ zrep st' [] T /\ rbtree T
    /\ addrs T = addrs (plug cx x) /\ good (aux st').
Proof.
  intros Hz Hb Hn H1 H2 H3 Hg HU. unfold __rb_erase_fixup.
  set (P := fun (x : A) (t : tree) => good x /\ forall z, z ∈ addrs t -> U z).
  assert (forall x t t', skel t = skel t' -> P x t -> P x t') as Hcol.
  { intros y t t' Hs [P1 P2]. split; [done|]. by rewrite <- (skel_addrs _ _ Hs). }
  assert (forall st ctx d b x a bp i p o, zrep st ctx (mk d bp (mk d b x a i) p o) -> P (aux st) (plug ctx (mk d b x a (mk d bp i p o))) ->
    exists st', rotated aug a p st = Some (tt, st') /\ nodes st' = nodes st /\ root st' = root st
      /\ P (aux st') (plug ctx (mk d bp (mk d b x a i) p o))) as Hrot.
  { intros st0 ctx d b y a bp i p o Hz0 [G0 U0]. assert (forall z, z ∈ addrs (plug ctx (mk d bp (mk d b y a i) p o)) -> U z) as U1.
    { by rewrite rotated_addrs. }
    destruct (rotate_harmless _ _ _ _ _ _ _ _ _ _ Hz0 G0 U1) as (st' & ? & ? & ? & ?). by exists st'. }
  assert (Zp P st cx x) as HZ by (by split).
  destruct (erase_loop_ok aug P Hcol Hrot (S (S (size (nodes st)))) st cx x n HZ) as (st1 & ctx' & t' & E1 & HZ1 & R1 & A1); try done.
  { left. pose proof (nodes_length _ _ _ Hz) as Hl. unfold zaddrs in Hl. rewrite length_app in Hl. pose proof (ctx_length cx). lia. }
  { destruct x; [done|]. simpl in *. split; [done|]. apply Hn. }
  unfold bind. rewrite E1. destruct (when_black_ok P Hcol st1 ctx' t' HZ1) as (st2 & E2 & HZ2). exists st2, (plug ctx' (blacken t')).
  split; [exact E2|]. destruct (Zp_top P _ _ _ HZ2) as [Hz2 [G2 _]]. split; [done|]. split; [done|]. split; [|done]. rewrite <- A1.
  apply addrs_plug_ext. by destruct t'.
Qed.

Lemma zrep_top st ctx t : zrep st ctx t -> zrep st [] (plug ctx t).
Proof. intros H. apply zrep_plug. by rewrite app_nil_r. Qed.

Lemma cpar_in ctx t : cpar ctx = 0 \/ cpar ctx ∈ addrs (plug ctx t).
Proof.
  destruct ctx as [|[d b a s] ctx]; [by left|right]. simpl. rewrite addrs_plug, !elem_of_app.
  right. left. destruct d; simpl; rewrite elem_of_app, elem_of_cons; auto.
Qed.

Lemma propagate_when st T a :
  zrep st [] T -> a = 0 \/ a ∈ addrs T -> good (aux st) -> (forall z, z ∈ addrs T -> U z) ->
  exists st', when (nonnull a) (propagate aug a 0) st = Some (tt, st') /\ zrep st' [] T /\ good (aux st').
Proof.
  intros Hz [->|Ha] Hg HU; [by exists st|]. destruct (propagate_harmless st T a Hz Ha Hg HU) as (st' & E & Hn & Hr & Hg').
  unfold nonnull. destruct (a =? 0); [by exists st|]. exists st'. split; [done|]. split; [by eapply zrep_same|done].
Qed.

Lemma erase_ok st ctx b l z r :
  zrep st ctx (Node b l z r) -> rbtree (plug ctx (Node b l z r)) ->
  good (aux st) -> (forall a, a ∈ addrs (plug ctx (Node b l z r)) -> U a) ->
  exists st' T l1 l2, __rb_erase aug z st = Some (tt, st') /\ zrep st' [] T /\ rbtree T
    /\ addrs (plug ctx (Node b l z r)) = l1 ++ z :: l2 /\ addrs T = l1 ++ l2 /\ good (aux st').
Proof.
  intros Hz Hrb Hg HU. destruct (erase_node_ok st ctx b l z r Hz Hrb Hg HU) as (st1 & cx & x & bk & E1 & Hz1 & Hh & Hg1 & l1 & l2 & A1 & A2).
  assert (forall a, a ∈ addrs (plug cx x) -> U a) as HU'.
  { intros a Ha. apply HU. rewrite A1. rewrite A2 in Ha. revert Ha. rewrite !elem_of_app, elem_of_cons. tauto. }
  unfold __rb_erase. step E1. cbv zeta beta iota.
  destruct (propagate_when st1 (plug cx x) (cpar cx)) as (st2 & E2 & Hz2 & Hg2); [by apply zrep_top|apply cpar_in|done|done|]. step E2.
  assert (exists st3 T, when bk (__rb_erase_fixup aug (ptr x) (cpar cx)) st2 = Some (tt, st3) /\ zrep st3 [] T /\ rbtree T
            /\ addrs T = addrs (plug cx x) /\ good (aux st3)) as (st3 & T & E3 & Hz3 & R3 & A3 & Hg3).
  { destruct bk.
    - destruct Hh as (n & H1 & H2 & H3 & H4 & H5). apply (fixup_ok st2 cx x n); try done. apply (zrep_plug st2 cx [] x) in Hz2. by rewrite app_nil_r in Hz2.
    - exists st2, (plug cx x). done. }
  step E3. destruct (propagate_when st3 T (cpar cx)) as (st4 & E4 & Hz4 & Hg4); [done|rewrite A3; apply cpar_in|done|by rewrite A3|].
  exists st4, T, l1, l2. split; [exact E4|]. split; [done|]. split; [done|]. split; [done|]. by rewrite A3.
Qed.
End erase.

(** ** Linking and inserting *)

Definition slot_of (ctx : list frame) : option dir := match ctx with [] => None | Fr d _ _ _ :: _ => Some d end.

Lemma link_ok {A} (st : rbst A) ctx a n :
  zrep st ctx Leaf -> nodes st !! a = Some n -> okaddr a -> a ∉ caddrs ctx ->
  exists st', rb_link_node a (cpar ctx) (slot_of ctx) st = Some (tt, st') /\ zrep st' ctx (Node false Leaf a Leaf) /\ aux st' = aux st.
Proof.
  intros [Hc _ Hn Ho] Ea Oa Na. unfold zaddrs in Hn, Ho. simpl in Hn, Ho. rewrite app_nil_r in Hn, Ho.
  unfold rb_link_node. step (upd_ok st _ (fun _ => RbNode (cpar ctx) 0 0) _ Ea). set (m1 := <[a := _]> (nodes st)).
  assert (crep m1 (root st) ctx 0) as Hc1.
  { apply (crep_frame (nodes st)); [|done]. intros x Hx. unfold m1. rewrite lookup_insert_ne; [done|]. by intros <-. }
  assert (word (cpar ctx) false = cpar ctx) as Ew by (unfold word, cz; lia).
  assert (NoDup (caddrs ctx ++ [a]) /\ Forall okaddr (caddrs ctx ++ [a])) as [Hn' Ho'].
  { split; [apply NoDup_app; split; [done|]; split; [|apply NoDup_singleton]|apply Forall_app; split; [done|by constructor]].
    intros x Hx [->|?%elem_of_nil]%elem_of_cons; done. }
  destruct ctx as [|[d b p s] ctx].
  - eexists. split; [reflexivity|]. split; [|done]. split; cbn; try done. split; [|done]. unfold m1. by rewrite lookup_insert_eq.
  - simpl in Hc1. destruct Hc1 as (Ep & Hs & Hc1). cbn [slot_of cpar]. unfold set_child.
    rewrite (upd_ok (with_nodes st m1) p (with_kid d a) _ Ep). eexists. split; [reflexivity|]. split; [|done].
    simpl in Hn, Na. apply NoDup_cons in Hn as [Np Hn]. apply not_elem_of_app in Np as [Nps Npc]. apply not_elem_of_cons in Na as [Nap Na].
    split; cbn [nodes root with_nodes]; try done.
    + simpl. rewrite lookup_insert_eq, with_kid_mkn. split; [done|]. split.
      * apply (rep_frame m1); [|done]. intros x Hx. rewrite lookup_insert_ne; [done|]. by intros <-.
      * apply (crep_frame m1); [|done]. intros x Hx. rewrite lookup_insert_ne; [done|]. by intros <-.
    + simpl. rewrite lookup_insert_ne by done. unfold m1. simpl in Ew. rewrite lookup_insert_eq, Ew. done.
Qed.

(** The fix-up after linking, in the words of [P]. *)
Lemma rbtheorems_insert_ok {A} (aug : option (rb_augment_callbacks A)) (P : A -> tree -> Prop)
    (P_color : forall x t t', skel t = skel t' -> P x t -> P x t')
    (P_rotate : forall (st : rbst A) ctx d b x a bp i p o,
      zrep st ctx (mk d bp (mk d b x a i) p o) -> P (aux st) (plug ctx (mk d b x a (mk d bp i p o))) ->
      exists st', rotated aug a p st = Some (tt, st') /\ nodes st' = nodes st /\ root st' = root st
        /\ P (aux st') (plug ctx (mk d bp (mk d b x a i) p o)))
    (st : rbst A) ctx a :
  zrep st ctx (Node false Leaf a Leaf) -> P (aux st) (plug ctx (Node false Leaf a Leaf)) -> rbtree (plug ctx Leaf) ->
  exists st' T, __rb_insert aug a st = Some (tt, st') /\ zrep st' [] T /\ rbtree T /\ P (aux st') T
    /\ addrs T = cleft ctx ++ a :: cright ctx.
Proof.
  intros Hz HP Hrb. apply rbtree_zip in Hrb as (n & [B C N CN CR]). simpl in B. subst n.
  destruct (insert_loop_ok aug P P_color P_rotate (S (size (nodes st))) st ctx Leaf a Leaf 0) as (st' & T & E & [Hz' HP'] & R & AT); try done.
  { pose proof (nodes_length _ _ _ Hz) as Hl. unfold zaddrs in Hl. rewrite length_app in Hl. pose proof (ctx_length ctx). simpl in Hl. lia. }
  exists st', T. split; [exact E|]. split; [done|]. split; [done|]. split; [done|]. rewrite AT, addrs_plug. done.
Qed.

(** ** Walking the tree *)

Lemma locate t a : a ∈ addrs t -> exists ctx b l r, t = plug ctx (Node b l a r).
Proof.
  induction t as [|b l IHl x r IHr]; [by intros ?%elem_of_nil|]. simpl. rewrite elem_of_app, elem_of_cons. intros [H|[->|H]].
  - destruct (IHl H) as (ctx & b' & l' & r' & ->). exists (ctx ++ [Fr L b x r]), b', l', r'. by rewrite plug_app.
  - by exists [], b, l, r.
  - destruct (IHr H) as (ctx & b' & l' & r' & ->). exists (ctx ++ [Fr R b x l]), b', l', r'. by rewrite plug_app.
Qed.

Lemma nodup_split {X} (l1 l2 k1 k2 : list X) a :
  NoDup (l1 ++ a :: l2) -> l1 ++ a :: l2 = k1 ++ a :: k2 -> l1 = k1 /\ l2 = k2.
Proof.
  revert k1. induction l1 as [|x l1 IH]; intros [|y k1] Hn E; simpl in *; simplify_eq; try done.
  - apply NoDup_cons in Hn as [Hn _]. exfalso. apply Hn. rewrite elem_of_app, elem_of_cons. auto.
  - apply NoDup_cons in Hn as [Hn _]. exfalso. apply Hn. rewrite elem_of_app, elem_of_cons. auto.
  - apply NoDup_cons in Hn as [_ Hn]. destruct (IH k1 Hn) as [-> ->]; done.
Qed.

(** The first address on the side [d] of a list. *)
Definition hd0 (l : list Z) : Z := default 0 (head l).
Definition last0 (l : list Z) : Z := default 0 (last l).
Definition end_of (d : dir) (l : list Z) : Z := match d with L => hd0 l | R => last0 l end.

Lemma end_of_spine d cy b y x :
  Forall (fun f => match f with Fr d' _ _ _ => d' = d end) cy -> end_of d (addrs (plug cy (mk d b Leaf y x))) = y.
Proof.
  intros H. rewrite addrs_plug. destruct d; simpl.
  - rewrite all_left_cleft by done. done.
  - assert (cright cy = []) as ->; [|rewrite app_nil_r, app_assoc; unfold last0; by rewrite last_snoc].
    induction H as [|[d b' a s] cy Hd _ IH]; [done|]. simpl in *. by subst d.
Qed.

Lemma descend_end {A} (st : rbst A) ctx d t :
  zrep st ctx t -> t <> Leaf -> descend d (S (size (nodes st))) (ptr t) st = Some (end_of d (addrs t), st).
Proof.
  intros Hz Hne. pose proof (nodes_length st ctx t Hz) as Hl. unfold zaddrs in Hl. rewrite length_app in Hl. pose proof (height_length t).
  destruct (descend_ok (S (size (nodes st))) st ctx d t Hz Hne) as (cy & b & y & x & E & -> & Ha); [lia|].
  by rewrite end_of_spine.
Qed.

(** The addresses beyond the path on the side [d]. *)
Definition beyond (d : dir) (ctx : list frame) : Z := match d with L => last0 (cleft ctx) | R => hd0 (cright ctx) end.

Lemma climb_ok {A} fuel (st : rbst A) ctx d t :
  zrep st ctx t -> t <> Leaf -> (length ctx < fuel)%nat -> climb d fuel (ptr t) st = Some (beyond d ctx, st).
Proof.
  revert ctx t. induction fuel as [|fuel IH]; intros ctx t Hz Hne Hf; [lia|]. destruct t as [|b l a r]; [done|].
  assert (okptr (cpar ctx)) as Op by (apply cpar_ok; pose proof (zr_ok _ _ _ Hz) as Ho; by apply Forall_app in Ho as [? _]).
  cbn [climb ptr]. pose proof (zr_tree _ _ _ Hz) as (E & _ & _). step (parent_ok st _ _ E). rewrite rb_parent_word by done.
  destruct ctx as [|[d' b' p s] ctx]; [by destruct d|]. cbn [cpar] in *. destruct Op as [->|[Op Om]].
  { pose proof (zr_ok _ _ _ Hz) as Ho. apply Forall_cons in Ho as [[? _] _]. lia. }
  rewrite (proj2 (Z.eqb_neq p 0)) by lia. pose proof (proj1 (zrep_move _ _ _ _ _ _ _) Hz) as Hzp.
  pose proof (zr_tree _ _ _ Hzp) as (Ep & _ & _)%rep_mk. step (child_ok st d _ _ Ep). cbn [ptr].
  assert (a <> ptr s) as Has.
  { pose proof (zr_nodup _ _ _ Hz) as Hn. pose proof (zr_ok _ _ _ Hz) as Ho. unfold zaddrs in Hn, Ho. cbn [caddrs addrs] in Hn, Ho.
    apply NoDup_app in Hn as (_ & Nd & _). apply Forall_app in Ho as [_ Ho].
    apply Forall_app in Ho as [_ [[Ha _] _]%Forall_cons]. intros Es. apply (Nd a); [|rewrite elem_of_app, elem_of_cons; auto].
    rewrite elem_of_cons, elem_of_app. right; left. rewrite Es. apply ptr_in. intros ->. simpl in Es. lia. }
  destruct (decide (d' = d)) as [->|Hd].
  - rewrite kid_mkn, Z.eqb_refl. rewrite <- (ptr_mk d b' (Node b l a r) p s). rewrite (IH ctx _ Hzp); [|by destruct d|simpl in Hf; lia].
    f_equal. f_equal. destruct d; simpl; done.
  - assert (d = opp d') as -> by (by destruct d, d'). rewrite kid_opp_mkn. rewrite (proj2 (Z.eqb_neq a (ptr s))) by done.
    unfold ret. do 2 f_equal. destruct d'; simpl; [done|]. unfold last0. by rewrite app_assoc, last_snoc.
Qed.

Lemma hd0_app l k : hd0 (l ++ k) = match l with [] => hd0 k | _ => hd0 l end.
Proof. by destruct l. Qed.

Lemma last0_app l k : last0 (l ++ k) = match k with [] => last0 l | _ => last0 k end.
Proof. destruct k as [|x k]; [by rewrite app_nil_r|]. unfold last0. rewrite last_app. by destruct (last (x :: k)) eqn:E; [|apply last_None in E]. Qed.

Lemma rbtheorems_step_ok {A} (st : rbst A) ctx d b l a r :
  zrep st ctx (Node b l a r) ->
  rb_step d a st = Some (match d with R => hd0 (addrs r ++ cright ctx) | L => last0 (cleft ctx ++ addrs l) end, st).
Proof.
  intros Hz. pose proof (zr_ok _ _ _ Hz) as Ho. pose proof (zr_nodup _ _ _ Hz) as Hn.
  assert (okptr (cpar ctx)) as Op by (apply cpar_ok; by apply Forall_app in Ho as [? _]).
  assert (okaddr a) as [Oa Om]. { apply Forall_app in Ho as [_ Ho]. simpl in Ho. by apply Forall_app in Ho as [_ [? _]%Forall_cons]. }
  unfold rb_step. pose proof (zr_tree _ _ _ Hz) as (E & _ & _). step (get_ok st _ _ E). cbn [__rb_parent_color].
  assert (word (cpar ctx) b =? a = false) as ->.
  { apply Z.eqb_neq. unfold word. intros Ea. destruct (okptr_mod _ Op) as [Hm _]. destruct (cz_cases b) as [Eb|Eb]; rewrite Eb in Ea; [|dlia].
    assert (cpar ctx = a) as Ec by lia. destruct ctx as [|[d' b' p s] ctx]; [simpl in Ec; lia|]. simpl in Ec. subst p.
    unfold zaddrs in Hn. apply NoDup_app in Hn as (_ & Nd & _). apply (Nd a); [simpl; apply elem_of_cons; by left|].
    simpl. rewrite elem_of_app, elem_of_cons. auto. }
  set (t := if d then l else r). assert (kid d (RbNode (word (cpar ctx) b) (ptr r) (ptr l)) = ptr t) as -> by (by destruct d).
  assert (zrep st (Fr d b a (if d then r else l) :: ctx) t) as Ht by (apply zrep_move; unfold t; by rewrite <- mk_any).
  assert (t = Leaf \/ t <> Leaf) as [Et|Hne] by (destruct t; [by left|by right]).
  - rewrite Et. cbn [ptr nonnull Z.eqb negb]. change a with (ptr (Node b l a r)). rewrite (climb_ok _ st ctx d _ Hz).
    + f_equal. f_equal. unfold t in Et. destruct d; subst; simpl; [by rewrite app_nil_r|done].
    + done.
    + pose proof (nodes_length _ _ _ Hz) as Hl. unfold zaddrs in Hl. rewrite length_app in Hl. pose proof (ctx_length ctx). lia.
  - assert (nonnull (ptr t) = true) as ->.
    { unfold nonnull. destruct (Z.eqb_spec (ptr t) 0) as [E0|]; [|done]. exfalso. apply Hne. apply ptr_zero; [|done].
      pose proof (zr_ok _ _ _ Ht) as Ho'. by apply Forall_app in Ho' as [_ ?]. }
    rewrite (descend_end st _ (opp d) t Ht Hne). f_equal. f_equal. unfold t in *.
    destruct d; simpl; [rewrite last0_app|rewrite hd0_app].
    + destruct l; [done|]. simpl. by destruct (addrs l1).
    + destruct r; [done|]. simpl. by destruct (addrs r1).
Qed.

(** ** What the module promises

    [rb_holds st l]: the nodes under the root form a red-black tree that holds the
    addresses [l] in this order. *)
Definition rb_holds {A} (st : rbst A) (l : list Z) : Prop :=
  exists T, zrep st [] T /\ rbtree T /\ addrs T = l.

(** [rb_slot st ctx l1 l2]: [ctx] is a place under the root where a client may link a new
    node, with [l1] before and [l2] after it. *)
Definition rb_slot {A} (st : rbst A) (ctx : list frame) (l1 l2 : list Z) : Prop :=
  zrep st ctx Leaf /\ rbtree (plug ctx Leaf) /\ cleft ctx = l1 /\ cright ctx = l2.

Lemma holds_locate {A} (st : rbst A) l1 a l2 :
  rb_holds st (l1 ++ a :: l2) ->
  exists ctx b l r, zrep st ctx (Node b l a r) /\ rbtree (plug ctx (Node b l a r))
    /\ addrs (plug ctx (Node b l a r)) = l1 ++ a :: l2 /\ l1 = cleft ctx ++ addrs l /\ l2 = addrs r ++ cright ctx.
Proof.
  intros (T & Hz & R & E). destruct (locate T a) as (ctx & b & l & r & ->).
  { rewrite E, elem_of_app, elem_of_cons. auto. }
  pose proof (zr_nodup _ _ _ Hz) as Hn. unfold zaddrs in Hn. cbn [caddrs app] in Hn. rewrite E in Hn. pose proof E as E'.
  rewrite addrs_plug in E'. cbn [addrs] in E'. rewrite <- !app_assoc in E'. cbn [app] in E'. rewrite app_assoc in E'. symmetry in E'.
  destruct (nodup_split _ _ _ _ _ Hn E') as [-> ->]. exists ctx, b, l, r. split; [|done].
  apply (zrep_plug st ctx []) in Hz. by rewrite app_nil_r in Hz.
Qed.

Lemma holds_nodup {A} (st : rbst A) l : rb_holds st l -> NoDup l /\ Forall okaddr l.
Proof. intros (T & Hz & _ & <-). split; [apply (zr_nodup _ _ _ Hz)|apply (zr_ok _ _ _ Hz)]. Qed.

Lemma holds_step {A} (st : rbst A) l1 a l2 d :
  rb_holds st (l1 ++ a :: l2) -> rb_step d a st = Some (match d with R => hd0 l2 | L => last0 l1 end, st).
Proof. intros (ctx & b & l & r & Hz & _ & _ & -> & ->)%holds_locate. by rewrite (rbtheorems_step_ok st ctx d b l a r Hz). Qed.

Lemma holds_end {A} (st : rbst A) l d : rb_holds st l -> rb_end d st = Some (end_of d l, st).
Proof.
  intros (T & Hz & _ & <-). pose proof (zr_ctx _ _ _ Hz) as Hr. simpl in Hr. unfold rb_end, get_root, bind. rewrite Hr.
  destruct T as [|b l a r]; [by destruct d|]. rewrite <- (descend_end st [] d (Node b l a r) Hz) by done.
  pose proof (zr_ok _ _ _ Hz) as Ho. unfold zaddrs in Ho. cbn [caddrs app] in Ho. cbn [ptr].
  cbn [addrs] in Ho. apply Forall_app in Ho as [_ [[? _] _]%Forall_cons].
  rewrite ?(proj2 (Z.eqb_neq a 0)) by lia. done.
Qed.

Lemma holds_erase st l1 z l2 :
  rb_holds st (l1 ++ z :: l2) -> exists st', rb_erase z st = Some (tt, st') /\ rb_holds st' (l1 ++ l2).
Proof.
  intros H. pose proof (holds_nodup _ _ H) as [Hn _]. apply holds_locate in H as (ctx & b & l & r & Hz & R & E & _).
  destruct (erase_ok (A:=unit) None (fun _ => True) (fun _ => True)) with (4 := Hz) (5 := R) as (st' & T & k1 & k2 & E1 & Hz' & R' & A1 & A2 & _); try done.
  { intros st0 a0 b0 _ _ _. by exists st0. }
  { intros st0 ? ? ? ? ? ? ? ? ? _ _ _. by exists st0. }
  { intros st0 ? ? _ _ _ _. by exists st0. }
  exists st'. split; [exact E1|]. exists T. split; [done|]. split; [done|]. rewrite E in A1.
  destruct (nodup_split _ _ _ _ _ Hn A1) as [-> ->]. done.
Qed.

(** What a client does to add a node at a place it found. *)
Definition link_insert (a parent : Z) (link : option dir) : M unit unit :=
  rb_link_node a parent link ;;; rb_insert_color a.

Lemma rbtheorems_slot_insert st ctx l1 l2 a n :
  rb_slot st ctx l1 l2 -> nodes st !! a = Some n -> okaddr a -> a ∉ l1 ++ l2 ->
  exists st', link_insert a (cpar ctx) (slot_of ctx) st = Some (tt, st') /\ rb_holds st' (l1 ++ a :: l2).
Proof.
  intros (Hz & R & <- & <-) Ea Oa Na. destruct (link_ok st ctx a n) as (st1 & E1 & Hz1 & _); try done.
  { intros Hin. apply Na. pose proof (addrs_plug ctx Leaf) as E. simpl in E. rewrite <- E.
    change (a ∈ zaddrs [] (plug ctx Leaf)). rewrite <- zaddrs_plug, app_nil_r. unfold zaddrs. by rewrite app_nil_r. }
  destruct (rbtheorems_insert_ok (A:=unit) None (fun _ _ => True)) with (3 := Hz1) (5 := R) as (st2 & T & E2 & Hz2 & R2 & _ & A2); try done.
  { intros st0 ? ? ? ? ? ? ? ? ? _ _. by exists st0. }
  exists st2. split; [unfold link_insert; step E1; exact E2|]. by exists T.
Qed.

(** The fuel of the searches is enough. *)
Lemma height_nodes {A} (st : rbst A) T : zrep st [] T -> (height T <= S (size (nodes st)))%nat.
Proof. intros H. pose proof (nodes_length st [] T H) as Hl. unfold zaddrs in Hl. simpl in Hl. pose proof (height_length T). lia. Qed.

(** ** The cached variants *)

Lemma insert_cached_ok st ctx l1 l2 a n :
  rb_slot st ctx l1 l2 -> nodes st !! a = Some n -> okaddr a -> a ∉ l1 ++ l2 ->
  exists st', (rb_link_node a (cpar ctx) (slot_of ctx) ;;;
      rb_insert_color_cached a (hd0 (l1 ++ l2)) (bool_decide (l1 = []))) st = Some (hd0 (l1 ++ a :: l2), st')
    /\ rb_holds st' (l1 ++ a :: l2).
Proof.
  intros Hs Ea Oa Na. destruct (rbtheorems_slot_insert st ctx l1 l2 a n Hs Ea Oa Na) as (st' & E & H). exists st'. split; [|done].
  revert E. unfold link_insert, rb_insert_color_cached, rb_insert_color, bind, ret.
  destruct (rb_link_node _ _ _ _) as [[[] st1]|]; [|done]. intros ->. by destruct l1.
Qed.

Lemma erase_cached_ok st k1 z k2 :
  rb_holds st (k1 ++ z :: k2) ->
  exists st', rb_erase_cached z (hd0 (k1 ++ z :: k2)) st = Some (hd0 (k1 ++ k2), st') /\ rb_holds st' (k1 ++ k2).
Proof.
  intros H. pose proof (holds_nodup _ _ H) as [Hn _]. destruct (holds_erase st k1 z k2 H) as (st2 & E2 & H2). exists st2. split; [|done].
  unfold rb_erase_cached, rb_erase in *. destruct k1 as [|x k1]; cbn [app].
  - unfold hd0 at 1 2. cbn [head default app]. rewrite Z.eqb_refl. cbn [app] in *.
    pose proof (holds_step st [] z k2 R H) as E3. unfold rb_next. unfold bind. rewrite E3, E2. done.
  - change (hd0 (x :: k1 ++ z :: k2)) with x. change (hd0 (x :: k1 ++ k2)) with x. apply NoDup_cons in Hn as [Hn _].
    destruct (Z.eqb_spec x z) as [->|]; [exfalso; apply Hn; rewrite elem_of_app, elem_of_cons; auto|].
    unfold bind, ret. rewrite E2. done.
Qed.

(** ** Depth *)

Lemma bal_size t n : bal t n -> (2 ^ n <= S (length (addrs t)))%nat.
Proof.
  revert n. induction t as [|b l IHl a r IHr]; intros n; simpl; [by intros ->|]. rewrite length_app. simpl. destruct b.
  - destruct n as [|n]; [done|]. intros [?%IHl ?%IHr]. simpl. lia.
  - intros [?%IHl _]. lia.
Qed.

Lemma bal_height t n : bal t n -> nrr t -> (height t <= 2 * n + (if isblack t then 0 else 1))%nat.
Proof.
  revert n. induction t as [|b l IHl a r IHr]; intros n; simpl; [lia|]. destruct b.
  - destruct n as [|n]; [done|]. intros [B1 B2] (_ & N1 & N2). specialize (IHl _ B1 N1). specialize (IHr _ B2 N2).
    destruct (isblack l), (isblack r); lia.
  - intros [B1 B2] (C & N1 & N2). specialize (IHl _ B1 N1). specialize (IHr _ B2 N2). destruct C as [C1 C2]; [done|]. rewrite C1 in IHl. rewrite C2 in IHr. lia.
Qed.

Lemma height_plug ctx t : (length ctx + height t <= height (plug ctx t))%nat.
Proof. revert t. induction ctx as [|[d b a s] ctx IH]; intros t; simpl; [lia|]. specialize (IH (mk d b t a s)). destruct d; simpl in *; lia. Qed.

Lemma rbtree_height T : rbtree T -> (height T <= 2 * Nat.log2 (S (length (addrs T))))%nat.
Proof.
  intros (B & N & n & Hb). pose proof (bal_height _ _ Hb N) as H. rewrite B in H. pose proof (bal_size _ _ Hb) as Hs.
  apply Nat.log2_le_mono in Hs. rewrite Nat.log2_pow2 in Hs by lia. lia.
Qed.

(** ** No operation allocates or frees a node *)

Definition keeps {A X} (m : M A X) : Prop := forall st x st', m st = Some (x, st') -> dom (nodes st') = dom (nodes st).

Section keeps.
Context {A : Type}.

Lemma keeps_ret {X} (x : X) : keeps (A:=A) (ret x).
Proof. by intros st y st' [= _ <-]. Qed.

Lemma keeps_bind {X Y} (m : M A X) (f : X -> M A Y) : keeps m -> (forall x, keeps (f x)) -> keeps (bind m f).
Proof. intros Hm Hf st y st'. unfold bind. destruct (m st) as [[x st1]|] eqn:E; [|done]. intros E'. rewrite (Hf x _ _ _ E'). by eapply Hm. Qed.

Lemma keeps_get a : keeps (A:=A) (get a).
Proof. intros st n st'. unfold get. destruct (nodes st !! a); [|done]. by intros [= _ <-]. Qed.

Lemma keeps_upd a f : keeps (A:=A) (upd a f).
Proof.
  intros st x st'. unfold upd. destruct (nodes st !! a) as [n|] eqn:E; [|done]. intros [= _ <-]. cbn [nodes]. rewrite dom_insert_L.
  apply elem_of_dom_2 in E. set_solver.
Qed.

Lemma keeps_root : keeps (A:=A) get_root.
Proof. by intros st y st' [= _ <-]. Qed.
Lemma keeps_set_root r : keeps (A:=A) (set_root r).
Proof. by intros st y st' [= _ <-]. Qed.
Lemma keeps_none {X} : keeps (A:=A) (fun _ => @None (X * _)).
Proof. done. Qed.
Lemma keeps_if {X} (b : bool) (m n : M A X) : keeps m -> keeps n -> keeps (if b then m else n).
Proof. by destruct b. Qed.
Lemma keeps_fuel {X} (f : rbst A -> nat) (m : nat -> M A X) : (forall n, keeps (m n)) -> keeps (fun st => m (f st) st).
Proof. intros H st x st' E. by eapply H. Qed.
End keeps.

Create HintDb keeps.
#[export] Hint Resolve keeps_ret keeps_bind keeps_get keeps_upd keeps_root keeps_set_root keeps_none keeps_if : keeps.

Ltac keep := repeat first
  [ progress intros
  | apply keeps_bind | apply keeps_if | apply keeps_ret | apply keeps_get | apply keeps_upd | apply keeps_root
  | apply keeps_set_root | apply keeps_none
  | match goal with |- keeps (match ?x with _ => _ end) => destruct x end
  | solve [auto with keeps] ].

Section keeps_rb.
Context {A : Type}.
Variable aug : option (rb_augment_callbacks A).
Hypothesis keeps_copy : forall a b, keeps (copy aug a b).
Hypothesis keeps_rotated : forall a b, keeps (rotated aug a b).
Hypothesis keeps_propagate : forall a b, keeps (propagate aug a b).

Lemma keeps_rotate d a : keeps (__rb_rotate aug d a).
Proof. unfold __rb_rotate, child, parent_of, set_child, when, relink, rb_set_parent. keep. Qed.
#[local] Hint Resolve keeps_rotate keeps_copy keeps_rotated keeps_propagate : keeps.

Lemma keeps_insert a : keeps (__rb_insert aug a).
Proof.
  unfold __rb_insert. apply (keeps_fuel (fun st => S (size (nodes st))) (fun n => insert_loop aug n a)). intros n. revert a.
  induction n as [|n IH]; intros a; cbn [insert_loop]; [apply keeps_none|].
  unfold insert_rotate, rb_set_black, rb_set_red, rb_set_parent_color, parent_of, child, node_is_black. keep.
Qed.

Lemma keeps_descend d n a : keeps (descend (A:=A) d n a).
Proof. revert a. induction n as [|n IH]; intros a; cbn [descend]; unfold child; keep. Qed.
#[local] Hint Resolve keeps_descend : keeps.

Lemma keeps_transplant u v : keeps (transplant (A:=A) u v).
Proof. unfold transplant, child, parent_of, set_child, when, rb_set_parent. keep. Qed.
#[local] Hint Resolve keeps_transplant : keeps.

Lemma keeps_erase_node z : keeps (erase_node aug z).
Proof.
  unfold erase_node. apply keeps_bind; [keep|]. intros zn. do 2 (apply keeps_if; [keep|]). apply keeps_bind.
  - apply (keeps_fuel (fun st => S (size (nodes st))) (fun n => descend L n (rb_right zn))). keep.
  - unfold pull_min, splice, child, parent_of, set_child, when, rb_set_parent, rb_set_parent_color. keep.
Qed.

Lemma keeps_fixup x p : keeps (__rb_erase_fixup aug x p).
Proof.
  unfold __rb_erase_fixup. apply keeps_bind; [|unfold when, rb_set_black; keep].
  apply (keeps_fuel (fun st => S (S (size (nodes st)))) (fun n => erase_loop aug n x p)). intros n. revert x p.
  induction n as [|n IH]; intros x p; cbn [erase_loop]; [apply keeps_none|].
  unfold erase_sibling, erase_straighten, erase_last, when, rb_set_black, rb_set_red, rb_set_parent_color, parent_of, child, node_is_black. keep.
Qed.

Lemma keeps_erase z : keeps (__rb_erase aug z).
Proof.
  unfold __rb_erase. apply keeps_bind; [apply keeps_erase_node|]. intros [[x p] b]. cbv zeta. unfold when.
  repeat (apply keeps_bind; [|intros _] || apply keeps_if || apply keeps_propagate || apply keeps_fixup || apply keeps_ret).
Qed.

Lemma keeps_link a p slot : keeps (rb_link_node (A:=A) a p slot).
Proof. unfold rb_link_node, set_child. keep. Qed.

Lemma keeps_step d a : keeps (rb_step (A:=A) d a).
Proof.
  unfold rb_step. apply keeps_bind; [keep|]. intros n. apply keeps_if; [keep|]. apply keeps_if.
  - apply (keeps_fuel (fun st => S (size (nodes st))) (fun k => descend (opp d) k (kid d n))). keep.
  - apply (keeps_fuel (fun st => S (size (nodes st))) (fun k => climb d k a)). intros k. revert a.
    induction k as [|k IH]; intros a; cbn [climb]; unfold parent_of, child; keep.
Qed.
End keeps_rb.

(** ** The claims *)

(** A tree of four nodes, with a fifth that is not linked yet. *)
Definition demo_tree : tree :=
  Node true (Node true Leaf 64 Leaf) 128 (Node true Leaf 192 (Node false Leaf 256 Leaf)).
Definition demo_st : rbst unit := RbSt
  (<[64 := RbNode 129 0 0]> (<[128 := RbNode 1 192 64]> (<[192 := RbNode 129 256 0]>
    (<[256 := RbNode 192 0 0]> (<[320 := RbNode 0 0 0]> ∅))))) 128 tt.

Lemma demo_zrep : zrep demo_st [] demo_tree.
Proof.
  split; [done|repeat split; vm_compute; reflexivity| |].
  - apply (bool_decide_unpack _). vm_compute. exact I.
  - repeat constructor; vm_compute; reflexivity.
Qed.

Lemma demo_rb : rbtree demo_tree.
Proof. repeat split; try done. exists 2%nat. simpl. repeat split. Qed.

Lemma demo_holds : rb_holds demo_st [64; 128; 192; 256].
Proof. exists demo_tree. split; [apply demo_zrep|]. split; [apply demo_rb|done]. Qed.

Definition demo_ctx : list frame :=
  [Fr R false 256 Leaf; Fr R true 192 Leaf; Fr R true 128 (Node true Leaf 64 Leaf)].

Lemma demo_slot : rb_slot demo_st demo_ctx [64; 128; 192; 256] [].
Proof.
  split; [|split; [apply demo_rb|done]]. pose proof demo_zrep as H. change demo_tree with (plug demo_ctx Leaf) in H.
  by apply (zrep_plug demo_st demo_ctx []) in H.
Qed.

(** Linking a node at a place a client found and rebalancing succeeds and leaves a
    red-black tree that holds the old nodes in their order with the new one at that place. *)
Theorem rb_insert_spec st ctx l1 l2 a n :
  rb_slot st ctx l1 l2 -> nodes st !! a = Some n -> okaddr a -> a ∉ l1 ++ l2 ->
  exists st', link_insert a (cpar ctx) (slot_of ctx) st = Some (tt, st') /\ rb_holds st' (l1 ++ a :: l2).
Proof. apply rbtheorems_slot_insert. Qed.

Lemma rb_insert_spec_witness :
  exists st', link_insert 320 256 (Some R) demo_st = Some (tt, st') /\ rb_holds st' [64; 128; 192; 256; 320].
Proof.
  apply (rb_insert_spec demo_st demo_ctx [64; 128; 192; 256] [] 320 (RbNode 0 0 0));
    [apply demo_slot|reflexivity|split; [split|]; reflexivity|].
  apply (bool_decide_unpack _). vm_compute. exact I.
Defined.

(** C6: Deleting a node of the tree succeeds and leaves a red-black tree that holds the other
    nodes in their order. *)
Theorem rb_erase_spec st l1 z l2 :
  rb_holds st (l1 ++ z :: l2) -> exists st', rb_erase z st = Some (tt, st') /\ rb_holds st' (l1 ++ l2).
Proof. apply holds_erase. Qed.

Lemma rb_erase_spec_witness : exists st', rb_erase 64 demo_st = Some (tt, st') /\ rb_holds st' [128; 192; 256].
Proof. apply (rb_erase_spec demo_st [] 64 [128; 192; 256]). apply demo_holds. Defined.

(** First, last, next and previous are those of the in-order sequence: a walk from
    [rb_first] by [rb_next] visits every node once, in order, and ends. *)
Theorem rb_walk_spec {A} (st : rbst A) l :
  rb_holds st l ->
  rb_first st = Some (hd0 l, st) /\ rb_last st = Some (last0 l, st) /\
  forall l1 a l2, l = l1 ++ a :: l2 -> rb_next a st = Some (hd0 l2, st) /\ rb_prev a st = Some (last0 l1, st).
Proof.
  intros H. split; [apply (holds_end st l L H)|]. split; [apply (holds_end st l R H)|]. intros l1 a l2 ->.
  split; [apply (holds_step st l1 a l2 R H)|apply (holds_step st l1 a l2 L H)].
Qed.

Lemma rb_walk_spec_witness : rb_next 128 demo_st = Some (192, demo_st).
Proof. apply (proj2 (proj2 (rb_walk_spec demo_st _ demo_holds)) [64] 128 [192; 256] eq_refl). Defined.

(** C32: In a tree of [n] nodes the loops that walk down from the root and up from a node end
    within [2 log2 (n + 1) + 1] rounds. *)
Theorem rb_loops_logarithmic {A} (st : rbst A) l1 a l2 d :
  rb_holds st (l1 ++ a :: l2) ->
  let rounds := S (2 * Nat.log2 (S (length (l1 ++ a :: l2)))) in
  descend d rounds (root st) st = Some (end_of d (l1 ++ a :: l2), st) /\
  exists x, climb d rounds a st = Some (x, st).
Proof.
  intros H. pose proof (holds_locate _ _ _ _ H) as (ctx & b & l & r & Hz & R & E & _). cbv zeta. rewrite <- E in *.
  pose proof (rbtree_height _ R). pose proof (height_plug ctx (Node b l a r)). set (T := plug ctx (Node b l a r)) in *. split.
  - assert (zrep st [] T) as HT by (apply zrep_plug; by rewrite app_nil_r).
    assert (T <> Leaf) as Hne by (intros E0; rewrite E0 in E; by destruct l1).
    destruct (descend_ok (S (2 * Nat.log2 (S (length (addrs T))))) st [] d T HT Hne) as (cy & by_ & y & x & E1 & ET & Ha); [lia|].
    pose proof (zr_ctx _ _ _ HT) as Hr. simpl in Hr. rewrite Hr, E1, ET. by rewrite end_of_spine.
  - exists (beyond d ctx). by apply (climb_ok _ st ctx d (Node b l a r) Hz); [|lia].
Qed.

Lemma rb_loops_logarithmic_witness : descend R 5 128 demo_st = Some (256, demo_st).
Proof. apply (proj1 (rb_loops_logarithmic demo_st [64] 128 [192; 256] R demo_holds)). Defined.

(** The cached variants keep the leftmost pointer at the first node of the order. *)
Theorem rb_cached_leftmost st ctx l1 l2 a n :
  rb_slot st ctx l1 l2 -> nodes st !! a = Some n -> okaddr a -> a ∉ l1 ++ l2 ->
  (exists st', (rb_link_node a (cpar ctx) (slot_of ctx) ;;;
      rb_insert_color_cached a (hd0 (l1 ++ l2)) (bool_decide (l1 = []))) st = Some (hd0 (l1 ++ a :: l2), st')
      /\ rb_holds st' (l1 ++ a :: l2)
      /\ forall k1 z k2, l1 ++ a :: l2 = k1 ++ z :: k2 ->
         exists st'', rb_erase_cached z (hd0 (l1 ++ a :: l2)) st' = Some (hd0 (k1 ++ k2), st'')
           /\ rb_holds st'' (k1 ++ k2)).
Proof.
  intros Hs Ea Oa Na. destruct (insert_cached_ok st ctx l1 l2 a n Hs Ea Oa Na) as (st' & E & H). exists st'.
  split; [done|]. split; [done|]. intros k1 z k2 Ek. rewrite Ek in *. by apply erase_cached_ok.
Qed.

Lemma rb_cached_leftmost_witness :
  exists st', (rb_link_node 320 256 (Some R) ;;; rb_insert_color_cached 320 64 false) demo_st = Some (64, st').
Proof.
  destruct (rb_cached_leftmost demo_st demo_ctx [64; 128; 192; 256] [] 320 (RbNode 0 0 0)) as (st' & E & _);
    [apply demo_slot|reflexivity|split; [split|]; reflexivity|apply (bool_decide_unpack _); vm_compute; exact I|].
  exists st'. exact E.
Defined.
