(* ===== verification/Hrtimer.v ===== *)
(** * High-resolution timers (kernel/time/hrtimer.c, hrtimer.h)

    Every CPU has a base: a red-black tree of timers by expiry with its leftmost pointer
    cached, and a one-shot clock-event device armed for the earliest.  A timer is named by the
    address of its node.  A node is in one tree at a time, so the node memory is split by
    base, and linking a timer takes its cleared node into the memory of the base.

    The sections of a base's lock are atomic, and three things are not under it: the load of
    [state] at the head of [hrtimer_try_cancel], the evaluation of [this_base] before
    [hrtimer_start] takes the lock, and the callbacks.  The interrupt handler stores the state
    of a timer it takes twice, first INACTIVE and then RUNNING, and another CPU can load it in
    between: [Picked] is that moment, with the lock still held. *)

From stdpp Require Import base numbers list gmap functions.
From Stdlib Require Import ZArith Lia.
From S2P Require Import Prelude RbTree RbSpec RbProofs RbTheorems.

Open Scope rb_scope.

Abbreviation HRTIMER_INACTIVE := 0.
Abbreviation HRTIMER_QUEUED := 1.
Abbreviation HRTIMER_RUNNING := 2.

Record hrtimer := HrTimer { expires_ns : Z; state : Z; cpu : nat }.

(** Where the interrupt handler of a CPU stands. *)
Inductive pass := Out | Picked (t : Z) | Running (t : Z).

Record hrtimer_base := HrtimerBase {
  tree_of : rbst unit;
  rb_leftmost : Z;
  programmed : Z;
  in_interrupt : bool;
  resched : bool;
  handler : pass;
}.

(** [dev c] is the time the clock-event device of CPU [c] is armed for, UINT64_MAX for none;
    [fired] lists the timers taken by the handlers with their expiry and the time. *)
Record hrs := Hrs {
  timers : gmap Z hrtimer;
  bases : nat -> hrtimer_base;
  dev : nat -> Z;
  now : Z;
  fired : list (Z * Z * Z);
}.

Definition set_timer (t : Z) (h : hrtimer) (s : hrs) : hrs := Hrs (<[t := h]> (timers s)) (bases s) (dev s) (now s) (fired s).
Definition set_base (c : nat) (b : hrtimer_base) (s : hrs) : hrs := Hrs (timers s) (<[c := b]> (bases s)) (dev s) (now s) (fired s).
Definition clockevent_program (c : nat) (e : Z) (s : hrs) : hrs := Hrs (timers s) (bases s) (<[c := e]> (dev s)) (now s) (fired s).

Definition set_state (x : Z) (h : hrtimer) : hrtimer := HrTimer (expires_ns h) x (cpu h).
Definition with_tree (st : rbst unit) (lm : Z) (b : hrtimer_base) : hrtimer_base :=
  HrtimerBase st lm (programmed b) (in_interrupt b) (resched b) (handler b).
Definition set_programmed (p : Z) (b : hrtimer_base) : hrtimer_base :=
  HrtimerBase (tree_of b) (rb_leftmost b) p (in_interrupt b) (resched b) (handler b).
Definition set_pass (h : pass) (b : hrtimer_base) : hrtimer_base :=
  HrtimerBase (tree_of b) (rb_leftmost b) (programmed b) (in_interrupt b) (resched b) h.

Definition hrtimer_cpu_init : hrtimer_base := HrtimerBase (RbSt ∅ 0 tt) 0 UINT64_MAX false false Out.
Definition hrtimer_init (t : Z) (s : hrs) : hrs := set_timer t (HrTimer 0 HRTIMER_INACTIVE 0) s.

(** ** Queueing *)

(** The place for expiry [e] below [link], and whether every step was to the left. *)
Fixpoint find_link (fuel : nat) (T : gmap Z hrtimer) (e link parent : Z) (slot : option dir) (leftmost : bool)
  : M unit (Z * option dir * bool) :=
  if nonnull link then
    match fuel with
    | O => fun _ => None
    | S fuel =>
      match T !! link with
      | None => fun _ => None
      | Some x =>
        if e <? expires_ns x then c <- child L link ;; find_link fuel T e c link (Some L) leftmost
        else c <- child R link ;; find_link fuel T e c link (Some R) false
      end
    end
  else ret (parent, slot, leftmost).

Definition tree_enqueue (T : gmap Z hrtimer) (t e lm : Z) : M unit Z :=
  rt <- get_root ;;
  w <- (fun st => find_link (S (size (nodes st))) T e rt 0 None true st) ;;
  let '(parent, slot, leftmost) := w in
  rb_link_node t parent slot ;;;
  rb_insert_color_cached t lm leftmost.

(** [RB_CLEAR_NODE]: a node that is its own parent is in no tree. *)
Definition cleared (t : Z) : rb_node := RbNode t 0 0.
Definition own_node (t : Z) (st : rbst unit) : rbst unit := RbSt (<[t := cleared t]> (nodes st)) (root st) (aux st).

Definition enqueue_locked (c : nat) (t : Z) (s : hrs) : option hrs :=
  match timers s !! t with
  | None => None
  | Some h =>
    let b := bases s c in
    match tree_enqueue (timers s) t (expires_ns h) (rb_leftmost b) (own_node t (tree_of b)) with
    | None => None
    | Some (lm, st) => Some (set_timer t (set_state HRTIMER_QUEUED h) (set_base c (with_tree st lm b) s))
    end
  end.

Definition dequeue_locked (c : nat) (t : Z) (s : hrs) : option hrs :=
  match timers s !! t with
  | None => None
  | Some h =>
    let b := bases s c in
    match rb_erase_cached t (rb_leftmost b) (tree_of b) with
    | None => None
    | Some (lm, st) => Some (set_timer t (set_state HRTIMER_INACTIVE h) (set_base c (with_tree (own_node t st) lm b) s))
    end
  end.

(** [None] is a leftmost pointer that names no timer. *)
Definition first_expiry_locked (c : nat) (s : hrs) : option Z :=
  let n := rb_leftmost (bases s c) in
  if nonnull n then expires_ns <$> timers s !! n else Some UINT64_MAX.

(** [here] is the CPU that runs the code, whose device is programmed. *)
Definition reprogram_locked (c here : nat) (s : hrs) : option hrs :=
  let b := bases s c in
  if in_interrupt b then Some s
  else
    match first_expiry_locked c s with
    | None => None
    | Some first =>
      if first <? programmed b then Some (clockevent_program here first (set_base c (set_programmed first b) s)) else Some s
    end.

(** ** Cancelling and starting *)

(** What a thread cancels a timer for. *)
Inductive why := ForTry | ForCancel | ForStart (e : Z).

Inductive pc :=
  | Ready (rc : Z)
  | Load (t : Z) (w : why)                (* at the head of the loop *)
  | Lock (t : Z) (c : nat) (w : why)      (* about to lock base [c] *)
  | Start (t e : Z) (c : nat).            (* cancelled; [this_base] was base [c] *)

(** [hrtimer_try_cancel] answers [r] on CPU [here]. *)
Definition cancelled (t : Z) (w : why) (r : Z) (here : nat) : pc :=
  match w with ForStart e => Start t e here | _ => Ready r end.

Definition try_cancel_load (t : Z) (w : why) (here : nat) (s : hrs) : option pc :=
  match timers s !! t with
  | None => None
  | Some h =>
    Some (if state h =? HRTIMER_INACTIVE then cancelled t w 0 here
          else if state h =? HRTIMER_RUNNING then match w with ForTry => Ready (-1) | _ => Load t w end
          else Lock t (cpu h) w)
  end.

Definition try_cancel_locked (t : Z) (c : nat) (w : why) (here : nat) (s : hrs) : option (pc * hrs) :=
  match timers s !! t with
  | None => None
  | Some h =>
    if (state h =? HRTIMER_QUEUED) && bool_decide (cpu h = c) then
      match dequeue_locked c t s with None => None | Some s => Some (cancelled t w 1 here, s) end
    else Some (Load t w, s)
  end.

Definition hrtimer_start_locked (t e : Z) (c here : nat) (s : hrs) : option hrs :=
  match timers s !! t with
  | None => None
  | Some h =>
    let s := set_timer t (HrTimer e (state h) here) s in
    match enqueue_locked c t s with None => None | Some s => reprogram_locked c here s end
  end.

Definition hrtimer_forward_now (expires interval now : Z) : Z :=
  if now <? expires then expires
  else
    let missed := u64 (u64 (now - expires) / interval + 1) in
    u64 (expires + missed * interval).

(** ** The interrupt *)

(** The loop ends: the device is armed for the earliest timer that is left. *)
Definition pass_end (c : nat) (s : hrs) : option hrs :=
  let b := bases s c in
  reprogram_locked c c (set_base c (HrtimerBase (tree_of b) (rb_leftmost b) (programmed b) false false Out) s).

(** The head of the loop, with the lock held. *)
Definition pass_head (c : nat) (s : hrs) : option hrs :=
  let n := rb_leftmost (bases s c) in
  if nonnull n then
    match timers s !! n with
    | None => None
    | Some h =>
      if now s <? expires_ns h then pass_end c s
      else
        match dequeue_locked c n s with
        | None => None
        | Some s' =>
          let s' := set_base c (set_pass (Picked n) (bases s' c)) s' in
          Some (Hrs (timers s') (bases s') (dev s') (now s') (fired s' ++ [(n, expires_ns h, now s)]))
        end
    end
  else pass_end c s.

Definition interrupt_enter (c : nat) (s : hrs) : option hrs :=
  let b := bases s c in
  pass_head c (clockevent_program c UINT64_MAX
    (set_base c (HrtimerBase (tree_of b) (rb_leftmost b) UINT64_MAX true (resched b) (handler b)) s)).

Definition callback_start (c : nat) (t : Z) (s : hrs) : option hrs :=
  match timers s !! t with
  | None => None
  | Some h => Some (set_base c (set_pass (Running t) (bases s c)) (set_timer t (set_state HRTIMER_RUNNING h) s))
  end.

(** The callback returns, with the expiry it left in the timer. *)
Definition callback_return (c : nat) (t e : Z) (restart : bool) (s : hrs) : option hrs :=
  match timers s !! t with
  | None => None
  | Some h =>
    let h := HrTimer e (state h) (cpu h) in
    let s := set_timer t h s in
    match (if restart then enqueue_locked c t s else Some (set_timer t (set_state HRTIMER_INACTIVE h) s)) with
    | None => None
    | Some s => pass_head c s
    end
  end.

Definition hrtimer_request_resched (c : nat) (s : hrs) : hrs :=
  let b := bases s c in
  set_base c (HrtimerBase (tree_of b) (rb_leftmost b) (programmed b) (in_interrupt b) true (handler b)) s.

(** ** Threads and interrupts on all CPUs *)

Record sys := Sys { hr : hrs; thr : gmap nat pc }.

Inductive event :=
  | EInit (t : Z)
  | ECall (th : nat) (t : Z) (w : why)
  | ERun (th here : nat)                          (* the next section of a thread, on a CPU *)
  | ETick (n : Z)
  | EFire (c : nat)                               (* the device of [c] interrupts *)
  | ECallback (c : nat)
  | EReturn (c : nat) (e : Z) (restart : bool)
  | EResched (c : nat).

Definition locked (c : nat) (s : sys) : bool := match handler (bases (hr s) c) with Picked _ => true | _ => false end.
Definition goto (th : nat) (k : pc) (s : sys) : sys := Sys (hr s) (<[th := k]> (thr s)).
Definition u64_ok (e : Z) : bool := (0 <=? e) && (e <? W64).

(** What the hardware and the locks allow. *)
Definition can (e : event) (s : sys) : bool :=
  match e with
  | EInit t => (0 <? t) && (t <? W64) && (t mod 8 =? 0) && bool_decide (timers (hr s) !! t = None)
  | ECall th t w =>
    bool_decide (is_Some (timers (hr s) !! t))
    && match thr s !! th with None | Some (Ready _) => true | _ => false end
    && match w with ForStart e => u64_ok e | _ => true end
  | ERun th here =>
    match thr s !! th with
    | Some (Load _ _) => true
    | Some (Lock _ c _) | Some (Start _ _ c) => negb (locked c s)
    | _ => false
    end
  | ETick n => (now (hr s) <=? n) && (n <? W64)
  | EFire c => (dev (hr s) c <=? now (hr s)) && match handler (bases (hr s) c) with Out => true | _ => false end
  | ECallback c => match handler (bases (hr s) c) with Picked _ => true | _ => false end
  | EReturn c e _ => u64_ok e && match handler (bases (hr s) c) with Running _ => true | _ => false end
  | EResched c => match handler (bases (hr s) c) with Running _ => true | _ => false end
  end.

(** One step; [None] is a wild pointer, or fuel that runs out. *)
Definition exec (e : event) (s : sys) : option sys :=
  let on := fmap (M := option) (fun h => Sys h (thr s)) in
  match e with
  | EInit t => Some (Sys (hrtimer_init t (hr s)) (thr s))
  | ECall th t w => Some (goto th (Load t w) s)
  | ERun th here =>
    match thr s !! th with
    | Some (Load t w) => (fun k => goto th k s) <$> try_cancel_load t w here (hr s)
    | Some (Lock t c w) => (fun r => Sys r.2 (<[th := r.1]> (thr s))) <$> try_cancel_locked t c w here (hr s)
    | Some (Start t e c) => (fun h => Sys h (<[th := Ready 0]> (thr s))) <$> hrtimer_start_locked t e c here (hr s)
    | _ => Some s
    end
  | ETick n => Some (Sys (Hrs (timers (hr s)) (bases (hr s)) (dev (hr s)) n (fired (hr s))) (thr s))
  | EFire c => on (interrupt_enter c (hr s))
  | ECallback c => match handler (bases (hr s) c) with Picked t => on (callback_start c t (hr s)) | _ => Some s end
  | EReturn c e r => match handler (bases (hr s) c) with Running t => on (callback_return c t e r (hr s)) | _ => Some s end
  | EResched c => Some (Sys (hrtimer_request_resched c (hr s)) (thr s))
  end.

Fixpoint run (es : list event) (s : sys) : option sys :=
  match es with
  | [] => Some s
  | e :: es => if can e s then match exec e s with None => None | Some s => run es s end else None
  end.

Definition sys_init : sys := Sys (Hrs ∅ (fun _ => hrtimer_cpu_init) (fun _ => UINT64_MAX) 0 []) ∅.

(** The thread is inside [hrtimer_start] of [t]. *)
Definition starting (t : Z) (k : pc) : bool :=
  match k with
  | Load t' (ForStart _) | Lock t' _ (ForStart _) | Start t' _ _ => t =? t'
  | _ => false
  end.

(** What the callers owe on top: starts of one timer come one after the other, a thread stays on
    its CPU from [this_base] to the end of the start, and no load of a state falls between the
    two stores of the handler. *)
Definition contract (e : event) (s : sys) : Prop :=
  match e with
  | ECall th t (ForStart _) => forall th' k, thr s !! th' = Some k -> starting t k = false
  | ERun th here =>
    match thr s !! th with
    | Some (Load t _) => forall c, handler (bases (hr s) c) <> Picked t
    | Some (Start _ _ c) => here = c
    | _ => True
    end
  | _ => True
  end.

Inductive reach : sys -> Prop :=
  | reach_init : reach sys_init
  | reach_step s e s' : reach s -> can e s = true -> contract e s -> exec e s = Some s' -> reach s'.
