(* ===== verification/HrtimerProofs.v ===== *)
(** * High-resolution timers: trees, devices and races

    The tree of every CPU holds exactly the timers queued there in the order of their expiries,
    the device is armed in time for each of them, and callbacks run in that order; and the
    runs in which the conditions on the callers fail. *)

From stdpp Require Import base numbers list gmap functions sorting.
From Stdlib Require Import ZArith Lia.
From S2P Require Import Prelude RbTree RbSpec RbProofs RbTheorems Hrtimer.

Open Scope rb_scope.

Implicit Types (T : gmap Z hrtimer) (s : hrs) (c : nat).

Definition key T (a : Z) : Z := match T !! a with Some h => expires_ns h | None => 0 end.
Definition sorted T (l : list Z) : Prop := StronglySorted (fun x y => key T x <= key T y) l.
Definition around T (e : Z) (l1 l2 : list Z) : Prop := (forall x, x ∈ l1 -> key T x <= e) /\ (forall x, x ∈ l2 -> e < key T x).

(** ** Finding the place *)

Lemma sorted_mid T l a r :
  sorted T (l ++ a :: r) ->
  sorted T l /\ sorted T r /\ (forall x, x ∈ l -> key T x <= key T a) /\ (forall x, x ∈ r -> key T a <= key T x).
Proof.
  unfold sorted. intros H. apply StronglySorted_app in H as (Hx & Hl & [Ha Hr]%StronglySorted_cons).
  split; [done|]. split; [done|]. split; [|by rewrite Forall_forall in Ha]. intros x Hin. apply Hx; [done|]. apply elem_of_cons. by left.
Qed.

Lemma hrtimerproofs_place_ok T e fuel st ctx t :
  zrep st ctx t -> (forall x, x ∈ addrs t -> is_Some (T !! x)) -> (height t <= fuel)%nat -> sorted T (addrs t) ->
  around T e (cleft ctx) (cright ctx) ->
  exists ctx', find_link fuel T e (ptr t) (cpar ctx) (slot_of ctx) (bool_decide (cleft ctx = [])) st
      = Some ((cpar ctx', slot_of ctx', bool_decide (cleft ctx' = [])), st)
    /\ zrep st ctx' Leaf /\ plug ctx' Leaf = plug ctx t /\ around T e (cleft ctx') (cright ctx').
Proof.
  revert fuel ctx. induction t as [|b l IHl a r IHr]; intros fuel ctx Hz Hl Hf Hs [B1 B2].
  { exists ctx. split; [by destruct fuel|]. done. }
  destruct fuel as [|fuel]; [simpl in Hf; lia|]. simpl in Hf. pose proof (zr_tree _ _ _ Hz) as (E & _ & _).
  assert (okaddr a) as [Oa _].
  { pose proof (zr_ok _ _ _ Hz) as [_ Ho]%Forall_app. simpl in Ho. by apply Forall_app in Ho as [_ [? _]%Forall_cons]. }
  cbn [find_link ptr]. unfold nonnull. rewrite (proj2 (Z.eqb_neq a 0)) by lia. cbn [negb].
  destruct (Hl a) as [x Ex]; [simpl; rewrite elem_of_app, elem_of_cons; auto|]. rewrite Ex.
  assert (key T a = expires_ns x) as Ek by (unfold key; by rewrite Ex).
  simpl in Hs. apply sorted_mid in Hs as (O1 & O2 & O3 & O4). destruct (Z.ltb_spec e (expires_ns x)) as [Ec|Ec].
  - step (child_ok st L _ _ E). cbn [kid RbTree.rb_left]. pose proof (proj2 (zrep_move st L b a r ctx l) Hz) as HzL.
    apply (IHl fuel (Fr L b a r :: ctx) HzL); [|lia|done|].
    { intros y Hy. apply Hl. simpl. rewrite elem_of_app. auto. }
    split; [done|]. simpl. intros y. rewrite elem_of_cons, elem_of_app. intros [->|[Hy|Hy]]; [lia|specialize (O4 y Hy); lia|by apply B2].
  - step (child_ok st R _ _ E). cbn [kid RbTree.rb_right]. pose proof (proj2 (zrep_move st R b a l ctx r) Hz) as HzR.
    destruct (IHr fuel (Fr R b a l :: ctx) HzR) as (ctx' & E' & H); [|lia|done| |].
    { intros y Hy. apply Hl. simpl. rewrite elem_of_app, elem_of_cons. auto. }
    { split; [|done]. simpl. intros y. rewrite !elem_of_app, elem_of_cons. intros [Hy|[Hy|[->|Hy%elem_of_nil]]]; [by apply B1|specialize (O3 y Hy); lia|lia|done]. }
    exists ctx'. split; [rewrite <- E'; do 3 f_equal; rewrite bool_decide_eq_false_2; [done|]; simpl; by destruct (cleft ctx), (addrs l)|done].
Qed.

(** ** The tree of one CPU *)

Lemma own_node_holds t st l : t ∉ l -> rb_holds st l -> rb_holds (own_node t st) l.
Proof.
  intros Hn (tr & [H1 H2 H3 H4] & R & E). exists tr. split; [|done]. unfold own_node. split; cbn [nodes root]; try done.
  apply (rep_frame (nodes st)); [|done]. intros a Ha. rewrite lookup_insert_ne; [done|]. intros <-. apply Hn. by rewrite <- E.
Qed.

Lemma tree_enqueue_ok T st l t e :
  rb_holds st l -> t ∉ l -> okaddr t -> (forall x, x ∈ l -> is_Some (T !! x)) -> sorted T l ->
  exists l1 l2 st', l = l1 ++ l2 /\ around T e l1 l2 /\ rb_holds st' (l1 ++ t :: l2)
    /\ tree_enqueue T t e (hd0 l) (own_node t st) = Some (hd0 (l1 ++ t :: l2), st').
Proof.
  intros H Hn Ho Hl Hs. destruct (own_node_holds t st l Hn H) as (tr & Hz & Hr & <-).
  destruct (hrtimerproofs_place_ok T e (S (size (nodes (own_node t st)))) (own_node t st) [] tr) as (ctx & E1 & Hzc & Ep & Ha); [done|done| |done|by split; intros ? ?%elem_of_nil|].
  { by apply height_nodes. }
  pose proof (addrs_plug ctx Leaf) as Ea. simpl in Ea. rewrite Ep in Ea. simpl in Ea.
  destruct (insert_cached_ok (own_node t st) ctx (cleft ctx) (cright ctx) t (cleared t)) as (st' & E2 & H2); [|by cbn; rewrite lookup_insert_eq|done|by rewrite <- Ea|].
  { split; [done|]. split; [by rewrite Ep|done]. }
  exists (cleft ctx), (cright ctx), st'. split; [done|]. split; [done|]. split; [done|]. unfold tree_enqueue.
  pose proof (zr_ctx _ _ _ Hz : root (own_node t st) = ptr tr) as Hroot. rewrite (bool_decide_eq_true_2 (cleft [] = [])) in E1 by done.
  unfold bind at 1, get_root. rewrite Hroot. unfold bind at 1. cbn [cpar slot_of] in E1. rewrite E1, Ea. exact E2.
Qed.

Record base_ok T c (b : hrtimer_base) (l : list Z) : Prop := {
  bo_holds : rb_holds (tree_of b) l;
  bo_first : rb_leftmost b = hd0 l;
  bo_sorted : sorted T l;
  bo_mem : forall t, t ∈ l <-> exists h, T !! t = Some h /\ state h = HRTIMER_QUEUED /\ cpu h = c;
}.

(** Every tree holds the timers queued on its CPU. *)
Definition trees_ok s : Prop := forall c, exists l, base_ok (timers s) c (bases s c) l.

Lemma sorted_ext T T' l : (forall x, x ∈ l -> key T' x = key T x) -> sorted T l -> sorted T' l.
Proof.
  intros Hk H. induction H as [|x l Hs IH Hf]; [constructor|]. constructor; [apply IH; intros y Hy; apply Hk, elem_of_cons; by right|].
  rewrite Forall_forall in *. intros y Hy. rewrite !Hk by (apply elem_of_cons; auto). by apply Hf.
Qed.

Lemma sorted_insert T l1 l2 t :
  sorted T (l1 ++ l2) -> around T (key T t) l1 l2 -> sorted T (l1 ++ t :: l2).
Proof.
  intros H [B1 B2]. apply StronglySorted_app in H as (H12 & H1 & H2). apply StronglySorted_app. split; [|split; [done|constructor; [done|]]].
  - intros x y Hx [->|Hy]%elem_of_cons; [by apply B1|by apply H12].
  - apply Forall_forall. intros y Hy. specialize (B2 y Hy). lia.
Qed.

(** A timer that is queued neither before nor after is in no tree. *)
Lemma base_ok_other T c b l t h' :
  (forall h, T !! t = Some h -> state h <> HRTIMER_QUEUED) -> state h' <> HRTIMER_QUEUED ->
  base_ok T c b l -> base_ok (<[t := h']> T) c b l.
Proof.
  intros Hq Hq' [H1 H2 H3 H4]. assert (forall x, x ∈ l -> x <> t) as Hne.
  { intros x (h & E & Hs & _)%H4 ->. by apply (Hq h). }
  split; try done.
  - eapply sorted_ext; [|done]. intros x Hx. unfold key. by rewrite lookup_insert_ne by (symmetry; by apply Hne).
  - intros x. rewrite H4. destruct (decide (x = t)) as [->|Hx]; [|by rewrite lookup_insert_ne by done]. rewrite lookup_insert_eq.
    split; [intros (h & E & Hs & _); by apply Hq in E|]. intros (h & [= <-] & ? & _). done.
Qed.

Lemma trees_ok_timer s t h' :
  (forall h, timers s !! t = Some h -> state h <> HRTIMER_QUEUED) -> state h' <> HRTIMER_QUEUED ->
  trees_ok s -> trees_ok (set_timer t h' s).
Proof. intros H1 H2 H c. destruct (H c) as [l Hl]. exists l. by apply base_ok_other. Qed.

Lemma trees_ok_ext s s' :
  timers s' = timers s -> (forall c, tree_of (bases s' c) = tree_of (bases s c) /\ rb_leftmost (bases s' c) = rb_leftmost (bases s c)) ->
  trees_ok s -> trees_ok s'.
Proof.
  intros Et Hb H c. destruct (H c) as [l [H1 H2 H3 H4]]. destruct (Hb c) as [E1 E2]. exists l. rewrite Et. split; try done; congruence.
Qed.

(** ** Queueing *)

Lemma enqueue_locked_ok s c t h :
  trees_ok s -> timers s !! t = Some h -> okaddr t -> state h <> HRTIMER_QUEUED -> cpu h = c ->
  exists st lm, enqueue_locked c t s = Some (set_timer t (set_state HRTIMER_QUEUED h) (set_base c (with_tree st lm (bases s c)) s))
    /\ trees_ok (set_timer t (set_state HRTIMER_QUEUED h) (set_base c (with_tree st lm (bases s c)) s)).
Proof.
  intros H Et Ho Hq Hc. pose proof H as Hall. destruct (H c) as [l [H1 H2 H3 H4]].
  assert (t ∉ l) as Hn by (intros (h0 & E & ? & _)%H4; congruence).
  destruct (tree_enqueue_ok (timers s) (tree_of (bases s c)) l t (expires_ns h)) as (l1 & l2 & st & -> & Ha & Hh & E); try done.
  { intros x (h0 & E & _)%H4. by rewrite E. }
  exists st, (hd0 (l1 ++ t :: l2)). split; [unfold enqueue_locked; rewrite Et, H2, E; done|].
  set (T' := <[t := set_state HRTIMER_QUEUED h]> (timers s)).
  assert (forall x, key T' x = key (timers s) x) as Hk.
  { intros x. unfold key, T'. destruct (decide (x = t)) as [->|]; [rewrite lookup_insert_eq, Et; done|by rewrite lookup_insert_ne by done]. }
  intros c'. cbn [timers bases set_timer set_base]. destruct (decide (c' = c)) as [->|Hne].
  - exists (l1 ++ t :: l2). rewrite fn_lookup_insert. split; try done.
    + assert (key T' t = expires_ns h) as Et' by (rewrite Hk; unfold key; by rewrite Et). destruct Ha as [A1 A2].
      apply sorted_insert; [eapply sorted_ext; [intros; apply Hk|done]|]. fold T'. rewrite Et'.
      split; intros x Hx; rewrite Hk; [by apply A1|by apply A2].
    + intros x. rewrite elem_of_app, elem_of_cons. specialize (H4 x). rewrite elem_of_app in H4. unfold T'.
      destruct (decide (x = t)) as [->|Hx]; [rewrite lookup_insert_eq|rewrite lookup_insert_ne by done; tauto].
      split; [intros _; by exists (set_state HRTIMER_QUEUED h)|by auto].
  - rewrite fn_lookup_insert_ne by done. destruct (Hall c') as [l' [G1 G2 G3 G4]]. exists l'. split; try done.
    + eapply sorted_ext; [intros; apply Hk|done].
    + intros x. rewrite G4. unfold T'. destruct (decide (x = t)) as [->|Hx]; [rewrite lookup_insert_eq|by rewrite lookup_insert_ne by done].
      split; [intros (h0 & E0 & ? & _); congruence|]. intros (h0 & [= <-] & _ & E0). simpl in E0. congruence.
Qed.

Lemma dequeue_locked_ok s c t h :
  trees_ok s -> timers s !! t = Some h -> state h = HRTIMER_QUEUED -> cpu h = c ->
  exists st lm, dequeue_locked c t s = Some (set_timer t (set_state HRTIMER_INACTIVE h) (set_base c (with_tree st lm (bases s c)) s))
    /\ trees_ok (set_timer t (set_state HRTIMER_INACTIVE h) (set_base c (with_tree st lm (bases s c)) s)).
Proof.
  intros H Et Hq Hc. pose proof H as Hall. destruct (H c) as [l [H1 H2 H3 H4]].
  assert (t ∈ l) as (l1 & l2 & ->)%list_elem_of_split by (apply H4; eauto).
  destruct (erase_cached_ok (tree_of (bases s c)) l1 t l2 H1) as (st & E & Hh).
  pose proof (holds_nodup _ _ H1) as [Hnd _]. apply NoDup_app in Hnd as (_ & N1 & [N2 _]%NoDup_cons).
  assert (t ∉ l1 ++ l2) as Hn by (rewrite elem_of_app; intros [Hx|Hx]; [by apply (N1 t Hx), elem_of_cons; left|done]).
  exists (own_node t st), (hd0 (l1 ++ l2)). split; [unfold dequeue_locked; rewrite Et, H2, E; done|].
  assert (forall x (l0 : list Z), x ∈ l0 -> t ∉ l0 -> key (<[t := set_state HRTIMER_INACTIVE h]> (timers s)) x = key (timers s) x) as Hk.
  { intros x l0 Hx Ht. unfold key. rewrite lookup_insert_ne; [done|]. by intros ->. }
  intros c'. cbn [timers bases set_timer set_base]. destruct (decide (c' = c)) as [->|Hne].
  - exists (l1 ++ l2). rewrite fn_lookup_insert. split; try done.
    + by apply own_node_holds.
    + eapply sorted_ext; [intros x Hx; by apply (Hk x (l1 ++ l2))|]. apply StronglySorted_app in H3 as (A1 & A2 & [_ A3]%StronglySorted_cons).
      apply StronglySorted_app. split; [|done]. intros x y Hx Hy. apply A1; [done|]. apply elem_of_cons. by right.
    + intros x. specialize (H4 x). rewrite elem_of_app, elem_of_cons in H4.
      destruct (decide (x = t)) as [->|Hx]; [rewrite lookup_insert_eq|rewrite lookup_insert_ne, elem_of_app by done; tauto].
      split; [done|]. intros (h0 & [= <-] & ? & _). done.
  - rewrite fn_lookup_insert_ne by done. destruct (Hall c') as [l' G]. exists l'. destruct G as [G1 G2 G3 G4].
    assert (t ∉ l') as Hn' by (intros (h0 & E0 & _ & ?)%G4; congruence). split; try done.
    + eapply sorted_ext; [intros x Hx; by apply (Hk x l')|done].
    + intros x. rewrite G4. destruct (decide (x = t)) as [->|Hx]; [rewrite lookup_insert_eq|by rewrite lookup_insert_ne by done].
      split; [intros (h0 & E0 & _ & ?); congruence|]. intros (h0 & [= <-] & ? & _). done.
Qed.

(** ** The device *)

(** The timers queued on a CPU expire no earlier than [p]. *)
Definition before_all s c (p : Z) : Prop :=
  forall t h, timers s !! t = Some h -> state h = HRTIMER_QUEUED -> cpu h = c -> p <= expires_ns h.

Lemma first_expiry_ok s c :
  trees_ok s -> (forall t h, timers s !! t = Some h -> okaddr t /\ 0 <= expires_ns h < W64) ->
  exists e, first_expiry_locked c s = Some e /\ before_all s c e /\ e <= UINT64_MAX.
Proof.
  intros H Hi. destruct (H c) as [l [H1 H2 H3 H4]]. unfold first_expiry_locked. rewrite H2. destruct l as [|n l].
  - exists UINT64_MAX. split; [done|]. split; [|done]. intros t h Et Hq Hc. assert (t ∈ []) as []%elem_of_nil by (apply H4; eauto).
  - destruct (proj1 (H4 n)) as (h & En & Hq & Hc); [apply elem_of_cons; by left|]. destruct (Hi n h En) as [[On _] He].
    change (hd0 (n :: l)) with n. unfold nonnull. rewrite (proj2 (Z.eqb_neq n 0)) by lia. cbn [negb]. rewrite En.
    exists (expires_ns h). split; [done|]. split; [|unfold UINT64_MAX; lia]. intros t h' Et Hq' Hc'. assert (t ∈ n :: l) as Hin by (apply H4; eauto).
    apply elem_of_cons in Hin as [->|Hin]; [rewrite En in Et; simplify_eq; lia|]. apply StronglySorted_cons in H3 as [Hf _].
    rewrite Forall_forall in Hf. specialize (Hf t Hin). unfold key in Hf. by rewrite En, Et in Hf.
Qed.

Lemma reprogram_ok s c :
  trees_ok s -> (forall t h, timers s !! t = Some h -> okaddr t /\ 0 <= expires_ns h < W64) -> in_interrupt (bases s c) = false ->
  dev s c = programmed (bases s c) ->
  exists p s', reprogram_locked c c s = Some s' /\ timers s' = timers s /\ now s' = now s /\ fired s' = fired s
    /\ bases s' c = set_programmed p (bases s c) /\ dev s' c = p /\ before_all s c p
    /\ forall c', c' <> c -> bases s' c' = bases s c' /\ dev s' c' = dev s c'.
Proof.
  intros H Hi Hb Hd. destruct (first_expiry_ok s c H Hi) as (e & E & Ha & _). unfold reprogram_locked. rewrite Hb, E.
  destruct (Z.ltb_spec e (programmed (bases s c))) as [Hlt|Hge].
  - exists e. eexists. split; [reflexivity|]. cbn [timers bases dev now fired clockevent_program set_base]. rewrite !fn_lookup_insert.
    split_and!; try done. intros c' Hc. by rewrite !fn_lookup_insert_ne.
  - exists (programmed (bases s c)), s. split_and!; try done; [by destruct (bases s c)|]. intros t h Et Hq Hc. specialize (Ha t h Et Hq Hc). lia.
Qed.

(** ** The invariant of the bases *)

Definition pass_ok s c : Prop :=
  match handler (bases s c) with
  | Out => True
  | Picked t => exists h, timers s !! t = Some h /\ state h = HRTIMER_INACTIVE /\ cpu h = c
  | Running t => exists h, timers s !! t = Some h /\ state h = HRTIMER_RUNNING /\ cpu h = c
  end.

Definition inside (p : pass) : bool := match p with Out => false | _ => true end.

Record cpu_ok s c : Prop := {
  co_pass : pass_ok s c;
  co_dev : dev s c = programmed (bases s c);
  co_int : in_interrupt (bases s c) = inside (handler (bases s c));
  co_armed : if inside (handler (bases s c)) then programmed (bases s c) = UINT64_MAX else before_all s c (programmed (bases s c));
}.

Record hinv s : Prop := {
  hi_trees : trees_ok s;
  hi_timer : forall t h, timers s !! t = Some h -> okaddr t /\ 0 <= expires_ns h < W64;
  hi_cpu : forall c, cpu_ok s c;
}.

(** The handler of [c] is between two callbacks, with the lock held. *)
Record hmid s c : Prop := {
  hm_trees : trees_ok s;
  hm_timer : forall t h, timers s !! t = Some h -> okaddr t /\ 0 <= expires_ns h < W64;
  hm_cpu : forall c', c' <> c -> cpu_ok s c';
  hm_dev : dev s c = programmed (bases s c);
  hm_int : in_interrupt (bases s c) = true;
  hm_prog : programmed (bases s c) = UINT64_MAX;
}.

(** A change of one timer that is not in the hands of the handler of [c]. *)
Lemma cpu_ok_timer s s' c t h' :
  cpu_ok s c -> timers s' = <[t := h']> (timers s) -> bases s' c = bases s c -> dev s' c = dev s c ->
  handler (bases s c) <> Picked t -> handler (bases s c) <> Running t ->
  (state h' = HRTIMER_QUEUED -> cpu h' = c -> inside (handler (bases s c)) = false -> programmed (bases s c) <= expires_ns h') ->
  cpu_ok s' c.
Proof.
  intros [H1 H2 H3 H4] Et Eb Ed Hp Hr Hq. split; unfold pass_ok in *; rewrite ?Eb, ?Ed; try done.
  - rewrite Et. destruct (handler (bases s c)) as [|x|x]; [done|rewrite lookup_insert_ne by congruence; done..].
  - destruct (inside _) eqn:E; [done|]. intros x h. rewrite Et. destruct (decide (x = t)) as [->|]; [rewrite lookup_insert_eq; intros [= <-]; auto|].
    rewrite lookup_insert_ne by done. by apply H4.
Qed.

Lemma timers_insert s t h' :
  (forall t h, timers s !! t = Some h -> okaddr t /\ 0 <= expires_ns h < W64) -> okaddr t -> 0 <= expires_ns h' < W64 ->
  forall x h, <[t := h']> (timers s) !! x = Some h -> okaddr x /\ 0 <= expires_ns h < W64.
Proof. intros H Ho He x h. rewrite lookup_insert_Some. intros [[<- <-]|[_ E]]; [done|by apply (H x)]. Qed.

(** Only the base of [c] has changed. *)
Definition elsewhere s s' c : Prop := forall c', c' <> c -> bases s' c' = bases s c'.

Lemma cpu_ok_same s s' c : cpu_ok s c -> timers s' = timers s -> bases s' c = bases s c -> dev s' c = dev s c -> cpu_ok s' c.
Proof. intros [H1 H2 H3 H4] Et Eb Ed. split; unfold pass_ok, before_all in *; by rewrite ?Et, ?Eb, ?Ed. Qed.

Lemma pass_end_ok s c :
  hmid s c ->
  exists s', pass_end c s = Some s' /\ hinv s' /\ elsewhere s s' c /\ timers s' = timers s /\ fired s' = fired s /\ now s' = now s
    /\ handler (bases s' c) = Out.
Proof.
  intros [H1 H2 H3 H4 H5 H6]. unfold pass_end. set (s1 := set_base c _ s).
  assert (forall c', c' <> c -> bases s1 c' = bases s c') as Hb by (intros; unfold s1; cbn; by rewrite fn_lookup_insert_ne).
  destruct (reprogram_ok s1 c) as (p & s' & E & Et & En & Ef & Eb & Ed & Ha & Ho); [|done|unfold s1; cbn; by rewrite fn_lookup_insert..|].
  { apply (trees_ok_ext s); [done| |done]. intros c'. unfold s1. cbn. destruct (decide (c' = c)) as [->|]; [by rewrite fn_lookup_insert|by rewrite fn_lookup_insert_ne]. }
  assert (bases s1 c = HrtimerBase (tree_of (bases s c)) (rb_leftmost (bases s c)) (programmed (bases s c)) false false Out) as Es1 by (unfold s1; cbn; by rewrite fn_lookup_insert).
  exists s'. split; [done|]. rewrite Es1 in Eb. split_and!; try done; [split|intros c' Hc; rewrite (proj1 (Ho c' Hc)); auto|by rewrite Eb].
  - apply (trees_ok_ext s); [done| |done]. intros c'. destruct (decide (c' = c)) as [->|Hc]; [by rewrite Eb|]. rewrite (proj1 (Ho c' Hc)), Hb by done. done.
  - by rewrite Et.
  - intros c'. destruct (decide (c' = c)) as [->|Hc].
    + split; unfold pass_ok; rewrite ?Eb, ?Ed; try done. cbn. unfold before_all. by rewrite Et.
    + apply (cpu_ok_same s); [by apply H3|done|rewrite (proj1 (Ho c' Hc)); auto|]. by rewrite (proj2 (Ho c' Hc)).
Qed.

(** A step of the handler takes the earliest timer if it is due. *)
Definition picks s s' c : Prop := exists n h,
  timers s !! n = Some h /\ state h = HRTIMER_QUEUED /\ cpu h = c /\ expires_ns h <= now s /\ before_all s c (expires_ns h)
  /\ handler (bases s' c) = Picked n /\ timers s' = <[n := set_state HRTIMER_INACTIVE h]> (timers s)
  /\ fired s' = fired s ++ [(n, expires_ns h, now s)].

Lemma pass_head_ok s c :
  hmid s c ->
  exists s', pass_head c s = Some s' /\ hinv s' /\ elsewhere s s' c /\ now s' = now s
    /\ ((timers s' = timers s /\ fired s' = fired s /\ handler (bases s' c) = Out) \/ picks s s' c).
Proof.
  intros Hm. pose proof Hm as [H1 H2 H3 H4 H5 H6]. unfold pass_head.
  assert (exists s', pass_end c s = Some s' /\ hinv s' /\ elsewhere s s' c /\ now s' = now s
    /\ ((timers s' = timers s /\ fired s' = fired s /\ handler (bases s' c) = Out) \/ picks s s' c)) as Hend.
  { destruct (pass_end_ok s c Hm) as (s' & E & Hi & Hel & Et & Ef & En & Eh). exists s'. split_and!; auto. }
  destruct (H1 c) as [l [B1 B2 B3 B4]]. rewrite B2. destruct l as [|n l]; [done|]. change (hd0 (n :: l)) with n.
  destruct (proj1 (B4 n)) as (h & En & Hq & Hc); [apply elem_of_cons; by left|]. destruct (H2 n h En) as [[On ?] He].
  unfold nonnull. rewrite (proj2 (Z.eqb_neq n 0)) by lia. cbn [negb]. rewrite En. destruct (Z.ltb_spec (now s) (expires_ns h)) as [Hlt|Hge]; [done|].
  destruct (dequeue_locked_ok s c n h H1 En Hq Hc) as (st & lm & E & Ht). rewrite E. eexists. split; [reflexivity|].
  cbn [timers bases dev now fired set_base set_timer]. rewrite !fn_lookup_insert. split_and!; [split|..|done|right].
  - eapply trees_ok_ext; [| |exact Ht]; [done|]. intros c'. cbn. destruct (decide (c' = c)) as [->|]; [by rewrite !fn_lookup_insert|by rewrite !fn_lookup_insert_ne].
  - cbn. by apply timers_insert.
  - intros c'. destruct (decide (c' = c)) as [->|Hne].
    + split; unfold pass_ok; cbn; rewrite !fn_lookup_insert; cbn; try done. exists (set_state HRTIMER_INACTIVE h). by rewrite lookup_insert_eq.
    + pose proof (co_pass _ _ (H3 c' Hne)) as Hp. unfold pass_ok in Hp.
      apply (cpu_ok_timer s _ c' n (set_state HRTIMER_INACTIVE h) (H3 c' Hne)); cbn; rewrite ?fn_lookup_insert_ne by done; try done.
      * intros Eh. rewrite Eh in Hp. destruct Hp as (h0 & E0 & _ & ?). congruence.
      * intros Eh. rewrite Eh in Hp. destruct Hp as (h0 & E0 & _ & ?). congruence.
  - intros c' Hne. cbn. by rewrite !fn_lookup_insert_ne.
  - exists n, h. cbn. rewrite !fn_lookup_insert. split_and!; try done. intros t h' Et Hq' Hc'. assert (t ∈ n :: l) as Hin by (apply B4; eauto).
    apply elem_of_cons in Hin as [->|Hin]; [rewrite En in Et; simplify_eq; lia|]. apply StronglySorted_cons in B3 as [Hf _].
    rewrite Forall_forall in Hf. specialize (Hf t Hin). unfold key in Hf. by rewrite En, Et in Hf.
Qed.

(** ** The sections *)

Lemma interrupt_enter_ok s c :
  hinv s -> handler (bases s c) = Out ->
  exists s', interrupt_enter c s = Some s' /\ hinv s' /\ elsewhere s s' c /\ now s' = now s
    /\ ((timers s' = timers s /\ fired s' = fired s /\ handler (bases s' c) = Out) \/ picks s s' c).
Proof.
  intros [H1 H2 H3] Ho. unfold interrupt_enter. set (s1 := clockevent_program c _ _).
  destruct (pass_head_ok s1 c) as (s' & E & Hi & Hel & En & Hp).
  - split; unfold s1; cbn; rewrite ?fn_lookup_insert; try done.
    + apply (trees_ok_ext s); [done| |done]. intros c'. cbn. destruct (decide (c' = c)) as [->|]; [by rewrite fn_lookup_insert|by rewrite fn_lookup_insert_ne].
    + intros c' Hc. apply (cpu_ok_same s); [done|done|cbn; by rewrite fn_lookup_insert_ne..].
  - exists s'. split_and!; try done. intros c' Hc. rewrite (Hel c' Hc). unfold s1. cbn. by rewrite fn_lookup_insert_ne.
Qed.

Lemma callback_start_ok s c t :
  hinv s -> handler (bases s c) = Picked t ->
  exists s' h, callback_start c t s = Some s' /\ hinv s' /\ elsewhere s s' c /\ handler (bases s' c) = Running t
    /\ timers s !! t = Some h /\ timers s' = <[t := set_state HRTIMER_RUNNING h]> (timers s) /\ fired s' = fired s.
Proof.
  intros [H1 H2 H3] Hh. pose proof (H3 c) as [P1 P2 P3 P4]. unfold pass_ok in P1. rewrite Hh in P1, P3, P4. destruct P1 as (h & Et & Hs & Hc).
  unfold callback_start. rewrite Et. eexists _, h. split; [reflexivity|]. cbn. rewrite fn_lookup_insert. split_and!; try done; [split|..].
  - eapply trees_ok_ext; [| |apply (trees_ok_timer s t (set_state HRTIMER_RUNNING h)); [|done|done]]; [done| |].
    + intros c'. cbn. destruct (decide (c' = c)) as [->|]; [by rewrite fn_lookup_insert|by rewrite fn_lookup_insert_ne].
    + intros h0 E0. rewrite Et in E0. injection E0 as <-. by rewrite Hs.
  - cbn. destruct (H2 t h Et). by apply timers_insert.
  - intros c'. destruct (decide (c' = c)) as [->|Hne].
    + split; unfold pass_ok; cbn; rewrite ?fn_lookup_insert; cbn; try done. exists (set_state HRTIMER_RUNNING h). by rewrite lookup_insert_eq.
    + pose proof (co_pass _ _ (H3 c')) as Hp. unfold pass_ok in Hp.
      apply (cpu_ok_timer s _ c' t (set_state HRTIMER_RUNNING h) (H3 c')); cbn; rewrite ?fn_lookup_insert_ne by done; try done;
        intros Eh; rewrite Eh in Hp; destruct Hp as (h0 & E0 & _ & ?); congruence.
  - intros c' Hne. cbn. by rewrite fn_lookup_insert_ne.
Qed.

Lemma callback_return_ok s c t e r :
  hinv s -> handler (bases s c) = Running t -> 0 <= e < W64 ->
  exists s1 s' h', callback_return c t e r s = Some s' /\ hinv s' /\ elsewhere s1 s' c /\ now s1 = now s /\ fired s1 = fired s
    /\ (forall c', handler (bases s1 c') = handler (bases s c')) /\ timers s1 = <[t := h']> (timers s)
    /\ ((timers s' = timers s1 /\ fired s' = fired s1 /\ handler (bases s' c) = Out) \/ picks s1 s' c).
Proof.
  intros [H1 H2 H3] Hh He. pose proof (H3 c) as [P1 P2 P3 P4]. unfold pass_ok in P1. rewrite Hh in P1, P3, P4. destruct P1 as (h & Et & Hs & Hc).
  destruct (H2 t h Et) as [Ot _]. unfold callback_return. rewrite Et. set (h1 := HrTimer e (state h) (cpu h)). set (s0 := set_timer t h1 s).
  assert (trees_ok s0) as T0.
  { apply trees_ok_timer; [|unfold h1; cbn; by rewrite Hs|done]. intros h0 E0. rewrite Et in E0. injection E0 as <-. by rewrite Hs. }
  assert (forall c', c' <> c -> handler (bases s c') <> Picked t /\ handler (bases s c') <> Running t) as Hoth.
  { intros c' Hne. pose proof (co_pass _ _ (H3 c')) as Hp. unfold pass_ok in Hp. split; intros Eh; rewrite Eh in Hp; destruct Hp as (h0 & E0 & _ & ?); congruence. }
  assert (forall s1 h', timers s1 = <[t := h']> (timers s) -> trees_ok s1 -> now s1 = now s -> fired s1 = fired s -> dev s1 = dev s -> expires_ns h' = e -> cpu h' = c ->
    (forall c', c' <> c -> bases s1 c' = bases s c') -> in_interrupt (bases s1 c) = true -> programmed (bases s1 c) = programmed (bases s c) ->
    exists s', pass_head c s1 = Some s' /\ hinv s' /\ elsewhere s1 s' c
      /\ ((timers s' = timers s1 /\ fired s' = fired s1 /\ handler (bases s' c) = Out) \/ picks s1 s' c)) as Hgo.
  { intros s1 h' E1 E2 E3 E4 E5 E6 E7 E8 E9 E10. destruct (pass_head_ok s1 c) as (s' & E & Hi & Hel & En & Hp).
    - split; try done; [|intros c' Hne|by rewrite E5, E10|by rewrite E10].
      + rewrite E1. apply timers_insert; [done|done|by rewrite E6].
      + destruct (Hoth c' Hne). apply (cpu_ok_timer s s1 c' t h' (H3 c')); try done; [by apply E8|by rewrite E5|]. intros _ ?. congruence.
    - exists s'. by split_and!. }
  destruct r.
  - destruct (enqueue_locked_ok s0 c t h1 T0) as (st & lm & E & Tn); [unfold s0; cbn; by rewrite lookup_insert_eq|done|unfold h1; cbn; by rewrite Hs|done|].
    rewrite E. set (s1 := set_timer t (set_state HRTIMER_QUEUED h1) _) in *.
    destruct (Hgo s1 (set_state HRTIMER_QUEUED h1)) as (s' & E' & Hr); try done; [unfold s1, s0; cbn; by rewrite insert_insert_eq|..].
    + intros c' Hne. unfold s1, s0. cbn. by rewrite fn_lookup_insert_ne.
    + unfold s1, s0. cbn. rewrite fn_lookup_insert. done.
    + unfold s1, s0. cbn. rewrite fn_lookup_insert. done.
    + exists s1, s', (set_state HRTIMER_QUEUED h1). split; [done|]. destruct Hr as (? & ? & ?). split_and!; try done; [|unfold s1, s0; cbn; by rewrite insert_insert_eq].
      intros c'. unfold s1, s0. cbn. destruct (decide (c' = c)) as [->|]; [by rewrite fn_lookup_insert|by rewrite fn_lookup_insert_ne].
  - set (s1 := set_timer t (set_state HRTIMER_INACTIVE h1) s0). destruct (Hgo s1 (set_state HRTIMER_INACTIVE h1)) as (s' & E' & Hr); try done.
    + unfold s1, s0; cbn; by rewrite insert_insert_eq.
    + apply trees_ok_timer; [|done|done]. unfold s0. cbn. rewrite lookup_insert_eq. intros h0 [= <-]. unfold h1. cbn. by rewrite Hs.
    + exists s1, s', (set_state HRTIMER_INACTIVE h1). split; [done|]. destruct Hr as (? & ? & ?). split_and!; try done. unfold s1, s0; cbn; by rewrite insert_insert_eq.
Qed.

Lemma inactive_not_running s c t h :
  pass_ok s c -> timers s !! t = Some h -> state h <> HRTIMER_RUNNING -> handler (bases s c) <> Running t.
Proof. unfold pass_ok. intros Hp Et Hs Eh. rewrite Eh in Hp. destruct Hp as (h0 & E0 & ? & _). congruence. Qed.

Lemma start_locked_ok s t e c h :
  hinv s -> timers s !! t = Some h -> state h = HRTIMER_INACTIVE -> (forall c', handler (bases s c') <> Picked t) -> 0 <= e < W64 ->
  exists s', hrtimer_start_locked t e c c s = Some s' /\ hinv s' /\ timers s' = <[t := HrTimer e HRTIMER_QUEUED c]> (timers s)
    /\ (forall c', handler (bases s' c') = handler (bases s c')) /\ fired s' = fired s.
Proof.
  intros [H1 H2 H3] Et Hs Hp He. destruct (H2 t h Et) as [Ot _]. unfold hrtimer_start_locked. rewrite Et.
  set (h0 := HrTimer e (state h) c). set (s0 := set_timer t h0 s).
  assert (trees_ok s0) as T0 by (apply trees_ok_timer; [intros h1 E1; rewrite Et in E1; injection E1 as <-; by rewrite Hs|unfold h0; cbn; by rewrite Hs|done]).
  destruct (enqueue_locked_ok s0 c t h0 T0) as (st & lm & E & T1); [unfold s0; cbn; by rewrite lookup_insert_eq|done|unfold h0; cbn; by rewrite Hs|done|].
  rewrite E. set (s1 := set_timer t (set_state HRTIMER_QUEUED h0) _) in *. clear E T0.
  assert (timers s1 = <[t := HrTimer e HRTIMER_QUEUED c]> (timers s)) as Et1 by (unfold s1, s0; cbn; by rewrite insert_insert_eq).
  assert (bases s1 c = with_tree st lm (bases s c)) as Eb1 by (unfold s1, s0; cbn; by rewrite fn_lookup_insert).
  assert (forall c', c' <> c -> bases s1 c' = bases s c') as Eo1 by (intros c' Hc; unfold s1, s0; cbn; by rewrite fn_lookup_insert_ne).
  assert (forall x hx, timers s1 !! x = Some hx -> okaddr x /\ 0 <= expires_ns hx < W64) as Ht1 by (rewrite Et1; by apply timers_insert).
  assert (fired s1 = fired s /\ dev s1 = dev s) as [Ef1 Ed1] by done. clearbody s1.
  assert (forall c', handler (bases s c') <> Running t) as Hr by (intros c'; eapply inactive_not_running; [apply H3|done|by rewrite Hs]).
  pose proof (H3 c) as [P1 P2 P3 P4]. destruct (inside (handler (bases s c))) eqn:Ein.
  - exists s1. split; [unfold reprogram_locked; rewrite Eb1; cbn; by rewrite P3|]. split_and!; try done; [split; [done|done|]|].
    + intros c'. destruct (decide (c' = c)) as [->|Hc]; [|apply (cpu_ok_timer s s1 c' t _ (H3 c') Et1); [by apply Eo1|by rewrite Ed1|done|done|cbn; intros _ ?; congruence]].
      split; unfold pass_ok in *; rewrite ?Eb1, ?Ed1; cbn; try done; [|by rewrite Ein|by rewrite Ein].
      rewrite Et1. destruct (handler (bases s c)) as [|x|x] eqn:Eh; [done| |]; rewrite lookup_insert_ne; try done; intros <-; first [by apply (Hp c)|by apply (Hr c)].
    + intros c'. destruct (decide (c' = c)) as [->|Hc]; [by rewrite Eb1|by rewrite Eo1].
  - destruct (reprogram_ok s1 c T1 Ht1) as (p & s' & E & Et' & _ & Ef & Eb & Ed & Ha & Ho); [by rewrite Eb1|by rewrite Eb1, Ed1|].
    rewrite Eb1 in Eb. exists s'. split; [done|]. split_and!; [split| | |by rewrite Ef].
    + eapply trees_ok_ext; [| |exact T1]; [done|]. intros c'. destruct (decide (c' = c)) as [->|Hc]; [by rewrite Eb, Eb1|]. by rewrite (proj1 (Ho c' Hc)).
    + by rewrite Et'.
    + intros c'. destruct (decide (c' = c)) as [->|Hc].
      * split; unfold pass_ok; rewrite ?Eb; cbn; try done; [|by rewrite P3, Ein|by rewrite Ein; unfold before_all; rewrite Et'].
        destruct (handler (bases s c)); done.
      * destruct (Ho c' Hc) as [Eb' Ed']. apply (cpu_ok_timer s s' c' t (HrTimer e HRTIMER_QUEUED c) (H3 c')); auto;
          [by rewrite Et'|by rewrite Eb', Eo1|by rewrite Ed', Ed1|cbn; intros _ ?; congruence].
    + by rewrite Et', Et1.
    + intros c'. destruct (decide (c' = c)) as [->|Hc]; [by rewrite Eb|]. by rewrite (proj1 (Ho c' Hc)), Eo1.
Qed.

Lemma dequeue_hinv s t c h :
  hinv s -> timers s !! t = Some h -> state h = HRTIMER_QUEUED -> cpu h = c ->
  exists s', dequeue_locked c t s = Some s' /\ hinv s' /\ timers s' = <[t := set_state HRTIMER_INACTIVE h]> (timers s)
    /\ (forall c', handler (bases s' c') = handler (bases s c')) /\ fired s' = fired s.
Proof.
  intros [H1 H2 H3] Et Hs Hc. destruct (dequeue_locked_ok s c t h H1 Et Hs Hc) as (st & lm & E & T1). eexists. split; [exact E|]. clear E.
  assert (forall c', handler (bases s c') <> Running t /\ handler (bases s c') <> Picked t) as Hr.
  { intros c'. pose proof (co_pass _ _ (H3 c')) as Hp. unfold pass_ok in Hp.
    split; intros Eh; rewrite Eh in Hp; destruct Hp as (h0 & E0 & E1 & _); rewrite Et in E0; injection E0 as <-; by rewrite Hs in E1. }
  split_and!; try done; [split; [done|by destruct (H2 t h Et); apply timers_insert|]|].
  - intros c'. destruct (decide (c' = c)) as [->|Hne].
    + pose proof (H3 c) as [P1 P2 P3 P4]. split; unfold pass_ok in *; cbn; rewrite fn_lookup_insert; cbn; try done.
      * destruct (Hr c). destruct (handler (bases s c)); [done| |]; (rewrite lookup_insert_ne; [done|congruence]).
      * revert P4. destruct (inside _); [done|]. intros P4 x hx. cbn. rewrite lookup_insert_Some. intros [[<- <-]|[_ Ex]]; [done|exact (P4 x hx Ex)].
    + destruct (Hr c'). apply (cpu_ok_timer s _ c' t (set_state HRTIMER_INACTIVE h) (H3 c')); cbn; rewrite ?fn_lookup_insert_ne by done; done.
  - intros c'. cbn. destruct (decide (c' = c)) as [->|]; [by rewrite fn_lookup_insert|by rewrite fn_lookup_insert_ne].
Qed.

(** ** Threads *)

Definition why_ok (w : why) : Prop := match w with ForStart e => 0 <= e < W64 | _ => True end.

Definition pc_ok s (k : pc) : Prop :=
  match k with
  | Ready _ => True
  | Load t w | Lock t _ w => is_Some (timers s !! t) /\ why_ok w
  | Start t e _ => 0 <= e < W64 /\ (exists h, timers s !! t = Some h /\ state h = HRTIMER_INACTIVE) /\ forall c, handler (bases s c) <> Picked t
  end.

Record inv (x : sys) : Prop := {
  iv_hr : hinv (hr x);
  iv_pcs : forall th k, thr x !! th = Some k -> pc_ok (hr x) k;
  iv_one : forall t th1 th2 k1 k2, thr x !! th1 = Some k1 -> thr x !! th2 = Some k2 -> starting t k1 = true -> starting t k2 = true -> th1 = th2;
}.

(** A timer that is idle for a starting thread stays idle. *)
Definition idle s (t : Z) : Prop := (exists h, timers s !! t = Some h /\ state h = HRTIMER_INACTIVE) /\ forall c, handler (bases s c) <> Picked t.

Lemma pc_ok_step s s' k :
  (forall t, is_Some (timers s !! t) -> is_Some (timers s' !! t)) ->
  (forall t, match k with Start t' _ _ => t = t' | _ => False end -> idle s t -> idle s' t) ->
  pc_ok s k -> pc_ok s' k.
Proof. intros H1 H2. destruct k; cbn; [done|intros [? ?]; auto..|]. intros (He & Hi). split; [done|]. by apply H2. Qed.

Lemma insert_is_Some T t h x : is_Some (T !! x) -> is_Some (<[t := h]> T !! x).
Proof. intros H. destruct (decide (x = t)) as [->|]; [by rewrite lookup_insert_eq|by rewrite lookup_insert_ne]. Qed.

Lemma picks_keeps s s' c :
  elsewhere s s' c -> ((timers s' = timers s /\ fired s' = fired s /\ handler (bases s' c) = Out) \/ picks s s' c) ->
  (forall t, is_Some (timers s !! t) -> is_Some (timers s' !! t)) /\ (forall t, idle s t -> idle s' t).
Proof.
  intros Hel [(Et & _ & Eh)|(n & h & En & Hq & Hc & _ & _ & Eh & Et & _)].
  - rewrite Et. split; [done|]. intros t [Hi Hp]. split; [by rewrite Et|]. intros c'. destruct (decide (c' = c)) as [->|Hne]; [by rewrite Eh|by rewrite Hel].
  - rewrite Et. split; [intros; by apply insert_is_Some|]. intros t [(h0 & E0 & Hs) Hp].
    assert (t <> n) as Hne by (intros ->; rewrite En in E0; injection E0 as <-; by rewrite Hq in Hs).
    split; [exists h0; by rewrite Et, lookup_insert_ne by done|]. intros c'. destruct (decide (c' = c)) as [->|Hn]; [rewrite Eh; congruence|by rewrite Hel].
Qed.

Lemma inv_hr x s' :
  inv x -> hinv s' -> (forall t, is_Some (timers (hr x) !! t) -> is_Some (timers s' !! t)) -> (forall t, idle (hr x) t -> idle s' t) ->
  inv (Sys s' (thr x)).
Proof. intros [H1 H2 H3] Hs Hk Hi. split; [done| |done]. intros th k E. eapply pc_ok_step; [exact Hk| |by eapply H2]. auto. Qed.

Lemma inv_thread x th k s' :
  inv x -> hinv s' -> (forall th' k', th' <> th -> thr x !! th' = Some k' -> pc_ok (hr x) k' -> pc_ok s' k') -> pc_ok s' k ->
  (forall t, starting t k = true -> exists k0, thr x !! th = Some k0 /\ starting t k0 = true) ->
  inv (Sys s' (<[th := k]> (thr x))).
Proof.
  intros [H1 H2 H3] Hs Ho Hk Hst. split; cbn; [done| |].
  - intros th' k'. rewrite lookup_insert_Some. intros [[<- <-]|[Hne E]]; [done|]. apply (Ho th'); eauto.
  - intros t th1 th2 k1 k2. rewrite !lookup_insert_Some. intros [[<- <-]|[N1 E1]] [[<- <-]|[N2 E2]] S1 S2; [done| | |by eapply H3].
    + destruct (Hst t S1) as (k0 & E0 & S0). by eapply H3.
    + destruct (Hst t S2) as (k0 & E0 & S0). by eapply H3.
Qed.

(** Changing a timer that is not idle leaves the idle ones alone. *)
Lemma idle_timer s s' t h h' :
  timers s !! t = Some h -> state h <> HRTIMER_INACTIVE -> timers s' = <[t := h']> (timers s) ->
  (forall c, handler (bases s' c) = handler (bases s c)) -> forall x, idle s x -> idle s' x.
Proof.
  intros Et Hs Et' Hh x [(h0 & E0 & S0) Hp]. split; [|intros c; by rewrite Hh]. exists h0. rewrite Et', lookup_insert_ne; [done|]. congruence.
Qed.

Lemma load_ok x th t w here :
  inv x -> thr x !! th = Some (Load t w) -> (forall c, handler (bases (hr x) c) <> Picked t) ->
  exists k, try_cancel_load t w here (hr x) = Some k /\ inv (goto th k x).
Proof.
  intros Hi Et Hp. destruct (iv_pcs _ Hi _ _ Et) as [[h Eh] Hw]. unfold try_cancel_load. rewrite Eh. eexists. split; [reflexivity|].
  apply inv_thread; [done|apply Hi|done| |].
  - destruct (Z.eqb_spec (state h) HRTIMER_INACTIVE) as [Ei|]; [destruct w; cbn; eauto 6|].
    destruct (state h =? HRTIMER_RUNNING); [destruct w; cbn; eauto|cbn; eauto].
  - intros y Hy. exists (Load t w). split; [done|]. revert Hy. destruct (state h =? HRTIMER_INACTIVE); [by destruct w|].
    destruct (state h =? HRTIMER_RUNNING); by destruct w.
Qed.

Lemma lock_ok x th t c w here :
  inv x -> thr x !! th = Some (Lock t c w) ->
  exists r, try_cancel_locked t c w here (hr x) = Some r /\ inv (Sys r.2 (<[th := r.1]> (thr x))) /\ fired r.2 = fired (hr x).
Proof.
  intros Hi Et. destruct (iv_pcs _ Hi _ _ Et) as [[h Eh] Hw]. unfold try_cancel_locked. rewrite Eh.
  assert (forall k, (forall y, starting y k = true -> starting y (Lock t c w) = true) ->
    forall y, starting y k = true -> exists k0, thr x !! th = Some k0 /\ starting y k0 = true) as Hst by eauto.
  destruct (Z.eqb_spec (state h) HRTIMER_QUEUED) as [Eq|]; cbn [andb]; [destruct (bool_decide_reflect (cpu h = c)) as [Ec|]|].
  - destruct (dequeue_hinv (hr x) t c h (iv_hr _ Hi) Eh Eq Ec) as (s' & E & Hs & Et' & Hh & Ef). rewrite E. eexists. split; [reflexivity|]. cbn [fst snd]. split; [|done].
    apply inv_thread; try done.
    + intros th' k' _ _. apply pc_ok_step; [rewrite Et'; intros; by apply insert_is_Some|]. intros y _. apply (idle_timer (hr x) s' t h (set_state HRTIMER_INACTIVE h) Eh); [by rewrite Eq|done|done].
    + assert (idle s' t) as Hidle.
      { split; [exists (set_state HRTIMER_INACTIVE h); by rewrite Et', lookup_insert_eq|]. intros c'. rewrite Hh. intros Hp.
        pose proof (co_pass _ _ (hi_cpu _ (iv_hr _ Hi) c')) as P. unfold pass_ok in P. rewrite Hp in P. destruct P as (h0 & E0 & E1 & _).
        rewrite Eh in E0. injection E0 as <-. by rewrite Eq in E1. }
      destruct w; cbn; done.
    + apply Hst. by destruct w.
  - eexists. split; [reflexivity|]. split; [|done]. apply inv_thread; [done|apply Hi|done|cbn; eauto|apply Hst; by destruct w].
  - eexists. split; [reflexivity|]. split; [|done]. apply inv_thread; [done|apply Hi|done|cbn; eauto|apply Hst; by destruct w].
Qed.

Lemma start_ok x th t e c :
  inv x -> thr x !! th = Some (Start t e c) ->
  exists s', hrtimer_start_locked t e c c (hr x) = Some s' /\ inv (Sys s' (<[th := Ready 0]> (thr x))) /\ fired s' = fired (hr x).
Proof.
  intros Hi Et. destruct (iv_pcs _ Hi _ _ Et) as (He & (h & Eh & Hs) & Hp).
  destruct (start_locked_ok (hr x) t e c h (iv_hr _ Hi) Eh Hs Hp He) as (s' & E & Hs' & Et' & Hh & Ef). exists s'. split; [done|]. split; [|done].
  apply inv_thread; try done. intros th' k' Hne E'. apply pc_ok_step; [rewrite Et'; intros; by apply insert_is_Some|].
  intros y Hy [(h0 & E0 & S0) Hp0]. split; [|intros c'; by rewrite Hh]. exists h0. rewrite Et', lookup_insert_ne; [done|]. intros ->.
  apply Hne. symmetry. apply (iv_one _ Hi y th th' _ _ Et E'); [cbn; apply Z.eqb_refl|]. destruct k'; try done. subst. cbn. apply Z.eqb_refl.
Qed.

(** A step that takes a timer takes the earliest one, when it is due. *)
Definition in_order (x x' : sys) : Prop :=
  fired (hr x') = fired (hr x) \/ exists c t h, fired (hr x') = fired (hr x) ++ [(t, expires_ns h, now (hr x))]
    /\ timers (hr x') !! t = Some h /\ cpu h = c /\ handler (bases (hr x') c) = Picked t
    /\ expires_ns h <= now (hr x) /\ before_all (hr x') c (expires_ns h).

Lemma picks_in_order s s' c :
  picks s s' c -> exists t h, fired s' = fired s ++ [(t, expires_ns h, now s)] /\ timers s' !! t = Some h /\ cpu h = c
    /\ handler (bases s' c) = Picked t /\ expires_ns h <= now s /\ before_all s' c (expires_ns h).
Proof.
  intros (n & h & En & Hq & Hc & He & Hb & Hh & Et & Ef). exists n, (set_state HRTIMER_INACTIVE h). split_and!; try done; [by rewrite Et, lookup_insert_eq|].
  intros t h'. rewrite Et, lookup_insert_Some. intros [[<- <-]|[_ E]]; [done|exact (Hb t h' E)].
Qed.

Lemma handler_step_ok x s s' c :
  inv x -> hinv s' -> (forall t, is_Some (timers (hr x) !! t) -> is_Some (timers s !! t)) -> (forall t, idle (hr x) t -> idle s t) ->
  now s = now (hr x) -> fired s = fired (hr x) -> elsewhere s s' c ->
  ((timers s' = timers s /\ fired s' = fired s /\ handler (bases s' c) = Out) \/ picks s s' c) ->
  inv (Sys s' (thr x)) /\ in_order x (Sys s' (thr x)).
Proof.
  intros Hi Hs Hk Hd En Ef Hel Hp. destruct (picks_keeps s s' c Hel Hp) as [K1 K2]. split; [apply inv_hr; auto|].
  destruct Hp as [(_ & E & _)|Hp]; [left; cbn; congruence|right]. destruct (picks_in_order s s' c Hp) as (t & h & F & ?). exists c, t, h.
  cbn. rewrite F, Ef, En in *. done.
Qed.

Lemma return_idle x s1 c t h' :
  inv x -> handler (bases (hr x) c) = Running t -> timers s1 = <[t := h']> (timers (hr x)) ->
  (forall c', handler (bases s1 c') = handler (bases (hr x) c')) -> forall y, idle (hr x) y -> idle s1 y.
Proof.
  intros Hi Hh Et Ho. pose proof (co_pass _ _ (hi_cpu _ (iv_hr _ Hi) c)) as P. unfold pass_ok in P. rewrite Hh in P.
  destruct P as (h & Eh & Es & _). apply (idle_timer (hr x) s1 t h h'); try done. by rewrite Es.
Qed.

Lemma hrtimerproofs_run_ok x th here :
  inv x -> can (ERun th here) x = true -> contract (ERun th here) x ->
  exists x', exec (ERun th here) x = Some x' /\ inv x' /\ in_order x x'.
Proof.
  intros Hi Hc Hk. cbn in *. destruct (thr x !! th) as [k|] eqn:Et; [|done]. destruct k as [r|t w|t c w|t e c]; [done|..].
  - destruct (load_ok x th t w here Hi Et Hk) as (k & E & H). rewrite E. eexists. split; [reflexivity|]. split; [done|by left].
  - destruct (lock_ok x th t c w here Hi Et) as (r & E & H & Ef). rewrite E. eexists. split; [reflexivity|]. split; [done|by left].
  - subst here. destruct (start_ok x th t e c Hi Et) as (s' & E & H & Ef). rewrite E. eexists. split; [reflexivity|]. split; [done|by left].
Qed.

Lemma hrtimerproofs_init_ok x t : inv x -> can (EInit t) x = true -> inv (Sys (hrtimer_init t (hr x)) (thr x)).
Proof.
  intros Hi Hc. cbn in Hc. rewrite !andb_true_iff, bool_decide_eq_true, Z.eqb_eq, !Z.ltb_lt in Hc. destruct Hc as [[[L1 L2] L3] En].
  destruct (iv_hr _ Hi) as [H1 H2 H3]. apply inv_hr; [done|split|..].
  - apply trees_ok_timer; [by rewrite En|done|done].
  - cbn. apply timers_insert; [done|done|cbn; lia].
  - intros c. pose proof (co_pass _ _ (H3 c)) as P. unfold pass_ok in P.
    apply (cpu_ok_timer (hr x) _ c t (HrTimer 0 HRTIMER_INACTIVE 0) (H3 c)); try done; intros Eh; rewrite Eh in P; destruct P as (h & E & _); congruence.
  - intros y Hy. cbn. by apply insert_is_Some.
  - intros y [(h & E & Hs) Hp]. split; [|done]. exists h. cbn. rewrite lookup_insert_ne; [done|]. congruence.
Qed.

Lemma call_ok x th t w : inv x -> can (ECall th t w) x = true -> contract (ECall th t w) x -> inv (goto th (Load t w) x).
Proof.
  intros Hi Hc Hk. cbn in Hc. rewrite !andb_true_iff, bool_decide_eq_true in Hc. destruct Hc as [[Hs Hth] Hw]. destruct Hi as [H1 H2 H3]. split; cbn; [done|..].
  - intros th' k'. rewrite lookup_insert_Some. intros [[<- <-]|[_ E]]; [|by eapply H2]. cbn. split; [done|]. destruct w; try done.
    unfold u64_ok in Hw. cbn. zbool. lia.
  - assert (forall y k0 th', starting y (Load t w) = true -> thr x !! th' = Some k0 -> starting y k0 = false) as Hn.
    { intros y k0 th' Hy E0. destruct w as [| |e]; try done. cbn in Hy. apply Z.eqb_eq in Hy as ->. cbn in Hk. by eapply Hk. }
    intros y th1 th2 k1 k2. rewrite !lookup_insert_Some. intros [[<- <-]|[N1 E1]] [[<- <-]|[N2 E2]] S1 S2; [done| | |by eapply H3].
    + by rewrite (Hn y k2 th2 S1 E2) in S2.
    + by rewrite (Hn y k1 th1 S2 E1) in S1.
Qed.

(** Changes that leave timers, trees, handlers and devices alone. *)
Lemma inv_inert x s' :
  inv x -> timers s' = timers (hr x) -> dev s' = dev (hr x) ->
  (forall c, exists r, bases s' c = HrtimerBase (tree_of (bases (hr x) c)) (rb_leftmost (bases (hr x) c)) (programmed (bases (hr x) c))
     (in_interrupt (bases (hr x) c)) r (handler (bases (hr x) c))) -> inv (Sys s' (thr x)).
Proof.
  intros Hi Et Ed Hb. destruct (iv_hr _ Hi) as [H1 H2 H3]. apply inv_hr; [done|split|by rewrite Et|].
  - apply (trees_ok_ext (hr x)); [done| |done]. intros c. by destruct (Hb c) as [r ->].
  - by rewrite Et.
  - intros c. destruct (H3 c) as [P1 P2 P3 P4]. destruct (Hb c) as [r E]. split; unfold pass_ok, before_all in *; by rewrite ?Et, ?Ed, E.
  - intros y [Hs Hp]. split; [by rewrite Et|]. intros c. destruct (Hb c) as [r ->]. apply Hp.
Qed.

Lemma hrtimerproofs_exec_ok x e :
  inv x -> can e x = true -> contract e x -> exists x', exec e x = Some x' /\ inv x' /\ in_order x x'.
Proof.
  intros Hi Hc Hk. destruct e as [t|th t w|th here|n|c|c|c e r|c].
  - eexists. split; [reflexivity|]. split; [by apply hrtimerproofs_init_ok|by left].
  - eexists. split; [reflexivity|]. split; [by apply call_ok|by left].
  - by apply hrtimerproofs_run_ok.
  - eexists. split; [reflexivity|]. split; [|by left]. apply inv_inert; try done. intros c. exists (resched (bases (hr x) c)). cbn. by destruct (bases (hr x) c).
  - cbn in *. apply andb_true_iff in Hc as [_ Hc]. destruct (handler (bases (hr x) c)) eqn:Eh; try done.
    destruct (interrupt_enter_ok (hr x) c (iv_hr _ Hi) Eh) as (s' & E & Hs & Hel & En & Hp). rewrite E. eexists. split; [reflexivity|].
    by apply (handler_step_ok x (hr x) s' c).
  - cbn in *. destruct (handler (bases (hr x) c)) as [|t|t] eqn:Eh; try done.
    destruct (callback_start_ok (hr x) c t (iv_hr _ Hi) Eh) as (s' & h & E & Hs & Hel & Eh' & Et & Et' & Ef). rewrite E. eexists. split; [reflexivity|].
    split; [|by left]. apply inv_hr; [done|done|rewrite Et'; intros; by apply insert_is_Some|]. intros y [(h0 & E0 & S0) Hp]. split.
    + exists h0. rewrite Et', lookup_insert_ne; [done|]. intros ->. by apply (Hp c).
    + intros c'. destruct (decide (c' = c)) as [->|Hne]; [by rewrite Eh'|by rewrite Hel].
  - cbn in *. apply andb_true_iff in Hc as [He Hc]. destruct (handler (bases (hr x) c)) as [|t|t] eqn:Eh; try done.
    destruct (callback_return_ok (hr x) c t e r (iv_hr _ Hi) Eh) as (s1 & s' & h' & E & Hs & Hel & En & Ef & Hh & Et & Hp); [unfold u64_ok in He; zbool; lia|].
    rewrite E. eexists. split; [reflexivity|]. apply (handler_step_ok x s1 s' c); try done; [rewrite Et; intros; by apply insert_is_Some|].
    by apply (return_idle x s1 c t h').
  - eexists. split; [reflexivity|]. split; [|by left]. apply inv_inert; try done. intros c'. cbn. destruct (decide (c' = c)) as [->|].
    + rewrite fn_lookup_insert. by exists true.
    + rewrite fn_lookup_insert_ne by done. exists (resched (bases (hr x) c')). by destruct (bases (hr x) c').
Qed.

Lemma hrtimerproofs_sys_init_ok : inv sys_init.
Proof.
  split; cbn; [split; cbn|intros th k E; by rewrite lookup_empty in E|intros t th1 th2 k1 k2 E; by rewrite lookup_empty in E].
  - intros c. exists []. split; [|done|constructor|].
    + exists Leaf. split; [|split; [repeat split; try done; by exists 0%nat|done]]. split; [done|done|constructor|constructor].
    + intros t. split; [by intros ?%elem_of_nil|]. intros (h & E & _). cbn in E. by rewrite lookup_empty in E.
  - intros t h E. by rewrite lookup_empty in E.
  - intros c. split; done.
Qed.

Lemma hr_reach_inv x : reach x -> inv x.
Proof.
  induction 1 as [|x e x' _ IH Hc Hk E]; [apply hrtimerproofs_sys_init_ok|]. destruct (hrtimerproofs_exec_ok x e IH Hc Hk) as (x2 & E2 & H & _). congruence.
Qed.

(** ** The claims *)

(** C19: Timers are armed.  Whatever the threads of all CPUs do, under the conditions on the
    callers no section follows a wild pointer, every tree holds exactly the timers queued on its
    CPU in the order of their expiries with the earliest at the cached pointer, and for every
    queued timer the device of its CPU is armed for its expiry or before, unless the handler of
    that CPU is in its pass, which ends by arming it. *)
Theorem hrtimer_armed x e :
  reach x -> can e x = true -> contract e x ->
  exists x', exec e x = Some x' /\ reach x'
    /\ (forall c, exists l, base_ok (timers (hr x')) c (bases (hr x') c) l)
    /\ forall t h, timers (hr x') !! t = Some h -> state h = HRTIMER_QUEUED ->
       handler (bases (hr x') (cpu h)) <> Out \/ dev (hr x') (cpu h) <= expires_ns h.
Proof.
  intros Hr Hc Hk. destruct (hrtimerproofs_exec_ok x e (hr_reach_inv x Hr) Hc Hk) as (x' & E & [[H1 H2 H3] _ _] & _). exists x'. split; [done|].
  split; [by eapply reach_step|]. split; [done|]. intros t h Et Hq. destruct (H3 (cpu h)) as [P1 P2 P3 P4].
  destruct (handler (bases (hr x') (cpu h))); [right; rewrite P2; by eapply P4|by left..].
Qed.

(** Callbacks are in time and in order.  A timer that a handler takes is due, and no timer
    queued on that CPU at that moment expires before it. *)
Theorem hrtimer_order x e x' t exp n :
  reach x -> can e x = true -> contract e x -> exec e x = Some x' -> fired (hr x') = fired (hr x) ++ [(t, exp, n)] ->
  exp <= n /\ n = now (hr x) /\ exists h, timers (hr x') !! t = Some h /\ expires_ns h = exp
    /\ handler (bases (hr x') (cpu h)) = Picked t
    /\ forall t' h', timers (hr x') !! t' = Some h' -> state h' = HRTIMER_QUEUED -> cpu h' = cpu h -> exp <= expires_ns h'.
Proof.
  intros Hr Hc Hk E Ef. destruct (hrtimerproofs_exec_ok x e (hr_reach_inv x Hr) Hc Hk) as (x2 & E2 & _ & Ho). rewrite E in E2. injection E2 as <-.
  destruct Ho as [Ho|(c & t0 & h & F & Et & <- & Hh & He & Hb)].
  - rewrite Ho in Ef. apply (f_equal length) in Ef. rewrite length_app in Ef. simpl in Ef. lia.
  - rewrite F in Ef. apply app_inv_head in Ef. injection Ef as -> <- <-. split; [done|]. split; [done|]. exists h. done.
Qed.

(** ** Where the conditions fail *)

(** hrtimer_cancel can return while the callback is about to run.  The handler of CPU 0 has
    taken the timer and has not yet stored RUNNING; the cancel on CPU 1 loads INACTIVE and
    returns 0, and then the callback runs on a timer whose owner was told that it cannot. *)
Theorem hrtimer_cancel_window :
  exists es x, run (es ++ [ECallback 0]) sys_init = Some x
    /\ (exists x1, run es sys_init = Some x1 /\ thr x1 !! 2%nat = Some (Ready 0))
    /\ thr x !! 2%nat = Some (Ready 0) /\ handler (bases (hr x) 0) = Running 64.
Proof.
  exists [EInit 64; ECall 1 64 (ForStart 100); ERun 1 0; ERun 1 0; ETick 100; EFire 0; ECall 2 64 ForCancel; ERun 2 1].
  eexists. split; [vm_compute; reflexivity|]. split; [|split; vm_compute; reflexivity]. eexists. split; vm_compute; reflexivity.
Qed.

(** Two starts of one timer on two CPUs, as two calls of mod_timer make them of the wheel's
    timer, put its one node into both trees. *)
Theorem hrtimer_double_start :
  exists es x, run es sys_init = Some x /\ rb_leftmost (bases (hr x) 0) = 64 /\ rb_leftmost (bases (hr x) 1) = 64.
Proof.
  exists [EInit 64; ECall 1 64 (ForStart 100); ECall 2 64 (ForStart 200); ERun 1 0; ERun 2 1; ERun 1 0; ERun 2 1].
  eexists. split; [vm_compute; reflexivity|]. split; vm_compute; reflexivity.
Qed.

(** A thread that moves to another CPU after [this_base] was evaluated queues the timer on the
    base of the old CPU and arms the device of the new one: the old CPU's device stays idle. *)
Theorem hrtimer_start_migrates :
  exists es x, run es sys_init = Some x /\ rb_leftmost (bases (hr x) 0) = 64 /\ dev (hr x) 0 = UINT64_MAX /\ dev (hr x) 1 = 100.
Proof.
  exists [EInit 64; ECall 1 64 (ForStart 100); ERun 1 0; ERun 1 1].
  eexists. split; [vm_compute; reflexivity|]. split_and!; vm_compute; reflexivity.
Qed.

(** Moving an expired timer on puts it after now, by whole intervals, and no further than one
    interval past now. *)
Lemma forward_now_ok e i n :
  0 <= e < W64 -> 0 < i -> 0 <= n -> n + i < W64 ->
  let e' := hrtimer_forward_now e i n in
  n < e' /\ (e <= n -> e' <= n + i /\ (e' - e) mod i = 0) /\ (n < e -> e' = e).
Proof.
  intros He Hi Hn Hw. unfold hrtimer_forward_now. destruct (Z.ltb_spec n e) as [Hlt|Hge]; [cbv zeta; lia|]. cbv zeta.
  rewrite (u64_small (n - e)) by lia. assert (0 <= (n - e) / i <= n - e) as Hq by (split; [apply Z.div_pos; lia|apply Z.div_le_upper_bound; nia]).
  pose proof (Z.div_mod (n - e) i) as Hd. pose proof (Z.mod_pos_bound (n - e) i Hi) as Hm. set (q := (n - e) / i) in *.
  rewrite (u64_small (q + 1)) by lia. rewrite u64_small by nia. split; [nia|]. split; [|lia]. intros _. split; [nia|].
  replace (e + (q + 1) * i - e) with ((q + 1) * i) by lia. apply Z.mod_mul. lia.
Qed.

(** ** Witnesses *)

Fixpoint contracts (es : list event) (x : sys) : Prop :=
  match es with [] => True | e :: es => contract e x /\ match exec e x with Some x => contracts es x | None => False end end.

Lemma run_reach es : forall x x', reach x -> contracts es x -> run es x = Some x' -> reach x'.
Proof.
  induction es as [|e es IH]; intros x x' Hr Hk E; cbn in *; [by simplify_eq|]. destruct (can e x) eqn:Ec; [|done]. destruct Hk as [Hk Hks].
  destruct (exec e x) as [x1|] eqn:E1; [|done]. apply (IH x1); [by eapply reach_step|done|done].
Qed.

(** A timer for time 100, and the clock at 100. *)
Definition demo_events : list event := [EInit 64; ECall 1 64 (ForStart 100); ERun 1 0; ERun 1 0; ETick 100].
Definition demo_x : sys := match run demo_events sys_init with Some x => x | None => sys_init end.

Lemma demo_x_reach : reach demo_x.
Proof.
  apply (run_reach demo_events sys_init); [constructor| |vm_compute; reflexivity].
  split; [exact Logic.I|]. split; [intros th' k E; cbn in E; by rewrite lookup_empty in E|]. split; [vm_compute; intros c; discriminate|].
  vm_compute. done.
Qed.

Lemma hrtimer_armed_witness : exists x', exec (EFire 0) demo_x = Some x' /\ reach x'.
Proof. destruct (hrtimer_armed demo_x (EFire 0) demo_x_reach) as (x' & E & H & _); [vm_compute; reflexivity|exact Logic.I|]. by exists x'. Defined.

Lemma hrtimer_order_witness : exists x', exec (EFire 0) demo_x = Some x' /\ handler (bases (hr x') 0) = Picked 64 /\ 100 <= 100.
Proof.
  eexists. split; [vm_compute; reflexivity|]. split; [vm_compute; reflexivity|].
  eapply (hrtimer_order demo_x (EFire 0) _ 64 100 100 demo_x_reach); [vm_compute; reflexivity|exact Logic.I|vm_compute; reflexivity|vm_compute; reflexivity].
Defined.
