(* ===== verification/Fair.v ===== *)
(** * The fair scheduling class (kernel/sched/fair.c, sched_entity.h, sched_prio.c, rq.h)

    EEVDF: the runnable entities of a CPU sit in a red-black tree ordered by virtual
    deadline, augmented with the least virtual run time of every subtree.  The functions
    run under [rq->lock], so each is one atomic program of the tree's state monad, with
    the entities and the fields of [struct cfs_rq] as the memory of its user.

    [run_node] is the first field of [struct sched_entity], so a node and its entity have
    one address, and [se_of_node] and [task_of] are the identity here.  Signed products
    and sums are written with the wrap of the machine instruction.  The proofs are in
    FairProofs.v. *)

From stdpp Require Import base numbers list gmap.
From S2P Require Import Prelude RbTree.

Abbreviation SCHED_NORMAL := 0.
Abbreviation SCHED_BATCH := 3.
Abbreviation SCHED_IDLE := 5.
Abbreviation NICE_0_WEIGHT := 1024.
Abbreviation WEIGHT_IDLEPRIO := 3.
Abbreviation SCHED_BASE_SLICE_NS := 700000.
Abbreviation SCHED_MIN_PREEMPT_NS := 100000.
Abbreviation SCHED_HOUSEKEEPING_NS := 10000000.

Record sched_entity := SE {
  weight : Z;
  inv_weight : Z;
  vruntime : Z;
  vlag : Z;
  slice : Z;
  deadline : Z;
  min_vruntime : Z;
  on_rq : bool;
  policy : Z;
  nice : Z;
  exec_start : Z;
  sum_exec_runtime : Z;
  prev_sum_exec_runtime : Z;
}.

(** [struct cfs_rq], the clock of the [struct rq] around it, and the entities. *)
Record cfs_rq := CfsRq {
  ents : gmap Z sched_entity;
  rb_leftmost : Z;
  nr_running : Z;
  cfs_min_vruntime : Z;
  cfs_avg_vruntime : Z;
  avg_load : Z;
  curr : Z;
  clock_task : Z;
}.

Notation F := (M cfs_rq).

(** ** Fields *)

Definition set_weights (w i : Z) (s : sched_entity) : sched_entity :=
  SE w i (vruntime s) (vlag s) (slice s) (deadline s) (min_vruntime s) (on_rq s) (policy s) (nice s)
     (exec_start s) (sum_exec_runtime s) (prev_sum_exec_runtime s).
Definition set_vruntime (v : Z) (s : sched_entity) : sched_entity :=
  SE (weight s) (inv_weight s) v (vlag s) (slice s) (deadline s) (min_vruntime s) (on_rq s) (policy s) (nice s)
     (exec_start s) (sum_exec_runtime s) (prev_sum_exec_runtime s).
Definition set_vlag (v : Z) (s : sched_entity) : sched_entity :=
  SE (weight s) (inv_weight s) (vruntime s) v (slice s) (deadline s) (min_vruntime s) (on_rq s) (policy s) (nice s)
     (exec_start s) (sum_exec_runtime s) (prev_sum_exec_runtime s).
Definition set_slice (v : Z) (s : sched_entity) : sched_entity :=
  SE (weight s) (inv_weight s) (vruntime s) (vlag s) v (deadline s) (min_vruntime s) (on_rq s) (policy s) (nice s)
     (exec_start s) (sum_exec_runtime s) (prev_sum_exec_runtime s).
Definition set_deadline (v : Z) (s : sched_entity) : sched_entity :=
  SE (weight s) (inv_weight s) (vruntime s) (vlag s) (slice s) v (min_vruntime s) (on_rq s) (policy s) (nice s)
     (exec_start s) (sum_exec_runtime s) (prev_sum_exec_runtime s).
Definition set_min_vruntime (v : Z) (s : sched_entity) : sched_entity :=
  SE (weight s) (inv_weight s) (vruntime s) (vlag s) (slice s) (deadline s) v (on_rq s) (policy s) (nice s)
     (exec_start s) (sum_exec_runtime s) (prev_sum_exec_runtime s).
Definition set_on_rq (v : bool) (s : sched_entity) : sched_entity :=
  SE (weight s) (inv_weight s) (vruntime s) (vlag s) (slice s) (deadline s) (min_vruntime s) v (policy s) (nice s)
     (exec_start s) (sum_exec_runtime s) (prev_sum_exec_runtime s).
Definition set_policy_nice (p n : Z) (s : sched_entity) : sched_entity :=
  SE (weight s) (inv_weight s) (vruntime s) (vlag s) (slice s) (deadline s) (min_vruntime s) (on_rq s) p n
     (exec_start s) (sum_exec_runtime s) (prev_sum_exec_runtime s).
Definition set_exec (start sum prev : Z) (s : sched_entity) : sched_entity :=
  SE (weight s) (inv_weight s) (vruntime s) (vlag s) (slice s) (deadline s) (min_vruntime s) (on_rq s) (policy s) (nice s)
     start sum prev.

Definition set_ents (m : gmap Z sched_entity) (c : cfs_rq) : cfs_rq :=
  CfsRq m (rb_leftmost c) (nr_running c) (cfs_min_vruntime c) (cfs_avg_vruntime c) (avg_load c) (curr c) (clock_task c).
Definition set_leftmost (l : Z) (c : cfs_rq) : cfs_rq :=
  CfsRq (ents c) l (nr_running c) (cfs_min_vruntime c) (cfs_avg_vruntime c) (avg_load c) (curr c) (clock_task c).
Definition set_nr_running (n : Z) (c : cfs_rq) : cfs_rq :=
  CfsRq (ents c) (rb_leftmost c) n (cfs_min_vruntime c) (cfs_avg_vruntime c) (avg_load c) (curr c) (clock_task c).
Definition set_sums (mv av al : Z) (c : cfs_rq) : cfs_rq :=
  CfsRq (ents c) (rb_leftmost c) (nr_running c) mv av al (curr c) (clock_task c).
Definition set_curr (p : Z) (c : cfs_rq) : cfs_rq :=
  CfsRq (ents c) (rb_leftmost c) (nr_running c) (cfs_min_vruntime c) (cfs_avg_vruntime c) (avg_load c) p (clock_task c).
Definition set_clock (t : Z) (c : cfs_rq) : cfs_rq :=
  CfsRq (ents c) (rb_leftmost c) (nr_running c) (cfs_min_vruntime c) (cfs_avg_vruntime c) (avg_load c) (curr c) t.

Definition cfs : F cfs_rq := fun st => Some (aux st, st).
Definition upd_cfs (f : cfs_rq -> cfs_rq) : F unit := fun st => Some (tt, RbSt (nodes st) (root st) (f (aux st))).
Definition ent (a : Z) : F sched_entity := fun st => match ents (aux st) !! a with Some s => Some (s, st) | None => None end.
Definition upd_ent (a : Z) (f : sched_entity -> sched_entity) : F unit :=
  s <- ent a ;; upd_cfs (fun c => set_ents (<[a := f s]> (ents c)) c).

(** ** Weights (sched_prio.c, sched_entity.h) *)

Definition sched_prio_to_weight : list Z :=
  [88761; 71755; 56483; 46273; 36291;
   29154; 23254; 18705; 14949; 11916;
   9548; 7620; 6100; 4904; 3906;
   3121; 2501; 1991; 1586; 1277;
   1024; 820; 655; 526; 423;
   335; 272; 215; 172; 137;
   110; 87; 70; 56; 45;
   36; 29; 23; 18; 15].

Definition sched_prio_to_wmult : list Z :=
  [48388; 59856; 76040; 92818; 118348;
   147320; 184698; 229616; 287308; 360437;
   449829; 563644; 704093; 875809; 1099582;
   1376151; 1717300; 2157191; 2708050; 3363326;
   4194304; 5237765; 6557202; 8165337; 10153587;
   12820798; 15790321; 19976592; 24970740; 31350126;
   39045157; 49367440; 61356676; 76695844; 95443717;
   119304647; 148102320; 186737708; 238609294; 286331153].

Definition nice_to_index (nice : Z) : Z :=
  let nice := if nice <? -20 then -20 else nice in
  let nice := if 19 <? nice then 19 else nice in
  nice + 20.

Definition set_load_weight (nice : Z) (se : sched_entity) : sched_entity :=
  if policy se =? SCHED_IDLE then set_weights WEIGHT_IDLEPRIO (u32 (2 ^ 32 / WEIGHT_IDLEPRIO)) se
  else
    let idx := nice_to_index nice in
    set_weights (zget 0 sched_prio_to_weight idx) (zget 0 sched_prio_to_wmult idx) se.

Definition vtime_before (a b : Z) : bool := i64 (u64 (a - b)) <? 0.
Definition vtime_min (a b : Z) : Z := if vtime_before a b then a else b.

Definition slice_of (se : sched_entity) : Z := if ctrue (slice se) then slice se else SCHED_BASE_SLICE_NS.

Definition calc_delta_fair (delta_exec : Z) (se : sched_entity) : Z :=
  if weight se =? NICE_0_WEIGHT then delta_exec
  else
    let p := (delta_exec * NICE_0_WEIGHT) mod 2 ^ 128 in
    let p := Z.shiftr ((p * inv_weight se) mod 2 ^ 128) 32 in
    u64 p.

Definition sld (w : Z) : Z := w.

(** ** The sums *)

Definition entity_key (c : cfs_rq) (se : sched_entity) : Z := i64 (u64 (vruntime se - cfs_min_vruntime c)).

Definition avg_vruntime_add (se : sched_entity) (c : cfs_rq) : cfs_rq :=
  let w := sld (weight se) in
  set_sums (cfs_min_vruntime c) (i64 (cfs_avg_vruntime c + entity_key c se * i64 w)) (u64 (avg_load c + w)) c.
Definition avg_vruntime_sub (se : sched_entity) (c : cfs_rq) : cfs_rq :=
  let w := sld (weight se) in
  set_sums (cfs_min_vruntime c) (i64 (cfs_avg_vruntime c - entity_key c se * i64 w)) (u64 (avg_load c - w)) c.
Definition avg_vruntime_shift (delta : Z) (c : cfs_rq) : cfs_rq :=
  set_sums (cfs_min_vruntime c) (i64 (cfs_avg_vruntime c - i64 (avg_load c) * delta)) (avg_load c) c.

(** The sums with the running entity, which is not in the tree, added. *)
Definition live_sums : F (Z * Z) :=
  c <- cfs ;;
  let avg := cfs_avg_vruntime c in
  let load := i64 (avg_load c) in
  if nonnull (curr c) then
    cu <- ent (curr c) ;;
    if on_rq cu then
      let w := sld (weight cu) in
      ret (i64 (avg + entity_key c cu * i64 w), i64 (load + i64 w))
    else ret (avg, load)
  else ret (avg, load).

Definition avg_vruntime : F Z :=
  c <- cfs ;;
  s <- live_sums ;;
  let '(avg, load) := s in
  if load <=? 0 then ret (cfs_min_vruntime c)
  else
    let avg := if avg <? 0 then i64 (avg - (load - 1)) else avg in
    ret (u64 (cfs_min_vruntime c + u64 (Z.quot avg load))).

Definition vruntime_eligible (v : Z) : F bool :=
  c <- cfs ;;
  s <- live_sums ;;
  let '(avg, load) := s in
  let key := i64 (u64 (v - cfs_min_vruntime c)) in
  ret (i64 (key * load) <=? avg).

Definition entity_eligible (se : Z) : F bool := s <- ent se ;; vruntime_eligible (vruntime s).

(** ** The augmentation *)

(** [m] and the aggregate of the child [n], if there is one. *)
Definition child_min (m n : Z) : F Z :=
  if nonnull n then s <- ent n ;; ret (vtime_min m (min_vruntime s)) else ret m.

Definition node_min_vruntime (n : Z) : F Z :=
  s <- ent n ;;
  l <- child L n ;;
  m <- child_min (vruntime s) l ;;
  r <- child R n ;;
  child_min m r.

Fixpoint mv_propagate_loop (fuel : nat) (node stop : Z) : F unit :=
  if node =? stop then skip
  else
    match fuel with
    | O => fun _ => None
    | S fuel =>
      se <- ent node ;;
      m <- node_min_vruntime node ;;
      if min_vruntime se =? m then skip
      else
        upd_ent node (set_min_vruntime m) ;;;
        p <- parent_of node ;;
        mv_propagate_loop fuel p stop
    end.
Definition mv_propagate (node stop : Z) : F unit := fun st => mv_propagate_loop (S (size (nodes st))) node stop st.

Definition mv_copy (old newn : Z) : F unit :=
  o <- ent old ;; upd_ent newn (set_min_vruntime (min_vruntime o)).
Definition mv_rotate (old newn : Z) : F unit :=
  mv_copy old newn ;;;
  m <- node_min_vruntime old ;;
  upd_ent old (set_min_vruntime m).
Definition min_vruntime_cb : rb_augment_callbacks cfs_rq := RbAugment mv_propagate mv_copy mv_rotate.

(** ** The floor of virtual time *)

Definition pick_root_entity : F Z := get_root.
Definition pick_first_entity : F Z := c <- cfs ;; ret (rb_leftmost c).

Definition update_min_vruntime : F unit :=
  rt <- pick_root_entity ;;
  c <- cfs ;;
  cu <- (if nonnull (curr c) then s <- ent (curr c) ;; ret (if on_rq s then Some s else None) else ret None) ;;
  v <- match cu with
       | Some s =>
         if nonnull rt then r <- ent rt ;; ret (vtime_min (vruntime s) (min_vruntime r)) else ret (vruntime s)
       | None => if nonnull rt then r <- ent rt ;; ret (min_vruntime r) else ret (cfs_min_vruntime c)
       end ;;
  let delta := i64 (u64 (v - cfs_min_vruntime c)) in
  if 0 <? delta then
    upd_cfs (fun c => let c := avg_vruntime_shift delta c in set_sums v (cfs_avg_vruntime c) (avg_load c) c)
  else skip.

(** ** The tree *)

Definition deadline_less (a b : sched_entity) : bool := vtime_before (deadline a) (deadline b).

(** Where a new entity goes: the parent, the side under it, and whether every step was to
    the left. *)
Fixpoint find_link (fuel : nat) (se : sched_entity) (link parent : Z) (slot : option dir) (leftmost : bool)
  : F (Z * option dir * bool) :=
  if nonnull link then
    match fuel with
    | O => fun _ => None
    | S fuel =>
      p <- ent link ;;
      if deadline_less se p then c <- child L link ;; find_link fuel se c link (Some L) leftmost
      else c <- child R link ;; find_link fuel se c link (Some R) false
    end
  else ret (parent, slot, leftmost).

Definition __enqueue_entity (se : Z) : F unit :=
  s <- ent se ;;
  upd_cfs (avg_vruntime_add s) ;;;
  upd_ent se (set_min_vruntime (vruntime s)) ;;;
  rt <- get_root ;;
  w <- (fun st => find_link (S (size (nodes st))) s rt 0 None true st) ;;
  let '(parent, slot, leftmost) := w in
  rb_link_node se parent slot ;;;
  c <- cfs ;;
  lm <- rb_insert_augmented_cached (Some min_vruntime_cb) se (rb_leftmost c) leftmost ;;
  upd_cfs (set_leftmost lm).

Definition __dequeue_entity (se : Z) : F unit :=
  c <- cfs ;;
  lm <- rb_erase_augmented_cached (Some min_vruntime_cb) se (rb_leftmost c) ;;
  upd_cfs (set_leftmost lm) ;;;
  s <- ent se ;;
  upd_cfs (avg_vruntime_sub s).

(** ** Accounting, deadlines, placement *)

Definition update_deadline (se : sched_entity) : sched_entity :=
  if i64 (u64 (vruntime se - deadline se)) <? 0 then se
  else
    let se := set_slice (slice_of se) se in
    set_deadline (u64 (vruntime se + calc_delta_fair (slice se) se)) se.

Definition update_curr : F unit :=
  c <- cfs ;;
  if nonnull (curr c) then
    cu <- ent (curr c) ;;
    let now := clock_task c in
    if now <=? exec_start cu then upd_ent (curr c) (set_exec now (sum_exec_runtime cu) (prev_sum_exec_runtime cu))
    else
      let delta := u64 (now - exec_start cu) in
      upd_ent (curr c) (set_exec now (u64 (sum_exec_runtime cu + delta)) (prev_sum_exec_runtime cu)) ;;;
      upd_ent (curr c) (set_vruntime (u64 (vruntime cu + calc_delta_fair delta cu))) ;;;
      upd_ent (curr c) update_deadline ;;;
      update_min_vruntime
  else skip.

(** The bound on the lag an entity carries. *)
Definition lag_limit (se : sched_entity) : Z :=
  let twoslc := u64 (2 * slice_of se) in
  let base := if 10000000 <? twoslc then twoslc else 10000000 in
  i64 (calc_delta_fair base se).

Definition clamp_lag (lag limit : Z) : Z :=
  let lag := if limit <? lag then limit else lag in
  if lag <? - limit then - limit else lag.

Definition update_entity_lag (se : Z) : F unit :=
  s <- ent se ;;
  v <- avg_vruntime ;;
  upd_ent se (set_vlag (clamp_lag (i64 (u64 (v - vruntime s))) (lag_limit s))).

Definition place_entity (se : Z) (initial : bool) : F unit :=
  v <- avg_vruntime ;;
  s <- ent se ;;
  c <- cfs ;;
  let vslice := calc_delta_fair (slice_of s) s in
  lag <- (if ctrue (nr_running c) && ctrue (vlag s) then
            let l := clamp_lag (vlag s) (lag_limit s) in
            let w0 := i64 (avg_load c) in
            w0 <- (if nonnull (curr c) then
                     cu <- ent (curr c) ;; ret (if on_rq cu then i64 (w0 + i64 (sld (weight cu))) else w0)
                   else ret w0) ;;
            let w0 := if w0 <? 1 then 1 else w0 in
            ret (Z.quot (i64 (l * i64 (w0 + i64 (sld (weight s))))) w0)
          else ret 0) ;;
  upd_ent se (set_vruntime (u64 (v - u64 lag))) ;;;
  let vslice := if initial then vslice / 2 else vslice in
  upd_ent se (fun s => set_deadline (u64 (vruntime s + vslice)) s) ;;;
  upd_ent se (set_vlag 0).

(** ** Picking *)

(** The search from [node]; 0: no eligible entity. *)
Fixpoint pick_loop (fuel : nat) (node : Z) : F Z :=
  if nonnull node then
    match fuel with
    | O => fun _ => None
    | S fuel =>
      left <- child L node ;;
      go <- (if nonnull left then l <- ent left ;; vruntime_eligible (min_vruntime l) else ret false) ;;
      if go then pick_loop fuel left
      else
        e <- entity_eligible node ;;
        if e then ret node
        else r <- child R node ;; pick_loop fuel r
    end
  else ret 0.

(** The label [done]: the running entity wins with an earlier deadline or no competitor. *)
Definition pick_done (cu best first : Z) : F Z :=
  best <- (if best =? 0 then ret cu
           else if nonnull cu then
             c <- ent cu ;; b <- ent best ;;
             ret (if vtime_before (deadline c) (deadline b) then cu else best)
           else ret best) ;;
  ret (if best =? 0 then first else best).

Definition pick_eevdf : F Z :=
  node <- get_root ;;
  c <- cfs ;;
  let cu := curr c in
  first <- pick_first_entity ;;
  run <- (if nonnull cu then s <- ent cu ;; ret (on_rq s) else ret false) ;;
  if nr_running c =? 1 then ret (if run then cu else first)
  else
    el <- (if run then entity_eligible cu else ret false) ;;
    let cu := if el then cu else 0 in
    fe <- (if nonnull first then entity_eligible first else ret false) ;;
    if fe then pick_done cu first first
    else
      best <- (fun st => pick_loop (S (size (nodes st))) node st) ;;
      pick_done cu best first.

(** ** The class hooks *)

Definition enqueue_entity (se : Z) : F unit :=
  update_curr ;;;
  upd_ent se (fun s => set_load_weight (nice s) s) ;;;
  s <- ent se ;;
  place_entity se (sum_exec_runtime s =? 0) ;;;
  __enqueue_entity se ;;;
  upd_ent se (set_on_rq true) ;;;
  upd_cfs (fun c => set_nr_running (u32 (nr_running c + 1)) c).

Definition dequeue_entity (se : Z) : F unit :=
  update_curr ;;;
  update_entity_lag se ;;;
  c <- cfs ;;
  (if se =? curr c then upd_cfs (set_curr 0) else __dequeue_entity se) ;;;
  upd_ent se (set_on_rq false) ;;;
  upd_cfs (fun c => set_nr_running (u32 (nr_running c - 1)) c) ;;;
  update_min_vruntime.

Definition set_next_entity (se : Z) : F unit :=
  s <- ent se ;;
  c <- cfs ;;
  when (on_rq s && negb (se =? curr c)) (__dequeue_entity se) ;;;
  upd_ent se (fun s => set_exec (exec_start s) (sum_exec_runtime s) (sum_exec_runtime s) s) ;;;
  upd_cfs (set_curr se).

Definition put_prev_entity (se : Z) : F unit :=
  update_curr ;;;
  s <- ent se ;;
  when (on_rq s) (__enqueue_entity se) ;;;
  c <- cfs ;;
  when (curr c =? se) (upd_cfs (set_curr 0)).

Definition cfs_rq_init : F unit :=
  set_root 0 ;;;
  upd_cfs (fun c => CfsRq (ents c) 0 0 0 0 0 0 (clock_task c)).

Definition fair_enqueue (t : Z) : F unit := enqueue_entity t.

Definition fair_pick : F Z :=
  update_curr ;;;
  c <- cfs ;;
  if nr_running c =? 0 then when (nonnull (curr c)) (upd_cfs (set_curr 0)) ;;; ret 0
  else
    se <- pick_eevdf ;;
    if se =? 0 then ret 0
    else
      c <- cfs ;;
      when (negb (se =? curr c)) (set_next_entity se) ;;;
      upd_ent se (fun s => set_exec (clock_task c) (sum_exec_runtime s) (prev_sum_exec_runtime s) s) ;;;
      ret se.

Definition fair_block_current (prev : Z) : F unit := dequeue_entity prev.
Definition fair_requeue_preempted (prev : Z) : F unit := put_prev_entity prev.

(** [now]: what the monotonic clock answers to [rq_clock_update]. *)
Definition fair_steal (now : Z) : F Z :=
  se <- pick_first_entity ;;
  if se =? 0 then ret 0
  else
    upd_cfs (set_clock now) ;;;
    dequeue_entity se ;;;
    ret se.

Definition fair_accept_stolen (t : Z) : F unit := enqueue_entity t.

Definition fair_entity_tick : F bool :=
  update_curr ;;;
  c <- cfs ;;
  if (curr c =? 0) || (nr_running c <=? 1) then ret false
  else
    cu <- ent (curr c) ;;
    let ran := u64 (sum_exec_runtime cu - prev_sum_exec_runtime cu) in
    if slice_of cu <=? ran then ret true
    else if ran <? SCHED_MIN_PREEMPT_NS then ret false
    else
      first <- pick_eevdf ;;
      if (first =? 0) || (first =? curr c) then ret false
      else
        f <- ent first ;;
        ret (vtime_before (deadline f) (deadline cu)).

Definition fair_reweight_current (n p slice_ns : Z) : F unit :=
  c <- cfs ;;
  if curr c =? 0 then skip
  else
    update_curr ;;;
    upd_ent (curr c) (set_policy_nice p n) ;;;
    when (negb (slice_ns =? UINT64_MAX)) (upd_ent (curr c) (set_slice slice_ns)) ;;;
    upd_ent (curr c) (set_load_weight n) ;;;
    upd_ent (curr c) (fun s => set_deadline (u64 (vruntime s + calc_delta_fair (slice_of s) s)) s).

Definition fair_yield_current : F unit :=
  c <- cfs ;;
  if curr c =? 0 then skip
  else
    update_curr ;;;
    s <- ent (curr c) ;;
    let vslice := calc_delta_fair (slice_of s) s in
    upd_ent (curr c) (set_vruntime (u64 (vruntime s + vslice))) ;;;
    upd_ent (curr c) (fun s => set_deadline (u64 (vruntime s + vslice)) s) ;;;
    update_min_vruntime.

Definition fair_slice_remaining_ns : F Z :=
  c <- cfs ;;
  if (curr c =? 0) || (nr_running c <=? 1) then ret SCHED_HOUSEKEEPING_NS
  else
    cu <- ent (curr c) ;;
    let ran := u64 (sum_exec_runtime cu - prev_sum_exec_runtime cu) in
    let sl := slice_of cu in
    if sl <=? ran then ret SCHED_MIN_PREEMPT_NS else ret (u64 (sl - ran)).
