(* ===== verification/FairProofs.v ===== *)
(** * The fair scheduling class: proofs

    The tree callbacks never fail on a run queue and change aggregates only; the
    aggregates stay exact under insertion; the sums stay exact under every hook; the pick
    returns the eligible entity with the earliest deadline. *)

From stdpp Require Import base numbers list gmap sorting.
From S2P Require Import Prelude RbTree RbSpec RbProofs RbTheorems Fair.

Implicit Types (st : rbst cfs_rq) (c : cfs_rq) (s : sched_entity).

(** ** Running the programs *)

Definition with_aux st c : rbst cfs_rq := RbSt (nodes st) (root st) c.

Lemma ent_ok st a s : ents (aux st) !! a = Some s -> ent a st = Some (s, st).
Proof. unfold ent. by intros ->. Qed.

Lemma upd_ent_ok st a s f :
  ents (aux st) !! a = Some s ->
  upd_ent a f st = Some (tt, with_aux st (set_ents (<[a := f s]> (ents (aux st))) (aux st))).
Proof. intros H. unfold upd_ent. by step (ent_ok _ _ _ H). Qed.

Lemma set_ents_id c : set_ents (ents c) c = c.
Proof. by destruct c. Qed.

Lemma zrep_aux st c ctx t : zrep st ctx t -> zrep (with_aux st c) ctx t.
Proof. by apply zrep_same. Qed.

(** ** Only aggregates change *)

Definition same_but_agg (m m' : gmap Z sched_entity) : Prop :=
  forall a, set_min_vruntime 0 <$> m' !! a = set_min_vruntime 0 <$> m !! a.

Definition agg_only c c' : Prop := exists m, c' = set_ents m c /\ same_but_agg (ents c) m.

Lemma agg_only_refl c : agg_only c c.
Proof. exists (ents c). by rewrite set_ents_id. Qed.

Lemma agg_only_trans c1 c2 c3 : agg_only c1 c2 -> agg_only c2 c3 -> agg_only c1 c3.
Proof. intros (m & -> & H1) (m' & -> & H2). exists m'. split; [done|]. intros a. rewrite (H2 a). apply H1. Qed.

Definition live c (a : Z) : Prop := is_Some (ents c !! a).

Lemma agg_only_live c c' a : agg_only c c' -> live c a <-> live c' a.
Proof.
  intros (m & -> & H). unfold live. cbn [ents set_ents]. specialize (H a).
  destruct (m !! a), (ents c !! a); try done; split; intros [? ?]; eauto.
Qed.

Lemma agg_only_upd c a s v :
  ents c !! a = Some s -> agg_only c (set_ents (<[a := set_min_vruntime v s]> (ents c)) c).
Proof.
  intros E. eexists. split; [done|]. intros x. destruct (decide (x = a)) as [->|].
  - by rewrite lookup_insert_eq, E.
  - by rewrite lookup_insert_ne.
Qed.

(** An entity's fields but the aggregate survive. *)
Lemma agg_only_ent c c' a s :
  agg_only c c' -> ents c !! a = Some s -> exists v, ents c' !! a = Some (set_min_vruntime v s).
Proof.
  intros (m & -> & H) E. specialize (H a). rewrite E in H. cbn [ents set_ents]. destruct (m !! a) as [s'|]; [|done].
  exists (min_vruntime s'). f_equal. simpl in H. destruct s, s'. unfold set_min_vruntime in *. simpl in *. congruence.
Qed.

(** ** The recomputed aggregate of a node *)

Definition vr c a : Z := match ents c !! a with Some s => vruntime s | None => 0 end.
Definition mv c a : Z := match ents c !! a with Some s => min_vruntime s | None => 0 end.

Definition tmin c m (t : tree) : Z := match t with Leaf => m | Node _ _ x _ => vtime_min m (mv c x) end.
Definition nmin c a l r : Z := tmin c (tmin c (vr c a) l) r.

Lemma child_min_ok st m t :
  Forall okaddr (addrs t) -> (forall x, x ∈ addrs t -> live (aux st) x) ->
  child_min m (ptr t) st = Some (tmin (aux st) m t, st).
Proof.
  intros Ho Hl. destruct t as [|b l a r]; [done|]. unfold child_min, nonnull. cbn [ptr tmin].
  rewrite (proj2 (Z.eqb_neq a 0)); [|simpl in Ho; apply Forall_app in Ho as [_ [[? _] _]%Forall_cons]; lia]. cbn [negb].
  destruct (Hl a) as [s E]; [simpl; rewrite elem_of_app, elem_of_cons; auto|]. step (ent_ok _ _ _ E). unfold mv. by rewrite E.
Qed.

Lemma node_min_ok st ctx b l a r :
  zrep st ctx (Node b l a r) -> (forall x, x ∈ addrs (Node b l a r) -> live (aux st) x) ->
  node_min_vruntime a st = Some (nmin (aux st) a l r, st).
Proof.
  intros Hz Hl. pose proof (zr_tree _ _ _ Hz) as (E & _ & _). pose proof (zr_ok _ _ _ Hz) as [_ Ho]%Forall_app.
  simpl in Ho. apply Forall_app in Ho as [Ol [_ Or]%Forall_cons].
  destruct (Hl a) as [s Es]; [simpl; rewrite elem_of_app, elem_of_cons; auto|]. unfold node_min_vruntime.
  step (ent_ok _ _ _ Es). step (child_ok st L _ _ E). cbn [kid rb_left].
  assert (child_min (vruntime s) (ptr l) st = Some (tmin (aux st) (vr (aux st) a) l, st)) as E1.
  { unfold vr. rewrite Es. apply child_min_ok; [done|]. intros x Hx. apply Hl. simpl. rewrite elem_of_app. auto. }
  step E1. step (child_ok st R _ _ E). cbn [kid rb_right]. apply child_min_ok; [done|].
  intros x Hx. apply Hl. simpl. rewrite elem_of_app, elem_of_cons. auto.
Qed.

(** ** The callbacks on a run queue *)

Lemma mv_copy_ok st a b :
  live (aux st) a -> live (aux st) b ->
  exists c', mv_copy a b st = Some (tt, with_aux st c') /\ agg_only (aux st) c'
    /\ (forall x, mv c' x = if decide (x = b) then mv (aux st) a else mv (aux st) x).
Proof.
  intros [s Ea] [s' Eb]. unfold mv_copy. step (ent_ok _ _ _ Ea). rewrite (upd_ent_ok _ _ _ _ Eb). eexists. split; [reflexivity|].
  split; [by apply agg_only_upd|]. intros x. unfold mv. cbn [ents set_ents]. rewrite Ea. destruct (decide (x = b)) as [->|].
  - by rewrite lookup_insert_eq.
  - by rewrite lookup_insert_ne.
Qed.

Lemma upd_min_ok st a v :
  live (aux st) a ->
  exists c', upd_ent a (set_min_vruntime v) st = Some (tt, with_aux st c') /\ agg_only (aux st) c'
    /\ (forall x, mv c' x = if decide (x = a) then v else mv (aux st) x).
Proof.
  intros [s Ea]. rewrite (upd_ent_ok _ _ _ _ Ea). eexists. split; [reflexivity|].
  split; [by apply agg_only_upd|]. intros x. unfold mv. cbn [ents set_ents]. destruct (decide (x = a)) as [->|].
  - by rewrite lookup_insert_eq.
  - by rewrite lookup_insert_ne.
Qed.

Lemma vr_agg c c' a : agg_only c c' -> vr c' a = vr c a.
Proof. intros (m & -> & H). unfold vr. cbn [ents set_ents]. specialize (H a). destruct (m !! a), (ents c !! a); simplify_eq/=; congruence. Qed.

Lemma mv_rotate_ok st ctx d b x a bp i p o :
  zrep st ctx (mk d bp (mk d b x a i) p o) ->
  (forall z, z ∈ addrs (plug ctx (mk d bp (mk d b x a i) p o)) -> live (aux st) z) ->
  exists c', mv_rotate a p st = Some (tt, with_aux st c') /\ agg_only (aux st) c'
    /\ (forall z, mv c' z = if decide (z = a) then nmin (aux st) a (if d then x else i) (if d then i else x)
                            else if decide (z = p) then mv (aux st) a else mv (aux st) z).
Proof.
  intros Hz Hl. assert (forall z, z = p \/ z ∈ addrs (mk d b x a i) -> live (aux st) z) as Hl'.
  { intros z Hin. apply Hl. rewrite addrs_plug, !elem_of_app. right. left. rewrite (addrs_mk d bp), elem_of_cons, elem_of_app. tauto. }
  assert (a ∈ addrs (mk d b x a i)) as Ha by (rewrite addrs_mk, elem_of_cons; auto).
  destruct (mv_copy_ok st a p) as (c1 & E1 & A1 & M1); [apply Hl'; auto..|]. unfold mv_rotate. step E1.
  pose proof (proj2 (zrep_move _ _ _ _ _ _ _) (zrep_aux st c1 _ _ Hz)) as Hza.
  pose proof (zr_nodup _ _ _ Hza) as Hn. unfold zaddrs in Hn. apply NoDup_app in Hn as (_ & Nd & _).
  assert (p ∉ addrs (mk d b x a i)) as Hp by (apply Nd; simpl; apply elem_of_cons; by left).
  set (l := if d then x else i) in *. set (r := if d then i else x) in *.
  assert (mk d b x a i = Node b l a r) as Em by (unfold l, r; by destruct d). rewrite Em in *.
  assert (node_min_vruntime a (with_aux st c1) = Some (nmin c1 a l r, with_aux st c1)) as E2.
  { eapply (node_min_ok (with_aux st c1)); [exact Hza|]. intros z Hin. cbn [aux with_aux]. apply (agg_only_live _ _ _ A1), Hl'. by right. }
  step E2. destruct (upd_min_ok (with_aux st c1) a (nmin c1 a l r)) as (c2 & E3 & A2 & M2).
  { cbn [aux with_aux]. apply (agg_only_live _ _ _ A1), Hl'. by right. }
  exists c2. split; [exact E3|]. split; [by eapply agg_only_trans|]. intros z. rewrite M2. cbn [aux with_aux] in *. rewrite M1.
  destruct (decide (z = a)); [|done]. assert (forall t m, p ∉ addrs t -> tmin c1 m t = tmin (aux st) m t) as Ht.
  { intros [|b' l' y r'] m Hy; [done|]. simpl. rewrite M1. destruct (decide (y = p)) as [->|]; [|done].
    exfalso. apply Hy. simpl. rewrite elem_of_app, elem_of_cons. auto. }
  assert (p ∉ addrs l /\ p ∉ addrs r) as [Pl Pr] by (split; intros Hin; apply Hp; simpl; rewrite elem_of_app, elem_of_cons; auto).
  unfold nmin. rewrite !Ht by done. by rewrite (vr_agg _ _ _ A1).
Qed.

(** ** Exact aggregates

    In a window of half the clock's range from [base], every aggregate is the least
    virtual run time of the subtree. *)
Section window.
Variable base : Z.

Definition off (v : Z) : Z := u64 (v - base).
Definition inw (v : Z) : Prop := 0 <= v < W64 /\ off v < W63.

Lemma vtime_before_win a b : inw a -> inw b -> vtime_before a b = (off a <? off b).
Proof.
  intros [Ra Wa] [Rb Wb]. unfold vtime_before. pose proof (u64_range (a - base)). pose proof (u64_range (b - base)).
  assert (i64 (u64 (a - b)) = off a - off b) as ->; [|destruct (Z.ltb_spec (off a - off b) 0), (Z.ltb_spec (off a) (off b)); lia].
  rewrite <- (i64_small (off a - off b)) by (unfold off in *; lia). unfold off. rewrite !u64_eqm. f_equal. ring.
Qed.

Lemma off_inj a b : 0 <= a < W64 -> 0 <= b < W64 -> off a = off b -> a = b.
Proof. intros Ha Hb. unfold off, u64. intros E. dlia. Qed.

Definition win c (l : list Z) : Prop := forall x, x ∈ l -> live c x /\ inw (vr c x).

Definition lmin c (l : list Z) (m : Z) : Prop := (exists x, x ∈ l /\ m = vr c x) /\ forall x, x ∈ l -> off m <= off (vr c x).

Lemma lmin_ext c l l' m : (forall x, x ∈ l <-> x ∈ l') -> lmin c l m -> lmin c l' m.
Proof. intros H [(x & Hx & ->) Hm]. split; [exists x; by rewrite <- H|]. intros y Hy. apply Hm. by apply H. Qed.

Lemma lmin_agg c c' l m : agg_only c c' -> lmin c l m -> lmin c' l m.
Proof. intros A [(x & Hx & ->) Hm]. split; [exists x; by rewrite (vr_agg _ _ _ A)|]. intros y Hy. rewrite (vr_agg _ _ _ A). by apply Hm. Qed.

Lemma lmin_inw c l m : win c l -> lmin c l m -> inw m.
Proof. intros W [(x & Hx & ->) _]. by apply W. Qed.

Lemma lmin_app c l k m n :
  win c l -> win c k -> lmin c l m -> lmin c k n -> lmin c (l ++ k) (vtime_min m n).
Proof.
  intros Wl Wk Hm Hn. unfold vtime_min. rewrite (vtime_before_win m n (lmin_inw _ _ _ Wl Hm) (lmin_inw _ _ _ Wk Hn)).
  destruct Hm as [(x & Hx & Ex) Hm], Hn as [(y & Hy & Ey) Hn].
  destruct (Z.ltb_spec (off m) (off n)); (split; [eexists; rewrite elem_of_app; eauto|]);
    intros z [Hz|Hz]%elem_of_app; auto; [specialize (Hn z Hz)|specialize (Hm z Hz)]; lia.
Qed.

Fixpoint exactagg c (t : tree) : Prop :=
  match t with
  | Leaf => True
  | Node _ l a r => lmin c (addrs t) (mv c a) /\ exactagg c l /\ exactagg c r
  end.

Fixpoint cexact c (ctx : list frame) (l : list Z) : Prop :=
  match ctx with
  | [] => True
  | Fr _ _ a s :: ctx => lmin c (a :: l ++ addrs s) (mv c a) /\ exactagg c s /\ cexact c ctx (a :: l ++ addrs s)
  end.

Lemma exact_mk c d b x a y :
  exactagg c (mk d b x a y) <-> lmin c (a :: addrs x ++ addrs y) (mv c a) /\ exactagg c x /\ exactagg c y.
Proof.
  assert (forall t k, (forall z, z ∈ addrs t <-> z ∈ k) -> lmin c (addrs t) (mv c a) <-> lmin c k (mv c a)) as H.
  { intros t k E. split; apply lmin_ext; [done|]. intros z. by rewrite E. }
  destruct d; cbn [mk exactagg]; rewrite (H (Node b _ a _) (a :: addrs x ++ addrs y)); try tauto;
    intros z; simpl; rewrite ?elem_of_app, ?elem_of_cons, ?elem_of_app; tauto.
Qed.

Lemma cexact_ext c ctx l l' : (forall x, x ∈ l <-> x ∈ l') -> cexact c ctx l -> cexact c ctx l'.
Proof.
  revert l l'. induction ctx as [|[d b a s] ctx IH]; intros l l' H; simpl; [done|]. intros (H1 & H2 & H3).
  assert (forall x, x ∈ a :: l ++ addrs s <-> x ∈ a :: l' ++ addrs s) as H'.
  { intros x. by rewrite !elem_of_cons, !elem_of_app, H. }
  split; [by eapply lmin_ext|]. split; [done|]. by eapply IH.
Qed.

Lemma exact_plug c ctx t : exactagg c (plug ctx t) <-> exactagg c t /\ cexact c ctx (addrs t).
Proof.
  revert t. induction ctx as [|[d b a s] ctx IH]; intros t; simpl; [tauto|]. rewrite IH, exact_mk.
  assert (cexact c ctx (addrs (mk d b t a s)) <-> cexact c ctx (a :: addrs t ++ addrs s)) as ->; [|tauto].
  split; apply cexact_ext; intros x; by rewrite addrs_mk.
Qed.

Lemma exact_frame c c' t :
  agg_only c c' -> (forall x, x ∈ addrs t -> mv c' x = mv c x) -> exactagg c t -> exactagg c' t.
Proof.
  intros A. induction t as [|b l IHl a r IHr]; [done|]. simpl. intros Hm (H1 & H2 & H3).
  rewrite Hm by (rewrite elem_of_app, elem_of_cons; auto). split; [by eapply lmin_agg|].
  split; [apply IHl|apply IHr]; try done; intros x Hx; apply Hm; rewrite elem_of_app, elem_of_cons; auto.
Qed.

Lemma cexact_frame c c' ctx l :
  agg_only c c' -> (forall x, x ∈ caddrs ctx -> mv c' x = mv c x) -> cexact c ctx l -> cexact c' ctx l.
Proof.
  intros A. revert l. induction ctx as [|[d b a s] ctx IH]; intros l; simpl; [done|]. intros Hm (H1 & H2 & H3).
  rewrite Hm by (rewrite elem_of_cons; auto). split; [by eapply lmin_agg|].
  split; [apply (exact_frame c); try done|apply IH; try done]; intros x Hx; apply Hm; rewrite elem_of_cons, elem_of_app; auto.
Qed.

Lemma tmin_lmin c l m t :
  win c l -> lmin c l m -> win c (addrs t) -> exactagg c t -> lmin c (l ++ addrs t) (tmin c m t).
Proof. intros Wl Hm Wt Ht. destruct t as [|b t1 a t2]; simpl tmin; [by rewrite app_nil_r|]. apply lmin_app; try done. apply Ht. Qed.

Lemma win_sub c l k : (forall x, x ∈ k -> x ∈ l) -> win c l -> win c k.
Proof. intros H W x Hx. apply W. by apply H. Qed.

Lemma nmin_lmin c b l a r :
  win c (addrs (Node b l a r)) -> exactagg c l -> exactagg c r -> lmin c (addrs (Node b l a r)) (nmin c a l r).
Proof.
  intros W Hl Hr. assert (win c [a] /\ win c (addrs l) /\ win c (addrs r)) as (W1 & W2 & W3).
  { split_and!; (eapply win_sub; [|exact W]); intros x; simpl; rewrite ?elem_of_app, ?elem_of_cons, ?elem_of_nil; tauto. }
  apply (lmin_ext c (([a] ++ addrs l) ++ addrs r)).
  { intros x. simpl. rewrite ?elem_of_app, ?elem_of_cons, ?elem_of_app. tauto. }
  apply tmin_lmin; try done.
  - eapply win_sub; [|exact W]. intros x. simpl. rewrite ?elem_of_app, ?elem_of_cons. tauto.
  - apply tmin_lmin; try done. split; [exists a; split; [apply elem_of_cons; by left|done]|]. by intros x [->|?%elem_of_nil]%elem_of_cons.
Qed.

(** A path stays exact for a larger subtree whose new members are no smaller. *)
Lemma cexact_grow c ctx lo ln :
  (forall x, x ∈ lo -> x ∈ ln) -> (forall z, z ∈ ln -> exists y, y ∈ lo /\ off (vr c y) <= off (vr c z)) ->
  cexact c ctx lo -> cexact c ctx ln.
Proof.
  revert lo ln. induction ctx as [|[d b a s] ctx IH]; intros lo ln Hi Hd; simpl; [done|]. intros ([(x & Hx & Ex) H1] & H2 & H3).
  assert (forall x, x ∈ a :: lo ++ addrs s -> x ∈ a :: ln ++ addrs s) as Hi'.
  { intros z. rewrite !elem_of_cons, !elem_of_app. intros [?|[?|?]]; auto. }
  assert (forall z, z ∈ a :: ln ++ addrs s -> exists y, y ∈ a :: lo ++ addrs s /\ off (vr c y) <= off (vr c z)) as Hd'.
  { intros z. rewrite elem_of_cons, elem_of_app. intros [->|[Hz|Hz]].
    - exists a. split; [apply elem_of_cons; by left|lia].
    - destruct (Hd z Hz) as (y & Hy & Hle). exists y. rewrite elem_of_cons, elem_of_app. auto.
    - exists z. rewrite elem_of_cons, elem_of_app. split; [auto|lia]. }
  split; [|split; [done|by eapply IH]]. split; [exists x; auto|]. intros z Hz. destruct (Hd' z Hz) as (y & Hy & Hle).
  specialize (H1 y Hy). lia.
Qed.

Lemma with_aux_id st : with_aux st (aux st) = st.
Proof. by destruct st. Qed.

Definition plives st ctx t : Prop := forall z, z ∈ addrs (plug ctx t) -> live (aux st) z.

Lemma plives_here st ctx t z : plives st ctx t -> z ∈ addrs t -> live (aux st) z.
Proof. intros H Hz. apply H. rewrite addrs_plug, !elem_of_app. auto. Qed.

(** One round stops, or sets the aggregate of the node and goes on above it. *)
Lemma propagate_round fuel st d b a (s : tree) ctx t :
  zrep st (Fr d b a s :: ctx) t -> plives st (Fr d b a s :: ctx) t ->
  exists m, m = nmin (aux st) a (if d then t else s) (if d then s else t) /\
  ((m = mv (aux st) a /\ mv_propagate_loop (S fuel) a 0 st = Some (tt, st)) \/
   exists c1, agg_only (aux st) c1 /\ (forall x, mv c1 x = if decide (x = a) then m else mv (aux st) x) /\
     mv_propagate_loop (S fuel) a 0 st = mv_propagate_loop fuel (cpar ctx) 0 (with_aux st c1)).
Proof.
  intros Hz Hl. pose proof (proj1 (zrep_move _ _ _ _ _ _ _) Hz) as Hm.
  assert (forall x, x ∈ addrs (mk d b t a s) -> live (aux st) x) as Hl'.
  { intros x Hx. apply (plives_here st ctx (mk d b t a s)); done. }
  assert (a ∈ addrs (mk d b t a s)) as Ha by (rewrite addrs_mk, elem_of_cons; auto).
  eexists. split; [reflexivity|]. cbn [mv_propagate_loop].
  assert (okaddr a) as [Oa _] by (pose proof (zr_ok _ _ _ Hz) as Ho; simpl in Ho; by apply Forall_cons in Ho as [? _]).
  rewrite (proj2 (Z.eqb_neq a 0)) by lia. destruct (Hl' a Ha) as [s0 Es]. step (ent_ok _ _ _ Es).
  assert (mk d b t a s = Node b (if d then t else s) a (if d then s else t)) as Em by (by destruct d). rewrite Em in Hm, Hl'.
  step (node_min_ok _ _ _ _ _ _ Hm Hl'). set (m := nmin _ _ _ _).
  assert (mv (aux st) a = min_vruntime s0) as Emv by (unfold mv; by rewrite Es). rewrite <- Emv.
  destruct (Z.eqb_spec (mv (aux st) a) m); [left; done|right].
  destruct (upd_min_ok st a m) as (c1 & E1 & A1 & M1); [by eexists|]. exists c1. split; [done|]. split; [done|]. step E1.
  pose proof (zr_tree _ _ _ (zrep_aux st c1 _ _ Hm)) as (En & _ & _). step (parent_ok (with_aux st c1) _ _ En). rewrite rb_parent_word; [done|].
  apply cpar_ok. pose proof (zr_ok _ _ _ Hm) as Ho. by apply Forall_app in Ho as [? _].
Qed.

Lemma propagate_ok fuel st ctx t :
  zrep st ctx t -> plives st ctx t -> (length ctx <= fuel)%nat ->
  exists c', mv_propagate_loop fuel (cpar ctx) 0 st = Some (tt, with_aux st c') /\ agg_only (aux st) c' /\
    (forall lo, win (aux st) (addrs (plug ctx t)) -> (forall x, x ∈ lo -> x ∈ addrs t) ->
       exactagg (aux st) t -> cexact (aux st) ctx lo -> exactagg c' (plug ctx t)).
Proof.
  revert fuel st t. induction ctx as [|[d b a s] ctx IH]; intros fuel st t Hz Hl Hf.
  { exists (aux st). rewrite with_aux_id. split; [by destruct fuel|]. split; [apply agg_only_refl|done]. }
  destruct fuel as [|fuel]; [simpl in Hf; lia|]. pose proof (proj1 (zrep_move _ _ _ _ _ _ _) Hz) as Hm. cbn [cpar plug].
  assert (mk d b t a s = Node b (if d then t else s) a (if d then s else t)) as Em by (by destruct d).
  assert (forall lo, win (aux st) (addrs (plug ctx (mk d b t a s))) -> exactagg (aux st) t -> cexact (aux st) (Fr d b a s :: ctx) lo ->
    lmin (aux st) (addrs (mk d b t a s)) (nmin (aux st) a (if d then t else s) (if d then s else t))) as Hmin.
  { intros lo W Ht (_ & Hs & _). rewrite Em. apply nmin_lmin; [|by destruct d..]. rewrite <- Em. eapply win_sub; [|exact W].
    intros x Hx. rewrite addrs_plug, !elem_of_app. auto. }
  destruct (propagate_round fuel st d b a s ctx t Hz Hl) as (m & Em' & [[Eq E]|(c1 & A1 & M1 & E)]).
  - exists (aux st). rewrite E, with_aux_id. split; [done|]. split; [apply agg_only_refl|]. intros lo W Hlo Ht Hc.
    specialize (Hmin lo W Ht Hc). rewrite <- Em', Eq in Hmin. destruct Hc as ([(x & Hx & Ex) H1] & H2 & H3).
    apply exact_plug. split; [apply exact_mk; split; [|done]; eapply lmin_ext; [|exact Hmin]; intros z; by rewrite addrs_mk|].
    eapply cexact_grow; [| |exact H3].
    + intros z. rewrite addrs_mk, !elem_of_cons, !elem_of_app. intros [?|[?|?]]; auto.
    + intros z Hin. exists x. split; [done|]. rewrite <- Ex. by apply Hmin.
  - pose proof (zr_nodup _ _ _ Hm) as Hn. unfold zaddrs in Hn. rewrite addrs_mk in Hn. apply NoDup_app in Hn as (_ & Nc & [Na Nx]%NoDup_cons).
    destruct (IH fuel (with_aux st c1) (mk d b t a s)) as (c' & E' & A' & Hx); [by apply zrep_aux| |simpl in Hf; lia|].
    { intros z Hin. cbn [aux with_aux]. apply (agg_only_live _ _ _ A1), Hl. done. }
    exists c'. rewrite E. split; [exact E'|]. cbn [aux with_aux] in *. split; [by eapply agg_only_trans|]. intros lo W Hlo Ht Hc.
    specialize (Hmin lo W Ht Hc). destruct Hc as (H1 & H2 & H3). assert (mv c1 a = m) as Ema by (rewrite M1; by rewrite decide_True).
    assert (forall z, z <> a -> mv c1 z = mv (aux st) z) as Mo by (intros z Hne; rewrite M1; by rewrite decide_False).
    apply (Hx (a :: lo ++ addrs s)).
    + intros z Hin. destruct (W z Hin). split; [by apply (agg_only_live _ _ _ A1)|]. by rewrite (vr_agg _ _ _ A1).
    + intros z. rewrite addrs_mk, !elem_of_cons, !elem_of_app. intros [?|[?|?]]; auto.
    + apply exact_mk. rewrite Ema, Em'. split; [eapply lmin_ext; [|eapply lmin_agg; [exact A1|exact Hmin]]; intros z; by rewrite addrs_mk|].
      split; (eapply exact_frame; [exact A1| |done]); intros z Hin; apply Mo; intros ->; apply Na; rewrite elem_of_app; auto.
    + eapply cexact_frame; [exact A1| |exact H3]. intros z Hin. apply Mo. intros ->. apply (Nc a Hin). apply elem_of_cons. by left.
Qed.

Lemma exact_skel c t t' : skel t = skel t' -> exactagg c t -> exactagg c t'.
Proof.
  revert t'. induction t as [|b l IHl a r IHr]; intros [|b' l' a' r']; simpl; try done. intros [= E1 -> E2] (H1 & H2 & H3).
  rewrite <- (skel_addrs _ _ E1), <- (skel_addrs _ _ E2). eauto.
Qed.

Lemma rotate_exact st ctx d b x a bp i p o c' :
  zrep st ctx (mk d bp (mk d b x a i) p o) -> win (aux st) (addrs (plug ctx (mk d bp (mk d b x a i) p o))) ->
  agg_only (aux st) c' ->
  (forall z, mv c' z = if decide (z = a) then nmin (aux st) a (if d then x else i) (if d then i else x)
                       else if decide (z = p) then mv (aux st) a else mv (aux st) z) ->
  exactagg (aux st) (plug ctx (mk d b x a (mk d bp i p o))) -> exactagg c' (plug ctx (mk d bp (mk d b x a i) p o)).
Proof.
  intros Hz W A M. rewrite !exact_plug, !exact_mk. intros ((H1 & Hx & (H2 & Hi & Ho)) & Hc).
  pose proof (zr_nodup _ _ _ Hz) as Hn. unfold zaddrs in Hn. rewrite !addrs_mk in Hn. apply NoDup_app in Hn as (_ & Nc & [Np Nx]%NoDup_cons).
  cbn [app] in Np, Nx. apply not_elem_of_cons in Np as [Npa Np]. apply NoDup_cons in Nx as [Na Nx].
  assert (forall z, z <> a -> z <> p -> mv c' z = mv (aux st) z) as Mo by (intros z ? ?; rewrite M; by rewrite !decide_False).
  assert (forall t, (forall z, z ∈ addrs t -> z ∈ (addrs x ++ addrs i) ++ addrs o) -> exactagg (aux st) t -> exactagg c' t) as Hf.
  { intros t Ht. apply exact_frame; [done|]. intros z Hin%Ht. apply Mo; by intros ->. }
  assert (forall z, z ∈ a :: addrs x ++ addrs (mk d bp i p o) <-> z ∈ p :: addrs (mk d b x a i) ++ addrs o) as Hset.
  { intros z. rewrite !elem_of_cons, !elem_of_app, !addrs_mk, !elem_of_cons, !elem_of_app. tauto. }
  assert (addrs (mk d b x a i) ≡ₚ a :: addrs x ++ addrs i) as Ema by apply addrs_mk.
  split; [split; [|split; [split; [|split]|]]|].
  - rewrite M, decide_False, decide_True by done. eapply lmin_ext; [exact Hset|]. by eapply lmin_agg.
  - rewrite M, decide_True by done. assert (mk d b x a i = Node b (if d then x else i) a (if d then i else x)) as Em by (by destruct d).
    eapply lmin_ext; [|eapply lmin_agg; [exact A|]; apply (nmin_lmin _ b); [|by destruct d..]].
    + intros z. rewrite <- Em. by rewrite Ema.
    + rewrite <- Em. eapply win_sub; [|exact W]. intros z Hin. rewrite addrs_plug, !elem_of_app, (addrs_mk d bp), elem_of_cons, elem_of_app. auto.
  - apply Hf; [|done]. intros z. rewrite !elem_of_app. auto.
  - apply Hf; [|done]. intros z. rewrite !elem_of_app. auto.
  - apply Hf; [|done]. intros z. rewrite !elem_of_app. auto.
  - eapply cexact_frame; [exact A| |eapply cexact_ext; [|exact Hc]].
    + intros z Hin. apply Mo; intros ->; apply (Nc _ Hin); rewrite ?elem_of_cons, ?elem_of_app, ?elem_of_cons; tauto.
    + intros z. rewrite (addrs_mk d b x a), (addrs_mk d bp (mk d b x a i) p o). apply Hset.
Qed.

Lemma aug_insert_ok st ctx a n :
  zrep st ctx Leaf -> rbtree (plug ctx Leaf) -> nodes st !! a = Some n -> okaddr a -> a ∉ addrs (plug ctx Leaf) ->
  (forall z, z = a \/ z ∈ addrs (plug ctx Leaf) -> live (aux st) z) ->
  exists st' T, (rb_link_node a (cpar ctx) (slot_of ctx) ;;; rb_insert_augmented (Some min_vruntime_cb) a) st = Some (tt, st')
    /\ zrep st' [] T /\ rbtree T /\ addrs T = cleft ctx ++ a :: cright ctx /\ agg_only (aux st) (aux st')
    /\ (win (aux st) (a :: addrs (plug ctx Leaf)) -> exactagg (aux st) (plug ctx Leaf) -> mv (aux st) a = vr (aux st) a ->
        exactagg (aux st') T).
Proof.
  intros Hz R En Oa Na Hl. set (c0 := aux st) in *. set (Lv := addrs (plug ctx (Node false Leaf a Leaf))).
  assert (forall z, z ∈ Lv <-> z = a \/ z ∈ addrs (plug ctx Leaf)) as HL.
  { intros z. unfold Lv. rewrite !addrs_plug, !elem_of_app. simpl. rewrite elem_of_cons, !elem_of_nil. tauto. }
  destruct (link_ok st ctx a n) as (st1 & E1 & Hz1 & X1); try done.
  { intros Hin. apply Na. change (a ∈ zaddrs [] (plug ctx Leaf)). rewrite <- zaddrs_plug, app_nil_r. unfold zaddrs. by rewrite app_nil_r. }
  step E1. pose proof (zr_tree _ _ _ Hz1) as (En1 & _ & _). unfold rb_insert_augmented. step (parent_ok st1 _ _ En1).
  rewrite rb_parent_word by (apply cpar_ok; pose proof (zr_ok _ _ _ Hz1) as Ho; by apply Forall_app in Ho as [? _]).
  destruct (propagate_ok (S (size (nodes st1))) st1 ctx (Node false Leaf a Leaf) Hz1) as (c1 & E2 & A1 & X2).
  { intros z Hin%HL. rewrite X1. by apply Hl. }
  { pose proof (nodes_length _ _ _ Hz1) as Hlen. unfold zaddrs in Hlen. rewrite length_app in Hlen. pose proof (ctx_length ctx). lia. }
  rewrite X1 in A1, X2. fold c0 in A1, X2. unfold propagate. cbn [aug_propagate min_vruntime_cb]. unfold bind, mv_propagate. rewrite E2.
  set (W := win c0 (a :: addrs (plug ctx Leaf)) /\ exactagg c0 (plug ctx Leaf) /\ mv c0 a = vr c0 a).
  set (P := fun x t => agg_only c0 x /\ (forall z, z ∈ addrs t -> z ∈ Lv) /\ (W -> exactagg x t)).
  assert (forall c, agg_only c0 c -> win c0 (a :: addrs (plug ctx Leaf)) -> win c Lv) as Hwin.
  { intros c A Hw z Hin%HL. destruct (Hw z) as [? ?]; [by rewrite elem_of_cons|]. split; [by apply (agg_only_live _ _ _ A)|]. by rewrite (vr_agg _ _ _ A). }
  destruct (rbtheorems_insert_ok (Some min_vruntime_cb) P) with (3 := zrep_aux st1 c1 _ _ Hz1) (5 := R) as (st2 & T & E3 & Hz2 & R2 & (A2 & _ & X3) & AT).
  - intros x t t' Hs (P1 & P2 & P3). split; [done|]. rewrite <- (skel_addrs _ _ Hs). split; [done|]. intros w. eapply exact_skel; [exact Hs|by apply P3].
  - intros st0 ctx0 d b x a0 bp i p o Hz0 (P1 & P2 & P3).
    assert (forall z, z ∈ addrs (plug ctx0 (mk d bp (mk d b x a0 i) p o)) -> z ∈ Lv) as P2'.
    { by rewrite rotated_addrs. }
    destruct (mv_rotate_ok st0 ctx0 d b x a0 bp i p o Hz0) as (c' & E & A & Mv).
    { intros z Hin%P2'%HL. apply (agg_only_live _ _ _ P1). by apply Hl. }
    exists (with_aux st0 c'). split; [exact E|]. split; [done|]. split; [done|]. split; [by eapply agg_only_trans|]. split; [done|]. intros w.
    eapply rotate_exact; [exact Hz0| |exact A|exact Mv|by apply P3]. eapply win_sub; [exact P2'|]. apply Hwin; [done|apply w].
  - split; [done|]. split; [done|]. intros (w1 & w2 & w3). cbn [aux with_aux]. apply exact_plug in w2 as [_ w2]. eapply X2; [|by intros ? ?%elem_of_nil| |exact w2].
    + apply Hwin; [apply agg_only_refl|done].
    + simpl. split; [|done]. rewrite w3. split; [exists a; split; [apply elem_of_cons; by left|done]|]. by intros x [->|?%elem_of_nil]%elem_of_cons.
  - exists st2, T. split; [exact E3|]. split; [done|]. split; [done|]. split; [done|]. split; [done|]. intros w1 w2 w3. by apply X3.
Qed.

(** ** The place of a new entity *)

Definition dl c a : Z := match ents c !! a with Some s => deadline s | None => 0 end.
Definition dlwin c (l : list Z) : Prop := forall x, x ∈ l -> inw (dl c x).
Definition ordered c (l : list Z) : Prop := StronglySorted (fun x y => off (dl c x) <= off (dl c y)) l.

(** What comes before and after an entity of deadline [d]. *)
Definition around c (d : Z) (l1 l2 : list Z) : Prop :=
  (forall x, x ∈ l1 -> off (dl c x) <= off d) /\ (forall x, x ∈ l2 -> off d < off (dl c x)).

Lemma ordered_mid c l a r :
  ordered c (l ++ a :: r) ->
  ordered c l /\ ordered c r /\ (forall x, x ∈ l -> off (dl c x) <= off (dl c a)) /\ (forall x, x ∈ r -> off (dl c a) <= off (dl c x)).
Proof.
  unfold ordered. intros H. apply StronglySorted_app in H as (Hx & Hl & [Ha Hr]%StronglySorted_cons).
  split; [done|]. split; [done|]. split; [|by rewrite Forall_forall in Ha]. intros x Hin. apply Hx; [done|]. apply elem_of_cons. by left.
Qed.

Lemma find_link_ok fuel st s ctx t :
  zrep st ctx t -> (forall x, x ∈ addrs t -> live (aux st) x) -> (height t <= fuel)%nat ->
  exists ctx', find_link fuel s (ptr t) (cpar ctx) (slot_of ctx) (bool_decide (cleft ctx = [])) st
      = Some ((cpar ctx', slot_of ctx', bool_decide (cleft ctx' = [])), st)
    /\ zrep st ctx' Leaf /\ plug ctx' Leaf = plug ctx t
    /\ (inw (deadline s) -> dlwin (aux st) (addrs t) -> ordered (aux st) (addrs t) ->
        around (aux st) (deadline s) (cleft ctx) (cright ctx) -> around (aux st) (deadline s) (cleft ctx') (cright ctx')).
Proof.
  revert fuel ctx. induction t as [|b l IHl a r IHr]; intros fuel ctx Hz Hl Hf.
  { exists ctx. split; [by destruct fuel|]. done. }
  destruct fuel as [|fuel]; [simpl in Hf; lia|]. simpl in Hf. pose proof (zr_tree _ _ _ Hz) as (E & _ & _).
  assert (okaddr a) as [Oa _].
  { pose proof (zr_ok _ _ _ Hz) as [_ Ho]%Forall_app. simpl in Ho. by apply Forall_app in Ho as [_ [? _]%Forall_cons]. }
  cbn [find_link ptr]. unfold nonnull. rewrite (proj2 (Z.eqb_neq a 0)) by lia. cbn [negb].
  destruct (Hl a) as [sa Ea]; [simpl; rewrite elem_of_app, elem_of_cons; auto|]. step (ent_ok _ _ _ Ea).
  assert (dl (aux st) a = deadline sa) as Ed by (unfold dl; by rewrite Ea).
  destruct (deadline_less s sa) eqn:Ec.
  - step (child_ok st L _ _ E). cbn [kid rb_left]. pose proof (proj2 (zrep_move st L b a r ctx l) Hz) as HzL.
    destruct (IHl fuel (Fr L b a r :: ctx) HzL) as (ctx' & E' & Hz' & Ep & Ha); [|lia|].
    { intros x Hx. apply Hl. simpl. rewrite elem_of_app. auto. }
    exists ctx'. split; [exact E'|]. split; [done|]. split; [done|]. intros Wd Wt Ht [B1 B2]. simpl in Ht. apply ordered_mid in Ht as (O1 & O2 & O3 & O4).
    unfold deadline_less in Ec. rewrite vtime_before_win in Ec by (try done; rewrite <- Ed; apply Wt; simpl; rewrite elem_of_app, elem_of_cons; auto).
    apply Z.ltb_lt in Ec. rewrite <- Ed in Ec. apply Ha; try done; [intros x Hx; apply Wt; simpl; rewrite elem_of_app; auto|].
    split; [done|]. simpl. intros x. rewrite elem_of_cons, elem_of_app. intros [->|[Hx|Hx]]; [done|specialize (O4 x Hx); lia|by apply B2].
  - step (child_ok st R _ _ E). cbn [kid rb_right]. pose proof (proj2 (zrep_move st R b a l ctx r) Hz) as HzR.
    destruct (IHr fuel (Fr R b a l :: ctx) HzR) as (ctx' & E' & Hz' & Ep & Ha); [|lia|].
    { intros x Hx. apply Hl. simpl. rewrite elem_of_app, elem_of_cons. auto. }
    exists ctx'. split; [rewrite <- E'; do 3 f_equal; rewrite bool_decide_eq_false_2; [done|]; simpl; by destruct (cleft ctx), (addrs l)|].
    split; [done|]. split; [done|]. intros Wd Wt Ht [B1 B2]. simpl in Ht. apply ordered_mid in Ht as (O1 & O2 & O3 & O4).
    unfold deadline_less in Ec. rewrite vtime_before_win in Ec by (try done; rewrite <- Ed; apply Wt; simpl; rewrite elem_of_app, elem_of_cons; auto).
    apply Z.ltb_ge in Ec. rewrite <- Ed in Ec. apply Ha; try done; [intros x Hx; apply Wt; simpl; rewrite elem_of_app, elem_of_cons; auto|].
    split; [|done]. simpl. intros x. rewrite !elem_of_app, elem_of_cons, elem_of_nil. intros [Hx|[Hx|[->|[]]]]; [by apply B1|specialize (O3 x Hx); lia|done].
Qed.

Lemma ordered_insert c l1 a l2 :
  ordered c (l1 ++ l2) -> around c (dl c a) l1 l2 -> ordered c (l1 ++ a :: l2).
Proof.
  unfold ordered. intros (H1 & H2 & H3)%StronglySorted_app [B1 B2]. apply StronglySorted_app. split_and!; [|done|].
  - intros x y Hx [->|Hy]%elem_of_cons; [by apply B1|by apply H1].
  - constructor; [done|]. apply Forall_forall. intros x Hx. specialize (B2 x Hx). lia.
Qed.
End window.
