(* ===== verification/FairTheorems.v ===== *)
(** * The fair scheduling class: the run queue invariant and the theorems

    [rq_ok]: the tree is a red-black tree over entities that exist, the cached leftmost
    pointer is its first node, and the two running sums are exact for the entities in it,
    modulo the width of the fields.  Every class hook keeps it.  The deadline order and
    the aggregates are treated separately, under the window the wrap-safe comparisons
    need. *)

From stdpp Require Import base numbers list gmap sorting.
From S2P Require Import Prelude RbTree RbSpec RbProofs RbTheorems Fair FairProofs.

Implicit Types (st : rbst cfs_rq) (c : cfs_rq) (s : sched_entity).

Definition wt c a : Z := match ents c !! a with Some s => weight s | None => 0 end.

Definition vterm c a : Z := (vr c a - cfs_min_vruntime c) * wt c a.

Record sums_ok c (l : list Z) : Prop := {
  so_avg : cfs_avg_vruntime c = i64 (zsum (vterm c) l);
  so_load : avg_load c = u64 (zsum (wt c) l);
}.

Record rq_ok st (T : tree) : Prop := {
  ro_rep : zrep st [] T;
  ro_rb : rbtree T;
  ro_left : rb_leftmost (aux st) = hd0 (addrs T);
  ro_live : forall x, x ∈ addrs T -> live (aux st) x;
  ro_sums : sums_ok (aux st) (addrs T);
}.

(** Two run queues with the same entities up to aggregates, the same clocks and the same
    running entity. *)
Record same_rq c c' : Prop := {
  sr_ents : same_but_agg (ents c) (ents c');
  sr_nr : nr_running c' = nr_running c;
  sr_min : cfs_min_vruntime c' = cfs_min_vruntime c;
  sr_curr : curr c' = curr c;
  sr_clock : clock_task c' = clock_task c;
}.

Lemma agg_same_rq c c' : agg_only c c' -> same_rq c c'.
Proof. intros (m & -> & H). by split. Qed.

Lemma same_rq_trans c1 c2 c3 : same_rq c1 c2 -> same_rq c2 c3 -> same_rq c1 c3.
Proof. intros [A1 A2 A3 A4 A5] [B1 B2 B3 B4 B5]. split; try congruence. Qed.

Lemma same_ent c c' a s : same_rq c c' -> ents c !! a = Some s -> exists v, ents c' !! a = Some (set_min_vruntime v s).
Proof.
  intros [H _ _ _ _] E. destruct (agg_only_ent c (set_ents (ents c') c) a s) as [v Ev]; [by exists (ents c')|done|]. by exists v.
Qed.

Lemma same_live c c' a : same_rq c c' -> live c a <-> live c' a.
Proof. intros [H _ _ _ _]. specialize (H a). unfold live. destruct (ents c !! a), (ents c' !! a); try done; split; intros [? ?]; eauto. Qed.

Lemma same_field {X} (f : sched_entity -> X) (d : X) c c' a :
  (forall v s, f (set_min_vruntime v s) = f s) -> same_rq c c' ->
  match ents c' !! a with Some s => f s | None => d end = match ents c !! a with Some s => f s | None => d end.
Proof.
  intros Hf H. destruct (ents c !! a) as [s|] eqn:E.
  - destruct (same_ent c c' a s H E) as [v ->]. apply Hf.
  - destruct (ents c' !! a) as [s'|] eqn:E'; [|done]. destruct (proj2 (same_live c c' a H)) as [? ?]; [by eexists|congruence].
Qed.

Lemma same_vr c c' a : same_rq c c' -> vr c' a = vr c a.
Proof. by apply (same_field vruntime). Qed.
Lemma same_wt c c' a : same_rq c c' -> wt c' a = wt c a.
Proof. by apply (same_field weight). Qed.
Lemma same_dl c c' a : same_rq c c' -> dl c' a = dl c a.
Proof. by apply (same_field deadline). Qed.

Lemma same_vterm c c' a : same_rq c c' -> vterm c' a = vterm c a.
Proof. intros H. unfold vterm. by rewrite (same_vr _ _ _ H), (same_wt _ _ _ H), (sr_min _ _ H). Qed.

Lemma same_sums c c' l : same_rq c c' -> zsum (vterm c') l = zsum (vterm c) l /\ zsum (wt c') l = zsum (wt c) l.
Proof. intros H. split; apply zsum_ext; intros x _; [by apply same_vterm|by apply same_wt]. Qed.

(** ** The sums *)

Lemma sums_add c a s l1 l2 :
  sums_ok c (l1 ++ l2) -> ents c !! a = Some s -> sums_ok (avg_vruntime_add s c) (l1 ++ a :: l2).
Proof.
  intros [H1 H2] E.
  assert (same_rq c (avg_vruntime_add s c)) as Hs by (by split). destruct (same_sums _ _ (l1 ++ a :: l2) Hs) as [E1 E2].
  split; rewrite ?E1, ?E2, zsum_middle; unfold avg_vruntime_add, sld; cbn [cfs_avg_vruntime avg_load set_sums].
  - rewrite H1. unfold entity_key. wrap_ring. unfold vterm at 2. unfold vr, wt. rewrite E. ring.
  - rewrite H2. wrap_ring. unfold wt at 2. rewrite E. ring.
Qed.

Lemma sums_sub c a s l1 l2 :
  sums_ok c (l1 ++ a :: l2) -> ents c !! a = Some s -> sums_ok (avg_vruntime_sub s c) (l1 ++ l2).
Proof.
  intros [H1 H2] E. rewrite zsum_middle in H1, H2.
  assert (same_rq c (avg_vruntime_sub s c)) as Hs by (by split). destruct (same_sums _ _ (l1 ++ l2) Hs) as [E1 E2].
  split; rewrite ?E1, ?E2; unfold avg_vruntime_sub, sld; cbn [cfs_avg_vruntime avg_load set_sums].
  - rewrite H1. unfold entity_key. wrap_ring. unfold vterm at 1. unfold vr at 1, wt at 1. rewrite E. ring.
  - rewrite H2. wrap_ring. unfold wt at 1. rewrite E. ring.
Qed.

Lemma sums_shift c l v :
  sums_ok c l ->
  let c' := avg_vruntime_shift (i64 (u64 (v - cfs_min_vruntime c))) c in
  sums_ok (set_sums v (cfs_avg_vruntime c') (avg_load c') c') l.
Proof.
  intros [H1 H2] c'.
  assert (zsum (vterm (set_sums v (cfs_avg_vruntime c') (avg_load c') c')) l
          = zsum (vterm c) l - (v - cfs_min_vruntime c) * zsum (wt c) l) as E.
  { clear H1 H2. induction l as [|x l IH]; cbn [zsum foldr]; [ring|]. unfold zsum in IH. rewrite IH. unfold vterm, vr, wt. simpl. ring. }
  split; [rewrite E|exact H2]. unfold c', avg_vruntime_shift. cbn [cfs_avg_vruntime avg_load set_sums]. rewrite H1, H2.
  generalize (zsum (vterm c) l) (zsum (wt c) l). intros x y. wrap_ring. ring.
Qed.

Lemma sums_same c c' l :
  same_rq c c' -> cfs_avg_vruntime c' = cfs_avg_vruntime c -> avg_load c' = avg_load c -> sums_ok c l -> sums_ok c' l.
Proof. intros H E1 E2 [H1 H2]. destruct (same_sums c c' l H) as [S1 S2]. split; congruence. Qed.

Lemma agg_sums c c' l : agg_only c c' -> sums_ok c l -> sums_ok c' l.
Proof. intros H. pose proof (agg_same_rq _ _ H). destruct H as (m & -> & _). by apply sums_same. Qed.

(** ** No hook allocates a node *)

Lemma keeps_cfs : keeps cfs.
Proof. by intros st x st' [= _ <-]. Qed.
Lemma keeps_upd_cfs f : keeps (upd_cfs f).
Proof. by intros st x st' [= _ <-]. Qed.
Lemma keeps_ent a : keeps (ent a).
Proof. intros st x st'. unfold ent. destruct (ents (aux st) !! a); [|done]. by intros [= _ <-]. Qed.
#[export] Hint Resolve keeps_cfs keeps_upd_cfs keeps_ent : keeps.
Lemma keeps_upd_ent a f : keeps (upd_ent a f).
Proof. unfold upd_ent. keep. Qed.
#[export] Hint Resolve keeps_upd_ent : keeps.

Lemma keeps_node_min a : keeps (node_min_vruntime a).
Proof. unfold node_min_vruntime, child_min, child. keep. Qed.
#[export] Hint Resolve keeps_node_min : keeps.

Lemma keeps_mv_propagate a b : keeps (mv_propagate a b).
Proof.
  apply (keeps_fuel (fun st => S (size (nodes st))) (fun n => mv_propagate_loop n a b)). intros n. revert a.
  induction n as [|n IH]; intros a; cbn [mv_propagate_loop]; unfold skip, parent_of; keep.
Qed.
Lemma keeps_mv_copy a b : keeps (mv_copy a b).
Proof. unfold mv_copy. keep. Qed.
Lemma keeps_mv_rotate a b : keeps (mv_rotate a b).
Proof. unfold mv_rotate, mv_copy. keep. Qed.

Lemma keeps_enqueue a : keeps (__enqueue_entity a).
Proof.
  unfold __enqueue_entity. apply keeps_bind; [keep|]. intros s. do 2 (apply keeps_bind; [keep|intros _]).
  apply keeps_bind; [keep|]. intros rt. apply keeps_bind.
  - apply (keeps_fuel (fun st => S (size (nodes st))) (fun n => find_link n s rt 0 None true)). intros n.
    generalize 0 at 1. generalize (@None dir). generalize true. revert rt.
    induction n as [|n IH]; intros rt b o z; cbn [find_link]; unfold child; keep.
  - intros [[p sl] lm]. apply keeps_bind; [apply keeps_link|]. intros _. apply keeps_bind; [keep|]. intros c. apply keeps_bind; [|keep].
    unfold rb_insert_augmented_cached, rb_insert_augmented, parent_of. repeat (apply keeps_bind; intros; try solve [keep]); [apply keeps_mv_propagate|].
    apply keeps_insert; intros; [apply keeps_mv_rotate].
Qed.

Lemma keeps_dequeue a : keeps (__dequeue_entity a).
Proof.
  unfold __dequeue_entity, rb_erase_augmented_cached. apply keeps_bind; [keep|]. intros c. apply keeps_bind; [|keep].
  apply keeps_bind; [apply keeps_if; [apply keeps_step|keep]|]. intros lm. apply keeps_bind; [|keep].
  apply keeps_erase; intros; [apply keeps_mv_copy|apply keeps_mv_rotate|apply keeps_mv_propagate].
Qed.

(** ** Tree insertion and removal *)

Lemma rq_ptr st T : rq_ok st T -> root st = ptr T.
Proof. intros H. apply (zr_ctx _ _ _ (ro_rep _ _ H)). Qed.

(** The order by deadline, and exact aggregates, of a run queue. *)
Definition rq_exact (bv : Z) st T : Prop := win bv (aux st) (addrs T) /\ exactagg bv (aux st) T.
Definition rq_ordered (bd : Z) st T : Prop := dlwin bd (aux st) (addrs T) /\ ordered bd (aux st) (addrs T).

Lemma exact_ents bv c c' t : ents c' = ents c -> exactagg bv c t -> exactagg bv c' t.
Proof.
  intros E. assert (forall x, mv c' x = mv c x /\ vr c' x = vr c x) as H by (intros x; unfold mv, vr; by rewrite E).
  induction t as [|b l IHl a r IHr]; simpl; [done|]. intros ([(x & Hx & Ex) H1] & H2 & H3). split; [|auto]. rewrite (proj1 (H a)). split.
  - exists x. by rewrite (proj2 (H x)).
  - intros y Hy. rewrite (proj2 (H y)). auto.
Qed.

Lemma hd0_insert (l1 : list Z) a l2 : (if bool_decide (l1 = []) then a else hd0 (l1 ++ l2)) = hd0 (l1 ++ a :: l2).
Proof. by destruct l1. Qed.

(** The state in which [__enqueue_entity] touches the tree. *)
Definition enqueue_pre st a s : rbst cfs_rq :=
  with_aux st (set_ents (<[a := set_min_vruntime (vruntime s) s]> (ents (aux st))) (avg_vruntime_add s (aux st))).

Lemma enqueue_pre_same st a s : ents (aux st) !! a = Some s -> same_rq (aux st) (aux (enqueue_pre st a s)).
Proof.
  intros E. split; try done. intros x. cbn. destruct (decide (x = a)) as [->|]; [by rewrite lookup_insert_eq, E|by rewrite lookup_insert_ne].
Qed.

Lemma enqueue_pre_exact bv st T a s :
  ents (aux st) !! a = Some s -> a ∉ addrs T -> rq_exact bv st T -> rq_exact bv (enqueue_pre st a s) T.
Proof.
  intros E Ha [W X]. assert (agg_only (aux st) (set_ents (ents (aux (enqueue_pre st a s))) (aux st))) as A.
  { eexists. split; [done|]. apply (enqueue_pre_same st a s E). }
  assert (forall x, x <> a -> mv (aux (enqueue_pre st a s)) x = mv (aux st) x) as Hm.
  { intros x Hx. unfold mv. cbn. by rewrite lookup_insert_ne. }
  split.
  - intros x Hx. destruct (W x Hx) as [L1 L2]. split; [by apply (agg_only_live _ _ _ A)|].
    change (vr (aux (enqueue_pre st a s)) x) with (vr (set_ents (ents (aux (enqueue_pre st a s))) (aux st)) x). by rewrite (vr_agg _ _ _ A).
  - apply (exact_ents bv (set_ents (ents (aux (enqueue_pre st a s))) (aux st))); [done|].
    apply (exact_frame bv (aux st)); [exact A| |done]. intros x Hx. rewrite <- Hm by (by intros ->). done.
Qed.

Lemma ordered_ext bd c c' l : (forall x, dl c' x = dl c x) -> ordered bd c l -> ordered bd c' l.
Proof.
  intros H. unfold ordered. induction 1 as [|x l _ IH Hx]; constructor; [done|]. eapply Forall_impl; [exact Hx|].
  intros y. by rewrite !H.
Qed.

Lemma enqueue_ok bv bd st T a s n :
  rq_ok st T -> ents (aux st) !! a = Some s -> nodes st !! a = Some n -> okaddr a -> a ∉ addrs T ->
  exists st' T' l1 l2, __enqueue_entity a st = Some (tt, st') /\ rq_ok st' T'
    /\ addrs T = l1 ++ l2 /\ addrs T' = l1 ++ a :: l2 /\ same_rq (aux st) (aux st')
    /\ (rq_exact bv st T -> inw bv (vruntime s) -> rq_exact bv st' T')
    /\ (rq_ordered bd st T -> inw bd (deadline s) -> rq_ordered bd st' T' /\ around bd (aux st) (deadline s) l1 l2).
Proof.
  intros H Es En Oa Ha. pose proof H as [Hz R Hlm Hl Hsum]. set (st2 := enqueue_pre st a s).
  pose proof (enqueue_pre_same st a s Es) as S2. assert (zrep st2 [] T) as Hz2 by (by apply zrep_aux).
  assert (forall x, x ∈ addrs T -> live (aux st2) x) as Hl2 by (intros x Hx; apply (same_live _ _ _ S2); auto).
  assert (ents (aux st2) !! a = Some (set_min_vruntime (vruntime s) s)) as Ea2 by (cbn; by rewrite lookup_insert_eq).
  assert (nodes st2 = nodes st) as Nn by done.
  destruct (find_link_ok bd (S (size (nodes st2))) st2 s [] T Hz2 Hl2) as (ctx & E1 & Hzc & Ep & Hord); [by apply height_nodes|].
  cbn [plug] in Ep. rewrite <- (rq_ptr st T H) in E1.
  assert (addrs T = cleft ctx ++ cright ctx) as El by (rewrite <- Ep; by rewrite addrs_plug).
  destruct (aug_insert_ok bv st2 ctx a n Hzc) as (st3 & T' & E2 & Hz3 & R3 & A3 & Ag3 & X3); rewrite ?Ep; try done.
  { intros z [->|Hin]; [by eexists|by apply Hl2]. }
  rewrite Ep in X3. assert (same_rq (aux st) (aux st3)) as S3 by (eapply same_rq_trans; [exact S2|by apply agg_same_rq]).
  set (st' := with_aux st3 (set_leftmost (hd0 (addrs T')) (aux st3))).
  assert (same_rq (aux st) (aux st')) as S' by (destruct S3; by split).
  exists st', T', (cleft ctx), (cright ctx). split.
  { unfold __enqueue_entity. step (ent_ok _ _ _ Es). unfold bind at 1. cbn [upd_cfs].
    assert (upd_ent a (set_min_vruntime (vruntime s)) (with_aux st (avg_vruntime_add s (aux st))) = Some (tt, st2)) as Eu by (by rewrite (upd_ent_ok _ _ s)).
    unfold with_aux in Eu. step Eu. unfold bind at 1. cbn [get_root]. unfold bind at 1. cbn [cpar slot_of] in E1.
    rewrite (bool_decide_eq_true_2 _ eq_refl) in E1. cbn [root st2 enqueue_pre with_aux]. cbn [nodes st2 enqueue_pre with_aux] in E1 |- *. rewrite E1.
    unfold bind in E2 |- *. destruct (rb_link_node a (cpar ctx) (slot_of ctx) st2) as [[[] st4]|] eqn:E4; [|done]. cbn [cfs].
    unfold rb_insert_augmented_cached, bind. rewrite E2. cbn [ret upd_cfs]. do 3 f_equal. unfold st', with_aux. f_equal.
    assert (rb_leftmost (aux st4) = hd0 (cleft ctx ++ cright ctx)) as ->.
    { rewrite <- El, <- Hlm. destruct (link_ok st2 ctx a n) as (st5 & E5 & _ & X5); try done;
        [|rewrite E5 in E4; injection E4 as <-; by rewrite X5].
      intros Hin. apply Ha. change (a ∈ zaddrs [] T). rewrite <- Ep, <- zaddrs_plug, app_nil_r. unfold zaddrs. by rewrite app_nil_r. }
    rewrite hd0_insert, <- A3. done. }
  assert (forall x, x ∈ addrs T' -> live (aux st') x) as Hl'.
  { intros x. rewrite A3, elem_of_app, elem_of_cons. intros Hx. apply (same_live _ _ _ S'). destruct (decide (x = a)) as [->|Hne]; [by eexists|].
    apply Hl. rewrite El, elem_of_app. destruct Hx as [?|[?|?]]; auto. done. }
  split.
  { split; [by apply zrep_aux|done|done|done|]. rewrite A3. apply (sums_same (aux st3)); [by split|done|done|].
    apply (agg_sums _ _ _ Ag3). apply (sums_same (avg_vruntime_add s (aux st))); [|done|done|apply sums_add; [by rewrite <- El|done]].
    destruct S2 as [S2 _ _ _ _]. by split. }
  split; [done|]. split; [done|]. split; [done|]. split.
  - intros Hx Hw. pose proof (enqueue_pre_exact bv st T a s Es Ha Hx) as [W2 Ex2]. fold st2 in W2, Ex2.
    assert (vr (aux st2) a = vruntime s) as Ev by (unfold vr; by rewrite Ea2).
    assert (win bv (aux st2) (a :: addrs T)) as W2'.
    { intros x [->|Hin]%elem_of_cons; [split; [by eexists|by rewrite Ev]|by apply W2]. }
    split; [|apply (exact_ents bv (aux st3)); [done|]; apply X3; [done..|unfold mv; rewrite Ea2; by rewrite Ev]].
    intros x Hin. split; [by apply Hl'|]. change (vr (aux st') x) with (vr (aux st3) x). rewrite (vr_agg _ _ _ Ag3). apply W2'.
    revert Hin. rewrite A3, El, elem_of_cons, !elem_of_app, elem_of_cons. tauto.
  - intros [Wd Od] Hw. assert (forall x, dl (aux st2) x = dl (aux st) x) as D2 by (intros x; by apply same_dl).
    assert (around bd (aux st2) (deadline s) (cleft ctx) (cright ctx)) as Hab.
    { apply Hord; [done| | |by split; intros x ?%elem_of_nil].
      - intros x Hx. rewrite D2. by apply Wd.
      - eapply ordered_ext; [|exact Od]. done. }
    assert (around bd (aux st) (deadline s) (cleft ctx) (cright ctx)) as Hab'.
    { destruct Hab as [B1 B2]. split; intros x Hx; rewrite <- D2; auto. }
    split; [|done]. assert (forall x, dl (aux st') x = dl (aux st) x) as D' by (intros x; by apply same_dl).
    assert (dl (aux st) a = deadline s) as Da by (unfold dl; by rewrite Es). split.
    + intros x. rewrite A3, elem_of_app, elem_of_cons, D'. intros Hx. destruct (decide (x = a)) as [->|Hne]; [by rewrite Da|].
      apply Wd. rewrite El, elem_of_app. destruct Hx as [?|[?|?]]; auto. done.
    + rewrite A3. eapply ordered_ext; [exact D'|]. apply ordered_insert; [by rewrite <- El|by rewrite Da].
Qed.

Lemma mv_propagate_harmless st T a :
  zrep st [] T -> a ∈ addrs T -> (forall z, z ∈ addrs T -> live (aux st) z) ->
  exists c', mv_propagate a 0 st = Some (tt, with_aux st c') /\ agg_only (aux st) c'.
Proof.
  intros Hz Ha Hl. destruct (locate T a Ha) as (ctx & b & l & r & ->).
  pose proof (proj2 (zrep_plug st ctx [] _) Hz) as Hz1. rewrite app_nil_r in Hz1.
  pose proof (proj2 (zrep_move st L b a r ctx l) Hz1) as Hz2.
  destruct (propagate_ok 0 (S (size (nodes st))) st (Fr L b a r :: ctx) l Hz2) as (c' & E & A & _); [done| |by exists c'].
  pose proof (nodes_length _ _ _ Hz2) as Hn. unfold zaddrs in Hn. rewrite length_app in Hn. pose proof (ctx_length (Fr L b a r :: ctx)). lia.
Qed.

Lemma aug_erase_ok st T l1 a l2 :
  rq_ok st T -> addrs T = l1 ++ a :: l2 ->
  exists st' T', __rb_erase (Some min_vruntime_cb) a st = Some (tt, st') /\ zrep st' [] T' /\ rbtree T' /\ addrs T' = l1 ++ l2
    /\ agg_only (aux st) (aux st').
Proof.
  intros [Hz R _ Hl _] Et. assert (rb_holds st (l1 ++ a :: l2)) as Hh by (by exists T).
  pose proof (holds_nodup _ _ Hh) as [Hn _]. apply holds_locate in Hh as (ctx & b & l & r & Hz1 & R1 & E1 & _).
  destruct (erase_ok (Some min_vruntime_cb) (agg_only (aux st)) (live (aux st))) with (4 := Hz1) (5 := R1)
    as (st' & T' & k1 & k2 & E & Hz' & R' & A1 & A2 & Hg).
  - intros st0 x y Hg Hx Hy. destruct (mv_copy_ok st0 x y) as (c' & E & A & _); [by apply (agg_only_live _ _ _ Hg)..|].
    exists (with_aux st0 c'). split; [exact E|]. split; [done|]. split; [done|]. by eapply agg_only_trans.
  - intros st0 ctx0 d b0 x y bp i p o Hz0 Hg HU. destruct (mv_rotate_ok st0 ctx0 d b0 x y bp i p o Hz0) as (c' & E & A & _).
    { intros z Hin. apply (agg_only_live _ _ _ Hg). by apply HU. }
    exists (with_aux st0 c'). split; [exact E|]. split; [done|]. split; [done|]. by eapply agg_only_trans.
  - intros st0 T0 x Hz0 Hx Hg HU. destruct (mv_propagate_harmless st0 T0 x Hz0 Hx) as (c' & E & A).
    { intros z Hin. apply (agg_only_live _ _ _ Hg). by apply HU. }
    exists (with_aux st0 c'). split; [exact E|]. split; [done|]. split; [done|]. by eapply agg_only_trans.
  - apply agg_only_refl.
  - intros z Hin. apply Hl. by rewrite Et, <- E1.
  - exists st', T'. split; [done|]. split; [done|]. split; [done|]. split; [|done]. rewrite E1 in A1.
    destruct (nodup_split _ _ _ _ _ Hn A1) as [-> ->]. done.
Qed.

Lemma dequeue_ok st T l1 a l2 s :
  rq_ok st T -> addrs T = l1 ++ a :: l2 -> ents (aux st) !! a = Some s ->
  exists st' T', __dequeue_entity a st = Some (tt, st') /\ rq_ok st' T' /\ addrs T' = l1 ++ l2 /\ same_rq (aux st) (aux st').
Proof.
  intros H Et Es. destruct (aug_erase_ok st T l1 a l2 H Et) as (st1 & T' & E & Hz' & R' & A' & Ag).
  destruct H as [Hz Rb Hlm Hl Hsum]. assert (rb_holds st (l1 ++ a :: l2)) as Hh by (by exists T).
  destruct (agg_only_ent _ _ _ _ Ag Es) as [v Ev].
  set (c' := avg_vruntime_sub (set_min_vruntime v s) (set_leftmost (hd0 (l1 ++ l2)) (aux st1))).
  assert (same_rq (aux st) c') as Hs by (destruct (agg_same_rq _ _ Ag); by split).
  exists (with_aux st1 c'), T'. split.
  { unfold __dequeue_entity. unfold bind at 1. cbn [cfs]. unfold rb_erase_augmented_cached. rewrite Hlm, Et.
    pose proof (holds_step st l1 a l2 R Hh) as E3. pose proof (holds_nodup _ _ Hh) as [Hn _].
    assert ((if hd0 (l1 ++ a :: l2) =? a then rb_next a else ret (hd0 (l1 ++ a :: l2))) st = Some (hd0 (l1 ++ l2), st)) as E4.
    { destruct l1 as [|x l1]; cbn [app] in *.
      - change (hd0 (a :: l2)) with a. rewrite Z.eqb_refl. exact E3.
      - change (hd0 (x :: l1 ++ a :: l2)) with x. change (hd0 (x :: l1 ++ l2)) with x. apply NoDup_cons in Hn as [Hn _].
        destruct (Z.eqb_spec x a) as [->|]; [exfalso; apply Hn; rewrite elem_of_app, elem_of_cons; auto|done]. }
    unfold bind. rewrite E4, E. cbn [ret upd_cfs]. rewrite (ent_ok _ a (set_min_vruntime v s)); done. }
  split; [|done]. split; [by apply zrep_aux|done|by rewrite A'| |].
  - intros x. rewrite A'. intros Hx. apply (same_live _ _ _ Hs), Hl. rewrite Et. revert Hx. rewrite !elem_of_app, elem_of_cons. tauto.
  - rewrite A'. apply (sums_sub _ a); [|done]. apply (sums_same (aux st1)); [by split|done|done|]. apply (agg_sums _ _ _ Ag). by rewrite <- Et.
Qed.
