(* ===== verification/FairHooks.v ===== *)
(** * The fair scheduling class: the class hooks

    Every hook that sched.c calls runs to its end on a run queue that satisfies the
    invariant, keeps the invariant, and changes the set of queued entities as it should. *)

From stdpp Require Import base numbers list gmap sorting relations.
From S2P Require Import Prelude RbTree RbSpec RbProofs RbTheorems Fair FairProofs FairTheorems.

Implicit Types (st : rbst cfs_rq) (c : cfs_rq) (s : sched_entity).

(** ** Total runs *)

Definition wp {X} (m : F X) (Q : X -> rbst cfs_rq -> Prop) st : Prop :=
  match m st with Some (x, st') => Q x st' | None => False end.

Lemma wp_ret {X} (x : X) (Q : X -> rbst cfs_rq -> Prop) st : Q x st -> wp (ret x) Q st.
Proof. done. Qed.

Lemma wp_bind {X Y} (m : F X) (f : X -> F Y) Q st : wp m (fun x st' => wp (f x) Q st') st -> wp (bind m f) Q st.
Proof. unfold wp, bind. by destruct (m st) as [[x st']|]. Qed.

Lemma wp_mono {X} (m : F X) (P Q : X -> rbst cfs_rq -> Prop) st : wp m P st -> (forall x st', P x st' -> Q x st') -> wp m Q st.
Proof. unfold wp. destruct (m st) as [[x st']|]; auto. Qed.

Lemma wp_run {X} (m : F X) Q st x st' : m st = Some (x, st') -> Q x st' -> wp m Q st.
Proof. unfold wp. by intros ->. Qed.

Lemma wp_ent a s Q st : ents (aux st) !! a = Some s -> Q s st -> wp (ent a) Q st.
Proof. intros E. apply wp_run. by apply ent_ok. Qed.

Lemma wp_cfs (Q : cfs_rq -> rbst cfs_rq -> Prop) st : Q (aux st) st -> wp cfs Q st.
Proof. done. Qed.

Lemma wp_upd_cfs f (Q : unit -> rbst cfs_rq -> Prop) st : Q tt (with_aux st (f (aux st))) -> wp (upd_cfs f) Q st.
Proof. done. Qed.

Lemma wp_when b (m : F unit) (Q : unit -> rbst cfs_rq -> Prop) st : (b = true -> wp m Q st) -> (b = false -> Q tt st) -> wp (when b m) Q st.
Proof. destruct b; simpl; [by intros H _; apply H|by intros _ H; apply H]. Qed.

(** A program that only reads. *)
Definition reads {X} (m : F X) st (P : X -> Prop) : Prop := exists x, m st = Some (x, st) /\ P x.

Lemma reads_wp {X} (m : F X) st P (Q : X -> rbst cfs_rq -> Prop) : reads m st P -> (forall x, P x -> Q x st) -> wp m Q st.
Proof. intros (x & E & Hx) HQ. eapply wp_run; [exact E|]. by apply HQ. Qed.

Lemma reads_bind {X Y} (m : F X) (f : X -> F Y) st P Q :
  reads m st P -> (forall x, P x -> reads (f x) st Q) -> reads (bind m f) st Q.
Proof. intros (x & E & Hx) Hf. destruct (Hf x Hx) as (y & E' & Hy). exists y. split; [|done]. unfold bind. by rewrite E. Qed.

Lemma reads_ret {X} (x : X) st (P : X -> Prop) : P x -> reads (ret x) st P.
Proof. intros H. by exists x. Qed.

Lemma reads_ent a st : live (aux st) a -> reads (ent a) st (fun s => ents (aux st) !! a = Some s).
Proof. intros [s E]. exists s. split; [by apply ent_ok|done]. Qed.

Lemma reads_cfs st : reads cfs st (fun c => c = aux st).
Proof. by exists (aux st). Qed.

Lemma reads_true {X} (m : F X) st P : reads m st P -> reads m st (fun _ => True).
Proof. intros (x & E & _). by exists x. Qed.

(** ** The invariant *)

Record fair_inv st (T : tree) : Prop := {
  fi_rq : rq_ok st T;
  fi_mem : forall x, live (aux st) x -> okaddr x /\ is_Some (nodes st !! x);
  fi_curr : curr (aux st) <> 0 -> live (aux st) (curr (aux st)) /\ curr (aux st) ∉ addrs T;
}.

(** Whether an entity is marked runnable. *)
Definition onq c a : bool := match ents c !! a with Some s => on_rq s | None => false end.

(** The same entities exist and are runnable, and the same one runs. *)
Definition keepf st st' : Prop :=
  (forall x, live (aux st) x <-> live (aux st') x) /\ curr (aux st') = curr (aux st) /\ forall x, onq (aux st') x = onq (aux st) x.

Lemma keepf_refl st : keepf st st.
Proof. by split. Qed.

Lemma keepf_trans st1 st2 st3 : keepf st1 st2 -> keepf st2 st3 -> keepf st1 st3.
Proof. intros (H1 & H2 & H3) (H4 & H5 & H6). split; [intros x; by rewrite H1|]. split; [congruence|]. intros x. by rewrite H6. Qed.

Lemma same_keepf st st' : same_rq (aux st) (aux st') -> keepf st st'.
Proof. intros S. split; [intros x; by apply same_live|]. split; [apply S|]. intros x. by apply (same_field on_rq). Qed.

Definition set_ent st a s : rbst cfs_rq := with_aux st (set_ents (<[a := s]> (ents (aux st))) (aux st)).

Lemma set_ent_live st a s x : live (aux st) a -> live (aux st) x <-> live (aux (set_ent st a s)) x.
Proof.
  intros Ha. unfold live. cbn. destruct (decide (x = a)) as [->|]; [|by rewrite lookup_insert_ne].
  rewrite lookup_insert_eq. split; [by eexists|done].
Qed.

Lemma sums_ext c c' l :
  cfs_avg_vruntime c' = cfs_avg_vruntime c -> avg_load c' = avg_load c -> cfs_min_vruntime c' = cfs_min_vruntime c ->
  (forall x, x ∈ l -> vr c' x = vr c x /\ wt c' x = wt c x) -> sums_ok c l -> sums_ok c' l.
Proof.
  intros E1 E2 E3 Hf [S1 S2]. split; [rewrite E1, S1|rewrite E2, S2]; f_equal; apply zsum_ext; intros x Hx; destruct (Hf x Hx) as [F1 F2];
    [unfold vterm; by rewrite F1, F2, E3|done].
Qed.

(** Writing to an entity outside the tree, or to fields the tree and the sums do not use. *)
Lemma inv_set_ent st T a s s' :
  fair_inv st T -> ents (aux st) !! a = Some s -> a ∉ addrs T \/ (vruntime s' = vruntime s /\ weight s' = weight s) ->
  fair_inv (set_ent st a s') T.
Proof.
  intros [[Hz R Hlm Hl Hsum] Hm Hc] Es Hd. assert (live (aux st) a) as La by (by eexists).
  assert (forall x, live (aux st) x <-> live (aux (set_ent st a s')) x) as HL by (intros x; by apply set_ent_live).
  assert (forall x, x ∈ addrs T -> vr (aux (set_ent st a s')) x = vr (aux st) x /\ wt (aux (set_ent st a s')) x = wt (aux st) x) as Hf.
  { intros x Hx. unfold vr, wt. cbn. destruct (decide (x = a)) as [->|]; [|by rewrite lookup_insert_ne].
    rewrite lookup_insert_eq, Es. by destruct Hd as [?|[-> ->]]. }
  split; [split; [by apply zrep_aux|done|done| |]| |].
  - intros x Hx. apply HL. auto.
  - by apply (sums_ext (aux st)).
  - intros x Hx. apply Hm. by apply HL.
  - intros Hne. destruct (Hc Hne). split; [by apply HL|done].
Qed.

Lemma set_ent_keepf st a s s' : ents (aux st) !! a = Some s -> on_rq s' = on_rq s -> keepf st (set_ent st a s').
Proof.
  intros Es Ho. split; [intros x; apply set_ent_live; by eexists|]. split; [done|]. intros x. unfold onq. cbn.
  destruct (decide (x = a)) as [->|]; [by rewrite lookup_insert_eq, Es|by rewrite lookup_insert_ne].
Qed.

Lemma wp_upd_ent a f (Q : unit -> rbst cfs_rq -> Prop) st s :
  ents (aux st) !! a = Some s -> Q tt (set_ent st a (f s)) -> wp (upd_ent a f) Q st.
Proof. intros E. apply wp_run. by rewrite (upd_ent_ok _ _ _ _ E). Qed.

(** An update of one entity, as above, with the invariant around it. *)
Lemma wp_upd_inv a f (Q : unit -> rbst cfs_rq -> Prop) st T :
  fair_inv st T -> live (aux st) a ->
  a ∉ addrs T \/ (forall s, vruntime (f s) = vruntime s /\ weight (f s) = weight s) -> (forall s, on_rq (f s) = on_rq s) ->
  (forall st', fair_inv st' T -> keepf st st' -> Q tt st') -> wp (upd_ent a f) Q st.
Proof.
  intros H [s Es] Hd Ho HQ. apply (wp_upd_ent a f Q st s Es). apply HQ; [|by eapply set_ent_keepf].
  apply (inv_set_ent st T a s); [done..|]. destruct Hd as [?|Hd]; [by left|right; apply Hd].
Qed.

(** Writing to fields of the run queue that the tree does not use. *)
Lemma inv_set_cfs st T c' :
  fair_inv st T -> ents c' = ents (aux st) -> rb_leftmost c' = rb_leftmost (aux st) -> cfs_min_vruntime c' = cfs_min_vruntime (aux st) ->
  cfs_avg_vruntime c' = cfs_avg_vruntime (aux st) -> avg_load c' = avg_load (aux st) ->
  (curr c' <> 0 -> live c' (curr c') /\ curr c' ∉ addrs T) -> fair_inv (with_aux st c') T.
Proof.
  intros [[Hz R Hlm Hl Hsum] Hm Hc] E1 E2 E3 E4 E5 Hc'. assert (forall x, live c' x <-> live (aux st) x) as HL by (intros x; unfold live; by rewrite E1).
  assert (forall x, x ∈ addrs T -> vr c' x = vr (aux st) x /\ wt c' x = wt (aux st) x) as Hf by (intros x _; unfold vr, wt; by rewrite E1).
  split; [split; [by apply zrep_aux|done|by rewrite <- Hlm| |]| |done].
  - intros x Hx. apply HL. auto.
  - by apply (sums_ext (aux st)).
  - intros x Hx. apply Hm. by apply HL.
Qed.

Lemma nonnull_true a : nonnull a = true <-> a <> 0.
Proof. unfold nonnull. destruct (Z.eqb_spec a 0); by split. Qed.

Lemma nonnull_false a : nonnull a = false <-> a = 0.
Proof. unfold nonnull. destruct (Z.eqb_spec a 0); by split. Qed.

Lemma inv_root st T : fair_inv st T -> root st <> 0 -> live (aux st) (root st) /\ root st ∈ addrs T.
Proof.
  intros [H _ _] Hne. rewrite (rq_ptr st T H) in *. assert (ptr T ∈ addrs T) by (apply ptr_in; by intros ->). split; [by apply (ro_live _ _ H)|done].
Qed.

Lemma inv_live st T x : fair_inv st T -> x ∈ addrs T -> live (aux st) x.
Proof. intros [H _ _]. apply (ro_live _ _ H). Qed.

Lemma inv_first st T : fair_inv st T -> rb_leftmost (aux st) = hd0 (addrs T) /\ (rb_leftmost (aux st) <> 0 -> rb_leftmost (aux st) ∈ addrs T).
Proof.
  intros [[Hz _ Hlm _ _] _ _]. split; [done|]. rewrite Hlm. destruct (addrs T); [done|]. intros _. apply elem_of_cons. by left.
Qed.

(** ** Reading *)

Ltac reads1 :=
  match goal with
  | |- reads (bind cfs _) _ _ => eapply reads_bind; [apply reads_cfs|intros ? ->]
  | |- reads (ret _) _ _ => apply reads_ret
  | |- reads (if ?b then _ else _) _ _ => let E := fresh "Eb" in destruct b eqn:E
  | |- reads (bind (ret _) _) _ _ => eapply reads_bind; [apply (reads_ret _ _ (fun z => z = _)); reflexivity|intros ? ->]
  end.

Lemma live_sums_reads st T : fair_inv st T -> reads live_sums st (fun _ => True).
Proof.
  intros H. unfold live_sums. repeat reads1; try done. apply nonnull_true in Eb. eapply reads_bind; [apply reads_ent; by apply (fi_curr _ _ H)|].
  intros cu Ecu. by repeat reads1.
Qed.

Lemma avg_vruntime_reads st T : fair_inv st T -> reads avg_vruntime st (fun _ => True).
Proof. intros H. unfold avg_vruntime. reads1. eapply reads_bind; [by eapply live_sums_reads|]. intros [avg load] _. by repeat reads1. Qed.

Lemma eligible_reads st T v : fair_inv st T -> reads (vruntime_eligible v) st (fun _ => True).
Proof. intros H. unfold vruntime_eligible. reads1. eapply reads_bind; [by eapply live_sums_reads|]. intros [avg load] _. by repeat reads1. Qed.

Lemma entity_eligible_reads st T a : fair_inv st T -> live (aux st) a -> reads (entity_eligible a) st (fun _ => True).
Proof. intros H Ha. unfold entity_eligible. eapply reads_bind; [by apply reads_ent|]. intros s _. by eapply eligible_reads. Qed.

Lemma reads_child d a n st : nodes st !! a = Some n -> reads (child d a) st (fun x => x = kid d n).
Proof. intros E. exists (kid d n). split; [by rewrite (child_ok st d _ _ E)|done]. Qed.

Lemma pick_loop_reads fuel st T ctx t :
  fair_inv st T -> zrep st ctx t -> plug ctx t = T -> (height t <= fuel)%nat ->
  reads (pick_loop fuel (ptr t)) st (fun r => r = 0 \/ r ∈ addrs t).
Proof.
  intros H. revert fuel ctx. induction t as [|b l IHl a r IHr]; intros fuel ctx Hz HT Hf.
  { destruct fuel; simpl; apply reads_ret; by left. }
  destruct fuel as [|fuel]; [simpl in Hf; lia|]. simpl in Hf. pose proof (zr_tree _ _ _ Hz) as (E & _ & _).
  assert (forall x, x ∈ addrs (Node b l a r) -> live (aux st) x /\ x <> 0) as Hl.
  { intros x Hx. split; [apply (inv_live st T); [done|]; rewrite <- HT, addrs_plug, !elem_of_app; auto|].
    pose proof (zr_ok _ _ _ Hz) as [_ Ho]%Forall_app. rewrite Forall_forall in Ho. destruct (Ho x Hx). lia. }
  destruct (Hl a) as [La Na]; [simpl; rewrite elem_of_app, elem_of_cons; auto|].
  cbn [pick_loop ptr]. rewrite (proj2 (nonnull_true a)) by done. eapply reads_bind; [by apply (reads_child L)|].
  intros x ->. cbn [kid rb_left]. eapply (reads_bind _ _ _ (fun go => go = true -> l <> Leaf)).
  { destruct (nonnull (ptr l)) eqn:El; [|by apply reads_ret]. apply nonnull_true in El. assert (l <> Leaf) as Hne by (by intros ->).
    eapply reads_bind; [apply reads_ent, Hl; simpl; rewrite elem_of_app; left; by apply ptr_in|]. intros sl _.
    destruct (eligible_reads st T (min_vruntime sl) H) as (g & Eg & _). exists g. by split. }
  intros go Hgo. destruct go.
  - destruct (IHl fuel (Fr L b a r :: ctx)) as (x & Ex & Hx); [by apply zrep_move|done|lia|]. exists x. split; [done|].
    destruct Hx as [?|?]; [by left|right]. simpl. rewrite elem_of_app. auto.
  - eapply reads_bind; [by eapply entity_eligible_reads|]. intros e _. destruct e; [apply reads_ret; right; simpl; rewrite elem_of_app, elem_of_cons; auto|].
    eapply reads_bind; [by apply (reads_child R)|]. intros x ->. cbn [kid rb_right].
    destruct (IHr fuel (Fr R b a l :: ctx)) as (x & Ex & Hx); [by apply (zrep_move st R b a l ctx r)|done|lia|]. exists x. split; [done|].
    destruct Hx as [?|?]; [by left|right]. simpl. rewrite elem_of_app, elem_of_cons. auto.
Qed.

(** What a pick may answer. *)
Definition pickable st T (r : Z) : Prop := r = 0 \/ r = curr (aux st) \/ r ∈ addrs T.

Lemma pick_done_reads st T cu best first :
  fair_inv st T -> cu = 0 \/ cu = curr (aux st) -> best = 0 \/ best ∈ addrs T -> first = 0 \/ first ∈ addrs T ->
  reads (pick_done cu best first) st (pickable st T).
Proof.
  intros H Hcu Hb Hfi. unfold pick_done. eapply (reads_bind _ _ _ (fun r => r = 0 \/ r = curr (aux st) \/ r ∈ addrs T)).
  - destruct (Z.eqb_spec best 0) as [E|Hbn]; [apply reads_ret; tauto|]. assert (best ∈ addrs T) as Hbt by (by destruct Hb).
    destruct (nonnull cu) eqn:Ec; [|apply reads_ret; tauto]. apply nonnull_true in Ec. destruct Hcu as [?| ->]; [done|].
    eapply reads_bind; [apply reads_ent; by apply (fi_curr _ _ H)|]. intros sc _. eapply reads_bind; [apply reads_ent; by eapply inv_live|].
    intros sb _. apply reads_ret. destruct (vtime_before _ _); auto.
  - intros r Hr. apply reads_ret. unfold pickable. destruct (r =? 0); tauto.
Qed.

Lemma pick_eevdf_reads st T : fair_inv st T -> reads pick_eevdf st (pickable st T).
Proof.
  intros H. pose proof (inv_first st T H) as [_ Hf]. pose proof (fi_curr _ _ H) as Hc. unfold pick_eevdf. apply (reads_bind _ _ _ (fun r => r = root st)); [by exists (root st)|].
  intros node ->. reads1. unfold pick_first_entity. eapply (reads_bind _ _ _ (fun r => r = rb_leftmost (aux st))); [reads1; by apply reads_ret|].
  intros first ->. set (first := rb_leftmost (aux st)) in *.
  assert (first = 0 \/ first ∈ addrs T) as Hfi by (destruct (decide (first = 0)); auto).
  eapply (reads_bind _ _ _ (fun r => r = true -> curr (aux st) <> 0)).
  { destruct (nonnull (curr (aux st))) eqn:En; [|by apply reads_ret]. apply nonnull_true in En.
    eapply reads_bind; [apply reads_ent; by apply Hc|]. intros s _. by apply reads_ret. }
  intros run Hrun. reads1; [apply reads_ret; unfold pickable; destruct run; tauto|].
  eapply (reads_bind _ _ _ (fun _ => True)).
  { destruct run; [eapply entity_eligible_reads; [done|by apply Hc, Hrun]|by apply reads_ret]. }
  intros el _. eapply (reads_bind _ _ _ (fun _ => True)).
  { destruct (nonnull first) eqn:En; [|by apply reads_ret]. apply nonnull_true in En. eapply entity_eligible_reads; [done|]. eapply inv_live; eauto. }
  intros fe _. assert ((if el then curr (aux st) else 0) = 0 \/ (if el then curr (aux st) else 0) = curr (aux st)) as Hcu by (destruct el; auto).
  destruct fe; [by apply pick_done_reads|]. pose proof (fi_rq _ _ H) as Hr. rewrite (rq_ptr st T Hr).
  destruct (pick_loop_reads (S (size (nodes st))) st T [] T H) as (r & Er & Hr'); [apply Hr|done|apply height_nodes, Hr|].
  eapply (reads_bind _ _ _ (fun r => r = 0 \/ r ∈ addrs T)); [by exists r|]. intros best Hb. by apply pick_done_reads.
Qed.

(** ** Writing *)

(** Virtual time does not go back. *)
Definition forward c c' : Prop := 0 <= i64 (u64 (cfs_min_vruntime c' - cfs_min_vruntime c)).

Lemma forward_refl c c' : cfs_min_vruntime c' = cfs_min_vruntime c -> forward c c'.
Proof. intros E. unfold forward. rewrite E, Z.sub_diag. done. Qed.

Lemma update_min_ok st T :
  fair_inv st T ->
  wp update_min_vruntime (fun _ st' => fair_inv st' T /\ keepf st st' /\ ents (aux st') = ents (aux st) /\ forward (aux st) (aux st')) st.
Proof.
  intros H. unfold update_min_vruntime, pick_root_entity. apply wp_bind. eapply wp_run; [done|]. apply wp_bind, wp_cfs. apply wp_bind.
  eapply (reads_wp _ _ (fun _ => True)).
  { destruct (nonnull (curr (aux st))) eqn:E; [|by apply reads_ret]. apply nonnull_true in E.
    eapply reads_bind; [apply reads_ent; by apply (fi_curr _ _ H)|]. intros s _. by apply reads_ret. }
  intros cu _. apply wp_bind. assert (nonnull (root st) = true -> live (aux st) (root st)) as Hr by (intros ?%nonnull_true; by apply (inv_root st T)).
  eapply (reads_wp _ _ (fun _ => True)).
  { destruct cu as [s|], (nonnull (root st)); try (by apply reads_ret);
      (eapply reads_bind; [apply reads_ent; by apply Hr|]); intros ? _; by apply reads_ret. }
  intros v _. destruct (Z.ltb_spec 0 (i64 (u64 (v - cfs_min_vruntime (aux st))))) as [Hd|Hd].
  - apply wp_upd_cfs. cbn zeta. destruct H as [[Hz R Hlm Hl Hsum] Hm Hc]. split; [|split; [by split_and!|split; [done|unfold forward; simpl; lia]]].
    split; [split; [by apply zrep_aux|done|done|done|by apply sums_shift]|done|done].
  - apply wp_ret. split; [done|]. split; [apply keepf_refl|]. split; [done|]. by apply forward_refl.
Qed.

(** What the hooks call first: the running entity is charged. *)
Lemma update_curr_ok st T :
  fair_inv st T -> wp update_curr (fun _ st' => fair_inv st' T /\ keepf st st' /\ forward (aux st) (aux st')) st.
Proof.
  intros H. unfold update_curr. apply wp_bind, wp_cfs. destruct (nonnull (curr (aux st))) eqn:En;
    [|apply wp_ret; split; [done|]; split; [apply keepf_refl|by apply forward_refl]]. apply nonnull_true in En. destruct (fi_curr _ _ H En) as [[s Es] Hc].
  set (a := curr (aux st)) in *. apply wp_bind. apply (wp_ent a s); [done|].
  assert (forall st1 f Q, fair_inv st1 T -> keepf st st1 -> cfs_min_vruntime (aux st1) = cfs_min_vruntime (aux st) ->
    (forall s, on_rq (f s) = on_rq s) ->
    (forall st', fair_inv st' T -> keepf st st' -> cfs_min_vruntime (aux st') = cfs_min_vruntime (aux st) -> Q tt st') -> wp (upd_ent a f) Q st1) as Hu.
  { intros st1 f Q H1 K1 M1 Ho HQ. destruct (proj1 (proj1 K1 a)) as [s1 E1]; [by eexists|]. apply (wp_upd_ent a f Q st1 s1 E1).
    apply HQ; [|eapply keepf_trans; [exact K1|by eapply set_ent_keepf]|done]. apply (inv_set_ent st1 T a s1); auto. }
  destruct (clock_task (aux st) <=? exec_start s).
  - apply Hu; [done|apply keepf_refl|done|done|]. intros st' H' K' M'. split; [done|]. split; [done|]. by apply forward_refl.
  - apply wp_bind, Hu; [done|apply keepf_refl|done|done|]. intros st1 H1 K1 M1. apply wp_bind, Hu; [done..|]. intros st2 H2 K2 M2.
    apply wp_bind, Hu; [done|done|done|intros s'; unfold update_deadline; by destruct (_ <? _)|]. intros st3 H3 K3 M3. eapply wp_mono; [by apply update_min_ok|]. intros _ st' (I & K & _ & Fw).
    split; [done|]. split; [by eapply keepf_trans|]. unfold forward in *. by rewrite M3 in Fw.
Qed.

Lemma update_lag_ok st T a :
  fair_inv st T -> live (aux st) a -> wp (update_entity_lag a) (fun _ st' => fair_inv st' T /\ keepf st st') st.
Proof.
  intros H La. unfold update_entity_lag. apply wp_bind. eapply reads_wp; [by apply reads_ent|]. intros s _. apply wp_bind.
  eapply reads_wp; [by eapply avg_vruntime_reads|]. intros v _. apply (wp_upd_inv a _ _ st T); try done. by right.
Qed.

Lemma fairhooks_place_ok st T a b :
  fair_inv st T -> live (aux st) a -> a ∉ addrs T -> wp (place_entity a b) (fun _ st' => fair_inv st' T /\ keepf st st') st.
Proof.
  intros H La Ha. unfold place_entity. apply wp_bind. eapply reads_wp; [by eapply avg_vruntime_reads|]. intros v _. apply wp_bind.
  eapply reads_wp; [by apply reads_ent|]. intros s _. apply wp_bind, wp_cfs. cbn zeta. apply wp_bind. eapply (reads_wp _ _ (fun _ => True)).
  { destruct (_ && _); [|by apply reads_ret]. eapply (reads_bind _ _ _ (fun _ => True)); [|intros w _; by apply reads_ret].
    destruct (nonnull (curr (aux st))) eqn:E; [|by apply reads_ret]. apply nonnull_true in E.
    eapply reads_bind; [apply reads_ent; by apply (fi_curr _ _ H)|]. intros cu _. by apply reads_ret. }
  intros lag _. apply wp_bind. apply (wp_upd_inv a _ _ st T); try done; [by left|]. intros st1 H1 K1. apply wp_bind.
  apply (wp_upd_inv a _ _ st1 T); try done; [by apply K1|by left|]. intros st2 H2 K2.
  apply (wp_upd_inv a _ _ st2 T); try done; [by apply K2, K1|by right|]. intros st3 H3 K3. split; [done|]. eapply keepf_trans; [|exact K3]. by eapply keepf_trans.
Qed.

(** ** The tree under the invariant *)

Lemma keeps_mem st st' (m : F unit) :
  keeps m -> m st = Some (tt, st') -> (forall x, live (aux st) x <-> live (aux st') x) ->
  (forall x, live (aux st) x -> okaddr x /\ is_Some (nodes st !! x)) -> forall x, live (aux st') x -> okaddr x /\ is_Some (nodes st' !! x).
Proof.
  intros K E HL Hm x Hx. destruct (Hm x) as [O N]; [by apply HL|]. split; [done|]. rewrite <- elem_of_dom. rewrite (K _ _ _ E). by rewrite elem_of_dom.
Qed.

(** [a] joins the tree; the running entity is looked at apart, since the caller may be
    putting it back. *)
Lemma enqueue_inv st T a :
  fair_inv st T -> live (aux st) a -> a ∉ addrs T ->
  exists st' T' l1 l2, __enqueue_entity a st = Some (tt, st') /\ addrs T = l1 ++ l2 /\ addrs T' = l1 ++ a :: l2
    /\ keepf st st' /\ rq_ok st' T' /\ (forall x, live (aux st') x -> okaddr x /\ is_Some (nodes st' !! x)) /\ same_rq (aux st) (aux st').
Proof.
  intros [H Hm Hc] [s Es] Ha. destruct (Hm a) as [Oa [n En]]; [by eexists|].
  destruct (enqueue_ok 0 0 st T a s n H Es En Oa Ha) as (st' & T' & l1 & l2 & E & H' & E1 & E2 & S & _). exists st', T', l1, l2.
  assert (forall x, live (aux st) x <-> live (aux st') x) as HL by (intros x; by apply same_live).
  split; [done|]. split; [done|]. split; [done|]. split; [by apply same_keepf|]. split; [done|]. split; [|done].
  by apply (keeps_mem st st' (__enqueue_entity a)); [apply keeps_enqueue|..].
Qed.

Lemma dequeue_inv st T l1 a l2 :
  fair_inv st T -> addrs T = l1 ++ a :: l2 ->
  exists st' T', __dequeue_entity a st = Some (tt, st') /\ addrs T' = l1 ++ l2 /\ keepf st st' /\ fair_inv st' T'.
Proof.
  intros [H Hm Hc] Et. assert (a ∈ addrs T) as Ha by (rewrite Et, elem_of_app, elem_of_cons; auto).
  destruct (ro_live _ _ H a Ha) as [s Es]. destruct (dequeue_ok st T l1 a l2 s H Et Es) as (st' & T' & E & H' & E' & S). exists st', T'.
  assert (forall x, live (aux st) x <-> live (aux st') x) as HL by (intros x; by apply same_live).
  split; [done|]. split; [done|]. split; [by apply same_keepf|]. split; [done| |].
  - by apply (keeps_mem st st' (__dequeue_entity a)); [apply keeps_dequeue|..].
  - rewrite (sr_curr _ _ S). intros Hne. destruct (Hc Hne) as [C1 C2]. split; [by apply HL|]. intros Hin. apply C2. rewrite Et. rewrite E' in Hin.
    revert Hin. rewrite !elem_of_app, elem_of_cons. tauto.
Qed.

(** ** The hooks *)

Definition added (a : Z) (l l' : list Z) : Prop := exists l1 l2, l = l1 ++ l2 /\ l' = l1 ++ a :: l2.

(** The entities of the tree are marked runnable. *)
Definition all_on st T : Prop := forall x, x ∈ addrs T -> onq (aux st) x = true.

(** What a hook leaves: the invariant, for a queue related to the old one. *)
Definition leaves (P : list Z -> Prop) st : Prop := exists T, fair_inv st T /\ all_on st T /\ P (addrs T).

Lemma keepf_on st st' T : keepf st st' -> all_on st T -> all_on st' T.
Proof. intros (_ & _ & H) Ho x Hx. rewrite H. by apply Ho. Qed.

Lemma inv_nodup st T : fair_inv st T -> NoDup (addrs T).
Proof. intros [[Hz _ _ _ _] _ _]. apply (zr_nodup _ _ _ Hz). Qed.

Lemma inv_ne0 st T x : fair_inv st T -> x ∈ addrs T -> x <> 0.
Proof.
  intros [[Hz _ _ _ _] _ _] Hx. pose proof (zr_ok _ _ _ Hz) as Ho. unfold zaddrs in Ho. simpl in Ho. rewrite Forall_forall in Ho.
  destruct (Ho x Hx). lia.
Qed.

Lemma added_in a l l' x : added a l l' -> x ∈ l' <-> x = a \/ x ∈ l.
Proof. intros (l1 & l2 & -> & ->). rewrite !elem_of_app, elem_of_cons. tauto. Qed.

Lemma added_fresh a l l' : added a l l' -> NoDup l' -> a ∉ l.
Proof.
  intros (l1 & l2 & -> & ->) (_ & Nd & [Na _]%NoDup_cons)%NoDup_app. rewrite elem_of_app. intros [Hx|Hx]; [|done].
  apply (Nd a Hx). apply elem_of_cons. by left.
Qed.

Lemma inv_same_cfs st T c' :
  fair_inv st T -> ents c' = ents (aux st) -> rb_leftmost c' = rb_leftmost (aux st) -> cfs_min_vruntime c' = cfs_min_vruntime (aux st) ->
  cfs_avg_vruntime c' = cfs_avg_vruntime (aux st) -> avg_load c' = avg_load (aux st) -> curr c' = curr (aux st) -> fair_inv (with_aux st c') T.
Proof.
  intros H E1 E2 E3 E4 E5 E6. apply inv_set_cfs; try done. rewrite E6. intros Hne. destruct (fi_curr _ _ H Hne). split; [|done].
  unfold live. by rewrite E1.
Qed.

Lemma wp_set_on a b (Q : unit -> rbst cfs_rq -> Prop) st T :
  fair_inv st T -> live (aux st) a ->
  (forall st', fair_inv st' T -> curr (aux st') = curr (aux st) -> (forall x, onq (aux st') x = if decide (x = a) then b else onq (aux st) x) -> Q tt st') ->
  wp (upd_ent a (set_on_rq b)) Q st.
Proof.
  intros H [s Es] HQ. apply (wp_upd_ent a _ Q st s Es). apply HQ; [apply (inv_set_ent st T a s); auto|done|]. intros x. unfold onq. cbn.
  destruct (decide (x = a)) as [->|]; [by rewrite lookup_insert_eq|by rewrite lookup_insert_ne].
Qed.

(** [a], not in the tree, becomes runnable in it. *)
Lemma enqueue_curr_ok st T T' st' a :
  fair_inv st T -> rq_ok st' T' -> (forall x, live (aux st') x -> okaddr x /\ is_Some (nodes st' !! x)) -> keepf st st' ->
  added a (addrs T) (addrs T') -> a <> curr (aux st) -> fair_inv st' T'.
Proof.
  intros H R M K Ha Hc. split; [done|done|]. destruct K as (K1 & K2 & _). rewrite K2. intros Hne. destruct (fi_curr _ _ H Hne) as [C1 C2].
  split; [by apply K1|]. rewrite (added_in _ _ _ _ Ha). by intros [?|?].
Qed.

Lemma enqueue_entity_ok st T a :
  fair_inv st T -> all_on st T -> live (aux st) a -> a ∉ addrs T -> a <> curr (aux st) ->
  wp (enqueue_entity a) (fun _ => leaves (added a (addrs T))) st.
Proof.
  intros H Ho La Ha Hc. unfold enqueue_entity. apply wp_bind. eapply wp_mono; [by apply update_curr_ok|]. intros _ st1 (H1 & K1 & _).
  apply wp_bind. apply (wp_upd_inv a _ _ st1 T); [done|by apply K1|by left|intros s; unfold set_load_weight; by destruct (_ =? _)|].
  intros st2 H2 K2. assert (live (aux st2) a) as L2 by (by apply K2, K1).
  apply wp_bind. eapply reads_wp; [by apply reads_ent|]. intros s _. apply wp_bind. eapply wp_mono; [by apply (fairhooks_place_ok st2 T a)|].
  intros _ st3 [H3 K3]. assert (live (aux st3) a) as L3 by (by apply K3). apply wp_bind.
  destruct (enqueue_inv st3 T a H3 L3 Ha) as (st4 & T' & l1 & l2 & E & E1 & E2 & K4 & R4 & M4 & _). eapply wp_run; [exact E|].
  assert (keepf st st3) as K by (eapply keepf_trans; [|exact K3]; by eapply keepf_trans).
  assert (added a (addrs T) (addrs T')) as Had by (exists l1, l2; done).
  assert (fair_inv st4 T') as H4 by (apply (enqueue_curr_ok st3 T T' st4 a); try done; destruct K as (_ & -> & _); done).
  apply wp_bind. apply (wp_set_on a true _ st4 T'); [done|by apply K4|]. intros st5 H5 _ O5. apply wp_upd_cfs.
  exists T'. split; [by apply inv_same_cfs|]. split; [|done]. intros x. rewrite (added_in _ _ _ _ Had).
  intros Hx. cbn [aux with_aux]. change (onq (set_nr_running _ (aux st5)) x) with (onq (aux st5) x). rewrite O5. destruct (decide (x = a)); [done|].
  destruct Hx as [?|Hx]; [done|]. destruct K4 as (_ & _ & ->). by apply (keepf_on st st3 T K Ho).
Qed.

(** The running entity, or one of the tree, stops being runnable. *)
Lemma dequeue_entity_ok st T a :
  fair_inv st T -> all_on st T -> (a = curr (aux st) /\ a <> 0) \/ a ∈ addrs T ->
  wp (dequeue_entity a) (fun _ => leaves (fun l => if a =? curr (aux st) then l = addrs T else added a l (addrs T))) st.
Proof.
  intros H Ho Ha. assert (live (aux st) a) as La by (destruct Ha as [[-> ?]|?]; [by apply (fi_curr _ _ H)|by eapply inv_live]).
  unfold dequeue_entity. apply wp_bind. eapply wp_mono; [by apply update_curr_ok|]. intros _ st1 (H1 & K1 & _).
  apply wp_bind. eapply wp_mono; [apply (update_lag_ok st1 T a); [done|by apply K1]|]. intros _ st2 [H2 K2].
  assert (keepf st st2) as K by (by eapply keepf_trans). pose proof (keepf_on _ _ _ K Ho) as Ho2.
  apply wp_bind, wp_cfs. apply wp_bind. rewrite (proj1 (proj2 K)). assert (live (aux st2) a) as L2 by (by apply K).
  set (P := fun l => if a =? curr (aux st) then l = addrs T else added a l (addrs T)).
  apply (wp_mono _ (fun _ st3 => live (aux st3) a /\ exists T', fair_inv st3 T' /\ all_on st3 T' /\ a ∉ addrs T' /\ P (addrs T'))).
  - unfold P. destruct (Z.eqb_spec a (curr (aux st))) as [E|Hne].
    + apply wp_upd_cfs. split; [done|]. exists T. split; [by apply inv_set_cfs|]. split; [done|]. split; [|done].
      assert (a <> 0) by (destruct Ha as [[_ ?]|?]; [done|by eapply inv_ne0]). subst a. by apply (fi_curr _ _ H).
    + assert (a ∈ addrs T) as Hin by (by destruct Ha as [[? _]|?]). apply list_elem_of_split in Hin as (l1 & l2 & Et).
      destruct (dequeue_inv st2 T l1 a l2 H2 Et) as (st3 & T' & E & E' & K3 & H3). eapply wp_run; [exact E|]. split; [by apply K3|].
      assert (added a (addrs T') (addrs T)) as Had by (exists l1, l2; by rewrite E').
      exists T'. split; [done|]. split; [|split; [eapply added_fresh; [exact Had|by eapply inv_nodup]|done]].
      intros x Hx. destruct K3 as (_ & _ & ->). apply Ho2. rewrite (added_in _ _ _ _ Had). by right.
  - intros _ st3 (L3 & T' & H3 & O3 & N3 & HP). apply wp_bind. apply (wp_set_on a false _ st3 T'); [done|done|]. intros st4 H4 _ O4.
    assert (all_on st4 T') as Ho4 by (intros x Hx; rewrite O4; destruct (decide (x = a)) as [->|]; [done|by apply O3]).
    apply wp_bind, wp_upd_cfs. eapply wp_mono; [apply (update_min_ok _ T'); by apply inv_same_cfs|]. intros _ st5 (H5 & K5 & _).
    exists T'. split; [done|]. split; [|done]. intros x Hx. destruct K5 as (_ & _ & ->). by apply Ho4.
Qed.

(** An entity of the tree starts to run. *)
Lemma set_next_ok st T a :
  fair_inv st T -> all_on st T -> a ∈ addrs T ->
  wp (set_next_entity a) (fun _ st' => live (aux st') a /\ curr (aux st') = a /\ leaves (fun l => added a l (addrs T)) st') st.
Proof.
  intros H Ho Hin. destruct (inv_live _ _ _ H Hin) as [s Es]. unfold set_next_entity. apply wp_bind. apply (wp_ent a s); [done|].
  apply wp_bind, wp_cfs. assert (a <> curr (aux st)) as Hne.
  { intros E. pose proof (inv_ne0 _ _ _ H Hin). rewrite E in *. by destruct (fi_curr _ _ H). }
  rewrite (proj2 (Z.eqb_neq a (curr (aux st)))) by done. rewrite andb_true_r.
  assert (on_rq s = true) as -> by (specialize (Ho a Hin); unfold onq in Ho; by rewrite Es in Ho).
  apply wp_bind. apply wp_when; [intros _|done]. pose proof Hin as Hin'. apply list_elem_of_split in Hin' as (l1 & l2 & Et).
  destruct (dequeue_inv st T l1 a l2 H Et) as (st3 & T' & E & E' & K3 & H3). eapply wp_run; [exact E|].
  assert (added a (addrs T') (addrs T)) as Had by (exists l1, l2; by rewrite E').
  apply wp_bind. apply (wp_upd_inv a _ _ st3 T'); [done|apply K3; by eexists|by right|done|]. intros st4 H4 K4. apply wp_upd_cfs.
  assert (live (aux st4) a) as L4 by (apply K4, K3; by eexists). split; [done|]. split; [done|]. exists T'.
  split; [apply inv_set_cfs; try done; intros _; split; [done|eapply added_fresh; [exact Had|by eapply inv_nodup]]|].
  split; [|done]. intros x Hx. cbn [aux with_aux]. change (onq (set_curr _ (aux st4)) x) with (onq (aux st4) x). destruct K4 as (_ & _ & ->), K3 as (_ & _ & ->).
  apply Ho. rewrite (added_in _ _ _ _ Had). by right.
Qed.

(** The hooks as sched.c calls them. *)
Inductive fair_op :=
  | FEnqueue (t : Z) | FPick | FBlock (t : Z) | FRequeue (t : Z) | FSteal (now : Z) | FAccept (t : Z)
  | FTick | FReweight (n p slice_ns : Z) | FYield | FSlice | FClock (now : Z).

Definition run_op (op : fair_op) : F unit :=
  match op with
  | FEnqueue t => fair_enqueue t
  | FPick => fair_pick ;;; skip
  | FBlock t => fair_block_current t
  | FRequeue t => fair_requeue_preempted t
  | FSteal now => fair_steal now ;;; skip
  | FAccept t => fair_accept_stolen t
  | FTick => fair_entity_tick ;;; skip
  | FReweight n p sl => fair_reweight_current n p sl
  | FYield => fair_yield_current
  | FSlice => fair_slice_remaining_ns ;;; skip
  | FClock now => upd_cfs (set_clock now)
  end.

(** What sched.c guarantees: only an entity that is neither queued nor running is woken or
    accepted, the one that blocks is the running one, and the one put back is not queued. *)
Definition queued st (t : Z) : Prop := exists T, zrep st [] T /\ t ∈ addrs T.

Definition allowed (op : fair_op) st : Prop :=
  match op with
  | FEnqueue t | FAccept t => live (aux st) t /\ ~ queued st t /\ t <> curr (aux st)
  | FBlock t => t = curr (aux st) /\ t <> 0
  | FRequeue t => live (aux st) t /\ ~ queued st t
  | _ => True
  end.

(** How the queue changes. *)
Definition effect (op : fair_op) st (l l' : list Z) : Prop :=
  match op with
  | FEnqueue t | FAccept t => added t l l'
  | FRequeue t => if onq (aux st) t then added t l l' else l' = l
  | FPick => l' = l \/ exists a, added a l' l
  | FSteal _ => match l with [] => l' = [] | _ :: l => l' = l end
  | _ => l' = l
  end.

Lemma leaves_keep st st' T (P : list Z -> Prop) : fair_inv st' T -> keepf st st' -> all_on st T -> P (addrs T) -> leaves P st'.
Proof. intros H K Ho HP. exists T. split; [done|]. split; [by eapply keepf_on|done]. Qed.

Lemma pick_ok st T :
  fair_inv st T -> all_on st T -> wp fair_pick (fun r => leaves (fun l => l = addrs T \/ added r l (addrs T))) st.
Proof.
  intros H Ho. unfold fair_pick. apply wp_bind. eapply wp_mono; [by apply update_curr_ok|]. intros _ st1 (H1 & K1 & _).
  pose proof (keepf_on _ _ _ K1 Ho) as Ho1. apply wp_bind, wp_cfs. destruct (nr_running (aux st1) =? 0).
  { apply wp_bind. apply wp_when; intros _; [apply wp_upd_cfs|]; apply wp_ret; exists T; (split; [|split; [done|by left]]); [by apply inv_set_cfs|done]. }
  apply wp_bind. eapply reads_wp; [by apply pick_eevdf_reads|]. intros r Hr. destruct (Z.eqb_spec r 0) as [->|Hne].
  { apply wp_ret. exists T. split; [done|]. split; [done|by left]. }
  apply wp_bind, wp_cfs. apply wp_bind.
  apply (wp_mono _ (fun _ st2 => live (aux st2) r /\ leaves (fun l => l = addrs T \/ added r l (addrs T)) st2)).
  - destruct (Z.eqb_spec r (curr (aux st1))) as [E|Hnc]; cbn [negb when].
    + apply wp_ret. split; [subst r; by apply (fi_curr _ _ H1)|]. exists T. split; [done|]. split; [done|by left].
    + assert (r ∈ addrs T) as Hin by (by destruct Hr as [?|[?|?]]). eapply wp_mono; [by apply (set_next_ok st1 T r)|].
      intros _ st2 (L2 & _ & T' & H2 & O2 & A2). split; [done|]. exists T'. split; [done|]. split; [done|by right].
  - intros _ st2 (L2 & T' & H2 & O2 & A2). apply wp_bind. apply (wp_upd_inv r _ _ st2 T'); [done|done|by right|done|]. intros st3 H3 K3.
    apply wp_ret. by eapply leaves_keep.
Qed.

Lemma requeue_ok st T t :
  fair_inv st T -> all_on st T -> live (aux st) t -> t ∉ addrs T ->
  wp (put_prev_entity t) (fun _ => leaves (fun l => if onq (aux st) t then added t (addrs T) l else l = addrs T)) st.
Proof.
  intros H Ho Lt Ht. unfold put_prev_entity. apply wp_bind. eapply wp_mono; [by apply update_curr_ok|]. intros _ st1 (H1 & K1 & _).
  pose proof (keepf_on _ _ _ K1 Ho) as Ho1. assert (live (aux st1) t) as [s Es] by (by apply K1). apply wp_bind. apply (wp_ent t s); [done|].
  assert (on_rq s = onq (aux st) t) as -> by (destruct K1 as (_ & _ & K1); rewrite <- K1; unfold onq; by rewrite Es).
  apply wp_bind. destruct (onq (aux st) t) eqn:Eo; cbn [when].
  - destruct (enqueue_inv st1 T t H1) as (st2 & T' & l1 & l2 & E & E1 & E2 & K2 & R2 & M2 & _); [by eexists|done|]. eapply wp_run; [exact E|].
    assert (added t (addrs T) (addrs T')) as Had by (exists l1, l2; done).
    assert (all_on st2 T') as O2.
    { intros x. rewrite (added_in _ _ _ _ Had). destruct K2 as (_ & _ & ->). intros [->|Hx]; [|by apply Ho1]. destruct K1 as (_ & _ & ->). done. }
    apply wp_bind, wp_cfs. apply wp_when.
    + intros _. apply wp_upd_cfs. exists T'. split; [|done]. destruct R2 as [Hz R Hlm Hl Hs]. split; [|done|done].
      split; [by apply zrep_aux|done|done|done|by apply (sums_ext (aux st2))].
    + intros Hc%Z.eqb_neq. exists T'. split; [|done]. apply (enqueue_curr_ok st1 T T' st2 t); try done. destruct K2 as (_ & K2 & _). by rewrite <- K2.
  - apply wp_ret. apply wp_bind, wp_cfs. apply wp_when; intros _; [apply wp_upd_cfs|]; exists T; (split; [|done]); [by apply inv_set_cfs|done].
Qed.

Lemma wp_skip {X} (m : F X) (Q : rbst cfs_rq -> Prop) st : wp m (fun _ => Q) st -> wp (m ;;; skip) (fun _ => Q) st.
Proof. intros H. apply wp_bind. eapply wp_mono; [exact H|]. by intros x st' HQ. Qed.

Lemma steal_ok st T now :
  fair_inv st T -> all_on st T ->
  wp (fair_steal now) (fun _ => leaves (fun l' => match addrs T with [] => l' = [] | _ :: l => l' = l end)) st.
Proof.
  intros H Ho. pose proof (inv_first st T H) as [Hf _]. unfold fair_steal, pick_first_entity. apply wp_bind. eapply wp_run; [done|]. rewrite Hf.
  destruct (addrs T) as [|a l] eqn:Et.
  - apply wp_ret. exists T. by rewrite Et.
  - change (hd0 (a :: l)) with a. assert (a ∈ addrs T) as Hin by (rewrite Et; apply elem_of_cons; by left).
    rewrite (proj2 (Z.eqb_neq a 0)) by (by eapply inv_ne0). apply wp_bind, wp_upd_cfs. apply wp_bind.
    eapply wp_mono; [apply (dequeue_entity_ok _ T a); [by apply inv_same_cfs|done|by right]|]. intros _ st' (T' & H' & O' & P'). apply wp_ret.
    exists T'. split; [done|]. split; [done|]. cbn [curr aux with_aux set_clock] in P'.
    rewrite (proj2 (Z.eqb_neq a (curr (aux st)))) in P'.
    + destruct P' as (l1 & l2 & E1 & E2). rewrite Et in E2. pose proof (inv_nodup _ _ H) as Hn. rewrite Et in Hn.
      destruct (nodup_split [] l l1 l2 a Hn E2) as [<- ->]. done.
    + intros E. pose proof (inv_ne0 _ _ _ H Hin). rewrite E in *. by destruct (fi_curr _ _ H).
Qed.

Lemma tick_ok st T : fair_inv st T -> all_on st T -> wp fair_entity_tick (fun _ => leaves (fun l => l = addrs T)) st.
Proof.
  intros H Ho. unfold fair_entity_tick. apply wp_bind. eapply wp_mono; [by apply update_curr_ok|]. intros _ st1 (H1 & K1 & _).
  assert (leaves (fun l => l = addrs T) st1) as Hlv by (by apply (leaves_keep st st1 T)).
  apply wp_bind, wp_cfs. destruct (Z.eqb_spec (curr (aux st1)) 0) as [E|Hne]; [by apply wp_ret|]. cbn [orb].
  destruct (nr_running (aux st1) <=? 1); [by apply wp_ret|]. apply wp_bind. eapply reads_wp; [apply reads_ent; by apply (fi_curr _ _ H1)|]. intros cu _.
  cbn zeta. destruct (slice_of cu <=? _); [by apply wp_ret|]. destruct (_ <? SCHED_MIN_PREEMPT_NS); [by apply wp_ret|].
  apply wp_bind. eapply reads_wp; [by apply pick_eevdf_reads|]. intros r Hr.
  destruct (Z.eqb_spec r 0) as [->|Hr0]; [by apply wp_ret|]. cbn [orb]. destruct (Z.eqb_spec r (curr (aux st1))) as [->|Hrc]; [by apply wp_ret|].
  assert (r ∈ addrs T) as Hin by (by destruct Hr as [?|[?|?]]). apply wp_bind. eapply reads_wp; [apply reads_ent; by eapply inv_live|].
  intros f _. by apply wp_ret.
Qed.

Lemma reweight_ok st T n p sl :
  fair_inv st T -> all_on st T -> wp (fair_reweight_current n p sl) (fun _ => leaves (fun l => l = addrs T)) st.
Proof.
  intros H Ho. unfold fair_reweight_current. apply wp_bind, wp_cfs. destruct (Z.eqb_spec (curr (aux st)) 0) as [E|Hne]; [apply wp_ret; by exists T|].
  destruct (fi_curr _ _ H Hne) as [Lc Nc]. apply wp_bind. eapply wp_mono; [by apply update_curr_ok|]. intros _ st1 (H1 & K1 & _).
  apply wp_bind. apply (wp_upd_inv _ _ _ st1 T); [done|by apply K1|by left|done|]. intros st2 H2 K2. assert (keepf st st2) as K02 by (by eapply keepf_trans).
  apply wp_bind. apply (wp_mono _ (fun _ st3 => fair_inv st3 T /\ keepf st st3)).
  { apply wp_when; intros _; [|done]. apply (wp_upd_inv _ _ _ st2 T); [done|by apply K02|by left|done|]. intros st3 H3 K3. split; [done|by eapply keepf_trans]. }
  intros _ st3 [H3 K3]. apply wp_bind. apply (wp_upd_inv _ _ _ st3 T); [done|by apply K3|by left|intros s; unfold set_load_weight; by destruct (_ =? _)|].
  intros st4 H4 K4. assert (keepf st st4) as K04 by (by eapply keepf_trans).
  apply (wp_upd_inv _ _ _ st4 T); [done|by apply K04|by left|done|]. intros st5 H5 K5. apply (leaves_keep st st5 T); try done. by eapply keepf_trans.
Qed.

Lemma yield_ok st T : fair_inv st T -> all_on st T -> wp fair_yield_current (fun _ => leaves (fun l => l = addrs T)) st.
Proof.
  intros H Ho. unfold fair_yield_current. apply wp_bind, wp_cfs. destruct (Z.eqb_spec (curr (aux st)) 0) as [E|Hne]; [apply wp_ret; by exists T|].
  destruct (fi_curr _ _ H Hne) as [Lc Nc]. apply wp_bind. eapply wp_mono; [by apply update_curr_ok|]. intros _ st1 (H1 & K1 & _).
  apply wp_bind. eapply reads_wp; [apply reads_ent; by apply K1|]. intros s _. cbn zeta.
  apply wp_bind. apply (wp_upd_inv _ _ _ st1 T); [done|by apply K1|by left|done|]. intros st2 H2 K2. assert (keepf st st2) as K02 by (by eapply keepf_trans).
  apply wp_bind. apply (wp_upd_inv _ _ _ st2 T); [done|by apply K02|by left|done|]. intros st3 H3 K3.
  eapply wp_mono; [by apply update_min_ok|]. intros _ st4 (H4 & K4 & _). apply (leaves_keep st st4 T); try done.
  eapply keepf_trans; [exact K02|]. by eapply keepf_trans.
Qed.

Lemma slice_ok st T : fair_inv st T -> reads fair_slice_remaining_ns st (fun _ => True).
Proof.
  intros H. unfold fair_slice_remaining_ns. reads1. destruct (Z.eqb_spec (curr (aux st)) 0) as [E|Hne]; [by apply reads_ret|]. cbn [orb].
  destruct (_ <=? 1); [by apply reads_ret|]. eapply reads_bind; [apply reads_ent; by apply (fi_curr _ _ H)|]. intros cu _. cbn zeta.
  destruct (_ <=? _); by apply reads_ret.
Qed.

Lemma op_ok op st T :
  fair_inv st T -> all_on st T -> allowed op st -> wp (run_op op) (fun _ => leaves (effect op st (addrs T))) st.
Proof.
  intros H Ho Ha. assert (forall t, ~ queued st t -> t ∉ addrs T) as Hq.
  { intros t Hn Hin. apply Hn. exists T. split; [apply (fi_rq _ _ H)|done]. }
  destruct op; cbn [run_op allowed] in *.
  - destruct Ha as (L & Q & C). by apply enqueue_entity_ok; auto.
  - apply wp_skip. eapply wp_mono; [by apply pick_ok|]. intros r st' (T' & H' & O' & P'). exists T'. split; [done|]. split; [done|].
    destruct P' as [->|P']; [by left|right; eauto].
  - destruct Ha as [-> Hne]. unfold fair_block_current. eapply wp_mono; [apply (dequeue_entity_ok st T); auto|]. intros r st' (T' & H' & O' & P').
    rewrite Z.eqb_refl in P'. by exists T'.
  - destruct Ha as (L & Q). by apply requeue_ok; auto.
  - apply wp_skip. by apply steal_ok.
  - destruct Ha as (L & Q & C). by apply enqueue_entity_ok; auto.
  - apply wp_skip. by apply tick_ok.
  - by apply reweight_ok.
  - by apply yield_ok.
  - apply wp_skip. eapply reads_wp; [by eapply slice_ok|]. intros _ _. by exists T.
  - apply wp_upd_cfs. exists T. split; [by apply inv_same_cfs|done].
Qed.

(** The states a run queue can be in: [cfs_rq_init], then hooks. *)
Inductive fair_reach : rbst cfs_rq -> Prop :=
  | reach_init st0 st :
      (forall x, live (aux st0) x -> okaddr x /\ is_Some (nodes st0 !! x)) -> cfs_rq_init st0 = Some (tt, st) -> fair_reach st
  | reach_op st st' op : fair_reach st -> allowed op st -> run_op op st = Some (tt, st') -> fair_reach st'.

Lemma fairhooks_init_inv st0 st :
  (forall x, live (aux st0) x -> okaddr x /\ is_Some (nodes st0 !! x)) -> cfs_rq_init st0 = Some (tt, st) ->
  fair_inv st Leaf /\ all_on st Leaf.
Proof.
  intros Hm [= <-]. split; [|by intros x ?%elem_of_nil]. split; [|done|done]. split; [|split; [done|split; [done|by exists O]]|done|by intros x ?%elem_of_nil|done].
  split; [done|done|apply NoDup_nil_2|done].
Qed.

Lemma fairhooks_reach_inv st : fair_reach st -> exists T, fair_inv st T /\ all_on st T.
Proof.
  induction 1 as [st0 st Hm E|st st' op _ (T & H & Ho) Ha E]; [exists Leaf; by eapply fairhooks_init_inv|].
  pose proof (op_ok op st T H Ho Ha) as Hw. unfold wp in Hw. rewrite E in Hw. destruct Hw as (T' & H' & O' & _). eauto.
Qed.
