(* ===== verification/FairPick.v ===== *)
(** * The fair scheduling class: picking, and the theorems

    The search of [pick_eevdf] against its specification, the claims on the class hooks,
    and the run in which an aggregate goes stale. *)

From stdpp Require Import base numbers list gmap sorting.
From S2P Require Import Prelude RbTree RbSpec RbProofs RbTheorems Fair FairProofs FairTheorems FairHooks.

Implicit Types (st : rbst cfs_rq) (c : cfs_rq) (s : sched_entity).

(** [vruntime_eligible], given the live sums. *)
Definition elig c (avg load v : Z) : bool := i64 (i64 (u64 (v - cfs_min_vruntime c)) * load) <=? avg.

Definition key c (x : Z) : Z := i64 (u64 (vr c x - cfs_min_vruntime c)).

(** Loads and distances for which the comparison of [vruntime_eligible] does not overflow. *)
Definition calm c (load : Z) (l : list Z) : Prop := 0 <= load <= 2 ^ 20 /\ forall x, x ∈ l -> - 2 ^ 42 <= key c x <= 2 ^ 42.

Lemma key_order bv c x y :
  inw bv (vr c x) -> inw bv (vr c y) -> - 2 ^ 42 <= key c x <= 2 ^ 42 -> - 2 ^ 42 <= key c y <= 2 ^ 42 ->
  key c x - key c y = off bv (vr c x) - off bv (vr c y).
Proof.
  intros [_ Wx] [_ Wy] Kx Ky. pose proof (u64_range (vr c x - bv)). pose proof (u64_range (vr c y - bv)).
  assert (- W63 <= key c x - key c y < W63) as Hk by lia.
  assert (- W63 <= off bv (vr c x) - off bv (vr c y) < W63) as Hf by (unfold off in *; lia).
  rewrite <- (i64_small _ Hk), <- (i64_small _ Hf). unfold key, off. wrap_ring. ring.
Qed.

Lemma elig_mono bv c avg load l x y :
  calm c load l -> x ∈ l -> y ∈ l -> inw bv (vr c x) -> inw bv (vr c y) -> off bv (vr c x) <= off bv (vr c y) ->
  elig c avg load (vr c y) = true -> elig c avg load (vr c x) = true.
Proof.
  intros [Hl Hk] Hx Hy Wx Wy Hle. pose proof (key_order bv c x y Wx Wy (Hk x Hx) (Hk y Hy)) as E. unfold elig.
  change (i64 (u64 (vr c x - cfs_min_vruntime c))) with (key c x). change (i64 (u64 (vr c y - cfs_min_vruntime c))) with (key c y).
  specialize (Hk x Hx) as Kx. specialize (Hk y Hy) as Ky. rewrite !i64_small by nia. rewrite !Z.leb_le. nia.
Qed.

(** The first element of a list that satisfies [E], or 0. *)
Definition first_of (E : Z -> bool) (l : list Z) (r : Z) : Prop :=
  (r = 0 /\ forall x, x ∈ l -> E x = false) \/ (exists l1 l2, l = l1 ++ r :: l2 /\ E r = true /\ forall x, x ∈ l1 -> E x = false).

Section pick.
Variables (bv : Z) (st : rbst cfs_rq) (T : tree) (avg load : Z).
Hypothesis Hinv : fair_inv st T.
Hypothesis Hex : rq_exact bv st T.
Hypothesis Hsums : live_sums st = Some ((avg, load), st).
Hypothesis Hcalm : calm (aux st) load (addrs T).

Definition E (x : Z) : bool := elig (aux st) avg load (vr (aux st) x).

Lemma eligible_eq v : vruntime_eligible v st = Some (elig (aux st) avg load v, st).
Proof. unfold vruntime_eligible, bind. cbn [cfs]. by rewrite Hsums. Qed.

Lemma entity_eligible_eq x : live (aux st) x -> entity_eligible x st = Some (E x, st).
Proof. intros [s Es]. unfold entity_eligible. step (ent_ok _ _ _ Es). rewrite eligible_eq. unfold E, vr. by rewrite Es. Qed.

(** The aggregate of a subtree is eligible exactly if one of its entities is. *)
Lemma aggregate_elig t :
  t <> Leaf -> (forall x, x ∈ addrs t -> x ∈ addrs T) -> exactagg bv (aux st) t ->
  elig (aux st) avg load (mv (aux st) (ptr t)) = true <-> exists x, x ∈ addrs t /\ E x = true.
Proof.
  intros Hne Hsub Hx. destruct t as [|b l a r]; [done|]. cbn [ptr]. destruct Hx as ([(x & Hin & Em) Hmin] & _). rewrite Em in *. split.
  - intros He. by exists x.
  - intros (y & Hy & He). destruct Hex as [W _]. eapply (elig_mono bv _ _ _ _ x y Hcalm); [by apply Hsub|by apply Hsub|by apply W, Hsub|by apply W, Hsub| |exact He].
    by apply Hmin.
Qed.

Lemma pick_loop_ok fuel ctx t :
  zrep st ctx t -> plug ctx t = T -> exactagg bv (aux st) t -> (height t <= fuel)%nat ->
  exists r, pick_loop fuel (ptr t) st = Some (r, st) /\ first_of E (addrs t) r.
Proof.
  revert fuel ctx. induction t as [|b l IHl a r IHr]; intros fuel ctx Hz HT Hx Hf.
  { exists 0. split; [by destruct fuel|]. left. split; [done|]. by intros x ?%elem_of_nil. }
  destruct fuel as [|fuel]; [simpl in Hf; lia|]. simpl in Hf. pose proof (zr_tree _ _ _ Hz) as (En & _ & _).
  assert (forall x, x ∈ addrs (Node b l a r) -> x ∈ addrs T) as Hsub by (intros x Hin; rewrite <- HT, addrs_plug, !elem_of_app; auto).
  assert (a ∈ addrs T) as Ha by (apply Hsub; simpl; rewrite elem_of_app, elem_of_cons; auto).
  cbn [pick_loop ptr]. rewrite (proj2 (nonnull_true a)) by (by apply (inv_ne0 st T)). step (child_ok st L _ _ En). cbn [kid rb_left].
  assert (exists go, (if nonnull (ptr l) then (l0 <- ent (ptr l) ;; vruntime_eligible (min_vruntime l0))%rb else ret false) st = Some (go, st)
            /\ (go = true <-> exists x, x ∈ addrs l /\ E x = true)) as (go & Ego & Hgo).
  { destruct l as [|bl ll la lr]; [exists false; split; [done|]; split; [done|by intros (x & ?%elem_of_nil & _)]|].
    assert (la ∈ addrs T) as Hla by (apply Hsub; simpl; rewrite !elem_of_app, !elem_of_cons; auto).
    cbn [ptr]. rewrite (proj2 (nonnull_true la)) by (by apply (inv_ne0 st T)). destruct (inv_live st T la Hinv Hla) as [sl Es]. step (ent_ok _ _ _ Es).
    rewrite eligible_eq. eexists. split; [reflexivity|]. rewrite <- (aggregate_elig (Node bl ll la lr)); [|done| |apply Hx].
    - cbn [ptr]. unfold mv. by rewrite Es.
    - intros x Hin. apply Hsub. simpl. rewrite elem_of_app. by left. }
  step Ego. destruct go.
  - destruct (IHl fuel (Fr L b a r :: ctx)) as (x & Ex & Hr); [by apply zrep_move|done|apply Hx|lia|]. exists x. split; [done|].
    destruct Hgo as [Hgo _]. destruct (Hgo eq_refl) as (y & Hy & Ey). destruct Hr as [[_ Hr]|(l1 & l2 & E1 & E2 & E3)]; [by rewrite Hr in Ey|].
    right. exists l1, (l2 ++ a :: addrs r). simpl. rewrite E1, <- app_assoc. done.
  - step (entity_eligible_eq a (inv_live st T a Hinv Ha)).
    assert (forall x, x ∈ addrs l -> E x = false) as Hl.
    { intros x Hin. destruct (E x) eqn:Ee; [|done]. destruct (proj2 Hgo); [eauto|done]. }
    destruct (E a) eqn:Ea; [exists a; split; [done|]; right; by exists (addrs l), (addrs r)|].
    step (child_ok st R _ _ En). cbn [kid rb_right].
    destruct (IHr fuel (Fr R b a l :: ctx)) as (x & Ex & Hr); [by apply (zrep_move st R b a l ctx r)|done|apply Hx|lia|]. exists x. split; [done|].
    assert (forall y, y ∈ addrs l ++ [a] -> E y = false) as Hla.
    { intros y. rewrite elem_of_app, elem_of_cons, elem_of_nil. intros [?|[->|[]]]; auto. }
    destruct Hr as [[-> Hr]|(l1 & l2 & E1 & E2 & E3)].
    + left. split; [done|]. intros y. simpl. rewrite elem_of_app, elem_of_cons. intros [?|[->|?]]; auto.
    + right. exists (addrs l ++ a :: l1), l2. simpl. rewrite E1, <- app_assoc. split; [done|]. split; [done|]. intros y.
      rewrite elem_of_app, elem_of_cons. intros [?|[->|?]]; auto.
Qed.

Variable bd : Z.
Hypothesis Hord : rq_ordered bd st T.

(** The first eligible entity in deadline order has the earliest deadline of the eligible. *)
Lemma first_earliest r x : first_of E (addrs T) r -> x ∈ addrs T -> E x = true -> r ∈ addrs T /\ E r = true /\ off bd (dl (aux st) r) <= off bd (dl (aux st) x).
Proof.
  intros Hr Hx Ex. destruct Hr as [[_ Hr]|(l1 & l2 & Et & E2 & E3)]; [by rewrite Hr in Ex|]. destruct Hord as [_ Ho]. rewrite Et in Ho, Hx |- *.
  apply ordered_mid in Ho as (_ & _ & _ & Ho). split; [rewrite elem_of_app, elem_of_cons; auto|]. split; [done|].
  rewrite elem_of_app, elem_of_cons in Hx. destruct Hx as [Hx|[->|Hx]]; [by rewrite E3 in Ex|lia|by apply Ho].
Qed.

Definition runs : bool := nonnull (curr (aux st)) && onq (aux st) (curr (aux st)).
Definition candidates : list Z := addrs T ++ (if runs then [curr (aux st)] else []).

(** What a pick must answer. *)
Definition earliest (r : Z) : Prop :=
  (r ∈ candidates /\ E r = true /\ forall x, x ∈ candidates -> E x = true -> off bd (dl (aux st) r) <= off bd (dl (aux st) x))
  \/ ((forall x, x ∈ candidates -> E x = false) /\ r = hd0 (addrs T)).

Hypothesis Hcurr : runs = true -> inw bd (dl (aux st) (curr (aux st))).

Lemma candidates_in x : x ∈ candidates <-> x ∈ addrs T \/ (runs = true /\ x = curr (aux st)).
Proof. unfold candidates. rewrite elem_of_app. destruct runs; rewrite ?elem_of_cons, elem_of_nil; intuition congruence. Qed.

Lemma pick_done_ok best :
  first_of E (addrs T) best ->
  exists r, pick_done (if runs && E (curr (aux st)) then curr (aux st) else 0) best (hd0 (addrs T)) st = Some (r, st) /\ earliest r.
Proof.
  intros Hb. unfold pick_done. destruct (Z.eqb_spec best 0) as [->|Hb0].
  - assert (forall x, x ∈ addrs T -> E x = false) as Hn.
    { destruct Hb as [[_ ?]|(l1 & l2 & Et & _)]; [done|]. intros x _. exfalso. apply (inv_ne0 st T 0 Hinv); [|done]. rewrite Et, elem_of_app, elem_of_cons. auto. }
    unfold bind, ret. eexists. split; [reflexivity|]. destruct (runs && E (curr (aux st))) eqn:Ec.
    + apply andb_true_iff in Ec as [Er Ee]. pose proof Er as Er'. unfold runs in Er'. apply andb_true_iff in Er' as [Hnz%nonnull_true _].
      rewrite (proj2 (Z.eqb_neq _ 0)) by done. left. split; [apply candidates_in; auto|]. split; [done|]. intros x [Hx|[_ ->]]%candidates_in; [by rewrite Hn|lia].
    + rewrite Z.eqb_refl. right. split; [|done]. intros x [Hx|[Er ->]]%candidates_in; [by apply Hn|]. by rewrite Er in Ec.
  - assert (best ∈ addrs T /\ E best = true) as [Hbt Hbe].
    { destruct Hb as [[? _]|(l1 & l2 & Et & ? & _)]; [done|]. split; [|done]. rewrite Et, elem_of_app, elem_of_cons. auto. }
    assert (forall x, x ∈ addrs T -> E x = true -> off bd (dl (aux st) best) <= off bd (dl (aux st) x)) as Hbm by (intros x Hx Ex; by eapply first_earliest).
    destruct (runs && E (curr (aux st))) eqn:Ec.
    + apply andb_true_iff in Ec as [Er Ee]. pose proof Er as Er'. unfold runs in Er'. apply andb_true_iff in Er' as [Hnz _]. rewrite Hnz.
      apply nonnull_true in Hnz. destruct (fi_curr _ _ Hinv Hnz) as [[sc Esc] _]. destruct (inv_live _ _ _ Hinv Hbt) as [sb Esb].
      assert (inw bd (deadline sc)) as Wc by (specialize (Hcurr Er); unfold dl in Hcurr; by rewrite Esc in Hcurr).
      assert (inw bd (deadline sb)) as Wb by (destruct Hord as [Hw _]; specialize (Hw best Hbt); unfold dl in Hw; by rewrite Esb in Hw).
      assert (dl (aux st) (curr (aux st)) = deadline sc /\ dl (aux st) best = deadline sb) as [Dc Db] by (unfold dl; by rewrite Esc, Esb).
      unfold bind, ret. rewrite (ent_ok _ _ _ Esc), (ent_ok _ _ _ Esb), (vtime_before_win bd) by done. eexists. split; [reflexivity|].
      destruct (Z.ltb_spec (off bd (deadline sc)) (off bd (deadline sb))) as [Hlt|Hge]; rewrite <- Dc, <- Db in *.
      * rewrite (proj2 (Z.eqb_neq _ 0)) by done. left. split; [apply candidates_in; auto|]. split; [done|].
        intros x [Hx|[_ ->]]%candidates_in Ex; [|lia]. specialize (Hbm x Hx Ex). lia.
      * rewrite (proj2 (Z.eqb_neq _ 0)) by done. left. split; [apply candidates_in; auto|]. split; [done|].
        intros x [Hx|[_ ->]]%candidates_in Ex; [by apply Hbm|lia].
    + cbn [nonnull Z.eqb negb]. unfold bind, ret. rewrite (proj2 (Z.eqb_neq best 0)) by done. eexists. split; [reflexivity|]. left.
      split; [apply candidates_in; auto|]. split; [done|]. intros x [Hx|[Er ->]]%candidates_in Ex; [by apply Hbm|]. by rewrite Er, Ex in Ec.
Qed.

Lemma pick_eevdf_ok : exists r, pick_eevdf st = Some (r, st) /\
  (if nr_running (aux st) =? 1 then r = (if runs then curr (aux st) else hd0 (addrs T)) else earliest r).
Proof.
  pose proof (inv_first st T Hinv) as [Hf Hfi]. unfold pick_eevdf. unfold bind at 1. cbn [get_root]. unfold bind at 1. cbn [cfs].
  unfold pick_first_entity. unfold bind at 1 2. cbn [cfs ret]. rewrite Hf in *.
  assert ((if nonnull (curr (aux st)) then (s <- ent (curr (aux st)) ;; ret (on_rq s))%rb else ret false) st = Some (runs, st)) as E1.
  { unfold runs. destruct (nonnull (curr (aux st))) eqn:En; [|done]. apply nonnull_true in En. destruct (fi_curr _ _ Hinv En) as [[s Es] _].
    step (ent_ok _ _ _ Es). unfold onq. by rewrite Es. }
  step E1. destruct (nr_running (aux st) =? 1); [eexists; split; [reflexivity|done]|].
  assert ((if runs then entity_eligible (curr (aux st)) else ret false) st = Some (runs && E (curr (aux st)), st)) as E2.
  { destruct runs eqn:Er; [|done]. apply entity_eligible_eq. apply (fi_curr _ _ Hinv). apply andb_true_iff in Er as [?%nonnull_true _]. done. }
  step E2.
  assert ((if nonnull (hd0 (addrs T)) then entity_eligible (hd0 (addrs T)) else ret false) st
    = Some (nonnull (hd0 (addrs T)) && E (hd0 (addrs T)), st)) as E3.
  { destruct (nonnull (hd0 (addrs T))) eqn:En; [|done]. apply entity_eligible_eq. apply (inv_live st T); [done|]. by apply Hfi, nonnull_true. }
  step E3. destruct (nonnull (hd0 (addrs T)) && E (hd0 (addrs T))) eqn:Ef.
  - apply pick_done_ok. apply andb_true_iff in Ef as [Hn%nonnull_true He]. right. destruct (addrs T) as [|x l]; [done|].
    exists [], l. split; [done|]. split; [done|]. by intros y ?%elem_of_nil.
  - pose proof (fi_rq _ _ Hinv) as Hr. rewrite (rq_ptr st T Hr).
    destruct (pick_loop_ok (S (size (nodes st))) [] T) as (r & E4 & Hr4); [apply Hr|done|apply Hex|apply height_nodes, Hr|].
    unfold bind at 1. rewrite E4. by apply pick_done_ok.
Qed.
End pick.

(** ** The mean virtual time *)

Lemma quot_floor (s w : Z) : 0 < w -> (if s <? 0 then Z.quot (s - (w - 1)) w else Z.quot s w) = s / w.
Proof.
  intros Hw. destruct (Z.ltb_spec s 0); [|by rewrite Z.quot_div_nonneg by lia].
  rewrite <- (Z.opp_involutive (s - (w - 1))), Z.quot_opp_l by lia. rewrite Z.quot_div_nonneg by lia.
  apply (Z.div_unique_pos s w _ (s + w * ((- (s - (w - 1))) / w))); [|ring].
  pose proof (Z.div_mod (- (s - (w - 1))) w). pose proof (Z.mod_pos_bound (- (s - (w - 1))) w). nia.
Qed.

Section mean.
Variables (st : rbst cfs_rq) (T : tree).
Hypothesis Hinv : fair_inv st T.

Definition wkey (x : Z) : Z := key (aux st) x * wt (aux st) x.

Lemma vterm_eqm l : eqm (zsum (vterm (aux st)) l) (zsum wkey l).
Proof.
  induction l as [|x l IH]; cbn [zsum foldr]; [done|]. fold (zsum (vterm (aux st)) l). fold (zsum wkey l). rewrite IH. apply eqm_add; [|done].
  unfold vterm, wkey, key. by rewrite i64_eqm, u64_eqm.
Qed.

Lemma live_sums_mod :
  exists avg load, live_sums st = Some ((avg, load), st)
    /\ avg = i64 (zsum wkey (candidates st T)) /\ load = i64 (zsum (wt (aux st)) (candidates st T)).
Proof.
  pose proof (ro_sums _ _ (fi_rq _ _ Hinv)) as [S1 S2]. unfold live_sums, candidates, runs. unfold bind at 1. cbn [cfs].
  destruct (nonnull (curr (aux st))) eqn:En; cbn [andb];
    [|exists (cfs_avg_vruntime (aux st)), (i64 (avg_load (aux st))); split; [done|]; rewrite app_nil_r, S1, S2, vterm_eqm; split; [done|]; by rewrite u64_eqm].
  apply nonnull_true in En. destruct (fi_curr _ _ Hinv En) as [[s Es] _]. step (ent_ok _ _ _ Es). unfold onq. rewrite Es. destruct (on_rq s).
  - eexists _, _. split; [reflexivity|]. rewrite S1, S2, !zsum_app. rewrite vterm_eqm.
    assert (zsum wkey [curr (aux st)] = entity_key (aux st) s * weight s /\ zsum (wt (aux st)) [curr (aux st)] = weight s) as [-> ->].
    { cbn [zsum foldr]. unfold wkey, key, wt, vr. rewrite Es. unfold entity_key. split; ring. }
    generalize (zsum wkey (addrs T)) (zsum (wt (aux st)) (addrs T)) (entity_key (aux st) s). intros x y z. unfold sld. split; wrap_ring; ring.
  - exists (cfs_avg_vruntime (aux st)), (i64 (avg_load (aux st))). split; [done|]. rewrite app_nil_r, S1, S2, vterm_eqm. split; [done|]. by rewrite u64_eqm.
Qed.

Lemma avg_vruntime_ok :
  let s := zsum wkey (candidates st T) in
  let w := zsum (wt (aux st)) (candidates st T) in
  0 < w <= 2 ^ 62 -> - 2 ^ 62 <= s <= 2 ^ 62 -> avg_vruntime st = Some (u64 (cfs_min_vruntime (aux st) + s / w), st).
Proof.
  cbv zeta. intros Hw Hs. destruct live_sums_mod as (avg & load & E1 & -> & ->). unfold avg_vruntime. unfold bind at 1. cbn [cfs]. step E1.
  clear E1. revert Hw Hs. generalize (zsum wkey (candidates st T)) (zsum (wt (aux st)) (candidates st T)). intros s w Hw Hs.
  rewrite !i64_small by lia. destruct (Z.leb_spec w 0); [lia|]. unfold ret. do 2 f_equal. rewrite <- (quot_floor s w) by lia.
  apply eqm_u64. apply eqm_add; [done|]. rewrite u64_eqm. by destruct (s <? 0).
Qed.
End mean.

(** ** Claims *)

(** C8: From initialisation on, under the callers' contract, every hook runs to its end, and it
    keeps the run queue: a red-black tree over runnable entities, with an exact leftmost
    pointer and sums exact for what is queued; and the queue changes as the hook says. *)
Theorem fair_hooks_correct st op :
  fair_reach st -> allowed op st ->
  exists T st' T', run_op op st = Some (tt, st') /\ fair_inv st T /\ fair_inv st' T' /\ all_on st' T' /\ effect op st (addrs T) (addrs T').
Proof.
  intros Hr Ha. destruct (fairhooks_reach_inv st Hr) as (T & H & Ho). pose proof (op_ok op st T H Ho Ha) as Hw. unfold wp in Hw.
  destruct (run_op op st) as [[[] st']|]; [|done]. destruct Hw as (T' & H' & O' & P'). by exists T, st', T'.
Qed.

(** An entity with virtual run time [v] and deadline [d], at nice 0. *)
Definition demo_entity (v d : Z) : sched_entity := SE 1024 4194304 v 0 0 d v true 0 0 0 0 0.

Definition demo_boot : rbst cfs_rq := RbSt {[ 64 := RbNode 0 0 0 ]} 0 (CfsRq {[ 64 := demo_entity 100 10 ]} 0 0 0 0 0 0 0).

Lemma fair_hooks_correct_witness : exists st', run_op (FEnqueue 64) demo_boot = Some (tt, st').
Proof.
  destruct (fair_hooks_correct demo_boot (FEnqueue 64)) as (_ & st' & _ & E & _).
  - apply (reach_init demo_boot); [|reflexivity]. intros x [s Hx]. cbn in Hx. apply lookup_singleton_Some in Hx as [<- _].
    split; [split; [split|]; reflexivity|by eexists].
  - split; [by eexists|]. split; [|done]. intros (T & Hz & Hin). pose proof (zr_ctx _ _ _ Hz) as Hp. simpl in Hp.
    pose proof (zr_ok _ _ _ Hz) as Ho. symmetry in Hp. apply ptr_zero in Hp as ->; [|done]. by apply elem_of_nil in Hin.
  - by exists st'.
Defined.

(** Queueing an entity keeps the deadline order, puts it behind the entities of the same
    deadline, and keeps every subtree aggregate the exact least virtual run time. *)
Theorem fair_enqueue_exact bv bd st T a s :
  fair_inv st T -> ents (aux st) !! a = Some s -> a ∉ addrs T ->
  rq_exact bv st T -> inw bv (vruntime s) -> rq_ordered bd st T -> inw bd (deadline s) ->
  exists st' T' l1 l2, __enqueue_entity a st = Some (tt, st') /\ addrs T = l1 ++ l2 /\ addrs T' = l1 ++ a :: l2
    /\ rq_ok st' T' /\ rq_exact bv st' T' /\ rq_ordered bd st' T' /\ around bd (aux st) (deadline s) l1 l2.
Proof.
  intros [H Hm _] Es Ha Hx Wv Ho Wd. destruct (Hm a) as [Oa [n En]]; [by eexists|].
  destruct (enqueue_ok bv bd st T a s n H Es En Oa Ha) as (st' & T' & l1 & l2 & E & H' & E1 & E2 & _ & X & O).
  destruct (O Ho Wd) as [O1 O2]. exists st', T', l1, l2. by auto 10.
Qed.

(** Two queued entities and a third outside. *)
Definition demo_rq : rbst cfs_rq := RbSt
  (<[64 := RbNode 1 128 0]> (<[128 := RbNode 64 0 0]> (<[192 := RbNode 0 0 0]> ∅))) 64
  (CfsRq (<[64 := set_min_vruntime 50 (demo_entity 100 10)]> (<[128 := demo_entity 50 20]> (<[192 := demo_entity 70 15]> ∅))) 64 2 0 153600 2048 0 0).
Definition demo_rq_tree : tree := Node true Leaf 64 (Node false Leaf 128 Leaf).

Lemma demo_live x : live (aux demo_rq) x -> x = 64 \/ x = 128 \/ x = 192.
Proof.
  intros [s Hs]. cbn in Hs. rewrite !lookup_insert_Some, lookup_empty in Hs. naive_solver.
Qed.

Lemma demo_inv : fair_inv demo_rq demo_rq_tree.
Proof.
  split; [split| |done].
  - split; [done|repeat split; vm_compute; reflexivity|apply (bool_decide_unpack _); vm_compute; exact I|].
    repeat constructor; vm_compute; reflexivity.
  - split; [done|]. split; [by repeat split|]. by exists 1%nat.
  - done.
  - intros x. cbn. rewrite !elem_of_cons, elem_of_nil. intros [->|[->|[]]]; vm_compute; by eexists.
  - split; vm_compute; reflexivity.
  - intros x [->|[->| ->]]%demo_live; (split; [split; [split|]; reflexivity|by eexists]).
Qed.

Lemma demo_exact : rq_exact 0 demo_rq demo_rq_tree.
Proof.
  split.
  - intros x. cbn. rewrite !elem_of_cons, elem_of_nil. intros [->|[->|[]]]; (split; [by eexists|]; repeat split; vm_compute; congruence).
  - split; [split; [exists 128; split; [cbn; rewrite !elem_of_cons; auto|reflexivity]|]|split; [done|split; [split; [exists 128; split; [cbn; by rewrite elem_of_cons; left|reflexivity]|]|done]]];
      intros x; cbn; rewrite ?elem_of_cons, ?elem_of_nil; intros Hx; destruct_or?; try done; subst; vm_compute; congruence.
Qed.

Lemma demo_ordered : rq_ordered 0 demo_rq demo_rq_tree.
Proof.
  split.
  - intros x. cbn. rewrite !elem_of_cons, elem_of_nil. intros [->|[->|[]]]; repeat split; vm_compute; congruence.
  - unfold ordered. cbn. repeat constructor. vm_compute. congruence.
Qed.

Lemma fair_enqueue_exact_witness : exists st', __enqueue_entity 192 demo_rq = Some (tt, st').
Proof.
  destruct (fair_enqueue_exact 0 0 demo_rq demo_rq_tree 192 (demo_entity 70 15)) as (st' & _ & _ & _ & E & _).
  - apply demo_inv.
  - reflexivity.
  - apply (bool_decide_unpack _). vm_compute. exact I.
  - apply demo_exact.
  - repeat split; vm_compute; congruence.
  - apply demo_ordered.
  - repeat split; vm_compute; congruence.
  - by exists st'.
Defined.

(** C21: with exact aggregates, a queue in deadline order, a load of at most 2^20 and
    virtual run times within 2^42 of the queue's floor, so that the eligibility test does
    not overflow: when exactly one entity is runnable the pick is that one.  Otherwise it
    is the eligible entity with the earliest deadline among the queued ones and the
    running one; if none of them is eligible it is the queued entity with the earliest
    deadline, and not the one with the least virtual run time. *)
Theorem fair_pick_earliest bv bd st T avg load :
  fair_inv st T -> rq_exact bv st T -> rq_ordered bd st T -> live_sums st = Some ((avg, load), st) ->
  calm (aux st) load (addrs T) -> (runs st = true -> inw bd (dl (aux st) (curr (aux st)))) ->
  exists r, pick_eevdf st = Some (r, st) /\
    (if nr_running (aux st) =? 1 then r = (if runs st then curr (aux st) else hd0 (addrs T)) else earliest st T avg load bd r).
Proof. intros H Hx Ho Hs Hc Hcu. by apply (pick_eevdf_ok bv st T avg load H Hx Hs Hc bd Ho Hcu). Qed.

Lemma fair_pick_earliest_witness : exists r, pick_eevdf demo_rq = Some (r, demo_rq) /\ earliest demo_rq demo_rq_tree 153600 2048 0 r.
Proof.
  apply (fair_pick_earliest 0 0 demo_rq demo_rq_tree 153600 2048).
  - apply demo_inv.
  - apply demo_exact.
  - apply demo_ordered.
  - reflexivity.
  - split; [split; vm_compute; congruence|]. intros x. cbn. rewrite !elem_of_cons, elem_of_nil. intros [->|[->|[]]]; split; vm_compute; congruence.
  - done.
Defined.

(** The mean virtual time is the floor of the weighted mean over the queued entities and
    the running one. *)
Theorem fair_mean_floor st T :
  fair_inv st T ->
  let s := zsum (wkey st) (candidates st T) in
  let w := zsum (wt (aux st)) (candidates st T) in
  0 < w <= 2 ^ 62 -> - 2 ^ 62 <= s <= 2 ^ 62 -> avg_vruntime st = Some (u64 (cfs_min_vruntime (aux st) + s / w), st).
Proof. intros H. by apply avg_vruntime_ok. Qed.

Lemma fair_mean_floor_witness : avg_vruntime demo_rq = Some (75, demo_rq).
Proof. apply (fair_mean_floor demo_rq demo_rq_tree demo_inv); split; vm_compute; congruence. Defined.

(** The floor of virtual time never goes back, and moving it keeps the sums exact. *)
Theorem fair_floor_monotone st T :
  fair_inv st T ->
  exists st', update_min_vruntime st = Some (tt, st') /\ rq_ok st' T /\ 0 <= i64 (u64 (cfs_min_vruntime (aux st') - cfs_min_vruntime (aux st))).
Proof.
  intros H. pose proof (update_min_ok st T H) as Hw. unfold wp in Hw. destruct (update_min_vruntime st) as [[[] st']|]; [|done].
  destruct Hw as ([H' _ _] & _ & _ & Hf). by exists st'.
Qed.

Lemma fair_floor_monotone_witness : exists st', update_min_vruntime demo_rq = Some (tt, st').
Proof. destruct (fair_floor_monotone demo_rq demo_rq_tree demo_inv) as (st' & E & _). by exists st'. Defined.

(** ** A stale aggregate *)

(** What a memory represents is one tree. *)
Lemma rep_unique m t t' par :
  Forall okaddr (addrs t) -> Forall okaddr (addrs t') -> rep m t par -> rep m t' par -> ptr t = ptr t' -> t = t'.
Proof.
  revert t' par. induction t as [|b l IHl a r IHr]; intros t' par Ht Ht' H H' E; [symmetry; by apply ptr_zero|].
  destruct t' as [|b' l' a' r']; [by apply ptr_zero in E|]. simpl in E. subst a'. simpl in *.
  destruct H as (E1 & H1 & H2), H' as (E2 & H1' & H2'). rewrite E1 in E2. injection E2 as Ew Er El.
  apply Forall_app in Ht as [T1 [_ T2]%Forall_cons], Ht' as [T1' [_ T2']%Forall_cons].
  rewrite (IHl l' a), (IHr r' a) by done. f_equal. unfold word in Ew. destruct b, b'; cbn in Ew; first [done|lia].
Qed.

Lemma zrep_unique st T T' : zrep st [] T -> zrep st [] T' -> T = T'.
Proof.
  intros [C R _ O] [C' R' _ O']. simpl in *. eapply rep_unique; [exact O|exact O'|exact R|exact R'|congruence].
Qed.

(** The callers' contract on a state reached through the hooks, decided by the marks. *)
Definition allowedb (op : fair_op) st : bool :=
  match op with
  | FEnqueue t => bool_decide (is_Some (ents (aux st) !! t)) && negb (onq (aux st) t) && negb (t =? curr (aux st))
  | FBlock t => (t =? curr (aux st)) && nonnull t
  | FPick => true
  | _ => false
  end.

Lemma allowedb_ok op st : fair_reach st -> allowedb op st = true -> allowed op st.
Proof.
  intros Hr. destruct op as [t| |t|t|now|t| |n p sl| | |now]; try done; cbn [allowedb allowed].
  - rewrite !andb_true_iff, !negb_true_iff, bool_decide_eq_true, Z.eqb_neq. intros [[H1 H2] H3]. split; [done|]. split; [|done].
    intros (T & Hz & Hin). destruct (fairhooks_reach_inv st Hr) as (T' & Hi & Ho).
    rewrite (zrep_unique st T T' Hz (ro_rep _ _ (fi_rq _ _ Hi))) in Hin. specialize (Ho t Hin). congruence.
  - rewrite andb_true_iff, Z.eqb_eq. intros [-> Hn%nonnull_true]. done.
Qed.

Fixpoint run_hooks (l : list fair_op) st : option (rbst cfs_rq) :=
  match l with
  | [] => Some st
  | op :: l => if allowedb op st then match run_op op st with Some (_, st) => run_hooks l st | None => None end else None
  end.

Lemma run_hooks_reach l st st' : fair_reach st -> run_hooks l st = Some st' -> fair_reach st'.
Proof.
  revert st. induction l as [|op l IH]; intros st Hr; cbn [run_hooks]; [by intros [= <-]|].
  destruct (allowedb op st) eqn:Ha; [|done]. destruct (run_op op st) as [[[] st1]|] eqn:E; [|done].
  apply IH. by eapply reach_op; [exact Hr|apply allowedb_ok|exact E].
Qed.

(** A thread that has run before, blocked with the lag [lag]; times in milliseconds. *)
Definition sleeper (lag sl : Z) : sched_entity := SE 1024 4194304 0 (lag * 1000000) (sl * 1000000) 0 0 false 0 0 0 1 0.

Definition stale_boot : rbst cfs_rq := RbSt
  (list_to_map ((fun a => (a, RbNode 0 0 0)) <$> [640; 1280; 1920; 2560; 3200; 3840])) 0
  (CfsRq (list_to_map [(640, sleeper (-525) 300); (1280, sleeper 50 2100); (1920, sleeper (-387) 2250);
                       (2560, sleeper (-444) 3270); (3200, sleeper 0 5000); (3840, sleeper (-100) 5900)]) 0 0 0 0 0 0 0).

(** Six threads wake up; the scheduler picks one, 1280, which blocks again. *)
Definition stale_hooks : list fair_op := (FEnqueue <$> [3200; 1280; 3840; 640; 2560; 1920]) ++ [FPick; FBlock 1280].

Definition stale_tree : tree :=
  Node true (Node false (Node true Leaf 640 Leaf) 1920 (Node true Leaf 2560 Leaf)) 3200 (Node true Leaf 3840 Leaf).

(** The next pick, whether it is eligible, and whether 3200 is. *)
Definition stale_pick : F (Z * bool * bool) :=
  r <- pick_eevdf ;;
  e <- entity_eligible r ;;
  e' <- entity_eligible 3200 ;;
  ret (r, e, e').

Definition node_is st (a : Z) (n : rb_node) : bool :=
  match nodes st !! a with
  | Some m => (__rb_parent_color m =? __rb_parent_color n) && (rb_right m =? rb_right n) && (rb_left m =? rb_left n)
  | None => false
  end.

Lemma node_is_ok st a n : node_is st a n = true -> nodes st !! a = Some n.
Proof.
  unfold node_is. destruct (nodes st !! a) as [m|]; [|done]. rewrite !andb_true_iff, !Z.eqb_eq. destruct m, n; simpl. naive_solver.
Qed.

(** C35: taking an entity with two children out of the tree can leave a stale aggregate.
    In a state that the hooks reach from boot under the callers' contract (six wake-ups, a
    pick, a block) the queue is intact, but the subtree under 1920 carries a virtual run
    time none of its entities has; and the next pick is an entity that is not eligible,
    although an eligible one, 3200, is queued. *)
Theorem fair_stale_pick :
  match run_hooks stale_hooks stale_boot with
  | Some st => fair_reach st /\ fair_inv st stale_tree
      /\ (forall x, x ∈ [640; 1920; 2560] -> mv (aux st) 1920 <> vr (aux st) x)
      /\ fst <$> stale_pick st = Some (640, false, true)
  | None => False
  end.
Proof.
  assert (Hc : match run_hooks stale_hooks stale_boot with
    | Some st => (root st =? 3200) && forallb (fun p => node_is st (fst p) (snd p))
        [(3200, RbNode 1 3840 1920); (1920, RbNode 3200 2560 640); (640, RbNode 1921 0 0); (2560, RbNode 1921 0 0); (3840, RbNode 3201 0 0)]
        && forallb (fun x => negb (mv (aux st) 1920 =? vr (aux st) x)) [640; 1920; 2560]
        && bool_decide (fst <$> stale_pick st = Some (640, false, true)) = true
    | None => False end) by (vm_compute; reflexivity).
  destruct (run_hooks stale_hooks stale_boot) as [st|] eqn:E; [|exact Hc].
  rewrite !andb_true_iff, !forallb_forall in Hc. destruct Hc as [[[H1%Z.eqb_eq H2] H3] H4%bool_decide_eq_true].
  assert (Hr : fair_reach st).
  { eapply run_hooks_reach; [|exact E]. apply (reach_init stale_boot); [|reflexivity]. intros x [s Hx].
    apply elem_of_list_to_map_2, list_elem_of_In in Hx. cbn in Hx. repeat (destruct Hx as [[= <- _]|Hx]; [split; [split; [split|]; reflexivity|by eexists]|]). destruct Hx. }
  clear E. split; [exact Hr|]. split; [|split; [|exact H4]].
  - destruct (fairhooks_reach_inv st Hr) as (T & Hi & _). enough (T = stale_tree) as <- by done.
    assert (Hn : forall a n, In (a, n) [(3200, RbNode 1 3840 1920); (1920, RbNode 3200 2560 640); (640, RbNode 1921 0 0); (2560, RbNode 1921 0 0); (3840, RbNode 3201 0 0)]
      -> nodes st !! a = Some n) by (intros a n Hin; by apply node_is_ok, (H2 (a, n))).
    eapply zrep_unique; [apply (fi_rq _ _ Hi)|]. split; [exact H1| |apply (bool_decide_unpack _); vm_compute; exact I|].
    + simpl. split_and!; try done; apply Hn; simpl; tauto.
    + repeat constructor; vm_compute; reflexivity.
  - intros x Hx Ex. apply list_elem_of_In, H3 in Hx. rewrite Ex, Z.eqb_refl in Hx. done.
Qed.
