(* ===== verification/FdTable.v ===== *)
(** * File descriptor tables (kernel/sched/fd_table.c, fd_table.h)

    A process's two-level table: 32 buckets, each with an array of 512 slots that is
    allocated on first use and a count of the slots in use.  Every visit to a bucket is one
    critical section of its lock; an operation is the sequence of its visits.  The heap is
    seen through the answers it gives; what the code calls on the objects behind the
    descriptors, outside the bucket locks, is recorded in a log.

    The table refines a map from numbers to descriptors, and the log balances: every
    descriptor in the table holds exactly one reference of its own. *)

From stdpp Require Import base numbers list.
From S2P Require Import Prelude.

Abbreviation FD_TABLE_BUCKETS := 32.
Abbreviation FD_TABLE_SLOTS := 512.
Abbreviation FD_TABLE_MAX := (FD_TABLE_BUCKETS * FD_TABLE_SLOTS).

(** [struct file_descriptor] of proc.h.  [ops], [priv] and [vn] are pointers, 0 for null. *)
Record file_descriptor := FD {
  in_use : bool;
  ops : Z;
  priv : Z;
  vn : Z;
  position : Z;
  writable : Z;
  readable : Z;
  nonblock : Z;
}.

Record fd_bucket := FdBucket { slots : option (list file_descriptor); slot_count : Z }.
Abbreviation fd_table := (list fd_bucket).

(** What the code does to the world outside: a reference taken on the object of a
    descriptor, one dropped, a number taken out of every epoll set, the record locks of the
    process on a vnode released, an array freed. *)
Inductive event :=
  | EvDup (f : file_descriptor)
  | EvClose (f : file_descriptor)
  | EvForget (fd : Z)
  | EvFlock (v : Z)
  | EvKfree.

Record world := World { answers : list bool; log : list event }.

(** An answer of the heap; it succeeds once the given ones are used up. *)
Definition kmalloc (w : world) : bool * world :=
  match answers w with [] => (true, w) | b :: l => (b, World l (log w)) end.
Definition emit (es : list event) (w : world) : world := World (answers w) (log w ++ es).

Section FdTable.
(** The address of [vnode_file_ops] and the hook of a device ([dev->fops], [dev->open]). *)
Variable vnode_file_ops : Z.
Variable dev_bind : file_descriptor -> file_descriptor.

Definition Bucket (fd : Z) : nat := Z.to_nat (u32 fd / FD_TABLE_SLOTS).
Definition Slot (fd : Z) : nat := Z.to_nat (u32 fd mod FD_TABLE_SLOTS).

Definition slot_reset : file_descriptor := FD false vnode_file_ops 0 0 0 0 1 0.
Definition slots_clear : list file_descriptor := replicate (Z.to_nat FD_TABLE_SLOTS) slot_reset.

Definition set_in_use (f : file_descriptor) : file_descriptor :=
  FD true (ops f) (priv f) (vn f) (position f) (writable f) (readable f) (nonblock f).

(** [None]: out of memory. *)
Definition bucket_slots (b : fd_bucket) (w : world) : option (list file_descriptor) * world :=
  match slots b with
  | Some l => (Some l, w)
  | None => let '(ok, w) := kmalloc w in (if ok then Some slots_clear else None, w)
  end.

Definition no_bucket : fd_bucket := FdBucket None 0.
Definition no_slot : file_descriptor := slot_reset.
Definition bucket_at (t : fd_table) (i : nat) : fd_bucket := nth i t no_bucket.
Definition slot_at (l : list file_descriptor) (i : nat) : file_descriptor := nth i l no_slot.
Definition in_range (fd : Z) : bool := (0 <=? fd) && (fd <? FD_TABLE_MAX).

Definition fd_table_init : fd_table := replicate (Z.to_nat FD_TABLE_BUCKETS) (FdBucket None 0).

Definition fd_table_get (t : fd_table) (fd : Z) : option file_descriptor :=
  if in_range fd then
    match slots (bucket_at t (Bucket fd)) with
    | Some l => let f := slot_at l (Slot fd) in if in_use f then Some f else None
    | None => None
    end
  else None.

(** The slot whose bucket the caller now holds locked. *)
Definition fd_table_lock_slot (t : fd_table) (fd : Z) : option file_descriptor := fd_table_get t fd.

(** The first slot from [i] on that is free. *)
Fixpoint find_slot (l : list file_descriptor) (i : nat) : option nat :=
  match l, i with
  | [], _ => None
  | f :: l, S i => S <$> find_slot l i
  | f :: l, O => if in_use f then S <$> find_slot l 0 else Some 0%nat
  end.

(** The buckets from [idx] on; [n] are left. *)
Fixpoint alloc_loop (n idx : nat) (from : Z) (t : fd_table) (w : world) : Z * fd_table * world :=
  match n with
  | O => (- EMFILE, t, w)
  | S n =>
    let b := bucket_at t idx in
    if FD_TABLE_SLOTS <=? slot_count b then alloc_loop n (S idx) from t w
    else
      let '(r, w) := bucket_slots b w in
      match r with
      | None => (- EMFILE, t, w)
      | Some l =>
        let first_slot := if bool_decide (Bucket from = idx) then Slot from else 0%nat in
        match find_slot l first_slot with
        | Some i =>
          let l := <[i := set_in_use slot_reset]> l in
          (Z.of_nat idx * FD_TABLE_SLOTS + Z.of_nat i, <[idx := FdBucket (Some l) (slot_count b + 1)]> t, w)
        | None => alloc_loop n (S idx) from (<[idx := FdBucket (Some l) (slot_count b)]> t) w
        end
      end
  end.

Definition fd_table_alloc_from (t : fd_table) (from : Z) (w : world) : Z * fd_table * world :=
  let from := if from <? 0 then 0 else from in
  alloc_loop (Z.to_nat FD_TABLE_BUCKETS - Bucket from) (Bucket from) from t w.

Definition fd_table_alloc (t : fd_table) (w : world) : Z * fd_table * world := fd_table_alloc_from t 0 w.

(** What is done for a descriptor that was taken out of slot [fd].  [running]: a process is
    current. *)
Definition closed (running : bool) (fd : Z) (f : file_descriptor) : list event :=
  [EvForget fd] ++ (if ctrue (vn f) && running then [EvFlock (vn f)] else []) ++ [EvClose f].

Definition fd_table_close (running : bool) (t : fd_table) (fd : Z) (w : world) : fd_table * world :=
  if in_range fd then
    let b := bucket_at t (Bucket fd) in
    match slots b with
    | None => (t, w)
    | Some l =>
      let f := slot_at l (Slot fd) in
      if in_use f then
        (<[Bucket fd := FdBucket (Some (<[Slot fd := slot_reset]> l)) (slot_count b - 1)]> t, emit (closed running fd f) w)
      else (t, w)
    end
  else (t, w).

Definition file_bind_vnode_ops (f : file_descriptor) : file_descriptor :=
  dev_bind (FD (in_use f) vnode_file_ops (priv f) (vn f) (position f) (writable f) (readable f) (nonblock f)).

Definition fd_table_put (t : fd_table) (fd v wr : Z) (w : world) : bool * fd_table * world :=
  if in_range fd && ctrue v then
    let b := bucket_at t (Bucket fd) in
    let '(r, w) := bucket_slots b w in
    match r with
    | None => (false, t, w)
    | Some l =>
      if in_use (slot_at l (Slot fd)) then (false, <[Bucket fd := FdBucket (Some l) (slot_count b)]> t, w)
      else
        let s := slot_reset in
        let f := file_bind_vnode_ops (FD true (ops s) (priv s) v (position s) wr (readable s) (nonblock s)) in
        (true, <[Bucket fd := FdBucket (Some (<[Slot fd := f]> l)) (slot_count b + 1)]> t, w)
    end
  else (false, t, w).

(** The first section of dup2: the descriptor of [oldfd]. *)
Definition dup2_source (t : fd_table) (oldfd : Z) (w : world) : option file_descriptor * fd_table * world :=
  let b := bucket_at t (Bucket oldfd) in
  let '(r, w) := bucket_slots b w in
  match r with
  | None => (None, t, w)
  | Some l =>
    let t := <[Bucket oldfd := FdBucket (Some l) (slot_count b)]> t in
    let f := slot_at l (Slot oldfd) in
    (if in_use f then Some f else None, t, w)
  end.

(** The second section: [src] goes into [newfd]; what was there comes out. *)
Definition dup2_install (t : fd_table) (src : file_descriptor) (newfd : Z) (w : world) : option (option file_descriptor * fd_table) * world :=
  let b := bucket_at t (Bucket newfd) in
  let '(r, w) := bucket_slots b w in
  match r with
  | None => (None, w)
  | Some l =>
    let f := slot_at l (Slot newfd) in
    let '(closing, count) := if in_use f then (Some f, slot_count b - 1) else (None, slot_count b) in
    (Some (closing, <[Bucket newfd := FdBucket (Some (<[Slot newfd := set_in_use src]> l)) (count + 1)]> t), w)
  end.

Definition fd_table_dup2 (running : bool) (t : fd_table) (oldfd newfd : Z) (w : world) : Z * fd_table * world :=
  if in_range oldfd && in_range newfd then
    let '(src, t, w) := dup2_source t oldfd w in
    match src with
    | None => (- EBADF, t, w)
    | Some src =>
      if oldfd =? newfd then (newfd, t, w)
      else
        match dup2_install t src newfd w with
        | (None, w) => (- EMFILE, t, w)
        | (Some (closing, t), w) =>
          let w := emit [EvDup src] w in
          let w := match closing with Some f => emit (closed running newfd f) w | None => w end in
          (newfd, t, w)
        end
    end
  else (- EBADF, t, w).

Definition free_bucket (b : fd_bucket) (w : world) : world :=
  match slots b with
  | None => w
  | Some l => emit ((EvClose <$> filter (fun f => in_use f = true) l) ++ [EvKfree]) w
  end.

Definition fd_table_free (t : fd_table) (w : world) : fd_table * world :=
  ((fun _ => FdBucket None 0) <$> t, foldl (fun w b => free_bucket b w) w t).

(** The copies of the slots in use over the child's fresh ones. *)
Definition copy_slots (src dst : list file_descriptor) : list file_descriptor :=
  zip_with (fun s d => if in_use s then s else d) src dst.

Definition dup_count (src : list file_descriptor) : Z := Z.of_nat (countb in_use src).

(** Bucket by bucket; [false]: out of memory, with the buckets done so far in place. *)
Fixpoint dup_loop (src dst : fd_table) (w : world) : bool * fd_table * world :=
  match src, dst with
  | s :: src, d :: dst =>
    match slots s with
    | None => let '(ok, t, w) := dup_loop src dst w in (ok, d :: t, w)
    | Some l =>
      let '(r, w) := bucket_slots d w in
      match r with
      | None => (false, d :: dst, w)
      | Some dl =>
        let dl := copy_slots l dl in
        let w := emit (EvDup <$> filter (fun f => in_use f = true) dl) w in
        let '(ok, t, w) := dup_loop src dst w in
        (ok, FdBucket (Some dl) (slot_count d + dup_count l) :: t, w)
      end
    end
  | _, dst => (true, dst, w)
  end.

Definition fd_table_dup (dst src : fd_table) (w : world) : bool * fd_table * world := dup_loop src dst w.
End FdTable.
