(* ===== verification/FdProofs.v ===== *)
(** * File descriptor tables: proofs *)

From stdpp Require Import base numbers list.
From S2P Require Import Prelude FdTable.

Section proofs.
Variable vops : Z.
Variable dev_bind : file_descriptor -> file_descriptor.
Implicit Types (t : fd_table) (b : fd_bucket) (f : file_descriptor) (l : list file_descriptor) (w : world).

Notation cleared := (slots_clear vops).
Notation reset := (slot_reset vops).

(** ** The table as an array of cells *)

Definition cells b : list file_descriptor := match slots b with Some l => l | None => cleared end.
Definition cell t (fd : Z) : file_descriptor := slot_at vops (cells (bucket_at t (Bucket fd))) (Slot fd).

(** The map the table stands for. *)
Definition view t (fd : Z) : option file_descriptor := if in_range fd then if in_use (cell t fd) then Some (cell t fd) else None else None.

Definition wf_bucket b : Prop :=
  length (cells b) = 512%nat /\ slot_count b = Z.of_nat (countb in_use (cells b)).
Definition wf t : Prop := length t = 32%nat /\ Forall wf_bucket t.

Lemma cleared_length : length cleared = 512%nat.
Proof. done. Qed.

Lemma cleared_cell i : slot_at vops cleared i = reset.
Proof. unfold slot_at, no_slot. rewrite nth_lookup. destruct (cleared !! i) eqn:E; [|done]. by apply lookup_replicate in E as [-> _]. Qed.

Lemma get_view t fd : fd_table_get vops t fd = view t fd.
Proof.
  unfold fd_table_get, view, cell, cells. destruct (in_range fd); [|done]. destruct (slots _); [done|]. by rewrite cleared_cell.
Qed.

Lemma fd_split fd : in_range fd = true -> fd = Z.of_nat (Bucket fd) * 512 + Z.of_nat (Slot fd) /\ (Bucket fd < 32)%nat /\ (Slot fd < 512)%nat.
Proof.
  unfold in_range, Bucket, Slot. rewrite andb_true_iff, Z.leb_le, Z.ltb_lt. intros [H1 H2].
  rewrite u32_small by lia. split; [|split]; dlia.
Qed.

Lemma fd_join (i j : nat) : (i < 32)%nat -> (j < 512)%nat ->
  let fd := Z.of_nat i * 512 + Z.of_nat j in in_range fd = true /\ Bucket fd = i /\ Slot fd = j.
Proof.
  intros Hi Hj. cbv zeta. unfold in_range, Bucket, Slot. rewrite andb_true_iff, Z.leb_le, Z.ltb_lt.
  rewrite u32_small by lia. split; [lia|]. split; dlia.
Qed.

(** Replacing the contents of a bucket. *)
Definition set_bucket t (i : nat) l (n : Z) : fd_table := <[i := FdBucket (Some l) n]> t.

Lemma fdproofs_bucket_set t i l n j :
  (i < length t)%nat -> bucket_at (set_bucket t i l n) j = if decide (j = i) then FdBucket (Some l) n else bucket_at t j.
Proof.
  intros Hi. unfold bucket_at, set_bucket. rewrite !nth_lookup. destruct (decide (j = i)) as [->|].
  - by rewrite list_lookup_insert_eq.
  - by rewrite list_lookup_insert_ne.
Qed.

Lemma wf_at t i : wf t -> (i < 32)%nat -> t !! i = Some (bucket_at t i) /\ wf_bucket (bucket_at t i).
Proof.
  intros [Hl Hw] Hi. unfold bucket_at. rewrite nth_lookup. destruct (t !! i) as [b|] eqn:E.
  - split; [done|]. by apply (Forall_lookup_1 _ _ _ _ Hw E).
  - apply lookup_ge_None in E. lia.
Qed.

Lemma wf_set t i l n : wf t -> length l = 512%nat -> n = Z.of_nat (countb in_use l) -> wf (set_bucket t i l n).
Proof. intros [Hl Hw] Hle ->. unfold set_bucket. split; [by rewrite length_insert|]. apply Forall_insert; [done|]. by split. Qed.

Lemma cell_set t i l n fd :
  wf t -> (i < 32)%nat -> cell (set_bucket t i l n) fd = if decide (Bucket fd = i) then slot_at vops l (Slot fd) else cell t fd.
Proof. intros [Hl _] Hi. unfold cell. rewrite fdproofs_bucket_set by lia. by destruct (decide (Bucket fd = i)). Qed.

(** Making the array of a bucket explicit changes nothing. *)
Lemma cell_touch t i fd : wf t -> (i < 32)%nat -> cell (set_bucket t i (cells (bucket_at t i)) (slot_count (bucket_at t i))) fd = cell t fd.
Proof. intros Hw Hi. rewrite cell_set by done. destruct (decide _) as [<-|]; done. Qed.

Lemma wf_touch t i : wf t -> (i < 32)%nat -> wf (set_bucket t i (cells (bucket_at t i)) (slot_count (bucket_at t i))).
Proof. intros Hw Hi. destruct (wf_at t i Hw Hi) as (_ & H1 & H2). by apply wf_set. Qed.

Lemma fdproofs_slot_insert l (i j : nat) f : (i < length l)%nat -> slot_at vops (<[i := f]> l) j = if decide (j = i) then f else slot_at vops l j.
Proof.
  intros Hi. unfold slot_at. rewrite !nth_lookup. destruct (decide (j = i)) as [->|]; [by rewrite list_lookup_insert_eq|by rewrite list_lookup_insert_ne].
Qed.

(** Writing one cell. *)
Definition set_cell t (fd : Z) f : fd_table :=
  let b := bucket_at t (Bucket fd) in
  set_bucket t (Bucket fd) (<[Slot fd := f]> (cells b)) (slot_count b - b2z (in_use (cell t fd)) + b2z (in_use f)).

Lemma cell_set_cell t fd f fd' :
  wf t -> in_range fd = true -> in_range fd' = true -> cell (set_cell t fd f) fd' = if decide (fd' = fd) then f else cell t fd'.
Proof.
  intros Hw H H'. destruct (fd_split fd H) as (E & B & S). destruct (fd_split fd' H') as (E' & _ & _). destruct (wf_at t _ Hw B) as (_ & L & _).
  unfold set_cell. rewrite cell_set by done. destruct (decide (fd' = fd)) as [->|Hne].
  - rewrite decide_True by done. rewrite fdproofs_slot_insert by (by rewrite L). by rewrite decide_True.
  - destruct (decide (Bucket fd' = Bucket fd)) as [Eb|]; [|done]. rewrite fdproofs_slot_insert by (by rewrite L). rewrite decide_False.
    + unfold cell. by rewrite Eb.
    + intros Es. apply Hne. rewrite E, E', Eb, Es. done.
Qed.

Lemma cell_lookup t fd : wf t -> in_range fd = true -> cells (bucket_at t (Bucket fd)) !! Slot fd = Some (cell t fd).
Proof.
  intros Hw H. destruct (fd_split fd H) as (_ & B & S). destruct (wf_at t _ Hw B) as (_ & L & _). unfold cell, slot_at. rewrite nth_lookup.
  destruct (_ !! Slot fd) eqn:E; [done|]. apply lookup_ge_None in E. lia.
Qed.

Lemma wf_set_cell t fd f : wf t -> in_range fd = true -> wf (set_cell t fd f).
Proof.
  intros Hw H. destruct (fd_split fd H) as (_ & B & S). destruct (wf_at t _ Hw B) as (_ & L & C). apply wf_set; [done|by rewrite length_insert|].
  pose proof (countb_insert in_use _ _ f _ (cell_lookup t fd Hw H)) as E. rewrite C. unfold b2z. destruct (in_use f), (in_use (cell t fd)); lia.
Qed.

Lemma view_set_cell t fd f fd' :
  wf t -> in_range fd = true ->
  view (set_cell t fd f) fd' = if decide (fd' = fd) then if in_use f then Some f else None else view t fd'.
Proof.
  intros Hw H. unfold view. destruct (in_range fd') eqn:H'; [|destruct (decide (fd' = fd)) as [->|]; congruence].
  rewrite cell_set_cell by done. by destruct (decide (fd' = fd)).
Qed.

(** ** The heap's answers *)

(** The lazily allocated array, when there is memory. *)
Lemma bucket_slots_ok b w : exists r w', bucket_slots vops b w = (r, w') /\ log w' = log w /\ (false ∈ answers w' -> false ∈ answers w) /\
  (r = Some (cells b) \/ (r = None /\ false ∈ answers w)).
Proof.
  unfold bucket_slots, cells. destruct (slots b) as [l|]; [by exists (Some l), w; auto|]. unfold kmalloc.
  destruct (answers w) as [|[] as_] eqn:E.
  - exists (Some cleared), w. rewrite E. auto.
  - eexists _, _. split; [reflexivity|]. split; [done|]. split; [|auto]. simpl. intros ?. apply elem_of_cons. by right.
  - eexists _, _. split; [reflexivity|]. split; [done|]. split; [|right; split; [done|]]; [intros _|]; apply elem_of_cons; by left.
Qed.

(** ** Allocation *)

Lemma find_slot_some l i j :
  find_slot l i = Some j ->
  (i <= j < length l)%nat /\ in_use (slot_at vops l j) = false /\ forall k, (i <= k < j)%nat -> in_use (slot_at vops l k) = true.
Proof.
  revert i j. induction l as [|f l IH]; intros [|i] j; cbn [find_slot]; try done.
  - destruct (in_use f) eqn:E; [|intros [= <-]; simpl; split; [lia|]; split; [done|lia]].
    destruct (find_slot l 0) as [j'|] eqn:Ej; [|done]. intros [= <-]. destruct (IH _ _ Ej) as (H1 & H2 & H3). simpl. split; [lia|]. split; [done|].
    intros [|k] Hk; [done|]. apply H3. lia.
  - destruct (find_slot l i) as [j'|] eqn:Ej; [|done]. intros [= <-]. destruct (IH _ _ Ej) as (H1 & H2 & H3). simpl. split; [lia|]. split; [done|].
    intros [|k] Hk; [lia|]. apply H3. lia.
Qed.

Lemma find_slot_none l i : find_slot l i = None -> forall k, (i <= k < length l)%nat -> in_use (slot_at vops l k) = true.
Proof.
  revert i. induction l as [|f l IH]; intros [|i]; cbn [find_slot]; simpl; try lia.
  - destruct (in_use f) eqn:E; [|done]. destruct (find_slot l 0) eqn:Ej; [done|]. intros _ [|k] Hk; [done|]. apply (IH 0%nat Ej). lia.
  - destruct (find_slot l i) eqn:Ej; [done|]. intros _ [|k] Hk; [lia|]. apply (IH i Ej). lia.
Qed.

Lemma countb_full l : countb in_use l = length l -> forall k, (k < length l)%nat -> in_use (slot_at vops l k) = true.
Proof.
  induction l as [|f l IH]; simpl; [lia|]. pose proof (countb_le_length in_use l). destruct (in_use f) eqn:E; [|lia]. intros Hc [|k] Hk; [done|].
  apply IH; lia.
Qed.

(** A table with the same cells. *)
Definition same_cells t t' : Prop := forall fd, in_range fd = true -> cell t' fd = cell t fd.

(** What an allocation from [from] promises. *)
Definition allocated (from : Z) t (w : world) (r : Z) t' : Prop :=
  wf t' /\
  ((r = - EMFILE /\ same_cells t t' /\ (false ∈ answers w \/ forall fd, in_range fd = true -> from <= fd -> in_use (cell t fd) = true)) \/
   (in_range r = true /\ from <= r /\ in_use (cell t r) = false /\ (forall fd, in_range fd = true -> from <= fd < r -> in_use (cell t fd) = true) /\
    forall fd, in_range fd = true -> cell t' fd = if decide (fd = r) then set_in_use reset else cell t fd)).

(** In the bucket [idx] the scan starts at the slot of [from] or at 0. *)
Lemma first_slot_ok from idx fd :
  0 <= from < W32 -> in_range fd = true -> from <= fd -> Bucket fd = idx -> ((if bool_decide (Bucket from = idx) then Slot from else 0) <= Slot fd)%nat.
Proof.
  intros Hf H Hle E. case_bool_decide as Eb; [|lia]. destruct (fd_split fd H) as (E1 & B & S). rewrite <- Eb in E.
  unfold Bucket, Slot in *. rewrite !u32_small in * by (unfold in_range in H; lia). dlia.
Qed.

Lemma bucket_mono fd fd' : 0 <= fd < W32 -> 0 <= fd' < W32 -> fd <= fd' -> (Bucket fd <= Bucket fd')%nat.
Proof. intros H H' Hle. unfold Bucket. rewrite !u32_small by lia. dlia. Qed.

Lemma in_range_lt fd : in_range fd = true -> 0 <= fd < 16384.
Proof. unfold in_range. rewrite andb_true_iff, Z.leb_le, Z.ltb_lt. lia. Qed.

Lemma alloc_loop_ok from n idx t w :
  0 <= from < W32 -> wf t -> (n + idx = 32)%nat \/ (n = 0 /\ 32 <= idx)%nat -> (Bucket from <= idx)%nat ->
  (forall fd, in_range fd = true -> from <= fd -> (Bucket fd < idx)%nat -> in_use (cell t fd) = true) ->
  exists r t' w', alloc_loop vops n idx from t w = (r, t', w') /\ log w' = log w /\ allocated from t w r t'.
Proof.
  intros Hf. revert idx t w. induction n as [|n IH]; intros idx t w Hw Hn Hb Hu; cbn [alloc_loop].
  { exists (- EMFILE), t, w. split; [done|]. split; [done|]. split; [done|]. left. split; [done|]. split; [done|]. right. intros fd H Hle.
    apply Hu; [done..|]. destruct (fd_split fd H) as (_ & ? & _). lia. }
  assert (idx < 32)%nat as Hi by lia. destruct (wf_at t idx Hw Hi) as (_ & Hl & Hc). set (b := bucket_at t idx) in *.
  assert (forall fd, Bucket fd = idx -> cell t fd = slot_at vops (cells b) (Slot fd)) as Hcell by (intros fd <-; done).
  destruct (Z.leb_spec FD_TABLE_SLOTS (slot_count b)) as [Hfull|Hfull].
  { apply IH; [done|lia|lia|]. intros fd H Hle Hlt. destruct (decide (Bucket fd = idx)) as [Eb|]; [|apply Hu; try done; lia].
    rewrite (Hcell fd Eb). apply countb_full; [pose proof (countb_le_length in_use (cells b)); lia|].
    destruct (fd_split fd H) as (_ & _ & ?). lia. }
  destruct (bucket_slots_ok b w) as (rs & w1 & E & El & Ea & [->|[-> Ho]]); rewrite E.
  2:{ exists (- EMFILE), t, w1. split; [done|]. split; [done|]. split; [done|]. left. split; [done|]. split; [by intros ? ?|auto]. }
  set (i0 := if bool_decide (Bucket from = idx) then Slot from else 0%nat). destruct (find_slot (cells b) i0) as [i|] eqn:Ef.
  - destruct (find_slot_some _ _ _ Ef) as (Hi1 & Hi2 & Hi3). destruct (fd_join idx i) as (R & B & S); [lia|lia|]. cbv zeta in *.
    change FD_TABLE_SLOTS with 512. set (r := Z.of_nat idx * 512 + Z.of_nat i) in *. eexists r, _, w1. split; [reflexivity|]. split; [done|].
    assert (cell t r = slot_at vops (cells b) i) as Ec by (rewrite (Hcell r B); by rewrite S).
    assert (<[idx := FdBucket (Some (<[i := set_in_use reset]> (cells b))) (slot_count b + 1)]> t = set_cell t r (set_in_use reset)) as ->.
    { unfold set_cell, set_bucket. rewrite B, S. fold b. rewrite Ec, Hi2. simpl. do 2 f_equal. lia. }
    split; [by apply wf_set_cell|]. right. split; [done|]. split.
    { unfold i0 in Hi1. case_bool_decide as Eb.
      - unfold r. unfold Bucket, Slot in Eb, Hi1. rewrite u32_small in Eb, Hi1 by lia. dlia.
      - destruct (Z.le_gt_cases from r) as [|Hgt]; [done|]. exfalso. pose proof (in_range_lt r R). pose proof (bucket_mono r from). lia. }
    split; [by rewrite Ec|]. split; [|intros fd H; by apply cell_set_cell].
    intros fd H Hle. destruct (decide (Bucket fd = idx)) as [Eb|Hne]; [|apply Hu; [done|lia|]].
    + rewrite (Hcell fd Eb). apply Hi3. split; [unfold i0; apply first_slot_ok; [done|done|lia|done]|].
      destruct (fd_split fd H) as (E1 & _). unfold r in Hle. rewrite Eb in E1. lia.
    + pose proof (in_range_lt r R). pose proof (in_range_lt fd H). pose proof (bucket_mono fd r). lia.
  - change (<[idx := FdBucket (Some (cells b)) (slot_count b)]> t) with (set_bucket t idx (cells b) (slot_count b)).
    assert (same_cells t (set_bucket t idx (cells b) (slot_count b))) as Hsame by (intros fd _; by apply cell_touch).
    destruct (IH (S idx) (set_bucket t idx (cells b) (slot_count b)) w1) as (r & t' & w' & E' & El' & Hw' & Ha); [by apply wf_touch|lia|lia| |].
    { intros fd H Hle Hlt. rewrite (Hsame fd H). destruct (decide (Bucket fd = idx)) as [Eb|]; [|apply Hu; try done; lia].
      rewrite (Hcell fd Eb). apply (find_slot_none _ _ Ef). split; [by apply first_slot_ok|]. destruct (fd_split fd H) as (_ & _ & ?). lia. }
    exists r, t', w'. split; [done|]. split; [congruence|]. split; [done|]. destruct Ha as [(-> & Hs & Ho)|(R & Hle & Hfree & Hlow & Hcells)].
    + left. split; [done|]. split; [intros fd H; by rewrite (Hs fd H), (Hsame fd H)|]. destruct Ho as [?|Ho]; [left; auto|right].
      intros fd H Hle. rewrite <- (Hsame fd H). auto.
    + right. rewrite (Hsame r R) in Hfree. split; [done|]. split; [done|]. split; [done|]. split.
      * intros fd H Hb'. rewrite <- (Hsame fd H). auto.
      * intros fd H. rewrite (Hcells fd H), (Hsame fd H). done.
Qed.

Lemma alloc_from_ok t from w :
  wf t -> from < W32 ->
  exists r t' w', fd_table_alloc_from vops t from w = (r, t', w') /\ log w' = log w /\ allocated (Z.max 0 from) t w r t'.
Proof.
  intros Hw Hf. unfold fd_table_alloc_from. assert ((if from <? 0 then 0 else from) = Z.max 0 from) as -> by (destruct (Z.ltb_spec from 0); lia).
  change (Z.to_nat FD_TABLE_BUCKETS) with 32%nat. apply alloc_loop_ok; [lia|done|lia|lia|]. intros fd H Hle Hlt. pose proof (in_range_lt fd H).
  pose proof (bucket_mono (Z.max 0 from) fd). lia.
Qed.

(** ** The other operations, as writes of a cell *)

Lemma emit_log es w : log (emit es w) = log w ++ es.
Proof. done. Qed.

Lemma close_ok run t fd w :
  wf t ->
  fd_table_close vops run t fd w
  = match view t fd with Some f => (set_cell t fd reset, emit (closed run fd f) w) | None => (t, w) end.
Proof.
  intros Hw. unfold fd_table_close, view, set_cell, set_bucket, cell, cells. destruct (in_range fd) eqn:H; [|done].
  destruct (slots (bucket_at t (Bucket fd))) as [l|]; [|by rewrite cleared_cell]. destruct (in_use (slot_at vops l (Slot fd))); [|done].
  simpl. do 3 f_equal. lia.
Qed.

Lemma same_cells_view t t' fd : same_cells t t' -> view t' fd = view t fd.
Proof. intros H. unfold view. destruct (in_range fd) eqn:E; [|done]. by rewrite (H fd E). Qed.

(** The table with the array of [fd]'s bucket made explicit. *)
Definition touch t (fd : Z) : fd_table := set_bucket t (Bucket fd) (cells (bucket_at t (Bucket fd))) (slot_count (bucket_at t (Bucket fd))).

Lemma touch_ok t fd : wf t -> in_range fd = true -> wf (touch t fd) /\ same_cells t (touch t fd).
Proof. intros Hw H. destruct (fd_split fd H) as (_ & B & _). split; [by apply wf_touch|]. intros fd' _. by apply cell_touch. Qed.

Definition fresh_fd (v wr : Z) : file_descriptor := file_bind_vnode_ops vops dev_bind (FD true vops 0 v 0 wr 1 0).

Lemma put_ok t fd v wr w :
  wf t -> in_range fd = true -> v <> 0 ->
  exists r t' w', fd_table_put vops dev_bind t fd v wr w = (r, t', w') /\ log w' = log w /\
    ((r = false /\ wf t' /\ same_cells t t' /\ (in_use (cell t fd) = true \/ false ∈ answers w)) \/
     (r = true /\ in_use (cell t fd) = false /\
      t' = <[Bucket fd := FdBucket (Some (<[Slot fd := fresh_fd v wr]> (cells (bucket_at t (Bucket fd))))) (slot_count (bucket_at t (Bucket fd)) + 1)]> t)).
Proof.
  intros Hw H Hv. unfold fd_table_put. rewrite H. unfold ctrue. rewrite (proj2 (Z.eqb_neq v 0)) by done. cbn [negb andb].
  destruct (bucket_slots_ok (bucket_at t (Bucket fd)) w) as (rs & w1 & E & El & _ & [->|[-> Ho]]); rewrite E.
  - fold (cell t fd). change (slot_at vops (cells (bucket_at t (Bucket fd))) (Slot fd)) with (cell t fd). destruct (in_use (cell t fd)) eqn:Eu.
    + destruct (touch_ok t fd Hw H) as [W S]. eexists false, _, w1. split; [reflexivity|]. split; [done|]. left. split; [done|]. split; [exact W|]. split; [exact S|auto].
    + eexists true, _, w1. split; [reflexivity|]. split; [done|]. right. done.
  - exists false, t, w1. split; [done|]. split; [done|]. left. split; [done|]. split; [done|]. split; [by intros ? ?|auto].
Qed.

(** The result of dup2: the two sections, and what is released after them. *)
Lemma dup2_ok run t oldfd newfd w :
  wf t -> in_range oldfd = true -> in_range newfd = true ->
  exists r t' w', fd_table_dup2 vops run t oldfd newfd w = (r, t', w') /\
    ((r < 0 /\ wf t' /\ same_cells t t' /\ log w' = log w /\ (view t oldfd = None \/ false ∈ answers w)) \/
     (r = newfd /\ oldfd = newfd /\ wf t' /\ same_cells t t' /\ log w' = log w /\ view t oldfd <> None) \/
     (r = newfd /\ oldfd <> newfd /\ exists f, view t oldfd = Some f /\ t' = set_cell (touch t oldfd) newfd f /\
      log w' = log w ++ EvDup f :: match view t newfd with Some g => closed run newfd g | None => [] end)).
Proof.
  intros Hw Ho Hn. unfold fd_table_dup2. rewrite Ho, Hn. cbn [andb]. unfold dup2_source.
  destruct (bucket_slots_ok (bucket_at t (Bucket oldfd)) w) as (rs & w1 & E & El & Ea & [->|[-> Hoom]]); rewrite E.
  2:{ exists (- EBADF), t, w1. split; [done|]. left. split; [done|]. split; [done|]. split; [by intros ? ?|]. auto. }
  change (slot_at vops (cells (bucket_at t (Bucket oldfd))) (Slot oldfd)) with (cell t oldfd).
  change (<[Bucket oldfd := FdBucket (Some (cells (bucket_at t (Bucket oldfd)))) (slot_count (bucket_at t (Bucket oldfd)))]> t) with (touch t oldfd).
  destruct (touch_ok t oldfd Hw Ho) as [W1 S1]. assert (view t oldfd = if in_use (cell t oldfd) then Some (cell t oldfd) else None) as Ev by (unfold view; by rewrite Ho).
  destruct (in_use (cell t oldfd)) eqn:Eu; [|exists (- EBADF), (touch t oldfd), w1; split; [done|]; left; split; [done|]; split; [done|]; split; [done|]; auto].
  destruct (Z.eqb_spec oldfd newfd) as [<-|Hne].
  { exists oldfd, (touch t oldfd), w1. split; [done|]. right. left. rewrite Ev. done. }
  unfold dup2_install. destruct (bucket_slots_ok (bucket_at (touch t oldfd) (Bucket newfd)) w1) as (rs & w2 & E2 & El2 & _ & [->|[-> Hoom]]); rewrite E2.
  2:{ exists (- EMFILE), (touch t oldfd), w2. split; [done|]. left. split; [done|]. split; [done|]. split; [done|]. split; [congruence|auto]. }
  change (slot_at vops (cells (bucket_at (touch t oldfd) (Bucket newfd))) (Slot newfd)) with (cell (touch t oldfd) newfd).
  assert (cell (touch t oldfd) newfd = cell t newfd) as Ecn by (by apply S1).
  assert (set_in_use (cell t oldfd) = cell t oldfd) as Ei by (destruct (cell t oldfd); simpl in *; by subst).
  assert (view t newfd = if in_use (cell t newfd) then Some (cell t newfd) else None) as Evn by (unfold view; by rewrite Hn).
  rewrite Ecn, Ei, Evn. destruct (in_use (cell t newfd)) eqn:En; (eexists newfd, _, _; split; [reflexivity|]; right; right; split; [done|]; split; [done|];
    exists (cell t oldfd); split; [done|]; split;
      [unfold set_cell, set_bucket; rewrite Ecn, En, Eu; simpl; do 2 f_equal; lia|simpl; rewrite ?El2, ?El, <- ?app_assoc; done]).
Qed.

(** ** The ledger of references *)

(** The object behind a descriptor. *)
Definition obj f : Z * Z * Z := (ops f, priv f, vn f).
Definition owns (o : Z * Z * Z) f : bool := in_use f && bool_decide (obj f = o).
Definition held (o : Z * Z * Z) b : Z := Z.of_nat (countb (owns o) (cells b)).

(** How many descriptors of the table refer to an object, and the references that a log
    takes less those it drops. *)
Definition holders t (o : Z * Z * Z) : Z := zsum (held o) t.
Definition balance1 (o : Z * Z * Z) (e : event) : Z :=
  match e with EvDup f => b2z (bool_decide (obj f = o)) | EvClose f => - b2z (bool_decide (obj f = o)) | _ => 0 end.
Definition balance (o : Z * Z * Z) (es : list event) : Z := zsum (balance1 o) es.

Lemma holders_set_cell t fd f o :
  wf t -> in_range fd = true -> holders (set_cell t fd f) o = holders t o - b2z (owns o (cell t fd)) + b2z (owns o f).
Proof.
  intros Hw H. destruct (fd_split fd H) as (_ & B & _). destruct (wf_at t _ Hw B) as (E & _). unfold holders, set_cell, set_bucket.
  rewrite (zsum_insert _ _ _ _ _ E). unfold held at 2 3. unfold cells at 2. cbn [slots].
  pose proof (countb_insert (owns o) _ _ f _ (cell_lookup t fd Hw H)) as Ec. unfold b2z. destruct (owns o f), (owns o (cell t fd)); lia.
Qed.

Lemma holders_touch t fd o : wf t -> in_range fd = true -> holders (touch t fd) o = holders t o.
Proof.
  intros Hw H. destruct (fd_split fd H) as (_ & B & _). destruct (wf_at t _ Hw B) as (E & _). unfold holders, touch, set_bucket.
  rewrite (zsum_insert _ _ _ _ _ E). unfold held at 2 3. unfold cells at 2. cbn [slots]. lia.
Qed.

Lemma owns_reset o : owns o reset = false.
Proof. done. Qed.

Lemma balance_closed o run fd f : in_use f = true -> balance o (closed run fd f) = - b2z (owns o f).
Proof. intros E. unfold balance, closed, owns. rewrite E. destruct (ctrue (vn f) && run); simpl; lia. Qed.

Lemma balance_app o es es' : balance o (es ++ es') = balance o es + balance o es'.
Proof. apply zsum_app. Qed.

Lemma cleared_held o : countb (owns o) cleared = 0%nat.
Proof. unfold slots_clear. induction (Z.to_nat FD_TABLE_SLOTS); simpl; [done|]. by rewrite IHn. Qed.

Lemma balance_closes o l : balance o (EvClose <$> filter (fun f => in_use f = true) l) = - Z.of_nat (countb (owns o) l).
Proof.
  unfold balance. induction l as [|f l IH]; [done|]. rewrite filter_cons. cbn [countb]. unfold owns at 1. destruct (in_use f) eqn:E.
  - rewrite decide_True by done. rewrite fmap_cons. cbn [zsum foldr]. fold (zsum (balance1 o) (EvClose <$> filter (fun f => in_use f = true) l)).
    rewrite IH. simpl. destruct (bool_decide _); simpl; lia.
  - rewrite decide_False by done. rewrite IH. simpl. lia.
Qed.

Lemma balance_dups o l : balance o (EvDup <$> filter (fun f => in_use f = true) l) = Z.of_nat (countb (owns o) l).
Proof.
  unfold balance. induction l as [|f l IH]; [done|]. rewrite filter_cons. cbn [countb]. unfold owns at 1. destruct (in_use f) eqn:E.
  - rewrite decide_True by done. rewrite fmap_cons. cbn [zsum foldr]. fold (zsum (balance1 o) (EvDup <$> filter (fun f => in_use f = true) l)).
    rewrite IH. simpl. destruct (bool_decide _); simpl; lia.
  - rewrite decide_False by done. rewrite IH. simpl. lia.
Qed.

(** ** Teardown and fork *)

Lemma fdproofs_free_ok t w : exists es, log (fd_table_free t w).2 = log w ++ es /\ forall o, balance o es = - holders t o.
Proof.
  unfold fd_table_free. cbn [snd]. revert w. induction t as [|b t IH]; intros w; cbn [foldl].
  { exists []. split; [by rewrite app_nil_r|done]. }
  destruct (IH (free_bucket b w)) as (es & E & Hb). unfold free_bucket, held in *. unfold holders. cbn [zsum foldr]. unfold held at 1, cells.
  destruct (slots b) as [l|].
  - eexists. split; [rewrite E, emit_log, <- app_assoc; reflexivity|]. intros o. rewrite !balance_app, balance_closes, Hb.
    unfold holders, zsum. simpl. lia.
  - exists es. split; [done|]. intros o. rewrite Hb, cleared_held. unfold holders, zsum. lia.
Qed.

(** What the child's bucket has of the parent's. *)
Definition inherits (s d : fd_bucket) : Prop :=
  forall i, let f := slot_at vops (cells s) i in
            if in_use f then slot_at vops (cells d) i = f else in_use (slot_at vops (cells d) i) = false.

Lemma copy_at l i : length l = 512%nat ->
  slot_at vops (copy_slots l cleared) i = (if in_use (slot_at vops l i) then slot_at vops l i else reset).
Proof.
  intros Hl. unfold slot_at at 1. unfold copy_slots. rewrite nth_lookup, lookup_zip_with. unfold slot_at. rewrite nth_lookup.
  destruct (l !! i) as [f|] eqn:E; simpl.
  - assert (cleared !! i = Some reset) as ->; [|done]. apply lookup_replicate. split; [done|]. apply lookup_lt_Some in E. lia.
  - done.
Qed.

Lemma copy_count l (P : file_descriptor -> bool) :
  length l = 512%nat -> (forall f, in_use f = false -> P f = false) -> countb P (copy_slots l cleared) = countb P l.
Proof.
  intros Hl HP. unfold copy_slots, slots_clear. assert (length l = Z.to_nat FD_TABLE_SLOTS) as Hl' by done. clear Hl.
  revert Hl'. generalize (Z.to_nat FD_TABLE_SLOTS). induction l as [|f l IH]; intros [|n] Hn; simpl in *; try done. rewrite (IH n) by lia.
  destruct (in_use f) eqn:E; [done|]. by rewrite (HP f E), (HP reset eq_refl).
Qed.

Definition no_fds (n : nat) : fd_table := replicate n (FdBucket None 0).

Lemma dup_loop_ok src w :
  Forall wf_bucket src ->
  exists ok t w' es, dup_loop vops src (no_fds (length src)) w = (ok, t, w') /\ log w' = log w ++ es /\ length t = length src /\ Forall wf_bucket t
    /\ (forall o, holders t o = balance o es) /\ (if ok then Forall2 inherits src t else false ∈ answers w).
Proof.
  revert w. induction src as [|s src IH]; intros w Hw; cbn [dup_loop length no_fds replicate].
  { exists true, [], w, []. split; [done|]. rewrite app_nil_r. done. }
  apply Forall_cons in Hw as [[Hl Hc] Hw]. assert (wf_bucket (FdBucket None 0)) as We by done.
  assert (forall n o, holders (no_fds n) o = 0) as Hz.
  { intros n o. induction n; [done|]. unfold holders in *. cbn [no_fds replicate zsum foldr]. unfold held at 1, cells. cbn [slots]. rewrite cleared_held. exact IHn. }
  destruct (slots s) as [l|] eqn:Es.
  - destruct (bucket_slots_ok (FdBucket None 0) w) as (rs & w1 & E & El & Ea & [->|[-> Ho]]); rewrite E.
    2:{ eexists false, _, w1, []. split; [reflexivity|]. rewrite app_nil_r. split; [done|]. split; [simpl; by rewrite length_replicate|].
        split; [apply Forall_cons; split; [done|]; apply Forall_replicate; exact We|]. split; [|done]. intros o. apply (Hz (S (length src))). }
    change (cells (FdBucket None 0)) with cleared. assert (cells s = l) as Ecs by (unfold cells; by rewrite Es).
    destruct (IH (emit (EvDup <$> filter (fun f => in_use f = true) (copy_slots l cleared)) w1) Hw) as (ok & t & w' & es & E' & El' & Lt & Wt & Bt & Ht).
    unfold no_fds in E'. rewrite E'. rewrite Ecs in *.
    eexists ok, _, w', _. split; [reflexivity|]. rewrite El', emit_log, El, <- app_assoc. split; [reflexivity|]. split; [simpl; by rewrite Lt|].
    split; [|split].
    + apply Forall_cons. split; [|done]. split; unfold cells; cbn [slots slot_count].
      * unfold copy_slots. rewrite length_zip_with, cleared_length. lia.
      * rewrite (copy_count l in_use) by done. unfold dup_count. lia.
    + intros o. rewrite balance_app, balance_dups, <- Bt. unfold holders. cbn [zsum foldr]. done.
    + destruct ok; [|simpl in Ht; auto]. constructor; [|done]. intros i. cbv zeta. rewrite Ecs. unfold cells. cbn [slots]. rewrite copy_at by done.
      destruct (in_use (slot_at vops l i)) eqn:Ei; done.
  - destruct (IH w Hw) as (ok & t & w' & es & E' & El' & Lt & Wt & Bt & Ht). unfold no_fds in E'. rewrite E'. eexists ok, _, w', es. split; [reflexivity|].
    split; [done|]. split; [simpl; by rewrite Lt|]. split; [by apply Forall_cons|]. split.
    + intros o. rewrite <- Bt. unfold holders. cbn [zsum foldr]. unfold held at 1, cells. cbn [slots]. rewrite cleared_held. unfold zsum. lia.
    + destruct ok; [|done]. constructor; [|done]. intros i. cbv zeta. unfold cells. rewrite Es. cbn [slots]. by rewrite cleared_cell.
Qed.

(** ** Sequences of operations *)

(** The hook of a device does not release the slot. *)
Definition keeps_in_use : Prop := forall f, in_use f = true -> in_use (dev_bind f) = true.

Lemma put_set_cell t fd v wr :
  keeps_in_use -> in_use (cell t fd) = false ->
  <[Bucket fd := FdBucket (Some (<[Slot fd := fresh_fd v wr]> (cells (bucket_at t (Bucket fd))))) (slot_count (bucket_at t (Bucket fd)) + 1)]> t
  = set_cell t fd (fresh_fd v wr).
Proof. intros Hk E. unfold set_cell, set_bucket. rewrite E. assert (in_use (fresh_fd v wr) = true) as -> by (by apply Hk). simpl. do 2 f_equal. lia. Qed.

(** The calls on a table, and the owner of an open descriptor filling it in. *)
Inductive fd_op :=
  | FdAlloc (from : Z)
  | FdClose (fd : Z)
  | FdPut (fd v wr : Z)
  | FdDup2 (oldfd newfd : Z)
  | FdFill (fd : Z) (g : file_descriptor)
  | FdFork
  | FdFree.

Definition fd_fill t (fd : Z) (g : file_descriptor) : fd_table := match view t fd with Some _ => set_cell t fd (set_in_use g) | None => t end.

Definition run_fd (run : bool) (op : fd_op) t w : fd_table * world :=
  match op with
  | FdAlloc from => let '(_, t, w) := fd_table_alloc_from vops t from w in (t, w)
  | FdClose fd => fd_table_close vops run t fd w
  | FdPut fd v wr => let '(_, t, w) := fd_table_put vops dev_bind t fd v wr w in (t, w)
  | FdDup2 a b => let '(_, t, w) := fd_table_dup2 vops run t a b w in (t, w)
  | FdFill fd g => (fd_fill t fd g, w)
  | FdFork => let '(ok, child, w) := fd_table_dup vops fd_table_init t w in
              if ok then (child, w) else fd_table_free child w
  | FdFree => fd_table_free t w
  end.

Definition int_args (op : fd_op) : Prop := match op with FdAlloc from => from < 2147483648 | _ => True end.

Lemma view_in_range t fd f : view t fd = Some f -> in_range fd = true /\ cell t fd = f /\ in_use f = true.
Proof. unfold view. destruct (in_range fd); [|done]. destruct (in_use (cell t fd)) eqn:E; [|done]. by intros [= <-]. Qed.

Lemma free_wf t w : length t = 32%nat -> wf (fd_table_free t w).1.
Proof. intros Hl. split; [cbn; by rewrite length_fmap|]. apply Forall_fmap, Forall_true. done. Qed.

Lemma run_fd_wf run op t w : keeps_in_use -> int_args op -> wf t -> wf (run_fd run op t w).1.
Proof.
  intros Hk Ha Hw. destruct op as [from|fd|fd v wr|a b|fd g| |]; cbn [run_fd int_args] in *.
  - destruct (alloc_from_ok t from w Hw) as (r & t' & w' & E & _ & H & _); [lia|]. by rewrite E.
  - rewrite close_ok by done. destruct (view t fd) eqn:E; [|done]. apply view_in_range in E as [H _]. by apply wf_set_cell.
  - destruct (in_range fd) eqn:H; [|unfold fd_table_put; by rewrite H]. destruct (Z.eq_dec v 0) as [->|Hv]; [unfold fd_table_put; by rewrite H|].
    destruct (put_ok t fd v wr w Hw H Hv) as (r & t' & w' & E & _ & [(_ & ? & _)|(_ & Eu & ->)]); rewrite E; [done|]. cbn [fst].
    rewrite put_set_cell by done. by apply wf_set_cell.
  - destruct (in_range a && in_range b) eqn:H; [|unfold fd_table_dup2; by rewrite H]. apply andb_true_iff in H as [H1 H2].
    destruct (dup2_ok run t a b w Hw H1 H2) as (r & t' & w' & E & [(_ & ? & _)|[(_ & _ & ? & _)|(_ & _ & f & _ & -> & _)]]); rewrite E; [done|done|].
    cbn [fst]. apply wf_set_cell; [by apply touch_ok|done].
  - unfold fd_fill. destruct (view t fd) eqn:E; [|done]. apply view_in_range in E as [H _]. by apply wf_set_cell.
  - unfold fd_table_dup. change fd_table_init with (no_fds 32). rewrite <- (proj1 Hw).
    destruct (dup_loop_ok t w (proj2 Hw)) as (ok & t' & w' & es & E & _ & Lt & Wt & _). rewrite E. rewrite (proj1 Hw) in Lt.
    destruct ok; [by split|by apply free_wf].
  - by apply free_wf, Hw.
Qed.

Lemma init_wf : wf fd_table_init.
Proof. split; [done|]. apply Forall_replicate. done. Qed.

Lemma forall2_view src t fd : wf src -> wf t -> Forall2 inherits src t -> view t fd = view src fd.
Proof.
  intros Hs Ht H. unfold view. destruct (in_range fd) eqn:E; [|done]. destruct (fd_split fd E) as (_ & B & _).
  destruct (wf_at src _ Hs B) as (E1 & _). destruct (wf_at t _ Ht B) as (E2 & _).
  pose proof (Forall2_lookup_lr _ _ _ _ _ _ H E1 E2 (Slot fd)) as Hi. cbv zeta in Hi. unfold cell.
  destruct (in_use (slot_at vops (cells (bucket_at src (Bucket fd))) (Slot fd))) eqn:Eu; [by rewrite Hi, Eu|by rewrite Hi].
Qed.

(** Allocation as seen through the map. *)
Lemma alloc_view_ok t from w :
  wf t -> from < 2147483648 ->
  exists r t' w', fd_table_alloc_from vops t from w = (r, t', w') /\ log w' = log w /\ wf t' /\
    ((r = - EMFILE /\ (forall fd, view t' fd = view t fd) /\
      (false ∈ answers w \/ forall fd, Z.max 0 from <= fd < FD_TABLE_MAX -> view t fd <> None)) \/
     (Z.max 0 from <= r < FD_TABLE_MAX /\ view t r = None /\ (forall fd, Z.max 0 from <= fd < r -> view t fd <> None) /\
      forall fd, view t' fd = if decide (fd = r) then Some (set_in_use reset) else view t fd)).
Proof.
  intros Hw Hf. destruct (alloc_from_ok t from w Hw) as (r & t' & w' & E & El & W & Ha); [lia|]. exists r, t', w'. split; [done|]. split; [done|]. split; [done|].
  assert (forall fd, 0 <= fd < FD_TABLE_MAX -> in_range fd = true) as Hr by (intros fd ?; unfold in_range; rewrite andb_true_iff, Z.leb_le, Z.ltb_lt; lia).
  assert (forall fd, in_range fd = true -> in_use (cell t fd) = true -> view t fd <> None) as Hv by (intros fd H Eu; unfold view; by rewrite H, Eu).
  destruct Ha as [(-> & Hs & Ho)|(R & Hle & Hfree & Hlow & Hcells)].
  - left. split; [done|]. split; [intros fd; by apply same_cells_view|]. destruct Ho as [?|Ho]; [by left|right]. intros fd Hb.
    apply Hv; [apply Hr; lia|apply Ho; [apply Hr; lia|lia]].
  - right. pose proof (in_range_lt r R) as Hlt. split; [lia|]. split; [unfold view; by rewrite R, Hfree|]. split.
    + intros fd Hb. apply Hv; [apply Hr; lia|apply Hlow; [apply Hr; lia|lia]].
    + intros fd. unfold view. destruct (in_range fd) eqn:E1; [|destruct (decide (fd = r)) as [->|]; congruence]. rewrite (Hcells fd E1).
      by destruct (decide (fd = r)).
Qed.

(** ** The claims *)

(** C28: any sequence of allocations, closes, installations, dup2s, forks (the run goes on
    in the child) and frees on a fresh table leaves it well formed: 32 buckets, 512 slots in
    every array, and every count the number of slots in use.  Floors of allocations are C
    ints, and binding the operations of a device node leaves the slot in use. *)
Theorem fd_table_wf run opl w :
  keeps_in_use -> Forall int_args opl -> wf (foldl (fun s op => run_fd run op s.1 s.2) (fd_table_init, w) opl).1.
Proof.
  intros Hk Ha. assert (forall s, wf s.1 -> wf (foldl (fun s op => run_fd run op s.1 s.2) s opl).1) as H; [|apply H, init_wf].
  induction Ha as [|op opl Hop _ IH]; intros s Hs; cbn [foldl]; [done|]. apply IH. by apply run_fd_wf.
Qed.

(** Allocation from a floor hands out the lowest number that is not open, marks it, and
    leaves every other descriptor alone; it fails only when the heap refuses or every number
    from the floor on is open, and then nothing changes. *)
Theorem fd_alloc_lowest t from w :
  wf t -> from < 2147483648 ->
  exists r t' w', fd_table_alloc_from vops t from w = (r, t', w') /\ log w' = log w /\ wf t' /\
    ((r = - EMFILE /\ (forall fd, view t' fd = view t fd) /\
      (false ∈ answers w \/ forall fd, Z.max 0 from <= fd < FD_TABLE_MAX -> view t fd <> None)) \/
     (Z.max 0 from <= r < FD_TABLE_MAX /\ view t r = None /\ (forall fd, Z.max 0 from <= fd < r -> view t fd <> None) /\
      forall fd, view t' fd = if decide (fd = r) then Some (set_in_use reset) else view t fd)).
Proof. apply alloc_view_ok. Qed.

(** Closing a descriptor frees exactly that number and drops exactly its reference, after
    taking the number out of the epoll sets. *)
Theorem fd_close_spec run t fd f w :
  wf t -> view t fd = Some f ->
  exists t' w', fd_table_close vops run t fd w = (t', w') /\ wf t' /\ log w' = log w ++ closed run fd f /\
    (forall fd', view t' fd' = if decide (fd' = fd) then None else view t fd') /\
    forall o, holders t' o = holders t o + balance o (closed run fd f).
Proof.
  intros Hw Hv. rewrite close_ok by done. rewrite Hv. destruct (view_in_range _ _ _ Hv) as (H & Ec & Eu).
  eexists _, _. split; [reflexivity|]. split; [by apply wf_set_cell|]. split; [done|]. split; [intros fd'; by rewrite view_set_cell|].
  intros o. rewrite holders_set_cell, balance_closed, Ec, owns_reset by done. simpl. lia.
Qed.

(** dup2 of an open descriptor onto another number makes both refer to one object, closes
    what the number held, and leaves every object with one reference per descriptor. *)
Theorem fd_dup2_spec run t oldfd newfd f w :
  wf t -> view t oldfd = Some f -> in_range newfd = true -> oldfd <> newfd -> answers w = [] ->
  exists t' w' es, fd_table_dup2 vops run t oldfd newfd w = (newfd, t', w') /\ wf t' /\ log w' = log w ++ es /\
    (forall fd, view t' fd = if decide (fd = newfd) then Some f else view t fd) /\
    forall o, holders t' o = holders t o + balance o es.
Proof.
  intros Hw Hv Hn Hne Ha. destruct (view_in_range _ _ _ Hv) as (Ho & Ec & Eu).
  destruct (dup2_ok run t oldfd newfd w Hw Ho Hn) as (r & t' & w' & E & [(_ & _ & _ & _ & [?|Hf])|[(_ & ? & _)|(-> & _ & g & Hg & -> & El)]]);
    [congruence|rewrite Ha in Hf; by apply elem_of_nil in Hf|done|]. rewrite Hv in Hg. injection Hg as <-.
  destruct (touch_ok t oldfd Hw Ho) as [W1 S1]. eexists _, w', _. split; [exact E|]. split; [by apply wf_set_cell|]. split; [exact El|]. split.
  - intros fd. rewrite view_set_cell by done. rewrite Eu. destruct (decide (fd = newfd)); [done|]. by apply same_cells_view.
  - intros o. rewrite holders_set_cell, holders_touch by done. rewrite (S1 newfd Hn). unfold balance. cbn [zsum foldr]. fold (balance o).
    assert (balance1 o (EvDup f) = b2z (owns o f)) as -> by (unfold owns; by rewrite Eu).
    assert (foldr (fun x acc => balance1 o x + acc) 0 match view t newfd with Some g => closed run newfd g | None => [] end = - b2z (owns o (cell t newfd))) as ->; [|lia].
    unfold view. rewrite Hn. destruct (in_use (cell t newfd)) eqn:En; [apply (balance_closed o run newfd _ En)|]. unfold owns. by rewrite En.
Qed.

(** A fork's copy has the parent's descriptors, each with a reference of its own; if memory
    runs out half way, tearing the copy down drops every reference that was taken. *)
Theorem fd_fork_spec src w :
  wf src ->
  exists ok t w' es es', fd_table_dup vops fd_table_init src w = (ok, t, w') /\ wf t /\ log w' = log w ++ es /\
    (forall o, holders t o = balance o es) /\ (if ok then forall fd, view t fd = view src fd else false ∈ answers w) /\
    log (fd_table_free t w').2 = log w' ++ es' /\ forall o, balance o (es ++ es') = 0.
Proof.
  intros Hw. unfold fd_table_dup. change fd_table_init with (no_fds 32). rewrite <- (proj1 Hw).
  destruct (dup_loop_ok src w (proj2 Hw)) as (ok & t & w' & es & E & El & Lt & Wt & Bt & Ht). destruct (fdproofs_free_ok t w') as (es' & Ef & Bf).
  assert (wf t) as Hwt by (split; [rewrite Lt; apply Hw|done]). exists ok, t, w', es, es'. split; [done|]. split; [done|]. split; [done|]. split; [done|].
  split; [destruct ok; [intros fd; by apply forall2_view|done]|]. split; [done|]. intros o. rewrite balance_app, Bf, Bt. lia.
Qed.
End proofs.

(** ** Witnesses *)

Definition demo_bind (f : file_descriptor) : file_descriptor := f.
Definition demo_fd : file_descriptor := FD true 7 0 4096 0 1 1 0.
Definition demo_table : fd_table := set_cell 7 fd_table_init 3 demo_fd.

Lemma demo_table_wf : wf 7 demo_table.
Proof. apply wf_set_cell; [apply init_wf|reflexivity]. Qed.

Lemma demo_view : view 7 demo_table 3 = Some demo_fd.
Proof. reflexivity. Qed.

Lemma fd_table_wf_witness : wf 7 (foldl (fun s op => run_fd 7 demo_bind true op s.1 s.2) (fd_table_init, World [] []) [FdPut 0 64 1; FdAlloc 0; FdDup2 0 5; FdFork; FdClose 5; FdFree; FdAlloc 3]).1.
Proof. apply (fd_table_wf 7 demo_bind true); [by intros f|repeat constructor]. Defined.

Lemma fd_alloc_lowest_witness : exists r t' w', fd_table_alloc_from 7 demo_table 3 (World [] []) = (r, t', w') /\ log w' = [].
Proof. destruct (fd_alloc_lowest 7 demo_table 3 (World [] [])) as (r & t' & w' & E & El & _); [apply demo_table_wf|reflexivity|]. by exists r, t', w'. Defined.

Lemma fd_close_spec_witness : exists t' w', fd_table_close 7 true demo_table 3 (World [] []) = (t', w') /\ wf 7 t'.
Proof. destruct (fd_close_spec 7 true demo_table 3 demo_fd (World [] []) demo_table_wf demo_view) as (t' & w' & E & W & _). by exists t', w'. Defined.

Lemma fd_dup2_spec_witness : exists t' w', fd_table_dup2 7 true demo_table 3 0 (World [] []) = (0, t', w').
Proof.
  destruct (fd_dup2_spec 7 true demo_table 3 0 demo_fd (World [] []) demo_table_wf demo_view) as (t' & w' & es & E & _); [reflexivity|lia|reflexivity|].
  by exists t', w'.
Defined.

Lemma fd_fork_spec_witness : exists ok t w', fd_table_dup 7 fd_table_init demo_table (World [] []) = (ok, t, w').
Proof. destruct (fd_fork_spec 7 demo_table (World [] []) demo_table_wf) as (ok & t & w' & es & es' & E & _). by exists ok, t, w'. Defined.
