(* ===== verification/Eventfd.v ===== *)
(** * Event counters (kernel/ipc/eventfd.c, eventfd.h)

    A 64-bit counter behind a descriptor: reads take it down, writes add to it, and both sleep
    when they cannot.  Each pass of their loops is a section of the object's lock; a wait queue
    is the set of the threads that sleep on it, and waking it is a step of its own after the
    lock is dropped.  [eventfd_create] composes with the descriptor tables of FdTable.v. *)

From stdpp Require Import base numbers list gmap.
From Stdlib Require Import ZArith Lia.
From S2P Require Import Prelude FdTable FdProofs.

Abbreviation EVENTFD_MAX := 0xfffffffffffffffe.
Abbreviation EFD_SEMAPHORE := 0x00000001.
Abbreviation EFD_CLOEXEC := 0x00080000.
Abbreviation EFD_NONBLOCK := 0x00000800.
Definition POLLIN : Z := 1.
Definition POLLOUT : Z := 4.

Record eventfd := EventFd { count : Z; semaphore : bool; refs : Z }.

Definition eventfd_alloc (initval : Z) (sem : bool) : eventfd := EventFd initval sem 1.

(** ** The sections *)

Inductive pc :=
  | Done (rc v : Z)              (* outside; the last result, and the value read *)
  | Rd (nb : bool)               (* about to take the lock in [eventfd_do_read] *)
  | RdSleep (nb : bool)          (* on [readers] *)
  | RdBack (nb : bool)           (* back from [schedule] *)
  | Wr (nb : bool) (v : Z)
  | WrSleep (nb : bool) (v : Z)
  | WrBack (nb : bool) (v : Z)
  | WakeWriters (v : Z)          (* read [v]; [writers] still to be woken *)
  | WakeReaders.

(** [sig]: a signal is pending when [waitq_sleep] looks. *)
Definition eventfd_read_section (e : eventfd) (nb sig : bool) : eventfd * pc :=
  if 0 <? count e then
    let v := if semaphore e then 1 else count e in
    (EventFd (u64 (count e - v)) (semaphore e) (refs e), WakeWriters v)
  else if nb then (e, Done (- EAGAIN) 0)
  else if sig then (e, Done (- EINTR) 0)
  else (e, RdSleep nb).

Definition eventfd_write_enter (nb : bool) (v : Z) : pc := if v =? UINT64_MAX then Done (- EINVAL) 0 else Wr nb v.

Definition eventfd_write_section (e : eventfd) (nb : bool) (v : Z) (sig : bool) : eventfd * pc :=
  if u64 (count e + v) <=? EVENTFD_MAX then (EventFd (u64 (count e + v)) (semaphore e) (refs e), WakeReaders)
  else if nb then (e, Done (- EAGAIN) 0)
  else if sig then (e, Done (- EINTR) 0)
  else (e, WrSleep nb v).

(** ** The descriptor's operations *)

Definition evfd_read_enter (nb : bool) (len : Z) : pc := if len <? 8 then Done (- EINVAL) 0 else Rd nb.
Definition evfd_write_enter (nb : bool) (len v : Z) : pc := if len <? 8 then Done (- EINVAL) 0 else eventfd_write_enter nb v.

Definition evfd_poll (e : eventfd) (events : Z) : Z :=
  let mask := if 0 <? count e then POLLIN else 0 in
  let mask := if count e <? EVENTFD_MAX then Z.lor mask POLLOUT else mask in
  Z.land mask events.

Definition evfd_dup (e : eventfd) : eventfd := EventFd (count e) (semaphore e) (refs e + 1).

(** [true]: the object is freed. *)
Definition evfd_close (e : eventfd) : eventfd * bool :=
  let e := EventFd (count e) (semaphore e) (refs e - 1) in (e, refs e =? 0).

(** ** Creation *)

(** A write through the pointer [fd_table_get] returned. *)
Definition store_fd (t : fd_table) (fd : Z) (f : file_descriptor) : fd_table :=
  let b := bucket_at t (Bucket fd) in
  match slots b with
  | Some l => <[Bucket fd := FdBucket (Some (<[Slot fd := f]> l)) (slot_count b)]> t
  | None => t
  end.

(** [addr] is the address of the new object and [eventfd_ops] that of its operations. *)
Definition eventfd_create (vnode_file_ops eventfd_ops addr : Z) (running : bool) (initval flags : Z) (t : fd_table) (w : world)
  : Z * option eventfd * fd_table * world :=
  if negb running then (- ESRCH, None, t, w)
  else if ctrue (Z.land flags (Z.lnot (Z.lor (Z.lor EFD_SEMAPHORE EFD_CLOEXEC) EFD_NONBLOCK))) then (- EINVAL, None, t, w)
  else
    let '(ok, w) := kmalloc w in
    if negb ok then (- ENOMEM, None, t, w)
    else
      let e := eventfd_alloc initval (ctrue (Z.land flags EFD_SEMAPHORE)) in
      let '(fd, t, w) := fd_table_alloc vnode_file_ops t w in
      if fd <? 0 then (fd, None, t, emit [EvKfree] w)
      else
        match fd_table_get vnode_file_ops t fd with
        | None => let '(t, w) := fd_table_close vnode_file_ops running t fd w in (- EBADF, None, t, emit [EvKfree] w)
        | Some f =>
          let nb := if ctrue (Z.land flags EFD_NONBLOCK) then 1 else 0 in
          (fd, Some e, store_fd t fd (FD (in_use f) eventfd_ops addr (vn f) (position f) 1 1 nb), w)
        end.

(** ** Threads over one counter *)

Record sys := Sys {
  ev : eventfd;
  thr : gmap nat pc;
  wrote : Z;          (* ghost: the sum of what writes added *)
  took : Z;           (* ghost: the sum of what reads took *)
  wrapped : bool;     (* ghost: some addition passed 2^64 *)
}.

Definition wake_pc (r : bool) (k : pc) : pc :=
  match k with
  | RdSleep nb => if r then RdBack nb else k
  | WrSleep nb v => if r then k else WrBack nb v
  | _ => k
  end.

(** [waitq_wake_all] on [readers] or [writers]. *)
Definition wake_all (r : bool) (th : gmap nat pc) : gmap nat pc := wake_pc r <$> th.

Inductive event :=
  | ERead (t : nat) (nb : bool) (len : Z)
  | EWrite (t : nat) (nb : bool) (len v : Z)
  | ERun (t : nat) (sig : bool)
  | ESignal (t : nat).

Definition outside (k : option pc) : bool := match k with None | Some (Done _ _) => true | _ => false end.

Definition after_read (t : nat) (r : eventfd * pc) (s : sys) : sys :=
  Sys r.1 (<[t := r.2]> (thr s)) (wrote s) (match r.2 with WakeWriters v => took s + v | _ => took s end) (wrapped s).

Definition after_write (t : nat) (v : Z) (r : eventfd * pc) (s : sys) : sys :=
  match r.2 with
  | WakeReaders => Sys r.1 (<[t := r.2]> (thr s)) (wrote s + v) (took s) (wrapped s || (W64 <=? count (ev s) + v))
  | _ => Sys r.1 (<[t := r.2]> (thr s)) (wrote s) (took s) (wrapped s)
  end.

Definition set_pc (t : nat) (k : pc) (s : sys) : sys := Sys (ev s) (<[t := k]> (thr s)) (wrote s) (took s) (wrapped s).

Definition exec (e : event) (s : sys) : option sys :=
  match e with
  | ERead t nb len => if outside (thr s !! t) then Some (set_pc t (evfd_read_enter nb len) s) else None
  | EWrite t nb len v =>
    if outside (thr s !! t) && (0 <=? v) && (v <? W64) then Some (set_pc t (evfd_write_enter nb len v) s) else None
  | ERun t sig =>
    match thr s !! t with
    | Some (Rd nb) => Some (after_read t (eventfd_read_section (ev s) nb sig) s)
    | Some (RdBack nb) => Some (if sig then set_pc t (Done (- EINTR) 0) s else after_read t (eventfd_read_section (ev s) nb false) s)
    | Some (Wr nb v) => Some (after_write t v (eventfd_write_section (ev s) nb v sig) s)
    | Some (WrBack nb v) => Some (if sig then set_pc t (Done (- EINTR) 0) s else after_write t v (eventfd_write_section (ev s) nb v false) s)
    | Some (WakeWriters v) => Some (Sys (ev s) (<[t := Done 8 v]> (wake_all false (thr s))) (wrote s) (took s) (wrapped s))
    | Some WakeReaders => Some (Sys (ev s) (<[t := Done 8 0]> (wake_all true (thr s))) (wrote s) (took s) (wrapped s))
    | _ => None
    end
  | ESignal t =>
    match thr s !! t with
    | Some (RdSleep nb) => Some (set_pc t (RdBack nb) s)
    | Some (WrSleep nb v) => Some (set_pc t (WrBack nb v) s)
    | _ => None
    end
  end.

Fixpoint run (es : list event) (s : sys) : option sys :=
  match es with [] => Some s | e :: es => s' ← exec e s; run es s' end.

Definition sys_init (initval : Z) (sem : bool) : sys := Sys (eventfd_alloc initval sem) ∅ 0 0 false.

(** ** The invariant *)

Definition pc_ok (k : pc) : Prop :=
  match k with Wr _ v | WrSleep _ v | WrBack _ v => 0 <= v < UINT64_MAX | _ => True end.

Definition will_wake (r : bool) (th : gmap nat pc) : Prop :=
  exists t k, th !! t = Some k /\ match k with WakeReaders => r = true | WakeWriters _ => r = false | _ => False end.

Record inv (initval : Z) (s : sys) : Prop := {
  iv_count : 0 <= count (ev s) <= EVENTFD_MAX;
  iv_pcs : forall t k, thr s !! t = Some k -> pc_ok k;
  iv_sum : (initval + wrote s - took s) mod W64 = count (ev s);
  iv_exact : wrapped s = false -> initval + wrote s = took s + count (ev s);
  iv_readers : forall t nb, thr s !! t = Some (RdSleep nb) -> count (ev s) = 0 \/ will_wake true (thr s);
  iv_writers : wrapped s = false -> forall t nb v, thr s !! t = Some (WrSleep nb v) -> EVENTFD_MAX < count (ev s) + v \/ will_wake false (thr s);
}.

Definition waker (k : pc) : bool := match k with WakeReaders | WakeWriters _ => true | _ => false end.

Lemma will_wake_insert r th t k :
  will_wake r th -> (forall k0, th !! t = Some k0 -> waker k0 = false) -> will_wake r (<[t := k]> th).
Proof.
  intros (u & ku & E & Hk) Hw. exists u, ku. split; [|done]. rewrite lookup_insert_ne; [done|]. intros <-. specialize (Hw ku E). by destruct ku.
Qed.

(** A step of a thread that leaves the counter alone. *)
Lemma inv_set_pc I s t k :
  inv I s -> (forall k0, thr s !! t = Some k0 -> waker k0 = false) -> pc_ok k ->
  match k with RdSleep _ => count (ev s) = 0 | WrSleep _ v => EVENTFD_MAX < count (ev s) + v | _ => True end -> inv I (set_pc t k s).
Proof.
  intros [H1 H2 H3 H4 H5 H6] Hw Hk Hs. split; cbn; try done.
  - intros u ku. rewrite lookup_insert_Some. intros [[<- <-]|[_ E]]; [done|by eapply H2].
  - intros u nb. rewrite lookup_insert_Some. intros [[<- ->]|[_ E]]; [by left|]. destruct (H5 u nb E) as [?|?]; [by left|right; by apply will_wake_insert].
  - intros Hwr u nb v. rewrite lookup_insert_Some. intros [[<- ->]|[_ E]]; [by left|]. destruct (H6 Hwr u nb v E) as [?|?]; [by left|right; by apply will_wake_insert].
Qed.

Lemma inv_read I s t nb sig :
  inv I s -> (forall k0, thr s !! t = Some k0 -> waker k0 = false) -> inv I (after_read t (eventfd_read_section (ev s) nb sig) s).
Proof.
  intros Hi Hw. pose proof Hi as [H1 H2 H3 H4 H5 H6]. unfold eventfd_read_section in *. destruct (Z.ltb_spec 0 (count (ev s))) as [Hc|Hc].
  - set (v := if semaphore (ev s) then 1 else count (ev s)). assert (0 < v <= count (ev s)) as Hv by (unfold v; destruct (semaphore (ev s)); lia).
    assert (will_wake false (<[t := WakeWriters v]> (thr s))) as Hww by (exists t, (WakeWriters v); by rewrite lookup_insert_eq).
    split; cbn; rewrite ?u64_small by lia; try lia.
    + intros u ku. rewrite lookup_insert_Some. intros [[<- <-]|[_ E]]; [done|by eapply H2].
    + replace (I + wrote s - (took s + v)) with (I + wrote s - took s - v) by lia. rewrite <- Zminus_mod_idemp_l, H3. apply Z.mod_small. lia.
    + intros Hx. specialize (H4 Hx). lia.
    + intros u b. rewrite lookup_insert_Some. intros [[_ E]|[_ E]]; [done|]. destruct (H5 u b E) as [?|Hx]; [lia|right; by apply will_wake_insert].
    + intros _ u b x _. by right.
  - assert (forall k, match k with WakeWriters _ => False | _ => True end -> after_read t (ev s, k) s = set_pc t k s) as Ha by (by intros []).
    destruct nb; [|destruct sig]; rewrite Ha by done; apply inv_set_pc; try done; cbn; lia.
Qed.

Lemma inv_write I s t nb v sig :
  inv I s -> (forall k0, thr s !! t = Some k0 -> waker k0 = false) -> 0 <= v < UINT64_MAX -> inv I (after_write t v (eventfd_write_section (ev s) nb v sig) s).
Proof.
  intros Hi Hw Hv. pose proof Hi as [H1 H2 H3 H4 H5 H6]. unfold eventfd_write_section, UINT64_MAX in *.
  destruct (Z.leb_spec (u64 (count (ev s) + v)) 0xfffffffffffffffe) as [Hc|Hc].
  - assert (will_wake true (<[t := WakeReaders]> (thr s))) as Hww by (exists t, WakeReaders; by rewrite lookup_insert_eq).
    pose proof (u64_range (count (ev s) + v)). unfold after_write. cbn. split; cbn; try lia.
    + intros u ku. rewrite lookup_insert_Some. intros [[<- <-]|[_ E]]; [done|by eapply H2].
    + replace (I + (wrote s + v) - took s) with (I + wrote s - took s + v) by lia. by rewrite <- Zplus_mod_idemp_l, H3.
    + intros [Hx Hy]%orb_false_iff. specialize (H4 Hx). apply Z.leb_gt in Hy. rewrite u64_small by lia. lia.
    + intros u b _. by right.
    + intros [Hx Hy]%orb_false_iff u b x. apply Z.leb_gt in Hy. rewrite u64_small by lia. rewrite lookup_insert_Some. intros [[_ E]|[_ E]]; [done|].
      destruct (H6 Hx u b x E) as [?|?]; [left; lia|right; by apply will_wake_insert].
  - assert (forall k, match k with WakeReaders => False | _ => True end -> after_write t v (ev s, k) s = set_pc t k s) as Ha by (by intros []).
    assert (u64 (count (ev s) + v) <= count (ev s) + v) by (apply Z.mod_le; lia).
    destruct nb; [|destruct sig]; rewrite Ha by done; apply inv_set_pc; try done; cbn; unfold UINT64_MAX; lia.
Qed.

Lemma lookup_wake_all r th t : wake_all r th !! t = wake_pc r <$> th !! t.
Proof. apply lookup_fmap. Qed.

Lemma eventfd_inv_wake I s t r k :
  inv I s -> thr s !! t = Some k -> match k with WakeReaders => r = true | WakeWriters _ => r = false | _ => False end -> forall rc v,
  inv I (Sys (ev s) (<[t := Done rc v]> (wake_all r (thr s))) (wrote s) (took s) (wrapped s)).
Proof.
  intros [H1 H2 H3 H4 H5 H6] Ek Hk rc v.
  assert (forall q, q <> r -> will_wake q (thr s) -> will_wake q (<[t := Done rc v]> (wake_all r (thr s)))) as Hw.
  { intros q Hq (u & ku & E & Hu). exists u, ku. rewrite lookup_insert_ne by (intros <-; rewrite Ek in E; injection E as <-; destruct k; congruence).
    rewrite lookup_wake_all, E. split; [by destruct ku|done]. }
  split; cbn; try done.
  - intros u ku. rewrite lookup_insert_Some. intros [[<- <-]|[_ E]]; [done|]. rewrite lookup_wake_all in E. apply fmap_Some in E as (k0 & E0 & ->).
    specialize (H2 u k0 E0). destruct k0, r; done.
  - intros u nb. rewrite lookup_insert_Some. intros [[_ E]|[_ E]]; [done|]. rewrite lookup_wake_all in E. apply fmap_Some in E as (k0 & E0 & E1).
    destruct k0; try done; destruct r; try done. destruct (H5 u nb0 E0) as [?|Hx]; [by left|right; by apply Hw].
  - intros Hwr u nb x. rewrite lookup_insert_Some. intros [[_ E]|[_ E]]; [done|]. rewrite lookup_wake_all in E. apply fmap_Some in E as (k0 & E0 & E1).
    destruct k0; try done; destruct r; try done. injection E1 as <- <-. destruct (H6 Hwr u nb x E0) as [?|Hx]; [by left|right; by apply Hw].
Qed.

Lemma eventfd_exec_inv I e s s' : inv I s -> exec e s = Some s' -> inv I s'.
Proof.
  intros Hi E. destruct e as [t nb len|t nb len v|t sig|t]; cbn in E.
  - destruct (outside (thr s !! t)) eqn:Ho; [|done]. injection E as <-. apply inv_set_pc; [done| |unfold evfd_read_enter; by destruct (len <? 8)..].
    intros k0 E0. rewrite E0 in Ho. by destruct k0.
  - destruct (outside (thr s !! t)) eqn:Ho; [|done]. destruct (Z.leb_spec 0 v); [|done]. destruct (Z.ltb_spec v W64); [|done]. injection E as <-.
    unfold evfd_write_enter, eventfd_write_enter. apply inv_set_pc; [done| |destruct (len <? 8); [done|]; destruct (Z.eqb_spec v UINT64_MAX); cbn; [done|unfold UINT64_MAX in *; lia]
      |destruct (len <? 8); [done|]; by destruct (v =? UINT64_MAX)].
    intros k0 E0. rewrite E0 in Ho. by destruct k0.
  - destruct (thr s !! t) as [k|] eqn:Ek; [|done].
    assert (waker k = false -> forall k0, Some k = Some k0 -> waker k0 = false) as Hw by congruence. rewrite <- Ek in Hw.
    pose proof (iv_pcs _ _ Hi t k Ek) as Hp. destruct k as [rc v|nb|nb|nb|nb v|nb v|nb v|v|]; try done; injection E as <-.
    + apply inv_read; auto.
    + destruct sig; [by apply inv_set_pc; auto|apply inv_read; auto].
    + apply inv_write; auto.
    + destruct sig; [by apply inv_set_pc; auto|apply inv_write; auto].
    + by apply (eventfd_inv_wake I s t false (WakeWriters v)).
    + by apply (eventfd_inv_wake I s t true WakeReaders).
  - destruct (thr s !! t) as [k|] eqn:Ek; [|done]. pose proof (iv_pcs _ _ Hi t k Ek) as Hp.
    destruct k as [rc v|nb|nb|nb|nb v|nb v|nb v|v|]; try done; injection E as <-; apply inv_set_pc; try done; rewrite Ek; by intros k0 [= <-].
Qed.

Lemma eventfd_run_inv I es s s' : inv I s -> run es s = Some s' -> inv I s'.
Proof.
  revert s. induction es as [|e es IH]; intros s Hi E; cbn in E; [by simplify_eq|]. destruct (exec e s) as [s1|] eqn:E1; [|done].
  apply (IH s1); [by eapply eventfd_exec_inv|done].
Qed.

Lemma eventfd_init_inv I sem : 0 <= I < W32 -> inv I (sys_init I sem).
Proof.
  intros H. assert (forall t, (∅ : gmap nat pc) !! t = None) as Hn by apply lookup_empty. split; cbn.
  - lia.
  - intros t k E. by rewrite Hn in E.
  - rewrite Z.mod_small; lia.
  - lia.
  - intros t nb E. by rewrite Hn in E.
  - intros _ t nb v E. by rewrite Hn in E.
Qed.

(** ** The claims *)

(** The counter is exact and nobody sleeps through it.  However reads, writes, signals and
    wake-ups of any number of threads interleave, as long as no addition has passed 2^64 the
    initial value plus all that was written is what was read plus the counter; a reader sleeps
    only on an empty counter and a writer only when its addition does not fit, unless a thread
    is on its way to waking them. *)
Theorem eventfd_correct (initval : Z) (sem : bool) (es : list event) (s : sys) :
  0 <= initval < W32 -> run es (sys_init initval sem) = Some s -> wrapped s = false ->
  initval + wrote s = took s + count (ev s) /\ 0 <= count (ev s) <= EVENTFD_MAX
  /\ (forall t nb, thr s !! t = Some (RdSleep nb) -> count (ev s) = 0 \/ will_wake true (thr s))
  /\ (forall t nb v, thr s !! t = Some (WrSleep nb v) -> EVENTFD_MAX < count (ev s) + v \/ will_wake false (thr s)).
Proof.
  intros H E Hw. destruct (eventfd_run_inv _ _ _ _ (eventfd_init_inv initval sem H) E) as [H1 H2 H3 H4 H5 H6]. split; [by apply H4|].
  split; [done|]. split; [done|]. by apply H6.
Qed.

Definition demo_events : list event :=
  [ERead 1 false 8; ERun 1 false; EWrite 2 false 8 5; ERun 2 false; ERun 2 false; ERun 1 false; ERun 1 false; EWrite 2 true 8 7; ERun 2 false].
Definition demo_end : sys := match run demo_events (sys_init 0 true) with Some s => s | None => sys_init 0 false end.

Lemma eventfd_correct_witness : 0 + wrote demo_end = took demo_end + count (ev demo_end) /\ wrote demo_end = 12 /\ took demo_end = 1.
Proof.
  split; [|split; vm_compute; reflexivity].
  apply (eventfd_correct 0 true demo_events demo_end); [lia|vm_compute; reflexivity|vm_compute; reflexivity].
Defined.

(** The overflow check wraps.  A write of 2 to a counter at its maximum, which Linux refuses
    or blocks, is accepted, because the sum is computed modulo 2^64: the counter goes to 0, and
    a writer that was asleep waiting for room is not woken although there is room now. *)
Theorem eventfd_write_wraps :
  exists es s, run es (sys_init 0 false) = Some s /\ wrote s = EVENTFD_MAX + 2 /\ took s = 0 /\ count (ev s) = 0
    /\ thr s !! 2%nat = Some (WrSleep false 1) /\ thr s !! 3%nat = Some (Done 8 0).
Proof.
  exists [EWrite 1 true 8 EVENTFD_MAX; ERun 1 false; ERun 1 false; EWrite 2 false 8 1; ERun 2 false; EWrite 3 true 8 2; ERun 3 false; ERun 3 false].
  eexists. split; [vm_compute; reflexivity|]. split_and!; vm_compute; reflexivity.
Qed.

(** ** Polling and creation *)

(** [evfd_poll] tells the truth: POLLIN exactly when a read would not block, POLLOUT exactly when
    a write of 1 would not. *)
Lemma evfd_poll_ok e nb sig :
  0 <= count e <= EVENTFD_MAX ->
  (evfd_poll e POLLIN = POLLIN <-> exists v, (eventfd_read_section e nb sig).2 = WakeWriters v)
  /\ (evfd_poll e POLLOUT = POLLOUT <-> (eventfd_write_section e nb 1 sig).2 = WakeReaders).
Proof.
  unfold evfd_poll, eventfd_read_section, eventfd_write_section. intros H. rewrite (u64_small (count e + 1)) by lia.
  destruct (Z.ltb_spec 0 (count e)), (Z.ltb_spec (count e) 0xfffffffffffffffe), (Z.leb_spec (count e + 1) 0xfffffffffffffffe); try lia;
    destruct nb, sig; cbn; split; split; try done; try (by eexists); by intros (? & ?).
Qed.

Lemma store_ok vops t fd f0 f :
  wf vops t -> view vops t fd = Some f0 -> in_use f = true -> store_fd t fd f = set_cell vops t fd f.
Proof.
  intros Hw Hv Hf. unfold view in Hv. destruct (in_range fd) eqn:R; [|done]. destruct (in_use (cell vops t fd)) eqn:Eu; [|done].
  unfold store_fd, set_cell, set_bucket. rewrite Eu, Hf. unfold cell, cells in *. destruct (slots (bucket_at t (Bucket fd))) as [l|]; [|by rewrite cleared_cell in Eu].
  do 2 f_equal. unfold b2z. lia.
Qed.

(** Creating an event counter.  When it succeeds the lowest free number refers to a new
    counter with the initial value and one reference, and every other descriptor is as before;
    when it fails the table is as before and the object, if there was one, is freed. *)
Theorem eventfd_create_spec vops eops addr initval flags t w :
  wf vops t -> exists r o t' w', eventfd_create vops eops addr true initval flags t w = (r, o, t', w') /\ wf vops t' /\
    match o with
    | Some e => 0 <= r < FD_TABLE_MAX /\ view vops t r = None /\ (forall fd, 0 <= fd < r -> view vops t fd <> None)
        /\ count e = initval /\ refs e = 1 /\ semaphore e = ctrue (Z.land flags EFD_SEMAPHORE) /\ log w' = log w
        /\ forall fd, view vops t' fd = if decide (fd = r) then Some (FD true eops addr 0 0 1 1 (if ctrue (Z.land flags EFD_NONBLOCK) then 1 else 0)) else view vops t fd
    | None => r < 0 /\ (forall fd, view vops t' fd = view vops t fd) /\ log w' = log w ++ (if r =? - EMFILE then [EvKfree] else [])
    end.
Proof.
  intros Hw. unfold eventfd_create. cbn [negb]. destruct (ctrue (Z.land flags _)).
  { eexists _, None, t, w. split; [reflexivity|]. split; [done|]. by rewrite app_nil_r. }
  assert (exists ok w1, kmalloc w = (ok, w1) /\ log w1 = log w) as (ok & w1 & -> & El).
  { unfold kmalloc. destruct (answers w); by eexists _, _. }
  destruct ok; cbn [negb].
  2:{ eexists _, None, t, w1. split; [reflexivity|]. split; [done|]. by rewrite app_nil_r. }
  unfold fd_table_alloc. destruct (alloc_view_ok vops t 0 w1 Hw) as (r & t1 & w2 & -> & El2 & W1 & Ha); [lia|].
  destruct Ha as [(-> & Hv & _)|(Hr & Hn & Hlow & Hv)].
  { eexists _, None, t1, _. split; [reflexivity|]. split; [done|]. split; [done|]. split; [done|]. by rewrite emit_log, El2, El. }
  change (Z.max 0 0) with 0 in *. rewrite (proj2 (Z.ltb_ge r 0)) by lia. rewrite get_view, (Hv r), decide_True by done.
  rewrite (store_ok vops t1 r (set_in_use (slot_reset vops))); [|done|by rewrite (Hv r), decide_True|done].
  assert (in_range r = true) as R by (unfold in_range; rewrite andb_true_iff, Z.leb_le, Z.ltb_lt; lia).
  eexists r, (Some _), _, w2. split; [reflexivity|]. split; [by apply wf_set_cell|]. cbn [count refs semaphore eventfd_alloc]. split_and!; try done; [lia|lia|congruence|].
  intros fd. rewrite view_set_cell by done. rewrite Hv. by destruct (decide (fd = r)).
Qed.

Lemma eventfd_create_spec_witness :
  exists t' w', eventfd_create 7 9 4096 true 5 EFD_NONBLOCK fd_table_init (World [] []) = (0, Some (EventFd 5 false 1), t', w')
    /\ view 7 t' 0 = Some (FD true 9 4096 0 0 1 1 1).
Proof.
  destruct (eventfd_create_spec 7 9 4096 5 EFD_NONBLOCK fd_table_init (World [] []) (init_wf 7)) as (r & o & t' & w' & E & _ & H).
  revert E H. destruct o as [[c sm rf]|]; [|by intros E; vm_compute in E]. intros E (_ & _ & _ & _ & _ & _ & _ & H).
  assert (r = 0 /\ c = 5 /\ sm = false /\ rf = 1) as (-> & -> & -> & ->) by (revert E; vm_compute; by intros [= <- <- <- <- _ _]).
  exists t', w'. split; [exact E|]. by rewrite H.
Defined.
