(* ===== verification/Elf.v ===== *)
(** * The image loader (kernel/elf.c, elf.h)

    [elf_load_at] reads an ELF64 or NOX image from a buffer, takes a frame per page of every
    PT_LOAD segment and maps it.  The buffer is the list of its bytes; a read outside it is
    the result [OutOfImage], which in the kernel is a read of whatever memory follows.  The
    frame allocator is the list of its answers (0: out of memory), and the page tables are the
    list of the calls of [paging_map_into], each with the frame's contents at that moment and
    whether it succeeded: [map_ok page frame] tells whether the call finds the table frames it
    needs.  The loader does not look at that result. *)

From stdpp Require Import base numbers list.
From S2P Require Import Prelude.

Abbreviation ELF_PT_LOAD := 1.
Abbreviation ELF_PT_INTERP := 3.
Abbreviation ELF_PT_TLS := 7.
Abbreviation ELF_PF_X := 1.
Abbreviation ELF_PF_W := 2.
Definition ELF_PF_R := 4.
Abbreviation ELF_WX_EXCEPTION_MAX_BYTES := (16 * 1024 * 1024).
Definition ELF_MAX_LOAD_SEGMENTS := 16.
Definition PAGE_WRITABLE := 2.
Definition PAGE_USER := 4.
Definition PAGE_NO_EXECUTE := 2 ^ 63.

Inductive res (A : Type) := Ok (a : A) | Refused | OutOfImage.
Arguments Ok {A}.
Arguments Refused {A}.
Arguments OutOfImage {A}.

Definition rbind {A B} (m : res A) (f : A -> res B) : res B :=
  match m with Ok a => f a | Refused => Refused | OutOfImage => OutOfImage end.
Declare Scope elf_scope.
Delimit Scope elf_scope with elf.
Notation "x <- e ;; f" := (rbind e (fun x => f)) (at level 100, e at next level, f at level 200, right associativity) : elf_scope.
Open Scope elf_scope.

Record segment := Segment { start : Z; end_ : Z; prot : Z }.

Record elf_info := ElfInfo {
  entry : Z;
  has_interp : bool;
  interp : list Z;
  load_base : Z;
  is_nox : bool;
  phdr : Z;
  phentsize : Z;
  phnum : Z;
  tls : option (Z * Z * Z * Z);
  segments : list segment;
}.
Definition empty_info : elf_info := ElfInfo 0 false (replicate 128 0) 0 false 0 0 0 None [].

(** A call of [paging_map_into]: the page, its frame, the frame's bytes, the flags, and
    whether it returned 0. *)
Record mapped := Mapped { page : Z; frame : Z; bytes : Z -> Z; pflags : Z; entered : bool }.

Section Elf.
Variable data : list Z.
Variable base : Z.
Variable map_ok : Z -> Z -> bool.
Definition size : Z := Z.of_nat (length data).

Definition rd (off : Z) : res Z := if (0 <=? off) && (off <? size) then Ok (nth (Z.to_nat off) data 0) else OutOfImage.

(** A little-endian field of [n] bytes at [off]. *)
Fixpoint field (n : nat) (off : Z) : res Z :=
  match n with
  | O => Ok 0
  | S n => b <- rd off ;; v <- field n (off + 1) ;; Ok (b + 256 * v)
  end.

Definition e_ident (i : Z) : res Z := rd i.
Definition e_entry : res Z := field 8 24.
Definition e_phoff : res Z := field 8 32.
Definition e_phentsize : res Z := field 2 54.
Definition e_phnum : res Z := field 2 56.
Definition sizeof_header : Z := 64.

(** The program header at [ph]. *)
Definition p_type (ph : Z) : res Z := field 4 ph.
Definition p_flags (ph : Z) : res Z := field 4 (ph + 4).
Definition p_offset (ph : Z) : res Z := field 8 (ph + 8).
Definition p_vaddr (ph : Z) : res Z := field 8 (ph + 16).
Definition p_filesz (ph : Z) : res Z := field 8 (ph + 32).
Definition p_memsz (ph : Z) : res Z := field 8 (ph + 40).
Definition p_align (ph : Z) : res Z := field 8 (ph + 48).

(** [Some nox]: loadable. *)
Definition is_valid_image : res (option bool) :=
  i0 <- e_ident 0 ;; i4 <- e_ident 4 ;; i1 <- e_ident 1 ;; i2 <- e_ident 2 ;; i3 <- e_ident 3 ;;
  Ok (if negb (i0 =? 127) || negb (i4 =? 2) then None
      else if (i1 =? 69) && (i2 =? 76) && (i3 =? 70) then Some false
      else if (i1 =? 78) && (i2 =? 79) && (i3 =? 88) then Some true
      else None).

(** The bytes from [off] on, as the copy loops read them. *)
Fixpoint read_bytes (n : nat) (off : Z) : res (list Z) :=
  match n with
  | O => Ok []
  | S n => b <- rd (u64 off) ;; l <- read_bytes n (off + 1) ;; Ok (b :: l)
  end.

(** PT_INTERP: the path, with its last byte forced to NUL. *)
Definition load_interp (ph : Z) (out : elf_info) : res elf_info :=
  filesz <- p_filesz ph ;;
  if (filesz =? 0) || (128 <? filesz) then Refused
  else
    off <- p_offset ph ;;
    if size <? u64 (off + filesz) then Refused
    else
      l <- read_bytes (Z.to_nat filesz) off ;;
      Ok (ElfInfo (entry out) true (<[Z.to_nat (filesz - 1) := 0]> (l ++ drop (length l) (interp out))) (load_base out) (is_nox out) (phdr out) (phentsize out) (phnum out)
                  (tls out) (segments out)).

(** PT_TLS is recorded, not mapped. *)
Definition load_tls (ph : Z) (out : elf_info) : res elf_info :=
  va <- p_vaddr ph ;; fs <- p_filesz ph ;; ms <- p_memsz ph ;; al <- p_align ph ;;
  Ok (ElfInfo (entry out) (has_interp out) (interp out) (load_base out) (is_nox out) (phdr out) (phentsize out) (phnum out)
              (Some (u64 (va + base), fs, ms, if ctrue al then al else 1)) (segments out)).

(** A frame after the copy of [l] to [dst]. *)
Definition fill_frame (dst : Z) (l : list Z) : Z -> Z :=
  fun i => if (dst <=? i) && (i <? dst + Z.of_nat (length l)) then nth (Z.to_nat (i - dst)) l 0 else 0.

(** The contents of the page at [page_addr]: zeros, and the part of the file that falls in it. *)
Definition page_bytes (vaddr filesz offset page_addr : Z) : res (Z -> Z) :=
  let page_end := u64 (page_addr + 4096) in
  let copy_start := if page_addr <? vaddr then vaddr else page_addr in
  let file_end := u64 (vaddr + filesz) in
  let copy_end := if file_end <? page_end then file_end else page_end in
  if copy_start <? copy_end then
    l <- read_bytes (Z.to_nat (copy_end - copy_start)) (u64 (offset + u64 (copy_start - vaddr))) ;;
    Ok (fill_frame (u64 (copy_start - page_addr)) l)
  else Ok (fun _ => 0).

(** The pages from [page_addr] on, [n] of them. *)
Fixpoint map_pages (n : nat) (vaddr filesz offset flags page_addr : Z) (frames : list Z) (maps : list mapped) : res (list Z * list mapped) :=
  match n with
  | O => Ok (frames, maps)
  | S n =>
    match frames with
    | f :: frames =>
      if f =? 0 then Refused
      else
        c <- page_bytes vaddr filesz offset page_addr ;;
        map_pages n vaddr filesz offset flags (page_addr + 4096) frames (maps ++ [Mapped page_addr f c flags (map_ok page_addr f)])
    | [] => Refused
    end
  end.

Definition seg_flags (fl : Z) : Z :=
  let flags := PAGE_USER in
  let flags := if ctrue (Z.land fl ELF_PF_W) then Z.lor flags PAGE_WRITABLE else flags in
  if ctrue (Z.land fl ELF_PF_X) then flags else Z.lor flags PAGE_NO_EXECUTE.

Definition seg_prot (fl : Z) : Z :=
  let prot := 1 in
  let prot := if ctrue (Z.land fl ELF_PF_W) then Z.lor prot 2 else prot in
  if ctrue (Z.land fl ELF_PF_X) then Z.lor prot 4 else prot.

Definition page_mask (a : Z) : Z := Z.land a (u64 (Z.lnot 4095)).

(** How often the page loop runs. *)
Definition pages_between (a b : Z) : nat := if a <? b then Z.to_nat ((b - a + 4095) / 4096) else O.

Definition load_segment (ph : Z) (out : elf_info) (frames : list Z) (maps : list mapped) : res (elf_info * list Z * list mapped) :=
  phoff <- e_phoff ;;
  offset <- p_offset ph ;; filesz <- p_filesz ph ;; va <- p_vaddr ph ;;
  let ph_at := if (offset <=? phoff) && (phoff <? u64 (offset + filesz)) then u64 (va + base + u64 (phoff - offset)) else phdr out in
  fl <- p_flags ph ;; memsz <- p_memsz ph ;;
  if ctrue (Z.land fl ELF_PF_W) && ctrue (Z.land fl ELF_PF_X) && (ELF_WX_EXCEPTION_MAX_BYTES <? memsz) then Refused
  else
    let vaddr := u64 (va + base) in
    let seg_start := page_mask vaddr in
    let seg_end := page_mask (u64 (va + base + memsz + 4095)) in
    r <- map_pages (pages_between seg_start seg_end) vaddr filesz offset (seg_flags fl) seg_start frames maps ;;
    let '(frames, maps) := r in
    let segs := if Z.of_nat (length (segments out)) <? ELF_MAX_LOAD_SEGMENTS then segments out ++ [Segment seg_start seg_end (seg_prot fl)] else segments out in
    Ok (ElfInfo (entry out) (has_interp out) (interp out) (load_base out) (is_nox out) ph_at (phentsize out) (phnum out) (tls out) segs, frames, maps).

(** One program header. *)
Definition load_phdr (ph : Z) (out : elf_info) (frames : list Z) (maps : list mapped) : res (elf_info * list Z * list mapped) :=
  ty <- p_type ph ;;
  if ty =? ELF_PT_INTERP then out <- load_interp ph out ;; Ok (out, frames, maps)
  else if ty =? ELF_PT_TLS then out <- load_tls ph out ;; Ok (out, frames, maps)
  else if negb (ty =? ELF_PT_LOAD) then Ok (out, frames, maps)
  else load_segment ph out frames maps.

(** The headers from the [i]th on, [n] of them. *)
Fixpoint load_phdrs (n : nat) (i phoff ent : Z) (out : elf_info) (frames : list Z) (maps : list mapped) : res (elf_info * list Z * list mapped) :=
  match n with
  | O => Ok (out, frames, maps)
  | S n =>
    r <- load_phdr (u64 (phoff + i * ent)) out frames maps ;;
    let '(out, frames, maps) := r in
    load_phdrs n (i + 1) phoff ent out frames maps
  end.

Definition elf_load_at (frames : list Z) : res (elf_info * list Z * list mapped) :=
  if size <? sizeof_header then Refused
  else
    v <- is_valid_image ;;
    match v with
    | None => Refused
    | Some nox =>
      num <- e_phnum ;; phoff <- e_phoff ;; ent <- e_phentsize ;;
      r <- load_phdrs (Z.to_nat num) 0 phoff ent (ElfInfo 0 false (replicate 128 0) 0 nox 0 0 0 None []) frames [] ;;
      let '(out, frames, maps) := r in
      en <- e_entry ;;
      Ok (ElfInfo (u64 (en + base)) (has_interp out) (interp out) base (is_nox out) (phdr out) ent num (tls out) (segments out), frames, maps)
    end.
End Elf.

Definition elf_load (data : list Z) (map_ok : Z -> Z -> bool) (frames : list Z) : res (elf_info * list Z * list mapped) :=
  elf_load_at data 0 map_ok frames.

(** ** What a load promises *)

(** A program header, decoded. *)
Record header := Header { ty : Z; fl : Z; off : Z; va : Z; fsz : Z; msz : Z; al : Z }.

Definition decode (data : list Z) (ph : Z) : res header :=
  t <- p_type data ph ;; f <- p_flags data ph ;; o <- p_offset data ph ;; v <- p_vaddr data ph ;;
  fs <- p_filesz data ph ;; ms <- p_memsz data ph ;; a <- p_align data ph ;;
  Ok (Header t f o v fs ms a).

(** [n] headers of the table. *)
Fixpoint decode_table (data : list Z) (n : nat) (i phoff ent : Z) : res (list header) :=
  match n with
  | O => Ok []
  | S n => h <- decode data (u64 (phoff + i * ent)) ;; l <- decode_table data n (i + 1) phoff ent ;; Ok (h :: l)
  end.

Definition is_load (h : header) : bool := ty h =? ELF_PT_LOAD.

(** The header asks for nothing the loader refuses, and its file range is in the image. *)
Definition header_ok (data : list Z) (base : Z) (h : header) : Prop :=
  0 <= off h /\ 0 <= fsz h /\ 0 <= va h /\ 0 <= base /\
  if ty h =? ELF_PT_INTERP then 0 < fsz h <= 128 /\ off h + fsz h <= size data
  else if is_load h then
    off h + fsz h <= size data /\ fsz h <= msz h /\ va h + base + msz h + 4095 < W64
    /\ (Z.land (fl h) ELF_PF_W = 0 \/ Z.land (fl h) ELF_PF_X = 0 \/ msz h <= ELF_WX_EXCEPTION_MAX_BYTES)
  else True.

Definition pg_of (a : Z) : Z := a - a mod 4096.
Definition seg_lo (base : Z) (h : header) : Z := pg_of (va h + base).
Definition seg_hi (base : Z) (h : header) : Z := pg_of (va h + base + msz h + 4095).
Definition seg_count (base : Z) (h : header) : nat := Z.to_nat ((seg_hi base h - seg_lo base h) / 4096).
Definition seg_pages (base : Z) (h : header) : list Z := (fun k => seg_lo base h + 4096 * Z.of_nat k) <$> seq 0 (seg_count base h).

(** The byte the segment asks for at address [a]. *)
Definition seg_byte (data : list Z) (base : Z) (h : header) (a : Z) : Z :=
  if (va h + base <=? a) && (a <? va h + base + fsz h) then nth (Z.to_nat (off h + (a - (va h + base)))) data 0 else 0.

Definition image_pages (base : Z) (hs : list header) : list Z := concat (seg_pages base <$> filter (fun h => is_load h = true) hs).

Definition segment_of (base : Z) (h : header) : segment := Segment (seg_lo base h) (seg_hi base h) (seg_prot (fl h)).
Definition image_segments (base : Z) (hs : list header) : list segment :=
  take (Z.to_nat ELF_MAX_LOAD_SEGMENTS) (segment_of base <$> filter (fun h => is_load h = true) hs).

(** The page tables after the calls: the latest one that succeeded for a page decides. *)
Definition lookup_page (maps : list mapped) (a : Z) : option mapped :=
  last (filter (fun m => entered m = true /\ page m = pg_of a) maps).
Definition memory (maps : list mapped) (a : Z) : option (Z * Z) := (fun m => (bytes m (a mod 4096), pflags m)) <$> lookup_page maps a.

(** ** The loops *)

Lemma rd_in data o : 0 <= o < size data -> rd data o = Ok (nth (Z.to_nat o) data 0).
Proof. intros. unfold rd. by rewrite (proj2 (Z.leb_le _ _)), (proj2 (Z.ltb_lt _ _)) by lia. Qed.

Lemma read_bytes_ok data n : forall o, size data < W64 -> 0 <= o -> o + Z.of_nat n <= size data ->
  read_bytes data n o = Ok (take n (drop (Z.to_nat o) data)).
Proof.
  induction n as [|n IH]; intros o Hs Ho Hn; [done|]. cbn [read_bytes].
  rewrite u64_small, rd_in, IH by lia. cbn [rbind]. f_equal.
  destruct (lookup_lt_is_Some_2 data (Z.to_nat o)) as [b Hb]; [unfold size in *; lia|].
  rewrite (drop_S _ _ _ Hb), Z2Nat.inj_add, Nat.add_1_r by lia. cbn [take]. f_equal.
  apply nth_lookup_Some with (d := 0) in Hb. done.
Qed.

Lemma nth_slice (data : list Z) n o i : (i < n)%nat -> nth i (take n (drop o data)) 0 = nth (o + i) data 0.
Proof. intros. by rewrite !nth_lookup, lookup_take_lt, lookup_drop by done. Qed.

Lemma page_mask_ok a : 0 <= a < W64 -> page_mask a = pg_of a.
Proof. intros. unfold page_mask, pg_of. change 4095 with (2 ^ 12 - 1). by rewrite land_align by lia. Qed.

(** A page of a segment receives exactly the bytes the segment asks for. *)
Lemma page_bytes_ok data base h pg :
  size data < W64 -> 0 <= off h -> 0 <= fsz h -> 0 <= va h + base -> off h + fsz h <= size data ->
  va h + base + fsz h < W64 -> pg_of (va h + base) <= pg -> pg + 4096 < W64 ->
  exists c, page_bytes data (va h + base) (fsz h) (off h) pg = Ok c
    /\ forall i, 0 <= i < 4096 -> c i = seg_byte data base h (pg + i).
Proof.
  intros Hs Ho Hf Hv Hin Hw Hpg Hend. unfold page_bytes, pg_of in *.
  set (v := va h + base) in *. assert (0 <= pg) by dlia.
  rewrite !(u64_small (pg + 4096)), !(u64_small (v + fsz h)) by lia.
  set (cs := if pg <? v then v else pg). set (ce := if v + fsz h <? pg + 4096 then v + fsz h else pg + 4096).
  assert (Hcs : cs = Z.max v pg) by (subst cs; destruct (Z.ltb_spec pg v); lia).
  assert (Hce : ce = Z.min (v + fsz h) (pg + 4096)) by (subst ce; destruct (Z.ltb_spec (v + fsz h) (pg + 4096)); lia).
  clearbody cs ce. destruct (Z.ltb_spec cs ce).
  - rewrite (u64_small (cs - v)), (u64_small (off h + _)), (u64_small (cs - pg)) by dlia.
    rewrite read_bytes_ok by lia. cbn [rbind]. eexists. split; [done|].
    intros i Hi. unfold fill_frame, seg_byte. fold v.
    rewrite length_take, length_drop, Nat.min_l by (unfold size in *; lia).
    zcases; cbn [andb]; try lia; try done. rewrite nth_slice by lia. f_equal. lia.
  - eexists. split; [done|]. intros i Hi. unfold seg_byte. fold v. zcases; cbn [andb]; try done; lia.
Qed.

(** What is known of a page the loader mapped for [h]. *)
Definition good_map (data : list Z) (base : Z) (map_ok : Z -> Z -> bool) (h : header) (m : mapped) : Prop :=
  entered m = map_ok (page m) (frame m) /\ pflags m = seg_flags (fl h) /\ forall i, 0 <= i < 4096 -> bytes m i = seg_byte data base h (page m + i).

Lemma map_pages_ok data base map_ok h n : forall pg frames maps,
  size data < W64 -> 0 <= off h -> 0 <= fsz h -> 0 <= va h + base -> off h + fsz h <= size data ->
  va h + base + fsz h < W64 -> pg_of (va h + base) <= pg -> pg + 4096 * Z.of_nat n < W64 ->
  (n <= length frames)%nat -> Forall (fun f => f <> 0) frames ->
  exists new, map_pages data map_ok n (va h + base) (fsz h) (off h) (seg_flags (fl h)) pg frames maps = Ok (drop n frames, maps ++ new)
    /\ page <$> new = (fun k => pg + 4096 * Z.of_nat k) <$> seq 0 n /\ frame <$> new = take n frames
    /\ Forall (good_map data base map_ok h) new.
Proof.
  induction n as [|n IH]; intros pg frames maps Hs Ho Hf Hv Hin Hw Hpg Hend Hlen Hnz.
  { exists []. by rewrite app_nil_r. }
  destruct frames as [|f frames]; [simpl in Hlen; lia|]. apply Forall_cons in Hnz as [Hf0 Hnz].
  cbn [map_pages]. apply Z.eqb_neq in Hf0 as ->.
  destruct (page_bytes_ok data base h pg) as (c & -> & Hc); [done..|lia|]. cbn [rbind].
  destruct (IH (pg + 4096) frames (maps ++ [Mapped pg f c (seg_flags (fl h)) (map_ok pg f)])) as (new & -> & Hp & Hfr & Hg);
    [done..|lia|lia|simpl in Hlen; lia|done|].
  eexists. rewrite <- app_assoc. split; [done|]. cbn. rewrite Hp, Hfr. split; [|split; [done|by constructor]].
  f_equal; [lia|]. rewrite <- fmap_S_seq, <- list_fmap_compose. apply list_fmap_ext. intros ? k _. simpl. lia.
Qed.

Lemma rbind_inv {A B} (m : res A) (f : A -> res B) b : rbind m f = Ok b -> exists a, m = Ok a /\ f a = Ok b.
Proof. destruct m; [|discriminate..]. eauto. Qed.

(** The loader reads the fields of a header that decodes. *)
Lemma decode_inv data ph h : decode data ph = Ok h ->
  p_type data ph = Ok (ty h) /\ p_flags data ph = Ok (fl h) /\ p_offset data ph = Ok (off h) /\ p_vaddr data ph = Ok (va h)
  /\ p_filesz data ph = Ok (fsz h) /\ p_memsz data ph = Ok (msz h) /\ p_align data ph = Ok (al h).
Proof.
  unfold decode. intros (? & -> & (? & -> & (? & -> & (? & -> & (? & -> & (? & -> & (? & -> & [= <-])%rbind_inv)%rbind_inv)%rbind_inv)
    %rbind_inv)%rbind_inv)%rbind_inv)%rbind_inv. done.
Qed.

Lemma seg_bounds base h :
  0 <= va h + base -> 0 <= msz h -> va h + base + msz h + 4095 < W64 ->
  pages_between (page_mask (u64 (va h + base))) (page_mask (u64 (va h + base + msz h + 4095))) = seg_count base h
  /\ seg_lo base h + 4096 * Z.of_nat (seg_count base h) < W64.
Proof.
  intros. rewrite !page_mask_ok, !u64_small by (rewrite ?u64_small; lia). unfold pages_between, seg_count, seg_lo, seg_hi.
  unfold pg_of. destruct (Z.ltb_spec (va h + base - (va h + base) mod 4096) (va h + base + msz h + 4095 - (va h + base + msz h + 4095) mod 4096)).
  - split; [f_equal|]; dlia.
  - split; dlia.
Qed.

(** The frames and pages a header uses. *)
Definition header_pages (base : Z) (h : header) : list Z := if is_load h then seg_pages base h else [].

(** What one header does to the record and the page tables. *)
Definition after (data : list Z) (base : Z) (map_ok : Z -> Z -> bool) (h : header) (out out' : elf_info) (new : list mapped) (frames : list Z) : Prop :=
  is_nox out' = is_nox out /\ entry out' = entry out
  /\ segments out' = (if is_load h && (Z.of_nat (length (segments out)) <? ELF_MAX_LOAD_SEGMENTS) then segments out ++ [segment_of base h] else segments out)
  /\ page <$> new = header_pages base h /\ frame <$> new = take (length (header_pages base h)) frames
  /\ (is_load h = true -> Forall (good_map data base map_ok h) new).

Lemma load_segment_ok data base map_ok ph h out frames maps :
  size data < W32 -> decode data ph = Ok h -> (exists po, e_phoff data = Ok po) -> is_load h = true -> header_ok data base h ->
  (length (seg_pages base h) <= length frames)%nat -> Forall (fun f => f <> 0) frames ->
  exists out' new, load_segment data base map_ok ph out frames maps = Ok (out', drop (length (seg_pages base h)) frames, maps ++ new)
    /\ after data base map_ok h out out' new frames.
Proof.
  intros Hs Hd [po Hpo] Hl (Ho & Hf & Hv & Hb & Hok) Hlen Hnz.
  assert (ty h =? ELF_PT_INTERP = false) as E by (unfold is_load in Hl; apply Z.eqb_eq in Hl; by rewrite Hl).
  rewrite E, Hl in Hok. destruct Hok as (Hin & Hm & Hw & Hwx).
  destruct (decode_inv _ _ _ Hd) as (_ & Ef & Eo & Ev & Efs & Ems & _).
  unfold load_segment. rewrite Hpo, Eo, Efs, Ev, Ef, Ems. cbn [rbind].
  replace (_ && _ && _) with false.
  2: { symmetry. unfold ctrue. destruct Hwx as [-> | [-> | Hle%Z.ltb_ge]]; [done|by rewrite andb_false_r|by rewrite Hle, andb_false_r]. }
  destruct (seg_bounds base h) as [Hc Hend]; [lia..|]. rewrite Hc, !page_mask_ok, !u64_small by (rewrite ?u64_small; lia).
  assert (length (seg_pages base h) = seg_count base h) as Hsc by (unfold seg_pages; by rewrite length_fmap, length_seq).
  rewrite Hsc in *.
  destruct (map_pages_ok data base map_ok h (seg_count base h) (seg_lo base h) frames maps) as (new & Hmp & Hp & Hfr & Hg);
    [lia..|unfold seg_lo; lia|done|done|done|].
  unfold seg_lo in Hmp. rewrite Hmp. cbn [rbind]. eexists _, new. split; [done|].
  unfold after, header_pages. rewrite Hl. cbn [is_nox entry segments andb]. split_and!; [done|done| |done|by rewrite Hsc|done].
  by rewrite u64_small by lia.
Qed.

Lemma load_phdr_ok data base map_ok ph h out frames maps :
  size data < W32 -> decode data ph = Ok h -> (exists po, e_phoff data = Ok po) -> header_ok data base h ->
  (length (header_pages base h) <= length frames)%nat -> Forall (fun f => f <> 0) frames ->
  exists out' new, load_phdr data base map_ok ph out frames maps = Ok (out', drop (length (header_pages base h)) frames, maps ++ new)
    /\ after data base map_ok h out out' new frames.
Proof.
  intros Hs Hd Hpo Hok Hlen Hnz. destruct (is_load h) eqn:Hl.
  { destruct (load_segment_ok data base map_ok ph h out frames maps) as (out' & new & He & Ha); try done.
    { by unfold header_pages in Hlen; rewrite Hl in Hlen. }
    exists out', new. split; [|done]. unfold header_pages. rewrite Hl, <- He.
    unfold is_load in Hl. apply Z.eqb_eq in Hl. unfold load_phdr. destruct (decode_inv _ _ _ Hd) as [-> _]. by rewrite Hl. }
  destruct Hok as (Ho & Hf & _ & _ & Hok). rewrite Hl in Hok.
  unfold after, header_pages in *. rewrite Hl in *. unfold load_phdr, load_interp, load_tls.
  unfold is_load in Hl. destruct (decode_inv _ _ _ Hd) as (-> & _ & -> & -> & -> & -> & ->). cbn [rbind].
  destruct (ty h =? ELF_PT_INTERP) eqn:Ei.
  - destruct Hok as [Hz Hin].
    replace ((fsz h =? 0) || (128 <? fsz h)) with false by (symmetry; apply orb_false_iff; split; [apply Z.eqb_neq|apply Z.ltb_ge]; lia).
    rewrite u64_small by lia. replace (size data <? off h + fsz h) with false by (symmetry; apply Z.ltb_ge; lia).
    rewrite read_bytes_ok by lia. cbn [rbind]. eexists _, []. rewrite app_nil_r. split; [done|]. by split_and!.
  - destruct (ty h =? ELF_PT_TLS); [|rewrite Hl; cbn [negb]]; eexists _, []; rewrite app_nil_r; (split; [done|]); by split_and!.
Qed.

Lemma image_pages_cons base h hs : image_pages base (h :: hs) = header_pages base h ++ image_pages base hs.
Proof. unfold image_pages, header_pages. rewrite filter_cons. by destruct (is_load h). Qed.

(** Every page mapped belongs to a loaded segment and holds its bytes. *)
Definition from_segment (data : list Z) (base : Z) (map_ok : Z -> Z -> bool) (hs : list header) (m : mapped) : Prop :=
  exists h, h ∈ hs /\ is_load h = true /\ page m ∈ seg_pages base h /\ good_map data base map_ok h m.

Lemma load_phdrs_ok data base map_ok po ent n : forall i hs out frames maps,
  size data < W32 -> e_phoff data = Ok po -> decode_table data n i po ent = Ok hs -> Forall (header_ok data base) hs ->
  (length (image_pages base hs) <= length frames)%nat -> Forall (fun f => f <> 0) frames ->
  exists out' new, load_phdrs data base map_ok n i po ent out frames maps = Ok (out', drop (length (image_pages base hs)) frames, maps ++ new)
    /\ is_nox out' = is_nox out
    /\ ((length (segments out) <= 16)%nat -> segments out' = take 16 (segments out ++ (segment_of base <$> filter (fun h => is_load h = true) hs)))
    /\ page <$> new = image_pages base hs /\ frame <$> new = take (length (image_pages base hs)) frames
    /\ Forall (from_segment data base map_ok hs) new.
Proof.
  induction n as [|n IH]; intros i hs out frames maps Hs Hpo Hd Hok Hlen Hnz.
  { cbn in Hd. injection Hd as <-. exists out, []. rewrite app_nil_r. split_and!; [done|done| |done..].
    intros Hl. cbn. by rewrite app_nil_r, take_ge by done. }
  cbn [decode_table] in Hd. apply rbind_inv in Hd as (h & Hh & (l & Hl & [= <-])%rbind_inv).
  apply Forall_cons in Hok as [Hok Hoks]. rewrite image_pages_cons, length_app in *.
  destruct (load_phdr_ok data base map_ok _ h out frames maps Hs Hh (ex_intro _ _ Hpo) Hok) as (o1 & n1 & H1 & A1); [lia|done|].
  destruct A1 as (Anox & _ & Aseg & Apg & Afr & Agood).
  destruct (IH (i + 1) l o1 (drop (length (header_pages base h)) frames) (maps ++ n1)) as (o2 & n2 & H2 & B1 & B2 & B3 & B4 & B5);
    [done|done|done|done|rewrite length_drop; lia|by apply Forall_drop|].
  cbn [load_phdrs]. rewrite H1. cbn [rbind]. rewrite H2, drop_drop, <- app_assoc. exists o2, (n1 ++ n2).
  split_and!; [done|congruence| |by rewrite fmap_app, Apg, B3| |].
  - intros Hn. rewrite filter_cons. destruct (Z.ltb_spec (Z.of_nat (length (segments out))) 16) as [Hlt|Hge].
    + apply Z.ltb_lt in Hlt as E. change 16 with ELF_MAX_LOAD_SEGMENTS in E. rewrite E, andb_true_r in Aseg.
      rewrite B2; rewrite Aseg; destruct (is_load h); rewrite ?length_app; cbn [length]; try lia; [|done].
      by rewrite <- app_assoc.
    + assert (segments o1 = segments out) as E by (apply Z.ltb_ge in Hge; change 16 with ELF_MAX_LOAD_SEGMENTS in Hge; by rewrite Aseg, Hge, andb_false_r).
      rewrite B2, E by (rewrite E; lia). by rewrite !take_app_le by lia.
  - by rewrite fmap_app, Afr, B4, take_take_drop.
  - apply Forall_app. split.
    + destruct (is_load h) eqn:El; [|by unfold header_pages in Apg; rewrite El in Apg; apply fmap_nil_inv in Apg as ->].
      specialize (Agood eq_refl). rewrite Forall_forall in *. intros m Hm. exists h. split_and!; [by left|done| |by apply Agood].
      unfold header_pages in Apg. rewrite El in Apg. rewrite <- Apg. by apply list_elem_of_fmap_2.
    + eapply Forall_impl; [done|]. intros m (h' & ? & ?). exists h'. split; [by right|done].
Qed.

Lemma image_pages_elem base hs h z : h ∈ hs -> is_load h = true -> z ∈ seg_pages base h -> z ∈ image_pages base hs.
Proof.
  induction hs as [|x hs IH]; [by intros ?%elem_of_nil|]. rewrite image_pages_cons. intros [-> | Hin]%elem_of_cons Hl Hz; apply elem_of_app.
  - left. unfold header_pages. by rewrite Hl.
  - right. by apply IH.
Qed.

(** A page of pairwise disjoint segments has one owner. *)
Lemma owner_unique base hs h h' z :
  NoDup (image_pages base hs) -> h ∈ hs -> h' ∈ hs -> is_load h = true -> is_load h' = true ->
  z ∈ seg_pages base h -> z ∈ seg_pages base h' -> h = h'.
Proof.
  intros Hnd Hh Hh' Hl Hl' Hz Hz'. induction hs as [|x hs IH]; [by apply elem_of_nil in Hh|].
  rewrite image_pages_cons in Hnd. apply NoDup_app in Hnd as (_ & Hd & Hnd).
  apply elem_of_cons in Hh as [-> | Hh], Hh' as [-> | Hh']; [done| | |by apply IH]; exfalso.
  - apply (Hd z); [unfold header_pages; by rewrite Hl|]. by apply (image_pages_elem base hs h').
  - apply (Hd z); [unfold header_pages; by rewrite Hl'|]. by apply (image_pages_elem base hs h).
Qed.

Lemma seg_page_of base h a : seg_lo base h <= a < seg_hi base h -> pg_of a ∈ seg_pages base h.
Proof.
  intros Ha. unfold seg_pages, seg_count. apply list_elem_of_fmap. exists (Z.to_nat ((a - seg_lo base h) / 4096)).
  unfold seg_lo, seg_hi, pg_of in *. split; [dlia|]. apply elem_of_seq. dlia.
Qed.

Lemma zip_calls (maps : list mapped) frames :
  frame <$> maps = take (length maps) frames -> zip (page <$> maps) frames = (fun m => (page m, frame m)) <$> maps.
Proof.
  revert frames. induction maps as [|m maps IH]; intros frames; [done|]. destruct frames as [|f frames]; [done|].
  cbn. intros [= <- H]. f_equal. by apply IH.
Qed.

Lemma memory_ok data base map_ok hs maps frames h a f :
  Forall (from_segment data base map_ok hs) maps -> page <$> maps = image_pages base hs -> NoDup (image_pages base hs) ->
  frame <$> maps = take (length maps) frames ->
  h ∈ hs -> is_load h = true -> seg_lo base h <= a < seg_hi base h -> (pg_of a, f) ∈ zip (image_pages base hs) frames ->
  memory maps a = if map_ok (pg_of a) f then Some (seg_byte data base h a, seg_flags (fl h)) else None.
Proof.
  intros Hfs Hpg Hnd Hfr Hh Hl Ha Hin. pose proof (seg_page_of base h a Ha) as Hz.
  rewrite <- Hpg, (zip_calls maps frames Hfr) in Hin. apply list_elem_of_fmap in Hin as (m0 & [= E0 F0] & Hm0).
  assert (Hu : forall m, m ∈ maps -> page m = pg_of a -> m = m0).
  { intros m Hm Em. rewrite <- Hpg in Hnd. apply list_elem_of_lookup in Hm as [i Hi], Hm0 as [j Hj].
    assert (i = j) as ->; [|congruence].
    eapply (NoDup_lookup _ _ _ (pg_of a) Hnd); rewrite list_lookup_fmap, ?Hi, ?Hj; cbn; congruence. }
  rewrite Forall_forall in Hfs. destruct (Hfs m0 Hm0) as (h' & Hh' & Hl' & Hp & He & Hf & Hb). rewrite <- E0 in Hp.
  rewrite <- (owner_unique base hs h h' _ Hnd Hh Hh' Hl Hl' Hz Hp) in *. rewrite <- E0, <- F0 in He.
  unfold memory, lookup_page. destruct (last (filter _ maps)) as [m|] eqn:El.
  - apply last_Some_elem_of, list_elem_of_filter in El as [[Ee Em] Hm]. apply (Hu m Hm) in Em as ->. rewrite <- He, Ee.
    cbn. rewrite Hb, Hf, <- E0 by dlia. unfold pg_of. do 2 f_equal. f_equal. lia.
  - apply last_None in El. rewrite <- He. destruct (entered m0) eqn:Ee; [|done]. exfalso. apply (not_elem_of_nil m0).
    rewrite <- El. by apply list_elem_of_filter.
Qed.

(** The image [data] has the headers [hs], the magic says [nox], and it starts at [en]. *)
Record describes (data : list Z) (nox : bool) (en : Z) (hs : list header) : Prop := {
  ds_size : sizeof_header <= size data < W32;
  ds_magic : is_valid_image data = Ok (Some nox);
  ds_entry : e_entry data = Ok en;
  ds_table : exists num po ent, e_phnum data = Ok num /\ e_phoff data = Ok po /\ e_phentsize data = Ok ent
    /\ decode_table data (Z.to_nat num) 0 po ent = Ok hs;
}.

(** C26: loading an image whose headers are in bounds and whose segments share no page,
    with enough frames.  The loader succeeds, takes one frame per page in order, calls
    [paging_map_into] once for every page with that frame, and records the segments and
    the entry point.  Afterwards every address of every segment whose page the call
    entered reads the byte the file gives it or zero, with the protection of that
    segment; a page for which the call failed for want of a table frame is not mapped,
    although the loader has reported success.  No other page is mapped. *)
Theorem elf_load_spec data base map_ok frames nox en hs :
  describes data nox en hs -> Forall (header_ok data base) hs -> NoDup (image_pages base hs) ->
  (length (image_pages base hs) <= length frames)%nat -> Forall (fun f => f <> 0) frames ->
  exists out maps, elf_load_at data base map_ok frames = Ok (out, drop (length (image_pages base hs)) frames, maps)
    /\ entry out = u64 (en + base) /\ load_base out = base /\ is_nox out = nox /\ segments out = image_segments base hs
    /\ page <$> maps = image_pages base hs /\ frame <$> maps = take (length (image_pages base hs)) frames
    /\ forall h a f, h ∈ hs -> is_load h = true -> seg_lo base h <= a < seg_hi base h ->
         (pg_of a, f) ∈ zip (image_pages base hs) frames ->
         memory maps a = if map_ok (pg_of a) f then Some (seg_byte data base h a, seg_flags (fl h)) else None.
Proof.
  intros [[Hs1 Hs2] Hmag Hen (num & po & ent & Hnum & Hpo & Hent & Htab)] Hok Hnd Hlen Hnz. unfold elf_load_at.
  apply Z.ltb_ge in Hs1 as ->. rewrite Hmag, Hnum, Hpo, Hent, Hen. cbn [rbind].
  destruct (load_phdrs_ok data base map_ok po ent (Z.to_nat num) 0 hs (ElfInfo 0 false (replicate 128 0) 0 nox 0 0 0 None []) frames [])
    as (out & new & -> & Hn & Hseg & Hpg & Hfr & Hfs); [done..|].
  cbn [rbind]. eexists _, _. split; [done|]. cbn [entry load_base is_nox segments app]. split_and!; [done|done|done| |done|done|].
  - rewrite Hseg by (simpl; lia). done.
  - intros h a f Hh Hl Ha Hz. apply (memory_ok data base map_ok hs new frames); try done. by rewrite Hfr, <- Hpg, length_fmap.
Qed.

Fixpoint le (n : nat) (v : Z) : list Z := match n with O => [] | S n => v mod 256 :: le n (v / 256) end.
Definition raw_phdr (t f o v fs ms a : Z) : list Z := le 4 t ++ le 4 f ++ le 8 o ++ le 8 v ++ le 8 v ++ le 8 fs ++ le 8 ms ++ le 8 a.
Definition raw_header (en po n : Z) : list Z :=
  [127; 69; 76; 70; 2; 1; 1; 0; 0; 0; 0; 0; 0; 0; 0; 0] ++ le 2 2 ++ le 2 62 ++ le 4 1 ++ le 8 en ++ le 8 po ++ le 8 0 ++ le 4 0 ++ le 2 64 ++ le 2 56
  ++ le 2 n ++ le 2 0 ++ le 2 0 ++ le 2 0.

(** A text page and a data segment whose last bytes are in the next page. *)
Definition demo_image : list Z :=
  raw_header 0x400000 64 2 ++ raw_phdr 1 5 0 0x400000 64 64 4096 ++ raw_phdr 1 6 176 0x401FFE 4 40 4096 ++ [11; 22; 33; 44].

Lemma elf_load_spec_witness : exists out maps,
  elf_load_at demo_image 0 (fun pg _ => negb (pg =? 0x400000)) [4096; 8192; 12288; 16384] = Ok (out, [16384], maps)
  /\ memory maps 0x400010 = None
  /\ memory maps 0x401FFF = Some (22, PAGE_USER + PAGE_WRITABLE + PAGE_NO_EXECUTE)
  /\ memory maps 0x402001 = Some (44, PAGE_USER + PAGE_WRITABLE + PAGE_NO_EXECUTE)
  /\ memory maps 0x402002 = Some (0, PAGE_USER + PAGE_WRITABLE + PAGE_NO_EXECUTE).
Proof.
  set (h1 := Header 1 5 0 0x400000 64 64 4096). set (h2 := Header 1 6 176 0x401FFE 4 40 4096).
  assert (Ep : image_pages 0 [h1; h2] = [0x400000; 0x401000; 0x402000]) by (vm_compute; reflexivity).
  destruct (elf_load_spec demo_image 0 (fun pg _ => negb (pg =? 0x400000)) [4096; 8192; 12288; 16384] false 0x400000
    [h1; h2]) as (out & maps & H & _ & _ & _ & _ & _ & _ & Hm).
  - split; [vm_compute; split; [discriminate|done]|vm_compute; reflexivity..|].
    exists 2, 64, 56. split_and!; vm_compute; reflexivity.
  - apply Forall_cons; split; [|apply Forall_cons; split; [|by apply Forall_nil]]; vm_compute; split_and!; try discriminate; auto.
  - rewrite Ep. repeat constructor; intros H; repeat (apply elem_of_cons in H as [H|H]; [lia|]); by apply elem_of_nil in H.
  - rewrite Ep. cbn. lia.
  - repeat constructor; discriminate.
  - exists out, maps. split; [rewrite H, Ep; reflexivity|]. rewrite Ep in Hm. split_and!.
    + rewrite (Hm h1 _ 4096); [reflexivity|left|reflexivity|vm_compute; split; [discriminate|done]|left].
    + rewrite (Hm h2 _ 8192); [vm_compute; reflexivity|right; left|reflexivity|vm_compute; split; [discriminate|done]|right; left].
    + rewrite (Hm h2 _ 12288); [vm_compute; reflexivity|right; left|reflexivity|vm_compute; split; [discriminate|done]|right; right; left].
    + rewrite (Hm h2 _ 12288); [vm_compute; reflexivity|right; left|reflexivity|vm_compute; split; [discriminate|done]|right; right; left].
Defined.

(** the program header table is not checked against the size of the image: a file that is
    only an ELF header, with one program header announced right after it, is read past its
    end; and the bound of PT_INTERP wraps, so that an offset just below 2^64 passes it. *)
Theorem elf_reads_outside :
  elf_load (raw_header 0 64 1) (fun _ _ => true) [4096] = OutOfImage
  /\ elf_load (raw_header 0 64 1 ++ raw_phdr 3 4 (W64 - 8) 0 16 16 1) (fun _ _ => true) [4096] = OutOfImage.
Proof. split; vm_compute; reflexivity. Qed.
