(* ===== verification/Futex.v ===== *)
(** * Futexes (kernel/ipc/futex.c, time/ktime.h)

    A waiter is a record on the stack of the thread that sleeps, linked into the list of its
    bucket.  A thread is named by its address; [frames] holds the records of the threads that
    are inside [futex_wait], and a list that names a thread without a record is a dangling
    pointer: following it makes a run fail ([None]).

    The code drops the bucket lock while the thread sleeps, so [futex_wait] is two sections,
    [futex_wait_enter] up to the sleep and [futex_wait_leave] after it; a wake, the timer and a
    signal can come in between, and user code can store to the word at any time. *)

From stdpp Require Import base numbers list gmap.
From S2P Require Import Prelude.

Definition ENOSYS := 38.
Definition ETIMEDOUT := 110.
Abbreviation FUTEX_WAIT := 0.
Abbreviation FUTEX_WAKE := 1.
Abbreviation FUTEX_REQUEUE := 3.
Abbreviation FUTEX_CMP_REQUEUE := 4.
Abbreviation FUTEX_PRIVATE_FLAG := 128.
Abbreviation FUTEX_CLOCK_REALTIME := 256.
Abbreviation FUTEX_CMD_MASK := (Z.lnot (Z.lor FUTEX_PRIVATE_FLAG FUTEX_CLOCK_REALTIME)).
Abbreviation FUTEX_BUCKETS := 64.
Abbreviation NSEC_PER_SEC := 1000000000.

(** [queued]: the thread is on the wait queue of its record, blocked.  [timed]: its sleep
    timer is armed. *)
Record futex_waiter := Waiter { key : Z; val : Z; woken : bool; queued : bool; timed : bool; timed_out : bool }.

Record futex := Futex { words : gmap Z Z; buckets : list (list Z); frames : gmap Z futex_waiter }.

Definition word_at (s : futex) (k : Z) : Z := default 0 (words s !! k).
Definition bucket (s : futex) (i : nat) : list Z := nth i (buckets s) [].
Definition set_bucket (i : nat) (l : list Z) (s : futex) : futex := Futex (words s) (<[i := l]> (buckets s)) (frames s).
Definition set_frames (f : gmap Z futex_waiter) (s : futex) : futex := Futex (words s) (buckets s) f.
Definition store (k v : Z) (s : futex) : futex := Futex (<[k := v]> (words s)) (buckets s) (frames s).

Definition futex_init (w : gmap Z Z) : futex := Futex w (replicate (Z.to_nat FUTEX_BUCKETS) []) ∅.

Definition bucket_for (k : Z) : nat :=
  let h := Z.shiftr k 2 in
  let h := u64 (h * 0x9E3779B97F4A7C15) in
  Z.to_nat (Z.land (Z.shiftr h 58) (FUTEX_BUCKETS - 1)).

Definition ktime_ts_to_ns (sec nsec : Z) : Z :=
  if UINT64_MAX / NSEC_PER_SEC <=? sec then UINT64_MAX
  else
    let ns := u64 (sec * NSEC_PER_SEC) in
    if u64 (ns + nsec) <? ns then UINT64_MAX else u64 (ns + nsec).

Definition sat_add (a b : Z) : Z := if u64 (a + b) <? a then UINT64_MAX else u64 (a + b).
Definition ktime_after_ns (now ns : Z) : Z := sat_add now ns.

(** The deadline of a call: [Some 0] without a timeout, [None] for a malformed one. *)
Definition wait_deadline (timeout : option (Z * Z)) (now : Z) : option Z :=
  match timeout with
  | None => Some 0
  | Some (sec, nsec) =>
    if (sec <? 0) || (nsec <? 0) || (1000000000 <=? nsec) then None
    else Some (ktime_after_ns now (ktime_ts_to_ns sec nsec))
  end.

(** The walk that takes the record of [t] out of its list. *)
Fixpoint unlink_loop (f : gmap Z futex_waiter) (l : list Z) (t : Z) : option (list Z) :=
  match l with
  | [] => Some []
  | x :: l' => if x =? t then Some l' else match f !! x with None => None | Some _ => cons x <$> unlink_loop f l' t end
  end.

(** From the return of the sleep, with [rc], to the return of the call; the record is gone. *)
Definition futex_wait_leave (t rc : Z) (s : futex) : option (Z * futex) :=
  match frames s !! t with
  | None => None
  | Some w =>
    let b := bucket_for (key w) in
    match (if woken w then Some (bucket s b) else unlink_loop (frames s) (bucket s b) t) with
    | None => None
    | Some l =>
      let s := set_frames (delete t (frames s)) (set_bucket b l s) in
      Some (if woken w then 0 else if rc =? - ETIMEDOUT then - ETIMEDOUT else if rc =? - EINTR then - EINTR else 0, s)
    end
  end.

(** From the call to the sleep: [Some r] when it returns [r] without sleeping.  [sig]: a signal
    is pending when the sleep starts; [later]: the clock at that moment. *)
Definition futex_wait_enter (t k v : Z) (timeout : option (Z * Z)) (now later : Z) (sig : bool) (s : futex) : option (option Z * futex) :=
  if k =? 0 then Some (Some (- EFAULT), s)
  else
    match wait_deadline timeout now with
    | None => Some (Some (- EINVAL), s)
    | Some deadline =>
      if negb (word_at s k =? v) then Some (Some (- EAGAIN), s)
      else
        let has_timeout := match timeout with Some _ => true | None => false end in
        let arm := has_timeout && negb (deadline =? 0) && negb (deadline =? UINT64_MAX) in
        let b := bucket_for k in
        let s := set_frames (<[t := Waiter k v false true arm false]> (frames s)) (set_bucket b (t :: bucket s b) s) in
        let left rc := match futex_wait_leave t rc s with Some (r, s) => Some (Some r, s) | None => None end in
        if has_timeout && (deadline <=? later) then left (- ETIMEDOUT)
        else if sig then left (- EINTR)
        else Some (None, s)
    end.

(** [waitq_wake_one] on the queue of a record that was just marked. *)
Definition mark (w : futex_waiter) : futex_waiter := Waiter (key w) (val w) true false (timed w) (timed_out w).

Fixpoint wake_loop (k n : Z) (l : list Z) (cnt : Z) (f : gmap Z futex_waiter) : option (Z * list Z * gmap Z futex_waiter) :=
  match l with
  | [] => Some (cnt, [], f)
  | t :: l' =>
    if u32 cnt <? n then
      match f !! t with
      | None => None
      | Some w =>
        if negb (key w =? k) then
          match wake_loop k n l' cnt f with Some (c, r, f) => Some (c, t :: r, f) | None => None end
        else wake_loop k n l' (cnt + 1) (<[t := mark w]> f)
      end
    else Some (cnt, l, f)
  end.

Definition futex_wake (k n : Z) (s : futex) : option (Z * futex) :=
  if k =? 0 then Some (- EFAULT, s)
  else
    match wake_loop k n (bucket s (bucket_for k)) 0 (frames s) with
    | None => None
    | Some (c, l, f) => Some (c, set_frames f (set_bucket (bucket_for k) l s))
    end.

(** The two halves of a requeue are two sections: the lock is dropped between them. *)
Definition futex_requeue (k n1 n2 : Z) (s : futex) : option (Z * futex) :=
  match futex_wake k n1 s with
  | None => None
  | Some (c, s) =>
    if c <? 0 then Some (c, s)
    else if 0 <? n2 then
      match futex_wake k n2 s with
      | None => None
      | Some (m, s) => Some (if 0 <? m then c + m else c, s)
      end
    else Some (c, s)
  end.

(** [futex_op] for the commands that do not sleep; [None] in the first component: the call is a
    wait, which goes on as [futex_wait_enter].  [translate] is the page table walk of the
    caller's address space and [user_range_writable] its access check. *)
Section Op.
Variable translate : Z -> Z.
Variable user_range_writable : Z -> bool.
Definition futex_op (uaddr op n1 n2 v3 : Z) (s : futex) : option (option Z * futex) :=
  if (uaddr =? 0) || ctrue (Z.land uaddr 3) then Some (Some (- EINVAL), s)
  else if negb (user_range_writable uaddr) then Some (Some (- EFAULT), s)
  else
    let k := translate uaddr in
    let cmd := Z.land op FUTEX_CMD_MASK in
    let done r := match r with Some (c, s) => Some (Some c, s) | None => None end in
    if cmd =? FUTEX_WAIT then Some (None, s)
    else if cmd =? FUTEX_WAKE then done (futex_wake k n1 s)
    else if cmd =? FUTEX_REQUEUE then done (futex_requeue k n1 n2 s)
    else if cmd =? FUTEX_CMP_REQUEUE then
      if negb (word_at s k =? v3) then Some (Some (- EAGAIN), s) else done (futex_requeue k n1 n2 s)
    else Some (Some (- ENOSYS), s).
End Op.

(** The sleep timer of [t] fires, or a signal makes it runnable: it leaves its wait queue. *)
Definition waitq_remove (t : Z) (expired : bool) (s : futex) : futex :=
  match frames s !! t with
  | Some w => if queued w then set_frames (<[t := Waiter (key w) (val w) (woken w) false (timed w) expired]> (frames s)) s else s
  | None => s
  end.

(** What [sleep_common] and [waitq_sleep_timeout] return to a resumed thread. *)
Definition sleep_rc (w : futex_waiter) (sig : bool) : Z := if sig then - EINTR else if timed_out w then - ETIMEDOUT else 0.

(** ** Interleavings *)

Inductive label :=
  | Store (k v : Z)
  | Enter (t k v : Z) (timeout : option (Z * Z)) (now later : Z) (sig : bool)
  | Wake (k n : Z)
  | Expire (t : Z)
  | Signal (t : Z)
  | Leave (t : Z) (sig : bool).

(** [Expire] needs an armed timer and a thread still queued, [Leave] a thread made runnable. *)
Definition enabled (l : label) (s : futex) : Prop :=
  match l with
  | Store _ _ => True
  | Enter t _ _ _ _ _ _ => frames s !! t = None /\ Z.of_nat (size (frames s)) < W32 - 1
  | Wake _ n => 0 <= n < W32
  | Expire t => exists w, frames s !! t = Some w /\ timed w = true /\ queued w = true
  | Signal t => exists w, frames s !! t = Some w /\ queued w = true
  | Leave t _ => exists w, frames s !! t = Some w /\ queued w = false
  end.

(** The value the section returns, [None] when it returns none. *)
Definition run_label (l : label) (s : futex) : option (option Z * futex) :=
  match l with
  | Store k v => Some (None, store k v s)
  | Enter t k v timeout now later sig => futex_wait_enter t k v timeout now later sig s
  | Wake k n => match futex_wake k n s with Some (c, s) => Some (Some c, s) | None => None end
  | Expire t => Some (None, waitq_remove t true s)
  | Signal t => Some (None, waitq_remove t false s)
  | Leave t sig =>
    match frames s !! t with
    | Some w => match futex_wait_leave t (sleep_rc w sig) s with Some (r, s) => Some (Some r, s) | None => None end
    | None => None
    end
  end.

(** ** The invariant *)

Record futex_inv (s : futex) : Prop := {
  fi_len : length (buckets s) = Z.to_nat FUTEX_BUCKETS;
  fi_nodup : forall i, NoDup (bucket s i);
  fi_listed : forall i t, t ∈ bucket s i -> exists w, frames s !! t = Some w /\ bucket_for (key w) = i /\ woken w = false;
  fi_waiting : forall t w, frames s !! t = Some w -> woken w = false -> t ∈ bucket s (bucket_for (key w));
  fi_woken : forall t w, frames s !! t = Some w -> woken w = true -> queued w = false;
  fi_count : Z.of_nat (size (frames s)) < W32;
}.

Lemma bucket_for_range k : (bucket_for k < Z.to_nat FUTEX_BUCKETS)%nat.
Proof.
  unfold bucket_for. change (64 - 1) with (2 ^ 6 - 1). rewrite land_low by lia. dlia.
Qed.

Lemma futex_bucket_set s i j l : (i < length (buckets s))%nat -> bucket (set_bucket i l s) j = if decide (i = j) then l else bucket s j.
Proof.
  intros. unfold bucket, set_bucket. cbn. rewrite !nth_lookup. case_decide as E.
  - subst. by rewrite list_lookup_insert_eq.
  - by rewrite list_lookup_insert_ne.
Qed.

Lemma futex_init_inv w : futex_inv (futex_init w).
Proof.
  assert (forall i, bucket (futex_init w) i = []) as E.
  { intros i. unfold bucket, futex_init. cbn. rewrite nth_lookup. destruct (_ !! i) eqn:El; [|done]. by apply lookup_replicate in El as [-> _]. }
  split; cbn; try done; try setoid_rewrite E; intros; try done; [constructor|by apply elem_of_nil in H].
Qed.

(** ** Walking the lists *)

Lemma futex_unlink_ok f l t : (forall x, x ∈ l -> is_Some (f !! x)) -> NoDup l -> unlink_loop f l t = Some (filter (fun x => x <> t) l).
Proof.
  induction l as [|x l IH]; intros Hl Hnd; [done|]. apply NoDup_cons in Hnd as [Hx Hnd]. cbn [unlink_loop]. rewrite filter_cons.
  destruct (Z.eqb_spec x t) as [->|Hne].
  - rewrite decide_False by tauto. f_equal. symmetry. apply filter_all. intros y Hy ->. done.
  - destruct (Hl x) as [w ->]; [left|]. rewrite IH by (auto; intros; apply Hl; by right). by rewrite decide_True.
Qed.

(** The records a wake of [n] takes: the first [n] of its key. *)
Definition has_key (f : gmap Z futex_waiter) (k t : Z) : Prop := key <$> f !! t = Some k.
#[global] Instance has_key_dec f k t : Decision (has_key f k t).
Proof. unfold has_key. apply _. Defined.
Definition hits (k n : Z) (l : list Z) (f : gmap Z futex_waiter) : list Z := take (Z.to_nat n) (filter (has_key f k) l).

Lemma filter_key_ext k f g (l : list Z) : (forall t, t ∈ l -> f !! t = g !! t) -> filter (has_key f k) l = filter (has_key g k) l.
Proof. intros H. apply filter_ext_in. intros t Ht. unfold has_key. by rewrite H. Qed.

Lemma wake_loop_ok k n l : forall cnt f,
  (forall t, t ∈ l -> is_Some (f !! t)) -> NoDup l -> 0 <= cnt -> cnt + Z.of_nat (length l) < W32 ->
  exists f', wake_loop k n l cnt f = Some (cnt + Z.of_nat (length (hits k (n - cnt) l f)), filter (fun t => t ∉ hits k (n - cnt) l f) l, f')
    /\ forall t, f' !! t = if decide (t ∈ hits k (n - cnt) l f) then mark <$> f !! t else f !! t.
Proof.
  induction l as [|t l IH]; intros cnt f Hl Hnd H0 Hc.
  { exists f. unfold hits. cbn [filter list_filter]. rewrite take_nil. split; [by rewrite Z.add_0_r|]. intros t. by rewrite decide_False by apply not_elem_of_nil. }
  apply NoDup_cons in Hnd as [Ht Hnd]. cbn [length] in Hc. cbn [wake_loop]. rewrite u32_small by lia.
  destruct (Z.ltb_spec cnt n) as [Hlt|Hge].
  2: { exists f. assert (hits k (n - cnt) (t :: l) f = []) as -> by (unfold hits; by rewrite Z2Nat.nonpos by lia).
       split; [|intros x; by rewrite decide_False by apply not_elem_of_nil]. rewrite Z.add_0_r. do 2 f_equal. f_equal. symmetry.
       apply filter_all. intros x _. apply not_elem_of_nil. }
  destruct (Hl t) as [w Hw]; [left|]. rewrite Hw.
  destruct (Z.eqb_spec (key w) k) as [Hk|Hk]; cbn [negb].
  - set (g := <[t := mark w]> f).
    destruct (IH (cnt + 1) g) as (f' & E & Hf'); [|done|lia..|].
    { intros x Hx. subst g. rewrite lookup_insert_ne by congruence. apply Hl. by right. }
    assert (hits k (n - cnt) (t :: l) f = t :: hits k (n - (cnt + 1)) l g) as Hh.
    { unfold hits. rewrite filter_cons, decide_True by (unfold has_key; rewrite Hw; cbn; congruence).
      replace (Z.to_nat (n - cnt)) with (S (Z.to_nat (n - (cnt + 1)))) by lia. cbn [take]. do 2 f_equal.
      apply filter_key_ext. intros x Hx. subst g. by rewrite lookup_insert_ne by congruence. }
    assert (t ∉ hits k (n - (cnt + 1)) l g) as Hnt.
    { intros Hin. unfold hits in Hin. apply elem_of_take in Hin as (i & Hi & _). apply list_elem_of_lookup_2, list_elem_of_filter in Hi as [_ Hi]. done. }
    exists f'. rewrite E, Hh. cbn [length]. split.
    + do 3 f_equal; [lia|]. rewrite filter_cons, decide_False by (intros X; apply X; left). apply filter_ext_in.
      intros x Hx. rewrite not_elem_of_cons. split; [|tauto]. split; [congruence|done].
    + intros x. rewrite Hf'. subst g. destruct (decide (x = t)) as [->|Hne].
      * rewrite decide_False, lookup_insert_eq, decide_True, Hw by (done || left). done.
      * rewrite lookup_insert_ne by done. destruct (decide (x ∈ hits _ _ _ _)); [rewrite decide_True by (by right)|
          rewrite decide_False by (rewrite not_elem_of_cons; done)]; done.
  - destruct (IH cnt f) as (f' & E & Hf'); [|done|lia..|]. { intros x Hx. apply Hl. by right. }
    assert (hits k (n - cnt) (t :: l) f = hits k (n - cnt) l f) as Hh.
    { unfold hits. by rewrite filter_cons, decide_False by (unfold has_key; rewrite Hw; cbn; congruence). }
    exists f'. rewrite E, Hh. split; [|done]. rewrite filter_cons, decide_True; [done|].
    intros Hin. unfold hits in Hin. apply elem_of_take in Hin as (i & Hi & _). apply list_elem_of_lookup_2, list_elem_of_filter in Hi as [_ Hi]. done.
Qed.

(** ** Every section keeps the invariant *)

(** What a wait returns once its sleep is over. *)
Definition wait_result (w : futex_waiter) (rc : Z) : Z :=
  if woken w then 0 else if rc =? - ETIMEDOUT then - ETIMEDOUT else if rc =? - EINTR then - EINTR else 0.

Lemma leave_ok s t w rc : futex_inv s -> frames s !! t = Some w ->
  exists s', futex_wait_leave t rc s = Some (wait_result w rc, s') /\ futex_inv s'
    /\ frames s' = delete t (frames s) /\ words s' = words s.
Proof.
  intros I Ht. pose proof (bucket_for_range (key w)) as Hb. rewrite <- (fi_len s I) in Hb.
  unfold futex_wait_leave. rewrite Ht. set (b := bucket_for (key w)) in *.
  assert ((if woken w then Some (bucket s b) else unlink_loop (frames s) (bucket s b) t) = Some (filter (fun x => x <> t) (bucket s b))) as ->.
  { destruct (woken w) eqn:Ew.
    - f_equal. symmetry. apply filter_all. intros x Hx ->. destruct (fi_listed s I b t Hx) as (w' & ? & _ & ?). congruence.
    - apply futex_unlink_ok; [|apply fi_nodup, I]. intros x Hx. destruct (fi_listed s I b x Hx) as (? & -> & _). done. }
  eexists. split; [done|]. split; [|done].
  assert (forall i, bucket (set_frames (delete t (frames s)) (set_bucket b (filter (fun x => x <> t) (bucket s b)) s)) i
                    = filter (fun x => x <> t) (bucket s i)) as E.
  { intros i. change (bucket (set_frames _ ?x) i) with (bucket x i). rewrite futex_bucket_set by done. case_decide as Hi; [by subst i|].
    symmetry. apply filter_all. intros x Hx ->. destruct (fi_listed s I i t Hx) as (w' & ? & ? & _). naive_solver. }
  split; cbn [frames set_frames].
  - cbn. rewrite length_insert. apply I.
  - intros i. rewrite E. apply NoDup_filter, I.
  - intros i x. rewrite E, list_elem_of_filter. intros [Hne Hx]. rewrite lookup_delete_ne by done. by apply (fi_listed s I).
  - intros x w'. rewrite lookup_delete_Some. intros [Hne Hx] Hw. rewrite E, list_elem_of_filter. split; [done|]. by apply (fi_waiting s I).
  - intros x w'. rewrite lookup_delete_Some. intros [Hne Hx] Hw. by apply (fi_woken s I x).
  - pose proof (fi_count s I). rewrite map_size_delete, Ht. cbn. lia.
Qed.

(** The record of a thread that starts to sleep. *)
Definition sleeper (k v : Z) (timeout : option (Z * Z)) (now : Z) : futex_waiter :=
  let deadline := default 0 (wait_deadline timeout now) in
  Waiter k v false true (match timeout with Some _ => true | None => false end && negb (deadline =? 0) && negb (deadline =? UINT64_MAX)) false.

Lemma push_inv s t w : futex_inv s -> frames s !! t = None -> Z.of_nat (size (frames s)) < W32 - 1 -> woken w = false ->
  futex_inv (set_frames (<[t := w]> (frames s)) (set_bucket (bucket_for (key w)) (t :: bucket s (bucket_for (key w))) s)).
Proof.
  intros I Ht Hsz Hw. pose proof (bucket_for_range (key w)) as Hb. rewrite <- (fi_len s I) in Hb. set (b := bucket_for (key w)) in *.
  assert (forall i, t ∉ bucket s i) as Hnt by (intros i Hi; destruct (fi_listed s I i t Hi) as (? & ? & _); congruence).
  set (s' := set_frames _ _). assert (forall i, bucket s' i = if decide (b = i) then t :: bucket s b else bucket s i) as E.
  { intros i. change (bucket s' i) with (bucket (set_bucket b (t :: bucket s b) s) i). by apply futex_bucket_set. }
  split; cbn [frames set_frames s'].
  - cbn. rewrite length_insert. apply I.
  - intros i. rewrite E. case_decide; [|apply I]. constructor; [apply Hnt|apply I].
  - intros i x. rewrite E. case_decide as Hi; [subst i; rewrite elem_of_cons|].
    + intros [->|Hx]; [rewrite lookup_insert_eq; by exists w|]. rewrite lookup_insert_ne by (intros ->; by apply (Hnt b)). by apply (fi_listed s I).
    + intros Hx. rewrite lookup_insert_ne by (intros ->; by apply (Hnt i)). by apply (fi_listed s I).
  - intros x w'. rewrite E. rewrite lookup_insert_Some. intros [[<- <-]|[Hne Hx]] Hf.
    + fold b. rewrite decide_True by done. left.
    + case_decide as Hi; [rewrite Hi; right|]; by apply (fi_waiting s I).
  - intros x w'. rewrite lookup_insert_Some. intros [[<- <-]|[Hne Hx]] Hf; [congruence|]. by apply (fi_woken s I x).
  - rewrite map_size_insert_None by done. lia.
Qed.

(** The three ways a wait can start. *)
Lemma enter_ok s t k v timeout now later sig :
  futex_inv s -> frames s !! t = None -> Z.of_nat (size (frames s)) < W32 - 1 ->
  exists r s', futex_wait_enter t k v timeout now later sig s = Some (r, s') /\ futex_inv s' /\ words s' = words s
    /\ ((r <> None /\ frames s' = frames s) \/ (r = None /\ word_at s k = v /\ frames s' = <[t := sleeper k v timeout now]> (frames s))).
Proof.
  intros I Ht Hsz. unfold futex_wait_enter. destruct (Z.eqb_spec k 0); [eexists _, s; naive_solver|].
  destruct (wait_deadline timeout now) as [dl|] eqn:Ed; [|eexists _, s; naive_solver].
  destruct (Z.eqb_spec (word_at s k) v) as [Hv|Hv]; cbn [negb]; [|eexists _, s; naive_solver].
  assert (sleeper k v timeout now = Waiter k v false true (match timeout with Some _ => true | None => false end && negb (dl =? 0) && negb (dl =? UINT64_MAX)) false) as Es
    by (unfold sleeper; by rewrite Ed).
  rewrite <- Es. pose proof (push_inv s t (sleeper k v timeout now) I Ht Hsz eq_refl) as I'. cbn [key sleeper] in I'.
  set (s1 := set_frames _ _) in *.
  assert (frames s1 !! t = Some (sleeper k v timeout now)) as H1 by (cbn; by rewrite lookup_insert_eq).
  assert (delete t (frames s1) = frames s) as Hd by (cbn; by rewrite delete_insert_id).
  assert (forall rc, exists r s', match futex_wait_leave t rc s1 with Some (r, s) => Some (Some r, s) | None => None end = Some (r, s')
    /\ futex_inv s' /\ words s' = words s /\ r <> None /\ frames s' = frames s) as Hl.
  { intros rc. destruct (leave_ok s1 t _ rc I' H1) as (s2 & -> & I2 & F2 & W2). eexists _, s2. split; [done|]. by rewrite F2, Hd, W2. }
  destruct (_ && (dl <=? later)); [|destruct sig].
  - destruct (Hl (- ETIMEDOUT)) as (r & s2 & E & ? & ? & ? & ?). exists r, s2. tauto.
  - destruct (Hl (- EINTR)) as (r & s2 & E & ? & ? & ? & ?). exists r, s2. tauto.
  - exists None, s1. split_and!; [done..|]. right. done.
Qed.

(** A wake takes the first [n] records of its key and leaves everything else alone. *)
Definition wake_hits (k n : Z) (s : futex) : list Z := hits k n (bucket s (bucket_for k)) (frames s).

Lemma bucket_small s i : futex_inv s -> Z.of_nat (length (bucket s i)) < W32.
Proof.
  intros I. pose proof (fi_count s I). assert (length (bucket s i) <= size (frames s))%nat; [|lia].
  rewrite <- size_dom, <- (size_list_to_set (C := gset Z) (bucket s i)) by apply I. apply subseteq_size. intros t Ht%elem_of_list_to_set.
  destruct (fi_listed s I i t Ht) as (w & Hw & _). by apply elem_of_dom_2 in Hw.
Qed.

Lemma wake_ok s k n : futex_inv s -> k <> 0 ->
  exists s', futex_wake k n s = Some (Z.of_nat (length (wake_hits k n s)), s') /\ futex_inv s' /\ words s' = words s
    /\ (forall i, bucket s' i = filter (fun t => t ∉ wake_hits k n s) (bucket s i))
    /\ (forall t, frames s' !! t = if decide (t ∈ wake_hits k n s) then mark <$> frames s !! t else frames s !! t).
Proof.
  intros I Hk. pose proof (bucket_for_range k) as Hb. rewrite <- (fi_len s I) in Hb. unfold futex_wake. apply Z.eqb_neq in Hk as ->.
  set (b := bucket_for k) in *.
  destruct (wake_loop_ok k n (bucket s b) 0 (frames s)) as (f' & -> & Hf'); [|apply I|lia|by apply bucket_small|].
  { intros t Ht. destruct (fi_listed s I b t Ht) as (w & -> & _). done. }
  rewrite Z.sub_0_r in *. fold (wake_hits k n s) in *. set (H := wake_hits k n s) in *.
  assert (forall t, t ∈ H -> t ∈ bucket s b) as Hsub.
  { intros t Ht. apply elem_of_take in Ht as (i & Hi & _). by apply list_elem_of_lookup_2, list_elem_of_filter in Hi as [_ Hi]. }
  eexists. split; [by rewrite Z.add_0_l|].
  assert (forall i, bucket (set_frames f' (set_bucket b (filter (fun t => t ∉ H) (bucket s b)) s)) i = filter (fun t => t ∉ H) (bucket s i)) as E.
  { intros i. change (bucket (set_frames _ ?x) i) with (bucket x i). rewrite futex_bucket_set by done. case_decide as Hi; [by subst i|].
    symmetry. apply filter_all. intros x Hx Hh%Hsub. destruct (fi_listed s I i x Hx) as (w1 & ? & ? & _), (fi_listed s I b x Hh) as (w2 & ? & ? & _). naive_solver. }
  split; [|done]. split; cbn [frames set_frames].
  - cbn. rewrite length_insert. apply I.
  - intros i. rewrite E. apply NoDup_filter, I.
  - intros i x. rewrite E, list_elem_of_filter, Hf'. intros [Hn Hx]. rewrite decide_False by done. by apply (fi_listed s I).
  - intros x w. rewrite Hf', E, list_elem_of_filter. case_decide as Hx; [|intros Hw Hf; split; [done|by apply (fi_waiting s I)]].
    intros (w0 & _ & ->)%fmap_Some. done.
  - intros x w. rewrite Hf'. case_decide; [|apply (fi_woken s I)]. by intros (w0 & _ & ->)%fmap_Some.
  - replace (size f') with (size (frames s)); [apply I|]. rewrite <- !size_dom. f_equal. apply set_eq. intros x. rewrite !elem_of_dom, Hf'.
    case_decide; [by rewrite fmap_is_Some|done].
Qed.

Lemma remove_inv s t e : futex_inv s -> futex_inv (waitq_remove t e s) /\ words (waitq_remove t e s) = words s /\ buckets (waitq_remove t e s) = buckets s.
Proof.
  intros I. unfold waitq_remove. destruct (frames s !! t) as [w|] eqn:Hw; [|done]. destruct (queued w) eqn:Hq; [|done].
  split; [|done]. assert (woken w = false) as Hf by (destruct (woken w) eqn:E; [|done]; by rewrite (fi_woken s I t w Hw E) in Hq).
  split; [apply I|apply (fi_nodup s I)|..]; cbn [frames set_frames].
  - intros i x Hx. change (bucket (set_frames _ s) i) with (bucket s i) in Hx. destruct (decide (x = t)) as [->|Hne].
    + rewrite lookup_insert_eq. destruct (fi_listed s I i t Hx) as (w' & ? & ? & ?). simplify_eq. eexists. split; [done|]. done.
    + rewrite lookup_insert_ne by done. by apply (fi_listed s I).
  - intros x w'. rewrite lookup_insert_Some. change (bucket (set_frames _ s) ?i) with (bucket s i).
    intros [[<- <-]|[_ Hx]] E; cbn in *; by apply (fi_waiting s I).
  - intros x w'. rewrite lookup_insert_Some. intros [[<- <-]|[_ Hx]] E; [done|]. by apply (fi_woken s I x).
  - rewrite map_size_insert_Some by done. apply I.
Qed.

(** One section of one thread. *)
Inductive step (s : futex) (l : label) (r : option Z) (s' : futex) : Prop :=
  | a_step : enabled l s -> run_label l s = Some (r, s') -> step s l r s'.

(** A run: the state before, the label and the result of every step. *)
Inductive run : futex -> list (futex * label * option Z) -> futex -> Prop :=
  | run_nil s : run s [] s
  | run_cons s l r s1 tr s2 : step s l r s1 -> run s1 tr s2 -> run s ((s, l, r) :: tr) s2.

Lemma futex_step_ok s l : futex_inv s -> enabled l s -> exists r s', run_label l s = Some (r, s') /\ futex_inv s'.
Proof.
  intros I E. destruct l as [k v|t k v timeout now later sig|k n|t|t|t sig]; cbn [run_label enabled] in *.
  - eexists _, _. split; [done|]. destruct I. by split.
  - destruct E as [E1 E2]. destruct (enter_ok s t k v timeout now later sig I E1 E2) as (r & s' & ? & ? & _). eauto.
  - destruct (decide (k = 0)) as [->|Hk]; [unfold futex_wake; cbn; eauto|].
    destruct (wake_ok s k n I Hk) as (s' & -> & ? & _). eauto.
  - eexists _, _. split; [done|]. by apply remove_inv.
  - eexists _, _. split; [done|]. by apply remove_inv.
  - destruct E as (w & Hw & _). rewrite Hw. destruct (leave_ok s t w (sleep_rc w sig) I Hw) as (s' & -> & ? & _). eauto.
Qed.

Lemma step_inv s l r s' : futex_inv s -> step s l r s' -> futex_inv s'.
Proof. intros I [E H]. destruct (futex_step_ok s l I E) as (? & ? & ? & ?). naive_solver. Qed.

Lemma futex_run_inv s tr s' : futex_inv s -> run s tr s' -> futex_inv s'.
Proof. intros I H. induction H; [done|]. eauto using step_inv. Qed.

(** The threads asleep or about to return from a wait on [k] that no wake has reached. *)
Definition waiters (s : futex) (k : Z) : list Z := filter (has_key (frames s) k) (bucket s (bucket_for k)).

Lemma waiters_spec s k t : futex_inv s -> t ∈ waiters s k <-> exists w, frames s !! t = Some w /\ key w = k /\ woken w = false.
Proof.
  intros I. unfold waiters. rewrite list_elem_of_filter. unfold has_key. rewrite fmap_Some. split.
  - intros [(w & Hw & ->) Hb]. destruct (fi_listed s I _ t Hb) as (w' & ? & _ & ?). naive_solver.
  - intros (w & Hw & <- & Hf). split; [eauto|]. by apply (fi_waiting s I).
Qed.

(** the lists of waiters are memory-safe.  In every state the interleavings of waits, wakes,
    timeouts, signals and stores reach, every list names only threads that are inside
    [futex_wait] for a key of that bucket, and whatever section runs next follows no pointer
    into a stack frame that is gone. *)
Theorem futex_lists_live w tr s l :
  run (futex_init w) tr s -> enabled l s ->
  (forall i t, t ∈ bucket s i -> exists w, frames s !! t = Some w /\ bucket_for (key w) = i)
  /\ exists r s', run_label l s = Some (r, s').
Proof.
  intros Hr He. assert (futex_inv s) as I by eauto using futex_run_inv, futex_init_inv. split.
  - intros i t Ht. destruct (fi_listed s I i t Ht) as (x & ? & ? & _). eauto.
  - destruct (futex_step_ok s l I He) as (r & s' & ? & _). eauto.
Qed.

(** FUTEX_WAKE.  It wakes the [n] most recent waiters of the word, or all of them when
    there are fewer, and returns how many; those threads are marked and runnable, every other
    waiter stays as it was, in the same bucket or not, and no word changes. *)
Theorem futex_wake_spec w tr s k n :
  run (futex_init w) tr s -> k <> 0 -> 0 <= n ->
  exists s', futex_wake k n s = Some (Z.min n (Z.of_nat (length (waiters s k))), s') /\ words s' = words s
    /\ waiters s' k = drop (Z.to_nat n) (waiters s k)
    /\ (forall k', k' <> k -> waiters s' k' = waiters s k')
    /\ (forall t, frames s' !! t = if decide (t ∈ take (Z.to_nat n) (waiters s k)) then mark <$> frames s !! t else frames s !! t).
Proof.
  intros Hr Hk Hn. assert (futex_inv s) as I by eauto using futex_run_inv, futex_init_inv.
  destruct (wake_ok s k n I Hk) as (s' & E & I' & Hw & Hb & Hf).
  change (wake_hits k n s) with (take (Z.to_nat n) (waiters s k)) in *.
  exists s'. rewrite E, length_take. split; [do 2 f_equal; lia|]. split; [done|].
  assert (forall k' t, t ∈ waiters s k' -> k' <> k -> t ∉ take (Z.to_nat n) (waiters s k)) as Hother.
  { intros k' t Ht Hne (i & Hi%list_elem_of_lookup_2 & _)%elem_of_take. apply waiters_spec in Ht, Hi; [|done..]. naive_solver. }
  assert (forall k', waiters s' k' = filter (fun t => t ∉ take (Z.to_nat n) (waiters s k)) (waiters s k')) as Hw'.
  { intros k'. generalize dependent (take (Z.to_nat n) (waiters s k)). intros T _ Hb Hf _. unfold waiters. rewrite Hb, !list_filter_filter.
    apply filter_ext_in. intros t _. unfold has_key. rewrite Hf. case_decide; tauto. }
  split_and!; [|intros k' Hne; rewrite Hw'; apply filter_all; eauto|done].
  rewrite Hw'. apply filter_not_prefix, NoDup_filter, I.
Qed.

(** ** The race between the check of the word and the sleep *)

(** No thread that expects [v] sleeps on [k], and the word is not [v]. *)
Definition settled (k v : Z) (s : futex) : Prop :=
  word_at s k <> v /\ forall t w, frames s !! t = Some w -> key w = k -> val w = v -> queued w = false.

Lemma remove_settled s t e k v : settled k v s -> settled k v (waitq_remove t e s).
Proof.
  intros [Hw Hs]. unfold waitq_remove. destruct (frames s !! t) as [x|] eqn:Hx; [|done]. destruct (queued x); [|done].
  split; [done|]. intros y w. cbn [frames set_frames]. rewrite lookup_insert_Some. intros [[_ <-]|[_ Hy]]; [done|]. eauto.
Qed.

Lemma step_settled s l r s' k v : futex_inv s -> settled k v s -> l <> Store k v -> step s l r s' -> settled k v s'.
Proof.
  intros I Hs Hl [He Hr]. destruct l as [k' v'|t k' v' timeout now later sig|k' n|t|t|t sig]; cbn [run_label enabled] in *.
  - simplify_eq. destruct Hs as [Hw Hs]. split; [|done]. unfold settled, word_at, store in *. cbn [words]. destruct (decide (k' = k)) as [->|Hne].
    + rewrite lookup_insert_eq. cbn. congruence.
    + by rewrite lookup_insert_ne.
  - destruct He as [E1 E2]. destruct (enter_ok s t k' v' timeout now later sig I E1 E2) as (r' & s1 & E & _ & Hwd & Hc). rewrite Hr in E. simplify_eq.
    destruct Hs as [Hw Hs]. unfold settled, word_at in *. split; [by rewrite Hwd|]. destruct Hc as [[_ ->]|(_ & Hv & ->)]; [done|].
    intros y w. rewrite lookup_insert_Some. intros [[_ <-]|[_ Hy]]; [|eauto]. cbn. intros -> ->. done.
  - destruct (decide (k' = 0)) as [->|Hk]; [unfold futex_wake in Hr; cbn in Hr; by simplify_eq|].
    destruct (wake_ok s k' n I Hk) as (s1 & E & _ & Hwd & _ & Hf). rewrite E in Hr. simplify_eq.
    destruct Hs as [Hw Hs]. unfold settled, word_at in *. split; [by rewrite Hwd|]. intros t w. rewrite Hf. case_decide; [|eauto].
    by intros (w0 & _ & ->)%fmap_Some.
  - simplify_eq. by apply remove_settled.
  - simplify_eq. by apply remove_settled.
  - destruct He as (w & Hw & _). rewrite Hw in Hr. destruct (leave_ok s t w (sleep_rc w sig) I Hw) as (s1 & E & _ & Hfr & Hwd). rewrite E in Hr. simplify_eq.
    destruct Hs as [Hx Hs]. unfold settled, word_at in *. split; [by rewrite Hwd|]. intros y w'. rewrite Hfr, lookup_delete_Some. intros [_ ?]. eauto.
Qed.

(** C14: the race a futex exists to close.  Once the word no longer holds [v] and a wake of
    enough waiters has run, no thread sleeps expecting [v], whatever interleaving follows, until
    someone stores [v] again: a waiter that had checked the word before the change was on the
    list and was woken, one that checks it later does not sleep. *)
Theorem futex_race_closed w tr s k v n s1 tr' s2 c :
  run (futex_init w) tr s -> word_at s k <> v -> Z.of_nat (length (waiters s k)) <= n ->
  step s (Wake k n) c s1 -> k <> 0 -> run s1 tr' s2 -> Forall (fun e => e.1.2 <> Store k v) tr' ->
  forall t x, frames s2 !! t = Some x -> key x = k -> val x = v -> queued x = false.
Proof.
  intros Hr Hv Hn Hw Hk Hr' Hno. assert (futex_inv s) as I by eauto using futex_run_inv, futex_init_inv.
  assert (futex_inv s1) as I1 by eauto using step_inv.
  assert (settled k v s1) as Hs.
  { destruct Hw as [_ E]. cbn in E. destruct (wake_ok s k n I Hk) as (s' & E' & _ & Hwd & _ & Hf). rewrite E' in E. simplify_eq.
    unfold settled, word_at in *. split; [by rewrite Hwd|]. intros t x. rewrite Hf. change (wake_hits k n s) with (take (Z.to_nat n) (waiters s k)).
    rewrite take_ge by lia. case_decide as Hin; [by intros (x0 & _ & ->)%fmap_Some|]. intros Hx Hkx _.
    destruct (woken x) eqn:Ew; [by apply (fi_woken s I t)|]. destruct Hin. apply waiters_spec; eauto. }
  assert (settled k v s2) as [_ H2]; [|done].
  clear - I1 Hs Hr' Hno. induction Hr' as [|s l r s' tr' s2 Hst Hrn IH]; [done|]. apply Forall_cons in Hno as [Hl Hno]. cbn in Hl.
  apply IH; eauto using step_inv, step_settled.
Qed.

(** ** No wake is swallowed *)

(** The wakes a step hands out, and the ones a thread takes out of the kernel. *)
Definition given (e : futex * label * option Z) : Z :=
  match e with (_, Wake _ _, Some c) => Z.max 0 c | _ => 0 end.
Definition was_woken (s : futex) (t : Z) : bool := default false (woken <$> frames s !! t).
Definition taken (e : futex * label * option Z) : Z :=
  match e with (s, Leave t _, _) => b2z (was_woken s t) | _ => 0 end.
Definition total (f : futex * label * option Z -> Z) (tr : list (futex * label * option Z)) : Z := zsum f tr.

(** The threads woken that have not returned yet. *)
Definition pending (s : futex) : gset Z := dom (filter (fun p : Z * futex_waiter => woken p.2 = true) (frames s)).

Lemma elem_pending s t : t ∈ pending s <-> exists w, frames s !! t = Some w /\ woken w = true.
Proof. unfold pending. rewrite elem_of_dom. unfold is_Some. setoid_rewrite map_lookup_filter_Some. done. Qed.

Lemma pending_eq s s' : (forall t, woken <$> frames s' !! t = woken <$> frames s !! t \/ (frames s !! t = None /\ woken <$> frames s' !! t = Some false)) ->
  pending s' = pending s.
Proof.
  intros H. apply set_eq. intros t. rewrite !elem_pending. destruct (H t) as [E|[E1 E2]]; clear H;
    [|rewrite E1]; destruct (frames s' !! t) as [a|], (frames s !! t) as [b|]; cbn in *; simplify_eq;
    split; intros (x & Hx & Hwx); simplify_eq; eauto; try congruence; eexists; (split; [done|congruence]).
Qed.

Lemma step_conserves s l r s' : futex_inv s -> step s l r s' ->
  Z.of_nat (size (pending s')) = Z.of_nat (size (pending s)) + given (s, l, r) - taken (s, l, r).
Proof.
  intros I [He Hr]. destruct l as [k' v'|t k' v' timeout now later sig|k' n|t|t|t sig]; cbn [run_label enabled] in *.
  - simplify_eq. cbn. change (pending (store k' v' s)) with (pending s). lia.
  - destruct He as [E1 E2]. destruct (enter_ok s t k' v' timeout now later sig I E1 E2) as (r' & s1 & E & _ & _ & Hc). rewrite Hr in E. simplify_eq.
    cbn. rewrite (pending_eq s); [lia|]. intros x. destruct Hc as [[_ ->]|(_ & _ & ->)]; [by left|].
    destruct (decide (x = t)) as [->|]; [right; by rewrite lookup_insert_eq|left; by rewrite lookup_insert_ne].
  - destruct (decide (k' = 0)) as [->|Hk]; [unfold futex_wake in Hr; cbn in Hr; simplify_eq; cbn; unfold EFAULT; lia|].
    destruct (wake_ok s k' n I Hk) as (s1 & E & _ & _ & _ & Hf). rewrite E in Hr. simplify_eq.
    assert (NoDup (wake_hits k' n s)) as Hnd.
    { assert (NoDup (waiters s k')) as X by (apply NoDup_filter, I). rewrite <- (take_drop (Z.to_nat n)) in X. by apply NoDup_app in X as [X _]. }
    assert (forall t, t ∈ wake_hits k' n s -> exists w, frames s !! t = Some w /\ woken w = false) as Hh.
    { intros t (i & Hi%list_elem_of_lookup_2 & _)%elem_of_take. apply waiters_spec in Hi; [|done]. naive_solver. }
    assert (pending s' = pending s ∪ list_to_set (wake_hits k' n s)) as ->.
    { apply set_eq. intros t. rewrite elem_of_union, elem_of_list_to_set, !elem_pending, Hf. case_decide as Hin; [|tauto].
      destruct (Hh t Hin) as (w1 & -> & _). cbn. split; [by right|]. intros _. by exists (mark w1). }
    rewrite size_union, size_list_to_set by (done || (intros t (w1 & ? & ?)%elem_pending Hin%elem_of_list_to_set; destruct (Hh t Hin) as (w2 & ? & ?); congruence)).
    cbn. lia.
  - simplify_eq. cbn. rewrite (pending_eq s); [lia|]. intros x. left. unfold waitq_remove. destruct (frames s !! t) eqn:Hx; [|done]. destruct (queued f); [|done].
    cbn. destruct (decide (x = t)) as [->|]; [by rewrite lookup_insert_eq, Hx|by rewrite lookup_insert_ne].
  - simplify_eq. cbn. rewrite (pending_eq s); [lia|]. intros x. left. unfold waitq_remove. destruct (frames s !! t) eqn:Hx; [|done]. destruct (queued f); [|done].
    cbn. destruct (decide (x = t)) as [->|]; [by rewrite lookup_insert_eq, Hx|by rewrite lookup_insert_ne].
  - destruct He as (w & Hw & _). rewrite Hw in Hr. destruct (leave_ok s t w (sleep_rc w sig) I Hw) as (s1 & E & _ & Hfr & _). rewrite E in Hr. simplify_eq.
    cbn. unfold was_woken. rewrite Hw. cbn. destruct (woken w) eqn:Ew; cbn.
    + assert (t ∈ pending s) as Ht by (apply elem_pending; eauto).
      assert (pending s' = pending s ∖ {[t]}) as ->.
      { apply set_eq. intros x. rewrite elem_of_difference, elem_of_singleton, !elem_pending, Hfr. setoid_rewrite lookup_delete_Some. split.
        - intros (y & [Hne Hy] & Hyw). split; [by exists y|congruence].
        - intros [(y & Hy & Hyw) Hne]. exists y. split_and!; [congruence|done|done]. }
      assert (size (pending s) <> 0)%nat by (intros E0%size_empty_inv; set_solver). rewrite size_difference, size_singleton by set_solver. lia.
    + rewrite Z.sub_0_r, Z.add_0_r. do 2 f_equal. apply set_eq. intros x. rewrite !elem_pending, Hfr. setoid_rewrite lookup_delete_Some. split.
      * intros (y & [_ Hy] & Hyw). by exists y.
      * intros (y & Hy & Hyw). exists y. split_and!; [congruence|done|done].
Qed.

(** wakes are conserved.  Along every interleaving, the wakes that [futex_wake] has
    counted are exactly the waits that returned after being woken plus the threads woken and
    still on their way out; and a wait that a wake reached returns 0, even when a signal or the
    timeout made the thread runnable first, so an interrupted wait never swallows a wake. *)
Theorem futex_wakes_conserved w tr s :
  run (futex_init w) tr s ->
  total given tr = total taken tr + Z.of_nat (size (pending s))
  /\ forall s0 t sig r, (s0, Leave t sig, r) ∈ tr -> was_woken s0 t = true -> r = Some 0.
Proof.
  intros Hr. assert (pending (futex_init w) = ∅) as Hp.
  { apply set_eq. intros t. rewrite elem_pending. cbn. rewrite lookup_empty. set_solver. }
  assert (Z.of_nat (size (pending s)) = Z.of_nat (size (pending (futex_init w))) + total given tr - total taken tr
    /\ forall s0 t sig r, (s0, Leave t sig, r) ∈ tr -> was_woken s0 t = true -> r = Some 0) as [H1 H2].
  2: { rewrite Hp, size_empty in H1. split; [lia|done]. }
  assert (futex_inv (futex_init w)) as I by apply futex_init_inv. clear Hp. induction Hr as [s|s l r s1 tr s2 Hst Hrn IH].
  - split; [cbn; lia|]. intros ????. by intros ?%elem_of_nil.
  - destruct IH as [IH1 IH2]; [eauto using step_inv|]. split.
    + rewrite IH1, (step_conserves s l r s1 I Hst). unfold total, zsum. cbn [foldr]. lia.
    + intros s0 t sig r0 [E|Hin]%elem_of_cons Hw; [|eauto]. simplify_eq. destruct Hst as [(x & Hx & _) E]. cbn in E. rewrite Hx in E.
      destruct (leave_ok _ _ x (sleep_rc x sig) I Hx) as (s' & E' & _). rewrite E' in E. simplify_eq.
      unfold was_woken in Hw. rewrite Hx in Hw. cbn in Hw. unfold wait_result. by rewrite Hw.
Qed.

(** Two waiters of one word and one of another, then a store and a wake. *)
Definition demo_sleep : list label := [Enter 1 4096 7 None 0 0 false; Enter 2 4096 7 (Some (1, 0)) 10 20 false; Enter 3 8192 0 None 0 0 false; Store 4096 8].

Fixpoint run_all (ls : list label) (s : futex) : option (list (futex * label * option Z) * futex) :=
  match ls with
  | [] => Some ([], s)
  | l :: ls => match run_label l s with None => None | Some (r, s') => match run_all ls s' with None => None | Some (tr, s2) => Some ((s, l, r) :: tr, s2) end end
  end.

(** The labels of a run are enabled one after the other. *)
Fixpoint all_enabled (ls : list label) (s : futex) : Prop :=
  match ls with [] => True | l :: ls => enabled l s /\ match run_label l s with Some (_, s') => all_enabled ls s' | None => False end end.

Lemma run_all_ok ls : forall s tr s', all_enabled ls s -> run_all ls s = Some (tr, s') -> run s tr s'.
Proof.
  induction ls as [|l ls IH]; intros s tr s' He H; cbn in *; [simplify_eq; constructor|].
  destruct He as [He Hes]. destruct (run_label l s) as [[r s1]|] eqn:E; [|done]. destruct (run_all ls s1) as [[tr1 s2]|] eqn:E1; [|done].
  simplify_eq. econstructor; [by econstructor|eauto].
Qed.

Definition demo_words : gmap Z Z := {[ 4096 := 7 ]}.
Definition demo_state : futex := match run_all demo_sleep (futex_init demo_words) with Some (_, s) => s | None => futex_init demo_words end.
Definition demo_trace : list (futex * label * option Z) := match run_all demo_sleep (futex_init demo_words) with Some (tr, _) => tr | None => [] end.

Lemma demo_run : run (futex_init demo_words) demo_trace demo_state.
Proof.
  apply (run_all_ok demo_sleep); [|vm_compute; reflexivity].
  repeat (split; [first [exact Logic.I | split; [vm_compute; reflexivity|vm_compute; reflexivity]]|]). exact Logic.I.
Qed.

Lemma futex_lists_live_witness : exists r s', run_label (Wake 4096 1) demo_state = Some (r, s').
Proof. apply (futex_lists_live demo_words demo_trace demo_state (Wake 4096 1) demo_run). cbn. lia. Defined.

Lemma futex_wake_spec_witness : exists s', futex_wake 4096 1 demo_state = Some (1, s') /\ waiters s' 4096 = [1] /\ waiters s' 8192 = [3].
Proof.
  destruct (futex_wake_spec demo_words demo_trace demo_state 4096 1 demo_run) as (s' & E & _ & H1 & H2 & _); [lia|lia|].
  exists s'. rewrite E, H1, (H2 8192) by lia. vm_compute. split_and!; reflexivity.
Defined.

(** After the wake a third thread comes with the old value. *)
Definition demo_woken : futex := match run_label (Wake 4096 2) demo_state with Some (_, s) => s | None => demo_state end.
Definition demo_late : list label := [Enter 4 4096 7 None 30 30 false; Signal 3; Leave 2 true].
Definition demo_later : list (futex * label * option Z) * futex := match run_all demo_late demo_woken with Some r => r | None => ([], demo_woken) end.

Lemma futex_race_closed_witness : exists x, frames demo_later.2 !! 1 = Some x /\ key x = 4096 /\ val x = 7 /\ queued x = false.
Proof.
  eexists. split; [vm_compute; reflexivity|]. split; [reflexivity|]. split; [reflexivity|].
  refine (futex_race_closed demo_words demo_trace demo_state 4096 7 2 demo_woken demo_later.1 demo_later.2 (Some 2) demo_run _ _ _ _ _ _ 1 _ _ _ _).
  - vm_compute. discriminate.
  - vm_compute. discriminate.
  - split; [cbn; lia|vm_compute; reflexivity].
  - discriminate.
  - apply (run_all_ok demo_late); [|vm_compute; reflexivity]. split; [split; vm_compute; reflexivity|]. split; [eexists; vm_compute; split; reflexivity|].
    split; [eexists; vm_compute; split; reflexivity|exact Logic.I].
  - vm_compute. repeat constructor; discriminate.
  - vm_compute. reflexivity.
  - reflexivity.
  - reflexivity.
Defined.

(** A timer that comes before the wake, and the wait that returns 0 all the same. *)
Definition demo_expired : list label := [Enter 2 4096 7 (Some (1, 0)) 10 20 false; Expire 2; Wake 4096 1; Leave 2 true].
Definition demo_run2 : list (futex * label * option Z) * futex :=
  match run_all demo_expired (futex_init demo_words) with Some r => r | None => ([], futex_init demo_words) end.

Lemma futex_wakes_conserved_witness : total given demo_run2.1 = 1 /\ total taken demo_run2.1 = 1 /\ last (snd <$> demo_run2.1) = Some (Some 0).
Proof.
  destruct (futex_wakes_conserved demo_words demo_run2.1 demo_run2.2) as [H _].
  { apply (run_all_ok demo_expired); [|vm_compute; reflexivity]. split; [split; vm_compute; reflexivity|].
    split; [eexists; vm_compute; split; [reflexivity|split; reflexivity]|]. split; [cbn; lia|]. split; [eexists; vm_compute; split; reflexivity|exact Logic.I]. }
  assert (total given demo_run2.1 = 1) as E by (vm_compute; reflexivity). assert (size (pending demo_run2.2) = O) as P by (vm_compute; reflexivity).
  rewrite E, P in H. split_and!; [exact E|lia|vm_compute; reflexivity].
Defined.
