(* ===== verification/Crc32.v ===== *)
(** * CRC-32 (kernel/lib/crc32.c)

    The table-driven loop against bit-by-bit division by the polynomial, continuation of a
    checksum over a split buffer, and the errors the checksum of a GPT cannot miss. *)

From stdpp Require Import base numbers list.
From S2P Require Import Prelude.

Abbreviation POLY := 0xEDB88320.

(** The inner loop of [build]: one step, and [k] of them. *)
Definition crc_step (c : Z) : Z := if ctrue (Z.land c 1) then Z.lxor POLY (Z.shiftr c 1) else Z.shiftr c 1.
Fixpoint crc_steps (k : nat) (c : Z) : Z := match k with O => c | S k => crc_steps k (crc_step c) end.

Definition build : list Z := (fun i => crc_steps 8 (Z.of_nat i)) <$> seq 0 256.

Definition lnot32 (c : Z) : Z := u32 (Z.lnot c).

(** One byte of the loop of [crc32]. *)
Definition crc_byte (c p : Z) : Z := Z.lxor (nth (Z.to_nat (Z.land (Z.lxor c p) 0xFF)) build 0) (Z.shiftr c 8).
Definition crc_loop (c : Z) (buf : list Z) : Z := foldl crc_byte c buf.
Definition crc32 (crc : Z) (buf : list Z) : Z := lnot32 (crc_loop (lnot32 crc) buf).

(** The reference: a byte is eight division steps of the register it was added to. *)
Definition ref_byte (c p : Z) : Z := crc_steps 8 (Z.lxor c p).
Definition ref_crc32 (crc : Z) (buf : list Z) : Z := lnot32 (foldl ref_byte (lnot32 crc) buf).

Definition byte (p : Z) : Prop := 0 <= p < 256.
Definition word32 (c : Z) : Prop := 0 <= c < W32.

(** ** The step is linear and loses nothing *)

Lemma land1_odd c : ctrue (Z.land c 1) = Z.odd c.
Proof. change 1 with (2 ^ 1 - 1). rewrite land_low by lia. change (2 ^ 1) with 2. rewrite Zmod_odd. by destruct (Z.odd c). Qed.

Lemma crc_step_lxor a b : crc_step (Z.lxor a b) = Z.lxor (crc_step a) (crc_step b).
Proof.
  unfold crc_step. rewrite !land1_odd, <- !Z.bit0_odd, Z.lxor_spec, Z.shiftr_lxor.
  destruct (Z.testbit a 0), (Z.testbit b 0); cbn [xorb]; apply Z.bits_inj'; intros n Hn; rewrite !Z.lxor_spec;
    destruct (Z.testbit POLY n), (Z.testbit (Z.shiftr a 1) n), (Z.testbit (Z.shiftr b 1) n); reflexivity.
Qed.

Lemma crc_steps_lxor k a b : crc_steps k (Z.lxor a b) = Z.lxor (crc_steps k a) (crc_steps k b).
Proof. induction k as [|k IH] in a, b |- *; [done|]. cbn [crc_steps]. by rewrite crc_step_lxor, IH. Qed.

Lemma crc_step_double x : crc_step (2 * x) = x.
Proof.
  unfold crc_step. rewrite land1_odd, Z.odd_mul, andb_false_l. rewrite Z.shiftr_div_pow2, Z.mul_comm by lia. apply Z.div_mul. lia.
Qed.

Lemma crc_steps_shift k x : crc_steps k (x * 2 ^ Z.of_nat k) = x.
Proof.
  induction k as [|k IH] in x |- *; [cbn; lia|]. cbn [crc_steps].
  rewrite Nat2Z.inj_succ, Z.pow_succ_r by lia. replace (x * (2 * 2 ^ Z.of_nat k)) with (2 * (x * 2 ^ Z.of_nat k)) by ring.
  rewrite crc_step_double. apply IH.
Qed.

Lemma word32_lxor a b : word32 a -> word32 b -> word32 (Z.lxor a b).
Proof.
  unfold word32. intros Ha Hb. change W32 with (2 ^ 32) in *. assert (0 <= Z.lxor a b) by (apply Z.lxor_nonneg; lia). split; [done|].
  destruct (decide (Z.lxor a b = 0)) as [->|]; [done|]. apply Z.log2_lt_pow2; [lia|]. pose proof (Z.log2_lxor a b ltac:(lia) ltac:(lia)).
  assert (forall z, 0 <= z < 2 ^ 32 -> Z.log2 z < 32) as Hl.
  { intros z Hz. destruct (decide (z = 0)) as [->|]; [done|]. apply Z.log2_lt_pow2; lia. }
  pose proof (Hl a Ha). pose proof (Hl b Hb). lia.
Qed.

Lemma shiftr_half c : word32 c -> 0 <= Z.shiftr c 1 < 2 ^ 31.
Proof. unfold word32. intros. rewrite Z.shiftr_div_pow2 by lia. change (2 ^ 1) with 2. change (2 ^ 31) with 2147483648. dlia. Qed.

Lemma crc_step_word c : word32 c -> word32 (crc_step c).
Proof.
  intros Hc. pose proof (shiftr_half c Hc). change (2 ^ 31) with 2147483648 in *. unfold crc_step. destruct (ctrue _); [|unfold word32; lia].
  apply word32_lxor; unfold word32; lia.
Qed.

(** The top bit of the result tells which way the step went. *)
Lemma crc_step_top c : word32 c -> Z.testbit (crc_step c) 31 = Z.odd c.
Proof.
  intros Hc. pose proof (shiftr_half c Hc). unfold crc_step. rewrite land1_odd.
  assert (Z.testbit (Z.shiftr c 1) 31 = false) as Hb by (apply Z.bits_above_log2; [lia|]; destruct (decide (Z.shiftr c 1 = 0)) as [->|]; [done|apply Z.log2_lt_pow2; lia]).
  destruct (Z.odd c); [rewrite Z.lxor_spec|]; by rewrite Hb.
Qed.

Lemma crc_step_inj a b : word32 a -> word32 b -> crc_step a = crc_step b -> a = b.
Proof.
  intros Ha Hb E. assert (Z.odd a = Z.odd b) as Ho by (rewrite <- !crc_step_top, E; done).
  unfold crc_step in E. rewrite !land1_odd, Ho in E. assert (Z.shiftr a 1 = Z.shiftr b 1) as Es.
  { destruct (Z.odd b); [|done]. apply (f_equal (Z.lxor POLY)) in E. by rewrite <- !Z.lxor_assoc, Z.lxor_nilpotent, !Z.lxor_0_l in E. }
  rewrite !Z.shiftr_div_pow2 in Es by lia. change (2 ^ 1) with 2 in Es. rewrite (Z.div_mod a 2), (Z.div_mod b 2), Es, !Zmod_odd, Ho by lia. done.
Qed.

Lemma crc_steps_word k c : word32 c -> word32 (crc_steps k c).
Proof. induction k as [|k IH] in c |- *; [done|]. intros. by apply IH, crc_step_word. Qed.

Lemma crc_steps_inj k a b : word32 a -> word32 b -> crc_steps k a = crc_steps k b -> a = b.
Proof.
  induction k as [|k IH] in a, b |- *; [done|]. intros Ha Hb E%IH; try by apply crc_step_word. by apply crc_step_inj.
Qed.

(** ** The table *)

Lemma build_nth i : 0 <= i < 256 -> nth (Z.to_nat i) build 0 = crc_steps 8 i.
Proof.
  intros. unfold build. rewrite nth_lookup, list_lookup_fmap, lookup_seq_lt by lia. change (crc_steps 8 (Z.of_nat (0 + Z.to_nat i)) = crc_steps 8 i). f_equal. lia.
Qed.

Lemma split_byte x : 0 <= x -> Z.lxor (Z.land x 0xFF) (Z.shiftr x 8 * 2 ^ 8) = x.
Proof.
  intros. change 0xFF with (2 ^ 8 - 1). rewrite land_low, <- Z.shiftl_mul_pow2 by lia. apply Z.bits_inj'. intros n Hn.
  rewrite Z.lxor_spec, Z.shiftl_spec by lia. destruct (Z.lt_ge_cases n 8).
  - rewrite Z.mod_pow2_bits_low, (Z.testbit_neg_r _ (n - 8)), xorb_false_r by lia. done.
  - rewrite Z.mod_pow2_bits_high, xorb_false_l, Z.shiftr_spec by lia. f_equal. lia.
Qed.

Lemma crc_byte_ref c p : word32 c -> byte p -> crc_byte c p = ref_byte c p.
Proof.
  unfold word32, byte. intros Hc Hp. unfold crc_byte, ref_byte. assert (0 <= Z.lxor c p) by (apply Z.lxor_nonneg; lia).
  assert (0 <= Z.land (Z.lxor c p) 0xFF < 256) by (change 0xFF with (2 ^ 8 - 1); rewrite land_low by lia; change (2 ^ 8) with 256; dlia).
  rewrite build_nth by done. rewrite <- (split_byte (Z.lxor c p)) at 2 by done. rewrite crc_steps_lxor. f_equal.
  rewrite (crc_steps_shift 8), Z.shiftr_lxor. rewrite (Z.shiftr_div_pow2 p), Z.div_small by (change (2 ^ 8) with 256; lia). by rewrite Z.lxor_0_r.
Qed.

Lemma ref_byte_word c p : word32 c -> byte p -> word32 (ref_byte c p).
Proof. unfold byte. intros. apply crc_steps_word, word32_lxor; [done|]. unfold word32. lia. Qed.

Lemma lnot32_word c : word32 (lnot32 c).
Proof. apply u32_range. Qed.

Lemma lnot32_twice c : word32 c -> lnot32 (lnot32 c) = c.
Proof. unfold word32, lnot32, u32, Z.lnot. dlia. Qed.

Lemma loop_ref buf c : word32 c -> Forall byte buf -> crc_loop c buf = foldl ref_byte c buf.
Proof.
  unfold crc_loop. induction buf as [|p buf IH] in c |- *; [done|]. intros Hc [Hp Hb]%Forall_cons. cbn [foldl]. rewrite crc_byte_ref by done.
  apply IH; [by apply ref_byte_word|done].
Qed.

Lemma ref_word buf c : word32 c -> Forall byte buf -> word32 (foldl ref_byte c buf).
Proof. induction buf as [|p buf IH] in c |- *; [done|]. intros Hc [Hp Hb]%Forall_cons. apply IH; [by apply ref_byte_word|done]. Qed.

(** the table-driven checksum is division by the polynomial, one bit at a time; and a
    checksum continued from the result of a first part is the checksum of the whole. *)
Theorem crc32_spec crc a b :
  word32 crc -> Forall byte a -> Forall byte b ->
  crc32 crc (a ++ b) = ref_crc32 crc (a ++ b) /\ crc32 (crc32 crc a) b = crc32 crc (a ++ b).
Proof.
  intros Hc Ha Hb. pose proof (lnot32_word crc). unfold crc32, ref_crc32. split.
  - by rewrite loop_ref by (done || by apply Forall_app).
  - rewrite lnot32_twice by (rewrite loop_ref by done; by apply ref_word). unfold crc_loop. by rewrite foldl_app.
Qed.

Lemma crc32_spec_witness :
  crc32 0 [49; 50; 51; 52; 53; 54; 55; 56; 57] = ref_crc32 0 [49; 50; 51; 52; 53; 54; 55; 56; 57]
  /\ ref_crc32 0 [49; 50; 51; 52; 53; 54; 55; 56; 57] = 0xCBF43926.
Proof.
  split; [|vm_compute; reflexivity].
  apply (crc32_spec 0 [49; 50; 51; 52] [53; 54; 55; 56; 57]); [unfold word32; lia|repeat constructor; unfold byte; lia..].
Defined.

(** ** Errors it detects *)

Fixpoint le_word (l : list Z) : Z := match l with [] => 0 | p :: l => p + 256 * le_word l end.

Lemma byte_lxor p x : byte p -> 0 <= x -> Z.lxor p (x * 2 ^ 8) = p + 256 * x.
Proof.
  unfold byte. intros Hp Hx. rewrite <- (split_byte (p + 256 * x)) by lia. f_equal.
  - change 0xFF with (2 ^ 8 - 1). rewrite land_low by lia. change (2 ^ 8) with 256. dlia.
  - rewrite Z.shiftr_div_pow2 by lia. change (2 ^ 8) with 256. dlia.
Qed.

Lemma le_word_range l : Forall byte l -> 0 <= le_word l < 256 ^ Z.of_nat (length l).
Proof.
  induction 1 as [|p l Hp Hl IH]; [cbn; lia|]. cbn [le_word length]. rewrite Nat2Z.inj_succ, Z.pow_succ_r by lia. unfold byte in Hp. lia.
Qed.

Lemma le_word_inj l k : length l = length k -> Forall byte l -> Forall byte k -> le_word l = le_word k -> l = k.
Proof.
  revert k. induction l as [|p l IH]; intros [|q k] Hlen Hl Hk E; try discriminate; [done|].
  apply Forall_cons in Hl as [Hp Hl], Hk as [Hq Hk]. cbn [le_word] in E. unfold byte in *. assert (p = q /\ le_word l = le_word k) as [-> E'] by lia.
  f_equal. apply IH; [by injection Hlen|done..].
Qed.

(** Absorbing bytes is one addition followed by the division steps. *)
Lemma ref_absorb l c : Forall byte l -> foldl ref_byte c l = crc_steps (8 * length l) (Z.lxor c (le_word l)).
Proof.
  intros Hl. revert c. induction Hl as [|p l Hp Hl IH]; intros c; [cbn; by rewrite Z.lxor_0_r|]. cbn [foldl le_word length]. rewrite IH.
  assert (forall n m x, crc_steps (n + m) x = crc_steps m (crc_steps n x)) as Hadd by (intros n; induction n as [|n IHn]; intros m x; [done|apply IHn]).
  replace (8 * S (length l))%nat with (8 + 8 * length l)%nat by lia. rewrite Hadd. f_equal. unfold ref_byte.
  rewrite <- byte_lxor by (done || apply le_word_range; done).
  rewrite <- (crc_steps_shift 8 (le_word l)) at 1. by rewrite <- Z.lxor_assoc, <- crc_steps_lxor.
Qed.

Lemma ref_inj l a b : word32 a -> word32 b -> Forall byte l -> foldl ref_byte a l = foldl ref_byte b l -> a = b.
Proof.
  intros Ha Hb Hl. revert a b Ha Hb. induction Hl as [|p l Hp Hl IH]; intros a b Ha Hb E; [done|]. cbn [foldl] in E. apply IH in E; [|by apply ref_byte_word..].
  unfold ref_byte in E. apply crc_steps_inj in E; [|apply word32_lxor; [done|unfold word32, byte in *; lia]..].
  apply (f_equal (fun z => Z.lxor z p)) in E. by rewrite !Z.lxor_assoc, !Z.lxor_nilpotent, !Z.lxor_0_r in E.
Qed.

(** a change confined to four consecutive bytes always changes the checksum, so a header
    or an entry array damaged by such a burst is rejected. *)
Theorem crc32_detects_bursts crc pre x y post :
  word32 crc -> Forall byte (pre ++ x ++ post) -> Forall byte y -> length x = length y -> (length x <= 4)%nat ->
  crc32 crc (pre ++ x ++ post) = crc32 crc (pre ++ y ++ post) -> x = y.
Proof.
  intros Hc [Hpre [Hx Hpost]%Forall_app]%Forall_app Hy Hlen H4 E. pose proof (lnot32_word crc) as Hl.
  assert (forall z, word32 z -> z = lnot32 (lnot32 z)) as Hn by (intros; by rewrite lnot32_twice).
  unfold crc32 in E. rewrite !loop_ref in E by (done || by repeat (apply Forall_app; split)).
  apply (f_equal lnot32) in E. rewrite <- !Hn in E by (apply ref_word; [done|by repeat (apply Forall_app; split)]).
  rewrite !foldl_app in E. set (c := foldl ref_byte (lnot32 crc) pre) in *. assert (word32 c) as Hcw by by apply ref_word.
  apply ref_inj in E; [|by apply ref_word..|done]. rewrite !ref_absorb, Hlen in E by done.
  assert (forall l, Forall byte l -> (length l <= 4)%nat -> word32 (le_word l)) as Hw.
  { intros l Hb H. pose proof (le_word_range l Hb). split; [lia|]. eapply Z.lt_le_trans; [apply H0|]. change W32 with (256 ^ 4). apply Z.pow_le_mono_r; lia. }
  apply crc_steps_inj in E; [|apply word32_lxor; [done|apply Hw; [done|lia]]..]. apply le_word_inj; [done..|].
  apply (f_equal (Z.lxor c)) in E. by rewrite <- !Z.lxor_assoc, Z.lxor_nilpotent, !Z.lxor_0_l in E.
Qed.

Lemma crc32_detects_bursts_witness : (crc32 0 ([1; 2] ++ [3; 4; 5; 6] ++ [7]) =? crc32 0 ([1; 2] ++ [3; 4; 5; 7] ++ [7])) = false.
Proof.
  apply Z.eqb_neq. intros E. apply (crc32_detects_bursts 0 [1; 2] [3; 4; 5; 6] [3; 4; 5; 7] [7]) in E; [discriminate|unfold word32; lia|..|done|cbn; lia];
    repeat constructor; unfold byte; lia.
Defined.
