(* ===== verification/Block.v ===== *)
(** * Block devices and partition tables (kernel/block/blockdev.c, blockdev.h, part.c)

    A whole disk is named by the address of its driver's record, a partition by its index in
    [part_pool].  The transfers of a driver are a parameter: a function from the disk, the
    range and the buffer to a return code and the buffer afterwards.  Buffers are functions
    from offsets to bytes; [log] records every transfer asked of a driver with the size of the
    buffer it goes to.  Names are lists of characters without the final NUL. *)

From stdpp Require Import base numbers list gmap.
From S2P Require Import Prelude Crc32.

Definition EEXIST := 17.
Abbreviation ENOSPC := 28.
Definition EROFS := 30.
Definition ENAMETOOLONG := 36.
Definition BLOCKDEV_MAX : nat := 32.
Abbreviation BLOCKDEV_NAME_MAX := 16.
Abbreviation BLOCKDEV_HIDDEN := 1.
Abbreviation BLOCKDEV_RO := 2.
Abbreviation BLOCKDEV_NOPART := 4.

Inductive dev := Disk (a : Z) | Part (i : nat).
#[global] Instance dev_eq_dec : EqDecision dev.
Proof. solve_decision. Defined.

Record blockdev := Blockdev {
  name : list Z;
  sector_size : Z;
  sector_count : Z;
  parent : option Z;
  start_lba : Z;
  major : Z;
  minor : Z;
  part_type : list Z;
  part_uuid : list Z;
  flags : Z;
  partno : Z;
  claims : Z;
}.
Definition no_dev : blockdev := Blockdev [] 0 0 None 0 0 0 [] [] 0 0 0.

(** What the code does outside the registry: device nodes made and removed, cache dropped. *)
Inductive event := MakeNode (n : list Z) (devno : Z) | DropNode (n : list Z) | Invalidate (d : Z).

Record registry := Registry {
  disks : gmap Z blockdev;
  part_pool : list blockdev;
  part_used : list bool;
  table : list (option dev);
  blkext_next_minor : Z;
  events : list event;
}.

Definition blockdev_init (m : gmap Z blockdev) : registry :=
  Registry m (replicate BLOCKDEV_MAX no_dev) (replicate BLOCKDEV_MAX false) (replicate BLOCKDEV_MAX None) 0 [].

Definition get (s : registry) (d : dev) : blockdev :=
  match d with Disk a => default no_dev (disks s !! a) | Part i => nth i (part_pool s) no_dev end.
Definition put (d : dev) (b : blockdev) (s : registry) : registry :=
  match d with
  | Disk a => Registry (<[a := b]> (disks s)) (part_pool s) (part_used s) (table s) (blkext_next_minor s) (events s)
  | Part i => Registry (disks s) (<[i := b]> (part_pool s)) (part_used s) (table s) (blkext_next_minor s) (events s)
  end.
Definition set_table (t : list (option dev)) (s : registry) : registry := Registry (disks s) (part_pool s) (part_used s) t (blkext_next_minor s) (events s).
Definition set_used (u : list bool) (s : registry) : registry := Registry (disks s) (part_pool s) u (table s) (blkext_next_minor s) (events s).
Definition set_next_minor (n : Z) (s : registry) : registry := Registry (disks s) (part_pool s) (part_used s) (table s) n (events s).
Definition emit (es : list event) (s : registry) : registry := Registry (disks s) (part_pool s) (part_used s) (table s) (blkext_next_minor s) (events s ++ es).
Definition flag (b : blockdev) (m : Z) : bool := ctrue (Z.land (flags b) m).
Definition with_numbers (mj mn : Z) (b : blockdev) : blockdev :=
  Blockdev (name b) (sector_size b) (sector_count b) (parent b) (start_lba b) mj mn (part_type b) (part_uuid b) (flags b) (partno b) (claims b).
Definition with_claims (c : Z) (b : blockdev) : blockdev :=
  Blockdev (name b) (sector_size b) (sector_count b) (parent b) (start_lba b) (major b) (minor b) (part_type b) (part_uuid b) (flags b) (partno b) c.
Definition as_whole (b : blockdev) : blockdev :=
  Blockdev (name b) (sector_size b) (sector_count b) None 0 (major b) (minor b) (part_type b) (part_uuid b) (flags b) 0 (claims b).

(** ** The registry *)

Definition blockdev_makedev (mj mn : Z) : Z :=
  Z.lor (Z.lor (u64 (Z.shiftl (Z.land mj 0xfffff000) 32)) (Z.shiftl (Z.land mj 0xfff) 8))
        (Z.lor (u64 (Z.shiftl (Z.land mn 0xffffff00) 12)) (Z.land mn 0xff)).

Definition name_eq (a b : list Z) : bool := bool_decide (a = b).
Definition name_len (n : list Z) : Z := Z.of_nat (length n).
Definition ch (n : list Z) (i : nat) : Z := nth i n 0.

(** The first slot from [l] on whose device has the name. *)
Fixpoint find_loop (s : registry) (l : list (option dev)) (n : list Z) : option dev :=
  match l with
  | [] => None
  | Some d :: l => if name_eq (name (get s d)) n then Some d else find_loop s l n
  | None :: l => find_loop s l n
  end.
Definition find_locked (s : registry) (n : list Z) : option dev := find_loop s (table s) n.

Fixpoint free_slot (l : list (option dev)) (i : nat) : option nat :=
  match l with [] => None | None :: _ => Some i | Some _ :: l => free_slot l (S i) end.

Definition insert_locked (d : dev) (s : registry) : Z * registry :=
  match find_locked s (name (get s d)) with
  | Some _ => (- EEXIST, s)
  | None =>
    match free_slot (table s) O with
    | Some i => (Z.of_nat i, set_table (<[i := Some d]> (table s)) s)
    | None => (- ENOSPC, s)
    end
  end.

Definition publish (d : dev) (s : registry) : registry :=
  let b := get s d in
  if flag b BLOCKDEV_HIDDEN then s else emit [MakeNode (name b) (blockdev_makedev (major b) (minor b))] s.

Definition is_sr_name (n : list Z) : bool :=
  (ch n 0 =? 115) && (ch n 1 =? 114) && (48 <=? ch n 2) && (ch n 2 <=? 57) && (ch n 3 =? 0).

Definition numbering_locked (n : list Z) (s : registry) : Z * Z * registry :=
  if (ch n 0 =? 115) && (ch n 1 =? 100) && (name_len n =? 3) then (8, u32 (u32 (ch n 2 - 97) * 16), s)
  else if is_sr_name n then (11, u32 (ch n 2 - 48), s)
  else (259, blkext_next_minor s, set_next_minor (u32 (blkext_next_minor s + 1)) s).

Definition blockdev_major_minor_for (n : list Z) (s : registry) : Z * Z * registry :=
  let saved := blkext_next_minor s in
  let '(mj, mn, s) := numbering_locked n s in
  (mj, mn, set_next_minor saved s).

(** The decimal digits of a partition number, last one first. *)
Fixpoint digits (fuel : nat) (v : Z) : list Z :=
  match fuel with O => [] | S fuel => (48 + v mod 10) :: (if v / 10 =? 0 then [] else digits fuel (v / 10)) end.

Definition part_name (disk : list Z) (no : Z) : option (list Z) :=
  let n := name_len disk in
  let base := if (0 <? n) && (48 <=? ch disk (Z.to_nat (n - 1))) && (ch disk (Z.to_nat (n - 1)) <=? 57) then disk ++ [112] else disk in
  let num := digits 10 no in
  if BLOCKDEV_NAME_MAX <=? Z.of_nat (length base) + Z.of_nat (length num) then None else Some (base ++ reverse num).

Fixpoint free_part (l : list bool) (i : nat) : option nat :=
  match l with [] => None | false :: _ => Some i | true :: l => free_part l (S i) end.

Definition blockdev_register_part (disk : Z) (no start count : Z) (type uuid : list Z) (s : registry) : Z * registry :=
  let d := get s (Disk disk) in
  if (no =? 0) || (count =? 0) || (sector_count d <=? start) || (sector_count d - start <? count) then (- EINVAL, s)
  else
    match part_name (name d) no with
    | None => (- ENAMETOOLONG, s)
    | Some nm =>
      match free_part (part_used s) O with
      | None => (- ENOSPC, s)
      | Some pi =>
        let p := Blockdev nm (sector_size d) count (Some disk) start 0 0 type uuid (flags d) no 0 in
        let s := put (Part pi) p s in
        let '(slot, s) := insert_locked (Part pi) s in
        if slot <? 0 then (slot, s)
        else
          let s := set_used (<[pi := true]> (part_used s)) s in
          let s :=
            if flag p BLOCKDEV_HIDDEN then put (Part pi) (with_numbers 0 0 p) s
            else if (major d =? 8) && (no <? 16) then put (Part pi) (with_numbers 8 (u32 (minor d + no)) p) s
            else set_next_minor (u32 (blkext_next_minor s + 1)) (put (Part pi) (with_numbers 259 (blkext_next_minor s) p) s) in
          (0, publish (Part pi) s)
      end
    end.

(** The slots of a disk that goes away, and the names whose nodes it had. *)
Definition belongs (s : registry) (disk : Z) (e : dev) : bool := bool_decide (e = Disk disk) || bool_decide (parent (get s e) = Some disk).
Definition gone (s : registry) (disk : Z) (x : option dev) : bool := match x with Some e => belongs s disk e | None => false end.
Definition gone_names (s : registry) (disk : Z) : list (list Z) :=
  omap (fun x => match x with
                 | Some e => if belongs s disk e && negb (flag (get s e) BLOCKDEV_HIDDEN) then Some (name (get s e)) else None
                 | None => None end) (table s).
Definition drop_used (s : registry) (disk : Z) (u : list bool) : list bool :=
  foldl (fun u x => match x with Some (Part i) => if belongs s disk (Part i) then <[i := false]> u else u | _ => u end) u (table s).

Definition blockdev_unregister_disk (disk : Z) (s : registry) : registry :=
  let s := emit [Invalidate disk] s in
  let names := gone_names s disk in
  let t := (fun x => if gone s disk x then None else x) <$> table s in
  emit (DropNode <$> names) (set_table t (set_used (drop_used s disk (part_used s)) s)).

(** [prefix] is "sd" or "sr": the first letter or digit that is not taken. *)
Fixpoint alloc_loop (s : registry) (prefix : list Z) (n : nat) (c : Z) : option (list Z) :=
  match n with
  | O => None
  | S n => let cand := prefix ++ [c] in match find_locked s cand with None => Some cand | Some _ => alloc_loop s prefix n (c + 1) end
  end.
Definition blockdev_alloc_name (prefix : list Z) (s : registry) : Z + list Z :=
  if name_eq prefix [115; 100] then match alloc_loop s prefix 26 97 with Some n => inr n | None => inl (- ENOSPC) end
  else if name_eq prefix [115; 114] then match alloc_loop s prefix 10 48 with Some n => inr n | None => inl (- ENOSPC) end
  else inl (- EINVAL).

Definition blockdev_find (s : registry) (n : list Z) : option dev := find_locked s n.
Definition blockdev_find_path (s : registry) (path : list Z) : option dev :=
  blockdev_find s (if name_eq (take 5 path) [47; 100; 101; 118; 47] then drop 5 path else path).

Definition blockdev_whole (s : registry) (d : dev) : dev := match parent (get s d) with Some a => Disk a | None => d end.
Definition blockdev_disk_lba (s : registry) (d : dev) (lba : Z) : Z := u64 (start_lba (get s d) + lba).

Definition blockdev_claim (d : dev) (s : registry) : registry := put d (with_claims (u32 (claims (get s d) + 1)) (get s d)) s.
Definition blockdev_release (d : dev) (s : registry) : registry :=
  if ctrue (claims (get s d)) then put d (with_claims (claims (get s d) - 1) (get s d)) s else s.

Definition claims_against (s : registry) (d e : dev) : bool :=
  ctrue (claims (get s e))
  && (bool_decide (e = d) || (bool_decide (blockdev_whole s e = blockdev_whole s d) && (bool_decide (e = blockdev_whole s d) || bool_decide (d = blockdev_whole s d)))).
Definition blockdev_busy (s : registry) (d : dev) : bool :=
  existsb (fun x => match x with Some e => claims_against s d e | None => false end) (table s).

(** ** Transfers *)

Definition in_range (b : blockdev) (lba count : Z) : bool := (lba <? sector_count b) && (count <=? sector_count b - lba).

(** What a bounds-checked transfer asks of a driver: an error or a range of a whole disk. *)
Inductive request := Fails (rc : Z) | Nothing | Transfer (disk lba count : Z).

Definition disk_request (s : registry) (a lba count : Z) (wr : bool) : request :=
  let b := get s (Disk a) in
  if wr && flag b BLOCKDEV_RO then Fails (- EROFS)
  else if count =? 0 then Nothing
  else if negb (in_range b lba count) then Fails (- EIO)
  else Transfer a lba count.

Definition blockdev_request (s : registry) (d : dev) (lba count : Z) (wr : bool) : request :=
  match parent (get s d) with
  | None => match d with Disk a => disk_request s a lba count wr | Part _ => Fails (- EIO) end
  | Some a =>
    let b := get s d in
    if wr && flag b BLOCKDEV_RO then Fails (- EROFS)
    else if count =? 0 then Nothing
    else if negb (in_range b lba count) then Fails (- EIO)
    else disk_request s a (u64 (start_lba b + lba)) count wr
  end.

(** ** Partition tables *)

Abbreviation GPT_MAX_ENTRIES := 128.
Abbreviation GPT_ENTRY_SIZE := 128.
Definition buffer : Type := Z -> Z.

Definition get32 (p : buffer) (o : Z) : Z :=
  Z.lor (Z.lor (p o) (Z.shiftl (p (o + 1)) 8)) (Z.lor (Z.shiftl (p (o + 2)) 16) (Z.shiftl (p (o + 3)) 24)).
Definition get64 (p : buffer) (o : Z) : Z := Z.lor (get32 p o) (Z.shiftl (get32 p (o + 4)) 32).
Definition slice (p : buffer) (o len : Z) : list Z := (fun i => p (o + Z.of_nat i)) <$> seq 0 (Z.to_nat len).

(** "EFI PART". *)
Definition gpt_sig : list Z := [69; 70; 73; 32; 80; 65; 82; 84].
Definition has_sig (p : buffer) : bool := bool_decide (slice p 0 8 = gpt_sig).

Record accepted := Accepted { a_first : Z; a_last : Z }.

Section Scan.
(** [drv_read disk lba count buf]: the driver's return code and the buffer afterwards. *)
Variable drv_read : Z -> Z -> Z -> buffer -> Z * buffer.
Variable disk : Z.

(** The registry, the sector buffer, the entry array and the transfers so far, each with the
    size of the buffer it filled. *)
Record scan := Scan { reg : registry; sec : buffer; ents : buffer; log : list (Z * Z * Z) }.
Definition dd (x : scan) : blockdev := get (reg x) (Disk disk).
Definition set_reg (r : registry) (x : scan) : scan := Scan r (sec x) (ents x) (log x).

Definition read_sec (lba : Z) (x : scan) : Z * scan :=
  match disk_request (reg x) disk lba 1 false with
  | Fails rc => (rc, x)
  | Nothing => (0, x)
  | Transfer a l c => let '(rc, b) := drv_read a l c (sec x) in (rc, Scan (reg x) b (ents x) (log x ++ [(l, c, 4096)]))
  end.
Definition read_ents (lba count : Z) (x : scan) : Z * scan :=
  match disk_request (reg x) disk lba count false with
  | Fails rc => (rc, x)
  | Nothing => (0, x)
  | Transfer a l c => let '(rc, b) := drv_read a l c (ents x) in (rc, Scan (reg x) (sec x) b (log x ++ [(l, c, 16384)]))
  end.

Definition overlaps (a l : Z) (e : accepted) : bool := (a <=? a_last e) && (a_first e <=? l).

Definition accept (acc : list accepted) (no a count : Z) (type uuid : list Z) (x : scan) : list accepted * scan :=
  if count =? 0 then (acc, x)
  else if (sector_count (dd x) <=? a) || (sector_count (dd x) - a <? count) then (acc, x)
  else
    let l := u64 (a + count - 1) in
    if existsb (overlaps a l) acc then (acc, x)
    else
      let '(rc, r) := blockdev_register_part disk no a count type uuid (reg x) in
      (if rc =? 0 then acc ++ [Accepted a l] else acc, set_reg r x).

(** The header bytes as the checksum sees them, its own field taken as zero. *)
Definition hdr_bytes (p : buffer) (len : Z) : list Z := slice (fun i => if (16 <=? i) && (i <? 20) then 0 else p i) 0 len.

(** The entry array of a header that passed its checks. *)
Definition gpt_load_entries (x : scan) : bool * scan :=
  let n := get32 (sec x) 80 in
  let esz := get32 (sec x) 84 in
  if negb (esz =? GPT_ENTRY_SIZE) || (n =? 0) || (GPT_MAX_ENTRIES <? n) then (false, x)
  else
    let ent_lba := get64 (sec x) 72 in
    let nbytes := u32 (n * esz) in
    let secs := u32 (nbytes + sector_size (dd x) - 1) / sector_size (dd x) in
    if (sector_count (dd x) <=? ent_lba) || (sector_count (dd x) - ent_lba <? secs) then (false, x)
    else
      let '(rc, x) := read_ents ent_lba secs x in
      if negb (rc =? 0) then (false, x) else (crc32 0 (slice (ents x) 0 nbytes) =? get32 (sec x) 88, x).

Definition gpt_load (lba : Z) (x : scan) : bool * scan :=
  if (lba =? 0) || (sector_count (dd x) <=? lba) then (false, x)
  else
    let '(rc, x) := read_sec lba x in
    if negb (rc =? 0) then (false, x)
    else if negb (has_sig (sec x)) then (false, x)
    else
      let hsize := get32 (sec x) 12 in
      if (hsize <? 92) || (sector_size (dd x) <? hsize) then (false, x)
      else if negb (crc32 0 (hdr_bytes (sec x) hsize) =? get32 (sec x) 16) then (false, x)
      else gpt_load_entries x.

Definition boot_sig (p : buffer) : bool := (p 510 =? 0x55) && (p 511 =? 0xAA).
Definition mbr_entry (i : Z) : Z := 446 + 16 * i.
Definition has_protective (p : buffer) : bool := existsb (fun i => p (mbr_entry i + 4) =? 0xEE) [0; 1; 2; 3].

Definition gpt_expected (x : scan) : bool * scan :=
  let '(rc, x) := read_sec 0 x in
  if (rc =? 0) && boot_sig (sec x) && has_protective (sec x) then (true, x)
  else
    let '(rc, x) := read_sec 1 x in
    ((rc =? 0) && has_sig (sec x), x).

(** The entries from the [i]th on, [n] of them. *)
Fixpoint gpt_entries (n : nat) (i : Z) (acc : list accepted) (x : scan) : scan :=
  match n with
  | O => x
  | S n =>
    let e := i * GPT_ENTRY_SIZE in
    if forallb (fun c => c =? 0) (slice (ents x) e 16) then gpt_entries n (i + 1) acc x
    else
      let a := get64 (ents x) (e + 32) in
      let l := get64 (ents x) (e + 40) in
      if l <? a then gpt_entries n (i + 1) acc x
      else
        let '(acc, x) := accept acc (i + 1) a (u64 (l - a + 1)) (slice (ents x) e 16) (slice (ents x) (e + 16) 16) x in
        gpt_entries n (i + 1) acc x
  end.

(** Where the backup is, when the primary did not load. *)
Definition backup_lba (x : scan) : Z :=
  let def := u64 (sector_count (dd x) - 1) in
  if (sec x 0 =? 69) && (sec x 1 =? 70) && (sec x 2 =? 73) then
    let alt := get64 (sec x) 32 in if (1 <? alt) && (alt <? sector_count (dd x)) then alt else def
  else def.

Definition scan_gpt (x : scan) : bool * scan :=
  let '(ok, x) := gpt_load 1 x in
  let '(ok, x) := if ok then (ok, x) else gpt_load (backup_lba x) x in
  if negb ok then (false, x) else (true, gpt_entries (Z.to_nat (get32 (sec x) 80)) 0 [] x).

Fixpoint mbr_entries (l : list Z) (acc : list accepted) (x : scan) : scan :=
  match l with
  | [] => x
  | i :: l =>
    let p := mbr_entry i in
    let type := sec x (p + 4) in
    if type =? 0 then mbr_entries l acc x
    else if (type =? 0x05) || (type =? 0x0F) || (type =? 0x85) then mbr_entries l acc x
    else
      let '(acc, x) := accept acc (i + 1) (get32 (sec x) (p + 8)) (get32 (sec x) (p + 12)) (type :: replicate 15 0) (replicate 16 0) x in
      mbr_entries l acc x
  end.

Definition scan_mbr (x : scan) : scan :=
  let '(rc, x) := read_sec 0 x in
  if negb (rc =? 0) then x
  else if negb (boot_sig (sec x)) then x
  else if existsb (fun i => negb (sec x (mbr_entry i) =? 0) && negb (sec x (mbr_entry i) =? 0x80)) [0; 1; 2; 3] then x
  else if has_protective (sec x) then x
  else mbr_entries [0; 1; 2; 3] [] x.

(** [mem]: both buffers were allocated; [x] carries whatever they hold. *)
Definition part_scan (mem : bool) (x : scan) : scan :=
  if negb mem then x
  else
    let '(ok, x) :=
      if 3 <=? sector_count (dd x) then
        let '(e, x) := gpt_expected x in if e then scan_gpt x else (false, x)
      else (false, x) in
    if ok then x else scan_mbr x.

Definition blockdev_register_disk (mem : bool) (sec0 ents0 : buffer) (s : registry) : Z * registry * list (Z * Z * Z) :=
  let '(slot, s) := insert_locked (Disk disk) s in
  if slot <? 0 then (slot, s, [])
  else
    let d := as_whole (get s (Disk disk)) in
    let s :=
      if flag d BLOCKDEV_HIDDEN then put (Disk disk) (with_numbers 0 0 d) s
      else let '(mj, mn, s) := numbering_locked (name d) s in put (Disk disk) (with_numbers mj mn d) s in
    let s := publish (Disk disk) s in
    if flag d BLOCKDEV_NOPART then (0, s, [])
    else let x := part_scan mem (Scan s sec0 ents0 []) in (0, reg x, log x).
End Scan.
