(* ===== verification/BlockProofs.v ===== *)
(** * Block devices: the registry's invariant and what partitions promise

    Whatever a disk holds, scanning it registers partitions that lie on the disk and do not
    overlap, so transfers through one partition never reach another; and the scan itself asks
    drivers only for ranges of the disk that fit the buffers it passes. *)

From stdpp Require Import base numbers list gmap.
From S2P Require Import Prelude Block.

Definition registered (s : registry) (d : dev) : Prop := Some d ∈ table s.
#[global] Instance registered_dec s d : Decision (registered s d).
Proof. unfold registered. apply _. Defined.

Definition part_last (b : blockdev) : Z := start_lba b + sector_count b - 1.
Definition disjoint (p q : blockdev) : Prop := part_last p < start_lba q \/ part_last q < start_lba p.

(** A partition record that lies on the disk at [a]. *)
Definition lies_on (s : registry) (a : Z) (b : blockdev) : Prop :=
  parent b = Some a /\ 0 <= start_lba b /\ 0 < sector_count b /\ start_lba b + sector_count b <= sector_count (get s (Disk a)).

Record reg_ok (s : registry) : Prop := {
  ro_pool : length (part_pool s) = BLOCKDEV_MAX;
  ro_used : length (part_used s) = BLOCKDEV_MAX;
  ro_names : forall i j d e, table s !! i = Some (Some d) -> table s !! j = Some (Some e) -> name (get s d) = name (get s e) -> i = j;
  ro_free : forall i, registered s (Part i) -> part_used s !! i = Some true;
  ro_disk : forall a, registered s (Disk a) -> parent (get s (Disk a)) = None /\ start_lba (get s (Disk a)) = 0;
  ro_part : forall i, registered s (Part i) -> exists a, registered s (Disk a) /\ lies_on s a (get s (Part i));
  ro_disjoint : forall i j, registered s (Part i) -> registered s (Part j) -> i <> j ->
    parent (get s (Part i)) = parent (get s (Part j)) -> disjoint (get s (Part i)) (get s (Part j));
  ro_sizes : forall a b, disks s !! a = Some b -> 0 <= sector_count b < W64;
}.

(** ** The table *)

Lemma find_loop_none s l n : find_loop s l n = None -> forall d, Some d ∈ l -> name (get s d) <> n.
Proof.
  induction l as [|[e|] l IH]; cbn [find_loop]; intros H d Hd; [by apply elem_of_nil in Hd|..]; apply elem_of_cons in Hd as [E|Hd].
  - simplify_eq. unfold name_eq in H. by case_bool_decide.
  - unfold name_eq in H. case_bool_decide; [done|]. by apply IH.
  - done.
  - by apply IH.
Qed.

Lemma free_slot_ok l : forall i k, free_slot l i = Some k -> exists j, k = (i + j)%nat /\ l !! j = Some None.
Proof.
  induction l as [|[d|] l IH]; intros i k H; cbn in H; [done|..].
  - apply IH in H as (j & -> & Hj). exists (S j). split; [lia|done].
  - simplify_eq. exists O. split; [lia|done].
Qed.

Lemma free_part_ok l : forall i k, free_part l i = Some k -> exists j, k = (i + j)%nat /\ l !! j = Some false.
Proof.
  induction l as [|[|] l IH]; intros i k H; cbn in H; [done|..].
  - apply IH in H as (j & -> & Hj). exists (S j). split; [lia|done].
  - simplify_eq. exists O. split; [lia|done].
Qed.

(** Insertion: an error without effect, or a free slot and a name nobody has. *)
Lemma insert_cases s d :
  (exists rc, rc < 0 /\ insert_locked d s = (rc, s))
  \/ exists i, insert_locked d s = (Z.of_nat i, set_table (<[i := Some d]> (table s)) s) /\ table s !! i = Some None
       /\ forall e, registered s e -> name (get s e) <> name (get s d).
Proof.
  unfold insert_locked. destruct (find_locked s _) eqn:Ef; [left; eexists; split; [|done]; unfold EEXIST; lia|].
  destruct (free_slot (table s) 0) as [k|] eqn:Es; [|left; eexists; split; [|done]; lia].
  apply free_slot_ok in Es as (j & -> & Hj). right. exists j. split; [done|]. split; [done|]. intros e He. by apply (find_loop_none s (table s)).
Qed.

(** Membership after a free slot has been filled. *)
Lemma registered_insert s s' i d e :
  table s' = <[i := Some d]> (table s) -> table s !! i = Some None -> registered s' e <-> e = d \/ registered s e.
Proof.
  intros Ht Hi. unfold registered. rewrite Ht, !list_elem_of_lookup. split.
  - intros [j Hj]. destruct (decide (i = j)) as [<-|Hne].
    + rewrite list_lookup_insert_eq in Hj by (by eapply lookup_lt_Some). left. congruence.
    + rewrite list_lookup_insert_ne in Hj by done. right. eauto.
  - intros [->|[j Hj]].
    + exists i. by rewrite list_lookup_insert_eq by (by eapply lookup_lt_Some).
    + exists j. destruct (decide (i = j)) as [<-|Hne]; [congruence|]. by rewrite list_lookup_insert_ne.
Qed.

Lemma get_put_part s i b d : (i < length (part_pool s))%nat -> get (put (Part i) b s) d = if decide (d = Part i) then b else get s d.
Proof.
  intros. case_decide as E; [subst; cbn; by rewrite nth_lookup, list_lookup_insert_eq|].
  destruct d as [a|j]; [done|]. cbn. rewrite !nth_lookup, list_lookup_insert_ne by congruence. done.
Qed.

Lemma get_put_disk s a b d : get (put (Disk a) b s) d = if decide (d = Disk a) then b else get s d.
Proof.
  case_decide as E; [subst; cbn; by rewrite lookup_insert_eq|]. destruct d as [a'|j]; [|done]. cbn. by rewrite lookup_insert_ne by congruence.
Qed.

(** States that agree on what the invariant reads. *)
Definition same_dev (b b' : blockdev) : Prop :=
  name b' = name b /\ parent b' = parent b /\ start_lba b' = start_lba b /\ sector_count b' = sector_count b.

Lemma reg_ok_same s s' :
  reg_ok s -> length (part_pool s') = length (part_pool s) -> part_used s' = part_used s -> table s' = table s ->
  (forall d, registered s d -> same_dev (get s d) (get s' d)) ->
  (forall a b, disks s' !! a = Some b -> 0 <= sector_count b < W64) -> reg_ok s'.
Proof.
  intros [H1 H2 H3 H4 H5 H6 H7 H8] Lp Eu Et Ed Hz.
  assert (forall d, registered s' d <-> registered s d) as Er by (intros; unfold registered; by rewrite Et).
  assert (forall i d, table s' !! i = Some (Some d) -> registered s d) as Hm by (rewrite Et; intros; by eapply list_elem_of_lookup_2).
  split; [congruence|congruence|..|done].
  - intros i j d e Hi Hj. destruct (Ed d (Hm i d Hi)) as (-> & _), (Ed e (Hm j e Hj)) as (-> & _). rewrite Et in *. by apply H3.
  - intros i Hi. rewrite Eu. by apply H4, Er.
  - intros a Ha%Er. destruct (Ed (Disk a) Ha) as (_ & -> & -> & _). by apply H5.
  - intros i Hi%Er. destruct (H6 i Hi) as (a & Ha & L1 & L2 & L3 & L4). exists a. split; [by apply Er|].
    destruct (Ed (Part i) Hi) as (_ & E1 & E2 & E3), (Ed (Disk a) Ha) as (_ & _ & _ & E4). unfold lies_on. by rewrite E1, E2, E3, E4.
  - intros i j Hi%Er Hj%Er Hij. destruct (Ed (Part i) Hi) as (_ & -> & E2 & E3), (Ed (Part j) Hj) as (_ & -> & E5 & E6). intros Hp.
    unfold disjoint, part_last. rewrite E2, E3, E5, E6. by apply H7.
Qed.

Lemma names_add s s' k d :
  reg_ok s -> table s' = <[k := Some d]> (table s) -> table s !! k = Some None ->
  (forall e, registered s e -> same_dev (get s e) (get s' e)) -> (forall e, registered s e -> name (get s e) <> name (get s' d)) ->
  forall i j x y, table s' !! i = Some (Some x) -> table s' !! j = Some (Some y) -> name (get s' x) = name (get s' y) -> i = j.
Proof.
  intros H Ht Hk Hsame Hnew. assert (forall j y, table s' !! j = Some (Some y) -> (j = k /\ y = d) \/ (j <> k /\ table s !! j = Some (Some y) /\ registered s y)) as Hc.
  { intros j y. rewrite Ht. destruct (decide (k = j)) as [<-|Hne].
    - rewrite list_lookup_insert_eq by (by eapply lookup_lt_Some). left. split; congruence.
    - rewrite list_lookup_insert_ne by done. intros Hj. right. split_and!; [congruence|done|by eapply list_elem_of_lookup_2]. }
  intros i j x y [[-> ->]|(Hi & Hxi & Hx)]%Hc [[-> ->]|(Hj & Hyj & Hy)]%Hc E; [done|..].
  - destruct (Hsame y Hy) as (Ey & _). rewrite Ey in E. by destruct (Hnew y Hy).
  - destruct (Hsame x Hx) as (Ex & _). rewrite Ex in E. by destruct (Hnew x Hx).
  - destruct (Hsame x Hx) as (Ex & _), (Hsame y Hy) as (Ey & _). rewrite Ex, Ey in E. by apply (ro_names s H i j x y).
Qed.

(** A new partition. *)
Lemma reg_ok_add_part s s' k i a :
  reg_ok s -> table s' = <[k := Some (Part i)]> (table s) -> table s !! k = Some None ->
  length (part_pool s') = BLOCKDEV_MAX -> part_used s !! i = Some false -> part_used s' = <[i := true]> (part_used s) ->
  (forall e, e <> Part i -> get s' e = get s e) -> disks s' = disks s -> (forall e, registered s e -> name (get s e) <> name (get s' (Part i))) ->
  registered s (Disk a) -> lies_on s a (get s' (Part i)) ->
  (forall j, registered s (Part j) -> parent (get s (Part j)) = Some a -> disjoint (get s' (Part i)) (get s (Part j))) -> reg_ok s'.
Proof.
  intros H Ht Hk Hp Hu Hu' Hg Hd Hn Ha Hl Hdj.
  assert (~ registered s (Part i)) as Hni by (intros X%(ro_free s H); congruence).
  assert (forall e, registered s e -> get s' e = get s e) as Hs by (intros e He; apply Hg; intros ->; done).
  assert (forall e, registered s' e <-> e = Part i \/ registered s e) as Hr by (intros; by eapply registered_insert).
  split.
  - done.
  - rewrite Hu', length_insert. apply H.
  - apply (names_add s s' k (Part i) H Ht Hk); [|done]. intros e He. unfold same_dev. by rewrite (Hs e He).
  - intros j [E|Hj]%Hr; rewrite Hu'.
    + simplify_eq. by rewrite list_lookup_insert_eq by (by eapply lookup_lt_Some).
    + rewrite list_lookup_insert_ne by (intros ->; done). by apply (ro_free s H).
  - intros b [?|Hb]%Hr; [done|]. rewrite Hg by done. by apply (ro_disk s H).
  - intros j [E|Hj]%Hr.
    + simplify_eq. exists a. split; [apply Hr; by right|]. unfold lies_on in *. by rewrite (Hg (Disk a)).
    + destruct (ro_part s H j Hj) as (b & Hb & Lb). exists b. split; [apply Hr; by right|]. unfold lies_on in *. by rewrite (Hs (Part j) Hj), (Hg (Disk b)).
  - assert (forall j, registered s (Part j) -> parent (get s' (Part i)) = parent (get s (Part j)) -> disjoint (get s' (Part i)) (get s (Part j))) as Hij.
    { intros j Hj E. apply Hdj; [done|]. destruct Hl as [El _]. congruence. }
    intros j1 j2 [E1|H1]%Hr [E2|H2]%Hr Hne E; simplify_eq.
    + rewrite (Hs _ H2) in *. by apply Hij.
    + rewrite (Hs _ H1) in *. symmetry in E. apply Hij in E; [|done]. unfold disjoint in *. tauto.
    + rewrite (Hs _ H1), (Hs _ H2) in *. by apply (ro_disjoint s H).
  - rewrite Hd. apply H.
Qed.

(** [blockdev_register_part]: an error that changes no registered device, or a new partition. *)
Lemma register_part_ok a no start count type uuid s rc s' :
  reg_ok s -> registered s (Disk a) -> 0 <= start -> 0 <= count ->
  (forall j, registered s (Part j) -> parent (get s (Part j)) = Some a -> start + count - 1 < start_lba (get s (Part j)) \/ part_last (get s (Part j)) < start) ->
  blockdev_register_part a no start count type uuid s = (rc, s') ->
  reg_ok s' /\ disks s' = disks s
  /\ ((rc < 0 /\ table s' = table s /\ (forall e, registered s e -> get s' e = get s e))
      \/ (rc = 0 /\ exists i, (forall e, registered s' e <-> e = Part i \/ registered s e) /\ (forall e, registered s e -> get s' e = get s e)
            /\ start_lba (get s' (Part i)) = start /\ sector_count (get s' (Part i)) = count /\ partno (get s' (Part i)) = no
            /\ parent (get s' (Part i)) = Some a)).
Proof.
  intros H Ha Hs0 Hc0 Hdj. unfold blockdev_register_part. set (d := get s (Disk a)).
  destruct ((no =? 0) || (count =? 0) || (sector_count d <=? start) || (sector_count d - start <? count)) eqn:Eg.
  { intros E. simplify_eq. split_and!; [done..|]. left. unfold EINVAL. split; [lia|done]. }
  destruct (part_name (name d) no) as [nm|]; [|intros E; simplify_eq; split_and!; [done..|]; left; unfold ENAMETOOLONG; split; [lia|done]].
  destruct (free_part (part_used s) 0) as [pi|] eqn:Ef; [|intros E; simplify_eq; split_and!; [done..|]; left; split; [lia|done]].
  apply free_part_ok in Ef as (j & -> & Hfree). cbn [Nat.add]. zbool.
  set (p := Blockdev nm _ _ _ _ _ _ _ _ _ _ _). set (s1 := put (Part j) p s).
  assert (j < length (part_pool s))%nat as Hjl by (rewrite (ro_pool s H), <- (ro_used s H); by eapply lookup_lt_Some).
  assert (forall e, registered s e -> e <> Part j) as Hnj by (intros e He ->; apply (ro_free s H) in He; congruence).
  assert (forall e, registered s e -> get s1 e = get s e) as Hg1 by (intros e He; unfold s1; rewrite get_put_part by done; by rewrite decide_False by auto).
  assert (get s1 (Part j) = p) as Hgp by (unfold s1; rewrite get_put_part by done; by rewrite decide_True).
  destruct (insert_cases s1 (Part j)) as [(r & Hr & ->)|(k & -> & Hk & Hnames)].
  { apply Z.ltb_lt in Hr as Hr'. rewrite Hr'. intros E. simplify_eq. split; [|split; [done|left; done]].
    apply (reg_ok_same s); [done|cbn; by rewrite length_insert|done|done|intros e He; unfold same_dev; by rewrite (Hg1 e He)|apply H]. }
  replace (Z.of_nat k <? 0) with false by (symmetry; apply Z.ltb_ge; lia).
  set (s2 := set_used _ _). set (s3 := if flag p BLOCKDEV_HIDDEN then _ else _).
  assert (exists mj mn nx, s3 = set_next_minor nx (put (Part j) (with_numbers mj mn p) s2)) as (mj & mn & nx & E3).
  { unfold s3. destruct (flag p _); [by exists 0, 0, (blkext_next_minor s)|]. destruct (_ && _); [by exists 8, (u32 (minor d + no)), (blkext_next_minor s)|].
    by eexists 259, _, _. }
  clearbody s3.
  assert (exists es, publish (Part j) s3 = emit es s3) as (es & ->).
  { unfold publish. destruct (flag _ _); [exists []|by eexists]. destruct s3. unfold emit. cbn. by rewrite app_nil_r. }
  intros E. injection E as <- <-. subst s3. set (s' := emit es _).
  assert (forall e, e <> Part j -> get s' e = get s e) as Hg'.
  { intros [b|i] He; [done|]. cbn. rewrite !nth_lookup, !list_lookup_insert_ne by congruence. done. }
  assert (get s' (Part j) = with_numbers mj mn p) as Hgj.
  { cbn. by rewrite nth_lookup, list_lookup_insert_eq by (by rewrite length_insert). }
  assert (table s' = <[k := Some (Part j)]> (table s)) as Ht' by done.
  assert (lies_on s a (with_numbers mj mn p)) as Hl by (unfold lies_on; cbn [parent start_lba sector_count with_numbers p]; fold d; split_and!; [done|lia..]).
  split; [|split; [done|right; split; [done|]]].
  - apply (reg_ok_add_part s s' k j a); try done; rewrite ?Hgj; try done.
    + cbn. rewrite !length_insert. apply H.
    + intros e He. rewrite <- (Hg1 e He). rewrite Hgp in Hnames. by apply Hnames.
  - exists j. rewrite Hgj. split; [intros e; by eapply registered_insert|]. split; [auto|done].
Qed.

(** ** The scanner *)

Section ScanOk.
Variable drv_read : Z -> Z -> Z -> buffer -> Z * buffer.
Variable disk : Z.
Variable s0 : registry.

(** The scan leaves the devices of [s0] alone, and [acc] has the range of every partition the
    disk has so far. *)
Record scan_ok (acc : list accepted) (x : scan) : Prop := {
  so_reg : reg_ok (reg x);
  so_disks : disks (reg x) = disks s0;
  so_old : forall e, registered s0 e -> registered (reg x) e /\ get (reg x) e = get s0 e;
  so_new : forall e, registered (reg x) e -> registered s0 e \/ exists j, e = Part j /\ parent (get (reg x) e) = Some disk;
  so_acc : forall j, registered (reg x) (Part j) -> parent (get (reg x) (Part j)) = Some disk ->
    Accepted (start_lba (get (reg x) (Part j))) (part_last (get (reg x) (Part j))) ∈ acc;
}.

Hypothesis Hdisk : registered s0 (Disk disk).
Hypothesis Hsize : 0 <= sector_count (get s0 (Disk disk)) < W64.

Lemma dd_same acc x : scan_ok acc x -> dd disk x = get s0 (Disk disk).
Proof. intros H. unfold dd. by apply (so_old acc x H). Qed.

(** Reading changes buffers only. *)
Lemma scan_ok_reg acc x x' : reg x' = reg x -> scan_ok acc x -> scan_ok acc x'.
Proof. intros E [H1 H2 H3 H4 H5]. by split; rewrite E. Qed.

Lemma read_sec_reg lba x : reg (read_sec drv_read disk lba x).2 = reg x.
Proof. unfold read_sec. destruct (disk_request _ _ _ _ _); [done..|]. by destruct (drv_read _ _ _ _). Qed.

Lemma read_ents_reg lba c x : reg (read_ents drv_read disk lba c x).2 = reg x.
Proof. unfold read_ents. destruct (disk_request _ _ _ _ _); [done..|]. by destruct (drv_read _ _ _ _). Qed.

Lemma accept_ok acc no a count type uuid x acc' x' :
  scan_ok acc x -> 0 <= a -> 0 <= count -> accept disk acc no a count type uuid x = (acc', x') -> scan_ok acc' x'.
Proof.
  intros H Ha Hc. unfold accept. rewrite (dd_same acc x H). destruct (Z.eqb_spec count 0); [by intros [= <- <-]|].
  destruct ((_ <=? a) || _) eqn:Eb; [by intros [= <- <-]|]. zbool. rewrite u64_small by lia.
  destruct (existsb (overlaps a (a + count - 1)) acc) eqn:Eo; [by intros [= <- <-]|].
  destruct (blockdev_register_part _ _ _ _ _ _ _) as [rc r] eqn:Er. intros [= <- <-].
  assert (forall e, e ∈ acc -> a + count - 1 < a_first e \/ a_last e < a) as Hacc.
  { intros e He. destruct (overlaps a (a + count - 1) e) eqn:E.
    - assert (existsb (overlaps a (a + count - 1)) acc = true) as X; [|congruence]. apply existsb_exists. exists e. split; [by apply list_elem_of_In|done].
    - unfold overlaps in E. apply andb_false_iff in E as [E|E]; zbool; lia. }
  destruct (so_old acc x H _ Hdisk) as [Hdx _].
  destruct (register_part_ok disk no a count type uuid (reg x) rc r (so_reg _ _ H) Hdx Ha Hc) as (Hr & Hds & Hcase); [|done|].
  { intros j Hj Hp. destruct (Hacc _ (so_acc acc x H j Hj Hp)) as [?|?]; cbn in *; [by left|by right]. }
  destruct Hcase as [(Hrc & Ht & Hg)|(-> & i & Hreg & Hg & E1 & E2 & _ & E3)].
  - replace (rc =? 0) with false by (symmetry; apply Z.eqb_neq; lia).
    assert (forall e, registered r e <-> registered (reg x) e) as He by (intros; unfold registered; by rewrite Ht).
    split; cbn [reg set_reg]; [done|rewrite Hds; apply H|..].
    + intros e He0. destruct (so_old acc x H e He0) as [Hx Ex]. rewrite He, Hg by done. done.
    + intros e Hx%He. rewrite Hg by done. by apply (so_new acc x H).
    + intros j Hx%He. rewrite Hg by done. by apply (so_acc acc x H).
  - rewrite Z.eqb_refl. split; cbn [reg set_reg]; [done|rewrite Hds; apply H|..].
    + intros e He0. destruct (so_old acc x H e He0) as [Hx Ex]. rewrite Hreg, Hg by done. split; [by right|done].
    + intros e [->|Hx]%Hreg; [by right; eauto|]. rewrite Hg by done. by apply (so_new acc x H).
    + intros j [E|Hx]%Hreg; rewrite elem_of_app.
      * injection E as ->. intros _. right. rewrite E1. unfold part_last. rewrite E1, E2. by apply list_elem_of_singleton.
      * rewrite Hg by done. intros Hp. left. by apply (so_acc acc x H).
Qed.

Lemma lor_nonneg2 a b : 0 <= a -> 0 <= b -> 0 <= Z.lor a b.
Proof. intros. by apply Z.lor_nonneg. Qed.

(** Buffers hold bytes; only their sign matters here. *)
Definition nonneg (p : buffer) : Prop := forall i, 0 <= p i.
Hypothesis drv_bytes : forall a l c b, nonneg b -> nonneg (drv_read a l c b).2.

Lemma get32_nonneg p o : nonneg p -> 0 <= get32 p o.
Proof. intros H. unfold get32. repeat apply lor_nonneg2; try apply Z.shiftl_nonneg; apply H. Qed.

Lemma get64_nonneg p o : nonneg p -> 0 <= get64 p o.
Proof. intros H. unfold get64. apply lor_nonneg2; [|apply Z.shiftl_nonneg]; by apply get32_nonneg. Qed.

Definition buffers (x : scan) : Prop := nonneg (sec x) /\ nonneg (ents x).

Lemma accept_bufs acc no a count type uuid x :
  sec (accept disk acc no a count type uuid x).2 = sec x /\ ents (accept disk acc no a count type uuid x).2 = ents x.
Proof. unfold accept. destruct (_ =? 0); [done|]. destruct (_ || _); [done|]. destruct (existsb _ _); [done|]. by destruct (blockdev_register_part _ _ _ _ _ _ _). Qed.

Lemma gpt_entries_ok n : forall i acc x, scan_ok acc x -> buffers x -> exists acc', scan_ok acc' (gpt_entries disk n i acc x).
Proof.
  induction n as [|n IH]; intros i acc x H Hb; cbn [gpt_entries]; [eauto|]. destruct (forallb _ _); [by apply IH|].
  destruct (_ <? _); [by apply IH|]. destruct (accept _ _ _ _ _ _ _ _) as [acc' x'] eqn:E. destruct Hb as [Hb1 Hb2]. apply IH.
  - refine (accept_ok _ _ _ _ _ _ _ _ _ H _ _ E); [by apply get64_nonneg|apply u64_range].
  - pose proof (accept_bufs acc (i + 1) (get64 (ents x) (i * GPT_ENTRY_SIZE + 32)) (u64 (get64 (ents x) (i * GPT_ENTRY_SIZE + 40) - get64 (ents x) (i * GPT_ENTRY_SIZE + 32) + 1))
      (slice (ents x) (i * GPT_ENTRY_SIZE) 16) (slice (ents x) (i * GPT_ENTRY_SIZE + 16) 16) x) as [E1 E2]. rewrite E in E1, E2. cbn in E1, E2. unfold buffers. by rewrite E1, E2.
Qed.

Lemma mbr_entries_ok l : forall acc x, scan_ok acc x -> buffers x -> exists acc', scan_ok acc' (mbr_entries disk l acc x).
Proof.
  induction l as [|i l IH]; intros acc x H Hb; cbn [mbr_entries]; [eauto|]. destruct (_ =? 0); [by apply IH|]. destruct (_ || _); [by apply IH|].
  destruct (accept _ _ _ _ _ _ _ _) as [acc' x'] eqn:E. destruct Hb as [Hb1 Hb2]. apply IH.
  - refine (accept_ok _ _ _ _ _ _ _ _ _ H _ _ E); by apply get32_nonneg.
  - pose proof (accept_bufs acc (i + 1) (get32 (sec x) (mbr_entry i + 8)) (get32 (sec x) (mbr_entry i + 12)) (sec x (mbr_entry i + 4) :: replicate 15 0) (replicate 16 0) x) as [E1 E2].
    rewrite E in E1, E2. cbn in E1, E2. unfold buffers. by rewrite E1, E2.
Qed.

(** Every transfer is a range of the disk and fits its buffer. *)
Definition fits (e : Z * Z * Z) : Prop :=
  let '(l, c, cap) := e in
  0 <= l /\ 0 < c /\ l + c <= sector_count (get s0 (Disk disk)) /\ c * sector_size (get s0 (Disk disk)) <= cap.
Definition log_ok (x : scan) : Prop :=
  sector_size (get s0 (Disk disk)) = 512 \/ sector_size (get s0 (Disk disk)) = 4096 -> Forall fits (log x).

(** A step that only reads. *)
Record reads (x x' : scan) : Prop := {
  rd_reg : reg x' = reg x;
  rd_bufs : buffers x -> buffers x';
  rd_log : log_ok x -> log_ok x';
}.

Lemma reads_refl x : reads x x.
Proof. by split. Qed.

Lemma reads_trans x y z : reads x y -> reads y z -> reads x z.
Proof. intros [] []. split; [congruence|auto..]. Qed.

Lemma request_range x l c a l' c' : disks (reg x) = disks s0 -> 0 <= l -> 0 <= c ->
  disk_request (reg x) disk l c false = Transfer a l' c' -> l' = l /\ c' = c /\ 0 < c /\ l + c <= sector_count (get s0 (Disk disk)).
Proof.
  intros Hd Hl Hc. assert (get (reg x) (Disk disk) = get s0 (Disk disk)) as E by (cbn; by rewrite Hd).
  unfold disk_request. rewrite E. cbn [andb]. destruct (Z.eqb_spec c 0); [done|]. destruct (in_range _ l c) eqn:Er; cbn [negb]; [|done].
  intros [= <- <- <-]. unfold in_range in Er. zbool. lia.
Qed.

Lemma read_sec_reads lba x : disks (reg x) = disks s0 -> 0 <= lba -> reads x (read_sec drv_read disk lba x).2.
Proof.
  intros Hd Hl. unfold read_sec. destruct (disk_request (reg x) disk lba 1 false) as [rc| |a l c] eqn:Er; [apply reads_refl..|].
  destruct (request_range x lba 1 a l c Hd Hl ltac:(lia) Er) as (-> & -> & _ & Hr).
  destruct (drv_read a lba 1 (sec x)) as [rc b] eqn:Eb. split; cbn [snd reg]; [done| |].
  - intros [H1 H2]. split; [|done]. pose proof (drv_bytes a lba 1 _ H1). by rewrite Eb in *.
  - intros Hg Hs. apply Forall_app. split; [by apply Hg|]. constructor; [|constructor]. unfold fits. split_and!; [lia..|destruct Hs as [-> | ->]; lia].
Qed.

(** The entry array has room for the sectors of at most 128 entries. *)
Lemma read_ents_reads lba secs x : disks (reg x) = disks s0 -> 0 <= lba -> 0 <= secs ->
  (sector_size (get s0 (Disk disk)) = 512 \/ sector_size (get s0 (Disk disk)) = 4096 -> secs * sector_size (get s0 (Disk disk)) <= 16384) ->
  reads x (read_ents drv_read disk lba secs x).2.
Proof.
  intros Hd Hl Hc Hcap. unfold read_ents. destruct (disk_request (reg x) disk lba secs false) as [rc| |a l c] eqn:Er; [apply reads_refl..|].
  destruct (request_range x lba secs a l c Hd Hl Hc Er) as (-> & -> & ? & Hr).
  destruct (drv_read a lba secs (ents x)) as [rc b] eqn:Eb. split; cbn [snd reg]; [done| |].
  - intros [H1 H2]. split; [done|]. pose proof (drv_bytes a lba secs _ H2). by rewrite Eb in *.
  - intros Hg Hs. apply Forall_app. split; [by apply Hg|]. constructor; [|constructor]. unfold fits. split_and!; [lia..|by apply Hcap].
Qed.

Lemma secs_fit n ss : 0 < n <= GPT_MAX_ENTRIES -> ss = 512 \/ ss = 4096 -> u32 (u32 (n * GPT_ENTRY_SIZE) + ss - 1) / ss * ss <= 16384.
Proof. intros Hn [-> | ->]; rewrite !u32_small by (rewrite ?u32_small; lia); dlia. Qed.

Lemma gpt_load_reads lba x : disks (reg x) = disks s0 -> buffers x -> 0 <= lba -> 0 < sector_size (get s0 (Disk disk)) -> reads x (gpt_load drv_read disk lba x).2.
Proof.
  intros Hd Hb Hl Hss. unfold gpt_load. destruct (_ || _); [apply reads_refl|].
  pose proof (read_sec_reads lba x Hd Hl) as H1. destruct (read_sec drv_read disk lba x) as [rc y] eqn:Er. cbn [snd] in H1.
  destruct (negb (rc =? 0)); [done|]. destruct (negb _); [done|]. destruct (_ || _); [done|]. destruct (negb _); [done|].
  apply (reads_trans x y); [done|]. assert (disks (reg y) = disks s0) as Hdy by (by rewrite (rd_reg _ _ H1)).
  assert (dd disk y = get s0 (Disk disk)) as Edd by (unfold dd; cbn; by rewrite Hdy).
  unfold gpt_load_entries. rewrite Edd. destruct (negb (get32 (sec y) 84 =? GPT_ENTRY_SIZE) || _ || _) eqn:Eg; [apply reads_refl|]. zbool.
  destruct (rd_bufs _ _ H1 Hb) as [Hs Hy]. pose proof (get32_nonneg (sec y) 80 Hs). rewrite H.
  destruct (_ || _); [apply reads_refl|].
  match goal with |- context [read_ents _ _ ?l ?c y] => assert (reads y (read_ents drv_read disk l c y).2) as H4 end.
  { apply read_ents_reads; [done|by apply get64_nonneg|apply Z.div_pos; [apply u32_range|done]|]. intros Hs5. apply secs_fit; [lia|done]. }
  destruct (read_ents _ _ _ _ y) as [rc2 z]. by destruct (negb _).
Qed.

Lemma gpt_expected_reads x : disks (reg x) = disks s0 -> reads x (gpt_expected drv_read disk x).2.
Proof.
  intros Hd. unfold gpt_expected. pose proof (read_sec_reads 0 x Hd ltac:(lia)) as H1. destruct (read_sec drv_read disk 0 x) as [rc y]. cbn [snd] in H1.
  destruct (_ && _ && _); [done|]. assert (disks (reg y) = disks s0) as Hdy by (by rewrite (rd_reg _ _ H1)).
  pose proof (read_sec_reads 1 y Hdy ltac:(lia)) as H2. destruct (read_sec drv_read disk 1 y) as [rc2 z]. by apply (reads_trans x y).
Qed.

Lemma accept_log acc no a count type uuid x : log (accept disk acc no a count type uuid x).2 = log x.
Proof. unfold accept. destruct (_ =? 0); [done|]. destruct (_ || _); [done|]. destruct (existsb _ _); [done|]. by destruct (blockdev_register_part _ _ _ _ _ _ _). Qed.

Lemma gpt_entries_log n : forall i acc x, log (gpt_entries disk n i acc x) = log x.
Proof.
  induction n as [|n IH]; intros i acc x; cbn [gpt_entries]; [done|]. destruct (forallb _ _); [by apply IH|]. destruct (_ <? _); [by apply IH|].
  match goal with |- context [accept disk acc ?no ?a ?c ?t ?u x] => pose proof (accept_log acc no a c t u x) as E; destruct (accept disk acc no a c t u x) as [acc' x'] end.
  rewrite IH. done.
Qed.

Lemma mbr_entries_log l : forall acc x, log (mbr_entries disk l acc x) = log x.
Proof.
  induction l as [|i l IH]; intros acc x; cbn [mbr_entries]; [done|]. destruct (_ =? 0); [by apply IH|]. destruct (_ || _); [by apply IH|].
  match goal with |- context [accept disk acc ?no ?a ?c ?t ?u x] => pose proof (accept_log acc no a c t u x) as E; destruct (accept disk acc no a c t u x) as [acc' x'] end.
  rewrite IH. done.
Qed.

(** What a scan leaves: an intact registry and transfers in bounds. *)
Definition scanned (x : scan) : Prop := (exists acc, scan_ok acc x) /\ log_ok x.

Hypothesis Hss : 0 < sector_size (get s0 (Disk disk)).

Lemma reads_scanned x y : scan_ok [] x -> log_ok x -> reads x y -> scan_ok [] y /\ log_ok y.
Proof. intros H1 H2 R. split; [by apply (scan_ok_reg [] x); [apply R|]|by apply R]. Qed.

Lemma scan_mbr_ok x : scan_ok [] x -> buffers x -> log_ok x -> scanned (scan_mbr drv_read disk x).
Proof.
  intros H Hb Hg. unfold scan_mbr. pose proof (read_sec_reads 0 x (so_disks _ _ H) ltac:(lia)) as R.
  destruct (read_sec drv_read disk 0 x) as [rc y]. cbn [snd] in R. destruct (reads_scanned x y H Hg R) as [Hy Hgy].
  assert (scanned y) as Sy by (split; eauto). destruct (negb _); [done|]. destruct (negb _); [done|]. destruct (existsb _ _); [done|].
  destruct (has_protective _); [done|]. split; [apply mbr_entries_ok; [done|by apply R]|]. unfold log_ok. by rewrite mbr_entries_log.
Qed.

Lemma scan_gpt_ok x : scan_ok [] x -> buffers x -> log_ok x ->
  ((scan_gpt drv_read disk x).1 = true /\ scanned (scan_gpt drv_read disk x).2) \/ ((scan_gpt drv_read disk x).1 = false /\ reads x (scan_gpt drv_read disk x).2).
Proof.
  intros H Hb Hg. unfold scan_gpt. pose proof (gpt_load_reads 1 x (so_disks _ _ H) Hb ltac:(lia) Hss) as R.
  destruct (gpt_load drv_read disk 1 x) as [ok y]. cbn [snd] in R. destruct (reads_scanned x y H Hg R) as [Hy Hgy]. pose proof (rd_bufs _ _ R Hb) as Hby.
  assert (0 <= backup_lba disk y) as Hbk.
  { unfold backup_lba. destruct (_ && _ && _); [|apply u64_range]. destruct (_ && _); [apply get64_nonneg, Hby|apply u64_range]. }
  assert (exists ok' z, (if ok then (ok, y) else gpt_load drv_read disk (backup_lba disk y) y) = (ok', z) /\ reads y z) as (ok' & z & -> & R2).
  { destruct ok; [exists true, y; split; [done|apply reads_refl]|]. pose proof (gpt_load_reads (backup_lba disk y) y (so_disks _ _ Hy) Hby Hbk Hss) as R2.
    destruct (gpt_load drv_read disk (backup_lba disk y) y) as [ok' z]. eauto. }
  destruct (reads_scanned y z Hy Hgy R2) as [Hz Hgz]. destruct ok'; cbn [negb fst snd]; [left|right; split; [done|by apply (reads_trans x y)]].
  split; [done|]. split; [apply gpt_entries_ok; [done|by apply R2]|]. unfold log_ok. by rewrite gpt_entries_log.
Qed.

Lemma part_scan_ok mem x : scan_ok [] x -> buffers x -> log_ok x -> scanned (part_scan drv_read disk mem x).
Proof.
  intros H Hb Hg. unfold part_scan. destruct mem; cbn [negb]; [|split; eauto].
  destruct (3 <=? _); [|by apply scan_mbr_ok]. pose proof (gpt_expected_reads x (so_disks _ _ H)) as R.
  destruct (gpt_expected drv_read disk x) as [e y]. cbn [snd] in R. destruct (reads_scanned x y H Hg R) as [Hy Hgy]. pose proof (rd_bufs _ _ R Hb) as Hby.
  destruct e; [|by apply scan_mbr_ok]. pose proof (scan_gpt_ok y Hy Hby Hgy) as Hc. destruct (scan_gpt drv_read disk y) as [ok z]. cbn [fst snd] in Hc.
  destruct Hc as [[-> Hs]|[-> R2]]; [done|]. destruct (reads_scanned y z Hy Hgy R2) as [Hz Hgz]. apply scan_mbr_ok; [done|by apply R2|done].
Qed.
End ScanOk.

(** ** Disks *)

Lemma reg_ok_add_disk s s' k a :
  reg_ok s -> table s' = <[k := Some (Disk a)]> (table s) -> table s !! k = Some None -> part_pool s' = part_pool s -> part_used s' = part_used s ->
  (forall e, e <> Disk a -> get s' e = get s e) -> parent (get s' (Disk a)) = None /\ start_lba (get s' (Disk a)) = 0 -> sector_count (get s' (Disk a)) = sector_count (get s (Disk a)) ->
  (forall e, registered s e -> name (get s e) <> name (get s' (Disk a))) -> ~ registered s (Disk a) ->
  (forall b x, disks s' !! b = Some x -> 0 <= sector_count x < W64) -> reg_ok s'.
Proof.
  intros H Ht Hk Hp Hu Hg Hpar Hsc Hn Hna Hz.
  assert (forall e, registered s e -> get s' e = get s e) as Hs by (intros e He; apply Hg; intros ->; done).
  assert (forall e, registered s' e <-> e = Disk a \/ registered s e) as Hr by (intros; by eapply registered_insert).
  split.
  - rewrite Hp. apply H.
  - rewrite Hu. apply H.
  - apply (names_add s s' k (Disk a) H Ht Hk); [|done]. intros e He. unfold same_dev. by rewrite (Hs e He).
  - intros i [?|Hi]%Hr; [done|]. rewrite Hu. by apply (ro_free s H).
  - intros b [E|Hb]%Hr; [by simplify_eq|]. rewrite (Hs _ Hb). by apply (ro_disk s H).
  - intros i [?|Hi]%Hr; [done|]. destruct (ro_part s H i Hi) as (b & Hb & Lb). exists b. split; [apply Hr; by right|].
    unfold lies_on in *. by rewrite (Hs _ Hi), (Hs _ Hb).
  - intros i j [?|Hi]%Hr [?|Hj]%Hr; [done..|]. rewrite (Hs _ Hi), (Hs _ Hj). by apply (ro_disjoint s H).
  - done.
Qed.

(** A disk its driver may register: its record exists and its size is a 64-bit number. *)
Definition disk_fit (s : registry) (a : Z) : Prop := is_Some (disks s !! a) /\ 0 < sector_size (get s (Disk a)).

Lemma register_disk_ok drv a mem sec0 ents0 s rc s' lg :
  reg_ok s -> disk_fit s a -> (forall d l c b, nonneg b -> nonneg (drv d l c b).2) -> nonneg sec0 -> nonneg ents0 ->
  blockdev_register_disk drv a mem sec0 ents0 s = (rc, s', lg) ->
  reg_ok s' /\ sector_count (get s' (Disk a)) = sector_count (get s (Disk a)) /\ sector_size (get s' (Disk a)) = sector_size (get s (Disk a))
  /\ (sector_size (get s (Disk a)) = 512 \/ sector_size (get s (Disk a)) = 4096 ->
      Forall (fun '(l, c, cap) => 0 <= l /\ 0 < c /\ l + c <= sector_count (get s (Disk a)) /\ c * sector_size (get s (Disk a)) <= cap) lg)
  /\ ((rc < 0 /\ s' = s) \/ (rc = 0 /\ registered s' (Disk a) /\ (forall e, registered s e -> registered s' e))).
Proof.
  intros H [[b Hb] Hss] Hdrv Hs0 He0. unfold blockdev_register_disk.
  destruct (insert_cases s (Disk a)) as [(r & Hr & ->)|(k & -> & Hk & Hnames)].
  { apply Z.ltb_lt in Hr as Hr'. rewrite Hr'. intros [= <- <- <-]. split_and!; [done..| |by left]. intros _. constructor. }
  replace (Z.of_nat k <? 0) with false by (symmetry; apply Z.ltb_ge; lia).
  set (s1 := set_table _ s). set (d := as_whole (get s1 (Disk a))). set (s2 := if flag d BLOCKDEV_HIDDEN then _ else _).
  assert (exists mj mn nx, s2 = set_next_minor nx (put (Disk a) (with_numbers mj mn d) s1)) as (mj & mn & nx & E2).
  { unfold s2, numbering_locked. destruct (flag d _); [by exists 0, 0, (blkext_next_minor s)|]. destruct (_ && _); [by eexists _, _, (blkext_next_minor s)|].
    destruct (is_sr_name _); [by eexists _, _, (blkext_next_minor s)|by eexists _, _, _]. }
  clearbody s2. assert (exists es, publish (Disk a) s2 = emit es s2) as (es & ->).
  { unfold publish. destruct (flag _ _); [exists []|by eexists]. destruct s2. unfold emit. cbn. by rewrite app_nil_r. }
  subst s2. set (s3 := emit es _).
  assert (get s3 (Disk a) = with_numbers mj mn d) as Hga by (cbn; by rewrite lookup_insert_eq).
  assert (forall e, e <> Disk a -> get s3 e = get s e) as Hg by (intros [c|i] He; [cbn; by rewrite lookup_insert_ne by congruence|done]).
  assert (~ registered s (Disk a)) as Hna by (intros X; by apply (Hnames _ X)).
  assert (sector_count (get s3 (Disk a)) = sector_count (get s (Disk a))) as Hsc by (by rewrite Hga).
  assert (sector_size (get s3 (Disk a)) = sector_size (get s (Disk a))) as Hsz by (by rewrite Hga).
  assert (reg_ok s3) as H3.
  { apply (reg_ok_add_disk s s3 k a); try done; [by rewrite Hga|by rewrite Hga|].
    intros c x. cbn. rewrite lookup_insert_Some. intros [[<- <-]|[_ Hc]]; [|by apply (ro_sizes s H c)]. cbn. rewrite Hb. by apply (ro_sizes s H a). }
  assert (forall e, registered s3 e <-> e = Disk a \/ registered s e) as Hreg by (intros; by eapply registered_insert).
  destruct (flag d BLOCKDEV_NOPART).
  { intros [= <- <- <-]. split_and!; [done..|intros _; constructor|]. right. split_and!; [done|apply Hreg; by left|intros e He; apply Hreg; by right]. }
  intros [= <- <- <-].
  assert (scan_ok a s3 [] (Scan s3 sec0 ents0 [])) as Hok.
  { split; cbn [reg]; [done|done|done|by left|]. intros j Hj Hp. destruct (ro_part s3 H3 j Hj) as (c & Hc & Hl & _).
    apply Hreg in Hj as [?|Hj]; [done|]. destruct (ro_part s H j Hj) as (c' & Hc' & Hl' & _). rewrite (Hg (Part j)) in Hp by done.
    assert (c' = a) as -> by congruence. done. }
  assert (0 <= sector_count (get s3 (Disk a)) < W64) as Hsize by (rewrite Hga; cbn; rewrite Hb; by apply (ro_sizes s H a)).
  destruct (part_scan_ok drv a s3 (proj2 (Hreg (Disk a)) (or_introl eq_refl)) Hsize Hdrv ltac:(by rewrite Hsz) mem (Scan s3 sec0 ents0 []) Hok) as [(acc & Hs) Hlog];
    [done|intros _; constructor|].
  destruct (so_old a s3 acc _ Hs (Disk a) (proj2 (Hreg (Disk a)) (or_introl eq_refl))) as [Hra ->].
  split_and!; [apply Hs|done|done| |].
  - intros X. rewrite <- Hsc, <- Hsz in *. by apply Hlog.
  - right. split_and!; [done|done|]. intros e He. apply (so_old a s3 acc _ Hs). apply Hreg. by right.
Qed.

Lemma drop_used_other s a l i : belongs s a (Part i) = false -> forall u : list bool,
  foldl (fun u x => match x with Some (Part i) => if belongs s a (Part i) then <[i := false]> u else u | _ => u end) u l !! i = u !! i.
Proof.
  intros Hi. induction l as [|[[c|j]|] l IH]; intros u; cbn [foldl]; [done|apply IH| |apply IH]. rewrite IH. destruct (belongs s a (Part j)) eqn:E; [|done].
  apply list_lookup_insert_ne. congruence.
Qed.

Lemma drop_used_length s a l : forall u : list bool,
  length (foldl (fun u x => match x with Some (Part i) => if belongs s a (Part i) then <[i := false]> u else u | _ => u end) u l) = length u.
Proof. induction l as [|[[c|j]|] l IH]; intros u; cbn [foldl]; [done|apply IH| |apply IH]. rewrite IH. destruct (belongs s a (Part j)); [apply length_insert|done]. Qed.

Lemma unregister_ok a s : reg_ok s ->
  reg_ok (blockdev_unregister_disk a s)
  /\ (forall e, registered (blockdev_unregister_disk a s) e <-> registered s e /\ belongs s a e = false)
  /\ (forall e, get (blockdev_unregister_disk a s) e = get s e).
Proof.
  intros H. set (s' := blockdev_unregister_disk a s).
  assert (forall i e, table s' !! i = Some (Some e) <-> table s !! i = Some (Some e) /\ belongs s a e = false) as Ht.
  { intros i e. cbn. rewrite list_lookup_fmap. change (gone (emit [Invalidate a] s) a) with (gone s a). destruct (table s !! i) as [[x|]|]; cbn; [|naive_solver..].
    destruct (belongs s a x) eqn:E; naive_solver congruence. }
  assert (forall e, registered s' e <-> registered s e /\ belongs s a e = false) as Hr.
  { intros e. unfold registered. rewrite !list_elem_of_lookup. setoid_rewrite Ht. naive_solver. }
  assert (forall e, get s' e = get s e) as Hg by (by intros [|]).
  split; [|done]. split.
  - apply H.
  - cbn. unfold drop_used. rewrite drop_used_length. apply H.
  - intros i j d e [Hi _]%Ht [Hj _]%Ht. rewrite !Hg. by apply (ro_names s H i j).
  - intros i [Hi Hn]%Hr. change (part_used s') with (drop_used (emit [Invalidate a] s) a (part_used s)). unfold drop_used.
    rewrite drop_used_other by done. by apply (ro_free s H).
  - intros b [Hb _]%Hr. rewrite Hg. by apply (ro_disk s H).
  - intros i [Hi Hn]%Hr. destruct (ro_part s H i Hi) as (b & Hb & Lb). exists b. split.
    + apply Hr. split; [done|]. destruct Lb as [Ep _]. unfold belongs in *. destruct (ro_disk s H b Hb) as [-> _]. rewrite Ep in Hn.
      apply orb_false_iff in Hn as [_ Hn]. apply bool_decide_eq_false in Hn. apply orb_false_iff. split; apply bool_decide_eq_false; congruence.
    + unfold lies_on in *. by rewrite !Hg.
  - intros i j [Hi _]%Hr [Hj _]%Hr. rewrite !Hg. by apply (ro_disjoint s H).
  - apply H.
Qed.

Lemma claims_ok d c s : reg_ok s -> reg_ok (put d (with_claims c (get s d)) s).
Proof.
  intros H. apply (reg_ok_same s); [done|..].
  - destruct d; [done|]. cbn. apply length_insert.
  - by destruct d.
  - by destruct d.
  - intros e _. destruct d as [a|i].
    + rewrite get_put_disk. by case_decide; [subst|].
    + destruct (decide (i < length (part_pool s))%nat) as [Hi|Hi]; [rewrite get_put_part by done; by case_decide; [subst|]|].
      destruct e as [a|j]; [done|]. cbn. by rewrite list_insert_ge by lia.
  - destruct d as [a|i]; [|apply H]. cbn. intros b x. rewrite lookup_insert_Some. intros [[<- <-]|[_ Hx]]; [|by apply (ro_sizes s H b)].
    cbn. destruct (disks s !! a) eqn:E; [by apply (ro_sizes s H a)|]. cbn. lia.
Qed.

(** ** Reachable registries *)

Inductive reg_step (s : registry) : registry -> Prop :=
  | do_register drv a mem sec0 ents0 rc s' lg :
      disk_fit s a -> (forall d l c b, nonneg b -> nonneg (drv d l c b).2) -> nonneg sec0 -> nonneg ents0 ->
      blockdev_register_disk drv a mem sec0 ents0 s = (rc, s', lg) -> reg_step s s'
  | do_unregister a : reg_step s (blockdev_unregister_disk a s)
  | do_claim d : reg_step s (blockdev_claim d s)
  | do_release d : reg_step s (blockdev_release d s).

Inductive reg_reach (m : gmap Z blockdev) : registry -> Prop :=
  | reach_init : reg_reach m (blockdev_init m)
  | reach_step s s' : reg_reach m s -> reg_step s s' -> reg_reach m s'.

Definition disks_fit (m : gmap Z blockdev) : Prop := forall a b, m !! a = Some b -> 0 <= sector_count b < W64.

Lemma blockdev_init_ok m : disks_fit m -> reg_ok (blockdev_init m).
Proof.
  intros Hm. assert (forall i d, table (blockdev_init m) !! i <> Some (Some d)) as Ht.
  { intros i d. cbn [table blockdev_init]. intros [E _]%lookup_replicate. done. }
  assert (forall d, ~ registered (blockdev_init m) d) as Hr by (intros d [i Hi]%list_elem_of_lookup; by apply (Ht i d)).
  split; [done|done|..|done]; intros; exfalso; try (by eapply Hr); by eapply Ht.
Qed.

Lemma reach_ok m s : disks_fit m -> reg_reach m s -> reg_ok s.
Proof.
  intros Hm. induction 1 as [|s s' Hr IH Hs]; [by apply blockdev_init_ok|]. destruct Hs as [drv a mem sec0 ents0 rc s' lg Hf Hd H1 H2 E|a|d|d].
  - destruct (register_disk_ok drv a mem sec0 ents0 s rc s' lg IH Hf Hd H1 H2 E) as [? _]. done.
  - by apply unregister_ok.
  - by apply claims_ok.
  - unfold blockdev_release. destruct (ctrue _); [by apply claims_ok|done].
Qed.

(** ** What the registry promises *)

Lemma find_loop_some s l d : (forall i j x y, l !! i = Some (Some x) -> l !! j = Some (Some y) -> name (get s x) = name (get s y) -> i = j) ->
  Some d ∈ l -> find_loop s l (name (get s d)) = Some d.
Proof.
  induction l as [|[e|] l IH]; intros Hn Hd; [by apply elem_of_nil in Hd|..]; cbn [find_loop].
  - unfold name_eq. case_bool_decide as E.
    + apply elem_of_cons in Hd as [Hd|Hd]; [by simplify_eq|]. apply list_elem_of_lookup in Hd as [j Hj]. specialize (Hn O (S j) e d eq_refl Hj E). done.
    + apply elem_of_cons in Hd as [Hd|Hd]; [by simplify_eq|]. apply IH; [|done]. intros i j x y Hi Hj Exy. specialize (Hn (S i) (S j) x y Hi Hj Exy). lia.
  - apply elem_of_cons in Hd as [Hd|Hd]; [done|]. apply IH; [|done]. intros i j x y Hi Hj Exy. specialize (Hn (S i) (S j) x y Hi Hj Exy). lia.
Qed.

(** C27: the registry's invariant.  Whatever the disks hold and whatever their drivers answer,
    after any sequence of registrations with their partition scans, removals, claims and
    releases, every registered partition lies inside a registered disk, two partitions of one
    disk have no sector in common, and looking a registered device up by its name finds it. *)
Theorem partitions_disjoint m s :
  disks_fit m -> reg_reach m s ->
  (forall i, registered s (Part i) -> exists a, registered s (Disk a) /\ lies_on s a (get s (Part i)))
  /\ (forall i j, registered s (Part i) -> registered s (Part j) -> i <> j -> parent (get s (Part i)) = parent (get s (Part j)) ->
        disjoint (get s (Part i)) (get s (Part j)))
  /\ (forall d, registered s d -> blockdev_find s (name (get s d)) = Some d).
Proof.
  intros Hm Hr. pose proof (reach_ok m s Hm Hr) as H. split_and!; [apply H|apply H|].
  intros d Hd. apply find_loop_some; [apply H|done].
Qed.

(** transfers through a partition stay inside it.  A read or write of a registered
    partition reaches the driver exactly when the range is inside the partition, at the
    partition's place on its disk, so it touches no sector of the disk outside the partition
    and none of any other partition. *)
Theorem partition_io_contained m s i lba count wr :
  disks_fit m -> reg_reach m s -> registered s (Part i) -> 0 <= lba -> 0 < count ->
  flag (get s (Part i)) BLOCKDEV_RO = false ->
  exists a, parent (get s (Part i)) = Some a
    /\ (flag (get s (Disk a)) BLOCKDEV_RO = false ->
        blockdev_request s (Part i) lba count wr
        = if lba + count <=? sector_count (get s (Part i)) then Transfer a (start_lba (get s (Part i)) + lba) count else Fails (- EIO))
    /\ forall j l c, blockdev_request s (Part i) lba count wr = Transfer a l c -> registered s (Part j) -> j <> i -> parent (get s (Part j)) = Some a ->
         l + c <= start_lba (get s (Part j)) \/ start_lba (get s (Part j)) + sector_count (get s (Part j)) <= l.
Proof.
  intros Hm Hr Hi Hl Hc Hro. pose proof (reach_ok m s Hm Hr) as H. destruct (ro_part s H i Hi) as (a & Ha & Ep & L1 & L2 & L3).
  exists a. assert (sector_count (get s (Disk a)) < W64) as Hsz.
  { cbn. destruct (disks s !! a) eqn:E; [by apply (ro_sizes s H a)|]. cbn. lia. }
  assert (blockdev_request s (Part i) lba count wr = if lba + count <=? sector_count (get s (Part i))
    then disk_request s a (start_lba (get s (Part i)) + lba) count wr else Fails (- EIO)) as Hreq.
  { unfold blockdev_request. rewrite Ep, Hro, andb_false_r. replace (count =? 0) with false by (symmetry; apply Z.eqb_neq; lia).
    unfold in_range. destruct (Z.leb_spec (lba + count) (sector_count (get s (Part i)))).
    - rewrite (proj2 (Z.ltb_lt _ _)), (proj2 (Z.leb_le _ _)) by lia. cbn [andb negb]. by rewrite u64_small by lia.
    - destruct (Z.ltb_spec lba (sector_count (get s (Part i)))); cbn [andb negb]; [|done]. by rewrite (proj2 (Z.leb_gt _ _)) by lia. }
  split_and!; [done| |].
  - intros Hdro. rewrite Hreq. destruct (Z.leb_spec (lba + count) (sector_count (get s (Part i)))); [|done]. unfold disk_request. rewrite Hdro, andb_false_r.
    replace (count =? 0) with false by (symmetry; apply Z.eqb_neq; lia). unfold in_range. by rewrite (proj2 (Z.ltb_lt _ _)), (proj2 (Z.leb_le _ _)) by lia.
  - intros j l c E Hj Hji Hpj. rewrite Hreq in E. destruct (Z.leb_spec (lba + count) (sector_count (get s (Part i)))); [|done].
    unfold disk_request in E. destruct (_ && _); [done|]. destruct (count =? 0); [done|]. destruct (negb _); [done|]. injection E as <- <-.
    destruct (ro_disjoint s H j i Hj Hi Hji ltac:(congruence)) as [D|D]; unfold part_last in D; cbn [get] in *; lia.
Qed.

(** the partition scan is memory-safe on any disk.  Registering a disk with 512- or
    4096-byte sectors asks its driver only for sectors of that disk, and never for more of them
    than the sector buffer or the entry array has room for, whatever the tables claim. *)
Theorem part_scan_bounds drv a mem sec0 ents0 m s rc s' lg :
  disks_fit m -> reg_reach m s -> disk_fit s a -> sector_size (get s (Disk a)) = 512 \/ sector_size (get s (Disk a)) = 4096 ->
  (forall d l c b, nonneg b -> nonneg (drv d l c b).2) -> nonneg sec0 -> nonneg ents0 ->
  blockdev_register_disk drv a mem sec0 ents0 s = (rc, s', lg) ->
  Forall (fun '(l, c, cap) => 0 <= l /\ 0 < c /\ l + c <= sector_count (get s (Disk a)) /\ c * sector_size (get s (Disk a)) <= cap) lg.
Proof.
  intros Hm Hr Hf Hss Hd H1 H2 E. pose proof (reach_ok m s Hm Hr) as H.
  destruct (register_disk_ok drv a mem sec0 ents0 s rc s' lg H Hf Hd H1 H2 E) as (_ & _ & _ & Hl & _). by apply Hl.
Qed.

(** A disk of 200 sectors whose MBR has two partitions and a third that overlaps the first. *)
Definition demo_bytes : list (Z * Z) :=
  [(450, 0x83); (454, 8); (458, 64); (466, 0x83); (470, 80); (474, 100); (482, 0x83); (486, 20); (490, 10); (510, 0x55); (511, 0xAA)].
Definition demo_byte (i : Z) : Z := foldr (fun '(o, v) r => if i =? o then v else r) 0 demo_bytes.
Definition demo_drv (d l c : Z) (b : buffer) : Z * buffer := (0, fun i => if (0 <=? i) && (i <? 512 * c) then demo_byte (512 * l + i) else b i).
Definition demo_disks : gmap Z blockdev := {[ 4096 := Blockdev [115; 100; 97] 512 200 None 0 0 0 [] [] 0 0 0 ]}.
Definition demo_scan := blockdev_register_disk demo_drv 4096 true (fun _ => 0) (fun _ => 0) (blockdev_init demo_disks).
Definition demo_reg : registry := demo_scan.1.2.

Lemma demo_fit : disks_fit demo_disks.
Proof. intros a b. unfold demo_disks. rewrite lookup_singleton_Some. intros [_ <-]. cbn. lia. Qed.

Lemma demo_drv_bytes d l c b : nonneg b -> nonneg (demo_drv d l c b).2.
Proof.
  intros H i. cbn. destruct (_ && _); [|apply H]. unfold demo_byte. cbn [foldr demo_bytes].
  repeat match goal with |- context [if ?x then _ else _] => destruct x; [lia|] end. lia.
Qed.

Lemma blockproofs_demo_reach : reg_reach demo_disks demo_reg.
Proof.
  eapply reach_step; [apply reach_init|]. apply (do_register _ demo_drv 4096 true (fun _ => 0) (fun _ => 0) demo_scan.1.1 _ demo_scan.2).
  - split; [vm_compute; eauto|vm_compute; reflexivity].
  - apply demo_drv_bytes.
  - intros i. lia.
  - intros i. lia.
  - unfold demo_reg, demo_scan. destruct (blockdev_register_disk _ _ _ _ _ _) as [[rc s'] lg]. reflexivity.
Qed.

Lemma demo_table : table demo_reg = Some (Disk 4096) :: Some (Part 0) :: Some (Part 1) :: replicate 29 None.
Proof. vm_compute. reflexivity. Qed.

Lemma demo_parts : registered demo_reg (Part 0) /\ registered demo_reg (Part 1).
Proof. unfold registered. rewrite demo_table. split; [right; left|right; right; left]. Qed.

Lemma partitions_disjoint_witness : disjoint (get demo_reg (Part 0)) (get demo_reg (Part 1)) /\ blockdev_find demo_reg [115; 100; 97; 50] = Some (Part 1).
Proof.
  destruct (partitions_disjoint demo_disks demo_reg demo_fit blockproofs_demo_reach) as (_ & H & Hf). split.
  - apply H; [apply demo_parts|apply demo_parts|discriminate|vm_compute; reflexivity].
  - apply (Hf (Part 1)), demo_parts.
Defined.

Lemma partition_io_contained_witness : blockdev_request demo_reg (Part 1) 99 1 true = Transfer 4096 179 1.
Proof.
  destruct (partition_io_contained demo_disks demo_reg 1 99 1 true demo_fit blockproofs_demo_reach (proj2 demo_parts)) as (a & Ea & H & _); [lia|lia|vm_compute; reflexivity|].
  assert (a = 4096) as -> by (vm_compute in Ea; congruence). rewrite H by (vm_compute; reflexivity). vm_compute. reflexivity.
Defined.

Lemma part_scan_bounds_witness :
  Forall (fun '(l, c, cap) => 0 <= l /\ 0 < c /\ l + c <= 200 /\ c * 512 <= cap) demo_scan.2 /\ demo_scan.2 = [(0, 1, 4096); (1, 1, 4096); (0, 1, 4096)].
Proof.
  split; [|vm_compute; reflexivity].
  apply (part_scan_bounds demo_drv 4096 true (fun _ => 0) (fun _ => 0) demo_disks (blockdev_init demo_disks) demo_scan.1.1 demo_reg demo_scan.2 demo_fit).
  - apply reach_init.
  - split; [vm_compute; eauto|vm_compute; reflexivity].
  - left. vm_compute. reflexivity.
  - apply demo_drv_bytes.
  - intros i. lia.
  - intros i. lia.
  - unfold demo_reg, demo_scan. destruct (blockdev_register_disk _ _ _ _ _ _) as [[rc s'] lg]. reflexivity.
Defined.
