(* ===== verification/Blkcache.v ===== *)
(** * The sector cache (kernel/fs/blkcache.c, blkcache.h)

    The entries, the hash chains through their [hash_next] links and the generation counter;
    an entry is named by its index.  The code drops the lock around device transfers, so a read
    is the sections [read_enter] and [read_install], a write [write_enter] and [write_finish],
    with the transfer in between. *)

From stdpp Require Import base numbers list gmap.
From S2P Require Import Prelude Block BlockProofs.

Abbreviation BLKCACHE_MAX_SECTOR := 4096.
Definition BLKCACHE_ENTRIES : nat := 128.
Abbreviation BLKCACHE_BUCKETS := 64.

Record blk_buf := Buf { data : list Z; bdev : Z; blba : Z; valid : bool; last_used : Z; hash_next : option nat }.
Definition no_buf : blk_buf := Buf (replicate (Z.to_nat BLKCACHE_MAX_SECTOR) 0) 0 0 false 0 None.

Record cache := Cache { entries : list blk_buf; buckets : list (option nat); clock_tick : Z; hits : Z; misses : Z; write_gen : Z }.

Definition set_entries (l : list blk_buf) (c : cache) : cache := Cache l (buckets c) (clock_tick c) (hits c) (misses c) (write_gen c).
Definition set_buckets (l : list (option nat)) (c : cache) : cache := Cache (entries c) l (clock_tick c) (hits c) (misses c) (write_gen c).
Definition tick (c : cache) : cache := Cache (entries c) (buckets c) (u64 (clock_tick c + 1)) (hits c) (misses c) (write_gen c).
Definition count_hit (c : cache) : cache := Cache (entries c) (buckets c) (clock_tick c) (u64 (hits c + 1)) (misses c) (write_gen c).
Definition count_miss (c : cache) : cache := Cache (entries c) (buckets c) (clock_tick c) (hits c) (u64 (misses c + 1)) (write_gen c).
Definition bump (c : cache) : cache := Cache (entries c) (buckets c) (clock_tick c) (hits c) (misses c) (u64 (write_gen c + 1)).
Definition entry (c : cache) (i : nat) : blk_buf := nth i (entries c) no_buf.
Definition set_entry (i : nat) (b : blk_buf) (c : cache) : cache := set_entries (<[i := b]> (entries c)) c.
Definition head (c : cache) (h : nat) : option nat := default None (buckets c !! h).

Definition with_data (d : list Z) (b : blk_buf) : blk_buf := Buf d (bdev b) (blba b) (valid b) (last_used b) (hash_next b).
Definition with_stamp (t : Z) (b : blk_buf) : blk_buf := Buf (data b) (bdev b) (blba b) (valid b) t (hash_next b).
Definition with_next (n : option nat) (b : blk_buf) : blk_buf := Buf (data b) (bdev b) (blba b) (valid b) (last_used b) n.
Definition as_free (b : blk_buf) : blk_buf := Buf (data b) (bdev b) (blba b) false (last_used b) None.
Definition as_key (w dl : Z) (n : option nat) (b : blk_buf) : blk_buf := Buf (data b) w dl true (last_used b) n.

Definition bucket_of (w dl : Z) : nat :=
  let h := Z.lxor (u32 (u32 dl * 2654435761)) (u32 (Z.shiftr w 4)) in Z.to_nat (h mod BLKCACHE_BUCKETS).

(** [mem_copy]: the first [n] bytes of [src] over those of [dst]. *)
Definition mem_copy (dst src : list Z) (n : Z) : list Z := take (Z.to_nat n) src ++ drop (Z.to_nat n) dst.

Definition blkcache_init (pool : list (list Z)) : cache :=
  Cache ((fun d => Buf d 0 0 false 0 None) <$> pool) (replicate (Z.to_nat BLKCACHE_BUCKETS) None) 0 0 0 0.

Definition is_key (w dl : Z) (b : blk_buf) : bool := valid b && (blba b =? dl) && (bdev b =? w).

(** A chain has each entry at most once, so its length bounds the walk. *)
Fixpoint lookup_loop (fuel : nat) (c : cache) (o : option nat) (w dl : Z) : option nat :=
  match fuel, o with
  | S fuel, Some i => if is_key w dl (entry c i) then Some i else lookup_loop fuel c (hash_next (entry c i)) w dl
  | _, _ => None
  end.
Definition lookup (c : cache) (w dl : Z) : option nat := lookup_loop (S BLKCACHE_ENTRIES) c (head c (bucket_of w dl)) w dl.

(** The walk over the links of a chain: [set] writes through the link that was reached. *)
Fixpoint unlink_loop (fuel : nat) (c : cache) (set : option nat -> cache -> cache) (o : option nat) (i : nat) : cache :=
  match fuel, o with
  | S fuel, Some j =>
    if Nat.eqb j i then set (hash_next (entry c i)) c
    else unlink_loop fuel c (fun n c => set_entry j (with_next n (entry c j)) c) (hash_next (entry c j)) i
  | _, _ => c
  end.
Definition unlink_buf (i : nat) (c : cache) : cache :=
  let b := entry c i in
  if negb (valid b) then c
  else
    let h := bucket_of (bdev b) (blba b) in
    let c := unlink_loop (S BLKCACHE_ENTRIES) c (fun n c => set_buckets (<[h := n]> (buckets c)) c) (head c h) i in
    set_entry i (as_free (entry c i)) c.

(** The first free entry, or the first of those used longest ago. *)
Fixpoint victim_loop (l : list blk_buf) (i : nat) (best : option (nat * Z)) : nat :=
  match l with
  | [] => match best with Some (v, _) => v | None => O end
  | b :: l =>
    if negb (valid b) then i
    else
      match best with
      | None => victim_loop l (S i) (Some (i, last_used b))
      | Some (v, t) => victim_loop l (S i) (if last_used b <? t then Some (i, last_used b) else Some (v, t))
      end
  end.

Definition claim (w dl : Z) (c : cache) : nat * cache :=
  match lookup c w dl with
  | Some i => (i, c)
  | None =>
    let v := victim_loop (entries c) O None in
    let c := unlink_buf v c in
    let h := bucket_of w dl in
    let c := set_entry v (as_key w dl (head c h) (entry c v)) c in
    (v, set_buckets (<[h := Some v]> (buckets c)) c)
  end.

(** Copy [src] into the entry and stamp it. *)
Definition fill (i : nat) (src : list Z) (ss : Z) (c : cache) : cache :=
  let c := set_entry i (with_data (mem_copy (data (entry c i)) src ss) (entry c i)) c in
  let c := tick c in
  set_entry i (with_stamp (clock_tick c) (entry c i)) c.

(** [d] translated to its whole disk, inside its own bounds. *)
Definition resolve (r : registry) (d : dev) (lba count : Z) : Z + (dev * Z) :=
  let b := get r d in
  if (count =? 0) || (sector_count b <=? lba) || (sector_count b - lba <? count) then inl (- EIO)
  else inr (blockdev_whole r d, blockdev_disk_lba r d lba).

(** ** [blkcache_read] around the device transfer *)

Definition read_enter (w dl ss : Z) (c : cache) : (list Z + Z) * cache :=
  match lookup c w dl with
  | Some i =>
    let c := tick c in
    let c := set_entry i (with_stamp (clock_tick c) (entry c i)) c in
    (inl (take (Z.to_nat ss) (data (entry c i))), count_hit c)
  | None => (inr (write_gen c), count_miss c)
  end.

Definition read_install (w dl ss gen : Z) (out : list Z) (c : cache) : cache :=
  if negb (write_gen c =? gen) then c
  else let '(i, c) := claim w dl c in fill i out ss c.

(** ** [blkcache_write_multi] around it *)

Definition write_enter (c : cache) : cache := bump c.

Definition in_span (w dl count : Z) (b : blk_buf) : bool := valid b && (bdev b =? w) && (dl <=? blba b) && (blba b <? u64 (dl + count)).

(** The [k]th entry of the loop over the table. *)
Definition refresh (w dl count ss : Z) (ok : bool) (src : list Z) (c : cache) (k : nat) : cache :=
  let b := entry c k in
  if negb (in_span w dl count b) then c
  else if ok then set_entry k (with_data (mem_copy (data b) (drop (Z.to_nat ((blba b - dl) * ss)) src) ss) b) c
  else unlink_buf k c.

Definition write_finish (w dl count ss : Z) (ok : bool) (src : list Z) (c : cache) : cache :=
  let c := bump c in
  if (count =? 1) && ok then let '(i, c) := claim w dl c in fill i src ss c
  else foldl (refresh w dl count ss ok src) c (seq 0 BLKCACHE_ENTRIES).

Definition blkcache_invalidate (w : Z) (c : cache) : cache :=
  foldl (fun c k => if valid (entry c k) && (bdev (entry c k) =? w) then unlink_buf k c else c) (bump c) (seq 0 BLKCACHE_ENTRIES).

Definition blkcache_stats (c : cache) : Z * Z := (hits c, misses c).
