(* ===== verification/BlkcacheProofs.v ===== *)
(** * The sector cache: chains, replacement and coherence

    The hash chains always hold exactly the valid entries, so a lookup finds a cached sector;
    replacement takes a free entry or one used longest ago; and with device transfers
    interleaved in any order a hit returns what the disk holds. *)

From stdpp Require Import base numbers list gmap.
From S2P Require Import Prelude Block BlockProofs Blkcache.

(** ** Chains *)

Fixpoint chain (es : list blk_buf) (o : option nat) (l : list nat) : Prop :=
  match l with
  | [] => o = None
  | i :: l => o = Some i /\ exists b, es !! i = Some b /\ chain es (hash_next b) l
  end.

Lemma bucket_chain_ext es es' o l : (forall i, i ∈ l -> es' !! i = es !! i) -> chain es o l -> chain es' o l.
Proof.
  induction l as [|i l IH] in o |- *; [done|]. intros Hx [-> (b & Hb & Hc)]. split; [done|]. exists b. split; [rewrite Hx by left; done|].
  apply IH; [|done]. intros j Hj. apply Hx. by right.
Qed.

Lemma chain_lt es o l i : chain es o l -> i ∈ l -> (i < length es)%nat.
Proof.
  induction l as [|j l IH] in o |- *; [by intros _ ?%elem_of_nil|]. intros [_ (b & Hb & Hc)] [->|Hi]%elem_of_cons; [by eapply lookup_lt_Some|by eapply IH].
Qed.

Lemma bucket_chain_length es o l : chain es o l -> NoDup l -> (length l <= length es)%nat.
Proof.
  intros Hc Hnd. assert (l ⊆+ seq 0 (length es)) as H.
  { apply NoDup_submseteq; [done|]. intros i Hi. apply elem_of_seq. split; [lia|]. by eapply chain_lt in Hi. }
  apply submseteq_length in H. by rewrite length_seq in H.
Qed.

(** Taking out the entry after [l1 ++ [j]] relinks [j] past it. *)
Lemma chain_cut es o l1 j bj i bi l2 :
  chain es o (l1 ++ j :: i :: l2) -> NoDup (l1 ++ j :: i :: l2) -> es !! j = Some bj -> es !! i = Some bi ->
  chain (<[j := with_next (hash_next bi) bj]> es) o (l1 ++ j :: l2).
Proof.
  induction l1 as [|x l1 IH] in o |- *; intros Hc Hnd Hj Hi; cbn in *.
  - destruct Hc as [-> (b & Hb & _ & (b' & Hb' & Hc))]. simplify_eq. split; [done|]. eexists.
    split; [by rewrite list_lookup_insert_eq by (by eapply lookup_lt_Some)|]. cbn. eapply bucket_chain_ext; [|done].
    intros k Hk. apply list_lookup_insert_ne. intros ->. apply NoDup_cons in Hnd as [Hn _]. apply Hn. by right.
  - destruct Hc as [-> (b & Hb & Hc)]. apply NoDup_cons in Hnd as [Hx Hnd]. split; [done|]. exists b.
    split; [rewrite list_lookup_insert_ne; [done|intros ->; apply Hx; set_solver]|by apply IH].
Qed.

Lemma chain_tail es o l1 i bi l2 : chain es o (l1 ++ i :: l2) -> es !! i = Some bi -> chain es (hash_next bi) l2.
Proof.
  induction l1 as [|x l1 IH] in o |- *; cbn; intros [_ (b & Hb & Hc)] Hi; [by simplify_eq|]. by eapply IH.
Qed.

(** ** The invariant *)

Definition holds (c : cache) (i : nat) (w dl : Z) : Prop := exists b, entries c !! i = Some b /\ valid b = true /\ bdev b = w /\ blba b = dl.
Definition in_bucket (c : cache) (h : nat) (i : nat) : Prop := exists w dl, holds c i w dl /\ bucket_of w dl = h.

Record cache_ok (c : cache) : Prop := {
  co_entries : length (entries c) = BLKCACHE_ENTRIES;
  co_buckets : length (buckets c) = Z.to_nat BLKCACHE_BUCKETS;
  co_data : Forall (fun b => length (data b) = Z.to_nat BLKCACHE_MAX_SECTOR) (entries c);
  co_chain : forall h, (h < Z.to_nat BLKCACHE_BUCKETS)%nat -> exists l, chain (entries c) (head c h) l /\ NoDup l /\ forall i, i ∈ l <-> in_bucket c h i;
  co_unique : forall i j w dl, holds c i w dl -> holds c j w dl -> i = j;
}.

Lemma bucket_of_range w dl : (bucket_of w dl < Z.to_nat BLKCACHE_BUCKETS)%nat.
Proof. unfold bucket_of. assert (0 <= Z.lxor (u32 (u32 dl * 2654435761)) (u32 (Z.shiftr w 4)) mod 64 < 64) by (apply Z.mod_pos_bound; lia). lia. Qed.

Lemma entry_lookup c i b : entries c !! i = Some b -> entry c i = b.
Proof. intros H. unfold entry. by apply nth_lookup_Some. Qed.

Lemma is_key_holds c i b w dl : entries c !! i = Some b -> is_key w dl b = true <-> holds c i w dl.
Proof.
  intros Hb. unfold is_key, holds. rewrite !andb_true_iff, !Z.eqb_eq. split; [intros [[? ?] ?]; by exists b|]. intros (b' & ? & ? & ? & ?). by simplify_eq.
Qed.

Lemma lookup_loop_ok c w dl l : forall fuel o, chain (entries c) o l -> (length l < fuel)%nat ->
  match lookup_loop fuel c o w dl with
  | Some i => i ∈ l /\ holds c i w dl
  | None => forall i, i ∈ l -> ~ holds c i w dl
  end.
Proof.
  induction l as [|i l IH]; intros [|fuel] o Hc Hf; try (cbn in Hf; lia); cbn in Hc.
  - subst o. cbn. by intros i ?%elem_of_nil.
  - destruct Hc as [-> (b & Hb & Hc)]. cbn [lookup_loop]. rewrite (entry_lookup c i b Hb). pose proof (is_key_holds c i b w dl Hb) as Hk.
    destruct (is_key w dl b); [split; [left|by apply Hk]|]. specialize (IH fuel (hash_next b) Hc ltac:(cbn in Hf; lia)).
    destruct (lookup_loop _ _ _ _ _); [split; [right; apply IH|apply IH]|]. intros j [->|Hj]%elem_of_cons; [|by apply IH].
    intros Hh%Hk. done.
Qed.

(** A lookup finds the entry of a sector exactly when there is one. *)
Lemma lookup_ok c w dl : cache_ok c ->
  match lookup c w dl with Some i => holds c i w dl | None => forall i, ~ holds c i w dl end.
Proof.
  intros H. destruct (co_chain c H _ (bucket_of_range w dl)) as (l & Hc & Hnd & Hl).
  pose proof (lookup_loop_ok c w dl l (S BLKCACHE_ENTRIES) _ Hc) as Hk. unfold lookup.
  pose proof (bucket_chain_length _ _ _ Hc Hnd) as Hlen. rewrite (co_entries c H) in Hlen. specialize (Hk ltac:(lia)).
  destruct (lookup_loop _ _ _ _ _) as [i|]; [apply Hk|]. intros i Hi. apply (Hk i); [|done]. apply Hl. by exists w, dl.
Qed.

(** ** Unlinking *)

Lemma unlink_walk c i bi : entries c !! i = Some bi -> forall l fuel set o, chain (entries c) o l -> (length l < fuel)%nat -> i ∈ l -> NoDup l ->
  exists l1 l2, l = l1 ++ i :: l2 /\
    unlink_loop fuel c set o i = match last l1 with None => set (hash_next bi) c | Some j => set_entry j (with_next (hash_next bi) (entry c j)) c end.
Proof.
  intros Hi. induction l as [|j l IH]; intros [|fuel] set o Hc Hf Hin Hnd; try (cbn in Hf; lia); [by apply elem_of_nil in Hin|].
  cbn in Hc. destruct Hc as [-> (b & Hb & Hc)]. cbn [unlink_loop]. destruct (Nat.eqb_spec j i) as [->|Hne].
  - exists [], l. split; [done|]. by rewrite (entry_lookup c i bi Hi).
  - apply elem_of_cons in Hin as [->|Hin]; [done|]. apply NoDup_cons in Hnd as [_ Hnd]. rewrite (entry_lookup c j b Hb).
    destruct (IH fuel (fun n c => set_entry j (with_next n (entry c j)) c) (hash_next b) Hc ltac:(cbn in Hf; lia) Hin Hnd) as (l1 & l2 & -> & ->).
    exists (j :: l1), l2. split; [done|]. rewrite last_cons. by destruct (last l1).
Qed.

(** Two entries that differ in their link only. *)
Definition same_buf (b b' : blk_buf) : Prop :=
  data b' = data b /\ bdev b' = bdev b /\ blba b' = blba b /\ valid b' = valid b /\ last_used b' = last_used b.

(** [c'] is [c] without entry [i]; the counters are the same. *)
Record without (c : cache) (i : nat) (c' : cache) : Prop := {
  wo_ok : cache_ok c';
  wo_other : forall j b, j <> i -> entries c !! j = Some b -> exists b', entries c' !! j = Some b' /\ same_buf b b';
  wo_free : forall b, entries c !! i = Some b -> exists b', entries c' !! i = Some b' /\ valid b' = false /\ data b' = data b /\ last_used b' = last_used b;
  wo_gen : write_gen c' = write_gen c /\ clock_tick c' = clock_tick c;
}.

Lemma same_buf_refl b : same_buf b b.
Proof. by repeat split. Qed.

Lemma head_set c h n g : (h < length (buckets c))%nat -> head (set_buckets (<[h := n]> (buckets c)) c) g = if decide (h = g) then n else head c g.
Proof. intros. unfold head. cbn. case_decide; [subst; by rewrite list_lookup_insert_eq|by rewrite list_lookup_insert_ne]. Qed.

(** What the walk leaves before the entry is marked free. *)
Lemma unlink_links c i bi l1 l2 h :
  cache_ok c -> entries c !! i = Some bi -> (h < Z.to_nat BLKCACHE_BUCKETS)%nat -> chain (entries c) (head c h) (l1 ++ i :: l2) -> NoDup (l1 ++ i :: l2) ->
  exists c1, match last l1 with None => set_buckets (<[h := hash_next bi]> (buckets c)) c | Some j => set_entry j (with_next (hash_next bi) (entry c j)) c end = c1
    /\ write_gen c1 = write_gen c /\ clock_tick c1 = clock_tick c /\ length (entries c1) = length (entries c) /\ length (buckets c1) = length (buckets c)
    /\ (forall k b, entries c !! k = Some b -> exists b', entries c1 !! k = Some b' /\ same_buf b b') /\ entries c1 !! i = Some bi
    /\ chain (entries c1) (head c1 h) (l1 ++ l2)
    /\ forall g l, g <> h -> (forall k, k ∈ l -> k ∉ l1) -> chain (entries c) (head c g) l -> chain (entries c1) (head c1 g) l.
Proof.
  intros H Hi Hh Hc Hnd. destruct (last l1) as [j|] eqn:El.
  - apply last_Some in El as [l1' ->]. rewrite <- app_assoc in Hc, Hnd. cbn in Hc, Hnd.
    assert (exists bj, entries c !! j = Some bj) as [bj Hj] by (apply lookup_lt_is_Some; eapply chain_lt; [done|set_solver]).
    assert (j <> i) as Hji by (intros ->; apply NoDup_app in Hnd as (_ & _ & Hn); apply NoDup_cons in Hn as [Hn _]; apply Hn; left).
    eexists. split; [done|]. cbn. rewrite (entry_lookup c j bj Hj). split_and!; [done|done|by rewrite length_insert|done|..].
    + intros k b Hk. destruct (decide (j = k)) as [<-|Hne]; [|rewrite list_lookup_insert_ne by done; exists b; split; [done|apply same_buf_refl]].
      rewrite list_lookup_insert_eq by (by eapply lookup_lt_Some). simplify_eq. eexists. split; [done|]. by repeat split.
    + by rewrite list_lookup_insert_ne.
    + rewrite <- app_assoc. cbn. by eapply chain_cut.
    + intros g l Hg Hl Hc'. eapply bucket_chain_ext; [|done]. intros k Hk. apply list_lookup_insert_ne. intros ->. apply (Hl k Hk). set_solver.
  - apply last_None in El as ->. eexists. split; [done|]. cbn in *. split_and!; [done|done|done|by rewrite length_insert|..].
    + intros k b Hk. exists b. split; [done|apply same_buf_refl].
    + done.
    + rewrite head_set, decide_True by (done || by rewrite (co_buckets c H)). by apply (chain_tail (entries c) (head c h) [] i bi).
    + intros g l Hg _ Hc'. rewrite head_set, decide_False by (done || by rewrite (co_buckets c H)). done.
Qed.

Lemma holds_same c c' j b b' w dl : entries c !! j = Some b -> entries c' !! j = Some b' -> same_buf b b' -> holds c' j w dl <-> holds c j w dl.
Proof. intros Hb Hb' (E1 & E2 & E3 & E4 & E5). unfold holds. split; intros (x & ? & ? & ? & ?); simplify_eq; eexists; split_and!; try done; congruence. Qed.

Lemma holds_invalid c j b w dl : entries c !! j = Some b -> valid b = false -> ~ holds c j w dl.
Proof. intros Hb Hv (b' & ? & ? & _). congruence. Qed.

Lemma unlink_valid c i bi : cache_ok c -> entries c !! i = Some bi -> valid bi = true -> without c i (unlink_buf i c).
Proof.
  intros H Hi Hv. unfold unlink_buf. rewrite (entry_lookup c i bi Hi), Hv. cbn [negb]. set (h := bucket_of (bdev bi) (blba bi)).
  pose proof (bucket_of_range (bdev bi) (blba bi) : (h < _)%nat) as Hh. destruct (co_chain c H h Hh) as (l & Hc & Hnd & Hl).
  assert (i ∈ l) as Hin by (apply Hl; exists (bdev bi), (blba bi); split; [by exists bi|done]).
  pose proof (bucket_chain_length _ _ _ Hc Hnd) as Hlen. rewrite (co_entries c H) in Hlen.
  destruct (unlink_walk c i bi Hi l (S BLKCACHE_ENTRIES) (fun n c => set_buckets (<[h := n]> (buckets c)) c) _ Hc ltac:(lia) Hin Hnd) as (l1 & l2 & -> & ->).
  destruct (unlink_links c i bi l1 l2 h H Hi Hh Hc Hnd) as (c1 & -> & Eg & Et & Len & Lenb & Hsame & Hi1 & Hch & Hoth).
  rewrite (entry_lookup c1 i bi Hi1). set (c2 := set_entry i (as_free bi) c1).
  assert (i < length (entries c1))%nat as Hil by (by eapply lookup_lt_Some).
  assert (entries c2 !! i = Some (as_free bi)) as Hi2 by (cbn; by apply list_lookup_insert_eq).
  assert (forall j, j <> i -> entries c2 !! j = entries c1 !! j) as Hne by (intros j Hj; cbn; by apply list_lookup_insert_ne).
  assert (forall j b, j <> i -> entries c !! j = Some b -> exists b', entries c2 !! j = Some b' /\ same_buf b b') as Hother.
  { intros j b Hj Hb. destruct (Hsame j b Hb) as (b' & Hb' & Hs). exists b'. by rewrite Hne. }
  assert (forall j w dl, holds c2 j w dl <-> j <> i /\ holds c j w dl) as Hholds.
  { intros j w dl. destruct (decide (j = i)) as [->|Hj]; [split; [by intros ?%(holds_invalid c2 i _ _ _ Hi2 eq_refl)|tauto]|].
    destruct (entries c !! j) as [b|] eqn:Hb.
    - destruct (Hother j b Hj Hb) as (b' & Hb' & Hs). rewrite (holds_same c c2 j b b') by done. tauto.
    - assert (entries c2 !! j = None) as Hn by (rewrite Hne by done; apply lookup_ge_None_2; rewrite Len; by apply lookup_ge_None_1).
      unfold holds. rewrite Hn, Hb. naive_solver. }
  assert (forall g k, in_bucket c2 g k <-> k <> i /\ in_bucket c g k) as Hib by (intros g k; unfold in_bucket; setoid_rewrite Hholds; naive_solver).
  split; [|exact Hother| |done].
  2: { intros b Hb. simplify_eq. exists (as_free bi). by split_and!. }
  split.
  - cbn. rewrite length_insert, Len. apply H.
  - cbn. rewrite Lenb. apply H.
  - pose proof (co_data c H) as Hd. rewrite Forall_lookup in Hd |- *. intros j b' Hb'. destruct (decide (j = i)) as [->|Hj]; [simplify_eq; by apply (Hd i bi Hi)|].
    assert (is_Some (entries c !! j)) as [b Hb] by (apply lookup_lt_is_Some; rewrite <- Len; rewrite Hne in Hb' by done; by eapply lookup_lt_Some).
    destruct (Hother j b Hj Hb) as (b3 & Hb3 & (E & _)). simplify_eq. rewrite E. by apply (Hd j).
  - intros g Hg. destruct (decide (g = h)) as [->|Hgh].
    + exists (l1 ++ l2). assert (NoDup (l1 ++ l2) /\ i ∉ l1 ++ l2) as [Hnd2 Hni].
      { assert (NoDup (i :: l1 ++ l2)) as X by (by rewrite Permutation_middle). apply NoDup_cons in X. tauto. }
      split_and!; [|done|].
      * change (head c2 h) with (head c1 h). eapply bucket_chain_ext; [|done]. intros k Hk. apply Hne. intros ->. done.
      * intros k. rewrite Hib, <- Hl. split; [intros Hk; split; [intros ->; done|set_solver]|]. intros [Hki Hk]. set_solver.
    + destruct (co_chain c H g Hg) as (lg & Hcg & Hndg & Hlg). exists lg.
      assert (forall k, k ∈ lg -> k ∉ l1 ++ i :: l2) as Hdisj.
      { intros k Hk1%Hlg Hk2%Hl. destruct Hk1 as (w & dl & (b & ? & ? & <- & <-) & E1), Hk2 as (w' & dl' & (b' & ? & ? & <- & <-) & E2). congruence. }
      split_and!; [|done|].
      * change (head c2 g) with (head c1 g). eapply bucket_chain_ext; [|apply Hoth; [done| |done]; intros k Hk1 Hk2; apply (Hdisj k Hk1); set_solver].
        intros k Hk. apply Hne. intros ->. apply (Hdisj i Hk). set_solver.
      * intros k. rewrite Hib, <- Hlg. split; [intros Hk; split; [intros ->; apply (Hdisj i Hk); set_solver|done]|tauto].
  - intros j k w dl [_ Hj]%Hholds [_ Hk]%Hholds. by apply (co_unique c H j k w dl).
Qed.

Lemma blkcacheproofs_unlink_ok c i b : cache_ok c -> entries c !! i = Some b -> without c i (unlink_buf i c).
Proof.
  intros H Hb. destruct (valid b) eqn:Hv; [by apply (unlink_valid c i b)|].
  assert (unlink_buf i c = c) as -> by (unfold unlink_buf; by rewrite (entry_lookup c i b Hb), Hv).
  split; [done|intros j x _ Hx; exists x; split; [done|apply same_buf_refl]| |done]. intros x Hx. simplify_eq. by exists b.
Qed.

(** ** Changing an entry's contents *)

Lemma update_ok c i b b' : cache_ok c -> entries c !! i = Some b -> hash_next b' = hash_next b -> valid b' = valid b -> bdev b' = bdev b -> blba b' = blba b ->
  length (data b') = length (data b) -> cache_ok (set_entry i b' c).
Proof.
  intros H Hb E1 E2 E3 E4 E5. assert (i < length (entries c))%nat as Hi by (by eapply lookup_lt_Some).
  assert (forall j w dl, holds (set_entry i b' c) j w dl <-> holds c j w dl) as Hh.
  { intros j w dl. unfold holds. cbn. destruct (decide (i = j)) as [<-|]; [|by rewrite list_lookup_insert_ne]. rewrite list_lookup_insert_eq by done.
    split; intros (x & ? & ? & ? & ?); simplify_eq; eexists; split_and!; try done; congruence. }
  assert (forall o l, chain (entries c) o l -> chain (<[i := b']> (entries c)) o l) as Hc.
  { intros o l. induction l as [|j l IH] in o |- *; [done|]. intros [-> (x & Hx & Hc)]. split; [done|]. destruct (decide (i = j)) as [<-|].
    - simplify_eq. exists b'. rewrite list_lookup_insert_eq by done. split; [done|]. rewrite E1. by apply IH.
    - exists x. rewrite list_lookup_insert_ne by done. split; [done|by apply IH]. }
  split; cbn.
  - rewrite length_insert. apply H.
  - apply H.
  - pose proof (co_data c H) as Hd. apply Forall_insert; [done|]. rewrite E5. rewrite Forall_lookup in Hd. by apply (Hd i).
  - intros h Hlt. destruct (co_chain c H h Hlt) as (l & Hcl & Hnd & Hl). exists l. split_and!; [by apply Hc|done|].
    intros k. rewrite Hl. unfold in_bucket. by setoid_rewrite Hh.
  - intros j k w dl. rewrite !Hh. apply H.
Qed.

(** Entries of [c'] are those of [c] except at [i], up to their links; [i] holds [(w, dl)]. *)
Record claimed (c : cache) (w dl : Z) (i : nat) (c' : cache) : Prop := {
  cl_ok : cache_ok c';
  cl_holds : holds c' i w dl;
  cl_other : forall j b, j <> i -> entries c !! j = Some b -> exists b', entries c' !! j = Some b' /\ same_buf b b';
  cl_gen : write_gen c' = write_gen c /\ clock_tick c' = clock_tick c;
}.

(** The entry that replacement takes. *)
Definition oldest (c : cache) (v : nat) : Prop := exists b, entries c !! v = Some b
  /\ (valid b = false \/ (Forall (fun x => valid x = true /\ last_used b <= last_used x) (entries c))).

Lemma victim_loop_ok l : forall i best,
  (best = None -> l <> []) ->
  let r := victim_loop l i best in
  (exists k b, r = (i + k)%nat /\ l !! k = Some b /\ valid b = false)
  \/ (Forall (fun x => valid x = true) l
      /\ ((exists k b, r = (i + k)%nat /\ l !! k = Some b /\ Forall (fun x => last_used b <= last_used x) l /\ match best with Some (_, t) => last_used b <= t | None => True end)
          \/ exists v t, best = Some (v, t) /\ r = v /\ Forall (fun x => t <= last_used x) l)).
Proof.
  induction l as [|b l IH]; intros i best Hb; cbn [victim_loop].
  - destruct best as [[v t]|]; [|by destruct Hb]. right. split; [constructor|]. right. exists v, t. split_and!; [done|done|constructor].
  - destruct (valid b) eqn:Hv; cbn [negb]; [|left; exists O, b; split_and!; [lia|done|done]].
    set (best' := match best with None => Some (i, last_used b) | Some (v, t) => if last_used b <? t then Some (i, last_used b) else Some (v, t) end).
    assert (match best with None => victim_loop l (S i) (Some (i, last_used b))
            | Some (v, t) => victim_loop l (S i) (if last_used b <? t then Some (i, last_used b) else Some (v, t)) end = victim_loop l (S i) best') as ->
      by (unfold best'; destruct best as [[v t]|]; [|done]; by destruct (_ <? _)).
    assert (exists v t, best' = Some (v, t)) as (v' & t' & Eb) by (unfold best'; destruct best as [[v t]|]; [destruct (_ <? _)|]; eauto).
    specialize (IH (S i) best'). rewrite Eb in IH. specialize (IH ltac:(done)). cbv zeta in IH |- *.
    rewrite Eb.
    assert (t' <= last_used b /\ (match best with Some (_, t) => t' <= t | None => True end)
            /\ ((v' = i /\ t' = last_used b) \/ best = Some (v', t'))) as (Ht1 & Ht2 & Hv').
    { unfold best' in Eb. destruct best as [[v t]|]; [destruct (Z.ltb_spec (last_used b) t)|]; simplify_eq; split_and!; try lia; try done; auto. }
    destruct IH as [(k & x & Er & Hk & Hx)|(Hall & [(k & x & Er & Hk & Hmin & Hx)|(v & t & E & Er & Hmin)])].
    + left. exists (S k), x. split_and!; [lia|done|done].
    + right. split; [by constructor|]. left. exists (S k), x. split_and!; [lia|done|constructor; [lia|done]|]. destruct best as [[v t]|]; [lia|done].
    + injection E as <- <-. right. split; [by constructor|]. destruct Hv' as [[Ev Et]|Ev].
      * left. exists O, b. rewrite Er, <- Et. split_and!; [lia|done|by constructor; [lia|]|]. destruct best as [[v0 t0]|]; [lia|done].
      * right. exists v', t'. split_and!; [done|done|by constructor].
Qed.

Lemma victim_ok c : cache_ok c -> oldest c (victim_loop (entries c) 0 None).
Proof.
  intros H. assert (entries c <> []) as Hne by (intros E; pose proof (co_entries c H) as L; rewrite E in L; done).
  destruct (victim_loop_ok (entries c) 0 None (fun _ => Hne)) as [(k & b & -> & Hk & Hv)|(Hall & [(k & b & -> & Hk & Hmin & _)|(v & t & E & _)])]; [| |done].
  - exists b. split; [done|by left].
  - exists b. split; [done|right]. rewrite Forall_forall in *. eauto.
Qed.

(** Filing a free entry under a sector nobody holds. *)
Lemma blkcacheproofs_file_ok c v bv w dl : cache_ok c -> entries c !! v = Some bv -> valid bv = false -> (forall i, ~ holds c i w dl) ->
  let c1 := set_entry v (as_key w dl (head c (bucket_of w dl)) bv) c in
  claimed c w dl v (set_buckets (<[bucket_of w dl := Some v]> (buckets c1)) c1).
Proof.
  intros H Hv Hf Hnone c1. set (h := bucket_of w dl) in *. set (c2 := set_buckets _ c1). pose proof (bucket_of_range w dl : (h < _)%nat) as Hh.
  assert (v < length (entries c))%nat as Hvl by (by eapply lookup_lt_Some).
  assert (entries c2 !! v = Some (as_key w dl (head c h) bv)) as Hv2 by (cbn; by apply list_lookup_insert_eq).
  assert (forall j, j <> v -> entries c2 !! j = entries c !! j) as Hne by (intros j Hj; cbn; by apply list_lookup_insert_ne).
  assert (forall j x y, holds c2 j x y <-> (j = v /\ x = w /\ y = dl) \/ holds c j x y) as Hholds.
  { intros j x y. destruct (decide (j = v)) as [->|Hj].
    - unfold holds at 1. rewrite Hv2. split; [intros (b & ? & _ & ? & ?); left; by simplify_eq|]. intros [(_ & -> & ->)|Hx]; [by eexists|].
      by apply (holds_invalid c v bv) in Hx.
    - unfold holds. rewrite Hne by done. naive_solver. }
  assert (forall g k, in_bucket c2 g k <-> (k = v /\ g = h) \/ in_bucket c g k) as Hib.
  { intros g k. unfold in_bucket. setoid_rewrite Hholds. unfold h. naive_solver. }
  assert (forall g (l : list nat), (forall i, i ∈ l <-> in_bucket c g i) -> v ∉ l) as Hvl'.
  { intros g l Hl (x & y & Hx & _)%Hl. by apply (holds_invalid c v bv) in Hx. }
  assert (forall g, head c2 g = if decide (h = g) then Some v else head c g) as Hhead.
  { intros g. unfold c2. rewrite head_set by (cbn; by rewrite (co_buckets c H)). done. }
  split; [|apply Hholds; by left|intros j b Hj Hb; exists b; rewrite Hne by done; split; [done|apply same_buf_refl]|done].
  split.
  - cbn. rewrite length_insert. apply H.
  - cbn. rewrite length_insert. apply H.
  - pose proof (co_data c H) as Hd. cbn. apply Forall_insert; [done|]. rewrite Forall_lookup in Hd. by apply (Hd v bv Hv).
  - intros g Hg. destruct (co_chain c H g Hg) as (l & Hc & Hnd & Hl).
    assert (chain (entries c2) (head c g) l) as Hc2 by (eapply bucket_chain_ext; [|done]; intros k Hk; apply Hne; intros ->; by apply (Hvl' g l)).
    destruct (decide (h = g)) as [<-|Hgh].
    + exists (v :: l). rewrite Hhead, decide_True by done. split_and!.
      * split; [done|]. eexists. split; [exact Hv2|done].
      * constructor; [by apply (Hvl' h)|done].
      * intros k. rewrite elem_of_cons, Hl, Hib. tauto.
    + exists l. rewrite Hhead, decide_False by done. split_and!; [done|done|]. intros k. rewrite Hl, Hib. split; [tauto|]. intros [[_ ->]|?]; [done|done].
  - intros i j x y [(-> & -> & ->)|Hi]%Hholds [(-> & E1 & E2)|Hj]%Hholds; [done|by destruct (Hnone j)|subst; by destruct (Hnone i)|by apply (co_unique c H i j x y)].
Qed.

Lemma same_buf_trans a b c : same_buf a b -> same_buf b c -> same_buf a c.
Proof. unfold same_buf. intros (? & ? & ? & ? & ?) (? & ? & ? & ? & ?). repeat split; congruence. Qed.

(** [claim]: the entry that has the sector, or else the one replacement takes. *)
Lemma claim_ok c w dl i c' : cache_ok c -> claim w dl c = (i, c') ->
  claimed c w dl i c' /\ ((holds c i w dl /\ c' = c) \/ ((forall j, ~ holds c j w dl) /\ oldest c i)).
Proof.
  intros H. unfold claim. pose proof (lookup_ok c w dl H) as Hl. destruct (lookup c w dl) as [k|].
  { intros [= <- <-]. split; [|by left]. split; [done|done|intros j b _ Hb; exists b; split; [done|apply same_buf_refl]|done]. }
  pose proof (victim_ok c H) as Hv. set (v := victim_loop (entries c) 0 None) in *. destruct (Hv) as (b & Hb & _).
  destruct (blkcacheproofs_unlink_ok c v b H Hb) as [Hok Hoth Hfree [Hg1 Hg2]]. set (c1 := unlink_buf v c) in *. destruct (Hfree b Hb) as (b1 & Hb1 & Hf1 & _).
  assert (forall j, ~ holds c1 j w dl) as Hnone.
  { intros j Hj. destruct (decide (j = v)) as [->|Hne]; [by apply (holds_invalid c1 v b1) in Hj|].
    destruct Hj as (x & Hx & Hr). assert (is_Some (entries c !! j)) as [y Hy].
    { apply lookup_lt_is_Some. rewrite (co_entries c H), <- (co_entries c1 Hok). by eapply lookup_lt_Some. }
    destruct (Hoth j y Hne Hy) as (x' & Hx' & Hs). apply (Hl j). apply (holds_same c c1 j y x'); [done..|]. exists x. by simplify_eq. }
  rewrite (entry_lookup c1 v b1 Hb1). pose proof (blkcacheproofs_file_ok c1 v b1 w dl Hok Hb1 Hf1 Hnone) as Hcl. cbv zeta in Hcl.
  intros [= <- <-]. split; [|right; done]. destruct Hcl as [C1 C2 C3 [C4 C5]]. split; [done|done| |split; [exact Hg1|exact Hg2]].
  intros j x Hj Hx. destruct (Hoth j x Hj Hx) as (y & Hy & S1). destruct (C3 j y Hj Hy) as (z & Hz & S2). exists z. split; [done|by eapply same_buf_trans].
Qed.

(** ** What the cache stores *)

Definition stored (c : cache) (w dl : Z) (x : list Z) : Prop :=
  exists i b, entries c !! i = Some b /\ valid b = true /\ bdev b = w /\ blba b = dl /\ data b = x.

Lemma stored_holds c i w dl x : cache_ok c -> holds c i w dl -> stored c w dl x -> exists b, entries c !! i = Some b /\ data b = x.
Proof.
  intros H Hh (j & b & Hb & Hv & Hw & Hd & Hx). assert (holds c j w dl) as Hj by (exists b; done). rewrite (co_unique c H i j w dl Hh Hj). eauto.
Qed.

Lemma stored_length c w dl x : cache_ok c -> stored c w dl x -> length x = Z.to_nat BLKCACHE_MAX_SECTOR.
Proof. intros H (i & b & Hb & _ & _ & _ & <-). pose proof (co_data c H) as Hd. rewrite Forall_lookup in Hd. by apply (Hd i). Qed.

Lemma mem_copy_length dst src n : 0 <= n -> (Z.to_nat n <= length src)%nat -> (Z.to_nat n <= length dst)%nat -> length (mem_copy dst src n) = length dst.
Proof. intros. unfold mem_copy. rewrite length_app, length_take, length_drop. lia. Qed.

Lemma mem_copy_take dst src n : (Z.to_nat n <= length src)%nat -> take (Z.to_nat n) (mem_copy dst src n) = take (Z.to_nat n) src.
Proof. intros. unfold mem_copy. rewrite take_app_le by (rewrite length_take; lia). by rewrite take_take, Nat.min_id. Qed.

(** An update at [i] seen through [stored]. *)
Lemma stored_set c i b b' w dl x : entries c !! i = Some b -> stored (set_entry i b' c) w dl x ->
  (valid b' = true /\ bdev b' = w /\ blba b' = dl /\ data b' = x) \/ (exists j y, j <> i /\ entries c !! j = Some y /\ valid y = true /\ bdev y = w /\ blba y = dl /\ data y = x).
Proof.
  intros Hb (j & y & Hy & Hr). cbn in Hy. destruct (decide (i = j)) as [<-|Hne].
  - rewrite list_lookup_insert_eq in Hy by (by eapply lookup_lt_Some). injection Hy as ->. left. exact Hr.
  - rewrite list_lookup_insert_ne in Hy by done. right. exists j, y. split; [congruence|]. split; [exact Hy|exact Hr].
Qed.

Lemma fill_ok c i w dl src ss : cache_ok c -> holds c i w dl -> 0 <= ss <= BLKCACHE_MAX_SECTOR -> (Z.to_nat ss <= length src)%nat ->
  cache_ok (fill i src ss c) /\ write_gen (fill i src ss c) = write_gen c
  /\ forall w' dl' x, stored (fill i src ss c) w' dl' x ->
       (w' = w /\ dl' = dl /\ take (Z.to_nat ss) x = take (Z.to_nat ss) src) \/ ((w', dl') <> (w, dl) /\ stored c w' dl' x).
Proof.
  intros H (b & Hb & Hv & Hw & Hd) Hss Hsrc. pose proof (co_data c H) as Hdat. rewrite Forall_lookup in Hdat. pose proof (Hdat i b Hb) as Hlen.
  assert (i < length (entries c))%nat as Hi by (by eapply lookup_lt_Some).
  set (b1 := with_data (mem_copy (data b) src ss) b). set (c1 := set_entry i b1 c).
  assert (entries c1 !! i = Some b1) as H1 by (cbn; by apply list_lookup_insert_eq).
  assert (fill i src ss c = set_entry i (with_stamp (u64 (clock_tick c + 1)) b1) (tick c1)) as ->.
  { unfold fill. rewrite (entry_lookup c i b Hb). fold b1. fold c1. change (entry (tick c1) i) with (entry c1 i). by rewrite (entry_lookup c1 i b1 H1). }
  assert (cache_ok c1) as Hc1 by (apply (update_ok c i b); try done; cbn; apply mem_copy_length; [lia|done|rewrite Hlen; lia]).
  assert (cache_ok (tick c1)) as Ht by (destruct Hc1; by split).
  split_and!; [by apply (update_ok (tick c1) i b1)|done|]. intros w' dl' x Hs.
  apply (stored_set (tick c1) i b1) in Hs as [(_ & <- & <- & <-)|(j & y & Hne & Hy & Hr)]; [| |done].
  - left. cbn. split_and!; [done..|by apply mem_copy_take].
  - right. cbn in Hy. rewrite list_lookup_insert_ne in Hy by done. split; [|by exists j, y]. intros [= -> ->]. destruct Hr as (? & ? & ? & _).
    apply Hne. apply (co_unique c H j i w dl); [by exists y|by exists b].
Qed.

Lemma stored_claimed c w dl i c' w' dl' x : claimed c w dl i c' -> cache_ok c -> (w', dl') <> (w, dl) -> stored c' w' dl' x -> stored c w' dl' x.
Proof.
  intros [C1 C2 C3 C4] H Hne (j & b & Hb & Hv & <- & <- & <-). destruct (decide (j = i)) as [->|Hji].
  - destruct C2 as (b2 & ? & _ & ? & ?). simplify_eq.
  - assert (is_Some (entries c !! j)) as [y Hy] by (apply lookup_lt_is_Some; rewrite (co_entries c H), <- (co_entries c' C1); by eapply lookup_lt_Some).
    destruct (C3 j y Hji Hy) as (b3 & ? & (E1 & E2 & E3 & E4 & E5)). simplify_eq. exists j, y. by rewrite <- E1, <- E2, <- E3, <- E4.
Qed.

(** Installing [src] as sector [(w, dl)]. *)
Lemma install_ok c w dl src ss : cache_ok c -> 0 <= ss <= BLKCACHE_MAX_SECTOR -> (Z.to_nat ss <= length src)%nat ->
  let c' := let '(i, c1) := claim w dl c in fill i src ss c1 in
  cache_ok c' /\ write_gen c' = write_gen c
  /\ forall w' dl' x, stored c' w' dl' x ->
       (w' = w /\ dl' = dl /\ take (Z.to_nat ss) x = take (Z.to_nat ss) src) \/ ((w', dl') <> (w, dl) /\ stored c w' dl' x).
Proof.
  intros H Hss Hsrc. destruct (claim w dl c) as [i c1] eqn:E. destruct (claim_ok c w dl i c1 H E) as [Hcl _]. cbv zeta.
  destruct (fill_ok c1 i w dl src ss (cl_ok _ _ _ _ _ Hcl) (cl_holds _ _ _ _ _ Hcl) Hss Hsrc) as (H1 & H2 & H3).
  split_and!; [done|rewrite H2; apply Hcl|]. intros w' dl' x [Hs|[Hne Hs]]%H3; [by left|right]. split; [done|]. by apply (stored_claimed c w dl i c1).
Qed.

(** ** The loops over the table *)

(** One round at [k] turns the entry [b] there into [f b], or frees it. *)
Record acts (f : blk_buf -> option blk_buf) (c : cache) (k : nat) (c' : cache) : Prop := {
  ac_ok : cache_ok c';
  ac_gen : write_gen c' = write_gen c;
  ac_other : forall j b, j <> k -> entries c !! j = Some b -> exists b', entries c' !! j = Some b' /\ same_buf b b';
  ac_here : forall b, entries c !! k = Some b -> exists b', entries c' !! k = Some b' /\ (valid b' = true -> exists b1, f b = Some b1 /\ same_buf b1 b');
}.

Lemma loop_ok f g : (forall c k, cache_ok c -> (k < BLKCACHE_ENTRIES)%nat -> acts f c k (g c k)) ->
  (forall b b' b1, same_buf b b' -> f b' = Some b1 -> exists b2, f b = Some b2 /\ same_buf b2 b1) ->
  forall n c, (n <= BLKCACHE_ENTRIES)%nat -> cache_ok c ->
  let c' := foldl g c (seq 0 n) in
  cache_ok c' /\ write_gen c' = write_gen c
  /\ forall j b, entries c !! j = Some b -> exists b', entries c' !! j = Some b'
       /\ if decide (j < n)%nat then valid b' = true -> exists b1, f b = Some b1 /\ same_buf b1 b' else same_buf b b'.
Proof.
  intros Hg Hf. induction n as [|n IH]; intros c Hn H; cbv zeta in *.
  { cbn. split_and!; [done|done|]. intros j b Hb. exists b. split; [done|apply same_buf_refl]. }
  destruct (IH c ltac:(lia) H) as (H1 & H2 & H3). rewrite seq_S, foldl_app. cbn [foldl Nat.add]. set (c1 := foldl g c (seq 0 n)) in *.
  destruct (Hg c1 n H1 ltac:(lia)) as [A1 A2 A3 A4]. split_and!; [done|congruence|]. intros j b Hb. destruct (H3 j b Hb) as (b1 & Hb1 & Hc).
  destruct (decide (j = n)) as [->|Hne].
  - rewrite decide_False in Hc by lia. destruct (A4 b1 Hb1) as (b2 & Hb2 & Hv). exists b2. split; [done|]. rewrite decide_True by lia.
    intros (b3 & E3 & S3)%Hv. destruct (Hf b b1 b3 Hc E3) as (b4 & E4 & S4). exists b4. split; [done|by eapply same_buf_trans].
  - destruct (A3 j b1 Hne Hb1) as (b2 & Hb2 & Hs). exists b2. split; [done|]. destruct (decide (j < n)%nat).
    + rewrite decide_True by lia. intros Hv. destruct Hc as (b3 & E3 & S3); [by destruct Hs as (_ & _ & _ & <- & _)|]. exists b3. split; [done|by eapply same_buf_trans].
    + rewrite decide_False by lia. by eapply same_buf_trans.
Qed.

(** The loop as seen through [stored]. *)
Lemma loop_stored f g c : (forall c k, cache_ok c -> (k < BLKCACHE_ENTRIES)%nat -> acts f c k (g c k)) ->
  (forall b b' b1, same_buf b b' -> f b' = Some b1 -> exists b2, f b = Some b2 /\ same_buf b2 b1) -> cache_ok c ->
  let c' := foldl g c (seq 0 BLKCACHE_ENTRIES) in
  cache_ok c' /\ write_gen c' = write_gen c
  /\ forall w dl x, stored c' w dl x -> exists i b b1, entries c !! i = Some b /\ f b = Some b1 /\ valid b1 = true /\ bdev b1 = w /\ blba b1 = dl /\ data b1 = x.
Proof.
  intros Hg Hf H. destruct (loop_ok f g Hg Hf BLKCACHE_ENTRIES c (le_n _) H) as (H1 & H2 & H3). cbv zeta in *. split_and!; [done|done|].
  intros w dl x (i & b' & Hb' & Hv & <- & <- & <-).
  assert (is_Some (entries c !! i)) as [b Hb] by (apply lookup_lt_is_Some; rewrite (co_entries c H), <- (co_entries _ H1); by eapply lookup_lt_Some).
  destruct (H3 i b Hb) as (b2 & Hb2 & Hc). rewrite Hb' in Hb2. injection Hb2 as <-.
  rewrite decide_True in Hc by (rewrite <- (co_entries c H); by eapply lookup_lt_Some). destruct (Hc Hv) as (b1 & E1 & (S1 & S2 & S3 & S4 & S5)).
  exists i, b, b1. by rewrite <- S1, <- S2, <- S3, <- S4.
Qed.

Lemma acts_keep f c k b : cache_ok c -> entries c !! k = Some b -> f b = Some b -> acts f c k c.
Proof.
  intros H Hb Hf. split; [done|done|intros j x _ Hx; exists x; split; [done|apply same_buf_refl]|].
  intros x Hx. simplify_eq. exists b. split; [done|]. intros _. exists b. split; [done|apply same_buf_refl].
Qed.

Lemma acts_drop f c k b : cache_ok c -> entries c !! k = Some b -> acts f c k (unlink_buf k c).
Proof.
  intros H Hb. destruct (blkcacheproofs_unlink_ok c k b H Hb) as [U1 U2 U3 [U4 _]]. split; [done|done|done|].
  intros x Hx. destruct (U3 x Hx) as (b' & Hb' & Hv & _). exists b'. split; [done|congruence].
Qed.

Definition refresh_buf (w dl count ss : Z) (ok : bool) (src : list Z) (b : blk_buf) : option blk_buf :=
  if negb (in_span w dl count b) then Some b
  else if ok then Some (with_data (mem_copy (data b) (drop (Z.to_nat ((blba b - dl) * ss)) src) ss) b) else None.
Definition drop_buf (w : Z) (b : blk_buf) : option blk_buf := if valid b && (bdev b =? w) then None else Some b.

Lemma same_in_span w dl count b b' : same_buf b b' -> in_span w dl count b' = in_span w dl count b.
Proof. intros (_ & E2 & E3 & E4 & _). unfold in_span. by rewrite E2, E3, E4. Qed.

Lemma refresh_acts w dl count ss ok src c k :
  0 <= ss <= BLKCACHE_MAX_SECTOR -> 0 <= dl -> 0 <= count -> dl + count < W64 -> (Z.to_nat (count * ss) <= length src)%nat -> cache_ok c -> (k < BLKCACHE_ENTRIES)%nat ->
  acts (refresh_buf w dl count ss ok src) c k (refresh w dl count ss ok src c k).
Proof.
  intros Hss Hdl Hct Hw Hsrc H Hk. assert (is_Some (entries c !! k)) as [b Hb] by (apply lookup_lt_is_Some; by rewrite (co_entries c H)).
  unfold refresh. rewrite (entry_lookup c k b Hb). destruct (in_span w dl count b) eqn:Es; cbn [negb]; [|apply (acts_keep _ c k b); [done|done|unfold refresh_buf; by rewrite Es]].
  destruct ok; [|by apply (acts_drop _ c k b)].
  set (b1 := with_data _ b). assert (refresh_buf w dl count ss true src b = Some b1) as Ef by (unfold refresh_buf; by rewrite Es).
  pose proof (co_data c H) as Hdat. rewrite Forall_lookup in Hdat. pose proof (Hdat k b Hb) as Hlen. unfold in_span in Es. rewrite u64_small in Es by lia. zbool.
  assert (cache_ok (set_entry k b1 c)) as Hk1.
  { apply (update_ok c k b); try done. cbn. apply mem_copy_length; [lia| |rewrite Hlen; lia]. rewrite length_drop.
    assert ((blba b - dl + 1) * ss <= count * ss) by (apply Z.mul_le_mono_nonneg_r; lia).
    assert (0 <= (blba b - dl) * ss) by (apply Z.mul_nonneg_nonneg; lia). lia. }
  split; [done|done| |].
  - intros j x Hj Hx. exists x. cbn. rewrite list_lookup_insert_ne by done. split; [done|apply same_buf_refl].
  - intros x Hx. simplify_eq. exists b1. cbn. rewrite list_lookup_insert_eq by (by eapply lookup_lt_Some). split; [done|]. intros _. exists b1. split; [done|apply same_buf_refl].
Qed.

Lemma refresh_buf_same w dl count ss ok src b b' b1 : same_buf b b' -> refresh_buf w dl count ss ok src b' = Some b1 ->
  exists b2, refresh_buf w dl count ss ok src b = Some b2 /\ same_buf b2 b1.
Proof.
  intros Hs. unfold refresh_buf. rewrite (same_in_span w dl count b b' Hs). destruct (negb _); [intros [= <-]; eauto|]. destruct ok; [|done].
  intros [= <-]. eexists. split; [done|]. destruct Hs as (E1 & E2 & E3 & E4 & E5). repeat split; cbn; congruence.
Qed.

Lemma drop_acts w c k : cache_ok c -> (k < BLKCACHE_ENTRIES)%nat ->
  acts (drop_buf w) c k (if valid (entry c k) && (bdev (entry c k) =? w) then unlink_buf k c else c).
Proof.
  intros H Hk. assert (is_Some (entries c !! k)) as [b Hb] by (apply lookup_lt_is_Some; by rewrite (co_entries c H)).
  rewrite (entry_lookup c k b Hb). destruct (valid b && (bdev b =? w)) eqn:E; [by apply (acts_drop _ c k b)|].
  apply (acts_keep _ c k b); [done|done|]. unfold drop_buf. by rewrite E.
Qed.

Lemma drop_buf_same w b b' b1 : same_buf b b' -> drop_buf w b' = Some b1 -> exists b2, drop_buf w b = Some b2 /\ same_buf b2 b1.
Proof. intros Hs. pose proof Hs as (E1 & E2 & E3 & E4 & E5). unfold drop_buf. rewrite E4, E2. destruct (_ && _); [done|]. intros [= <-]. eauto. Qed.

(** ** Transfers in flight *)

(** A read that missed, before and after its device transfer, and a write before and after its
    own. *)
Inductive task :=
  | Miss (w dl gen : Z)
  | Got (w dl gen : Z) (x : list Z)
  | Writing (w dl count : Z) (src : list Z)
  | Wrote (w dl count : Z) (src : list Z) (ok : bool).

(** The cache, what every sector of every disk holds, and the transfers in flight. *)
Record sys := Sys { cch : cache; media : Z -> Z -> list Z; tasks : gmap Z task }.

(** The range a write in flight may change. *)
Definition span (a : task) (w k : Z) : Prop :=
  match a with Writing w' dl count _ | Wrote w' dl count _ _ => w' = w /\ dl <= k < dl + count | _ => False end.
#[global] Instance span_dec a w k : Decision (span a w k).
Proof. destruct a; cbn; apply _. Defined.
Definition covered (s : sys) (w k : Z) : Prop := exists t a, tasks s !! t = Some a /\ span a w k.

Section Coherence.
(** Sector sizes of the disks. *)
Variable ss : Z -> Z.
Hypothesis ss_ok : forall w, 0 < ss w <= BLKCACHE_MAX_SECTOR.

(** The sector [k] of the data of a write at [dl]. *)
Definition sector_of (w dl k : Z) (src : list Z) : list Z := take (Z.to_nat (ss w)) (drop (Z.to_nat ((k - dl) * ss w)) src).

Inductive sys_step (s : sys) : sys -> Prop :=
  | step_hit w dl x c' :
      read_enter w dl (ss w) (cch s) = (inl x, c') -> sys_step s (Sys c' (media s) (tasks s))
  | step_miss t w dl gen c' :
      tasks s !! t = None -> read_enter w dl (ss w) (cch s) = (inr gen, c') -> sys_step s (Sys c' (media s) (<[t := Miss w dl gen]> (tasks s)))
  | step_dev_read t w dl gen :
      tasks s !! t = Some (Miss w dl gen) -> sys_step s (Sys (cch s) (media s) (<[t := Got w dl gen (media s w dl)]> (tasks s)))
  | step_read_error t w dl gen :
      tasks s !! t = Some (Miss w dl gen) -> sys_step s (Sys (cch s) (media s) (delete t (tasks s)))
  | step_install t w dl gen x :
      tasks s !! t = Some (Got w dl gen x) -> sys_step s (Sys (read_install w dl (ss w) gen x (cch s)) (media s) (delete t (tasks s)))
  | step_write t w dl count src :
      (* the callers hold the filesystem lock: no two writes of one sector are in flight *)
      tasks s !! t = None -> (forall k, dl <= k < dl + count -> ~ covered s w k) ->
      0 <= dl -> 0 < count -> dl + count < W64 -> length src = Z.to_nat (count * ss w) -> write_gen (cch s) < W64 - 1 ->
      sys_step s (Sys (write_enter (cch s)) (media s) (<[t := Writing w dl count src]> (tasks s)))
  | step_dev_write t w dl count src (ok : bool) m :
      (* a failed transfer may leave anything in its range *)
      tasks s !! t = Some (Writing w dl count src) -> (forall w' k, length (m w' k) = Z.to_nat (ss w')) ->
      (forall w' k, ~ (w' = w /\ dl <= k < dl + count) -> m w' k = media s w' k) ->
      (ok = true -> forall k, dl <= k < dl + count -> m w k = sector_of w dl k src) ->
      sys_step s (Sys (cch s) m (<[t := Wrote w dl count src ok]> (tasks s)))
  | step_finish t w dl count src ok :
      tasks s !! t = Some (Wrote w dl count src ok) -> write_gen (cch s) < W64 - 1 ->
      sys_step s (Sys (write_finish w dl count (ss w) ok src (cch s)) (media s) (delete t (tasks s)))
  | step_invalidate w :
      write_gen (cch s) < W64 - 1 -> sys_step s (Sys (blkcache_invalidate w (cch s)) (media s) (tasks s)).

Definition writer_ok (m : Z -> Z -> list Z) (a : task) : Prop :=
  match a with
  | Writing w dl count src => 0 <= dl /\ 0 < count /\ dl + count < W64 /\ length src = Z.to_nat (count * ss w)
  | Wrote w dl count src ok => (0 <= dl /\ 0 < count /\ dl + count < W64 /\ length src = Z.to_nat (count * ss w))
      /\ (ok = true -> forall k, dl <= k < dl + count -> m w k = sector_of w dl k src)
  | _ => True
  end.

(** A read in flight: its generation is not from the future, and if it is current the sector
    it read is what the disk holds unless a write is under way. *)
Definition reader_ok (s : sys) (a : task) : Prop :=
  match a with
  | Miss _ _ gen => gen <= write_gen (cch s)
  | Got w dl gen x => gen <= write_gen (cch s) /\ length x = Z.to_nat (ss w) /\ (gen = write_gen (cch s) -> covered s w dl \/ x = media s w dl)
  | _ => True
  end.

Record sys_ok (s : sys) : Prop := {
  sy_cache : cache_ok (cch s);
  sy_gen : 0 <= write_gen (cch s) < W64;
  sy_media : forall w k, length (media s w k) = Z.to_nat (ss w);
  sy_stored : forall w k x, stored (cch s) w k x -> covered s w k \/ take (Z.to_nat (ss w)) x = media s w k;
  sy_reader : forall t a, tasks s !! t = Some a -> reader_ok s a;
  sy_writer : forall t a, tasks s !! t = Some a -> writer_ok (media s) a;
  sy_excl : forall t u a b w k, tasks s !! t = Some a -> tasks s !! u = Some b -> span a w k -> span b w k -> t = u;
}.

(** ** Every section and transfer keeps the cache coherent *)

Lemma read_enter_ok w dl c r c' : cache_ok c -> read_enter w dl (ss w) c = (r, c') ->
  cache_ok c' /\ write_gen c' = write_gen c /\ (forall w' k x, stored c' w' k x -> stored c w' k x)
  /\ match r with inl x => exists y, stored c w dl y /\ x = take (Z.to_nat (ss w)) y | inr gen => gen = write_gen c end.
Proof.
  intros H. unfold read_enter. pose proof (lookup_ok c w dl H) as Hl. destruct (lookup c w dl) as [i|].
  2: { intros [= <- <-]. split_and!; [destruct H; by split|done|done|done]. }
  destruct Hl as (b & Hb & Hv & Hw & Hd). change (entry (tick c) i) with (entry c i). rewrite (entry_lookup c i b Hb).
  assert (cache_ok (tick c)) as Ht by (destruct H; by split). set (c1 := set_entry i _ (tick c)).
  assert (cache_ok c1) as H1 by (by apply (update_ok (tick c) i b)).
  assert (entries c1 !! i = Some (with_stamp (u64 (clock_tick c + 1)) b)) as Hi by (cbn; apply list_lookup_insert_eq; by eapply lookup_lt_Some).
  rewrite (entry_lookup c1 i _ Hi). intros [= <- <-]. split_and!; [destruct H1; by split|done| |].
  - intros w' k x Hs. apply (stored_set (tick c) i b) in Hs as [(? & ? & ? & ?)|(j & y & _ & Hy & Hr)]; [exists i, b; by split_and!|exists j, y; by split|done].
  - exists (data b). split; [exists i, b; by split_and!|done].
Qed.

Lemma finish_ok w dl count src ok c : cache_ok c -> 0 <= dl -> 0 < count -> dl + count < W64 -> length src = Z.to_nat (count * ss w) -> 0 <= write_gen c < W64 - 1 ->
  let c' := write_finish w dl count (ss w) ok src c in
  cache_ok c' /\ write_gen c' = write_gen c + 1
  /\ forall w' k x, stored c' w' k x ->
       (w' = w /\ dl <= k < dl + count /\ ok = true /\ take (Z.to_nat (ss w)) x = sector_of w dl k src) \/ (~ (w' = w /\ dl <= k < dl + count) /\ stored c w' k x).
Proof.
  intros H Hdl Hct Hw Hsrc Hg. cbv zeta. unfold write_finish. pose proof (ss_ok w) as Hss.
  assert (cache_ok (bump c)) as Hb by (destruct H; by split). assert (write_gen (bump c) = write_gen c + 1) as Egen by (cbn; rewrite u64_small; lia).
  destruct ((count =? 1) && ok) eqn:Eo.
  - zbool. subst count. destruct (install_ok (bump c) w dl src (ss w) Hb ltac:(lia) ltac:(lia)) as (L1 & L2 & L3). cbv zeta in *.
    split_and!; [done|congruence|]. intros w' k x [(-> & -> & E)|[Hne Hs]]%L3.
    + left. split_and!; [done|lia|lia|done|]. unfold sector_of. by replace (dl - dl) with 0 by lia.
    + right. split; [|done]. intros [-> Hk]. apply Hne. f_equal. lia.
  - destruct (loop_stored (refresh_buf w dl count (ss w) ok src) (refresh w dl count (ss w) ok src) (bump c)) as (H1 & H2 & H3);
      [intros; apply refresh_acts; lia || done|intros; by eapply refresh_buf_same|done|]. cbv zeta in *. split_and!; [done|congruence|].
    intros w' k x (i & b & b1 & Hi & Hf & Hv & <- & <- & <-)%H3. unfold refresh_buf in Hf. destruct (in_span w dl count b) eqn:Es; cbn [negb] in Hf.
    + unfold in_span in Es. rewrite u64_small in Es by lia. zbool. destruct ok; [|done]. injection Hf as <-. left. cbn. split_and!; [done|lia|lia|done|].
      unfold sector_of. apply mem_copy_take. rewrite length_drop.
      assert ((blba b - dl + 1) * ss w <= count * ss w) by (apply Z.mul_le_mono_nonneg_r; lia). assert (0 <= (blba b - dl) * ss w) by (apply Z.mul_nonneg_nonneg; lia). lia.
    + injection Hf as <-. right. split; [|exists i, b; by split_and!]. intros [E Hk]. unfold in_span in Es. rewrite u64_small in Es by lia.
      rewrite Hv, E, Z.eqb_refl in Es. cbn [andb] in Es. apply andb_false_iff in Es as [Es|Es]; zbool; lia.
Qed.

Lemma invalidate_ok w c : cache_ok c -> 0 <= write_gen c < W64 - 1 ->
  cache_ok (blkcache_invalidate w c) /\ write_gen (blkcache_invalidate w c) = write_gen c + 1
  /\ forall w' k x, stored (blkcache_invalidate w c) w' k x -> w' <> w /\ stored c w' k x.
Proof.
  intros H Hg. assert (cache_ok (bump c)) as Hb by (destruct H; by split). unfold blkcache_invalidate.
  destruct (loop_stored (drop_buf w) (fun c k => if valid (entry c k) && (bdev (entry c k) =? w) then unlink_buf k c else c) (bump c)) as (H1 & H2 & H3);
    [intros; by apply drop_acts|intros; by eapply drop_buf_same|done|]. cbv zeta in *.
  split_and!; [done|rewrite H2; cbn; rewrite u64_small; lia|]. intros w' k x (i & b & b1 & Hi & Hf & Hv & <- & <- & <-)%H3.
  unfold drop_buf in Hf. destruct (valid b && (bdev b =? w)) eqn:E; [done|]. injection Hf as <-. rewrite Hv in E. cbn in E. zbool. split; [done|]. exists i, b. by split_and!.
Qed.

Lemma covered_set s c m t a w k : (forall w k, span a w k <-> exists a0, tasks s !! t = Some a0 /\ span a0 w k) ->
  covered (Sys c m (<[t := a]> (tasks s))) w k <-> covered s w k.
Proof.
  intros Ha. unfold covered. cbn. split.
  - intros (u & b & Hu & Hb). destruct (decide (t = u)) as [<-|].
    + rewrite lookup_insert_eq in Hu. simplify_eq. apply Ha in Hb as (a0 & ? & ?). eauto.
    + rewrite lookup_insert_ne in Hu by done. eauto.
  - intros (u & b & Hu & Hb). destruct (decide (t = u)) as [<-|Hne].
    + exists t, a. rewrite lookup_insert_eq. split; [done|]. apply Ha. eauto.
    + exists u, b. by rewrite lookup_insert_ne.
Qed.

Lemma covered_delete s c m t a w k : tasks s !! t = Some a -> covered s w k -> span a w k \/ covered (Sys c m (delete t (tasks s))) w k.
Proof.
  intros Ht (u & b & Hu & Hb). destruct (decide (u = t)) as [->|Hne]; [left; by simplify_eq|right]. exists u, b. cbn. by rewrite lookup_delete_ne.
Qed.

(** A change of the tasks that is no write: the cache may have forgotten sectors. *)
Lemma sys_ok_tasks s c ts : sys_ok s -> cache_ok c -> write_gen c = write_gen (cch s) ->
  (forall w k x, stored c w k x -> stored (cch s) w k x \/ covered s w k \/ take (Z.to_nat (ss w)) x = media s w k) ->
  (forall w k, covered (Sys c (media s) ts) w k <-> covered s w k) ->
  (forall t a, ts !! t = Some a -> tasks s !! t = Some a \/ ((forall w k, ~ span a w k) /\ reader_ok s a /\ writer_ok (media s) a)) ->
  sys_ok (Sys c (media s) ts).
Proof.
  intros [S1 S2 S3 S4 S5 S6 S7] Hc Hg Hst Hcov Hts. split; cbn [cch media tasks].
  - done.
  - by rewrite Hg.
  - done.
  - intros w k x Hx. rewrite Hcov. destruct (Hst w k x Hx) as [H|[H|H]]; [by apply S4|by left|by right].
  - intros t a Ht. assert (reader_ok s a) as Hr by (destruct (Hts t a Ht) as [?|(_ & ? & _)]; eauto).
    destruct a as [w dl gen|w dl gen x| |]; try done; cbn in *; rewrite Hg; [done|]. destruct Hr as (? & ? & Hx). split_and!; [done..|]. by rewrite Hcov.
  - intros t a Ht. destruct (Hts t a Ht) as [?|(_ & _ & ?)]; eauto.
  - intros t u a b w k Ht Hu Ha Hb. destruct (Hts t a Ht) as [?|(Hn & _)]; [|by destruct (Hn w k)]. destruct (Hts u b Hu) as [?|(Hn & _)]; [|by destruct (Hn w k)]. eauto.
Qed.

Lemma insert_task s t a0 : forall u a, <[t := a0]> (tasks s) !! u = Some a -> (u = t /\ a = a0) \/ (u <> t /\ tasks s !! u = Some a).
Proof. intros u a. rewrite lookup_insert_Some. intros [[-> ->]|[? ?]]; [by left|right]. split; [congruence|done]. Qed.

Lemma delete_task s t : forall u a, delete t (tasks s) !! u = Some a -> u <> t /\ tasks s !! u = Some a.
Proof. intros u a. rewrite lookup_delete_Some. intros [? ?]. split; [congruence|done]. Qed.

Lemma covered_no_span s c m t a w k : tasks s !! t = Some a -> (forall w k, ~ span a w k) -> covered (Sys c m (delete t (tasks s))) w k <-> covered s w k.
Proof.
  intros Ht Ha. split.
  - intros (u & b & [_ Hu]%delete_task & Hb). by exists u, b.
  - intros Hc. destruct (covered_delete s c m t a w k Ht Hc) as [?|?]; [by destruct (Ha w k)|done].
Qed.

Lemma install_step s t w dl gen x : sys_ok s -> tasks s !! t = Some (Got w dl gen x) ->
  sys_ok (Sys (read_install w dl (ss w) gen x (cch s)) (media s) (delete t (tasks s))).
Proof.
  intros H Ht. pose proof (sy_reader s H t _ Ht) as (Hgen & Hlen & Hx). pose proof (ss_ok w) as Hss.
  assert (forall w' k, covered (Sys (read_install w dl (ss w) gen x (cch s)) (media s) (delete t (tasks s))) w' k <-> covered s w' k) as Hcov
    by (intros; by eapply covered_no_span; [|intros ? ? ?]).
  assert (forall u a, delete t (tasks s) !! u = Some a -> tasks s !! u = Some a \/ ((forall w k, ~ span a w k) /\ reader_ok s a /\ writer_ok (media s) a)) as Hts
    by (intros u a Hu%delete_task; left; apply Hu).
  unfold read_install in *. destruct (Z.eqb_spec (write_gen (cch s)) gen) as [Eg|]; cbn [negb] in *; [|apply sys_ok_tasks; auto; apply H].
  destruct (install_ok (cch s) w dl x (ss w) (sy_cache s H) ltac:(lia) ltac:(lia)) as (H1 & H2 & H3). cbv zeta in *.
  apply sys_ok_tasks; try done. intros w' k y [(-> & -> & E)|[_ Hs]]%H3; [|by left]. right.
  destruct (Hx (eq_sym Eg)) as [?|Em]; [by left|right]. rewrite E, take_ge by lia. done.
Qed.


(** After the generation has moved no read in flight may install. *)
Lemma reader_later s s' a : reader_ok s a -> write_gen (cch s') = write_gen (cch s) + 1 -> reader_ok s' a.
Proof. intros H E. destruct a; cbn in *; try done; rewrite E; [lia|]. destruct H as (? & ? & _). split_and!; [lia|done|lia]. Qed.

Lemma write_step s t w dl count src : sys_ok s ->
  tasks s !! t = None -> (forall k, dl <= k < dl + count -> ~ covered s w k) ->
  0 <= dl -> 0 < count -> dl + count < W64 -> length src = Z.to_nat (count * ss w) -> write_gen (cch s) < W64 - 1 ->
  sys_ok (Sys (write_enter (cch s)) (media s) (<[t := Writing w dl count src]> (tasks s))).
Proof.
  intros H Ht Hn H1 H2 H3 H4 H5. pose proof (sy_gen s H) as Hg. set (s' := Sys _ _ _).
  assert (write_gen (cch s') = write_gen (cch s) + 1) as Eg by (cbn; rewrite u64_small; lia).
  assert (forall w' k, covered s w' k -> covered s' w' k) as Hcov.
  { intros w' k (u & b & Hu & Hb). exists u, b. cbn. by rewrite lookup_insert_ne by (intros ->; congruence). }
  destruct H as [S1 S2 S3 S4 S5 S6 S7]. split.
  - destruct S1. by split.
  - lia.
  - done.
  - intros w' k x Hx. destruct (S4 w' k x Hx); [left; auto|by right].
  - intros u a [[-> ->]|[_ Hu]]%insert_task; [done|]. apply (reader_later s); eauto.
  - intros u a [[-> ->]|[_ Hu]]%insert_task; [by split_and!|eauto].
  - intros u v a b w' k [[-> ->]|[Nu Hu]]%insert_task [[-> ->]|[Nv Hv]]%insert_task Ha Hb; [done|..].
    + destruct Ha as [-> Hk]. destruct (Hn k Hk). by exists v, b.
    + destruct Hb as [-> Hk]. destruct (Hn k Hk). by exists u, a.
    + eauto.
Qed.

Lemma dev_write_step s t w dl count src ok m : sys_ok s ->
  tasks s !! t = Some (Writing w dl count src) -> (forall w' k, length (m w' k) = Z.to_nat (ss w')) ->
  (forall w' k, ~ (w' = w /\ dl <= k < dl + count) -> m w' k = media s w' k) ->
  (ok = true -> forall k, dl <= k < dl + count -> m w k = sector_of w dl k src) ->
  sys_ok (Sys (cch s) m (<[t := Wrote w dl count src ok]> (tasks s))).
Proof.
  intros H Ht Hlen Hout Hin. set (s' := Sys _ _ _).
  assert (forall w' k, covered s' w' k <-> covered s w' k) as Hcov.
  { intros. apply covered_set. intros w0 k0. rewrite Ht. cbn. split; [intros ?; eauto|]. intros (a0 & ? & ?). by simplify_eq. }
  assert (forall w' k, ~ covered s w' k -> m w' k = media s w' k) as Hm.
  { intros w' k Hn. apply Hout. intros [-> Hk]. apply Hn. by exists t, (Writing w dl count src). }
  destruct H as [S1 S2 S3 S4 S5 S6 S7].
  assert (forall w' k, covered s w' k \/ ~ covered s w' k) as Hdec.
  { intros w' k. destruct (decide (map_Exists (fun _ a => span a w' k) (tasks s))) as [E|E]; [by left|right]. intros (u & a & Hu & Ha). apply E. by exists u, a. }
  split; cbn [cch media tasks s'].
  - done.
  - done.
  - done.
  - intros w' k x Hx. destruct (Hdec w' k) as [Hc|Hc]; [left; by apply Hcov|]. destruct (S4 w' k x Hx) as [?|E]; [done|right]. rewrite E. symmetry. by apply Hm.
  - intros u a [[-> ->]|[_ Hu]]%insert_task; [done|]. pose proof (S5 u a Hu) as Hr. destruct a as [| w' k gen x | |]; try done. cbn in *.
    destruct Hr as (? & ? & Hx). split_and!; [done..|]. intros E. rewrite Hcov. destruct (Hdec w' k) as [?|Hc]; [by left|].
    destruct (Hx E) as [?|Ex]; [done|right]. rewrite Ex. symmetry. by apply Hm.
  - intros u a [[-> ->]|[Nu Hu]]%insert_task; [split; [apply (S6 t _ Ht)|done]|]. pose proof (S6 u a Hu) as Hr. destruct a as [| | |w' d' c' s0 ok']; try done.
    cbn in *. destruct Hr as [Ha Hr]. split; [done|]. intros E k Hk. rewrite <- Hr by done. apply Hout. intros [-> Hk']. apply Nu.
    eapply (S7 u t _ _ w k Hu Ht); by split.
  - intros u v a b w' k [[-> ->]|[Nu Hu]]%insert_task [[-> ->]|[Nv Hv]]%insert_task Ha Hb; [done| | |eauto].
    + by apply (S7 t v (Writing w dl count src) b w' k).
    + by apply (S7 u t a (Writing w dl count src) w' k).
Qed.

Lemma finish_step s t w dl count src ok : sys_ok s -> tasks s !! t = Some (Wrote w dl count src ok) -> write_gen (cch s) < W64 - 1 ->
  sys_ok (Sys (write_finish w dl count (ss w) ok src (cch s)) (media s) (delete t (tasks s))).
Proof.
  intros H Ht Hgb. destruct (sy_writer s H t _ Ht) as [(A1 & A2 & A3 & A4) Hok]. pose proof (sy_gen s H) as Hg.
  destruct (finish_ok w dl count src ok (cch s) (sy_cache s H) A1 A2 A3 A4 ltac:(lia)) as (F1 & F2 & F3). cbv zeta in *. set (s' := Sys _ _ _).
  destruct H as [S1 S2 S3 S4 S5 S6 S7]. split; cbn [cch media tasks s'].
  - done.
  - lia.
  - done.
  - intros w' k x [(-> & Hk & -> & E)|[Hn Hs]]%F3; [right; rewrite E; symmetry; by apply Hok|].
    destruct (S4 w' k x Hs) as [Hc|?]; [left|by right]. destruct (covered_delete s (cch s') (media s) t _ w' k Ht Hc) as [Hsp|?]; [|done].
    destruct Hn. destruct Hsp as [-> ?]. by split.
  - intros u a [_ Hu]%delete_task. by apply (reader_later s); eauto.
  - intros u a [_ Hu]%delete_task. eauto.
  - intros u v a b w' k [_ Hu]%delete_task [_ Hv]%delete_task. eauto.
Qed.

Lemma sys_step_ok s s' : sys_ok s -> sys_step s s' -> sys_ok s'.
Proof.
  intros H Hs. pose proof (sy_gen s H) as Hg. destruct Hs as [w dl x c' E|t w dl gen c' Ht E|t w dl gen Ht|t w dl gen Ht|t w dl gen x Ht|t w dl count src Ht Hn H1 H2 H3 H4 H5
    |t w dl count src ok m Ht Hl Ho Hi|t w dl count src ok Ht Hgb|w Hgb].
  - destruct (read_enter_ok w dl (cch s) (inl x) c' (sy_cache s H) E) as (R1 & R2 & R3 & _). apply sys_ok_tasks; auto.
  - destruct (read_enter_ok w dl (cch s) (inr gen) c' (sy_cache s H) E) as (R1 & R2 & R3 & R4). apply sys_ok_tasks; auto.
    + intros w' k. apply covered_set. intros ? ?. rewrite Ht. naive_solver.
    + intros u a [[-> ->]|[_ Hu]]%insert_task; [right; split_and!; [intros ? ? []|cbn; lia|done]|by left].
  - apply sys_ok_tasks; auto; [apply H| |].
    + intros w' k. apply covered_set. intros ? ?. rewrite Ht. naive_solver.
    + intros u a [[-> ->]|[_ Hu]]%insert_task; [right|by left]. pose proof (sy_reader s H t _ Ht) as Hr. cbn in *.
      split_and!; [intros ? ? []|done|apply H|by right|done].
  - apply sys_ok_tasks; auto; [apply H| |intros u a [_ Hu]%delete_task; by left]. intros w' k. by eapply covered_no_span; [|intros ? ? ?].
  - by apply install_step.
  - by apply write_step.
  - by apply dev_write_step.
  - by apply finish_step.
  - destruct (invalidate_ok w (cch s) (sy_cache s H) ltac:(lia)) as (I1 & I2 & I3). destruct H as [S1 S2 S3 S4 S5 S6 S7]. split; cbn [cch media tasks]; try done.
    + lia.
    + intros w' k x [_ Hx]%I3. by apply S4.
    + intros t a Ht. apply (reader_later s); eauto.
Qed.

(** ** What the cache promises *)

(** At boot the pool has a buffer per entry and nothing is in flight. *)
Inductive sys_reach : sys -> Prop :=
  | sys_init pool m :
      length pool = BLKCACHE_ENTRIES -> Forall (fun d => length d = Z.to_nat BLKCACHE_MAX_SECTOR) pool -> (forall w k, length (m w k) = Z.to_nat (ss w)) ->
      sys_reach (Sys (blkcache_init pool) m ∅)
  | sys_next s s' : sys_reach s -> sys_step s s' -> sys_reach s'.

Lemma blkcacheproofs_sys_init_ok pool m : length pool = BLKCACHE_ENTRIES -> Forall (fun d => length d = Z.to_nat BLKCACHE_MAX_SECTOR) pool ->
  (forall w k, length (m w k) = Z.to_nat (ss w)) -> sys_ok (Sys (blkcache_init pool) m ∅).
Proof.
  intros Hl Hp Hm. assert (forall i b, entries (blkcache_init pool) !! i = Some b -> valid b = false) as Hv.
  { intros i b. cbn. rewrite list_lookup_fmap. intros (x & _ & ->)%fmap_Some. done. }
  assert (forall i w dl, ~ holds (blkcache_init pool) i w dl) as Hh by (intros i w dl (b & Hb%Hv & ? & _); congruence).
  split; cbn [cch media tasks]; try done.
  - split.
    + cbn. by rewrite length_fmap.
    + done.
    + cbn. by apply Forall_fmap.
    + intros h Hlt. exists []. unfold head. cbn [buckets blkcache_init]. rewrite lookup_replicate_2 by done. split_and!; [done|constructor|].
      intros i. split; [by intros ?%elem_of_nil|]. intros (w & dl & Hx & _). by destruct (Hh i w dl).
    + intros i j w dl Hi. by destruct (Hh i w dl).
  - intros w k x (i & b & Hb%Hv & ? & _). congruence.
Qed.

Lemma sys_reach_ok s : sys_reach s -> sys_ok s.
Proof. induction 1; [by apply blkcacheproofs_sys_init_ok|by eapply sys_step_ok]. Qed.
End Coherence.

(** C9: coherence.  With sector reads, single and multi-sector writes, failed transfers and
    invalidations interleaved in any order, as long as the writers of a sector are serialised,
    a cached read returns exactly what the disk holds, unless a write of that very sector is in
    flight; in particular a read that raced a write never leaves the old bytes behind. *)
Theorem blkcache_coherent ss s w dl x c' :
  (forall w, 0 < ss w <= BLKCACHE_MAX_SECTOR) -> sys_reach ss s -> read_enter w dl (ss w) (cch s) = (inl x, c') ->
  covered s w dl \/ x = media s w dl.
Proof.
  intros Hss Hr E. pose proof (sys_reach_ok ss Hss s Hr) as H.
  destruct (read_enter_ok ss w dl (cch s) (inl x) c' (sy_cache ss s H) E) as (_ & _ & _ & y & Hy & ->). by apply (sy_stored ss s H).
Qed.

(** replacement.  [claim] returns the entry that already has the sector, and otherwise a
    free entry, or when there is none the one used longest ago; every other cached sector
    stays cached with its bytes. *)
Theorem blkcache_claim_spec ss s w dl i c' :
  (forall w, 0 < ss w <= BLKCACHE_MAX_SECTOR) -> sys_reach ss s -> claim w dl (cch s) = (i, c') ->
  holds c' i w dl /\ ((holds (cch s) i w dl /\ c' = cch s) \/ ((forall j, ~ holds (cch s) j w dl) /\ oldest (cch s) i))
  /\ forall j w' dl' b, j <> i -> entries (cch s) !! j = Some b -> valid b = true -> bdev b = w' -> blba b = dl' -> stored c' w' dl' (data b).
Proof.
  intros Hss Hr E. pose proof (sys_reach_ok ss Hss s Hr) as H. destruct (claim_ok (cch s) w dl i c' (sy_cache ss s H) E) as [Hcl Hcase].
  split_and!; [apply Hcl|done|]. intros j w' dl' b Hj Hb Hv <- <-. destruct (cl_other _ _ _ _ _ Hcl j b Hj Hb) as (b' & Hb' & (E1 & E2 & E3 & E4 & _)).
  exists j, b'. by rewrite E1, E2, E3, E4.
Qed.

(** one entry per sector.  Through a registered partition and through its disk the same
    sector has the same key in the cache, and a range outside the partition is refused. *)
Theorem blkcache_alias m r i lba count :
  disks_fit m -> reg_reach m r -> registered r (Part i) -> 0 <= lba -> 0 < count ->
  exists a, parent (get r (Part i)) = Some a
    /\ if lba + count <=? sector_count (get r (Part i))
       then resolve r (Part i) lba count = inr (Disk a, start_lba (get r (Part i)) + lba)
            /\ resolve r (Disk a) (start_lba (get r (Part i)) + lba) count = resolve r (Part i) lba count
       else resolve r (Part i) lba count = inl (- EIO).
Proof.
  intros Hm Hr Hi Hl Hc. pose proof (reach_ok m r Hm Hr) as H. destruct (ro_part r H i Hi) as (a & Ha & Ep & L1 & L2 & L3). exists a. split; [done|].
  assert (0 <= sector_count (get r (Disk a)) < W64) as Hz by (cbn; destruct (disks r !! a) eqn:E; [by apply (ro_sizes r H a)|cbn; lia]).
  assert (forall d x, 0 <= x -> resolve r d x count = if x + count <=? sector_count (get r d) then inr (blockdev_whole r d, blockdev_disk_lba r d x) else inl (- EIO)) as Hres.
  { intros d x Hx. unfold resolve. destruct (Z.leb_spec (x + count) (sector_count (get r d))).
    - replace (_ || _ || _) with false; [done|]. symmetry. rewrite !orb_false_iff. split_and!; [apply Z.eqb_neq|apply Z.leb_gt|apply Z.ltb_ge]; lia.
    - replace (_ || _ || _) with true; [done|]. symmetry. destruct (Z.leb_spec (sector_count (get r d)) x); [by rewrite orb_true_r|].
      rewrite (proj2 (Z.ltb_lt _ _)) by lia. by rewrite orb_true_r. }
  rewrite (Hres (Part i)) by done. destruct (Z.leb_spec (lba + count) (sector_count (get r (Part i)))); [|done].
  unfold blockdev_whole, blockdev_disk_lba. rewrite Ep, u64_small by lia. split; [done|].
  rewrite (Hres (Disk a)) by lia. rewrite (proj2 (Z.leb_le _ _)) by lia. unfold blockdev_whole, blockdev_disk_lba. destruct (ro_disk r H a Ha) as [-> ->].
  by rewrite u64_small by lia.
Qed.

(** A write of one sector of a disk, from the call to its end. *)
Definition demo_ss (w : Z) : Z := 2.
Definition demo_pool : list (list Z) := replicate BLKCACHE_ENTRIES (replicate (Z.to_nat BLKCACHE_MAX_SECTOR) 0).
Definition demo_media (w k : Z) : list Z := if (w =? 64) && (k =? 5) then [7; 8] else [0; 0].
Definition demo_sys0 : sys := Sys (blkcache_init demo_pool) (fun _ _ => [0; 0]) ∅.
Definition demo_sys1 : sys := Sys (write_enter (cch demo_sys0)) (media demo_sys0) (<[1 := Writing 64 5 1 [7; 8]]> (tasks demo_sys0)).
Definition demo_sys2 : sys := Sys (cch demo_sys1) demo_media (<[1 := Wrote 64 5 1 [7; 8] true]> (tasks demo_sys1)).
Definition demo_sys : sys := Sys (write_finish 64 5 1 (demo_ss 64) true [7; 8] (cch demo_sys2)) (media demo_sys2) (delete 1 (tasks demo_sys2)).

Lemma demo_ss_ok w : 0 < demo_ss w <= BLKCACHE_MAX_SECTOR.
Proof. unfold demo_ss. lia. Qed.

Lemma demo_sys_reach : sys_reach demo_ss demo_sys.
Proof.
  apply (sys_next demo_ss demo_sys2); [apply (sys_next demo_ss demo_sys1); [apply (sys_next demo_ss demo_sys0)|]|].
  - apply (sys_init demo_ss demo_pool (fun _ _ => [0; 0])); [done| |done]. apply Forall_replicate. by rewrite length_replicate.
  - apply (step_write demo_ss demo_sys0 1 64 5 1 [7; 8]); try done. intros k _ (t & a & Ht & _). cbn in Ht. by rewrite lookup_empty in Ht.
  - apply (step_dev_write demo_ss demo_sys1 1 64 5 1 [7; 8] true demo_media).
    + apply lookup_insert_eq.
    + intros w k. unfold demo_media. by destruct (_ && _).
    + intros w k Hn. cbn. unfold demo_media. destruct ((w =? 64) && (k =? 5)) eqn:E; [|done]. zbool. destruct Hn. lia.
    + intros _ k Hk. assert (k = 5) as -> by lia. reflexivity.
  - apply (step_finish demo_ss demo_sys2 1 64 5 1 [7; 8] true); [apply lookup_insert_eq|reflexivity].
Qed.

Lemma blkcache_coherent_witness : fst (read_enter 64 5 (demo_ss 64) (cch demo_sys)) = inl [7; 8] /\ (covered demo_sys 64 5 \/ [7; 8] = media demo_sys 64 5).
Proof.
  assert (fst (read_enter 64 5 (demo_ss 64) (cch demo_sys)) = inl [7; 8]) as E by (vm_compute; reflexivity). split; [exact E|].
  apply (blkcache_coherent demo_ss demo_sys 64 5 [7; 8] (snd (read_enter 64 5 (demo_ss 64) (cch demo_sys))) demo_ss_ok demo_sys_reach).
  rewrite <- E. apply surjective_pairing.
Defined.

Lemma blkcache_claim_spec_witness : holds (snd (claim 64 9 (cch demo_sys))) (fst (claim 64 9 (cch demo_sys))) 64 9.
Proof.
  apply (blkcache_claim_spec demo_ss demo_sys 64 9 (fst (claim 64 9 (cch demo_sys))) (snd (claim 64 9 (cch demo_sys))) demo_ss_ok demo_sys_reach).
  apply surjective_pairing.
Defined.

Lemma blkcache_alias_witness : resolve demo_reg (Disk 4096) 90 1 = resolve demo_reg (Part 1) 10 1.
Proof.
  destruct (blkcache_alias demo_disks demo_reg 1 10 1 demo_fit blockproofs_demo_reach (proj2 demo_parts)) as (a & Ea & H); [lia|lia|].
  assert (a = 4096) as -> by (vm_compute in Ea; congruence).
  assert (10 + 1 <=? sector_count (get demo_reg (Part 1)) = true) as E by (vm_compute; reflexivity). rewrite E in H. destruct H as [_ H].
  assert (start_lba (get demo_reg (Part 1)) = 80) as E2 by (vm_compute; reflexivity). rewrite E2 in H. exact H.
Defined.
