(* ===== verification/Net.v ===== *)
(** * Checksums, routes, IPv4 and UDP (kernel/net/net.c, net.h, route.c)

    A packet is the list of its bytes; a field of a packed header is read and
    written at its offset, in the byte order of the machine (little endian),
    and the [_n] fields hold network-order values through [htons_k] and
    [htonl_k] exactly as in the source.  [net_ipv4_output] and [net_udp_output]
    build packets, [net_ipv4_input] and [udp_input] take them apart; the device
    they leave through and arrive on is the [netdev] record, and what runs
    above (the socket layer, ICMP, TCP) is what the results are handed to.

    Theorems: the checksum is the ones'-complement sum, its folding loop ends,
    storing a checksum makes verification succeed and a change confined to one
    16-bit word is caught; a UDP datagram comes out of the receive path as it
    went into the send path, except in two corner cases that are exhibited; the
    routing table answers with a longest matching prefix. *)

From stdpp Require Import base numbers list.
From S2P Require Import Prelude.

Abbreviation EBUSY := 16.
Abbreviation ENOSPC := 28.
Abbreviation EMSGSIZE := 90.
Abbreviation ENETUNREACH := 101.
Abbreviation ENOBUFS := 105.

(** ** Byte order *)

Definition htons_k (v : Z) : Z := u16 (Z.lor (Z.shiftl v 8) (Z.shiftr v 8)).
Definition ntohs_k (v : Z) : Z := htons_k v.
Definition htonl_k (v : Z) : Z :=
  u32 (Z.lor (Z.lor (Z.lor (Z.shiftl (Z.land v 0xFF) 24) (Z.shiftl (Z.land v 0xFF00) 8))
                    (Z.shiftr (Z.land v 0xFF0000) 8))
             (Z.shiftr (Z.land v 0xFF000000) 24)).
Definition ntohl_k (v : Z) : Z := htonl_k v.

(** Stores and loads of 16- and 32-bit objects in little-endian memory. *)
Definition st16 (v : Z) : list Z := [u8 v; u8 (Z.shiftr v 8)].
Definition st32 (v : Z) : list Z := [u8 v; u8 (Z.shiftr v 8); u8 (Z.shiftr v 16); u8 (Z.shiftr v 24)].
Definition ld8 (l : list Z) (o : nat) : Z := nth o l 0.
Definition ld16 (l : list Z) (o : nat) : Z := ld8 l o + 256 * ld8 l (S o).
Definition ld32 (l : list Z) (o : nat) : Z := ld16 l o + 65536 * ld16 l (o + 2).

(** ** The internet checksum *)

Fixpoint checksum_partial (data : list Z) (sum : Z) : Z :=
  match data with
  | a :: b :: l => checksum_partial l (u32 (sum + Z.lor (Z.shiftl a 8) b))
  | [a] => u32 (sum + Z.shiftl a 8)
  | [] => sum
  end.

(** [while (sum >> 16) sum = (sum & 0xFFFF) + (sum >> 16)], at most [fuel] times. *)
Fixpoint fold_loop (fuel : nat) (sum : Z) : Z :=
  match fuel with
  | O => sum
  | S fuel => if Z.shiftr sum 16 =? 0 then sum
              else fold_loop fuel (u32 (Z.land sum 0xFFFF + Z.shiftr sum 16))
  end.

(** Two rounds end the loop on every 32-bit sum (lemma [fold_loop_done]). *)
Definition checksum_fold (sum : Z) : Z := u16 (Z.lnot (fold_loop 2 sum)).

Definition net_checksum (data : list Z) (start : Z) : Z := checksum_fold (checksum_partial data start).

Definition ip_pseudo_sum (src_n dst_n proto l4_len : Z) : Z :=
  let sum := checksum_partial (st32 src_n) 0 in
  let sum := checksum_partial (st32 dst_n) sum in
  let sum := checksum_partial [0; proto] sum in
  checksum_partial (st16 (htons_k l4_len)) sum.

Definition net_l4_checksum (src_n dst_n proto : Z) (seg : list Z) : Z :=
  let sum := ip_pseudo_sum src_n dst_n proto (u16 (Z.of_nat (length seg))) in
  let ck := checksum_fold (checksum_partial seg sum) in
  htons_k (if ck =? 0 then 0xFFFF else ck).

Definition net_l4_verify (src_n dst_n proto : Z) (seg : list Z) : bool :=
  let sum := ip_pseudo_sum src_n dst_n proto (u16 (Z.of_nat (length seg))) in
  checksum_fold (checksum_partial seg sum) =? 0.

Definition udp_pseudo_sum (src_n dst_n udp_len : Z) : Z :=
  let sum := checksum_partial (st32 src_n) 0 in
  let sum := checksum_partial (st32 dst_n) sum in
  u32 (u32 (sum + 17) + udp_len).

(** ** Routes (kernel/net/route.c) *)

Record route := Route { rt_dst_n : Z; rt_mask_n : Z; rt_gw_n : Z; rt_dev : option nat; prefix_len : Z }.

Abbreviation ROUTE_MAX := (8)%nat.

(** [while (m & 0x80000000u) { n++; m <<= 1; }]; 32 rounds empty a 32-bit word. *)
Fixpoint prefix_loop (fuel : nat) (m n : Z) : Z :=
  match fuel with
  | O => n
  | S fuel => if Z.land m 0x80000000 =? 0 then n else prefix_loop fuel (u32 (Z.shiftl m 1)) (n + 1)
  end.

Definition mask_prefix_len (mask_n : Z) : Z := prefix_loop 32 (ntohl_k mask_n) 0.

(** The slot [route_add] writes: the entry for the same destination and mask
    if there is one, otherwise the first free entry ([slot] so far). *)
Fixpoint route_slot (dst_n mask_n : Z) (i : nat) (slot : option nat) (tbl : list route) : option nat :=
  match tbl with
  | [] => slot
  | r :: tbl =>
      match rt_dev r with
      | Some _ => if (rt_dst_n r =? Z.land dst_n mask_n) && (rt_mask_n r =? mask_n) then Some i
                  else route_slot dst_n mask_n (S i) slot tbl
      | None => route_slot dst_n mask_n (S i) (match slot with None => Some i | _ => slot end) tbl
      end
  end.

Definition route_add (tbl : list route) (dst_n mask_n gw_n : Z) (dev : option nat) : Z * list route :=
  match dev with
  | None => (- EINVAL, tbl)
  | Some d =>
      match route_slot dst_n mask_n 0 None tbl with
      | None => (- ENOSPC, tbl)
      | Some i => (0, <[i := Route (Z.land dst_n mask_n) mask_n gw_n (Some d) (mask_prefix_len mask_n)]> tbl)
      end
  end.

Definition route_flush_dev (tbl : list route) (dev : nat) : list route :=
  (fun r => if decide (rt_dev r = Some dev)
            then Route (rt_dst_n r) (rt_mask_n r) (rt_gw_n r) None (prefix_len r) else r) <$> tbl.

Definition route_match (dst_n : Z) (r : route) : bool :=
  match rt_dev r with Some _ => Z.land dst_n (rt_mask_n r) =? rt_dst_n r | None => false end.

Fixpoint route_best (dst_n : Z) (best : option route) (tbl : list route) : option route :=
  match tbl with
  | [] => best
  | r :: tbl =>
      if route_match dst_n r
      then route_best dst_n (match best with
                             | None => Some r
                             | Some b => if prefix_len b <? prefix_len r then Some r else Some b
                             end) tbl
      else route_best dst_n best tbl
  end.

(** The device and the next hop. *)
Definition route_lookup (tbl : list route) (dst_n : Z) : option (nat * Z) :=
  match route_best dst_n None tbl with
  | None => None
  | Some b => match rt_dev b with
              | Some d => Some (d, if rt_gw_n b =? 0 then dst_n else rt_gw_n b)
              | None => None
              end
  end.

(** ** Devices *)

Record netdev := Netdev { mtu : Z; ip_n : Z; tx_packets : Z; rx_packets : Z; rx_dropped : Z }.

Abbreviation IP_LOOPBACK_N := 0x0100007F.
Abbreviation IP_BROADCAST_N := 0xFFFFFFFF.
Abbreviation LOOPBACK := (0)%nat.

Definition route_init : list route :=
  snd (route_add (replicate ROUTE_MAX (Route 0 0 0 None 0)) (htonl_k 0x7F000000) (htonl_k 0xFF000000) 0 (Some LOOPBACK)).

Definition net_ifconfig (tbl : list route) (devs : list netdev) (d : nat) (addr_n mask_n gw_n : Z)
  : list route * list netdev :=
  match devs !! d with
  | None => (tbl, devs)
  | Some dev =>
      let tbl := route_flush_dev tbl d in
      let devs := <[d := Netdev (mtu dev) addr_n (tx_packets dev) (rx_packets dev) (rx_dropped dev)]> devs in
      let tbl := snd (route_add tbl IP_BROADCAST_N 0xFFFFFFFF 0 (Some d)) in
      let tbl := if addr_n =? 0 then tbl else snd (route_add tbl (Z.land addr_n mask_n) mask_n 0 (Some d)) in
      let tbl := if gw_n =? 0 then tbl else snd (route_add tbl 0 0 gw_n (Some d)) in
      (tbl, devs)
  end.

Definition net_route (tbl : list route) (dst_n : Z) : option nat :=
  if dst_n =? 0 then Some LOOPBACK else fst <$> route_lookup tbl dst_n.

(** ** IPv4 *)

Definition ipv4_bytes (total id protocol ck src dst : Z) : list Z :=
  [0x45; 0] ++ st16 (htons_k (u16 total)) ++ st16 (htons_k id) ++ st16 0x0040
  ++ [64; protocol] ++ st16 ck ++ st32 src ++ st32 dst.

(** The packet handed to the device, or an error; [mem] is whether [kmalloc]
    succeeds.  [id] is [ip_next_id]; its next value is returned. *)
Definition net_ipv4_output (tbl : list route) (devs : list netdev) (mem : bool) (id src_n dst_n protocol : Z)
  (payload : list Z) : Z + (nat * list Z * Z) :=
  match net_route tbl dst_n ≫= (fun d => pair d <$> devs !! d) with
  | None => inl (- ENETUNREACH)
  | Some (d, dev) =>
      let len := Z.of_nat (length payload) in
      if mtu dev <? len + 20 then inl (- EMSGSIZE)
      else if negb mem then inl (- ENOBUFS)
      else
        let total := 20 + len in
        let src := if src_n =? 0 then ip_n dev else src_n in
        let dst := if dst_n =? 0 then ip_n dev else dst_n in
        let hdr := ipv4_bytes total id protocol 0 src dst in
        inr (d, ipv4_bytes total id protocol (htons_k (net_checksum hdr 0)) src dst ++ payload, u16 (id + 1))
  end.

(** What the receive path does with a packet: drop it, or hand the payload to
    the handler of its protocol with the header's addresses. *)
Inductive verdict :=
  | Drop
  | ToUdp (src_n dst_n : Z) (payload : list Z)
  | ToIcmp (src_n dst_n : Z) (payload : list Z)
  | ToTcp (src_n dst_n : Z) (payload : list Z).

Definition net_ipv4_input (pkt : list Z) : verdict :=
  let len := Z.of_nat (length pkt) in
  if len <? 20 then Drop
  else if negb (Z.shiftr (ld8 pkt 0) 4 =? 4) then Drop
  else
    let ihl := Z.land (ld8 pkt 0) 0x0F * 4 in
    if (ihl <? 20) || (len <? ihl) then Drop
    else
      let total := ntohs_k (ld16 pkt 2) in
      if (total <? ihl) || (len <? total) then Drop
      else if negb (net_checksum (take (Z.to_nat ihl) pkt) 0 =? 0) then Drop
      else
        let frag := ntohs_k (ld16 pkt 6) in
        if ctrue (Z.land frag 0x3FFF) && (ctrue (Z.land frag 0x2000) || ctrue (Z.land frag 0x1FFF)) then Drop
        else
          let payload := take (Z.to_nat (total - ihl)) (drop (Z.to_nat ihl) pkt) in
          let proto := ld8 pkt 9 in
          if proto =? 17 then ToUdp (ld32 pkt 12) (ld32 pkt 16) payload
          else if proto =? 1 then ToIcmp (ld32 pkt 12) (ld32 pkt 16) payload
          else if proto =? 6 then ToTcp (ld32 pkt 12) (ld32 pkt 16) payload
          else Drop.

(** The counters [net_ipv4_input] leaves on the device. *)
Definition rx_account (dev : netdev) (v : verdict) : netdev :=
  Netdev (mtu dev) (ip_n dev) (tx_packets dev) (u64 (rx_packets dev + 1))
         (match v with Drop => u64 (rx_dropped dev + 1) | _ => rx_dropped dev end).

(** ** UDP *)

Definition udp_bytes (sport_n dport_n total ck : Z) (data : list Z) : list Z :=
  st16 sport_n ++ st16 dport_n ++ st16 (htons_k (u16 total)) ++ st16 ck ++ data.

(** [mem_buf] is whether the [kmalloc] of the datagram succeeds, [mem_pkt] whether that of the packet does. *)
Definition net_udp_output (tbl : list route) (devs : list netdev) (mem_buf mem_pkt : bool) (id src_n sport_n dst_n dport_n : Z)
  (data : list Z) : Z + (nat * list Z * Z) :=
  let len := Z.of_nat (length data) in
  if 65535 - 8 <? len then inl (- EMSGSIZE)
  else if negb mem_buf then inl (- ENOBUFS)
  else
    let total := 8 + len in
    let dev_ip := match net_route tbl dst_n ≫= (fun d => devs !! d) with Some dev => ip_n dev | None => 0 end in
    let real_src := if src_n =? 0 then dev_ip else src_n in
    let sum := udp_pseudo_sum real_src (if dst_n =? 0 then real_src else dst_n) (u16 total) in
    let ck := checksum_fold (checksum_partial (udp_bytes sport_n dport_n total 0 data) sum) in
    let buf := udp_bytes sport_n dport_n total (htons_k (if ck =? 0 then 0xFFFF else ck)) data in
    net_ipv4_output tbl devs mem_pkt id src_n dst_n 17 buf.

(** The delivery [udp_input] makes (to a hook or to the socket layer): source
    port, destination port and data. *)
Definition udp_input (src_n dst_n : Z) (payload : list Z) : option (Z * Z * list Z) :=
  let len := Z.of_nat (length payload) in
  if len <? 8 then None
  else
    let udp_len := ntohs_k (ld16 payload 4) in
    if (udp_len <? 8) || (len <? udp_len) then None
    else if ctrue (ld16 payload 6)
         && negb (checksum_fold (checksum_partial (take (Z.to_nat udp_len) payload)
                                                  (udp_pseudo_sum src_n dst_n (u16 udp_len))) =? 0)
    then None
    else Some (ld16 payload 0, ld16 payload 2, take (Z.to_nat (udp_len - 8)) (drop 8 payload)).

(** ** The checksum as an arithmetic sum *)

Definition byte (b : Z) : Prop := 0 <= b < 256.

(** The sum of the big-endian 16-bit words, an odd last byte being a high half. *)
Fixpoint wsum (data : list Z) : Z :=
  match data with
  | a :: b :: l => 256 * a + b + wsum l
  | [a] => 256 * a
  | [] => 0
  end.

Lemma list_pair_ind (P : list Z -> Prop) :
  P [] -> (forall a, P [a]) -> (forall a b l, P l -> P (a :: b :: l)) -> forall l, P l.
Proof. intros H0 H1 H2. fix go 1. intros [|a [|b l]]; [done|apply H1|apply H2, go]. Qed.

Lemma lor_high a b : byte b -> Z.lor (Z.shiftl a 8) b = 256 * a + b.
Proof.
  unfold byte. intros Hb.
  assert (Z.land (Z.shiftl a 8) b = 0) as H.
  { apply Z.bits_inj'. intros n Hn. rewrite Z.land_spec, Z.bits_0.
    rewrite <- (Z.mod_small b (2 ^ 8)) by lia. destruct (Z.ltb_spec n 8).
    - by rewrite Z.shiftl_spec_low.
    - by rewrite Z.mod_pow2_bits_high, andb_false_r by lia. }
  rewrite <- Z.lxor_lor, <- Z.add_nocarry_lxor by done. rewrite Z.shiftl_mul_pow2 by lia. lia.
Qed.

Lemma wsum_range l : Forall byte l -> 0 <= wsum l <= 32768 * (Z.of_nat (length l) + 1).
Proof.
  unfold byte. induction l as [|a|a b l IH] using list_pair_ind; intros H; cbn [wsum length].
  - lia.
  - inversion_clear H. lia.
  - inversion_clear H as [|?? Ha H']. inversion_clear H' as [|?? Hb Hl]. specialize (IH Hl). lia.
Qed.

Lemma wsum_pos a b l : Forall byte (a :: b :: l) -> 0 < a -> 0 < wsum (a :: b :: l).
Proof.
  intros H Ha. inversion_clear H as [|?? _ H1]. inversion_clear H1 as [|?? Hb H2].
  apply wsum_range in H2. unfold byte in *. cbn [wsum]. lia.
Qed.

Lemma checksum_partial_sum l s : Forall byte l -> 0 <= s < W32 -> checksum_partial l s = u32 (s + wsum l).
Proof.
  revert s. induction l as [|a|a b l IH] using list_pair_ind; intros s H Hs; cbn [wsum checksum_partial].
  - rewrite Z.add_0_r. by rewrite u32_small.
  - f_equal. rewrite Z.shiftl_mul_pow2; lia.
  - inversion_clear H as [|?? Ha H']. inversion_clear H' as [|?? Hb Hl].
    rewrite IH, lor_high by (done || apply u32_range). unfold u32. rewrite Zplus_mod_idemp_l. f_equal. lia.
Qed.

(** The ones'-complement value of a sum: its remainder modulo 65535 in 1..65535,
    or 0 for the sum 0. *)
Definition ones (s : Z) : Z := if s =? 0 then 0 else (s - 1) mod 65535 + 1.

Lemma fold_step s : 0 <= s < W32 -> u32 (Z.land s 0xFFFF + Z.shiftr s 16) = s mod 65536 + s / 65536.
Proof.
  intros Hs. change 0xFFFF with (2 ^ 16 - 1). rewrite (land_low s 16), Z.shiftr_div_pow2 by lia. change (2 ^ 16) with 65536.
  apply u32_small. dlia.
Qed.

Lemma fold_loop_done s : 0 <= s < W32 -> fold_loop 2 s = ones s /\ Z.shiftr (fold_loop 2 s) 16 = 0.
Proof.
  intros Hs. cbn [fold_loop]. unfold ones.
  assert (Hsh : forall x, Z.shiftr x 16 = x / 65536) by (intros; by rewrite Z.shiftr_div_pow2).
  rewrite (fold_step s) by done. rewrite !Hsh.
  destruct (Z.eqb_spec (s / 65536) 0); [rewrite ?Hsh; zcases; split; dlia|].
  set (s1 := s mod 65536 + s / 65536). assert (0 <= s1 < W32) by (subst s1; dlia).
  destruct (Z.eqb_spec (s1 / 65536) 0); [|rewrite <- Hsh, (fold_step s1) by done]; rewrite ?Hsh; subst s1; zcases; split; dlia.
Qed.

Lemma ones_range s : 0 <= s -> 0 <= ones s <= 65535 /\ (ones s = 0 <-> s = 0).
Proof. intros. unfold ones. zcases; dlia. Qed.

Lemma checksum_fold_ones s : 0 <= s < W32 -> checksum_fold s = 65535 - ones s.
Proof.
  intros Hs. unfold checksum_fold. rewrite (proj1 (fold_loop_done s Hs)).
  destruct (ones_range s); [lia|]. unfold u16, Z.lnot. dlia.
Qed.

Lemma checksum_fold_zero s : 0 <= s < W32 -> checksum_fold s = 0 <-> 0 < s /\ s mod 65535 = 0.
Proof. intros Hs. rewrite checksum_fold_ones by done. unfold ones. zcases; dlia. Qed.

(** ** Byte order *)

Lemma htons_val v : 0 <= v < W16 -> htons_k v = 256 * (v mod 256) + v / 256.
Proof.
  intros Hv. unfold htons_k. rewrite Z.shiftr_div_pow2 by lia. change (2 ^ 8) with 256.
  rewrite lor_high by (unfold byte; dlia). unfold u16. dlia.
Qed.

Lemma htons_range v : 0 <= htons_k v < W16.
Proof. apply u16_range. Qed.

Lemma htons_htons v : 0 <= v < W16 -> ntohs_k (htons_k v) = v.
Proof. intros Hv. unfold ntohs_k. rewrite htons_val by apply htons_range. rewrite htons_val by done. dlia. Qed.

Lemma st16_htons v : 0 <= v < W16 -> st16 (htons_k v) = [v / 256; v mod 256].
Proof.
  intros Hv. unfold st16, u8. rewrite htons_val, Z.shiftr_div_pow2 by lia. change (2 ^ 8) with 256.
  f_equal; [dlia|]. f_equal. dlia.
Qed.

Lemma lor_add k a b : 0 <= k -> 0 <= b < 2 ^ k -> Z.lor (a * 2 ^ k) b = a * 2 ^ k + b.
Proof.
  intros Hk Hb. assert (Z.land (a * 2 ^ k) b = 0) as H.
  { apply Z.bits_inj'. intros n Hn. rewrite Z.land_spec, Z.bits_0.
    rewrite <- (Z.mod_small b (2 ^ k)) by lia. destruct (Z.ltb_spec n k).
    - by rewrite Z.mul_pow2_bits_low.
    - by rewrite Z.mod_pow2_bits_high, andb_false_r by lia. }
  by rewrite <- Z.lxor_lor, <- Z.add_nocarry_lxor.
Qed.

Lemma land_byte k v : 0 <= k -> Z.land v (255 * 2 ^ k) = v / 2 ^ k mod 256 * 2 ^ k.
Proof.
  intros Hk. rewrite <- !Z.shiftl_mul_pow2, <- Z.shiftr_div_pow2 by lia.
  change 256 with (2 ^ 8). rewrite <- (land_low _ 8) by lia. change (2 ^ 8 - 1) with 255.
  apply Z.bits_inj'. intros n Hn. rewrite Z.land_spec. destruct (Z.ltb_spec n k).
  - by rewrite !Z.shiftl_spec_low, andb_false_r by lia.
  - rewrite !Z.shiftl_spec, Z.land_spec, Z.shiftr_spec by lia. do 2 f_equal. lia.
Qed.

(** A 32-bit word by its four bytes. *)
Definition word (a b c d : Z) : Z := a + 256 * b + 65536 * c + 16777216 * d.

Lemma word_split v : 0 <= v < W32 -> exists a b c d, v = word a b c d /\ byte a /\ byte b /\ byte c /\ byte d.
Proof.
  intros Hv. exists (v mod 256), (v / 256 mod 256), (v / 256 / 256 mod 256), (v / 256 / 256 / 256).
  unfold word, byte. split; [|split_and!; dlia].
  pose proof (Z.div_mod v 256). pose proof (Z.div_mod (v / 256) 256). pose proof (Z.div_mod (v / 256 / 256) 256). lia.
Qed.

Lemma word_div a b c d : byte a -> byte b -> byte c -> byte d ->
  word a b c d / 256 = b + 256 * c + 65536 * d /\ word a b c d / 65536 = c + 256 * d /\
  word a b c d / 16777216 = d.
Proof.
  unfold byte, word. intros. split_and!.
  - symmetry. apply Z.div_unique with (r := a); lia.
  - symmetry. apply Z.div_unique with (r := a + 256 * b); lia.
  - symmetry. apply Z.div_unique with (r := a + 256 * b + 65536 * c); lia.
Qed.

Lemma mod256 a x : byte a -> (a + 256 * x) mod 256 = a.
Proof. intros Ha. rewrite (Z.mul_comm 256), Z_mod_plus_full. apply Z.mod_small, Ha. Qed.

(** The low byte of each shift of a word. *)
Lemma word_bytes a b c d : byte a -> byte b -> byte c -> byte d ->
  word a b c d mod 256 = a /\ word a b c d / 256 mod 256 = b /\
  word a b c d / 65536 mod 256 = c /\ word a b c d / 16777216 mod 256 = d.
Proof.
  intros Ha Hb Hc Hd. destruct (word_div a b c d) as (-> & -> & ->); try done. split_and!.
  - unfold word. replace (a + _ + _ + _) with (a + 256 * (b + 256 * c + 65536 * d)) by lia. by apply mod256.
  - replace (b + _ + _) with (b + 256 * (c + 256 * d)) by lia. by apply mod256.
  - by apply mod256.
  - apply Z.mod_small, Hd.
Qed.

Lemma htonl_word a b c d : byte a -> byte b -> byte c -> byte d -> htonl_k (word a b c d) = word d c b a.
Proof.
  intros Ha Hb Hc Hd. unfold htonl_k.
  change 0xFF00 with (255 * 2 ^ 8). change 0xFF0000 with (255 * 2 ^ 16). change 0xFF000000 with (255 * 2 ^ 24).
  change 0xFF with (255 * 2 ^ 0). rewrite !land_byte by lia. change (2 ^ 0) with 1. rewrite Z.div_1_r, Z.mul_1_r.
  change (2 ^ 8) with 256. change (2 ^ 16) with 65536. change (2 ^ 24) with 16777216.
  destruct (word_bytes a b c d) as (-> & -> & -> & ->); try done.
  rewrite !Z.shiftl_mul_pow2, !Z.shiftr_div_pow2 by lia. change 65536 with (256 * 256).
  rewrite Z.mul_assoc, (Z.div_mul _ (2 ^ 8)), (Z.div_mul _ (2 ^ 24)) by lia.
  change (b * 256 * 2 ^ 8) with (b * 256 * 256). rewrite <- (Z.mul_assoc b). change (256 * 256) with (2 ^ 16).
  change 256 with (2 ^ 8). rewrite <- !Z.lor_assoc. unfold byte in *.
  rewrite (lor_add 8 c d), (lor_add 16 b), (lor_add 24 a) by lia. unfold word. rewrite u32_small; lia.
Qed.

Lemma htonl_range v : 0 <= htonl_k v < W32.
Proof. apply u32_range. Qed.

Lemma htonl_htonl v : 0 <= v < W32 -> ntohl_k (htonl_k v) = v.
Proof.
  intros Hv. destruct (word_split v Hv) as (a & b & c & d & -> & Ha & Hb & Hc & Hd).
  unfold ntohl_k. by rewrite !htonl_word.
Qed.

Lemma net_st16_bytes v : Forall byte (st16 v).
Proof. unfold st16, byte, u8. repeat constructor; dlia. Qed.

Lemma net_st32_bytes v : Forall byte (st32 v).
Proof. unfold st32, byte, u8. repeat constructor; dlia. Qed.

Lemma ld_st16 v : 0 <= v < W16 -> u8 v + 256 * u8 (Z.shiftr v 8) = v.
Proof. intros. unfold u8. rewrite Z.shiftr_div_pow2 by lia. change (2 ^ 8) with 256. dlia. Qed.

Lemma ld_st32 v : 0 <= v < W32 ->
  u8 v + 256 * u8 (Z.shiftr v 8) + 65536 * (u8 (Z.shiftr v 16) + 256 * u8 (Z.shiftr v 24)) = v.
Proof.
  intros Hv. destruct (word_split v Hv) as (a & b & c & d & -> & Ha & Hb & Hc & Hd).
  unfold u8. rewrite !Z.shiftr_div_pow2 by lia. change (2 ^ 8) with 256.
  change (2 ^ 16) with 65536. change (2 ^ 24) with 16777216.
  destruct (word_bytes a b c d) as (-> & -> & -> & ->); try done. unfold word. lia.
Qed.

(** ** Storing and verifying a checksum *)

Lemma wsum_app l k : Nat.Even (length l) -> wsum (l ++ k) = wsum l + wsum k.
Proof.
  induction l as [|a|a b l IH] using list_pair_ind; intros He.
  - done.
  - destruct He as [n He]. cbn in He. lia.
  - cbn [app wsum]. rewrite IH; [lia|]. destruct He as [n He]. exists (n - 1)%nat. cbn in He. lia.
Qed.

Lemma wsum_field pre ck post : Nat.Even (length pre) -> 0 <= ck < W16 ->
  wsum (pre ++ st16 (htons_k ck) ++ post) = wsum (pre ++ st16 0 ++ post) + ck.
Proof.
  intros He Hck. rewrite !(wsum_app pre) by done. rewrite st16_htons by done.
  change (st16 0) with [0; 0]. cbn [app wsum]. dlia.
Qed.

(** Storing the folded complement (or 0xFFFF for 0) in a zeroed field brings
    the folded sum to zero. *)
Lemma checksum_store pre post s ck v :
  Nat.Even (length pre) -> Forall byte pre -> Forall byte post ->
  0 <= s -> 0 < s + wsum (pre ++ st16 0 ++ post) ->
  s + 32768 * (Z.of_nat (length (pre ++ st16 0 ++ post)) + 1) + 65535 < W32 ->
  ck = checksum_fold (checksum_partial (pre ++ st16 0 ++ post) s) ->
  v = ck \/ (ck = 0 /\ v = 0xFFFF) ->
  checksum_fold (checksum_partial (pre ++ st16 (htons_k v) ++ post) s) = 0.
Proof.
  intros He Hp Hq Hs Hpos Hlen Hck Hv.
  assert (Hb : forall x, Forall byte (pre ++ st16 x ++ post)) by (intros; rewrite !Forall_app; auto using net_st16_bytes).
  pose proof (wsum_range _ (Hb 0)) as Hw.
  rewrite checksum_partial_sum in Hck |- * by (done || lia).
  rewrite u32_small in Hck by lia. rewrite checksum_fold_ones in Hck by lia.
  destruct (ones_range (s + wsum (pre ++ st16 0 ++ post))) as [Ho1 Ho2]; [lia|].
  rewrite wsum_field by (done || lia). rewrite u32_small by lia.
  apply checksum_fold_zero; [lia|]. revert Hck. unfold ones. zcases; [lia|]. intros ->. split; dlia.
Qed.

Lemma st32_wsum v : 0 <= wsum (st32 v) <= 131070.
Proof.
  pose proof (net_st32_bytes v) as H. unfold st32 in *. unfold byte in H. cbn [wsum].
  repeat (inversion_clear H as [|?? ? H']; rename H' into H). lia.
Qed.

Lemma ip_pseudo_val src dst proto len : 0 <= proto < 256 -> 0 <= len < W16 ->
  ip_pseudo_sum src dst proto len = wsum (st32 src) + wsum (st32 dst) + proto + len.
Proof.
  intros Hp Hl. unfold ip_pseudo_sum. pose proof (st32_wsum src). pose proof (st32_wsum dst).
  rewrite (checksum_partial_sum (st32 src)) by (apply net_st32_bytes || lia). rewrite u32_small by lia.
  rewrite (checksum_partial_sum (st32 dst)) by (apply net_st32_bytes || lia). rewrite u32_small by lia.
  rewrite (checksum_partial_sum [0; proto]) by (lia || (repeat constructor; unfold byte; lia)). cbn [wsum].
  rewrite u32_small by lia. rewrite checksum_partial_sum by (apply net_st16_bytes || lia).
  rewrite st16_htons by done. cbn [wsum]. rewrite u32_small; dlia.
Qed.

Lemma l4_store src dst proto pre post :
  Nat.Even (length pre) -> Forall byte pre -> Forall byte post -> 0 < proto < 256 ->
  Z.of_nat (length (pre ++ st16 0 ++ post)) < W16 ->
  net_l4_verify src dst proto (pre ++ st16 (net_l4_checksum src dst proto (pre ++ st16 0 ++ post)) ++ post) = true.
Proof.
  intros He Hp Hq Hpr Hlen. unfold net_l4_verify, net_l4_checksum. apply Z.eqb_eq.
  pose proof (st32_wsum src). pose proof (st32_wsum dst).
  replace (length (pre ++ st16 (htons_k _) ++ post)) with (length (pre ++ st16 0 ++ post)) by by rewrite !length_app.
  rewrite (u16_small (Z.of_nat _)) by lia. set (s := ip_pseudo_sum _ _ _ _).
  assert (s = wsum (st32 src) + wsum (st32 dst) + proto + Z.of_nat (length (pre ++ st16 0 ++ post))) as Hs
    by (apply ip_pseudo_val; lia).
  assert (0 <= wsum (pre ++ st16 0 ++ post))
    by (apply wsum_range; rewrite !Forall_app; auto using net_st16_bytes).
  eapply checksum_store; [done..|lia|lia| |reflexivity|].
  - rewrite Hs. lia.
  - zcases; auto.
Qed.

Lemma l4_verify_sum src dst proto seg : Forall byte seg -> 0 < proto < 256 -> Z.of_nat (length seg) < W16 ->
  net_l4_verify src dst proto seg = true <->
  (wsum (st32 src) + wsum (st32 dst) + proto + Z.of_nat (length seg) + wsum seg) mod 65535 = 0.
Proof.
  intros Hb Hp Hlen. unfold net_l4_verify. pose proof (st32_wsum src). pose proof (st32_wsum dst).
  pose proof (wsum_range seg Hb).
  rewrite (u16_small (Z.of_nat _)), ip_pseudo_val, checksum_partial_sum by (done || lia).
  rewrite u32_small by lia. rewrite Z.eqb_eq, checksum_fold_zero by lia.
  split; [tauto|]. split; [lia|done].
Qed.

(** C30: A stored transport checksum is accepted by the verification the
    receive path runs, whatever the segment and the addresses; and no change
    confined to one aligned 16-bit word of an accepted segment is accepted,
    the two ones'-complement zeros 0x0000 and 0xFFFF apart. *)
Theorem l4_checksum_detects (src dst proto : Z) (pre post : list Z) (w w' : Z) :
  Nat.Even (length pre) -> Forall byte pre -> Forall byte post -> 0 < proto < 256 ->
  Z.of_nat (length (pre ++ st16 0 ++ post)) < W16 -> 0 <= w < W16 -> 0 <= w' < W16 -> (w <> w') ->
  net_l4_verify src dst proto (pre ++ st16 (net_l4_checksum src dst proto (pre ++ st16 0 ++ post)) ++ post) = true /\
  (net_l4_verify src dst proto (pre ++ st16 (htons_k w) ++ post) = true ->
   net_l4_verify src dst proto (pre ++ st16 (htons_k w') ++ post) = true ->
   Z.min w w' = 0 /\ Z.max w w' = 0xFFFF).
Proof.
  intros He Hp Hq Hpr Hlen Hw Hw' Hne. split; [by apply l4_store|].
  assert (Hb : forall x, Forall byte (pre ++ st16 x ++ post)) by (intros; rewrite !Forall_app; auto using net_st16_bytes).
  assert (Hl : forall x, length (pre ++ st16 x ++ post) = length (pre ++ st16 0 ++ post)) by (intros; by rewrite !length_app).
  rewrite !l4_verify_sum by (auto; rewrite ?Hl; lia).
  rewrite !wsum_field, (Hl (htons_k w)), (Hl (htons_k w')) by done.
  set (x := wsum (pre ++ _)) in *. set (n := Z.of_nat _). set (y := wsum (st32 src) + _).
  intros H1 H2. apply Z.mod_divide in H1 as [k1 H1]; [|lia]. apply Z.mod_divide in H2 as [k2 H2]; [|lia].
  assert (w - w' = (k1 - k2) * 65535) by lia. assert (k1 - k2 = 1 \/ k1 - k2 = -1) as [] by lia; lia.
Qed.

Lemma l4_checksum_detects_witness :
  net_l4_verify 0x0100007F 0x0100007F 6 ([1; 2] ++ st16 (htons_k 0x1234) ++ [5]) = false \/
  net_l4_verify 0x0100007F 0x0100007F 6 ([1; 2] ++ st16 (htons_k 0x1235) ++ [5]) = false.
Proof.
  destruct (net_l4_verify 0x0100007F 0x0100007F 6 ([1; 2] ++ st16 (htons_k 0x1234) ++ [5])) eqn:E1; [right|by left].
  destruct (net_l4_verify 0x0100007F 0x0100007F 6 ([1; 2] ++ st16 (htons_k 0x1235) ++ [5])) eqn:E2; [|done].
  exfalso. refine (_ (proj2 (l4_checksum_detects 0x0100007F 0x0100007F 6 [1; 2] [5] 0x1234 0x1235 _ _ _ _ _ _ _ _) E1 E2)).
  all: try lia; try (by repeat constructor); try (by exists 1%nat); cbn; lia.
Defined.

(** ** IPv4 and UDP round trips *)

Definition to_handler (proto src dst : Z) (payload : list Z) : verdict :=
  if proto =? 17 then ToUdp src dst payload
  else if proto =? 1 then ToIcmp src dst payload
  else if proto =? 6 then ToTcp src dst payload else Drop.

Definition source_of (src_n : Z) (dev : netdev) : Z := if src_n =? 0 then ip_n dev else src_n.

Lemma ipv4_bytes_split total id proto ck src dst :
  ipv4_bytes total id proto ck src dst =
  ([0x45; 0] ++ st16 (htons_k (u16 total)) ++ st16 (htons_k id) ++ st16 0x0040 ++ [64; proto])
  ++ st16 ck ++ (st32 src ++ st32 dst).
Proof. reflexivity. Qed.

Lemma ipv4_bytes_checksum total id proto src dst : byte proto ->
  net_checksum (ipv4_bytes total id proto (htons_k (net_checksum (ipv4_bytes total id proto 0 src dst) 0)) src dst) 0 = 0.
Proof.
  intros Hp. unfold net_checksum. rewrite !ipv4_bytes_split.
  assert (Hpre : Forall byte ([0x45; 0] ++ st16 (htons_k (u16 total)) ++ st16 (htons_k id) ++ st16 0x0040 ++ [64; proto])).
  { rewrite !Forall_app. repeat split; try apply net_st16_bytes; repeat constructor; unfold byte in *; lia. }
  assert (Hpost : Forall byte (st32 src ++ st32 dst)) by (rewrite Forall_app; auto using net_st32_bytes).
  eapply checksum_store; [by exists 5%nat|done|done|lia| |cbn; lia|reflexivity|by left].
  rewrite Z.add_0_l. refine (wsum_pos 0x45 0 _ _ _); [|lia]. cbn [app]. rewrite <- ?app_assoc.
  refine (Forall_app_2 _ _ _ Hpre (Forall_app_2 _ _ _ _ Hpost)). apply net_st16_bytes.
Qed.

Lemma ipv4_input_of_output total id proto ck src dst payload :
  total = 20 + Z.of_nat (length payload) -> total < W16 -> 0 <= src < W32 -> 0 <= dst < W32 ->
  net_checksum (ipv4_bytes total id proto ck src dst) 0 = 0 ->
  net_ipv4_input (ipv4_bytes total id proto ck src dst ++ payload) = to_handler proto src dst payload.
Proof.
  intros Ht Hlt Hs Hd Hck. unfold net_ipv4_input.
  assert (Hlen : Z.of_nat (length (ipv4_bytes total id proto ck src dst ++ payload)) = total).
  { rewrite length_app. change (length (ipv4_bytes _ _ _ _ _ _)) with 20%nat. lia. }
  rewrite Hlen. destruct (Z.ltb_spec total 20); [lia|].
  change (ld8 (ipv4_bytes total id proto ck src dst ++ payload) 0) with 0x45.
  change (Z.shiftr 69 4 =? 4) with true. cbn [negb]. change (Z.land 69 15 * 4) with 20.
  destruct (Z.ltb_spec total 20); [lia|]. cbn [orb Z.ltb Z.compare Pos.compare Pos.compare_cont].
  replace (ntohs_k (ld16 (ipv4_bytes total id proto ck src dst ++ payload) 2)) with total.
  2:{ change (ld16 _ 2) with (u8 (htons_k (u16 total)) + 256 * u8 (Z.shiftr (htons_k (u16 total)) 8)).
      rewrite ld_st16 by apply htons_range.
      rewrite htons_htons by apply u16_range. rewrite u16_small; lia. }
  destruct (Z.ltb_spec total 20); [lia|]. rewrite Z.ltb_irrefl. cbn [orb].
  change (Z.to_nat 20) with (length (ipv4_bytes total id proto ck src dst)).
  rewrite take_app_length, drop_app_length, Hck. cbn [Z.eqb negb].
  change (ntohs_k (ld16 (ipv4_bytes total id proto ck src dst ++ payload) 6)) with 0x4000.
  change (ctrue _ && _) with false. cbv iota.
  rewrite take_ge by lia. unfold to_handler.
  change (ld8 (ipv4_bytes total id proto ck src dst ++ payload) 9) with proto.
  replace (ld32 (ipv4_bytes total id proto ck src dst ++ payload) 12) with src.
  2:{ symmetry. by apply (ld_st32 src). }
  replace (ld32 (ipv4_bytes total id proto ck src dst ++ payload) 16) with dst; [done|].
  symmetry. by apply (ld_st32 dst).
Qed.

(** The routed device, and what leaves through it. *)
Lemma ipv4_output_spec tbl devs mem id src_n dst_n proto payload d pkt id' :
  net_ipv4_output tbl devs mem id src_n dst_n proto payload = inr (d, pkt, id') ->
  exists dev, net_route tbl dst_n = Some d /\ devs !! d = Some dev /\
    20 + Z.of_nat (length payload) <= mtu dev /\
    pkt = (let t := 20 + Z.of_nat (length payload) in
           let src := source_of src_n dev in let dst := source_of dst_n dev in
           ipv4_bytes t id proto (htons_k (net_checksum (ipv4_bytes t id proto 0 src dst) 0)) src dst ++ payload).
Proof.
  unfold net_ipv4_output. destruct (net_route tbl dst_n) as [d0|]; [|done]. cbn [mbind option_bind].
  destruct (devs !! d0) as [dev|] eqn:Ed; [|done]. cbn [fmap option_fmap option_map].
  destruct (Z.ltb_spec (mtu dev) (Z.of_nat (length payload) + 20)); [done|]. destruct mem; [|done].
  intros [= <- <- <-]. exists dev. split_and!; [done..|lia|reflexivity].
Qed.

Lemma udp_pseudo_val src dst len : 0 <= len < W16 ->
  udp_pseudo_sum src dst len = wsum (st32 src) + wsum (st32 dst) + 17 + len.
Proof.
  intros Hl. unfold udp_pseudo_sum. pose proof (st32_wsum src). pose proof (st32_wsum dst).
  rewrite (checksum_partial_sum (st32 src)) by (apply net_st32_bytes || lia). rewrite (u32_small (0 + _)) by lia.
  rewrite (checksum_partial_sum (st32 dst)) by (apply net_st32_bytes || lia). rewrite (u32_small (0 + _ + _)) by lia.
  rewrite (u32_small (_ + 17)), u32_small; lia.
Qed.

Lemma udp_bytes_split sport dport total ck data :
  udp_bytes sport dport total ck data =
  (st16 sport ++ st16 dport ++ st16 (htons_k (u16 total))) ++ st16 ck ++ data.
Proof. reflexivity. Qed.

(** The receiver of a datagram built for the addresses it sees delivers it. *)
Lemma udp_input_of_bytes src dst sport dport data (ck : Z) :
  let total := 8 + Z.of_nat (length data) in
  Forall byte data -> total < W16 -> 0 <= sport < W16 -> 0 <= dport < W16 ->
  ck = checksum_fold (checksum_partial (udp_bytes sport dport total 0 data) (udp_pseudo_sum src dst (u16 total))) ->
  udp_input src dst (udp_bytes sport dport total (htons_k (if ck =? 0 then 0xFFFF else ck)) data)
  = Some (sport, dport, data).
Proof.
  intros total Hb Ht Hsp Hdp Hck. assert (Hto : total = 8 + Z.of_nat (length data)) by done. clearbody total.
  set (v := if ck =? 0 then 0xFFFF else ck).
  assert (Hlen : forall x, Z.of_nat (length (udp_bytes sport dport total x data)) = total).
  { intros. unfold udp_bytes. rewrite !length_app. cbn [length st16]. lia. }
  assert (Hv : checksum_fold (checksum_partial (udp_bytes sport dport total (htons_k v) data)
                                               (udp_pseudo_sum src dst (u16 total))) = 0).
  { rewrite udp_bytes_split. assert (Hpre : Forall byte (st16 sport ++ st16 dport ++ st16 (htons_k (u16 total))))
      by (rewrite !Forall_app; auto using net_st16_bytes).
    pose proof (st32_wsum src). pose proof (st32_wsum dst). rewrite udp_bytes_split in Hck.
    assert (Hps : udp_pseudo_sum src dst (u16 total) = wsum (st32 src) + wsum (st32 dst) + 17 + total)
      by (rewrite (u16_small total) by lia; apply udp_pseudo_val; lia).
    rewrite Hps in Hck |- *.
    assert (0 <= wsum ((st16 sport ++ st16 dport ++ st16 (htons_k (u16 total))) ++ st16 0 ++ data)).
    { apply wsum_range. rewrite !Forall_app in *. repeat split; try apply Hpre; auto using net_st16_bytes. }
    eapply checksum_store; [by exists 3%nat|done|done|lia|lia| |exact Hck|subst v; zcases; auto].
    specialize (Hlen 0). rewrite udp_bytes_split in Hlen. rewrite Hlen. lia. }
  unfold udp_input. rewrite Hlen. destruct (Z.ltb_spec total 8); [lia|].
  replace (ntohs_k (ld16 (udp_bytes sport dport total (htons_k v) data) 4)) with total.
  2:{ change (ld16 _ 4) with (u8 (htons_k (u16 total)) + 256 * u8 (Z.shiftr (htons_k (u16 total)) 8)).
      rewrite ld_st16 by apply htons_range. rewrite htons_htons by apply u16_range. rewrite u16_small; lia. }
  destruct (Z.ltb_spec total 8); [lia|]. rewrite Z.ltb_irrefl. cbn [orb].
  rewrite take_ge by (specialize (Hlen (htons_k v)); lia). rewrite Hv. cbn [Z.eqb negb]. rewrite andb_false_r.
  change (drop 8 (udp_bytes sport dport total (htons_k v) data)) with data. rewrite take_ge by lia.
  f_equal. f_equal. f_equal; [by apply (ld_st16 sport)|by apply (ld_st16 dport)].
Qed.

(** What a packet carries when the receive path takes it apart. *)
Definition received (pkt : list Z) : option (Z * Z * (Z * Z * list Z)) :=
  match net_ipv4_input pkt with
  | ToUdp src dst seg => (fun x => (src, dst, x)) <$> udp_input src dst seg
  | _ => None
  end.

(** C31: A datagram handed to a device by [net_udp_output] is delivered by the
    receive path with the ports and the data it was sent with and the addresses
    the sender meant (an unspecified address being the device's), for every
    datagram that fits the 16-bit length field, provided a socket bound to a
    specific source does not address [0.0.0.0] unless that source is the
    loopback address. *)
Theorem udp_round_trip (tbl : list route) (devs : list netdev) (mem_buf mem_pkt : bool)
  (id src_n sport_n dst_n dport_n : Z) (data : list Z) (d : nat) (pkt : list Z) (id' : Z) (dev : netdev) :
  Forall byte data -> 0 <= sport_n < W16 -> 0 <= dport_n < W16 -> 0 <= src_n < W32 -> 0 <= dst_n < W32 ->
  Z.of_nat (length data) <= 65535 - 20 - 8 -> devs !! d = Some dev -> 0 <= ip_n dev < W32 ->
  net_udp_output tbl devs mem_buf mem_pkt id src_n sport_n dst_n dport_n data = inr (d, pkt, id') ->
  (dst_n <> 0 \/ src_n = 0 \/ src_n = ip_n dev) ->
  received pkt = Some (source_of src_n dev, source_of dst_n dev, (sport_n, dport_n, data)).
Proof.
  intros Hb Hsp Hdp Hs Hd Hlen Hdev Hip Hout Hok. unfold net_udp_output in Hout.
  destruct (Z.ltb_spec (65535 - 8) (Z.of_nat (length data))); [done|]. destruct mem_buf; [|done]. cbn [negb] in Hout.
  destruct (ipv4_output_spec _ _ _ _ _ _ _ _ _ _ _ Hout) as (dev' & Hr & Hdev' & _ & Hpkt).
  rewrite Hdev in Hdev'. injection Hdev' as <-. rewrite Hr in Hpkt. cbn [mbind option_bind] in Hpkt.
  rewrite Hdev in Hpkt. fold (source_of src_n dev) in Hpkt.
  set (src := source_of src_n dev) in *. set (dst := source_of dst_n dev) in *.
  assert (Hdst : (if dst_n =? 0 then src else dst_n) = dst).
  { subst src dst. unfold source_of. zcases; lia. }
  rewrite Hdst in Hpkt. set (ck := checksum_fold _) in Hpkt. cbv zeta in Hpkt.
  assert (0 <= src < W32 /\ 0 <= dst < W32) as [? ?] by (subst src dst; unfold source_of; zcases; lia).
  set (seg := udp_bytes sport_n dport_n (8 + Z.of_nat (length data)) (htons_k (if ck =? 0 then 65535 else ck)) data) in *.
  assert (Z.of_nat (length seg) = 8 + Z.of_nat (length data)).
  { subst seg. unfold udp_bytes. rewrite !length_app. cbn [length st16]. lia. }
  unfold received. rewrite Hpkt, ipv4_input_of_output; [|lia..|apply ipv4_bytes_checksum; unfold byte; lia].
  cbn [to_handler Z.eqb Pos.eqb]. subst seg. by rewrite udp_input_of_bytes by (done || lia).
Qed.

Definition lo : netdev := Netdev 65536 IP_LOOPBACK_N 0 0 0.
Definition nic : netdev := Netdev 1500 0x0F02000A 0 0 0.

Lemma udp_round_trip_witness :
  exists pkt id', net_udp_output route_init [lo] true true 7 0 0x1234 IP_LOOPBACK_N 0x3500 [1; 2; 3] = inr (0%nat, pkt, id') /\
  received pkt = Some (IP_LOOPBACK_N, IP_LOOPBACK_N, (0x1234, 0x3500, [1; 2; 3])).
Proof.
  eexists _, _. split; [vm_compute; reflexivity|].
  refine (udp_round_trip route_init [lo] true true 7 0 0x1234 IP_LOOPBACK_N 0x3500 [1; 2; 3] 0 _ _ lo _ _ _ _ _ _ _ _ _ _).
  all: try (vm_compute; reflexivity); try (split; vm_compute; congruence).
  - repeat constructor; unfold byte; lia.
  - cbn; lia.
  - by left.
Defined.

(** A datagram of exactly 65508 bytes fits the loopback device's 65536-byte MTU
    and is sent, but its total length does not fit 16 bits: the receive path
    drops it. *)
Theorem udp_lost_at_64k (tbl : list route) (devs : list netdev) (mem_buf mem_pkt : bool)
  (id src_n sport_n dst_n dport_n : Z) (data : list Z) (d : nat) (pkt : list Z) (id' : Z) :
  Z.of_nat (length data) = 65508 ->
  net_udp_output tbl devs mem_buf mem_pkt id src_n sport_n dst_n dport_n data = inr (d, pkt, id') -> received pkt = None.
Proof.
  intros Hlen Hout. unfold net_udp_output in Hout.
  destruct (65535 - 8 <? _); [done|]. destruct mem_buf; [|done]. cbn [negb] in Hout.
  destruct (ipv4_output_spec _ _ _ _ _ _ _ _ _ _ _ Hout) as (dev' & _ & _ & _ & Hpkt). clear Hout. cbv zeta in Hpkt.
  set (ck := htons_k (if _ =? 0 then _ else _)) in Hpkt. set (buf := udp_bytes _ _ _ _ _) in Hpkt.
  assert (Z.of_nat (length buf) = 65516) as Hl
    by (subst buf; unfold udp_bytes; rewrite !length_app; cbn [length st16]; lia).
  rewrite Hl in Hpkt. rewrite Hpkt. clear. unfold received, net_ipv4_input. rewrite length_app.
  change (length (ipv4_bytes _ _ _ _ _ _)) with 20%nat. destruct (Z.ltb_spec (Z.of_nat (20 + length buf)) 20); [lia|].
  change (ld8 (ipv4_bytes (20 + 65516) _ _ _ _ _ ++ _) 0) with 0x45.
  change (ld16 (ipv4_bytes (20 + 65516) _ _ _ _ _ ++ _) 2) with 0.
  change (negb (Z.shiftr 69 4 =? 4)) with false. cbv iota. destruct (_ || _); [done|]. reflexivity.
Qed.

(** A socket bound to the address of the Ethernet interface that sends to
    [0.0.0.0] computes the checksum for its own address as destination, and the
    packet leaves with the loopback address: the receive path drops it. *)
Theorem udp_any_dropped :
  exists pkt id', net_udp_output route_init [lo; nic] true true 7 (ip_n nic) 0x1234 0 0x3500 [1; 2; 3] = inr (0%nat, pkt, id')
  /\ received pkt = None.
Proof. eexists _, _. split; [vm_compute; reflexivity|]. vm_compute. reflexivity. Qed.

(** ** The routing table *)

Lemma route_best_spec dst tbl best b : route_best dst best tbl = Some b ->
  (forall b0, best = Some b0 -> route_match dst b0 = true) ->
  route_match dst b = true /\ (best = Some b \/ b ∈ tbl) /\
  (forall r, r ∈ tbl \/ best = Some r -> route_match dst r = true -> prefix_len r <= prefix_len b).
Proof.
  revert best. induction tbl as [|r tbl IH]; intros best Hb Hm; cbn [route_best] in Hb.
  - split; [by apply Hm|]. split; [by left|]. intros r [Hr|Hr] _; [by apply not_elem_of_nil in Hr|]. simplify_eq. lia.
  - destruct (route_match dst r) eqn:Er.
    + destruct (IH _ Hb) as (H1 & H2 & H3).
      { intros b0. destruct best as [b1|]; [|by intros [= <-]]. destruct (_ <? _); intros [= <-]; auto. }
      split; [done|]. split.
      * destruct H2 as [H2|H2]; [|by right; right]. destruct best as [b1|]; [|simplify_eq; by right; left].
        destruct (_ <? _); simplify_eq; [by right; left|by left].
      * intros r' Hr' Hm'. destruct best as [b1|].
        -- destruct (Z.ltb_spec (prefix_len b1) (prefix_len r)).
           ++ pose proof (H3 r (or_intror eq_refl) Er). destruct Hr' as [Hr'|[= <-]]; [|lia].
              inversion Hr'; subst; [done|]. by apply H3; [left|].
           ++ pose proof (H3 b1 (or_intror eq_refl) (Hm b1 eq_refl)). destruct Hr' as [Hr'|[= <-]]; [|done].
              inversion Hr'; subst; [lia|]. by apply H3; [left|].
        -- pose proof (H3 r (or_intror eq_refl) Er). destruct Hr' as [Hr'|?]; [|done].
           inversion Hr'; subst; [done|]. by apply H3; [left|].
    + destruct (IH _ Hb Hm) as (H1 & H2 & H3). split; [done|]. split; [destruct H2; [by left|by right; right]|].
      intros r' [Hr'|Hr'] Hm'; [|by apply H3; [right|]]. inversion Hr'; subst; [congruence|]. by apply H3; [left|].
Qed.

Lemma route_best_none dst tbl best : route_best dst best tbl = None -> best = None /\ forall r, r ∈ tbl -> route_match dst r = false.
Proof.
  revert best. induction tbl as [|r tbl IH]; intros best Hb; cbn [route_best] in Hb.
  - split; [done|]. intros r Hr. by apply not_elem_of_nil in Hr.
  - destruct (route_match dst r) eqn:Er.
    + apply IH in Hb as [Hb _]. destruct best as [b|]; [|done]. by destruct (_ <? _).
    + apply IH in Hb as [-> Hr]. split; [done|]. intros r' Hr'. inversion Hr'; subst; auto.
Qed.

(** [route_lookup] answers with an entry that matches the destination and
    whose prefix is at least as long as that of every matching entry, its next
    hop being the gateway or, for an on-link route, the destination itself; it
    fails only when no entry matches. *)
Theorem route_lookup_longest (tbl : list route) (dst_n : Z) :
  match route_lookup tbl dst_n with
  | Some (d, hop) => exists r, r ∈ tbl /\ route_match dst_n r = true /\ rt_dev r = Some d /\
      hop = (if rt_gw_n r =? 0 then dst_n else rt_gw_n r) /\
      forall r', r' ∈ tbl -> route_match dst_n r' = true -> prefix_len r' <= prefix_len r
  | None => forall r, r ∈ tbl -> route_match dst_n r = false
  end.
Proof.
  unfold route_lookup. destruct (route_best dst_n None tbl) as [b|] eqn:Eb.
  - destruct (route_best_spec _ _ _ _ Eb) as (H1 & H2 & H3); [done|].
    destruct H2 as [?|H2]; [done|]. assert (H1' := H1). unfold route_match in H1.
    destruct (rt_dev b) as [d|] eqn:Ed; [|done]. exists b. split_and!; auto.
  - apply route_best_none in Eb. tauto.
Qed.

(** The loop of [mask_prefix_len] ends within its 32 rounds: more change nothing. *)
Lemma prefix_loop_enough k : forall fuel m n, (fuel <= 32)%nat ->
  (exists q, m = q * 2 ^ (32 - Z.of_nat fuel)) -> 0 <= m < W32 ->
  prefix_loop (fuel + k) m n = prefix_loop fuel m n.
Proof.
  induction fuel as [|fuel IH]; intros m n Hf [q Hq] Hm; cbn [Nat.add prefix_loop].
  - assert (m = 0) as -> by (rewrite Z.sub_0_r in Hq; lia). by destruct k.
  - destruct (_ =? 0); [done|]. apply IH; [lia| |apply u32_range].
    exists ((q mod 2 ^ Z.of_nat fuel)). rewrite Z.shiftl_mul_pow2 by lia. unfold u32.
    replace (32 - Z.of_nat fuel) with (32 - Z.of_nat (S fuel) + 1) by lia.
    rewrite Z.pow_add_r, Z.mul_assoc by lia.
    change W32 with (2 ^ 32).
    replace (2 ^ 32) with (2 ^ Z.of_nat fuel * (2 ^ (32 - Z.of_nat (S fuel)) * 2 ^ 1))
      by (rewrite <- !Z.pow_add_r by lia; f_equal; lia).
    rewrite Hq, <- !Z.mul_assoc, Zmult_mod_distr_r; done.
Qed.
