(* ===== verification/Tcp.v ===== *)
(** * TCP (kernel/net/tcp.c, tcp.h)

    A connection is the record [tcb] of struct tcb, field for field; the send
    and receive rings are functions from index to byte, the staging queue [txq]
    holds the staged segments as bytes.  Each function of tcp.c that runs under
    a connection's lock is a function on [tcb]; those that work on the table
    are functions on [tcp], the connection table with the wheel timer and the
    segments handed to [net_ipv4_output] ([wire]).  Three fields stand for calls
    into other components: [wakes] counts the wake-ups of the connection's
    waiters, [arms] lists the [timer_reduce] requests of the deadlines set under
    the lock, and the accept queue names connections by their table index.

    [clk] is the clock: [timer_ticks] and [jiffies].  Statistics, [tcp_last_tx]
    and [tcp_dump] only report and are left out, as is the boot selftest.

    This file holds the definitions; the theorems are in the files TcpStream.v to TcpFlaws.v. *)

From stdpp Require Import base numbers list functions.
From S2P Require Import Prelude Net.

Abbreviation ETIMEDOUT := 110.
Abbreviation ECONNREFUSED := 111.
Abbreviation ECONNRESET := 104.
Abbreviation ENOTCONN := 107.
Abbreviation EISCONN := 106.

Abbreviation TCP_FIN := 0x01.
Abbreviation TCP_SYN := 0x02.
Abbreviation TCP_RST := 0x04.
Abbreviation TCP_PSH := 0x08.
Abbreviation TCP_ACK := 0x10.
Abbreviation TCP_MAX_CONNS := 32%nat.
Abbreviation TCP_SNDBUF := 32768.
Abbreviation TCP_RCVBUF := 32768.
Abbreviation TCP_REASM_SEGS := 8%nat.
Abbreviation TCP_REASM_MAX := 1460.
Abbreviation TCP_BACKLOG_MAX := 128.
Abbreviation TCP_DEFAULT_MSS := 536.
Abbreviation TCP_MAX_MSS := 1460.
Abbreviation TCP_TIMEWAIT_TICKS := 1000.
Abbreviation TCP_RTO_MIN_TICKS := 20.
Abbreviation TCP_RTO_MAX_TICKS := 6000.
Abbreviation TCP_DELACK_TICKS := 20.
Abbreviation TCP_MAX_RETRIES := 12.
Abbreviation TCP_ESTABLISH_TICKS := 3000.
Abbreviation TCP_TICK_JIFFIES := 10.

(** ** Sequence numbers *)

(** [(int32_t)z]. *)
Definition i32 (z : Z) : Z := (z + 2147483648) mod W32 - 2147483648.

Definition seq_lt (a b : Z) : bool := i32 (a - b) <? 0.
Definition seq_le (a b : Z) : bool := i32 (a - b) <=? 0.
Definition seq_gt (a b : Z) : bool := 0 <? i32 (a - b).
Definition seq_ge (a b : Z) : bool := 0 <=? i32 (a - b).

(** ** Data *)

Inductive tcp_state :=
  | TCP_CLOSED | TCP_LISTEN | TCP_SYN_SENT | TCP_SYN_RECEIVED
  | TCP_ESTABLISHED | TCP_FIN_WAIT_1 | TCP_FIN_WAIT_2 | TCP_CLOSE_WAIT
  | TCP_CLOSING | TCP_LAST_ACK | TCP_TIME_WAIT.

#[export] Instance tcp_state_eq_dec : EqDecision tcp_state.
Proof. solve_decision. Defined.

Notation "a =s b" := (bool_decide (a = b)) (at level 70).

Record tcp_reasm := Reasm { r_seq : Z; r_len : Z; r_used : bool; r_data : list Z }.

Record tcb := Tcb {
  state : tcp_state;
  in_use : bool;
  local_n : Z; remote_n : Z; lport_n : Z; rport_n : Z; snd_una : Z; snd_nxt : Z;
  snd_wnd : Z; snd_wl1 : Z; snd_wl2 : Z; iss : Z; rcv_nxt : Z; rcv_wnd : Z;
  irs : Z; mss : Z;
  sndbuf : Z -> Z;
  snd_head : Z; snd_len : Z;
  rcvbuf : Z -> Z;
  rcv_head : Z; rcv_len : Z;
  reasm : list tcp_reasm;
  rto_deadline : Z; delack_deadline : Z; persist_deadline : Z; timewait_deadline : Z; establish_deadline : Z; rto_ticks : Z;
  srtt_8 : Z; rttvar_8 : Z; rtt_seq : Z; rtt_at : Z;
  rtt_pending : bool;
  retries : Z; persist_shift : Z; cwnd : Z; ssthresh : Z; dupacks : Z; recover : Z;
  in_recovery : bool;
  backlog : Z;
  accept_q : list nat;
  parent : option nat;
  sock_gone : bool; reclaimed : bool; nodelay : bool;
  so_error : Z; fin_sent : Z;
  fin_rcvd : bool; reset : bool; shut_rd : bool; shut_wr : bool;
  txq : list (list Z);
  trace : list tcp_state;
  wakes : Z;
  arms : list Z;
}.

#[export] Instance tcb_eta : Eta tcb := fun t =>
  Tcb (state t) (in_use t) (local_n t) (remote_n t) (lport_n t) (rport_n t) (snd_una t) (snd_nxt t) (snd_wnd t)
      (snd_wl1 t) (snd_wl2 t) (iss t) (rcv_nxt t) (rcv_wnd t) (irs t) (mss t) (sndbuf t) (snd_head t)
      (snd_len t) (rcvbuf t) (rcv_head t) (rcv_len t) (reasm t) (rto_deadline t) (delack_deadline t)
      (persist_deadline t) (timewait_deadline t) (establish_deadline t) (rto_ticks t) (srtt_8 t) (rttvar_8 t)
      (rtt_seq t) (rtt_at t) (rtt_pending t) (retries t) (persist_shift t) (cwnd t) (ssthresh t) (dupacks t)
      (recover t) (in_recovery t) (backlog t) (accept_q t) (parent t) (sock_gone t) (reclaimed t) (nodelay t)
      (so_error t) (fin_sent t) (fin_rcvd t) (reset t) (shut_rd t) (shut_wr t) (txq t) (trace t) (wakes t)
      (arms t).

Record clk := Clk { ticks : Z; jiffies : Z }.

(** ** Timers and state changes *)

(** [timer_reduce(&tcp_timer, at)], as a request. *)
Definition timer_request (at_j : Z) (t : tcb) : tcb := t <| arms := arms t ++ [at_j] |>.

Definition tcp_timer_kick (c : clk) (t : tcb) : tcb := timer_request (u64 (jiffies c + 1)) t.

(** The deadline, and the connection with the request made for it. *)
Definition tcp_deadline_in (c : clk) (n : Z) (t : tcb) : Z * tcb :=
  let d := u64 (ticks c + n) in (d, timer_request (u64 (d * TCP_TICK_JIFFIES)) t).

Definition set_state (c : clk) (s : tcp_state) (t : tcb) : tcb :=
  if state t =s s then t
  else
    let t := t <| state := s |> in
    let t := if (length (trace t) <? 16)%nat then t <| trace := trace t ++ [s] |> else t in
    if s =s TCP_CLOSED then tcp_timer_kick c t else t.

Definition wake (t : tcb) : tcb := t <| wakes := wakes t + 1 |>.

Definition enter_closed (c : clk) (err : Z) (t : tcb) : tcb :=
  let t := set_state c TCP_CLOSED t in
  let t := t <| so_error := err |> in
  let t := t <| rto_deadline := 0 |> <| delack_deadline := 0 |> <| persist_deadline := 0 |> in
  wake (t <| establish_deadline := 0 |>).

(** ** Segments *)

(** The first twenty bytes of a segment. *)
Record tcp_header := Hdr { sport_n : Z; dport_n : Z; seq_n : Z; ack_n : Z; data_off : Z; flags : Z; window_n : Z }.

Definition header_of (seg : list Z) : tcp_header :=
  Hdr (ld16 seg 0) (ld16 seg 2) (ld32 seg 4) (ld32 seg 8) (ld8 seg 12) (ld8 seg 13) (ld16 seg 14).

Definition seg_bytes (sport_n dport_n seq ack fl window ck : Z) (opts data : list Z) : list Z :=
  (st16 sport_n ++ st16 dport_n ++ st32 (htonl_k seq) ++ st32 (htonl_k ack)
   ++ [u8 (Z.shiftl ((20 + Z.of_nat (length opts)) / 4) 4); fl]
   ++ st16 (htons_k (u16 (if 65535 <? window then 65535 else window))))
  ++ st16 ck ++ (st16 0 ++ opts ++ data).

Definition build_segment (src_n sport_n dst_n dport_n seq ack fl window mss_opt : Z) (data : list Z) : list Z :=
  let opts := if mss_opt =? 0 then [] else [2; 4; u8 (Z.shiftr mss_opt 8); u8 (Z.land mss_opt 0xFF)] in
  let bytes ck := seg_bytes sport_n dport_n seq ack fl window ck opts data in
  bytes (net_l4_checksum src_n dst_n 6 (bytes 0)).

Definition tx_queue (seq ack fl window mss_opt : Z) (data : list Z) (t : tcb) : tcb :=
  if (8 <=? length (txq t))%nat then t
  else
    let s := build_segment (local_n t) (lport_n t) (remote_n t) (rport_n t) seq ack fl window mss_opt data in
    t <| txq := txq t ++ [take (Z.to_nat (u16 (Z.of_nat (length s)))) s] |>.

Definition advertised_window (t : tcb) : Z :=
  let free_space := u32 (TCP_RCVBUF - rcv_len t) in
  if (free_space <? mss t) && (free_space <? TCP_RCVBUF / 2) then 0 else free_space.

Definition send_flags (fl seq : Z) (t : tcb) : tcb :=
  tx_queue seq (rcv_nxt t) fl (advertised_window t) (if ctrue (Z.land fl TCP_SYN) then TCP_MAX_MSS else 0) [] t.

(** ** Rings *)

(** [n] bytes from index [off] on. *)
Definition ring_get (buf : Z -> Z) (off n : Z) : list Z := (fun i => buf ((off + i) mod TCP_SNDBUF)) <$> seqZ 0 n.

(** The copy loop: byte [i] of [l] goes to index [(off + i) % TCP_SNDBUF]. *)
Fixpoint ring_put (buf : Z -> Z) (off : Z) (l : list Z) : Z -> Z :=
  match l with
  | [] => buf
  | x :: l => ring_put (<[off mod TCP_SNDBUF := x]> buf) (off + 1) l
  end.

(** ** Output *)

(** The states in which [tcp_output] sends. *)
Definition can_output (s : tcp_state) : bool :=
  match s with
  | TCP_ESTABLISHED | TCP_CLOSE_WAIT | TCP_FIN_WAIT_1 | TCP_LAST_ACK | TCP_CLOSING => true
  | _ => false
  end.

(** [if (!t->rto_deadline) { t->rto_deadline = tcp_deadline_in(t->rto_ticks); }] *)
Definition arm_rto (c : clk) (t : tcb) : tcb :=
  if rto_deadline t =? 0
  then let '(d, t) := tcp_deadline_in c (rto_ticks t) t in t <| rto_deadline := d |>
  else t.

(** One round of the loop of [tcp_output]: [None] is a break. *)
Definition output_step (c : clk) (window : Z) (t : tcb) : option tcb :=
  if (7 <=? length (txq t))%nat then None
  else
    let in_flight := u32 (snd_nxt t - snd_una t) in
    if window <=? in_flight then None
    else if snd_len t <=? in_flight then None
    else
      let unsent := snd_len t - in_flight in
      let can := window - in_flight in
      let n := if unsent <? can then unsent else can in
      let n := if mss t <? n then mss t else n in
      if negb (nodelay t) && (n <? mss t) && (0 <? in_flight) then None
      else
        let seg := ring_get (sndbuf t) ((snd_head t + in_flight) mod TCP_SNDBUF) n in
        let t := tx_queue (snd_nxt t) (rcv_nxt t) (Z.lor TCP_ACK TCP_PSH) (advertised_window t) 0 seg t in
        let t := if rtt_pending t then t
                 else t <| rtt_pending := true |> <| rtt_seq := snd_nxt t |> <| rtt_at := ticks c |> in
        let t := t <| snd_nxt := u32 (snd_nxt t + n) |> in
        let t := arm_rto c t in
        Some (t <| delack_deadline := 0 |>).

(** Each round stages a segment and the loop stops at seven, so eight rounds
    are never exhausted (lemma [output_loop_done]). *)
Fixpoint output_loop (fuel : nat) (c : clk) (window : Z) (t : tcb) : tcb :=
  match fuel with
  | O => t
  | S fuel => match output_step c window t with Some t => output_loop fuel c window t | None => t end
  end.

Definition output_fin (c : clk) (t : tcb) : tcb :=
  if (fin_sent t =? 1) && (snd_nxt t =? u32 (snd_una t + snd_len t)) then
    let t := send_flags (Z.lor TCP_FIN TCP_ACK) (snd_nxt t) t in
    let t := t <| snd_nxt := u32 (snd_nxt t + 1) |> <| fin_sent := 2 |> in
    arm_rto c t
  else t.

Definition tcp_output (c : clk) (t : tcb) : tcb :=
  if negb (can_output (state t)) then t
  else
    let window := if snd_wnd t <? cwnd t then snd_wnd t else cwnd t in
    output_fin c (output_loop 8 c window t).

(** ** Congestion control *)

Definition cc_init (t : tcb) : tcb :=
  t <| cwnd := u32 (2 * mss t) |> <| ssthresh := TCP_SNDBUF |> <| dupacks := 0 |> <| in_recovery := false |>.

Definition cc_on_ack (acked : Z) (t : tcb) : tcb :=
  if in_recovery t then t <| cwnd := ssthresh t |> <| in_recovery := false |> <| dupacks := 0 |>
  else
    let t :=
      if cwnd t <? ssthresh t then t <| cwnd := u32 (cwnd t + (if acked <? mss t then acked else mss t)) |>
      else
        let inc := u32 (mss t * mss t) / (if cwnd t =? 0 then 1 else cwnd t) in
        t <| cwnd := u32 (cwnd t + (if inc =? 0 then 1 else inc)) |> in
    if TCP_SNDBUF <? cwnd t then t <| cwnd := TCP_SNDBUF |> else t.

(** [half > 2 * mss ? half : 2 * mss], half the flight. *)
Definition loss_threshold (t : tcb) : Z :=
  let half := u32 (snd_nxt t - snd_una t) / 2 in
  if u32 (2 * mss t) <? half then half else u32 (2 * mss t).

Definition cc_on_timeout (t : tcb) : tcb :=
  t <| ssthresh := loss_threshold t |> <| cwnd := mss t |> <| in_recovery := false |> <| dupacks := 0 |>.

(** The flag asks the caller to retransmit. *)
Definition cc_on_dupack (t : tcb) : tcb * bool :=
  let t := t <| dupacks := u32 (dupacks t + 1) |> in
  if in_recovery t then (t <| cwnd := u32 (cwnd t + mss t) |>, false)
  else if dupacks t =? 3 then
    let t := t <| ssthresh := loss_threshold t |> in
    (t <| cwnd := u32 (ssthresh t + 3 * mss t) |> <| in_recovery := true |> <| recover := snd_nxt t |>, true)
  else (t, false).

Definition retransmit (t : tcb) : tcb :=
  let outstanding := u32 (snd_nxt t - snd_una t) in
  let outstanding := if (fin_sent t =? 2) && (outstanding =? u32 (snd_len t + 1)) then outstanding - 1 else outstanding in
  if outstanding =? 0 then
    if fin_sent t =? 2 then send_flags (Z.lor TCP_FIN TCP_ACK) (u32 (snd_nxt t - 1)) t else t
  else
    let n := if outstanding <? mss t then outstanding else mss t in
    let seg := ring_get (sndbuf t) (snd_head t) n in
    let t := t <| rtt_pending := false |> in
    tx_queue (snd_una t) (rcv_nxt t) (Z.lor TCP_ACK TCP_PSH) (advertised_window t) 0 seg t.

(** Jacobson and Karels, in eighths of a tick; [/] on [int32_t] truncates. *)
Definition rtt_sample (measured : Z) (t : tcb) : tcb :=
  let m8 := u32 (u64 (measured * 8)) in
  let t :=
    if srtt_8 t =? 0 then t <| srtt_8 := m8 |> <| rttvar_8 := m8 / 2 |>
    else
      let err := i32 (i32 m8 - i32 (srtt_8 t)) in
      let abs_err := if err <? 0 then i32 (- err) else err in
      let t := t <| rttvar_8 := u32 (i32 (rttvar_8 t) + Z.quot (abs_err - i32 (rttvar_8 t)) 4) |> in
      t <| srtt_8 := u32 (i32 (srtt_8 t) + Z.quot err 8) |> in
  let rto := u32 (srtt_8 t + u32 (4 * rttvar_8 t)) / 8 in
  let rto := if rto <? TCP_RTO_MIN_TICKS then TCP_RTO_MIN_TICKS else rto in
  let rto := if TCP_RTO_MAX_TICKS <? rto then TCP_RTO_MAX_TICKS else rto in
  t <| rto_ticks := rto |>.

(** ** Receive *)

Definition deliver (data : list Z) (t : tcb) : tcb :=
  let space := u32 (TCP_RCVBUF - rcv_len t) in
  let len := Z.of_nat (length data) in
  let len := if space <? len then space else len in
  let t := t <| rcvbuf := ring_put (rcvbuf t) (rcv_head t + rcv_len t) (take (Z.to_nat len) data) |> in
  t <| rcv_len := u32 (rcv_len t + len) |> <| rcv_nxt := u32 (rcv_nxt t + len) |>.

Definition free_reasm (r : tcp_reasm) : tcp_reasm := Reasm (r_seq r) (r_len r) false (r_data r).

(** The body of the loop over the slots; the flag is [moved]. *)
Definition drain_slot (tm : tcb * bool) (i : nat) : tcb * bool :=
  let '(t, moved) := tm in
  match reasm t !! i with
  | None => tm
  | Some r =>
      if negb (r_used r) then tm
      else if seq_le (r_seq r) (rcv_nxt t) && seq_gt (u32 (r_seq r + r_len r)) (rcv_nxt t) then
        let skip := u32 (rcv_nxt t - r_seq r) in
        let t := deliver (drop (Z.to_nat skip) (r_data r)) t in
        (t <| reasm := <[i := free_reasm r]> (reasm t) |>, true)
      else if seq_le (u32 (r_seq r + r_len r)) (rcv_nxt t) then
        (t <| reasm := <[i := free_reasm r]> (reasm t) |>, moved)
      else tm
  end.

(** [while (moved)]: a round that moves frees a slot, so nine rounds are never
    exhausted (lemma [drain_done]). *)
Fixpoint drain_loop (fuel : nat) (t : tcb) : tcb :=
  match fuel with
  | O => t
  | S fuel =>
      let '(t, moved) := foldl drain_slot (t, false) (seq 0 TCP_REASM_SEGS) in
      if moved then drain_loop fuel t else t
  end.

Definition drain_reasm (t : tcb) : tcb := drain_loop 9 t.

Definition queue_reasm (seq : Z) (data : list Z) (t : tcb) : tcb :=
  let data := take (Z.to_nat TCP_REASM_MAX) data in
  if existsb (fun r => r_used r && (r_seq r =? seq)) (reasm t) then t
  else match list_find (fun r => r_used r = false) (reasm t) with
       | Some (i, _) => t <| reasm := <[i := Reasm seq (Z.of_nat (length data)) true data]> (reasm t) |>
       | None => t
       end.

(** ** Segment input *)

(** The option loop of [parse_mss], from index [i]; every round advances [i],
    so [hdr_len] rounds are enough (lemma [parse_loop_enough]). *)
Fixpoint parse_loop (fuel : nat) (seg : list Z) (hdr_len i : Z) : Z :=
  match fuel with
  | O => 0
  | S fuel =>
      if i + 1 <? hdr_len then
        let kind := ld8 seg (Z.to_nat i) in
        if kind =? 0 then 0
        else if kind =? 1 then parse_loop fuel seg hdr_len (i + 1)
        else
          let olen := ld8 seg (Z.to_nat (i + 1)) in
          if (olen <? 2) || (hdr_len <? i + olen) then 0
          else if (kind =? 2) && (olen =? 4)
               then Z.lor (Z.shiftl (ld8 seg (Z.to_nat (i + 2))) 8) (ld8 seg (Z.to_nat (i + 3)))
               else parse_loop fuel seg hdr_len (i + olen)
      else 0
  end.

Definition parse_mss (seg : list Z) (hdr_len : Z) : Z := parse_loop (Z.to_nat hdr_len) seg hdr_len 20.

Definition take_mss (seg : list Z) (hdr_len : Z) (t : tcb) : tcb :=
  let m := parse_mss seg hdr_len in
  if m =? 0 then t else t <| mss := if TCP_MAX_MSS <? m then TCP_MAX_MSS else m |>.

(** The handshake is over. *)
Definition establish (c : clk) (t : tcb) : tcb :=
  set_state c TCP_ESTABLISHED (cc_init t) <| establish_deadline := 0 |> <| rto_deadline := 0 |>.

(** The round-trip sample in flight is taken. *)
Definition take_sample (c : clk) (t : tcb) : tcb :=
  rtt_sample (u64 (ticks c - rtt_at t)) t <| rtt_pending := false |>.

(** A segment that reaches a connection in SYN_SENT. *)
Definition seg_syn_sent (c : clk) (seg : list Z) (hdr_len seq ack fl win : Z) (t : tcb) : tcb :=
  if ctrue (Z.land fl TCP_SYN) && ctrue (Z.land fl TCP_ACK) then
    if negb (seq_ge ack (u32 (iss t + 1))) || seq_gt ack (snd_nxt t) then t
    else
      let t := t <| irs := seq |> <| rcv_nxt := u32 (seq + 1) |> <| snd_una := ack |> <| snd_wnd := win |> in
      let t := establish c (take_mss seg hdr_len t) in
      let t := if rtt_pending t then take_sample c t else t in
      wake (send_flags TCP_ACK (snd_nxt t) t)
  else if ctrue (Z.land fl TCP_SYN) then
    let t := t <| irs := seq |> <| rcv_nxt := u32 (seq + 1) |> in
    let t := set_state c TCP_SYN_RECEIVED t in
    send_flags (Z.lor TCP_SYN TCP_ACK) (iss t) t
  else t.

(** RFC 793's acceptability test, for every state but LISTEN. *)
Definition acceptable (seq data_len : Z) (t : tcb) : bool :=
  let win := if rcv_wnd t =? 0 then 1 else rcv_wnd t in
  if data_len =? 0 then
    if rcv_wnd t =? 0 then seq =? rcv_nxt t
    else seq_ge seq (rcv_nxt t) && seq_lt seq (u32 (rcv_nxt t + win))
  else (seq_ge seq (rcv_nxt t) && seq_lt seq (u32 (rcv_nxt t + win)))
       || (seq_lt seq (rcv_nxt t) && seq_gt (u32 (seq + data_len)) (rcv_nxt t)).

(** The end of a passive or simultaneous open.  [p] is the listener the
    connection came from; the flag says that [tcp_segment] goes on. *)
Definition seg_syn_received (c : clk) (self : nat) (p : option tcb) (ack win : Z) (t : tcb) : bool * tcb * option tcb :=
  if negb (state t =s TCP_SYN_RECEIVED) then (true, t, p)
  else if seq_ge ack (snd_una t) && seq_le ack (snd_nxt t) then
    let t := establish c (t <| snd_una := ack |> <| snd_wnd := win |>) in
    match p with
    | None => (true, wake t, p)
    | Some l =>
        let depth := if (backlog l <? 1) || (TCP_BACKLOG_MAX <? backlog l) then TCP_BACKLOG_MAX else backlog l in
        if Z.of_nat (length (accept_q l)) <? depth
        then (true, wake t, Some (wake (l <| accept_q := accept_q l ++ [self] |>)))
        else (false, set_state c TCP_CLOSED (tx_queue ack 0 TCP_RST 0 0 [] t), p)
    end
  else (false, tx_queue ack 0 TCP_RST 0 0 [] t, p).

(** The acknowledgement. *)
Definition seg_ack (c : clk) (ack data_len : Z) (t : tcb) : tcb :=
  if seq_gt ack (snd_una t) && seq_le ack (snd_nxt t) then
    let acked := u32 (ack - snd_una t) in
    let data_acked := if (fin_sent t =? 2) && seq_ge ack (u32 (snd_una t + snd_len t + 1)) then snd_len t else acked in
    let t := t <| snd_una := ack |> <| snd_head := u32 (snd_head t + data_acked) mod TCP_SNDBUF |> in
    let t := t <| snd_len := snd_len t - (if data_acked <? snd_len t then data_acked else snd_len t) |> in
    let t := t <| retries := 0 |> <| dupacks := 0 |> <| persist_shift := 0 |> in
    let t := if rtt_pending t && seq_ge ack (rtt_seq t) then take_sample c t else t in
    let t := cc_on_ack acked t in
    let t := if snd_una t =? snd_nxt t then t <| rto_deadline := 0 |>
             else let '(d, t) := tcp_deadline_in c (rto_ticks t) t in t <| rto_deadline := d |> in
    wake t
  else if (ack =? snd_una t) && (data_len =? 0) && negb (snd_una t =? snd_nxt t) then
    let '(t, again) := cc_on_dupack t in if again then retransmit t else t
  else t.

(** The window update. *)
Definition seg_window (c : clk) (seq ack win : Z) (t : tcb) : tcb :=
  if seq_lt (snd_wl1 t) seq || ((snd_wl1 t =? seq) && seq_le (snd_wl2 t) ack) then
    let was := snd_wnd t in
    let t := t <| snd_wnd := win |> <| snd_wl1 := seq |> <| snd_wl2 := ack |> in
    if (win =? 0) && negb (was =? 0)
    then let '(d, t) := tcp_deadline_in c (rto_ticks t) t in t <| persist_deadline := d |>
    else if negb (win =? 0) then t <| persist_deadline := 0 |> else t
  else t.

(** The data. *)
Definition seg_data (c : clk) (seq : Z) (data : list Z) (t : tcb) : tcb :=
  match data with
  | [] => t
  | _ =>
      if seq =? rcv_nxt t then
        let t := drain_reasm (deliver data t) in
        let t := if delack_deadline t =? 0
                 then let '(d, t) := tcp_deadline_in c TCP_DELACK_TICKS t in t <| delack_deadline := d |>
                 else send_flags TCP_ACK (snd_nxt t) (t <| delack_deadline := 0 |>) in
        wake t
      else if seq_gt seq (rcv_nxt t) then
        let t := queue_reasm seq data t in send_flags TCP_ACK (snd_nxt t) t
      else send_flags TCP_ACK (snd_nxt t) t
  end.

Definition enter_time_wait (c : clk) (t : tcb) : tcb :=
  let t := set_state c TCP_TIME_WAIT t in
  let '(d, t) := tcp_deadline_in c TCP_TIMEWAIT_TICKS t in t <| timewait_deadline := d |>.

(** The FIN. *)
Definition seg_fin (c : clk) (seq data_len fl : Z) (t : tcb) : tcb :=
  if ctrue (Z.land fl TCP_FIN) && seq_le seq (rcv_nxt t) && seq_ge (u32 (seq + data_len)) (rcv_nxt t) then
    let t := t <| fin_rcvd := true |> <| rcv_nxt := u32 (rcv_nxt t + 1) |> in
    let t := send_flags TCP_ACK (snd_nxt t) t in
    let t := match state t with
             | TCP_ESTABLISHED => set_state c TCP_CLOSE_WAIT t
             | TCP_FIN_WAIT_1 => set_state c TCP_CLOSING t
             | TCP_FIN_WAIT_2 => enter_time_wait c t
             | _ => t
             end in
    wake t
  else t.

(** The transitions an acknowledgement of our FIN drives; [false] is the early
    return after LAST_ACK. *)
Definition seg_closing (c : clk) (t : tcb) : bool * tcb :=
  let acked := seq_ge (snd_una t) (snd_nxt t) in
  if (state t =s TCP_FIN_WAIT_1) && (fin_sent t =? 2) && acked then
    (true, if fin_rcvd t then enter_time_wait c t else set_state c TCP_FIN_WAIT_2 t)
  else if (state t =s TCP_CLOSING) && acked then (true, enter_time_wait c t)
  else if (state t =s TCP_LAST_ACK) && acked then (false, enter_closed c 0 t)
  else (true, t).

(** A segment for connection [self], whose listener is [p]. *)
Definition tcp_segment (c : clk) (self : nat) (p : option tcb) (seg : list Z) (t : tcb) : tcb * option tcb :=
  let h := header_of seg in
  let hdr_len := Z.shiftr (data_off h) 4 * 4 in
  let data := drop (Z.to_nat hdr_len) seg in
  let data_len := Z.of_nat (length data) in
  let seq := ntohl_k (seq_n h) in
  let ack := ntohl_k (ack_n h) in
  let fl := flags h in
  let win := ntohs_k (window_n h) in
  if ctrue (Z.land fl TCP_RST) then
    let t := t <| reset := true |> in
    (enter_closed c (match state t with TCP_SYN_SENT | TCP_SYN_RECEIVED => ECONNREFUSED | _ => ECONNRESET end) t, p)
  else if state t =s TCP_SYN_SENT then (seg_syn_sent c seg hdr_len seq ack fl win t, p)
  else if negb (state t =s TCP_LISTEN) && negb (acceptable seq data_len t) then
    (send_flags TCP_ACK (snd_nxt t) t, p)
  else if negb (ctrue (Z.land fl TCP_ACK)) then (t, p)
  else match seg_syn_received c self p ack win t with
       | (false, t, p) => (t, p)
       | (true, t, p) =>
           let t := seg_window c seq ack win (seg_ack c ack data_len t) in
           let t := seg_fin c seq data_len fl (seg_data c seq data t) in
           match seg_closing c t with
           | (false, t) => (t, p)
           | (true, t) => (tcp_output c t, p)
           end
       end.

(** ** The socket-facing operations (their critical sections)

    Each returns the C result with the connection; [tcp_tx_flush] follows. *)

(** The SYN leaves: the last statements of an active and of a passive open. *)
Definition send_syn (c : clk) (fl : Z) (t : tcb) : tcb :=
  let t := send_flags fl (iss t) t in
  let t := t <| snd_nxt := u32 (snd_nxt t + 1) |> in
  let '(d, t) := tcp_deadline_in c (rto_ticks t) t in t <| rto_deadline := d |>.

(** [dev_ip] is the address of the device [route_lookup] chose, if any, and
    [isn] the random initial sequence number. *)
Definition tcp_connect (c : clk) (dev_ip : option Z) (dst_n dport_n isn : Z) (t : tcb) : Z * tcb :=
  match dev_ip with
  | None => (- ENETUNREACH, t)
  | Some ip =>
      if negb (state t =s TCP_CLOSED) then (- EISCONN, t)
      else
        let t := t <| local_n := ip |> <| remote_n := dst_n |> <| rport_n := dport_n |> in
        let t := t <| iss := u32 isn |> <| snd_una := u32 isn |> <| snd_nxt := u32 isn |> in
        let t := cc_init (t <| snd_wnd := TCP_SNDBUF |>) in
        let t := set_state c TCP_SYN_SENT t in
        let '(d, t) := tcp_deadline_in c TCP_ESTABLISH_TICKS t in
        let t := t <| establish_deadline := d |> in
        let t := t <| rtt_pending := true |> <| rtt_seq := iss t |> <| rtt_at := ticks c |> in
        (0, send_syn c TCP_SYN t)
  end.

Definition tcp_listen (c : clk) (depth : Z) (t : tcb) : Z * tcb :=
  if negb (state t =s TCP_CLOSED) && negb (state t =s TCP_LISTEN) then (- EINVAL, t)
  else
    let depth := if depth <? 1 then 1 else depth in
    let depth := if TCP_BACKLOG_MAX <? depth then TCP_BACKLOG_MAX else depth in
    (0, set_state c TCP_LISTEN (t <| backlog := depth |>)).

(** The result, and the number of bytes taken ([*sent]). *)
Definition tcp_send (c : clk) (data : list Z) (t : tcb) : Z * Z * tcb :=
  if reset t then (- ECONNRESET, 0, t)
  else if shut_wr t then (- EPIPE, 0, t)
  else if negb (state t =s TCP_ESTABLISHED) && negb (state t =s TCP_CLOSE_WAIT) then (- ENOTCONN, 0, t)
  else
    let space := u32 (TCP_SNDBUF - snd_len t) in
    let len := Z.of_nat (length data) in
    let n := if len <? space then len else space in
    let t := t <| sndbuf := ring_put (sndbuf t) (snd_head t + snd_len t) (take (Z.to_nat n) data) |> in
    let t := t <| snd_len := u32 (snd_len t + n) |> in
    (0, n, tcp_output c t).

(** The result, and the bytes copied out. *)
Definition tcp_recv (len : Z) (peek : bool) (t : tcb) : Z * list Z * tcb :=
  if negb (rcv_len t =? 0) then
    let n := if len <? rcv_len t then len else rcv_len t in
    let out := ring_get (rcvbuf t) (rcv_head t) n in
    if peek then (0, out, t)
    else
      let t := t <| rcv_head := (rcv_head t + n) mod TCP_RCVBUF |> <| rcv_len := rcv_len t - n |> in
      (0, out, if ctrue (advertised_window t) then send_flags TCP_ACK (snd_nxt t) t else t)
  else if reset t then (- ECONNRESET, [], t)
  else if fin_rcvd t || shut_rd t || (state t =s TCP_CLOSED) then (0, [], t)
  else (- EAGAIN, [], t).

Definition tcp_shutdown_write (c : clk) (t : tcb) : tcb :=
  if shut_wr t || negb (fin_sent t =? 0) then t
  else
    let t := t <| shut_wr := true |> <| fin_sent := 1 |> in
    let t := match state t with
             | TCP_ESTABLISHED => set_state c TCP_FIN_WAIT_1 t
             | TCP_CLOSE_WAIT => set_state c TCP_LAST_ACK t
             | _ => t
             end in
    tcp_output c t.

(** ** The connection table *)

(** What the fault injector holds back, and how often it acts. *)
Record faults := Faults { drop_n : Z; reorder_n : Z; counter : Z; held : option (Z * Z * list Z) }.

Record tcp := TcpSt {
  conns : list tcb;
  tcp_timer : option Z;                       (* expiry of the wheel timer, when pending *)
  wire : list (Z * Z * list Z);               (* source, destination, segment *)
  fault : faults;
}.

#[export] Instance tcp_eta : Eta tcp := fun s => TcpSt (conns s) (tcp_timer s) (wire s) (fault s).

Definition set_conn (i : nat) (t : tcb) (s : tcp) : tcp := s <| conns := <[i := t]> (conns s) |>.

(** The wheel timer after the requests of a critical section: [timer_reduce]
    keeps the earlier expiry. *)
Definition reduce (e : option Z) (at_j : Z) : option Z :=
  match e with Some x => if x <=? at_j then e else Some at_j | None => Some at_j end.

(** A critical section of connection [i] ends with connection state [t]. *)
Definition unlock (i : nat) (t : tcb) (s : tcp) : tcp :=
  set_conn i (t <| arms := [] |>) s <| tcp_timer := foldl reduce (tcp_timer s) (arms t) |>.

(** What [tcp_alloc] stores: everything but the lock, the wait queue, the poll
    head and the contents of the buffers. *)
Definition fresh (t : tcb) : tcb :=
  Tcb TCP_CLOSED true 0 0 0 0 0 0 0 0 0 0 0 TCP_RCVBUF 0 TCP_DEFAULT_MSS
      (sndbuf t) 0 0 (rcvbuf t) 0 0 (free_reasm <$> reasm t) 0 0 0 0 0
      (TCP_RTO_MIN_TICKS * 5) 0 0 (rtt_seq t) (rtt_at t) false 0 0
      0 TCP_SNDBUF 0 0 false 0 [] None
      false false false 0 0 false false false false
      [] [] (wakes t) [].

(** Slots the reaper may take: the socket is gone and nobody claimed the slot. *)
Definition reapable (t : tcb) : bool := in_use t && sock_gone t && negb (reclaimed t).

(** The scan of [reap_dead_locked]: the first CLOSED slot, otherwise the
    TIME_WAIT slot with the earliest deadline ([best] so far). *)
Fixpoint reap_scan (i : nat) (best : option (nat * tcb)) (l : list tcb) : option (nat * tcb) :=
  match l with
  | [] => best
  | t :: l =>
      if negb (reapable t) then reap_scan (S i) best l
      else if state t =s TCP_CLOSED then Some (i, t)
      else if (state t =s TCP_TIME_WAIT)
              && match best with None => true | Some (_, b) => timewait_deadline t <? timewait_deadline b end
           then reap_scan (S i) (Some (i, t)) l
           else reap_scan (S i) best l
  end.

(** The slot, already marked free. *)
Definition reap_dead_locked (l : list tcb) : option (nat * tcb) :=
  match reap_scan 0 None l with
  | None => None
  | Some (i, t) => Some (i, t <| reclaimed := true |> <| state := TCP_CLOSED |> <| in_use := false |>)
  end.

Definition tcp_alloc (s : tcp) : option (nat * tcp) :=
  match (match list_find (fun t => in_use t = false) (conns s) with
         | Some it => Some it
         | None => reap_dead_locked (conns s)
         end) with
  | Some (i, t) => Some (i, set_conn i (fresh t) s)
  | None => None
  end.

Definition tcp_release (i : nat) (s : tcp) : tcp :=
  match conns s !! i with
  | None => s
  | Some t => if reclaimed t then s
              else set_conn i (t <| reclaimed := true |> <| state := TCP_CLOSED |> <| in_use := false |>) s
  end.

Definition tcp_find (la lp ra rp : Z) (l : list tcb) : option nat :=
  fst <$> list_find (fun t => in_use t = true /\ state t <> TCP_LISTEN /\ lport_n t = lp /\ rport_n t = rp /\
                             remote_n t = ra /\ (local_n t = la \/ local_n t = 0)) l.

Definition tcp_find_listener (la lp : Z) (l : list tcb) : option nat :=
  fst <$> list_find (fun t => in_use t = true /\ state t = TCP_LISTEN /\ lport_n t = lp /\
                             (local_n t = la \/ local_n t = 0)) l.

(** Hands a segment to [net_ipv4_output], through the fault injector. *)
Definition tx_now (src dst : Z) (buf : list Z) (s : tcp) : tcp :=
  let f := fault s in
  let out l s := s <| wire := wire s ++ l |> in
  if (drop_n f =? 0) && (reorder_n f =? 0) then out [(src, dst, buf)] s
  else
    let n := u64 (counter f + 1) in
    let s := s <| fault := Faults (drop_n f) (reorder_n f) n (held f) |> in
    if negb (drop_n f =? 0) && (n mod drop_n f =? 0) then s
    else if negb (reorder_n f =? 0) && (Z.of_nat (length buf) <=? 1500) then
      match held f with
      | Some h => out [(src, dst, buf); h] s <| fault := Faults (drop_n f) (reorder_n f) n None |>
      | None => if n mod reorder_n f =? 0
                then s <| fault := Faults (drop_n f) (reorder_n f) n (Some (src, dst, buf)) |>
                else out [(src, dst, buf)] s
      end
    else out [(src, dst, buf)] s.

Definition tcp_fault_inject (d r : Z) (s : tcp) : tcp :=
  let h := held (fault s) in
  let s := s <| fault := Faults d r 0 None |> in
  match h with Some x => s <| wire := wire s ++ [x] |> | None => s end.

(** One round of [tcp_tx_flush]: the oldest staged segment leaves. *)
Definition flush_one (i : nat) (s : tcp) : option tcp :=
  match conns s !! i with
  | Some t => match txq t with
              | [] => None
              | b :: q => Some (tx_now (local_n t) (remote_n t) b (set_conn i (t <| txq := q |>) s))
              end
  | None => None
  end.

(** The staging queue holds at most eight segments. *)
Fixpoint flush_loop (fuel i : nat) (s : tcp) : tcp :=
  match fuel with
  | O => s
  | S fuel => match flush_one i s with Some s => flush_loop fuel i s | None => s end
  end.

Definition tcp_tx_flush (i : nat) (s : tcp) : tcp := flush_loop 8 i s.

(** The answer to a segment that matches no connection. *)
Definition send_rst_raw (src_n dst_n : Z) (h : tcp_header) (seg_len : Z) (s : tcp) : tcp :=
  if ctrue (Z.land (flags h) TCP_RST) then s
  else
    let b :=
      if ctrue (Z.land (flags h) TCP_ACK)
      then build_segment dst_n (dport_n h) src_n (sport_n h) (ntohl_k (ack_n h)) 0 TCP_RST 0 0 []
      else
        let ack := u32 (ntohl_k (seq_n h) + seg_len) in
        let ack := if ctrue (Z.land (flags h) TCP_SYN) then u32 (ack + 1) else ack in
        let ack := if ctrue (Z.land (flags h) TCP_FIN) then u32 (ack + 1) else ack in
        build_segment dst_n (dport_n h) src_n (sport_n h) 0 ack (Z.lor TCP_RST TCP_ACK) 0 0 [] in
    tx_now dst_n src_n b s.

(** A SYN for the listener [l] in the new slot: the connection's state. *)
Definition passive_open (c : clk) (l : nat) (src_n dst_n isn : Z) (seg : list Z) (t : tcb) : tcb :=
  let h := header_of seg in
  let t := t <| local_n := dst_n |> <| remote_n := src_n |> <| lport_n := dport_n h |> <| rport_n := sport_n h |> in
  let t := t <| irs := ntohl_k (seq_n h) |> in
  let t := t <| rcv_nxt := u32 (irs t + 1) |> in
  let t := t <| iss := u32 isn |> <| snd_una := u32 isn |> <| snd_nxt := u32 isn |> in
  let t := t <| snd_wnd := ntohs_k (window_n h) |> <| parent := Some l |> in
  let t := take_mss seg (Z.shiftr (data_off h) 4 * 4) t in
  let t := set_state c TCP_SYN_RECEIVED t in
  let '(d, t) := tcp_deadline_in c TCP_ESTABLISH_TICKS t in
  send_syn c (Z.lor TCP_SYN TCP_ACK) (t <| establish_deadline := d |>).

(** The checks [tcp_input] makes before it looks for a connection. *)
Definition seg_ok (src_n dst_n : Z) (seg : list Z) : bool :=
  let len := Z.of_nat (length seg) in
  let hdr_len := Z.shiftr (data_off (header_of seg)) 4 * 4 in
  (20 <=? len) && (20 <=? hdr_len) && (hdr_len <=? len) && net_l4_verify src_n dst_n 6 seg.

(** [tcp_segment] under the lock of connection [i]. *)
Definition input_conn (c : clk) (i : nat) (seg : list Z) (s : tcp) : tcp :=
  match conns s !! i with
  | None => s
  | Some t =>
      match tcp_segment c i (parent t ≫= (fun j => conns s !! j)) seg t with
      | (t', p) =>
          let s := unlock i t' s in
          match parent t, p with
          | Some j, Some l => set_conn j l s
          | _, _ => s
          end
      end
  end.

(** [isn] is the random number drawn for a new connection. *)
Definition tcp_input (c : clk) (isn src_n dst_n : Z) (seg : list Z) (s : tcp) : tcp :=
  if negb (seg_ok src_n dst_n seg) then s
  else
    let h := header_of seg in
    let data_len := Z.of_nat (length seg) - Z.shiftr (data_off h) 4 * 4 in
    match tcp_find dst_n (dport_n h) src_n (sport_n h) (conns s) with
    | Some i => tcp_tx_flush i (input_conn c i seg s)
    | None =>
        match (if ctrue (Z.land (flags h) TCP_SYN) && negb (ctrue (Z.land (flags h) TCP_ACK))
               then tcp_find_listener dst_n (dport_n h) (conns s) else None) with
        | Some l =>
            match tcp_alloc s with
            | None => send_rst_raw src_n dst_n h data_len s
            | Some (i, s) =>
                match conns s !! i with
                | None => s
                | Some t => tcp_tx_flush i (unlock i (passive_open c l src_n dst_n isn seg t) s)
                end
            end
        | None => send_rst_raw src_n dst_n h data_len s
        end
    end.

(** ** Timers *)

Definition due (d now : Z) : bool := negb (d =? 0) && (d <=? now).

Definition tick_rto (c : clk) (t : tcb) : tcb :=
  let t := cc_on_timeout t in
  let r := u32 (rto_ticks t * 2) in
  let r := if TCP_RTO_MAX_TICKS <? r then TCP_RTO_MAX_TICKS else r in
  let t := t <| rto_ticks := r |> <| rto_deadline := u64 (ticks c + r) |> in
  match state t with
  | TCP_SYN_SENT => send_flags TCP_SYN (iss t) t
  | TCP_SYN_RECEIVED => send_flags (Z.lor TCP_SYN TCP_ACK) (iss t) t
  | _ => retransmit t
  end.

Definition tick_persist (c : clk) (t : tcb) : tcb :=
  let t := t <| persist_shift := u8 (persist_shift t + 1) |> in
  let backoff := u32 (Z.shiftl (rto_ticks t) (if 6 <? persist_shift t then 6 else persist_shift t)) in
  let backoff := if TCP_RTO_MAX_TICKS <? backoff then TCP_RTO_MAX_TICKS else backoff in
  let t := t <| persist_deadline := u64 (ticks c + backoff) |> in
  let flight := u32 (snd_nxt t - snd_una t) in
  if flight <? snd_len t then
    tx_queue (snd_nxt t) (rcv_nxt t) TCP_ACK (advertised_window t) 0
             [sndbuf t (u32 (snd_head t + flight) mod TCP_SNDBUF)] t
  else send_flags TCP_ACK (u32 (snd_nxt t - 1)) t.

(** What a pass does to one connection: release its slot, or a new state. *)
Inductive ticked := Release | Keep (t : tcb).

Definition tick_conn (c : clk) (t : tcb) : ticked :=
  let now := ticks c in
  if due (timewait_deadline t) now then Keep (enter_closed c 0 (t <| timewait_deadline := 0 |>))
  else if sock_gone t && (state t =s TCP_CLOSED) && negb (reclaimed t) then Release
  else if due (establish_deadline t) now then Keep (enter_closed c ETIMEDOUT (t <| establish_deadline := 0 |>))
  else
    let step_rto t :=
      if due (rto_deadline t) now then
        let t := t <| retries := u8 (retries t + 1) |> in
        if TCP_MAX_RETRIES <? retries t then (true, enter_closed c ETIMEDOUT t) else (false, tick_rto c t)
      else (false, t) in
    match step_rto t with
    | (true, t) => Keep t
    | (false, t) =>
        let t := if due (delack_deadline t) now
                 then send_flags TCP_ACK (snd_nxt t) (t <| delack_deadline := 0 |>) else t in
        Keep (if due (persist_deadline t) now then tick_persist c t else t)
    end.

(** ** The callback of the wheel timer

    [tcp_timer_fn] runs in a thread: it locks one connection at a time and its
    scan for the earliest deadline takes no lock, so everything else runs between
    its parts.  [timer_pass] is where the callback is, with its locals: [now], read by
    [tcp_timer_tick] at its start, and [next] of the scan. *)
Inductive timer_pass :=
  | Idle                                      (* not running *)
  | TickAt (now : Z) (i : nat)                (* [tcp_timer_tick] is about to look at slot [i] *)
  | TickLock (now : Z) (i : nat)              (* found in use; about to take its lock *)
  | TickFlush (now : Z) (i : nat)             (* lock dropped; the staged segments are to go out *)
  | TickRelease (now : Z) (i : nat)           (* lock dropped; the slot is to be released *)
  | ScanAt (next : Z) (i : nat)               (* the scan is about to look at slot [i] *)
  | ScanRead (next : Z) (i k : nat).          (* and at the [k]th word of it *)

(** [tcp_timer_tick] up to the next place where something else can run. *)
Definition tcp_timer_tick (c : clk) (p : timer_pass) (s : tcp) : timer_pass * tcp :=
  match p with
  | TickAt now i =>
      match conns s !! i with
      | None => (ScanAt UINT64_MAX 0, s)
      | Some t => if negb (in_use t) then (TickAt now (S i), s) else (TickLock now i, s)
      end
  | TickLock now i =>
      match conns s !! i with
      | None => (TickAt now (S i), s)
      | Some t => match tick_conn (Clk now (jiffies c)) t with
                  | Release => (TickRelease now i, s)
                  | Keep t => (TickFlush now i, unlock i t s)
                  end
      end
  | TickFlush now i => (TickAt now (S i), tcp_tx_flush i s)
  | TickRelease now i => (TickAt now (S i), tcp_release i s)
  | _ => (p, s)
  end.

(** One read of the scan: the five deadlines, then the three words that say
    whether the slot waits to be reclaimed, 0 asking for the next jiffy. *)
Definition scan_read (next : Z) (i k : nat) (t : tcb) : timer_pass :=
  match k with
  | 5%nat => if sock_gone t then ScanRead next i 6 else ScanAt next (S i)
  | 6%nat => if state t =s TCP_CLOSED then ScanRead next i 7 else ScanAt next (S i)
  | 7%nat => if negb (reclaimed t) then ScanAt 0 (S i) else ScanAt next (S i)
  | _ => match [rto_deadline t; delack_deadline t; persist_deadline t; timewait_deadline t; establish_deadline t] !! k with
         | Some d => ScanRead (if negb (d =? 0) && (d <? next) then d else next) i (S k)
         | None => ScanAt next (S i)
         end
  end.

(** [tcp_timer_fn] up to the next place where something else can run. *)
Definition tcp_timer_fn (c : clk) (p : timer_pass) (s : tcp) : timer_pass * tcp :=
  match p with
  | ScanAt next i =>
      match conns s !! i with
      | Some t => if negb (in_use t) then (ScanAt next (S i), s) else (ScanRead next i 0, s)
      | None =>
          if next =? UINT64_MAX then (Idle, s)
          else (Idle, s <| tcp_timer := reduce (tcp_timer s)
                             (if next =? 0 then u64 (jiffies c + 1) else u64 (next * TCP_TICK_JIFFIES)) |>)
      end
  | ScanRead next i k =>
      match conns s !! i with Some t => (scan_read next i k t, s) | None => (ScanAt next (S i), s) end
  | _ => tcp_timer_tick c p s
  end.

(** The wheel takes the timer off and calls it. *)
Definition timer_fires (c : clk) (p : timer_pass) (s : tcp) : timer_pass * tcp :=
  match p, tcp_timer s with
  | Idle, Some e => if e <=? jiffies c then (TickAt (ticks c) 0, s <| tcp_timer := None |>) else (p, s)
  | _, _ => (p, s)
  end.

(** ** Close

    [tcp_close] is cut where it drops the lock: [close_begin], one
    [close_orphan] per connection nobody accepted, [close_end]. *)

Definition close_begin (c : clk) (i : nat) (s : tcp) : option (tcp_state * list nat * tcp) :=
  match conns s !! i with
  | None => None
  | Some t =>
      let st := state t in
      let t := tcp_timer_kick c (t <| sock_gone := true |>) in
      if st =s TCP_LISTEN then Some (st, accept_q t, unlock i (t <| accept_q := [] |>) s)
      else Some (st, [], unlock i t s)
  end.

Definition close_orphan (c : clk) (s : tcp) (i : nat) : tcp :=
  match conns s !! i with
  | None => s
  | Some t =>
      let t := t <| sock_gone := true |> in
      let t := set_state c TCP_CLOSED (send_flags TCP_RST (snd_nxt t) t) in
      tcp_release i (tcp_tx_flush i (unlock i t s))
  end.

Definition close_end (c : clk) (i : nat) (st : tcp_state) (s : tcp) : tcp :=
  match conns s !! i with
  | None => s
  | Some t =>
      match st with
      | TCP_ESTABLISHED | TCP_CLOSE_WAIT => tcp_tx_flush i (unlock i (tcp_shutdown_write c t) s)
      | TCP_LISTEN | TCP_CLOSED | TCP_SYN_SENT =>
          let t := if st =s TCP_SYN_SENT then send_flags TCP_RST (snd_nxt t) t else t in
          tcp_release i (tcp_tx_flush i (unlock i (set_state c TCP_CLOSED t) s))
      | _ => s
      end
  end.

Definition tcp_close (c : clk) (i : nat) (s : tcp) : tcp :=
  match close_begin c i s with
  | None => s
  | Some (st, orphans, s) => close_end c i st (foldl (close_orphan c) s orphans)
  end.

(** [socket_accept4] (kernel/net/socket.c): the oldest queued connection. *)
Definition accept_pop (l : nat) (s : tcp) : option (nat * tcp) :=
  match conns s !! l with
  | None => None
  | Some t => match accept_q t with
              | [] => None
              | i :: q => Some (i, set_conn l (t <| accept_q := q |>) s)
              end
  end.

(** The table at boot: zeroed memory. *)
Definition tcb0 : tcb :=
  Tcb TCP_CLOSED false 0 0 0 0 0 0 0 0 0 0 0 0 0 0
      (fun _ => 0) 0 0 (fun _ => 0) 0 0 (replicate TCP_REASM_SEGS (Reasm 0 0 false [])) 0 0 0 0 0
      0 0 0 0 0 false 0 0
      0 0 0 0 false 0 [] None
      false false false 0 0 false false false false
      [] [] 0 [].

Definition tcp_init : tcp := TcpSt (replicate TCP_MAX_CONNS tcb0) None [] (Faults 0 0 0 None).
