(* ===== verification/TcpStream.v ===== *)
(** * The TCP byte stream (theorems on kernel/net/tcp.c)

    Two connections that have completed the handshake exchange segments over a
    network that may lose, repeat and reorder them; the applications send,
    receive, shut down and close, and the timers fire at any time.  Sequence
    numbers are related to absolute stream positions: the send ring holds the
    bytes from the acknowledged position on, every staged segment carries the
    bytes of the stream at its sequence number, and the receive ring with what
    has been read is a prefix of the peer's stream. *)

From stdpp Require Import base numbers list functions.
From S2P Require Import Prelude Net Tcp.

(** ** Sequence arithmetic *)

Lemma u32_plus b x n : u32 (u32 (b + x) + n) = u32 (b + (x + n)).
Proof. unfold u32. rewrite Zplus_mod_idemp_l. f_equal. lia. Qed.

Lemma u32_minus b x y : u32 (u32 (b + x) - u32 (b + y)) = u32 (x - y).
Proof. unfold u32. rewrite <- Zminus_mod. f_equal. lia. Qed.

Lemma u32_minus_small b x y : 0 <= x - y < W32 -> u32 (u32 (b + x) - u32 (b + y)) = x - y.
Proof. intros. rewrite u32_minus. by apply u32_small. Qed.

Lemma i32_mod z z' : z mod W32 = z' mod W32 -> i32 z = i32 z'.
Proof. intros H. unfold i32. by rewrite <- Zplus_mod_idemp_l, H, Zplus_mod_idemp_l. Qed.

Lemma i32_small z : - 2147483648 <= z < 2147483648 -> i32 z = z.
Proof. intros. unfold i32. rewrite Z.mod_small; lia. Qed.

(** The signed difference of two positions less than 2^31 apart. *)
Lemma i32_minus b x y : - 2147483648 <= x - y < 2147483648 -> i32 (u32 (b + x) - u32 (b + y)) = x - y.
Proof.
  intros H. rewrite <- (i32_small (x - y)) by done. apply i32_mod.
  unfold u32. rewrite <- Zminus_mod. f_equal. lia.
Qed.

Lemma seq_lt_abs b x y : - 2147483648 <= x - y < 2147483648 -> seq_lt (u32 (b + x)) (u32 (b + y)) = (x <? y).
Proof. intros. unfold seq_lt. rewrite i32_minus by done. zcases; done || lia. Qed.

Lemma seq_le_abs b x y : - 2147483648 <= x - y < 2147483648 -> seq_le (u32 (b + x)) (u32 (b + y)) = (x <=? y).
Proof. intros. unfold seq_le. rewrite i32_minus by done. zcases; done || lia. Qed.

Lemma seq_gt_abs b x y : - 2147483648 <= x - y < 2147483648 -> seq_gt (u32 (b + x)) (u32 (b + y)) = (y <? x).
Proof. intros. unfold seq_gt. rewrite i32_minus by done. zcases; done || lia. Qed.

Lemma seq_ge_abs b x y : - 2147483648 <= x - y < 2147483648 -> seq_ge (u32 (b + x)) (u32 (b + y)) = (y <=? x).
Proof. intros. unfold seq_ge. rewrite i32_minus by done. zcases; done || lia. Qed.

Lemma u32_abs_inj b x y : - W32 < x - y < W32 -> u32 (b + x) = u32 (b + y) -> x = y.
Proof.
  intros H E. unfold u32 in E.
  assert ((x - y) mod W32 = 0) as Hm.
  { replace (x - y) with ((b + x) - (b + y)) by lia. rewrite Zminus_mod, E, Z.sub_diag. done. }
  apply Z.mod_divide in Hm as [k Hk]; [|lia]. assert (k = 0) by lia. lia.
Qed.

(** ** Rings *)

Lemma ring_get_length f o n : length (ring_get f o n) = Z.to_nat n.
Proof. unfold ring_get. by rewrite length_fmap, length_seqZ. Qed.

Lemma ring_get_ext f g o o' n :
  (forall k, 0 <= k < n -> f ((o + k) mod TCP_SNDBUF) = g ((o' + k) mod TCP_SNDBUF)) -> ring_get f o n = ring_get g o' n.
Proof.
  intros H. unfold ring_get. apply list_fmap_ext. intros j k Hk. apply H.
  apply lookup_seqZ in Hk. lia.
Qed.

Lemma ring_get_mod f o n : ring_get f (o mod TCP_SNDBUF) n = ring_get f o n.
Proof. apply ring_get_ext. intros k Hk. by rewrite Zplus_mod_idemp_l. Qed.

Lemma ring_get_app f o n m : 0 <= n -> 0 <= m -> ring_get f o (n + m) = ring_get f o n ++ ring_get f (o + n) m.
Proof.
  intros Hn Hm. unfold ring_get. rewrite seqZ_app, fmap_app by lia. f_equal.
  replace (seqZ (0 + n) m) with (Z.add n <$> seqZ 0 m) by (rewrite fmap_add_seqZ; f_equal; lia).
  rewrite <- list_fmap_compose. apply list_fmap_ext. intros j k _. simpl. f_equal. f_equal. lia.
Qed.

Lemma ring_get_drop f o n k : 0 <= k <= n -> ring_get f (o + k) (n - k) = drop (Z.to_nat k) (ring_get f o n).
Proof.
  intros H. replace n with (k + (n - k)) at 2 by lia. rewrite ring_get_app by lia.
  by rewrite drop_app_length' by by rewrite ring_get_length.
Qed.

Lemma ring_get_take f o n k : 0 <= k <= n -> ring_get f o k = take (Z.to_nat k) (ring_get f o n).
Proof.
  intros H. replace n with (k + (n - k)) by lia. rewrite ring_get_app by lia.
  by rewrite take_app_length' by by rewrite ring_get_length.
Qed.

Lemma ring_put_other f o l j : (forall k, 0 <= k < Z.of_nat (length l) -> (o + k) mod TCP_SNDBUF <> j) ->
  ring_put f o l j = f j.
Proof.
  revert f o. induction l as [|x l IH]; intros f o H; cbn [ring_put]; [done|].
  rewrite IH.
  - rewrite fn_lookup_insert_ne; [done|]. specialize (H 0). rewrite Z.add_0_r in H. apply H. cbn [length]. lia.
  - intros k Hk. specialize (H (k + 1)). rewrite <- Z.add_assoc, (Z.add_comm 1). apply H. cbn [length]. lia.
Qed.

Lemma ring_put_get f o l : Z.of_nat (length l) <= TCP_SNDBUF ->
  ring_get (ring_put f o l) o (Z.of_nat (length l)) = l.
Proof.
  revert f o. induction l as [|x l IH]; intros f o H; [done|]. cbn [length] in *.
  rewrite Nat2Z.inj_succ. replace (Z.succ (Z.of_nat (length l))) with (1 + Z.of_nat (length l)) by lia.
  rewrite ring_get_app by lia. cbn [ring_put]. rewrite IH by lia.
  change (ring_get ?f ?o 1) with [f ((o + 0) mod TCP_SNDBUF)]. cbn [app]. f_equal.
  rewrite Z.add_0_r, ring_put_other; [apply fn_lookup_insert|].
  intros k Hk E. dlia.
Qed.

(** Appending [l] behind the [n] bytes from [o] on. *)
Lemma ring_put_app f o n l : 0 <= n -> n + Z.of_nat (length l) <= TCP_SNDBUF ->
  ring_get (ring_put f (o + n) l) o (n + Z.of_nat (length l)) = ring_get f o n ++ l.
Proof.
  intros Hn H. rewrite ring_get_app by lia. f_equal; [|apply ring_put_get; lia].
  apply ring_get_ext. intros k Hk. apply ring_put_other. intros j Hj E. dlia.
Qed.

(** ** What a segment says *)

Definition hdr_len (seg : list Z) : Z := Z.shiftr (data_off (header_of seg)) 4 * 4.
Definition seg_seq (seg : list Z) : Z := ntohl_k (seq_n (header_of seg)).
Definition seg_ackno (seg : list Z) : Z := ntohl_k (ack_n (header_of seg)).
Definition seg_flags (seg : list Z) : Z := flags (header_of seg).
Definition seg_payload (seg : list Z) : list Z := drop (Z.to_nat (hdr_len seg)) seg.

Lemma ld32_of_st32 v : 0 <= v < W32 -> ld32 (st32 v) 0 = v.
Proof. exact (ld_st32 v). Qed.

Lemma seg_bytes_view sp dp sq ak fl win ck opts data :
  0 <= sq < W32 -> 0 <= ak < W32 -> opts = [] \/ length opts = 4%nat ->
  let seg := seg_bytes sp dp sq ak fl win ck opts data in
  hdr_len seg = 20 + Z.of_nat (length opts) /\ seg_seq seg = sq /\ seg_ackno seg = ak /\ seg_flags seg = fl /\
  seg_payload seg = data /\ length seg = (20 + length opts + length data)%nat.
Proof.
  intros Hsq Hak Ho seg.
  assert (Hh : hdr_len seg = 20 + Z.of_nat (length opts)).
  { unfold hdr_len. change (data_off (header_of seg)) with (u8 (Z.shiftl ((20 + Z.of_nat (length opts)) / 4) 4)).
    destruct Ho as [->| ->]; reflexivity. }
  split; [done|]. split_and!.
  - unfold seg_seq. change (seq_n (header_of seg)) with (ld32 (st32 (htonl_k sq)) 0).
    rewrite ld32_of_st32 by apply htonl_range. by apply htonl_htonl.
  - unfold seg_ackno. change (ack_n (header_of seg)) with (ld32 (st32 (htonl_k ak)) 0).
    rewrite ld32_of_st32 by apply htonl_range. by apply htonl_htonl.
  - reflexivity.
  - unfold seg_payload. rewrite Hh. subst seg.
    replace (Z.to_nat (20 + Z.of_nat (length opts))) with (20 + length opts)%nat by lia.
    unfold seg_bytes. rewrite <- drop_drop.
    change (drop 20 _) with (opts ++ data). by rewrite drop_app_length.
  - subst seg. unfold seg_bytes. rewrite !length_app. cbn [length st16 st32]. lia.
Qed.

Lemma build_segment_view src sp dst dp sq ak fl win m data :
  0 <= sq < W32 -> 0 <= ak < W32 ->
  let seg := build_segment src sp dst dp sq ak fl win m data in
  seg_seq seg = sq /\ seg_ackno seg = ak /\ seg_flags seg = fl /\ seg_payload seg = data /\
  20 <= hdr_len seg <= 24 /\ Z.of_nat (length seg) = hdr_len seg + Z.of_nat (length data).
Proof.
  intros Hsq Hak seg. subst seg. unfold build_segment. destruct (m =? 0).
  - destruct (seg_bytes_view sp dp sq ak fl win (net_l4_checksum src dst 6 (seg_bytes sp dp sq ak fl win 0 [] data))
      [] data) as (-> & -> & -> & -> & -> & ->); auto. cbn [length]. split_and!; done || lia.
  - destruct (seg_bytes_view sp dp sq ak fl win (net_l4_checksum src dst 6
      (seg_bytes sp dp sq ak fl win 0 [2; 4; u8 (Z.shiftr m 8); u8 (Z.land m 0xFF)] data))
      [2; 4; u8 (Z.shiftr m 8); u8 (Z.land m 0xFF)] data) as (-> & -> & -> & -> & -> & ->); auto.
    cbn [length]. split_and!; done || lia.
Qed.

(** Every built segment passes the checks of [tcp_input]. *)
Lemma build_segment_ok src sp dst dp sq ak fl win m data :
  0 <= sq < W32 -> 0 <= ak < W32 -> byte fl -> Forall byte data -> Z.of_nat (length data) <= 1460 ->
  seg_ok src dst (build_segment src sp dst dp sq ak fl win m data) = true.
Proof.
  intros Hsq Hak Hfl Hd Hl.
  destruct (build_segment_view src sp dst dp sq ak fl win m data) as (_ & _ & _ & _ & Hh & Hlen); try done.
  unfold seg_ok. fold (hdr_len (build_segment src sp dst dp sq ak fl win m data)).
  rewrite !andb_true_iff, !Z.leb_le. split_and!; try lia.
  unfold build_segment, seg_bytes. apply l4_store; [by exists 8%nat| | |lia|].
  - repeat apply Forall_app_2; auto using net_st16_bytes, net_st32_bytes. repeat constructor; try apply Hfl.
    all: unfold u8; dlia.
  - repeat apply Forall_app_2; auto using net_st16_bytes. destruct (m =? 0); repeat constructor; unfold u8; try lia; dlia.
  - rewrite !length_app. cbn [length st16 st32]. destruct (m =? 0); cbn [length]; lia.
Qed.

(** ** The send side

    [sent] is every byte the application handed to [tcp_send]; stream position
    0 is the byte after the SYN, at sequence number [iss + 1]. *)

Abbreviation len l := (Z.of_nat (length l)).

(** A segment of a sender whose initial sequence number is [isn]: its payload
    is the stream at its sequence number, and only a segment without payload at
    the end of the stream carries the FIN. *)
Definition carries (sent : list Z) (isn : Z) (fin : bool) (seg : list Z) : Prop :=
  exists p, seg_seq seg = u32 (isn + 1 + p) /\ -1 <= p <= len sent + 1 /\
    (seg_payload seg <> [] -> 0 <= p /\ seg_payload seg = take (length (seg_payload seg)) (drop (Z.to_nat p) sent)) /\
    (ctrue (Z.land (seg_flags seg) TCP_FIN) = true -> seg_payload seg = [] /\ p = len sent /\ fin = true).

(** The send window: [a] is acknowledged, [n] is next. *)
Definition snd_at (sent : list Z) (t : tcb) (a n : Z) : Prop :=
  snd_una t = u32 (iss t + 1 + a) /\ snd_nxt t = u32 (iss t + 1 + n) /\
  0 <= a <= n /\ n <= len sent + (if fin_sent t =? 2 then 1 else 0) /\
  (fin_sent t = 2 -> n = len sent + 1) /\ (fin_sent t <> 0 -> shut_wr t = true) /\
  snd_len t = Z.max 0 (len sent - a) /\ len sent - a <= TCP_SNDBUF /\
  ring_get (sndbuf t) (snd_head t) (snd_len t) = drop (Z.to_nat a) sent.

Definition staged (sent : list Z) (t : tcb) (seg : list Z) : Prop :=
  carries sent (iss t) (fin_sent t =? 2) seg /\ seg_ok (local_n t) (remote_n t) seg = true.

Record snd_inv (sent : list Z) (t : tcb) : Prop := SndInv {
  si_mss : 1 <= mss t <= TCP_MAX_MSS;
  si_head : 0 <= snd_head t < TCP_SNDBUF;
  si_rcv : 0 <= rcv_nxt t < W32;
  si_bytes : Forall byte sent;
  si_pos : exists a n, snd_at sent t a n;
  si_txq : Forall (staged sent t) (txq t);
}.

(** The fields the send side consists of. *)
Definition snd_fields (t : tcb) :=
  (iss t, snd_una t, snd_nxt t, mss t, snd_head t, snd_len t, sndbuf t, fin_sent t, shut_wr t, local_n t, remote_n t, txq t).

Lemma snd_inv_frame sent t t' :
  snd_fields t' = snd_fields t -> 0 <= rcv_nxt t' < W32 -> snd_inv sent t -> snd_inv sent t'.
Proof.
  unfold snd_fields. intros [= E1 E2 E3 E4 E5 E6 E7 E8 E9 E10 E11 E12] Hr [Hm Hh _ Hb (a & n & Hp) Ht].
  unfold snd_at, staged in *. constructor; unfold staged.
  - by rewrite E4.
  - by rewrite E5.
  - done.
  - done.
  - exists a, n. unfold snd_at. by rewrite E1, E2, E3, E5, E6, E7, E8, E9.
  - by rewrite E1, E8, E10, E11, E12.
Qed.

Lemma tx_queue_inv sent t p ak fl w m data :
  snd_inv sent t -> -1 <= p <= len sent + 1 -> 0 <= ak < W32 -> byte fl -> Z.of_nat (length data) <= TCP_MAX_MSS ->
  (data <> [] -> 0 <= p /\ data = take (length data) (drop (Z.to_nat p) sent)) ->
  (ctrue (Z.land fl TCP_FIN) = true -> data = [] /\ p = len sent /\ fin_sent t = 2) ->
  snd_inv sent (tx_queue (u32 (iss t + 1 + p)) ak fl w m data t).
Proof.
  intros [Hm Hh Hr Hb (a & n & Hp) Ht] Hpr Hak Hfl Hl Hd Hf. unfold tx_queue.
  destruct (8 <=? length (txq t))%nat; [by constructor; eauto|].
  set (s := build_segment _ _ _ _ _ _ _ _ _ _).
  destruct (build_segment_view (local_n t) (lport_n t) (remote_n t) (rport_n t) (u32 (iss t + 1 + p)) ak fl w m data)
    as (V1 & V2 & V3 & V4 & V5 & V6); [apply u32_range|done|]. fold s in V1, V2, V3, V4, V5, V6.
  rewrite take_ge by (rewrite u16_small; lia).
  assert (Hdb : Forall byte data).
  { destruct data as [|x data]; [done|]. destruct Hd as [_ ->]; [done|]. by apply Forall_take, Forall_drop. }
  constructor; fields; try done.
  - exists a, n. exact Hp.
  - apply Forall_app_2; [exact Ht|]. constructor; [|done]. split.
    + exists p. rewrite V1, V3, V4. split; [done|]. split; [done|]. split; [done|].
      intros H. destruct (Hf H) as (? & ? & Hff). split; [done|]. split; [done|]. change (fin_sent t =? 2 = true). by rewrite Hff.
    + apply build_segment_ok; auto using u32_range.
Qed.

(** *** Operations that leave the send side alone *)

(** [f t] agrees with [t] on the send side and the receive position. *)
Definition same_snd (t' t : tcb) : Prop := snd_fields t' = snd_fields t /\ rcv_nxt t' = rcv_nxt t.

Lemma same_snd_inv sent t t' : same_snd t' t -> snd_inv sent t -> snd_inv sent t'.
Proof. intros [H1 H2] Hi. eapply snd_inv_frame; [done| |done]. rewrite H2. apply Hi. Qed.

(** Splits every conditional of the goal. *)
Ltac ifs := repeat match goal with |- context [if ?b then _ else _] => destruct b end.

Lemma set_state_same c s t : same_snd (set_state c s t) t.
Proof. unfold set_state, tcp_timer_kick, timer_request. cbv zeta. ifs; split; reflexivity. Qed.

Lemma enter_closed_same c e t : same_snd (enter_closed c e t) t.
Proof. exact (set_state_same c TCP_CLOSED t). Qed.

Lemma enter_time_wait_same c t : same_snd (enter_time_wait c t) t.
Proof. exact (set_state_same c TCP_TIME_WAIT t). Qed.

Lemma arm_rto_same c t : same_snd (arm_rto c t) t.
Proof. unfold arm_rto. ifs; split; reflexivity. Qed.

Lemma cc_on_ack_same a t : same_snd (cc_on_ack a t) t.
Proof. unfold cc_on_ack. cbv zeta. ifs; split; reflexivity. Qed.

Lemma cc_on_timeout_same t : same_snd (cc_on_timeout t) t.
Proof. split; reflexivity. Qed.

Lemma cc_on_dupack_same t : same_snd (fst (cc_on_dupack t)) t.
Proof. unfold cc_on_dupack. cbv zeta. ifs; split; reflexivity. Qed.

Lemma rtt_sample_same m t : same_snd (rtt_sample m t) t.
Proof. unfold rtt_sample. cbv zeta. destruct (srtt_8 t =? 0); split; reflexivity. Qed.

Lemma take_sample_same c t : same_snd (take_sample c t) t.
Proof.
  unfold take_sample. destruct (rtt_sample_same (u64 (ticks c - rtt_at t)) t) as [H1 H2].
  revert H1 H2. generalize (rtt_sample (u64 (ticks c - rtt_at t)) t). intros u H1 H2.
  split; [rewrite <- H1|rewrite <- H2]; reflexivity.
Qed.

Lemma seg_window_same c sq ak w t : same_snd (seg_window c sq ak w t) t.
Proof. unfold seg_window. cbv zeta. ifs; split; reflexivity. Qed.

Lemma same_snd_trans t1 t2 t3 : same_snd t1 t2 -> same_snd t2 t3 -> same_snd t1 t3.
Proof. intros [H1 H2] [H3 H4]. split; congruence. Qed.

(** *** Operations that stage segments *)

Lemma send_flags_inv sent t p fl :
  snd_inv sent t -> -1 <= p <= len sent + 1 -> byte fl ->
  (ctrue (Z.land fl TCP_FIN) = true -> p = len sent /\ fin_sent t = 2) ->
  snd_inv sent (send_flags fl (u32 (iss t + 1 + p)) t).
Proof.
  intros Hi Hp Hfl Hf. unfold send_flags. apply tx_queue_inv; try done.
  - apply Hi.
  - intros H. destruct (Hf H). done.
Qed.

Lemma snd_at_flight sent t a n : snd_at sent t a n ->
  u32 (snd_nxt t - snd_una t) = n - a /\ 0 <= n - a <= TCP_SNDBUF + 1 /\ 0 <= snd_len t <= TCP_SNDBUF.
Proof.
  intros (-> & -> & ? & ? & ? & ? & -> & ? & ?).
  assert (n - a <= TCP_SNDBUF + 1) by (destruct (_ =? 2); lia).
  split; [apply u32_minus_small; lia|lia].
Qed.

(** The bytes of the ring at an offset are those of the stream. *)
Lemma snd_at_bytes sent t a n k m : snd_at sent t a n -> 0 <= k -> 0 <= m -> k + m <= snd_len t ->
  ring_get (sndbuf t) (snd_head t + k) m = take (Z.to_nat m) (drop (Z.to_nat (a + k)) sent).
Proof.
  intros (_ & _ & Ha & _ & _ & _ & Hl & _ & Hg) Hk Hm Hkm.
  rewrite (ring_get_take _ _ (snd_len t - k) m) by lia. rewrite ring_get_drop by lia.
  rewrite Hg, drop_drop. do 2 f_equal. lia.
Qed.

(** Moving [snd_nxt] forward over buffered bytes. *)
Lemma snd_inv_advance sent t a n m : snd_inv sent t -> snd_at sent t a n -> 0 <= m -> n + m <= len sent -> fin_sent t <> 2 ->
  snd_inv sent (t <| snd_nxt := u32 (snd_nxt t + m) |>).
Proof.
  intros [Hm Hh Hr Hb _ Ht] (P1 & P2 & P3 & P4 & P5 & P6 & P7 & P8 & P9) Hm0 Hn Hf.
  constructor; try done. exists a, (n + m). unfold snd_at. fields.
  rewrite P2, u32_plus. split_and!; try done; try lia. ifs; lia.
Qed.

Lemma output_step_inv sent c w t t' : snd_inv sent t -> output_step c w t = Some t' -> snd_inv sent t'.
Proof.
  intros Hi. assert (Hi' := Hi). destruct Hi' as [Hm Hh Hr Hb (a & n & Hp) Ht].
  destruct (snd_at_flight _ _ _ _ Hp) as (Hfl & Hfl2 & Hsl).
  unfold output_step. destruct (7 <=? _)%nat; [done|]. cbv zeta. rewrite Hfl.
  destruct (Z.leb_spec w (n - a)); [done|]. destruct (Z.leb_spec (snd_len t) (n - a)); [done|].
  set (k := if mss t <? _ then mss t else _).
  assert (Hk : 0 <= k <= snd_len t - (n - a) /\ k <= TCP_MAX_MSS).
  { subst k. destruct (Z.ltb_spec (snd_len t - (n - a)) (w - (n - a))); zcases; lia. }
  clearbody k.
  destruct (_ && (0 <? _)); [done|]. intros [= <-].
  assert (Hp' := Hp). destruct Hp' as (P1 & P2 & P3 & P4 & P5 & P6 & P7 & P8 & P9).
  assert (Hf : fin_sent t <> 2) by (intros Hf; specialize (P5 Hf); lia).
  assert (H1 : snd_inv sent (tx_queue (snd_nxt t) (rcv_nxt t) (Z.lor TCP_ACK TCP_PSH) (advertised_window t) 0
                       (ring_get (sndbuf t) ((snd_head t + (n - a)) mod TCP_SNDBUF) k) t)).
  { rewrite P2. apply tx_queue_inv; try done; try (unfold byte; lia); rewrite ?ring_get_length; try lia.
    intros _. split; [lia|]. rewrite ring_get_mod, (snd_at_bytes sent t a n) by (done || lia).
    do 2 f_equal; lia. }
  set (t1 := tx_queue _ _ _ _ _ _ t) in *.
  assert (E1 : snd_at sent t1 a n /\ fin_sent t1 = fin_sent t).
  { subst t1. unfold tx_queue. ifs; split; reflexivity || exact Hp. }
  destruct E1 as [E1 E2]. clearbody t1.
  eapply same_snd_inv; [eapply same_snd_trans; [split; reflexivity|apply arm_rto_same]|].
  destruct (rtt_pending t1).
  - apply (snd_inv_advance sent t1 a n k); try done; lia.
  - eapply (snd_inv_frame sent (t1 <| snd_nxt := u32 (snd_nxt t1 + k) |>)); [reflexivity|apply H1|].
    apply (snd_inv_advance sent t1 a n k); try done; lia.
Qed.

Lemma output_loop_inv sent c w fuel t : snd_inv sent t -> snd_inv sent (output_loop fuel c w t).
Proof.
  revert t. induction fuel as [|fuel IH]; intros t Hi; cbn [output_loop]; [done|].
  destruct (output_step c w t) as [t'|] eqn:E; [|done]. apply IH. by eapply output_step_inv.
Qed.

Lemma output_fin_inv sent c t : snd_inv sent t -> snd_inv sent (output_fin c t).
Proof.
  intros Hi. unfold output_fin. destruct (_ && _) eqn:E; [|done]. zbool. cbv zeta.
  eapply same_snd_inv; [apply arm_rto_same|].
  destruct Hi as [Hm Hh Hr Hb (a & n & (P1 & P2 & P3 & P4 & P5 & P6 & P7 & P8 & P9)) Ht].
  rewrite H in P4. change (1 =? 2) with false in P4. cbv iota in P4.
  assert (n = len sent) as ->.
  { rewrite P1, P2, u32_plus in H0. apply u32_abs_inj in H0; lia. }
  set (t1 := t <| snd_nxt := u32 (snd_nxt t + 1) |> <| fin_sent := 2 |>).
  assert (H1 : snd_inv sent t1).
  { constructor; try done.
    - exists a, (len sent + 1). unfold snd_at. subst t1. fields. rewrite P2, u32_plus.
      change (2 =? 2) with true. split_and!; try done; try lia. intros _. apply P6. lia.
    - subst t1. eapply Forall_impl; [|exact Ht]. intros s [(p & C1 & C2 & C3 & C4) C5]. split; [|exact C5].
      exists p. split_and!; [exact C1|lia|lia|exact C3|]. intros F. apply C4 in F. split; [|split]; [apply F..|done]. }
  assert (E : send_flags (Z.lor TCP_FIN TCP_ACK) (snd_nxt t) t <| snd_nxt := u32 (snd_nxt (send_flags (Z.lor TCP_FIN TCP_ACK) (snd_nxt t) t) + 1) |> <| fin_sent := 2 |>
              = send_flags (Z.lor TCP_FIN TCP_ACK) (u32 (iss t1 + 1 + len sent)) t1).
  { change (u32 (iss t1 + 1 + len sent)) with (u32 (iss t + 1 + len sent)). rewrite <- P2.
    unfold send_flags, tx_queue. subst t1. cbv zeta. fields. ifs; reflexivity. }
  rewrite E. apply send_flags_inv; [done|lia|by split; vm_compute|done].
Qed.

Lemma tcp_output_inv sent c t : snd_inv sent t -> snd_inv sent (tcp_output c t).
Proof. intros Hi. unfold tcp_output. destruct (negb _); [done|]. by apply output_fin_inv, output_loop_inv. Qed.

Lemma retransmit_inv sent t : snd_inv sent t -> snd_inv sent (retransmit t).
Proof.
  intros Hi. assert (Hi' := Hi). destruct Hi' as [Hm Hh Hr Hb (a & n & Hp) Ht].
  destruct (snd_at_flight _ _ _ _ Hp) as (Hfl & Hfl2 & Hsl).
  assert (Hp' := Hp). destruct Hp' as (P1 & P2 & P3 & P4 & P5 & P6 & P7 & P8 & P9).
  unfold retransmit. cbv zeta. rewrite Hfl.
  set (k := if (fin_sent t =? 2) && _ then _ else _).
  assert (Hk : 0 <= k <= snd_len t).
  { subst k. rewrite (u32_small (snd_len t + 1)) by lia. destruct (Z.eqb_spec (fin_sent t) 2) as [Hf|Hf]; cbn [andb].
    - specialize (P5 Hf). zcases; lia.
    - lia. }
  clearbody k. destruct (Z.eqb_spec k 0).
  - destruct (Z.eqb_spec (fin_sent t) 2) as [Hf|]; [|done]. specialize (P5 Hf).
    replace (u32 (snd_nxt t - 1)) with (u32 (iss t + 1 + len sent)).
    2:{ rewrite P2. rewrite <- Z.add_opp_r, u32_plus. f_equal. lia. }
    apply send_flags_inv; [done|lia|by split; vm_compute|done].
  - set (m := if k <? mss t then k else mss t). assert (0 <= m <= k /\ m <= TCP_MAX_MSS) by (subst m; zcases; lia).
    clearbody m. set (t1 := t <| rtt_pending := false |>).
    change (snd_una t1) with (snd_una t). rewrite P1. change (iss t) with (iss t1).
    apply tx_queue_inv.
    + eapply same_snd_inv; [|exact Hi]. split; reflexivity.
    + lia.
    + exact Hr.
    + by split; vm_compute.
    + rewrite ring_get_length. lia.
    + intros _. split; [lia|]. rewrite ring_get_length.
      rewrite <- (Z.add_0_r (snd_head t)). rewrite (snd_at_bytes sent t a n) by (done || lia). do 2 f_equal. lia.
    + done.
Qed.

(** *** Acknowledgements *)

(** An acceptable acknowledgement, as the position it acknowledges up to. *)
Lemma ack_position b a n ak : 0 <= ak < W32 -> 0 <= n - a <= TCP_SNDBUF + 1 ->
  seq_gt ak (u32 (b + a)) = true -> seq_le ak (u32 (b + n)) = true ->
  exists k, ak = u32 (b + (a + k)) /\ 0 < k <= n - a /\ u32 (ak - u32 (b + a)) = k.
Proof.
  intros Hak Hn Hg Hl. set (k := u32 (ak - u32 (b + a))). pose proof (u32_range (ak - u32 (b + a))) as Hk. fold k in Hk.
  assert (Hak' : ak = u32 (b + (a + k))).
  { rewrite <- u32_plus. subst k. unfold u32. rewrite Zplus_mod_idemp_r.
    replace ((b + a) mod W32 + (ak - (b + a) mod W32)) with ak by lia. symmetry. by apply Z.mod_small. }
  assert (Hi : i32 (ak - u32 (b + a)) = i32 k).
  { apply i32_mod. subst k. unfold u32. by rewrite Zmod_mod. }
  unfold seq_gt in Hg. rewrite Hi in Hg. zbool. assert (0 < k < 2147483648).
  { unfold i32 in Hg. dlia. }
  exists k. split; [done|]. split; [|done]. split; [lia|].
  rewrite Hak', seq_le_abs in Hl by lia. zbool. lia.
Qed.

Lemma acked_inv sent t a n k ak :
  snd_inv sent t -> snd_at sent t a n -> ak = u32 (iss t + 1 + (a + k)) -> 0 < k <= n - a ->
  let d := if (fin_sent t =? 2) && seq_ge ak (u32 (snd_una t + snd_len t + 1)) then snd_len t else k in
  snd_inv sent (t <| snd_una := ak |> <| snd_head := u32 (snd_head t + d) mod TCP_SNDBUF |>
                  <| snd_len := snd_len t - (if d <? snd_len t then d else snd_len t) |>).
Proof.
  intros [Hm Hh Hr Hb _ Ht] Hp Hak Hk d.
  destruct (snd_at_flight _ _ _ _ Hp) as (Hfl & Hfl2 & Hsl).
  destruct Hp as (P1 & P2 & P3 & P4 & P5 & P6 & P7 & P8 & P9).
  assert (Hd : d = Z.min k (snd_len t) /\ (d < k -> a + k = len sent + 1)).
  { subst d. rewrite P1, <- Z.add_assoc, u32_plus, Hak, seq_ge_abs by lia.
    destruct (Z.eqb_spec (fin_sent t) 2) as [Hf|Hf]; cbn [andb].
    - specialize (P5 Hf). zcases; lia.
    - rewrite P7. lia. }
  destruct Hd as [Hd Hd2]. clearbody d. set (l := if d <? snd_len t then d else snd_len t).
  assert (l = d) as -> by (subst l; zcases; lia).
  constructor; fields; try done; [dlia|].
  exists (a + k), n. unfold snd_at. fields. split_and!; try done; try lia.
  rewrite u32_small by lia. rewrite ring_get_mod, ring_get_drop by lia. rewrite P9, drop_drop.
  destruct (decide (d < k)) as [Hlt|].
  - rewrite !drop_ge; [done|lia..].
  - f_equal. lia.
Qed.

Lemma seg_ack_inv sent c ak dl t : 0 <= ak < W32 -> snd_inv sent t -> snd_inv sent (seg_ack c ak dl t).
Proof.
  intros Hak Hi. unfold seg_ack. destruct (_ && _) eqn:E.
  - zbool. destruct (si_pos _ _ Hi) as (a & n & Hp). destruct (snd_at_flight _ _ _ _ Hp) as (_ & Hfl & _).
    assert (Hp' := Hp). destruct Hp' as (P1 & P2 & _). rewrite P1 in H. rewrite P2 in H0.
    destruct (ack_position _ _ _ _ Hak Hfl H H0) as (k & K1 & K2 & K3). cbv zeta. rewrite <- P1 in K3. rewrite K3.
    pose proof (acked_inv sent t a n k ak Hi Hp K1 K2) as Hi1. cbv zeta in Hi1.
    set (d := if (fin_sent t =? 2) && _ then _ else k) in *. clearbody d.
    set (t1 := t <| snd_una := ak |> <| snd_head := u32 (snd_head t + d) mod TCP_SNDBUF |>) in *.
    set (t2 := t1 <| snd_len := _ |> <| retries := 0 |> <| dupacks := 0 |> <| persist_shift := 0 |>).
    assert (Hi2 : snd_inv sent t2) by (eapply same_snd_inv; [|exact Hi1]; split; reflexivity).
    clearbody t2. clear Hi1 t1.
    set (t3 := if rtt_pending t2 && _ then _ else t2).
    assert (Hi3 : snd_inv sent t3).
    { subst t3. destruct (_ && _); [|done]. eapply same_snd_inv; [apply take_sample_same|exact Hi2]. }
    clearbody t3. assert (Hi4 : snd_inv sent (cc_on_ack k t3)) by (eapply same_snd_inv; [apply cc_on_ack_same|done]).
    set (t4 := cc_on_ack k t3) in *. clearbody t4.
    destruct (snd_una t4 =? snd_nxt t4); (eapply same_snd_inv; [|exact Hi4]; split; reflexivity).
  - destruct ((ak =? snd_una t) && (dl =? 0) && _); [|done]. pose proof (cc_on_dupack_same t) as Hs. destruct (cc_on_dupack t) as [t1 b].
    pose proof (same_snd_inv _ _ _ Hs Hi). destruct b; [by apply retransmit_inv|done].
Qed.

(** *** The rest of a segment *)

Lemma send_here_inv sent fl t : snd_inv sent t -> byte fl -> ctrue (Z.land fl TCP_FIN) = false ->
  snd_inv sent (send_flags fl (snd_nxt t) t).
Proof.
  intros Hi Hfl Hf. destruct (si_pos _ _ Hi) as (a & n & Hp).
  destruct Hp as (P1 & P2 & P3 & P4 & P5 & P6 & P7 & P8 & P9). rewrite P2.
  apply send_flags_inv; [done| |done|congruence]. destruct (_ =? 2); lia.
Qed.

Lemma send_ack_inv sent t : snd_inv sent t -> snd_inv sent (send_flags TCP_ACK (snd_nxt t) t).
Proof. intros Hi. by apply send_here_inv; [|split; vm_compute|]. Qed.

Lemma delack_inv sent t : snd_inv sent t ->
  snd_inv sent (send_flags TCP_ACK (snd_nxt t) (t <| delack_deadline := 0 |>)).
Proof.
  intros Hi. change (snd_nxt t) with (snd_nxt (t <| delack_deadline := 0 |>)). apply send_ack_inv.
  eapply same_snd_inv; [|exact Hi]. split; reflexivity.
Qed.

Lemma deliver_snd d t : snd_fields (deliver d t) = snd_fields t /\ 0 <= rcv_nxt (deliver d t) < W32.
Proof. split; [reflexivity|apply u32_range]. Qed.

Lemma drain_slot_snd sent t b i : snd_inv sent t -> snd_inv sent (fst (drain_slot (t, b) i)).
Proof.
  intros Hi. unfold drain_slot. destruct (reasm t !! i) as [r|]; [|done]. destruct (negb _); [done|].
  destruct (seq_le (r_seq r) _ && _); [|destruct (seq_le _ _); [|done]].
  - cbv zeta. cbn [fst]. destruct (deliver_snd (drop (Z.to_nat (u32 (rcv_nxt t - r_seq r))) (r_data r)) t) as [H1 H2].
    eapply snd_inv_frame; [|exact H2|eapply snd_inv_frame; [exact H1|exact H2|exact Hi]]. reflexivity.
  - eapply snd_inv_frame; [|exact (si_rcv _ _ Hi)|exact Hi]. reflexivity.
Qed.

(** A property of the connection that every slot of a round keeps. *)
Lemma drain_ind (P : tcb -> Prop) :
  (forall t b i, P t -> P (fst (drain_slot (t, b) i))) -> forall t, P t -> P (drain_reasm t).
Proof.
  intros Hs. assert (Hround : forall l tm, P (fst tm) -> P (fst (foldl drain_slot tm l))).
  { induction l as [|i l IH]; intros tm Hp; cbn [foldl]; [done|]. apply IH. destruct tm as [t b]. by apply Hs. }
  unfold drain_reasm. generalize 9%nat. intros fuel.
  induction fuel as [|fuel IH]; intros t Hp; cbn [drain_loop]; [done|].
  pose proof (Hround (seq 0 8) (t, false) Hp) as H. destruct (foldl drain_slot (t, false) _) as [t' b]. cbn [fst] in H.
  destruct b; [by apply IH|done].
Qed.

Lemma queue_reasm_same sq d t : same_snd (queue_reasm sq d t) t.
Proof.
  unfold queue_reasm. destruct (existsb _ _); [by split|].
  destruct (list_find _ _) as [[i r]|]; split; reflexivity.
Qed.

Lemma drain_snd sent d t : snd_inv sent t -> snd_inv sent (drain_reasm (deliver d t)).
Proof.
  intros Hi. apply drain_ind; [apply drain_slot_snd|]. destruct (deliver_snd d t). by eapply snd_inv_frame.
Qed.

Lemma seg_data_snd sent c sq d t : snd_inv sent t -> snd_inv sent (seg_data c sq d t).
Proof.
  intros Hi. unfold seg_data. destruct d as [|x d]; [done|]. destruct (sq =? rcv_nxt t).
  - cbv zeta. pose proof (drain_snd sent (x :: d) t Hi) as Hi1. revert Hi1. generalize (drain_reasm (deliver (x :: d) t)).
    intros t1 Hi1. destruct (delack_deadline t1 =? 0).
    + eapply same_snd_inv; [|exact Hi1]. split; reflexivity.
    + eapply same_snd_inv; [|apply (delack_inv sent t1 Hi1)]. split; reflexivity.
  - destruct (seq_gt sq _); [|by apply send_ack_inv]. cbv zeta. apply send_ack_inv.
    eapply same_snd_inv; [apply queue_reasm_same|exact Hi].
Qed.

Lemma seg_fin_snd sent c sq dl fl t : snd_inv sent t -> snd_inv sent (seg_fin c sq dl fl t).
Proof.
  intros Hi. unfold seg_fin. destruct (_ && _); [|done]. cbv zeta.
  set (t1 := t <| fin_rcvd := true |> <| rcv_nxt := _ |>).
  assert (Hi1 : snd_inv sent (send_flags TCP_ACK (snd_nxt t1) t1)).
  { apply send_ack_inv. eapply snd_inv_frame; [|apply u32_range|exact Hi]. reflexivity. }
  set (t2 := send_flags _ _ t1) in *. clearbody t2. eapply same_snd_inv; [|exact Hi1].
  eapply same_snd_trans; [split; reflexivity|].
  destruct (state t2); (apply set_state_same || apply enter_time_wait_same || (split; reflexivity)).
Qed.

Lemma seg_closing_snd sent c t : snd_inv sent t -> snd_inv sent (snd (seg_closing c t)).
Proof.
  intros Hi. unfold seg_closing. ifs; cbn [snd]; try done;
    (eapply same_snd_inv; [|exact Hi]); apply enter_time_wait_same || apply set_state_same || apply enter_closed_same.
Qed.

Lemma tick_rto_snd sent c t : snd_inv sent t -> state t <> TCP_SYN_SENT -> state t <> TCP_SYN_RECEIVED ->
  snd_inv sent (tick_rto c t).
Proof.
  intros Hi H1 H2. unfold tick_rto. cbv zeta.
  set (t1 := cc_on_timeout t <| rto_ticks := _ |> <| rto_deadline := _ |>).
  assert (Hi1 : snd_inv sent t1) by (eapply same_snd_inv; [|exact Hi]; split; reflexivity).
  assert (E : state t1 = state t) by reflexivity. clearbody t1. rewrite E.
  destruct (state t); by (apply retransmit_inv || done).
Qed.

Lemma tick_persist_snd sent c t : snd_inv sent t -> snd_inv sent (tick_persist c t).
Proof.
  intros Hi. unfold tick_persist. cbv zeta.
  set (t0 := t <| persist_shift := _ |>). set (t1 := t0 <| persist_deadline := _ |>).
  assert (Hi1 : snd_inv sent t1) by (eapply same_snd_inv; [|exact Hi]; split; reflexivity).
  clearbody t1. clear t0. assert (Hi' := Hi1). destruct Hi' as [Hm Hh Hr Hb (a & n & Hp) Ht].
  destruct (snd_at_flight _ _ _ _ Hp) as (Hfl & Hfl2 & Hsl). rewrite Hfl.
  assert (Hp' := Hp). destruct Hp' as (P1 & P2 & P3 & P4 & P5 & P6 & P7 & P8 & P9).
  assert (n <= len sent + 1) by (destruct (_ =? 2); lia).
  destruct (Z.ltb_spec (n - a) (snd_len t1)).
  - rewrite P2. apply tx_queue_inv; [exact Hi1|lia|exact Hr|by split; vm_compute|cbn [length]; lia| |done].
    intros _. split; [lia|]. pose proof (snd_at_bytes sent t1 a n (n - a) 1 Hp) as Hg. rewrite u32_small by lia.
    change (ring_get (sndbuf t1) (snd_head t1 + (n - a)) 1)
      with [sndbuf t1 ((snd_head t1 + (n - a) + 0) mod TCP_SNDBUF)] in Hg.
    rewrite Z.add_0_r in Hg. cbn [length]. rewrite Hg by lia. do 2 f_equal; lia.
  - rewrite P2. rewrite <- Z.add_opp_r, u32_plus. apply send_flags_inv; [done|lia|by split; vm_compute|done].
Qed.

(** ** Connections past the handshake *)

Definition synced (s : tcp_state) : Prop :=
  match s with TCP_LISTEN | TCP_SYN_SENT | TCP_SYN_RECEIVED => False | _ => True end.

(** The part of [tcp_segment] that a connection past the handshake runs after
    the acceptability test. *)
Definition seg_body (c : clk) (seg : list Z) (t : tcb) : tcb :=
  let sq := seg_seq seg in let ak := seg_ackno seg in let d := seg_payload seg in
  let t := seg_window c sq ak (ntohs_k (window_n (header_of seg))) (seg_ack c ak (len d) t) in
  let t := seg_fin c sq (len d) (seg_flags seg) (seg_data c sq d t) in
  match seg_closing c t with (false, t) => t | (true, t) => tcp_output c t end.

Lemma tcp_segment_synced c i p seg t : synced (state t) ->
  tcp_segment c i p seg t =
  (if ctrue (Z.land (seg_flags seg) TCP_RST) then enter_closed c ECONNRESET (t <| reset := true |>)
   else if negb (acceptable (seg_seq seg) (len (seg_payload seg)) t) then send_flags TCP_ACK (snd_nxt t) t
   else if negb (ctrue (Z.land (seg_flags seg) TCP_ACK)) then t
   else seg_body c seg t, p).
Proof.
  intros Hs. unfold tcp_segment, seg_body. fold (hdr_len seg). fold (seg_seq seg) (seg_ackno seg) (seg_flags seg) (seg_payload seg).
  cbv zeta. destruct (ctrue _).
  { change (state (t <| reset := true |>)) with (state t).
    assert (match state t with TCP_SYN_SENT | TCP_SYN_RECEIVED => ECONNREFUSED | _ => ECONNRESET end = ECONNRESET) as ->
      by (destruct (state t); done). reflexivity. }
  assert (state t =s TCP_SYN_SENT = false) as -> by (destruct (state t); done).
  assert (state t =s TCP_LISTEN = false) as -> by (destruct (state t); done). cbn [negb andb].
  destruct (negb (acceptable _ _ _)); [done|]. destruct (negb (ctrue _)); [done|].
  unfold seg_syn_received. assert (state t =s TCP_SYN_RECEIVED = false) as -> by (destruct (state t); done). cbn [negb].
  set (x := seg_closing _ _). by destruct x as [[] t'].
Qed.

Lemma ackno_range seg : 0 <= seg_ackno seg < W32.
Proof. apply htonl_range. Qed.

Lemma seg_body_snd sent c seg t : snd_inv sent t -> snd_inv sent (seg_body c seg t).
Proof.
  intros Hi. unfold seg_body. cbv zeta.
  assert (H1 : snd_inv sent (seg_fin c (seg_seq seg) (len (seg_payload seg)) (seg_flags seg)
    (seg_data c (seg_seq seg) (seg_payload seg) (seg_window c (seg_seq seg) (seg_ackno seg)
       (ntohs_k (window_n (header_of seg))) (seg_ack c (seg_ackno seg) (len (seg_payload seg)) t))))).
  { apply seg_fin_snd, seg_data_snd. eapply same_snd_inv; [apply seg_window_same|].
    apply seg_ack_inv; [apply ackno_range|done]. }
  set (t1 := seg_fin _ _ _ _ _) in *. clearbody t1. pose proof (seg_closing_snd sent c t1 H1) as H2.
  destruct (seg_closing c t1) as [[] t2]; cbn [snd] in H2; [by apply tcp_output_inv|done].
Qed.

Lemma tcp_segment_snd sent c i p seg t : synced (state t) -> snd_inv sent t ->
  snd_inv sent (fst (tcp_segment c i p seg t)).
Proof.
  intros Hs Hi. rewrite tcp_segment_synced by done. cbn [fst]. destruct (ctrue _).
  { eapply same_snd_inv; [apply enter_closed_same|]. eapply same_snd_inv; [|exact Hi]. split; reflexivity. }
  destruct (negb (acceptable _ _ _)); [by apply send_ack_inv|]. destruct (negb _); [done|]. by apply seg_body_snd.
Qed.

Lemma tick_conn_snd sent c t t' : synced (state t) -> snd_inv sent t -> tick_conn c t = Keep t' -> snd_inv sent t'.
Proof.
  intros Hs Hi. unfold tick_conn. cbv zeta.
  destruct (due (timewait_deadline t) _).
  { intros [= <-]. eapply same_snd_inv; [apply enter_closed_same|]. eapply same_snd_inv; [|exact Hi]. split; reflexivity. }
  destruct (_ && negb _); [done|]. destruct (due (establish_deadline t) _).
  { intros [= <-]. eapply same_snd_inv; [apply enter_closed_same|]. eapply same_snd_inv; [|exact Hi]. split; reflexivity. }
  set (t0 := t <| retries := _ |>).
  assert (Hi0 : snd_inv sent t0) by (eapply same_snd_inv; [|exact Hi]; split; reflexivity).
  assert (Hs0 : state t0 = state t) by reflexivity. clearbody t0.
  assert (Hr : forall b t1, (if due (rto_deadline t) (ticks c)
     then if TCP_MAX_RETRIES <? retries t0 then (true, enter_closed c ETIMEDOUT t0) else (false, tick_rto c t0)
     else (false, t)) = (b, t1) -> snd_inv sent t1).
  { intros b t1. destruct (due _ _); [destruct (_ <? _)|]; intros [= <- <-].
    - eapply same_snd_inv; [apply enter_closed_same|exact Hi0].
    - apply tick_rto_snd; [done|rewrite Hs0..]; by destruct (state t).
    - done. }
  set (x := if due _ _ then _ else _) in *. destruct x as [b t1]. specialize (Hr b t1 eq_refl).
  destruct b; intros [= <-]; [done|].
  set (t2 := if due (delack_deadline t1) _ then _ else t1). assert (Hi2 : snd_inv sent t2).
  { subst t2. destruct (due _ _); [by apply delack_inv|done]. }
  clearbody t2. destruct (due (persist_deadline t2) _); [by apply tick_persist_snd|done].
Qed.

(** *** The application's sends *)

Lemma carries_app sent ext isn fin seg : carries sent isn fin seg -> (ext = [] \/ fin = false) ->
  carries (sent ++ ext) isn fin seg.
Proof.
  intros (p & C1 & C2 & C3 & C4) He. exists p. rewrite length_app. split; [done|]. split; [lia|]. split.
  - intros Hn. destruct (C3 Hn) as [Hp Heq]. split; [done|].
    assert (length (seg_payload seg) <= length sent - Z.to_nat p)%nat.
    { rewrite Heq at 1. rewrite length_take, length_drop. lia. }
    destruct (decide (Z.to_nat p <= length sent)%nat).
    + rewrite drop_app_le, take_app_le by (rewrite ?length_drop; lia). done.
    + destruct (seg_payload seg); [done|]. cbn [length] in *. lia.
  - intros Hf. destruct (C4 Hf) as (? & ? & ?). destruct He as [-> |]; [|congruence]. split_and!; [done|cbn; lia|done].
Qed.

Lemma tcp_send_snd sent c d t rc k t' : synced (state t) -> snd_inv sent t -> Forall byte d ->
  tcp_send c d t = (rc, k, t') -> snd_inv (sent ++ take (Z.to_nat k) d) t'.
Proof.
  intros Hs Hi Hd. unfold tcp_send. destruct (reset t).
  { intros [= <- <- <-]. by rewrite app_nil_r. }
  destruct (shut_wr t) eqn:Esh.
  { intros [= <- <- <-]. by rewrite app_nil_r. }
  destruct (negb _ && negb _).
  { intros [= <- <- <-]. by rewrite app_nil_r. }
  destruct Hi as [Hm Hh Hr Hb (a & n & Hp) Ht]. destruct (snd_at_flight _ _ _ _ Hp) as (_ & _ & Hsl).
  cbv zeta. rewrite (u32_small (TCP_SNDBUF - snd_len t)) by lia.
  set (k0 := if len d <? _ then len d else _).
  assert (Hk : 0 <= k0 <= len d /\ k0 <= TCP_SNDBUF - snd_len t) by (subst k0; zcases; lia). clearbody k0.
  set (t2 := t <| sndbuf := _ |> <| snd_len := _ |>). intros [= <- <- <-]. apply tcp_output_inv.
  rename k0 into k.
  destruct Hp as (P1 & P2 & P3 & P4 & P5 & P6 & P7 & P8 & P9).
  assert (Hf : fin_sent t = 0) by (destruct (decide (fin_sent t = 0)); [done|]; specialize (P6 n0); congruence).
  assert (Hlk : length (take (Z.to_nat k) d) = Z.to_nat k) by (rewrite length_take; lia).
  constructor; try done.
  - by apply Forall_app_2; [|apply Forall_take].
  - exists a, n. unfold snd_at. subst t2. fields. rewrite Hf in *. change (0 =? 2) with false in *.
    rewrite length_app, Hlk. rewrite (u32_small (snd_len t + k)) by lia.
    split_and!; try done; try lia. replace (snd_len t + k) with (snd_len t + len (take (Z.to_nat k) d)) by lia.
    rewrite ring_put_app by lia. rewrite P9, drop_app_le by lia. done.
  - subst t2. eapply Forall_impl; [|exact Ht]. intros s [C1 C2]. split; [|exact C2].
    apply carries_app; [exact C1|]. right. change (fin_sent t =? 2 = false). by rewrite Hf.
Qed.

Lemma tcp_shutdown_snd sent c t : snd_inv sent t -> snd_inv sent (tcp_shutdown_write c t).
Proof.
  intros Hi. unfold tcp_shutdown_write. destruct (shut_wr t || _) eqn:E; [done|]. zbool. cbv zeta. apply tcp_output_inv.
  set (t1 := t <| shut_wr := true |> <| fin_sent := 1 |>).
  assert (Hi1 : snd_inv sent t1).
  { destruct Hi as [Hm Hh Hr Hb (a & n & (P1 & P2 & P3 & P4 & P5 & P6 & P7 & P8 & P9)) Ht].
    rewrite H0 in P4. constructor; try done.
    - exists a, n. unfold snd_at. subst t1. fields. change (1 =? 2) with false. split_and!; try done; lia.
    - subst t1. eapply Forall_impl; [|exact Ht]. intros s [C1 C2]. split; [|exact C2].
      unfold carries in *. fields. rewrite H0 in C1. exact C1. }
  clearbody t1. eapply same_snd_inv; [|exact Hi1]. destruct (state t1); (apply set_state_same || (split; reflexivity)).
Qed.
