(* ===== verification/TcpRecv.v ===== *)
(** * The TCP receive side (theorems on kernel/net/tcp.c)

    [peer] is the stream the other end has accepted from its application and
    [read] what this end's application has taken.  In-order data goes to the
    receive ring, out-of-order segments wait in the reassembly slots: the bytes
    read followed by the bytes of the ring are a prefix of [peer], and the FIN
    is taken exactly at its end.  Also here: the reassembly loop ends. *)

From stdpp Require Import base numbers list functions.
From S2P Require Import Prelude Net Tcp TcpStream.

(** Positions stay comparable as 32-bit sequence numbers. *)
Abbreviation STREAM_MAX := 2147418112.

(** ** Invariant *)

Definition rcv_at (peer read : list Z) (t : tcb) (r : Z) : Prop :=
  rcv_nxt t = u32 (irs t + 1 + (r + b2z (fin_rcvd t))) /\ 0 <= r <= len peer /\
  (fin_rcvd t = true -> r = len peer) /\ 0 <= rcv_len t <= TCP_RCVBUF /\ 0 <= rcv_head t < TCP_RCVBUF /\
  read ++ ring_get (rcvbuf t) (rcv_head t) (rcv_len t) = take (Z.to_nat r) peer.

(** A reassembly slot in use holds the stream at its sequence number. *)
Definition held (peer : list Z) (isn : Z) (x : tcp_reasm) : Prop :=
  r_used x = true -> exists p, r_seq x = u32 (isn + 1 + p) /\ 0 <= p <= len peer /\
    r_len x = len (r_data x) /\ r_data x = take (length (r_data x)) (drop (Z.to_nat p) peer).

Definition rcv_inv (peer read : list Z) (t : tcb) : Prop :=
  (exists r, rcv_at peer read t r) /\ Forall (held peer (irs t)) (reasm t).

Definition rcv_fields (t : tcb) := (irs t, rcv_nxt t, rcvbuf t, rcv_head t, rcv_len t, reasm t, fin_rcvd t).

Lemma rcv_inv_frame peer read t t' : rcv_fields t' = rcv_fields t -> rcv_inv peer read t -> rcv_inv peer read t'.
Proof.
  unfold rcv_fields. intros [= E1 E2 E3 E4 E5 E6 E7] [[r Hr] Hh]. unfold rcv_inv, rcv_at in *.
  rewrite E1, E6. split; [|done]. exists r. by rewrite E2, E3, E4, E5, E7.
Qed.

Lemma rcv_fields_const t t' : rcv_fields t' = rcv_fields t -> irs t' = irs t /\ fin_rcvd t' = fin_rcvd t.
Proof. by intros [= -> _ _ _ _ _ ->]. Qed.

(** The peer's stream only grows. *)
Lemma rcv_inv_app peer ext read t : (fin_rcvd t = true -> ext = []) -> rcv_inv peer read t -> rcv_inv (peer ++ ext) read t.
Proof.
  intros Hf [[r (R1 & R2 & R3 & R4 & R5 & R6)] Hh]. split.
  - exists r. unfold rcv_at. rewrite length_app. split_and!; try done; try lia.
    + intros H. rewrite (Hf H). cbn [length]. rewrite (R3 H). lia.
    + rewrite take_app_le by lia. done.
  - eapply Forall_impl; [|exact Hh]. intros x Hx Hu. destruct (Hx Hu) as (p & H1 & H2 & H3 & H4).
    exists p. rewrite length_app. split_and!; try done; try lia.
    assert (length (r_data x) <= length peer - Z.to_nat p)%nat by (rewrite H4 at 1; rewrite length_take, length_drop; lia).
    rewrite drop_app_le, take_app_le by (rewrite ?length_drop; lia). done.
Qed.

(** ** What leaves the receive side alone *)

Ltac same_fields := repeat match goal with |- context [if ?b then _ else _] => destruct b end; reflexivity.

Lemma tx_queue_rcv sq ak fl w m d t : rcv_fields (tx_queue sq ak fl w m d t) = rcv_fields t.
Proof. unfold tx_queue. cbv zeta. same_fields. Qed.

Lemma send_flags_rcv fl sq t : rcv_fields (send_flags fl sq t) = rcv_fields t.
Proof. unfold send_flags. apply tx_queue_rcv. Qed.

Lemma set_state_rcv c s t : rcv_fields (set_state c s t) = rcv_fields t.
Proof. unfold set_state, tcp_timer_kick, timer_request. cbv zeta. same_fields. Qed.

Lemma enter_closed_rcv c e t : rcv_fields (enter_closed c e t) = rcv_fields t.
Proof. exact (set_state_rcv c TCP_CLOSED t). Qed.

Lemma enter_time_wait_rcv c t : rcv_fields (enter_time_wait c t) = rcv_fields t.
Proof. exact (set_state_rcv c TCP_TIME_WAIT t). Qed.

Lemma arm_rto_rcv c t : rcv_fields (arm_rto c t) = rcv_fields t.
Proof. unfold arm_rto. same_fields. Qed.

Lemma output_step_rcv c w t t' : output_step c w t = Some t' -> rcv_fields t' = rcv_fields t.
Proof.
  unfold output_step. destruct (7 <=? _)%nat; [done|]. cbv zeta. destruct (w <=? _); [done|].
  destruct (snd_len t <=? _); [done|]. destruct (negb (nodelay t) && _ && _); [done|].
  intros [= <-]. etransitivity; [exact (arm_rto_rcv c _)|]. set (t1 := tx_queue _ _ _ _ _ _ t).
  transitivity (rcv_fields t1); [|apply tx_queue_rcv]. clearbody t1. destruct (rtt_pending t1); reflexivity.
Qed.

Lemma tcp_output_rcv c t : rcv_fields (tcp_output c t) = rcv_fields t.
Proof.
  unfold tcp_output. destruct (negb _); [done|]. set (w := if _ <? _ then _ else _). clearbody w.
  transitivity (rcv_fields (output_loop 8 c w t)).
  - generalize (output_loop 8 c w t). intros t1. unfold output_fin. destruct (_ && _); [|done].
    etransitivity; [exact (arm_rto_rcv c _)|]. exact (send_flags_rcv (Z.lor TCP_FIN TCP_ACK) (snd_nxt t1) t1).
  - generalize 8%nat. intros fuel. revert t. induction fuel as [|fuel IH]; intros t; cbn [output_loop]; [done|].
    destruct (output_step c w t) as [t'|] eqn:E; [|done]. rewrite IH. by eapply output_step_rcv.
Qed.

Lemma retransmit_rcv t : rcv_fields (retransmit t) = rcv_fields t.
Proof.
  unfold retransmit. cbv zeta. set (k := if _ && _ then _ else _). clearbody k. destruct (k =? 0).
  - destruct (fin_sent t =? 2); [apply send_flags_rcv|done].
  - etransitivity; [apply tx_queue_rcv|]. reflexivity.
Qed.

Lemma seg_window_rcv c sq ak w t : rcv_fields (seg_window c sq ak w t) = rcv_fields t.
Proof. unfold seg_window. cbv zeta. same_fields. Qed.

Lemma cc_on_ack_rcv k t : rcv_fields (cc_on_ack k t) = rcv_fields t.
Proof. unfold cc_on_ack. cbv zeta. same_fields. Qed.

Lemma rtt_sample_rcv m t : rcv_fields (rtt_sample m t) = rcv_fields t.
Proof. unfold rtt_sample. cbv zeta. destruct (srtt_8 t =? 0); reflexivity. Qed.

Lemma take_sample_rcv c t : rcv_fields (take_sample c t) = rcv_fields t.
Proof.
  unfold take_sample. rewrite <- (rtt_sample_rcv (u64 (ticks c - rtt_at t)) t).
  generalize (rtt_sample (u64 (ticks c - rtt_at t)) t). reflexivity.
Qed.

Lemma seg_ack_rcv c ak dl t : rcv_fields (seg_ack c ak dl t) = rcv_fields t.
Proof.
  unfold seg_ack. destruct (_ && seq_le _ _); [|destruct ((ak =? _) && _ && _); [|done]].
  - cbv zeta. set (d := if (fin_sent t =? 2) && _ then _ else _). clearbody d.
    set (t2 := t <| snd_una := ak |> <| snd_head := _ |> <| snd_len := _ |> <| retries := 0 |> <| dupacks := 0 |> <| persist_shift := 0 |>).
    transitivity (rcv_fields t2); [|reflexivity]. clearbody t2.
    set (t3 := if rtt_pending t2 && _ then _ else t2). transitivity (rcv_fields t3).
    2:{ subst t3. destruct (_ && _); [apply take_sample_rcv|done]. }
    clearbody t3. set (t4 := cc_on_ack _ t3). transitivity (rcv_fields t4); [|apply cc_on_ack_rcv]. clearbody t4.
    destruct (snd_una t4 =? snd_nxt t4); reflexivity.
  - unfold cc_on_dupack. cbv zeta. set (t1 := t <| dupacks := _ |>). transitivity (rcv_fields t1); [|reflexivity].
    clearbody t1. destruct (in_recovery t1); [reflexivity|]. destruct (dupacks t1 =? 3); [|done].
    etransitivity; [apply retransmit_rcv|]. reflexivity.
Qed.

Lemma seg_closing_rcv c t : rcv_fields (snd (seg_closing c t)) = rcv_fields t.
Proof.
  unfold seg_closing.
  destruct (_ && _ && _); cbn [snd].
  { destruct (fin_rcvd t); [apply enter_time_wait_rcv|apply set_state_rcv]. }
  destruct (_ && _); cbn [snd]; [apply enter_time_wait_rcv|].
  destruct (_ && _); cbn [snd]; [apply enter_closed_rcv|done].
Qed.

(** ** In-order and out-of-order data *)

Lemma stream_slice_length (l : list Z) (p : Z) (d : list Z) : 0 <= p ->
  d = take (length d) (drop (Z.to_nat p) l) -> d = [] \/ p + len d <= len l.
Proof.
  intros Hp Hd. destruct d as [|x d]; [by left|right]. apply (f_equal length) in Hd.
  rewrite length_take, length_drop in Hd. cbn [length] in *. lia.
Qed.

Lemma stream_slice_take (l d : list Z) (p : Z) (k : nat) : d = take (length d) (drop (Z.to_nat p) l) ->
  take k d = take (length (take k d)) (drop (Z.to_nat p) l).
Proof. intros Hd. rewrite Hd at 1. rewrite take_take, length_take. done. Qed.

Lemma stream_slice_drop (l d : list Z) (p k : Z) : 0 <= p -> 0 <= k -> d = take (length d) (drop (Z.to_nat p) l) ->
  drop (Z.to_nat k) d = take (length (drop (Z.to_nat k) d)) (drop (Z.to_nat (p + k)) l).
Proof.
  intros Hp Hk Hd. rewrite Hd at 1. rewrite skipn_firstn_comm, drop_drop, length_drop. do 2 f_equal. lia.
Qed.

Lemma take_extend (l : list Z) (r : Z) (d : list Z) : 0 <= r ->
  d = take (length d) (drop (Z.to_nat r) l) -> take (Z.to_nat r) l ++ d = take (Z.to_nat (r + len d)) l.
Proof.
  intros Hr Hd. rewrite Z2Nat.inj_add, Nat2Z.id by lia. rewrite Hd at 1. by rewrite take_take_drop.
Qed.

Lemma deliver_rcv peer read t r d :
  rcv_at peer read t r -> fin_rcvd t = false -> d = take (length d) (drop (Z.to_nat r) peer) ->
  exists k, 0 <= k <= len d /\ rcv_at peer read (deliver d t) (r + k) /\ fin_rcvd (deliver d t) = false.
Proof.
  intros (R1 & R2 & R3 & R4 & R5 & R6) Hf Hd. unfold deliver. cbv zeta.
  rewrite (u32_small (TCP_RCVBUF - rcv_len t)) by lia.
  set (k := if _ <? len d then _ else len d).
  assert (Hk : 0 <= k <= len d /\ k <= TCP_RCVBUF - rcv_len t) by (subst k; zcases; lia). clearbody k.
  assert (Hl : length (take (Z.to_nat k) d) = Z.to_nat k) by (rewrite length_take; lia).
  exists k. split; [lia|]. split; [|exact Hf]. unfold rcv_at. fields. rewrite Hf in *. cbn [b2z] in *.
  rewrite (u32_small (rcv_len t + k)) by lia. rewrite R1, u32_plus.
  assert (Hdk : take (Z.to_nat k) d = take (length (take (Z.to_nat k) d)) (drop (Z.to_nat r) peer))
    by by apply stream_slice_take.
  split_and!; try lia; try done.
  - f_equal. lia.
  - destruct (stream_slice_length peer r _ ltac:(lia) Hd) as [->|]; cbn [length] in *; lia.
  - replace (rcv_len t + k) with (rcv_len t + len (take (Z.to_nat k) d)) by lia.
    rewrite ring_put_app by lia. rewrite app_assoc, R6, take_extend by (done || lia). do 2 f_equal. lia.
Qed.

Lemma held_free peer isn x : held peer isn (free_reasm x).
Proof. done. Qed.

Lemma drain_slot_rcv peer read t b i : len peer <= STREAM_MAX ->
  rcv_inv peer read t -> rcv_inv peer read (fst (drain_slot (t, b) i)).
Proof.
  intros Hmax Hi. unfold drain_slot. destruct (reasm t !! i) as [x|] eqn:Ex; [|done].
  destruct (negb (r_used x)) eqn:Eu; [done|]. zbool.
  assert (Hi' := Hi). destruct Hi' as [[r Hr] Hh].
  assert (Hx := Forall_lookup_1 _ _ _ _ Hh Ex Eu). destruct Hx as (p & X1 & X2 & X3 & X4).
  assert (Hins : forall t1, irs t1 = irs t -> reasm t1 = reasm t -> Forall (held peer (irs t1)) (<[i := free_reasm x]> (reasm t1))).
  { intros t1 -> ->. by apply Forall_insert. }
  destruct (seq_le (r_seq x) (rcv_nxt t) && seq_gt (u32 (r_seq x + r_len x)) (rcv_nxt t)) eqn:E;
    [|destruct (seq_le (u32 (r_seq x + r_len x)) (rcv_nxt t)); [|exact Hi]].
  - zbool. assert (Hr' := Hr). destruct Hr' as (R1 & R2 & R3 & R4 & R5 & R6). cbv zeta. cbn [fst].
    assert (Hpl := stream_slice_length _ _ _ (proj1 X2) X4).
    assert (0 <= len (r_data x) <= len peer) by (destruct Hpl as [->|]; cbn [length]; lia).
    assert (Hfb : 0 <= b2z (fin_rcvd t) <= 1) by (destruct (fin_rcvd t); cbn; lia).
    rewrite X1, R1, seq_le_abs in H by lia. rewrite X1, R1, X3, u32_plus, seq_gt_abs in H0 by lia. zbool.
    assert (Hf : fin_rcvd t = false).
    { destruct (fin_rcvd t) eqn:Ef; [|done]. specialize (R3 eq_refl). cbn [b2z] in *. destruct Hpl as [Hn|]; [|lia].
      rewrite Hn in *. cbn [length] in *. lia. }
    rewrite Hf in *. cbn [b2z] in *. rewrite X1, R1, u32_minus_small, Z.add_0_r by lia.
    assert (Hd : drop (Z.to_nat (r - p)) (r_data x)
                 = take (length (drop (Z.to_nat (r - p)) (r_data x))) (drop (Z.to_nat r) peer)).
    { replace r with (p + (r - p)) at 3 by lia. apply stream_slice_drop; lia || done. }
    destruct (deliver_rcv peer read t r _ Hr Hf Hd) as (k & _ & Hr1 & _).
    split; [exists (r + k); exact Hr1|]. exact (Hins (deliver _ t) eq_refl eq_refl).
  - split; [exists r; exact Hr|]. exact (Hins t eq_refl eq_refl).
Qed.

Lemma drain_rcv peer read t : len peer <= STREAM_MAX -> rcv_inv peer read t -> rcv_inv peer read (drain_reasm t).
Proof. intros Hmax. apply drain_ind. intros t' b i. by apply drain_slot_rcv. Qed.

Lemma queue_rcv peer read sq p d t : rcv_inv peer read t -> 0 <= p <= len peer -> sq = u32 (irs t + 1 + p) ->
  d = take (length d) (drop (Z.to_nat p) peer) -> rcv_inv peer read (queue_reasm sq d t).
Proof.
  intros [Hr Hh] Hp Hsq Hd. unfold queue_reasm. destruct (existsb _ _); [by split|].
  destruct (list_find _ _) as [[i x]|]; [|by split]. split; [exact Hr|].
  change (Forall (held peer (irs t)) (<[i := Reasm sq (len (take (Z.to_nat TCP_REASM_MAX) d)) true
    (take (Z.to_nat TCP_REASM_MAX) d)]> (reasm t))).
  apply Forall_insert; [exact Hh|]. intros _. exists p. split; [exact Hsq|]. split; [done|]. split; [done|].
  by apply stream_slice_take.
Qed.

Lemma seg_data_rcv peer read fin c seg t : len peer <= STREAM_MAX ->
  rcv_inv peer read t -> carries peer (irs t) fin seg -> rcv_inv peer read (seg_data c (seg_seq seg) (seg_payload seg) t).
Proof.
  intros Hmax Hi (p & C1 & C2 & C3 & _). unfold seg_data. destruct (seg_payload seg) as [|x d] eqn:Ed; [done|].
  destruct C3 as [C3 C4]; [done|]. set (dd := x :: d) in *.
  assert (Hpl : p + len dd <= len peer).
  { destruct (stream_slice_length peer p dd C3 C4) as [|]; [subst dd; done|done]. }
  assert (0 < len dd) by (subst dd; cbn [length]; lia).
  assert (Hi' := Hi). destruct Hi' as [[r Hr] Hh]. assert (Hr' := Hr). destruct Hr' as (R1 & R2 & R3 & R4 & R5 & R6).
  assert (Hfb : 0 <= b2z (fin_rcvd t) <= 1) by (destruct (fin_rcvd t); cbn; lia).
  destruct (Z.eqb_spec (seg_seq seg) (rcv_nxt t)) as [Eq|Hne].
  - rewrite C1, R1 in Eq. apply u32_abs_inj in Eq; [|lia].
    assert (Hf : fin_rcvd t = false).
    { destruct (fin_rcvd t) eqn:Ef; [|done]. specialize (R3 eq_refl). cbn [b2z] in *. lia. }
    rewrite Hf in *. cbn [b2z] in *. assert (p = r) as -> by lia.
    destruct (deliver_rcv peer read t r dd Hr Hf C4) as (k & _ & Hr1 & _).
    assert (Hd : rcv_inv peer read (deliver dd t)) by (split; [exists (r + k); exact Hr1|exact Hh]).
    cbv zeta. apply (drain_rcv peer read _ Hmax) in Hd. revert Hd. generalize (drain_reasm (deliver dd t)). intros t1 Hd.
    destruct (delack_deadline t1 =? 0); (eapply rcv_inv_frame; [|exact Hd]); [reflexivity|].
    exact (send_flags_rcv TCP_ACK (snd_nxt t1) (t1 <| delack_deadline := 0 |>)).
  - destruct (seq_gt _ _); cbv zeta; (eapply rcv_inv_frame; [apply send_flags_rcv|]); [|done].
    by apply (queue_rcv peer read _ p); [|lia| |].
Qed.

Lemma seg_fin_rcv peer read fin c seg t : len peer <= STREAM_MAX ->
  rcv_inv peer read t -> carries peer (irs t) fin seg ->
  rcv_inv peer read (seg_fin c (seg_seq seg) (len (seg_payload seg)) (seg_flags seg) t) /\
  (fin_rcvd t = false -> fin_rcvd (seg_fin c (seg_seq seg) (len (seg_payload seg)) (seg_flags seg) t) = true -> fin = true).
Proof.
  intros Hmax Hi (p & C1 & C2 & _ & C4). unfold seg_fin. destruct (_ && _ && _) eqn:E; [|by split; [|congruence]].
  zbool. destruct (C4 H) as (Hd & Hp & Hfin). rewrite Hd in H0. cbn [length] in H0. rewrite Z.add_0_r in H0.
  destruct Hi as [[r Hr] Hh]. assert (Hr' := Hr). destruct Hr' as (R1 & R2 & R3 & R4 & R5 & R6).
  assert (Hfb : 0 <= b2z (fin_rcvd t) <= 1) by (destruct (fin_rcvd t); cbn; lia).
  rewrite C1, R1, seq_le_abs in H1 by lia. rewrite (u32_small (seg_seq seg)) in H0 by apply htonl_range.
  rewrite C1, R1, seq_ge_abs in H0 by lia. zbool.
  assert (Hf : fin_rcvd t = false).
  { destruct (fin_rcvd t) eqn:Ef; [|done]. specialize (R3 eq_refl). cbn [b2z] in *. lia. }
  split; [|done]. rewrite Hf in *. cbn [b2z] in *. assert (r = len peer) as -> by lia. cbv zeta.
  set (t1 := t <| fin_rcvd := true |> <| rcv_nxt := _ |>).
  assert (Hi1 : rcv_inv peer read t1).
  { split; [|exact Hh]. exists (len peer). unfold rcv_at. subst t1. fields. cbn [b2z].
    rewrite R1, u32_plus. split_and!; try done; lia || (f_equal; lia). }
  clearbody t1. eapply rcv_inv_frame; [|exact Hi1].
  set (t2 := send_flags _ _ t1). transitivity (rcv_fields t2); [|apply send_flags_rcv]. clearbody t2.
  destruct (state t2); (exact (set_state_rcv c _ t2) || exact (enter_time_wait_rcv c t2) || reflexivity).
Qed.

(** Data never changes the receive base or the FIN mark. *)
Lemma drain_slot_const t b i : irs (fst (drain_slot (t, b) i)) = irs t /\ fin_rcvd (fst (drain_slot (t, b) i)) = fin_rcvd t.
Proof.
  unfold drain_slot. destruct (reasm t !! i) as [x|]; [|done]. destruct (negb _); [done|].
  destruct (_ && _); [|destruct (seq_le _ (rcv_nxt t))]; done.
Qed.

Lemma seg_data_const c sq d t : irs (seg_data c sq d t) = irs t /\ fin_rcvd (seg_data c sq d t) = fin_rcvd t.
Proof.
  unfold seg_data. destruct d as [|x d]; [done|].
  assert (Hsf : forall fl s u, irs (send_flags fl s u) = irs u /\ fin_rcvd (send_flags fl s u) = fin_rcvd u).
  { intros fl s u. apply rcv_fields_const, send_flags_rcv. }
  destruct (_ =? _).
  - cbv zeta. assert (H : irs (drain_reasm (deliver (x :: d) t)) = irs t /\ fin_rcvd (drain_reasm (deliver (x :: d) t)) = fin_rcvd t).
    { apply (drain_ind (fun u => irs u = irs t /\ fin_rcvd u = fin_rcvd t)); [|done].
      intros u b i [H1 H2]. destruct (drain_slot_const u b i). split; congruence. }
    revert H. generalize (drain_reasm (deliver (x :: d) t)). intros u [H1 H2]. destruct (_ =? 0); [done|].
    destruct (Hsf TCP_ACK (snd_nxt u) (u <| delack_deadline := 0 |>)) as [H3 H4].
    split; [rewrite <- H1; exact H3|rewrite <- H2; exact H4].
  - destruct (seq_gt _ _); [|apply Hsf]. cbv zeta. destruct (Hsf TCP_ACK (snd_nxt (queue_reasm sq (x :: d) t)) (queue_reasm sq (x :: d) t)) as [-> ->].
    unfold queue_reasm. destruct (existsb _ _); [done|]. destruct (list_find _ _) as [[i y]|]; done.
Qed.

Lemma seg_body_rcv peer read fin c seg t : len peer <= STREAM_MAX ->
  rcv_inv peer read t -> carries peer (irs t) fin seg ->
  rcv_inv peer read (seg_body c seg t) /\ (fin_rcvd t = false -> fin_rcvd (seg_body c seg t) = true -> fin = true).
Proof.
  intros Hmax Hi Hc. unfold seg_body. cbv zeta.
  set (t1 := seg_window _ _ _ _ (seg_ack _ _ _ t)).
  assert (E1 : rcv_fields t1 = rcv_fields t) by (subst t1; rewrite seg_window_rcv; apply seg_ack_rcv). clearbody t1.
  assert (Hi1 : rcv_inv peer read t1) by by eapply rcv_inv_frame.
  destruct (rcv_fields_const _ _ E1) as [I1 F1]. clear E1. rewrite <- I1 in Hc. rewrite <- F1. clear Hi I1 F1 t.
  assert (Hi2 := seg_data_rcv peer read fin c seg t1 Hmax Hi1 Hc).
  assert (E2 : irs (seg_data c (seg_seq seg) (seg_payload seg) t1) = irs t1 /\
               fin_rcvd (seg_data c (seg_seq seg) (seg_payload seg) t1) = fin_rcvd t1) by apply seg_data_const.
  set (t2 := seg_data _ _ _ t1) in *. clearbody t2. destruct E2 as [I2 F2]. rewrite <- I2 in Hc. rewrite <- F2.
  destruct (seg_fin_rcv peer read fin c seg t2 Hmax Hi2 Hc) as [Hi3 F3].
  set (t3 := seg_fin _ _ _ _ t2) in *. clearbody t3.
  assert (E4 := seg_closing_rcv c t3). destruct (seg_closing c t3) as [b t4]. cbn [snd] in E4.
  destruct (rcv_fields_const _ _ E4) as [_ F4].
  destruct b.
  - assert (E5 := tcp_output_rcv c t4). destruct (rcv_fields_const _ _ E5) as [_ F5].
    split; [|rewrite F5, F4; exact F3]. eapply rcv_inv_frame; [|exact Hi3]. congruence.
  - split; [|rewrite F4; exact F3]. by eapply rcv_inv_frame.
Qed.

Lemma tcp_segment_rcv peer read fin c i p seg t : len peer <= STREAM_MAX -> synced (state t) ->
  rcv_inv peer read t -> carries peer (irs t) fin seg ->
  rcv_inv peer read (fst (tcp_segment c i p seg t)) /\
  (fin_rcvd t = false -> fin_rcvd (fst (tcp_segment c i p seg t)) = true -> fin = true).
Proof.
  intros Hmax Hs Hi Hc. rewrite tcp_segment_synced by done. cbn [fst].
  assert (Hsame : forall t', rcv_fields t' = rcv_fields t ->
    rcv_inv peer read t' /\ (fin_rcvd t = false -> fin_rcvd t' = true -> fin = true)).
  { intros t' E. destruct (rcv_fields_const _ _ E). split; [by eapply rcv_inv_frame|congruence]. }
  destruct (ctrue _); [apply Hsame; exact (enter_closed_rcv c _ (t <| reset := true |>))|].
  destruct (negb (acceptable _ _ _)); [apply Hsame, send_flags_rcv|]. destruct (negb _); [by apply Hsame|].
  by apply seg_body_rcv.
Qed.

Lemma tick_persist_rcv c t : rcv_fields (tick_persist c t) = rcv_fields t.
Proof.
  unfold tick_persist. cbv zeta. set (t1 := t <| persist_shift := _ |>). transitivity (rcv_fields t1); [|reflexivity].
  clearbody t1. set (t2 := t1 <| persist_deadline := _ |>). transitivity (rcv_fields t2); [|reflexivity]. clearbody t2.
  destruct (_ <? snd_len t2); [apply tx_queue_rcv|apply send_flags_rcv].
Qed.

Lemma tick_rto_rcv c t : rcv_fields (tick_rto c t) = rcv_fields t.
Proof.
  unfold tick_rto. cbv zeta. set (t1 := cc_on_timeout t <| rto_ticks := _ |> <| rto_deadline := _ |>).
  transitivity (rcv_fields t1); [|reflexivity]. clearbody t1.
  destruct (state t1); (apply send_flags_rcv || apply retransmit_rcv).
Qed.

Lemma tick_conn_rcv c t t' : tick_conn c t = Keep t' -> rcv_fields t' = rcv_fields t.
Proof.
  unfold tick_conn. cbv zeta.
  destruct (due (timewait_deadline t) _); [intros [= <-]; exact (enter_closed_rcv c 0 (t <| timewait_deadline := 0 |>))|].
  destruct (_ && negb _); [done|].
  destruct (due (establish_deadline t) _); [intros [= <-]; exact (enter_closed_rcv c ETIMEDOUT (t <| establish_deadline := 0 |>))|].
  set (t0 := t <| retries := _ |>). assert (E0 : rcv_fields t0 = rcv_fields t) by reflexivity. clearbody t0.
  assert (Hr : forall b t1, (if due (rto_deadline t) (ticks c)
     then if TCP_MAX_RETRIES <? retries t0 then (true, enter_closed c ETIMEDOUT t0) else (false, tick_rto c t0)
     else (false, t)) = (b, t1) -> rcv_fields t1 = rcv_fields t).
  { intros b t1. destruct (due _ _); [destruct (_ <? _)|]; intros [= <- <-]; [| |done]; rewrite <- E0.
    - apply enter_closed_rcv.
    - apply tick_rto_rcv. }
  set (x := if due _ _ then _ else _) in *. destruct x as [b t1]. specialize (Hr b t1 eq_refl).
  destruct b; intros [= <-]; [done|].
  set (t2 := if due (delack_deadline t1) _ then _ else t1).
  assert (E2 : rcv_fields t2 = rcv_fields t).
  { subst t2. destruct (due _ _); [|done]. rewrite <- Hr. exact (send_flags_rcv TCP_ACK (snd_nxt t1) (t1 <| delack_deadline := 0 |>)). }
  clearbody t2. destruct (due (persist_deadline t2) _); [by rewrite tick_persist_rcv|done].
Qed.

Lemma tcp_send_rcv c d t : rcv_fields (snd (tcp_send c d t)) = rcv_fields t.
Proof.
  unfold tcp_send. destruct (reset t); [done|]. destruct (shut_wr t); [done|]. destruct (negb _ && negb _); [done|].
  cbv zeta. cbn [snd]. rewrite tcp_output_rcv. reflexivity.
Qed.

Lemma tcp_shutdown_rcv c t : rcv_fields (tcp_shutdown_write c t) = rcv_fields t.
Proof.
  unfold tcp_shutdown_write. destruct (shut_wr t || _); [done|]. cbv zeta. rewrite tcp_output_rcv.
  set (t1 := t <| shut_wr := true |> <| fin_sent := 1 |>). transitivity (rcv_fields t1); [|reflexivity]. clearbody t1.
  destruct (state t1); (apply set_state_rcv || reflexivity).
Qed.

(** What [tcp_recv] hands out is the front of the ring. *)
Lemma tcp_recv_rcv peer read n (peek : bool) t rc out t' : 0 <= n -> tcp_recv n peek t = (rc, out, t') ->
  rcv_inv peer read t -> rcv_inv peer (if peek then read else read ++ out) t'.
Proof.
  intros Hn. unfold tcp_recv. destruct (Z.eqb_spec (rcv_len t) 0); cbn [negb].
  { destruct (reset t); [|destruct (_ || _)]; intros [= <- <- <-]; by destruct peek; rewrite ?app_nil_r. }
  destruct peek; [by intros [= <- <- <-]|]. cbv zeta.
  set (k := if n <? rcv_len t then n else rcv_len t). set (t1 := t <| rcv_head := _ |> <| rcv_len := _ |>).
  intros [= <- <- <-] [[r (R1 & R2 & R3 & R4 & R5 & R6)] Hh].
  assert (Hk : 0 <= k <= rcv_len t) by (subst k; zcases; lia). clearbody k.
  assert (Hi : rcv_inv peer (read ++ ring_get (rcvbuf t) (rcv_head t) k) t1).
  { split; [|exact Hh]. exists r. unfold rcv_at. subst t1. fields. split_and!; try done; try lia; [dlia..|].
    rewrite <- R6, <- app_assoc. f_equal. rewrite ring_get_mod, <- ring_get_app by lia. f_equal. lia. }
  clearbody t1. destruct (ctrue _); [|done]. eapply rcv_inv_frame; [apply send_flags_rcv|done].
Qed.
