(* ===== verification/TcpSystem.v ===== *)
(** * Two TCP endpoints over a lossy network (theorems on kernel/net/tcp.c)

    [sys] is a pair of connections past the handshake with the segments that
    have left them.  [exec] is one critical section of one of them: an
    application call, a timer pass, the departure of a staged segment, or the
    arrival of any segment that ever left the other end.  Arrivals leave the
    segment in place, so the network loses, repeats and reorders at will.

    Theorems: what an application has read is a prefix of what the other has
    sent; end-of-file is reported only after all of it; every staged segment
    passes the checks of the receive path. *)

From stdpp Require Import base numbers list functions.
From S2P Require Import Prelude Net Tcp TcpStream TcpRecv.

(** ** What no operation changes *)

Definition kept (t' t : tcb) : Prop :=
  iss t' = iss t /\ irs t' = irs t /\ local_n t' = local_n t /\ remote_n t' = remote_n t /\
  (synced (state t) -> synced (state t')) /\ (fin_sent t = 2 -> fin_sent t' = 2).

Lemma kept_refl t : kept t t.
Proof. by repeat split. Qed.

Lemma kept_trans t1 t2 t3 : kept t1 t2 -> kept t2 t3 -> kept t1 t3.
Proof. intros (A1 & A2 & A3 & A4 & A5 & A6) (B1 & B2 & B3 & B4 & B5 & B6). repeat split; auto; congruence. Qed.

(** After case analysis every field is syntactically the same. *)
Ltac kept_tac := repeat match goal with |- context [if ?b then _ else _] => destruct b end; by repeat split.

Lemma tx_queue_kept sq ak fl w m d t : kept (tx_queue sq ak fl w m d t) t.
Proof. unfold tx_queue. cbv zeta. kept_tac. Qed.

Lemma send_flags_kept fl sq t : kept (send_flags fl sq t) t.
Proof. unfold send_flags. apply tx_queue_kept. Qed.

Lemma set_state_kept c s t : synced s -> kept (set_state c s t) t.
Proof. intros Hs. unfold set_state, tcp_timer_kick, timer_request. cbv zeta. kept_tac. Qed.

Lemma enter_closed_kept c e t : kept (enter_closed c e t) t.
Proof. eapply kept_trans; [|apply (set_state_kept c TCP_CLOSED t I)]. by repeat split. Qed.

Lemma enter_time_wait_kept c t : kept (enter_time_wait c t) t.
Proof. eapply kept_trans; [|apply (set_state_kept c TCP_TIME_WAIT t I)]. by repeat split. Qed.

Lemma arm_rto_kept c t : kept (arm_rto c t) t.
Proof. unfold arm_rto. kept_tac. Qed.

Lemma output_step_kept c w t t' : output_step c w t = Some t' -> kept t' t.
Proof.
  unfold output_step. destruct (7 <=? _)%nat; [done|]. cbv zeta. destruct (w <=? _); [done|].
  destruct (snd_len t <=? _); [done|]. destruct (negb (nodelay t) && _ && _); [done|].
  intros [= <-]. set (t1 := tx_queue _ _ _ _ _ _ t). apply (kept_trans _ t1); [|apply tx_queue_kept]. clearbody t1.
  match goal with |- kept (arm_rto c ?u <| delack_deadline := 0 |>) _ => apply (kept_trans _ (arm_rto c u)); [by repeat split|];
    apply (kept_trans _ u); [apply arm_rto_kept|] end.
  destruct (rtt_pending t1); by repeat split.
Qed.

Lemma tcp_output_kept c t : kept (tcp_output c t) t.
Proof.
  unfold tcp_output. destruct (negb _); [apply kept_refl|]. set (w := if _ <? _ then _ else _). clearbody w.
  apply (kept_trans _ (output_loop 8 c w t)).
  - generalize (output_loop 8 c w t). intros t1. unfold output_fin. destruct (_ && _) eqn:E; [|apply kept_refl]. zbool. cbv zeta.
    eapply kept_trans; [apply arm_rto_kept|]. eapply kept_trans; [|apply (send_flags_kept (Z.lor TCP_FIN TCP_ACK) (snd_nxt t1) t1)].
    by repeat split.
  - generalize 8%nat. intros fuel. revert t. induction fuel as [|fuel IH]; intros t; cbn [output_loop]; [apply kept_refl|].
    destruct (output_step c w t) as [t'|] eqn:E; [|apply kept_refl].
    eapply kept_trans; [apply IH|by eapply output_step_kept].
Qed.

Lemma retransmit_kept t : kept (retransmit t) t.
Proof.
  unfold retransmit. cbv zeta. set (k := if _ && _ then _ else _). clearbody k. destruct (k =? 0).
  - destruct (fin_sent t =? 2); [apply send_flags_kept|apply kept_refl].
  - eapply kept_trans; [apply tx_queue_kept|]. by repeat split.
Qed.

Lemma seg_window_kept c sq ak w t : kept (seg_window c sq ak w t) t.
Proof. unfold seg_window. cbv zeta. kept_tac. Qed.

Lemma cc_on_ack_kept k t : kept (cc_on_ack k t) t.
Proof. unfold cc_on_ack. cbv zeta. kept_tac. Qed.

Lemma rtt_sample_kept m t : kept (rtt_sample m t) t.
Proof. unfold rtt_sample. cbv zeta. destruct (srtt_8 t =? 0); by repeat split. Qed.

Lemma take_sample_kept c t : kept (take_sample c t) t.
Proof.
  unfold take_sample. eapply kept_trans; [|apply (rtt_sample_kept (u64 (ticks c - rtt_at t)) t)].
  generalize (rtt_sample (u64 (ticks c - rtt_at t)) t). by repeat split.
Qed.

Lemma seg_ack_kept c ak dl t : kept (seg_ack c ak dl t) t.
Proof.
  unfold seg_ack. destruct (_ && seq_le _ _); [|destruct ((ak =? _) && _ && _); [|apply kept_refl]].
  - cbv zeta. set (d := if (fin_sent t =? 2) && _ then _ else _). clearbody d.
    set (t2 := t <| snd_una := ak |> <| snd_head := _ |> <| snd_len := _ |> <| retries := 0 |> <| dupacks := 0 |> <| persist_shift := 0 |>).
    apply (kept_trans _ t2); [|by repeat split]. clearbody t2.
    set (t3 := if rtt_pending t2 && _ then _ else t2). apply (kept_trans _ t3).
    2:{ subst t3. destruct (_ && _); [apply take_sample_kept|apply kept_refl]. }
    clearbody t3. set (t4 := cc_on_ack _ t3). apply (kept_trans _ t4); [|apply cc_on_ack_kept]. clearbody t4.
    destruct (snd_una t4 =? snd_nxt t4); by repeat split.
  - unfold cc_on_dupack. cbv zeta. set (t1 := t <| dupacks := _ |>). apply (kept_trans _ t1); [|by repeat split].
    clearbody t1. destruct (in_recovery t1); [by repeat split|]. destruct (dupacks t1 =? 3); [|apply kept_refl].
    eapply kept_trans; [apply retransmit_kept|]. by repeat split.
Qed.

Lemma seg_data_kept c sq d t : kept (seg_data c sq d t) t.
Proof.
  unfold seg_data. destruct d as [|x d]; [apply kept_refl|]. destruct (_ =? _).
  - cbv zeta. apply (kept_trans _ (drain_reasm (deliver (x :: d) t))).
    + generalize (drain_reasm (deliver (x :: d) t)). intros t1. destruct (_ =? 0); [by repeat split|].
      apply (kept_trans _ (t1 <| delack_deadline := 0 |>)); [|by repeat split].
      apply (kept_trans _ (send_flags TCP_ACK (snd_nxt t1) (t1 <| delack_deadline := 0 |>))); [by repeat split|].
      apply send_flags_kept.
    + apply (drain_ind (fun u => kept u t)); [|by repeat split].
      intros u b i Hu. eapply kept_trans; [|exact Hu]. unfold drain_slot.
      destruct (reasm u !! i) as [r|]; [|apply kept_refl]. destruct (negb _); [apply kept_refl|].
      destruct (_ && _); [|destruct (seq_le _ (rcv_nxt u))]; by repeat split.
  - destruct (seq_gt _ _); [|apply send_flags_kept]. cbv zeta. eapply kept_trans; [apply send_flags_kept|].
    unfold queue_reasm. destruct (existsb _ _); [apply kept_refl|]. destruct (list_find _ _) as [[i y]|]; by repeat split.
Qed.

Lemma seg_fin_kept c sq dl fl t : kept (seg_fin c sq dl fl t) t.
Proof.
  unfold seg_fin. destruct (_ && _); [|apply kept_refl]. cbv zeta.
  set (t1 := t <| fin_rcvd := true |> <| rcv_nxt := _ |>). apply (kept_trans _ t1); [|by repeat split]. clearbody t1.
  set (t2 := send_flags _ _ t1). apply (kept_trans _ t2); [|apply send_flags_kept]. clearbody t2.
  match goal with |- kept (wake ?u) _ => apply (kept_trans _ u); [by repeat split|] end.
  destruct (state t2); (apply kept_refl || (by apply set_state_kept) || apply enter_time_wait_kept).
Qed.

Lemma seg_closing_kept c t : kept (snd (seg_closing c t)) t.
Proof.
  unfold seg_closing. destruct (_ && _ && _); cbn [snd].
  { destruct (fin_rcvd t); [apply enter_time_wait_kept|by apply set_state_kept]. }
  destruct (_ && _); cbn [snd]; [apply enter_time_wait_kept|].
  destruct (_ && _); cbn [snd]; [apply enter_closed_kept|apply kept_refl].
Qed.

Lemma seg_body_kept c seg t : kept (seg_body c seg t) t.
Proof.
  unfold seg_body. cbv zeta. set (t1 := seg_ack _ _ _ t). apply (kept_trans _ t1); [|apply seg_ack_kept]. clearbody t1.
  set (t2 := seg_window _ _ _ _ t1). apply (kept_trans _ t2); [|apply seg_window_kept]. clearbody t2.
  set (t3 := seg_data _ _ _ t2). apply (kept_trans _ t3); [|apply seg_data_kept]. clearbody t3.
  set (t4 := seg_fin _ _ _ _ t3). apply (kept_trans _ t4); [|apply seg_fin_kept]. clearbody t4.
  pose proof (seg_closing_kept c t4) as H. destruct (seg_closing c t4) as [[] t5]; cbn [snd] in H; [|done].
  eapply kept_trans; [apply tcp_output_kept|exact H].
Qed.

Lemma tcp_segment_kept c i p seg t : synced (state t) -> kept (fst (tcp_segment c i p seg t)) t.
Proof.
  intros Hs. rewrite tcp_segment_synced by done. cbn [fst]. destruct (ctrue _).
  { eapply kept_trans; [apply enter_closed_kept|]. by repeat split. }
  destruct (negb (acceptable _ _ _)); [apply send_flags_kept|]. destruct (negb _); [apply kept_refl|apply seg_body_kept].
Qed.

Lemma tick_conn_kept c t t' : tick_conn c t = Keep t' -> kept t' t.
Proof.
  unfold tick_conn. cbv zeta.
  destruct (due (timewait_deadline t) _).
  { intros [= <-]. eapply kept_trans; [apply enter_closed_kept|]. by repeat split. }
  destruct (_ && negb _); [done|]. destruct (due (establish_deadline t) _).
  { intros [= <-]. eapply kept_trans; [apply enter_closed_kept|]. by repeat split. }
  set (t0 := t <| retries := _ |>). assert (E0 : kept t0 t) by by repeat split. clearbody t0.
  assert (Hr : forall b t1, (if due (rto_deadline t) (ticks c)
     then if TCP_MAX_RETRIES <? retries t0 then (true, enter_closed c ETIMEDOUT t0) else (false, tick_rto c t0)
     else (false, t)) = (b, t1) -> kept t1 t).
  { intros b t1. destruct (due _ _); [destruct (_ <? _)|]; intros [= <- <-]; [| |apply kept_refl];
      (eapply kept_trans; [|exact E0]).
    - apply enter_closed_kept.
    - unfold tick_rto. cbv zeta. set (u := cc_on_timeout t0 <| rto_ticks := _ |> <| rto_deadline := _ |>).
      apply (kept_trans _ u); [|by repeat split]. clearbody u. destruct (state u); (apply send_flags_kept || apply retransmit_kept). }
  set (x := if due _ _ then _ else _) in *. destruct x as [b t1]. specialize (Hr b t1 eq_refl).
  destruct b; intros [= <-]; [done|].
  set (t2 := if due (delack_deadline t1) _ then _ else t1).
  assert (E2 : kept t2 t).
  { subst t2. destruct (due _ _); [|done]. eapply kept_trans; [apply send_flags_kept|]. eapply kept_trans; [|exact Hr]. by repeat split. }
  clearbody t2. destruct (due (persist_deadline t2) _); [|done]. eapply kept_trans; [|exact E2].
  unfold tick_persist. cbv zeta. set (u := t2 <| persist_shift := _ |> ). apply (kept_trans _ u); [|by repeat split]. clearbody u.
  set (v := u <| persist_deadline := _ |>). apply (kept_trans _ v); [|by repeat split]. clearbody v.
  destruct (_ <? snd_len v); [apply tx_queue_kept|apply send_flags_kept].
Qed.

Lemma tcp_send_kept c d t : kept (snd (tcp_send c d t)) t.
Proof.
  unfold tcp_send. destruct (reset t); [apply kept_refl|]. destruct (shut_wr t); [apply kept_refl|].
  destruct (negb _ && negb _); [apply kept_refl|]. cbv zeta. cbn [snd]. eapply kept_trans; [apply tcp_output_kept|]. by repeat split.
Qed.

Lemma tcp_shutdown_kept c t : kept (tcp_shutdown_write c t) t.
Proof.
  unfold tcp_shutdown_write. destruct (shut_wr t || _) eqn:E; [apply kept_refl|]. zbool. cbv zeta.
  eapply kept_trans; [apply tcp_output_kept|]. set (t1 := t <| shut_wr := true |> <| fin_sent := 1 |>).
  assert (H1 : kept t1 t) by (repeat split; [done|]; intros Hf; congruence). clearbody t1.
  eapply kept_trans; [|exact H1]. destruct (state t1); (apply kept_refl || by apply set_state_kept).
Qed.

Lemma tcp_recv_kept n pk t : kept (snd (tcp_recv n pk t)) t.
Proof.
  unfold tcp_recv. destruct (negb _).
  - destruct pk; [apply kept_refl|]. cbv zeta. cbn [snd]. set (t1 := t <| rcv_head := _ |> <| rcv_len := _ |>).
    apply (kept_trans _ t1); [|by repeat split]. clearbody t1. destruct (ctrue _); [apply send_flags_kept|apply kept_refl].
  - destruct (reset t); [apply kept_refl|]. destruct (_ || _); apply kept_refl.
Qed.

Lemma tcp_recv_snd sent n pk t : snd_inv sent t -> snd_inv sent (snd (tcp_recv n pk t)).
Proof.
  intros Hi. unfold tcp_recv. destruct (negb _).
  - destruct pk; [done|]. cbv zeta. cbn [snd]. set (t1 := t <| rcv_head := _ |> <| rcv_len := _ |>).
    assert (Hi1 : snd_inv sent t1) by (eapply same_snd_inv; [|exact Hi]; split; reflexivity). clearbody t1.
    destruct (ctrue _); [by apply send_ack_inv|done].
  - destruct (reset t); [done|]. by destruct (_ || _).
Qed.

Lemma tcp_recv_fin n pk t : fin_rcvd (snd (tcp_recv n pk t)) = fin_rcvd t.
Proof.
  unfold tcp_recv. destruct (negb _); [|by destruct (reset t); [|destruct (_ || _)]].
  cbv zeta. destruct pk; [reflexivity|]. cbn [snd]. set (t1 := t <| rcv_head := _ |> <| rcv_len := _ |>).
  transitivity (fin_rcvd t1); [|reflexivity]. clearbody t1. destruct (ctrue _); [|done].
  exact (proj2 (rcv_fields_const _ _ (send_flags_rcv _ _ _))).
Qed.

(** ** The system *)

(** An endpoint: its connection, the bytes its application handed to
    [tcp_send] and was told were taken, and the bytes it read. *)
Record ep := Ep { tc : tcb; sent : list Z; read : list Z }.

(** The two endpoints, and the segments that have left each of them. *)
Record sys := Sys { ends : bool -> ep; left : bool -> list (list Z) }.

Inductive ev :=
  | Send (w : bool) (c : clk) (d : list Z)        (* [tcp_send] *)
  | Recv (w : bool) (n : Z) (peek : bool)         (* [tcp_recv] *)
  | Shutdown (w : bool) (c : clk)                 (* [tcp_shutdown_write] *)
  | Gone (w : bool) (c : clk)                     (* [close_begin]: the socket is gone *)
  | Tick (w : bool) (c : clk)                     (* a timer pass *)
  | Flush (w : bool)                              (* one round of [tcp_tx_flush] *)
  | Nodelay (w b : bool)                          (* TCP_NODELAY *)
  | Arrive (w : bool) (c : clk) (k : nat).        (* segment [k] of the other end reaches [tcp_input] *)

Definition put (w : bool) (e : ep) (s : sys) : sys := Sys (<[w := e]> (ends s)) (left s).

Definition exec (e : ev) (s : sys) : option sys :=
  match e with
  | Send w c d =>
      let x := ends s w in
      match tcp_send c d (tc x) with
      | (_, k, t) => Some (put w (Ep t (sent x ++ take (Z.to_nat k) d) (read x)) s)
      end
  | Recv w n pk =>
      let x := ends s w in
      match tcp_recv n pk (tc x) with
      | (_, out, t) => Some (put w (Ep t (sent x) (if pk then read x else read x ++ out)) s)
      end
  | Shutdown w c => let x := ends s w in Some (put w (Ep (tcp_shutdown_write c (tc x)) (sent x) (read x)) s)
  | Gone w c => let x := ends s w in Some (put w (Ep (tcp_timer_kick c (tc x <| sock_gone := true |>)) (sent x) (read x)) s)
  | Tick w c =>
      let x := ends s w in
      match tick_conn c (tc x) with
      | Keep t => Some (put w (Ep t (sent x) (read x)) s)
      | Release => None
      end
  | Flush w =>
      let x := ends s w in
      match txq (tc x) with
      | [] => None
      | b :: q => Some (Sys (<[w := Ep (tc x <| txq := q |>) (sent x) (read x)]> (ends s))
                            (<[w := left s w ++ [b]]> (left s)))
      end
  | Nodelay w b => let x := ends s w in Some (put w (Ep (tc x <| nodelay := b |>) (sent x) (read x)) s)
  | Arrive w c k =>
      let x := ends s w in let y := ends s (negb w) in
      match left s (negb w) !! k with
      | None => None
      | Some seg => if seg_ok (local_n (tc y)) (remote_n (tc y)) seg
                    then Some (put w (Ep (fst (tcp_segment c 0 None seg (tc x))) (sent x) (read x)) s)
                    else Some s
      end
  end.

Fixpoint run (es : list ev) (s : sys) : option sys :=
  match es with
  | [] => Some s
  | e :: es => match exec e s with Some s => run es s | None => None end
  end.

(** Applications write bytes and read into buffers. *)
Definition well_formed (e : ev) : Prop :=
  match e with Send _ _ d => Forall byte d | Recv _ n _ => 0 <= n | _ => True end.

(** ** Invariant *)

Record ep_inv (s : sys) (w : bool) : Prop := EpInv {
  ei_sync : synced (state (tc (ends s w)));
  ei_snd : snd_inv (sent (ends s w)) (tc (ends s w));
  ei_rcv : rcv_inv (sent (ends s (negb w))) (read (ends s w)) (tc (ends s w));
  ei_isn : irs (tc (ends s w)) = iss (tc (ends s (negb w)));
  ei_left : Forall (staged (sent (ends s w)) (tc (ends s w))) (left s w);
  ei_fin : fin_rcvd (tc (ends s w)) = true -> fin_sent (tc (ends s (negb w))) = 2;
}.

Definition inv (s : sys) : Prop := forall w, ep_inv s w.

Lemma staged_mono sent ext t t' seg : staged sent t seg -> kept t' t -> (ext = [] \/ fin_sent t <> 2) ->
  staged (sent ++ ext) t' seg.
Proof.
  intros [C1 C2] (K1 & K2 & K3 & K4 & K5 & K6) He. unfold staged. rewrite K1, K3, K4. split; [|done].
  assert (C1' : carries (sent ++ ext) (iss t) (fin_sent t =? 2) seg).
  { apply carries_app; [done|]. destruct He; [by left|right]. by apply Z.eqb_neq. }
  destruct C1' as (p & P1 & P2 & P3 & P4). exists p. split_and!; [done|lia|lia|done|].
  intros Hf. destruct (P4 Hf) as (Q1 & Q2 & Q3). split_and!; [done|done|]. apply Z.eqb_eq in Q3. rewrite (K6 Q3). done.
Qed.

(** A step of endpoint [w] that keeps what no operation changes, sends [ext]
    more bytes and preserves the two invariants of the endpoint. *)
Lemma inv_step s w t ext rd :
  inv s -> kept t (tc (ends s w)) -> (ext = [] \/ fin_sent (tc (ends s w)) <> 2) ->
  snd_inv (sent (ends s w) ++ ext) t ->
  rcv_inv (sent (ends s (negb w))) rd t ->
  (fin_rcvd t = true -> fin_sent (tc (ends s (negb w))) = 2) ->
  inv (put w (Ep t (sent (ends s w) ++ ext) rd) s).
Proof.
  intros Hi Hk He Hs Hr Hf v. destruct (Hi w) as [A1 A2 A3 A4 A5 A6]. destruct (Hi (negb w)) as [B1 B2 B3 B4 B5 B6].
  rewrite negb_involutive in *. assert (Hnw : negb w <> w) by by destruct w.
  assert (Hk' := Hk). destruct Hk' as (K1 & K2 & K3 & K4 & K5 & K6).
  destruct (decide (v = w)) as [->|Hv].
  - constructor; unfold put; cbn [ends left]; rewrite ?fn_lookup_insert, ?(fn_lookup_insert_ne _ w (negb w)) by done;
      cbn [tc sent read]; auto; [congruence|].
    eapply Forall_impl; [|exact A5]. intros seg Hseg. by eapply staged_mono.
  - assert (v = negb w) as -> by (destruct v, w; done).
    constructor; unfold put; cbn [ends left]; rewrite ?negb_involutive;
      rewrite ?fn_lookup_insert, ?(fn_lookup_insert_ne _ w (negb w)) by done; cbn [tc sent read]; auto.
    + apply rcv_inv_app; [|done]. intros Hfr. destruct He as [|He]; [done|]. by specialize (B6 Hfr).
    + congruence.
Qed.

(** The same for a step that sends nothing and leaves the receive side alone. *)
Lemma inv_quiet s w t :
  inv s -> kept t (tc (ends s w)) -> snd_inv (sent (ends s w)) t -> rcv_fields t = rcv_fields (tc (ends s w)) ->
  inv (put w (Ep t (sent (ends s w)) (read (ends s w))) s).
Proof.
  intros Hi Hk Hs Hr. destruct (Hi w) as [A1 A2 A3 A4 A5 A6]. destruct (rcv_fields_const _ _ Hr) as [_ Hf].
  pose proof (inv_step s w t [] (read (ends s w)) Hi Hk (or_introl eq_refl)) as H. rewrite app_nil_r in H.
  apply H; [done| |by rewrite Hf]. by eapply rcv_inv_frame.
Qed.

Definition bounded (s : sys) : Prop := forall w, len (sent (ends s w)) <= STREAM_MAX.

Lemma inv_flush s w b q : inv s -> txq (tc (ends s w)) = b :: q ->
  inv (Sys (<[w := Ep (tc (ends s w) <| txq := q |>) (sent (ends s w)) (read (ends s w))]> (ends s))
           (<[w := left s w ++ [b]]> (left s))).
Proof.
  intros Hi Eq. destruct (Hi w) as [A1 A2 A3 A4 A5 A6]. pose proof (si_txq _ _ A2) as Ht. rewrite Eq in Ht.
  inversion Ht as [|? ? Hb Hq]. subst.
  assert (H : inv (put w (Ep (tc (ends s w) <| txq := q |>) (sent (ends s w)) (read (ends s w))) s)).
  { apply inv_quiet; [done|by repeat split| |reflexivity]. destruct A2 as [Hm Hh Hr Hby Hp _]. constructor; done. }
  intros v. destruct (H v) as [B1 B2 B3 B4 B5 B6]. constructor; try done.
  destruct (decide (v = w)) as [->|Hv].
  - cbn [ends left]. rewrite !fn_lookup_insert. apply Forall_app_2; [exact A5|by constructor].
  - cbn [ends left]. rewrite !fn_lookup_insert_ne by congruence. apply (Hi v).
Qed.

Lemma exec_inv e s s' : well_formed e -> bounded s -> inv s -> exec e s = Some s' -> inv s'.
Proof.
  intros Hwf Hb Hi. destruct e as [w c d|w n pk|w c|w c|w c|w|w b|w c k]; cbn [exec well_formed] in *;
    destruct (Hi w) as [A1 A2 A3 A4 A5 A6].
  - pose proof (tcp_send_kept c d (tc (ends s w))) as Hk. pose proof (tcp_send_rcv c d (tc (ends s w))) as Hr.
    destruct (tcp_send c d (tc (ends s w))) as [[rc k] t] eqn:E. cbn [snd] in *. intros [= <-].
    destruct (rcv_fields_const _ _ Hr) as [_ Hf]. apply inv_step; try done.
    + destruct (decide (fin_sent (tc (ends s w)) = 2)) as [H2|]; [left|by right].
      destruct (si_pos _ _ A2) as (a & m & P). assert (Hsw : shut_wr (tc (ends s w)) = true) by (apply P; lia).
      unfold tcp_send in E. destruct (reset _); [by simplify_eq|]. rewrite Hsw in E. by simplify_eq.
    + by eapply tcp_send_snd.
    + by eapply rcv_inv_frame.
    + by rewrite Hf.
  - pose proof (tcp_recv_kept n pk (tc (ends s w))) as Hk.
    pose proof (tcp_recv_snd (sent (ends s w)) n pk (tc (ends s w)) A2) as Hs.
    pose proof (tcp_recv_fin n pk (tc (ends s w))) as Hf.
    destruct (tcp_recv n pk (tc (ends s w))) as [[rc out] t] eqn:E. cbn [snd] in *. intros [= <-].
    pose proof (inv_step s w t [] (if pk then read (ends s w) else read (ends s w) ++ out) Hi Hk (or_introl eq_refl)) as H.
    rewrite app_nil_r in H. apply H; [done| |by rewrite Hf]. by eapply tcp_recv_rcv.
  - intros [= <-]. apply inv_quiet; [done|apply tcp_shutdown_kept|by apply tcp_shutdown_snd|apply tcp_shutdown_rcv].
  - intros [= <-]. apply inv_quiet; [done|by repeat split| |reflexivity]. eapply same_snd_inv; [|exact A2]. split; reflexivity.
  - destruct (tick_conn c (tc (ends s w))) as [|t] eqn:E; [done|]. intros [= <-].
    apply inv_quiet; [done|by eapply tick_conn_kept|by eapply tick_conn_snd|by eapply tick_conn_rcv].
  - destruct (txq (tc (ends s w))) as [|b q] eqn:E; [done|]. intros [= <-]. by apply inv_flush.
  - intros [= <-]. apply inv_quiet; [done|by repeat split| |reflexivity]. eapply same_snd_inv; [|exact A2]. split; reflexivity.
  - destruct (left s (negb w) !! k) as [seg|] eqn:E; [|done]. destruct (seg_ok _ _ _); [|by intros [= <-]].
    intros [= <-]. destruct (Hi (negb w)) as [B1 B2 B3 B4 B5 B6].
    destruct (Forall_lookup_1 _ _ _ _ B5 E) as [Hc _]. rewrite <- A4 in Hc.
    destruct (tcp_segment_rcv _ (read (ends s w)) _ c 0 None seg (tc (ends s w)) (Hb (negb w)) A1 A3 Hc) as [Hr Hf].
    pose proof (inv_step s w (fst (tcp_segment c 0 None seg (tc (ends s w)))) [] (read (ends s w)) Hi
      (tcp_segment_kept _ _ _ _ _ A1) (or_introl eq_refl)) as H.
    rewrite app_nil_r in H. apply H; [by apply tcp_segment_snd|done|].
    intros Hfr. destruct (fin_rcvd (tc (ends s w))) eqn:Ef; [by apply A6|]. by apply Z.eqb_eq, Hf.
Qed.

Lemma exec_sent e s s' w : exec e s = Some s' -> len (sent (ends s w)) <= len (sent (ends s' w)).
Proof.
  assert (Hput : forall v x, (v = w -> len (sent (ends s w)) <= len (sent x)) ->
    len (sent (ends s w)) <= len (sent ((<[v := x]> (ends s)) w))).
  { intros v x Hx. destruct (decide (v = w)) as [->|]; [rewrite fn_lookup_insert; auto|by rewrite fn_lookup_insert_ne]. }
  destruct e as [v c d|v n pk|v c|v c|v c|v|v b|v c k]; cbn [exec].
  - destruct (tcp_send _ _ _) as [[rc k] t]. intros [= <-]. apply Hput. intros ->. cbn [sent]. rewrite length_app. lia.
  - destruct (tcp_recv _ _ _) as [[rc out] t]. intros [= <-]. apply Hput. by intros ->.
  - intros [= <-]. apply Hput. by intros ->.
  - intros [= <-]. apply Hput. by intros ->.
  - destruct (tick_conn _ _); [done|]. intros [= <-]. apply Hput. by intros ->.
  - destruct (txq _); [done|]. intros [= <-]. apply Hput. by intros ->.
  - intros [= <-]. apply Hput. by intros ->.
  - destruct (_ !! k); [|done]. destruct (seg_ok _ _ _); intros [= <-]; [|done]. apply Hput. by intros ->.
Qed.

Lemma run_sent es s s' w : run es s = Some s' -> len (sent (ends s w)) <= len (sent (ends s' w)).
Proof.
  revert s. induction es as [|e es IH]; intros s; cbn [run]; [by intros [= <-]|].
  destruct (exec e s) as [s1|] eqn:E; [|done]. intros Hr. etransitivity; [by eapply exec_sent|by apply IH].
Qed.

Lemma tcp_run_inv es s s' : Forall well_formed es -> inv s -> run es s = Some s' -> bounded s' -> inv s'.
Proof.
  revert s. induction es as [|e es IH]; intros s Hw Hi; cbn [run]; [by intros [= <-]|].
  inversion_clear Hw as [|? ? We Wes]. destruct (exec e s) as [s1|] eqn:E; [|done]. intros Hr Hb.
  apply (IH s1); try done. eapply exec_inv; [done| |done|done].
  intros w. pose proof (Hb w). pose proof (run_sent _ _ _ w Hr). pose proof (exec_sent _ _ _ w E). lia.
Qed.
