(* ===== verification/TcpOpen.v ===== *)
(** * The TCP handshake and the stream theorem (theorems on kernel/net/tcp.c)

    [tcp_connect], the passive open of [tcp_input], and the two segments that
    complete the handshake bring two freshly allocated connections into the
    state from which the stream invariant of TcpSystem.v holds; from there on
    the byte streams are delivered in order and end-of-file is exact. *)

From stdpp Require Import base numbers list functions.
From S2P Require Import Prelude Net Tcp TcpStream TcpRecv TcpSystem.

(** ** The MSS option *)

Lemma parse_loop_S fuel seg h i :
  parse_loop (S fuel) seg h i =
  if i + 1 <? h then
    let kind := ld8 seg (Z.to_nat i) in
    if kind =? 0 then 0 else if kind =? 1 then parse_loop fuel seg h (i + 1)
    else let olen := ld8 seg (Z.to_nat (i + 1)) in
         if (olen <? 2) || (h <? i + olen) then 0
         else if (kind =? 2) && (olen =? 4)
              then Z.lor (Z.shiftl (ld8 seg (Z.to_nat (i + 2))) 8) (ld8 seg (Z.to_nat (i + 3)))
              else parse_loop fuel seg h (i + olen)
  else 0.
Proof. reflexivity. Qed.

Lemma parse_mss_build src sp dst dp sq ak fl win m data : 0 < m < W16 ->
  parse_mss (build_segment src sp dst dp sq ak fl win m data) 24 = m.
Proof.
  intros Hm. unfold build_segment. destruct (Z.eqb_spec m 0); [lia|]. unfold parse_mss.
  set (seg := seg_bytes _ _ _ _ _ _ _ _ _). change (Z.to_nat 24) with 24%nat. rewrite parse_loop_S. cbv zeta.
  change (20 + 1 <? 24) with true. cbv iota.
  change (ld8 seg (Z.to_nat 20)) with 2. change (ld8 seg (Z.to_nat (20 + 1))) with 4.
  change ((4 <? 2) || (24 <? 20 + 4)) with false. change ((2 =? 2) && (4 =? 4)) with true. cbn [Z.eqb Pos.eqb]. cbv iota.
  change (ld8 seg (Z.to_nat (20 + 2))) with (u8 (Z.shiftr m 8)).
  change (ld8 seg (Z.to_nat (20 + 3))) with (u8 (Z.land m 0xFF)).
  change 0xFF with (2 ^ 8 - 1). rewrite land_low by lia. rewrite Z.shiftr_div_pow2 by lia. change (2 ^ 8) with 256.
  unfold u8. rewrite lor_high by (unfold byte; dlia). dlia.
Qed.

(** ** The four steps *)

(** A connection whose SYN is out and acknowledged up to [una], with empty
    buffers. *)
Record opening (isn una : Z) (t : tcb) : Prop := Opening {
  op_iss : iss t = isn;
  op_una : snd_una t = una;
  op_nxt : snd_nxt t = u32 (isn + 1);
  op_len : snd_len t = 0;
  op_head : snd_head t = 0;
  op_fin : fin_sent t = 0;
  op_mss : 1 <= mss t <= TCP_MAX_MSS;
  op_rlen : rcv_len t = 0;
  op_rhead : rcv_head t = 0;
  op_frcv : fin_rcvd t = false;
  op_reasm : Forall (fun x => r_used x = false) (reasm t);
  op_txq : txq t = [];
}.

(** The segment [send_flags] stages on an empty queue. *)
Definition flag_segment (fl seq : Z) (t : tcb) : list Z :=
  build_segment (local_n t) (lport_n t) (remote_n t) (rport_n t) seq (rcv_nxt t) fl (advertised_window t)
                (if ctrue (Z.land fl TCP_SYN) then TCP_MAX_MSS else 0) [].

Lemma send_flags_eq fl sq t : txq t = [] -> 0 <= sq < W32 -> 0 <= rcv_nxt t < W32 ->
  send_flags fl sq t = t <| txq := [flag_segment fl sq t] |>.
Proof.
  intros Ht Hsq Hr. unfold send_flags, tx_queue. rewrite Ht. cbn [length Nat.leb]. cbv zeta. cbn [app].
  fold (flag_segment fl sq t). rewrite take_ge; [done|].
  destruct (build_segment_view (local_n t) (lport_n t) (remote_n t) (rport_n t) sq (rcv_nxt t) fl (advertised_window t)
    (if ctrue (Z.land fl TCP_SYN) then TCP_MAX_MSS else 0) []) as (_ & _ & _ & _ & H1 & H2); [done..|].
  fold (flag_segment fl sq t) in H1, H2. cbn [length] in H2. rewrite u16_small; lia.
Qed.

(** The fields a segment without data is built from. *)
Lemma flag_segment_ext fl sq t t' : local_n t' = local_n t -> lport_n t' = lport_n t -> remote_n t' = remote_n t ->
  rport_n t' = rport_n t -> rcv_nxt t' = rcv_nxt t -> rcv_len t' = rcv_len t -> mss t' = mss t ->
  flag_segment fl sq t' = flag_segment fl sq t.
Proof. intros E1 E2 E3 E4 E5 E6 E7. unfold flag_segment, advertised_window. by rewrite E1, E2, E3, E4, E5, E6, E7. Qed.

Lemma hdr_len_build src sp dst dp sq ak fl win m data : 0 <= sq < W32 -> 0 <= ak < W32 ->
  hdr_len (build_segment src sp dst dp sq ak fl win m data) = if m =? 0 then 20 else 24.
Proof.
  intros Hsq Hak. unfold build_segment. destruct (m =? 0).
  - by destruct (seg_bytes_view sp dp sq ak fl win (net_l4_checksum src dst 6 (seg_bytes sp dp sq ak fl win 0 [] data)) [] data)
      as (-> & _); auto.
  - by destruct (seg_bytes_view sp dp sq ak fl win (net_l4_checksum src dst 6
      (seg_bytes sp dp sq ak fl win 0 [2; 4; u8 (Z.shiftr m 8); u8 (Z.land m 0xFF)] data))
      [2; 4; u8 (Z.shiftr m 8); u8 (Z.land m 0xFF)] data) as (-> & _); auto.
Qed.

(** What a segment without data says, by the connection that staged it. *)
Lemma flag_segment_view fl sq t : 0 <= sq < W32 -> 0 <= rcv_nxt t < W32 ->
  seg_seq (flag_segment fl sq t) = sq /\ seg_ackno (flag_segment fl sq t) = rcv_nxt t /\
  seg_flags (flag_segment fl sq t) = fl /\ seg_payload (flag_segment fl sq t) = [] /\
  (ctrue (Z.land fl TCP_SYN) = true -> hdr_len (flag_segment fl sq t) = 24 /\ parse_mss (flag_segment fl sq t) 24 = TCP_MAX_MSS).
Proof.
  intros Hsq Hr. unfold flag_segment.
  destruct (build_segment_view (local_n t) (lport_n t) (remote_n t) (rport_n t) sq (rcv_nxt t) fl (advertised_window t)
    (if ctrue (Z.land fl TCP_SYN) then TCP_MAX_MSS else 0) []) as (V1 & V2 & V3 & V4 & _); [done..|].
  split_and!; try done. intros Hs. rewrite Hs. rewrite hdr_len_build by done. split; [done|]. by apply parse_mss_build.
Qed.

(** A staged segment without data or FIN carries nothing of the empty stream. *)
Lemma flag_segment_staged fl sq isn t u : 0 <= sq < W32 -> 0 <= rcv_nxt t < W32 -> byte fl ->
  ctrue (Z.land fl TCP_FIN) = false -> iss u = isn -> (sq = u32 (isn + 1 + -1) \/ sq = u32 (isn + 1 + 0)) ->
  local_n u = local_n t -> remote_n u = remote_n t -> staged [] u (flag_segment fl sq t).
Proof.
  intros Hsq Hr Hfl Hf Hu Hp Hl Hrm. destruct (flag_segment_view fl sq t Hsq Hr) as (V1 & V2 & V3 & V4 & _).
  split.
  - unfold carries. rewrite V1, V3, V4, Hu, Hf.
    destruct Hp as [Hp|Hp]; [exists (-1)|exists 0]; (split; [done|]); (split; [cbn [length]; lia|]); done.
  - rewrite Hl, Hrm. by apply build_segment_ok.
Qed.

(** The state from which both stream invariants hold with empty streams. *)
Lemma opened_inv isn t : opening isn (u32 (isn + 1)) t -> rcv_nxt t = u32 (irs t + 1) ->
  snd_inv [] t /\ rcv_inv [] [] t.
Proof.
  intros [H1 H2 H3 H4 H5 H6 H7 H8 H9 H10 H11 H12] Hr. split.
  - constructor; rewrite ?H5, ?H12; try done.
    + rewrite Hr. apply u32_range.
    + exists 0, 0. unfold snd_at. rewrite H1, H2, H3, H4, H5, H6, Z.add_0_r. by split_and!.
  - split.
    + exists 0. unfold rcv_at. rewrite H8, H9, H10, Hr. cbn [b2z]. rewrite !Z.add_0_r. by split_and!.
    + eapply Forall_impl; [|exact H11]. intros x Hx Hu. congruence.
Qed.

(** A connection ready to send its SYN, and one that has sent it. *)
Definition ready (isn : Z) (t : tcb) : Prop := opening isn isn (t <| snd_nxt := u32 (isn + 1) |>) /\ snd_nxt t = isn /\ 0 <= isn < W32.

Lemma send_syn_opening c fl isn t : ready isn t -> 0 <= rcv_nxt t < W32 ->
  let t' := send_syn c fl t in
  txq t' = [flag_segment fl isn t] /\ opening isn isn (t' <| txq := [] |>) /\ state t' = state t /\ irs t' = irs t /\
  rcv_nxt t' = rcv_nxt t /\ local_n t' = local_n t /\ remote_n t' = remote_n t /\ rcv_wnd t' = rcv_wnd t.
Proof.
  intros (Ho & Hx & Hi) Hr. cbv zeta. unfold send_syn, tcp_deadline_in. cbv beta iota zeta.
  rewrite (op_iss _ _ _ Ho : iss t = isn).
  rewrite send_flags_eq; [|apply (op_txq _ _ _ Ho)|done|done]. set (s := flag_segment fl isn t). clearbody s.
  destruct Ho as [O1 O2 O3 O4 O5 O6 O7 O8 O9 O10 O11 O12]. split_and!; try done. constructor; try done.
  change (u32 (snd_nxt t + 1) = u32 (isn + 1)). by rewrite Hx.
Qed.

Lemma fresh_reasm t : Forall (fun x => r_used x = false) (reasm (fresh t)).
Proof. apply Forall_fmap, Forall_true. done. Qed.

(** [tcp_connect] on a fresh connection bound to port [lp]. *)
Lemma connect_ready c ip dst dp isn lp t :
  exists u, tcp_connect c (Some ip) dst dp isn (fresh t <| lport_n := lp |>) = (0, send_syn c TCP_SYN u) /\
    ready (u32 isn) u /\ state u = TCP_SYN_SENT /\ local_n u = ip /\ remote_n u = dst /\ rcv_nxt u = 0.
Proof.
  unfold tcp_connect. change (negb (state (fresh t <| lport_n := lp |>) =s TCP_CLOSED)) with false. cbv iota zeta.
  unfold tcp_deadline_in. cbv beta iota zeta. eexists. split; [reflexivity|].
  split_and!; try reflexivity; [|apply u32_range..].
  split; [|split; [reflexivity|apply u32_range]]. constructor; try reflexivity; [by split; vm_compute|apply (fresh_reasm t)].
Qed.

Lemma passive_ready c l src dst isn seg t : hdr_len seg = 24 -> parse_mss seg 24 = TCP_MAX_MSS ->
  exists u, passive_open c l src dst isn seg (fresh t) = send_syn c (Z.lor TCP_SYN TCP_ACK) u /\
    ready (u32 isn) u /\ state u = TCP_SYN_RECEIVED /\ local_n u = dst /\ remote_n u = src /\
    irs u = seg_seq seg /\ rcv_nxt u = u32 (seg_seq seg + 1) /\ rcv_wnd u = TCP_RCVBUF.
Proof.
  intros Hh Hm. unfold passive_open, take_mss. fold (hdr_len seg). rewrite Hh, Hm. cbv iota zeta.
  change (TCP_MAX_MSS =? 0) with false. change (TCP_MAX_MSS <? TCP_MAX_MSS) with false. cbv iota.
  unfold tcp_deadline_in. cbv beta iota zeta. eexists. split; [reflexivity|]. split; [|by split_and!].
  split; [|split; [reflexivity|apply u32_range]]. constructor; try reflexivity; [by split; vm_compute|apply (fresh_reasm t)].
Qed.

Lemma seq_refl x : seq_ge x x = true /\ seq_le x x = true /\ seq_gt x x = false /\ seq_lt x x = false.
Proof. unfold seq_ge, seq_le, seq_gt, seq_lt. by rewrite Z.sub_diag. Qed.

Lemma opening_frame isn una t t' : snd_fields t' = snd_fields t -> rcv_fields t' = rcv_fields t ->
  opening isn una t -> opening isn una t'.
Proof.
  unfold snd_fields, rcv_fields. intros [= E1 E2 E3 E4 E5 E6 E7 E8 E9 E10 E11 E12] [= F1 F2 F3 F4 F5 F6 F7].
  intros [O1 O2 O3 O4 O5 O6 O7 O8 O9 O10 O11 O12]. constructor; congruence.
Qed.

Lemma set_state_state c s t : state (set_state c s t) = s.
Proof. unfold set_state, tcp_timer_kick, timer_request. cbv zeta. case_bool_decide; [done|]. ifs; reflexivity. Qed.

(** The end of the handshake keeps both streams. *)
Lemma establish_fields c t :
  snd_fields (establish c t) = snd_fields t /\ rcv_fields (establish c t) = rcv_fields t /\
  state (establish c t) = TCP_ESTABLISHED.
Proof.
  assert (E1 := proj1 (set_state_same c TCP_ESTABLISHED (cc_init t))).
  assert (E2 := set_state_rcv c TCP_ESTABLISHED (cc_init t)).
  assert (E3 := set_state_state c TCP_ESTABLISHED (cc_init t)).
  unfold establish. set (v := set_state _ _ _) in *. clearbody v.
  split_and!; [transitivity (snd_fields v); [reflexivity|]|transitivity (rcv_fields v); [reflexivity|]
    |transitivity (state v); [reflexivity|]].
  - rewrite E1. reflexivity.
  - rewrite E2. reflexivity.
  - exact E3.
Qed.

Lemma take_sample_state c t : state (take_sample c t) = state t.
Proof. unfold take_sample, rtt_sample. cbv zeta. destruct (srtt_8 t =? 0); reflexivity. Qed.

Lemma tcp_segment_syn_sent c i p seg t : state t = TCP_SYN_SENT -> ctrue (Z.land (seg_flags seg) TCP_RST) = false ->
  tcp_segment c i p seg t = (seg_syn_sent c seg (hdr_len seg) (seg_seq seg) (seg_ackno seg) (seg_flags seg) (ntohs_k (ld16 seg 14)) t, p).
Proof.
  intros Hs Hf. unfold tcp_segment. fold (hdr_len seg) (seg_seq seg) (seg_ackno seg) (seg_flags seg). cbv zeta.
  rewrite Hf, Hs. reflexivity.
Qed.

(** The connection the SYN|ACK leaves, before its acknowledgement is staged. *)
Definition synack_taken (seg : list Z) (w : Z) (t : tcb) : tcb :=
  take_mss seg (hdr_len seg)
    (t <| irs := seg_seq seg |> <| rcv_nxt := u32 (seg_seq seg + 1) |> <| snd_una := seg_ackno seg |> <| snd_wnd := w |>).

Lemma seg_syn_sent_synack c seg w t : seg_flags seg = Z.lor TCP_SYN TCP_ACK ->
  seg_ackno seg = u32 (iss t + 1) -> snd_nxt t = u32 (iss t + 1) ->
  seg_syn_sent c seg (hdr_len seg) (seg_seq seg) (seg_ackno seg) (seg_flags seg) w t =
  let u := establish c (synack_taken seg w t) in
  let u := if rtt_pending u then take_sample c u else u in wake (send_flags TCP_ACK (snd_nxt u) u).
Proof.
  intros Hf Ha Hn. unfold seg_syn_sent. rewrite Hf, Hn, Ha.
  change (ctrue _ && ctrue _) with true. cbv iota. destruct (seq_refl (u32 (iss t + 1))) as (-> & _ & -> & _).
  cbn [negb orb]. unfold synack_taken. rewrite Ha. reflexivity.
Qed.

Lemma synack_taken_opening seg w isn t : opening isn isn t -> hdr_len seg = 24 -> parse_mss seg 24 = TCP_MAX_MSS ->
  seg_ackno seg = u32 (isn + 1) ->
  let u := synack_taken seg w t in
  opening isn (u32 (isn + 1)) u /\ irs u = seg_seq seg /\ rcv_nxt u = u32 (seg_seq seg + 1) /\
  local_n u = local_n t /\ remote_n u = remote_n t.
Proof.
  intros [O1 O2 O3 O4 O5 O6 O7 O8 O9 O10 O11 O12] Hh Hm Ha. cbv zeta. unfold synack_taken, take_mss.
  rewrite Hh, Hm, Ha. change (TCP_MAX_MSS =? 0) with false. change (TCP_MAX_MSS <? TCP_MAX_MSS) with false. cbv iota zeta.
  split; [|by split_and!]. by constructor.
Qed.

(** The SYN|ACK reaches the client. *)
Lemma client_established c i p seg isn t :
  opening isn isn t -> state t = TCP_SYN_SENT -> hdr_len seg = 24 -> parse_mss seg 24 = TCP_MAX_MSS ->
  seg_flags seg = Z.lor TCP_SYN TCP_ACK -> seg_ackno seg = u32 (isn + 1) ->
  exists u, fst (tcp_segment c i p seg t) = wake (send_flags TCP_ACK (snd_nxt u) u) /\
    opening isn (u32 (isn + 1)) u /\ state u = TCP_ESTABLISHED /\ irs u = seg_seq seg /\ rcv_nxt u = u32 (seg_seq seg + 1) /\
    local_n u = local_n t /\ remote_n u = remote_n t.
Proof.
  intros Ho Hs Hh Hm Hfl Hak. rewrite tcp_segment_syn_sent by (rewrite ?Hfl; done). cbn [fst].
  set (w := ntohs_k _). clearbody w.
  rewrite seg_syn_sent_synack by (rewrite ?(op_iss _ _ _ Ho), ?(op_nxt _ _ _ Ho); done). cbv zeta.
  destruct (synack_taken_opening seg w isn t Ho Hh Hm Hak) as (H1 & E1 & E2 & E3 & E4).
  revert H1 E1 E2 E3 E4. generalize (synack_taken seg w t). intros t1 H1 E1 E2 E3 E4.
  destruct (establish_fields c t1) as (F1 & F2 & F3). revert F1 F2 F3. generalize (establish c t1). intros t2 F1 F2 F3.
  assert (G : forall t3, snd_fields t3 = snd_fields t2 -> rcv_fields t3 = rcv_fields t2 -> state t3 = state t2 ->
    opening isn (u32 (isn + 1)) t3 /\ state t3 = TCP_ESTABLISHED /\ irs t3 = seg_seq seg /\
    rcv_nxt t3 = u32 (seg_seq seg + 1) /\ local_n t3 = local_n t /\ remote_n t3 = remote_n t).
  { intros t3 G1 G2 G3. split; [by eapply opening_frame; [| |exact H1]; congruence|].
    unfold snd_fields, rcv_fields in *. split_and!; congruence. }
  destruct (rtt_pending t2).
  - exists (take_sample c t2). split; [reflexivity|]. apply G; [apply take_sample_same|apply take_sample_rcv|apply take_sample_state].
  - exists t2. split; [reflexivity|]. by apply G.
Qed.

Lemma tcp_segment_syn_received c i l seg t : state t = TCP_SYN_RECEIVED ->
  ctrue (Z.land (seg_flags seg) TCP_RST) = false -> acceptable (seg_seq seg) (len (seg_payload seg)) t = true ->
  ctrue (Z.land (seg_flags seg) TCP_ACK) = true ->
  seq_ge (seg_ackno seg) (snd_una t) && seq_le (seg_ackno seg) (snd_nxt t) = true ->
  len (accept_q l) < TCP_BACKLOG_MAX -> backlog l < 1 \/ TCP_BACKLOG_MAX < backlog l \/ len (accept_q l) < backlog l ->
  tcp_segment c i (Some l) seg t =
  (seg_body c seg (wake (establish c (t <| snd_una := seg_ackno seg |> <| snd_wnd := ntohs_k (window_n (header_of seg)) |>))),
   Some (wake (l <| accept_q := accept_q l ++ [i] |>))).
Proof.
  intros Hs Hf Ha Hk Hr Hq Hb. unfold tcp_segment.
  fold (hdr_len seg) (seg_seq seg) (seg_ackno seg) (seg_flags seg) (seg_payload seg). cbv zeta.
  rewrite Hf, Hs, Ha, Hk. change (negb (TCP_SYN_RECEIVED =s TCP_LISTEN) && negb true) with false.
  change (TCP_SYN_RECEIVED =s TCP_SYN_SENT) with false. cbn [negb]. cbv iota. unfold seg_syn_received. rewrite Hs, Hr.
  change (negb (TCP_SYN_RECEIVED =s TCP_SYN_RECEIVED)) with false. cbv iota zeta.
  assert (len (accept_q l) <? (if (backlog l <? 1) || (TCP_BACKLOG_MAX <? backlog l) then TCP_BACKLOG_MAX else backlog l) = true) as ->.
  { destruct (_ || _) eqn:E; zbool; lia. }
  generalize (establish c (t <| snd_una := seg_ackno seg |> <| snd_wnd := ntohs_k (window_n (header_of seg)) |>)). intros u.
  unfold seg_body. cbv zeta.
  generalize (seg_fin c (seg_seq seg) (len (seg_payload seg)) (seg_flags seg)
       (seg_data c (seg_seq seg) (seg_payload seg)
          (seg_window c (seg_seq seg) (seg_ackno seg) (ntohs_k (window_n (header_of seg)))
             (seg_ack c (seg_ackno seg) (len (seg_payload seg)) (wake u))))). intros v.
  destruct (seg_closing c v) as [[] v']; reflexivity.
Qed.

(** An acknowledgement of everything, with nothing to send: only the window moves. *)
Lemma seg_body_idle c seg isn t : opening isn (u32 (isn + 1)) t -> state t = TCP_ESTABLISHED ->
  seg_flags seg = TCP_ACK -> seg_payload seg = [] -> seg_ackno seg = u32 (isn + 1) ->
  exists u, seg_body c seg t = u /\ opening isn (u32 (isn + 1)) u /\ state u = TCP_ESTABLISHED /\
    irs u = irs t /\ rcv_nxt u = rcv_nxt t /\ local_n u = local_n t /\ remote_n u = remote_n t.
Proof.
  intros Ho Hs Hf Hp Ha. unfold seg_body. rewrite Hf, Hp, Ha. cbn [length]. cbv zeta.
  unfold seg_ack. rewrite (op_una _ _ _ Ho), (op_nxt _ _ _ Ho).
  destruct (seq_refl (u32 (isn + 1))) as (_ & _ & -> & _). rewrite Z.eqb_refl. cbn [negb andb]. rewrite !andb_false_r. cbv iota.
  set (w := ntohs_k _). clearbody w.
  assert (Hw : forall sq ak, let u := seg_window c sq ak w t in opening isn (u32 (isn + 1)) u /\ state u = TCP_ESTABLISHED /\
    irs u = irs t /\ rcv_nxt u = rcv_nxt t /\ local_n u = local_n t /\ remote_n u = remote_n t).
  { intros sq ak u. destruct (seg_window_same c sq ak w t) as [F1 _]. assert (F2 := seg_window_rcv c sq ak w t).
    assert (F3 : state (seg_window c sq ak w t) = state t) by (unfold seg_window, tcp_deadline_in, tcp_timer_kick, timer_request;
      cbv zeta; ifs; reflexivity).
    fold u in F1, F2, F3. clearbody u. split; [by eapply opening_frame|]. unfold snd_fields, rcv_fields in *. split_and!; congruence. }
  specialize (Hw (seg_seq seg) (u32 (isn + 1))). cbv zeta in Hw. revert Hw. generalize (seg_window c (seg_seq seg) (u32 (isn + 1)) w t).
  intros u Hu. exists u. split; [|exact Hu]. destruct Hu as (Hu & Hst & _).
  change (seg_fin c _ _ TCP_ACK (seg_data c _ [] u)) with u.
  assert (seg_closing c u = (true, u)) as -> by (unfold seg_closing; by rewrite Hst).
  unfold tcp_output. rewrite Hst. change (negb (can_output TCP_ESTABLISHED)) with false. cbv iota.
  destruct Hu as [U1 U2 U3 U4 U5 U6 U7 U8 U9 U10 U11 U12].
  set (wd := if _ <? _ then _ else _). cbn [output_loop]. unfold output_step. rewrite U12, U2, U3, U4, Z.sub_diag.
  cbn [length Nat.leb]. change (u32 0) with 0. cbv zeta. destruct (wd <=? 0).
  all: cbn [Z.leb Z.compare]; unfold output_fin; rewrite U6; reflexivity.
Qed.

(** The client's acknowledgement reaches the server. *)
Lemma server_established c i l seg isn t :
  opening isn isn t -> state t = TCP_SYN_RECEIVED -> 0 <= isn < W32 -> rcv_wnd t = TCP_RCVBUF -> 0 <= rcv_nxt t < W32 ->
  seg_flags seg = TCP_ACK -> seg_payload seg = [] -> seg_ackno seg = u32 (isn + 1) -> seg_seq seg = rcv_nxt t ->
  len (accept_q l) < TCP_BACKLOG_MAX -> backlog l < 1 \/ TCP_BACKLOG_MAX < backlog l \/ len (accept_q l) < backlog l ->
  exists u, tcp_segment c i (Some l) seg t = (u, Some (wake (l <| accept_q := accept_q l ++ [i] |>))) /\
    opening isn (u32 (isn + 1)) u /\ state u = TCP_ESTABLISHED /\
    irs u = irs t /\ rcv_nxt u = rcv_nxt t /\ local_n u = local_n t /\ remote_n u = remote_n t.
Proof.
  intros Ho Hs Hi Hw Hr Hf Hp Ha Hq Hl Hb. destruct Ho as [O1 O2 O3 O4 O5 O6 O7 O8 O9 O10 O11 O12].
  rewrite tcp_segment_syn_received; try done.
  2:{ by rewrite Hf. }
  2:{ rewrite Hq, Hp. unfold acceptable. rewrite Hw. cbn [length Z.of_nat Z.eqb]. change (TCP_RCVBUF =? 0) with false. cbv iota zeta.
      destruct (seq_refl (rcv_nxt t)) as (-> & _). cbn [andb].
      apply Z.ltb_lt. unfold i32, u32. dlia. }
  2:{ by rewrite Hf. }
  2:{ rewrite Ha, O2, O3. destruct (seq_refl (u32 (isn + 1))) as (_ & -> & _). rewrite andb_true_r.
      apply Z.leb_le. unfold i32, u32. dlia. }
  rewrite Ha. set (w := ntohs_k _). clearbody w.
  set (t1 := t <| snd_una := u32 (isn + 1) |> <| snd_wnd := w |>).
  assert (H1 : opening isn (u32 (isn + 1)) t1 /\ irs t1 = irs t /\ rcv_nxt t1 = rcv_nxt t /\ local_n t1 = local_n t /\ remote_n t1 = remote_n t)
    by (split; [by constructor|by split_and!]).
  clearbody t1. destruct H1 as (H1 & E1 & E2 & E3 & E4). destruct (establish_fields c t1) as (F1 & F2 & F3).
  revert F1 F2 F3. generalize (establish c t1). intros t2 F1 F2 F3.
  destruct (seg_body_idle c seg isn (wake t2)) as (u & -> & G1 & G2 & G3 & G4 & G5 & G6); try done.
  { eapply opening_frame; [| |exact H1]; [rewrite <- F1|rewrite <- F2]; reflexivity. }
  exists u. split; [reflexivity|]. split; [done|]. split; [done|].
  rewrite G3, G4, G5, G6. unfold wake, snd_fields, rcv_fields in *. fields. split_and!; congruence.
Qed.

(** ** The three-way handshake *)

(** One round of [tcp_tx_flush]. *)
Definition depart (t : tcb) : option (list Z * tcb) :=
  match txq t with b :: q => Some (b, t <| txq := q |>) | [] => None end.

(** The staged segment goes on to [k], through the checks of [tcp_input]. *)
Definition pass {A} (src dst : Z) (x : option (list Z * tcb)) (k : list Z -> tcb -> option A) : option A :=
  match x with Some (b, t) => if seg_ok src dst b then k b t else None | None => None end.

(** The client, in the slot [ta] with local port [lp], connects from [ipa] to
    port [dp] of [ipb]; the listener [l], slot [li], opens the connection in the
    slot [tb], number [i].  The result is the system of TcpSystem.v, the client
    as endpoint [false], and the listener. *)
Definition handshake (c1 c2 c3 c4 : clk) (ipa ipb lp dp isa isb : Z) (ta tb l : tcb) (li i : nat) : option (sys * tcb) :=
  pass ipa ipb (depart (snd (tcp_connect c1 (Some ipa) ipb dp isa (fresh ta <| lport_n := lp |>)))) (fun syn a =>
  pass ipb ipa (depart (passive_open c2 li ipa ipb isb syn (fresh tb))) (fun synack b =>
  pass ipa ipb (depart (fst (tcp_segment c3 0 None synack a))) (fun ack a =>
  match tcp_segment c4 i (Some l) ack b with
  | (b, Some l) => Some (Sys (fun w => if w then Ep b [] [] else Ep a [] [])
                             (fun w => if w then [synack] else [syn; ack]), l)
  | (_, None) => None
  end))).

(** The empty stream of a connection from [src] to [dst] with initial sequence number [isn] lets [b] through. *)
Definition harmless (isn src dst : Z) (b : list Z) : Prop :=
  seg_ok src dst b = true /\ forall v, iss v = isn -> local_n v = src -> remote_n v = dst -> staged [] v b.

Lemma flag_segment_harmless fl sq isn t : 0 <= sq < W32 -> 0 <= rcv_nxt t < W32 -> byte fl ->
  ctrue (Z.land fl TCP_FIN) = false -> (sq = u32 (isn + 1 + -1) \/ sq = u32 (isn + 1 + 0)) ->
  harmless isn (local_n t) (remote_n t) (flag_segment fl sq t).
Proof.
  intros Hsq Hr Hb Hf Hp. split; [by apply build_segment_ok|]. intros v H1 H2 H3. by eapply flag_segment_staged.
Qed.

Lemma pass_harmless {A} isn src dst b t (k : list Z -> tcb -> option A) : harmless isn src dst b ->
  pass src dst (Some (b, t)) k = k b t.
Proof. intros [H _]. unfold pass. by rewrite H. Qed.

Lemma client_syn c ip dst dp isn lp t :
  exists syn u, depart (snd (tcp_connect c (Some ip) dst dp isn (fresh t <| lport_n := lp |>))) = Some (syn, u) /\
    opening (u32 isn) (u32 isn) u /\ state u = TCP_SYN_SENT /\ local_n u = ip /\ remote_n u = dst /\
    seg_seq syn = u32 isn /\ hdr_len syn = 24 /\ parse_mss syn 24 = TCP_MAX_MSS /\ harmless (u32 isn) ip dst syn.
Proof.
  destruct (connect_ready c ip dst dp isn lp t) as (u & -> & Hr & Hs & Hl & Hd & Hn). cbn [snd].
  assert (Hrn : 0 <= rcv_nxt u < W32) by (rewrite Hn; lia). assert (Hsq := u32_range isn).
  destruct (send_syn_opening c TCP_SYN (u32 isn) u Hr Hrn) as (E1 & E2 & E3 & E4 & E5 & E6 & E7 & E8).
  unfold depart. rewrite E1. destruct (flag_segment_view TCP_SYN (u32 isn) u Hsq Hrn) as (V1 & _ & _ & _ & V5).
  destruct V5 as [V5 V6]; [done|]. eexists _, _. split; [reflexivity|]. revert E2 E3 E6 E7.
  generalize (send_syn c TCP_SYN u). intros u' E2 E3 E6 E7. split; [exact E2|]. fields. split_and!; try congruence.
  rewrite <- Hl, <- Hd. apply flag_segment_harmless; try done. left. unfold u32. dlia.
Qed.

Lemma server_synack c li src dst isn seg t : hdr_len seg = 24 -> parse_mss seg 24 = TCP_MAX_MSS ->
  exists synack u, depart (passive_open c li src dst isn seg (fresh t)) = Some (synack, u) /\
    opening (u32 isn) (u32 isn) u /\ state u = TCP_SYN_RECEIVED /\ local_n u = dst /\ remote_n u = src /\
    irs u = seg_seq seg /\ rcv_nxt u = u32 (seg_seq seg + 1) /\ rcv_wnd u = TCP_RCVBUF /\
    seg_seq synack = u32 isn /\ seg_ackno synack = u32 (seg_seq seg + 1) /\ seg_flags synack = Z.lor TCP_SYN TCP_ACK /\
    hdr_len synack = 24 /\ parse_mss synack 24 = TCP_MAX_MSS /\ harmless (u32 isn) dst src synack.
Proof.
  intros Hh Hm. destruct (passive_ready c li src dst isn seg t Hh Hm) as (u & -> & Hr & Hs & Hl & Hd & Hi & Hn & Hw).
  assert (Hrn : 0 <= rcv_nxt u < W32) by (rewrite Hn; apply u32_range). assert (Hsq := u32_range isn).
  destruct (send_syn_opening c (Z.lor TCP_SYN TCP_ACK) (u32 isn) u Hr Hrn) as (E1 & E2 & E3 & E4 & E5 & E6 & E7 & E8).
  unfold depart. rewrite E1.
  destruct (flag_segment_view (Z.lor TCP_SYN TCP_ACK) (u32 isn) u Hsq Hrn) as (V1 & V2 & V3 & _ & V5).
  destruct V5 as [V5 V6]; [done|]. eexists _, _. split; [reflexivity|]. revert E2 E3 E4 E5 E6 E7 E8.
  generalize (send_syn c (Z.lor TCP_SYN TCP_ACK) u). intros u' E2 E3 E4 E5 E6 E7 E8.
  split; [exact E2|]. fields. split_and!; try congruence.
  rewrite <- Hl, <- Hd. apply flag_segment_harmless; try done. left. unfold u32. dlia.
Qed.

Lemma client_ack c seg isn t :
  opening isn isn t -> state t = TCP_SYN_SENT -> hdr_len seg = 24 -> parse_mss seg 24 = TCP_MAX_MSS ->
  seg_flags seg = Z.lor TCP_SYN TCP_ACK -> seg_ackno seg = u32 (isn + 1) ->
  exists ack u, depart (fst (tcp_segment c 0 None seg t)) = Some (ack, u) /\
    opening isn (u32 (isn + 1)) u /\ state u = TCP_ESTABLISHED /\ irs u = seg_seq seg /\ rcv_nxt u = u32 (seg_seq seg + 1) /\
    local_n u = local_n t /\ remote_n u = remote_n t /\ seg_seq ack = u32 (isn + 1) /\ seg_ackno ack = u32 (seg_seq seg + 1) /\
    seg_flags ack = TCP_ACK /\ seg_payload ack = [] /\ harmless isn (local_n t) (remote_n t) ack.
Proof.
  intros Ho Hs Hh Hm Hf Ha.
  destruct (client_established c 0 None seg isn t) as (u & -> & Hu & Hst & Hi & Hn & Hl & Hd); try done.
  assert (Hrn : 0 <= rcv_nxt u < W32) by (rewrite Hn; apply u32_range). assert (Hsq := u32_range (isn + 1)).
  rewrite (op_nxt _ _ _ Hu). rewrite send_flags_eq by first [exact (op_txq _ _ _ Hu)|done].
  destruct (flag_segment_view TCP_ACK (u32 (isn + 1)) u Hsq Hrn) as (V1 & V2 & V3 & V4 & _).
  assert (V5 : harmless isn (local_n u) (remote_n u) (flag_segment TCP_ACK (u32 (isn + 1)) u)).
  { apply flag_segment_harmless; try done. right. by rewrite Z.add_0_r. }
  revert V1 V2 V3 V4 V5. generalize (flag_segment TCP_ACK (u32 (isn + 1)) u). intros ack V1 V2 V3 V4 V5.
  exists ack, (wake (u <| txq := [ack] |>) <| txq := [] |>). split; [reflexivity|].
  split; [destruct Hu; by constructor|]. unfold wake. fields. rewrite <- Hl, <- Hd. split_and!; congruence.
Qed.

(** Room in the listener's queue for one more connection. *)
Definition has_room (l : tcb) : Prop :=
  len (accept_q l) < TCP_BACKLOG_MAX /\ (backlog l < 1 \/ TCP_BACKLOG_MAX < backlog l \/ len (accept_q l) < backlog l).

(** The invariant of TcpSystem.v, from the four connection facts the steps of
    the handshake give. *)
Lemma opened_sys ia ib sa sb a b la lb :
  opening ia (u32 (ia + 1)) a -> opening ib (u32 (ib + 1)) b ->
  state a = TCP_ESTABLISHED -> state b = TCP_ESTABLISHED ->
  irs a = ib -> irs b = ia -> rcv_nxt a = u32 (ib + 1) -> rcv_nxt b = u32 (ia + 1) ->
  local_n a = sa -> remote_n a = sb -> local_n b = sb -> remote_n b = sa ->
  Forall (harmless ia sa sb) la -> Forall (harmless ib sb sa) lb ->
  inv (Sys (fun w => if w then Ep b [] [] else Ep a [] []) (fun w => if w then lb else la)).
Proof.
  intros Ha Hb Sa Sb Ia Ib Na Nb La Ra Lb Rb Fa Fb.
  destruct (opened_inv ia a Ha) as [A1 A2]; [congruence|]. destruct (opened_inv ib b Hb) as [B1 B2]; [congruence|].
  intros []; constructor; cbn [ends left tc sent read negb].
  - by rewrite Sb.
  - exact B1.
  - exact B2.
  - by rewrite (op_iss _ _ _ Ha).
  - eapply Forall_impl; [|exact Fb]. intros x [_ Hx]. apply Hx; [apply (op_iss _ _ _ Hb)|done..].
  - by rewrite (op_frcv _ _ _ Hb).
  - by rewrite Sa.
  - exact A1.
  - exact A2.
  - by rewrite (op_iss _ _ _ Hb).
  - eapply Forall_impl; [|exact Fa]. intros x [_ Hx]. apply Hx; [apply (op_iss _ _ _ Ha)|done..].
  - by rewrite (op_frcv _ _ _ Ha).
Qed.

Lemma handshake_opens c1 c2 c3 c4 ipa ipb lp dp isa isb ta tb l li i : has_room l ->
  exists a b sa sb, handshake c1 c2 c3 c4 ipa ipb lp dp isa isb ta tb l li i =
      Some (Sys (fun w => if w then Ep b [] [] else Ep a [] []) (fun w => if w then sb else sa),
            wake (l <| accept_q := accept_q l ++ [i] |>)) /\
    state a = TCP_ESTABLISHED /\ state b = TCP_ESTABLISHED /\
    inv (Sys (fun w => if w then Ep b [] [] else Ep a [] []) (fun w => if w then sb else sa)).
Proof.
  intros [Hq Hb]. unfold handshake.
  destruct (client_syn c1 ipa ipb dp isa lp ta) as (syn & a & -> & Oa & Sa & La & Ra & V1 & V2 & V3 & Gs).
  rewrite (pass_harmless _ _ _ _ _ _ Gs).
  destruct (server_synack c2 li ipa ipb isb syn tb V2 V3)
    as (synack & b & -> & Ob & Sb & Lb & Rb & Ib & Nb & Wb & W1 & W2 & W3 & W4 & W5 & Gy).
  rewrite (pass_harmless _ _ _ _ _ _ Gy). rewrite V1 in *.
  destruct (client_ack c3 synack (u32 isa) a Oa Sa W4 W5 W3 W2)
    as (ack & a' & -> & Oa' & Sa' & Ia' & Na' & La' & Ra' & X1 & X2 & X3 & X4 & Ga).
  rewrite La, Ra in *. rewrite (pass_harmless _ _ _ _ _ _ Ga). rewrite W1 in *.
  destruct (server_established c4 i l ack (u32 isb) b Ob Sb (u32_range isb) Wb) as (b' & -> & Ob' & Sb' & Ib' & Nb' & Lb' & Rb');
    [rewrite Nb; apply u32_range|done..|congruence|done|done|].
  exists a', b', [syn; ack], [synack]. split; [reflexivity|]. split; [done|]. split; [done|].
  apply (opened_sys (u32 isa) (u32 isb) ipa ipb); try done; try congruence; repeat (apply Forall_cons_2; [done|]); apply Forall_nil_2.
Qed.

(** when the listener has room, the three-way handshake between two slots of
    any prior contents opens: [tcp_connect] stages a SYN, the listener answers
    SYN|ACK in a new connection, the client's acknowledgement completes it; every
    segment passes the receiver's checks, both ends are ESTABLISHED, and the new
    connection is last in the accept queue. *)
Theorem handshake_ok c1 c2 c3 c4 ipa ipb lp dp isa isb ta tb l li i : has_room l ->
  exists s l', handshake c1 c2 c3 c4 ipa ipb lp dp isa isb ta tb l li i = Some (s, l') /\
    (forall w, state (tc (ends s w)) = TCP_ESTABLISHED) /\ accept_q l' = accept_q l ++ [i] /\
    iss (tc (ends s false)) = irs (tc (ends s true)) /\ iss (tc (ends s true)) = irs (tc (ends s false)).
Proof.
  intros Hr. destruct (handshake_opens c1 c2 c3 c4 ipa ipb lp dp isa isb ta tb l li i Hr) as (a & b & sa & sb & -> & Ha & Hb & Hi).
  eexists _, _. split; [reflexivity|]. split; [by intros []|]. split; [reflexivity|].
  split; symmetry; [apply (ei_isn _ _ (Hi true))|apply (ei_isn _ _ (Hi false))].
Qed.

(** C4: two endpoints past the handshake exchange byte streams reliably.
    Whatever the applications call, whenever the timers run, and however the
    network loses, repeats and reorders segments, what an application has read is
    a prefix of what the other side's application has sent; and when [tcp_recv]
    reports end-of-file on a connection that was not aborted, everything sent has been
    read.  Streams up to [STREAM_MAX] bytes. *)
Theorem tcp_stream c1 c2 c3 c4 ipa ipb lp dp isa isb ta tb l li i s0 l' es s :
  has_room l -> handshake c1 c2 c3 c4 ipa ipb lp dp isa isb ta tb l li i = Some (s0, l') ->
  Forall well_formed es -> run es s0 = Some s -> bounded s ->
  forall w, let t := tc (ends s w) in let peer := sent (ends s (negb w)) in
    read (ends s w) `prefix_of` peer /\
    (forall n pk t', 0 < n -> tcp_recv n pk t = (0, [], t') -> state t <> TCP_CLOSED -> shut_rd t = false ->
      read (ends s w) = peer).
Proof.
  intros Hr Hh Hw Hrun Hbd w. cbv zeta.
  destruct (handshake_opens c1 c2 c3 c4 ipa ipb lp dp isa isb ta tb l li i Hr) as (a & b & sa & sb & E & _ & _ & Hi).
  rewrite E in Hh. injection Hh as <- _. pose proof (tcp_run_inv _ _ _ Hw Hi Hrun Hbd w) as [_ _ [[r Hr'] _] _ _ _].
  destruct Hr' as (_ & Hrl & Hf & Hl & _ & Hstr). split.
  - exists (ring_get (rcvbuf (tc (ends s w))) (rcv_head (tc (ends s w))) (rcv_len (tc (ends s w))) ++
      drop (Z.to_nat r) (sent (ends s (negb w)))). by rewrite app_assoc, Hstr, take_drop.
  - intros n pk t' Hn. unfold tcp_recv. destruct (Z.eqb_spec (rcv_len (tc (ends s w))) 0) as [E0|E0]; cbn [negb].
    + destruct (reset _); [done|]. intros Ht Hst Hsh.
      assert (Hfin : fin_rcvd (tc (ends s w)) = true).
      { rewrite Hsh in Ht. assert (state (tc (ends s w)) =s TCP_CLOSED = false) as Hc by by apply bool_decide_eq_false.
        rewrite Hc in Ht. by destruct (fin_rcvd _). }
      rewrite E0 in Hstr. change (ring_get _ _ 0) with (@nil Z) in Hstr. rewrite app_nil_r in Hstr.
      rewrite Hstr, take_ge; [done|]. rewrite (Hf Hfin). lia.
    + intros Ht. exfalso. cbv zeta in Ht.
      assert (Hlen : ring_get (rcvbuf (tc (ends s w))) (rcv_head (tc (ends s w)))
        (if n <? rcv_len (tc (ends s w)) then n else rcv_len (tc (ends s w))) = []) by (destruct pk; congruence).
      apply (f_equal length) in Hlen. rewrite ring_get_length in Hlen. cbn [length] in Hlen. revert Hlen. destruct (Z.ltb_spec n (rcv_len (tc (ends s w)))); lia.
Qed.

(** A demonstration: the client says two bytes and closes; its data segment is
    delivered twice, and after its FIN. *)
Definition demo : list ev :=
  [Send false (Clk 10 10) [104; 105]; Flush false; Shutdown false (Clk 11 11); Flush false;
   Arrive true (Clk 12 12) 3; Recv true 16 false; Arrive true (Clk 13 13) 2; Arrive true (Clk 13 13) 2;
   Recv true 16 false; Arrive true (Clk 14 14) 3].

Abbreviation demo_open :=
  (handshake (Clk 1 1) (Clk 2 2) (Clk 3 3) (Clk 4 4) 16777343 16777343 40000 80 4294967290 7 tcb0 tcb0 (tcb0 <| backlog := 1 |>) 0 1).

Lemma handshake_ok_witness : has_room (tcb0 <| backlog := 1 |>) /\
  exists s l', demo_open = Some (s, l') /\ (forall w, state (tc (ends s w)) = TCP_ESTABLISHED) /\ accept_q l' = [1%nat].
Proof.
  assert (Hr : has_room (tcb0 <| backlog := 1 |>)) by (split; [done|right; right; done]). split; [exact Hr|].
  destruct (handshake_ok (Clk 1 1) (Clk 2 2) (Clk 3 3) (Clk 4 4) 16777343 16777343 40000 80 4294967290 7 tcb0 tcb0
    (tcb0 <| backlog := 1 |>) 0 1 Hr) as (s & l' & H1 & H2 & H3 & _).
  exists s, l'. split; [exact H1|]. split; [exact H2|]. rewrite H3. reflexivity.
Defined.

Lemma tcp_stream_witness :
  match demo_open with
  | Some (s0, _) =>
      match run demo s0 with
      | Some s => bounded s /\ fst (tcp_recv 5 false (tc (ends s true))) = (0, []) /\ read (ends s true) = sent (ends s false)
      | None => False
      end
  | None => False
  end.
Proof.
  assert (Hc : match demo_open with
    | Some (s0, _) =>
        match run demo s0 with
        | Some s => (len (sent (ends s true)) <=? 2) && (len (sent (ends s false)) <=? 2) && negb (state (tc (ends s true)) =s TCP_CLOSED)
                    && negb (shut_rd (tc (ends s true)))
                    && bool_decide (fst (tcp_recv 5 false (tc (ends s true))) = (0, [])) = true
        | None => False
        end
    | None => False
    end) by (vm_compute; reflexivity).
  destruct demo_open as [[s0 l']|] eqn:E; [|exact Hc]. destruct (run demo s0) as [s|] eqn:Er; [|exact Hc].
  apply andb_true_iff in Hc as [Hc H5]. apply andb_true_iff in Hc as [Hc H4]. apply andb_true_iff in Hc as [Hc H3].
  apply andb_true_iff in Hc as [H1 H2]. apply Z.leb_le in H1, H2.
  apply negb_true_iff in H3, H4. apply bool_decide_eq_true in H5. apply bool_decide_eq_false in H3.
  assert (Hb : bounded s) by (intros []; lia). split; [exact Hb|]. split; [exact H5|].
  destruct (tcp_recv 5 false (tc (ends s true))) as [[rc out] t'] eqn:Et. cbn [fst] in H5. injection H5 as -> ->.
  assert (Hr : has_room (tcb0 <| backlog := 1 |>)) by (split; [done|right; right; done]).
  assert (Hw : Forall well_formed demo).
  { repeat (apply Forall_cons_2; [first [exact I|cbn; lia|repeat (apply Forall_cons_2; [split; vm_compute; congruence|]); apply Forall_nil_2]|]).
    apply Forall_nil_2. }
  exact (proj2 (tcp_stream _ _ _ _ _ _ _ _ _ _ _ _ _ _ _ s0 l' demo s Hr E Hw Er Hb true) 5 false t' eq_refl Et H3 H4).
Defined.
