(* ===== verification/TcpFrame.v ===== *)
(** * What a TCP critical section leaves alone (lemmas on kernel/net/tcp.c)

    [timed] is what one critical section of a connection does to the table's
    bookkeeping: which deadlines it sets, which requests it makes of the one
    wheel timer, and that it changes neither the ownership of the slot nor the
    listener's queue.  One lemma per operation; TcpTable.v uses them. *)

From stdpp Require Import base numbers list functions.
From S2P Require Import Prelude Net Tcp TcpStream TcpRecv TcpSystem TcpOpen.

(** ** What a critical section does to deadlines and slots *)

Definition deadlines (t : tcb) : list Z :=
  [rto_deadline t; delack_deadline t; persist_deadline t; timewait_deadline t; establish_deadline t].

Definition rto_ok (t : tcb) : Prop := 0 <= rto_ticks t <= TCP_RTO_MAX_TICKS.

Definition reclaimable (t : tcb) : bool := sock_gone t && (state t =s TCP_CLOSED) && negb (reclaimed t).

(** Both counters are far from their end. *)
Definition clk_ok (c : clk) : Prop := 0 <= ticks c < 2 ^ 56 /\ 0 <= jiffies c < 2 ^ 60.

(** The requests [new] serve every deadline of [t'] that [t] did not have, and
    a slot that became reclaimable. *)
Definition served (c : clk) (new : list Z) (t' t : tcb) : Prop :=
  (forall k d, deadlines t' !! k = Some d ->
     d = 0 \/ deadlines t !! k = Some d \/ (0 <= d < 2 ^ 57 /\ d * TCP_TICK_JIFFIES ∈ new)) /\
  (reclaimable t' = true -> reclaimable t = true \/ exists j, j ∈ new).

(** The staged segments fit the queue. *)
Definition txq_fits (t : tcb) : bool := (length (txq t) <=? 8)%nat.

Definition slot_fields (t : tcb) := (in_use t, sock_gone t, reclaimed t, accept_q t, parent t, backlog t, txq_fits t).

(** With [keep] set, a CLOSED connection stays CLOSED. *)
Record timed (keep : bool) (c : clk) (t' t : tcb) : Prop := Timed {
  ti_slot : slot_fields t' = slot_fields t;
  ti_closed : keep = true -> state t = TCP_CLOSED -> state t' = TCP_CLOSED;
  ti_rto : rto_ok t -> rto_ok t';
  ti_arms : exists new, arms t' = arms t ++ new /\ (rto_ok t -> served c new t' t);
}.

(** The deadlines of the new state, one by one. *)
Ltac dl_cases := let k := fresh in let d := fresh in let H := fresh in intros k d H; unfold deadlines in *; fields_in H;
  do 5 (destruct k as [|k];
        [cbn [lookup list_lookup] in H |- *; injection H as <-; first [by left|by right; left|by right; right|by right]|]);
  destruct k; discriminate H.

Section timed.
Context (c : clk) (Hc : clk_ok c).

Lemma served_refl t : served c [] t t.
Proof. split; [|by left]. intros k d Hd. by right; left. Qed.

Lemma timed_trans k t1 t2 t3 : timed k c t1 t2 -> timed k c t2 t3 -> timed k c t1 t3.
Proof.
  intros [A1 A2 A3 (n1 & A4 & A5)] [B1 B2 B3 (n2 & B4 & B5)]. constructor; [congruence|auto..|].
  exists (n2 ++ n1). rewrite A4, B4, app_assoc. split; [done|]. intros Hr.
  destruct (A5 (B3 Hr)) as [P1 P2]. destruct (B5 Hr) as [Q1 Q2]. split.
  - intros i d Hd. destruct (P1 i d Hd) as [?|[H|[H1 H2]]]; [by left| |right; right; rewrite elem_of_app; auto].
    destruct (Q1 i d H) as [?|[?|[H1 H2]]]; [by left|by right; left|right; right; rewrite elem_of_app; auto].
  - intros H. destruct (P2 H) as [H1|(j & H1)]; [|right; exists j; rewrite elem_of_app; auto].
    destruct (Q2 H1) as [?|(j & ?)]; [by left|right; exists j; rewrite elem_of_app; auto].
Qed.

Lemma timed_weaken k t' t : timed true c t' t -> timed k c t' t.
Proof. intros [A1 A2 A3 A4]. constructor; auto. Qed.

(** The bookkeeping fields, and the common case that none of them changes. *)
Definition book (t : tcb) := (slot_fields t, state t, rto_ticks t, arms t, deadlines t).

Lemma book_timed k t' t : book t' = book t -> timed k c t' t.
Proof.
  unfold book. intros [= E1 E2 E3 E4 E5 E6 E0 E7 E8 E9 E10 E11 E12 E13 E14].
  constructor; [unfold slot_fields; congruence|congruence|unfold rto_ok; by rewrite E8|].
  exists []. rewrite app_nil_r. split; [done|]. intros _. unfold served, deadlines, reclaimable.
  rewrite E10, E11, E12, E13, E14, E7, E2, E3. apply served_refl.
Qed.

Lemma timed_refl k t : timed k c t t.
Proof. by apply book_timed. Qed.

Lemma reclaimable_ext t' t : slot_fields t' = slot_fields t -> state t' = state t -> reclaimable t' = reclaimable t.
Proof. unfold slot_fields, reclaimable. intros [= E1 E2 E3 _ _ _ _] E4. by rewrite E2, E3, E4. Qed.

(** Some deadlines are cleared. *)
Lemma clear_timed k t' t : slot_fields t' = slot_fields t -> state t' = state t -> rto_ticks t' = rto_ticks t ->
  arms t' = arms t -> (forall i d, deadlines t' !! i = Some d -> d = 0 \/ deadlines t !! i = Some d) -> timed k c t' t.
Proof.
  intros E1 E2 E3 E4 Hd. constructor; [done|congruence|unfold rto_ok; by rewrite E3|].
  exists []. rewrite app_nil_r. split; [done|]. intros _. split.
  - intros i d H. destruct (Hd i d H); [by left|by right; left].
  - rewrite (reclaimable_ext t' t) by done. by left.
Qed.

(** A deadline [n] ticks from now is set through [tcp_deadline_in]. *)
Lemma deadline_timed k n t t' : (rto_ok t -> 0 <= n <= TCP_RTO_MAX_TICKS) ->
  slot_fields t' = slot_fields t -> state t' = state t -> rto_ticks t' = rto_ticks t ->
  arms t' = arms (snd (tcp_deadline_in c n t)) ->
  (forall i d, deadlines t' !! i = Some d -> d = fst (tcp_deadline_in c n t) \/ d = 0 \/ deadlines t !! i = Some d) -> timed k c t' t.
Proof.
  intros Hn E1 E2 E3 E4 Hd. constructor; [done|congruence|unfold rto_ok; by rewrite E3|].
  exists [u64 (u64 (ticks c + n) * TCP_TICK_JIFFIES)]. split; [done|]. intros Hr. specialize (Hn Hr). destruct Hc as [Hc1 _].
  assert (0 <= ticks c + n < 2 ^ 57) by lia.
  assert (Eu : u64 (ticks c + n) = ticks c + n) by (apply u64_small; lia). split.
  - intros i d Hin. destruct (Hd i d Hin) as [->|[?|?]]; [|by left|by right; left]. right; right. cbn [fst tcp_deadline_in].
    cbv zeta. rewrite Eu. split; [done|]. rewrite u64_small by lia. by apply list_elem_of_singleton.
  - rewrite (reclaimable_ext t' t) by done. by left.
Qed.

(** Neither the bookkeeping fields nor the deadlines are touched. *)
Ltac booked := apply book_timed; reflexivity.

Lemma tx_queue_book sq ak fl w m d t : book (tx_queue sq ak fl w m d t) = book t.
Proof.
  unfold tx_queue. destruct (Nat.leb_spec 8 (length (txq t))); [done|]. cbv zeta.
  assert (E : txq_fits (t <| txq := txq t ++ [take (Z.to_nat (u16 (len (build_segment (local_n t) (lport_n t) (remote_n t) (rport_n t) sq ak fl w m d))))
    (build_segment (local_n t) (lport_n t) (remote_n t) (rport_n t) sq ak fl w m d)] |>) = txq_fits t).
  { unfold txq_fits. fields. rewrite length_app. cbn [length]. transitivity true; [|symmetry]; apply Nat.leb_le; lia. }
  unfold book, slot_fields. rewrite E. reflexivity.
Qed.

Lemma send_flags_book fl sq t : book (send_flags fl sq t) = book t.
Proof. unfold send_flags. apply tx_queue_book. Qed.

Lemma retransmit_book t : book (retransmit t) = book t.
Proof.
  unfold retransmit. cbv zeta. set (k := if _ && _ then _ else _). clearbody k. destruct (k =? 0).
  - destruct (fin_sent t =? 2); [apply send_flags_book|done].
  - rewrite tx_queue_book. reflexivity.
Qed.

Lemma arm_rto_timed k t : timed k c (arm_rto c t) t.
Proof.
  unfold arm_rto. destruct (_ =? 0); [|apply timed_refl].
  apply (deadline_timed k (rto_ticks t)); try reflexivity; [unfold rto_ok; lia|dl_cases].
Qed.

Lemma output_step_timed k w t t' : output_step c w t = Some t' -> timed k c t' t.
Proof.
  unfold output_step. destruct (7 <=? _)%nat; [done|]. cbv zeta. destruct (w <=? _); [done|].
  destruct (snd_len t <=? _); [done|]. destruct (negb (nodelay t) && _ && _); [done|].
  intros [= <-]. set (t1 := tx_queue _ _ _ _ _ _ t).
  apply (timed_trans k _ t1); [|apply book_timed, tx_queue_book]. clearbody t1.
  match goal with |- timed k c (arm_rto c ?u <| delack_deadline := 0 |>) _ => apply (timed_trans k _ (arm_rto c u));
    [generalize (arm_rto c u); intros v; apply clear_timed; try reflexivity; dl_cases|];
    apply (timed_trans k _ u); [apply arm_rto_timed|] end.
  destruct (rtt_pending t1); booked.
Qed.

Lemma tcp_output_timed k t : timed k c (tcp_output c t) t.
Proof.
  unfold tcp_output. destruct (negb _); [apply timed_refl|]. set (w := if _ <? _ then _ else _). clearbody w.
  apply (timed_trans k _ (output_loop 8 c w t)).
  - generalize (output_loop 8 c w t). intros t1. unfold output_fin. destruct (_ && _); [|apply timed_refl]. cbv zeta.
    eapply timed_trans; [apply arm_rto_timed|].
    apply (timed_trans k _ (send_flags (Z.lor TCP_FIN TCP_ACK) (snd_nxt t1) t1)); [booked|apply book_timed, send_flags_book].
  - generalize 8%nat. intros fuel. revert t. induction fuel as [|fuel IH]; intros t; cbn [output_loop]; [apply timed_refl|].
    destruct (output_step c w t) as [t'|] eqn:E; [|apply timed_refl].
    eapply timed_trans; [apply IH|by eapply output_step_timed].
Qed.

Lemma rtt_sample_timed k m t : timed k c (rtt_sample m t) t.
Proof.
  unfold rtt_sample. cbv zeta. set (t1 := if srtt_8 t =? 0 then _ else _).
  apply (timed_trans k _ t1); [|subst t1; destruct (srtt_8 t =? 0); booked]. clearbody t1.
  set (r := _ / 8). clearbody r. constructor; [reflexivity|done|intros _; unfold rto_ok; fields; zcases; lia|].
  exists []. rewrite app_nil_r. split; [reflexivity|]. intros _. apply (served_refl t1).
Qed.

Lemma take_sample_timed k t : timed k c (take_sample c t) t.
Proof.
  unfold take_sample. eapply timed_trans; [|apply (rtt_sample_timed k (u64 (ticks c - rtt_at t)) t)].
  generalize (rtt_sample (u64 (ticks c - rtt_at t)) t). intros u. booked.
Qed.

Lemma seg_ack_timed k ak dl t : timed k c (seg_ack c ak dl t) t.
Proof.
  unfold seg_ack. destruct (_ && seq_le _ _); [|destruct ((ak =? _) && _ && _); [|apply timed_refl]].
  - cbv zeta. set (d := if (fin_sent t =? 2) && _ then _ else _). clearbody d.
    set (t2 := t <| snd_una := ak |> <| snd_head := _ |> <| snd_len := _ |> <| retries := 0 |> <| dupacks := 0 |> <| persist_shift := 0 |>).
    apply (timed_trans k _ t2); [|booked]. clearbody t2.
    set (t3 := if rtt_pending t2 && _ then _ else t2). apply (timed_trans k _ t3).
    2:{ subst t3. destruct (_ && _); [apply take_sample_timed|apply timed_refl]. }
    clearbody t3. set (t4 := cc_on_ack _ t3). apply (timed_trans k _ t4).
    2:{ subst t4. apply book_timed. unfold cc_on_ack. cbv zeta. ifs; reflexivity. }
    clearbody t4. destruct (snd_una t4 =? snd_nxt t4).
    + apply clear_timed; try reflexivity; dl_cases.
    + apply (deadline_timed k (rto_ticks t4)); try reflexivity; [unfold rto_ok; lia|dl_cases].
  - unfold cc_on_dupack. cbv zeta. set (t1 := t <| dupacks := _ |>). apply (timed_trans k _ t1); [|booked].
    clearbody t1. destruct (in_recovery t1); [booked|]. destruct (dupacks t1 =? 3); [|apply timed_refl].
    apply book_timed. rewrite retransmit_book. reflexivity.
Qed.

Lemma seg_window_timed k sq ak w t : timed k c (seg_window c sq ak w t) t.
Proof.
  unfold seg_window. destruct (_ || _); [|apply timed_refl]. cbv zeta.
  set (t1 := t <| snd_wnd := w |> <| snd_wl1 := sq |> <| snd_wl2 := ak |>). apply (timed_trans k _ t1); [|booked]. clearbody t1.
  destruct (_ && _); [|destruct (negb _)].
  - apply (deadline_timed k (rto_ticks t1)); try reflexivity; [unfold rto_ok; lia|dl_cases].
  - apply clear_timed; try reflexivity; dl_cases.
  - apply timed_refl.
Qed.

Lemma drain_book t : book (drain_reasm t) = book t.
Proof.
  apply (drain_ind (fun u => book u = book t)); [|done]. intros u b i <-. unfold drain_slot.
  destruct (reasm u !! i) as [r|]; [|done]. destruct (negb _); [done|].
  destruct (_ && _); [|destruct (seq_le _ (rcv_nxt u))]; reflexivity.
Qed.

Lemma queue_reasm_book sq d t : book (queue_reasm sq d t) = book t.
Proof. unfold queue_reasm. destruct (existsb _ _); [done|]. by destruct (list_find _ _) as [[i y]|]. Qed.

Lemma seg_data_timed k sq d t : timed k c (seg_data c sq d t) t.
Proof.
  unfold seg_data. destruct d as [|x d]; [apply timed_refl|]. destruct (_ =? _).
  - cbv zeta. apply (timed_trans k _ (drain_reasm (deliver (x :: d) t))).
    + generalize (drain_reasm (deliver (x :: d) t)). intros t1. destruct (_ =? 0).
      * apply (deadline_timed k TCP_DELACK_TICKS); try reflexivity; [lia|dl_cases].
      * set (t2 := t1 <| delack_deadline := 0 |>). apply (timed_trans k _ t2).
        2:{ apply clear_timed; try reflexivity; dl_cases. }
        clearbody t2. apply (timed_trans k _ (send_flags TCP_ACK (snd_nxt t1) t2)); [booked|apply book_timed, send_flags_book].
    + apply book_timed. rewrite drain_book. reflexivity.
  - apply book_timed. destruct (seq_gt _ _); cbv zeta; rewrite send_flags_book; [apply queue_reasm_book|done].
Qed.

(** [set_state]: only a connection that leaves CLOSED is not [keep]t, and the
    move to CLOSED asks for the next jiffy. *)
Lemma set_state_timed k s t : (k = true -> s = TCP_CLOSED \/ state t <> TCP_CLOSED) -> timed k c (set_state c s t) t.
Proof.
  intros Hs. unfold set_state. cbv zeta. case_bool_decide; [apply timed_refl|].
  set (t1 := t <| state := s |>). set (t2 := if (_ <? _)%nat then _ else t1).
  assert (H2 : slot_fields t2 = slot_fields t /\ state t2 = s /\ rto_ticks t2 = rto_ticks t /\ arms t2 = arms t /\
    deadlines t2 = deadlines t) by (subst t2 t1; by destruct (_ <? _)%nat).
  clearbody t2. clear t1. destruct H2 as (E1 & E2 & E3 & E4 & E5).
  case_bool_decide as Hcl; (constructor; [exact E1| |unfold rto_ok; cbn; by rewrite E3|]).
  - intros _ _. transitivity (state t2); [reflexivity|congruence].
  - exists [u64 (jiffies c + 1)]. split; [transitivity (arms t2 ++ [u64 (jiffies c + 1)]); [reflexivity|by rewrite E4]|].
    intros _. split; [|intros _; right; exists (u64 (jiffies c + 1)); by apply list_elem_of_singleton].
    intros i d Hd. right; left. rewrite <- E5. exact Hd.
  - intros Hk Ht. destruct (Hs Hk); congruence.
  - exists []. rewrite app_nil_r. split; [done|]. intros _. split; [intros i d Hd; right; left; by rewrite <- E5|].
    unfold reclaimable. rewrite E2. destruct (decide (s = TCP_CLOSED)) as [?|Hn]; [done|].
    rewrite (bool_decide_eq_false_2 _ Hn), andb_false_r. done.
Qed.

Lemma enter_closed_timed k e t : timed k c (enter_closed c e t) t.
Proof.
  unfold enter_closed. cbv zeta. eapply timed_trans; [|apply (set_state_timed k TCP_CLOSED); by left].
  generalize (set_state c TCP_CLOSED t). intros u. apply clear_timed; try reflexivity; dl_cases.
Qed.

Lemma enter_time_wait_timed k t : state t <> TCP_CLOSED -> timed k c (enter_time_wait c t) t.
Proof.
  intros Hs. unfold enter_time_wait. cbv zeta. eapply timed_trans; [|apply (set_state_timed k TCP_TIME_WAIT); by right].
  generalize (set_state c TCP_TIME_WAIT t). intros u.
  apply (deadline_timed k TCP_TIMEWAIT_TICKS); try reflexivity; [lia|dl_cases].
Qed.

Lemma seg_fin_timed k sq dl fl t : timed k c (seg_fin c sq dl fl t) t.
Proof.
  unfold seg_fin. destruct (_ && _); [|apply timed_refl]. cbv zeta.
  set (t1 := t <| fin_rcvd := true |> <| rcv_nxt := _ |>). apply (timed_trans k _ t1); [|booked]. clearbody t1.
  set (t2 := send_flags _ _ t1). apply (timed_trans k _ t2); [|apply book_timed, send_flags_book]. clearbody t2.
  match goal with |- timed k c (wake ?u) _ => apply (timed_trans k _ u); [generalize u; intros v; booked|] end.
  destruct (state t2) eqn:E; first [apply timed_refl|apply set_state_timed; right; congruence|apply enter_time_wait_timed; congruence].
Qed.

Lemma seg_closing_timed k t : timed k c (snd (seg_closing c t)) t.
Proof.
  unfold seg_closing. cbv zeta. destruct (_ && _ && _) eqn:E1; cbn [snd].
  { apply andb_prop in E1 as [E1 _]. apply andb_prop in E1 as [E1 _]. apply bool_decide_eq_true in E1.
    destruct (fin_rcvd t); [apply enter_time_wait_timed; congruence|apply set_state_timed; right; congruence]. }
  clear E1. destruct ((state t =s TCP_CLOSING) && _) eqn:E2; cbn [snd].
  { apply andb_prop in E2 as [E2 _]. apply bool_decide_eq_true in E2. apply enter_time_wait_timed. congruence. }
  destruct ((state t =s TCP_LAST_ACK) && _); cbn [snd]; [apply enter_closed_timed|apply timed_refl].
Qed.

Lemma seg_body_timed k seg t : timed k c (seg_body c seg t) t.
Proof.
  unfold seg_body. cbv zeta. set (t1 := seg_ack _ _ _ t). apply (timed_trans k _ t1); [|apply seg_ack_timed]. clearbody t1.
  set (t2 := seg_window _ _ _ _ t1). apply (timed_trans k _ t2); [|apply seg_window_timed]. clearbody t2.
  set (t3 := seg_data _ _ _ t2). apply (timed_trans k _ t3); [|apply seg_data_timed]. clearbody t3.
  set (t4 := seg_fin _ _ _ _ t3). apply (timed_trans k _ t4); [|apply seg_fin_timed]. clearbody t4.
  pose proof (seg_closing_timed k t4) as H. destruct (seg_closing c t4) as [[] t5]; cbn [snd] in H; [|done].
  eapply timed_trans; [apply tcp_output_timed|exact H].
Qed.

Lemma establish_timed k t : state t <> TCP_CLOSED -> timed k c (establish c t) t.
Proof.
  intros Hs. unfold establish. apply (timed_trans k _ (set_state c TCP_ESTABLISHED (cc_init t))).
  - generalize (set_state c TCP_ESTABLISHED (cc_init t)). intros u. apply clear_timed; try reflexivity; dl_cases.
  - eapply timed_trans; [apply set_state_timed; by right|booked].
Qed.

Lemma take_mss_book seg h t : book (take_mss seg h t) = book t.
Proof. unfold take_mss. cbv zeta. by destruct (_ =? 0). Qed.

Lemma seg_syn_sent_timed k seg h sq ak fl w t : state t = TCP_SYN_SENT -> timed k c (seg_syn_sent c seg h sq ak fl w t) t.
Proof.
  intros Hs. unfold seg_syn_sent. destruct (_ && _); [destruct (_ || _); [apply timed_refl|]|destruct (ctrue _); [|apply timed_refl]].
  - cbv zeta. set (t1 := t <| irs := sq |> <| rcv_nxt := _ |> <| snd_una := ak |> <| snd_wnd := w |>).
    assert (S1 : state t1 = TCP_SYN_SENT) by exact Hs. apply (timed_trans k _ t1); [|booked]. clearbody t1.
    apply (timed_trans k _ (take_mss seg h t1)); [|apply book_timed, take_mss_book].
    assert (S2 : state (take_mss seg h t1) = TCP_SYN_SENT) by (unfold take_mss; cbv zeta; by destruct (_ =? 0)).
    revert S2. generalize (take_mss seg h t1). intros t2 S2.
    apply (timed_trans k _ (establish c t2)); [|apply establish_timed; congruence]. generalize (establish c t2). intros t3.
    set (t4 := if rtt_pending t3 then _ else _).
    apply (timed_trans k _ t4); [|subst t4; destruct (rtt_pending t3); [apply take_sample_timed|apply timed_refl]]. clearbody t4.
    apply book_timed. rewrite <- (send_flags_book TCP_ACK (snd_nxt t4) t4). generalize (send_flags TCP_ACK (snd_nxt t4) t4). reflexivity.
  - cbv zeta. set (t1 := t <| irs := sq |> <| rcv_nxt := _ |>). assert (S1 : state t1 = TCP_SYN_SENT) by exact Hs.
    apply (timed_trans k _ t1); [|booked]. clearbody t1.
    apply (timed_trans k _ (set_state c TCP_SYN_RECEIVED t1)); [|apply set_state_timed; right; congruence].
    apply book_timed, send_flags_book.
Qed.

Lemma seg_syn_received_timed k i p ak w t : timed k c (snd (fst (seg_syn_received c i p ak w t))) t.
Proof.
  unfold seg_syn_received. destruct (negb _) eqn:E; [apply timed_refl|]. apply negb_false_iff, bool_decide_eq_true in E.
  destruct (_ && _); [|apply book_timed, tx_queue_book].
  cbv zeta. set (t1 := t <| snd_una := ak |> <| snd_wnd := w |>). assert (S1 : state t1 = TCP_SYN_RECEIVED) by exact E.
  assert (H : timed k c (establish c t1) t).
  { apply (timed_trans k _ t1); [apply establish_timed; congruence|booked]. }
  revert H. generalize (establish c t1). intros t2 H. clear t1 S1.
  assert (Hw : timed k c (wake t2) t) by (eapply timed_trans; [|exact H]; booked).
  destruct p as [l|]; [|exact Hw]. destruct (_ <? _); [exact Hw|].
  eapply timed_trans; [apply set_state_timed; by left|]. eapply timed_trans; [apply book_timed, tx_queue_book|exact H].
Qed.

Lemma tcp_segment_timed k i p seg t : timed k c (fst (tcp_segment c i p seg t)) t.
Proof.
  unfold tcp_segment. fold (hdr_len seg) (seg_seq seg) (seg_ackno seg) (seg_flags seg) (seg_payload seg). cbv zeta.
  destruct (ctrue _).
  { cbn [fst]. eapply timed_trans; [apply enter_closed_timed|]. booked. }
  destruct (state t =s TCP_SYN_SENT) eqn:E; [apply bool_decide_eq_true in E; cbn [fst]; by apply seg_syn_sent_timed|].
  destruct (negb (_ =s _) && _); [apply book_timed, send_flags_book|]. destruct (negb _); [apply timed_refl|].
  pose proof (seg_syn_received_timed k i p (seg_ackno seg) (ntohs_k (window_n (header_of seg))) t) as H.
  destruct (seg_syn_received _ _ _ _ _ _) as [[[] t1] p1]; cbn [fst snd] in H; [|exact H].
  pose proof (seg_body_timed k seg t1) as Hb. unfold seg_body in Hb. cbv zeta in Hb.
  destruct (seg_closing c _) as [[] t2]; cbn [fst]; (eapply timed_trans; [exact Hb|exact H]).
Qed.

Lemma tcp_send_timed k d t : timed k c (snd (tcp_send c d t)) t.
Proof.
  unfold tcp_send. destruct (reset t); [apply timed_refl|]. destruct (shut_wr t); [apply timed_refl|].
  destruct (negb _ && negb _); [apply timed_refl|]. cbv zeta. cbn [snd]. eapply timed_trans; [apply tcp_output_timed|]. booked.
Qed.

Lemma tcp_recv_timed k n pk t : timed k c (snd (tcp_recv n pk t)) t.
Proof.
  unfold tcp_recv. destruct (negb _).
  - destruct pk; [apply timed_refl|]. cbv zeta. cbn [snd]. set (t1 := t <| rcv_head := _ |> <| rcv_len := _ |>).
    apply (timed_trans k _ t1); [|booked]. clearbody t1. destruct (ctrue _); [apply book_timed, send_flags_book|apply timed_refl].
  - destruct (reset t); [apply timed_refl|]. destruct (_ || _); apply timed_refl.
Qed.

Lemma tcp_shutdown_timed k t : timed k c (tcp_shutdown_write c t) t.
Proof.
  unfold tcp_shutdown_write. destruct (shut_wr t || _); [apply timed_refl|]. cbv zeta.
  eapply timed_trans; [apply tcp_output_timed|]. set (t1 := t <| shut_wr := true |> <| fin_sent := 1 |>).
  apply (timed_trans k _ t1); [|booked]. clearbody t1.
  destruct (state t1) eqn:E; first [apply timed_refl|apply set_state_timed; right; congruence].
Qed.

Lemma send_syn_timed k fl t : timed k c (send_syn c fl t) t.
Proof.
  unfold send_syn. cbv zeta. apply (timed_trans k _ (send_flags fl (iss t) t)); [|apply book_timed, send_flags_book].
  generalize (send_flags fl (iss t) t). intros t1.
  apply (deadline_timed k (rto_ticks t1)); try reflexivity; [unfold rto_ok; lia|dl_cases].
Qed.

Lemma tcp_connect_timed ip dst dp isn t : timed false c (snd (tcp_connect c ip dst dp isn t)) t.
Proof.
  unfold tcp_connect. destruct ip as [ip|]; [|apply timed_refl]. destruct (negb _); [apply timed_refl|]. cbv zeta.
  set (t1 := cc_init _). apply (timed_trans false _ t1); [|booked]. clearbody t1.
  apply (timed_trans false _ (set_state c TCP_SYN_SENT t1)); [|by apply set_state_timed].
  generalize (set_state c TCP_SYN_SENT t1). intros t2. cbn [snd]. eapply timed_trans; [apply send_syn_timed|].
  apply (timed_trans false _ (snd (tcp_deadline_in c TCP_ESTABLISH_TICKS t2) <| establish_deadline := fst (tcp_deadline_in c TCP_ESTABLISH_TICKS t2) |>)).
  { booked. }
  apply (deadline_timed false TCP_ESTABLISH_TICKS); try reflexivity; [lia|dl_cases].
Qed.
End timed.
