(* ===== verification/TcpTable.v ===== *)
(** * The TCP connection table and its timer (theorems on kernel/net/tcp.c)

    [op] and [exec_op] are the critical sections of the whole table, each one
    atomic and in any order: the receive path [tcp_input], the socket calls, the
    three parts of [tcp_close], the start of the callback of the wheel timer and
    the parts of that callback, between which anything else runs.

    Theorems: the wheel timer is never later than the earliest deadline of any
    connection, and a finished connection always has it pending; the loops of
    tcp.c end. *)

From stdpp Require Import base numbers list functions sets.
From S2P Require Import Prelude Net Tcp TcpStream TcpRecv TcpSystem TcpOpen TcpFrame.

(** ** The timer invariant *)

(** [x] is pending and not later than [j]. *)
Definition by_then (e : option Z) (j : Z) : Prop := exists x, e = Some x /\ x <= j.

Definition bounded (d : Z) : Prop := 0 <= d < 2 ^ 57.

Definition slot_wf (t : tcb) : Prop :=
  arms t = [] /\ txq_fits t = true /\ rto_ok t /\ forall d, d ∈ deadlines t -> bounded d.

(** The jiffy by which a deadline [d] is to be served, at a time when no clock
    has read more than [now]: its own, or the next one when it has passed. *)
Definition serve_by (now d : Z) : Z := Z.max (d * TCP_TICK_JIFFIES) (now + 1).

(** The timer [e] serves the slot, but for the words in [X]; word 7 stands for
    the reclamation of the slot. *)
Definition slot_served (X : nat -> Prop) (now : Z) (e : option Z) (t : tcb) : Prop :=
  in_use t = true ->
  (forall k d, deadlines t !! k = Some d -> X k \/ d = 0 \/ by_then e (serve_by now d)) /\
  (reclaimable t = true -> X 7%nat \/ is_Some e).

(** Every slot is well formed and, but for the words in [P], served by the timer
    after the requests [r], which the callback is still to make. *)
Definition timer_but (P : nat -> nat -> Prop) (r : list Z) (now : Z) (s : tcp) : Prop :=
  forall i t, conns s !! i = Some t -> slot_wf t /\ slot_served (P i) now (foldl reduce (tcp_timer s) r) t.

Lemma reduce_spec e j : exists x, reduce e j = Some x /\ x <= j /\ forall y, e = Some y -> x <= y.
Proof.
  unfold reduce. destruct e as [x|]; [|exists j; split_and!; [done|lia|done]].
  destruct (Z.leb_spec x j); [exists x|exists j]; (split_and!; [done|lia|intros y [= <-]; lia]).
Qed.

(** After the requests [l] the timer is pending no later than before and than any of them. *)
Lemma reduces_spec l e : (forall j, by_then e j -> by_then (foldl reduce e l) j) /\ forall j, j ∈ l -> by_then (foldl reduce e l) j.
Proof.
  revert e. induction l as [|a l IH]; intros e; cbn [foldl]; [split; [done|by intros j ?%elem_of_nil]|].
  destruct (IH (reduce e a)) as [H1 H2]. destruct (reduce_spec e a) as (x & Ex & Hx & Hy). split.
  - intros j (y & -> & Hj). apply H1. exists x. split; [done|]. specialize (Hy y eq_refl). lia.
  - intros j [->|Hj]%elem_of_cons; [|by apply H2]. apply H1. by exists x.
Qed.

Lemma reduces_mono l e j : by_then e j -> by_then (foldl reduce e l) j.
Proof. apply reduces_spec. Qed.

Lemma reduces_serve l e j : j ∈ l -> by_then (foldl reduce e l) j.
Proof. apply reduces_spec. Qed.

Lemma by_then_some e j : by_then e j -> is_Some e.
Proof. intros (x & -> & _). done. Qed.

Lemma is_some_reduces l e : is_Some e -> is_Some (foldl reduce e l).
Proof. intros [x ->]. eapply by_then_some, (reduces_mono l (Some x) x). by exists x. Qed.

Lemma reduce_comm e a b : reduce (reduce e a) b = reduce (reduce e b) a.
Proof.
  unfold reduce. destruct e as [x|].
  - destruct (Z.leb_spec x a), (Z.leb_spec x b); zcases; first [done|lia|f_equal; lia].
  - zcases; first [done|lia|f_equal; lia].
Qed.

Lemma reduces_comm l r e : foldl reduce (foldl reduce e l) r = foldl reduce (foldl reduce e r) l.
Proof.
  assert (H : forall r e a, foldl reduce (reduce e a) r = reduce (foldl reduce e r) a).
  { clear. induction r as [|b r IH]; intros e a; cbn [foldl]; [done|]. by rewrite reduce_comm, IH. }
  revert e. induction l as [|a l IH]; intros e; cbn [foldl]; [done|]. by rewrite IH, H.
Qed.

Lemma slot_served_mono X now l e t : slot_served X now e t -> slot_served X now (foldl reduce e l) t.
Proof.
  intros Hs Hu. destruct (Hs Hu) as [H1 H2]. split.
  - intros k d Hd. destruct (H1 k d Hd) as [?|[?|?]]; [by left|by right; left|right; right; by apply reduces_mono].
  - intros Hr. destruct (H2 Hr); [by left|right; by apply is_some_reduces].
Qed.

(** One critical section of a connection. *)
Lemma timed_wf k c t t' : timed k c t' t -> slot_wf t -> slot_wf (t' <| arms := [] |>).
Proof.
  intros [A1 _ A3 (new & A4 & A5)] (Ha & Hf & Hr & Hd). unfold slot_fields in A1. injection A1 as E1 E2 E3 E4 E5 E6 E7.
  split_and!; [reflexivity|change (txq_fits t' = true); congruence|exact (A3 Hr)|].
  intros d [i Hin]%list_elem_of_lookup. destruct (proj1 (A5 Hr) i d Hin) as [->|[Hin'|[Hd' _]]]; [by split|by eapply Hd, list_elem_of_lookup_2|done].
Qed.

Lemma timed_served k c X now e t t' : timed k c t' t -> slot_wf t -> slot_served X now e t ->
  slot_served X now (foldl reduce e (arms t')) (t' <| arms := [] |>).
Proof.
  intros [A1 _ A3 (new & A4 & A5)] (Ha & Hf & Hr & Hd) Hs. rewrite Ha in A4. cbn [app] in A4.
  unfold slot_fields in A1. injection A1 as E1 E2 E3 E4 E5 E6 E7. rewrite A4.
  intros Hu. change (in_use t' = true) in Hu. rewrite E1 in Hu.
  destruct (A5 Hr) as [B1 B2]. destruct (Hs Hu) as [C1 C2]. split.
  - intros i d Hin. destruct (B1 i d Hin) as [->|[Hin'|[_ Hn]]]; [by right; left| |].
    + destruct (C1 i d Hin') as [?|[->|Hb]]; [by left|by right; left|right; right; by apply reduces_mono].
    + right; right. destruct (reduces_serve new e _ Hn) as (x & Ex & Hx). exists x. split; [done|]. unfold serve_by. lia.
  - intros Hrc. destruct (B2 Hrc) as [Hrc'|(j & Hj)].
    + destruct (C2 Hrc'); [by left|right; by apply is_some_reduces].
    + right. by eapply by_then_some, reduces_serve.
Qed.

Lemma timer_but_weaken (P Q : nat -> nat -> Prop) r now s : (forall i k, P i k -> Q i k) -> timer_but P r now s -> timer_but Q r now s.
Proof.
  intros HPQ Hs i t Hi. destruct (Hs i t Hi) as [Hw Hv]. split; [done|]. intros Hu. destruct (Hv Hu) as [V1 V2]. split.
  - intros k d Hk. destruct (V1 k d Hk); auto.
  - intros Hr. destruct (V2 Hr); auto.
Qed.

Section but.
Context (P : nat -> nat -> Prop) (r : list Z) (now : Z).

Lemma unlock_but k c i t t' s : timed k c t' t -> conns s !! i = Some t -> timer_but P r now s -> timer_but P r now (unlock i t' s).
Proof.
  intros Ht Hi Hs j u. unfold unlock, set_conn. fields. rewrite reduces_comm, list_lookup_insert_Some.
  intros [(<- & <- & _)|[Hne Hj]].
  - destruct (Hs i t Hi) as [Hw Hv]. split; [by eapply timed_wf|by eapply timed_served].
  - destruct (Hs j u Hj) as [Hw Hv]. split; [done|by apply slot_served_mono].
Qed.

(** Fields that no timer depends on. *)
Lemma set_conn_but i t t' s : conns s !! i = Some t -> in_use t' = in_use t ->
  (reclaimable t' = true -> reclaimable t = true \/ P i 7%nat) -> rto_ticks t' = rto_ticks t -> deadlines t' = deadlines t ->
  arms t' = arms t -> (txq_fits t = true -> txq_fits t' = true) -> timer_but P r now s -> timer_but P r now (set_conn i t' s).
Proof.
  intros Hi E1 E2 E3 E4 E5 E6 Hs j u. unfold set_conn. fields. rewrite list_lookup_insert_Some.
  intros [(<- & <- & _)|[Hne Hj]]; [|by apply Hs]. destruct (Hs i t Hi) as [(W1 & W2 & W3 & W4) Hv].
  split; [unfold slot_wf, rto_ok in *; rewrite E3, E4, E5; auto|].
  intros Hu. rewrite E1 in Hu. destruct (Hv Hu) as [V1 V2]. rewrite E4. split; [done|].
  intros Hr. destruct (E2 Hr); auto.
Qed.

Lemma tx_now_conns src dst b s : conns (tx_now src dst b s) = conns s /\ tcp_timer (tx_now src dst b s) = tcp_timer s.
Proof.
  unfold tx_now. cbv zeta. destruct (_ && _); [done|]. destruct (_ && _); [done|]. destruct (_ && _); [|done].
  destruct (Tcp.held _); [done|]. by destruct (_ =? 0).
Qed.

Lemma tx_now_but src dst b s : timer_but P r now s -> timer_but P r now (tx_now src dst b s).
Proof. intros Hs. destruct (tx_now_conns src dst b s) as [E1 E2]. unfold timer_but. by rewrite E1, E2. Qed.

Lemma flush_one_but i s s' : flush_one i s = Some s' -> timer_but P r now s -> timer_but P r now s'.
Proof.
  unfold flush_one. destruct (conns s !! i) as [t|] eqn:Hi; [|done]. destruct (txq t) as [|b q] eqn:Hq; [done|].
  intros [= <-] Hs. apply tx_now_but. eapply set_conn_but; try done; [by left|].
  unfold txq_fits. rewrite Hq. fields. cbn [length]. rewrite !Nat.leb_le. lia.
Qed.

Lemma tcp_tx_flush_but i s : timer_but P r now s -> timer_but P r now (tcp_tx_flush i s).
Proof.
  unfold tcp_tx_flush. generalize 8%nat. intros fuel. revert s.
  induction fuel as [|fuel IH]; intros s Hs; cbn [flush_loop]; [done|].
  destruct (flush_one i s) as [s'|] eqn:E; [|done]. by eapply IH, flush_one_but.
Qed.

Lemma set_conn_ok i t s : slot_wf t -> slot_served (P i) now (foldl reduce (tcp_timer s) r) t ->
  timer_but (fun j k => P j k \/ j = i) r now s -> timer_but P r now (set_conn i t s).
Proof.
  intros Hw Hv Hs j u. unfold set_conn. fields. rewrite list_lookup_insert_Some.
  intros [(<- & <- & _)|[Hne Hj]]; [by split|]. destruct (Hs j u Hj) as [Hw' Hv']. split; [done|].
  intros Hu. destruct (Hv' Hu) as [V1 V2]. split.
  - intros k d Hk. destruct (V1 k d Hk) as [[?|?]|?]; [by left|congruence|by right].
  - intros Hr. destruct (V2 Hr) as [[?|?]|?]; [by left|congruence|by right].
Qed.

(** [tcp_release] frees the slot, so nothing more is asked of it. *)
Lemma release_drop i t s : conns s !! i = Some t -> reclaimed t = false ->
  timer_but (fun j k => P j k \/ j = i) r now s -> timer_but P r now (tcp_release i s).
Proof.
  intros Hi Hr Hs. unfold tcp_release. rewrite Hi, Hr. apply set_conn_ok; [|done|done].
  destruct (Hs i t Hi) as [Hw _]. exact Hw.
Qed.

Lemma tcp_release_but i s : timer_but P r now s -> timer_but P r now (tcp_release i s).
Proof.
  intros Hs. destruct (conns s !! i) as [t|] eqn:Hi; [|unfold tcp_release; by rewrite Hi].
  destruct (reclaimed t) eqn:Hr; [unfold tcp_release; by rewrite Hi, Hr|].
  eapply release_drop; [done|done|]. eapply timer_but_weaken; [|exact Hs]. by left.
Qed.
End but.

(** ** A pass of the timer *)

Lemma set_state_dl c s t : deadlines (set_state c s t) = deadlines t.
Proof. unfold set_state, tcp_timer_kick, timer_request. cbv zeta. case_bool_decide; [done|]. ifs; reflexivity. Qed.

Lemma enter_closed_dl c e t : deadlines (enter_closed c e t) = [0; 0; 0; timewait_deadline t; 0].
Proof.
  pose proof (set_state_dl c TCP_CLOSED t) as E. unfold enter_closed. cbv zeta. revert E.
  generalize (set_state c TCP_CLOSED t). intros u [= E1 E2 E3 E4 E5].
  transitivity [0; 0; 0; timewait_deadline u; 0]; [reflexivity|by rewrite E4].
Qed.

(** What a pass may do to a connection: its slot is the same, the retransmission
    timeout stays in range. *)
Definition passed (t' t : tcb) : Prop := slot_fields t' = slot_fields t /\ (rto_ok t -> rto_ok t').

Lemma timed_passed k c t' t : timed k c t' t -> passed t' t.
Proof. intros [A1 _ A3 _]. by split. Qed.

Lemma passed_trans t1 t2 t3 : passed t1 t2 -> passed t2 t3 -> passed t1 t3.
Proof. intros [A1 A2] [B1 B2]. split; [congruence|auto]. Qed.

Lemma book_passed t' t : book t' = book t -> passed t' t /\ deadlines t' = deadlines t.
Proof.
  unfold book. intros E. injection E as E1 E2 E3 E4 E5 E6 E0 E7 E8 E9 E10 E11 E12 E13 E14. split; [split|].
  - unfold slot_fields. congruence.
  - unfold rto_ok. by rewrite E8.
  - unfold deadlines. congruence.
Qed.

Lemma tick_rto_spec c t : clk_ok c -> rto_ok t ->
  passed (tick_rto c t) t /\
  exists d, bounded d /\ deadlines (tick_rto c t) = [d; delack_deadline t; persist_deadline t; timewait_deadline t; establish_deadline t].
Proof.
  intros [Hc _] Hr. unfold tick_rto. cbv zeta. change (rto_ticks (cc_on_timeout t)) with (rto_ticks t).
  set (r := if _ <? _ then _ else _).
  assert (0 <= r <= TCP_RTO_MAX_TICKS) by (unfold r, rto_ok in *; rewrite u32_small by lia; zcases; lia). clearbody r.
  set (t1 := cc_on_timeout t <| rto_ticks := r |> <| rto_deadline := _ |>).
  assert (H1 : passed t1 t) by (split; [reflexivity|intros _; assumption]).
  assert (D1 : deadlines t1 = [ticks c + r; delack_deadline t; persist_deadline t; timewait_deadline t; establish_deadline t]).
  { rewrite <- (u64_small (ticks c + r)) by lia. reflexivity. }
  clearbody t1.
  assert (Hx : forall u, book u = book t1 -> passed u t /\ exists d, bounded d /\
    deadlines u = [d; delack_deadline t; persist_deadline t; timewait_deadline t; establish_deadline t]).
  { intros u Hu. destruct (book_passed _ _ Hu) as [P D]. split; [by eapply passed_trans|]. exists (ticks c + r).
    split; [unfold bounded; lia|by rewrite D]. }
  destruct (state t1); apply Hx; first [apply send_flags_book|apply retransmit_book].
Qed.

Lemma tick_persist_spec c t : clk_ok c -> rto_ok t ->
  passed (tick_persist c t) t /\
  exists d, bounded d /\ deadlines (tick_persist c t) = [rto_deadline t; delack_deadline t; d; timewait_deadline t; establish_deadline t].
Proof.
  intros [Hc _] Hr. unfold tick_persist. cbv zeta.
  set (t0 := t <| persist_shift := _ |>). change (rto_ticks t0) with (rto_ticks t). set (sh := if 6 <? _ then _ else _).
  assert (Hsh : 0 <= sh <= 6).
  { unfold sh. change (persist_shift t0) with (u8 (persist_shift t + 1)). unfold u8. pose proof (Z.mod_pos_bound (persist_shift t + 1) 256 eq_refl). zcases; lia. }
  set (b := if _ <? u32 _ then _ else _).
  assert (Hb : 0 <= b <= TCP_RTO_MAX_TICKS).
  { unfold b, rto_ok in *. rewrite Z.shiftl_mul_pow2 by lia. assert (1 <= 2 ^ sh <= 2 ^ 6) by (split; [lia|apply Z.pow_le_mono_r; lia]).
    rewrite u32_small by nia. zcases; nia. }
  clearbody b sh. set (t1 := t0 <| persist_deadline := _ |>).
  assert (H1 : passed t1 t) by (split; [reflexivity|by intros]).
  assert (D1 : deadlines t1 = [rto_deadline t; delack_deadline t; ticks c + b; timewait_deadline t; establish_deadline t]).
  { rewrite <- (u64_small (ticks c + b)) by lia. reflexivity. }
  clearbody t1.
  assert (Hx : forall u, book u = book t1 -> passed u t /\ exists d, bounded d /\
    deadlines u = [rto_deadline t; delack_deadline t; d; timewait_deadline t; establish_deadline t]).
  { intros u Hu. destruct (book_passed _ _ Hu) as [P D]. split; [by eapply passed_trans|]. exists (ticks c + b).
    split; [unfold bounded; lia|by rewrite D]. }
  destruct (_ <? snd_len t1); apply Hx; [apply tx_queue_book|apply send_flags_book].
Qed.

(** A connection whose retransmission timeout and deadlines are in range. *)
Definition in_range (t : tcb) : Prop := rto_ok t /\ forall d, d ∈ deadlines t -> bounded d.

Lemma dl_bounded a1 a2 a3 a4 a5 : bounded a1 -> bounded a2 -> bounded a3 -> bounded a4 -> bounded a5 ->
  forall d, d ∈ [a1; a2; a3; a4; a5] -> bounded d.
Proof. intros H1 H2 H3 H4 H5 d. rewrite !elem_of_cons, elem_of_nil. intros [->|[->|[->|[->|[->|[]]]]]]; done. Qed.

Lemma bounded_dl t : (forall d, d ∈ deadlines t -> bounded d) ->
  bounded (rto_deadline t) /\ bounded (delack_deadline t) /\ bounded (persist_deadline t) /\
  bounded (timewait_deadline t) /\ bounded (establish_deadline t).
Proof. intros H. split_and!; apply H; unfold deadlines; repeat constructor. Qed.

Lemma bounded_0 : bounded 0.
Proof. by split. Qed.

(** What one step of a pass keeps. *)
Definition steps (t' t : tcb) : Prop := passed t' t /\ (in_range t -> in_range t').

Lemma steps_trans t1 t2 t3 : steps t1 t2 -> steps t2 t3 -> steps t1 t3.
Proof. intros [A1 A2] [B1 B2]. split; [by eapply passed_trans|auto]. Qed.

Lemma book_steps t' t : book t' = book t -> steps t' t.
Proof. intros E. destruct (book_passed _ _ E) as [H1 H2]. split; [done|]. intros [R D]. split; [by apply H1|by rewrite H2]. Qed.

Ltac cleared := split; [by split|]; let R := fresh in let D := fresh in
  intros [R D]; split; [exact R|]; apply bounded_dl in D as (? & ? & ? & ? & ?); by apply dl_bounded; try apply bounded_0.

Lemma closed_steps c e t : steps (enter_closed c e t) t.
Proof.
  split; [eapply timed_passed, (enter_closed_timed c true)|]. intros [R D]. split; [by apply (enter_closed_timed c true)|].
  rewrite enter_closed_dl. apply bounded_dl in D as (? & ? & ? & ? & ?). by apply dl_bounded; try apply bounded_0.
Qed.

Lemma rto_steps c t : clk_ok c -> rto_ok t -> steps (tick_rto c t) t.
Proof.
  intros Hc Hr. destruct (tick_rto_spec c t Hc Hr) as (P & d & Hd & E). split; [done|]. intros [R D].
  split; [by apply P|]. rewrite E. apply bounded_dl in D as (? & ? & ? & ? & ?). by apply dl_bounded.
Qed.

Lemma persist_steps c t : clk_ok c -> rto_ok t -> steps (tick_persist c t) t.
Proof.
  intros Hc Hr. destruct (tick_persist_spec c t Hc Hr) as (P & d & Hd & E). split; [done|]. intros [R D].
  split; [by apply P|]. rewrite E. apply bounded_dl in D as (? & ? & ? & ? & ?). by apply dl_bounded.
Qed.

Lemma steps_rto t' t : steps t' t -> rto_ok t -> rto_ok t'.
Proof. intros [[_ H] _]. exact H. Qed.

(** A pass over one connection. *)
Lemma tick_conn_steps c t t' : clk_ok c -> rto_ok t -> tick_conn c t = Keep t' -> steps t' t.
Proof.
  intros Hc Hr. unfold tick_conn. cbv zeta. destruct (due (timewait_deadline t) _).
  { intros [= <-]. eapply steps_trans; [apply closed_steps|cleared]. }
  destruct (_ && negb _); [done|]. destruct (due (establish_deadline t) _).
  { intros [= <-]. eapply steps_trans; [apply closed_steps|cleared]. }
  set (x := if due (rto_deadline t) _ then _ else _). assert (Hx : steps (snd x) t).
  { subst x. destruct (due _ _); [|cleared].
    set (t0 := t <| retries := _ |>). assert (H0 : steps t0 t) by cleared. clearbody t0.
    destruct (_ <? _); cbn [snd]; (eapply steps_trans; [|exact H0]); [apply closed_steps|apply rto_steps; [done|by eapply steps_rto]]. }
  destruct x as [[] u]; cbn [snd] in Hx; intros [= <-]; [done|].
  set (v := if due (delack_deadline u) _ then _ else u). assert (Hv : steps v t).
  { eapply steps_trans; [|exact Hx]. unfold v. destruct (due _ _); [|cleared].
    eapply steps_trans; [apply book_steps, send_flags_book|cleared]. }
  clearbody v. destruct (due (persist_deadline v) _); [|done].
  eapply steps_trans; [apply persist_steps; [done|by eapply steps_rto]|done].
Qed.

(** What [tcp_tx_flush] and [unlock] do to the slots. *)
Lemma flush_slot i s j u' : conns (tcp_tx_flush i s) !! j = Some u' ->
  exists u q, conns s !! j = Some u /\ u' = u <| txq := q |> /\ (j <> i -> u' = u).
Proof.
  unfold tcp_tx_flush. generalize 8%nat. intros fuel. revert s. induction fuel as [|fuel IH]; intros s; cbn [flush_loop].
  { intros H. exists u', (txq u'). split; [done|]. split; [by destruct u'|done]. }
  destruct (flush_one i s) as [s1|] eqn:E.
  2:{ intros H. exists u', (txq u'). split; [done|]. split; [by destruct u'|done]. }
  intros H. destruct (IH s1 H) as (u1 & q1 & H1 & -> & H2). unfold flush_one in E.
  destruct (conns s !! i) as [t|] eqn:Hi; [|done]. destruct (txq t) as [|b q]; [done|]. injection E as <-.
  rewrite (proj1 (tx_now_conns _ _ _ _)) in H1. unfold set_conn in H1. revert H1. fields. rewrite list_lookup_insert_Some.
  intros [(<- & <- & _)|[Hne Hj]].
  - exists t, q1. split; [done|]. split; [reflexivity|done].
  - exists u1, q1. by split.
Qed.

Lemma unlock_slot i t s j u : conns (unlock i t s) !! j = Some u -> is_Some (conns s !! i) ->
  (j = i /\ u = t <| arms := [] |>) \/ (j <> i /\ conns s !! j = Some u).
Proof.
  intros Hj [u0 Hi]. revert Hj. unfold unlock, set_conn. fields. rewrite list_lookup_insert_Some. naive_solver.
Qed.

(** The locked section of a pass keeps every slot well formed. *)
Lemma tick_wf c i t t' r now s : clk_ok c -> conns s !! i = Some t -> tick_conn c t = Keep t' ->
  timer_but (fun _ _ => True) r now s -> timer_but (fun _ _ => True) r now (unlock i t' s).
Proof.
  intros Hc Hi Et Hs j u Hj. split; [|intros _; split; auto].
  destruct (unlock_slot _ _ _ _ _ Hj) as [[-> ->]|[_ Hj']]; [by eexists| |by apply (Hs j u)].
  destruct (Hs i t Hi) as [(W1 & W2 & W3 & W4) _]. destruct (tick_conn_steps c t t' Hc W3 Et) as [[P1 P2] R].
  unfold slot_fields in P1. injection P1 as E1 E2 E3 E4 E5 E6 E7. destruct (R (conj W3 W4)) as [R1 R2].
  split_and!; [reflexivity|change (txq_fits t' = true); congruence|exact R1|exact R2].
Qed.

(** ** The invariant of the callback *)

(** What the scan has found so far will be requested. *)
Definition requests (next : Z) : list Z := if next =? UINT64_MAX then [] else [next * TCP_TICK_JIFFIES].

Definition wanted (p : timer_pass) : list Z :=
  match p with ScanAt next _ | ScanRead next _ _ => requests next | _ => [] end.

(** The words the callback is still to read; all of them once it has decided to
    run again on the next jiffy. *)
Definition excused (p : timer_pass) (j m : nat) : Prop :=
  match p with
  | Idle => False
  | ScanAt next i => next = 0 \/ (i <= j)%nat
  | ScanRead next i k => next = 0 \/ (i < j)%nat \/ (j = i /\ (k <= m)%nat)
  | _ => True
  end.

Definition pass_ok (p : timer_pass) : Prop :=
  match p with
  | Idle => True
  | TickAt now _ | TickLock now _ | TickFlush now _ | TickRelease now _ => 0 <= now < 2 ^ 56
  | ScanAt next _ | ScanRead next _ _ => next = UINT64_MAX \/ bounded next
  end.

Definition cb_ok (now : Z) (p : timer_pass) (s : tcp) : Prop := pass_ok p /\ timer_but (excused p) (wanted p) now s.

Lemma requests_mono m n e j : 0 <= m <= n -> n <= UINT64_MAX ->
  by_then (foldl reduce e (requests n)) j -> by_then (foldl reduce e (requests m)) j.
Proof.
  intros Hm Hn. unfold requests. destruct (Z.eqb_spec n UINT64_MAX) as [->|Hne].
  { apply reduces_mono. }
  destruct (Z.eqb_spec m UINT64_MAX); [lia|]. cbn [foldl]. intros (x & Ex & Hx).
  destruct (reduce_spec e (m * TCP_TICK_JIFFIES)) as (y & Ey & Hy & He). exists y. split; [done|].
  unfold reduce in Ex. destruct e as [z|]; [specialize (He z eq_refl)|]; [destruct (z <=? _)|]; injection Ex as <-; lia.
Qed.

Lemma requests_serve n e d : n <= d -> bounded d -> by_then (foldl reduce e (requests n)) (d * TCP_TICK_JIFFIES).
Proof.
  intros Hn [_ Hd]. unfold requests. destruct (Z.eqb_spec n UINT64_MAX) as [->|_]; [unfold UINT64_MAX in *; lia|].
  destruct (reduces_serve [n * TCP_TICK_JIFFIES] e (n * TCP_TICK_JIFFIES)) as (x & Ex & Hx); [by constructor|].
  exists x. split; [done|lia].
Qed.

Lemma served_requests X now m n e t : 0 <= m <= n -> n <= UINT64_MAX ->
  slot_served X now (foldl reduce e (requests n)) t -> slot_served X now (foldl reduce e (requests m)) t.
Proof.
  intros Hm Hn Hs Hu. destruct (Hs Hu) as [H1 H2]. split.
  - intros k d Hk. destruct (H1 k d Hk) as [?|[?|H]]; [by left|by right; left|right; right]. by eapply requests_mono.
  - intros Hr. destruct (H2 Hr) as [?|[x Hx]]; [by left|right]. eapply by_then_some, (requests_mono m n _ x); [done..|]. by exists x.
Qed.

Lemma served_weaken (X Y : nat -> Prop) now e t : (forall k, X k -> Y k) -> slot_served X now e t -> slot_served Y now e t.
Proof.
  intros HXY Hs Hu. destruct (Hs Hu) as [H1 H2]. split; [intros k d Hk; destruct (H1 k d Hk); auto|].
  intros Hr. destruct (H2 Hr); auto.
Qed.

(** One read of the scan. *)
Lemma scan_deadline next i k d t now s : conns s !! i = Some t -> deadlines t !! k = Some d ->
  cb_ok now (ScanRead next i k) s -> cb_ok now (ScanRead (if negb (d =? 0) && (d <? next) then d else next) i (S k)) s.
Proof.
  intros Hi Hd [Hp Hs]. assert (Hb : bounded d) by (eapply (Hs i t Hi), list_elem_of_lookup_2, Hd).
  set (m := if _ && _ then d else next).
  assert (Hm : 0 <= m <= next /\ next <= UINT64_MAX /\ (m = UINT64_MAX \/ bounded m) /\ (next = 0 -> m = 0) /\ (d = 0 \/ m <= d)).
  { subst m. cbn [pass_ok] in Hp. unfold bounded, UINT64_MAX in *. destruct (Z.eqb_spec d 0), (Z.ltb_spec d next); cbn [negb andb]; lia. }
  clearbody m. destruct Hm as (M1 & M2 & M3 & M4 & M5). split; [done|]. unfold excused in *. cbn [wanted] in *.
  intros j u Hj. destruct (Hs j u Hj) as [Hw Hv]. split; [done|]. apply (served_requests _ _ _ _ _ _ M1 M2) in Hv.
  intros Hu. destruct (Hv Hu) as [V1 V2]. split.
  - intros n e He. destruct (V1 n e He) as [[?|[?|[-> Hn]]]|?]; [left; auto..| |by right].
    destruct (decide (n = k)) as [->|Hne]; [|left; right; right; lia]. right. rewrite Hi in Hj. injection Hj as <-.
    rewrite Hd in He. injection He as <-. destruct M5; [by left|right].
    destruct (requests_serve m (tcp_timer s) d) as (x & Ex & Hx); [done..|]. exists x. split; [done|]. unfold serve_by. lia.
  - intros Hr. destruct (V2 Hr) as [[?|[?|[-> Hn]]]|?]; [left; auto..| |by right].
    left. right. right. split; [done|]. apply lookup_lt_Some in Hd. cbn [deadlines length] in Hd. lia.
Qed.

(** The scan leaves a slot whose deadlines are served and that is not to be reclaimed. *)
Lemma scan_leave next i k t now s : conns s !! i = Some t -> (in_use t = true -> (5 <= k)%nat) ->
  (in_use t = true -> reclaimable t = false) ->
  cb_ok now (ScanRead next i k) s -> cb_ok now (ScanAt next (S i)) s.
Proof.
  intros Hi Hk Hr [Hp Hs]. split; [done|]. intros j u Hj. destruct (Hs j u Hj) as [Hw Hv]. split; [done|].
  unfold excused in *. cbn [wanted] in *. intros Hu. destruct (Hv Hu) as [V1 V2]. split.
  - intros n e He. destruct (V1 n e He) as [[?|[?|[-> Hn]]]|?]; [by left; left|left; right; lia| |by right].
    rewrite Hi in Hj. injection Hj as <-. apply lookup_lt_Some in He. cbn [deadlines length] in He. specialize (Hk Hu). lia.
  - intros Hru. destruct (V2 Hru) as [[?|[?|[-> Hn]]]|?]; [by left; left|left; right; lia| |by right].
    rewrite Hi in Hj. injection Hj as <-. rewrite (Hr Hu) in Hru. done.
Qed.

Lemma scan_on next i k k' now s t : conns s !! i = Some t -> (5 <= k <= k')%nat -> (k' <= 7)%nat ->
  cb_ok now (ScanRead next i k) s -> cb_ok now (ScanRead next i k') s.
Proof.
  intros Hi Hk Hk' [Hp Hs]. split; [done|]. intros j u Hj. destruct (Hs j u Hj) as [Hw Hv]. split; [done|].
  unfold excused in *. cbn [wanted] in *. intros Hu. destruct (Hv Hu) as [V1 V2]. split.
  - intros n e He. destruct (V1 n e He) as [[?|[?|[-> Hn]]]|?]; [left; auto..| |by right].
    apply lookup_lt_Some in He. cbn [deadlines length] in He. lia.
  - intros Hru. destruct (V2 Hru) as [[?|[?|[-> Hn]]]|?]; [left; auto..| |by right]. left. right. right. lia.
Qed.

Lemma scan_read_ok next i k t now s : conns s !! i = Some t -> cb_ok now (ScanRead next i k) s -> cb_ok now (scan_read next i k t) s.
Proof.
  intros Hi Hs. assert (Hd : forall d, deadlines t !! k = Some d -> scan_read next i k t = ScanRead (if negb (d =? 0) && (d <? next) then d else next) i (S k)).
  { intros d. do 5 (destruct k as [|k]; [intros [= <-]; reflexivity|]). destruct k; discriminate. }
  destruct (deadlines t !! k) as [d|] eqn:E; [rewrite (Hd d eq_refl); by eapply scan_deadline|]. clear Hd.
  apply lookup_ge_None in E. cbn [deadlines length] in E. do 5 (destruct k as [|k]; [lia|]).
  destruct k as [|[|[|k]]]; cbn [scan_read].
  - destruct (sock_gone t) eqn:Eg; [refine (scan_on _ _ _ _ _ _ _ Hi _ _ Hs); lia|].
    refine (scan_leave _ _ _ _ _ _ Hi _ _ Hs); [intros _; lia|]. unfold reclaimable. by rewrite Eg.
  - destruct (state t =s TCP_CLOSED) eqn:Eg; [refine (scan_on _ _ _ _ _ _ _ Hi _ _ Hs); lia|].
    refine (scan_leave _ _ _ _ _ _ Hi _ _ Hs); [intros _; lia|]. unfold reclaimable. by rewrite Eg, andb_false_r.
  - destruct (reclaimed t) eqn:Eg; cbn [negb].
    + refine (scan_leave _ _ _ _ _ _ Hi _ _ Hs); [intros _; lia|]. unfold reclaimable. by rewrite Eg, andb_false_r.
    + destruct Hs as [_ Hs]. split; [right; apply bounded_0|]. intros j u Hj. split; [by apply (Hs j u)|].
      intros _. split; intros; left; by left.
  - assert (Hk : cb_ok now (ScanAt next (S i)) s); [|exact Hk]. destruct Hs as [Hp Hs]. split; [done|].
    intros j u Hj. destruct (Hs j u Hj) as [Hw Hv]. split; [done|]. unfold excused in *. cbn [wanted] in *. intros Hu. destruct (Hv Hu) as [V1 V2]. split.
    + intros n e He. destruct (V1 n e He) as [[?|[?|[-> Hn]]]|?]; [by left; left|left; right; lia| |by right].
      apply lookup_lt_Some in He. cbn [deadlines length] in He. lia.
    + intros Hru. destruct (V2 Hru) as [[?|[?|[-> Hn]]]|?]; [by left; left|left; right; lia|lia|by right].
Qed.

(** The callback finds out when it has to run again. *)
Lemma scan_end c now next i s : clk_ok c -> jiffies c <= now -> conns s !! i = None -> cb_ok now (ScanAt next i) s ->
  let x := tcp_timer_fn c (ScanAt next i) s in cb_ok now (fst x) (snd x).
Proof.
  intros [_ Hc] Hn Hi [Hp Hs]. cbn [tcp_timer_fn]. rewrite Hi. cbv zeta. cbn [pass_ok] in Hp.
  assert (Hlt : forall j t, conns s !! j = Some t -> (j < i)%nat).
  { intros j t Hj. apply lookup_ge_None in Hi. apply lookup_lt_Some in Hj. lia. }
  destruct (Z.eqb_spec next UINT64_MAX) as [->|Hm]; cbn [fst snd].
  - split; [done|]. intros j t Hj. destruct (Hs j t Hj) as [Hw Hv]. split; [done|].
    eapply served_weaken; [|exact Hv]. intros k [?|?]; [done|]. specialize (Hlt j t Hj). lia.
  - split; [done|]. intros j t Hj. revert Hj. fields. intros Hj. destruct (Hs j t Hj) as [Hw Hv]. split; [done|]. specialize (Hlt j t Hj).
    destruct Hp as [?|Hb]; [done|]. destruct (Z.eqb_spec next 0) as [->|H0]; cbn [wanted foldl].
    + destruct (reduce_spec (tcp_timer s) (u64 (jiffies c + 1))) as (x & -> & Hx & _). rewrite u64_small in Hx by lia.
      intros _. split; [|by right; eexists]. intros k d _. right; right. exists x. split; [done|]. unfold serve_by. lia.
    + unfold bounded in Hb. rewrite u64_small by lia. cbn [wanted] in Hv. unfold requests in Hv.
      rewrite (proj2 (Z.eqb_neq _ _) Hm) in Hv. eapply served_weaken; [|exact Hv]. intros k [?|?]; [done|lia].
Qed.

(** Every part of the callback keeps the invariant. *)
Lemma timer_fn_ok c now p s : clk_ok c -> jiffies c <= now -> cb_ok now p s ->
  let x := tcp_timer_fn c p s in cb_ok now (fst x) (snd x).
Proof.
  intros Hc Hn Hs. destruct p as [|now0 i|now0 i|now0 i|now0 i|next i|next i k]; [done|..].
  - destruct Hs as [Hp Hs]. cbn [tcp_timer_fn tcp_timer_tick]. destruct (conns s !! i) as [t|]; [by destruct (negb _)|]. cbv zeta. cbn [fst snd].
    split; [by left|]. eapply timer_but_weaken; [|exact Hs]. intros j k _. right. lia.
  - destruct Hs as [Hp Hs]. cbn [tcp_timer_fn tcp_timer_tick]. destruct (conns s !! i) as [t|] eqn:Hi; [|done].
    destruct (tick_conn _ t) as [|t'] eqn:Et; [done|]. split; [done|]. cbn [fst snd wanted excused] in *.
    eapply (tick_wf (Clk now0 (jiffies c))); [split; [exact Hp|apply Hc]|exact Hi|exact Et|exact Hs].
  - destruct Hs as [Hp Hs]. split; [done|]. cbn [tcp_timer_fn tcp_timer_tick snd]. by apply tcp_tx_flush_but.
  - destruct Hs as [Hp Hs]. split; [done|]. cbn [tcp_timer_fn tcp_timer_tick snd]. by apply tcp_release_but.
  - destruct (conns s !! i) as [t|] eqn:Hi; [|by apply scan_end]. cbn [tcp_timer_fn]. rewrite Hi.
    destruct (in_use t) eqn:Hu; cbv zeta; cbn [negb fst snd].
    + destruct Hs as [Hp Hs]. split; [done|]. eapply timer_but_weaken; [|exact Hs]. intros j k [?|?]; [by left|right; lia].
    + assert (Hs' : cb_ok now (ScanRead next i 0) s).
      { destruct Hs as [Hp Hs]. split; [done|]. eapply timer_but_weaken; [|exact Hs]. intros j k [?|?]; [by left|right; lia]. }
      refine (scan_leave _ _ _ _ _ _ Hi _ _ Hs'); congruence.
  - cbn [tcp_timer_fn]. destruct (conns s !! i) as [t|] eqn:Hi; [by apply scan_read_ok|]. cbv zeta. cbn [fst snd].
    destruct Hs as [Hp Hs]. split; [done|]. intros j t Hj. destruct (Hs j t Hj) as [Hw Hv]. split; [done|].
    eapply served_weaken; [|exact Hv]. intros m [?|[?|[-> _]]]; [by left|right; lia|congruence].
Qed.

Lemma timer_fires_ok c now p s : clk_ok c -> cb_ok now p s -> let x := timer_fires c p s in cb_ok now (fst x) (snd x).
Proof.
  intros [Hc _] Hs. unfold timer_fires. destruct p; try exact Hs. destruct (tcp_timer s) as [e|]; [|exact Hs].
  destruct (e <=? jiffies c); [|exact Hs]. destruct Hs as [Hp Hs]. split; [done|]. intros i t Hi. split; [by apply (Hs i t)|].
  intros _. split; by left.
Qed.

(** ** The critical sections of the table *)

(** A socket call on slot [i]: [f] under the lock, then the flush. *)
Definition on_conn (i : nat) (f : tcb -> tcb) (s : tcp) : tcp :=
  match conns s !! i with Some t => tcp_tx_flush i (unlock i (f t) s) | None => s end.

Inductive op :=
  | Input (c : clk) (isn src dst : Z) (seg : list Z)                   (* [tcp_input] *)
  | Alloc                                                              (* [socket_create] *)
  | Bind (i : nat) (ip port : Z)                                       (* [socket_bind], [stream_connect] *)
  | Connect (i : nat) (c : clk) (dev_ip : option Z) (dst port isn : Z)
  | Listen (i : nat) (c : clk) (depth : Z)
  | Write (i : nat) (c : clk) (d : list Z)
  | Read (i : nat) (n : Z) (peek : bool)
  | ShutWr (i : nat) (c : clk)
  | ShutRd (i : nat)
  | NoDelay (i : nat) (b : bool)
  | Accept (l : nat)                                                   (* [accept_pop] *)
  | CloseBegin (i : nat) (c : clk)
  | CloseOrphan (i : nat) (c : clk)
  | CloseEnd (i : nat) (c : clk) (st : tcp_state)
  | Fault (d r : Z)                                                    (* [tcp_fault_inject] *)
  | Fire (c : clk)                                                     (* the wheel takes the timer off and calls it *)
  | Run (c : clk).                                                     (* [tcp_timer_fn], to its next cut *)

Definition exec_call (s : tcp) (o : op) : tcp :=
  match o with
  | Input c isn src dst seg => tcp_input c isn src dst seg s
  | Alloc => match tcp_alloc s with Some (_, s) => s | None => s end
  | Bind i ip port => on_conn i (fun t => t <| local_n := ip |> <| lport_n := port |>) s
  | Connect i c ip dst port isn => on_conn i (fun t => snd (tcp_connect c ip dst port isn t)) s
  | Listen i c depth => on_conn i (fun t => snd (tcp_listen c depth t)) s
  | Write i c d => on_conn i (fun t => snd (tcp_send c d t)) s
  | Read i n peek => on_conn i (fun t => snd (tcp_recv n peek t)) s
  | ShutWr i c => on_conn i (tcp_shutdown_write c) s
  | ShutRd i => on_conn i (fun t => t <| shut_rd := true |>) s
  | NoDelay i b => on_conn i (fun t => t <| nodelay := b |>) s
  | Accept l => match accept_pop l s with Some (_, s) => s | None => s end
  | CloseBegin i c => match close_begin c i s with Some (_, _, s) => s | None => s end
  | CloseOrphan i c => close_orphan c s i
  | CloseEnd i c st => close_end c i st s
  | Fault d r => tcp_fault_inject d r s
  | Fire _ | Run _ => s
  end.

(** The table, and where the callback of its timer is. *)
Record sys := Sys { tbl : tcp; cb : timer_pass }.

Definition exec_op (x : sys) (o : op) : sys :=
  match o with
  | Fire c => let '(p, s) := timer_fires c (cb x) (tbl x) in Sys s p
  | Run c => let '(p, s) := tcp_timer_fn c (cb x) (tbl x) in Sys s p
  | _ => Sys (exec_call (tbl x) o) (cb x)
  end.

Definition sys_init : sys := Sys tcp_init Idle.

(** The clocks a section reads. *)
Definition op_clk (o : op) : option clk :=
  match o with
  | Input c _ _ _ _ | Connect _ c _ _ _ _ | Listen _ c _ | Write _ c _ | ShutWr _ c | CloseBegin _ c | CloseOrphan _ c
  | CloseEnd _ c _ | Fire c | Run c => Some c
  | _ => None
  end.

Definition op_ok (o : op) : Prop := from_option clk_ok True (op_clk o).

(** The section runs no later than the jiffy [now]. *)
Definition by_now (now : Z) (o : op) : Prop := from_option (fun c => jiffies c <= now) True (op_clk o).

Section ops.
Context (P : nat -> nat -> Prop) (r : list Z) (now : Z).
#[local] Abbreviation timer_ok := (timer_but P r now).

Lemma on_conn_ok k c i f s : (forall t, timed k c (f t) t) -> timer_ok s -> timer_ok (on_conn i f s).
Proof.
  intros Hf Hs. unfold on_conn. destruct (conns s !! i) as [t|] eqn:Hi; [|done].
  apply tcp_tx_flush_but. eapply unlock_but; [apply Hf|exact Hi|exact Hs].
Qed.

Lemma fresh_ok X e t : slot_wf (fresh t) /\ slot_served X now e (fresh t).
Proof.
  assert (Hd : forall d, d ∈ deadlines (fresh t) -> d = 0).
  { intros d. change (deadlines (fresh t)) with [0; 0; 0; 0; 0]. rewrite !elem_of_cons, elem_of_nil. naive_solver. }
  split.
  - split_and!; [reflexivity..|split; vm_compute; congruence|]. intros d ->%Hd. by split.
  - intros _. split; [intros k d Hk%list_elem_of_lookup_2%Hd; by right; left|done].
Qed.

Lemma tcp_alloc_ok s i s' : tcp_alloc s = Some (i, s') -> timer_ok s ->
  timer_ok s' /\ forall t, conns s' !! i = Some t -> exists u, t = fresh u.
Proof.
  unfold tcp_alloc. set (x := match list_find _ _ with Some _ => _ | None => _ end). destruct x as [[j t]|]; [|done].
  intros [= -> <-] Hs.
  unfold set_conn, timer_but. fields. split.
  - intros j u. rewrite list_lookup_insert_Some. intros [(<- & <- & _)|[Hne Hj]]; [|exact (Hs j u Hj)].
    apply fresh_ok.
  - intros u. rewrite list_lookup_insert_Some. intros [(_ & <- & _)|[? _]]; [by eexists|done].
Qed.

Lemma unlock_set_conn i t t' s : unlock i t' (set_conn i t s) = unlock i t' s.
Proof. unfold unlock, set_conn. fields. by rewrite list_insert_insert_eq. Qed.

(** [passive_open] fills in the new connection, then runs on it. *)
Lemma passive_open_timed c l src dst isn seg t : clk_ok c ->
  exists t1, timed false c (passive_open c l src dst isn seg t) t1 /\ in_use t1 = in_use t /\ reclaimable t1 = reclaimable t /\
    rto_ticks t1 = rto_ticks t /\ deadlines t1 = deadlines t /\ arms t1 = arms t /\ txq_fits t1 = txq_fits t /\ accept_q t1 = accept_q t.
Proof.
  intros Hc. unfold passive_open. cbv zeta.
  set (t1 := t <| local_n := dst |> <| remote_n := src |> <| lport_n := _ |> <| rport_n := _ |> <| irs := _ |> <| rcv_nxt := _ |>
    <| iss := _ |> <| snd_una := _ |> <| snd_nxt := _ |> <| snd_wnd := _ |> <| parent := Some l |>).
  exists t1. split; [|by split_and!]. clearbody t1. set (h := Z.shiftr _ _ * 4). clearbody h.
  apply (timed_trans c false _ (take_mss seg h t1)); [|apply book_timed, take_mss_book]. generalize (take_mss seg h t1). intros t2.
  apply (timed_trans c false _ (set_state c TCP_SYN_RECEIVED t2)); [|by apply set_state_timed].
  generalize (set_state c TCP_SYN_RECEIVED t2). intros t3. eapply timed_trans; [by apply send_syn_timed|].
  apply (deadline_timed c Hc false TCP_ESTABLISH_TICKS); try reflexivity; [lia|dl_cases].
Qed.

(** The listener gains a connection in its queue. *)
Lemma tcp_segment_parent c i p seg t l' : snd (tcp_segment c i p seg t) = Some l' ->
  exists l, p = Some l /\ (l' = l \/ (l' = wake (l <| accept_q := accept_q l ++ [i] |>) /\ state t = TCP_SYN_RECEIVED)).
Proof.
  assert (Hr : forall l, p = Some l -> snd (seg_syn_received c i p (seg_ackno seg) (ntohs_k (window_n (header_of seg))) t) = Some l' ->
    l' = l \/ (l' = wake (l <| accept_q := accept_q l ++ [i] |>) /\ state t = TCP_SYN_RECEIVED)).
  { intros l ->. unfold seg_syn_received. destruct (negb _) eqn:Es; [intros [= <-]; by left|]. apply negb_false_iff, bool_decide_eq_true in Es.
    destruct (_ && _); [|intros [= <-]; by left]. cbv zeta. destruct (_ <? _); intros [= <-]; [by right|by left]. }
  assert (Hn : p = None -> snd (seg_syn_received c i p (seg_ackno seg) (ntohs_k (window_n (header_of seg))) t) = None).
  { intros ->. unfold seg_syn_received. destruct (negb _); [done|]. by destruct (_ && _). }
  assert (Hp : snd (tcp_segment c i p seg t) = p \/
    snd (tcp_segment c i p seg t) = snd (seg_syn_received c i p (seg_ackno seg) (ntohs_k (window_n (header_of seg))) t)).
  { unfold tcp_segment. fold (hdr_len seg) (seg_seq seg) (seg_ackno seg) (seg_flags seg) (seg_payload seg). cbv zeta.
    destruct (ctrue _); [by left|]. destruct (_ =s _); [by left|]. destruct (negb (_ =s _) && _); [by left|].
    destruct (negb _); [by left|]. right. destruct (seg_syn_received _ _ _ _ _ _) as [[[] u] q]; [|done].
    by destruct (seg_closing c _) as [[] ?]. }
  intros E. destruct p as [l|].
  - exists l. split; [done|]. destruct Hp as [Hp|Hp]; rewrite Hp in E; [injection E as <-; by left|by apply Hr].
  - destruct Hp as [Hp|Hp]; rewrite Hp in E; [done|]. by rewrite Hn in E.
Qed.

Lemma input_conn_ok c i seg s : clk_ok c -> timer_ok s -> timer_ok (input_conn c i seg s).
Proof.
  intros Hc Hs. unfold input_conn. destruct (conns s !! i) as [t|] eqn:Hi; [|done].
  set (p := parent t ≫= _). pose proof (tcp_segment_timed c Hc true i p seg t) as Ht.
  pose proof (tcp_segment_parent c i p seg t) as Hp.
  destruct (tcp_segment c i p seg t) as [t' p']. cbn [fst snd] in *.
  assert (Hu : timer_ok (unlock i t' s)) by (by eapply unlock_but).
  destruct (parent t) as [j|]; [|done]. destruct p' as [l'|]; [|done].
  destruct (Hp l' eq_refl) as (l & Hl & Hl'). cbn in Hl. subst p. destruct (Hs j l Hl) as [Hw Hv].
  assert (Hv' : slot_served (P j) now (foldl reduce (tcp_timer (unlock i t' s)) r) l).
  { unfold unlock. fields. rewrite reduces_comm. by apply slot_served_mono. }
  apply set_conn_ok; [destruct Hl' as [->|[-> _]]; [done|exact Hw]| |eapply timer_but_weaken; [|exact Hu]; by left].
  destruct Hl' as [->|[-> _]]; [done|exact Hv'].
Qed.

Lemma tcp_input_ok c isn src dst seg s : clk_ok c -> timer_ok s -> timer_ok (tcp_input c isn src dst seg s).
Proof.
  intros Hc Hs. unfold tcp_input. destruct (negb _); [done|]. cbv zeta.
  assert (Hrst : forall h n, timer_ok (send_rst_raw src dst h n s)).
  { intros h n. unfold send_rst_raw. destruct (ctrue _); [done|]. cbv zeta. by apply tx_now_but. }
  destruct (tcp_find _ _ _ _ _) as [i|]; [by apply tcp_tx_flush_but, input_conn_ok|].
  set (x := if _ && _ then _ else None). destruct x as [l|]; [|apply Hrst]. destruct (tcp_alloc s) as [[i s1]|] eqn:Ea; [|apply Hrst].
  destruct (tcp_alloc_ok s i s1 Ea Hs) as [H1 Hf]. destruct (conns s1 !! i) as [t|] eqn:Hi; [|done].
  destruct (passive_open_timed c l src dst isn seg t Hc) as (t1 & Ht & E1 & E2 & E3 & E4 & E5 & E6 & _).
  apply tcp_tx_flush_but. rewrite <- (unlock_set_conn i t1).
  eapply unlock_but; [exact Ht|unfold set_conn; fields; rewrite list_lookup_insert_eq by (by eapply lookup_lt_Some); done|].
  eapply set_conn_but; [exact Hi|..]; try done; [rewrite E2; by left|congruence].
Qed.

Lemma tcp_listen_timed c depth t : clk_ok c -> exists t1, timed false c (snd (tcp_listen c depth t)) t1 /\
  in_use t1 = in_use t /\ reclaimable t1 = reclaimable t /\ rto_ticks t1 = rto_ticks t /\ deadlines t1 = deadlines t /\
  arms t1 = arms t /\ txq_fits t1 = txq_fits t.
Proof.
  intros Hc. unfold tcp_listen. destruct (_ && _); [exists t; split; [apply timed_refl|by split_and!]|]. cbv zeta. cbn [snd].
  set (t1 := t <| backlog := _ |>). exists t1. split; [by apply set_state_timed|by split_and!].
Qed.

(** [close_begin]: the socket lets go, and the timer will look at the slot. *)
Lemma kicked_ok c i t t' s : conns s !! i = Some t -> in_use t' = in_use t -> rto_ticks t' = rto_ticks t ->
  deadlines t' = deadlines t -> arms t' = [u64 (jiffies c + 1)] -> txq_fits t' = txq_fits t -> timer_ok s -> timer_ok (unlock i t' s).
Proof.
  intros Hi E1 E2 E3 E4 E5 Hs j u Hj. unfold unlock. fields. rewrite reduces_comm.
  destruct (unlock_slot _ _ _ _ _ Hj) as [[-> ->]|[Hne Hj']]; [by eexists| |].
  - destruct (Hs i t Hi) as [(W1 & W2 & W3 & W4) Hv]. split.
    + split_and!; [reflexivity|change (txq_fits t' = true); congruence|unfold rto_ok in *; change (0 <= rto_ticks t' <= TCP_RTO_MAX_TICKS); by rewrite E2|].
      change (forall d, d ∈ deadlines t' -> bounded d). by rewrite E3.
    + intros Hu. change (in_use t' = true) in Hu. rewrite E1 in Hu. destruct (slot_served_mono _ _ (arms t') _ _ Hv Hu) as [V1 V2]. split.
      * change (deadlines (t' <| arms := [] |>)) with (deadlines t'). rewrite E3. exact V1.
      * intros _. right. rewrite E4. eapply by_then_some, reduces_serve, list_elem_of_singleton. done.
  - destruct (Hs j u Hj') as [Hw Hv]. split; [done|by apply slot_served_mono].
Qed.

Lemma close_begin_ok c i s st q s' : close_begin c i s = Some (st, q, s') -> timer_ok s -> timer_ok s'.
Proof.
  unfold close_begin. destruct (conns s !! i) as [t|] eqn:Hi; [|done]. cbv zeta. intros E Hs.
  assert (Ha : arms t = []) by (destruct (Hs i t Hi) as [(Ha & _) _]; exact Ha).
  destruct (_ =s _); injection E as <- <- <-; (eapply (kicked_ok c); [exact Hi|reflexivity..| |reflexivity|done]);
    (transitivity (arms t ++ [u64 (jiffies c + 1)]); [reflexivity|by rewrite Ha]).
Qed.

Lemma close_orphan_ok c i s : clk_ok c -> timer_ok s -> timer_ok (close_orphan c s i).
Proof.
  intros Hc Hs. unfold close_orphan. destruct (conns s !! i) as [t|] eqn:Hi; [|done]. cbv zeta.
  set (t1 := t <| sock_gone := true |>). set (t2 := set_state c TCP_CLOSED _).
  assert (Ht : timed true c t2 t1).
  { eapply timed_trans; [by apply set_state_timed; left|]. apply book_timed, send_flags_book. }
  assert (Hi1 : conns (set_conn i t1 s) !! i = Some t1) by (unfold set_conn; fields; apply list_lookup_insert_eq; by eapply lookup_lt_Some).
  rewrite <- (unlock_set_conn i t1). destruct (reclaimed t) eqn:Hr.
  - apply tcp_release_but, tcp_tx_flush_but. eapply unlock_but; [exact Ht|exact Hi1|].
    eapply set_conn_but; [exact Hi|..]; try reflexivity; try done. unfold reclaimable, t1. fields. rewrite Hr, !andb_false_r. done.
  - assert (Hb : timer_but (fun j k => P j k \/ j = i) r now (tcp_tx_flush i (unlock i t2 (set_conn i t1 s)))).
    { apply tcp_tx_flush_but. eapply unlock_but; [exact Ht|exact Hi1|].
      eapply set_conn_but; [exact Hi|..]; try reflexivity; [by intros _; right; right|done|].
      eapply timer_but_weaken; [|exact Hs]. by left. }
    destruct (conns (tcp_tx_flush i (unlock i t2 (set_conn i t1 s))) !! i) as [u|] eqn:Hu.
    2:{ unfold tcp_release. rewrite Hu. intros j v Hj. destruct (Hb j v Hj) as [Hw Hv]. split; [done|].
        assert (j <> i) by congruence. eapply served_weaken; [|exact Hv]. by intros k [?|?]. }
    eapply release_drop; [exact Hu| |exact Hb]. destruct (flush_slot _ _ _ _ Hu) as (u1 & q & H1 & -> & _).
    destruct (unlock_slot _ _ _ _ _ H1) as [[_ ->]|[? _]]; [by eexists| |done].
    destruct Ht as [E _ _ _]. unfold slot_fields in E. injection E as E1 E2 E3 E4 E5 E6 E7.
    transitivity (reclaimed t2); [reflexivity|]. rewrite E3. exact Hr.
Qed.

Lemma close_end_ok c i st s : clk_ok c -> timer_ok s -> timer_ok (close_end c i st s).
Proof.
  intros Hc Hs. unfold close_end. destruct (conns s !! i) as [t|] eqn:Hi; [|done].
  assert (H1 : timer_ok (tcp_tx_flush i (unlock i (tcp_shutdown_write c t) s))).
  { apply tcp_tx_flush_but. eapply unlock_but; [apply (tcp_shutdown_timed c Hc true)|exact Hi|exact Hs]. }
  assert (H2 : timer_ok (tcp_release i (tcp_tx_flush i (unlock i (set_state c TCP_CLOSED
      (if st =s TCP_SYN_SENT then send_flags TCP_RST (snd_nxt t) t else t)) s)))).
  { apply tcp_release_but, tcp_tx_flush_but. eapply (unlock_but _ _ _ true c); [|exact Hi|exact Hs].
    eapply timed_trans; [by apply set_state_timed; left|]. destruct (_ =s _); [apply book_timed, send_flags_book|apply timed_refl]. }
  destruct st; first [exact Hs|exact H1|exact H2].
Qed.

Lemma exec_call_ok o s : op_ok o -> timer_ok s -> timer_ok (exec_call s o).
Proof.
  intros Ho Hs. destruct o as [c isn src dst seg| |i ip port|i c ip dst port isn|i c depth|i c d|i n pk|i c|i|i b|l|i c|i c|i c st|d n|c|c];
    cbn [exec_call op_ok op_clk from_option] in *.
  - by apply tcp_input_ok.
  - destruct (tcp_alloc s) as [[i s']|] eqn:E; [|done]. by apply (tcp_alloc_ok s i s' E Hs).
  - apply (on_conn_ok true (Clk 0 0)); [|done]. intros t. by apply book_timed.
  - apply (on_conn_ok false c); [|done]. intros t. by apply tcp_connect_timed.
  - unfold on_conn. destruct (conns s !! i) as [t|] eqn:Hi; [|done]. apply tcp_tx_flush_but.
    destruct (tcp_listen_timed c depth t Ho) as (t1 & Ht & E1 & E2 & E3 & E4 & E5 & E6). rewrite <- (unlock_set_conn i t1).
    eapply unlock_but; [exact Ht|unfold set_conn; fields; apply list_lookup_insert_eq; by eapply lookup_lt_Some|].
    eapply set_conn_but; [exact Hi|..]; try done; [rewrite E2; by left|congruence].
  - apply (on_conn_ok true c); [|done]. intros t. by apply tcp_send_timed.
  - apply (on_conn_ok true (Clk 0 0)); [|done]. intros t. by apply tcp_recv_timed.
  - apply (on_conn_ok true c); [|done]. intros t. by apply tcp_shutdown_timed.
  - apply (on_conn_ok true (Clk 0 0)); [|done]. intros t. by apply book_timed.
  - apply (on_conn_ok true (Clk 0 0)); [|done]. intros t. by apply book_timed.
  - unfold accept_pop. destruct (conns s !! l) as [t|] eqn:Hl; [|done]. destruct (accept_q t); [done|].
    eapply set_conn_but; [exact Hl|..]; try done. by left.
  - destruct (close_begin c i s) as [[[st q] s']|] eqn:E; [|done]. by eapply close_begin_ok.
  - by apply close_orphan_ok.
  - by apply close_end_ok.
  - unfold tcp_fault_inject. cbv zeta. by destruct (Tcp.held _).
  - done.
  - done.
Qed.
End ops.

Lemma exec_op_ok now o x : op_ok o -> by_now now o -> cb_ok now (cb x) (tbl x) ->
  cb_ok now (cb (exec_op x o)) (tbl (exec_op x o)).
Proof.
  intros Ho Hn Hx.
  assert (Hc : cb_ok now (cb x) (exec_call (tbl x) o)) by (destruct Hx as [Hp Hs]; split; [done|by apply exec_call_ok]).
  destruct o; try exact Hc; cbn [exec_op].
  - pose proof (timer_fires_ok c now (cb x) (tbl x) Ho Hx) as H. by destruct (timer_fires _ _ _).
  - pose proof (timer_fn_ok c now (cb x) (tbl x) Ho Hn Hx) as H. by destruct (tcp_timer_fn _ _ _).
Qed.

Lemma init_ok now : cb_ok now (cb sys_init) (tbl sys_init).
Proof.
  split; [done|]. intros i t Hi. apply lookup_replicate in Hi as [-> _]. split; [|done].
  split_and!; [reflexivity..|by split|]. intros d. change (deadlines tcb0) with [0; 0; 0; 0; 0].
  apply dl_bounded; apply bounded_0.
Qed.

Lemma run_ok now ops : Forall op_ok ops -> Forall (by_now now) ops ->
  let x := foldl exec_op sys_init ops in cb_ok now (cb x) (tbl x).
Proof.
  intros Ho Hn. cbv zeta. revert Ho Hn. generalize (init_ok now). generalize sys_init.
  induction ops as [|o ops IH]; intros x Hx Ho Hn; cbn [foldl]; [done|].
  inversion_clear Ho. inversion_clear Hn. by apply IH; [apply exec_op_ok|..].
Qed.

(** ** The callback ends *)

Definition alone (c : clk) (x : sys) : sys := exec_op x (Run c).

Definition ends (c : clk) (x : sys) : Prop := exists n, cb (Nat.iter n (alone c) x) = Idle.

Lemma ends_step c x : ends c (alone c x) -> ends c x.
Proof. intros [n Hn]. exists (S n). by rewrite Nat.iter_succ_r. Qed.

Lemma flush_length i s : length (conns (tcp_tx_flush i s)) = length (conns s).
Proof.
  unfold tcp_tx_flush. generalize 8%nat. intros f. revert s. induction f as [|f IH]; intros s; cbn [flush_loop]; [done|].
  destruct (flush_one i s) as [s1|] eqn:E; [|done]. rewrite IH. unfold flush_one in E.
  destruct (conns s !! i) as [t|]; [|done]. destruct (txq t); [done|]. injection E as <-.
  rewrite (proj1 (tx_now_conns _ _ _ _)). unfold set_conn. fields. apply length_insert.
Qed.

Lemma release_length i s : length (conns (tcp_release i s)) = length (conns s).
Proof.
  unfold tcp_release. destruct (conns s !! i) as [t|]; [|done]. destruct (reclaimed t); [done|]. apply length_insert.
Qed.

(** The reads left in the scan of a slot. *)
Lemma read_ends c s i : (forall next, ends c (Sys s (ScanAt next (S i)))) -> forall m k next, (8 <= k + m)%nat -> ends c (Sys s (ScanRead next i k)).
Proof.
  intros Hs. induction m as [|m IH]; intros k next Hk; apply ends_step; unfold alone; cbn [exec_op tcp_timer_fn cb tbl];
    (destruct (conns s !! i) as [t|]; [|apply Hs]).
  - do 8 (destruct k as [|k]; [lia|]). apply Hs.
  - do 5 (destruct k as [|k]; [apply IH; lia|]). destruct k as [|[|[|k]]]; cbn [scan_read]; [| | |apply Hs].
    all: match goal with |- context [if ?b then _ else _] => destruct b end; first [apply Hs|apply IH; lia].
Qed.

Lemma scan_ends c s m i next : (length (conns s) <= i + m)%nat -> ends c (Sys s (ScanAt next i)).
Proof.
  revert i next. induction m as [|m IH]; intros i next Hm; apply ends_step; unfold alone; cbn [exec_op tcp_timer_fn cb tbl];
    (destruct (conns s !! i) as [t|] eqn:Hi; [|by destruct (_ =? _); exists 0%nat]).
  - apply lookup_lt_Some in Hi. lia.
  - destruct (negb _); [apply IH; lia|]. apply (read_ends c s i) with (m := 8%nat); [intros n; apply IH; lia|lia].
Qed.

Lemma tick_ends c now m i s : (length (conns s) <= i + m)%nat -> ends c (Sys s (TickAt now i)).
Proof.
  revert i s. induction m as [|m IH]; intros i s Hm; apply ends_step; unfold alone; cbn [exec_op tcp_timer_fn tcp_timer_tick cb tbl];
    (destruct (conns s !! i) as [t|] eqn:Hi; [|apply (scan_ends c s (length (conns s))); lia]).
  - apply lookup_lt_Some in Hi. lia.
  - destruct (negb _); [apply IH; lia|]. apply ends_step. unfold alone. cbn [exec_op tcp_timer_fn tcp_timer_tick cb tbl]. rewrite Hi.
    destruct (tick_conn _ t) as [|t']; apply ends_step; unfold alone; cbn [exec_op tcp_timer_fn tcp_timer_tick cb tbl]; apply IH.
    + rewrite release_length. lia.
    + rewrite flush_length. unfold unlock, set_conn. fields. rewrite length_insert. lia.
Qed.

Lemma callback_ends c x : ends c x.
Proof.
  destruct x as [s p]. assert (Ht : forall s now i, ends c (Sys s (TickAt now i))).
  { intros s1 now i. apply (tick_ends c now (length (conns s1))). lia. }
  assert (Hs : forall next i, ends c (Sys s (ScanAt next i))).
  { intros next i. apply (scan_ends c s (length (conns s))). lia. }
  destruct p as [|now i|now i|now i|now i|next i|next i k]; [by exists 0%nat|apply Ht| | | |apply Hs|].
  - apply ends_step. unfold alone. cbn [exec_op tcp_timer_fn tcp_timer_tick cb tbl].
    destruct (conns s !! i) as [t|]; [|apply Ht]. by destruct (tick_conn _ t); apply ends_step; apply Ht.
  - apply ends_step, Ht.
  - apply ends_step, Ht.
  - apply (read_ends c s i) with (m := 8%nat); [intros n; apply Hs|lia].
Qed.

(** C12: the one wheel timer of the TCP stack is never late.  Take any sequence of
    critical sections from boot, none of them later than the jiffy [now], and the clocks
    far from their end (below 2^56 ticks and 2^60 jiffies): segments
    from the network, socket calls, the parts of a close, and the callback of the
    timer cut wherever another CPU can get in (before, after and between the locked
    sections of the tick, and between any two reads of its unlocked scan).  Whenever
    the callback is not running, every armed deadline of a slot in use has the timer
    pending at or before it, or by the next jiffy if it has passed already, and a
    closed connection without a socket has it pending; so no retransmission, delayed
    acknowledgement, window probe or reclamation is missed, also when its deadline
    was set while the callback ran.  And a running callback ends. *)
Theorem timer_never_late now ops : Forall op_ok ops -> Forall (by_now now) ops ->
  let x := foldl exec_op sys_init ops in
  (cb x = Idle -> forall i t, conns (tbl x) !! i = Some t -> in_use t = true ->
     (forall d, d ∈ deadlines t -> d <> 0 ->
        exists e, tcp_timer (tbl x) = Some e /\ e <= Z.max (d * TCP_TICK_JIFFIES) (now + 1)) /\
     (sock_gone t = true -> state t = TCP_CLOSED -> reclaimed t = false -> is_Some (tcp_timer (tbl x)))) /\
  (forall c, exists n, cb (Nat.iter n (fun y => exec_op y (Run c)) x) = Idle).
Proof.
  intros Ho Hn x. split; [|intros c; apply callback_ends]. intros Hc i t Hi Hu.
  destruct (run_ok now ops Ho Hn) as [_ Hs]. fold x in Hs. rewrite Hc in Hs.
  destruct (Hs i t Hi) as [_ Hv]. destruct (Hv Hu) as [V1 V2]. split.
  - intros d [k Hd]%list_elem_of_lookup Hd0. by destruct (V1 k d Hd) as [[]|[?|?]].
  - intros H1 H2 H3. destruct V2 as [[]|?]; [|done]. unfold reclaimable. by rewrite H1, H2, H3.
Qed.

(** A second connection is opened while the callback that retransmits for the
    first one is in the middle of its scan. *)
Definition connect_in_scan : list op :=
  [Alloc; Bind 0 0 40000; Connect 0 (Clk 7 75) (Some 16777343) 16777343 80 5; Fire (Clk 107 1070)] ++
  replicate 44 (Run (Clk 107 1071)) ++
  [Alloc; Bind 1 0 40001; Connect 1 (Clk 107 1072) (Some 16777343) 16777343 80 9] ++
  replicate 40 (Run (Clk 107 1073)).

Lemma timer_never_late_witness :
  let x := foldl exec_op sys_init connect_in_scan in
  match conns (tbl x) !! 1%nat with
  | Some t => cb x = Idle /\ in_use t = true /\ rto_deadline t = 207 /\
              exists e, tcp_timer (tbl x) = Some e /\ e <= 2070
  | None => False
  end.
Proof.
  cbv zeta.
  assert (Ho : Forall op_ok connect_in_scan /\ Forall (by_now 1073) connect_in_scan).
  { split; [apply (Forall_impl (fun o => from_option (fun c => (0 <=? ticks c) && (ticks c <? 2 ^ 56) && (0 <=? jiffies c) && (jiffies c <? 2 ^ 60)) true (op_clk o) = true))
           |apply (Forall_impl (fun o => from_option (fun c => jiffies c <=? 1073) true (op_clk o) = true))];
      try (apply Forall_forall; intros o Ho; apply list_elem_of_In in Ho; revert o Ho; apply forallb_forall; vm_compute; reflexivity).
    - intros o. unfold op_ok. destruct (op_clk o) as [c|]; [|done]. cbn [from_option]. intros H. unfold clk_ok. zbool. lia.
    - intros o. unfold by_now. destruct (op_clk o) as [c|]; [|done]. cbn [from_option]. intros H. zbool. lia. }
  assert (Hc : let x := foldl exec_op sys_init connect_in_scan in match conns (tbl x) !! 1%nat with
    | Some t => match cb x with Idle => in_use t && (rto_deadline t =? 207) | _ => false end = true | None => False end) by (vm_compute; reflexivity).
  cbv zeta in Hc. pose proof (proj1 (timer_never_late 1073 connect_in_scan (proj1 Ho) (proj2 Ho))) as H.
  destruct (conns (tbl (foldl exec_op sys_init connect_in_scan)) !! 1%nat) as [t|] eqn:Hi; [|exact Hc].
  destruct (cb (foldl exec_op sys_init connect_in_scan)) eqn:Eb; try discriminate Hc.
  apply andb_true_iff in Hc as [Hu Hd%Z.eqb_eq]. split; [reflexivity|]. split; [exact Hu|]. split; [exact Hd|].
  assert (Hin : 207 ∈ deadlines t) by (rewrite <- Hd; unfold deadlines; apply elem_of_cons; by left).
  exact (proj1 (H eq_refl 1%nat t Hi Hu) 207 Hin ltac:(discriminate)).
Defined.

(** ** The loops of tcp.c end *)

(** [tcp_output]: more rounds than eight change nothing. *)
Lemma output_loop_done n c w t : output_loop (8 + n) c w t = output_loop 8 c w t.
Proof.
  assert (Hs : forall u u', output_step c w u = Some u' -> (length (txq u) < length (txq u') /\ length (txq u) < 7)%nat).
  { intros u u'. unfold output_step. destruct (Nat.leb_spec 7 (length (txq u))) as [|Hl]; [done|]. cbv zeta.
    destruct (w <=? _); [done|]. destruct (snd_len u <=? _); [done|]. destruct (negb (nodelay u) && _ && _); [done|].
    intros [= <-]. split; [|done]. set (u1 := tx_queue _ _ _ _ _ _ u).
    assert (E : length (txq u1) = S (length (txq u))).
    { unfold u1, tx_queue. destruct (Nat.leb_spec 8 (length (txq u))); [lia|]. cbv zeta. fields. rewrite length_app. cbn [length]. lia. }
    clearbody u1. match goal with |- (_ < length (txq ?v))%nat => assert (txq v = txq u1) as -> end; [|lia].
    unfold arm_rto. destruct (rtt_pending u1); ifs; reflexivity. }
  assert (G : forall f f' u, (7 <= length (txq u) + f)%nat -> (7 <= length (txq u) + f')%nat ->
    output_loop (S f) c w u = output_loop (S f') c w u).
  { induction f as [|f IH]; intros f' u H1 H2; cbn [output_loop]; (destruct (output_step c w u) as [u'|] eqn:E; [|done]);
      destruct (Hs u u' E) as [L1 L2]; [lia|]. destruct f' as [|f']; [lia|]. apply IH; lia. }
  apply (G (7 + n)%nat 7%nat); lia.
Qed.

(** [drain_reasm]: the slots in use. *)
Fixpoint used (l : list tcp_reasm) : nat :=
  match l with [] => 0 | r :: l => (if r_used r then 1 else 0) + used l end.

Lemma used_free l i r : l !! i = Some r -> r_used r = true -> S (used (<[i := free_reasm r]> l)) = used l.
Proof.
  revert i. induction l as [|a l IH]; intros [|i]; [done..| |].
  - intros [= ->] Hu. cbn. by rewrite Hu.
  - intros Hi Hu. change (<[S i := free_reasm r]> (a :: l)) with (a :: <[i := free_reasm r]> l). cbn [used].
    specialize (IH i Hi Hu). lia.
Qed.

Lemma drain_slot_used t b i : let x := drain_slot (t, b) i in
  (used (reasm (fst x)) <= used (reasm t))%nat /\ (snd x = true -> b = true \/ (used (reasm (fst x)) < used (reasm t))%nat).
Proof.
  cbv zeta. unfold drain_slot. destruct (reasm t !! i) as [r|] eqn:Hi; [|cbn; auto].
  destruct (r_used r) eqn:Hu; cbn [negb]; [|cbn; auto]. pose proof (used_free _ _ _ Hi Hu) as Hd.
  destruct (_ && _); [|destruct (seq_le _ _)]; cbn [fst snd].
  - cbv zeta. unfold deliver. cbv zeta. fields. lia.
  - fields. split; [lia|by left].
  - auto.
Qed.

Lemma drain_round_used l t b : let x := foldl drain_slot (t, b) l in
  (used (reasm (fst x)) <= used (reasm t))%nat /\ (snd x = true -> b = true \/ (used (reasm (fst x)) < used (reasm t))%nat).
Proof.
  revert t b. induction l as [|i l IH]; intros t b; cbn [foldl]; [cbn; auto|].
  destruct (drain_slot_used t b i) as [H1 H2]. destruct (drain_slot (t, b) i) as [t1 b1]. cbn [fst snd] in *.
  destruct (IH t1 b1) as [H3 H4]. cbv zeta in *. split; [lia|]. intros H. destruct (H4 H) as [Hb|]; [destruct (H2 Hb); [by left|right; lia]|right; lia].
Qed.

(** More rounds than nine change nothing. *)
Lemma drain_done n t : length (reasm t) = TCP_REASM_SEGS -> drain_loop (9 + n) t = drain_reasm t.
Proof.
  intros Hl. assert (G : forall f f' u, (used (reasm u) <= f)%nat -> (used (reasm u) <= f')%nat -> drain_loop (S f) u = drain_loop (S f') u).
  { induction f as [|f IH]; intros f' u H1 H2; cbn [drain_loop];
      destruct (drain_round_used (seq 0 TCP_REASM_SEGS) u false) as [_ H4];
      destruct (foldl drain_slot (u, false) _) as [u1 []]; cbn [fst snd] in *; try done; destruct (H4 eq_refl) as [|H5]; try done; [lia|].
    destruct f' as [|f']; [lia|]. apply IH; lia. }
  assert (used (reasm t) <= 8)%nat.
  { rewrite <- Hl. generalize (reasm t). intros l. induction l as [|r l IH]; cbn; [lia|]. destruct (r_used r); lia. }
  apply (G (8 + n)%nat 8%nat); lia.
Qed.

(** [parse_mss]: every round moves on in the options. *)
Lemma parse_loop_enough seg h f f' i : (Z.to_nat (h - i) <= f)%nat -> (Z.to_nat (h - i) <= f')%nat ->
  parse_loop f seg h i = parse_loop f' seg h i.
Proof.
  revert f' i. induction f as [|f IH]; intros f' i H1 H2.
  - destruct f' as [|f']; [done|]. rewrite parse_loop_S. destruct (Z.ltb_spec (i + 1) h); [lia|done].
  - destruct f' as [|f']; [rewrite parse_loop_S; by destruct (Z.ltb_spec (i + 1) h); [lia|]|].
    rewrite !parse_loop_S. destruct (Z.ltb_spec (i + 1) h); [|done]. cbv zeta. destruct (_ =? 0); [done|].
    destruct (_ =? 1); [apply IH; lia|]. destruct (_ || _) eqn:E; [done|]. apply orb_false_iff in E as [E _].
    apply Z.ltb_ge in E. destruct (_ && _); [done|]. apply IH; lia.
Qed.

(** [tcp_tx_flush]: eight rounds empty a queue that fits. *)
Lemma flush_done i s t : conns s !! i = Some t -> txq_fits t = true ->
  exists u, conns (tcp_tx_flush i s) !! i = Some u /\ txq u = [].
Proof.
  intros Hi Hf. unfold txq_fits in Hf. apply Nat.leb_le in Hf. unfold tcp_tx_flush. revert Hi Hf. generalize 8%nat. intros f.
  revert s t. induction f as [|f IH]; intros s t Hi Hf; cbn [flush_loop].
  - exists t. split; [done|]. by destruct (txq t); [|cbn in Hf; lia].
  - destruct (flush_one i s) as [s1|] eqn:E; unfold flush_one in E; rewrite Hi in E; destruct (txq t) as [|b q] eqn:Hq; try done.
    2:{ exists t. by split. }
    injection E as <-. apply (IH _ (t <| txq := q |>)); [|cbn in Hf |- *; lia].
    rewrite (proj1 (tx_now_conns _ _ _ _)). unfold set_conn. fields. apply list_lookup_insert_eq. by eapply lookup_lt_Some.
Qed.
