(* ===== verification/TcpLeak.v ===== *)
(** * Connection slots that nothing frees (theorems on kernel/net/tcp.c)

    [world] adds to the table of TcpTable.v the slots some socket, or some
    running close, refers to: a call names only those.  A passive connection is
    referred to by its listener's queue from the end of its handshake on, and by a
    socket from [accept] on.  One that dies before that (a reset, the
    establishment timeout, a full queue) is referred to by nothing: its socket is
    not gone, it never had one, so neither the timer nor [tcp_alloc] takes the
    slot back. *)

From stdpp Require Import base numbers list functions.
From S2P Require Import Prelude Net Tcp TcpStream TcpRecv TcpSystem TcpOpen TcpFrame TcpTable.

Record world := World { tab : sys; owned : list nat }.

(** The slot a call names. *)
Definition names (o : op) : option nat :=
  match o with
  | Bind i _ _ | Connect i _ _ _ _ _ | Listen i _ _ | Write i _ _ | Read i _ _ | ShutWr i _ | ShutRd i | NoDelay i _
  | Accept i | CloseBegin i _ | CloseOrphan i _ | CloseEnd i _ _ => Some i
  | Input _ _ _ _ _ | Alloc | Fault _ _ | Fire _ | Run _ => None
  end.

(** The slots the caller learns. *)
Definition gains (s : tcp) (o : op) : list nat :=
  match o with
  | Alloc => match tcp_alloc s with Some (i, _) => [i] | None => [] end
  | Accept l => match accept_pop l s with Some (i, _) => [i] | None => [] end
  | CloseBegin i c => match close_begin c i s with Some (_, q, _) => q | None => [] end
  | _ => []
  end.

Definition wexec (w : world) (o : op) : option world :=
  if match names o with Some i => bool_decide (i ∈ owned w) | None => true end
  then Some (World (exec_op (tab w) o) (gains (tbl (tab w)) o ++ owned w))
  else None.

Fixpoint wrun (os : list op) (w : world) : option world :=
  match os with
  | [] => Some w
  | o :: os => match wexec w o with Some w => wrun os w | None => None end
  end.

(** ** Slots nobody refers to *)

(** In use, closed, and never had a socket that could be gone. *)
Definition stuck (t : tcb) : Prop := in_use t = true /\ sock_gone t = false /\ reclaimed t = false /\ state t = TCP_CLOSED.

Definition good (i j : nat) (u : tcb) : Prop := (j = i -> stuck u) /\ i ∉ accept_q u.

Definition lost (i : nat) (s : tcp) : Prop :=
  is_Some (conns s !! i) /\ forall j u, conns s !! j = Some u -> good i j u.

(** The callback of the timer has not just found the slot to be reclaimed. *)
Definition spared (i : nat) (p : timer_pass) : Prop := match p with TickRelease _ j => j <> i | _ => True end.

Definition orphan (i : nat) (w : world) : Prop := i ∉ owned w /\ lost i (tbl (tab w)) /\ spared i (cb (tab w)).

Lemma lost_set i j u s : good i j u -> lost i s -> lost i (set_conn j u s).
Proof.
  intros Hu [Hi Hs]. unfold lost, set_conn. fields. split.
  - destruct (decide (j = i)) as [->|Hne]; [rewrite list_lookup_insert_eq by (by apply lookup_lt_is_Some); by eexists|].
    by rewrite list_lookup_insert_ne.
  - intros k v. rewrite list_lookup_insert_Some. intros [(<- & <- & _)|[_ Hk]]; [done|by apply Hs].
Qed.

Lemma lost_conns i s s' : conns s' = conns s -> lost i s -> lost i s'.
Proof. unfold lost. by intros ->. Qed.

(** A section that keeps the slot's fields, and CLOSED if it is slot [i]. *)
Lemma good_step i j t t' : slot_fields t' = slot_fields t -> (j = i -> state t = TCP_CLOSED -> state t' = TCP_CLOSED) ->
  good i j t -> good i j t'.
Proof.
  intros E Hc [H1 H2]. unfold slot_fields in E. injection E as E1 E2 E3 E4 E5 E6 E7. split.
  - intros Hj. destruct (H1 Hj) as (S1 & S2 & S3 & S4). unfold stuck. split_and!; [congruence..|auto].
  - by rewrite E4.
Qed.

Lemma lost_unlock_good i j t s : good i j t -> lost i s -> lost i (unlock j t s).
Proof.
  intros Hg Hs. apply (lost_conns i (set_conn j (t <| arms := [] |>) s)); [reflexivity|].
  apply lost_set; [|done]. exact Hg.
Qed.

Lemma lost_unlock i j t t' s : conns s !! j = Some t -> slot_fields t' = slot_fields t ->
  (j = i -> state t = TCP_CLOSED -> state t' = TCP_CLOSED) -> lost i s -> lost i (unlock j t' s).
Proof.
  intros Hj E Hc Hs. apply lost_unlock_good; [|done]. eapply good_step; [exact E|exact Hc|]. by apply Hs.
Qed.

Lemma lost_flush i j s : lost i s -> lost i (tcp_tx_flush j s).
Proof.
  unfold tcp_tx_flush. generalize 8%nat. intros f. revert s. induction f as [|f IH]; intros s Hs; cbn [flush_loop]; [done|].
  unfold flush_one. destruct (conns s !! j) as [t|] eqn:Hj; [|done]. destruct (txq t); [done|]. apply IH.
  eapply lost_conns; [apply tx_now_conns|]. apply lost_set; [|done]. destruct (proj2 Hs j t Hj) as [H1 H2]. by split.
Qed.

Lemma lost_release i j s : j <> i -> lost i s -> lost i (tcp_release j s).
Proof.
  intros Hne Hs. unfold tcp_release. destruct (conns s !! j) as [t|] eqn:Hj; [|done]. destruct (reclaimed t); [done|].
  apply lost_set; [|done]. destruct (proj2 Hs j t Hj) as [_ H2]. split; [done|exact H2].
Qed.

Lemma reap_scan_elem l i best j t : reap_scan i best l = Some (j, t) ->
  best = Some (j, t) \/ exists k, j = (i + k)%nat /\ l !! k = Some t /\ reapable t = true.
Proof.
  revert i best. induction l as [|a l IH]; intros i best; cbn [reap_scan]; [by left|].
  assert (Hr : forall b, reap_scan (S i) b l = Some (j, t) -> b = Some (j, t) \/
    exists k, j = (i + k)%nat /\ (a :: l) !! k = Some t /\ reapable t = true).
  { intros b H. destruct (IH _ _ H) as [?|(k & -> & Hk & Hr)]; [by left|]. right. exists (S k). split_and!; [lia|done|done]. }
  assert (H0 : reapable a = true -> (i, a) = (j, t) -> exists k, j = (i + k)%nat /\ (a :: l) !! k = Some t /\ reapable t = true).
  { intros Ha [= <- <-]. exists 0%nat. split_and!; [lia|done|done]. }
  destruct (reapable a) eqn:Ha; cbn [negb]; [|by intros H; apply Hr]. destruct (_ =s _); [intros [= E1 E2]; right; apply H0; congruence|].
  destruct (_ && _); intros H; [|by apply Hr]. destruct (Hr _ H) as [[= E1 E2]|?]; [right; apply H0; congruence|by right].
Qed.

(** [tcp_alloc] takes a free slot or one whose socket is gone. *)
Lemma tcp_alloc_not i t s k s' : conns s !! i = Some t -> stuck t -> tcp_alloc s = Some (k, s') -> k <> i.
Proof.
  intros Hi (S1 & S2 & S3 & S4). unfold tcp_alloc.
  destruct (list_find _ _) as [[j u]|] eqn:E.
  - apply list_find_Some in E as (E1 & E2 & _). intros [= <- _] ->. congruence.
  - unfold reap_dead_locked. destruct (reap_scan 0 None (conns s)) as [[j u]|] eqn:Er; [|done]. intros [= <- _] ->.
    destruct (reap_scan_elem _ _ _ _ _ Er) as [?|(m & -> & Hm & Hr)]; [done|]. cbn [Nat.add] in Hi.
    unfold reapable in Hr. rewrite Hi in Hm. injection Hm as <-. rewrite S2, andb_false_r in Hr. done.
Qed.

(** ** The operations *)

Lemma lost_timed c i j t t' s : conns s !! j = Some t -> timed true c t' t -> lost i s -> lost i (tcp_tx_flush j (unlock j t' s)).
Proof. intros Hj [E H _ _] Hs. apply lost_flush. eapply lost_unlock; [exact Hj|exact E|auto|exact Hs]. Qed.

Lemma lost_on_conn i j f s : (forall t, accept_q (f t) = accept_q t) -> j <> i -> lost i s -> lost i (on_conn j f s).
Proof.
  intros Hf Hne Hs. unfold on_conn. destruct (conns s !! j) as [t|] eqn:Hj; [|done]. apply lost_flush, lost_unlock_good; [|done].
  split; [done|]. rewrite Hf. by apply (proj2 Hs j t).
Qed.

Lemma timed_queue k c t' t : timed k c t' t -> accept_q t' = accept_q t.
Proof. intros [E _ _ _]. unfold slot_fields in E. congruence. Qed.

Lemma lost_input_conn c i j seg s : clk_ok c -> lost i s -> lost i (input_conn c j seg s).
Proof.
  intros Hc Hs. unfold input_conn. destruct (conns s !! j) as [t|] eqn:Hj; [|done].
  set (p := parent t ≫= _). pose proof (tcp_segment_timed c Hc true j p seg t) as [E H _ _].
  pose proof (tcp_segment_parent c j p seg t) as Hp.
  destruct (tcp_segment c j p seg t) as [t' p']. cbn [fst snd] in *.
  assert (Hu : lost i (unlock j t' s)) by (eapply lost_unlock; [exact Hj|exact E|auto|exact Hs]).
  destruct (parent t) as [k|]; [|done]. destruct p' as [l'|]; [|done].
  destruct (Hp l' eq_refl) as (l & Hl & Hl'). cbn in Hl. subst p. apply lost_set; [|done].
  destruct (proj2 Hs k l Hl) as [G1 G2]. destruct Hl' as [->|[-> Hsr]]; [by split|]. split; [exact G1|].
  unfold wake. fields. rewrite elem_of_app, list_elem_of_singleton. intros [?| ->]; [done|].
  destruct (proj2 Hs j t Hj) as [G3 _]. destruct (G3 eq_refl) as (_ & _ & _ & G4). congruence.
Qed.

Lemma lost_alloc i s k s' : tcp_alloc s = Some (k, s') -> lost i s -> k <> i /\ lost i s'.
Proof.
  intros E Hs. destruct (proj1 Hs) as [t Hi]. assert (Hne : k <> i).
  { eapply tcp_alloc_not; [exact Hi| |exact E]. by apply (proj2 Hs i t Hi). }
  split; [done|]. unfold tcp_alloc in E. set (x := match list_find _ _ with Some _ => _ | None => _ end) in E.
  destruct x as [[j u]|]; [|done]. injection E as -> <-. apply lost_set; [|done]. split; [done|]. cbn. apply not_elem_of_nil.
Qed.

Lemma lost_input c isn src dst seg i s : clk_ok c -> lost i s -> lost i (tcp_input c isn src dst seg s).
Proof.
  intros Hc Hs. unfold tcp_input. destruct (negb _); [done|]. cbv zeta.
  assert (Hrst : forall h n, lost i (send_rst_raw src dst h n s)).
  { intros h n. unfold send_rst_raw. destruct (ctrue _); [done|]. cbv zeta. by eapply lost_conns; [apply tx_now_conns|]. }
  destruct (tcp_find _ _ _ _ _) as [j|]; [by apply lost_flush, lost_input_conn|].
  set (x := if _ && _ then _ else None). destruct x as [l|]; [|apply Hrst]. destruct (tcp_alloc s) as [[j s1]|] eqn:Ea; [|apply Hrst].
  destruct (lost_alloc i s j s1 Ea Hs) as [Hne H1]. destruct (conns s1 !! j) as [t|] eqn:Hj; [|done].
  destruct (passive_open_timed c l src dst isn seg t Hc) as (t1 & [E _ _ _] & _ & _ & _ & _ & _ & _ & E'). revert E.
  generalize (passive_open c l src dst isn seg t). intros t' E. unfold slot_fields in E. injection E as _ _ _ E _ _ _.
  apply lost_flush, lost_unlock_good; [|done]. split; [done|]. rewrite E, E'. by apply (proj2 H1 j t).
Qed.

(** A pass of the timer. *)
Definition same_slot (t' t : tcb) : Prop :=
  slot_fields t' = slot_fields t /\ (state t = TCP_CLOSED -> state t' = TCP_CLOSED).

Lemma book_same t' t : book t' = book t -> same_slot t' t.
Proof. unfold book. intros E. injection E as E1 E2 E3 E4 E5 E6 E0 E7 _ _ _ _ _ _ _. split; [unfold slot_fields; congruence|congruence]. Qed.

Lemma same_slot_trans t1 t2 t3 : same_slot t1 t2 -> same_slot t2 t3 -> same_slot t1 t3.
Proof. intros [A1 A2] [B1 B2]. split; [congruence|auto]. Qed.

Lemma closed_same c e t : same_slot (enter_closed c e t) t.
Proof. destruct (enter_closed_timed c true e t) as [E H _ _]. split; auto. Qed.

Lemma tick_rto_same c t : same_slot (tick_rto c t) t.
Proof.
  unfold tick_rto. cbv zeta. set (t1 := cc_on_timeout t <| rto_ticks := _ |> <| rto_deadline := _ |>).
  apply (same_slot_trans _ t1); [|by split]. clearbody t1.
  destruct (state t1); apply book_same; first [apply send_flags_book|apply retransmit_book].
Qed.

Lemma tick_persist_same c t : same_slot (tick_persist c t) t.
Proof.
  unfold tick_persist. cbv zeta. set (t1 := t <| persist_shift := _ |> <| persist_deadline := _ |>).
  apply (same_slot_trans _ t1); [|by split]. clearbody t1.
  destruct (_ <? snd_len t1); apply book_same; [apply tx_queue_book|apply send_flags_book].
Qed.

Lemma tick_conn_same c t t' : tick_conn c t = Keep t' -> same_slot t' t.
Proof.
  unfold tick_conn. cbv zeta. destruct (due (timewait_deadline t) _).
  { intros [= <-]. eapply same_slot_trans; [apply closed_same|]. by split. }
  destruct (_ && negb _); [done|]. destruct (due (establish_deadline t) _).
  { intros [= <-]. eapply same_slot_trans; [apply closed_same|]. by split. }
  assert (Hx : forall b u, (if due (rto_deadline t) (ticks c)
     then if TCP_MAX_RETRIES <? retries (t <| retries := u8 (retries t + 1) |>)
          then (true, enter_closed c ETIMEDOUT (t <| retries := u8 (retries t + 1) |>))
          else (false, tick_rto c (t <| retries := u8 (retries t + 1) |>))
     else (false, t)) = (b, u) -> same_slot u t).
  { intros b u. destruct (due _ _); [|intros [= <- <-]; by split].
    set (t0 := t <| retries := _ |>). assert (H0 : same_slot t0 t) by by split. clearbody t0.
    destruct (_ <? _); intros [= <- <-]; (eapply same_slot_trans; [|exact H0]); [apply closed_same|apply tick_rto_same]. }
  destruct (if due (rto_deadline t) _ then _ else _) as [b u]. specialize (Hx b u eq_refl).
  destruct b; intros [= <-]; [done|].
  set (v := if due (delack_deadline u) _ then _ else u). assert (Hv : same_slot v t).
  { eapply same_slot_trans; [|exact Hx]. unfold v. destruct (due _ _); [|by split].
    eapply same_slot_trans; [apply book_same, send_flags_book|by split]. }
  clearbody v. destruct (due (persist_deadline v) _); [|done]. eapply same_slot_trans; [apply tick_persist_same|done].
Qed.

Lemma stuck_kept c t : stuck t -> tick_conn c t <> Release.
Proof.
  intros (_ & G2 & _). unfold tick_conn. cbv zeta. rewrite G2. cbn [andb].
  destruct (due _ _); [done|]. destruct (due _ _); [done|]. by destruct (if due (rto_deadline t) _ then _ else _) as [[] ?].
Qed.

Lemma lost_timer_fn c i p s : spared i p -> lost i s ->
  let x := tcp_timer_fn c p s in spared i (fst x) /\ lost i (snd x).
Proof.
  intros Hp Hs. destruct p as [|now j|now j|now j|now j|next j|next j k]; [done|..]; cbv zeta; cbn [tcp_timer_fn tcp_timer_tick].
  - destruct (conns s !! j) as [t|]; [|done]. by destruct (negb _).
  - destruct (conns s !! j) as [t|] eqn:Hj; [|done]. destruct (tick_conn _ t) as [|t'] eqn:Et; cbn [fst snd]; (split; [|try done]).
    + intros ->. destruct (proj2 Hs i t Hj) as [G _]. by eapply stuck_kept; [apply G|exact Et].
    + done.
    + destruct (tick_conn_same _ t t' Et) as [E H]. eapply lost_unlock; [exact Hj|exact E|auto|exact Hs].
  - split; [done|]. by apply lost_flush.
  - split; [done|]. by apply lost_release.
  - destruct (conns s !! j) as [t|]; [by destruct (negb _)|]. by destruct (_ =? UINT64_MAX).
  - destruct (conns s !! j) as [t|]; [|done]. cbn [fst snd]. split; [|done].
    do 8 (destruct k as [|k]; cbn [scan_read spared lookup list_lookup]; [try done; by ifs|]). done.
Qed.

Lemma lost_close_end c i j st s : clk_ok c -> j <> i -> lost i s -> lost i (close_end c j st s).
Proof.
  intros Hc Hne Hs. unfold close_end. destruct (conns s !! j) as [t|] eqn:Hj; [|done].
  assert (H2 : lost i (tcp_release j (tcp_tx_flush j (unlock j (set_state c TCP_CLOSED
      (if st =s TCP_SYN_SENT then send_flags TCP_RST (snd_nxt t) t else t)) s)))).
  { apply lost_release; [done|]. eapply (lost_timed c); [exact Hj| |done].
    eapply timed_trans; [by apply set_state_timed; left|]. destruct (_ =s _); [apply book_timed, send_flags_book|apply timed_refl]. }
  destruct st; first [exact Hs|exact H2|by eapply (lost_timed c); [exact Hj|apply tcp_shutdown_timed|]].
Qed.

Lemma lost_close_orphan c i j s : j <> i -> lost i s -> lost i (close_orphan c s j).
Proof.
  intros Hne Hs. unfold close_orphan. destruct (conns s !! j) as [t|] eqn:Hj; [|done]. cbv zeta.
  apply lost_release; [done|]. apply lost_flush, lost_unlock_good; [|done]. split; [done|].
  rewrite (timed_queue true c _ (t <| sock_gone := true |>)); [by apply (proj2 Hs j t)|].
  eapply timed_trans; [by apply set_state_timed; left|]. apply book_timed, send_flags_book.
Qed.

(** Whatever happens to the other slots. *)
Lemma call_lost i s o : op_ok o -> names o <> Some i -> lost i s -> lost i (exec_call s o) /\ i ∉ gains s o.
Proof.
  intros Ho Hn Hs. destruct o as [c isn src dst seg| |j ip port|j c ip dst port isn|j c depth|j c d|j n pk|j c|j|j b|j|j c|j c|j c st|d r|c|c];
    cbn [exec_call op_ok op_clk from_option names gains] in *; try (split; [|by apply not_elem_of_nil]).
  - by apply lost_input.
  - destruct (tcp_alloc s) as [[k s']|] eqn:E; [|by split; [|apply not_elem_of_nil]].
    destruct (lost_alloc i s k s' E Hs) as [Hk H]. split; [done|]. rewrite list_elem_of_singleton. congruence.
  - apply lost_on_conn; [reflexivity|congruence|done].
  - apply lost_on_conn; [intros t; by eapply timed_queue, tcp_connect_timed|congruence|done].
  - apply lost_on_conn; [|congruence|done]. intros t. unfold tcp_listen. destruct (_ && _); [done|]. cbv zeta. cbn [snd].
    rewrite (timed_queue false c _ _ (set_state_timed c false TCP_LISTEN _ ltac:(done))). reflexivity.
  - apply lost_on_conn; [intros t; by eapply timed_queue, (tcp_send_timed c Ho true)|congruence|done].
  - apply lost_on_conn; [intros t; by eapply timed_queue, (tcp_recv_timed (Clk 0 0) true)|congruence|done].
  - apply lost_on_conn; [intros t; by eapply timed_queue, (tcp_shutdown_timed c Ho true)|congruence|done].
  - apply lost_on_conn; [reflexivity|congruence|done].
  - apply lost_on_conn; [reflexivity|congruence|done].
  - unfold accept_pop. destruct (conns s !! j) as [t|] eqn:Hj; [|by split; [|apply not_elem_of_nil]].
    destruct (proj2 Hs j t Hj) as [G1 G2]. destruct (accept_q t) as [|k q] eqn:Hq; [by split; [|apply not_elem_of_nil]|].
    rewrite elem_of_cons in G2. split; [|rewrite list_elem_of_singleton; tauto]. apply lost_set; [|done]. split; [congruence|].
    change (i ∉ q). tauto.
  - unfold close_begin. destruct (conns s !! j) as [t|] eqn:Hj; [|by split; [|apply not_elem_of_nil]]. cbv zeta.
    destruct (proj2 Hs j t Hj) as [G1 G2].
    destruct (_ =s _); (split; [apply lost_unlock_good; [split; [congruence|]|done]|]); first [exact G2|apply not_elem_of_nil].
  - apply lost_close_orphan; [congruence|done].
  - apply lost_close_end; [done|congruence|done].
  - unfold tcp_fault_inject. cbv zeta. by destruct (Tcp.held _).
  - done.
  - done.
Qed.

Lemma exec_lost i x o : op_ok o -> names o <> Some i -> lost i (tbl x) -> spared i (cb x) ->
  lost i (tbl (exec_op x o)) /\ spared i (cb (exec_op x o)) /\ i ∉ gains (tbl x) o.
Proof.
  intros Ho Hn Hs Hp. destruct (call_lost i (tbl x) o Ho Hn Hs) as [H1 H2].
  destruct o; try (by split_and!); cbn [exec_op]; (split; [|split; [|done]]).
  1,2: unfold timer_fires; destruct (cb x); try done; destruct (tcp_timer (tbl x)) as [e|]; try done; by destruct (e <=? jiffies c).
  all: destruct (lost_timer_fn c i (cb x) (tbl x) Hp Hs) as [G1 G2]; by destruct (tcp_timer_fn _ _ _).
Qed.

(** C39: a connection slot that nothing refers to is never used again.  Once a
    slot is in use and CLOSED with no socket, no running close, no accept queue and
    no release under way naming it, which is what a reset or the establishment timeout leaves of a
    half-open passive connection, it stays so whatever arrives, whatever the
    sockets do and however often the timer runs; and [tcp_alloc] never returns it. *)
Theorem orphan_forever i w os w' : Forall op_ok os -> orphan i w -> wrun os w = Some w' ->
  orphan i w' /\ (forall k s, tcp_alloc (tbl (tab w')) = Some (k, s) -> k <> i).
Proof.
  intros Ho Hw Hr. assert (Hw' : orphan i w').
  { revert w Ho Hw Hr. induction os as [|o os IH]; intros w Ho (H1 & H2 & H3); cbn [wrun]; [by intros [= <-]|].
    inversion_clear Ho as [|? ? Ho1 Ho2]. destruct (wexec w o) as [w1|] eqn:E; [|done]. apply IH; [done|]. unfold wexec in E.
    destruct (match names o with Some i => _ | None => _ end) eqn:En; [|done]. injection E as <-.
    assert (Hn : names o <> Some i) by (intros Hn; rewrite Hn in En; by apply bool_decide_eq_true in En).
    destruct (exec_lost i (tab w) o Ho1 Hn H2 H3) as (H4 & H5 & H6). split; [|done]. cbn [owned]. rewrite elem_of_app. tauto. }
  split; [done|]. intros k s E. by apply (lost_alloc i (tbl (tab w')) k s E), Hw'.
Qed.

(** A decision procedure for concrete tables. *)
Definition lostb (i : nat) (s : tcp) : bool :=
  match conns s !! i with
  | Some t => in_use t && negb (sock_gone t) && negb (reclaimed t) && (state t =s TCP_CLOSED)
              && forallb (fun u => bool_decide (i ∉ accept_q u)) (conns s)
  | None => false
  end.

Lemma lostb_lost i s : lostb i s = true -> lost i s.
Proof.
  unfold lostb. destruct (conns s !! i) as [t|] eqn:Hi; [|done]. rewrite !andb_true_iff, !negb_true_iff, forallb_forall.
  intros ((((H1 & H2) & H3) & H4) & H5). split; [by eexists|]. intros j u Hj. split.
  - intros ->. rewrite Hi in Hj. injection Hj as <-. apply bool_decide_eq_true in H4. by split_and!.
  - eapply bool_decide_eq_true, H5, list_elem_of_In, list_elem_of_lookup_2. exact Hj.
Qed.

(** One SYN and one RST, from 10.0.0.2 to a listener. *)
Definition syn_then_rst : list op :=
  let seg sq fl := build_segment 33554442 53764 16777343 20480 sq 0 fl 1000 0 [] in
  [Alloc; Bind 0 0 20480; Listen 0 (Clk 1 10) 5; Input (Clk 2 20) 77 33554442 16777343 (seg 5 TCP_SYN);
   Input (Clk 3 30) 0 33554442 16777343 (seg 999 TCP_RST)].

Lemma orphan_forever_witness :
  match wrun syn_then_rst (World sys_init []) with
  | Some w => orphan 1 w /\
              match wrun [Fire (Clk 9000 90000); Run (Clk 9000 90001); Accept 0; Alloc] w with Some w' => orphan 1 w' | None => False end
  | None => False
  end.
Proof.
  assert (Hc : match wrun syn_then_rst (World sys_init []) with
    | Some w => lostb 1 (tbl (tab w)) && bool_decide (owned w = [0%nat]) && match cb (tab w) with Idle => true | _ => false end = true | None => False end) by (vm_compute; reflexivity).
  destruct (wrun syn_then_rst (World sys_init [])) as [w|]; [|exact Hc]. apply andb_true_iff in Hc as [[H1 H2]%andb_true_iff H3].
  apply lostb_lost in H1. apply bool_decide_eq_true in H2.
  assert (Hw : orphan 1 w).
  { split; [rewrite H2, list_elem_of_singleton; done|]. split; [done|]. destruct (cb (tab w)); done. }
  split; [exact Hw|]. destruct (wrun [Fire (Clk 9000 90000); Run (Clk 9000 90001); Accept 0; Alloc] w) as [w'|] eqn:E.
  - refine (proj1 (orphan_forever 1 w [Fire (Clk 9000 90000); Run (Clk 9000 90001); Accept 0; Alloc] w' _ Hw E)).
    repeat (apply Forall_cons_2; [first [exact I|unfold op_ok, clk_ok; cbn [op_clk from_option ticks jiffies]; lia]|]). apply Forall_nil_2.
  - cbn [wrun wexec names] in E. unfold wexec in E. cbn [names owned] in E. rewrite H2 in E. done.
Defined.
