(* ===== verification/TcpFlaws.v ===== *)
(** * Where TCP loses data, connections or time (theorems on kernel/net/tcp.c)

    Small executions of the definitions of Tcp.v in which the code does not do
    what its comments, or TCP, ask for.  None of them arises between two of these
    endpoints (TcpOpen.v); they need another peer, a close that races with the timer,
    or a call in an unusual state. *)

From stdpp Require Import base numbers list functions.
From S2P Require Import Prelude Net Tcp TcpStream TcpRecv TcpSystem TcpOpen TcpFrame TcpTable.

(** An established connection: our stream starts at 1001, the peer's at 501. *)
Definition conn : tcb :=
  fresh tcb0 <| state := TCP_ESTABLISHED |> <| iss := 1000 |> <| snd_una := 1001 |> <| snd_nxt := 1001 |>
    <| irs := 500 |> <| rcv_nxt := 501 |> <| snd_wnd := 1000 |> <| cwnd := 1072 |>.

Definition from_peer (sq ak fl : Z) (d : list Z) : list Z := build_segment 2 80 1 90 sq ak fl 1000 0 d.

(** A FIN is taken although its segment did not fit the receive buffer: the
    second byte is acknowledged as if it were the FIN, and lost. *)
Example fin_over_dropped_byte :
  let t := conn <| rcv_len := TCP_RCVBUF - 1 |> in
  let t' := fst (tcp_segment (Clk 5 50) 0 None (from_peer 501 1001 (Z.lor TCP_FIN TCP_ACK) [65; 66]) t) in
  fin_rcvd t' = true /\ rcv_len t' = TCP_RCVBUF /\ rcv_nxt t' = 503 /\ state t' = TCP_CLOSE_WAIT.
Proof. vm_compute. by repeat split. Qed.

(** SYN_RECEIVED accepts an acknowledgement of nothing: the connection is
    established with its SYN still unacknowledged and no retransmission armed. *)
Example established_without_ack :
  let t := conn <| state := TCP_SYN_RECEIVED |> <| snd_una := 1000 |> <| rto_deadline := 77 |> in
  let t' := fst (tcp_segment (Clk 5 50) 0 None (from_peer 501 1000 TCP_ACK []) t) in
  state t' = TCP_ESTABLISHED /\ snd_una t' = 1000 /\ snd_nxt t' = 1001 /\ rto_deadline t' = 0.
Proof. vm_compute. by repeat split. Qed.

(** [snd_wl1] starts at 0, so every window update of a peer whose sequence
    numbers are in the upper half is taken for an old one. *)
Lemma window_updates_ignored c sq ak w t : snd_wl1 t = 0 -> 2147483648 < sq < W32 -> seg_window c sq ak w t = t.
Proof.
  intros Hw Hs. unfold seg_window. rewrite Hw.
  assert (seq_lt 0 sq = false) as -> by (apply Z.ltb_ge; unfold i32; dlia).
  destruct (Z.eqb_spec 0 sq); [lia|]. done.
Qed.

(** A refused connection keeps its [reset] mark through the next [tcp_connect]:
    it opens, and every send fails. *)
Example reconnect_cannot_send :
  let t := conn <| state := TCP_SYN_SENT |> in
  let t := fst (tcp_segment (Clk 5 50) 0 None (from_peer 0 1001 TCP_RST []) t) in
  let '(rc, t) := tcp_connect (Clk 6 60) (Some 1) 2 80 7000 t in
  let t := fst (tcp_segment (Clk 7 70) 0 None (from_peer 900 7001 (Z.lor TCP_SYN TCP_ACK) []) (t <| txq := [] |>)) in
  rc = 0 /\ state t = TCP_ESTABLISHED /\ fst (tcp_send (Clk 8 80) [1] t) = (- ECONNRESET, 0).
Proof. vm_compute. by repeat split. Qed.

(** A shutdown during the handshake: the FIN leaves once the connection is
    established, and the connection stays ESTABLISHED when it is acknowledged. *)
Example shutdown_before_established :
  let t := tcp_shutdown_write (Clk 4 40) (conn <| state := TCP_SYN_SENT |> <| snd_una := 1000 |>) in
  let t := fst (tcp_segment (Clk 5 50) 0 None (from_peer 500 1001 (Z.lor TCP_SYN TCP_ACK) []) t) in
  let t := fst (tcp_segment (Clk 6 60) 0 None (from_peer 501 1001 TCP_ACK []) t) in
  let t' := fst (tcp_segment (Clk 7 70) 0 None (from_peer 501 1002 TCP_ACK []) t) in
  fin_sent t = 2 /\ snd_una t' = snd_nxt t' /\ state t' = TCP_ESTABLISHED.
Proof. vm_compute. by repeat split. Qed.

(** A connection whose retransmissions gave up reads as an orderly end of file. *)
Example timeout_reads_as_eof :
  let t := conn <| snd_nxt := 1002 |> <| snd_len := 1 |> <| rto_deadline := 5 |> <| retries := 12 |> in
  match tick_conn (Clk 9 90) t with
  | Keep t' => so_error t' = ETIMEDOUT /\ fst (tcp_recv 10 false t') = (0, [])
  | Release => False
  end.
Proof. vm_compute. by repeat split. Qed.

(** Nothing times out a connection that waits for the peer's FIN, so a closed
    socket whose peer never closes keeps its slot. *)
Lemma fin_wait_2_waits_forever c t : state t = TCP_FIN_WAIT_2 -> deadlines t = [0; 0; 0; 0; 0] -> tick_conn c t = Keep t.
Proof.
  intros Hs [= H1 H2 H3 H4 H5]. unfold tick_conn. rewrite H1, H4, H5, Hs. change (due 0 (ticks c)) with false.
  change (TCP_FIN_WAIT_2 =s TCP_CLOSED) with false. rewrite andb_false_r. cbn [andb]. cbv iota zeta. rewrite H2. change (due 0 (ticks c)) with false. cbv iota. by rewrite H3.
Qed.

(** [tcp_release] is idempotent on one use of a slot only: when the timer has
    decided to release slot [i], and the closer releases it and the slot is handed
    out again before the timer's call, that call frees the new connection. *)
Theorem release_of_reused_slot c s i t s2 :
  conns s !! i = Some t -> tick_conn c t = Release -> tcp_alloc (tcp_release i s) = Some (i, s2) ->
  exists u, conns s2 !! i = Some u /\ in_use u = true /\ sock_gone u = false /\
    (in_use <$> conns (tcp_release i s2) !! i) = Some false.
Proof.
  intros Hi Ht Ha. unfold tcp_alloc in Ha. set (x := match list_find _ _ with Some _ => _ | None => _ end) in Ha.
  destruct x as [[j v]|]; [|done]. injection Ha as -> <-.
  assert (Hl : (i < length (conns (tcp_release i s)))%nat).
  { unfold tcp_release. rewrite Hi. destruct (reclaimed t); [by eapply lookup_lt_Some|].
    unfold set_conn. fields. rewrite length_insert. by eapply lookup_lt_Some. }
  assert (E : conns (set_conn i (fresh v) (tcp_release i s)) !! i = Some (fresh v)) by (by apply list_lookup_insert_eq).
  exists (fresh v). split_and!; [done..|]. unfold tcp_release at 1. rewrite E. change (reclaimed (fresh v)) with false. cbv iota.
  unfold set_conn at 1. fields. rewrite list_lookup_insert_eq; [done|]. unfold set_conn. fields. by rewrite length_insert.
Qed.
