(* ===== verification/Loop.v ===== *)
(** * Loops with no structural bound

    [while step s] runs [step] until it leaves with a value.  A body may itself contain a loop
    that does not end, so a turn is an option; [None] says that the loop is still running after
    [turns] turns.  The count is binary, so that the definitions built on it can be evaluated, and
    it exceeds every count that a volume with 32-bit sector numbers admits: a loop that is shown
    to end by [while_total] ends within it, one that cycles gives [None]. *)

From stdpp Require Import base numbers option.
From S2P Require Import Prelude.

Abbreviation turns := 1099511627776%positive.

Section loops.
Context {S R : Type}.
Implicit Types (step : S -> option (S + R)) (s : S) (r : R).

Fixpoint nloop (n : nat) step s : option (S + R) :=
  match n with
  | O => Some (inl s)
  | Datatypes.S n => match step s with Some (inl s') => nloop n step s' | o => o end
  end.

Fixpoint ploop (p : positive) step s : option (S + R) :=
  match p with
  | xH => step s
  | xO p => match ploop p step s with Some (inl s') => ploop p step s' | o => o end
  | xI p =>
    match step s with
    | Some (inl s') => match ploop p step s' with Some (inl s') => ploop p step s' | o => o end
    | o => o
    end
  end.

Definition while step s : option R :=
  match ploop turns step s with Some (inr r) => Some r | _ => None end.

Lemma nloop_add n m step s :
  nloop (n + m) step s = match nloop n step s with Some (inl s') => nloop m step s' | o => o end.
Proof. revert s. induction n as [|n IH]; intros s; simpl; [done|]. destruct (step s) as [[s'|r]|]; auto. Qed.

Lemma nloop_double n step s :
  nloop (2 * n) step s = match nloop n step s with Some (inl s') => nloop n step s' | o => o end.
Proof. replace (2 * n)%nat with (n + n)%nat by lia. apply nloop_add. Qed.

Lemma ploop_nloop p step s : ploop p step s = nloop (Pos.to_nat p) step s.
Proof.
  revert s. induction p as [p IH|p IH|]; intros s; cbn [ploop].
  - rewrite Pos2Nat.inj_xI. cbn [nloop]. destruct (step s) as [[s'|r]|]; [|done..].
    rewrite nloop_double, IH. destruct (nloop (Pos.to_nat p) step s') as [[s''|r]|]; auto.
  - rewrite Pos2Nat.inj_xO, nloop_double, IH. destruct (nloop (Pos.to_nat p) step s) as [[s'|r]|]; auto.
  - simpl. by destruct (step s) as [[s'|r]|].
Qed.

Lemma nloop_total (P : S -> Prop) (Q : R -> Prop) (m : S -> Z) step n s :
  (forall s, P s -> exists o, step s = Some o /\ match o with inl s' => P s' /\ 0 <= m s' < m s | inr r => Q r end) ->
  P s -> 0 <= m s < Z.of_nat n -> exists r, nloop n step s = Some (inr r) /\ Q r.
Proof.
  intros Hstep. revert s. induction n as [|n IH]; intros s Hp Hm; [lia|]. simpl.
  destruct (Hstep s Hp) as (o & -> & Ho). destruct o as [s'|r]; [|by exists r].
  destruct Ho as [Hp' Hm']. apply IH; [done|lia].
Qed.

(** Total correctness: an invariant and a measure that falls at every turn. *)
Lemma while_total (P : S -> Prop) (Q : R -> Prop) (m : S -> Z) step s :
  (forall s, P s -> exists o, step s = Some o /\ match o with inl s' => P s' /\ 0 <= m s' < m s | inr r => Q r end) ->
  P s -> 0 <= m s < Z.pos turns -> exists r, while step s = Some r /\ Q r.
Proof.
  intros Hstep Hp Hm. unfold while. rewrite ploop_nloop.
  destruct (nloop_total P Q m step (Pos.to_nat turns) s Hstep Hp) as (r & -> & Hr); [rewrite positive_nat_Z; done|by exists r].
Qed.

(** The same with the measure as an index of the invariant. *)
Lemma while_indexed (P : Z -> S -> Prop) (Q : R -> Prop) step s k :
  (forall k s, P k s -> exists o, step s = Some o /\ match o with inl s' => exists k', 0 <= k' < k /\ P k' s' | inr r => Q r end) ->
  P k s -> 0 <= k < Z.pos turns -> exists r, while step s = Some r /\ Q r.
Proof.
  intros Hstep Hp Hk. unfold while. rewrite ploop_nloop. rewrite <- (positive_nat_Z turns) in Hk.
  assert (H : exists r, nloop (Pos.to_nat turns) step s = Some (inr r) /\ Q r); [|destruct H as (r & -> & Hr); by exists r].
  revert k s Hp Hk. generalize (Pos.to_nat turns). intros m. induction m as [|m IH]; intros k s Hp Hk; [lia|]. cbn [nloop].
  destruct (Hstep k s Hp) as (o & -> & Ho). destruct o as [s'|r]; [|by exists r]. destruct Ho as (k' & Hk' & Hp'). apply (IH k'); [done|lia].
Qed.

(** Partial correctness: what holds of every value the loop can leave with. *)
Lemma while_partial (P : S -> Prop) (Q : R -> Prop) step s r :
  (forall s o, P s -> step s = Some o -> match o with inl s' => P s' | inr r => Q r end) ->
  P s -> while step s = Some r -> Q r.
Proof.
  intros Hstep Hp. unfold while. rewrite ploop_nloop. generalize (Pos.to_nat turns). intros n. revert s Hp.
  induction n as [|n IH]; intros s Hp; simpl; [done|]. destruct (step s) as [[s'|r']|] eqn:E; [| |done].
  - apply IH. exact (Hstep s _ Hp E).
  - intros [= <-]. exact (Hstep s _ Hp E).
Qed.

(** A loop whose states stay inside a set it never leaves from. *)
Lemma while_diverges (P : S -> Prop) step s :
  (forall s, P s -> exists s', step s = Some (inl s') /\ P s') -> P s -> while step s = None.
Proof.
  intros Hstep Hp. unfold while. rewrite ploop_nloop. generalize (Pos.to_nat turns). intros n. revert s Hp.
  induction n as [|n IH]; intros s Hp; simpl; [done|]. destruct (Hstep s Hp) as (s' & -> & Hp'). auto.
Qed.
End loops.

(** Sequencing with a value that is known. *)
Lemma some_bind {A B} (f : A -> option B) x : Some x ≫= f = f x.
Proof. reflexivity. Qed.
