(* ===== verification/Bytes.v ===== *)
(** * Byte arrays

    A buffer is the list of its bytes.  [slice] is what a pointer into it with a length denotes,
    [splice] a copy into it; [ld16], [ld32], [st16] and [st32] are the loads and stores of the
    little-endian integers of packed structures. *)

From stdpp Require Import base numbers list.
From S2P Require Import Prelude.

Definition is_byte (b : Z) : Prop := 0 <= b < W8.
Abbreviation zlen l := (Z.of_nat (length l)).

Definition slice (s : list Z) (o n : Z) : list Z := take (Z.to_nat n) (drop (Z.to_nat o) s).
Definition splice (s : list Z) (o : Z) (b : list Z) : list Z := take (Z.to_nat o) s ++ b ++ drop (Z.to_nat o + length b) s.

Fixpoint le_val (l : list Z) : Z := match l with [] => 0 | b :: l => b + 256 * le_val l end.
Fixpoint le_bytes (n : nat) (x : Z) : list Z := match n with O => [] | S n => x mod 256 :: le_bytes n (x / 256) end.

Definition ld16 (s : list Z) (o : Z) : Z := le_val (slice s o 2).
Definition ld32 (s : list Z) (o : Z) : Z := le_val (slice s o 4).
Definition st16 (s : list Z) (o x : Z) : list Z := splice s o (le_bytes 2 x).
Definition st32 (s : list Z) (o x : Z) : list Z := splice s o (le_bytes 4 x).

(** ** Reading by index *)

Lemma zget_lookup (l : list Z) i x : 0 <= i -> l !! Z.to_nat i = Some x -> zget 0 l i = x.
Proof. intros Hi H. unfold zget. by rewrite nth_lookup, H. Qed.

Lemma zget_over (l : list Z) i : zlen l <= i -> zget 0 l i = 0.
Proof. intros H. unfold zget. apply nth_overflow. lia. Qed.

Lemma zget_ext (l k : list Z) : length l = length k -> (forall i, 0 <= i < zlen l -> zget 0 l i = zget 0 k i) -> l = k.
Proof.
  intros Hl Hg. apply (nth_ext _ _ 0 0 Hl). intros n Hn.
  specialize (Hg (Z.of_nat n) ltac:(lia)). unfold zget in Hg. by rewrite Nat2Z.id in Hg.
Qed.

Lemma zget_app (l k : list Z) i : 0 <= i -> zget 0 (l ++ k) i = if i <? zlen l then zget 0 l i else zget 0 k (i - zlen l).
Proof.
  intros Hi. unfold zget. destruct (Z.ltb_spec i (zlen l)).
  - by rewrite app_nth1 by lia.
  - rewrite app_nth2 by lia. f_equal. lia.
Qed.

Lemma zget_drop (l : list Z) o i : 0 <= o -> 0 <= i -> zget 0 (drop (Z.to_nat o) l) i = zget 0 l (o + i).
Proof. intros. unfold zget. rewrite !nth_lookup, lookup_drop. do 2 f_equal. lia. Qed.

Lemma zget_take (l : list Z) n i : 0 <= i < n -> zget 0 (take (Z.to_nat n) l) i = zget 0 l i.
Proof. intros. unfold zget. rewrite !nth_lookup. by rewrite lookup_take_lt by lia. Qed.

Lemma zget_slice s o n i : 0 <= o -> 0 <= i < n -> zget 0 (slice s o n) i = zget 0 s (o + i).
Proof. intros. unfold slice. rewrite zget_take by done. apply zget_drop; lia. Qed.

Lemma slice_length s o n : 0 <= o -> 0 <= n -> o + n <= zlen s -> length (slice s o n) = Z.to_nat n.
Proof. intros. unfold slice. rewrite length_take, length_drop. lia. Qed.

Lemma splice_length s o b : 0 <= o -> o + zlen b <= zlen s -> length (splice s o b) = length s.
Proof. intros. unfold splice. rewrite !length_app, length_take, length_drop. lia. Qed.

Lemma zget_splice s o b i : 0 <= o -> o + zlen b <= zlen s -> 0 <= i ->
  zget 0 (splice s o b) i = if (o <=? i) && (i <? o + zlen b) then zget 0 b (i - o) else zget 0 s i.
Proof.
  intros Ho Hs Hi. unfold splice. rewrite zget_app by lia. rewrite length_take. replace (Z.of_nat (Nat.min (Z.to_nat o) (length s))) with o by lia.
  destruct (Z.ltb_spec i o); destruct (Z.leb_spec o i); try lia; simpl.
  - apply zget_take. lia.
  - rewrite zget_app by lia. destruct (Z.ltb_spec (i - o) (zlen b)); destruct (Z.ltb_spec i (o + zlen b)); simpl; try done; try lia.
    replace (Z.to_nat o + length b)%nat with (Z.to_nat (o + zlen b)) by lia. rewrite zget_drop by lia. f_equal. lia.
Qed.

(** One byte of a stretch. *)
Lemma zset_splice s o n i x : 0 <= o -> 0 <= i < n -> o + n <= zlen s -> zset s (o + i) x = splice s o (zset (slice s o n) i x).
Proof.
  intros. assert (Es : zlen (slice s o n) = n) by (rewrite slice_length; lia).
  assert (El : zlen (zset (slice s o n) i x) = n) by (rewrite zset_length; lia).
  apply zget_ext; [rewrite splice_length, zset_length by lia; done|]. intros j Hj. rewrite zset_length in Hj.
  rewrite zget_splice, El by lia. rewrite zget_zset by lia. zcases; cbn [andb]; try lia; try done; rewrite zget_zset by lia; zcases; try lia; try done.
  rewrite zget_slice by lia. f_equal. lia.
Qed.

(** ** Slices of spliced buffers *)

Lemma slice_splice_same s o b : 0 <= o -> o + zlen b <= zlen s -> slice (splice s o b) o (zlen b) = b.
Proof.
  intros. apply zget_ext; [rewrite slice_length; rewrite ?splice_length; lia|].
  intros i Hi. rewrite slice_length in Hi by (rewrite ?splice_length; lia). rewrite zget_slice by lia. rewrite zget_splice by lia.
  rewrite (proj2 (Z.leb_le _ _)), (proj2 (Z.ltb_lt _ _)) by lia. simpl. f_equal. lia.
Qed.

Lemma slice_splice_other s o b o' n : 0 <= o -> o + zlen b <= zlen s -> 0 <= o' -> 0 <= n -> o' + n <= zlen s ->
  o' + n <= o \/ o + zlen b <= o' -> slice (splice s o b) o' n = slice s o' n.
Proof.
  intros. apply zget_ext; [rewrite !slice_length; rewrite ?splice_length; lia|].
  intros i Hi. rewrite slice_length in Hi by (rewrite ?splice_length; lia). rewrite !zget_slice by lia. rewrite zget_splice by lia.
  destruct (Z.leb_spec o (o' + i)); destruct (Z.ltb_spec (o' + i) (o + zlen b)); simpl; try done. lia.
Qed.

Lemma splice_splice s o b c : 0 <= o -> o + zlen b <= zlen s -> length c = length b -> splice (splice s o b) o c = splice s o c.
Proof.
  intros. apply zget_ext; [rewrite !splice_length; rewrite ?splice_length; lia|].
  intros i Hi. rewrite !splice_length in Hi by (rewrite ?splice_length; lia). rewrite !zget_splice by (rewrite ?splice_length; lia).
  zcases; simpl; try done; lia.
Qed.

Lemma splice_all s b : length b = length s -> splice s 0 b = b.
Proof. intros H. unfold splice. simpl. rewrite H, drop_all. apply app_nil_r. Qed.

Lemma splice_self s o n : 0 <= o -> 0 <= n -> o + n <= zlen s -> splice s o (slice s o n) = s.
Proof.
  intros. apply zget_ext; [rewrite splice_length; rewrite ?slice_length; lia|].
  intros i Hi. rewrite splice_length in Hi by (rewrite ?slice_length; lia). rewrite zget_splice by (rewrite ?slice_length; lia). rewrite slice_length by lia.
  zcases; simpl; try done. rewrite zget_slice by lia. f_equal. lia.
Qed.

Lemma slice_all s : slice s 0 (zlen s) = s.
Proof. unfold slice. simpl. rewrite Nat2Z.id, drop_0. by rewrite firstn_all. Qed.

Lemma slice_0 s o : slice s o 0 = [].
Proof. done. Qed.

Lemma slice_slice s o n i m : 0 <= o -> 0 <= i -> 0 <= m -> i + m <= n -> o + n <= zlen s -> slice (slice s o n) i m = slice s (o + i) m.
Proof.
  intros. apply zget_ext; [rewrite !slice_length; rewrite ?slice_length; lia|].
  intros j Hj. rewrite slice_length in Hj by (rewrite ?slice_length; lia). rewrite !zget_slice by lia. f_equal. lia.
Qed.

Lemma slice_app_join s o n m : 0 <= o -> 0 <= n -> 0 <= m -> slice s o n ++ slice s (o + n) m = slice s o (n + m).
Proof.
  intros. unfold slice. rewrite (Z2Nat.inj_add n m), (Z2Nat.inj_add o n) by lia.
  rewrite <- drop_drop. rewrite <- (take_drop (Z.to_nat n) (drop (Z.to_nat o) s)) at 3.

  generalize (drop (Z.to_nat o) s). intros k. generalize (Z.to_nat n), (Z.to_nat m). intros a b. clear.
  revert a. induction k as [|x k IH]; intros [|a]; simpl; rewrite ?take_nil, ?drop_nil, ?take_0, ?drop_0; try done. f_equal. apply IH.
Qed.

(** ** Bytes *)

Lemma is_byte_0 : is_byte 0.
Proof. unfold is_byte. lia. Qed.

Lemma zget_byte s i : Forall is_byte s -> is_byte (zget 0 s i).
Proof. intros H. apply zget_Forall; [done|exact is_byte_0]. Qed.

Lemma slice_bytes s o n : Forall is_byte s -> Forall is_byte (slice s o n).
Proof. intros. unfold slice. by apply Forall_take, Forall_drop. Qed.

Lemma splice_bytes s o b : Forall is_byte s -> Forall is_byte b -> Forall is_byte (splice s o b).
Proof. intros. unfold splice. apply Forall_app. split; [by apply Forall_take|]. apply Forall_app. split; [done|]. by apply Forall_drop. Qed.

Lemma le_bytes_length n x : length (le_bytes n x) = n.
Proof. revert x. induction n as [|n IH]; intros x; simpl; [done|]. by rewrite IH. Qed.

Lemma le_bytes_bytes n x : Forall is_byte (le_bytes n x).
Proof.
  revert x. induction n as [|n IH]; intros x; simpl; [constructor|]. constructor; [|apply IH].
  unfold is_byte. apply Z.mod_pos_bound. lia.
Qed.

Lemma le_val_bytes n x : le_val (le_bytes n x) = x mod 256 ^ Z.of_nat n.
Proof.
  revert x. induction n as [|n IH]; intros x; [symmetry; apply Z.mod_1_r|]. cbn [le_bytes le_val]. rewrite IH.
  rewrite Nat2Z.inj_succ, Z.pow_succ_r by lia.
  rewrite Z.rem_mul_r by lia. lia.
Qed.

Lemma le_bytes_val l : Forall is_byte l -> le_bytes (length l) (le_val l) = l.
Proof.
  induction 1 as [|b l Hb Hl IH]; [done|]. cbn [length le_bytes le_val]. unfold is_byte in Hb. f_equal; [dlia|].
  replace ((b + 256 * le_val l) / 256) with (le_val l) by dlia. done.
Qed.

Lemma le_val_range l : Forall is_byte l -> 0 <= le_val l < 256 ^ zlen l.
Proof.
  induction 1 as [|b l Hb Hl IH]; [done|]. cbn [length le_val]. unfold is_byte in Hb.
  rewrite Nat2Z.inj_succ, Z.pow_succ_r by lia. lia.
Qed.

(** ** Loads and stores *)

Lemma ld16_range s o : Forall is_byte s -> 0 <= ld16 s o < W16.
Proof.
  intros H. pose proof (le_val_range _ (slice_bytes s o 2 H)) as Hr. unfold ld16. split; [lia|].
  eapply Z.lt_le_trans; [apply Hr|]. change W16 with (256 ^ 2). apply Z.pow_le_mono_r; [lia|].
  unfold slice. rewrite length_take. lia.
Qed.

Lemma ld32_range s o : Forall is_byte s -> 0 <= ld32 s o < W32.
Proof.
  intros H. pose proof (le_val_range _ (slice_bytes s o 4 H)) as Hr. unfold ld32. split; [lia|].
  eapply Z.lt_le_trans; [apply Hr|]. change W32 with (256 ^ 4). apply Z.pow_le_mono_r; [lia|].
  unfold slice. rewrite length_take. lia.
Qed.

Lemma ld16_st16 s o x : 0 <= o -> o + 2 <= zlen s -> ld16 (st16 s o x) o = u16 x.
Proof.
  intros. unfold ld16, st16. pose proof (slice_splice_same s o (le_bytes 2 x)) as E. rewrite le_bytes_length in E.
  change (Z.of_nat 2) with 2 in E. rewrite E by lia. apply le_val_bytes.
Qed.

Lemma ld32_st32 s o x : 0 <= o -> o + 4 <= zlen s -> ld32 (st32 s o x) o = u32 x.
Proof.
  intros. unfold ld32, st32. pose proof (slice_splice_same s o (le_bytes 4 x)) as E. rewrite le_bytes_length in E.
  change (Z.of_nat 4) with 4 in E. rewrite E by lia. apply le_val_bytes.
Qed.

Lemma slice_st16 s o x o' n : 0 <= o -> o + 2 <= zlen s -> 0 <= o' -> 0 <= n -> o' + n <= zlen s ->
  o' + n <= o \/ o + 2 <= o' -> slice (st16 s o x) o' n = slice s o' n.
Proof. intros. apply slice_splice_other; rewrite ?le_bytes_length; lia. Qed.

Lemma slice_st32 s o x o' n : 0 <= o -> o + 4 <= zlen s -> 0 <= o' -> 0 <= n -> o' + n <= zlen s ->
  o' + n <= o \/ o + 4 <= o' -> slice (st32 s o x) o' n = slice s o' n.
Proof. intros. apply slice_splice_other; rewrite ?le_bytes_length; lia. Qed.

Lemma st16_length s o x : 0 <= o -> o + 2 <= zlen s -> length (st16 s o x) = length s.
Proof. intros. apply splice_length; rewrite ?le_bytes_length; lia. Qed.

Lemma st32_length s o x : 0 <= o -> o + 4 <= zlen s -> length (st32 s o x) = length s.
Proof. intros. apply splice_length; rewrite ?le_bytes_length; lia. Qed.

Lemma st16_bytes s o x : Forall is_byte s -> Forall is_byte (st16 s o x).
Proof. intros. apply splice_bytes; [done|apply le_bytes_bytes]. Qed.

Lemma st32_bytes s o x : Forall is_byte s -> Forall is_byte (st32 s o x).
Proof. intros. apply splice_bytes; [done|apply le_bytes_bytes]. Qed.

Create HintDb bytes.
#[export] Hint Resolve is_byte_0 zget_byte slice_bytes splice_bytes le_bytes_bytes st16_bytes st32_bytes : bytes.

(** A field packed above one of [k] bits. *)
Lemma lor_pack k a b : 0 <= k -> 0 <= b < 2 ^ k -> Z.lor (Z.shiftl a k) b = a * 2 ^ k + b.
Proof.
  intros Hk Hb. rewrite Z.shiftl_mul_pow2 by done. assert (Z.land (a * 2 ^ k) b = 0) as H.
  { apply Z.bits_inj'. intros i Hi. rewrite Z.land_spec, Z.bits_0, <- (Z.mod_small b (2 ^ k)) by lia.
    destruct (Z.ltb_spec i k); [by rewrite Z.mul_pow2_bits_low|by rewrite Z.mod_pow2_bits_high, andb_false_r by lia]. }
  by rewrite <- Z.lxor_lor, <- Z.add_nocarry_lxor.
Qed.

Lemma land_mask m k x : 0 <= k -> m = 2 ^ k - 1 -> Z.land x m = x mod 2 ^ k.
Proof. intros Hk ->. by apply land_low. Qed.
