(* ===== verification/Fat.v ===== *)
(** * The FAT volume (kernel/fs/fatfs.c): table, cluster chains and file data

    A volume is its geometry and the block device below it, seen through the sector cache: the
    class [BlockStore] has the two calls the driver makes.  A read returns whether it succeeded
    and what the 512-byte buffer of the caller then holds; several callers use the buffer without
    looking at the result.  Loops over chains that come from the disk are [while] loops, so an
    operation on a cyclic chain is [None]. *)

From stdpp Require Import base numbers list option.
From S2P Require Import Prelude Loop Bytes.

Class BlockStore (D : Type) := {
  blkcache_read : D -> Z -> bool * list Z;
  blkcache_write : D -> Z -> list Z -> bool * D;
}.

Abbreviation SECTOR_SIZE := 512.
Abbreviation ENOSPC := 28.

(** A conversion to [int]. *)
Definition to_int (z : Z) : Z := (z + 2147483648) mod W32 - 2147483648.

Inductive fat_variant := FAT_16 | FAT_32.

Record fat_volume := Volume {
  variant : fat_variant;
  bytes_per_sector : Z;
  sectors_per_cluster : Z;
  fat_start_lba : Z;
  data_start_lba : Z;
  sectors_per_fat : Z;
  num_fats : Z;
  root_dir_start_lba : Z;
  root_dir_sector_count : Z;
  root_entry_count : Z;
  root_cluster : Z;
  next_free_hint : Z;
}.
#[export] Instance eta_volume : Eta fat_volume := fun v =>
  Volume (variant v) (bytes_per_sector v) (sectors_per_cluster v) (fat_start_lba v) (data_start_lba v) (sectors_per_fat v)
    (num_fats v) (root_dir_start_lba v) (root_dir_sector_count v) (root_entry_count v) (root_cluster v) (next_free_hint v).

Definition is_32 (v : fat_volume) : bool := match variant v with FAT_32 => true | FAT_16 => false end.

Definition cluster_to_lba (v : fat_volume) (cluster : Z) : Z :=
  u32 (data_start_lba v + u32 (u32 (cluster - 2) * sectors_per_cluster v)).

(** Where the entry of [cluster] is in the first table: its sector and the offset in it. *)
Definition entry_size (v : fat_volume) : Z := if is_32 v then 4 else 2.
Definition fat_offset (v : fat_volume) (cluster : Z) : Z := u32 (cluster * entry_size v).
Definition fat_sector (v : fat_volume) (cluster : Z) : Z := u32 (fat_start_lba v + fat_offset v cluster / bytes_per_sector v).
Definition offset_in_sector (v : fat_volume) (cluster : Z) : Z := fat_offset v cluster mod bytes_per_sector v.

Definition fat_is_eoc (v : fat_volume) (cluster : Z) : bool := if is_32 v then 0x0FFFFFF8 <=? cluster else 0xFFF8 <=? cluster.
Definition fat_eoc_marker (v : fat_volume) : Z := if is_32 v then 0x0FFFFFFF else 0xFFFF.

(** A directory entry is its 32 bytes. *)
Definition dirent_cluster (v : fat_volume) (de : list Z) : Z :=
  if is_32 v then Z.lor (Z.shiftl (ld16 de 20) 16) (ld16 de 26) else ld16 de 26.
Definition dirent_set_cluster (v : fat_volume) (de : list Z) (cluster : Z) : list Z :=
  let de := st16 de 26 (u16 (Z.land cluster 0xFFFF)) in
  st16 de 20 (if is_32 v then u16 (Z.shiftr cluster 16) else 0).

Definition fat_entry_in_sector (v : fat_volume) (sector : list Z) (index : Z) : Z :=
  if is_32 v then Z.land (ld32 sector (index * 4)) 0x0FFFFFFF else ld16 sector (index * 2).

Record fat_walk := Walk { w_first : Z; w_index : Z; w_cluster : Z }.

Section volume.
Context {D : Type} `{BlockStore D}.
Implicit Types (v : fat_volume) (d : D).

Definition fat_rd d (lba : Z) : bool * list Z := blkcache_read d lba.
Definition fat_wr d (lba : Z) (buf : list Z) : bool * D := blkcache_write d lba buf.

(** ** Mounting *)

Definition fat_read_bpb d : option fat_volume :=
  let '(ok, s) := fat_rd d 0 in
  if negb ok then None else
  let bps := ld16 s 11 in
  let spc := zget 0 s 13 in
  let root_entries := ld16 s 17 in
  let fat_start := ld16 s 14 in
  let spf := if ctrue (ld16 s 22) then ld16 s 22 else ld32 s 36 in
  if (bps =? 0) || (spc =? 0) then None else
  let nfats := if ctrue (zget 0 s 16) then zget 0 s 16 else 1 in
  let root_start := u32 (fat_start + u32 (zget 0 s 16 * spf)) in
  let root_sectors := (root_entries * 32 + bps - 1) / bps in
  let data_start := u32 (root_start + root_sectors) in
  let total_sectors := if ctrue (ld16 s 19) then ld16 s 19 else ld32 s 32 in
  let data_sectors := u32 (total_sectors - data_start) in
  let cluster_count := data_sectors / spc in
  if cluster_count <? 4085 then None
  else if cluster_count <? 65525 then
    Some (Volume FAT_16 bps spc fat_start data_start spf nfats root_start root_sectors root_entries 0 2)
  else
    Some (Volume FAT_32 bps spc fat_start root_start spf nfats root_start 0 root_entries (ld32 s 44) 2).

(** ** The table *)

Definition fat16_next_cluster v d (cluster : Z) : Z :=
  let '(ok, sector) := fat_rd d (fat_sector v cluster) in
  if negb ok then 0x0FFFFFFF
  else if is_32 v then Z.land (ld32 sector (offset_in_sector v cluster)) 0x0FFFFFFF
  else ld16 sector (offset_in_sector v cluster).

(** The entry of [cluster] in its sector, set to [value]; the top four bits stay on FAT32. *)
Definition set_entry_in_sector v (sector : list Z) (cluster value : Z) : list Z :=
  let o := offset_in_sector v cluster in
  if is_32 v then st32 sector o (Z.lor (Z.land (ld32 sector o) 0xF0000000) (Z.land value 0x0FFFFFFF))
  else st16 sector o (u16 value).

Definition fat16_set_next_cluster v d (cluster value : Z) : D :=
  let '(ok, sector) := fat_rd d (fat_sector v cluster) in
  if negb ok then d
  else
    let sector := set_entry_in_sector v sector cluster value in
    foldl (fun d k => snd (fat_wr d (u32 (fat_sector v cluster + u32 (Z.of_nat k * sectors_per_fat v))) sector)) d
      (seq 0 (Z.to_nat (num_fats v))).

Definition total_entries v : Z := u32 (sectors_per_fat v * bytes_per_sector v) / entry_size v.
Definition per_sector v : Z := bytes_per_sector v / entry_size v.

(** The inner loop of the allocator: the free cluster it meets, or the one it stops at. *)
Definition alloc_scan v (sector : list Z) (limit : Z) : nat -> Z -> Z -> Z + Z :=
  fix scan n index cluster :=
    match n with
    | O => inl cluster
    | S n =>
      if (index <? per_sector v) && (cluster <? limit) then
        if fat_entry_in_sector v sector index =? 0 then inr cluster
        else scan n (index + 1) (cluster + 1)
      else inl cluster
    end.

(** One pass: the value to return, if the pass ends the search. *)
Definition alloc_pass v d (cluster limit : Z) : option (option Z) :=
  while (fun cluster =>
    Some (if cluster <? limit then
            let '(ok, sector) := fat_rd d (fat_sector v cluster) in
            if negb ok then inr (Some 0)
            else match alloc_scan v sector limit (Z.to_nat (per_sector v)) (cluster mod per_sector v) cluster with
                 | inl cluster => inl cluster
                 | inr cluster => inr (Some cluster)
                 end
          else inr None)) cluster.

Definition alloc_take v d (cluster : Z) : Z * fat_volume * D :=
  if cluster =? 0 then (0, v, d)
  else (cluster, v <| next_free_hint := u32 (cluster + 1) |>, fat16_set_next_cluster v d cluster (fat_eoc_marker v)).

Definition fat16_alloc_cluster v d : option (Z * fat_volume * D) :=
  if (total_entries v <=? 2) || (per_sector v =? 0) then Some (0, v, d)
  else
    let hint := if next_free_hint v <? 2 then 2 else next_free_hint v in
    let hint := if total_entries v <=? hint then 2 else hint in
    first ← alloc_pass v d hint (total_entries v);
    match first with
    | Some cluster => Some (alloc_take v d cluster)
    | None =>
      second ← alloc_pass v d 2 hint;
      Some (match second with Some cluster => alloc_take v d cluster | None => (0, v, d) end)
    end.

Definition fat16_free_chain v d (first_cluster : Z) : option (fat_volume * D) :=
  d ← while (fun '(cluster, d) =>
        Some (if (2 <=? cluster) && negb (fat_is_eoc v cluster)
              then inl (fat16_next_cluster v d cluster, fat16_set_next_cluster v d cluster 0)
              else inr d)) (first_cluster, d);
  Some (if (2 <=? first_cluster) && (first_cluster <? next_free_hint v) then v <| next_free_hint := first_cluster |> else v, d).

(** ** File data *)

Definition cluster_bytes v : Z := u32 (sectors_per_cluster v * bytes_per_sector v).

(** The walk forward by [n] links; [inl] is the early return on a chain that is too short. *)
Definition walk_loop v d : nat -> Z -> Z + Z :=
  fix walk n cluster :=
    match n with
    | O => inr cluster
    | S n =>
      let cluster := fat16_next_cluster v d cluster in
      if (cluster <? 2) || fat_is_eoc v cluster then inl cluster else walk n cluster
    end.

Definition cluster_at_offset v d (first_cluster byte_offset : Z) (w : fat_walk) : Z * fat_walk :=
  let cluster_index := byte_offset / cluster_bytes v in
  let '(cluster, i) :=
    if (w_first w =? first_cluster) && (2 <=? first_cluster) && (w_index w <=? cluster_index)
    then (w_cluster w, w_index w) else (first_cluster, 0) in
  match walk_loop v d (Z.to_nat (cluster_index - i)) cluster with
  | inl cluster => (cluster, w)
  | inr cluster => (cluster, Walk first_cluster cluster_index cluster)
  end.

(** The sector that holds byte [abs_offset] of a chain, the offset in it and the new cursor. *)
Definition locate v d (first_cluster abs_offset : Z) (w : fat_walk) : Z * Z * fat_walk :=
  let offset_in_cluster := abs_offset mod cluster_bytes v in
  let '(cluster, w) := cluster_at_offset v d first_cluster abs_offset w in
  (u32 (cluster_to_lba v cluster + offset_in_cluster / bytes_per_sector v), offset_in_cluster mod bytes_per_sector v, w).

(** [src] is [None] for a zero fill. *)
Definition write_range v d (chain_start write_position : Z) (src : option (list Z)) (len : Z) : option D :=
  while (fun '(written, w, d) =>
    Some (if written <? len then
            let '(lba, offset, w) := locate v d chain_start (u32 (write_position + written)) w in
            let to_write := Z.min (bytes_per_sector v - offset) (len - written) in
            let sector := snd (fat_rd d lba) in
            let bytes := match src with Some buf => slice buf written to_write | None => replicate (Z.to_nat to_write) 0 end in
            inl (written + to_write, w, snd (fat_wr d lba (splice sector offset bytes)))
          else inr d)) (0, Walk 0 0 0, d).

Definition fat16_read_at_v v d (first_cluster position len : Z) : option (Z * list Z) :=
  while (fun '(read_so_far, w, out) =>
    Some (if read_so_far <? len then
            let '(lba, offset, w) := locate v d first_cluster (u32 (position + read_so_far)) w in
            let to_read := Z.min (bytes_per_sector v - offset) (len - read_so_far) in
            let '(ok, sector) := fat_rd d lba in
            if negb ok then inr (read_so_far, out)
            else inl (read_so_far + to_read, w, out ++ slice sector offset to_read)
          else inr (read_so_far, out))) (0, Walk 0 0 0, []).

(** The last cluster of a chain and how many it has. *)
Definition chain_end v d (chain_start : Z) : option (Z * Z) :=
  while (fun '(c, n) =>
    Some (if negb (fat_is_eoc v (fat16_next_cluster v d c)) then inl (fat16_next_cluster v d c, u32 (n + 1)) else inr (c, n)))
    (chain_start, 1).

(** Append clusters until the chain has [needed]; [inl] is a full volume. *)
Definition extend_chain v d (chain_start last_cluster existing needed : Z) : option ((fat_volume * D) + (Z * fat_volume * D)) :=
  while (fun '(start, last, n, v, d) =>
    if n <? needed then
      '(new, v, d) ← fat16_alloc_cluster v d;
      Some (if new =? 0 then inr (inl (v, d))
            else if start =? 0 then inl (new, new, u32 (n + 1), v, d)
            else inl (start, new, u32 (n + 1), v, fat16_set_next_cluster v d last new))
    else Some (inr (inr (start, v, d)))) (chain_start, last_cluster, existing, v, d).

(** The error, or the number of bytes with the new first cluster and size. *)
Definition fat16_write_file_v v d (first_cluster current_size position : Z) (buf : list Z) (len : Z) :
    option ((Z + Z * Z * Z) * fat_volume * D) :=
  if len =? 0 then Some (inr (0, first_cluster, current_size), v, d)
  else
    let end_position := u32 (position + len) in
    let clusters_needed := u32 (end_position + cluster_bytes v - 1) / cluster_bytes v in
    '(last, existing) ← (if ctrue first_cluster then chain_end v d first_cluster else Some (0, 0));
    r ← extend_chain v d first_cluster last existing clusters_needed;
    match r with
    | inl (v, d) => Some (inl (- ENOSPC), v, d)
    | inr (chain_start, v, d) =>
      d ← (if current_size <? position then write_range v d chain_start current_size None (position - current_size) else Some d);
      d ← write_range v d chain_start position (Some buf) len;
      Some (inr (to_int len, chain_start, if current_size <? end_position then end_position else current_size), v, d)
    end.

(** ** The size and cluster of a directory entry *)

Definition fat16_update_entry_size_v v d (dir_lba dir_offset first_cluster size : Z) : D :=
  let sector := snd (fat_rd d dir_lba) in
  let entry := dirent_set_cluster v (slice sector dir_offset 32) first_cluster in
  snd (fat_wr d dir_lba (splice sector dir_offset (st32 entry 28 size))).

Definition fat16_truncate_v v d (first_cluster dir_lba dir_offset : Z) : option (fat_volume * D) :=
  '(v, d) ← (if ctrue first_cluster then fat16_free_chain v d first_cluster else Some (v, d));
  Some (v, fat16_update_entry_size_v v d dir_lba dir_offset 0 0).
End volume.
