(* ===== verification/FatTable.v ===== *)
(** * The allocation table of a FAT volume: proofs

    [BlockLaws] is what the driver is promised by the block layer on a device of [n] sectors
    without media errors; [vol_ok] is the geometry of a volume with [ncl] clusters on it.  On such
    a volume the table behaves as a map from cluster numbers to links, all copies of it stay
    equal, the allocator takes a free cluster exactly when there is one, and freeing a chain ends
    even when the chain is a cycle. *)

From stdpp Require Import base numbers list option sets relations.
From S2P Require Import Prelude Loop Bytes Fat.

Definition is_sector (s : list Z) : Prop := length s = 512%nat /\ Forall is_byte s.

(** What a sector buffer holds after a read. *)
Abbreviation img d l := (snd (blkcache_read d l)).

Class BlockLaws (D : Type) `{BlockStore D} (n : Z) := {
  rd_sector : forall d l, is_sector (img d l);
  rd_ok : forall d l, 0 <= l < n -> fst (blkcache_read d l) = true;
  wr_ok : forall d l s, 0 <= l < n -> is_sector s -> fst (blkcache_write d l s) = true;
  rd_wr : forall d l s l', 0 <= l < n -> 0 <= l' < n -> is_sector s ->
    img (snd (blkcache_write d l s)) l' = if l' =? l then s else img d l';
}.

Definition table_entries (v : fat_volume) : Z := sectors_per_fat v * 512 / entry_size v.

Record vol_ok (n ncl : Z) (v : fat_volume) : Prop := {
  ok_bps : bytes_per_sector v = 512;
  ok_spc : 1 <= sectors_per_cluster v <= 255;
  ok_fat : 1 <= fat_start_lba v;
  ok_spf : 1 <= sectors_per_fat v /\ sectors_per_fat v * 512 < W32;
  ok_nf : 1 <= num_fats v <= 255;
  ok_root : fat_start_lba v + num_fats v * sectors_per_fat v <= root_dir_start_lba v;
  ok_root_count : 0 <= root_dir_sector_count v;
  ok_data : root_dir_start_lba v + root_dir_sector_count v <= data_start_lba v;
  ok_ncl : 1 <= ncl /\ ncl + 2 <= table_entries v;
  ok_end : data_start_lba v + ncl * sectors_per_cluster v <= n;
  ok_n : n <= W32;
  ok_eoc : ncl + 2 <= if is_32 v then 0x0FFFFFF8 else 0xFFF8;
}.

(** ** Entries in a sector *)

Definition trunc (v : fat_volume) (x : Z) : Z := if is_32 v then Z.land x 0x0FFFFFFF else u16 x.

Lemma entry_size_cases v : entry_size v = 4 /\ is_32 v = true \/ entry_size v = 2 /\ is_32 v = false.
Proof. unfold entry_size. destruct (is_32 v); auto. Qed.

Lemma land_low28 x : Z.land x 0x0FFFFFFF = x mod 2 ^ 28.
Proof. change 0x0FFFFFFF with (Z.ones 28). by apply Z.land_ones. Qed.

Lemma trunc_range v x : 0 <= trunc v x < W32.
Proof. unfold trunc. rewrite land_low28. unfold u16. destruct (is_32 v); [pose proof (Z.mod_pos_bound x (2 ^ 28) ltac:(lia))|pose proof (Z.mod_pos_bound x W16 ltac:(lia))]; lia. Qed.

(** The reserved bits of the old value and the low bits of the new one. *)
Lemma merge28 a x : 0 <= a < W32 ->
  0 <= Z.lor (Z.land a 0xF0000000) (Z.land x 0x0FFFFFFF) < W32 /\
  Z.land (Z.lor (Z.land a 0xF0000000) (Z.land x 0x0FFFFFFF)) 0x0FFFFFFF = Z.land x 0x0FFFFFFF.
Proof.
  intros Ha. split.
  - assert (E : Z.lor (Z.land a 0xF0000000) (Z.land x 0x0FFFFFFF) = u32 (Z.lor (Z.land a 0xF0000000) (Z.land x 0x0FFFFFFF))); [|rewrite E; apply u32_range].
    unfold u32. change W32 with (2 ^ 32). rewrite <- Z.land_ones by lia. rewrite Z.land_lor_distr_l, <- !Z.land_assoc. by f_equal.
  - rewrite Z.land_lor_distr_l, <- !Z.land_assoc. change (Z.land 0xF0000000 0x0FFFFFFF) with 0. by rewrite Z.land_0_r.
Qed.

Lemma set_entry_sector v s c x : bytes_per_sector v = 512 -> is_sector s -> 0 <= c -> is_sector (set_entry_in_sector v s c x).
Proof.
  intros Hb [Hl Hs] Hc. unfold set_entry_in_sector, offset_in_sector, fat_offset. rewrite Hb.
  assert (Hm : forall y, 0 <= u32 (y * entry_size v) mod 512 /\ u32 (y * entry_size v) mod 512 + entry_size v <= 512).
  { intros y. unfold u32. destruct (entry_size_cases v) as [[-> _]|[-> _]]; dlia. }
  specialize (Hm c). unfold is_sector. destruct (entry_size_cases v) as [[E F]|[E F]]; rewrite F, E in *.
  - rewrite st32_length by lia. auto with bytes.
  - rewrite st16_length by lia. auto with bytes.
Qed.

Lemma entry_set_entry v s c x i :
  bytes_per_sector v = 512 -> is_sector s -> 0 <= c -> c * entry_size v < W32 -> 0 <= i < per_sector v ->
  fat_entry_in_sector v (set_entry_in_sector v s c x) i = if i =? c mod per_sector v then trunc v x else fat_entry_in_sector v s i.
Proof.
  intros Hb [Hl Hs] Hc Hw. unfold per_sector, set_entry_in_sector, offset_in_sector, fat_offset, fat_entry_in_sector, trunc.
  rewrite Hb, u32_small by (destruct (entry_size_cases v) as [[E F]|[E F]]; rewrite E in *; lia).
  destruct (entry_size_cases v) as [[E F]|[E F]]; rewrite E, F in *; intros Hi.
  - replace (c * 4 mod 512) with (c mod 128 * 4) by dlia. change (512 / 4) with 128 in *.
    assert (0 <= c mod 128 < 128) by (apply Z.mod_pos_bound; lia).
    destruct (Z.eqb_spec i (c mod 128)) as [->|Hne].
    + rewrite ld32_st32 by lia. destruct (merge28 (ld32 s (c mod 128 * 4)) x) as [Hr E2]; [by apply ld32_range|]. rewrite u32_small by done. done.
    + unfold ld32 at 1. rewrite slice_st32 by lia. done.
  - replace (c * 2 mod 512) with (c mod 256 * 2) by dlia. change (512 / 2) with 256 in *.
    assert (0 <= c mod 256 < 256) by (apply Z.mod_pos_bound; lia).
    destruct (Z.eqb_spec i (c mod 256)) as [->|Hne].
    + rewrite ld16_st16 by lia. apply u16_small, u16_range.
    + unfold ld16 at 1. rewrite slice_st16 by lia. done.
Qed.

(** ** The table as a map *)

(** Fewer elements satisfy a predicate that one of them stops satisfying. *)
Lemma countb_lt {A} (f g : A -> bool) l x :
  (forall y, y ∈ l -> f y = true -> g y = true) -> x ∈ l -> g x = true -> f x = false -> (countb f l < countb g l)%nat.
Proof.
  intros Hfg Hx Hg Hf. assert (Hle : forall k, (forall y, y ∈ k -> f y = true -> g y = true) -> (countb f k <= countb g k)%nat).
  { intros k. induction k as [|y k IH]; intros Hk; cbn [countb]; [done|]. specialize (IH ltac:(intros z Hz; apply Hk; by right)).
    destruct (f y) eqn:E; [rewrite (Hk y ltac:(left) E); lia|destruct (g y); lia]. }
  induction l as [|y l IH]; [by apply elem_of_nil in Hx|]. cbn [countb].
  apply elem_of_cons in Hx as [->|Hx].
  - rewrite Hf, Hg. specialize (Hle l ltac:(intros z Hz; apply Hfg; by right)). lia.
  - specialize (IH ltac:(intros z Hz; apply Hfg; by right) Hx). destruct (f y) eqn:E; [rewrite (Hfg y ltac:(left) E); lia|destruct (g y); lia].
Qed.

Section table.
Context {D : Type} `{HB : BlockStore D} {n ncl : Z} {HL : BlockLaws D n}.
Implicit Types (v : fat_volume) (d : D).

(** The first copy of the table, all copies, and the copies being equal. *)
Definition in_fats v (l : Z) : Prop := fat_start_lba v <= l < fat_start_lba v + num_fats v * sectors_per_fat v.
Definition mirrored v d : Prop :=
  forall k s, 0 <= k < num_fats v -> 0 <= s < sectors_per_fat v ->
    img d (fat_start_lba v + k * sectors_per_fat v + s) = img d (fat_start_lba v + s).

Lemma fat_rd_ok d l : 0 <= l < n -> fat_rd d l = (true, img d l).
Proof. intros Hl. unfold fat_rd. rewrite <- (rd_ok d l Hl). by destruct (blkcache_read d l). Qed.

Section geometry.
Context {v : fat_volume} (Hv : vol_ok n ncl v).

Lemma fats_below_data : fat_start_lba v + num_fats v * sectors_per_fat v <= data_start_lba v < n.
Proof using Hv. destruct Hv. nia. Qed.

Lemma fats_bound k s : 0 <= k < num_fats v -> 0 <= s < sectors_per_fat v ->
  fat_start_lba v <= fat_start_lba v + k * sectors_per_fat v + s < fat_start_lba v + num_fats v * sectors_per_fat v.
Proof using Hv. destruct Hv. nia. Qed.

Lemma total_entries_eq : total_entries v = table_entries v.
Proof using Hv. destruct Hv. unfold total_entries, table_entries. rewrite ok_bps0, u32_small by lia. done. Qed.

Lemma per_sector_cases : (entry_size v = 4 /\ is_32 v = true /\ per_sector v = 128) \/ (entry_size v = 2 /\ is_32 v = false /\ per_sector v = 256).
Proof using Hv. destruct Hv. unfold per_sector. rewrite ok_bps0. destruct (entry_size_cases v) as [[-> ->]|[-> ->]]; auto. Qed.

Lemma per_sector_eq : entry_size v * per_sector v = 512 /\ 1 <= per_sector v.
Proof using Hv. destruct per_sector_cases as [(-> & _ & ->)|(-> & _ & ->)]; lia. Qed.

Lemma table_entries_eq : table_entries v = sectors_per_fat v * per_sector v.
Proof using Hv.
  destruct Hv. unfold table_entries. destruct per_sector_cases as [(-> & _ & ->)|(-> & _ & ->)]; dlia.
Qed.

Lemma entry_small c : 0 <= c < table_entries v -> 0 <= c * entry_size v < W32.
Proof using Hv. destruct Hv. unfold table_entries. destruct (entry_size_cases v) as [[-> _]|[-> _]]; dlia. Qed.

Lemma entry_sector c : 0 <= c < table_entries v -> 0 <= c / per_sector v < sectors_per_fat v.
Proof using Hv.
  rewrite table_entries_eq. pose proof per_sector_eq. intros. split; [apply Z.div_pos; lia|]. apply Z.div_lt_upper_bound; lia.
Qed.

Lemma fat_sector_eq c : 0 <= c < table_entries v -> fat_sector v c = fat_start_lba v + c / per_sector v.
Proof using Hv.
  intros Hc. pose proof (entry_small c Hc). pose proof (entry_sector c Hc). pose proof fats_below_data.
  pose proof (fats_bound 0 (c / per_sector v)) as Hf. destruct Hv. unfold fat_sector, fat_offset. rewrite (u32_small (c * _)) by done.
  replace (c * entry_size v / bytes_per_sector v) with (c / per_sector v); [apply u32_small; lia|].
  rewrite ok_bps0. destruct per_sector_cases as [(-> & _ & ->)|(-> & _ & ->)]; dlia.
Qed.

Lemma fat_sector_in c : 0 <= c < table_entries v -> 0 <= fat_sector v c < n.
Proof using Hv.
  intros Hc. rewrite fat_sector_eq by done. pose proof (entry_sector c Hc). pose proof fats_below_data.
  pose proof (fats_bound 0 (c / per_sector v)). destruct Hv. lia.
Qed.

Lemma next_eq d c : 0 <= c < table_entries v ->
  fat16_next_cluster v d c = fat_entry_in_sector v (img d (fat_start_lba v + c / per_sector v)) (c mod per_sector v).
Proof using Hv HL.
  intros Hc. unfold fat16_next_cluster. rewrite fat_rd_ok by (by apply fat_sector_in). cbn [negb].
  rewrite fat_sector_eq by done. unfold fat_entry_in_sector, offset_in_sector, fat_offset.
  rewrite u32_small by (by apply entry_small). destruct Hv. rewrite ok_bps0.
  destruct per_sector_cases as [(-> & -> & ->)|(-> & -> & ->)]; repeat f_equal; dlia.
Qed.

(** ** Setting an entry *)

Lemma write_copies d s lba k : is_sector s -> 0 <= lba < n -> lba + (Z.of_nat k - 1) * sectors_per_fat v < n ->
  let d' := foldl (fun d k => snd (fat_wr d (u32 (lba + u32 (Z.of_nat k * sectors_per_fat v))) s)) d (seq 0 k) in
  (forall j, 0 <= j < Z.of_nat k -> img d' (lba + j * sectors_per_fat v) = s) /\
  (forall l, 0 <= l < n -> (forall j, 0 <= j < Z.of_nat k -> l <> lba + j * sectors_per_fat v) -> img d' l = img d l).
Proof using Hv HL.
  intros Hs Hl. assert (Hf : 1 <= sectors_per_fat v) by (destruct Hv; lia). assert (Hn : n <= W32) by (destruct Hv; lia).
  induction k as [|k IH]; intros Hk d'; [split; [lia|done]|].
  assert (Hm : forall j, 0 <= j <= Z.of_nat k -> 0 <= j * sectors_per_fat v <= Z.of_nat k * sectors_per_fat v).
  { intros j Hj. split; [apply Z.mul_nonneg_nonneg; lia|]. apply Z.mul_le_mono_nonneg_r; lia. }
  pose proof (Hm (Z.of_nat k) ltac:(lia)) as Hkk.
  destruct IH as [IH1 IH2]; [lia|]. subst d'. rewrite seq_S, foldl_app. cbn [foldl Nat.add].
  set (d0 := foldl _ d (seq 0 k)) in *. clearbody d0.
  rewrite !u32_small by (rewrite ?u32_small; lia). unfold fat_wr. split.
  - intros j Hj. pose proof (Hm j ltac:(lia)). rewrite (rd_wr (n := n)) by (try done; lia).
    destruct (Z.eqb_spec (lba + j * sectors_per_fat v) (lba + Z.of_nat k * sectors_per_fat v)) as [|Hne]; [done|].
    apply IH1. assert (j <> Z.of_nat k) by (intros ->; done). lia.
  - intros l Hln Hne. rewrite (rd_wr (n := n)) by (try done; lia). destruct (Z.eqb_spec l (lba + Z.of_nat k * sectors_per_fat v)) as [E|_].
    + exfalso. apply (Hne (Z.of_nat k)); [lia|done].
    + apply IH2; [done|]. intros j Hj. apply Hne. lia.
Qed.

(** The sectors after an entry is set: every copy of its sector, and nothing else. *)
Lemma set_next_img d c x : 0 <= c < table_entries v ->
  let d' := fat16_set_next_cluster v d c x in
  let s := set_entry_in_sector v (img d (fat_sector v c)) c x in
  (forall k, 0 <= k < num_fats v -> img d' (fat_start_lba v + k * sectors_per_fat v + c / per_sector v) = s) /\
  (forall l, 0 <= l < n -> (forall k, 0 <= k < num_fats v -> l <> fat_start_lba v + k * sectors_per_fat v + c / per_sector v) -> img d' l = img d l).
Proof using Hv HL.
  intros Hc d' s. pose proof (fat_sector_in c Hc) as Hin. pose proof (entry_sector c Hc). pose proof (fat_sector_eq c Hc) as Es.
  destruct (write_copies d s (fat_sector v c) (Z.to_nat (num_fats v))) as [W1 W2]; [|done| |].
  - apply set_entry_sector; [by destruct Hv|apply (rd_sector (n := n))|lia].
  - pose proof fats_below_data. destruct Hv. rewrite Es. nia.
  - rewrite Z2Nat.id in W1, W2 by (destruct Hv; lia).
    assert (Ed : d' = foldl (fun d k => snd (fat_wr d (u32 (fat_sector v c + u32 (Z.of_nat k * sectors_per_fat v))) s)) d (seq 0 (Z.to_nat (num_fats v)))).
    { unfold d', fat16_set_next_cluster. rewrite fat_rd_ok by done. done. }
    rewrite <- Ed in W1, W2. rewrite Es in W1, W2. split.
    + intros k Hk. replace (fat_start_lba v + k * sectors_per_fat v + c / per_sector v) with (fat_start_lba v + c / per_sector v + k * sectors_per_fat v) by ring. by apply W1.
    + intros l Hl Hne. apply W2; [done|]. intros j Hj E. apply (Hne j Hj). rewrite E. ring.
Qed.

Lemma set_next_frame d c x l : 0 <= c < table_entries v -> 0 <= l < n -> ~ in_fats v l -> img (fat16_set_next_cluster v d c x) l = img d l.
Proof using Hv HL.
  intros Hc Hl Hn. apply (set_next_img d c x Hc); [done|]. intros k Hk ->. apply Hn. apply fats_bound; [done|]. by apply entry_sector.
Qed.

Lemma set_next_next d c x c' : 0 <= c < table_entries v -> 0 <= c' < table_entries v ->
  fat16_next_cluster v (fat16_set_next_cluster v d c x) c' = if c' =? c then trunc v x else fat16_next_cluster v d c'.
Proof using Hv HL.
  intros Hc Hc'. destruct (set_next_img d c x Hc) as [S1 S2]. rewrite !next_eq by done.
  pose proof (entry_sector c Hc). pose proof (entry_sector c' Hc'). pose proof (entry_small c Hc). pose proof per_sector_eq as [_ Hp].
  destruct (Z.eq_dec (c' / per_sector v) (c / per_sector v)) as [Eq|Nq].
  - specialize (S1 0 ltac:(destruct Hv; lia)). rewrite Z.mul_0_l, Z.add_0_r in S1. rewrite Eq, S1. rewrite fat_sector_eq by done.
    rewrite entry_set_entry; [|by destruct Hv|apply (rd_sector (n := n))|lia|lia|apply Z.mod_pos_bound; lia].
    pose proof (Z.div_mod c (per_sector v) ltac:(lia)). pose proof (Z.div_mod c' (per_sector v) ltac:(lia)).
    destruct (Z.eqb_spec (c' mod per_sector v) (c mod per_sector v)); destruct (Z.eqb_spec c' c); try done; exfalso; [nia|congruence].
  - destruct (Z.eqb_spec c' c) as [->|_]; [done|]. rewrite S2; [done| |].
    + pose proof (fats_bound 0 (c' / per_sector v)). pose proof fats_below_data. destruct Hv. lia.
    + intros k Hk E. destruct (Z.eq_dec k 0) as [->|]; [lia|]. nia.
Qed.

Lemma set_next_mirrored d c x : 0 <= c < table_entries v -> mirrored v d -> mirrored v (fat16_set_next_cluster v d c x).
Proof using Hv HL.
  intros Hc Hm k s Hk Hs. destruct (set_next_img d c x Hc) as [S1 S2]. pose proof (entry_sector c Hc). pose proof fats_below_data.
  pose proof (fats_bound k s Hk Hs). pose proof (fats_bound 0 s ltac:(lia) Hs).
  destruct (Z.eq_dec s (c / per_sector v)) as [->|Hne].
  - rewrite S1 by done. specialize (S1 0 ltac:(lia)). rewrite Z.mul_0_l, Z.add_0_r in S1. by rewrite S1.
  - assert (Hk' : forall j, 0 <= j < num_fats v -> fat_start_lba v + k * sectors_per_fat v + s <> fat_start_lba v + j * sectors_per_fat v + c / per_sector v).
    { intros j Hj E. assert (k = j) by nia. subst. lia. }
    assert (H0' : forall j, 0 <= j < num_fats v -> fat_start_lba v + s <> fat_start_lba v + j * sectors_per_fat v + c / per_sector v).
    { intros j Hj E. assert (0 = j) by nia. subst. lia. }
    destruct Hv. rewrite !S2 by (try done; lia). by apply Hm.
Qed.

(** ** Allocation *)

Abbreviation used d c := (fat16_next_cluster v d c <> 0).

Lemma fat_scan_spec s index cluster limit k : 0 <= index <= per_sector v -> per_sector v - index <= Z.of_nat k -> cluster <= limit ->
  match alloc_scan v s limit k index cluster with
  | inl c => c = Z.min limit (cluster + (per_sector v - index)) /\ forall i, cluster <= i < c -> fat_entry_in_sector v s (i - cluster + index) <> 0
  | inr c => cluster <= c < limit /\ c - cluster + index < per_sector v /\ fat_entry_in_sector v s (c - cluster + index) = 0 /\
             forall i, cluster <= i < c -> fat_entry_in_sector v s (i - cluster + index) <> 0
  end.
Proof using Hv.
  revert index cluster. induction k as [|k IH]; intros index cluster Hi Hk Hc; cbn -[fat_entry_in_sector]; fold (alloc_scan v s limit); [split; lia|].
  destruct (Z.ltb_spec index (per_sector v)); [|cbn [andb]; split; lia].
  destruct (Z.ltb_spec cluster limit); cbn [andb]; [|split; lia].
  destruct (Z.eqb_spec (fat_entry_in_sector v s index) 0) as [E|E].
  - replace (cluster - cluster + index) with index by lia. split; [lia|]. split; [lia|]. split; [done|lia].
  - specialize (IH (index + 1) (cluster + 1) ltac:(lia) ltac:(lia) ltac:(lia)).
    assert (Hs : forall i c, (forall i, cluster + 1 <= i < c -> fat_entry_in_sector v s (i - (cluster + 1) + (index + 1)) <> 0) ->
                  cluster <= i < c -> fat_entry_in_sector v s (i - cluster + index) <> 0).
    { intros i c H1 H2. destruct (Z.eq_dec i cluster) as [->|]; [by replace (cluster - cluster + index) with index by lia|].
      specialize (H1 i ltac:(lia)). by replace (i - (cluster + 1) + (index + 1)) with (i - cluster + index) in H1 by lia. }
    destruct (alloc_scan v s limit k (index + 1) (cluster + 1)) as [c|c].
    + destruct IH as [-> IH]. split; [lia|]. intros i. by apply Hs.
    + destruct IH as (H1 & H2 & H3 & IH). replace (c - (cluster + 1) + (index + 1)) with (c - cluster + index) in H2, H3 by lia.
      split; [lia|]. split; [done|]. split; [done|]. intros i. by apply Hs.
Qed.

Lemma sector_base d c i : 0 <= c < table_entries v -> c <= i < c + (per_sector v - c mod per_sector v) -> i < table_entries v ->
  fat_entry_in_sector v (img d (fat_sector v c)) (i - c + c mod per_sector v) = fat16_next_cluster v d i.
Proof using Hv HL.
  intros Hc Hi Ht. rewrite next_eq, fat_sector_eq by lia. pose proof per_sector_eq as [_ Hp].
  pose proof (Z.div_mod c (per_sector v) ltac:(lia)). pose proof (Z.mod_pos_bound c (per_sector v) ltac:(lia)).
  assert (E : i / per_sector v = c / per_sector v).
  { symmetry. apply (Z.div_unique_pos _ _ _ (i - c + c mod per_sector v)); lia. }
  rewrite E. f_equal. rewrite (Z.mod_eq i), E by lia. lia.
Qed.

(** A pass finds the first free cluster of its range, if there is one. *)
Lemma pass_spec d start limit : 2 <= start -> limit <= table_entries v ->
  exists r, alloc_pass v d start limit = Some r /\
  match r with
  | Some c => start <= c < limit /\ fat16_next_cluster v d c = 0 /\ forall i, start <= i < c -> used d i
  | None => forall i, start <= i < limit -> used d i
  end.
Proof using Hv HL.
  intros Hs Hl. pose proof per_sector_eq as [_ Hp].
  destruct (Z.le_gt_cases limit start) as [Hle|Hlt].
  { exists None. unfold alloc_pass, while. rewrite ploop_nloop. assert (E : exists k, Pos.to_nat turns = S k) by (exists (pred (Pos.to_nat turns)); lia).
    destruct E as [k ->]. cbn [nloop]. rewrite (proj2 (Z.ltb_ge _ _)) by lia. split; [done|lia]. }
  apply (while_total (fun c => start <= c <= limit /\ forall i, start <= i < c -> used d i) _ (fun c => limit - c)).
  - intros c [Hc Hu]. eexists. split; [done|]. destruct (Z.ltb_spec c limit); [|intros i Hi; apply Hu; lia].
    rewrite fat_rd_ok by (apply fat_sector_in; lia). cbn [negb].
    pose proof (Z.mod_pos_bound c (per_sector v) ltac:(lia)) as Hm.
    pose proof (fat_scan_spec (img d (fat_sector v c)) (c mod per_sector v) c limit (Z.to_nat (per_sector v)) ltac:(lia) ltac:(lia) ltac:(lia)) as Hscan.
    destruct (alloc_scan _ _ _ _ _ _) as [c'|c'].
    + destruct Hscan as [-> Hscan]. split; [|lia]. split; [lia|]. intros i Hi. destruct (Z.lt_ge_cases i c); [apply Hu; lia|].
      rewrite <- (sector_base d c i) by lia. apply Hscan. lia.
    + destruct Hscan as (H1 & H2 & H3 & Hscan). split; [lia|]. rewrite sector_base in H3 by lia. split; [done|]. intros i Hi.
      destruct (Z.lt_ge_cases i c); [apply Hu; lia|]. rewrite <- (sector_base d c i) by lia. apply Hscan. lia.
  - split; [lia|]. intros i Hi. lia.
  - destruct Hv. unfold table_entries in *. destruct (entry_size_cases v) as [[E _]|[E _]]; rewrite E in *; dlia.
Qed.

(** The outcome of an allocation: nothing when no cluster is free; otherwise a free cluster,
    marked as the end of a chain, with the hint behind it. *)
Lemma alloc_spec d : exists c v' d', fat16_alloc_cluster v d = Some (c, v', d') /\
  (c = 0 /\ v' = v /\ d' = d /\ (forall i, 2 <= i < table_entries v -> used d i) \/
   2 <= c < table_entries v /\ fat16_next_cluster v d c = 0 /\ v' = v <| next_free_hint := u32 (c + 1) |> /\ d' = fat16_set_next_cluster v d c (fat_eoc_marker v)).
Proof using Hv HL.
  unfold fat16_alloc_cluster. rewrite total_entries_eq. pose proof per_sector_eq as [_ Hp].
  rewrite (proj2 (Z.leb_gt (table_entries v) 2)), (proj2 (Z.eqb_neq (per_sector v) 0)) by (destruct Hv; lia). cbn [orb].
  set (h := if next_free_hint v <? 2 then 2 else next_free_hint v). set (hint := if table_entries v <=? h then 2 else h).
  assert (Hh : 2 <= hint <= table_entries v) by (subst hint h; destruct Hv; zcases; lia). clearbody hint. clear h.
  assert (Htake : forall c, 2 <= c < table_entries v -> fat16_next_cluster v d c = 0 -> exists c' v' d', Some (alloc_take v d c) = Some (c', v', d') /\
    (c' = 0 /\ v' = v /\ d' = d /\ (forall i, 2 <= i < table_entries v -> used d i) \/
     2 <= c' < table_entries v /\ fat16_next_cluster v d c' = 0 /\ v' = v <| next_free_hint := u32 (c' + 1) |> /\ d' = fat16_set_next_cluster v d c' (fat_eoc_marker v))).
  { intros c Hc H0. unfold alloc_take. rewrite (proj2 (Z.eqb_neq c 0)) by lia. eexists _, _, _. split; [done|]. right. auto. }
  destruct (pass_spec d hint (table_entries v)) as (r1 & -> & H1); [lia..|]. cbn [mbind option_bind].
  destruct r1 as [c|]; [apply Htake; [lia|by apply H1]|].
  destruct (pass_spec d 2 hint) as (r2 & -> & H2); [lia..|]. cbn [mbind option_bind].
  destruct r2 as [c|]; [apply Htake; [lia|by apply H2]|].
  eexists _, _, _. split; [done|]. left. do 3 (split; [done|]). intros i Hi. destruct (Z.lt_ge_cases i hint); [apply H2|apply H1]; lia.
Qed.

(** ** Freeing a chain *)

Definition live v (c : Z) : Prop := 2 <= c /\ fat_is_eoc v c = false.
Definition link v d (a b : Z) : Prop := live v a /\ fat16_next_cluster v d a = b.

Definition nonzero v d : nat := countb (fun c => negb (fat16_next_cluster v d (Z.of_nat c) =? 0)) (seq 0 (Z.to_nat (table_entries v))).

Lemma nonzero_falls d c : 0 <= c < table_entries v -> used d c -> (nonzero v (fat16_set_next_cluster v d c 0) < nonzero v d)%nat.
Proof using Hv HL.
  intros Hc Hu. assert (Ht : trunc v 0 = 0) by (unfold trunc; by destruct (is_32 v)).
  apply (countb_lt _ _ _ (Z.to_nat c)); [|apply elem_of_seq; lia|rewrite Z2Nat.id by lia; by apply negb_true_iff, Z.eqb_neq|].
  - intros y Hy%elem_of_seq. rewrite set_next_next by lia. destruct (Z.eqb_spec (Z.of_nat y) c); [by rewrite Ht|done].
  - rewrite Z2Nat.id by lia. rewrite set_next_next by lia. by rewrite Z.eqb_refl, Ht.
Qed.

Lemma nonzero_keeps d c : 0 <= c < table_entries v -> fat16_next_cluster v d c = 0 -> nonzero v (fat16_set_next_cluster v d c 0) = nonzero v d.
Proof using Hv HL.
  intros Hc Hu. apply countb_ext. intros y Hy%elem_of_seq. rewrite set_next_next by lia.
  destruct (Z.eqb_spec (Z.of_nat y) c) as [->|]; [|done]. rewrite Hu. unfold trunc. by destruct (is_32 v).
Qed.

Lemma table_small : 0 <= table_entries v <= 2147483648.
Proof using Hv. destruct Hv. unfold table_entries. destruct (entry_size_cases v) as [[-> _]|[-> _]]; dlia. Qed.

Lemma not_live c : (2 <=? c) && negb (fat_is_eoc v c) = false -> ~ live v c.
Proof. intros E [H1 H2]. rewrite H2, (proj2 (Z.leb_le 2 c)) in E by done. done. Qed.

(** The state of the loop: the entries of [fs] are freed, and what they linked to is freed, the
    current cluster, or an end. *)
Record freeing d0 (first c : Z) d (fs : list Z) : Prop := {
  fr_freed : forall x, 0 <= x < table_entries v -> x ∈ fs -> fat16_next_cluster v d x = 0;
  fr_kept : forall x, 0 <= x < table_entries v -> x ∉ fs -> fat16_next_cluster v d x = fat16_next_cluster v d0 x;
  fr_reached : forall x, x ∈ fs -> live v x /\ rtc (link v d0) first x;
  fr_first : first ∈ fs \/ c = first;
  fr_closed : forall x, x ∈ fs -> fat16_next_cluster v d0 x ∈ fs \/ fat16_next_cluster v d0 x = c \/ ~ live v (fat16_next_cluster v d0 x);
  fr_here : live v c -> rtc (link v d0) first c;
  fr_frame : forall l, 0 <= l < n -> ~ in_fats v l -> img d l = img d0 l;
  fr_mirrored : mirrored v d0 -> mirrored v d;
}.

Lemma freeing_step d0 first c d fs :
  (forall x, rtc (link v d0) first x -> live v x -> x < table_entries v) ->
  freeing d0 first c d fs -> live v c ->
  freeing d0 first (fat16_next_cluster v d c) (fat16_set_next_cluster v d c 0) (c :: fs).
Proof using Hv HL.
  intros Hin F Hlc. pose proof (Hin c (fr_here _ _ _ _ _ F Hlc) Hlc) as Hct. pose proof Hlc as [Hc2 _].
  assert (Ht : trunc v 0 = 0) by (unfold trunc; by destruct (is_32 v)).
  assert (Hset : forall x, 0 <= x < table_entries v -> fat16_next_cluster v (fat16_set_next_cluster v d c 0) x = if x =? c then 0 else fat16_next_cluster v d x).
  { intros x Hx. rewrite set_next_next by lia. by rewrite Ht. }
  assert (Hz : c ∈ fs -> fat16_next_cluster v d c = 0) by (intros; eapply fr_freed; eauto; lia).
  assert (Hk : c ∉ fs -> fat16_next_cluster v d c = fat16_next_cluster v d0 c) by (intros; eapply fr_kept; eauto; lia).
  destruct F as [F1 F1' F2 F3 F4 F5 F6 F7]. split.
  - intros x Hx Hm. rewrite Hset by done. destruct (Z.eqb_spec x c); [done|]. apply F1; [done|]. by apply elem_of_cons in Hm as [?|?].
  - intros x Hx [Hne Hm]%not_elem_of_cons. rewrite Hset by done. rewrite (proj2 (Z.eqb_neq x c)) by done. by apply F1'.
  - intros x [->|Hm]%elem_of_cons; auto.
  - left. apply elem_of_cons. destruct F3; auto.
  - intros x [->|Hm]%elem_of_cons; rewrite elem_of_cons.
    + destruct (decide (c ∈ fs)) as [Hf|Hf]; [destruct (F4 c Hf) as [?|[?|?]]; auto|]. rewrite Hk by done. auto.
    + destruct (F4 x Hm) as [?|[?|?]]; auto.
  - intros Hl. destruct (decide (c ∈ fs)) as [Hf|Hf]; [rewrite (Hz Hf) in Hl; destruct Hl; lia|].
    eapply rtc_r; [by apply F5|]. split; [done|]. by symmetry; apply Hk.
  - intros l Hl Hn. rewrite set_next_frame by (done || lia). by apply F6.
  - intros Hm. apply set_next_mirrored; [lia|auto].
Qed.

(** At an end of the chain everything it reached is freed. *)
Lemma freeing_done d0 first c d fs x : freeing d0 first c d fs -> ~ live v c -> rtc (link v d0) first x -> live v x -> x ∈ fs.
Proof using Hv.
  intros F Hc Hr. revert x Hr. apply (rtc_ind_r (fun x => live v x -> x ∈ fs)).
  - intros Hf. destruct (fr_first _ _ _ _ _ F) as [?| ->]; done.
  - intros y z _ [Hy <-] IH Hz. destruct (fr_closed _ _ _ _ _ F y (IH Hy)) as [?|[E|?]]; [done| |done]. by rewrite E in Hz.
Qed.

Lemma free_chain_spec d first : (forall x, rtc (link v d) first x -> live v x -> x < table_entries v) ->
  exists v' d', fat16_free_chain v d first = Some (v', d') /\
  v' = (if (2 <=? first) && (first <? next_free_hint v) then v <| next_free_hint := first |> else v) /\
  (forall x, rtc (link v d) first x -> live v x -> fat16_next_cluster v d' x = 0) /\
  (forall x, 0 <= x < table_entries v -> ~ (rtc (link v d) first x /\ live v x) -> fat16_next_cluster v d' x = fat16_next_cluster v d x) /\
  (forall l, 0 <= l < n -> ~ in_fats v l -> img d' l = img d l) /\
  (mirrored v d -> mirrored v d').
Proof using Hv HL.
  intros Hin. unfold fat16_free_chain.
  edestruct (while_total (fun '(c, d') => exists fs, freeing d first c d' fs)
    (fun d' => exists c fs, freeing d first c d' fs /\ ~ live v c)
    (fun '(c, d') => 2 * Z.of_nat (nonzero v d') + (if (2 <=? c) && negb (fat_is_eoc v c) then 1 else 0))) as (d' & -> & c & fs & F & Hc).
  - intros [c d'] [fs F]. eexists. split; [done|]. cbn beta iota. destruct ((2 <=? c) && negb (fat_is_eoc v c)) eqn:E; [|exists c, fs; split; [done|by apply not_live]].
    assert (Hlc : live v c) by (zbool; by split; [|]). pose proof (Hin c (fr_here _ _ _ _ _ F Hlc) Hlc).
    split; [exists (c :: fs); by apply freeing_step|]. destruct Hlc as [Hc2 _].
    destruct (Z.eq_dec (fat16_next_cluster v d' c) 0) as [E0|E0].
    + rewrite nonzero_keeps by (done || lia). rewrite E0. cbn. lia.
    + pose proof (nonzero_falls d' c ltac:(lia) E0). revert H0. generalize (nonzero v (fat16_set_next_cluster v d' c 0)), (nonzero v d'). intros a b Hab. destruct ((2 <=? fat16_next_cluster v d' c) && _); lia.
  - exists []. split; [set_solver..| by right|set_solver|intros _; constructor|done|done].
  - cbn beta iota. pose proof table_small. pose proof (countb_le_length (fun c => negb (fat16_next_cluster v d (Z.of_nat c) =? 0)) (seq 0 (Z.to_nat (table_entries v)))) as Hle.
    rewrite length_seq in Hle. unfold nonzero. destruct (_ && _); lia.
  - cbn [mbind option_bind]. eexists _, _. split; [done|]. split; [done|]. split; [|split; [|split]].
    + intros x Hr Hl. pose proof (Hin x Hr Hl). destruct Hl as [Hx ?]. eapply fr_freed; [done|lia|]. eapply freeing_done; done.
    + intros x Hx Hn. eapply fr_kept; [done|done|]. intros Hf. apply Hn. by destruct (fr_reached _ _ _ _ _ F x Hf).
    + by apply (fr_frame _ _ _ _ _ F).
    + by apply (fr_mirrored _ _ _ _ _ F).
Qed.
End geometry.
End table.
