(* ===== verification/FatFile.v ===== *)
(** * File data on a FAT volume: proofs

    A file is the list of clusters of its chain, and its contents the bytes of their sectors in
    order, [fbyte].  Reads return those bytes, writes change exactly the bytes written and leave
    every sector outside the chain alone, the cursor of a forward walk gives the same cluster as
    the walk from the head, and a write past the end appends free clusters to the chain. *)

From stdpp Require Import base numbers list option sets.
From S2P Require Import Prelude Loop Bytes Fat FatTable.

Section file.
Context {D : Type} `{HB : BlockStore D} {n ncl : Z} {HL : BlockLaws D n}.
Implicit Types (v : fat_volume) (d : D) (l : list Z).

(** ** Chains *)

Definition is_cluster (c : Z) : Prop := 2 <= c < ncl + 2.

(** The list [l] is a whole chain: each cluster links to the next, the last one to an end mark. *)
Definition chain v d : list Z -> Prop :=
  fix chain l :=
    match l with
    | [] => False
    | c :: l => is_cluster c /\
      match l with
      | [] => fat_is_eoc v (fat16_next_cluster v d c) = true
      | c' :: _ => fat16_next_cluster v d c = c' /\ chain l
      end
    end.

(** The chain of a file whose directory entry has [first]; 0 is the empty file. *)
Definition file_chain v d (first : Z) l : Prop := match l with [] => first = 0 | c :: _ => first = c /\ chain v d l end.

Context {v : fat_volume} (Hv : vol_ok n ncl v).

Lemma cluster_not_eoc c : is_cluster c -> fat_is_eoc v c = false.
Proof using Hv. intros Hc. unfold is_cluster in Hc. destruct Hv. unfold fat_is_eoc. destruct (is_32 v); apply Z.leb_gt; lia. Qed.

Lemma cluster_in_table c : is_cluster c -> 0 <= c < table_entries v.
Proof using Hv. unfold is_cluster. destruct Hv. lia. Qed.

Lemma chain_clusters d l c : chain v d l -> c ∈ l -> is_cluster c.
Proof.
  induction l as [|a l IH]; intros Hc Hin; [done|]. apply elem_of_cons in Hin as [->|Hin]; [apply Hc|].
  destruct Hc as [_ Hc]. destruct l as [|b l]; [by apply elem_of_nil in Hin|]. apply IH; [apply Hc|done].
Qed.

Lemma chain_nth d l i : chain v d l -> (S i < length l)%nat -> fat16_next_cluster v d (nth i l 0) = nth (S i) l 0.
Proof.
  revert i. induction l as [|a l IH]; intros i Hc Hi; [simpl in Hi; lia|]. destruct Hc as [_ Hc]. destruct l as [|b l]; [simpl in Hi; lia|].
  destruct Hc as [Hab Hc]. destruct i as [|i]; [done|]. cbn [length] in Hi. apply (IH i Hc). cbn [length]. lia.
Qed.

Lemma chain_last d l : chain v d l -> fat_is_eoc v (fat16_next_cluster v d (nth (pred (length l)) l 0)) = true.
Proof.
  induction l as [|a l IH]; intros Hc; [done|]. destruct Hc as [_ Hc]. destruct l as [|b l]; [done|]. destruct Hc as [_ Hc].
  specialize (IH Hc). cbn [length pred] in *. done.
Qed.

Lemma nth_cluster d l i : chain v d l -> (i < length l)%nat -> is_cluster (nth i l 0).
Proof. intros Hc Hi. apply (chain_clusters d l); [done|]. apply list_elem_of_In, nth_In. done. Qed.

(** A chain that ends meets no cluster twice. *)
Lemma chain_nodup d l : chain v d l -> NoDup l.
Proof using Hv.
  intros Hc. apply NoDup_alt. 
  assert (Hshift : forall k i j, (i + k < length l)%nat -> (j + k < length l)%nat -> nth i l 0 = nth j l 0 -> nth (i + k) l 0 = nth (j + k) l 0).
  { intros k. induction k as [|k IH]; intros i j Hi Hj E; [by rewrite !Nat.add_0_r|].
    rewrite !Nat.add_succ_r. rewrite <- !(chain_nth d l) by (done || lia). f_equal. apply IH; [lia..|done]. }
  assert (Hlt : forall i j, (i < j < length l)%nat -> nth i l 0 <> nth j l 0).
  { intros i j Hij E. pose proof (Hshift (length l - 1 - j)%nat i j ltac:(lia) ltac:(lia) E) as E'.
    replace (j + (length l - 1 - j))%nat with (pred (length l)) in E' by lia. pose proof (chain_last d l Hc) as Hl. rewrite <- E' in Hl.
    rewrite (chain_nth d l) in Hl by (done || lia). rewrite cluster_not_eoc in Hl; [done|]. apply (nth_cluster d); [done|lia]. }
  intros i j x Hi Hj. destruct (lt_eq_lt_dec i j) as [[Hlt'|]|Hlt']; [exfalso|done|exfalso].
  - apply (Hlt i j); [split; [done|by eapply lookup_lt_Some]|]. by rewrite !nth_lookup, Hi, Hj.
  - apply (Hlt j i); [split; [done|by eapply lookup_lt_Some]|]. by rewrite !nth_lookup, Hi, Hj.
Qed.

(** A chain depends on the links of its clusters only. *)
Lemma chain_ext d d' l : (forall c, c ∈ l -> fat16_next_cluster v d' c = fat16_next_cluster v d c) -> chain v d l -> chain v d' l.
Proof.
  induction l as [|a l IH]; intros He Hc; [done|]. destruct Hc as [Ha Hc]. split; [done|]. destruct l as [|b l].
  - rewrite He by left. done.
  - destruct Hc as [Hab Hc]. split; [rewrite He by left; done|]. apply IH; [|done]. intros c Hin. apply He. by right.
Qed.

(** ** The cursor *)

(** What the cursor remembers is a position of the chain. *)
Definition walk_ok d first l (w : fat_walk) : Prop :=
  w_first w = first -> 2 <= first -> 0 <= w_index w < zlen l /\ w_cluster w = nth (Z.to_nat (w_index w)) l 0.

Lemma walk_start d first l : walk_ok d first l (Walk 0 0 0).
Proof. intros E Hf. cbn [w_first] in E. lia. Qed.

Lemma walk_loop_nth d l k i : chain v d l -> (i + k < length l)%nat -> walk_loop v d k (nth i l 0) = inr (nth (i + k) l 0).
Proof using Hv.
  intros Hc. revert i. induction k as [|k IH]; intros i Hi; [by rewrite Nat.add_0_r|].
  change (walk_loop v d (S k) (nth i l 0)) with (let c := fat16_next_cluster v d (nth i l 0) in if (c <? 2) || fat_is_eoc v c then inl c else walk_loop v d k c). cbv zeta.
  rewrite (chain_nth d l) by (done || lia). pose proof (nth_cluster d l (S i) Hc ltac:(lia)) as Hcl.
  rewrite cluster_not_eoc by done. unfold is_cluster in Hcl. rewrite (proj2 (Z.ltb_ge _ _)) by lia. cbn [orb].
  rewrite IH by lia. do 2 f_equal. lia.
Qed.

(** The walk from the cursor and the walk from the head give the same cluster. *)
Lemma cluster_at_offset_spec d l off w :
  chain v d l -> walk_ok d (nth 0 l 0) l w -> 0 <= off < zlen l * cluster_bytes v -> 0 < cluster_bytes v ->
  exists w', cluster_at_offset v d (nth 0 l 0) off w = (nth (Z.to_nat (off / cluster_bytes v)) l 0, w') /\ walk_ok d (nth 0 l 0) l w'.
Proof using Hv.
  intros Hc Hw Ho Hcb. assert (Hi : 0 <= off / cluster_bytes v < zlen l).
  { split; [apply Z.div_pos; lia|]. apply Z.div_lt_upper_bound; lia. }
  unfold cluster_at_offset. set (k := off / cluster_bytes v) in *. clearbody k.
  destruct ((w_first w =? nth 0 l 0) && (2 <=? nth 0 l 0) && (w_index w <=? k)) eqn:E.
  - zbool. destruct Hw as [Hwi Hwc]; [done..|]. rewrite Hwc, walk_loop_nth by (done || lia).
    eexists. split; [f_equal; f_equal; lia|]. intros _ _. cbn [w_index w_cluster]. split; [lia|]. f_equal. lia.
  - rewrite walk_loop_nth by (done || lia). eexists. split; [f_equal; f_equal; lia|]. intros _ _. cbn [w_index w_cluster]. split; [lia|]. f_equal. lia.
Qed.

(** ** The bytes of a chain *)

Definition lba_of l (i : Z) : Z :=
  data_start_lba v + (nth (Z.to_nat (i / cluster_bytes v)) l 0 - 2) * sectors_per_cluster v + i mod cluster_bytes v / 512.
Definition fbyte d l (i : Z) : Z := zget 0 (img d (lba_of l i)) (i mod 512).
Definition fbytes d l (pos len : Z) : list Z := (fun k => fbyte d l (pos + Z.of_nat k)) <$> seq 0 (Z.to_nat len).
Abbreviation capacity l := (zlen l * cluster_bytes v).

(** The sectors of the chain. *)
Definition in_chain l (lba : Z) : Prop := exists i, 0 <= i < capacity l /\ lba = lba_of l i.

Lemma cluster_bytes_eq : cluster_bytes v = sectors_per_cluster v * 512 /\ 512 <= cluster_bytes v < W32.
Proof using Hv. destruct Hv. unfold cluster_bytes. rewrite ok_bps, u32_small by lia. lia. Qed.

Lemma index_lt l i : 0 <= i < capacity l -> (Z.to_nat (i / cluster_bytes v) < length l)%nat.
Proof using Hv.
  intros Hi. pose proof cluster_bytes_eq. assert (0 <= i / cluster_bytes v < zlen l); [|lia].
  split; [apply Z.div_pos; lia|]. apply Z.div_lt_upper_bound; lia.
Qed.

Lemma sector_index i : 0 <= i mod cluster_bytes v / 512 < sectors_per_cluster v /\ i / 512 = i / cluster_bytes v * sectors_per_cluster v + i mod cluster_bytes v / 512 /\
  i mod cluster_bytes v mod 512 = i mod 512.
Proof using Hv.
  pose proof cluster_bytes_eq as [E Hb]. pose proof (Z.mod_pos_bound i (cluster_bytes v) ltac:(lia)) as Hm.
  pose proof (Z.div_mod i (cluster_bytes v) ltac:(lia)) as Hd. set (q := i / cluster_bytes v) in *. set (r := i mod cluster_bytes v) in *.
  clearbody q r. rewrite E in *. split; [dlia|].
  assert (Hq : i = r + q * sectors_per_cluster v * 512) by lia. rewrite Hq. split.
  - rewrite Z.div_add by lia. lia.
  - by rewrite Z.mod_add by lia.
Qed.

Lemma lba_of_range d l i : chain v d l -> 0 <= i < capacity l -> data_start_lba v <= lba_of l i < n.
Proof using Hv.
  intros Hc Hi. pose proof (sector_index i) as (Hs & _ & _). pose proof (nth_cluster d l _ Hc (index_lt l i Hi)) as Hcl.
  unfold is_cluster in Hcl. unfold lba_of. set (c := nth _ l 0) in *. clearbody c. set (r := i mod _ / 512) in *. clearbody r.
  assert (0 <= (c - 2) * sectors_per_cluster v <= (ncl - 1) * sectors_per_cluster v) by nia. destruct Hv. lia.
Qed.

Lemma lba_of_inj d l i j : chain v d l -> 0 <= i < capacity l -> 0 <= j < capacity l -> lba_of l i = lba_of l j -> i / 512 = j / 512.
Proof using Hv.
  intros Hc Hi Hj. pose proof (chain_nodup d l Hc) as Hnd. unfold lba_of.
  pose proof (sector_index i) as (Hs & -> & _). pose proof (sector_index j) as (Ht & -> & _).
  pose proof (index_lt l i Hi) as Hii. pose proof (index_lt l j Hj) as Hjj.
  assert (Hq : forall k, 0 <= k < capacity l -> 0 <= k / cluster_bytes v) by (intros k Hk; pose proof cluster_bytes_eq; apply Z.div_pos; lia).
  pose proof (Hq i Hi). pose proof (Hq j Hj). clear Hq.
  set (qi := i / cluster_bytes v) in *. set (qj := j / cluster_bytes v) in *. set (ri := i mod _ / 512) in *. set (rj := j mod _ / 512) in *.
  clearbody qi qj ri rj. set (a := nth (Z.to_nat qi) l 0). set (b := nth (Z.to_nat qj) l 0). intros E.
  assert (Eab : a = b) by nia. assert (Er : ri = rj) by nia. subst rj.
  assert (qi = qj); [|by subst]. apply NoDup_ListNoDup in Hnd. apply (proj1 (NoDup_nth l 0) Hnd) in Eab; lia.
Qed.

Lemma cluster_lba_eq d l i : chain v d l -> 0 <= i < capacity l ->
  u32 (cluster_to_lba v (nth (Z.to_nat (i / cluster_bytes v)) l 0) + i mod cluster_bytes v / bytes_per_sector v) = lba_of l i.
Proof using Hv.
  intros Hc Hi. pose proof (lba_of_range d l i Hc Hi) as Hr. pose proof (sector_index i) as (Hs & _ & _).
  pose proof (nth_cluster d l _ Hc (index_lt l i Hi)) as Hcl. unfold lba_of, is_cluster in *. set (c := nth _ l 0) in *. clearbody c.
  destruct Hv. rewrite ok_bps. set (r := i mod _ / 512) in *. clearbody r. unfold cluster_to_lba.
  assert (0 <= (c - 2) * sectors_per_cluster v) by (apply Z.mul_nonneg_nonneg; lia).
  rewrite (u32_small (c - 2)) by (unfold table_entries in *; nia).
  rewrite (u32_small (_ * _)) by lia. rewrite (u32_small (data_start_lba v + _)) by lia. rewrite u32_small by lia. lia.
Qed.

Lemma locate_spec d l off w : chain v d l -> walk_ok d (nth 0 l 0) l w -> 0 <= off < capacity l ->
  exists w', locate v d (nth 0 l 0) off w = (lba_of l off, off mod 512, w') /\ walk_ok d (nth 0 l 0) l w'.
Proof using Hv.
  intros Hc Hw Ho. unfold locate. pose proof cluster_bytes_eq as [_ Hb].
  destruct (cluster_at_offset_spec d l off w Hc Hw Ho ltac:(lia)) as (w' & -> & Hw'). exists w'. split; [|done].
  rewrite (cluster_lba_eq d l off Hc Ho). replace (bytes_per_sector v) with 512 by (by destruct Hv). by destruct (sector_index off) as (_ & _ & ->).
Qed.

(** ** Reading *)

Lemma fbytes_length d l pos len : length (fbytes d l pos len) = Z.to_nat len.
Proof. unfold fbytes. by rewrite length_fmap, length_seq. Qed.

Lemma zget_fbytes d l pos len k : 0 <= k < len -> zget 0 (fbytes d l pos len) k = fbyte d l (pos + k).
Proof.
  intros Hk. apply zget_lookup; [lia|]. unfold fbytes. rewrite list_lookup_fmap, lookup_seq_lt by lia. simpl. do 2 f_equal. lia.
Qed.

Lemma fbytes_ext d d' l pos len : (forall i, pos <= i < pos + len -> fbyte d' l i = fbyte d l i) -> fbytes d' l pos len = fbytes d l pos len.
Proof.
  intros He. apply zget_ext; [by rewrite !fbytes_length|]. intros k Hk. rewrite fbytes_length in Hk. rewrite !zget_fbytes by lia. apply He. lia.
Qed.

(** The bytes one turn of the loops covers: within the sector of [off]. *)
Lemma turn_sector l off k : 0 <= off -> 0 <= k -> off mod 512 + k < 512 -> lba_of l (off + k) = lba_of l off /\ (off + k) mod 512 = off mod 512 + k.
Proof using Hv.
  intros Ho Hk Hb. assert (E5 : (off + k) / 512 = off / 512) by dlia. assert (Em : (off + k) mod 512 = off mod 512 + k) by dlia. split; [|done].
  pose proof (sector_index off) as (Ha & Hb1 & Hc1). pose proof (sector_index (off + k)) as (Ha2 & Hb2 & Hc2). rewrite E5 in Hb2.
  unfold lba_of. assert (Eq : (off + k) / cluster_bytes v = off / cluster_bytes v) by nia. rewrite Eq. nia.
Qed.

Lemma read_at_spec d l pos len :
  chain v d l -> 0 <= pos -> 0 <= len -> pos + len <= capacity l -> pos + len <= W32 ->
  fat16_read_at_v v d (nth 0 l 0) pos len = Some (len, fbytes d l pos len).
Proof using Hv HL.
  intros Hc Hp Hl Hcap Hw. unfold fat16_read_at_v.
  edestruct (while_total (fun '(r, w, out) => 0 <= r <= len /\ walk_ok d (nth 0 l 0) l w /\ out = fbytes d l pos r)
    (fun res => res = (len, fbytes d l pos len)) (fun '(r, _, _) => len - r)) as (res & -> & ->); [| | |done].
  - intros [[r w] out] (Hr & Hwk & ->). cbn beta iota. destruct (Z.ltb_spec r len); [|eexists; split; [done|]; cbn; by replace r with len by lia].
    rewrite (u32_small (pos + r)) by lia. destruct (locate_spec d l (pos + r) w Hc Hwk ltac:(lia)) as (w' & -> & Hwk').
    pose proof (lba_of_range d l (pos + r) Hc ltac:(lia)). destruct Hv as [Hb]. rewrite Hb.
    rewrite fat_rd_ok by lia. cbn [negb]. eexists. split; [done|]. cbn beta iota.
    pose proof (Z.mod_pos_bound (pos + r) 512 ltac:(lia)) as Hm. set (t := Z.min (512 - (pos + r) mod 512) (len - r)).
    assert (Ht : 0 < t <= len - r /\ (pos + r) mod 512 + t <= 512) by lia. split; [|lia]. split; [lia|]. split; [done|].
    pose proof (rd_sector (n := n) d (lba_of l (pos + r))) as [Hs _]. 
    apply zget_ext; [rewrite length_app, !fbytes_length, slice_length; lia|].
    intros k Hk. rewrite length_app, fbytes_length, slice_length in Hk by lia. rewrite zget_app by lia. rewrite fbytes_length.
    destruct (Z.ltb_spec k (Z.of_nat (Z.to_nat r))).
    + rewrite !zget_fbytes by lia. done.
    + rewrite zget_slice by lia. rewrite zget_fbytes by lia. unfold fbyte.
      destruct (turn_sector l (pos + r) (k - r)) as [E1 E2]; [lia..|]. replace (pos + r + (k - r)) with (pos + k) in E1, E2 by lia.
      rewrite E1, E2. f_equal. lia.
  - split; [lia|]. split; [apply walk_start|done].
  - cbn. lia.
Qed.

(** ** Writing *)

(** The byte a write puts at offset [j] of its range. *)
Definition src_byte (src : option (list Z)) (j : Z) : Z := match src with Some buf => zget 0 buf j | None => 0 end.
Definition src_ok (src : option (list Z)) (len : Z) : Prop := match src with Some buf => zlen buf = len /\ Forall is_byte buf | None => True end.

Lemma data_start_pos : 0 <= data_start_lba v.
Proof using Hv. pose proof (fats_below_data Hv). assert (0 <= num_fats v * sectors_per_fat v) by (apply Z.mul_nonneg_nonneg; destruct Hv; lia). destruct Hv. lia. Qed.

Lemma data_not_fat lba : data_start_lba v <= lba -> ~ in_fats v lba.
Proof using Hv. intros Hl Hf. unfold in_fats in Hf. pose proof (fats_below_data Hv). lia. Qed.

(** Writes to the data area leave the table alone. *)
Lemma next_ext d d' c : (forall lba, 0 <= lba < n -> in_fats v lba -> img d' lba = img d lba) -> 0 <= c < table_entries v ->
  fat16_next_cluster v d' c = fat16_next_cluster v d c.
Proof using Hv HL.
  intros He Hc. rewrite !(next_eq Hv) by done. pose proof (entry_sector Hv c Hc). pose proof (fats_bound Hv 0 (c / per_sector v)) as Hb.
  pose proof (fats_below_data Hv). rewrite He; [done| |].
  - destruct Hv. lia.
  - destruct Hv. unfold in_fats. lia.
Qed.

Lemma mirrored_ext d d' : (forall lba, 0 <= lba < n -> in_fats v lba -> img d' lba = img d lba) -> mirrored v d -> mirrored v d'.
Proof using Hv.
  intros He Hm k s Hk Hs. pose proof (fats_bound Hv k s Hk Hs). pose proof (fats_bound Hv 0 s ltac:(lia) Hs). pose proof (fats_below_data Hv). pose proof (ok_fat _ _ _ Hv).
  rewrite !He; [by apply Hm|..]; unfold in_fats; lia.
Qed.

(** What a write of [len] bytes at [pos] of the chain [l] leaves. *)
Record written_to d d' l (pos len : Z) (src : option (list Z)) : Prop := {
  wt_bytes : forall i, 0 <= i < capacity l -> fbyte d' l i = if (pos <=? i) && (i <? pos + len) then src_byte src (i - pos) else fbyte d l i;
  wt_frame : forall lba, 0 <= lba < n -> ~ in_chain l lba -> img d' lba = img d lba;
}.

Lemma written_next d d' l pos len src c : chain v d l -> written_to d d' l pos len src -> 0 <= c < table_entries v ->
  fat16_next_cluster v d' c = fat16_next_cluster v d c.
Proof using Hv HL.
  intros Hch Hw Hc. apply next_ext; [|done]. intros lba Hl Hf. apply (wt_frame _ _ _ _ _ _ Hw); [done|]. intros (i & Hi & ->).
  apply (data_not_fat (lba_of l i)); [|done]. apply (lba_of_range d l i Hch Hi).
Qed.

Lemma written_chain d d' l pos len src k : chain v d l -> chain v d k -> written_to d d' l pos len src -> chain v d' k.
Proof using Hv HL.
  intros Hc Hk Hw. eapply chain_ext; [|done]. intros c Hin. eapply written_next; [exact Hc|exact Hw|]. apply cluster_in_table. by eapply chain_clusters.
Qed.

(** The bytes of one turn. *)
Definition turn_bytes (src : option (list Z)) (written t : Z) : list Z :=
  match src with Some buf => slice buf written t | None => replicate (Z.to_nat t) 0 end.

Lemma turn_bytes_spec src len written t : src_ok src len -> 0 <= written -> 0 <= t -> written + t <= len ->
  zlen (turn_bytes src written t) = t /\ Forall is_byte (turn_bytes src written t) /\
  forall k, 0 <= k < t -> zget 0 (turn_bytes src written t) k = src_byte src (written + k).
Proof.
  intros Hs Hw Ht Hl. destruct src as [buf|]; cbn in *.
  - destruct Hs as [Hz Hb]. split; [rewrite slice_length; lia|]. split; [by apply slice_bytes|]. intros k Hk. by apply zget_slice.
  - rewrite length_replicate. split; [lia|]. split; [apply Forall_replicate, is_byte_0|]. intros k Hk. unfold zget. by rewrite nth_replicate_lt || rewrite nth_lookup, lookup_replicate_2 by lia.
Qed.

Lemma written_step d0 d l pos len src written :
  chain v d0 l -> src_ok src len -> 0 <= pos -> 0 <= written < len -> pos + len <= capacity l ->
  let off := pos + written in
  let t := Z.min (512 - off mod 512) (len - written) in
  written_to d0 d l pos written src ->
  written_to d0 (snd (fat_wr d (lba_of l off) (splice (img d (lba_of l off)) (off mod 512) (turn_bytes src written t)))) l pos (written + t) src.
Proof using Hv HL.
  intros Hc Hs Hp Hwr Hcap off t Hw. pose proof (lba_of_range d0 l off Hc ltac:(lia)) as Hlr.
  pose proof (Z.mod_pos_bound off 512 ltac:(lia)) as Hm. assert (Ht : 0 < t <= len - written /\ off mod 512 + t <= 512) by lia.
  destruct (turn_bytes_spec src len written t Hs) as (Hzl & Hby & Hzg); [lia..|].
  pose proof (rd_sector (n := n) d (lba_of l off)) as [Hsl Hsb]. pose proof (fats_below_data Hv) as Hfd.
  assert (Hsec : is_sector (splice (img d (lba_of l off)) (off mod 512) (turn_bytes src written t))).
  { split; [rewrite splice_length; lia|by apply splice_bytes]. }
  pose proof data_start_pos as H0.
  unfold fat_wr. split.
  - intros i Hi. unfold fbyte at 1. pose proof (lba_of_range d0 l i Hc Hi). rewrite (rd_wr (n := n)) by (done || lia).
    destruct (Z.eqb_spec (lba_of l i) (lba_of l off)) as [E|E].
    + pose proof (lba_of_inj d0 l i off Hc Hi ltac:(lia) E) as Es. rewrite zget_splice by (rewrite ?Hzl; lia || (apply Z.mod_pos_bound; lia)).
      rewrite Hzl. assert (Ei : i - off = i mod 512 - off mod 512) by dlia.
      destruct ((off mod 512 <=? i mod 512) && (i mod 512 <? off mod 512 + t)) eqn:Eb.
      * zbool. rewrite (proj2 (Z.leb_le pos i)), (proj2 (Z.ltb_lt i _)) by lia. cbn [andb]. rewrite Hzg by lia. f_equal. lia.
      * rewrite <- E. change (zget 0 (img d (lba_of l i)) (i mod 512)) with (fbyte d l i). rewrite (wt_bytes _ _ _ _ _ _ Hw) by done.
        apply andb_false_iff in Eb. zcases; cbn [andb]; try done; exfalso; destruct Eb as [Eb|Eb]; zbool; lia.
    + change (zget 0 (img d (lba_of l i)) (i mod 512)) with (fbyte d l i). rewrite (wt_bytes _ _ _ _ _ _ Hw) by done.
      assert (Hout : ~ (off <= i < off + t)).
      { intros Hin. apply E. destruct (turn_sector l off (i - off)) as [E1 _]; [lia..|]. by replace (off + (i - off)) with i in E1 by lia. }
      zcases; cbn [andb]; try done; lia.
  - intros lba Hl Hn. rewrite (rd_wr (n := n)) by (done || lia). destruct (Z.eqb_spec lba (lba_of l off)) as [->|_].
    + exfalso. apply Hn. exists off. split; [lia|done].
    + by apply (wt_frame _ _ _ _ _ _ Hw).
Qed.

Lemma write_range_spec d l pos src len :
  chain v d l -> src_ok src len -> 0 <= pos -> 0 <= len -> pos + len <= capacity l -> pos + len <= W32 ->
  exists d', write_range v d (nth 0 l 0) pos src len = Some d' /\ written_to d d' l pos len src.
Proof using Hv HL.
  intros Hc Hs Hp Hl Hcap Hw. unfold write_range.
  apply (while_total (fun '(written, w, d') => 0 <= written <= len /\ walk_ok d' (nth 0 l 0) l w /\ written_to d d' l pos written src)
    (fun d' => written_to d d' l pos len src) (fun '(written, _, _) => len - written)).
  - intros [[written w] d'] (Hr & Hwk & Hwt). cbn beta iota. eexists. split; [done|].
    destruct (Z.ltb_spec written len); [|by replace len with written by lia].
    rewrite (u32_small (pos + written)) by lia.
    destruct (locate_spec d' l (pos + written) w) as (w' & -> & Hwk'); [by eapply written_chain|done|lia|].
    replace (bytes_per_sector v) with 512 by (by destruct Hv). cbn beta iota zeta.
    pose proof (Z.mod_pos_bound (pos + written) 512 ltac:(lia)). split; [|lia]. split; [lia|]. split; [done|].
    apply written_step; done || lia.
  - split; [lia|]. split; [apply walk_start|]. split; [|done]. intros i Hi. zcases; cbn [andb]; try done; lia.
  - cbn. lia.
Qed.

(** ** Extending a chain *)

Lemma vol_ok_hint h : vol_ok n ncl (v <| next_free_hint := h |>).
Proof using Hv. by destruct Hv. Qed.

Lemma clusters_length l : NoDup l -> (forall c, c ∈ l -> is_cluster c) -> zlen l <= ncl.
Proof using Hv.
  intros Hnd Hin. assert (Hle : (length l <= length (seqZ 2 ncl))%nat).
  { apply NoDup_incl_length; [by apply NoDup_ListNoDup|]. intros c Hc%list_elem_of_In. apply list_elem_of_In, elem_of_seqZ. specialize (Hin c Hc). unfold is_cluster in Hin. lia. }
  rewrite length_seqZ in Hle. destruct Hv. lia.
Qed.

Lemma chain_length d l : chain v d l -> 1 <= zlen l <= ncl.
Proof using Hv.
  intros Hc. split; [destruct l; [done|cbn [length]; lia]|]. apply clusters_length; [by eapply chain_nodup|]. intros c. by apply (chain_clusters d).
Qed.

Lemma ncl_small : ncl < 268435456.
Proof using Hv. destruct Hv. destruct (is_32 v); lia. Qed.

Lemma chain_used d l c : chain v d l -> c ∈ l -> fat16_next_cluster v d c <> 0.
Proof using Hv.
  intros Hc Hin E. apply list_elem_of_lookup in Hin as [i Hi]. pose proof (lookup_lt_Some _ _ _ Hi) as Hl.
  assert (En : nth i l 0 = c) by (by apply nth_lookup_Some).
  destruct (decide (S i < length l)%nat) as [Hs|Hs].
  - pose proof (chain_nth d l i Hc Hs) as E2. pose proof (nth_cluster d l (S i) Hc Hs) as Hcl. unfold is_cluster in Hcl. rewrite En, E in E2. lia.
  - pose proof (chain_last d l Hc) as E2. replace (pred (length l)) with i in E2 by lia. rewrite En, E in E2. unfold fat_is_eoc in E2. by destruct (is_32 v).
Qed.

Lemma chain_end_spec d l : chain v d l -> chain_end v d (nth 0 l 0) = Some (nth (pred (length l)) l 0, zlen l).
Proof using Hv.
  intros Hc. pose proof (chain_length d l Hc) as Hlen. pose proof ncl_small. unfold chain_end.
  edestruct (while_total (fun '(c, k) => 1 <= k <= zlen l /\ c = nth (Z.to_nat (k - 1)) l 0)
    (fun r => r = (nth (pred (length l)) l 0, zlen l)) (fun '(_, k) => zlen l - k)) as (r & -> & ->); [| | |done].
  - intros [c k] [Hk ->]. cbn beta iota. eexists. split; [done|]. destruct (Z.eq_dec k (zlen l)) as [->|Hne].
    + replace (Z.to_nat (zlen l - 1)) with (pred (length l)) by lia. by rewrite (chain_last d l Hc).
    + rewrite (chain_nth d l) by (done || lia). pose proof (nth_cluster d l (S (Z.to_nat (k - 1))) Hc ltac:(lia)).
      rewrite cluster_not_eoc by done. cbn [negb]. rewrite u32_small by lia. split; [|lia]. split; [lia|]. f_equal. lia.
  - split; [lia|done].
  - cbn. lia.
Qed.

(** What appending clusters changes: the links of the chain, from free clusters. *)
Record extended d0 d l cur : Prop := {
  ex_new : exists k, cur = l ++ k /\ Forall (fun c => is_cluster c /\ fat16_next_cluster v d0 c = 0) k;
  ex_chain : cur = [] \/ chain v d cur;
  ex_other : forall x, 0 <= x < table_entries v -> x ∉ cur -> fat16_next_cluster v d x = fat16_next_cluster v d0 x;
  ex_frame : forall lba, 0 <= lba < n -> ~ in_fats v lba -> img d lba = img d0 lba;
  ex_mirrored : mirrored v d0 -> mirrored v d;
}.

(** Every entry past the last cluster of the data area is taken. *)
Definition tail_reserved d : Prop := forall c, ncl + 2 <= c < table_entries v -> fat16_next_cluster v d c <> 0.

Lemma trunc_eoc : fat_is_eoc v (trunc v (fat_eoc_marker v)) = true.
Proof. unfold fat_is_eoc, trunc, fat_eoc_marker. by destruct (is_32 v). Qed.

Lemma trunc_cluster c : is_cluster c -> trunc v c = c.
Proof using Hv.
  intros Hc. unfold is_cluster in Hc. unfold trunc. destruct Hv. destruct (is_32 v); [rewrite land_low28; apply Z.mod_small; lia|apply u16_small; lia].
Qed.

Lemma chain_single d c : is_cluster c -> chain v (fat16_set_next_cluster v d c (fat_eoc_marker v)) [c].
Proof using Hv HL.
  intros Hc. pose proof (cluster_in_table c Hc). split; [done|]. rewrite (set_next_next Hv) by done. rewrite Z.eqb_refl. apply trunc_eoc.
Qed.

Lemma chain_snoc d l c : chain v d l -> is_cluster c -> c ∉ l ->
  chain v (fat16_set_next_cluster v (fat16_set_next_cluster v d c (fat_eoc_marker v)) (nth (pred (length l)) l 0) c) (l ++ [c]).
Proof using Hv HL.
  intros Hc Hcl Hn. pose proof (cluster_in_table c Hcl) as Hct.
  assert (Hlt : 0 <= nth (pred (length l)) l 0 < table_entries v).
  { pose proof (chain_length d l Hc). apply cluster_in_table, (nth_cluster d); [done|lia]. }
  pose proof (chain_nodup d l Hc) as Hnd. set (d2 := fat16_set_next_cluster v _ _ c).
  assert (Hd2 : forall x, 0 <= x < table_entries v -> fat16_next_cluster v d2 x =
    if x =? nth (pred (length l)) l 0 then c else if x =? c then trunc v (fat_eoc_marker v) else fat16_next_cluster v d x).
  { intros x Hx. unfold d2. rewrite !(set_next_next Hv) by done. by rewrite (trunc_cluster c Hcl). }
  clearbody d2. clear Hlt.
  induction l as [|a l IH]; [done|]. destruct Hc as [Ha Hc]. apply not_elem_of_cons in Hn as [Hac Hnl]. apply NoDup_cons in Hnd as [Hal Hnd].
  destruct l as [|b l].
  - cbn [length pred nth] in Hd2. split; [done|]. split; [rewrite Hd2 by (by apply cluster_in_table); by rewrite Z.eqb_refl|].
    split; [done|]. rewrite Hd2 by done. rewrite (proj2 (Z.eqb_neq c a)), Z.eqb_refl by done. apply trunc_eoc.
  - destruct Hc as [Hab Hc]. cbn [app]. split; [done|]. split.
    + rewrite Hd2 by (by apply cluster_in_table). assert (a <> nth (pred (length (a :: b :: l))) (a :: b :: l) 0).
      { intros E. apply Hal. rewrite E. cbn [length pred]. change (nth (S (length l)) (a :: b :: l) 0) with (nth (length l) (b :: l) 0).
        apply list_elem_of_In, nth_In. cbn [length]. lia. }
      rewrite (proj2 (Z.eqb_neq a _)), (proj2 (Z.eqb_neq a c)) by (done || congruence). done.
    + apply IH; done.
Qed.

Lemma extended_step d0 d l cur h c :
  tail_reserved d0 -> extended d0 d l cur -> (forall x, x ∈ l -> is_cluster x) ->
  2 <= c < table_entries v -> fat16_next_cluster (v <| next_free_hint := h |>) d c = 0 ->
  is_cluster c /\ c ∉ cur /\
  let d1 := fat16_set_next_cluster (v <| next_free_hint := h |>) d c (fat_eoc_marker (v <| next_free_hint := h |>)) in
  extended d0 (match cur with [] => d1 | _ => fat16_set_next_cluster v d1 (nth (pred (length cur)) cur 0) c end) l (cur ++ [c]).
Proof using Hv HL.
  intros Htail Hex Hl Hc H0. change (fat16_next_cluster v d c = 0) in H0.
  assert (Hn : c ∉ cur).
  { intros Hin. destruct (ex_chain _ _ _ _ Hex) as [->|Hch]; [by apply elem_of_nil in Hin|]. by apply (chain_used d cur c). }
  assert (E0 : fat16_next_cluster v d0 c = 0) by (rewrite <- (ex_other _ _ _ _ Hex); [done|lia|done]).
  assert (Hcl : is_cluster c). { unfold is_cluster. destruct (Z.lt_ge_cases c (ncl + 2)) as [|Hge]; [lia|]. by destruct (Htail c ltac:(lia)). }
  split; [done|]. split; [done|]. cbv zeta.
  change (fat16_set_next_cluster (v <| next_free_hint := h |>) d c (fat_eoc_marker (v <| next_free_hint := h |>))) with (fat16_set_next_cluster v d c (fat_eoc_marker v)).
  pose proof (cluster_in_table c Hcl) as Hct.
  assert (Hla : cur <> [] -> nth (pred (length cur)) cur 0 ∈ cur /\ 0 <= nth (pred (length cur)) cur 0 < table_entries v).
  { intros Hne. destruct (ex_chain _ _ _ _ Hex) as [?|Hch]; [done|]. pose proof (chain_length d _ Hch).
    assert (Hin : nth (pred (length cur)) cur 0 ∈ cur) by (apply list_elem_of_In, nth_In; lia). split; [done|]. apply cluster_in_table. by eapply chain_clusters. }
  destruct Hex as [(k & Ek & Hk) Hch Hot Hfr Hmi]. split.
  - exists (k ++ [c]). rewrite Ek, app_assoc. split; [done|]. apply Forall_app. split; [done|]. by constructor.
  - right. destruct Hch as [->|Hch]; [by apply chain_single|]. destruct cur as [|a cur]; [done|]. by apply chain_snoc.
  - intros x Hx [Hxn Hxc]%not_elem_of_app. rewrite list_elem_of_singleton in Hxc.
    destruct cur as [|a cur]; [rewrite (set_next_next Hv) by done; rewrite (proj2 (Z.eqb_neq x c)) by done; by apply Hot|].
    destruct Hla as [Hin Hlat]; [done|]. set (la := nth _ _ 0) in *.
    rewrite !(set_next_next Hv) by done. rewrite (proj2 (Z.eqb_neq x c)), (proj2 (Z.eqb_neq x la)) by (done || congruence). by apply Hot.
  - intros lba Hlb Hnf. destruct cur as [|a cur]; [rewrite (set_next_frame Hv) by done; by apply Hfr|].
    destruct Hla as [_ Hlat]; [done|]. rewrite !(set_next_frame Hv) by done. by apply Hfr.
  - intros Hm. destruct cur as [|a cur]; [apply (set_next_mirrored Hv); auto|]. destruct Hla as [_ Hlat]; [done|].
    do 2 (apply (set_next_mirrored Hv); [done|]). auto.
Qed.

Lemma extended_refl d l : (l = [] \/ chain v d l) -> extended d d l l.
Proof. intros Hc. split; [exists []; rewrite app_nil_r; auto|done|done|done|done]. Qed.

Lemma extend_chain_spec d l first needed : file_chain v d first l -> tail_reserved d -> 0 <= needed < W32 ->
  exists r, extend_chain v d first (nth (pred (length l)) l 0) (zlen l) needed = Some r /\
  match r with
  | inl (v', d') => exists h cur, v' = v <| next_free_hint := h |> /\ extended d d' l cur /\ zlen cur < needed /\ forall c, is_cluster c -> fat16_next_cluster v d' c <> 0
  | inr (start, v', d') => exists h cur, v' = v <| next_free_hint := h |> /\ extended d d' l cur /\ zlen cur = Z.max (zlen l) needed /\ start = nth 0 cur 0
  end.
Proof using Hv HL.
  intros Hf Htail Hneed. pose proof ncl_small as Hsm.
  assert (Hl : (l = [] \/ chain v d l) /\ first = nth 0 l 0) by (destruct l as [|a l]; [auto|destruct Hf; auto]).
  destruct Hl as [Hl ->]. assert (Hlc : forall x, x ∈ l -> is_cluster x).
  { intros x Hx. destruct Hl as [->|Hl]; [by apply elem_of_nil in Hx|]. by eapply chain_clusters. }
  unfold extend_chain.
  apply (while_total (fun '(start, last, k, v', d') => exists h cur, v' = v <| next_free_hint := h |> /\ extended d d' l cur /\ k = zlen cur /\
      (zlen cur = zlen l \/ zlen cur <= needed) /\ zlen l <= zlen cur /\ start = nth 0 cur 0 /\ last = nth (pred (length cur)) cur 0) _
    (fun '(_, _, k, _, _) => Z.max 0 (needed - k))).
  - intros [[[[start last] k] v'] d'] (h & cur & -> & Hex & -> & Hk & Hge & -> & ->). cbn beta iota.
    assert (Hlen : zlen cur <= ncl). { destruct (ex_chain _ _ _ _ Hex) as [->|Hc]; [destruct Hv; cbn; lia|]. by apply (chain_length d'). }
    destruct (Z.ltb_spec (zlen cur) needed) as [Hlt|Hnl].
    + destruct (alloc_spec (vol_ok_hint h) d') as (c & v' & d1 & -> & Ha). cbn [mbind option_bind].
      destruct Ha as [(-> & -> & -> & Hfull)|(Hc & Hfree & -> & ->)].
      * eexists. split; [done|]. cbn. exists h, cur. split; [done|]. split; [done|]. split; [done|].
        intros c Hc. pose proof (cluster_in_table c Hc). unfold is_cluster in Hc. apply (Hfull c). change (2 <= c < table_entries v). lia.
      * destruct (extended_step d d' l cur h c Htail Hex Hlc Hc Hfree) as (Hcl & Hn & Hex').
        rewrite (proj2 (Z.eqb_neq c 0)) by lia. destruct cur as [|a cur].
        { eexists. split; [done|]. cbn beta iota. change (u32 (zlen [] + 1)) with 1. cbn in Hlt. split; [|cbn; lia]. eexists _, [c]. split; [done|]. split; [done|]. cbn in *. repeat split; lia || auto. }
        assert (Ha : is_cluster a) by (destruct (ex_chain _ _ _ _ Hex) as [?|[Ha _]]; done). unfold is_cluster in Ha. cbn [nth] in *.
        rewrite (proj2 (Z.eqb_neq a 0)) by lia. eexists. split; [done|]. cbn beta iota. rewrite (u32_small (zlen _ + 1)) by lia. split; [|lia].
        eexists _, ((a :: cur) ++ [c]). split; [done|]. split; [exact Hex'|]. rewrite length_app. do 3 (split; [cbn [length] in *; lia|]). split; [done|].
        replace (pred (length (a :: cur) + length [c])) with (length (a :: cur)) by (cbn [length]; lia). rewrite app_nth2, Nat.sub_diag by lia. done.
    + eexists. split; [done|]. cbn. exists h, cur. split; [done|]. split; [done|]. split; [lia|done].
  - eexists (next_free_hint v), l. split; [by destruct v|]. split; [by apply extended_refl|]. repeat split; auto; lia.
  - cbn. lia.
Qed.
End file.

Arguments is_cluster ncl c : clear implicits.
Arguments chain {D HB} ncl v d l.
Arguments file_chain {D HB} ncl v d first l.
Arguments lba_of v l i : clear implicits.
Arguments fbyte {D HB} v d l i.
Arguments fbytes {D HB} v d l pos len.
Arguments in_chain v l lba : clear implicits.
Arguments tail_reserved {D HB} ncl v d.
Arguments extended {D HB} n ncl v d0 d l cur.
Arguments written_to {D HB} n v d d' l pos len src.
