(* ===== verification/FatWrite.v ===== *)
(** * Writing a file on a FAT volume

    The whole of [fat16_write_file_v]: the chain is extended with free clusters, the gap between
    the old end and the position is zeroed, the data is written, and everything that is not the
    file stays. *)

From stdpp Require Import base numbers list option sets.
From S2P Require Import Prelude Loop Bytes Fat FatTable FatFile.

Section write.
Context {D : Type} `{HB : BlockStore D} {n ncl : Z} {HL : BlockLaws D n}.
Context {v : fat_volume} (Hv : vol_ok n ncl v).
Implicit Types (d : D) (l : list Z).
Abbreviation cb := (cluster_bytes v).

(** The hint of the allocator is no part of the geometry. *)
#[local] Opaque while.
Lemma hint_write_range h d : write_range (v <| next_free_hint := h |>) d = write_range v d.
Proof. reflexivity. Qed.

Lemma lba_of_app l k i : 0 <= i < zlen l * cb -> lba_of v (l ++ k) i = lba_of v l i.
Proof using Hv. intros Hi. pose proof (index_lt Hv l i Hi). unfold lba_of. by rewrite app_nth1 by done. Qed.

Lemma fbyte_app d l k i : 0 <= i < zlen l * cb -> fbyte v d (l ++ k) i = fbyte v d l i.
Proof using Hv. intros Hi. unfold fbyte. by rewrite lba_of_app. Qed.

(** The cluster a sector of the data area belongs to. *)
Lemma lba_cluster l i : (forall c, c ∈ l -> is_cluster ncl c) -> 0 <= i < zlen l * cb ->
  (lba_of v l i - data_start_lba v) / sectors_per_cluster v + 2 = nth (Z.to_nat (i / cb)) l 0.
Proof using Hv.
  intros Hl Hi. pose proof (index_lt Hv l i Hi) as Hlt. pose proof (sector_index Hv i) as (Hs & _ & _).
  unfold lba_of. set (c := nth _ l 0). set (r := i mod _ / 512) in *. clearbody r.
  replace (data_start_lba v + (c - 2) * sectors_per_cluster v + r - data_start_lba v) with (r + (c - 2) * sectors_per_cluster v) by ring.
  rewrite Z.div_add by lia. rewrite (Z.div_small r) by lia. lia.
Qed.

Lemma chains_apart l k lba : (forall c, c ∈ l -> is_cluster ncl c) -> (forall c, c ∈ k -> is_cluster ncl c) -> (forall c, c ∈ l -> c ∉ k) ->
  in_chain v l lba -> ~ in_chain v k lba.
Proof using Hv.
  intros Hl Hk Hd (i & Hi & ->) (j & Hj & E).
  pose proof (lba_cluster l i Hl Hi) as Ei. pose proof (lba_cluster k j Hk Hj) as Ej. rewrite E, Ej in Ei.
  apply (Hd (nth (Z.to_nat (i / cb)) l 0)).
  - apply list_elem_of_In, nth_In. by apply (index_lt Hv).
  - rewrite <- Ei. apply list_elem_of_In, nth_In. by apply (index_lt Hv).
Qed.

(** The file after a write: its chain [cur] extends [l], and [now] are its bytes. *)
Record file_written d d' l cur (now : list Z) : Prop := {
  fw_chain : chain ncl v d' cur;
  fw_new : exists k, cur = l ++ k /\ Forall (fun c => is_cluster ncl c /\ fat16_next_cluster v d c = 0) k;
  fw_bytes : fbytes v d' cur 0 (zlen now) = now;
  fw_fits : zlen now <= zlen cur * cb;
  fw_other : forall x, 0 <= x < table_entries v -> x ∉ cur -> fat16_next_cluster v d' x = fat16_next_cluster v d x;
  fw_frame : forall lba, 0 <= lba < n -> ~ in_fats v lba -> ~ in_chain v cur lba -> img d' lba = img d lba;
  fw_mirrored : mirrored v d -> mirrored v d';
}.

(** Another file keeps its chain and its bytes. *)
Lemma other_file_kept d d' l cur now k : file_written d d' l cur now -> chain ncl v d k -> (forall c, c ∈ l -> c ∉ k) ->
  chain ncl v d' k /\ forall i, 0 <= i < zlen k * cb -> fbyte v d' k i = fbyte v d k i.
Proof using Hv.
  intros Hw Hk Hd. destruct (fw_new _ _ _ _ _ Hw) as (k' & Ecur & Hfree).
  assert (Hkc : forall c, c ∈ k -> is_cluster ncl c) by (intros c; by eapply chain_clusters).
  assert (Hcc : forall c, c ∈ cur -> is_cluster ncl c) by (intros c; eapply chain_clusters; by eapply fw_chain).
  assert (Hdis : forall c, c ∈ k -> c ∉ cur).
  { intros c Hc Hin. rewrite Ecur in Hin. apply elem_of_app in Hin as [Hin|Hin]; [by apply (Hd c)|].
    rewrite Forall_forall in Hfree. destruct (Hfree c Hin) as [_ E0]. by apply (chain_used Hv d k c). }
  split.
  - eapply chain_ext; [|done]. intros c Hc. eapply fw_other; [done| |by apply Hdis]. by apply (cluster_in_table Hv), Hkc.
  - intros i Hi. unfold fbyte. f_equal. pose proof (lba_of_range Hv d k i Hk Hi) as Hr. pose proof (data_start_pos Hv).
    eapply fw_frame; [done|lia| |].
    + apply (data_not_fat Hv); lia.
    + eapply chains_apart; [exact Hkc|exact Hcc|exact Hdis|]. by exists i.
Qed.

(** The bytes of a file of [size] bytes after [buf] is written at [pos]. *)
Definition overwrite (old : list Z) (pos : Z) (buf : list Z) : list Z :=
  splice (old ++ replicate (Z.to_nat (pos + zlen buf - zlen old)) 0) pos buf.

Lemma overwrite_length old pos buf : 0 <= pos -> zlen (overwrite old pos buf) = Z.max (zlen old) (pos + zlen buf).
Proof. intros Hp. unfold overwrite. rewrite splice_length; rewrite ?length_app, ?length_replicate; lia. Qed.

Lemma zget_overwrite old pos buf i : 0 <= pos -> 0 <= i ->
  zget 0 (overwrite old pos buf) i = if (pos <=? i) && (i <? pos + zlen buf) then zget 0 buf (i - pos) else zget 0 old i.
Proof.
  intros Hp Hi. unfold overwrite. rewrite zget_splice by (rewrite ?length_app, ?length_replicate; lia).
  destruct ((pos <=? i) && (i <? pos + zlen buf)); [done|]. rewrite zget_app by done. destruct (Z.ltb_spec i (zlen old)); [done|].
  rewrite (zget_over old) by lia. unfold zget. rewrite nth_lookup. destruct (replicate _ 0 !! _) eqn:E; [|done]. by apply lookup_replicate in E as [-> _].
Qed.

(** Zero the gap, then write the data. *)
Lemma fill_and_write d cur size pos buf :
  chain ncl v d cur -> 0 <= size -> 0 <= pos -> Forall is_byte buf -> pos + zlen buf <= zlen cur * cb -> pos + zlen buf <= W32 ->
  exists d1 d', (if size <? pos then write_range v d (nth 0 cur 0) size None (pos - size) else Some d) = Some d1 /\
    write_range v d1 (nth 0 cur 0) pos (Some buf) (zlen buf) = Some d' /\ chain ncl v d' cur /\
    (forall c, 0 <= c < table_entries v -> fat16_next_cluster v d' c = fat16_next_cluster v d c) /\
    (forall i, 0 <= i < zlen cur * cb -> fbyte v d' cur i =
      if (pos <=? i) && (i <? pos + zlen buf) then zget 0 buf (i - pos) else if (size <=? i) && (i <? pos) then 0 else fbyte v d cur i) /\
    (forall lba, 0 <= lba < n -> ~ in_chain v cur lba -> img d' lba = img d lba).
Proof using Hv HL.
  intros Hc Hs Hp Hb Hcap Hw.
  assert (H1 : exists d1, (if size <? pos then write_range v d (nth 0 cur 0) size None (pos - size) else Some d) = Some d1 /\ written_to n v d d1 cur size (pos - size) None).
  { destruct (Z.ltb_spec size pos).
    - apply (write_range_spec Hv); try done; try lia.
    - exists d. split; [done|]. split; [|done]. intros i Hi. zcases; cbn [andb]; try done; lia. }
  destruct H1 as (d1 & E1 & W1). pose proof (written_chain Hv _ _ _ _ _ _ _ Hc Hc W1) as Hc1.
  destruct (write_range_spec Hv d1 cur pos (Some buf) (zlen buf) Hc1) as (d' & E2 & W2); [done|lia..|].
  exists d1, d'. split; [done|]. split; [done|]. split; [by apply (written_chain Hv _ _ _ _ _ _ _ Hc1 Hc1 W2)|]. split; [|split].
  - intros c Ht. rewrite (written_next Hv _ _ _ _ _ _ c Hc1 W2 Ht). apply (written_next Hv _ _ _ _ _ _ c Hc W1 Ht).
  - intros i Hi. rewrite (wt_bytes _ _ _ _ _ _ W2) by done. cbn [src_byte]. destruct ((pos <=? i) && _); [done|].
    rewrite (wt_bytes _ _ _ _ _ _ W1) by done. cbn [src_byte]. by replace (size + (pos - size)) with pos by lia.
  - intros lba Hl Hn. rewrite (wt_frame _ _ _ _ _ _ W2) by done. by apply (wt_frame _ _ _ _ _ _ W1).
Qed.

Lemma ext_bytes d d' l cur i : extended n ncl v d d' l cur -> chain ncl v d' cur -> 0 <= i < zlen l * cb -> fbyte v d' cur i = fbyte v d l i.
Proof using Hv.
  intros Hex Hc Hi. destruct (ex_new _ _ _ _ Hex) as (k & -> & _).
  assert (Hi' : 0 <= i < zlen (l ++ k) * cb) by (rewrite length_app; pose proof (cluster_bytes_eq Hv); nia).
  pose proof (lba_of_range Hv d' _ i Hc Hi') as Hr. rewrite <- (fbyte_app d l k i Hi). unfold fbyte. f_equal.
  pose proof (data_start_pos Hv). apply (ex_frame _ _ _ _ Hex); [lia|]. apply (data_not_fat Hv). lia.
Qed.

Lemma ceil_div a : 0 < a -> a + cb <= W32 -> let k := u32 (a + cb - 1) / cb in a <= k * cb < a + cb /\ 1 <= k < W32.
Proof using Hv.
  intros Ha Hw. pose proof (cluster_bytes_eq Hv) as [_ Hb]. rewrite u32_small by lia. cbv zeta.
  pose proof (Z.div_mod (a + cb - 1) cb ltac:(lia)) as Hd. pose proof (Z.mod_pos_bound (a + cb - 1) cb ltac:(lia)) as Hm.
  set (k := (a + cb - 1) / cb) in *. clearbody k. assert (a <= k * cb < a + cb) by lia. split; [done|]. nia.
Qed.

(** The bytes, the table and the other sectors after both writes. *)
Lemma file_written_intro d d1 d' l cur size pos buf :
  extended n ncl v d d1 l cur -> chain ncl v d1 cur -> 0 <= size <= zlen l * cb -> 0 <= pos -> pos + zlen buf <= zlen cur * cb -> zlen l <= zlen cur ->
  chain ncl v d' cur ->
  (forall c, 0 <= c < table_entries v -> fat16_next_cluster v d' c = fat16_next_cluster v d1 c) ->
  (forall i, 0 <= i < zlen cur * cb -> fbyte v d' cur i =
      if (pos <=? i) && (i <? pos + zlen buf) then zget 0 buf (i - pos) else if (size <=? i) && (i <? pos) then 0 else fbyte v d1 cur i) ->
  (forall lba, 0 <= lba < n -> ~ in_chain v cur lba -> img d' lba = img d1 lba) ->
  file_written d d' l cur (overwrite (fbytes v d l 0 size) pos buf).
Proof using Hv.
  intros Hex Hch Hsize Hp Hcap Hlc Hc' Hnx Hby Hfr. pose proof (cluster_bytes_eq Hv) as [_ Hcb].
  assert (Hzl : zlen (fbytes v d l 0 size) = size) by (rewrite fbytes_length; lia).
  assert (Hcap2 : size <= zlen cur * cb) by (etransitivity; [apply Hsize|]; apply Z.mul_le_mono_nonneg_r; lia).
  pose proof (overwrite_length (fbytes v d l 0 size) pos buf Hp) as Hol. rewrite Hzl in Hol. split.
  - done.
  - by apply (ex_new _ _ _ _ Hex).
  - rewrite Hol. apply zget_ext; [rewrite fbytes_length; lia|].
    intros i Hi. rewrite fbytes_length in Hi. rewrite zget_fbytes, zget_overwrite by lia. rewrite Z.add_0_l, Hby by lia.
    destruct ((pos <=? i) && (i <? pos + zlen buf)) eqn:E; [done|].
    destruct (Z.lt_ge_cases i size).
    + rewrite (proj2 (Z.leb_gt size i)) by done. cbn [andb]. rewrite zget_fbytes, Z.add_0_l by lia. apply (ext_bytes d d1 l cur); [done|done|lia].
    + rewrite zget_over by lia. rewrite (proj2 (Z.leb_le size i)), (proj2 (Z.ltb_lt i pos)); [done| |done].
      apply andb_false_iff in E as [E|E]; zbool; lia.
  - rewrite Hol. lia.
  - intros x Hx Hn. rewrite Hnx by done. by apply (ex_other _ _ _ _ Hex).
  - intros lba Hl Hnf Hnc. rewrite Hfr by done. by apply (ex_frame _ _ _ _ Hex).
  - intros Hm k s Hk0 Hs0. pose proof (ex_mirrored _ _ _ _ Hex Hm k s Hk0 Hs0) as E. pose proof (fats_bound Hv k s Hk0 Hs0). pose proof (fats_bound Hv 0 s ltac:(lia) Hs0).
    pose proof (fats_below_data Hv). assert (Hnc : forall lba, lba < data_start_lba v -> ~ in_chain v cur lba).
    { intros lba Hl (i & Hi & ->). pose proof (lba_of_range Hv d1 cur i Hch Hi). lia. }
    destruct Hv. rewrite !Hfr; [done|lia|apply Hnc; lia|lia|apply Hnc; lia].
Qed.

Lemma file_chain_end d first l : file_chain ncl v d first l ->
  (if ctrue first then chain_end v d first else Some (0, 0)) = Some (nth (pred (length l)) l 0, zlen l).
Proof using Hv.
  intros Hf. destruct l as [|a l]; cbn in Hf; [by subst|]. destruct Hf as [-> Hc]. destruct (Hc) as [Ha _]. unfold is_cluster in Ha.
  unfold ctrue. rewrite (proj2 (Z.eqb_neq a 0)) by lia. apply (chain_end_spec Hv d (a :: l) Hc).
Qed.

(** The code, with the two walks done. *)
Lemma write_file_unfold d first size pos buf last existing r : 0 < zlen buf ->
  (if ctrue first then chain_end v d first else Some (0, 0)) = Some (last, existing) ->
  extend_chain v d first last existing (u32 (u32 (pos + zlen buf) + cb - 1) / cb) = Some r ->
  fat16_write_file_v v d first size pos buf (zlen buf) =
  match r with
  | inl (v', d') => Some (inl (- ENOSPC), v', d')
  | inr (start, v', d1) =>
    d2 ← (if size <? pos then write_range v' d1 start size None (pos - size) else Some d1);
    d' ← write_range v' d2 start pos (Some buf) (zlen buf);
    Some (inr (to_int (zlen buf), start, if size <? u32 (pos + zlen buf) then u32 (pos + zlen buf) else size), v', d')
  end.
Proof. intros Hl E1 E2. unfold fat16_write_file_v. rewrite (proj2 (Z.eqb_neq (zlen buf) 0)) by lia. rewrite E1, some_bind. cbv beta iota. rewrite E2, some_bind. by destruct r as [[]|[[]]]. Qed.

Lemma write_file_spec d first l size pos buf :
  file_chain ncl v d first l -> tail_reserved ncl v d -> 0 <= size <= zlen l * cb -> 0 <= pos -> 0 < zlen buf -> Forall is_byte buf ->
  pos + zlen buf + cb <= W32 ->
  exists res h d', fat16_write_file_v v d first size pos buf (zlen buf) = Some (res, v <| next_free_hint := h |>, d') /\
  match res with
  | inl e => e = - ENOSPC /\ (forall c, is_cluster ncl c -> fat16_next_cluster v d' c <> 0) /\
      exists cur, extended n ncl v d d' l cur /\ zlen cur * cb < pos + zlen buf
  | inr (r, first', size') => r = to_int (zlen buf) /\ size' = Z.max size (pos + zlen buf) /\
      exists cur, first' = nth 0 cur 0 /\ file_written d d' l cur (overwrite (fbytes v d l 0 size) pos buf)
  end.
Proof using Hv HL.
  intros Hf Htail Hsize Hp Hlen Hb Hw. pose proof (cluster_bytes_eq Hv) as [_ Hcb].
  pose proof (ceil_div (pos + zlen buf) ltac:(lia) ltac:(lia)) as Hk. cbv zeta in Hk.
  pose proof (file_chain_end d first l Hf) as Ee. set (needed := u32 (pos + zlen buf + cb - 1) / cb) in *.
  destruct (extend_chain_spec Hv d l first needed Hf Htail ltac:(lia)) as (r & Er & Hr).
  assert (Eu : u32 (pos + zlen buf) = pos + zlen buf) by (apply u32_small; lia).
  rewrite (write_file_unfold d first size pos buf _ _ r Hlen Ee) by (rewrite Eu; exact Er). rewrite Eu. clear Er Ee. clearbody needed.
  destruct r as [[v' d']|[[start v'] d1]].
  { destruct Hr as (h & cur & -> & Hex & Hc & Hfull). eexists _, h, d'. split; [reflexivity|]. split; [reflexivity|]. split; [exact Hfull|]. exists cur. split; [exact Hex|nia]. }
  destruct Hr as (h & cur & -> & Hex & Hcur & ->).
  assert (Hch : chain ncl v d1 cur) by (destruct (ex_chain _ _ _ _ Hex) as [->|Hch]; [cbn in Hcur; lia|exact Hch]).
  assert (Hcap : pos + zlen buf <= zlen cur * cb) by nia.
  destruct (fill_and_write d1 cur size pos buf Hch) as (d2 & d' & E1 & E2 & Hc' & Hnx & Hby & Hfr); [lia..|exact Hb|lia|lia|].
  rewrite hint_write_range, E1, some_bind. rewrite hint_write_range, E2, some_bind.
  eexists _, h, d'. split; [reflexivity|]. split; [reflexivity|]. split; [zcases; lia|]. exists cur. split; [reflexivity|].
  apply (file_written_intro d d1); auto; lia.
Qed.
End write.
