(* ===== verification/FatTime.v ===== *)
(** * FAT timestamps (fat_datetime_to_epoch and fat_epoch_to_datetime of kernel/fs/fatfs.c, with
      the calendar of kernel/drivers/char/rtc.c)

    A time the driver stores reads back as the same second, rounded down to an even one. *)

From stdpp Require Import base numbers list option.
From S2P Require Import Prelude Loop Bytes.

Definition is_leap (y : Z) : bool := ((y mod 4 =? 0) && negb (y mod 100 =? 0)) || (y mod 400 =? 0).
Definition year_len (y : Z) : Z := if is_leap y then 366 else 365.

Definition days_from_epoch (year month day : Z) : Z :=
  let days := foldl (fun days y => days + year_len y) 0 (seqZ 1970 (year - 1970)) in
  let days := days + zget 0 [0; 31; 59; 90; 120; 151; 181; 212; 243; 273; 304; 334] ((month - 1) mod 12) in
  let days := if (2 <? month) && is_leap year then days + 1 else days in
  days + (day - 1).
Definition rtc_time_to_epoch (year month day hour min sec : Z) : Z :=
  days_from_epoch year month day * 86400 + hour * 3600 + min * 60 + sec.

Definition fat_datetime_to_epoch (date time : Z) : Z :=
  if date =? 0 then 0
  else
    let year := 1980 + Z.land (Z.shiftr date 9) 0x7F in
    let month := Z.land (Z.shiftr date 5) 0x0F in
    let day := Z.land date 0x1F in
    let hour := Z.land (Z.shiftr time 11) 0x1F in
    let min := Z.land (Z.shiftr time 5) 0x3F in
    let sec := Z.land time 0x1F * 2 in
    if (month <? 1) || (12 <? month) || (day <? 1) || (31 <? day) then 0
    else rtc_time_to_epoch year month day hour min sec.

(** The two loops of the inverse: the year with the days left in it, then the month. *)
Definition year_of (days : Z) : option (Z * Z) :=
  while (fun '(days, year) => Some (if days <? year_len year then inr (days, year) else inl (days - year_len year, year + 1))) (days, 1970).
Definition mlen (year : Z) : list Z := [31; if is_leap year then 29 else 28; 31; 30; 31; 30; 31; 31; 30; 31; 30; 31].
Fixpoint month_of (l : list Z) (days month : Z) : Z * Z :=
  match l with
  | [] => (days, month)
  | m :: l => if days <? m then (days, month) else month_of l (days - m) (month + 1)
  end.

Definition fat_epoch_to_datetime (epoch : Z) : option (Z * Z) :=
  if epoch <=? 0 then Some (0, 0)
  else
    let rem := epoch mod 86400 in
    '(days, year) ← year_of (epoch / 86400);
    let '(days, month) := month_of (mlen year) days 1 in
    let day := days + 1 in
    if year <? 1980 then Some (0, 0)
    else Some (u16 (Z.lor (Z.lor (Z.shiftl (year - 1980) 9) (Z.shiftl month 5)) day),
               u16 (Z.lor (Z.lor (Z.shiftl (rem / 3600) 11) (Z.shiftl (rem / 60 mod 60) 5)) (rem mod 60 / 2))).

(** ** The calendar *)

Definition years_before (y : Z) : Z := foldl (fun days y => days + year_len y) 0 (seqZ 1970 (y - 1970)).

Lemma year_len_range y : 365 <= year_len y <= 366.
Proof. unfold year_len. destruct (is_leap y); lia. Qed.

Lemma years_before_succ y : 1970 <= y -> years_before (y + 1) = years_before y + year_len y.
Proof.
  intros Hy. unfold years_before. replace (y + 1 - 1970) with (y - 1970 + 1) by lia. rewrite seqZ_app by lia.
  rewrite foldl_app. replace (1970 + (y - 1970)) with y by lia. rewrite (seqZ_cons y 1) by lia. reflexivity.
Qed.

Lemma year_of_spec days : 0 <= days < Z.pos turns ->
  exists r y, year_of days = Some (r, y) /\ 1970 <= y /\ days = years_before y + r /\ 0 <= r < year_len y.
Proof.
  intros Hd. edestruct (while_total (fun '(r, y) => 1970 <= y /\ days = years_before y + r /\ 0 <= r)
    (fun '(r, y) => 1970 <= y /\ days = years_before y + r /\ 0 <= r < year_len y) fst) as ([r y] & E & H); [| | |by exists r, y].
  - intros [r y] (Hy & Hs & Hr). eexists. split; [done|]. pose proof (year_len_range y). destruct (Z.ltb_spec r (year_len y)).
    + split; [done|]. split; [done|lia].
    + split; [|cbn; lia]. split; [lia|]. rewrite years_before_succ by done. lia.
  - split; [lia|]. split; [done|lia].
  - done.
Qed.

Lemma years_mono a b : 1970 <= a -> a <= b -> years_before a <= years_before b.
Proof.
  intros Ha Hab. replace b with (a + Z.of_nat (Z.to_nat (b - a))) by lia. generalize (Z.to_nat (b - a)). intros k.
  induction k as [|k IH]; [by rewrite Z.add_0_r|]. rewrite Nat2Z.inj_succ, <- Z.add_1_r, Z.add_assoc.
  rewrite years_before_succ by lia. pose proof (year_len_range (a + Z.of_nat k)). lia.
Qed.

(** Day [r] of a year is a day of one of its months, and [days_from_epoch] adds the same days. *)
Lemma month_of_spec y r : 0 <= r < year_len y ->
  exists d m, month_of (mlen y) r 1 = (d, m) /\ 1 <= m <= 12 /\ 0 <= d < 31 /\ days_from_epoch y m (d + 1) = years_before y + r.
Proof.
  intros Hr. unfold days_from_epoch. fold (years_before y). generalize (years_before y). intros Y. unfold year_len, mlen in *. cbn [month_of].
  destruct (is_leap y); repeat match goal with |- context [?a <? ?b] => destruct (Z.ltb_spec a b) end; try lia.
  all: eexists _, _; split; [reflexivity|]; split; [lia|]; split; [lia|];
    match goal with |- context [zget ?a ?b ?c] => let x := eval vm_compute in (zget a b c) in change (zget a b c) with x end;
    match goal with |- context [2 <? ?m] => let x := eval vm_compute in (2 <? m) in change (2 <? m) with x end; cbn [andb]; lia.
Qed.

(** ** The round trip *)

Lemma pack3 a b c s i j : s = i + j -> 0 <= i -> 0 <= j -> 0 <= c < 2 ^ j -> 0 <= b < 2 ^ i ->
  Z.lor (Z.lor (Z.shiftl a s) (Z.shiftl b j)) c = (a * 2 ^ i + b) * 2 ^ j + c.
Proof.
  intros -> Hi Hj Hc Hb. rewrite <- Z.shiftl_shiftl, <- Z.shiftl_lor by done. rewrite lor_pack by done. rewrite lor_pack by done. done.
Qed.

(** Times from 1980 to the end of 2107 survive to the even second. *)
Lemma datetime_roundtrip e : years_before 1980 * 86400 <= e < years_before 2108 * 86400 ->
  exists date time, fat_epoch_to_datetime e = Some (date, time) /\ 0 <= date < W16 /\ 0 <= time < W16 /\ fat_datetime_to_epoch date time = e - e mod 2.
Proof.
  intros He. change (years_before 1980) with 3652 in He. change (years_before 2108) with 50403 in He.
  unfold fat_epoch_to_datetime. rewrite (proj2 (Z.leb_gt e 0)) by lia.
  destruct (year_of_spec (e / 86400)) as (r & y & -> & Hy & Hd & Hr); [dlia|]. rewrite some_bind.
  destruct (month_of_spec y r Hr) as (d & m & -> & Hm & Hdd & Hdays).
  assert (Hyr : 1980 <= y < 2108).
  { split; [destruct (Z.lt_ge_cases y 1980) as [Hlt|]; [|done]|destruct (Z.lt_ge_cases y 2108) as [|Hge]; [done|]]; exfalso.
    - pose proof (years_mono (y + 1) 1980 ltac:(lia) ltac:(lia)) as H1. rewrite years_before_succ in H1 by done. change (years_before 1980) with 3652 in H1. dlia.
    - pose proof (years_mono 2108 y ltac:(lia) ltac:(lia)) as H1. change (years_before 2108) with 50403 in H1. dlia. }
  rewrite (proj2 (Z.ltb_ge y 1980)) by lia. eexists _, _. split; [done|].
  rewrite (pack3 (y - 1980) m (d + 1) 9 4 5), (pack3 _ (e mod 86400 / 60 mod 60) (e mod 86400 mod 60 / 2) 11 6 5) by (try done; dlia).
  rewrite !u16_small by dlia. split; [dlia|]. split; [dlia|]. unfold fat_datetime_to_epoch.
  rewrite !(land_mask 0x7F 7), !(land_mask 0x0F 4), !(land_mask 0x1F 5), !(land_mask 0x3F 6), !Z.shiftr_div_pow2 by (lia || done). rewrite (proj2 (Z.eqb_neq _ 0)) by dlia.
  replace (1980 + _) with y by dlia. set (mm := _ mod 2 ^ 4). replace mm with m by (subst mm; dlia).
  set (dd := ((y - 1980) * 2 ^ 4 + m) * 2 ^ 5 + (d + 1)). replace (dd mod 2 ^ 5) with (d + 1) by (subst dd; dlia). clear dd mm.
  rewrite (proj2 (Z.ltb_ge m 1)), (proj2 (Z.ltb_ge 12 m)), (proj2 (Z.ltb_ge (d + 1) 1)), (proj2 (Z.ltb_ge 31 (d + 1))) by lia. cbn [orb].
  unfold rtc_time_to_epoch. rewrite Hdays, <- Hd. dlia.
Qed.
