(* ===== verification/FatName.v ===== *)
(** * Names on a FAT volume (kernel/fs/fatfs.c)

    A name is the list of its bytes without the terminator.  Short names are eleven bytes padded
    with blanks; a long name is kept as UTF-16 in the slots before the short entry, thirteen units
    in each.  What is read back is what was stored: a name that fits 8.3, the UTF-8 of a long
    name, the units of a slot. *)

From stdpp Require Import base numbers list option.
From S2P Require Import Prelude Bytes.

Abbreviation ENAMETOOLONG := 36.
Abbreviation VFS_NAME_MAX := 256.
Abbreviation LFN_LAST := 0x40.
Abbreviation LFN_CHARS := 13.
Abbreviation LFN_MAX_SLOTS := 20.
Abbreviation FAT_ATTR_LONG_NAME := 0x0F.
Abbreviation DOT := 46.
Abbreviation SPACE := 32.

(** ** Short names *)

Definition upper (c : Z) : Z := if (97 <=? c) && (c <=? 122) then c - 97 + 65 else c.
Definition lower (c : Z) : Z := if (65 <=? c) && (c <=? 90) then c - 65 + 97 else c.

(** The part of a name before [stop] and the rest from it on. *)
Fixpoint break_at (stop : Z) (l : list Z) : list Z * list Z :=
  match l with
  | [] => ([], [])
  | c :: k => if c =? stop then ([], l) else let '(a, b) := break_at stop k in (c :: a, b)
  end.
Definition pad (n : nat) (l : list Z) : list Z := l ++ replicate (n - length l) SPACE.
Definition cstr (l : list Z) : list Z := fst (break_at 0 l).

Definition to_fat_name (name : list Z) : list Z :=
  let '(base, rest) := break_at DOT name in
  pad 8 (take 8 (upper <$> base)) ++ pad 3 (match rest with [] => [] | _ :: ext => take 3 (upper <$> ext) end).

Definition from_fat_name (raw : list Z) (nt_reserved : Z) : list Z :=
  let base := fst (break_at SPACE (take 8 raw)) in
  let ext := fst (break_at SPACE (slice raw 8 3)) in
  cstr ((if ctrue (Z.land nt_reserved 0x08) then lower <$> base else base) ++
        if zget 0 raw 8 =? SPACE then [] else DOT :: if ctrue (Z.land nt_reserved 0x10) then lower <$> ext else ext).

Definition fat_name_matches (entry_name target_name : list Z) : bool := bool_decide (take 11 entry_name = take 11 target_name).
Fixpoint fat_name_eq (a b : list Z) : bool :=
  match a, b with
  | x :: a, y :: b => if x =? y then fat_name_eq a b else false
  | [], [] => true
  | _, _ => false
  end.

Definition fat_char_ok_in_83 (c : Z) : bool :=
  ((65 <=? c) && (c <=? 90)) || ((48 <=? c) && (c <=? 57)) ||
  existsb (Z.eqb c) [95; 45; 126; 33; 35; 36; 37; 38; 39; 40; 41; 64; 94; 96; 123; 125].

Fixpoint fits_loop (name : list Z) (base ext dots : Z) : bool :=
  match name with
  | [] => negb ((base <? 1) || (8 <? base) || (3 <? ext))
  | c :: name =>
    if c =? DOT then if 1 <? dots + 1 then false else fits_loop name base ext (dots + 1)
    else if negb (fat_char_ok_in_83 c) then false
    else if ctrue dots then fits_loop name base (ext + 1) dots
    else fits_loop name (base + 1) ext dots
  end.
Definition fits_83 (name : list Z) : bool := fits_loop name 0 0 0.

(** ** Long-name slots *)

Definition lfn_checksum (name11 : list Z) : Z :=
  foldl (fun sum c => u8 (Z.shiftl (Z.land sum 1) 7 + Z.shiftr sum 1 + c)) 0 (take 11 name11).

(** The offsets of the thirteen units of a slot. *)
Definition lfn_units : list Z := [1; 3; 5; 7; 9; 14; 16; 18; 20; 22; 24; 28; 30].
Definition lfn_slot_chars (sl : list Z) : list Z := ld16 sl <$> lfn_units.
Definition lfn_slot_set_chars (sl chars : list Z) : list Z := foldl (fun sl '(o, x) => st16 sl o x) sl (combine lfn_units chars).

(** A slot of a new long name: its ordinal byte, the checksum of the short name, the units. *)
Definition lfn_slot (order sum : Z) (chars : list Z) : list Z :=
  let sl := replicate 32 0 in
  let sl := zset sl 0 (u8 order) in
  let sl := zset sl 11 FAT_ATTR_LONG_NAME in
  let sl := zset sl 13 sum in
  lfn_slot_set_chars sl chars.

(** ** UTF-8 and UTF-16 *)

(** The lead byte: its bits and the length of the sequence. *)
Definition utf8_lead (b : Z) : option (Z * nat) :=
  if b <? 0x80 then Some (b, 1%nat)
  else if Z.land b 0xE0 =? 0xC0 then Some (Z.land b 0x1F, 2%nat)
  else if Z.land b 0xF0 =? 0xE0 then Some (Z.land b 0x0F, 3%nat)
  else if Z.land b 0xF8 =? 0xF0 then Some (Z.land b 0x07, 4%nat)
  else None.
Fixpoint utf8_rest (k : nat) (cp : Z) (p : list Z) : option Z :=
  match k with
  | O => Some cp
  | S k =>
    let b := zget 0 p 0 in
    if negb (Z.land b 0xC0 =? 0x80) then None else utf8_rest k (u32 (Z.lor (Z.shiftl cp 6) (Z.land b 0x3F))) (drop 1 p)
  end.
Definition min_for_len (len : nat) : Z := nth len [0; 0; 0x80; 0x800; 0x10000] 0.
Definition cp_units (cp : Z) : list Z :=
  if 0x10000 <=? cp
  then [u16 (Z.lor 0xD800 (Z.shiftr (cp - 0x10000) 10)); u16 (Z.lor 0xDC00 (Z.land (cp - 0x10000) 0x3FF))]
  else [u16 cp].

(** The units so far are [out]; the error is on the left. *)
Fixpoint utf8_loop (fuel : nat) (p out : list Z) (cap : Z) : Z + list Z :=
  match fuel, p with
  | S fuel, b :: p' =>
    match utf8_lead b with
    | None => inl (- EINVAL)
    | Some (bits, len) =>
      match utf8_rest (len - 1) bits p' with
      | None => inl (- EINVAL)
      | Some cp =>
        if (cp <? min_for_len len) || (0x10FFFF <? cp) || ((0xD800 <=? cp) && (cp <=? 0xDFFF)) then inl (- EINVAL)
        else if cap <? zlen out + zlen (cp_units cp) then inl (- ENAMETOOLONG)
        else utf8_loop fuel (drop len p) (out ++ cp_units cp) cap
      end
    end
  | _, _ => inr out
  end.
Definition utf8_to_utf16 (s : list Z) (cap : Z) : Z + list Z := utf8_loop (length s) s [] cap.

Definition cp_bytes (cp : Z) : list Z :=
  if cp <? 0x80 then [cp]
  else if cp <? 0x800 then [Z.lor 0xC0 (Z.shiftr cp 6); Z.lor 0x80 (Z.land cp 0x3F)]
  else if cp <? 0x10000 then
    [Z.lor 0xE0 (Z.shiftr cp 12); Z.lor 0x80 (Z.land (Z.shiftr cp 6) 0x3F); Z.lor 0x80 (Z.land cp 0x3F)]
  else
    [Z.lor 0xF0 (Z.shiftr cp 18); Z.lor 0x80 (Z.land (Z.shiftr cp 12) 0x3F); Z.lor 0x80 (Z.land (Z.shiftr cp 6) 0x3F);
     Z.lor 0x80 (Z.land cp 0x3F)].

Definition surrogate (lo hi u : Z) : bool := (lo <=? u) && (u <=? hi).

(** [n] bytes are written already. *)
Fixpoint utf16_loop (units : list Z) (n cap : Z) : list Z :=
  match units with
  | [] => []
  | u :: rest =>
    if (u =? 0) || (u =? 0xFFFF) then []
    else
      let emit cp rest := if cap - 1 <? n + zlen (cp_bytes cp) then [] else cp_bytes cp ++ utf16_loop rest (n + zlen (cp_bytes cp)) cap in
      match rest with
      | w :: rest' =>
        if surrogate 0xD800 0xDBFF u && surrogate 0xDC00 0xDFFF w
        then let cp := 0x10000 + Z.shiftl (u - 0xD800) 10 + (w - 0xDC00) in
             if cap - 1 <? n + zlen (cp_bytes cp) then [] else cp_bytes cp ++ utf16_loop rest' (n + zlen (cp_bytes cp)) cap
        else emit (if surrogate 0xD800 0xDFFF u then 0xFFFD else u) rest
      | [] => emit (if surrogate 0xD800 0xDFFF u then 0xFFFD else u) rest
      end
  end.
Definition utf16_to_utf8 (units : list Z) (cap : Z) : list Z := utf16_loop units 0 cap.

(** ** Facts about single bytes, by enumeration *)

Lemma byte_enum (P : Z -> bool) : forallb P (seqZ 0 256) = true -> forall b, is_byte b -> P b = true.
Proof.
  intros H b Hb. rewrite forallb_forall in H. apply H. apply list_elem_of_In, elem_of_seqZ. unfold is_byte in Hb. lia.
Qed.

Lemma utf8_lead_spec b bits len : is_byte b -> utf8_lead b = Some (bits, len) ->
  (len = 1%nat /\ b < 128 /\ bits = b) \/ (len = 2%nat /\ 192 <= b < 224 /\ bits = b - 192) \/
  (len = 3%nat /\ 224 <= b < 240 /\ bits = b - 224) \/ (len = 4%nat /\ 240 <= b < 248 /\ bits = b - 240).
Proof.
  intros Hb E. pose proof (byte_enum (fun b => match utf8_lead b with
    | Some (bits, len) => (bool_decide (len = 1%nat) && (b <? 128) && (bits =? b)) || (bool_decide (len = 2%nat) && (192 <=? b) && (b <? 224) && (bits =? b - 192)) ||
        (bool_decide (len = 3%nat) && (224 <=? b) && (b <? 240) && (bits =? b - 224)) || (bool_decide (len = 4%nat) && (240 <=? b) && (b <? 248) && (bits =? b - 240))
    | None => true end) eq_refl b Hb) as H. cbv beta in H. rewrite E in H.
  rewrite !orb_true_iff in H. destruct H as [[[H|H]|H]|H]; zbool; repeat match goal with H : bool_decide _ = true |- _ => apply bool_decide_eq_true in H end; subst; auto 10.
Qed.

Lemma cont_spec b : is_byte b -> (Z.land b 0xC0 =? 0x80) = true -> 128 <= b < 192 /\ Z.land b 0x3F = b - 128.
Proof.
  intros Hb E. pose proof (byte_enum (fun b => negb (Z.land b 0xC0 =? 0x80) || ((128 <=? b) && (b <? 192) && (Z.land b 0x3F =? b - 128))) eq_refl b Hb) as H.
  cbv beta in H. rewrite E in H. cbn [negb orb] in H. zbool. lia.
Qed.

(** ** UTF-8 to UTF-16 and back *)

Lemma zget_head b l : zget 0 (b :: l) 0 = b.
Proof. done. Qed.

Lemma utf8_rest_S k cp p r : Forall is_byte p -> 0 <= cp < 2 ^ 26 -> utf8_rest (S k) cp p = Some r ->
  exists b p', p = b :: p' /\ 128 <= b < 192 /\ utf8_rest k (cp * 64 + (b - 128)) p' = Some r.
Proof.
  intros Hp Hcp. cbn [utf8_rest]. destruct p as [|b p']; [done|]. rewrite zget_head. inversion Hp as [|? ? Hb Hp']; subst.
  destruct (Z.land b 0xC0 =? 0x80) eqn:E; [|done]. destruct (cont_spec b Hb E) as [Hr ->]. cbn [negb drop].
  rewrite lor_pack by lia. rewrite u32_small by lia. intros H. exists b, p'. auto.
Qed.

Definition cp_ok (cp : Z) : Prop := 0 <= cp <= 0x10FFFF /\ ~ (0xD800 <= cp <= 0xDFFF).

Lemma cp_bytes_eq cp : 0 <= cp <= 0x10FFFF -> cp_bytes cp =
  if cp <? 0x80 then [cp] else if cp <? 0x800 then [192 + cp / 64; 128 + cp mod 64]
  else if cp <? 0x10000 then [224 + cp / 4096; 128 + cp / 64 mod 64; 128 + cp mod 64]
  else [240 + cp / 262144; 128 + cp / 4096 mod 64; 128 + cp / 64 mod 64; 128 + cp mod 64].
Proof.
  intros Hc. unfold cp_bytes. rewrite !(land_mask 0x3F 6), !Z.shiftr_div_pow2 by (lia || done).
  change 0xC0 with (Z.shiftl 6 5). change 0xE0 with (Z.shiftl 14 4). change 0xF0 with (Z.shiftl 30 3). change 0x80 with (Z.shiftl 2 6) at 2 3 4 5 6 7.
  change (2 ^ 6) with 64. change (2 ^ 12) with 4096. change (2 ^ 18) with 262144.
  zcases; rewrite ?lor_pack by dlia; [done|repeat f_equal..].
Qed.

(** One sequence: the bytes of the decoded code point are the bytes read. *)
Lemma utf8_one b p bits len cp : is_byte b -> Forall is_byte p -> utf8_lead b = Some (bits, len) -> utf8_rest (len - 1) bits p = Some cp ->
  min_for_len len <= cp <= 0x10FFFF -> exists q, b :: p = cp_bytes cp ++ q /\ drop len (b :: p) = q /\ 0 <= cp.
Proof.
  intros Hb Hp El Er Hc. unfold is_byte in Hb. destruct (utf8_lead_spec b bits len Hb El) as [(-> & H1 & ->)|[(-> & H1 & ->)|[(-> & H1 & ->)|(-> & H1 & ->)]]]; cbn in Hc.
  - injection Er as <-. exists p. rewrite cp_bytes_eq by lia. rewrite (proj2 (Z.ltb_lt b 128)) by lia. split; [done|]. split; [done|lia].
  - apply utf8_rest_S in Er as (c1 & p1 & -> & Hc1 & Er); [|done|lia]. injection Er as <-. exists p1. rewrite cp_bytes_eq by lia.
    rewrite (proj2 (Z.ltb_ge _ 128)), (proj2 (Z.ltb_lt _ 2048)) by lia. split; [|split; [done|lia]]. cbn [app]. repeat f_equal; dlia.
  - apply utf8_rest_S in Er as (c1 & p1 & -> & Hc1 & Er); [|done|lia]. inversion Hp as [|? ? _ Hp1]; subst.
    apply utf8_rest_S in Er as (c2 & p2 & -> & Hc2 & Er); [|done|lia]. injection Er as <-. exists p2. rewrite cp_bytes_eq by lia.
    rewrite (proj2 (Z.ltb_ge _ 128)), (proj2 (Z.ltb_ge _ 2048)), (proj2 (Z.ltb_lt _ 65536)) by lia. split; [|split; [done|lia]]. cbn [app]. repeat f_equal; dlia.
  - apply utf8_rest_S in Er as (c1 & p1 & -> & Hc1 & Er); [|done|lia]. inversion Hp as [|? ? _ Hp1]; subst.
    apply utf8_rest_S in Er as (c2 & p2 & -> & Hc2 & Er); [|done|lia]. inversion Hp1 as [|? ? _ Hp2]; subst.
    apply utf8_rest_S in Er as (c3 & p3 & -> & Hc3 & Er); [|done|lia]. injection Er as <-. exists p3. rewrite cp_bytes_eq by lia.
    rewrite (proj2 (Z.ltb_ge _ 128)), (proj2 (Z.ltb_ge _ 2048)), (proj2 (Z.ltb_ge _ 65536)) by lia. split; [|split; [done|lia]]. cbn [app]. repeat f_equal; dlia.
Qed.

Lemma cp_units_eq cp : cp_ok cp -> cp_units cp =
  if 0x10000 <=? cp then [0xD800 + (cp - 0x10000) / 1024; 0xDC00 + (cp - 0x10000) mod 1024] else [cp].
Proof.
  intros [Hc _]. unfold cp_units. rewrite (land_mask 0x3FF 10), Z.shiftr_div_pow2 by (lia || done).
  change 0xD800 with (Z.shiftl 54 10). change 0xDC00 with (Z.shiftl 55 10). change (2 ^ 10) with 1024.
  destruct (Z.leb_spec 0x10000 cp); rewrite ?lor_pack by dlia; rewrite !u16_small by dlia; done.
Qed.

(** The bytes of a code point come out of its units. *)
Lemma utf16_cp cp rest n cap : cp_ok cp -> cp <> 0 -> cp <> 0xFFFF -> utf16_loop (cp_units cp ++ rest) n cap =
  if cap - 1 <? n + zlen (cp_bytes cp) then [] else cp_bytes cp ++ utf16_loop rest (n + zlen (cp_bytes cp)) cap.
Proof.
  intros Hok H0 HF. rewrite cp_units_eq by done. destruct Hok as [Hc Hs]. destruct (Z.leb_spec 0x10000 cp) as [Hb|Hb].
  - cbn [app utf16_loop]. set (u := 0xD800 + _). set (w := 0xDC00 + _).
    assert (Hu : 0xD800 <= u <= 0xDBFF) by (subst u; dlia). assert (Hw : 0xDC00 <= w <= 0xDFFF) by (subst w; dlia).
    rewrite (proj2 (Z.eqb_neq u 0)), (proj2 (Z.eqb_neq u 0xFFFF)) by lia. cbn [orb]. unfold surrogate.
    rewrite (proj2 (Z.leb_le _ u)), (proj2 (Z.leb_le u _)), (proj2 (Z.leb_le _ w)), (proj2 (Z.leb_le w _)) by lia. cbn [andb].
    rewrite Z.shiftl_mul_pow2 by lia. replace (0x10000 + (u - 0xD800) * 2 ^ 10 + (w - 0xDC00)) with cp by (subst u w; dlia). done.
  - cbn [app utf16_loop]. rewrite (proj2 (Z.eqb_neq cp 0)), (proj2 (Z.eqb_neq cp 0xFFFF)) by lia. cbn [orb].
    assert (Hsg : surrogate 0xD800 0xDFFF cp = false /\ surrogate 0xD800 0xDBFF cp = false) by (unfold surrogate; split; apply andb_false_iff; zcases; auto; lia).
    destruct Hsg as [-> ->]. by destruct rest.
Qed.

Lemma utf16_stop tail n cap : tail = [] \/ zget 0 tail 0 = 0 -> utf16_loop tail n cap = [].
Proof. intros [->|H]; [done|]. destruct tail as [|u tail]; [done|]. rewrite zget_head in H. by subst. Qed.

Lemma cp_bytes_zero cp : 0 <= cp <= 0x10FFFF -> cp = 0 -> 0 ∈ cp_bytes cp.
Proof. intros _ ->. by left. Qed.

Lemma utf8_loop_spec fuel p out cap u : (length p <= fuel)%nat -> Forall is_byte p -> 0 ∉ p -> utf8_loop fuel p out cap = inr u ->
  exists us, u = out ++ us /\ (0xFFFF ∉ us -> forall tail n c, tail = [] \/ zget 0 tail 0 = 0 -> n + zlen p <= c - 1 -> utf16_loop (us ++ tail) n c = p).
Proof.
  revert p out. induction fuel as [|fuel IH]; intros p out Hl Hp Hz E.
  { destruct p; [|cbn in Hl; lia]. injection E as <-. exists []. rewrite app_nil_r. split; [done|]. intros _ tail n c Ht _. by apply utf16_stop. }
  destruct p as [|b p]; [injection E as <-; exists []; rewrite app_nil_r; split; [done|]; intros _ tail n c Ht _; by apply utf16_stop|].
  cbn [utf8_loop] in E. inversion Hp as [|? ? Hb Hp']; subst. destruct (utf8_lead b) as [[bits len]|] eqn:El; [|done].
  destruct (utf8_rest (len - 1) bits p) as [cp|] eqn:Er; [|done].
  destruct ((cp <? min_for_len len) || _ || _) eqn:Eb; [done|]. apply orb_false_iff in Eb as [Eb Es]. apply orb_false_iff in Eb as [Eb1 Eb2]. zbool.
  destruct (cap <? _); [done|].
  destruct (utf8_one b p bits len cp Hb Hp' El Er) as (q & Eq & Eq2 & Hcp); [lia|]. rewrite Eq2 in E.
  assert (Hok : cp_ok cp) by (split; [lia|]; intros Hs; apply andb_false_iff in Es as [?|?]; zbool; lia).
  assert (Hne : cp <> 0). { intros ->. apply Hz. rewrite Eq. apply elem_of_app. left. by apply cp_bytes_zero. }
  assert (Hlen : (1 <= length (cp_bytes cp))%nat) by (unfold cp_bytes; zcases; cbn [length]; lia).
  apply IH in E as (us & -> & Hus).
  - exists (cp_units cp ++ us). rewrite app_assoc. split; [done|]. intros HF tail n c Ht Hn. apply not_elem_of_app in HF as [HF1 HF2].
    rewrite <- app_assoc, utf16_cp; [|done|done|].
    + rewrite Eq, length_app in Hn. rewrite (proj2 (Z.ltb_ge _ _)) by lia. rewrite Hus by (done || lia). done.
    + intros ->. apply HF1. rewrite cp_units_eq by done. by left.
  - apply (f_equal length) in Eq. rewrite length_app in Eq. cbn [length] in *. lia.
  - rewrite Eq in Hp. by apply Forall_app in Hp as [_ ?].
  - rewrite Eq in Hz. by apply not_elem_of_app in Hz as [_ ?].
Qed.

(** A name that converts is read back unchanged, behind it the terminator and the padding. *)
Lemma utf_roundtrip s cap u tail c : Forall is_byte s -> 0 ∉ s -> utf8_to_utf16 s cap = inr u -> 0xFFFF ∉ u ->
  tail = [] \/ zget 0 tail 0 = 0 -> zlen s <= c - 1 -> utf16_to_utf8 (u ++ tail) c = s.
Proof.
  intros Hs Hz E HF Ht Hc. destruct (utf8_loop_spec (length s) s [] cap u) as (us & -> & Hus); [lia|done..|]. by apply Hus.
Qed.

Lemma utf8_loop_cap fuel p out cap u : utf8_loop fuel p out cap = inr u -> zlen out <= cap -> zlen u <= cap.
Proof.
  revert p out. induction fuel as [|fuel IH]; intros p out E Hl; [by injection E as <-|]. destruct p as [|b p]; [by injection E as <-|].
  cbn [utf8_loop] in E. destruct (utf8_lead b) as [[bits len]|]; [|done]. destruct (utf8_rest _ _ _) as [cp|]; [|done].
  destruct (_ || _); [done|]. destruct (Z.ltb_spec cap (zlen out + zlen (cp_units cp))); [done|]. apply IH in E; [done|]. rewrite length_app. lia.
Qed.

(** ** Names that fit 8.3 *)

Lemma fat_name_eq_spec a b : fat_name_eq a b = true <-> a = b.
Proof.
  revert b. induction a as [|x a IH]; intros [|y b]; cbn [fat_name_eq]; try (split; congruence).
  destruct (Z.eqb_spec x y) as [->|Hne]; [rewrite IH; split; congruence|split; congruence].
Qed.

Lemma ok83 c : is_byte c -> fat_char_ok_in_83 c = true -> c <> DOT /\ c <> SPACE /\ c <> 0 /\ c <> 0xE5 /\ upper c = c.
Proof.
  intros Hb E. pose proof (byte_enum (fun c => negb (fat_char_ok_in_83 c) ||
    (negb (c =? DOT) && negb (c =? SPACE) && negb (c =? 0) && negb (c =? 0xE5) && (upper c =? c))) eq_refl c Hb) as H.
  cbv beta in H. rewrite E in H. cbn [negb orb] in H. zbool. auto.
Qed.

Abbreviation ok_name l := (Forall (fun c => is_byte c /\ fat_char_ok_in_83 c = true) l).

Lemma break_at_app stop a b : stop ∉ a -> b = [] \/ zget 0 b 0 = stop -> break_at stop (a ++ b) = (a, b).
Proof.
  intros Ha Hb. induction a as [|c a IH]; cbn [app break_at].
  - destruct b as [|c b]; [done|]. destruct Hb as [?|Hb]; [done|]. rewrite zget_head in Hb. subst. cbn [break_at]. by rewrite Z.eqb_refl.
  - apply not_elem_of_cons in Ha as [Hc Ha]. rewrite (proj2 (Z.eqb_neq c stop)) by congruence. by rewrite IH.
Qed.

Lemma break_at_all stop a : stop ∉ a -> break_at stop a = (a, []).
Proof. intros Ha. rewrite <- (app_nil_r a) at 1. apply break_at_app; auto. Qed.

Lemma ok_notin l x : ok_name l -> x = DOT \/ x = SPACE \/ x = 0 -> x ∉ l.
Proof. intros Hl Hx Hin. rewrite Forall_forall in Hl. destruct (Hl x (proj1 (list_elem_of_In _ _) Hin)) as [Hb Ho]. destruct (ok83 x Hb Ho) as (? & ? & ? & _). destruct Hx as [?|[?|?]]; done. Qed.

Lemma ok_upper l : ok_name l -> upper <$> l = l.
Proof. induction 1 as [|c l [Hb Ho] Hl IH]; [done|]. cbn. destruct (ok83 c Hb Ho) as (_ & _ & _ & _ & ->). by rewrite IH. Qed.

Lemma fits_ext name b e : Forall is_byte name -> fits_loop name b e 1 = true -> ok_name name /\ 1 <= b <= 8 /\ e + zlen name <= 3.
Proof.
  revert e. induction name as [|c name IH]; intros e Hb E; cbn [fits_loop] in E.
  - zbool. split; [constructor|]. cbn. lia.
  - inversion Hb; subst. destruct (c =? DOT); [done|]. destruct (fat_char_ok_in_83 c) eqn:Eo; [|done]. cbn in E. apply IH in E as (Q1 & Q2 & Q3); [|done].
    split; [by constructor|]. cbn [length]. lia.
Qed.

Lemma fits_base name b : Forall is_byte name -> fits_loop name b 0 0 = true ->
  exists base rest, name = base ++ rest /\ ok_name base /\ 1 <= b + zlen base <= 8 /\
    (rest = [] \/ exists ext, rest = DOT :: ext /\ ok_name ext /\ zlen ext <= 3).
Proof.
  revert b. induction name as [|c name IH]; intros b Hb E; cbn [fits_loop] in E.
  - zbool. exists [], []. split; [done|]. split; [constructor|]. cbn. split; [lia|auto].
  - inversion Hb; subst. destruct (Z.eqb_spec c DOT) as [->|Hd].
    + apply fits_ext in E as (H1' & H2' & H3'); [|done]. exists [], (DOT :: name). split; [done|]. split; [constructor|]. split; [cbn; lia|]. right. exists name. auto.
    + destruct (fat_char_ok_in_83 c) eqn:Eo; [|done]. cbn in E. apply IH in E as (base & rest & -> & Ho & Hl & Hr); [|done].
      exists (c :: base), rest. split; [done|]. split; [by constructor|]. split; [cbn [length]; lia|done].
Qed.

Lemma pad_length k l : (length l <= k)%nat -> length (pad k l) = k.
Proof. intros. unfold pad. rewrite length_app, length_replicate. lia. Qed.

Lemma break_pad k l : SPACE ∉ l -> (length l <= k)%nat -> fst (break_at SPACE (pad k l)) = l.
Proof.
  intros Hl Hk. unfold pad. rewrite break_at_app; [done|done|]. destruct (k - length l)%nat; [by left|by right].
Qed.

(** What the short entry of a name that fits holds, and that it reads back. *)
Lemma short_roundtrip name : Forall is_byte name -> fits_83 name = true -> (forall b, name <> b ++ [DOT]) ->
  from_fat_name (to_fat_name name) 0 = name.
Proof.
  intros Hb E Hlast. destruct (fits_base name 0 Hb E) as (base & rest & -> & Ho & Hlen & Hrest).
  pose proof (ok_notin base DOT Ho ltac:(auto)) as HD. pose proof (ok_notin base SPACE Ho ltac:(auto)) as HS. pose proof (ok_notin base 0 Ho ltac:(auto)) as HZ.
  unfold to_fat_name. rewrite break_at_app; [|done|destruct Hrest as [->|(e & -> & _)]; auto].
  rewrite ok_upper, (take_ge base) by (done || lia).
  assert (Hext : exists ext, ok_name ext /\ zlen ext <= 3 /\ match rest with [] => [] | _ :: e => take 3 (upper <$> e) end = ext /\ rest = match ext with [] => [] | _ => DOT :: ext end).
  { destruct Hrest as [->|(e & -> & He & Hl)]; [by exists []|]. exists e. rewrite ok_upper, take_ge by (done || lia). do 3 (split; [done|]).
    destruct e; [|done]. by destruct (Hlast base). }
  destruct Hext as (ext & He & Hle & -> & ->). clear Hrest Hlast E Hb.
  pose proof (ok_notin ext SPACE He ltac:(auto)) as HS2. pose proof (ok_notin ext 0 He ltac:(auto)) as HZ2.
  unfold from_fat_name. rewrite take_app_length' by (rewrite pad_length; lia). rewrite break_pad by (done || lia).
  assert (Es : slice (pad 8 base ++ pad 3 ext) 8 3 = pad 3 ext).
  { unfold slice. change (Z.to_nat 8) with 8%nat. rewrite drop_app_length' by (rewrite pad_length; lia). apply take_ge. rewrite pad_length; lia. }
  rewrite Es, break_pad by (done || lia). cbn [Z.land ctrue]. change (ctrue (Z.land 0 8)) with false. change (ctrue (Z.land 0 16)) with false. cbv iota.
  assert (E8 : zget 0 (pad 8 base ++ pad 3 ext) 8 = zget 0 (pad 3 ext) 0).
  { rewrite zget_app by lia. rewrite pad_length by lia. done. }
  rewrite E8. destruct ext as [|c ext]; [change (zget 0 (pad 3 []) 0 =? SPACE) with true; cbv iota; rewrite !app_nil_r; unfold cstr; by rewrite break_at_all|].
  change (zget 0 (pad 3 (c :: ext)) 0) with c. apply not_elem_of_cons in HS2 as [HS2 _]. rewrite (proj2 (Z.eqb_neq c SPACE)) by congruence.
  unfold cstr. rewrite break_at_all; [done|]. rewrite not_elem_of_app, not_elem_of_cons. auto.
Qed.

(** The short name starts with a character of the name, so its slot is neither free nor the end. *)
Lemma short_first name : Forall is_byte name -> fits_83 name = true ->
  length (to_fat_name name) = 11%nat /\ zget 0 (to_fat_name name) 0 <> 0 /\ zget 0 (to_fat_name name) 0 <> 0xE5.
Proof.
  intros Hb E. destruct (fits_base name 0 Hb E) as (base & rest & -> & Ho & Hlen & Hrest).
  unfold to_fat_name. rewrite break_at_app; [|apply (ok_notin base DOT Ho); auto|destruct Hrest as [->|(e & -> & _)]; auto].
  rewrite ok_upper, (take_ge base) by (done || lia). split.
  - rewrite length_app, !pad_length; [done| |lia]. destruct rest; [cbn; lia|rewrite length_take; lia].
  - destruct base as [|c base]; [cbn in Hlen; lia|]. inversion Ho as [|? ? [Hcb Hc] _]; subst. destruct (ok83 c Hcb Hc) as (_ & _ & ? & ? & _). done.
Qed.

Lemma to_fat_name_bytes name : Forall is_byte name -> Forall is_byte (to_fat_name name).
Proof.
  intros Hb. assert (Hu : forall c, is_byte c -> is_byte (upper c)) by (intros c Hc; unfold is_byte, upper in *; zcases; cbn [andb]; lia).
  assert (Hup : forall l, Forall is_byte l -> Forall is_byte (upper <$> l)) by (intros l Hl; apply Forall_fmap; by eapply Forall_impl).
  assert (Hpad : forall k l, Forall is_byte l -> Forall is_byte (pad k l)) by (intros k l Hl; apply Forall_app; split; [done|by apply Forall_replicate]).
  assert (Hs : Forall is_byte (fst (break_at DOT name)) /\ Forall is_byte (snd (break_at DOT name))).
  { induction Hb as [|c name Hc Hn IH]; [done|]. cbn [break_at]. destruct (c =? DOT); [split; [constructor|by constructor]|].
    destruct (break_at DOT name) as [a b]. destruct IH as [IH1 IH2]. split; [by constructor|done]. }
  unfold to_fat_name. destruct (break_at DOT name) as [a b]. cbn in Hs. destruct Hs as [Ha Hb']. apply Forall_app.
  split; apply Hpad; [by apply Forall_take, Hup|]. destruct b as [|c b]; [constructor|]. inversion Hb'; subst. by apply Forall_take, Hup.
Qed.

(** ** Slots *)

Lemma set_chars_bytes sl chars : Forall is_byte sl -> Forall is_byte (lfn_slot_set_chars sl chars).
Proof.
  unfold lfn_slot_set_chars. generalize (combine lfn_units chars). intros l. revert sl. induction l as [|[o x] l IH]; intros sl H; [done|]. cbn [foldl].
  apply IH. by apply st16_bytes.
Qed.

Lemma lfn_slot_spec order sum chars : is_byte sum -> length chars = 13%nat -> Forall (fun u => 0 <= u < W16) chars ->
  length (lfn_slot order sum chars) = 32%nat /\ Forall is_byte (lfn_slot order sum chars) /\
  zget 0 (lfn_slot order sum chars) 0 = u8 order /\ zget 0 (lfn_slot order sum chars) 11 = FAT_ATTR_LONG_NAME /\
  zget 0 (lfn_slot order sum chars) 13 = sum /\ lfn_slot_chars (lfn_slot order sum chars) = chars.
Proof.
  intros Hs Hl Hc. split; [|split].
  2: { apply set_chars_bytes. repeat apply zset_Forall; try done; try (unfold is_byte; lia); [by apply Forall_replicate|].
       unfold is_byte, u8. apply Z.mod_pos_bound. lia. }
  all: do 13 (destruct chars as [|? chars]; [done|]); destruct chars; [|done].
  1: done.
  do 3 (split; [done|]).
  assert (Hle : forall x, 0 <= x < W16 -> x mod 256 + 256 * (x / 256 mod 256 + 256 * 0) = x) by (intros x Hx; dlia).
  repeat match goal with H : Forall _ (_ :: _) |- _ => inversion H; clear H; subst end.
  match goal with |- _ = ?l => transitivity ((fun x => x mod 256 + 256 * (x / 256 mod 256 + 256 * 0)) <$> l); [reflexivity|] end. cbn [fmap list_fmap].
  by rewrite !Hle.
Qed.
