(* ===== verification/FatDir.v ===== *)
(** * Directories of a FAT volume (kernel/fs/fatfs.c)

    The walker over the 32-byte slots of a directory, the assembly of long names, lookup, and the
    creation and removal of entries.  The class [FatEnv] has what the code reads and does not set:
    the clock, and the contents of the uninitialised array in which a long name is assembled. *)

From stdpp Require Import base numbers list option.
From S2P Require Import Prelude Loop Bytes Fat FatTime FatName.

Class FatEnv := {
  stack_chars : list Z;
  rtc_is_real : bool;
  rtc_boot_epoch : Z;
  timer_ticks : Z;
}.

Abbreviation DIRENTS_PER_SECTOR := 16.
Abbreviation FAT_ATTR_DIRECTORY := 0x10.
Abbreviation FAT_ATTR_VOLUME_ID := 0x08.

(** The fields of the 32 bytes of an entry and of a long-name slot. *)
Abbreviation de_first de := (zget 0 de 0).
Abbreviation de_attr de := (zget 0 de 11).
Abbreviation de_nt_reserved de := (zget 0 de 12).
Abbreviation de_size de := (ld32 de 28).
Abbreviation lfn_order de := (zget 0 de 0).
Abbreviation lfn_sum de := (zget 0 de 13).

Record fat_slots := Slots {
  in_root : bool;
  cluster : Z;
  sector_in_unit : Z;
  ent : Z;
  sector : list Z;
  slots_lba : Z;
  loaded : bool;
  done_ : bool;
}.
#[export] Instance eta_slots : Eta fat_slots := fun it =>
  Slots (in_root it) (cluster it) (sector_in_unit it) (ent it) (sector it) (slots_lba it) (loaded it) (done_ it).

Definition slots_begin (root : bool) (dir_cluster : Z) : fat_slots := Slots root dir_cluster 0 0 [] 0 false false.

(** One directory entry with the run of slots it takes. *)
Record fat_entry := Entry {
  e_name : list Z;
  e_de : list Z;
  e_lba : Z;
  e_off : Z;
  e_run_lba : Z;
  e_run_off : Z;
  e_run_slots : Z;
}.

(** The local variables of [fat_dir_next]. *)
Record lfn_acc := Acc {
  have_lfn : bool;
  slots_seen : Z;
  highest : Z;
  want_sum : Z;
  run_lba : Z;
  run_off : Z;
  chars : list Z;
}.

(** A slot with its place: bytes, sector and offset. *)
Abbreviation slot := (list Z * Z * Z)%type.

Definition drop_lfn (a : lfn_acc) : lfn_acc := Acc false 0 (highest a) (want_sum a) (run_lba a) (run_off a) (chars a).

(** The entry that the short entry [de] ends, with the long name if the run before it is whole. *)
Definition end_run (a : lfn_acc) (de : list Z) (lba off : Z) : fat_entry :=
  if have_lfn a && (slots_seen a =? highest a) && (lfn_checksum de =? want_sum a)
  then Entry (utf16_to_utf8 (take (Z.to_nat (highest a * LFN_CHARS)) (chars a)) VFS_NAME_MAX) de lba off (run_lba a) (run_off a) (highest a + 1)
  else Entry (from_fat_name de (de_nt_reserved de)) de lba off lba off 1.

(** The body of the loop of [fat_dir_next]: go on, or return an entry or the end. *)
Definition dir_slot (a : lfn_acc) (s : slot) : lfn_acc + option fat_entry :=
  let '(de, lba, off) := s in
  if de_first de =? 0 then inr None
  else if de_first de =? 0xE5 then inl (drop_lfn a)
  else if Z.land (de_attr de) FAT_ATTR_LONG_NAME =? FAT_ATTR_LONG_NAME then
    let ord := Z.land (lfn_order de) 0x1F in
    if (ord <? 1) || (LFN_MAX_SLOTS <? ord) then inl (drop_lfn a)
    else
      let take_chars a := Acc (have_lfn a) (slots_seen a + 1) (highest a) (want_sum a) (run_lba a) (run_off a)
                              (splice (chars a) ((ord - 1) * LFN_CHARS) (lfn_slot_chars de)) in
      if negb (have_lfn a) then
        if negb (ctrue (Z.land (lfn_order de) LFN_LAST)) then inl a
        else inl (take_chars (Acc true 0 ord (lfn_sum de) lba off (chars a)))
      else if negb (lfn_sum de =? want_sum a) then inl (drop_lfn a)
      else inl (take_chars a)
  else if ctrue (Z.land (de_attr de) FAT_ATTR_VOLUME_ID) then inl (drop_lfn a)
  else inr (Some (end_run a de lba off)).

(** The short alias of a long name: the characters it keeps, then a number. *)
Definition alias_char (c : Z) : Z := if fat_char_ok_in_83 (upper c) then upper c else 95.
Definition alias_base (prefix : list Z) : list Z :=
  let base := take 6 (alias_char <$> filter (fun c => c <> SPACE /\ c <> DOT) prefix) in
  match base with [] => [95] | _ => base end.
Definition alias_ext (suffix : list Z) : list Z := take 3 (alias_char <$> suffix).
Definition alias_digits (k : Z) : list Z :=
  if k <? 10 then [48 + k]
  else if k <? 100 then [48 + k / 10; 48 + k mod 10]
  else [48 + k / 100; 48 + k / 10 mod 10; 48 + k mod 10].
Definition alias_name (base ext : list Z) (k : Z) : list Z :=
  splice (splice (replicate 11 SPACE) 0 (base ++ 126 :: alias_digits k)) 8 ext.
(** The parts before and after the last dot. *)
Definition split_last_dot (name : list Z) : list Z * list Z :=
  let '(r, rest) := break_at DOT (reverse name) in
  match rest with [] => (name, []) | _ :: prefix => (reverse prefix, reverse r) end.

(** The slots of a new entry: the long name backwards, then the short entry. *)
Definition lfn_chars_at (u : list Z) (ord : Z) : list Z :=
  (fun k => let idx := (ord - 1) * LFN_CHARS + k in if idx <? zlen u then zget 0 u idx else if idx =? zlen u then 0 else 0xFFFF) <$> seqZ 0 LFN_CHARS.
Definition lfn_run (u : list Z) (lfn_slots sum : Z) : list (list Z) :=
  (fun i => let ord := lfn_slots - i in lfn_slot (Z.lor ord (if i =? 0 then LFN_LAST else 0)) sum (lfn_chars_at u ord)) <$> seqZ 0 lfn_slots.

Section dir.
Context {D : Type} `{BlockStore D} `{FatEnv}.
Implicit Types (v : fat_volume) (d : D) (it : fat_slots).

(** ** The walker *)

(** On to the next cluster behind the last sector of one. *)
Definition slots_advance v d it : fat_slots :=
  let units := if in_root it then root_dir_sector_count v else sectors_per_cluster v in
  if units <=? sector_in_unit it then
    if in_root it then it <| done_ := true |>
    else
      let it := it <| cluster := fat16_next_cluster v d (cluster it) |> in
      if fat_is_eoc v (cluster it) || (cluster it <? 2) then it <| done_ := true |> else it <| sector_in_unit := 0 |>
  else it.
Definition slots_read v d it : fat_slots :=
  let base := if in_root it then root_dir_start_lba v else cluster_to_lba v (cluster it) in
  let it := it <| slots_lba := u32 (base + sector_in_unit it) |> in
  let '(ok, s) := fat_rd d (slots_lba it) in
  let it := it <| sector := s |> in
  if negb ok then it <| done_ := true |> else it <| loaded := true |> <| ent := 0 |>.
Definition slots_load v d it : fat_slots := let it := slots_advance v d it in if done_ it then it else slots_read v d it.

(** The slot under the cursor, or a step behind the last slot of the sector. *)
Definition slots_take it : fat_slots + option slot * fat_slots :=
  if DIRENTS_PER_SECTOR <=? ent it then inl (it <| loaded := false |> <| sector_in_unit := u32 (sector_in_unit it + 1) |>)
  else inr (Some (slice (sector it) (ent it * 32) 32, slots_lba it, u16 (ent it * 32)), it <| ent := u32 (ent it + 1) |>).
(** One turn of the loop of [slots_next]. *)
Definition slots_turn v d it : fat_slots + option slot * fat_slots :=
  if done_ it then inr (None, it)
  else
    let it := if loaded it then it else slots_load v d it in
    if done_ it then inr (None, it) else slots_take it.

(** A turn that goes on has left a sector behind, and the next one returns. *)
Definition slots_next v d it : option slot * fat_slots :=
  match slots_turn v d it with
  | inr r => r
  | inl it => match slots_turn v d it with inr r => r | inl it => (None, it) end
  end.

Definition fat_dir_next v d it : option (option fat_entry * fat_slots) :=
  while (fun '(it, a) =>
    Some (match slots_next v d it with
          | (None, it) => inr (None, it)
          | (Some s, it) => match dir_slot a s with inl a => inl (it, a) | inr o => inr (o, it) end
          end)) (it, Acc false 0 0 0 0 0 stack_chars).

Definition fat_dir_find v d (root : bool) (dir_cluster : Z) (name : list Z) : option (option fat_entry) :=
  while (fun it =>
    '(o, it) ← fat_dir_next v d it;
    Some (match o with
          | None => inr None
          | Some e => if fat_name_eq (e_name e) name then inr (Some e) else inl it
          end)) (slots_begin root dir_cluster).

(** ** A new entry *)

Definition alias_clash v d (root : bool) (dir_cluster : Z) (alias : list Z) : option bool :=
  while (fun it =>
    '(o, it) ← fat_dir_next v d it;
    Some (match o with
          | None => inr false
          | Some e => if fat_name_matches (e_de e) alias then inr true else inl it
          end)) (slots_begin root dir_cluster).

Definition alias_probe v d (root : bool) (dir_cluster : Z) (base ext : list Z) : nat -> Z -> option (list Z) :=
  fix probe more k :=
    match more with
    | O => Some (alias_name base ext (k - 1))
    | S more =>
      clash ← alias_clash v d root dir_cluster (alias_name base ext k);
      if (clash : bool) then probe more (k + 1) else Some (alias_name base ext k)
    end.
Definition make_short_alias v d (root : bool) (dir_cluster : Z) (name : list Z) : option (list Z) :=
  let '(prefix, suffix) := split_last_dot name in
  alias_probe v d root dir_cluster (alias_base prefix) (alias_ext suffix) 999 1.

Definition fat_now_epoch : Z := if rtc_is_real then rtc_boot_epoch + timer_ticks / 100 else 0.

Definition write_dirent v (fat_name : list Z) (attr first_cluster size : Z) : option (list Z) :=
  '(date, time) ← fat_epoch_to_datetime fat_now_epoch;
  let de := take 11 fat_name ++ [attr; 0; 0] ++ le_bytes 2 time ++ le_bytes 2 date ++ le_bytes 2 date ++ [0; 0] ++
            le_bytes 2 time ++ le_bytes 2 date ++ [0; 0] ++ le_bytes 4 size in
  Some (dirent_set_cluster v de first_cluster).

(** The sector being filled, with its place, if it is dirty. *)
Definition flush d (buf : option (list Z * Z)) : D := match buf with Some (s, l) => snd (fat_wr d l s) | None => d end.
(** Entry [b] goes to a slot: the dirty sector is written when it is another one, and the sector
    of the slot is read when none is dirty; [None] is a failed read. *)
Definition put_slot d (buf : option (list Z * Z)) (lba off : Z) (b : list Z) : option (list Z * Z) * D :=
  let '(buf, d) := match buf with Some (s, l) => if negb (lba =? l) then (None, flush d buf) else (buf, d) | None => (None, d) end in
  let buf := match buf with Some b => Some b | None => let '(ok, s) := fat_rd d lba in if negb ok then None else Some (s, lba) end in
  (match buf with Some (s, l) => Some (splice s (off / 32 * 32) b, l) | None => None end, d).

Definition write_slots_at v d (root : bool) (dir_cluster start_lba start_off : Z) (src : list (list Z)) : option (Z * D) :=
  while (fun '(it, writing, written, buf, d) =>
    Some (match slots_next v d it with
          | (Some (_, lba, off), it) =>
            if negb (written <? zlen src) then inr (0, flush d buf)
            else if negb writing && (negb (lba =? start_lba) || negb (off =? start_off)) then inl (it, false, written, buf, d)
            else
              match put_slot d buf lba off (nth (Z.to_nat written) src []) with
              | (None, d) => inr (- EIO, d)
              | (buf, d) => inl (it, true, written + 1, buf, d)
              end
          | (None, _) => inr (if written =? zlen src then 0 else - ENOSPC, flush d buf)
          end)) (slots_begin root dir_cluster, false, 0, None, d).

(** The first run of [count] free slots. *)
Definition scan_free v d (root : bool) (dir_cluster count : Z) : option (option (Z * Z)) :=
  while (fun '(it, run, rl, ro) =>
    Some (match slots_next v d it with
          | (None, _) => inr None
          | (Some (de, lba, off), it) =>
            if (de_first de =? 0) || (de_first de =? 0xE5) then
              let '(rl, ro) := if run =? 0 then (lba, off) else (rl, ro) in
              if run + 1 =? count then inr (Some (rl, ro)) else inl (it, run + 1, rl, ro)
            else inl (it, 0, rl, ro)
          end)) (slots_begin root dir_cluster, 0, 0, 0).

Definition zero_cluster v d (c : Z) : D :=
  foldl (fun d s => snd (fat_wr d (u32 (cluster_to_lba v c + Z.of_nat s)) (replicate 512 0))) d (seq 0 (Z.to_nat (sectors_per_cluster v))).

(** The last cluster of a directory. *)
Definition dir_last v d (dir_cluster : Z) : option Z :=
  while (fun '(c, last) => Some (if negb (fat_is_eoc v c) && (2 <=? c) then inl (fat16_next_cluster v d c, c) else inr last)) (dir_cluster, dir_cluster).

Definition find_free_run v d (root : bool) (dir_cluster count : Z) : option (option (Z * Z) * fat_volume * D) :=
  first ← scan_free v d root dir_cluster count;
  match first with
  | Some p => Some (Some p, v, d)
  | None =>
    if root then Some (None, v, d)
    else
      last ← dir_last v d dir_cluster;
      '(nc, v, d) ← fat16_alloc_cluster v d;
      if nc =? 0 then Some (None, v, d)
      else
        let d := zero_cluster v (fat16_set_next_cluster v d last nc) nc in
        second ← scan_free v d root dir_cluster count;
        Some (second, v, d)
  end.

(** Where the [skip]th slot after the one at [(start_lba, start_off)] is. *)
Definition locate_slot v d (root : bool) (dir_cluster start_lba start_off skip : Z) : option (Z * Z) :=
  while (fun '(it, counting, seen) =>
    Some (match slots_next v d it with
          | (None, _) => inr (start_lba, start_off)
          | (Some (_, lba, off), it) =>
            if negb counting && (negb (lba =? start_lba) || negb (off =? start_off)) then inl (it, false, seen)
            else if seen =? skip then inr (lba, off) else inl (it, true, seen + 1)
          end)) (slots_begin root dir_cluster, false, 0).

(** A free run, the slots written into it: the error, or the place of the short entry. *)
Definition create_run v d (root : bool) (dir_cluster : Z) (u : list Z) (lfn_slots : Z) (short_name : list Z) (attr first_cluster size : Z) : option ((Z + Z * Z) * fat_volume * D) :=
  '(place, v, d) ← find_free_run v d root dir_cluster (lfn_slots + 1);
  match place with
  | None => Some (inl (- ENOSPC), v, d)
  | Some (lba, off) =>
    de ← write_dirent v short_name attr first_cluster size;
    '(rc, d) ← write_slots_at v d root dir_cluster lba off (lfn_run u lfn_slots (lfn_checksum short_name) ++ [de]);
    if negb (rc =? 0) then Some (inl rc, v, d)
    else
      p ← locate_slot v d root dir_cluster lba off lfn_slots;
      Some (inr p, v, d)
  end.

Definition fat_create_named v d (root : bool) (dir_cluster : Z) (name : list Z) (attr first_cluster size : Z) : option ((Z + Z * Z) * fat_volume * D) :=
  if (zlen name =? 0) || (VFS_NAME_MAX - 1 <? zlen name) then Some (inl (- ENAMETOOLONG), v, d)
  else
    match utf8_to_utf16 name (LFN_MAX_SLOTS * LFN_CHARS) with
    | inl e => Some (inl (if e =? - EINVAL then - EINVAL else - ENAMETOOLONG), v, d)
    | inr u =>
      if 255 <? zlen u then Some (inl (- ENAMETOOLONG), v, d)
      else
        let need_lfn := negb (fits_83 name) in
        short_name ← (if need_lfn then make_short_alias v d root dir_cluster name else Some (to_fat_name name));
        let lfn_slots := if need_lfn then (zlen u + LFN_CHARS - 1) / LFN_CHARS else 0 in
        if LFN_MAX_SLOTS <? lfn_slots then Some (inl (- ENAMETOOLONG), v, d)
        else create_run v d root dir_cluster u lfn_slots short_name attr first_cluster size
    end.

(** ** Removing an entry *)

Definition mark_dirent_deleted d (lba offset : Z) : Z * D :=
  let '(ok, s) := fat_rd d lba in
  if negb ok then (- ENOSPC, d)
  else let '(ok, d) := fat_wr d lba (zset s offset 0xE5) in (if negb ok then - ENOSPC else 0, d).

Definition fat_erase_run v d (root : bool) (dir_cluster : Z) (e : fat_entry) : option (Z * D) :=
  while (fun '(it, erasing, n, d) =>
    Some (match slots_next v d it with
          | (Some (_, lba, off), it) =>
            if negb (n <? e_run_slots e) then inr (0, d)
            else if negb erasing && (negb (lba =? e_run_lba e) || negb (off =? e_run_off e)) then inl (it, false, n, d)
            else let '(rc, d) := mark_dirent_deleted d lba off in if negb (rc =? 0) then inr (rc, d) else inl (it, true, n + 1, d)
          | (None, _) => inr (if n =? e_run_slots e then 0 else - EIO, d)
          end)) (slots_begin root dir_cluster, false, 0, d).

(** Nothing but the two dot entries. *)
Definition fat_dir_is_empty v d (dir_cluster : Z) : option bool :=
  while (fun it =>
    '(o, it) ← fat_dir_next v d it;
    Some (match o with
          | None => inr true
          | Some e => if fat_name_eq (e_name e) [DOT] || fat_name_eq (e_name e) [DOT; DOT] then inl it else inr false
          end)) (slots_begin false dir_cluster).
End dir.
