(* ===== verification/FatImage.v ===== *)
(** * A disk image

    A device in memory of [n] sectors, with the laws the driver is proved against: the concrete
    block store on which the definitions of the FAT driver are evaluated. *)

From stdpp Require Import base numbers list option gmap.
From S2P Require Import Prelude Loop Bytes Fat FatTable.

Definition image (n : Z) : Type := gmap Z (list Z).

(** Sector contents brought to 512 bytes. *)
Definition norm (s : list Z) : list Z := take 512 ((u8 <$> s) ++ replicate 512 0).

#[export] Instance image_store n : BlockStore (image n) := {
  blkcache_read d l := (bool_decide (0 <= l < n), norm (default [] ((d : gmap Z (list Z)) !! l)));
  blkcache_write d l s := if bool_decide (0 <= l < n) then (true, <[l := s]> (d : gmap Z (list Z))) else (false, d);
}.

Lemma norm_sector s : is_sector (norm s).
Proof.
  unfold norm. split; [rewrite length_take, length_app, length_replicate; lia|]. apply Forall_take, Forall_app. split.
  - apply Forall_fmap. induction s; constructor; [|done]. unfold is_byte, compose, u8. apply Z.mod_pos_bound. lia.
  - apply Forall_replicate, is_byte_0.
Qed.

Lemma norm_id s : is_sector s -> norm s = s.
Proof.
  intros [Hl Hb]. unfold norm. assert (E : u8 <$> s = s).
  { clear Hl. induction Hb as [|b s Hb Hs IH]; [done|]. cbn. rewrite IH. f_equal. apply Z.mod_small, Hb. }
  rewrite E, take_app_le, take_ge by lia. done.
Qed.

#[export] Instance image_laws n : BlockLaws (image n) n.
Proof.
  split.
  - intros d l. apply norm_sector.
  - intros d l Hl. by apply bool_decide_eq_true.
  - intros d l s Hl Hs. cbn. by rewrite bool_decide_eq_true_2.
  - intros d l s l' Hl Hl' Hs. cbn. rewrite bool_decide_eq_true_2 by done. cbn.
    destruct (Z.eqb_spec l' l) as [->|Hne]; [rewrite lookup_insert_eq; by apply norm_id|by rewrite lookup_insert_ne].
Qed.
