(* ===== verification/FatSlots.v ===== *)
(** * The slots of a directory: proofs about the walker

    A directory is the list [ls] of its sectors, and its slots are numbered from 0; slot [p] is
    at [slot_lba ls p], [slot_off p].  The walker returns the slots in that order, each once, and
    then stops, also while the directory is being written. *)

From stdpp Require Import base numbers list option sets.
From S2P Require Import Prelude Loop Bytes Fat FatTable FatFile FatWrite FatTime FatName FatDir.

(** The sectors of the clusters of a chain. *)
Definition cluster_lba (v : fat_volume) (c : Z) : Z := data_start_lba v + (c - 2) * sectors_per_cluster v.
Definition chain_sectors (v : fat_volume) (l : list Z) : list Z := l ≫= (fun c => seqZ (cluster_lba v c) (sectors_per_cluster v)).

Definition slot_lba (ls : list Z) (p : Z) : Z := nth (Z.to_nat (p / 16)) ls 0.
Definition slot_off (p : Z) : Z := p mod 16 * 32.

Section slots.
Context {D : Type} `{HB : BlockStore D} {n ncl : Z} {HL : BlockLaws D n}.
Context {v : fat_volume} (Hv : vol_ok n ncl v).
Implicit Types (d : D) (l ls : list Z) (it : fat_slots).
Abbreviation spc := (sectors_per_cluster v).

(** The directory with first cluster [cl], or the root region: its chain and its sectors. *)
Definition dir_of d (root : bool) (cl : Z) l ls : Prop :=
  if root then l = [] /\ ls = seqZ (root_dir_start_lba v) (root_dir_sector_count v)
  else chain ncl v d l /\ cl = nth 0 l 0 /\ ls = chain_sectors v l.

Definition slot_bytes d ls (p : Z) : list Z := slice (img d (slot_lba ls p)) (slot_off p) 32.

(** ** Sectors *)

Lemma chain_sectors_length l : zlen (chain_sectors v l) = zlen l * spc.
Proof using Hv.
  assert (1 <= spc) by (destruct Hv; lia). induction l as [|c l IH]; [done|].
  change (chain_sectors v (c :: l)) with (seqZ (cluster_lba v c) spc ++ chain_sectors v l). rewrite length_app, length_seqZ. cbn [length]. lia.
Qed.

Lemma chain_sectors_nth l i s : (i < length l)%nat -> 0 <= s < spc ->
  nth (Z.to_nat (Z.of_nat i * spc + s)) (chain_sectors v l) 0 = cluster_lba v (nth i l 0) + s.
Proof using Hv.
  revert i. induction l as [|c l IH]; intros i Hi Hs; [cbn in Hi; lia|].
  assert (E : chain_sectors v (c :: l) = seqZ (cluster_lba v c) spc ++ chain_sectors v l) by done. rewrite E.
  destruct i as [|i].
  - rewrite app_nth1 by (rewrite length_seqZ; lia). cbn [nth]. apply nth_lookup_Some. apply lookup_seqZ. lia.
  - rewrite app_nth2 by (rewrite length_seqZ; nia). rewrite length_seqZ. cbn [nth]. cbn [length] in Hi. rewrite <- (IH i) by lia. f_equal. nia.
Qed.

Lemma root_nth s : 0 <= s < root_dir_sector_count v -> nth (Z.to_nat s) (seqZ (root_dir_start_lba v) (root_dir_sector_count v)) 0 = root_dir_start_lba v + s.
Proof. intros Hs. apply nth_lookup_Some. apply lookup_seqZ. lia. Qed.

Lemma cluster_range c : is_cluster ncl c -> data_start_lba v <= cluster_lba v c /\ cluster_lba v c + spc <= n.
Proof using Hv.
  intros Hc. unfold is_cluster in Hc. unfold cluster_lba. assert (0 <= (c - 2) * spc <= (ncl - 1) * spc) by (destruct Hv; nia). destruct Hv. lia.
Qed.

Lemma cluster_to_lba_eq c : is_cluster ncl c -> cluster_to_lba v c = cluster_lba v c.
Proof using Hv.
  intros Hc. pose proof (cluster_range c Hc). pose proof (data_start_pos Hv). unfold is_cluster in Hc. unfold cluster_to_lba, cluster_lba in *.
  assert (0 <= (c - 2) * spc) by (apply Z.mul_nonneg_nonneg; destruct Hv; lia). pose proof (ncl_small Hv). destruct Hv.
  rewrite (u32_small (c - 2)) by lia. rewrite (u32_small (_ * _)) by lia. apply u32_small. lia.
Qed.

(** Which cluster and which of its sectors a sector of the directory is. *)
Lemma sector_split l s : 0 <= s < zlen l * spc -> exists ci r, s = Z.of_nat ci * spc + r /\ (ci < length l)%nat /\ 0 <= r < spc.
Proof using Hv.
  assert (1 <= spc) by (destruct Hv; lia). intros Hs. exists (Z.to_nat (s / spc)), (s mod spc). pose proof (Z.div_mod s spc ltac:(lia)). pose proof (Z.mod_pos_bound s spc ltac:(lia)).
  assert (0 <= s / spc < zlen l) by (split; [apply Z.div_pos; lia|apply Z.div_lt_upper_bound; lia]). split; [lia|]. split; lia.
Qed.

Lemma dir_sector_range d root cl l ls s : dir_of d root cl l ls -> 0 <= s < zlen ls ->
  0 <= nth (Z.to_nat s) ls 0 < n /\ ~ in_fats v (nth (Z.to_nat s) ls 0).
Proof using Hv.
  intros Hd Hs. pose proof (fats_below_data Hv) as Hf. pose proof (data_start_pos Hv). assert (0 <= root_dir_start_lba v).
  { assert (0 <= num_fats v * sectors_per_fat v) by (apply Z.mul_nonneg_nonneg; destruct Hv; lia). destruct Hv. lia. }
  unfold in_fats. destruct root.
  - destruct Hd as [_ ->]. rewrite length_seqZ in Hs. rewrite root_nth by lia. destruct Hv. lia.
  - destruct Hd as (Hc & _ & ->). rewrite chain_sectors_length in Hs. destruct (sector_split l s Hs) as (ci & r & -> & Hci & Hr).
    rewrite chain_sectors_nth by done. pose proof (cluster_range _ (nth_cluster d l ci Hc Hci)). lia.
Qed.

Lemma dir_nodup d root cl l ls a b : dir_of d root cl l ls -> 0 <= a < zlen ls -> 0 <= b < zlen ls ->
  nth (Z.to_nat a) ls 0 = nth (Z.to_nat b) ls 0 -> a = b.
Proof using Hv.
  intros Hd Ha Hb. destruct root.
  - destruct Hd as [_ ->]. rewrite length_seqZ in *. rewrite !root_nth by lia. lia.
  - destruct Hd as (Hc & _ & ->). rewrite chain_sectors_length in *. destruct (sector_split l a Ha) as (i & r & -> & Hi & Hr).
    destruct (sector_split l b Hb) as (j & q & -> & Hj & Hq). rewrite !chain_sectors_nth by done. unfold cluster_lba. intros E.
    assert (Ec : nth i l 0 = nth j l 0) by nia. assert (r = q) by nia. subst q.
    pose proof (chain_nodup Hv d l Hc) as Hnd. apply NoDup_ListNoDup in Hnd. apply (proj1 (NoDup_nth l 0) Hnd) in Ec; [by subst|done|done].
Qed.

(** ** The walker *)

(** The walker is about to load sector [s], or has it loaded. *)
Definition wants (root : bool) l it (s : Z) : Prop :=
  in_root it = root /\
  if root then sector_in_unit it = s
  else exists ci, (ci < length l)%nat /\ 0 <= sector_in_unit it <= spc /\ s = Z.of_nat ci * spc + sector_in_unit it /\ cluster it = nth ci l 0.
Definition holds (root : bool) l ls it (s : Z) : Prop :=
  wants root l it s /\ 0 <= s < zlen ls /\ slots_lba it = nth (Z.to_nat s) ls 0 /\ (root = false -> sector_in_unit it < spc).

(** The slots before [p] are returned. *)
Definition it_at (root : bool) l ls it (p : Z) : Prop :=
  done_ it = false /\
  (loaded it = false /\ p = 0 /\ wants root l it 0 \/
   loaded it = true /\ exists s, holds root l ls it s /\ 0 <= ent it <= 16 /\ p = 16 * s + ent it).

(** What the walker holds is what the sector has. *)
Definition cached d it : Prop := loaded it = true -> sector it = img d (slots_lba it).

Lemma begin_at d root cl l ls : dir_of d root cl l ls -> it_at root l ls (slots_begin root cl) 0 /\ cached d (slots_begin root cl).
Proof using Hv.
  intros Hd. split; [|done]. split; [done|]. left. split; [done|]. split; [done|]. split; [done|]. destruct root; [done|].
  destruct Hd as (Hc & -> & _). pose proof (chain_length Hv d l Hc). exists 0%nat. split; [lia|]. split; [destruct Hv; cbn; lia|done].
Qed.

Lemma slots_read_spec d root cl l ls it s : dir_of d root cl l ls -> done_ it = false -> wants root l it s -> (root = false -> sector_in_unit it < spc) -> 0 <= s < zlen ls ->
  slots_read v d it = Slots root (cluster it) (sector_in_unit it) 0 (img d (nth (Z.to_nat s) ls 0)) (nth (Z.to_nat s) ls 0) true false.
Proof using Hv HL.
  intros Hd Hdn [Hr Hw] Hu Hs. pose proof (dir_sector_range d root cl l ls s Hd Hs) as [Hn _].
  assert (E : u32 ((if in_root it then root_dir_start_lba v else cluster_to_lba v (cluster it)) + sector_in_unit it) = nth (Z.to_nat s) ls 0).
  { assert (Hn32 : n <= W32) by (destruct Hv; lia). rewrite Hr. destruct root.
    - destruct Hd as [_ ->]. rewrite length_seqZ in Hs. rewrite root_nth in * by lia. subst s. apply u32_small. lia.
    - destruct Hd as (Hc & _ & ->). destruct Hw as (ci & Hci & Hsu & -> & Ecl). rewrite chain_sectors_nth in * by (done || (specialize (Hu eq_refl); lia)).
      rewrite Ecl, cluster_to_lba_eq by (by eapply nth_cluster). apply u32_small. lia. }
  unfold slots_read. cbv zeta. change (slots_lba (it <| slots_lba := ?x |>)) with x. rewrite E.
  rewrite fat_rd_ok by done. cbn [negb]. destruct it. cbn in *. by subst.
Qed.

Lemma advance_spec d root cl l ls it s : dir_of d root cl l ls -> done_ it = false -> wants root l it s -> 0 <= s <= zlen ls ->
  let it' := slots_advance v d it in
  if s <? zlen ls then done_ it' = false /\ wants root l it' s /\ (root = false -> sector_in_unit it' < spc) else done_ it' = true.
Proof using Hv HL.
  intros Hd Hdn [Hr Hw] Hs. unfold slots_advance. rewrite Hr. destruct root.
  - destruct Hd as [-> ->]. rewrite length_seqZ in *. subst s. assert (Hroot : 0 <= root_dir_sector_count v) by (destruct Hv; lia).
    destruct (Z.leb_spec (root_dir_sector_count v) (sector_in_unit it)) as [Hle|Hlt].
    + by rewrite (proj2 (Z.ltb_ge _ _)) by lia.
    + rewrite (proj2 (Z.ltb_lt _ _)) by lia. split; [done|]. split; [done|done].
  - destruct Hd as (Hc & _ & ->). rewrite chain_sectors_length in *. destruct Hw as (ci & Hci & Hsu & -> & Ecl). assert (1 <= spc) by (destruct Hv; lia).
    destruct (Z.leb_spec spc (sector_in_unit it)) as [Hle|Hlt].
    + cbv zeta. change (cluster (it <| cluster := ?x |>)) with x. rewrite Ecl. destruct (decide (S ci < length l)%nat) as [Hn|Hn].
      * rewrite (chain_nth d l) by done. pose proof (nth_cluster d l (S ci) Hc Hn) as Hcl. rewrite (cluster_not_eoc Hv) by done.
        unfold is_cluster in Hcl. rewrite (proj2 (Z.ltb_ge _ 2)) by lia. cbn [orb]. rewrite (proj2 (Z.ltb_lt _ _)) by nia.
        split; [done|]. split; [|intros _; cbn; lia]. split; [done|]. exists (S ci). split; [done|]. split; [cbn; lia|]. split; [cbn; lia|done].
      * replace ci with (pred (length l)) by lia. rewrite (chain_last d l Hc). cbn [orb]. rewrite (proj2 (Z.ltb_ge _ _)) by nia. done.
    + rewrite (proj2 (Z.ltb_lt _ _)) by nia. split; [done|]. split; [|done]. split; [done|]. exists ci. auto with lia.
Qed.

(** Loading sector [s]. *)
Lemma load_spec d root cl l ls it s : dir_of d root cl l ls -> done_ it = false -> wants root l it s -> 0 <= s <= zlen ls ->
  let it' := slots_load v d it in
  if s <? zlen ls then holds root l ls it' s /\ done_ it' = false /\ loaded it' = true /\ ent it' = 0 /\ cached d it' else done_ it' = true.
Proof using Hv HL.
  intros Hd Hdn Hw Hs. pose proof (advance_spec d root cl l ls it s Hd Hdn Hw Hs) as Ha. unfold slots_load. cbv zeta in *.
  destruct (Z.ltb_spec s (zlen ls)); [|by rewrite Ha]. destruct Ha as (Hdn' & Hw' & Hu). rewrite Hdn'.
  rewrite (slots_read_spec d root cl l ls _ s Hd Hdn' Hw' Hu) by lia. split; [|done]. destruct Hw' as [Hr' Hw']. split; [by split|]. split; [lia|done].
Qed.

(** ** Each slot once, in order *)

Lemma sectors_small d root cl l ls : dir_of d root cl l ls -> zlen ls < W32.
Proof using Hv.
  intros Hd. destruct root.
  - destruct Hd as [_ ->]. rewrite length_seqZ. pose proof (fats_below_data Hv). assert (0 <= root_dir_start_lba v).
    { assert (0 <= num_fats v * sectors_per_fat v) by (apply Z.mul_nonneg_nonneg; destruct Hv; lia). destruct Hv. lia. }
    destruct Hv. lia.
  - destruct Hd as (Hc & _ & ->). rewrite chain_sectors_length. pose proof (chain_length Hv d l Hc). pose proof (data_start_pos Hv).
    assert (zlen l * spc <= ncl * spc) by (apply Z.mul_le_mono_nonneg_r; destruct Hv; lia). pose proof (fats_below_data Hv). destruct Hv. lia.
Qed.

Lemma take_here d root l ls it s : done_ it = false -> loaded it = true -> holds root l ls it s -> 0 <= ent it < 16 ->
  let p := 16 * s + ent it in
  exists de it', slots_take it = inr (Some (de, slot_lba ls p, slot_off p), it') /\ it_at root l ls it' (p + 1) /\
    (cached d it -> de = slot_bytes d ls p /\ cached d it').
Proof using Hv.
  intros Hdn Hld Hh He p. pose proof Hh as (Hw & Hs & Hl & Hu). unfold slots_take. rewrite (proj2 (Z.leb_gt _ _)) by lia.
  assert (Ep : p / 16 = s /\ p mod 16 = ent it) by (subst p; dlia). destruct Ep as [Ep Em].
  unfold slot_lba, slot_off. rewrite Ep, Em. rewrite u16_small by lia. rewrite u32_small by lia. rewrite Hl. eexists _, _. split; [done|]. split.
  - split; [done|]. right. split; [done|]. exists s. split; [exact Hh|]. cbn. lia.
  - intros Hca. split; [|intros _; exact (Hca Hld)]. unfold slot_bytes, slot_lba, slot_off. rewrite Ep, Em, <- Hl. by rewrite (Hca Hld).
Qed.

(** A turn with sector [s] not loaded. *)
Lemma turn_load d root cl l ls it s : dir_of d root cl l ls -> done_ it = false -> loaded it = false -> wants root l it s -> 0 <= s <= zlen ls ->
  if s <? zlen ls then
    exists de it', slots_turn v d it = inr (Some (de, slot_lba ls (16 * s), slot_off (16 * s)), it') /\ it_at root l ls it' (16 * s + 1) /\
      de = slot_bytes d ls (16 * s) /\ cached d it'
  else exists it', slots_turn v d it = inr (None, it').
Proof using Hv HL.
  intros Hd Hdn Hld Hw Hs. pose proof (load_spec d root cl l ls it s Hd Hdn Hw Hs) as H. cbv zeta in H. unfold slots_turn. rewrite Hdn, Hld.
  destruct (s <? zlen ls); [|rewrite H; by eexists]. destruct H as (Hh & Hdn' & Hld' & He & Hca). rewrite Hdn'.
  destruct (take_here d root l ls _ s Hdn' Hld' Hh ltac:(lia)) as (de & it' & Et & Hit & Hc). rewrite He, Z.add_0_r in *. exists de, it'.
  destruct (Hc Hca). auto.
Qed.

Lemma slots_next_spec d root cl l ls it p : dir_of d root cl l ls -> it_at root l ls it p -> 0 <= p <= 16 * zlen ls ->
  if p <? 16 * zlen ls then
    exists de it', slots_next v d it = (Some (de, slot_lba ls p, slot_off p), it') /\ it_at root l ls it' (p + 1) /\
      (cached d it -> de = slot_bytes d ls p /\ cached d it')
  else exists it', slots_next v d it = (None, it').
Proof using Hv HL.
  intros Hd [Hdn Hit] Hp. pose proof (sectors_small d root cl l ls Hd) as Hsm. unfold slots_next.
  destruct Hit as [(Hld & -> & Hw)|(Hld & s & Hh & He & ->)].
  - pose proof (turn_load d root cl l ls it 0 Hd Hdn Hld Hw ltac:(lia)) as H. rewrite Z.mul_0_r in H.
    destruct (Z.ltb_spec 0 (zlen ls)).
    + rewrite (proj2 (Z.ltb_lt _ _)) by lia. destruct H as (de & it' & -> & Hit & Hde & Hca). exists de, it'. auto.
    + rewrite (proj2 (Z.ltb_ge _ _)) by lia. destruct H as (it' & ->). by exists it'.
  - pose proof Hh as ((Hr & Hw) & Hs & Hl & Hu). destruct (Z.lt_ge_cases (ent it) 16) as [Hlt|Hge].
    + rewrite (proj2 (Z.ltb_lt _ _)) by lia. destruct (take_here d root l ls it s Hdn Hld Hh ltac:(lia)) as (de & it' & Et & Hit & Hc).
      unfold slots_turn. rewrite Hdn, Hld, Hdn, Et. exists de, it'. auto.
    + assert (Et : slots_turn v d it = inl (it <| loaded := false |> <| sector_in_unit := u32 (sector_in_unit it + 1) |>)).
      { unfold slots_turn, slots_take. rewrite Hdn, Hld, Hdn. by rewrite (proj2 (Z.leb_le _ _)) by lia. }
      rewrite Et. clear Et. set (it1 := it <| loaded := false |> <| sector_in_unit := _ |>).
      assert (Hw1 : wants root l it1 (s + 1)).
      { split; [exact Hr|]. destruct root; [cbn; rewrite u32_small by lia; lia|]. destruct Hw as (ci & Hci & Hsu & -> & Ecl). exists ci. split; [done|].
        specialize (Hu eq_refl). cbn. rewrite u32_small by (destruct Hv; lia). split; [lia|]. split; [lia|exact Ecl]. }
      pose proof (turn_load d root cl l ls it1 (s + 1) Hd Hdn eq_refl Hw1 ltac:(lia)) as H. replace (16 * s + ent it) with (16 * (s + 1)) by lia.
      destruct (Z.ltb_spec (s + 1) (zlen ls)).
      * rewrite (proj2 (Z.ltb_lt _ _)) by lia. destruct H as (de & it' & -> & Hit & Hde & Hca). exists de, it'. auto.
      * rewrite (proj2 (Z.ltb_ge _ _)) by lia. destruct H as (it' & ->). by exists it'.
Qed.

(** ** The walker as a list of slots *)

Definition full_slot d ls (p : Z) : slot := (slot_bytes d ls p, slot_lba ls p, slot_off p).
Definition all_slots d ls : list slot := full_slot d ls <$> seqZ 0 (16 * zlen ls).

Lemma all_slots_length d ls : zlen (all_slots d ls) = 16 * zlen ls.
Proof. unfold all_slots. rewrite length_fmap, length_seqZ. lia. Qed.

Lemma all_slots_drop d ls p : 0 <= p < 16 * zlen ls -> drop (Z.to_nat p) (all_slots d ls) = full_slot d ls p :: drop (Z.to_nat (p + 1)) (all_slots d ls).
Proof.
  intros Hp. replace (Z.to_nat (p + 1)) with (S (Z.to_nat p)) by lia. apply drop_S. unfold all_slots. rewrite list_lookup_fmap.
  rewrite (proj2 (lookup_seqZ 0 (16 * zlen ls) (Z.to_nat p) p)) by lia. done.
Qed.

(** What the walker still returns. *)
Definition rep d root l ls it (ss : list slot) : Prop :=
  exists p, it_at root l ls it p /\ cached d it /\ 0 <= p <= 16 * zlen ls /\ ss = drop (Z.to_nat p) (all_slots d ls).

Lemma rep_begin d root cl l ls : dir_of d root cl l ls -> rep d root l ls (slots_begin root cl) (all_slots d ls).
Proof using Hv. intros Hd. destruct (begin_at d root cl l ls Hd). exists 0. split; [done|]. split; [done|]. split; [lia|done]. Qed.

Lemma rep_next d root cl l ls it ss : dir_of d root cl l ls -> rep d root l ls it ss ->
  match ss with
  | s :: ss => exists it', slots_next v d it = (Some s, it') /\ rep d root l ls it' ss
  | [] => exists it', slots_next v d it = (None, it')
  end.
Proof using Hv HL.
  intros Hd (p & Hit & Hca & Hp & ->). pose proof (slots_next_spec d root cl l ls it p Hd Hit Hp) as H.
  destruct (Z.ltb_spec p (16 * zlen ls)) as [Hlt|Hge].
  - rewrite all_slots_drop by lia. destruct H as (de & it' & -> & Hit' & Hc). destruct (Hc Hca) as [-> Hca']. exists it'. split; [done|].
    exists (p + 1). split; [done|]. split; [done|]. split; [lia|done].
  - rewrite drop_ge; [done|]. pose proof (all_slots_length d ls). lia.
Qed.

Lemma rep_small d root cl l ls it ss : dir_of d root cl l ls -> rep d root l ls it ss -> zlen ss < 2 ^ 37.
Proof using Hv.
  intros Hd (p & _ & _ & Hp & ->). pose proof (sectors_small d root cl l ls Hd). pose proof (all_slots_length d ls). rewrite length_drop. lia.
Qed.

(** ** The entries of a directory *)

Context `{HE : FatEnv}.
Abbreviation acc0 := (Acc false 0 0 0 0 0 stack_chars).

(** The next entry of a list of slots, with the slots behind it. *)
Fixpoint dnext (a : lfn_acc) (ss : list slot) : option (fat_entry * list slot) :=
  match ss with
  | [] => None
  | s :: ss => match dir_slot a s with inl a => dnext a ss | inr (Some e) => Some (e, ss) | inr None => None end
  end.

Lemma dir_next_spec d root cl l ls it ss : dir_of d root cl l ls -> rep d root l ls it ss ->
  exists it', fat_dir_next v d it = Some (fst <$> dnext acc0 ss, it') /\ forall e ss', dnext acc0 ss = Some (e, ss') -> rep d root l ls it' ss'.
Proof using Hv HL.
  intros Hd Hrep. unfold fat_dir_next. pose proof (rep_small d root cl l ls it ss Hd Hrep) as Hsm.
  edestruct (while_indexed (fun k '(it', a) => exists ss', k = zlen ss' /\ rep d root l ls it' ss' /\ dnext a ss' = dnext acc0 ss)
    (fun '(o, it') => o = fst <$> dnext acc0 ss /\ forall e ss', dnext acc0 ss = Some (e, ss') -> rep d root l ls it' ss')) as ([o it'] & -> & -> & Hr).
  - intros k [it' a] (ss' & -> & Hrep' & Hd'). pose proof (rep_next d root cl l ls it' ss' Hd Hrep') as Hn. eexists. split; [reflexivity|].
    destruct ss' as [|s ss'].
    + destruct Hn as (it2 & ->). cbn in Hd'. rewrite <- Hd'. split; [done|]. intros e ss' [=].
    + destruct Hn as (it2 & -> & Hrep2). cbn [dnext] in Hd'. destruct (dir_slot a s) as [a'|o].
      * exists (zlen ss'). split; [cbn [length]; lia|]. exists ss'. auto.
      * rewrite <- Hd'. destruct o as [e|]; [|split; [done|intros e ss2 [=]]]. split; [done|]. intros e2 ss2 [= -> ->]. done.
  - exists ss. auto.
  - lia.
  - exists it'. split; [done|exact Hr].
Qed.

(** All entries. *)
Fixpoint dents (a : lfn_acc) (ss : list slot) : list fat_entry :=
  match ss with
  | [] => []
  | s :: ss => match dir_slot a s with inl a => dents a ss | inr (Some e) => e :: dents acc0 ss | inr None => [] end
  end.

Lemma dents_next a ss : dents a ss = match dnext a ss with Some (e, ss') => e :: dents acc0 ss' | None => [] end.
Proof. revert a. induction ss as [|s ss IH]; intros a; [done|]. cbn [dents dnext]. destruct (dir_slot a s) as [a'|[e|]]; auto. Qed.

Lemma dnext_shorter a ss e ss' : dnext a ss = Some (e, ss') -> (length ss' < length ss)%nat.
Proof. revert a. induction ss as [|s ss IH]; intros a E; [done|]. cbn [dnext length] in *. destruct (dir_slot a s) as [a'|[e'|]]; [apply IH in E; lia|simplify_eq; lia|done]. Qed.

Definition entries d ls : list fat_entry := dents acc0 (all_slots d ls).

(** A loop over the entries that stops at the first one with [f e = Some r]. *)
Lemma entries_loop {R} d root cl l ls (g : option fat_entry -> fat_slots -> fat_slots + R) (f : fat_entry -> option R) (none : R) :
  dir_of d root cl l ls -> (forall it, g None it = inr none) -> (forall e it, g (Some e) it = match f e with Some r => inr r | None => inl it end) ->
  while (fun it => '(o, it) ← fat_dir_next v d it; Some (g o it)) (slots_begin root cl)
  = Some (default none (list_find (fun e => is_Some (f e)) (entries d ls) ≫= fun '(_, e) => f e)).
Proof using Hv HL.
  intros Hd Hg0 Hg. pose proof (rep_begin d root cl l ls Hd) as Hrep. pose proof (rep_small d root cl l ls _ _ Hd Hrep) as Hsm.
  assert (Hin : forall l1 l2 : list fat_entry, Forall (fun e => f e = None) l1 ->
    (list_find (fun e => is_Some (f e)) (l1 ++ l2) ≫= fun '(_, e) => f e) = (list_find (fun e => is_Some (f e)) l2 ≫= fun '(_, e) => f e)).
  { intros l1 l2 H1. induction H1 as [|e l1 He Hl IH]; [done|]. cbn. rewrite decide_False by (rewrite He; by intros []). rewrite <- IH. by destruct (list_find _ (l1 ++ l2)) as [[]|]. }
  edestruct (while_indexed (fun k it => exists ss pre, k = zlen ss /\ rep d root l ls it ss /\ entries d ls = pre ++ dents acc0 ss /\ Forall (fun e => f e = None) pre)
    (fun r => r = default none (list_find (fun e => is_Some (f e)) (entries d ls) ≫= fun '(_, e) => f e))) as (r & -> & ->); [| | |done].
  - intros k it (ss & pre & -> & Hr & Hent & Hpre). destruct (dir_next_spec d root cl l ls it ss Hd Hr) as (it' & -> & Hr'). rewrite some_bind.
    rewrite dents_next in Hent. rewrite Hent, Hin by done. eexists. split; [done|]. destruct (dnext acc0 ss) as [[e ss']|] eqn:E; cbn [fmap option_fmap option_map fst]; [rewrite Hg|by rewrite Hg0].
    destruct (f e) as [r|] eqn:Ef.
    + cbn. rewrite decide_True by (rewrite Ef; by eexists). cbn. by rewrite Ef.
    + exists (zlen ss'). split; [pose proof (dnext_shorter _ _ _ _ E); lia|]. exists ss', (pre ++ [e]). split; [done|]. split; [by eapply Hr'|].
      split; [by rewrite <- app_assoc|]. apply Forall_app. split; [done|]. by constructor.
  - exists (all_slots d ls), []. auto.
  - lia.
Qed.

Lemma find_if {R} (P : fat_entry -> bool) (r : fat_entry -> R) (es : list fat_entry) (none : R) :
  default none (list_find (fun e => is_Some (if P e then Some (r e) else None)) es ≫= fun '(_, e) => if P e then Some (r e) else None)
  = match list_find (fun e => P e = true) es with Some (_, e) => r e | None => none end.
Proof.
  assert (E : list_find (fun e => is_Some (if P e then Some (r e) else None)) es = list_find (fun e => P e = true) es).
  { apply list_find_ext. intros e. destruct (P e); [split; [done|by eexists]|]. split; [intros []; done|done]. }
  rewrite E. destruct (list_find (fun e => P e = true) es) as [[i e]|] eqn:El; [|done]. apply list_find_Some in El as (_ & Ep & _). cbn. by rewrite Ep.
Qed.

Lemma find_ext (P : fat_entry -> bool) (Q : fat_entry -> Prop) `{!forall e, Decision (Q e)} (es : list fat_entry) :
  (forall e, P e = true <-> Q e) -> list_find (fun e => P e = true) es = list_find Q es.
Proof. intros HPQ. apply list_find_ext. apply HPQ. Qed.

Lemma dir_find_spec d root cl l ls name : dir_of d root cl l ls ->
  fat_dir_find v d root cl name = Some (snd <$> list_find (fun e => e_name e = name) (entries d ls)).
Proof using Hv HL.
  intros Hd. unfold fat_dir_find.
  rewrite (entries_loop d root cl l ls (fun o it => match o with None => inr None | Some e => if fat_name_eq (e_name e) name then inr (Some e) else inl it end)
    (fun e => if fat_name_eq (e_name e) name then Some (Some e) else None) None Hd); [|done|intros e it; by destruct (fat_name_eq _ _)].
  rewrite (find_if (fun e => fat_name_eq (e_name e) name) Some). rewrite (find_ext _ (fun e => e_name e = name)) by (intros e; apply fat_name_eq_spec).
  by destruct (list_find _ _) as [[]|].
Qed.

Lemma alias_clash_spec d root cl l ls alias : dir_of d root cl l ls ->
  alias_clash v d root cl alias = Some (existsb (fun e => fat_name_matches (e_de e) alias) (entries d ls)).
Proof using Hv HL.
  intros Hd. unfold alias_clash.
  rewrite (entries_loop d root cl l ls (fun o it => match o with None => inr false | Some e => if fat_name_matches (e_de e) alias then inr true else inl it end)
    (fun e => if fat_name_matches (e_de e) alias then Some true else None) false Hd); [|done|intros e it; by destruct (fat_name_matches _ _)].
  rewrite (find_if (fun e => fat_name_matches (e_de e) alias) (fun _ => true)). f_equal. induction (entries d ls) as [|e es IH]; [done|]. cbn.
  destruct (fat_name_matches (e_de e) alias); cbn; [done|]. rewrite <- IH. by destruct (list_find _ es) as [[]|].
Qed.

Lemma dir_empty_spec d cl l ls : dir_of d false cl l ls ->
  fat_dir_is_empty v d cl = Some (forallb (fun e => fat_name_eq (e_name e) [DOT] || fat_name_eq (e_name e) [DOT; DOT]) (entries d ls)).
Proof using Hv HL.
  intros Hd. unfold fat_dir_is_empty. pose (P := fun e => fat_name_eq (e_name e) [DOT] || fat_name_eq (e_name e) [DOT; DOT]).
  rewrite (entries_loop d false cl l ls (fun o it => match o with None => inr true | Some e => if fat_name_eq (e_name e) [DOT] || fat_name_eq (e_name e) [DOT; DOT] then inl it else inr false end)
    (fun e => if negb (P e) then Some false else None) true Hd); [|done|intros e it; unfold P; by destruct (_ || _)].
  rewrite (find_if (fun e => negb (P e)) (fun _ => false)). change (fun e => fat_name_eq (e_name e) [DOT] || fat_name_eq (e_name e) [DOT; DOT]) with P. clearbody P. f_equal. induction (entries d ls) as [|e es IH]; [done|]. cbn.
  destruct (P e); cbn; [|done]. rewrite <- IH. by destruct (list_find _ es) as [[]|].
Qed.
End slots.
