(* ===== verification/FatUpdate.v ===== *)
(** * Writing the slots of a directory: proofs

    Storing a run of entries and erasing one change exactly the slots of the run; the search for
    free slots finds the first run that is long enough. *)

From stdpp Require Import base numbers list option sets.
From S2P Require Import Prelude Loop Bytes Fat FatTable FatFile FatWrite FatTime FatName FatDir FatSlots.

Section update.
Context {D : Type} `{HB : BlockStore D} {n ncl : Z} {HL : BlockLaws D n}.
Context {v : fat_volume} (Hv : vol_ok n ncl v).
Implicit Types (d : D) (l ls : list Z) (it : fat_slots).
Abbreviation dir_of := (dir_of (ncl := ncl) (v := v)).

(** ** The slots of a sector *)

Lemma slot_lba_range d root cl l ls p : dir_of d root cl l ls -> 0 <= p < 16 * zlen ls -> 0 <= slot_lba ls p < n /\ ~ in_fats v (slot_lba ls p) /\ slot_lba ls p ∈ ls.
Proof using Hv.
  intros Hd Hp. assert (Hs : 0 <= p / 16 < zlen ls) by dlia. destruct (dir_sector_range Hv d root cl l ls (p / 16) Hd Hs). split; [done|]. split; [done|].
  apply list_elem_of_In, nth_In. lia.
Qed.

Lemma slot_off_range p : 0 <= slot_off p /\ slot_off p + 32 <= 512.
Proof. unfold slot_off. dlia. Qed.

Lemma slot_bytes_length d ls p : length (slot_bytes d ls p) = 32%nat.
Proof using HL.
  unfold slot_bytes. pose proof (slot_off_range p). pose proof (rd_sector (n := n) d (slot_lba ls p)) as [Hl _]. rewrite slice_length; lia.
Qed.

Lemma same_slot d root cl l ls p q : dir_of d root cl l ls -> 0 <= p < 16 * zlen ls -> 0 <= q < 16 * zlen ls ->
  slot_lba ls p = slot_lba ls q -> slot_off p = slot_off q -> p = q.
Proof using Hv.
  intros Hd Hp Hq El Eo. assert (E : p / 16 = q / 16) by (apply (dir_nodup Hv d root cl l ls); [done|dlia|dlia|exact El]). unfold slot_off in Eo. dlia.
Qed.

(** The sectors of the directory and the table are apart, so the directory stays where it is. *)
Lemma dir_of_ext d d' root cl l ls : (forall lba, 0 <= lba < n -> in_fats v lba -> img d' lba = img d lba) -> dir_of d root cl l ls -> dir_of d' root cl l ls.
Proof using Hv HL.
  intros He Hd. destruct root; [done|]. destruct Hd as (Hc & Hcl & Hls). split; [|done]. eapply chain_ext; [|done].
  intros c Hin. apply (next_ext Hv); [done|]. apply (cluster_in_table Hv). by eapply chain_clusters.
Qed.

(** [d'] is [d] with slot [p] replaced by [b]. *)
Definition slot_set d d' ls (p : Z) (b : list Z) : Prop :=
  forall lba, 0 <= lba < n -> img d' lba = if lba =? slot_lba ls p then splice (img d lba) (slot_off p) b else img d lba.

Lemma slot_set_bytes d d' root cl l ls p b q : dir_of d root cl l ls -> slot_set d d' ls p b -> length b = 32%nat -> 0 <= p < 16 * zlen ls -> 0 <= q < 16 * zlen ls ->
  slot_bytes d' ls q = if q =? p then b else slot_bytes d ls q.
Proof using Hv HL.
  intros Hd Hs Hb Hp Hq. pose proof (slot_lba_range d root cl l ls q Hd Hq) as (Hr & _ & _). pose proof (rd_sector (n := n) d (slot_lba ls q)) as [Hl _].
  pose proof (slot_off_range p) as Hop. pose proof (slot_off_range q) as Hoq.
  unfold slot_bytes. rewrite (Hs _ Hr). destruct (Z.eqb_spec (slot_lba ls q) (slot_lba ls p)) as [El|Nl].
  - destruct (Z.eqb_spec q p) as [->|Hne].
    + pose proof (slice_splice_same (img d (slot_lba ls p)) (slot_off p) b) as E. rewrite Hb in E. change (Z.of_nat 32) with 32 in E. apply E; lia.
    + rewrite slice_splice_other; [done|lia|lia|lia|lia|lia|].
      assert (slot_off q <> slot_off p) by (intros Eo; apply Hne; by apply (same_slot d root cl l ls)). unfold slot_off in *. rewrite Hb. lia.
  - destruct (Z.eqb_spec q p) as [->|_]; [done|done].
Qed.

(** [d'] is [d] with the slots from [i] on replaced by [src]. *)
Record slots_set d d' ls (i : Z) (src : list (list Z)) : Prop := {
  ss_slots : forall p, 0 <= p < 16 * zlen ls -> slot_bytes d' ls p = if (i <=? p) && (p <? i + zlen src) then nth (Z.to_nat (p - i)) src [] else slot_bytes d ls p;
  ss_frame : forall lba, 0 <= lba < n -> lba ∉ ls -> img d' lba = img d lba;
}.

Lemma slots_set_nil d ls i : slots_set d d ls i [].
Proof. split; [|done]. intros p Hp. cbn. zcases; cbn [andb]; done || lia. Qed.

Lemma slots_set_snoc d d1 d2 root cl l ls i src b : dir_of d1 root cl l ls -> slots_set d d1 ls i src -> slot_set d1 d2 ls (i + zlen src) b -> length b = 32%nat ->
  0 <= i -> i + zlen src < 16 * zlen ls -> slots_set d d2 ls i (src ++ [b]).
Proof using Hv HL.
  intros Hd H1 H2 Hb Hi Hn. pose proof (slot_lba_range d1 root cl l ls (i + zlen src) Hd ltac:(lia)) as (_ & _ & Hin). split.
  - intros p Hp. rewrite (slot_set_bytes d1 d2 root cl l ls (i + zlen src) b p) by (done || lia). rewrite length_app. cbn [length].
    destruct (Z.eqb_spec p (i + zlen src)) as [->|Hne].
    + rewrite (proj2 (Z.leb_le _ _)), (proj2 (Z.ltb_lt _ _)) by lia. cbn [andb]. rewrite app_nth2 by lia.
      replace (Z.to_nat (i + zlen src - i) - length src)%nat with 0%nat by lia. done.
    + rewrite (ss_slots _ _ _ _ _ H1) by done. zcases; cbn [andb]; try done; try lia. rewrite app_nth1 by lia. done.
  - intros lba Hl Hnin. rewrite (H2 lba Hl). destruct (Z.eqb_spec lba (slot_lba ls (i + zlen src))) as [->|_]; [done|]. by apply (ss_frame _ _ _ _ _ H1).
Qed.

Lemma fats_apart d root cl l ls lba : dir_of d root cl l ls -> in_fats v lba -> lba ∉ ls.
Proof using Hv.
  intros Hd Hf Hin. apply list_elem_of_lookup in Hin as [k Hk]. pose proof (lookup_lt_Some _ _ _ Hk).
  destruct (dir_sector_range Hv d root cl l ls (Z.of_nat k) Hd ltac:(lia)) as [_ Hnf].
  apply Hnf. rewrite Nat2Z.id. by rewrite (nth_lookup_Some _ _ _ _ Hk).
Qed.

Lemma slots_set_fats d d' root cl l ls i src lba : dir_of d root cl l ls -> slots_set d d' ls i src -> 0 <= lba < n -> in_fats v lba -> img d' lba = img d lba.
Proof using Hv. intros Hd Hs Hl Hf. apply (ss_frame _ _ _ _ _ Hs); [done|]. by apply (fats_apart d root cl l). Qed.

Lemma slots_set_dir d d' root cl l ls i src : dir_of d root cl l ls -> slots_set d d' ls i src -> dir_of d' root cl l ls.
Proof using Hv HL. intros Hd Hs. eapply dir_of_ext; [|done]. intros lba Hl Hf. by apply (slots_set_fats d d' root cl l ls i src). Qed.

(** ** Storing a run *)

Definition buf_ok (buf : option (list Z * Z)) : Prop := match buf with Some (s, lb) => is_sector s /\ 0 <= lb < n | None => True end.

Lemma flush_img d buf lba : buf_ok buf -> 0 <= lba < n -> img (flush d buf) lba = match buf with Some (s, lb) => if lba =? lb then s else img d lba | None => img d lba end.
Proof using HL. intros Hb Hl. destruct buf as [[s lb]|]; [|done]. destruct Hb. unfold flush, fat_wr. by apply (rd_wr (n := n)). Qed.

(** One slot: what will be on the disk when the dirty sector is written has the slot replaced. *)
Lemma put_slot_spec d buf root cl l ls p b : dir_of d root cl l ls -> 0 <= p < 16 * zlen ls -> length b = 32%nat -> Forall is_byte b -> buf_ok buf ->
  exists buf' d', put_slot d buf (slot_lba ls p) (slot_off p) b = (Some buf', d') /\ buf_ok (Some buf') /\
    slot_set (flush d buf) (flush d' (Some buf')) ls p b /\ (d' = d \/ d' = flush d buf).
Proof using Hv HL.
  intros Hd Hp Hb Hby Hok. pose proof (slot_lba_range d root cl l ls p Hd Hp) as (Hr & _ & _). pose proof (slot_off_range p) as Ho.
  assert (Eo : slot_off p / 32 * 32 = slot_off p) by (unfold slot_off; dlia).
  assert (Hsp : forall s, is_sector s -> is_sector (splice s (slot_off p) b)) by (intros s [Hs1 Hs2]; split; [rewrite splice_length; lia|by apply splice_bytes]).
  unfold put_slot. rewrite Eo.
  assert (Hread : forall d, exists s, fat_rd d (slot_lba ls p) = (true, s) /\ s = img d (slot_lba ls p)) by (intros e; rewrite (fat_rd_ok e) by done; by eexists).
  destruct buf as [[s lb]|].
  - destruct Hok as [Hs Hlb]. destruct (Z.eqb_spec (slot_lba ls p) lb) as [<-|Hne]; cbn [negb].
    + eexists _, d. split; [done|]. split; [split; [by apply Hsp|done]|]. split; [|by left]. intros lba Hl.
      rewrite !flush_img by (done || (split; [by apply Hsp|done])). destruct (Z.eqb_spec lba (slot_lba ls p)); done.
    + destruct (Hread (flush d (Some (s, lb)))) as (s2 & -> & ->). cbn [negb]. eexists _, _. split; [done|].
      assert (Hk : buf_ok (Some (splice (img (flush d (Some (s, lb))) (slot_lba ls p)) (slot_off p) b, slot_lba ls p))) by (split; [apply Hsp, (rd_sector (n := n))|done]).
      split; [done|]. split; [|by right]. intros lba Hl. rewrite (flush_img (flush d (Some (s, lb)))) by done. destruct (Z.eqb_spec lba (slot_lba ls p)) as [->|]; done.
  - destruct (Hread d) as (s2 & -> & ->). cbn [negb]. eexists _, _. split; [done|].
    assert (Hk : buf_ok (Some (splice (img d (slot_lba ls p)) (slot_off p) b, slot_lba ls p))) by (split; [apply Hsp, (rd_sector (n := n))|done]).
    split; [done|]. split; [|by left]. intros lba Hl. rewrite flush_img by done. destruct (Z.eqb_spec lba (slot_lba ls p)) as [->|]; done.
Qed.

(** The state of the writing loop before slot [p]. *)
Definition storing d0 root l ls (i : Z) (src : list (list Z)) (p : Z) (st : fat_slots * bool * Z * option (list Z * Z) * D) : Prop :=
  let '(it, writing, written, buf, d) := st in
  it_at (v := v) root l ls it p /\ 0 <= p <= 16 * zlen ls /\ buf_ok buf /\
  (forall lba, 0 <= lba < n -> in_fats v lba -> img d lba = img d0 lba) /\
  slots_set d0 (flush d buf) ls i (take (Z.to_nat written) src) /\ 0 <= written <= zlen src /\
  (if writing then p = i + written /\ 1 <= written else written = 0 /\ p <= i).

Lemma storing_put d0 root cl l ls i src p it it' (writing : bool) written buf d : dir_of d0 root cl l ls -> 0 <= i -> i + zlen src <= 16 * zlen ls ->
  Forall (fun b => length b = 32%nat /\ Forall is_byte b) src -> storing d0 root l ls i src p (it, writing, written, buf, d) ->
  written < zlen src -> p = i + written -> it_at (v := v) root l ls it' (p + 1) ->
  exists buf' d', put_slot d buf (slot_lba ls p) (slot_off p) (nth (Z.to_nat written) src []) = (Some buf', d') /\
    storing d0 root l ls i src (p + 1) (it', true, written + 1, Some buf', d').
Proof using Hv HL.
  intros Hd0 Hi Hfit Hsrc (Hit & Hp & Hbuf & Hfat & Hset & Hwr & Hw) Hlt -> Hit'.
  assert (Hd : dir_of d root cl l ls) by (eapply dir_of_ext; [exact Hfat|done]).
  assert (Hk : (Z.to_nat written < length src)%nat) by lia. set (b := nth (Z.to_nat written) src []).
  assert (Hlook : src !! Z.to_nat written = Some b) by (destruct (nth_lookup_or_length src (Z.to_nat written) []); [done|lia]).
  pose proof (Forall_lookup_1 _ _ _ _ Hsrc Hlook) as [Hb Hby].
  destruct (put_slot_spec d buf root cl l ls (i + written) b Hd ltac:(lia) Hb Hby Hbuf) as (buf' & d' & E & Hbuf' & Hss & Hor). exists buf', d'. split; [exact E|].
  assert (Hset' : slots_set d0 (flush d' (Some buf')) ls i (take (Z.to_nat (written + 1)) src)).
  { replace (Z.to_nat (written + 1)) with (S (Z.to_nat written)) by lia. rewrite (take_S_r _ _ _ Hlook).
    assert (Hl : zlen (take (Z.to_nat written) src) = written) by (rewrite length_take; lia).
    eapply (slots_set_snoc d0 (flush d buf)); [eapply slots_set_dir; [exact Hd0|exact Hset]|exact Hset|by rewrite Hl|done|lia|lia]. }
  repeat (split; [done || lia|]). split.
  - intros lba Hl Hf. destruct Hor as [->| ->]; [by apply Hfat|]. by eapply slots_set_fats.
  - split; [done|]. lia.
Qed.

Lemma write_slots_spec d root cl l ls i src : dir_of d root cl l ls -> 0 <= i -> i + zlen src <= 16 * zlen ls -> 1 <= zlen src ->
  Forall (fun b => length b = 32%nat /\ Forall is_byte b) src ->
  exists d', write_slots_at v d root cl (slot_lba ls i) (slot_off i) src = Some (0, d') /\ slots_set d d' ls i src.
Proof using Hv HL.
  intros Hd Hi Hfit Hne Hsrc. unfold write_slots_at.
  edestruct (while_indexed (fun k st => exists p, k = 16 * zlen ls - p /\ storing d root l ls i src p st)
    (fun '(rc, d') => rc = 0 /\ slots_set d d' ls i src)) as ([rc d'] & -> & -> & Hs); [| | |by exists d'].
  - intros k [[[[it writing] written] buf] d'] (p & -> & Hst). pose proof Hst as (Hit & Hp & Hbuf & Hfat & Hset & Hwr & Hw).
    assert (Hd' : dir_of d' root cl l ls) by (eapply dir_of_ext; [exact Hfat|done]).
    pose proof (slots_next_spec Hv d' root cl l ls it p Hd' Hit Hp) as Hn. eexists. split; [done|].
    assert (Hfull : written = zlen src -> slots_set d (flush d' buf) ls i src) by (intros ->; by rewrite take_ge in Hset by lia).
    destruct (Z.ltb_spec p (16 * zlen ls)).
    + destruct Hn as (de & it' & -> & Hit' & _). destruct (Z.ltb_spec written (zlen src)) as [Hlt|]; cbn [negb]; [|split; [done|]; apply Hfull; lia].
      destruct (negb writing && _) eqn:Eskip.
      * apply andb_true_iff in Eskip as [Ew Eo]. apply negb_true_iff in Ew. subst writing. destruct Hw as [-> Hpi].
        exists (16 * zlen ls - (p + 1)). split; [lia|]. exists (p + 1). split; [done|]. repeat (split; [done || lia|]).
        destruct (decide (p = i)) as [->|]; [|lia]. by rewrite !Z.eqb_refl in Eo.
      * assert (Epi : p = i + written).
        { destruct writing; [by destruct Hw|]. destruct Hw as [-> Hpi]. cbn [negb andb] in Eskip. apply orb_false_iff in Eskip as [E1 E2].
          apply negb_false_iff, Z.eqb_eq in E1, E2. rewrite Z.add_0_r. apply (same_slot d root cl l ls); done || lia. }
        destruct (storing_put d root cl l ls i src p it it' writing written buf d') as (buf' & d'' & -> & Hst'); try done.
        exists (16 * zlen ls - (p + 1)). split; [lia|]. by exists (p + 1).
    + destruct Hn as (it' & ->). assert (written = zlen src) as -> by (destruct writing; lia). rewrite Z.eqb_refl. split; [done|]. by apply Hfull.
  - exists 0. split; [done|]. destruct (begin_at Hv d root cl l ls Hd) as [Hit _]. repeat (split; [done || lia|]). split; [|lia]. apply slots_set_nil.
  - pose proof (sectors_small Hv d root cl l ls Hd). change (Z.pos turns) with (2 ^ 40). lia.
Qed.

(** ** Erasing a run *)

(** A slot marked as deleted. *)
Definition marked (b : list Z) : list Z := zset b 0 0xE5.

Lemma mark_spec d root cl l ls p : dir_of d root cl l ls -> 0 <= p < 16 * zlen ls ->
  exists d', mark_dirent_deleted d (slot_lba ls p) (slot_off p) = (0, d') /\ slot_set d d' ls p (marked (slot_bytes d ls p)).
Proof using Hv HL.
  intros Hd Hp. pose proof (slot_lba_range d root cl l ls p Hd Hp) as (Hr & _ & _). pose proof (slot_off_range p) as Ho.
  pose proof (rd_sector (n := n) d (slot_lba ls p)) as [Hl Hby].
  unfold mark_dirent_deleted. rewrite (fat_rd_ok d) by done. cbn [negb].
  assert (Hz : is_sector (zset (img d (slot_lba ls p)) (slot_off p) 0xE5)) by (split; [by rewrite zset_length|by apply zset_Forall]).
  assert (Ez : zset (img d (slot_lba ls p)) (slot_off p) 0xE5 = splice (img d (slot_lba ls p)) (slot_off p) (marked (slot_bytes d ls p))).
  { rewrite <- (Z.add_0_r (slot_off p)) at 1. apply zset_splice; lia. }
  unfold fat_wr. pose proof (wr_ok (n := n) d (slot_lba ls p) _ Hr Hz) as Hok. destruct (blkcache_write d _ _) as [ok d'] eqn:E. cbn in Hok. subst ok.
  exists d'. split; [done|]. intros lba Hlba. pose proof (rd_wr (n := n) d (slot_lba ls p) _ lba Hr Hlba Hz) as Hrd. rewrite E in Hrd. cbn in Hrd.
  rewrite Hrd, Ez. by destruct (Z.eqb_spec lba (slot_lba ls p)) as [->|].
Qed.

Definition erasing d0 root l ls (i k : Z) (p : Z) (st : fat_slots * bool * Z * D) : Prop :=
  let '(it, erasing, m, d) := st in
  it_at (v := v) root l ls it p /\ 0 <= p <= 16 * zlen ls /\ 0 <= m <= k /\
  slots_set d0 d ls i ((fun p => marked (slot_bytes d0 ls p)) <$> seqZ i m) /\
  (if erasing then p = i + m /\ 1 <= m else m = 0 /\ p <= i).

Lemma erase_run_spec d root cl l ls i e : dir_of d root cl l ls -> 0 <= i -> i + e_run_slots e <= 16 * zlen ls -> 1 <= e_run_slots e ->
  e_run_lba e = slot_lba ls i -> e_run_off e = slot_off i ->
  exists d', fat_erase_run v d root cl e = Some (0, d') /\ slots_set d d' ls i ((fun p => marked (slot_bytes d ls p)) <$> seqZ i (e_run_slots e)).
Proof using Hv HL.
  intros Hd Hi Hfit Hne El Eo. unfold fat_erase_run. rewrite El, Eo. set (k := e_run_slots e) in *. clearbody k. clear e El Eo.
  edestruct (while_indexed (fun j st => exists p, j = 16 * zlen ls - p /\ erasing d root l ls i k p st)
    (fun '(rc, d') => rc = 0 /\ slots_set d d' ls i ((fun p => marked (slot_bytes d ls p)) <$> seqZ i k))) as ([rc d'] & -> & -> & Hs); [| | |by exists d'].
  - intros j [[[it er] m] d'] (p & -> & Hit & Hp & Hm & Hset & Hw).
    assert (Hd' : dir_of d' root cl l ls) by (eapply slots_set_dir; [exact Hd|exact Hset]).
    pose proof (slots_next_spec Hv d' root cl l ls it p Hd' Hit Hp) as Hn. eexists. split; [done|].
    destruct (Z.ltb_spec p (16 * zlen ls)).
    + destruct Hn as (de & it' & -> & Hit' & _). destruct (Z.ltb_spec m k) as [Hlt|]; cbn [negb]; [|split; [done|]; by replace k with m by lia].
      destruct (negb er && _) eqn:Eskip.
      * apply andb_true_iff in Eskip as [Ew Eo]. apply negb_true_iff in Ew. subst er. destruct Hw as [-> Hpi].
        exists (16 * zlen ls - (p + 1)). split; [lia|]. exists (p + 1). split; [done|]. repeat (split; [done || lia|]).
        destruct (decide (p = i)) as [->|]; [|lia]. by rewrite !Z.eqb_refl in Eo.
      * assert (Epi : p = i + m).
        { destruct er; [by destruct Hw|]. destruct Hw as [-> Hpi]. cbn [negb andb] in Eskip. apply orb_false_iff in Eskip as [E1 E2].
          apply negb_false_iff, Z.eqb_eq in E1, E2. rewrite Z.add_0_r. apply (same_slot d root cl l ls); done || lia. }
        destruct (mark_spec d' root cl l ls p Hd' ltac:(lia)) as (d'' & -> & Hss). cbn [Z.eqb negb].
        exists (16 * zlen ls - (p + 1)). split; [lia|]. exists (p + 1). split; [done|]. split; [done|]. split; [lia|]. split; [lia|]. split; [|lia].
        rewrite seqZ_app by lia. rewrite fmap_app. cbn [fmap list_fmap seqZ].
        assert (Hzl : zlen ((fun p => marked (slot_bytes d ls p)) <$> seqZ i m) = m) by (rewrite length_fmap, length_seqZ; lia).
        eapply slots_set_snoc; [exact Hd'|exact Hset| |by unfold marked; rewrite zset_length, slot_bytes_length|lia|lia]. rewrite Hzl, <- Epi.
        rewrite (ss_slots _ _ _ _ _ Hset), Hzl, (proj2 (Z.ltb_ge p (i + m))), andb_false_r in Hss by lia. rewrite Epi in Hss |- *. exact Hss.
    + destruct Hn as (it' & ->). assert (m = k) as -> by (destruct er; lia). rewrite Z.eqb_refl. done.
  - exists 0. split; [done|]. destruct (begin_at Hv d root cl l ls Hd) as [Hit _]. repeat (split; [done || lia|]). split; [|lia]. apply slots_set_nil.
  - pose proof (sectors_small Hv d root cl l ls Hd). change (Z.pos turns) with (2 ^ 40). lia.
Qed.

(** ** Finding room *)

Definition free_slot (b : list Z) : bool := (de_first b =? 0) || (de_first b =? 0xE5).
Definition free_run d ls (i count : Z) : Prop := 0 <= i /\ i + count <= 16 * zlen ls /\ forall p, i <= p < i + count -> free_slot (slot_bytes d ls p) = true.

Definition scanning d root l ls (count p : Z) (st : fat_slots * Z * Z * Z) : Prop :=
  let '(it, run, rl, ro) := st in
  it_at (v := v) root l ls it p /\ cached d it /\ p <= 16 * zlen ls /\ 0 <= run <= p /\ run < count /\
  (0 < run -> rl = slot_lba ls (p - run) /\ ro = slot_off (p - run)) /\
  (forall q, p - run <= q < p -> free_slot (slot_bytes d ls q) = true) /\
  (run < p -> free_slot (slot_bytes d ls (p - run - 1)) = false) /\
  (forall q, 0 <= q -> q + count <= p -> exists r, q <= r < q + count /\ free_slot (slot_bytes d ls r) = false).

Lemma scan_free_spec d root cl l ls count : dir_of d root cl l ls -> 1 <= count ->
  (exists i, scan_free v d root cl count = Some (Some (slot_lba ls i, slot_off i)) /\ free_run d ls i count /\ (0 < i -> free_slot (slot_bytes d ls (i - 1)) = false)) \/
  (scan_free v d root cl count = Some None /\ forall i, ~ free_run d ls i count).
Proof using Hv HL.
  intros Hd Hc. unfold scan_free.
  edestruct (while_indexed (fun j st => exists p, j = 16 * zlen ls - p /\ scanning d root l ls count p st)
    (fun o => match o with Some (lba, off) => exists i, lba = slot_lba ls i /\ off = slot_off i /\ free_run d ls i count /\ (0 < i -> free_slot (slot_bytes d ls (i - 1)) = false) | None => forall i, ~ free_run d ls i count end)) as (o & -> & Ho).
  - intros j [[[it run] rl] ro] (p & -> & Hit & Hca & Hp & Hrun & Hlt & Hplace & Hfree & Hmax & Hno).
    pose proof (slots_next_spec Hv d root cl l ls it p Hd Hit ltac:(lia)) as Hn. eexists. split; [done|].
    destruct (Z.ltb_spec p (16 * zlen ls)).
    + destruct Hn as (de & it' & -> & Hit' & Hca'). destruct (Hca' Hca) as [-> Hca2]. clear Hca'. change (_ || _) with (free_slot (slot_bytes d ls p)).
      destruct (free_slot (slot_bytes d ls p)) eqn:Ef.
      * assert (Hpl : (if run =? 0 then (slot_lba ls p, slot_off p) else (rl, ro)) = (slot_lba ls (p - run), slot_off (p - run))).
        { destruct (Z.eqb_spec run 0) as [->|]; [by rewrite Z.sub_0_r|]. destruct Hplace as [-> ->]; [lia|done]. }
        rewrite Hpl. assert (Hfree' : forall q, p - run <= q < p + 1 -> free_slot (slot_bytes d ls q) = true).
        { intros q Hq. destruct (decide (q = p)) as [->|]; [done|apply Hfree; lia]. }
        destruct (Z.eqb_spec (run + 1) count) as [Ec|].
        -- exists (p - run). split; [done|]. split; [done|]. split; [|intros; apply Hmax; lia]. split; [lia|]. split; [lia|]. intros q Hq. apply Hfree'. lia.
        -- exists (16 * zlen ls - (p + 1)). split; [lia|]. exists (p + 1). split; [done|]. unfold scanning. replace (p + 1 - (run + 1)) with (p - run) by lia.
           repeat (split; [done || lia|]). split; [intros; apply Hmax; lia|]. intros q Hq0 Hq. destruct (Z.le_gt_cases (q + count) p); [by apply Hno|].
           exists (p - run - 1). split; [lia|]. apply Hmax. lia.
      * exists (16 * zlen ls - (p + 1)). split; [lia|]. exists (p + 1). split; [done|]. unfold scanning. repeat (split; [done || lia|]).
        replace (p + 1 - 0 - 1) with p by lia. split; [done|]. intros q Hq0 Hq. destruct (Z.le_gt_cases (q + count) p); [by apply Hno|]. exists p. split; [lia|done].
    + destruct Hn as (it' & ->). intros i (Hi1 & Hi2 & Hi3). destruct (Hno i Hi1 ltac:(lia)) as (r & Hr & Hf). by rewrite Hi3 in Hf.
  - exists 0. split; [done|]. destruct (begin_at Hv d root cl l ls Hd) as [Hit Hca]. repeat (split; [done || lia|]). intros; lia.
  - pose proof (sectors_small Hv d root cl l ls Hd). change (Z.pos turns) with (2 ^ 40). lia.
  - destruct o as [[lba off]|]; [left|by right]. destruct Ho as (i & -> & -> & Hi). by exists i.
Qed.

Lemma locate_slot_spec d root cl l ls i skip : dir_of d root cl l ls -> 0 <= i -> 0 <= skip -> i + skip < 16 * zlen ls ->
  locate_slot v d root cl (slot_lba ls i) (slot_off i) skip = Some (slot_lba ls (i + skip), slot_off (i + skip)).
Proof using Hv HL.
  intros Hd Hi Hs Hfit. unfold locate_slot.
  edestruct (while_indexed (fun j '(it, counting, seen) => exists p, j = 16 * zlen ls - p /\ it_at (v := v) root l ls it p /\ 0 <= p <= i + skip /\
      (if (counting : bool) then p = i + seen /\ 1 <= seen else seen = 0 /\ p <= i))
    (fun o => o = (slot_lba ls (i + skip), slot_off (i + skip)))) as (o & -> & ->); [| | |done].
  - intros j [[it counting] seen] (p & -> & Hit & Hp & Hw).
    pose proof (slots_next_spec Hv d root cl l ls it p Hd Hit ltac:(lia)) as Hn. eexists. split; [done|].
    rewrite (proj2 (Z.ltb_lt _ _)) in Hn by lia. destruct Hn as (de & it' & -> & Hit' & _).
    destruct (negb counting && _) eqn:Eskip.
    + apply andb_true_iff in Eskip as [Ew Eo]. apply negb_true_iff in Ew. subst counting. destruct Hw as [-> Hpi].
      assert (p <> i) by (intros ->; by rewrite !Z.eqb_refl in Eo). exists (16 * zlen ls - (p + 1)). split; [lia|]. exists (p + 1). repeat (split; [done || lia|]). lia.
    + assert (Epi : p = i + seen).
      { destruct counting; [by destruct Hw|]. destruct Hw as [-> Hpi]. cbn [negb andb] in Eskip. apply orb_false_iff in Eskip as [E1 E2].
        apply negb_false_iff, Z.eqb_eq in E1, E2. rewrite Z.add_0_r. apply (same_slot d root cl l ls); done || lia. }
      destruct (Z.eqb_spec seen skip) as [->|]; [by rewrite Epi|]. exists (16 * zlen ls - (p + 1)). split; [lia|]. exists (p + 1). repeat (split; [done || lia|]).
      destruct counting; lia.
  - exists 0. split; [done|]. destruct (begin_at Hv d root cl l ls Hd) as [Hit _]. repeat (split; [done || lia|]). lia.
  - pose proof (sectors_small Hv d root cl l ls Hd). change (Z.pos turns) with (2 ^ 40). lia.
Qed.
End update.
