(* ===== verification/FatLayout.v ===== *)
(** * The slots of a directory as a list of entries

    A directory whose slots are laid out as runs of used slots, free slots between them and never
    used ones at the end stays so: a run stored in free slots is a new entry between the old ones,
    and a run marked as deleted is one entry less. *)

From stdpp Require Import base numbers list option sets.
From S2P Require Import Prelude Loop Bytes Fat FatTable FatFile FatWrite FatTime FatName FatDir FatSlots FatUpdate.

Section layout.
Context `{HE : FatEnv} (Hstack : zlen stack_chars = 260).
Abbreviation acc0 := (Acc false 0 0 0 0 0 stack_chars).
Implicit Types (ss r : list slot) (es : list fat_entry).

Abbreviation sl_bytes s := (s.1.1).
Definition used (s : slot) : Prop := free_slot (sl_bytes s) = false.
Definition deleted (s : slot) : Prop := de_first (sl_bytes s) = 0xE5.
Definition never_used (s : slot) : Prop := de_first (sl_bytes s) = 0.

(** Between two entries. *)
Definition clean (a : lfn_acc) : Prop := have_lfn a = false /\ zlen (chars a) = 260.

(** The slots of a long name. *)
Fixpoint lfn_fold (a : lfn_acc) ss : option lfn_acc :=
  match ss with [] => Some a | s :: ss => match dir_slot a s with inl a => lfn_fold a ss | inr _ => None end end.

(** A short entry. *)
Definition is_short (de : list Z) : Prop :=
  free_slot de = false /\ Z.land (de_attr de) FAT_ATTR_LONG_NAME <> FAT_ATTR_LONG_NAME /\ Z.land (de_attr de) FAT_ATTR_VOLUME_ID = 0.

(** The run [r] reads as entry [e] wherever it is met. *)
Definition whole r (e : fat_entry) : Prop :=
  exists (lfns : list slot) de lba off, r = lfns ++ [(de, lba, off)] /\ Forall used lfns /\ is_short de /\
    (exists b, head r = Some (b, e_run_lba e, e_run_off e)) /\ zlen r = e_run_slots e /\
    forall a, clean a -> exists a', lfn_fold a lfns = Some a' /\ end_run a' de lba off = e.

Inductive layout : list slot -> list fat_entry -> Prop :=
| lay_end ss : Forall never_used ss -> layout ss []
| lay_del s ss es : deleted s -> layout ss es -> layout (s :: ss) es
| lay_skip s ss es : used s -> (forall a, clean a -> exists a', dir_slot a s = inl a' /\ clean a') -> layout ss es -> layout (s :: ss) es
| lay_run r e ss es : whole r e -> layout ss es -> layout (r ++ ss) (e :: es).

Lemma acc0_clean : clean acc0.
Proof using Hstack. done. Qed.

Lemma deleted_free s : deleted s -> ~ used s.
Proof. unfold deleted, used, free_slot. intros ->. done. Qed.
Lemma never_free s : never_used s -> ~ used s.
Proof. unfold never_used, used, free_slot. intros ->. done. Qed.

Lemma dir_slot_short a de lba off : is_short de -> dir_slot a (de, lba, off) = inr (Some (end_run a de lba off)).
Proof.
  intros (Hu & Hl & Hv). apply orb_false_iff in Hu as [H0 H5]. unfold dir_slot. rewrite H0, H5.
  destruct (Z.eqb_spec (Z.land (de_attr de) FAT_ATTR_LONG_NAME) FAT_ATTR_LONG_NAME); [done|]. by rewrite Hv.
Qed.

Lemma dents_fold a lfns ss a' : lfn_fold a lfns = Some a' -> dents a (lfns ++ ss) = dents a' ss.
Proof.
  revert a. induction lfns as [|s lfns IH]; intros a E; [by injection E as ->|]. cbn [lfn_fold app dents] in *.
  destruct (dir_slot a s); [by apply IH|done].
Qed.

Lemma dents_run a r e ss : clean a -> whole r e -> dents a (r ++ ss) = e :: dents acc0 ss.
Proof.
  intros Ha (lfns & de & lba & off & -> & _ & Hs & _ & _ & Hf). destruct (Hf a Ha) as (a' & Ef & <-).
  rewrite <- app_assoc, (dents_fold _ _ _ _ Ef). cbn [app dents]. by rewrite dir_slot_short.
Qed.

(** The entries of a directory are those of its layout. *)
Lemma layout_dents a ss es : layout ss es -> clean a -> dents a ss = es.
Proof using Hstack.
  intros Hl. revert a. induction Hl as [ss Hz|s ss es Hd _ IH|s ss es _ Hs _ IH|r e ss es Hw _ IH]; intros a Ha.
  - destruct Hz as [|s ss Hs _]; [done|]. destruct s as [[de lba] off]. unfold never_used in Hs. cbn [fst] in Hs. cbn [dents dir_slot]. by rewrite Hs.
  - destruct s as [[de lba] off]. unfold deleted in Hd. cbn [fst] in Hd. cbn [dents dir_slot]. rewrite Hd. change (0xE5 =? 0) with false. rewrite Z.eqb_refl. apply IH. by destruct Ha.
  - cbn [dents]. destruct (Hs a Ha) as (a' & -> & Ha'). by apply IH.
  - rewrite (dents_run a r e) by done. f_equal. apply IH, acc0_clean.
Qed.

Lemma whole_used r e : whole r e -> Forall used r /\ r <> [].
Proof. intros (lfns & de & lba & off & -> & Hu & Hs & _). split; [apply Forall_app; split; [done|]; repeat constructor; apply Hs|by destruct lfns]. Qed.

(** ** Removing free slots from the front *)

Lemma layout_free f ss es : layout (f ++ ss) es -> Forall (fun s => ~ used s) f -> layout ss es.
Proof.
  intros Hl Hf. revert Hl. induction Hf as [|s f Hs _ IH]; [done|]. cbn [app]. intros Hl. apply IH. remember (s :: f ++ ss) as ss0 eqn:E. destruct Hl as [ss0 Hz|s' ss' es' _ Hl|s' ss' es' Hu _ _|r e ss' es' Hw Hl]; subst.
  - apply lay_end. by inversion Hz.
  - by injection E as -> ->.
  - by injection E as -> _.
  - destruct (whole_used r e Hw) as [Hu Hn]. destruct r as [|s' r]; [done|]. injection E as -> _. by inversion Hu.
Qed.

Lemma used_prefix r s1 f (ss : list slot) s2 : Forall used r -> Forall (fun s => ~ used s) f -> f <> [] -> r ++ ss = s1 ++ f ++ s2 ->
  exists s1', s1 = r ++ s1' /\ ss = s1' ++ f ++ s2.
Proof.
  intros Hr Hf Hn. revert s1. induction Hr as [|s r Hs _ IH]; intros s1 E; [by exists s1|]. destruct s1 as [|s' s1].
  - destruct f; [done|]. injection E as -> _. by inversion Hf.
  - injection E as -> E. destruct (IH s1 E) as (s1' & -> & ->). by exists s1'.
Qed.

Lemma last_app_used (r s1 : list slot) : (r ++ s1 = [] \/ exists s, last (r ++ s1) = Some s /\ used s) -> s1 = [] \/ exists s, last s1 = Some s /\ used s.
Proof.
  intros H. destruct s1 as [|s s1]; [by left|right]. destruct H as [H|(t & H & Hu)]; [by destruct r|]. rewrite last_app in H. destruct (last (s :: s1)) as [t'|] eqn:E; [exists t; by split|by apply last_None in E].
Qed.

(** A run stored in free slots behind a used one is a new entry. *)
Lemma layout_insert s1 f s2 es : layout (s1 ++ f ++ s2) es -> Forall (fun s => ~ used s) f -> f <> [] -> (s1 = [] \/ exists s, last s1 = Some s /\ used s) ->
  exists es1 es2, es = es1 ++ es2 /\ forall r e, whole r e -> layout (s1 ++ r ++ s2) (es1 ++ e :: es2).
Proof.
  intros Hl Hf Hn. remember (s1 ++ f ++ s2) as ss eqn:E. revert s1 E.
  assert (Hnil : forall ss es, layout ss es -> ss = f ++ s2 -> exists es1 es2, es = es1 ++ es2 /\ forall r e, whole r e -> layout (r ++ s2) (es1 ++ e :: es2)).
  { intros ss' es' Hl' ->. exists [], es'. split; [done|]. intros r e Hw. cbn [app]. apply lay_run; [done|]. by eapply layout_free. }
  induction Hl as [ss Hz|s ss es Hd Hl IH|s ss es Hu Hs Hl IH|r e ss es Hw Hl IH]; intros s1 E Hlast.
  - destruct s1 as [|s s1]; [apply (Hnil ss); [by constructor|done]|]. destruct Hlast as [|(t & Ht & Hu)]; [done|]. exfalso. subst ss.
    apply Forall_app in Hz as [Hz _]. apply (never_free t); [|done]. apply (Forall_forall _ (s :: s1)); [done|]. by apply last_Some_elem_of.
  - destruct s1 as [|s' s1]; [apply (Hnil (s :: ss)); [by constructor|done]|]. injection E as -> ->. change (s' :: s1) with ([s'] ++ s1) in Hlast. apply last_app_used in Hlast.
    destruct (IH s1 eq_refl Hlast) as (es1 & es2 & -> & Hr). exists es1, es2. split; [done|]. intros r e Hw. cbn [app]. apply lay_del; auto.
  - destruct (used_prefix [s] s1 f ss s2 ltac:(by constructor) Hf Hn E) as (s1' & -> & ->). apply last_app_used in Hlast.
    destruct (IH s1' eq_refl Hlast) as (es1 & es2 & -> & Hr). exists es1, es2. split; [done|]. intros r e Hw. cbn [app]. apply lay_skip; auto.
  - destruct (whole_used r e Hw) as [Hu _]. destruct (used_prefix r s1 f ss s2 Hu Hf Hn E) as (s1' & -> & ->). apply last_app_used in Hlast.
    destruct (IH s1' eq_refl Hlast) as (es1 & es2 & -> & Hr). exists (e :: es1), es2. split; [done|]. intros r' e' Hw'. rewrite <- app_assoc. cbn [app]. apply lay_run; auto.
Qed.

(** An entry is the run at its place: marked as deleted it is gone, and another run takes its place. *)
Lemma layout_entry ss es1 e es2 : layout ss (es1 ++ e :: es2) ->
  exists s1 r s2, ss = s1 ++ r ++ s2 /\ whole r e /\
    (forall r', Forall deleted r' -> layout (s1 ++ r' ++ s2) (es1 ++ es2)) /\ (forall r' e', whole r' e' -> layout (s1 ++ r' ++ s2) (es1 ++ e' :: es2)).
Proof.
  intros Hl. remember (es1 ++ e :: es2) as es eqn:E. revert es1 E. induction Hl as [ss Hz|s ss es Hd Hl IH|s ss es Hu Hs Hl IH|r e' ss es Hw Hl IH]; intros es1 E.
  - by destruct es1.
  - destruct (IH es1 E) as (s1 & r & s2 & -> & Hw & H1 & H2). exists (s :: s1), r, s2. split; [done|]. split; [done|]. split; intros; cbn [app]; apply lay_del; auto.
  - destruct (IH es1 E) as (s1 & r & s2 & -> & Hw & H1 & H2). exists (s :: s1), r, s2. split; [done|]. split; [done|]. split; intros; cbn [app]; apply lay_skip; auto.
  - destruct es1 as [|e1 es1]; injection E as -> ->.
    + exists [], r, ss. split; [done|]. split; [done|]. split; [|intros; cbn [app]; by apply lay_run]. intros r' Hr. cbn [app]. induction Hr; [done|]. by apply lay_del.
    + destruct (IH es1 eq_refl) as (s1 & r' & s2 & -> & Hw' & H1 & H2). exists (r ++ s1), r', s2. rewrite <- !app_assoc. split; [done|]. split; [done|].
      split; intros; rewrite <- app_assoc; cbn [app]; apply lay_run; auto.
Qed.

(** New slots at the end. *)
Lemma layout_grow ss es z : layout ss es -> Forall never_used z -> layout (ss ++ z) es.
Proof.
  intros Hl Hz. induction Hl as [ss Hs|s ss es Hd Hl IH|s ss es Hu Hs Hl IH|r e ss es Hw Hl IH].
  - apply lay_end. by apply Forall_app.
  - by apply lay_del.
  - by apply lay_skip.
  - rewrite <- app_assoc. by apply lay_run.
Qed.
End layout.
