(* ===== verification/FatRun.v ===== *)
(** * The run of a new entry

    The slots that [fat_create_named] makes read back as one entry with the name that was asked
    for, wherever they are stored. *)

From stdpp Require Import base numbers list option sets.
From S2P Require Import Prelude Loop Bytes Fat FatTable FatFile FatWrite FatTime FatName FatDir FatSlots FatUpdate FatLayout.

(** ** A long name in its slots *)

(** Unit [idx] of a stored name: the name, its terminator, the filler. *)
Definition unit_at (u : list Z) (idx : Z) : Z := if idx <? zlen u then zget 0 u idx else if idx =? zlen u then 0 else 0xFFFF.

Lemma zget_fmap_seqZ (f : Z -> Z) a n t : 0 <= t < n -> zget 0 (f <$> seqZ a n) t = f (a + t).
Proof.
  intros Ht. apply zget_lookup; [lia|]. rewrite list_lookup_fmap. rewrite (proj2 (lookup_seqZ a n (Z.to_nat t) (a + t))) by lia. done.
Qed.

Lemma chars_at_get u o t : 0 <= t < 13 -> zget 0 (lfn_chars_at u o) t = unit_at u ((o - 1) * LFN_CHARS + t).
Proof. intros Ht. unfold lfn_chars_at. by rewrite zget_fmap_seqZ. Qed.

Lemma chars_at_length u o : length (lfn_chars_at u o) = 13%nat.
Proof. done. Qed.

Lemma chars_at_range u o : Forall (fun x => 0 <= x < W16) u -> Forall (fun x => 0 <= x < W16) (lfn_chars_at u o).
Proof.
  intros Hu. unfold lfn_chars_at. apply Forall_fmap, Forall_forall. intros k _. cbn. zcases; try lia. by apply (zget_Forall (fun x => 0 <= x < W16)).
Qed.

(** The ordinal byte of slot [o]. *)
Lemma order_ok (o : Z) (last : bool) : 1 <= o <= LFN_MAX_SLOTS ->
  let x := u8 (Z.lor o (if last then LFN_LAST else 0)) in
  (x =? 0) = false /\ (x =? 0xE5) = false /\ Z.land x 0x1F = o /\ ctrue (Z.land x LFN_LAST) = last.
Proof.
  intros Ho x. pose (P := fun (last : bool) (o : Z) => let x := u8 (Z.lor o (if last then LFN_LAST else 0)) in
    negb (x =? 0) && negb (x =? 0xE5) && (Z.land x 0x1F =? o) && eqb (ctrue (Z.land x LFN_LAST)) last).
  assert (H : P last o = true).
  { assert (Hall : forall b, forallb (P b) (seqZ 1 20) = true) by (intros []; vm_compute; done).
    apply (proj1 (forallb_forall _ _) (Hall last)). apply list_elem_of_In, elem_of_seqZ. lia. }
  unfold P in H. fold x in H. rewrite !andb_true_iff, !negb_true_iff, Z.eqb_eq in H. destruct H as [[[? ?] ?] He]. apply eqb_prop in He. done.
Qed.

Lemma lfn_slot_step u sum a o (last : bool) lba off : is_byte sum -> Forall (fun x => 0 <= x < W16) u -> 1 <= o <= LFN_MAX_SLOTS -> have_lfn a = negb last -> (last = false -> want_sum a = sum) ->
  dir_slot a (lfn_slot (Z.lor o (if last then LFN_LAST else 0)) sum (lfn_chars_at u o), lba, off) =
  inl (Acc true (if last then 1 else slots_seen a + 1) (if last then o else highest a) sum (if last then lba else run_lba a) (if last then off else run_off a)
           (splice (chars a) ((o - 1) * LFN_CHARS) (lfn_chars_at u o))).
Proof.
  intros Hs Hu Ho Hh Hw. destruct (lfn_slot_spec (Z.lor o (if last then LFN_LAST else 0)) sum (lfn_chars_at u o) Hs (chars_at_length u o) (chars_at_range u o Hu))
    as (_ & _ & H0 & H11 & H13 & Hch). destruct (order_ok o last Ho) as (E0 & E5 & El & Et).
  unfold dir_slot. rewrite H0, H11, H13, Hch, E0, E5, El, Et, Hh. rewrite Z.land_diag, Z.eqb_refl.
  rewrite (proj2 (Z.ltb_ge o 1)), (proj2 (Z.ltb_ge LFN_MAX_SLOTS o)) by lia. cbn [orb]. destruct last; cbn [negb].
  - done.
  - rewrite (Hw eq_refl), Z.eqb_refl. cbn [negb]. by destruct a as [[] ? ? ? ? ? ?]; cbn in *; subst.
Qed.

Lemma lfn_slot_used u sum o (last : bool) lba off : is_byte sum -> Forall (fun x => 0 <= x < W16) u -> 1 <= o <= LFN_MAX_SLOTS ->
  used (lfn_slot (Z.lor o (if last then LFN_LAST else 0)) sum (lfn_chars_at u o), lba, off).
Proof.
  intros Hs Hu Ho. destruct (lfn_slot_spec (Z.lor o (if last then LFN_LAST else 0)) sum (lfn_chars_at u o) Hs (chars_at_length u o) (chars_at_range u o Hu))
    as (_ & _ & H0 & _). destruct (order_ok o last Ho) as (E0 & E5 & _). unfold used, free_slot. cbn [fst]. by rewrite H0, E0, E5.
Qed.

(** The characters from slot [m] down are in place. *)
Definition filled (u : list Z) (m : Z) (old new : list Z) : Prop :=
  length new = length old /\ forall idx, 0 <= idx < zlen old -> zget 0 new idx = if idx <? 13 * m then unit_at u idx else zget 0 old idx.

Lemma filled_step u m old new : 1 <= m <= LFN_MAX_SLOTS -> zlen old = 260 -> filled u (m - 1) (splice old ((m - 1) * LFN_CHARS) (lfn_chars_at u m)) new -> filled u m old new.
Proof.
  intros Hm Hl [Hlen Hg]. rewrite splice_length in Hlen by (rewrite ?chars_at_length; lia). split; [done|]. intros idx Hi.
  rewrite Hg by (rewrite splice_length; rewrite ?chars_at_length; lia). rewrite zget_splice by (rewrite ?chars_at_length; lia). rewrite chars_at_length.
  destruct (Z.ltb_spec idx (13 * (m - 1))), (Z.ltb_spec idx (13 * m)); try done; try lia.
  - rewrite (proj2 (Z.leb_le _ _)), (proj2 (Z.ltb_lt _ _)) by lia. cbn [andb]. rewrite chars_at_get by lia. f_equal. lia.
  - rewrite (proj2 (Z.ltb_ge idx _)), andb_false_r by lia. done.
Qed.

(** The slots behind the first one. *)
Lemma lfn_rest u sum k (m : nat) i a ss : is_byte sum -> Forall (fun x => 0 <= x < W16) u -> k <= LFN_MAX_SLOTS -> i + Z.of_nat m = k -> 1 <= i ->
  have_lfn a = true -> want_sum a = sum -> zlen (chars a) = 260 ->
  fst ∘ fst <$> ss = ((fun i => lfn_slot (Z.lor (k - i) (if i =? 0 then LFN_LAST else 0)) sum (lfn_chars_at u (k - i))) <$> seqZ i (Z.of_nat m)) ->
  exists ch, lfn_fold a ss = Some (Acc true (slots_seen a + Z.of_nat m) (highest a) sum (run_lba a) (run_off a) ch) /\ filled u (Z.of_nat m) (chars a) ch /\ Forall used ss.
Proof.
  intros Hs Hu Hk. revert i a ss. induction m as [|m IH]; intros i a ss Him Hi Hh Hw Hc Hss.
  - apply fmap_nil_inv in Hss as ->. exists (chars a). split; [destruct a; cbn in *; subst; do 2 f_equal; lia|]. split; [|done]. split; [done|]. intros idx Hidx.
    by rewrite (proj2 (Z.ltb_ge idx _)) by lia.
  - rewrite seqZ_cons in Hss by lia. destruct ss as [|[[de lba] off] ss]; [done|]. rewrite !fmap_cons in Hss. injection Hss as -> Hss.
    rewrite (proj2 (Z.eqb_neq i 0)) by lia. cbn [lfn_fold].
    pose proof (lfn_slot_step u sum a (k - i) false lba off Hs Hu ltac:(lia) Hh ltac:(done)) as E. cbn iota in E. rewrite E. clear E.
    replace (Z.pred (Z.of_nat (S m))) with (Z.of_nat m) in Hss by lia.
    destruct (IH (Z.succ i) (Acc true (slots_seen a + 1) (highest a) sum (run_lba a) (run_off a) (splice (chars a) ((k - i - 1) * LFN_CHARS) (lfn_chars_at u (k - i)))) ss)
      as (ch & E & Hf & Hus); [lia|lia|done|done|cbn; rewrite splice_length; rewrite ?chars_at_length; lia|done|].
    exists ch. cbn [slots_seen highest run_lba run_off chars] in E, Hf. split; [rewrite E; do 2 f_equal; lia|]. split.
    + replace (k - i) with (Z.of_nat (S m)) in Hf by lia. apply filled_step; [lia|done|]. by replace (Z.of_nat (S m) - 1) with (Z.of_nat m) in * by lia.
    + constructor; [|done]. by apply (lfn_slot_used u sum (k - i) false); [..|lia].
Qed.

(** The whole name. *)
Lemma lfn_all u sum k a ss : is_byte sum -> Forall (fun x => 0 <= x < W16) u -> 1 <= k <= LFN_MAX_SLOTS -> clean a ->
  fst ∘ fst <$> ss = lfn_run u k sum ->
  exists ch s0 rest, ss = s0 :: rest /\ lfn_fold a ss = Some (Acc true k k sum s0.1.2 s0.2 ch) /\ filled u k (chars a) ch /\ Forall used ss.
Proof.
  intros Hs Hu Hk [Hh Hc] Hss. unfold lfn_run in Hss. rewrite seqZ_cons in Hss by lia. destruct ss as [|[[de lba] off] ss]; [done|]. rewrite !fmap_cons in Hss. injection Hss as -> Hss.
  rewrite ?Z.eqb_refl, ?Z.sub_0_r. pose proof (lfn_slot_step u sum a k true lba off Hs Hu ltac:(lia) Hh ltac:(done)) as E. cbn iota in E.
  replace (Z.pred k) with (Z.of_nat (Z.to_nat (k - 1))) in Hss by lia.
  destruct (lfn_rest u sum k (Z.to_nat (k - 1)) (Z.succ 0) (Acc true 1 k sum lba off (splice (chars a) ((k - 1) * LFN_CHARS) (lfn_chars_at u k))) ss)
    as (ch & Ef & Hf & Hus); [done|done|lia|lia|lia|done|done|cbn; rewrite splice_length; rewrite ?chars_at_length; lia|done|].
  exists ch, (lfn_slot (Z.lor k LFN_LAST) sum (lfn_chars_at u k), lba, off), ss. split; [done|]. split; [|split].
  - cbn [lfn_fold]. rewrite E, Ef. cbn. do 2 f_equal. lia.
  - apply filled_step; [lia|done|]. by replace (k - 1) with (Z.of_nat (Z.to_nat (k - 1))) at 1 by lia.
  - constructor; [|done]. by apply (lfn_slot_used u sum k true); [..|lia].
Qed.

Lemma filled_units u k old new : zlen old = 260 -> filled u k old new -> zlen u <= 13 * k -> 1 <= k <= LFN_MAX_SLOTS ->
  exists tail, take (Z.to_nat (k * LFN_CHARS)) new = u ++ tail /\ (tail = [] \/ zget 0 tail 0 = 0).
Proof.
  intros Hl [Hlen Hg] Hu Hk. exists (slice new (zlen u) (k * 13 - zlen u)). split.
  - apply zget_ext; [unfold slice; rewrite length_app, !length_take, length_drop; lia|]. intros i Hi. rewrite length_take in Hi.
    rewrite zget_take, Hg by lia. rewrite (proj2 (Z.ltb_lt i _)) by lia. rewrite zget_app by lia. unfold unit_at.
    destruct (Z.ltb_spec i (zlen u)); [done|]. rewrite zget_slice by lia. replace (zlen u + (i - zlen u)) with i by lia. rewrite Hg by lia.
    rewrite (proj2 (Z.ltb_lt i _)) by lia. unfold unit_at. by rewrite (proj2 (Z.ltb_ge i (zlen u))) by lia.
  - destruct (decide (zlen u = 13 * k)); [left; replace (k * 13 - zlen u) with 0 by lia; apply slice_0|right].
    rewrite zget_slice by lia. rewrite Z.add_0_r, Hg by lia. rewrite (proj2 (Z.ltb_lt _ _)) by lia. unfold unit_at. by rewrite Z.ltb_irrefl, Z.eqb_refl.
Qed.

(** What the conversion yields. *)
Lemma utf8_loop_units fuel p out cap u : utf8_loop fuel p out cap = inr u -> Forall (fun x => 0 <= x < W16) out ->
  Forall (fun x => 0 <= x < W16) u /\ zlen out <= zlen u /\ (fuel <> 0%nat -> p <> [] -> zlen out < zlen u).
Proof.
  revert p out. induction fuel as [|fuel IH]; intros p out E Ho; [injection E as <-; split; [done|]; split; [lia|done]|].
  destruct p as [|b p]; [injection E as <-; split; [done|]; split; [lia|done]|].
  cbn [utf8_loop] in E. destruct (utf8_lead b) as [[bits len]|]; [|done]. destruct (utf8_rest _ _ _) as [cp|]; [|done].
  destruct (_ || _); [done|]. destruct (Z.ltb_spec cap (zlen out + zlen (cp_units cp))); [done|].
  assert (Hc : Forall (fun x => 0 <= x < W16) (cp_units cp) /\ 1 <= zlen (cp_units cp)).
  { unfold cp_units. destruct (_ <=? _); split; try (cbn; lia); repeat constructor; apply Z.mod_pos_bound; lia. }
  apply IH in E as (Hu & Hl & _); [|apply Forall_app; tauto]. rewrite length_app in Hl. split; [done|]. lia.
Qed.

(** ** The short entry *)

Section dirent.
Context `{HE : FatEnv} (Hclock : fat_now_epoch < 86400 * 2 ^ 39).
Implicit Types (v : fat_volume).

Lemma datetime_total : exists date time, fat_epoch_to_datetime fat_now_epoch = Some (date, time).
Proof using Hclock.
  unfold fat_epoch_to_datetime. destruct (Z.leb_spec fat_now_epoch 0); [by eexists _, _|].
  destruct (year_of_spec (fat_now_epoch / 86400)) as (r & y & -> & _); [change (Z.pos turns) with (2 ^ 40); dlia|]. rewrite some_bind.
  destruct (month_of (mlen y) r 1) as [days month]. destruct (y <? 1980); by eexists _, _.
Qed.

Record dirent_is v (fat_name : list Z) (attr c size : Z) (de : list Z) : Prop := {
  di_len : length de = 32%nat;
  di_bytes : Forall is_byte de;
  di_name : take 11 de = fat_name;
  di_attr : de_attr de = attr;
  di_nt : de_nt_reserved de = 0;
  di_cluster : dirent_cluster v de = c;
  di_size : de_size de = u32 size;
}.

Lemma write_dirent_spec v fat_name attr c size : length fat_name = 11%nat -> Forall is_byte fat_name -> is_byte attr -> 0 <= c < (if is_32 v then W32 else W16) ->
  exists de, write_dirent v fat_name attr c size = Some de /\ dirent_is v fat_name attr c size de.
Proof using Hclock.
  intros Hl Hb Ha Hc. destruct datetime_total as (date & time & E). unfold write_dirent. rewrite E, some_bind. cbv beta iota. eexists. split; [done|].
  match goal with |- dirent_is _ _ _ _ _ ?de => assert (Hby : Forall is_byte de) end.
  { unfold dirent_set_cluster. repeat apply st16_bytes. repeat (apply Forall_app; split); try apply le_bytes_bytes; try by apply Forall_take.
    all: repeat (apply Forall_cons_2; [done|]); apply Forall_nil_2. }
  do 11 (destruct fat_name as [|? fat_name]; [done|]). destruct fat_name; [|done]. clear Hl E.
  assert (Hcl : (if is_32 v then Z.lor (Z.shiftl (u16 (u16 (Z.shiftr c 16))) 16) (u16 (u16 (Z.land c 0xFFFF))) else u16 (u16 (Z.land c 0xFFFF))) = c).
  { rewrite (land_mask 0xFFFF 16) by done. destruct (is_32 v).
    - rewrite Z.shiftr_div_pow2 by lia. rewrite !(u16_small (c mod 2 ^ 16)), !(u16_small (c / 2 ^ 16)) by dlia. rewrite lor_pack by dlia. dlia.
    - rewrite !(u16_small (c mod 2 ^ 16)) by dlia. dlia. }
  split.
  - done.
  - exact Hby.
  - done.
  - done.
  - done.
  - rewrite <- Hcl at 2. unfold dirent_cluster, dirent_set_cluster.
    set (de := _ ++ _). assert (Hde : zlen de = 32) by done. clearbody de.
    rewrite !ld16_st16 by (rewrite ?st16_length; lia).
    assert (E26 : forall x y, ld16 (st16 (st16 de 26 x) 20 y) 26 = u16 x) by (intros x y; unfold ld16 at 1; rewrite slice_st16 by (rewrite ?st16_length; lia); apply ld16_st16; lia).
    rewrite E26. destruct (is_32 v); done.
  - unfold dirent_set_cluster, ld32. rewrite !slice_st16 by (rewrite ?st16_length; done || (cbn; lia)).
    change (slice _ 28 4) with (le_bytes 4 size). apply le_val_bytes.
Qed.
End dirent.

(** ** The slots where they are stored *)

Definition placed (ls : list Z) (i : Z) (src : list (list Z)) : list slot := zip_with (fun b p => (b, slot_lba ls p, slot_off p)) src (seqZ i (zlen src)).

Lemma placed_length ls i src : length (placed ls i src) = length src.
Proof. unfold placed. rewrite length_zip_with, length_seqZ. lia. Qed.

Lemma placed_lookup ls i src k : placed ls i src !! k = (fun b => (b, slot_lba ls (i + Z.of_nat k), slot_off (i + Z.of_nat k))) <$> src !! k.
Proof.
  unfold placed. rewrite lookup_zip_with. destruct (src !! k) as [b|] eqn:E; [|done]. apply lookup_lt_Some in E. cbn.
  by rewrite (proj2 (lookup_seqZ i (zlen src) k (i + Z.of_nat k))) by lia.
Qed.

Lemma placed_bytes ls i src : fst ∘ fst <$> placed ls i src = src.
Proof. apply list_eq. intros k. rewrite list_lookup_fmap, placed_lookup. by destruct (src !! k). Qed.

Lemma placed_app ls i a b : placed ls i (a ++ b) = placed ls i a ++ placed ls (i + zlen a) b.
Proof.
  apply list_eq. intros k. rewrite placed_lookup. destruct (decide (k < length a)%nat).
  - rewrite !lookup_app_l by (rewrite ?placed_length; lia). by rewrite placed_lookup.
  - rewrite !lookup_app_r by (rewrite ?placed_length; lia). rewrite placed_lookup, placed_length. by replace (i + zlen a + Z.of_nat (k - length a)) with (i + Z.of_nat k) by lia.
Qed.

Lemma checksum_byte de : is_byte (lfn_checksum de).
Proof.
  unfold lfn_checksum. assert (H : forall l s, is_byte s -> is_byte (foldl (fun sum c => u8 (Z.shiftl (Z.land sum 1) 7 + Z.shiftr sum 1 + c)) s l)).
  { induction l as [|c l IH]; intros s Hs; [done|]. apply IH. apply Z.mod_pos_bound. lia. }
  by apply H.
Qed.

Lemma checksum_take de short : take 11 de = short -> lfn_checksum de = lfn_checksum short.
Proof. intros <-. unfold lfn_checksum. by rewrite take_take. Qed.

Lemma from_fat_name_take de short nt : (11 <= length de)%nat -> take 11 de = short -> from_fat_name de nt = from_fat_name short nt.
Proof. intros Hl <-. do 11 (destruct de as [|? de]; [cbn in Hl; lia|]). done. Qed.

(** What [fat_create_named] has checked of the name before it looks for room, and the short name it uses. *)
Record name_ok (name u short : list Z) : Prop := {
  nm_len : 1 <= zlen name <= VFS_NAME_MAX - 1;
  nm_bytes : Forall is_byte name;
  nm_nul : 0 ∉ name;
  nm_units : utf8_to_utf16 name (LFN_MAX_SLOTS * LFN_CHARS) = inr u;
  nm_ulen : zlen u <= 255;
  nm_ffff : 0xFFFF ∉ u;
  nm_dot : fits_83 name = true -> forall b, name <> b ++ [DOT];
  nm_short : fits_83 name = true -> short = to_fat_name name;
  nm_slen : length short = 11%nat;
  nm_sbytes : Forall is_byte short;
  nm_first : free_slot short = false;
}.
Definition lfn_count (name u : list Z) : Z := if negb (fits_83 name) then (zlen u + LFN_CHARS - 1) / LFN_CHARS else 0.

Lemma lfn_count_range name u short : name_ok name u short -> 0 <= lfn_count name u <= LFN_MAX_SLOTS /\ (fits_83 name = false -> 1 <= lfn_count name u /\ zlen u <= 13 * lfn_count name u).
Proof.
  intros Hn. assert (1 <= zlen u).
  { destruct (utf8_loop_units (length name) name [] (LFN_MAX_SLOTS * LFN_CHARS) u (nm_units _ _ _ Hn)) as (_ & _ & Hl); [constructor|]. pose proof (nm_len _ _ _ Hn).
    cbn [length] in Hl. enough (0 < zlen u) by lia. apply Hl; [lia|]. intros E. rewrite E in *. cbn in *. lia. }
  pose proof (nm_ulen _ _ _ Hn). unfold lfn_count. destruct (fits_83 name); cbn [negb]; [split; [lia|done]|]. dlia.
Qed.

Definition attr_ok (attr : Z) : Prop := is_byte attr /\ Z.land attr FAT_ATTR_LONG_NAME <> FAT_ATTR_LONG_NAME /\ Z.land attr FAT_ATTR_VOLUME_ID = 0.

Lemma dirent_short v short attr c size de : dirent_is v short attr c size de -> free_slot short = false -> length short = 11%nat -> attr_ok attr -> is_short de.
Proof.
  intros Hd Hf Hl (_ & H1 & H2). split; [|rewrite (di_attr _ _ _ _ _ _ Hd); done]. rewrite <- Hf. pose proof (di_name _ _ _ _ _ _ Hd) as <-. unfold free_slot.
  change 11%nat with (Z.to_nat 11). by rewrite !zget_take by lia.
Qed.

(** The entry that is created. *)
Definition new_entry name de ls i k : fat_entry := Entry name de (slot_lba ls (i + k)) (slot_off (i + k)) (slot_lba ls i) (slot_off i) (k + 1).

Lemma new_run_whole v name u short attr c size de ls i : name_ok name u short -> dirent_is v short attr c size de -> attr_ok attr ->
  whole (placed ls i (lfn_run u (lfn_count name u) (lfn_checksum short) ++ [de])) (new_entry name de ls i (lfn_count name u)).
Proof.
  intros Hn Hd Ha. pose proof (lfn_count_range _ _ _ Hn) as [Hk Hk2]. set (k := lfn_count name u) in *.
  assert (Hrl : zlen (lfn_run u k (lfn_checksum short)) = k) by (unfold lfn_run; rewrite length_fmap, length_seqZ; lia).
  assert (Hu : Forall (fun x => 0 <= x < W16) u) by (apply (utf8_loop_units _ _ _ _ _ (nm_units _ _ _ Hn)); constructor).
  exists (placed ls i (lfn_run u k (lfn_checksum short))), de, (slot_lba ls (i + k)), (slot_off (i + k)).
  split; [rewrite placed_app, Hrl; done|].
  split; [|split; [by eapply dirent_short; [..|apply Hn|apply Hn|]|split; [|split]]].
  - destruct (fits_83 name) eqn:Ef.
    + subst k. unfold lfn_count. rewrite Ef. constructor.
    + destruct (lfn_all u (lfn_checksum short) k (Acc false 0 0 0 0 0 (replicate 260 0)) (placed ls i (lfn_run u k (lfn_checksum short)))) as (_ & _ & _ & _ & _ & _ & H);
        [apply checksum_byte|done|lia|done|apply placed_bytes|done].
  - rewrite head_lookup, placed_lookup. destruct (lfn_run u k (lfn_checksum short) ++ [de]) as [|b src] eqn:E; [by destruct (lfn_run u k (lfn_checksum short))|].
    cbn. rewrite Z.add_0_r. by exists b.
  - rewrite placed_length, length_app. cbn. lia.
  - intros a Hcl. destruct (fits_83 name) eqn:Ef.
    + exists a. subst k. unfold lfn_count, new_entry. rewrite Ef. cbn [negb]. split; [done|]. rewrite Z.add_0_r. unfold end_run. destruct Hcl as [-> _]. cbn [andb]. f_equal.
      rewrite (di_nt _ _ _ _ _ _ Hd). rewrite (from_fat_name_take de short) by (rewrite ?(di_len _ _ _ _ _ _ Hd); lia || apply Hd).
      rewrite (nm_short _ _ _ Hn Ef). apply short_roundtrip; [apply Hn|done|by apply Hn].
    + destruct (Hk2 eq_refl) as [Hk3 Hk4].
      destruct (lfn_all u (lfn_checksum short) k a (placed ls i (lfn_run u k (lfn_checksum short)))) as (ch & s0 & rest & Es & E & Hfill & _);
        [apply checksum_byte|done|lia|done|apply placed_bytes|]. exists (Acc true k k (lfn_checksum short) s0.1.2 s0.2 ch). split; [done|].
      unfold end_run. cbn [have_lfn slots_seen highest want_sum run_lba run_off chars]. rewrite (checksum_take de short) by apply Hd. rewrite !Z.eqb_refl. cbn [andb].
      destruct (filled_units u k (chars a) ch) as (tail & -> & Ht); [by destruct Hcl|done|lia|lia|].
      rewrite (utf_roundtrip name (LFN_MAX_SLOTS * LFN_CHARS) u tail VFS_NAME_MAX) by (done || apply Hn || (pose proof (nm_len _ _ _ Hn); lia)).
      assert (Hs0 : placed ls i (lfn_run u k (lfn_checksum short)) !! 0%nat = Some s0) by (by rewrite Es). rewrite placed_lookup in Hs0.
      destruct (lfn_run u k (lfn_checksum short)) as [|b0 bs]; [cbn in Hrl; lia|]. cbn in Hs0. injection Hs0 as <-. cbn. by rewrite Z.add_0_r.
Qed.
