(* ===== verification/FatCreate.v ===== *)
(** * Creating and removing directory entries: proofs

    [fat_create_named] adds one entry with the name that was asked for, [fat_erase_run] removes
    one; the other entries, the other files and the other directories stay as they are. *)

From stdpp Require Import base numbers list option sets.
From S2P Require Import Prelude Loop Bytes Fat FatTable FatFile FatWrite FatTime FatName FatDir FatSlots FatUpdate FatLayout FatRun.

Section create.
Context {D : Type} `{HB : BlockStore D} {n ncl : Z} {HL : BlockLaws D n}.
Context {v : fat_volume} (Hv : vol_ok n ncl v).
Implicit Types (d : D) (l ls : list Z) (es : list fat_entry).
Abbreviation dir_of := (dir_of (ncl := ncl) (v := v)).
Abbreviation spc := (sectors_per_cluster v).

(** ** Slots as lists *)

Lemma all_slots_lookup d ls k : all_slots d ls !! k = if decide (Z.of_nat k < 16 * zlen ls) then Some (full_slot d ls (Z.of_nat k)) else None.
Proof.
  unfold all_slots. rewrite list_lookup_fmap. destruct (decide (Z.of_nat k < 16 * zlen ls)).
  - by rewrite (proj2 (lookup_seqZ 0 (16 * zlen ls) k (Z.of_nat k))) by lia.
  - rewrite lookup_seqZ_ge by lia. done.
Qed.

Lemma slots_set_all d d' ls i src : slots_set (n := n) d d' ls i src -> 0 <= i -> i + zlen src <= 16 * zlen ls ->
  all_slots d' ls = take (Z.to_nat i) (all_slots d ls) ++ placed ls i src ++ drop (Z.to_nat (i + zlen src)) (all_slots d ls).
Proof.
  intros Hs Hi Hn. pose proof (all_slots_length d ls) as Hal. apply list_eq. intros k. rewrite all_slots_lookup.
  assert (Hlt : length (take (Z.to_nat i) (all_slots d ls)) = Z.to_nat i) by (rewrite length_take; lia).
  destruct (decide (Z.of_nat k < i)) as [H1|H1]; [|destruct (decide (Z.of_nat k < i + zlen src)) as [H2|H2]].
  - rewrite lookup_app_l, lookup_take_lt, all_slots_lookup by lia. rewrite !decide_True by lia. unfold full_slot. rewrite (ss_slots _ _ _ _ _ Hs) by lia.
    by rewrite (proj2 (Z.leb_gt i _)) by lia.
  - rewrite lookup_app_r, lookup_app_l, Hlt, placed_lookup by (rewrite ?placed_length; lia). rewrite decide_True by lia. unfold full_slot. rewrite (ss_slots _ _ _ _ _ Hs) by lia.
    rewrite (proj2 (Z.leb_le i _)), (proj2 (Z.ltb_lt _ _)) by lia. cbn [andb]. replace (i + Z.of_nat (k - Z.to_nat i)) with (Z.of_nat k) by lia.
    replace (Z.to_nat (Z.of_nat k - i)) with (k - Z.to_nat i)%nat by lia. destruct (nth_lookup_or_length src (k - Z.to_nat i) []) as [->|]; [done|lia].
  - rewrite lookup_app_r, lookup_app_r, Hlt, placed_length, lookup_drop, all_slots_lookup by (rewrite ?placed_length; lia).
    replace (Z.to_nat (i + zlen src) + (k - Z.to_nat i - length src))%nat with k by lia. destruct (decide _); [|done]. unfold full_slot. rewrite (ss_slots _ _ _ _ _ Hs) by lia.
    by rewrite (proj2 (Z.ltb_ge _ (i + zlen src))), andb_false_r by lia.
Qed.

Lemma all_slots_split d ls i c : 0 <= i -> 0 <= c -> i + c <= 16 * zlen ls ->
  all_slots d ls = take (Z.to_nat i) (all_slots d ls) ++ take (Z.to_nat c) (drop (Z.to_nat i) (all_slots d ls)) ++ drop (Z.to_nat (i + c)) (all_slots d ls).
Proof.
  intros. replace (Z.to_nat (i + c)) with (Z.to_nat i + Z.to_nat c)%nat by lia. rewrite <- drop_drop, take_drop, take_drop. done.
Qed.

(** A run in free slots behind a used one. *)
Lemma dir_insert d d' ls es i src e : layout (all_slots d ls) es -> free_run d ls i (zlen src) -> (0 < i -> free_slot (slot_bytes d ls (i - 1)) = false) -> 1 <= zlen src ->
  slots_set (n := n) d d' ls i src -> whole (placed ls i src) e -> exists es1 es2, es = es1 ++ es2 /\ layout (all_slots d' ls) (es1 ++ e :: es2).
Proof.
  intros Hl (Hi & Hn & Hfree) Hb Hc Hs Hw. rewrite (slots_set_all d d' ls i src) by done. rewrite (all_slots_split d ls i (zlen src)) in Hl by lia.
  pose proof (all_slots_length d ls) as Hal. apply layout_insert in Hl as (es1 & es2 & -> & Hr).
  - exists es1, es2. split; [done|]. by apply Hr.
  - apply Forall_lookup. intros k s Hk. apply lookup_take_Some in Hk as [Hk Hlt]. rewrite lookup_drop, all_slots_lookup in Hk. destruct (decide _); [|done]. injection Hk as <-.
    unfold used. cbn [full_slot fst]. by rewrite Hfree by lia.
  - intros E. apply (f_equal length) in E. rewrite length_take, length_drop in E. cbn in E. lia.
  - destruct (decide (i = 0)) as [->|]; [left; done|right]. exists (full_slot d ls (i - 1)). split.
    + rewrite last_lookup, length_take. replace (pred _) with (Z.to_nat (i - 1)) by lia. rewrite lookup_take_lt, all_slots_lookup by lia.
      rewrite decide_True by lia. do 2 f_equal. lia.
    + apply Hb. lia.
Qed.

(** The run of an entry. *)
Lemma dir_run d ls es1 e es2 : layout (all_slots d ls) (es1 ++ e :: es2) ->
  exists i, 0 <= i /\ i + e_run_slots e <= 16 * zlen ls /\ 1 <= e_run_slots e /\ e_run_lba e = slot_lba ls i /\ e_run_off e = slot_off i /\
    forall d', slots_set (n := n) d d' ls i ((fun p => marked (slot_bytes d ls p)) <$> seqZ i (e_run_slots e)) -> layout (all_slots d' ls) (es1 ++ es2).
Proof using HL.
  intros Hl. apply layout_entry in Hl as (s1 & r & s2 & E & Hw & Hdel & _). pose proof (all_slots_length d ls) as Hal. rewrite E, !length_app in Hal.
  pose proof (whole_used r e Hw) as [_ Hne]. destruct Hw as (lfns & de & lba & off & _ & _ & _ & (b & Hb) & Hz & _).
  assert (Hlen : (1 <= length r)%nat) by (destruct r; [done|cbn; lia]).
  exists (zlen s1). split; [lia|]. split; [lia|]. split; [lia|].
  assert (Hh : all_slots d ls !! length s1 = Some (b, e_run_lba e, e_run_off e)).
  { rewrite E, lookup_app_r by done. rewrite Nat.sub_diag, lookup_app_l by exact Hlen. by rewrite <- head_lookup. }
  rewrite all_slots_lookup in Hh. rewrite decide_True in Hh by lia. injection Hh as <- El Eo. do 2 (split; [done|]). intros d' Hs.
  assert (Hsl : zlen ((fun p => marked (slot_bytes d ls p)) <$> seqZ (zlen s1) (e_run_slots e)) = e_run_slots e) by (rewrite length_fmap, length_seqZ; lia).
  rewrite (slots_set_all d d' ls (zlen s1) _ Hs) by lia. rewrite Hsl, E, Nat2Z.id, take_app_length. replace (Z.to_nat (zlen s1 + e_run_slots e)) with (length s1 + length r)%nat by lia.
  rewrite <- drop_drop, drop_app_length, drop_app_length. apply Hdel. apply Forall_lookup. intros k s Hk. rewrite placed_lookup, list_lookup_fmap in Hk.
  destruct (seqZ _ _ !! k) as [p|]; [|done]. injection Hk as <-. unfold deleted, marked. cbn [fst]. rewrite zget_zset by (rewrite ?(slot_bytes_length (n := n)); lia). done.
Qed.

(** ** Growing a directory *)

(** A change of the directory with clusters [l]: it may have got new ones, and nothing but its
    sectors [ls'] and the table has been written. *)
Record dir_changed d d' l cur ls' : Prop := {
  dc_new : exists k, cur = l ++ k /\ Forall (fun c => is_cluster ncl c /\ fat16_next_cluster v d c = 0) k;
  dc_other : forall x, 0 <= x < table_entries v -> x ∉ cur -> fat16_next_cluster v d' x = fat16_next_cluster v d x;
  dc_frame : forall lba, 0 <= lba < n -> ~ in_fats v lba -> lba ∉ ls' -> img d' lba = img d lba;
  dc_mirrored : mirrored v d -> mirrored v d';
}.

Lemma dir_changed_refl d l ls : dir_changed d d l l ls.
Proof. split; try done. exists []. by rewrite app_nil_r. Qed.

Lemma dir_last_spec d l : chain ncl v d l -> dir_last v d (nth 0 l 0) = Some (nth (pred (length l)) l 0).
Proof using Hv.
  intros Hc. pose proof (chain_length Hv d l Hc) as Hlen. pose proof (ncl_small Hv). unfold dir_last.
  edestruct (while_indexed (fun j '(c, la) => exists k, j = zlen l - Z.of_nat k /\ (k <= length l)%nat /\ (if decide (k = length l) then fat_is_eoc v c = true else c = nth k l 0) /\ la = nth (pred k) l 0)
    (fun r => r = nth (pred (length l)) l 0)) as (r & -> & ->); [| | |done].
  - intros j [c la] (k & -> & Hk & Hck & ->). eexists. split; [done|]. destruct (decide (k = length l)) as [->|Hne]; [by rewrite Hck|]. subst c.
    pose proof (nth_cluster d l k Hc ltac:(lia)) as Hcl. rewrite (cluster_not_eoc Hv) by done. unfold is_cluster in Hcl. rewrite (proj2 (Z.leb_le 2 _)) by lia. cbn [negb andb].
    exists (zlen l - Z.of_nat (S k)). split; [lia|]. exists (S k). split; [done|]. split; [lia|]. split; [|done]. destruct (decide (S k = length l)) as [E|].
    + replace k with (pred (length l)) by lia. exact (chain_last d l Hc).
    + apply (chain_nth d l k Hc). lia.
  - exists 0%nat. rewrite decide_False by lia. split; [done|]. split; [lia|done].
  - change (Z.pos turns) with (2 ^ 40). lia.
Qed.

Lemma zero_cluster_img d c lba : is_cluster ncl c -> 0 <= lba < n ->
  img (zero_cluster v d c) lba = if (cluster_lba v c <=? lba) && (lba <? cluster_lba v c + spc) then replicate 512 0 else img d lba.
Proof using Hv HL.
  intros Hc Hlba. unfold zero_cluster. rewrite (cluster_to_lba_eq Hv) by done. pose proof (cluster_range Hv c Hc) as [Hr1 Hr2]. pose proof (data_start_pos Hv).
  pose proof (ok_spc _ _ _ Hv). pose proof (ok_n _ _ _ Hv).
  assert (Hgen : forall m, (m <= Z.to_nat spc)%nat -> forall lba, 0 <= lba < n ->
    img (foldl (fun d s => snd (fat_wr d (u32 (cluster_lba v c + Z.of_nat s)) (replicate 512 0))) d (seq 0 m)) lba =
    if (cluster_lba v c <=? lba) && (lba <? cluster_lba v c + Z.of_nat m) then replicate 512 0 else img d lba).
  { induction m as [|m IH]; intros Hm x Hx; [cbn; zcases; cbn [andb]; done || lia|]. rewrite seq_S, foldl_app. cbn [foldl].
    unfold fat_wr at 1. rewrite u32_small by lia. rewrite (rd_wr (n := n)); [|lia|lia|]. 2:{ split; [done|]. by apply Forall_replicate. }
    rewrite IH by lia. cbn [Nat.add]. zcases; cbn [andb]; done || lia. }
  rewrite Hgen by (done || lia). by rewrite Z2Nat.id by lia.
Qed.

Lemma chain_sectors_snoc l c : chain_sectors v (l ++ [c]) = chain_sectors v l ++ seqZ (cluster_lba v c) spc.
Proof. unfold chain_sectors. rewrite bind_app. cbn. by rewrite app_nil_r. Qed.

Lemma never_zero p lba off : 0 <= p -> p + 32 <= 512 -> never_used (slice (replicate 512 0) p 32, lba, off).
Proof.
  intros. unfold never_used. cbn [fst]. rewrite zget_slice by lia. unfold zget. rewrite nth_lookup. by rewrite lookup_replicate_2 by lia.
Qed.

(** A zeroed cluster at the end adds slots that were never used. *)
Lemma grown_layout d d' cl l c es : dir_of d false cl l (chain_sectors v l) -> dir_of d' false cl (l ++ [c]) (chain_sectors v (l ++ [c])) ->
  layout (all_slots d (chain_sectors v l)) es ->
  (forall lba, 0 <= lba < n -> ~ in_fats v lba -> img d' lba = if (cluster_lba v c <=? lba) && (lba <? cluster_lba v c + spc) then replicate 512 0 else img d lba) ->
  layout (all_slots d' (chain_sectors v (l ++ [c]))) es.
Proof using Hv HL.
  intros Hd Hd' Hl Himg. pose proof (fun q Hq => slot_lba_range Hv d' false cl (l ++ [c]) _ q Hd' Hq) as Hrange. pose proof (fun a b => dir_nodup Hv d' false cl (l ++ [c]) _ a b Hd') as Hnd.
  rewrite chain_sectors_snoc in *. set (ls := chain_sectors v l) in *. set (ks := seqZ (cluster_lba v c) spc) in *.
  assert (Hks : zlen ks = spc) by (subst ks; rewrite length_seqZ; pose proof (ok_spc _ _ _ Hv); lia).
  assert (E : all_slots d' (ls ++ ks) = all_slots d ls ++ (full_slot d' (ls ++ ks) <$> seqZ (16 * zlen ls) (16 * zlen ks))).
  { unfold all_slots. rewrite length_app, Nat2Z.inj_add, Z.mul_add_distr_l, seqZ_app, fmap_app by lia. f_equal. apply list_fmap_ext. intros k p Hk. apply lookup_seqZ in Hk as [-> Hk].
    rewrite Z.add_0_l in *. unfold full_slot. assert (El : slot_lba (ls ++ ks) (Z.of_nat k) = slot_lba ls (Z.of_nat k)) by (unfold slot_lba; apply app_nth1; dlia).
    unfold slot_bytes. rewrite El. do 3 f_equal. destruct (Hrange (Z.of_nat k)) as (Hr & Hf & _); [rewrite length_app; lia|]. rewrite El in Hr, Hf. rewrite (Himg _ Hr Hf).
    destruct ((_ <=? _) && _) eqn:Eb; [|done]. exfalso. apply andb_true_iff in Eb as [E1 E2]. zbool.
    assert (Z.of_nat k / 16 = zlen ls + (slot_lba ls (Z.of_nat k) - cluster_lba v c)); [|dlia].
    apply Hnd; [rewrite length_app; dlia|rewrite length_app; dlia|]. change (nth (Z.to_nat (Z.of_nat k / 16)) (ls ++ ks) 0) with (slot_lba (ls ++ ks) (Z.of_nat k)). rewrite El.
    rewrite app_nth2 by lia. replace (Z.to_nat _ - length ls)%nat with (Z.to_nat (slot_lba ls (Z.of_nat k) - cluster_lba v c)) by lia.
    symmetry. apply zget_lookup; [lia|]. apply lookup_seqZ. lia. }
  rewrite E. apply layout_grow; [done|]. apply Forall_fmap, Forall_forall. intros p Hp. apply elem_of_seqZ in Hp. cbn. unfold full_slot, slot_bytes.
  destruct (Hrange p) as (Hr & Hf & _); [rewrite length_app; lia|]. rewrite (Himg _ Hr Hf).
  assert (El : slot_lba (ls ++ ks) p = cluster_lba v c + (p / 16 - zlen ls)).
  { unfold slot_lba. rewrite app_nth2 by dlia. replace (Z.to_nat (p / 16) - length ls)%nat with (Z.to_nat (p / 16 - zlen ls)) by dlia.
    apply (zget_lookup ks); [dlia|]. apply lookup_seqZ. dlia. }
  rewrite El. rewrite (proj2 (Z.leb_le _ _)), (proj2 (Z.ltb_lt _ _)) by dlia. cbn [andb]. apply never_zero; unfold slot_off; dlia.
Qed.

Lemma grow_spec d cl l ls es h c : dir_of d false cl l ls -> layout (all_slots d ls) es -> tail_reserved ncl v d -> 2 <= c < table_entries v ->
  fat16_next_cluster (v <| next_free_hint := h |>) d c = 0 ->
  let d1 := fat16_set_next_cluster (v <| next_free_hint := h |>) d c (fat_eoc_marker (v <| next_free_hint := h |>)) in
  let d' := zero_cluster v (fat16_set_next_cluster v d1 (nth (pred (length l)) l 0) c) c in
  dir_of d' false cl (l ++ [c]) (chain_sectors v (l ++ [c])) /\ layout (all_slots d' (chain_sectors v (l ++ [c]))) es /\ dir_changed d d' l (l ++ [c]) (chain_sectors v (l ++ [c])).
Proof using Hv HL.
  intros Hd Hl Htail Hc H0 d1. pose proof Hd as (Hch & -> & ->).
  assert (Hlc : forall x, x ∈ l -> is_cluster ncl x) by (intros x; by eapply chain_clusters).
  destruct (extended_step Hv d d l l h c Htail (extended_refl d l (or_intror Hch)) Hlc Hc H0) as (Hcl & Hn & Hex). fold d1 in Hex.
  assert (Hex' : extended n ncl v d (fat16_set_next_cluster v d1 (nth (pred (length l)) l 0) c) l (l ++ [c])) by (by destruct l). clear Hex. clearbody d1.
  set (d2 := fat16_set_next_cluster v d1 (nth (pred (length l)) l 0) c) in *. clearbody d2. intros d'. destruct Hex' as [Hnew Hch2 Hot Hfr Hmi].
  pose proof (cluster_range Hv c Hcl) as Hcr.
  assert (Hsame : forall lba, 0 <= lba < n -> in_fats v lba -> img d' lba = img d2 lba).
  { intros lba Hlb Hf. subst d'. rewrite zero_cluster_img by done. pose proof (fats_below_data Hv). unfold in_fats in Hf. by rewrite (proj2 (Z.leb_gt _ lba)) by lia. }
  assert (Hd' : dir_of d' false (nth 0 l 0) (l ++ [c]) (chain_sectors v (l ++ [c]))).
  { apply (dir_of_ext Hv d2); [done|]. destruct Hch2 as [E|Hch2]; [by destruct l|]. split; [done|]. split; [|done]. by destruct l. }
  assert (Himg : forall lba, 0 <= lba < n -> ~ in_fats v lba -> img d' lba = if (cluster_lba v c <=? lba) && (lba <? cluster_lba v c + spc) then replicate 512 0 else img d lba).
  { intros lba Hlb Hf. subst d'. rewrite zero_cluster_img by done. by rewrite (Hfr lba Hlb Hf). }
  split; [done|]. split; [by apply (grown_layout d d' (nth 0 l 0))|]. split; [done| | |].
  - intros x Hx Hnx. rewrite (next_ext Hv d2 d') by done. by apply Hot.
  - intros lba Hlb Hf Hns. rewrite (Himg lba Hlb Hf). destruct ((_ <=? _) && _) eqn:Eb; [|done]. apply andb_true_iff in Eb as [E1 E2]. zbool.
    exfalso. apply Hns. rewrite chain_sectors_snoc. apply elem_of_app. right. apply elem_of_seqZ. lia.
  - intros Hm. apply (mirrored_ext Hv d2); auto.
Qed.

(** ** Room for a run *)

#[local] Opaque while.
Lemma hint_scan h d root cl count : scan_free (v <| next_free_hint := h |>) d root cl count = scan_free v d root cl count.
Proof. reflexivity. Qed.

Lemma find_free_run_unfold d root cl count : find_free_run v d root cl count =
  match scan_free v d root cl count with
  | Some (Some p) => Some (Some p, v, d)
  | Some None =>
    if root then Some (None, v, d)
    else
      last ← dir_last v d cl;
      '(nc, v, d) ← fat16_alloc_cluster v d;
      if nc =? 0 then Some (None, v, d)
      else
        let d := zero_cluster v (fat16_set_next_cluster v d last nc) nc in
        second ← scan_free v d root cl count;
        Some (second, v, d)
  | None => None
  end.
Proof. unfold find_free_run. by destruct (scan_free v d root cl count) as [[p|]|]. Qed.

Definition room_at d ls (count : Z) (place : option (Z * Z)) : Prop :=
  match place with
  | Some (lba, off) => exists i, lba = slot_lba ls i /\ off = slot_off i /\ free_run d ls i count /\ (0 < i -> free_slot (slot_bytes d ls (i - 1)) = false)
  | None => forall i, ~ free_run d ls i count
  end.

Lemma scan_room d root cl l ls count : dir_of d root cl l ls -> 1 <= count -> exists place, scan_free v d root cl count = Some place /\ room_at d ls count place.
Proof using Hv HL. intros Hd Hc. destruct (scan_free_spec Hv d root cl l ls count Hd Hc) as [(i & -> & Hi & Hb)|(-> & Hn)]; eexists; (split; [done|]); [by exists i|done]. Qed.

Lemma find_free_run_spec d root cl l ls es count : dir_of d root cl l ls -> layout (all_slots d ls) es -> tail_reserved ncl v d -> 1 <= count ->
  exists place h d' l' ls', find_free_run v d root cl count = Some (place, v <| next_free_hint := h |>, d') /\
    dir_of d' root cl l' ls' /\ layout (all_slots d' ls') es /\ dir_changed d d' l l' ls' /\ room_at d' ls' count place.
Proof using Hv HL.
  intros Hd Hl Htail Hc. rewrite find_free_run_unfold. destruct (scan_room d root cl l ls count Hd Hc) as (place & -> & Hroom).
  assert (Hstay : exists h d' l' ls', Some (place, v, d) = Some (place, v <| next_free_hint := h |>, d') /\
    dir_of d' root cl l' ls' /\ layout (all_slots d' ls') es /\ dir_changed d d' l l' ls' /\ room_at d' ls' count place).
  { exists (next_free_hint v), d, l, ls. split; [by destruct v|]. split; [done|]. split; [done|]. split; [apply dir_changed_refl|done]. }
  destruct place as [p|]; [by exists (Some p)|]. destruct root; [by exists None|].
  pose proof Hd as (Hch & -> & ->). rewrite (dir_last_spec d l Hch), some_bind. destruct (alloc_spec Hv d) as (c & v' & d1 & -> & Ha). rewrite some_bind. cbv beta iota.
  destruct Ha as [(-> & -> & -> & _)|(Hct & Hfree & -> & ->)]; [by exists None|]. rewrite (proj2 (Z.eqb_neq c 0)) by lia.
  destruct (grow_spec d (nth 0 l 0) l (chain_sectors v l) es (u32 (c + 1)) c Hd Hl Htail Hct Hfree) as (Hd' & Hl' & Hch'). cbv zeta. rewrite hint_scan.
  edestruct (scan_room _ false (nth 0 l 0) _ _ count Hd' Hc) as (place & E & Hroom'). eexists place, _, _, _, _. split; [|split; [exact Hd'|split; [exact Hl'|split; [exact Hch'|exact Hroom']]]].
  match type of E with scan_free v ?dd _ _ _ = _ => match goal with |- context [scan_free v ?d2 false (nth 0 l 0) count] => change d2 with dd end end. rewrite E. done.
Qed.

(** ** The short alias *)

Lemma alias_char_ok c : is_byte c -> is_byte (alias_char c) /\ alias_char c <> 0 /\ alias_char c <> 0xE5.
Proof.
  intros Hc. unfold alias_char. assert (Hu : is_byte (upper c)) by (unfold is_byte, upper in *; zcases; cbn [andb]; lia).
  destruct (fat_char_ok_in_83 (upper c)) eqn:E; [|done]. destruct (ok83 _ Hu E) as (_ & _ & ? & ? & _). done.
Qed.

Lemma alias_chars l : Forall is_byte l -> Forall (fun x => is_byte x /\ x <> 0 /\ x <> 0xE5) (alias_char <$> l).
Proof. intros Hl. apply Forall_fmap. eapply Forall_impl; [done|]. intros c Hc. by apply alias_char_ok. Qed.

Lemma alias_base_ok p : Forall is_byte p -> Forall (fun x => is_byte x /\ x <> 0 /\ x <> 0xE5) (alias_base p) /\ 1 <= zlen (alias_base p) <= 6.
Proof.
  intros Hp. unfold alias_base. set (l := alias_char <$> _).
  assert (Hl : Forall (fun x => is_byte x /\ x <> 0 /\ x <> 0xE5) (take 6 l)) by (apply Forall_take, alias_chars, Forall_forall; intros c Hc; apply list_elem_of_filter in Hc as [_ Hc]; by eapply Forall_forall).
  assert (Hn : (length (take 6 l) <= 6)%nat) by (rewrite length_take; lia).
  destruct (take 6 l) as [|a k]; [split; [by repeat constructor|done]|]. split; [done|]. cbn [length] in *. lia.
Qed.

Lemma alias_digits_ok k : 0 <= k < 1000 -> Forall is_byte (alias_digits k) /\ zlen (alias_digits k) <= 3.
Proof.
  intros Hk. unfold alias_digits. destruct (Z.ltb_spec k 10); [|destruct (Z.ltb_spec k 100)]; (split; [|done]).
  all: repeat (apply Forall_cons_2; [unfold is_byte; dlia|]); apply Forall_nil_2.
Qed.

Definition short_ok (short : list Z) : Prop := length short = 11%nat /\ Forall is_byte short /\ free_slot short = false.

Lemma alias_name_ok base ext k : Forall (fun x => is_byte x /\ x <> 0 /\ x <> 0xE5) base -> 1 <= zlen base <= 6 -> Forall is_byte ext -> zlen ext <= 3 -> 0 <= k < 1000 ->
  short_ok (alias_name base ext k).
Proof.
  intros Hb Hbl He Hel Hk. destruct (alias_digits_ok k Hk) as [Hd Hdl]. unfold alias_name.
  assert (Hl0 : zlen (base ++ 126 :: alias_digits k) <= 11) by (rewrite length_app; cbn [length]; lia).
  assert (Hl1 : length (splice (replicate 11 SPACE) 0 (base ++ 126 :: alias_digits k)) = 11%nat) by (rewrite splice_length; done || (rewrite length_replicate; lia)).
  split; [rewrite splice_length; lia|]. split.
  - repeat apply splice_bytes; [by apply Forall_replicate| |done]. apply Forall_app. split; [|by constructor]. eapply Forall_impl; [exact Hb|]. tauto.
  - unfold free_slot. rewrite zget_splice by lia. cbn [Z.leb andb]. rewrite zget_splice by (rewrite ?length_replicate; lia).
    rewrite (proj2 (Z.leb_le 0 0)), (proj2 (Z.ltb_lt 0 _)) by (rewrite ?length_app; lia). cbn [andb]. rewrite Z.sub_0_r.
    destruct base as [|b base]; [cbn in Hbl; lia|]. inversion Hb as [|? ? (_ & H0 & H5) _]; subst. cbn [app]. rewrite zget_head. zcases; done.
Qed.

Context `{HE : FatEnv}.

Lemma alias_probe_some d root cl l ls base ext (more : nat) k : dir_of d root cl l ls -> exists j, k - 1 <= j < k + Z.of_nat more /\ alias_probe v d root cl base ext more k = Some (alias_name base ext j).
Proof using Hv HL.
  intros Hd. revert k. induction more as [|more IH]; intros k; [exists (k - 1); split; [lia|done]|]. cbn [alias_probe].
  rewrite (alias_clash_spec Hv d root cl l ls) by done. rewrite some_bind. destruct (existsb _ _); [|exists k; split; [lia|done]].
  destruct (IH (k + 1)) as (j & Hj & ->). exists j. split; [lia|done].
Qed.

Lemma break_at_split stop (a : list Z) : let '(x, y) := break_at stop a in a = x ++ y.
Proof. induction a as [|c a IH]; [done|]. cbn [break_at]. destruct (c =? stop); [done|]. destruct (break_at stop a). cbn. by rewrite <- IH. Qed.

Lemma make_short_alias_spec d root cl l ls name : dir_of d root cl l ls -> Forall is_byte name ->
  exists short, make_short_alias v d root cl name = Some short /\ short_ok short.
Proof using Hv HL.
  intros Hd Hb. unfold make_short_alias. destruct (split_last_dot name) as [prefix suffix] eqn:E.
  assert (Hps : Forall is_byte prefix /\ Forall is_byte suffix).
  { unfold split_last_dot in E. pose proof (break_at_split DOT (reverse name)) as Hs. destruct (break_at DOT (reverse name)) as [r rest].
    assert (Hr : Forall is_byte (r ++ rest)) by (rewrite <- Hs; by apply Forall_reverse). apply Forall_app in Hr as [Hr1 Hr2].
    destruct rest as [|c rest]; injection E as <- <-; [split; [done|constructor]|]. inversion Hr2; subst. split; by apply Forall_reverse. }
  destruct (alias_probe_some d root cl l ls (alias_base prefix) (alias_ext suffix) 999 1 Hd) as (j & Hj & ->). eexists. split; [done|].
  destruct (alias_base_ok prefix) as [Hb1 Hb2]; [tauto|]. apply alias_name_ok; [done|done| | |lia].
  - apply Forall_take. eapply Forall_impl; [apply alias_chars; tauto|]. tauto.
  - unfold alias_ext. rewrite length_take. lia.
Qed.

(** ** A new entry *)

Lemma dirent_is_bytes v' short attr c size de : dirent_is v' short attr c size de -> length de = 32%nat /\ Forall is_byte de.
Proof. by intros []. Qed.

Lemma lfn_run_bytes u k sum : is_byte sum -> Forall (fun x => 0 <= x < W16) u -> Forall (fun b => length b = 32%nat /\ Forall is_byte b) (lfn_run u k sum).
Proof.
  intros Hs Hu. unfold lfn_run. apply Forall_fmap, Forall_forall. intros i _. cbv beta zeta.
  destruct (lfn_slot_spec (Z.lor (k - i) (if i =? 0 then LFN_LAST else 0)) sum (lfn_chars_at u (k - i)) Hs (chars_at_length u _) (chars_at_range u _ Hu)) as (H1 & H2 & _). exact (conj H1 H2).
Qed.

Lemma slots_changed d d' root cl l ls i src : dir_of d root cl l ls -> slots_set (n := n) d d' ls i src -> dir_changed d d' l l ls.
Proof using Hv HL.
  intros Hd Hs. pose proof (slots_set_fats Hv d d' root cl l ls i src) as Hf. split.
  - exists []. by rewrite app_nil_r.
  - intros x Hx _. apply (next_ext Hv); [|done]. intros. by apply Hf.
  - intros lba Hl _ Hn. by apply (ss_frame _ _ _ _ _ Hs).
  - apply (mirrored_ext Hv). intros. by apply Hf.
Qed.

Lemma dir_changed_trans d d1 d2 l l1 ls1 : dir_changed d d1 l l1 ls1 -> dir_changed d1 d2 l1 l1 ls1 -> dir_changed d d2 l l1 ls1.
Proof.
  intros H1 H2. split.
  - apply H1.
  - intros x Hx Hn. rewrite (dc_other _ _ _ _ _ H2), (dc_other _ _ _ _ _ H1); done.
  - intros lba Hl Hf Hn. rewrite (dc_frame _ _ _ _ _ H2), (dc_frame _ _ _ _ _ H1); done.
  - intros Hm. by apply (dc_mirrored _ _ _ _ _ H2), (dc_mirrored _ _ _ _ _ H1).
Qed.

Context (Hclock : fat_now_epoch < 86400 * 2 ^ 39).

(** What a created entry is. *)
Definition created (name short : list Z) (attr c size lba off : Z) (e : fat_entry) : Prop :=
  e_name e = name /\ e_lba e = lba /\ e_off e = off /\ dirent_is v short attr c size (e_de e).

Lemma create_run_spec d root cl l ls es name u short attr c size : dir_of d root cl l ls -> layout (all_slots d ls) es -> tail_reserved ncl v d ->
  name_ok name u short -> attr_ok attr -> 0 <= c < (if is_32 v then W32 else W16) ->
  exists r h d' l' ls', create_run v d root cl u (lfn_count name u) short attr c size = Some (r, v <| next_free_hint := h |>, d') /\ dir_of d' root cl l' ls' /\ dir_changed d d' l l' ls' /\
    match r with
    | inl e => e = - ENOSPC /\ layout (all_slots d' ls') es /\ forall i, ~ free_run d' ls' i (lfn_count name u + 1)
    | inr (lba, off) => exists es1 e es2, es = es1 ++ es2 /\ layout (all_slots d' ls') (es1 ++ e :: es2) /\ created name short attr c size lba off e
    end.
Proof using Hv HL Hclock.
  intros Hd Hl Htail Hn Ha Hc. pose proof (lfn_count_range _ _ _ Hn) as [Hk _]. set (k := lfn_count name u) in *.
  unfold create_run. destruct (find_free_run_spec d root cl l ls es (k + 1) Hd Hl Htail ltac:(lia)) as (place & h & d1 & l1 & ls1 & -> & Hd1 & Hl1 & Hch1 & Hroom).
  rewrite some_bind. cbv beta iota. destruct place as [[lba off]|].
  2:{ eexists _, h, d1, l1, ls1. split; [done|]. split; [done|]. split; [done|]. split; [done|]. split; [done|exact Hroom]. }
  destruct Hroom as (i & -> & -> & Hfree & Hb).
  destruct (write_dirent_spec Hclock (v <| next_free_hint := h |>) short attr c size (nm_slen _ _ _ Hn) (nm_sbytes _ _ _ Hn) ltac:(apply Ha) Hc) as (de & -> & Hde). rewrite some_bind. cbv beta.
  assert (Hu : Forall (fun x => 0 <= x < W16) u) by (apply (utf8_loop_units _ _ _ _ _ (nm_units _ _ _ Hn)); constructor).
  set (src := lfn_run u k (lfn_checksum short) ++ [de]).
  assert (Hsl : zlen src = k + 1) by (subst src; unfold lfn_run; rewrite length_app, length_fmap, length_seqZ; cbn; lia).
  assert (Hsb : Forall (fun b => length b = 32%nat /\ Forall is_byte b) src).
  { apply Forall_app. split; [by apply lfn_run_bytes; [apply checksum_byte|]|]. constructor; [by eapply dirent_is_bytes|constructor]. }
  destruct Hfree as (Hi0 & Hi1 & Hfree).
  destruct (write_slots_spec (vol_ok_hint Hv h) d1 root cl l1 ls1 i src Hd1) as (d2 & -> & Hs); [lia|lia|lia|done|]. rewrite some_bind. cbv beta iota. cbn [Z.eqb negb].
  assert (Hd2 : dir_of d2 root cl l1 ls1) by (by eapply (slots_set_dir Hv)).
  rewrite (locate_slot_spec (vol_ok_hint Hv h) d2 root cl l1 ls1 i k Hd2) by lia. rewrite some_bind.
  eexists _, h, d2, l1, ls1. split; [done|]. split; [done|]. split; [eapply dir_changed_trans; [done|by eapply slots_changed]|].
  destruct (dir_insert d1 d2 ls1 es i src (new_entry name de ls1 i k)) as (es1 & es2 & -> & Hl2); [done|by rewrite Hsl|done|lia|done| |].
  { apply (new_run_whole (v <| next_free_hint := h |>) name u short attr c size de ls1 i Hn Hde Ha). }
  exists es1, (new_entry name de ls1 i k), es2. split; [done|]. split; [done|]. split; [done|]. split; [done|]. split; [done|]. by destruct Hde; split.
Qed.

(** The names that read back as they were stored: no U+FFFF, which ends a stored name, and no dot
    at the end of a short name, which has no extension to keep it. *)
Record storable (name : list Z) : Prop := {
  st_bytes : Forall is_byte name;
  st_nul : 0 ∉ name;
  st_ffff : forall u, utf8_to_utf16 name (LFN_MAX_SLOTS * LFN_CHARS) = inr u -> 0xFFFF ∉ u;
  st_dot : fits_83 name = true -> forall b, name <> b ++ [DOT];
}.
Definition name_error (name : list Z) : option Z :=
  if (zlen name =? 0) || (VFS_NAME_MAX - 1 <? zlen name) then Some (- ENAMETOOLONG)
  else
    match utf8_to_utf16 name (LFN_MAX_SLOTS * LFN_CHARS) with
    | inl e => Some (if e =? - EINVAL then - EINVAL else - ENAMETOOLONG)
    | inr u => if 255 <? zlen u then Some (- ENAMETOOLONG) else None
    end.

Lemma name_error_nonzero name e : name_error name = Some e -> e <> 0.
Proof.
  unfold name_error. destruct (_ || _); [by intros [= <-]|]. destruct (utf8_to_utf16 _ _) as [x|u]; [destruct (_ =? _); by intros [= <-]|].
  destruct (_ <? _); [by intros [= <-]|done].
Qed.

Lemma short_name_spec d root cl l ls name : dir_of d root cl l ls -> Forall is_byte name ->
  exists short, (if negb (fits_83 name) then make_short_alias v d root cl name else Some (to_fat_name name)) = Some short /\ short_ok short /\
    (fits_83 name = true -> short = to_fat_name name).
Proof using Hv HL.
  intros Hd Hb. destruct (fits_83 name) eqn:Ef; cbn [negb].
  - destruct (short_first name Hb Ef) as (Hl & H0 & H5). exists (to_fat_name name). split; [done|]. split; [|done]. split; [done|]. split; [by apply to_fat_name_bytes|].
    unfold free_slot. by rewrite (proj2 (Z.eqb_neq _ 0)), (proj2 (Z.eqb_neq _ 0xE5)).
  - destruct (make_short_alias_spec d root cl l ls name Hd Hb) as (short & -> & Hs). by exists short.
Qed.

Lemma create_named_spec d root cl l ls es name attr c size : dir_of d root cl l ls -> layout (all_slots d ls) es -> tail_reserved ncl v d ->
  storable name -> attr_ok attr -> 0 <= c < (if is_32 v then W32 else W16) ->
  match name_error name with
  | Some e => fat_create_named v d root cl name attr c size = Some (inl e, v, d)
  | None =>
    exists r h d' l' ls', fat_create_named v d root cl name attr c size = Some (r, v <| next_free_hint := h |>, d') /\ dir_of d' root cl l' ls' /\ dir_changed d d' l l' ls' /\
      match r with
      | inl e => e = - ENOSPC /\ layout (all_slots d' ls') es /\ forall i, ~ free_run d' ls' i (LFN_MAX_SLOTS + 1)
      | inr (lba, off) => exists es1 e es2 short, es = es1 ++ es2 /\ layout (all_slots d' ls') (es1 ++ e :: es2) /\ created name short attr c size lba off e
      end
  end.
Proof using Hv HL Hclock.
  intros Hd Hl Htail [Hb Hz HF Hdot] Ha Hc. unfold name_error, fat_create_named.
  destruct ((zlen name =? 0) || _) eqn:El; [done|]. apply orb_false_iff in El as [El1 El2]. zbool.
  destruct (utf8_to_utf16 name (LFN_MAX_SLOTS * LFN_CHARS)) as [e|u] eqn:Eu; [done|]. destruct (Z.ltb_spec 255 (zlen u)); [done|]. cbv zeta.
  destruct (short_name_spec d root cl l ls name Hd Hb) as (short & -> & (Hs1 & Hs2 & Hs3) & Hs4). rewrite some_bind. cbv beta.
  assert (Hn : name_ok name u short) by (split; try done; [lia|by apply HF]). pose proof (lfn_count_range _ _ _ Hn) as [Hk _].
  change (if negb (fits_83 name) then (zlen u + LFN_CHARS - 1) / LFN_CHARS else 0) with (lfn_count name u). rewrite (proj2 (Z.ltb_ge LFN_MAX_SLOTS _)) by lia.
  destruct (create_run_spec d root cl l ls es name u short attr c size Hd Hl Htail Hn Ha Hc) as (r & h & d' & l' & ls' & -> & Hd' & Hch & Hr).
  exists r, h, d', l', ls'. split; [done|]. split; [done|]. split; [done|]. destruct r as [e|[lba off]].
  - destruct Hr as (-> & Hl' & Hno). split; [done|]. split; [done|]. intros i (H1 & H2 & H3). apply (Hno i). split; [done|]. split; [lia|]. intros p Hp. apply H3. lia.
  - destruct Hr as (es1 & e & es2 & -> & Hl' & He). by exists es1, e, es2, short.
Qed.

(** ** Removing an entry *)

(** Exactly the slots of the run of [e], those of its long name included, are marked as deleted. *)
Definition erased d d' ls (e : fat_entry) : Prop := exists i, 0 <= i /\ 1 <= e_run_slots e /\ i + e_run_slots e <= 16 * zlen ls /\
  e_run_lba e = slot_lba ls i /\ e_run_off e = slot_off i /\
  forall p, 0 <= p < 16 * zlen ls ->
    slot_bytes d' ls p = if (i <=? p) && (p <? i + e_run_slots e) then zset (slot_bytes d ls p) 0 0xE5 else slot_bytes d ls p.

Lemma erase_spec d root cl l ls es1 e es2 : dir_of d root cl l ls -> layout (all_slots d ls) (es1 ++ e :: es2) ->
  exists d', fat_erase_run v d root cl e = Some (0, d') /\ dir_of d' root cl l ls /\ (forall lba, 0 <= lba < n -> lba ∉ ls -> img d' lba = img d lba) /\ layout (all_slots d' ls) (es1 ++ es2) /\
    erased d d' ls e.
Proof using Hv HL.
  intros Hd Hl. destruct (dir_run d ls es1 e es2 Hl) as (i & Hi & Hn & Hk & El & Eo & Hdel).
  destruct (erase_run_spec Hv d root cl l ls i e Hd Hi Hn Hk El Eo) as (d' & -> & Hs). exists d'. split; [done|]. split; [by eapply (slots_set_dir Hv)|].
  split; [by apply (ss_frame _ _ _ _ _ Hs)|]. split; [by apply Hdel|]. exists i. repeat (split; [done|]). intros p Hp. rewrite (ss_slots _ _ _ _ _ Hs p Hp).
  assert (Hz : zlen ((fun p => marked (slot_bytes d ls p)) <$> seqZ i (e_run_slots e)) = e_run_slots e) by (rewrite length_fmap, length_seqZ; lia). rewrite Hz.
  destruct (Z.leb_spec i p), (Z.ltb_spec p (i + e_run_slots e)); cbn [andb]; try done.
  rewrite (nth_lookup_Some _ _ _ (marked (slot_bytes d ls p))); [done|]. rewrite list_lookup_fmap, lookup_seqZ_lt by lia. cbn. do 2 f_equal. f_equal. lia.
Qed.

(** Files and directories elsewhere: their chains and the contents of their clusters. *)
Lemma dir_others_kept d d' root cl l l' ls' k : dir_changed d d' l l' ls' -> dir_of d' root cl l' ls' -> chain ncl v d k -> (forall c, c ∈ l -> c ∉ k) ->
  chain ncl v d' k /\ forall lba, lba ∈ chain_sectors v k -> img d' lba = img d lba.
Proof using Hv HL.
  intros Hch Hd' Hk Hdis. assert (Hkc : forall c, c ∈ k -> is_cluster ncl c) by (intros c; by eapply chain_clusters).
  assert (Hdis' : forall c, c ∈ k -> c ∉ l').
  { intros c Hc Hin. destruct (dc_new _ _ _ _ _ Hch) as (new & E & Hnew). rewrite E in Hin. apply elem_of_app in Hin as [Hin|Hin]; [by apply (Hdis c)|].
    rewrite Forall_forall in Hnew. destruct (Hnew c Hin) as [_ E0]. by apply (chain_used Hv d k c). }
  split.
  - eapply chain_ext; [|done]. intros c Hc. apply (dc_other _ _ _ _ _ Hch); [by apply (cluster_in_table Hv), Hkc|by apply Hdis'].
  - intros lba Hlba. unfold chain_sectors in Hlba. apply list_elem_of_bind in Hlba as (c & Hlba & Hc). apply elem_of_seqZ in Hlba.
    pose proof (cluster_range Hv c (Hkc c Hc)) as Hcr. pose proof (fats_below_data Hv). pose proof (data_start_pos Hv). pose proof (ok_spc _ _ _ Hv).
    apply (dc_frame _ _ _ _ _ Hch); [lia|unfold in_fats; lia|]. intros Hin. destruct root.
    + destruct Hd' as [_ ->]. apply elem_of_seqZ in Hin. pose proof (ok_data _ _ _ Hv). lia.
    + destruct Hd' as (_ & _ & ->). apply list_elem_of_bind in Hin as (c' & Hin & Hc'). apply elem_of_seqZ in Hin. unfold cluster_lba in *.
      assert (c = c') as -> by nia. by apply (Hdis' c').
Qed.
End create.
