(* ===== verification/FatVfs.v ===== *)
(** * The FAT driver behind the VFS (the operations of fatfs_ops in kernel/fs/fatfs.c)

    A handler gets the vnode and the driver's inode behind it as values and returns what it has
    changed of them; [None] is an operation that does not end.  The vnode cache keeps one vnode
    for an inode number, so two vnodes are the same when their numbers are. *)

From stdpp Require Import base numbers list option.
From S2P Require Import Prelude Loop Bytes Fat FatTime FatName FatDir.

Abbreviation ENOENT := 2.
Abbreviation EEXIST := 17.
Abbreviation ENODEV := 19.
Abbreviation ENOTDIR := 20.
Abbreviation EISDIR := 21.
Abbreviation ENFILE := 23.
Abbreviation EFBIG := 27.
Abbreviation ENOTEMPTY := 39.
Abbreviation FATFS_ROOT_INODE := 0.
Abbreviation FATFS_MAX_VOLUMES := 4.
Abbreviation DT_DIR := 4.
Abbreviation DT_REG := 8.

Inductive vnode_type := VNODE_FILE | VNODE_DIR | VNODE_DEVICE | VNODE_BLOCK.
#[export] Instance vnode_type_dec : EqDecision vnode_type.
Proof. solve_decision. Defined.

Record fatfs_inode := Inode {
  in_use : bool;
  first_cluster : Z;
  dir_entry_lba : Z;
  dir_entry_offset : Z;
  i_size : Z;
  is_dir : bool;
  dirty_cluster : bool;
}.
#[export] Instance eta_inode : Eta fatfs_inode := fun n =>
  Inode (in_use n) (first_cluster n) (dir_entry_lba n) (dir_entry_offset n) (i_size n) (is_dir n) (dirty_cluster n).

(** [fs_private] is the index of the inode in the pool. *)
Record vnode := Vnode {
  inode_id : Z;
  vn_type : vnode_type;
  vn_size : Z;
  mtime : Z;
  atime : Z;
  ctime : Z;
  fs_private : option Z;
}.
#[export] Instance eta_vnode : Eta vnode := fun vn =>
  Vnode (inode_id vn) (vn_type vn) (vn_size vn) (mtime vn) (atime vn) (ctime vn) (fs_private vn).

Definition inode0 : fatfs_inode := Inode false 0 0 0 0 false false.

(** The first free inode is taken. *)
Definition inode_alloc (inode_pool : list fatfs_inode) : option (Z * list fatfs_inode) :=
  '(i, n) ← list_find (fun n => in_use n = false) inode_pool;
  Some (Z.of_nat i, <[i := n <| in_use := true |> <| dirty_cluster := false |>]> inode_pool).

Definition inode_id_of (lba offset : Z) : Z := Z.lor (Z.shiftl lba 16) offset.

Section vfs.
Context {D : Type} `{BlockStore D} `{FatEnv}.
Implicit Types (v : fat_volume) (d : D) (n : fatfs_inode) (vn dir : vnode) (pool : list fatfs_inode).

Definition in_root_of v dir : bool := (inode_id dir =? FATFS_ROOT_INODE) && negb (is_32 v).
Definition has_attr (de : list Z) (a : Z) : bool := ctrue (Z.land (de_attr de) a).

(** ** Volumes and inodes *)

(** [bdev] is the device found for the source, with its sector size; the slot of the new volume. *)
Definition fatfs_mount_op (volume_used : list bool) (bdev : option (Z * D)) : (Z + Z * fat_volume) * list bool :=
  match bdev with
  | None => (inl (- ENODEV), volume_used)
  | Some (sector_size, d) =>
    if negb (sector_size =? 512) then (inl (- EINVAL), volume_used)
    else
      match list_find (fun u => u = false) volume_used with
      | None => (inl (- ENOSPC), volume_used)
      | Some (slot, _) =>
        match fat_read_bpb d with
        | None => (inl (- ENODEV), volume_used)
        | Some v => (inr (Z.of_nat slot, v), <[slot := true]> volume_used)
        end
      end
  end.
Definition fatfs_umount_op (volume_used : list bool) (slot : Z) : list bool := zset volume_used slot false.

Definition fatfs_read_inode v d pool (id : Z) : (Z + vnode) * list fatfs_inode :=
  match inode_alloc pool with
  | None => (inl (- ENFILE), pool)
  | Some (i, pool) =>
    let n := zget inode0 pool i in
    if id =? FATFS_ROOT_INODE then
      (inr (Vnode id VNODE_DIR 0 0 0 0 (Some i)),
       zset pool i (n <| first_cluster := if is_32 v then root_cluster v else 0 |> <| dir_entry_lba := 0 |>
                      <| dir_entry_offset := 0 |> <| i_size := 0 |> <| is_dir := true |>))
    else
      let lba := u32 (Z.shiftr id 16) in
      let off := Z.land id 0xFFFF in
      let '(ok, sector) := fat_rd d lba in
      if negb ok then (inl (- ENOENT), zset pool i (n <| in_use := false |>))
      else
        let de := slice sector off 32 in
        let n := n <| first_cluster := dirent_cluster v de |> <| dir_entry_lba := lba |> <| dir_entry_offset := off |>
                   <| i_size := de_size de |> <| is_dir := has_attr de FAT_ATTR_DIRECTORY |> in
        let mt := fat_datetime_to_epoch (ld16 de 24) (ld16 de 22) in
        let ct := fat_datetime_to_epoch (ld16 de 16) (ld16 de 14) in
        let at_ := fat_datetime_to_epoch (ld16 de 18) 0 in
        (inr (Vnode id (if is_dir n then VNODE_DIR else VNODE_FILE) (i_size n) mt (if at_ =? 0 then mt else at_) (if ct =? 0 then mt else ct) (Some i)),
         zset pool i n)
  end.

Definition fatfs_sync_inode v d pool vn : D * list fatfs_inode :=
  match fs_private vn with
  | None => (d, pool)
  | Some i =>
    let n := zget inode0 pool i in
    (if negb (inode_id vn =? FATFS_ROOT_INODE) && (negb (i_size n =? vn_size vn) || dirty_cluster n)
     then fat16_update_entry_size_v v d (dir_entry_lba n) (dir_entry_offset n) (first_cluster n) (u32 (vn_size vn)) else d,
     zset pool i (n <| in_use := false |>))
  end.

(** ** Files *)

Definition fatfs_lookup v d dir n (name : list Z) : option (Z + Z) :=
  o ← fat_dir_find v d (in_root_of v dir) (first_cluster n) name;
  Some (match o with None => inl (- ENOENT) | Some e => inr (inode_id_of (e_lba e) (e_off e)) end).

(** The result and what the buffer has got. *)
Definition fatfs_read v d vn n (pos len : Z) : option (Z * list Z) :=
  if vn_size vn <=? pos then Some (0, [])
  else
    let len := if vn_size vn <? u64 (pos + len) then u32 (vn_size vn - pos) else len in
    '(got, out) ← fat16_read_at_v v d (first_cluster n) (u32 pos) len;
    Some (if (got =? 0) && (0 <? len) then - EIO else got, out).

Definition fatfs_write v d vn n (pos : Z) (buf : list Z) (len : Z) : option (Z * fat_volume * D * vnode * fatfs_inode) :=
  if 0xFFFFFFFF <? u64 (pos + len) then Some (- EFBIG, v, d, vn, n)
  else
    '(r, v, d) ← fat16_write_file_v v d (first_cluster n) (u32 (vn_size vn)) (u32 pos) buf len;
    match r with
    | inl e => Some (e, v, d, vn, n)
    | inr (rc, new_cluster, new_size) =>
      if rc <? 0 then Some (rc, v, d, vn, n)
      else
        let n := if negb (new_cluster =? first_cluster n) then n <| first_cluster := new_cluster |> <| dirty_cluster := true |> else n in
        let d := fat16_update_entry_size_v v d (dir_entry_lba n) (dir_entry_offset n) new_cluster new_size in
        Some (len, v, d, vn <| vn_size := new_size |>, n <| i_size := new_size |>)
    end.

Definition fatfs_truncate_op v d vn n : option (fat_volume * D * vnode * fatfs_inode) :=
  '(v, d) ← fat16_truncate_v v d (first_cluster n) (dir_entry_lba n) (dir_entry_offset n);
  Some (v, d, vn <| vn_size := 0 |>, n <| first_cluster := 0 |> <| i_size := 0 |>).

(** ** Directories *)

Definition fatfs_create v d dir n (name : list Z) : option ((Z + Z) * fat_volume * D) :=
  let in_root := in_root_of v dir in
  existing ← fat_dir_find v d in_root (first_cluster n) name;
  match existing with
  | Some _ => Some (inl (- EEXIST), v, d)
  | None =>
    '(r, v, d) ← fat_create_named v d in_root (first_cluster n) name 0 0 0;
    Some (match r with inl e => inl e | inr (lba, off) => inr (inode_id_of lba off) end, v, d)
  end.

Definition dot_name : list Z := DOT :: replicate 10 SPACE.
Definition dotdot_name : list Z := DOT :: DOT :: replicate 9 SPACE.

Definition fatfs_mkdir_op v d dir n (name : list Z) : option (Z * fat_volume * D) :=
  let in_root := in_root_of v dir in
  existing ← fat_dir_find v d in_root (first_cluster n) name;
  match existing with
  | Some _ => Some (- EEXIST, v, d)
  | None =>
    '(cluster, v, d) ← fat16_alloc_cluster v d;
    if cluster =? 0 then Some (- ENOSPC, v, d)
    else
      let d := zero_cluster v (fat16_set_next_cluster v d cluster (fat_eoc_marker v)) cluster in
      e0 ← write_dirent v dot_name FAT_ATTR_DIRECTORY cluster 0;
      e1 ← write_dirent v dotdot_name FAT_ATTR_DIRECTORY (if in_root then 0 else first_cluster n) 0;
      let d := snd (fat_wr d (cluster_to_lba v cluster) (splice (replicate 512 0) 0 (e0 ++ e1))) in
      '(r, v, d) ← fat_create_named v d in_root (first_cluster n) name FAT_ATTR_DIRECTORY cluster 0;
      match r with
      | inl rc => '(v, d) ← fat16_free_chain v d cluster; Some (rc, v, d)
      | inr _ => Some (0, v, d)
      end
  end.

(** The data of an entry, then its slots. *)
Definition remove_entry v d (in_root : bool) (dir_cluster : Z) (e : fat_entry) : option (Z * fat_volume * D) :=
  let victim := dirent_cluster v (e_de e) in
  '(v, d) ← (if ctrue victim then fat16_free_chain v d victim else Some (v, d));
  '(rc, d) ← fat_erase_run v d in_root dir_cluster e;
  Some (rc, v, d).

Definition fatfs_unlink_op v d dir n (name : list Z) : option (Z * fat_volume * D) :=
  let in_root := in_root_of v dir in
  o ← fat_dir_find v d in_root (first_cluster n) name;
  match o with
  | None => Some (- ENOENT, v, d)
  | Some e => if has_attr (e_de e) FAT_ATTR_DIRECTORY then Some (- EISDIR, v, d) else remove_entry v d in_root (first_cluster n) e
  end.

Definition fatfs_rmdir_op v d dir n (name : list Z) : option (Z * fat_volume * D) :=
  let in_root := in_root_of v dir in
  if fat_name_eq name [DOT] || fat_name_eq name [DOT; DOT] then Some (- EINVAL, v, d)
  else
    o ← fat_dir_find v d in_root (first_cluster n) name;
    match o with
    | None => Some (- ENOENT, v, d)
    | Some e =>
      if negb (has_attr (e_de e) FAT_ATTR_DIRECTORY) then Some (- ENOTDIR, v, d)
      else
        let cluster := dirent_cluster v (e_de e) in
        empty ← (if ctrue cluster then fat_dir_is_empty v d cluster else Some true);
        if negb empty then Some (- ENOTEMPTY, v, d) else remove_entry v d in_root (first_cluster n) e
    end.

(** Inode number, name and type of entry [index]. *)
Definition fatfs_readdir_op v d dir n (index : Z) : option (Z + Z * list Z * Z) :=
  while (fun '(it, seen) =>
    '(o, it) ← fat_dir_next v d it;
    Some (match o with
          | None => inr (inl (- ENOENT))
          | Some e =>
            if negb (seen =? index) then inl (it, u32 (seen + 1))
            else inr (inr (inode_id_of (e_lba e) (e_off e), take 255 (e_name e), if has_attr (e_de e) FAT_ATTR_DIRECTORY then DT_DIR else DT_REG))
          end)) (slots_begin (in_root_of v dir) (first_cluster n), 0).

(** ** Renaming *)

(** The old inode number, the new one, and the new place for an inode that is open. *)
Record rekey := Rekey { old_id : Z; new_id : Z; k_lba : Z; k_off : Z }.
Definition fat_rekey_fix (k : rekey) n : fatfs_inode := n <| dir_entry_lba := k_lba k |> <| dir_entry_offset := k_off k |>.

(** The target goes first; then the source is looked up again. *)
Definition rename_over v d (o_root n_root : bool) (ocl ncl : Z) (oname nname : list Z) (src : fat_entry) : option ((Z + fat_entry) * fat_volume * D) :=
  dst ← fat_dir_find v d n_root ncl nname;
  match dst with
  | None => Some (inr src, v, d)
  | Some dst =>
    let src_is_dir := has_attr (e_de src) FAT_ATTR_DIRECTORY in
    let dst_is_dir := has_attr (e_de dst) FAT_ATTR_DIRECTORY in
    if (e_lba dst =? e_lba src) && (e_off dst =? e_off src) then Some (inl 0, v, d)
    else if src_is_dir && negb dst_is_dir then Some (inl (- ENOTDIR), v, d)
    else if negb src_is_dir && dst_is_dir then Some (inl (- EISDIR), v, d)
    else
      let victim := dirent_cluster v (e_de dst) in
      empty ← (if dst_is_dir && ctrue victim then fat_dir_is_empty v d victim else Some true);
      if negb empty then Some (inl (- ENOTEMPTY), v, d)
      else
        '(rc, v, d) ← remove_entry v d n_root ncl dst;
        if negb (rc =? 0) then Some (inl rc, v, d)
        else
          again ← fat_dir_find v d o_root ocl oname;
          Some (match again with Some src => inr src | None => inl (- EIO) end, v, d)
  end.

(** The times of [src] on the entry at a place. *)
Definition copy_times d (lba off : Z) (src : list Z) : D :=
  let '(ok, sector) := fat_rd d lba in
  if ok then snd (fat_wr d lba (splice (splice sector (off + 13) (slice src 13 7)) (off + 22) (slice src 22 4))) else d.

(** The dot-dot entry of a directory. *)
Definition set_parent v d (dir_cluster parent : Z) : D :=
  let base := cluster_to_lba v dir_cluster in
  let '(ok, sector) := fat_rd d base in
  if ok then snd (fat_wr d base (splice sector 32 (dirent_set_cluster v (slice sector 32 32) parent))) else d.

Definition fatfs_rename_op v d odir on (oname : list Z) ndir nn (nname : list Z) : option (Z * fat_volume * D * option rekey) :=
  let o_root := in_root_of v odir in
  let n_root := in_root_of v ndir in
  found ← fat_dir_find v d o_root (first_cluster on) oname;
  match found with
  | None => Some (- ENOENT, v, d, None)
  | Some src0 =>
    let src_is_dir := has_attr (e_de src0) FAT_ATTR_DIRECTORY in
    let src_cluster := dirent_cluster v (e_de src0) in
    '(r, v, d) ← rename_over v d o_root n_root (first_cluster on) (first_cluster nn) oname nname src0;
    match r with
    | inl rc => Some (rc, v, d, None)
    | inr src =>
      '(r, v, d) ← fat_create_named v d n_root (first_cluster nn) nname (de_attr (e_de src)) src_cluster (de_size (e_de src));
      match r with
      | inl rc => Some (rc, v, d, None)
      | inr (lba, off) =>
        '(rc, d) ← fat_erase_run v (copy_times d lba off (e_de src)) o_root (first_cluster on) src;
        if negb (rc =? 0) then Some (rc, v, d, None)
        else
          let d := if src_is_dir && ctrue src_cluster && negb (inode_id odir =? inode_id ndir)
                   then set_parent v d src_cluster (if inode_id ndir =? FATFS_ROOT_INODE then 0 else first_cluster nn) else d in
          Some (0, v, d, Some (Rekey (inode_id_of (e_lba src) (e_off src)) (inode_id_of lba off) lba off))
      end
    end
  end.
End vfs.
