(* ===== verification/FatKeep.v ===== *)
(** * What the operations of the FAT driver leave alone, and the changes of one entry

    A directory keeps its slots and a file its bytes when only other clusters change; the size and
    the cluster of an entry are replaced in place; the clusters of a removed file become free. *)

From stdpp Require Import base numbers list option sets relations.
From S2P Require Import Prelude Loop Bytes Fat FatTable FatFile FatWrite FatTime FatName FatDir FatSlots FatUpdate FatLayout FatRun FatCreate.

Section keep.
Context {D : Type} `{HB : BlockStore D} {n ncl : Z} {HL : BlockLaws D n}.
Context {v : fat_volume} (Hv : vol_ok n ncl v).
Implicit Types (d : D) (l ls : list Z) (es : list fat_entry).
Abbreviation dir_of := (dir_of (ncl := ncl) (v := v)).
Abbreviation dir_changed := (dir_changed (n := n) (ncl := ncl) (v := v)).
Abbreviation cb := (cluster_bytes v).

(** ** What a change leaves alone *)

Lemma dir_kept d d' root cl l ls : (forall x, x ∈ l -> fat16_next_cluster v d' x = fat16_next_cluster v d x) -> (forall lba, lba ∈ ls -> img d' lba = img d lba) ->
  dir_of d root cl l ls -> dir_of d' root cl l ls /\ all_slots d' ls = all_slots d ls.
Proof.
  intros Hn Hi Hd. split.
  - destruct root; [done|]. destruct Hd as (Hc & Hcl & Hls). split; [|done]. by eapply chain_ext.
  - unfold all_slots. apply list_fmap_ext. intros k p Hk. apply lookup_seqZ in Hk as [-> Hk]. unfold full_slot, slot_bytes. rewrite Hi; [done|].
    unfold slot_lba. apply list_elem_of_In, nth_In. dlia.
Qed.

Lemma dir_sectors_place d root cl l ls lba : dir_of d root cl l ls -> lba ∈ ls ->
  0 <= lba < n /\ ~ in_fats v lba /\ (lba < data_start_lba v \/ exists c, c ∈ l /\ is_cluster ncl c /\ cluster_lba v c <= lba < cluster_lba v c + sectors_per_cluster v).
Proof using Hv.
  intros Hd Hin. pose proof Hin as Hin'. apply list_elem_of_lookup in Hin' as [k Hk]. pose proof (lookup_lt_Some _ _ _ Hk).
  pose proof (dir_sector_range Hv d root cl l ls (Z.of_nat k) Hd ltac:(lia)) as Hr. rewrite Nat2Z.id, (nth_lookup_Some _ _ _ _ Hk) in Hr. split; [tauto|]. split; [tauto|].
  destruct root.
  - left. destruct Hd as [_ ->]. apply elem_of_seqZ in Hin. pose proof (ok_data _ _ _ Hv). lia.
  - right. destruct Hd as (Hc & _ & ->). apply list_elem_of_bind in Hin as (c & Hin & Hc'). apply elem_of_seqZ in Hin. exists c. split; [done|]. split; [by eapply chain_clusters|done].
Qed.

(** A sector of one cluster is in no chain without that cluster. *)
Lemma cluster_apart lba c k : is_cluster ncl c -> cluster_lba v c <= lba < cluster_lba v c + sectors_per_cluster v -> (forall x, x ∈ k -> is_cluster ncl x) -> c ∉ k -> ~ in_chain v k lba.
Proof using Hv.
  intros Hc Hl Hk Hn (j & Hj & E). apply Hn. pose proof (lba_cluster Hv k j Hk Hj) as Ej. rewrite <- E in Ej.
  assert (Ec : (lba - data_start_lba v) / sectors_per_cluster v + 2 = c).
  { unfold cluster_lba in Hl. pose proof (ok_spc _ _ _ Hv). rewrite <- (Z.div_unique_pos (lba - data_start_lba v) (sectors_per_cluster v) (c - 2) (lba - data_start_lba v - (c - 2) * sectors_per_cluster v)); lia. }
  rewrite Ec in Ej. rewrite Ej. apply list_elem_of_In, nth_In. by apply (index_lt Hv).
Qed.

Lemma below_data_apart lba k : lba < data_start_lba v -> (forall x, x ∈ k -> is_cluster ncl x) -> ~ in_chain v k lba.
Proof using Hv.
  intros Hl Hk (j & Hj & ->). pose proof (index_lt Hv k j Hj) as Hi. pose proof (sector_index Hv j) as (Hs & _ & _). unfold lba_of in Hl.
  assert (Hc : is_cluster ncl (nth (Z.to_nat (j / cluster_bytes v)) k 0)) by (apply Hk, list_elem_of_In, nth_In; done). unfold is_cluster in Hc.
  pose proof (ok_spc _ _ _ Hv). nia.
Qed.

(** New clusters of a file are free ones, so they are in no directory. *)
Lemma grown_apart d l new root cl k ls c : dir_of d root cl k ls -> (forall c, c ∈ l -> c ∉ k) -> Forall (fun c => is_cluster ncl c /\ fat16_next_cluster v d c = 0) new ->
  c ∈ k -> c ∉ l ++ new /\ 0 <= c < table_entries v.
Proof using Hv.
  intros Hd Hdis Hfree Hc. destruct root; [destruct Hd as [-> _]; by apply elem_of_nil in Hc|]. destruct Hd as (Hch & _ & _). split.
  - intros Hin. apply elem_of_app in Hin as [Hin|Hin]; [by apply (Hdis c)|].
    rewrite Forall_forall in Hfree. destruct (Hfree c Hin) as [_ E0]. by apply (chain_used Hv d k c).
  - apply (cluster_in_table Hv). by eapply chain_clusters.
Qed.

(** A directory that does not share clusters with a file keeps its slots when the file is written. *)
Lemma dir_kept_write d d' l cur now root cl k ls : file_written (n := n) (ncl := ncl) (v := v) d d' l cur now -> dir_of d root cl k ls -> (forall c, c ∈ l -> c ∉ k) ->
  dir_of d' root cl k ls /\ all_slots d' ls = all_slots d ls.
Proof using Hv.
  intros Hw Hd Hdis. destruct (fw_new _ _ _ _ _ Hw) as (new & Ecur & Hfree).
  assert (Hcc : forall c, c ∈ cur -> is_cluster ncl c) by (intros c; eapply chain_clusters; by eapply fw_chain).
  assert (Hk : forall c, c ∈ k -> c ∉ cur /\ 0 <= c < table_entries v) by (intros c; rewrite Ecur; by eapply grown_apart).
  apply (dir_kept d d' root cl k ls); [|  |done].
  - intros x Hx. destruct (Hk x Hx). by eapply fw_other.
  - intros lba Hin. destruct (dir_sectors_place d root cl k ls lba Hd Hin) as (Hr & Hf & Hor). eapply fw_frame; [done..|].
    destruct Hor as [Hlt|(c & Hc & Hcl & Hcr)]; [by apply below_data_apart|]. eapply cluster_apart; [done|done|done|by apply Hk].
Qed.

Lemma dir_kept_extended d d' l cur root cl k ls : extended n ncl v d d' l cur -> dir_of d root cl k ls -> (forall c, c ∈ l -> c ∉ k) ->
  dir_of d' root cl k ls /\ all_slots d' ls = all_slots d ls.
Proof using Hv.
  intros Hw Hd Hdis. destruct (ex_new _ _ _ _ Hw) as (new & Ecur & Hfree). apply (dir_kept d d' root cl k ls); [| |done].
  - intros x Hx. destruct (grown_apart d l new root cl k ls x Hd Hdis Hfree Hx) as [Hn Ht]. apply (ex_other _ _ _ _ Hw); [done|by rewrite Ecur].
  - intros lba Hin. destruct (dir_sectors_place d root cl k ls lba Hd Hin) as (Hr & Hnf & _). by apply (ex_frame _ _ _ _ Hw).
Qed.

(** The bytes of a chain whose sectors stay. *)
Lemma fbytes_kept d d' k pos len : chain ncl v d k -> (forall lba, lba ∈ chain_sectors v k -> img d' lba = img d lba) -> 0 <= pos -> pos + len <= zlen k * cb -> fbytes v d' k pos len = fbytes v d k pos len.
Proof using Hv.
  intros Hc Hs Hp Hl. unfold fbytes. apply list_fmap_ext. intros i x Hi. apply lookup_seq in Hi as [-> Hi]. unfold fbyte. rewrite Hs; [done|].
  assert (Hx : 0 <= pos + Z.of_nat (0 + i) < zlen k * cb) by lia. pose proof (index_lt Hv k _ Hx) as Hlt. pose proof (sector_index Hv (pos + Z.of_nat (0 + i))) as (Hsi & _ & _).
  unfold lba_of, chain_sectors. apply list_elem_of_bind. exists (nth (Z.to_nat ((pos + Z.of_nat (0 + i)) / cb)) k 0). split; [|by apply list_elem_of_In, nth_In].
  apply elem_of_seqZ. unfold cluster_lba. lia.
Qed.
(** ** An entry that is changed in place *)

(** [de'] is [de] with another cluster, size or times: name, attributes and case flags stay. *)
Record patch_of (de de' : list Z) : Prop := {
  pt_old : length de = 32%nat;
  pt_len : length de' = 32%nat;
  pt_bytes : Forall is_byte de -> Forall is_byte de';
  pt_head : slice de' 0 13 = slice de 0 13;
}.
Definition patched (e : fat_entry) (de' : list Z) : fat_entry := Entry (e_name e) de' (e_lba e) (e_off e) (e_run_lba e) (e_run_off e) (e_run_slots e).

Lemma patch_get de de' k : patch_of de de' -> 0 <= k < 13 -> zget 0 de' k = zget 0 de k.
Proof. intros Hp Hk. rewrite <- (Z.add_0_l k), <- (zget_slice de' 0 13), <- (zget_slice de 0 13) by lia. by rewrite (pt_head _ _ Hp). Qed.

Lemma patch_take de de' : patch_of de de' -> take 11 de' = take 11 de.
Proof.
  intros Hp. pose proof (f_equal (take 11) (pt_head _ _ Hp)) as E. unfold slice in E. cbn [Z.to_nat drop] in E. rewrite !take_take in E. exact E.
Qed.

Lemma patch_short de de' : patch_of de de' -> is_short de -> is_short de'.
Proof. intros Hp (H1 & H2 & H3). unfold is_short, free_slot. by rewrite !(patch_get de de') by (done || lia). Qed.

Lemma end_run_patch a de de' lba off : patch_of de de' -> end_run a de' lba off = patched (end_run a de lba off) de'.
Proof.
  intros Hp. unfold end_run. assert (Hc : lfn_checksum de' = lfn_checksum de) by (unfold lfn_checksum; by rewrite (patch_take de de')). rewrite Hc.
  destruct (_ && _ && _); [done|]. unfold patched. cbn. f_equal. rewrite (patch_get de de') by (done || lia). pose proof (pt_old _ _ Hp) as Ho. pose proof (pt_len _ _ Hp) as Hl.
  rewrite (from_fat_name_take de' (take 11 de)) by (done || lia || by apply patch_take). by rewrite (from_fat_name_take de (take 11 de)) by (done || lia).
Qed.

Lemma end_run_place a de lba off : e_de (end_run a de lba off) = de /\ e_lba (end_run a de lba off) = lba /\ e_off (end_run a de lba off) = off.
Proof. unfold end_run. by destruct (_ && _ && _). Qed.

Lemma whole_last (lfns : list slot) de lba off e : whole (lfns ++ [(de, lba, off)]) e -> e_de e = de /\ e_lba e = lba /\ e_off e = off.
Proof.
  intros (lfns' & de' & lba' & off' & Er & _ & _ & _ & _ & Hf). apply app_inj_tail in Er as [_ [= -> -> ->]].
  destruct (Hf (Acc false 0 0 0 0 0 (replicate 260 0))) as (a' & _ & <-); [done|]. apply end_run_place.
Qed.

(** The slot of the short entry. *)
Lemma short_slot (lfns : list slot) de lba off e d ls (s1 s2 : list slot) : whole (lfns ++ [(de, lba, off)]) e -> all_slots d ls = s1 ++ (lfns ++ [(de, lba, off)]) ++ s2 ->
  exists p, Z.to_nat p = (length s1 + length lfns)%nat /\ 0 <= p < 16 * zlen ls /\ slot_lba ls p = e_lba e /\ slot_off p = e_off e /\ slot_bytes d ls p = e_de e.
Proof.
  intros Hw E. pose proof (all_slots_length d ls) as Hl. rewrite E, !length_app in Hl. cbn [length] in Hl. exists (zlen s1 + zlen lfns). split; [lia|]. split; [lia|].
  assert (Hp : all_slots d ls !! (length s1 + length lfns)%nat = Some (de, lba, off)).
  { rewrite E, lookup_app_r by lia. rewrite Nat.add_comm, Nat.add_sub, <- app_assoc, lookup_app_r, Nat.sub_diag by lia. done. }
  rewrite all_slots_lookup in Hp. rewrite decide_True in Hp by lia. unfold full_slot in Hp. rewrite Nat2Z.inj_add in Hp. injection Hp as E1 E2 E3.
  destruct (whole_last _ _ _ _ _ Hw) as (-> & -> & ->). done.
Qed.

Lemma whole_patch (lfns : list slot) de de' lba off e : patch_of de de' -> whole (lfns ++ [(de, lba, off)]) e -> whole (lfns ++ [(de', lba, off)]) (patched e de').
Proof.
  intros Hp (lfns' & de0 & lba' & off' & Er & Hu & Hs & (b & Hb) & Hz & Hf). apply app_inj_tail in Er as [-> [= -> -> ->]].
  exists lfns', de', lba', off'. split; [done|]. split; [done|]. split; [by eapply patch_short|]. split; [|split].
  - destruct lfns' as [|s lfns']; cbn in Hb |- *; injection Hb as Hb; [|exists b; by rewrite Hb]. exists de'. by subst.
  - rewrite length_app in *. done.
  - intros a Ha. destruct (Hf a Ha) as (a' & Ef & <-). exists a'. split; [done|]. by apply end_run_patch.
Qed.

(** A write of the patched entry to its place. *)
Lemma patch_spec d d' root cl l ls es1 e es2 de' : dir_of d root cl l ls -> layout (all_slots d ls) (es1 ++ e :: es2) -> patch_of (e_de e) de' ->
  (forall lba, 0 <= lba < n -> img d' lba = if lba =? e_lba e then splice (img d lba) (e_off e) de' else img d lba) ->
  exists p, 0 <= p < 16 * zlen ls /\ slots_set (n := n) d d' ls p [de'] /\ layout (all_slots d' ls) (es1 ++ patched e de' :: es2).
Proof using Hv HL.
  intros Hd Hl Hpt Himg. apply layout_entry in Hl as (s1 & r & s2 & E & Hw & _ & Hrep). pose proof Hw as (lfns & de & lba & off & Er & _). rewrite Er in *. clear r Er.
  destruct (short_slot lfns de lba off e d ls s1 s2 Hw E) as (p & Epn & Hp & El & Eo & Eb). destruct (whole_last _ _ _ _ _ Hw) as (Ed & Elb & Eof). subst de lba off.
  assert (Hset : slots_set (n := n) d d' ls p [de']).
  { apply (slots_set_snoc Hv d d d' root cl l ls p []); [done|apply slots_set_nil| |apply Hpt|lia|cbn; lia].
    cbn. rewrite Z.add_0_r. intros x Hx. by rewrite (Himg x Hx), El, Eo. }
  exists p. split; [done|]. split; [done|]. rewrite (slots_set_all d d' ls p _ Hset) by (cbn; lia). rewrite E. cbn [length].
  assert (Ep : placed ls p [de'] = [(de', e_lba e, e_off e)]) by (unfold placed; rewrite seqZ_cons by done; cbn; by rewrite El, Eo).
  assert (E' : s1 ++ (lfns ++ [(e_de e, e_lba e, e_off e)]) ++ s2 = (s1 ++ lfns) ++ (e_de e, e_lba e, e_off e) :: s2) by (by rewrite <- !app_assoc).
  assert (Edrop : drop (Z.to_nat (p + Z.of_nat 1)) ((s1 ++ lfns) ++ (e_de e, e_lba e, e_off e) :: s2) = s2).
  { rewrite cons_middle, (app_assoc (s1 ++ lfns)). apply drop_app_length'. rewrite !length_app. cbn. lia. }
  rewrite Ep, E', Edrop, take_app_length' by (rewrite length_app; lia).
  rewrite <- app_assoc, (app_assoc lfns). apply Hrep. by eapply whole_patch.
Qed.

(** The place of an entry, and what is there. *)
Lemma entry_place d root cl l ls es1 e es2 : dir_of d root cl l ls -> layout (all_slots d ls) (es1 ++ e :: es2) ->
  0 <= e_lba e < n /\ 0 <= e_off e /\ e_off e + 32 <= 512 /\ slice (img d (e_lba e)) (e_off e) 32 = e_de e /\ length (e_de e) = 32%nat /\ Forall is_byte (e_de e).
Proof using Hv HL.
  intros Hd Hl. apply layout_entry in Hl as (s1 & r & s2 & E & Hw & _ & _). pose proof Hw as (lfns & de & lba & off & Er & _). rewrite Er in *. clear r Er.
  destruct (short_slot lfns de lba off e d ls s1 s2 Hw E) as (p & _ & Hp & <- & <- & <-). destruct (slot_lba_range Hv d root cl l ls p Hd Hp) as (Hr & _ & _).
  pose proof (slot_off_range p). split; [done|]. split; [lia|]. split; [lia|]. split; [done|]. split; [apply (slot_bytes_length (n := n))|].
  apply slice_bytes. apply (rd_sector (n := n)).
Qed.

(** ** The size and the cluster of an entry *)

Definition sized (c size : Z) (de : list Z) : list Z := st32 (dirent_set_cluster v de c) 28 size.

Lemma sized_patch c size de : length de = 32%nat -> patch_of de (sized c size de).
Proof.
  intros Hl. unfold sized, dirent_set_cluster. split; [done| | |].
  - rewrite st32_length; rewrite ?st16_length; rewrite ?st16_length; lia.
  - intros Hb. apply st32_bytes. by do 2 apply st16_bytes.
  - rewrite slice_st32 by (rewrite ?st16_length; rewrite ?st16_length; lia). rewrite slice_st16 by (rewrite ?st16_length; lia). by rewrite slice_st16 by lia.
Qed.

(** The cluster and the size read back. *)
Lemma sized_fields c size de : length de = 32%nat -> 0 <= c < (if is_32 v then W32 else W16) -> dirent_cluster v (sized c size de) = c /\ de_size (sized c size de) = u32 size.
Proof.
  intros Hl Hc. unfold sized. split; [|rewrite ld32_st32; [done|lia|unfold dirent_set_cluster; rewrite st16_length; rewrite ?st16_length; lia]].
  unfold dirent_cluster, dirent_set_cluster, ld16. rewrite !slice_st32 by (rewrite ?st16_length; rewrite ?st16_length; lia).
  fold (ld16 (st16 (st16 de 26 (u16 (Z.land c 0xFFFF))) 20 (if is_32 v then u16 (Z.shiftr c 16) else 0)) 20).
  rewrite slice_st16 by (rewrite ?st16_length; lia). fold (ld16 (st16 de 26 (u16 (Z.land c 0xFFFF))) 26).
  rewrite !ld16_st16 by (rewrite ?st16_length; lia). rewrite (land_mask 0xFFFF 16) by done. destruct (is_32 v).
  - rewrite Z.shiftr_div_pow2 by lia. rewrite !(u16_small (c mod 2 ^ 16)), !(u16_small (c / 2 ^ 16)) by dlia. rewrite lor_pack by dlia. dlia.
  - rewrite !(u16_small (c mod 2 ^ 16)) by dlia. dlia.
Qed.

Definition resize (c size : Z) (e : fat_entry) : fat_entry := patched e (sized c size (e_de e)).

Lemma update_entry_spec d root cl l ls es1 e es2 c size : dir_of d root cl l ls -> layout (all_slots d ls) (es1 ++ e :: es2) ->
  exists p, 0 <= p < 16 * zlen ls /\ slots_set (n := n) d (fat16_update_entry_size_v v d (e_lba e) (e_off e) c size) ls p [sized c size (e_de e)] /\
    layout (all_slots (fat16_update_entry_size_v v d (e_lba e) (e_off e) c size) ls) (es1 ++ resize c size e :: es2).
Proof using Hv HL.
  intros Hd Hl. destruct (entry_place d root cl l ls es1 e es2 Hd Hl) as (Hr & Ho1 & Ho2 & Es & Hlen & Hby). pose proof (sized_patch c size (e_de e) Hlen) as Hpt.
  apply (patch_spec d _ root cl l ls es1 e es2 _ Hd Hl Hpt). intros x Hx. unfold fat16_update_entry_size_v. rewrite (fat_rd_ok d) by done. cbn [snd]. rewrite Es.
  change (st32 (dirent_set_cluster v (e_de e) c) 28 size) with (sized c size (e_de e)). pose proof (rd_sector (n := n) d (e_lba e)) as [Hs1 Hs2].
  unfold fat_wr. rewrite (rd_wr (n := n)); [by destruct (Z.eqb_spec x (e_lba e)) as [->|]|done|done|].
  destruct Hpt as [_ Hl' Hb' _]. split; [rewrite splice_length by lia; done|]. apply splice_bytes; auto.
Qed.

(** ** Freeing the clusters of a file *)

(** What a chain reaches is its clusters. *)
Lemma chain_reach d l a x : chain ncl v d l -> a ∈ l -> rtc (link v d) a x -> live v x -> x ∈ l.
Proof.
  intros Hc Ha Hr Hx. induction Hr as [a|a b x [_ <-] Hr IH]; [done|]. apply list_elem_of_lookup in Ha as [i Hi]. pose proof (lookup_lt_Some _ _ _ Hi) as Hlt.
  assert (Ea : nth i l 0 = a) by (by apply nth_lookup_Some). destruct (decide (S i < length l)%nat) as [Hs|Hs].
  - apply IH; [|done]. rewrite <- Ea, (chain_nth d l i Hc Hs). by apply list_elem_of_In, nth_In.
  - exfalso. pose proof (chain_last d l Hc) as He. replace (pred (length l)) with i in He by lia. rewrite Ea in He.
    assert (Hn : ~ live v (fat16_next_cluster v d a)) by (intros [_ Hf]; congruence). inversion Hr; subst; [done|]. by destruct H.
Qed.

Lemma chain_reached d l x : chain ncl v d l -> x ∈ l -> rtc (link v d) (nth 0 l 0) x /\ live v x.
Proof using Hv.
  intros Hc Hx. assert (Hlive : forall i, (i < length l)%nat -> live v (nth i l 0)).
  { intros i Hi. pose proof (nth_cluster d l i Hc Hi) as Hcl. split; [unfold is_cluster in Hcl; lia|by apply (cluster_not_eoc Hv)]. }
  apply list_elem_of_lookup in Hx as [i Hi]. pose proof (lookup_lt_Some _ _ _ Hi) as Hlt. rewrite <- (nth_lookup_Some _ _ 0 _ Hi). clear Hi. split; [|by apply Hlive].
  induction i as [|i IH]; [constructor|]. eapply rtc_r; [apply IH; lia|]. split; [apply Hlive; lia|]. by apply (chain_nth d l i Hc).
Qed.

(** The clusters of a file become free. *)
Lemma free_file_spec d first lf : file_chain ncl v d first lf ->
  exists h d', (if ctrue first then fat16_free_chain v d first else Some (v, d)) = Some (v <| next_free_hint := h |>, d') /\
    (forall c, c ∈ lf -> fat16_next_cluster v d' c = 0) /\ (forall x, 0 <= x < table_entries v -> x ∉ lf -> fat16_next_cluster v d' x = fat16_next_cluster v d x) /\
    (forall lba, 0 <= lba < n -> ~ in_fats v lba -> img d' lba = img d lba) /\ (mirrored v d -> mirrored v d').
Proof using Hv HL.
  intros Hf. destruct lf as [|a lf].
  { cbn in Hf. subst first. exists (next_free_hint v), d. split; [by destruct v|]. split; [intros c Hc; by apply elem_of_nil in Hc|done]. }
  destruct Hf as [-> Hc]. pose proof (nth_cluster d _ 0 Hc ltac:(cbn; lia)) as Hcl. cbn [nth] in Hcl.
  assert (Ht : ctrue a = true) by (unfold ctrue; unfold is_cluster in Hcl; rewrite (proj2 (Z.eqb_neq a 0)) by lia; done). rewrite Ht.
  assert (Hin : forall x, rtc (link v d) a x -> live v x -> x ∈ a :: lf) by (intros x Hr Hl; apply (chain_reach d (a :: lf) a x Hc); [by left|done|done]).
  destruct (free_chain_spec Hv d a) as (v' & d' & -> & -> & Hz & Hk & Hfr & Hm).
  { intros x Hr Hl. apply (cluster_in_table Hv). eapply chain_clusters; [exact Hc|by apply Hin]. }
  exists (if (2 <=? a) && (a <? next_free_hint v) then a else next_free_hint v), d'. split; [destruct (_ && _); [done|by destruct v]|]. split; [|split; [|done]].
  - intros c Hcin. destruct (chain_reached d _ c Hc Hcin). by apply Hz.
  - intros x Hx Hn. apply Hk; [done|]. intros [Hr Hl]. by apply Hn, Hin.
Qed.
End keep.
