(* ===== verification/FatOps.v ===== *)
(** * The operations of the FAT driver: proofs

    A directory is its list of entries and a file its bytes; the handlers of fatfs_ops change
    them as their names say, and nothing else of the volume. *)

From stdpp Require Import base numbers list option sets relations.
From S2P Require Import Prelude Loop Bytes Fat FatTable FatFile FatWrite FatTime FatName FatDir FatSlots FatUpdate FatLayout FatRun FatCreate FatKeep FatVfs.

Section ops.
Context {D : Type} `{HB : BlockStore D} {n ncl : Z} {HL : BlockLaws D n}.
Context {v : fat_volume} (Hv : vol_ok n ncl v).
Implicit Types (d : D) (l ls : list Z) (es : list fat_entry).
Abbreviation dir_of := (dir_of (ncl := ncl) (v := v)).
Abbreviation dir_changed := (dir_changed (n := n) (ncl := ncl) (v := v)).
Abbreviation cb := (cluster_bytes v).

(** ** Looking up and creating *)

Context `{HE : FatEnv} (Hstack : zlen stack_chars = 260).

(** The directory behind vnode [dir] and inode [nd] has the entries [es]. *)
Definition dir_at d (dir : vnode) (nd : fatfs_inode) l ls es : Prop := dir_of d (in_root_of v dir) (first_cluster nd) l ls /\ layout (all_slots d ls) es.

(** The first entry with a name. *)
Definition found es (name : list Z) : option fat_entry := snd <$> list_find (fun e => e_name e = name) es.
Definition entry_id (e : fat_entry) : Z := inode_id_of (e_lba e) (e_off e).

Lemma found_app es1 es2 name : found (es1 ++ es2) name = match found es1 name with Some e => Some e | None => found es2 name end.
Proof.
  unfold found. induction es1 as [|e es1 IH]; [done|]. cbn. destruct (decide (e_name e = name)); [done|]. destruct (list_find _ (es1 ++ es2)) as [[]|], (list_find _ es1) as [[]|]; cbn in *; congruence.
Qed.

Lemma found_cons e es name : found (e :: es) name = if decide (e_name e = name) then Some e else found es name.
Proof. unfold found. cbn. destruct (decide _); [done|]. by destruct (list_find _ es) as [[]|]. Qed.

Lemma found_split es name e : found es name = Some e -> exists es1 es2, es = es1 ++ e :: es2 /\ found es1 name = None /\ e_name e = name.
Proof.
  induction es as [|e0 es IH]; [done|]. rewrite found_cons. destruct (decide (e_name e0 = name)) as [En|Hne]; [intros [= ->]; by exists [], es|].
  intros Hf. destruct (IH Hf) as (es1 & es2 & -> & Hn & He). exists (e0 :: es1), es2. split; [done|]. split; [|done]. rewrite found_cons. by rewrite decide_False.
Qed.

Lemma dir_find_at d dir nd l ls es name : dir_at d dir nd l ls es -> fat_dir_find v d (in_root_of v dir) (first_cluster nd) name = Some (found es name).
Proof using Hv HL Hstack.
  intros [Hd Hl]. rewrite (dir_find_spec Hv d _ _ l ls) by done. unfold entries. by rewrite (layout_dents Hstack _ _ es).
Qed.

Lemma lookup_spec d dir nd l ls es name : dir_at d dir nd l ls es ->
  fatfs_lookup v d dir nd name = Some (match found es name with Some e => inr (entry_id e) | None => inl (- ENOENT) end).
Proof using Hv HL Hstack. intros Hd. unfold fatfs_lookup. rewrite (dir_find_at d dir nd l ls es name Hd), some_bind. by destruct (found es name). Qed.

#[local] Opaque while.
Lemma lookup_hint h d dir nd l ls es name : dir_at d dir nd l ls es ->
  fatfs_lookup (v <| next_free_hint := h |>) d dir nd name = Some (match found es name with Some e => inr (entry_id e) | None => inl (- ENOENT) end).
Proof using Hv HL Hstack. intros Hd. rewrite <- (lookup_spec d dir nd l ls es name Hd). reflexivity. Qed.

(** An entry more, or one less, and the names it does not have. *)
Lemma found_insert es1 e es2 name : e_name e <> name -> found (es1 ++ e :: es2) name = found (es1 ++ es2) name.
Proof. intros Hn. rewrite !found_app, found_cons, decide_False by done. done. Qed.

Lemma found_new es1 e es2 : found (es1 ++ es2) (e_name e) = None -> found (es1 ++ e :: es2) (e_name e) = Some e.
Proof. rewrite !found_app, found_cons, decide_True by done. by destruct (found es1 (e_name e)). Qed.

Lemma found_absent es name : name ∉ e_name <$> es -> found es name = None.
Proof. induction es as [|e es IH]; [done|]. rewrite fmap_cons, found_cons. intros [Hne Hn]%not_elem_of_cons. rewrite decide_False by congruence. by apply IH. Qed.

Lemma not_elem_of_others es1 e es2 : NoDup (e_name <$> es1 ++ e :: es2) -> e_name e ∉ e_name <$> es1 ++ es2.
Proof. rewrite fmap_app, fmap_cons, fmap_app. intros (_ & H1 & [H2 _]%NoDup_cons)%NoDup_app [Hin|Hin]%elem_of_app; [|done]. apply (H1 _ Hin). by left. Qed.

Lemma found_unique es k e : es !! k = Some e -> NoDup (e_name <$> es) -> found es (e_name e) = Some e.
Proof.
  intros Hk Hnd. destruct (list_elem_of_split_length es k e Hk) as (es1 & es2 & -> & _). apply found_new. apply found_absent. by apply not_elem_of_others.
Qed.

Context (Hclock : fat_now_epoch < 86400 * 2 ^ 39).

(** What creating [name] does to the entries of a directory. *)
Definition create_result es es' (name : list Z) (r : Z + Z) : Prop :=
  match r with
  | inl e => es' = es /\ (e = - EEXIST /\ found es name <> None \/ found es name = None /\ (name_error name = Some e \/ e = - ENOSPC))
  | inr id => found es name = None /\ exists es1 e es2, es = es1 ++ es2 /\ es' = es1 ++ e :: es2 /\ e_name e = name /\ id = entry_id e /\
      de_attr (e_de e) = 0 /\ dirent_cluster v (e_de e) = 0 /\ de_size (e_de e) = 0
  end.

Lemma create_spec d dir nd l ls es name : dir_at d dir nd l ls es -> tail_reserved ncl v d -> storable name ->
  exists r h d' l' ls' es', fatfs_create v d dir nd name = Some (r, v <| next_free_hint := h |>, d') /\ dir_at d' dir nd l' ls' es' /\ dir_changed d d' l l' ls' /\
    create_result es es' name r.
Proof using Hv HL Hstack Hclock.
  intros Hat Htail Hst. unfold fatfs_create. rewrite (dir_find_at d dir nd l ls es name Hat), some_bind. pose proof Hat as [Hd Hl].
  assert (Hstay : forall e, create_result es es name (inl e) ->
    exists r h d' l' ls' es', Some (inl e, v, d) = Some (r, v <| next_free_hint := h |>, d') /\ dir_at d' dir nd l' ls' es' /\ dir_changed d d' l l' ls' /\ create_result es es' name r).
  { intros e He. exists (inl e), (next_free_hint v), d, l, ls, es. split; [by destruct v|]. split; [done|]. split; [apply dir_changed_refl|done]. }
  destruct (found es name) as [e0|] eqn:Ef; [apply Hstay; split; [done|]; left; by rewrite Ef|].
  pose proof (create_named_spec Hv Hclock d (in_root_of v dir) (first_cluster nd) l ls es name 0 0 0 Hd Hl Htail Hst) as Hc.
  destruct (name_error name) as [e|] eqn:En; [rewrite Hc, some_bind; [apply Hstay; split; [done|]; right; auto|done|destruct (is_32 v); lia]|].
  destruct Hc as (r & h & d' & l' & ls' & -> & Hd' & Hch & Hr); [done|destruct (is_32 v); lia|]. rewrite some_bind. cbv beta iota. destruct r as [e|[lba off]].
  - destruct Hr as (-> & Hl' & _). eexists _, h, d', l', ls', es. split; [done|]. split; [done|]. split; [done|]. split; [done|]. right; auto.
  - destruct Hr as (es1 & e & es2 & short & Ees & Hl' & (He1 & He2 & He3 & He4)). eexists _, h, d', l', ls', _. split; [done|]. split; [done|]. split; [done|]. split; [done|].
    exists es1, e, es2. destruct He4. repeat (split; [done|]). split; [by unfold entry_id; rewrite He2, He3|]. done.
Qed.


(** ** Removing *)

(** The clusters [lf] are free, the run of [e] is marked as deleted; nothing but the table and the
    sectors [ls] has been written. *)
Record removed d d' (lf : list Z) ls (e : fat_entry) : Prop := {
  rm_freed : forall c, c ∈ lf -> fat16_next_cluster v d' c = 0;
  rm_other : forall x, 0 <= x < table_entries v -> x ∉ lf -> fat16_next_cluster v d' x = fat16_next_cluster v d x;
  rm_frame : forall lba, 0 <= lba < n -> ~ in_fats v lba -> lba ∉ ls -> img d' lba = img d lba;
  rm_mirrored : mirrored v d -> mirrored v d';
  rm_erased : erased d d' ls e;
}.

Lemma remove_spec d root cl l ls es1 e es2 lf : dir_of d root cl l ls -> layout (all_slots d ls) (es1 ++ e :: es2) ->
  file_chain ncl v d (dirent_cluster v (e_de e)) lf -> (forall c, c ∈ l -> c ∉ lf) ->
  exists h d', remove_entry v d root cl e = Some (0, v <| next_free_hint := h |>, d') /\ dir_of d' root cl l ls /\ layout (all_slots d' ls) (es1 ++ es2) /\ removed d d' lf ls e.
Proof using Hv HL.
  intros Hd Hl Hf Hdis. unfold remove_entry. destruct (free_file_spec Hv d _ lf Hf) as (h & d1 & -> & Hz & Hk & Hfr & Hm). rewrite some_bind. cbv beta iota.
  destruct (dir_kept (ncl := ncl) (v := v) d d1 root cl l ls) as [Hd1 Es]; [| |done|].
  - intros x Hx. apply Hk; [|by apply Hdis]. destruct root; [destruct Hd as [-> _]; by apply elem_of_nil in Hx|]. apply (cluster_in_table Hv). eapply chain_clusters; [apply Hd|done].
  - intros lba Hin. destruct (dir_sectors_place Hv d root cl l ls lba Hd Hin) as (Hr & Hnf & _). by apply Hfr.
  - rewrite <- Es in Hl. destruct (erase_spec (vol_ok_hint Hv h) d1 root cl l ls es1 e es2 Hd1 Hl) as (d' & -> & Hd' & Hch & Hl' & Her). rewrite some_bind. cbv beta iota.
    exists h, d'. split; [done|]. split; [done|]. split; [done|].
    assert (Hfats : forall lba, 0 <= lba < n -> in_fats v lba -> img d' lba = img d1 lba) by (intros lba Hlb Hin; apply Hch; [done|by apply (fats_apart Hv d1 root cl l)]).
    assert (Hn : forall x, 0 <= x < table_entries v -> fat16_next_cluster v d' x = fat16_next_cluster v d1 x) by (intros x Hx; by apply (next_ext Hv)).
    split.
    + intros c Hc. rewrite Hn; [by apply Hz|]. apply (cluster_in_table Hv). destruct lf as [|a lf]; [by apply elem_of_nil in Hc|]. eapply chain_clusters; [apply Hf|done].
    + intros x Hx Hnx. rewrite Hn by done. by apply Hk.
    + intros lba Hlb Hnf Hns. rewrite Hch by done. by apply Hfr.
    + intros Hmd. apply (mirrored_ext Hv d1); auto.
    + destruct Her as (i & H1 & H2 & H3 & H4 & H5 & H6). exists i. repeat (split; [done|]). intros p Hp. rewrite H6 by done.
      assert (E : slot_bytes d1 ls p = slot_bytes d ls p).
      { unfold slot_bytes. destruct (dir_sectors_place Hv d root cl l ls (slot_lba ls p) Hd) as (Hr & Hnf & _); [|by rewrite Hfr].
        unfold slot_lba. apply list_elem_of_In, nth_In. clear -Hp. dlia. }
      by rewrite E.
Qed.

Lemma unlink_spec d dir nd l ls es name lf : dir_at d dir nd l ls es ->
  match found es name with
  | None => fatfs_unlink_op v d dir nd name = Some (- ENOENT, v, d)
  | Some e =>
    if has_attr (e_de e) FAT_ATTR_DIRECTORY then fatfs_unlink_op v d dir nd name = Some (- EISDIR, v, d)
    else
      file_chain ncl v d (dirent_cluster v (e_de e)) lf -> (forall c, c ∈ l -> c ∉ lf) ->
      exists h d' es1 es2, fatfs_unlink_op v d dir nd name = Some (0, v <| next_free_hint := h |>, d') /\ es = es1 ++ e :: es2 /\ dir_at d' dir nd l ls (es1 ++ es2) /\ removed d d' lf ls e
  end.
Proof using Hv HL Hstack.
  intros Hat. unfold fatfs_unlink_op. rewrite (dir_find_at d dir nd l ls es name Hat), some_bind. pose proof Hat as [Hd Hl].
  destruct (found es name) as [e|] eqn:Ef; [|done]. destruct (has_attr _ _); [done|]. intros Hf Hdis.
  destruct (found_split es name e Ef) as (es1 & es2 & -> & _ & _). destruct (remove_spec d _ _ l ls es1 e es2 lf Hd Hl Hf Hdis) as (h & d' & -> & Hd' & Hl' & Hr).
  exists h, d', es1, es2. split; [done|]. split; [done|]. split; [done|done].
Qed.

Lemma rmdir_spec d dir nd l ls es name lv lsv esv : dir_at d dir nd l ls es -> name <> [DOT] -> name <> [DOT; DOT] ->
  match found es name with
  | None => fatfs_rmdir_op v d dir nd name = Some (- ENOENT, v, d)
  | Some e =>
    if negb (has_attr (e_de e) FAT_ATTR_DIRECTORY) then fatfs_rmdir_op v d dir nd name = Some (- ENOTDIR, v, d)
    else
      dir_of d false (dirent_cluster v (e_de e)) lv lsv -> layout (all_slots d lsv) esv -> (forall c, c ∈ l -> c ∉ lv) ->
      if forallb (fun e => fat_name_eq (e_name e) [DOT] || fat_name_eq (e_name e) [DOT; DOT]) esv then
        exists h d' es1 es2, fatfs_rmdir_op v d dir nd name = Some (0, v <| next_free_hint := h |>, d') /\ es = es1 ++ e :: es2 /\ dir_at d' dir nd l ls (es1 ++ es2) /\ removed d d' lv ls e
      else fatfs_rmdir_op v d dir nd name = Some (- ENOTEMPTY, v, d)
  end.
Proof using Hv HL Hstack.
  intros Hat H1 H2. unfold fatfs_rmdir_op. destruct (fat_name_eq name [DOT]) eqn:E1; [by apply fat_name_eq_spec in E1|]. destruct (fat_name_eq name [DOT; DOT]) eqn:E2; [by apply fat_name_eq_spec in E2|].
  cbn [orb]. rewrite (dir_find_at d dir nd l ls es name Hat), some_bind. pose proof Hat as [Hd Hl]. destruct (found es name) as [e|] eqn:Ef; [|done].
  destruct (negb (has_attr _ _)); [done|]. intros Hdv Hlv Hdis. pose proof Hdv as (Hc & Hcl & _).
  assert (Ht : ctrue (dirent_cluster v (e_de e)) = true).
  { rewrite Hcl. pose proof (nth_cluster d lv 0 Hc) as Hn. pose proof (chain_length Hv d lv Hc). unfold is_cluster in Hn. unfold ctrue. rewrite (proj2 (Z.eqb_neq _ 0)) by lia. done. }
  rewrite Ht, (dir_empty_spec Hv d _ lv lsv Hdv), some_bind. unfold entries. rewrite (layout_dents Hstack _ _ esv) by done.
  destruct (forallb _ esv); cbn [negb]; [|done]. destruct (found_split es name e Ef) as (es1 & es2 & -> & _ & _).
  destruct (remove_spec d _ _ l ls es1 e es2 lv Hd Hl) as (h & d' & -> & Hd' & Hl' & Hr); [|done|].
  - destruct lv as [|a lv]; [done|]. by split.
  - exists h, d', es1, es2. split; [done|]. split; [done|]. by split.
Qed.

(** ** Writing and reading *)

(** The file behind vnode [vn] and inode [ni]. *)
Definition file_at d (vn : vnode) (ni : fatfs_inode) lf : Prop := file_chain ncl v d (first_cluster ni) lf /\ 0 <= vn_size vn <= zlen lf * cb /\ vn_size vn < W32.


Lemma efbig_spec d vn ni pos buf len : 0 <= pos -> 0 <= len -> pos + len < W64 -> 0xFFFFFFFF < pos + len -> fatfs_write v d vn ni pos buf len = Some (- EFBIG, v, d, vn, ni).
Proof. intros. unfold fatfs_write. rewrite u64_small by lia. by rewrite (proj2 (Z.ltb_lt _ _)) by lia. Qed.

(** What writing [buf] at [pos] does to a file with content [old] and to its entry. *)
Record write_result d d' dir nd l ls es1 e es2 lf (old : list Z) (pos : Z) (buf : list Z) vn' ni' cur : Prop := {
  wr_size : vn_size vn' = zlen (overwrite old pos buf) /\ i_size ni' = vn_size vn';
  wr_first : first_cluster ni' = nth 0 cur 0;
  wr_chain : chain ncl v d' cur;
  wr_grown : exists k, cur = lf ++ k;
  wr_fits : vn_size vn' <= zlen cur * cb;
  wr_bytes : fbytes v d' cur 0 (vn_size vn') = overwrite old pos buf;
  wr_entry : dir_at d' dir nd l ls (es1 ++ resize (v := v) (nth 0 cur 0) (vn_size vn') e :: es2);
  wr_others : forall k, chain ncl v d k -> (forall c, c ∈ lf -> c ∉ k) -> (forall c, c ∈ l -> c ∉ k) -> chain ncl v d' k /\ forall i m, 0 <= i -> i + m <= zlen k * cb -> fbytes v d' k i m = fbytes v d k i m;
}.

Lemma write_spec d dir nd l ls es1 e es2 vn ni lf pos buf : dir_at d dir nd l ls (es1 ++ e :: es2) -> dir_entry_lba ni = e_lba e -> dir_entry_offset ni = e_off e ->
  file_at d vn ni lf -> (forall c, c ∈ lf -> c ∉ l) -> tail_reserved ncl v d -> 0 <= pos -> 0 < zlen buf < 2147483648 -> Forall is_byte buf -> pos + zlen buf + cb <= W32 ->
  exists rc h d' vn' ni', fatfs_write v d vn ni pos buf (zlen buf) = Some (rc, v <| next_free_hint := h |>, d', vn', ni') /\
    (rc = - ENOSPC /\ vn' = vn /\ ni' = ni /\ dir_at d' dir nd l ls (es1 ++ e :: es2) \/
     rc = zlen buf /\ exists cur, write_result d d' dir nd l ls es1 e es2 lf (fbytes v d lf 0 (vn_size vn)) pos buf vn' ni' cur).
Proof using Hv HL HE.
  intros [Hd Hl] Elba Eoff (Hf & Hsz & Hsw) Hdis Htail Hp Hlen Hby Hw. pose proof (cluster_bytes_eq Hv) as [_ Hcb].
  unfold fatfs_write. rewrite (u64_small (pos + zlen buf)) by lia. rewrite (proj2 (Z.ltb_ge _ _)) by lia. rewrite !u32_small by lia.
  destruct (write_file_spec Hv d (first_cluster ni) lf (vn_size vn) pos buf Hf Htail Hsz Hp) as (res & h & d1 & -> & Hres); [lia|done|lia|]. rewrite some_bind. cbv beta iota.
  destruct res as [er|[[r first'] size']].
  { destruct Hres as (-> & _ & cur & Hex & _). eexists _, h, d1, vn, ni. split; [done|]. left. split; [done|]. split; [done|]. split; [done|].
    destruct (dir_kept_extended Hv d d1 lf cur _ _ l ls Hex Hd Hdis) as [Hd1 Es]. split; [done|]. by rewrite Es. }
  destruct Hres as (-> & -> & cur & -> & Hfw). assert (Er : to_int (zlen buf) = zlen buf) by (unfold to_int; rewrite Z.mod_small; lia). rewrite Er, (proj2 (Z.ltb_ge _ 0)) by lia.
  destruct (dir_kept_write Hv d d1 lf cur _ _ _ l ls Hfw Hd Hdis) as [Hd1 Es]. rewrite <- Es in Hl.
  set (size' := Z.max (vn_size vn) (pos + zlen buf)).
  destruct (update_entry_spec Hv d1 _ _ l ls es1 e es2 (nth 0 cur 0) size' Hd1 Hl) as (p & Hpp & Hset & Hl').
  eexists _, h, _, _, _. split; [reflexivity|]. right. split; [done|]. exists cur.
  set (n1 := if negb _ then _ else ni). assert (Hn1 : dir_entry_lba n1 = e_lba e /\ dir_entry_offset n1 = e_off e /\ first_cluster n1 = nth 0 cur 0).
  { subst n1. destruct (Z.eqb_spec (nth 0 cur 0) (first_cluster ni)) as [E|]; cbn [negb]; [by rewrite E|]. done. }
  destruct Hn1 as (-> & -> & En1). change (fat16_update_entry_size_v (v <| next_free_hint := h |>)) with (fat16_update_entry_size_v v).
  set (d2 := fat16_update_entry_size_v v d1 (e_lba e) (e_off e) (nth 0 cur 0) size') in *.
  assert (Hkeep : forall k, chain ncl v d1 k -> (forall c, c ∈ l -> c ∉ k) -> chain ncl v d2 k /\ forall lba, lba ∈ chain_sectors v k -> img d2 lba = img d1 lba).
  { intros k Hk Hlk. eapply (dir_others_kept Hv d1 d2 _ _ l l ls k); [by eapply slots_changed|by eapply (slots_set_dir Hv)|done|done]. }
  destruct (fw_new _ _ _ _ _ Hfw) as (new & Ecur & Hfree).
  destruct (Hkeep cur (fw_chain _ _ _ _ _ Hfw)) as [Hcur Hsec]; [intros c Hc; rewrite Ecur; apply (grown_apart Hv d lf new _ _ l ls c Hd Hdis Hfree Hc)|].
  pose proof (overwrite_length (fbytes v d lf 0 (vn_size vn)) pos buf Hp) as Hol. rewrite fbytes_length, Z2Nat.id in Hol by lia. fold size' in Hol.
  split.
  - split; [|done]. by rewrite Hol.
  - done.
  - done.
  - by exists new.
  - change (size' <= zlen cur * cb). rewrite <- Hol. apply Hfw.
  - change (fbytes v d2 cur 0 size' = overwrite (fbytes v d lf 0 (vn_size vn)) pos buf). rewrite (fbytes_kept Hv d1 d2) by (apply Hfw || done || (rewrite <- Hol; apply Hfw)). rewrite <- Hol. apply Hfw.
  - split; [by eapply (slots_set_dir Hv)|done].
  - intros k Hk Hk1 Hk2. destruct (other_file_kept Hv d d1 lf cur _ k Hfw Hk Hk1) as [Hk' Hb]. destruct (Hkeep k Hk' Hk2) as [Hk'' Hs]. split; [done|].
    intros i m Hi Him. rewrite (fbytes_kept Hv d1 d2) by done. unfold fbytes. apply list_fmap_ext. intros j x Hj. apply lookup_seq in Hj as [-> Hj]. apply Hb. lia.
Qed.

Lemma file_read_spec d vn ni lf pos len : file_at d vn ni lf -> 0 <= pos -> 0 < len < W32 ->
  fatfs_read v d vn ni pos len = Some (let m := Z.max 0 (Z.min len (vn_size vn - pos)) in (m, slice (fbytes v d lf 0 (vn_size vn)) pos m)).
Proof using Hv HL HE.
  intros (Hf & Hsz & Hsw) Hp Hlen. unfold fatfs_read. destruct (Z.leb_spec (vn_size vn) pos) as [|Hlt].
  { cbv zeta. rewrite Z.max_l by lia. by rewrite slice_0. }
  assert (Em : (if vn_size vn <? u64 (pos + len) then u32 (vn_size vn - pos) else len) = Z.min len (vn_size vn - pos)).
  { rewrite u64_small by lia. destruct (Z.ltb_spec (vn_size vn) (pos + len)); [rewrite u32_small by lia|]; lia. }
  rewrite Em. cbv zeta. rewrite Z.max_r by lia. set (m := Z.min len (vn_size vn - pos)) in *. assert (Hm : 0 < m <= vn_size vn - pos) by lia.
  rewrite u32_small by lia. destruct lf as [|a lf]; [cbn in Hsz; lia|]. destruct Hf as [Efi Hc]. rewrite Efi. change a with (nth 0 (a :: lf) 0).
  rewrite (read_at_spec Hv d (a :: lf) pos m Hc) by lia. rewrite some_bind. cbv beta iota. rewrite (proj2 (Z.eqb_neq m 0)) by lia. cbn [andb]. do 2 f_equal.
  apply zget_ext; [rewrite fbytes_length, slice_length; rewrite ?fbytes_length; lia|]. intros i Hi. rewrite fbytes_length in Hi.
  rewrite zget_slice, !zget_fbytes by lia. f_equal. 
Qed.

(** Entry by entry, in the order of the slots. *)
Lemma readdir_spec d dir nd l ls es i : dir_at d dir nd l ls es -> 0 <= i < W32 -> zlen es < W32 ->
  fatfs_readdir_op v d dir nd i = Some (match es !! Z.to_nat i with
    | Some e => inr (entry_id e, take 255 (e_name e), if has_attr (e_de e) FAT_ATTR_DIRECTORY then DT_DIR else DT_REG)
    | None => inl (- ENOENT) end).
Proof using Hv HL Hstack.
  intros [Hd Hl] Hi Hes. unfold fatfs_readdir_op. pose proof (rep_begin Hv d _ _ l ls Hd) as Hrep. pose proof (rep_small Hv d _ _ l ls _ _ Hd Hrep) as Hsm.
  edestruct (while_indexed (fun k '(it, seen) => exists ss, k = zlen ss /\ rep (v := v) d (in_root_of v dir) l ls it ss /\ 0 <= seen <= i /\ seen <= zlen es /\
      dents (Acc false 0 0 0 0 0 stack_chars) ss = drop (Z.to_nat seen) es)
    (fun r => r = match es !! Z.to_nat i with
      | Some e => inr (entry_id e, take 255 (e_name e), if has_attr (e_de e) FAT_ATTR_DIRECTORY then DT_DIR else DT_REG) | None => inl (- ENOENT) end)) as (r & -> & ->); [| | |done].
  - intros k [it seen] (ss & -> & Hr & Hs & Hse & Hdr). destruct (dir_next_spec Hv d _ _ l ls it ss Hd Hr) as (it' & -> & Hr'). rewrite some_bind. cbv beta iota. eexists. split; [done|].
    rewrite dents_next in Hdr. destruct (dnext _ ss) as [[e ss']|] eqn:E; cbn [fmap option_fmap option_map fst].
    + assert (Hlook : es !! Z.to_nat seen = Some e) by (rewrite <- (Nat.add_0_r (Z.to_nat seen)), <- lookup_drop, <- Hdr; done). pose proof (lookup_lt_Some _ _ _ Hlook).
      destruct (Z.eqb_spec seen i) as [->|Hne]; cbn [negb]; [by rewrite Hlook|].
      exists (zlen ss'). split; [pose proof (dnext_shorter _ _ _ _ E); lia|]. exists ss'. split; [done|]. split; [by eapply Hr'|]. rewrite u32_small by lia. split; [lia|]. split; [lia|].
      replace (Z.to_nat (seen + 1)) with (S (Z.to_nat seen)) by lia. rewrite (drop_S _ _ _ Hlook) in Hdr. by injection Hdr.
    + symmetry in Hdr. assert (Hge : (length es <= Z.to_nat seen)%nat) by (apply (f_equal length) in Hdr; rewrite length_drop in Hdr; cbn in Hdr; lia).
      by rewrite lookup_ge_None_2 by lia.
  - exists (all_slots d ls). split; [done|]. split; [done|]. split; [lia|]. split; [lia|]. by rewrite (layout_dents Hstack _ _ es).
  - change (Z.pos turns) with (2 ^ 40). lia.
Qed.
End ops.
