(* ===== verification/FatMkdir.v ===== *)
(** * Making a directory: proofs

    The new directory has its two dot entries and nothing else, its parent one entry more. *)

From stdpp Require Import base numbers list option sets relations.
From S2P Require Import Prelude Loop Bytes Fat FatTable FatFile FatWrite FatTime FatName FatDir FatSlots FatUpdate FatLayout FatRun FatCreate FatKeep FatVfs FatOps.

Section mkdir.
Context {D : Type} `{HB : BlockStore D} {n ncl : Z} {HL : BlockLaws D n}.
Context {v : fat_volume} (Hv : vol_ok n ncl v).
Implicit Types (d : D) (l ls : list Z) (es : list fat_entry).
Abbreviation dir_of := (dir_of (ncl := ncl) (v := v)).
Abbreviation dir_at := (dir_at (ncl := ncl) (v := v)).
Abbreviation spc := (sectors_per_cluster v).

(** ** The dot entries *)

Lemma short_whole name de ls p : length de = 32%nat -> is_short de -> from_fat_name de (de_nt_reserved de) = name ->
  whole [(de, slot_lba ls p, slot_off p)] (Entry name de (slot_lba ls p) (slot_off p) (slot_lba ls p) (slot_off p) 1).
Proof.
  intros Hl Hs Hn. exists [], de, (slot_lba ls p), (slot_off p). split; [done|]. split; [constructor|]. split; [done|]. split; [by exists de|]. split; [done|].
  intros a [Ha _]. exists a. split; [done|]. unfold end_run. rewrite Ha. cbn [andb]. by rewrite Hn.
Qed.

Lemma dot_from name11 name attr c de : dirent_is v name11 attr c 0 de -> from_fat_name name11 0 = name -> from_fat_name de (de_nt_reserved de) = name.
Proof. intros Hd <-. rewrite (di_nt _ _ _ _ _ _ Hd). apply from_fat_name_take; [rewrite (di_len _ _ _ _ _ _ Hd); lia|apply Hd]. Qed.

(** The entries of a new directory. *)
Definition dots ls (e0 e1 : list Z) : list fat_entry :=
  [Entry [DOT] e0 (slot_lba ls 0) (slot_off 0) (slot_lba ls 0) (slot_off 0) 1; Entry [DOT; DOT] e1 (slot_lba ls 1) (slot_off 1) (slot_lba ls 1) (slot_off 1) 1].

Lemma dot_sector (z e0 e1 : list Z) p : zlen z = 512 -> length e0 = 32%nat -> length e1 = 32%nat -> 0 <= p < 16 ->
  slice (splice z 0 (e0 ++ e1)) (p * 32) 32 = if p =? 0 then e0 else if p =? 1 then e1 else slice z (p * 32) 32.
Proof.
  intros Hz H0 H1 Hp. assert (Hl : zlen (e0 ++ e1) = 64) by (rewrite length_app; lia).
  apply zget_ext; [rewrite slice_length by (rewrite ?splice_length; lia); zcases; rewrite ?slice_length; lia|].
  intros i Hi. rewrite slice_length in Hi by (rewrite ?splice_length; lia). rewrite zget_slice, zget_splice by lia. rewrite Hl. destruct (Z.eqb_spec p 0); [|destruct (Z.eqb_spec p 1)].
  - rewrite (proj2 (Z.leb_le _ _)), (proj2 (Z.ltb_lt _ _)) by lia. cbn [andb]. rewrite zget_app, (proj2 (Z.ltb_lt _ (zlen e0))) by lia. f_equal. lia.
  - rewrite (proj2 (Z.leb_le _ _)), (proj2 (Z.ltb_lt _ _)) by lia. cbn [andb]. rewrite zget_app, (proj2 (Z.ltb_ge _ (zlen e0))) by lia. f_equal. lia.
  - rewrite (proj2 (Z.ltb_ge _ (0 + 64))), andb_false_r by lia. by rewrite zget_slice by lia.
Qed.

(** A zeroed cluster with the two dot entries in its first sector. *)
Lemma dots_layout d d' c e0 e1 : dir_of d false c [c] (chain_sectors v [c]) -> (forall lba, cluster_lba v c <= lba < cluster_lba v c + spc -> img d lba = replicate 512 0) ->
  (forall lba, 0 <= lba < n -> img d' lba = if lba =? cluster_lba v c then splice (replicate 512 0) 0 (e0 ++ e1) else img d lba) ->
  length e0 = 32%nat -> length e1 = 32%nat -> is_short e0 -> is_short e1 -> from_fat_name e0 (de_nt_reserved e0) = [DOT] -> from_fat_name e1 (de_nt_reserved e1) = [DOT; DOT] ->
  dir_of d' false c [c] (chain_sectors v [c]) /\ layout (all_slots d' (chain_sectors v [c])) (dots (chain_sectors v [c]) e0 e1).
Proof using Hv HL.
  intros Hd Hz Himg H0 H1 Hs0 Hs1 Hn0 Hn1.
  assert (Els : chain_sectors v [c] = seqZ (cluster_lba v c) spc) by (unfold chain_sectors; cbn; by rewrite app_nil_r).
  pose proof (ok_spc _ _ _ Hv) as Hspc. assert (Hlen : zlen (chain_sectors v [c]) = spc) by (rewrite Els, length_seqZ; lia).
  assert (Hc : is_cluster ncl c) by (destruct Hd as [[Hc _] _]; done). pose proof (cluster_range Hv c Hc) as Hcr. pose proof (fats_below_data Hv). pose proof (data_start_pos Hv).
  set (ls := chain_sectors v [c]) in *. assert (Hl0 : slot_lba ls 0 = cluster_lba v c /\ slot_lba ls 1 = cluster_lba v c).
  { unfold slot_lba. change (Z.to_nat (0 / 16)) with 0%nat. change (Z.to_nat (1 / 16)) with 0%nat. rewrite Els. rewrite seqZ_cons by lia. done. }
  destruct Hl0 as [Hl0 Hl1].
  assert (Hset : slots_set (n := n) d d' ls 0 [e0; e1]).
  { assert (Hz0 : img d (cluster_lba v c) = replicate 512 0) by (apply Hz; lia).
    split.
    - intros p Hp. destruct (slot_lba_range Hv d false c [c] ls p Hd Hp) as (Hr & _ & _). unfold slot_bytes. rewrite (Himg _ Hr). change (0 + zlen [e0; e1]) with 2.
      destruct (Z.lt_ge_cases p 16) as [Hlt|Hge].
      + assert (El : slot_lba ls p = cluster_lba v c) by (rewrite <- Hl0; unfold slot_lba; do 2 f_equal; dlia). assert (Eo : slot_off p = p * 32) by (unfold slot_off; dlia).
        rewrite El, Eo, Z.eqb_refl, Hz0, dot_sector by (done || lia). rewrite (proj2 (Z.leb_le 0 p)), Z.sub_0_r by lia. cbn [andb].
        destruct (Z.eqb_spec p 0) as [->|]; [done|]. destruct (Z.eqb_spec p 1) as [->|]; [done|]. by rewrite (proj2 (Z.ltb_ge p 2)) by lia.
      + rewrite (proj2 (Z.eqb_neq _ _)), (proj2 (Z.ltb_ge p 2)), andb_false_r; [done|lia|]. intros E. rewrite <- Hl0 in E.
        assert (p / 16 = 0); [|dlia]. apply (dir_nodup Hv d false c [c] ls); [done|dlia|lia|exact E].
    - intros lba Hlb Hn. rewrite (Himg lba Hlb). destruct (Z.eqb_spec lba (cluster_lba v c)) as [->|]; [|done]. exfalso. apply Hn. rewrite Els. apply elem_of_seqZ. lia. }
  split; [by eapply (slots_set_dir Hv)|]. rewrite (slots_set_all d d' ls 0 _ Hset) by (change (zlen [e0; e1]) with 2; lia).
  change (take (Z.to_nat 0) _ ++ placed ls 0 [e0; e1] ++ ?r) with ([(e0, slot_lba ls 0, slot_off 0)] ++ [(e1, slot_lba ls 1, slot_off 1)] ++ r).
  apply lay_run; [by apply short_whole|]. apply lay_run; [by apply short_whole|]. apply lay_end. apply Forall_lookup. intros k s Hk. rewrite lookup_drop, all_slots_lookup in Hk.
  destruct (decide _) as [Hlt|]; [|done]. injection Hk as <-. unfold full_slot, slot_bytes.
  pose proof (slot_off_range (Z.of_nat (Z.to_nat (0 + zlen [e0; e1]) + k))) as [Ho1 Ho2].
  destruct (slot_lba_range Hv d false c [c] ls (Z.of_nat (Z.to_nat (0 + zlen [e0; e1]) + k)) Hd ltac:(lia)) as (_ & _ & Hin). rewrite Els in Hin at 2. apply elem_of_seqZ in Hin.
  rewrite Hz by done. by apply never_zero.
Qed.

(** ** The new cluster *)

Context `{HE : FatEnv} (Hclock : fat_now_epoch < 86400 * 2 ^ 39).

Definition fresh_dir d c (e0 e1 : list Z) : D :=
  snd (fat_wr (zero_cluster v (fat16_set_next_cluster v (fat16_set_next_cluster v d c (fat_eoc_marker v)) c (fat_eoc_marker v)) c) (cluster_to_lba v c) (splice (replicate 512 0) 0 (e0 ++ e1))).

Record fresh d d' c (e0 e1 : list Z) : Prop := {
  fs_cluster : is_cluster ncl c;
  fs_dir : dir_of d' false c [c] (chain_sectors v [c]) /\ layout (all_slots d' (chain_sectors v [c])) (dots (chain_sectors v [c]) e0 e1);
  fs_other : forall x, 0 <= x < table_entries v -> x <> c -> fat16_next_cluster v d' x = fat16_next_cluster v d x;
  fs_frame : forall lba, 0 <= lba < n -> ~ in_fats v lba -> ~ (cluster_lba v c <= lba < cluster_lba v c + spc) -> img d' lba = img d lba;
  fs_mirrored : mirrored v d -> mirrored v d';
}.

Lemma fresh_spec d c e0 e1 p : tail_reserved ncl v d -> 2 <= c < table_entries v -> fat16_next_cluster v d c = 0 ->
  dirent_is v dot_name FAT_ATTR_DIRECTORY c 0 e0 -> dirent_is v dotdot_name FAT_ATTR_DIRECTORY p 0 e1 -> fresh d (fresh_dir d c e0 e1) c e0 e1.
Proof using Hv HL.
  intros Htail Hc H0 Hd0 Hd1.
  assert (Hcl : is_cluster ncl c). { unfold is_cluster. destruct (Z.lt_ge_cases c (ncl + 2)) as [|Hge]; [lia|]. by destruct (Htail c ltac:(lia)). }
  pose proof (cluster_in_table Hv c Hcl) as Hct. pose proof (cluster_range Hv c Hcl) as Hcr. pose proof (fats_below_data Hv). pose proof (data_start_pos Hv). pose proof (ok_spc _ _ _ Hv).
  unfold fresh_dir. set (d1 := fat16_set_next_cluster v _ c (fat_eoc_marker v)).
  assert (Hn1 : forall x, 0 <= x < table_entries v -> fat16_next_cluster v d1 x = if x =? c then trunc v (fat_eoc_marker v) else fat16_next_cluster v d x).
  { intros x Hx. subst d1. rewrite !(set_next_next Hv) by done. by destruct (x =? c). }
  assert (Hf1 : forall lba, 0 <= lba < n -> ~ in_fats v lba -> img d1 lba = img d lba) by (intros; subst d1; by rewrite !(set_next_frame Hv)).
  assert (Hm1 : mirrored v d -> mirrored v d1) by (intros; subst d1; by do 2 (apply (set_next_mirrored Hv); [done|])). clearbody d1.
  set (d2 := zero_cluster v d1 c). set (d3 := snd (fat_wr d2 _ _)).
  assert (Hl0 : length e0 = 32%nat) by apply Hd0. assert (Hl1 : length e1 = 32%nat) by apply Hd1.
  assert (Hz2 : forall lba, 0 <= lba < n -> img d2 lba = if (cluster_lba v c <=? lba) && (lba <? cluster_lba v c + spc) then replicate 512 0 else img d1 lba) by (intros; subst d2; by apply (zero_cluster_img Hv)).
  assert (Hi3 : forall lba, 0 <= lba < n -> img d3 lba = if lba =? cluster_lba v c then splice (replicate 512 0) 0 (e0 ++ e1) else img d2 lba).
  { intros lba Hlb. subst d3. unfold fat_wr. rewrite (cluster_to_lba_eq Hv) by done. apply (rd_wr (n := n)); [lia|done|].
    split; [rewrite splice_length; rewrite ?length_app, ?length_replicate; lia|]. apply splice_bytes; [by apply Forall_replicate|]. apply Forall_app. split; [apply Hd0|apply Hd1]. }
  assert (Hfat : forall lba, 0 <= lba < n -> in_fats v lba -> img d3 lba = img d1 lba).
  { intros lba Hlb Hin. unfold in_fats in Hin. rewrite Hi3, Hz2 by done. rewrite (proj2 (Z.eqb_neq lba _)), (proj2 (Z.leb_gt _ lba)) by lia. done. }
  assert (Hch : chain ncl v d2 [c]).
  { split; [done|]. rewrite (next_ext Hv d1 d2), Hn1, Z.eqb_refl; [apply trunc_eoc|done| |done]. intros lba Hlb Hin. unfold in_fats in Hin. rewrite Hz2 by done. by rewrite (proj2 (Z.leb_gt _ lba)) by lia. }
  split; [done| | | |].
  - eapply (dots_layout d2 d3).
    + done.
    + intros lba Hlb. rewrite Hz2 by lia. by rewrite (proj2 (Z.leb_le _ _)), (proj2 (Z.ltb_lt _ _)) by lia.
    + done.
    + done.
    + done.
    + by eapply (dirent_short v); [exact Hd0|..].
    + by eapply (dirent_short v); [exact Hd1|..].
    + by eapply dot_from.
    + by eapply dot_from.
  - intros x Hx Hne. rewrite (next_ext Hv d1 d3), Hn1 by done. by rewrite (proj2 (Z.eqb_neq x c)).
  - intros lba Hlb Hnf Hns. rewrite Hi3, Hz2 by done. rewrite (proj2 (Z.eqb_neq lba _)) by lia. destruct ((_ <=? _) && _) eqn:E; [|by apply Hf1]. apply andb_true_iff in E. zbool. lia.
  - intros Hm. apply (mirrored_ext Hv d1 d3); auto.
Qed.

(** The parent keeps its slots. *)
Lemma fresh_kept d d' c e0 e1 root cl l ls : fresh d d' c e0 e1 -> fat16_next_cluster v d c = 0 -> dir_of d root cl l ls -> dir_of d' root cl l ls /\ all_slots d' ls = all_slots d ls /\ c ∉ l.
Proof using Hv HL.
  intros [Hcl _ Hot Hfr _] H0 Hd.
  assert (Hn : c ∉ l). { intros Hin. destruct root; [destruct Hd as [-> _]; by apply elem_of_nil in Hin|]. destruct Hd as (Hc & _). by apply (chain_used Hv d l c). }
  assert (Hk : dir_of d' root cl l ls /\ all_slots d' ls = all_slots d ls); [|tauto]. apply (dir_kept (ncl := ncl) (v := v)); [| |done].
  - intros x Hx. destruct root; [destruct Hd as [-> _]; by apply elem_of_nil in Hx|]. apply Hot; [|congruence]. apply (cluster_in_table Hv). eapply chain_clusters; [apply Hd|done].
  - intros lba Hin. destruct (dir_sectors_place Hv d root cl l ls lba Hd Hin) as (Hr & Hnf & Hor). apply Hfr; [done|done|]. pose proof (cluster_range Hv c Hcl).
    destruct Hor as [|(c' & Hc' & Hcl' & Hr')]; [lia|]. unfold cluster_lba in *. pose proof (ok_spc _ _ _ Hv). intros Hrc. assert (c = c') by nia. congruence.
Qed.

Lemma fresh_tail d d' c e0 e1 : fresh d d' c e0 e1 -> tail_reserved ncl v d -> tail_reserved ncl v d'.
Proof. intros [Hcl _ Hot _ _] Ht x Hx. unfold is_cluster in Hcl. rewrite Hot by lia. by apply Ht. Qed.

(** What making [name] does: the parent has one entry more, and it leads to a directory with the
    dot entries; or nothing has changed in the parent. *)
Definition mkdir_result d d' dir nd es (name : list Z) (rc : Z) : Prop :=
  if rc =? 0 then
    exists l' ls' es1 e es2 e0 e1, let c := dirent_cluster v (e_de e) in
      es = es1 ++ es2 /\ dir_at d' dir nd l' ls' (es1 ++ e :: es2) /\ e_name e = name /\ de_attr (e_de e) = FAT_ATTR_DIRECTORY /\ is_cluster ncl c /\ fat16_next_cluster v d c = 0 /\
      dir_of d' false c [c] (chain_sectors v [c]) /\ layout (all_slots d' (chain_sectors v [c])) (dots (chain_sectors v [c]) e0 e1) /\
      dirent_cluster v e0 = c /\ dirent_cluster v e1 = (if in_root_of v dir then 0 else first_cluster nd)
  else (exists l' ls', dir_at d' dir nd l' ls' es) /\ (rc = - ENOSPC \/ name_error name = Some rc).

Context (Hstack : zlen stack_chars = 260).

(** The entry in the parent; the cluster is freed again when there is no room for it. *)
Lemma mkdir_finish d d3 c e0 e1 h dir nd l ls es name : dir_at d dir nd l ls es -> tail_reserved ncl v d -> storable name -> fresh d d3 c e0 e1 -> fat16_next_cluster v d c = 0 ->
  dirent_cluster v e0 = c -> dirent_cluster v e1 = (if in_root_of v dir then 0 else first_cluster nd) ->
  exists rc h' d', ('(r, v, d) ← fat_create_named (v <| next_free_hint := h |>) d3 (in_root_of v dir) (first_cluster nd) name FAT_ATTR_DIRECTORY c 0;
      match r with inl rc => '(v, d) ← fat16_free_chain v d c; Some (rc, v, d) | inr _ => Some (0, v, d) end) = Some (rc, v <| next_free_hint := h' |>, d') /\ mkdir_result d d' dir nd es name rc.
Proof using Hv HL Hclock.
  intros [Hd Hl] Htail Hst Hfs H0 Ec0 Ec1. destruct (fresh_kept d d3 c e0 e1 _ _ l ls Hfs H0 Hd) as (Hd3 & Es & Hnc). rewrite <- Es in Hl.
  pose proof (fs_cluster _ _ _ _ _ Hfs) as Hcl. pose proof (fs_dir _ _ _ _ _ Hfs) as [Hdc Hlc].
  assert (Hcb : 0 <= c < (if is_32 v then W32 else W16)) by (unfold is_cluster in Hcl; pose proof (ok_eoc _ _ _ Hv); destruct (is_32 v); lia).
  assert (Hct : ctrue c = true) by (unfold is_cluster in Hcl; unfold ctrue; rewrite (proj2 (Z.eqb_neq c 0)) by lia; done).
  assert (Hfail : forall rc h1 d4 l' ls', dir_of d4 (in_root_of v dir) (first_cluster nd) l' ls' -> layout (all_slots d4 ls') es -> chain ncl v d4 [c] -> c ∉ l' -> (rc = - ENOSPC \/ name_error name = Some rc) -> rc <> 0 ->
    exists rc' h' d', ('(v, d) ← fat16_free_chain (v <| next_free_hint := h1 |>) d4 c; Some (rc, v, d)) = Some (rc', v <| next_free_hint := h' |>, d') /\ mkdir_result d d' dir nd es name rc').
  { intros rc h1 d4 l' ls' Hd4 Hl4 Hc4 Hn4 Hrc Hrc0. destruct (free_file_spec (vol_ok_hint Hv h1) d4 c [c]) as (h2 & d5 & E & _ & Hk & Hfr & _); [by split|].
    rewrite Hct in E. rewrite E, some_bind. cbv beta iota. exists rc, h2, d5. split; [done|]. unfold mkdir_result. rewrite (proj2 (Z.eqb_neq rc 0)) by done. split; [|done]. exists l', ls'.
    destruct (dir_kept (ncl := ncl) (v := v) d4 d5 (in_root_of v dir) (first_cluster nd) l' ls') as [Hd5 Es5]; [| |done|].
    - intros x Hx. apply Hk; [|intros ->%list_elem_of_singleton; done]. destruct (in_root_of v dir); [destruct Hd4 as [-> _]; by apply elem_of_nil in Hx|].
      apply (cluster_in_table Hv). eapply chain_clusters; [apply Hd4|done].
    - intros lba Hin. destruct (dir_sectors_place Hv d4 _ _ l' ls' lba Hd4 Hin) as (Hr & Hnf & _). by apply Hfr.
    - split; [done|]. by rewrite Es5. }
  pose proof (create_named_spec (vol_ok_hint Hv h) Hclock d3 _ _ l ls es name FAT_ATTR_DIRECTORY c 0 Hd3 Hl (fresh_tail _ _ _ _ _ Hfs Htail) Hst) as Hc.
  destruct (name_error name) as [e|] eqn:En.
  - rewrite Hc; [|done|exact Hcb]. rewrite some_bind. cbv beta iota. apply (Hfail e h d3 l ls); try done; [apply Hdc|by right|]. by eapply name_error_nonzero.
  - destruct Hc as (r & h1 & d4 & l' & ls' & -> & Hd4 & Hch & Hr); [done|exact Hcb|]. rewrite some_bind. cbv beta iota.
    destruct (dir_others_kept (vol_ok_hint Hv h) d3 d4 _ _ l l' ls' [c] Hch Hd4) as [Hc4 Hs4]; [apply Hdc|intros x Hx ->%list_elem_of_singleton; done|].
    assert (Hnl : c ∉ l').
    { destruct (dc_new _ _ _ _ _ Hch) as (k & -> & Hk). intros [Hin|Hin]%elem_of_app; [done|]. rewrite Forall_forall in Hk. destruct (Hk c Hin) as [_ E0].
      apply (chain_used Hv d3 [c] c); [apply Hdc|by left|exact E0]. }
    destruct r as [e|[lba off]].
    + destruct Hr as (-> & Hl4 & _). apply (Hfail (- ENOSPC) h1 d4 l' ls'); try done. by left.
    + destruct Hr as (es1 & e & es2 & short & Ees & Hl4 & (He1 & He2 & He3 & He4)). eexists 0, h1, d4. split; [done|]. unfold mkdir_result. rewrite Z.eqb_refl.
      exists l', ls', es1, e, es2, e0, e1. assert (Ecl : dirent_cluster v (e_de e) = c) by (by destruct He4). cbv zeta. rewrite Ecl.
      split; [done|]. split; [done|]. split; [done|]. split; [by destruct He4|]. split; [done|]. split; [done|].
      destruct (dir_kept (ncl := ncl) (v := v) d3 d4 false c [c] (chain_sectors v [c])) as [Hdc4 Es4]; [|exact Hs4|done|rewrite Es4; done].
      intros x ->%list_elem_of_singleton. apply (dc_other _ _ _ _ _ Hch); [by apply (cluster_in_table Hv)|done].
Qed.

Lemma mkdir_spec d dir nd l ls es name : dir_at d dir nd l ls es -> tail_reserved ncl v d -> storable name -> 0 <= first_cluster nd < (if is_32 v then W32 else W16) ->
  match found es name with
  | Some _ => fatfs_mkdir_op v d dir nd name = Some (- EEXIST, v, d)
  | None => exists rc h d', fatfs_mkdir_op v d dir nd name = Some (rc, v <| next_free_hint := h |>, d') /\ mkdir_result d d' dir nd es name rc
  end.
Proof using Hv HL Hstack Hclock.
  intros Hat Htail Hst Hfc. unfold fatfs_mkdir_op. rewrite (dir_find_at Hv Hstack d dir nd l ls es name Hat), some_bind. pose proof Hat as [Hd Hl].
  destruct (found es name) eqn:Ef; [done|]. destruct (alloc_spec Hv d) as (c & v' & d1 & -> & Ha). rewrite some_bind. cbv beta iota.
  destruct Ha as [(-> & -> & -> & _)|(Hct & Hfree & -> & ->)].
  { exists (- ENOSPC), (next_free_hint v), d. split; [by destruct v|]. split; [by exists l, ls|by left]. }
  rewrite (proj2 (Z.eqb_neq c 0)) by lia. set (h := u32 (c + 1)). cbv zeta.
  assert (Hcb : 0 <= c < (if is_32 v then W32 else W16)).
  { destruct (Z.lt_ge_cases c (ncl + 2)) as [|Hge]; [pose proof (ok_eoc _ _ _ Hv); destruct (is_32 v); lia|]. by destruct (Htail c ltac:(lia)). }
  assert (Hpb : 0 <= (if in_root_of v dir then 0 else first_cluster nd) < (if is_32 v then W32 else W16)) by (destruct (in_root_of v dir); [destruct (is_32 v); lia|done]).
  destruct (write_dirent_spec Hclock (v <| next_free_hint := h |>) dot_name FAT_ATTR_DIRECTORY c 0) as (e0 & -> & He0); [done|by repeat constructor|done|exact Hcb|]. rewrite some_bind. cbv beta.
  destruct (write_dirent_spec Hclock (v <| next_free_hint := h |>) dotdot_name FAT_ATTR_DIRECTORY (if in_root_of v dir then 0 else first_cluster nd) 0) as (e1 & -> & He1);
    [done|by repeat constructor|done|exact Hpb|]. rewrite some_bind. cbv beta.
  assert (He0' : dirent_is v dot_name FAT_ATTR_DIRECTORY c 0 e0) by (by destruct He0; split).
  assert (He1' : dirent_is v dotdot_name FAT_ATTR_DIRECTORY (if in_root_of v dir then 0 else first_cluster nd) 0 e1) by (by destruct He1; split).
  pose proof (fresh_spec d c e0 e1 _ Htail Hct Hfree He0' He1') as Hfs. by apply (mkdir_finish d (fresh_dir d c e0 e1) c e0 e1 h dir nd l ls es name); [..|apply He0'|apply He1'].
Qed.
End mkdir.
