(* ===== verification/FatRename.v ===== *)
(** * Renaming: proofs

    A rename to a name that is not taken, in one directory: the entry with the new name has the
    data, the attributes and the times of the old one, which is gone. *)

From stdpp Require Import base numbers list option sets relations.
From S2P Require Import Prelude Loop Bytes Fat FatTable FatFile FatWrite FatTime FatName FatDir FatSlots FatUpdate FatLayout FatRun FatCreate FatKeep FatVfs FatOps.

Lemma splice_nested s o m i b : 0 <= o -> 0 <= i -> i + zlen b <= m -> o + m <= zlen s -> splice s (o + i) b = splice s o (splice (slice s o m) i b).
Proof.
  intros. assert (Es : zlen (slice s o m) = m) by (rewrite slice_length; lia). assert (El : zlen (splice (slice s o m) i b) = m) by (rewrite splice_length; lia).
  apply zget_ext; [rewrite !splice_length; lia|]. intros j Hj. rewrite splice_length in Hj by lia. rewrite !zget_splice, El by lia.
  destruct ((o <=? j) && (j <? o + m)) eqn:E.
  - apply andb_true_iff in E as [E1 E2]. zbool. rewrite zget_splice by lia. replace (j - o - i) with (j - (o + i)) by lia. rewrite zget_slice by lia. replace (o + (j - o)) with j by lia.
    zcases; cbn [andb]; done || lia.
  - apply andb_false_iff in E as [E|E]; zbool; zcases; cbn [andb]; done || lia.
Qed.

(** The times of [src] on an entry. *)
Definition timed (src de : list Z) : list Z := splice (splice de 13 (slice src 13 7)) 22 (slice src 22 4).

Lemma timed_splice s o src : 0 <= o -> o + 32 <= zlen s -> length src = 32%nat ->
  splice (splice s (o + 13) (slice src 13 7)) (o + 22) (slice src 22 4) = splice s o (timed src (slice s o 32)).
Proof.
  intros Ho Hs Hl. assert (H7 : zlen (slice src 13 7) = 7) by (rewrite slice_length; lia). assert (H4 : zlen (slice src 22 4) = 4) by (rewrite slice_length; lia).
  assert (H32 : length (slice s o 32) = 32%nat) by (rewrite slice_length; lia). assert (Hx : length (splice (slice s o 32) 13 (slice src 13 7)) = 32%nat) by (rewrite splice_length; lia).
  rewrite (splice_nested s o 32 13) by lia. rewrite (splice_nested _ o 32 22) by (rewrite ?splice_length; lia).
  pose proof (slice_splice_same s o (splice (slice s o 32) 13 (slice src 13 7))) as E. rewrite Hx in E. change (Z.of_nat 32) with 32 in E. rewrite E by lia.
  rewrite splice_splice by (rewrite ?splice_length; lia). done.
Qed.

Lemma timed_patch src de : length src = 32%nat -> Forall is_byte src -> length de = 32%nat -> patch_of de (timed src de).
Proof.
  intros Hs Hb Hl. assert (H7 : zlen (slice src 13 7) = 7) by (rewrite slice_length; lia). assert (H4 : zlen (slice src 22 4) = 4) by (rewrite slice_length; lia). unfold timed. split; [done| | |].
  - rewrite splice_length; rewrite ?splice_length; lia.
  - intros Hd. repeat apply splice_bytes; try done; by apply slice_bytes.
  - rewrite slice_splice_other by (rewrite ?splice_length; lia). by rewrite slice_splice_other by lia.
Qed.

Lemma timed_fields src de : length src = 32%nat -> length de = 32%nat ->
  slice (timed src de) 13 7 = slice src 13 7 /\ slice (timed src de) 22 4 = slice src 22 4 /\ forall o m, 0 <= o -> 0 <= m -> o + m <= 32 -> 20 <= o -> o + m <= 22 \/ 26 <= o -> slice (timed src de) o m = slice de o m.
Proof.
  intros Hs Hl. assert (H7 : zlen (slice src 13 7) = 7) by (rewrite slice_length; lia). assert (H4 : zlen (slice src 22 4) = 4) by (rewrite slice_length; lia). unfold timed.
  assert (Hx : zlen (splice de 13 (slice src 13 7)) = 32) by (rewrite splice_length; lia). split; [|split].
  - rewrite slice_splice_other by lia. pose proof (slice_splice_same de 13 (slice src 13 7)) as E. rewrite H7 in E. apply E; lia.
  - pose proof (slice_splice_same (splice de 13 (slice src 13 7)) 22 (slice src 22 4)) as E. rewrite H4 in E. apply E; lia.
  - intros o m Ho Hm Hom H20 Hor. rewrite slice_splice_other by lia. by rewrite slice_splice_other by lia.
Qed.

Lemma timed_cluster v src de : length src = 32%nat -> length de = 32%nat -> dirent_cluster v (timed src de) = dirent_cluster v de /\ de_size (timed src de) = de_size de.
Proof. intros Hs Hl. destruct (timed_fields src de Hs Hl) as (_ & _ & H). unfold dirent_cluster, ld16, ld32. by rewrite !H by lia. Qed.

Lemma dirent_cluster_range v de : Forall is_byte de -> 0 <= dirent_cluster v de < (if is_32 v then W32 else W16).
Proof.
  intros Hb. unfold dirent_cluster. pose proof (ld16_range de 20 Hb). pose proof (ld16_range de 26 Hb). destruct (is_32 v); [|done]. rewrite lor_pack by lia. lia.
Qed.

Section rename.
Context {D : Type} `{HB : BlockStore D} {n ncl : Z} {HL : BlockLaws D n}.
Context {v : fat_volume} (Hv : vol_ok n ncl v).
Implicit Types (d : D) (l ls : list Z) (es : list fat_entry).
Abbreviation dir_of := (dir_of (ncl := ncl) (v := v)).
Abbreviation dir_at := (dir_at (ncl := ncl) (v := v)).

Lemma copy_times_spec d root cl l ls es1 e es2 src : dir_of d root cl l ls -> layout (all_slots d ls) (es1 ++ e :: es2) -> length src = 32%nat -> Forall is_byte src ->
  exists p, 0 <= p < 16 * zlen ls /\ slots_set (n := n) d (copy_times d (e_lba e) (e_off e) src) ls p [timed src (e_de e)] /\
    layout (all_slots (copy_times d (e_lba e) (e_off e) src) ls) (es1 ++ patched e (timed src (e_de e)) :: es2).
Proof using Hv HL.
  intros Hd Hl Hs Hb. destruct (entry_place Hv d root cl l ls es1 e es2 Hd Hl) as (Hr & Ho1 & Ho2 & Es & Hlen & Hby). pose proof (timed_patch src (e_de e) Hs Hb Hlen) as Hpt.
  apply (patch_spec Hv d _ root cl l ls es1 e es2 _ Hd Hl Hpt). intros x Hx. unfold copy_times. rewrite (fat_rd_ok d) by done. pose proof (rd_sector (n := n) d (e_lba e)) as [Hs1 Hs2].
  rewrite timed_splice by lia. rewrite Es. unfold fat_wr. rewrite (rd_wr (n := n)); [by destruct (Z.eqb_spec x (e_lba e)) as [->|]|done|done|].
  destruct Hpt as [_ Hl' Hb' _]. split; [rewrite splice_length by lia; done|]. apply splice_bytes; auto.
Qed.

(** An entry more before or behind the one that goes. *)
Lemma insert_remove {A} (es1 es2 a b : list A) x y : es1 ++ es2 = a ++ x :: b ->
  exists c1 c2, es1 ++ y :: es2 = c1 ++ x :: c2 /\ exists m1 m2, a ++ b = m1 ++ m2 /\ c1 ++ c2 = m1 ++ y :: m2.
Proof.
  intros E. apply app_eq_inv in E as [(k & -> & Ek)|(k & -> & ->)].
  - destruct k as [|x' k].
    + cbn in Ek. subst es2. exists (a ++ [y]), b. rewrite app_nil_r, <- !app_assoc. split; [done|]. by exists a, b.
    + injection Ek as <- ->. exists a, (k ++ y :: es2). rewrite <- app_assoc. split; [done|]. exists (a ++ k), es2. by rewrite <- !app_assoc.
  - exists (es1 ++ y :: k), b. rewrite <- !app_assoc. split; [done|]. exists es1, (k ++ b). by rewrite <- ?app_assoc.
Qed.

Context `{HE : FatEnv} (Hstack : zlen stack_chars = 260) (Hclock : fat_now_epoch < 86400 * 2 ^ 39).

(** The directory after a rename of [src] to [nname]. *)
Definition rename_result d' dir nd (a b : list fat_entry) (src : fat_entry) (nname : list Z) (rc : Z) (rk : option rekey) : Prop :=
  exists l' ls',
    if rc =? 0 then
      exists m1 e m2, a ++ b = m1 ++ m2 /\ dir_at d' dir nd l' ls' (m1 ++ e :: m2) /\ e_name e = nname /\ de_attr (e_de e) = de_attr (e_de src) /\
        dirent_cluster v (e_de e) = dirent_cluster v (e_de src) /\ de_size (e_de e) = de_size (e_de src) /\ slice (e_de e) 13 7 = slice (e_de src) 13 7 /\ slice (e_de e) 22 4 = slice (e_de src) 22 4 /\
        rk = Some (Rekey (entry_id src) (entry_id e) (e_lba e) (e_off e))
    else dir_at d' dir nd l' ls' (a ++ src :: b) /\ rk = None /\ (rc = - ENOSPC \/ name_error nname = Some rc).

Lemma rename_spec d dir nd l ls a src b oname nname : dir_at d dir nd l ls (a ++ src :: b) -> found (a ++ src :: b) oname = Some src -> found (a ++ src :: b) nname = None ->
  tail_reserved ncl v d -> storable nname -> attr_ok (de_attr (e_de src)) ->
  exists rc h d' rk, fatfs_rename_op v d dir nd oname dir nd nname = Some (rc, v <| next_free_hint := h |>, d', rk) /\ rename_result d' dir nd a b src nname rc rk.
Proof using Hv HL Hstack Hclock.
  intros Hat Hf1 Hf2 Htail Hst Hattr. pose proof Hat as [Hd Hl]. unfold fatfs_rename_op, rename_over.
  rewrite (dir_find_at Hv Hstack d dir nd l ls _ oname Hat), Hf1, some_bind. cbv beta iota zeta.
  rewrite (dir_find_at Hv Hstack d dir nd l ls _ nname Hat), Hf2, some_bind. cbv beta iota. rewrite some_bind. cbv beta iota.
  destruct (entry_place Hv d _ _ l ls a src b Hd Hl) as (_ & _ & _ & _ & Hsl & Hsb).
  assert (Hcb : 0 <= dirent_cluster v (e_de src) < (if is_32 v then W32 else W16)) by (by apply dirent_cluster_range).
  pose proof (create_named_spec Hv Hclock d _ _ l ls _ nname (de_attr (e_de src)) (dirent_cluster v (e_de src)) (de_size (e_de src)) Hd Hl Htail Hst Hattr Hcb) as Hc.
  destruct (name_error nname) as [er|] eqn:En.
  { rewrite Hc, some_bind. exists er, (next_free_hint v), d, None. split; [by destruct v|]. exists l, ls. pose proof (name_error_nonzero _ _ En). rewrite (proj2 (Z.eqb_neq er 0)) by done.
    split; [done|]. split; [done|]. by right. }
  destruct Hc as (r & h & d1 & l1 & ls1 & -> & Hd1 & Hch & Hr). rewrite some_bind. cbv beta iota. destruct r as [er|[lba off]].
  { destruct Hr as (-> & Hl1 & _). exists (- ENOSPC), h, d1, None. split; [done|]. exists l1, ls1. split; [done|]. split; [done|]. by left. }
  destruct Hr as (es1 & e & es2 & short & Ees & Hl1 & (He1 & <- & <- & He4)).
  destruct (copy_times_spec d1 _ _ l1 ls1 es1 e es2 (e_de src) Hd1 Hl1 Hsl Hsb) as (p & Hp & Hset & Hl2). set (d2 := copy_times d1 _ _ _) in *. set (e' := patched e _) in *.
  assert (Hd2 : dir_of d2 (in_root_of v dir) (first_cluster nd) l1 ls1) by (by eapply (slots_set_dir Hv)).
  symmetry in Ees. destruct (insert_remove es1 es2 a b src e' Ees) as (c1 & c2 & Ec & m1 & m2 & Em & Ecm). rewrite Ec in Hl2.
  destruct (erase_spec (vol_ok_hint Hv h) d2 _ _ l1 ls1 c1 src c2 Hd2 Hl2) as (d3 & -> & Hd3 & _ & Hl3 & _). rewrite some_bind. cbv beta iota. cbn [Z.eqb negb].
  rewrite Z.eqb_refl, andb_false_r. eexists 0, h, d3, _. split; [done|]. exists l1, ls1. cbn [Z.eqb]. exists m1, e', m2. split; [done|]. rewrite Ecm in Hl3. split; [done|]. split; [done|].
  destruct (timed_fields (e_de src) (e_de e) Hsl (di_len _ _ _ _ _ _ He4)) as (Ht1 & Ht2 & _). destruct (timed_cluster v (e_de src) (e_de e) Hsl (di_len _ _ _ _ _ _ He4)) as [Ht3 Ht4].
  subst e'. cbn [patched e_de]. rewrite Ht3, Ht4, Ht1, Ht2. rewrite (patch_get (e_de e) (timed (e_de src) (e_de e))) by (lia || apply timed_patch; done || apply He4).
  destruct He4 as [_ _ _ Hda _ Hdc Hds]. rewrite Hda, Hdc, Hds. split; [done|]. split; [done|]. split; [apply u32_small; by apply ld32_range|]. done.
Qed.
End rename.
