(* ===== verification/FatTheorems.v ===== *)
(** * The FAT filesystem: theorems

    What a user of the driver relies on, for every volume with a consistent geometry ([vol_ok]),
    every block store that keeps what is written ([BlockLaws]) and every directory whose slots are
    well formed ([layout]); and what goes wrong outside of that.  Each theorem is applied to a small
    volume in memory. *)

From stdpp Require Import base numbers list option sets relations gmap.
From S2P Require Import Prelude Loop Bytes Fat FatTable FatFile FatWrite FatTime FatName FatDir FatImage FatSlots FatUpdate FatLayout FatRun FatCreate FatVfs FatKeep FatOps FatMkdir FatRename.

Section theorems.
Context {D : Type} `{HB : BlockStore D} {n ncl : Z} {HL : BlockLaws D n}.
Context {v : fat_volume} (Hv : vol_ok n ncl v).
Implicit Types (d : D) (l ls : list Z) (es : list fat_entry).
Abbreviation dir_at := (dir_at (ncl := ncl) (v := v)).
Abbreviation hinted h := (v <| next_free_hint := h |>).

(** C10: Freeing a chain whose links, up to an end mark, stay inside the table always ends, also when they form a cycle:
    each pass of the loop clears an entry before it follows it.  Exactly the clusters reached from the first one become free; every other
    entry, every sector outside the tables and the agreement of the copies of the table stay.  That the links stay inside the table is
    not checked by the loop: a link past the table's last entry would have it clear words in the sectors behind the table. *)
Theorem fat_free_chain_ends d first : (forall x, rtc (link v d) first x -> live v x -> x < table_entries v) ->
  exists v' d', fat16_free_chain v d first = Some (v', d') /\
  (forall x, rtc (link v d) first x -> live v x -> fat16_next_cluster v d' x = 0) /\
  (forall x, 0 <= x < table_entries v -> ~ (rtc (link v d) first x /\ live v x) -> fat16_next_cluster v d' x = fat16_next_cluster v d x) /\
  (forall lba, 0 <= lba < n -> ~ in_fats v lba -> img d' lba = img d lba) /\ (mirrored v d -> mirrored v d').
Proof using Hv HL. intros Hin. destruct (free_chain_spec Hv d first Hin) as (v' & d' & E & _ & H). by exists v', d'. Qed.

(** Allocation. The search from the hint to the end and then from the start to the hint always ends; it
    hands out a cluster whose entry was free, marks it as the end of a chain in all copies of the table and
    leaves every other entry alone; it fails only when no entry of the table is free. *)
Theorem fat_alloc_spec d : exists c v' d', fat16_alloc_cluster v d = Some (c, v', d') /\
  if c =? 0 then v' = v /\ d' = d /\ forall i, 2 <= i < table_entries v -> fat16_next_cluster v d i <> 0
  else 2 <= c < table_entries v /\ fat16_next_cluster v d c = 0 /\ fat_is_eoc v (fat16_next_cluster v d' c) = true /\
    (forall x, 0 <= x < table_entries v -> x <> c -> fat16_next_cluster v d' x = fat16_next_cluster v d x) /\
    (forall lba, 0 <= lba < n -> ~ in_fats v lba -> img d' lba = img d lba) /\ (mirrored v d -> mirrored v d').
Proof using Hv HL.
  destruct (alloc_spec Hv d) as (c & v' & d' & -> & Ha). exists c, v', d'. split; [done|]. destruct Ha as [(-> & -> & -> & Hfull)|(Hc & Hfree & -> & ->)]; [done|].
  rewrite (proj2 (Z.eqb_neq c 0)) by lia. split; [done|]. split; [done|]. split; [rewrite (set_next_next Hv), Z.eqb_refl by lia; apply trunc_eoc|].
  split; [intros x Hx Hne; rewrite (set_next_next Hv) by lia; by rewrite (proj2 (Z.eqb_neq x c))|].
  split; [intros; by apply (set_next_frame Hv); [lia|..]|]. apply (set_next_mirrored Hv). lia.
Qed.

(** C24: The cursor that a transfer keeps between sectors is only a shortcut: from any cursor the code can
    have left for the chain, [cluster_at_offset] finds the cluster that the walk from the head finds, the one at
    that index of the chain, and leaves such a cursor again. *)
Theorem fat_cursor_exact d l off w : chain ncl v d l -> walk_ok d (nth 0 l 0) l w -> 0 <= off < zlen l * cluster_bytes v ->
  exists w', cluster_at_offset v d (nth 0 l 0) off w = (fst (cluster_at_offset v d (nth 0 l 0) off (Walk 0 0 0)), w') /\
    fst (cluster_at_offset v d (nth 0 l 0) off (Walk 0 0 0)) = nth (Z.to_nat (off / cluster_bytes v)) l 0 /\ walk_ok d (nth 0 l 0) l w'.
Proof using Hv HL.
  intros Hc Hw Ho. pose proof (cluster_bytes_eq Hv) as [_ Hcb].
  destruct (cluster_at_offset_spec Hv d l off w Hc Hw Ho ltac:(lia)) as (w' & -> & Hw').
  destruct (cluster_at_offset_spec Hv d l off (Walk 0 0 0) Hc (walk_start d _ l) Ho ltac:(lia)) as (w0 & -> & _). by exists w'.
Qed.

Context `{HE : FatEnv} (Hstack : zlen stack_chars = 260) (Hclock : fat_now_epoch < 86400 * 2 ^ 39).

(** C7: Creating a file in a well-formed directory, on a volume whose table has no zero entry behind that of its last cluster ([tail_reserved]), under
    a name of bytes without NUL and without U+FFFF that has no dot at its end when it is an 8.3 name ([storable]).
    The call always returns. It answers -EEXIST exactly when the name is taken, an error
    for a name that cannot be stored or when there is no room, and then every lookup in the directory gives
    what it gave; or it answers an inode number, and then the name was not there, looking it up now gives that
    number, and every other lookup is as before. The clusters of other files and directories and their
    contents stay, also when the directory had to grow. Both conditions are needed: formatting may leave zero entries behind the last one,
    and [fat_alloc_past_end] shows the cluster outside the volume that is then handed out; [fat_trailing_dot] shows what becomes of the dot. *)
Theorem fatfs_create_correct d dir nd l ls es name : dir_at d dir nd l ls es -> tail_reserved ncl v d -> storable name ->
  exists r h d', fatfs_create v d dir nd name = Some (r, hinted h, d') /\
    match r with
    | inl e => (forall x, fatfs_lookup (hinted h) d' dir nd x = fatfs_lookup v d dir nd x) /\
        (e = - EEXIST /\ found es name <> None \/ found es name = None /\ (name_error name = Some e \/ e = - ENOSPC))
    | inr id => fatfs_lookup v d dir nd name = Some (inl (- ENOENT)) /\ fatfs_lookup (hinted h) d' dir nd name = Some (inr id) /\
        forall x, x <> name -> fatfs_lookup (hinted h) d' dir nd x = fatfs_lookup v d dir nd x
    end /\
    forall k, chain ncl v d k -> (forall c, c ∈ l -> c ∉ k) -> chain ncl v d' k /\ forall lba, lba ∈ chain_sectors v k -> img d' lba = img d lba.
Proof using Hv HL Hstack Hclock.
  intros Hat Htail Hst. destruct (create_spec Hv Hstack Hclock d dir nd l ls es name Hat Htail Hst) as (r & h & d' & l' & ls' & es' & E & Hat' & Hch & Hr).
  exists r, h, d'. split; [done|]. split; [|intros k Hk Hdis; eapply (dir_others_kept Hv); [done|apply Hat'|done|done]].
  assert (Hlk : forall x, fatfs_lookup v d dir nd x = Some (match found es x with Some e => inr (entry_id e) | None => inl (- ENOENT) end)) by (intros x; by apply (lookup_spec Hv Hstack d dir nd l ls)).
  assert (Hlk' : forall x, fatfs_lookup (hinted h) d' dir nd x = Some (match found es' x with Some e => inr (entry_id e) | None => inl (- ENOENT) end))
    by (intros x; by apply (lookup_hint Hv Hstack h d' dir nd l' ls')).
  destruct r as [e|id].
  - destruct Hr as [-> Hor]. split; [intros x; by rewrite Hlk, Hlk'|done].
  - destruct Hr as (Hnone & es1 & e & es2 & -> & -> & <- & -> & _). split; [by rewrite Hlk, Hnone|]. split; [by rewrite Hlk', found_new|].
    intros x Hx. rewrite Hlk, Hlk', found_insert by congruence. done.
Qed.

(** C5: Writing a file, on a volume whose table has no zero entry behind that of its last cluster ([tail_reserved]; formatting may leave such
    entries, and [fat_alloc_past_end] shows the cluster outside the volume that a write can then be given). The chain of the file is well formed and apart
    from that of its directory. A write of fewer than 2^31 bytes that ends at least a cluster below 4 GiB returns -ENOSPC and leaves
    the entries of the directory as they were, or it returns the length. Then the file has the old bytes
    overwritten at the position, with zeros between the old end and the position, its chain extends the old
    one, vnode, inode and the directory entry on disk have the new size and first cluster, and every other
    file and directory keeps its chain and its bytes. *)
Theorem fatfs_write_correct d dir nd l ls es1 e es2 vn ni lf pos buf : dir_at d dir nd l ls (es1 ++ e :: es2) -> dir_entry_lba ni = e_lba e -> dir_entry_offset ni = e_off e ->
  file_at (ncl := ncl) (v := v) d vn ni lf -> (forall c, c ∈ lf -> c ∉ l) -> tail_reserved ncl v d -> 0 <= pos -> 0 < zlen buf < 2147483648 -> Forall is_byte buf -> pos + zlen buf + cluster_bytes v <= W32 ->
  exists rc h d' vn' ni', fatfs_write v d vn ni pos buf (zlen buf) = Some (rc, hinted h, d', vn', ni') /\
    (rc = - ENOSPC /\ vn' = vn /\ ni' = ni /\ dir_at d' dir nd l ls (es1 ++ e :: es2) \/
     rc = zlen buf /\ exists cur, write_result (ncl := ncl) (v := v) d d' dir nd l ls es1 e es2 lf (fbytes v d lf 0 (vn_size vn)) pos buf vn' ni' cur).
Proof using Hv HL HE. apply (write_spec Hv). Qed.

(** C22: Reading a file gives the bytes of the file from the position on, as many as are asked for or as there
    are, and says how many. *)
Theorem fatfs_read_correct d vn ni lf pos len : file_at (ncl := ncl) (v := v) d vn ni lf -> 0 <= pos -> 0 < len < W32 ->
  fatfs_read v d vn ni pos len = Some (let m := Z.max 0 (Z.min len (vn_size vn - pos)) in (m, slice (fbytes v d lf 0 (vn_size vn)) pos m)).
Proof using Hv HL HE. apply (file_read_spec Hv). Qed.

(** C11: Removing a file. A name that is not there is -ENOENT and a directory -EISDIR, and nothing is written.
    Otherwise, when the chain of the file is well formed and apart from that of the directory, the call ends; all clusters of the file are free and no others;
    the entry has left the list of entries of the directory, the others keep their order; every slot of its run, those of the long name included, is marked as
    deleted, and every other slot of the directory has the bytes it had; and every lookup of another name is as before. When names are unique, the name is
    no longer found. *)
Theorem fatfs_unlink_correct d dir nd l ls es name lf : dir_at d dir nd l ls es ->
  match found es name with
  | None => fatfs_unlink_op v d dir nd name = Some (- ENOENT, v, d)
  | Some e =>
    if has_attr (e_de e) FAT_ATTR_DIRECTORY then fatfs_unlink_op v d dir nd name = Some (- EISDIR, v, d)
    else
      file_chain ncl v d (dirent_cluster v (e_de e)) lf -> (forall c, c ∈ l -> c ∉ lf) ->
      exists h d' es1 es2, fatfs_unlink_op v d dir nd name = Some (0, hinted h, d') /\ es = es1 ++ e :: es2 /\ dir_at d' dir nd l ls (es1 ++ es2) /\
        removed (n := n) (v := v) d d' lf ls e /\
        (NoDup (e_name <$> es) -> fatfs_lookup (hinted h) d' dir nd name = Some (inl (- ENOENT))) /\
        forall x, x <> name -> fatfs_lookup (hinted h) d' dir nd x = fatfs_lookup v d dir nd x
  end.
Proof using Hv HL Hstack.
  intros Hat. pose proof (unlink_spec Hv Hstack d dir nd l ls es name lf Hat) as H. destruct (found es name) as [e|] eqn:Ef; [|done]. destruct (has_attr _ _); [done|].
  intros Hf Hdis. destruct (H Hf Hdis) as (h & d' & es1 & es2 & E & -> & Hat' & Hr). exists h, d', es1, es2. do 4 (split; [done|]).
  assert (Hlk' : forall x, fatfs_lookup (hinted h) d' dir nd x = Some (match found (es1 ++ es2) x with Some e => inr (entry_id e) | None => inl (- ENOENT) end))
    by (intros x; by apply (lookup_hint Hv Hstack h d' dir nd l ls)).
  assert (Hname : e_name e = name) by (by apply found_split in Ef as (? & ? & _ & _ & ?)). split.
  - intros Hnd. rewrite Hlk'. rewrite (found_absent (es1 ++ es2)); [done|]. rewrite <- Hname. apply (not_elem_of_others es1 e es2). done.
  - intros x Hx. rewrite Hlk', (lookup_spec Hv Hstack d dir nd l ls _ x Hat), found_insert by congruence. done.
Qed.

(** C17: Making a directory, on a volume and under a name as for creating: no zero entry in the table behind that of the last cluster ([tail_reserved]); no NUL, no
    U+FFFF, no dot at the end of an 8.3 name ([storable]). -EEXIST for a name that is taken. Otherwise the call ends; on success a free cluster has become
    a directory whose only entries are the two dot entries, and the parent has one entry more, with the name and the directory
    attribute, that leads to it; on failure the parent has the entries it had. The dot entry leads to the new cluster. The dot-dot entry
    has cluster 0 when the parent is the root region of a FAT16 volume and the parent's first cluster otherwise; in the
    root of a FAT32 volume that is the number of the root cluster, where the format asks for 0. *)
Theorem fatfs_mkdir_correct d dir nd l ls es name : dir_at d dir nd l ls es -> tail_reserved ncl v d -> storable name -> 0 <= first_cluster nd < (if is_32 v then W32 else W16) ->
  match found es name with
  | Some _ => fatfs_mkdir_op v d dir nd name = Some (- EEXIST, v, d)
  | None => exists rc h d', fatfs_mkdir_op v d dir nd name = Some (rc, hinted h, d') /\ mkdir_result (ncl := ncl) (v := v) d d' dir nd es name rc
  end.
Proof using Hv HL Hstack Hclock. apply (mkdir_spec Hv Hclock Hstack). Qed.

(** C16: Renaming within a directory to a name that is not taken, on a volume and to a name as for creating: no zero entry in the table behind that of the last
    cluster ([tail_reserved]); no NUL, no U+FFFF, no dot at the end of an 8.3 name ([storable]); the source has the attributes of a file or directory, not those of a
    volume label or of a long-name slot ([attr_ok]). The call ends. On success one entry has the new
    name with the cluster, size, attributes and times of the old one, the old one is gone, all other entries are where they
    were, and the open inode is moved from the old inode number to the new one; on failure the entries are the old ones. *)
Theorem fatfs_rename_correct d dir nd l ls a src b oname nname : dir_at d dir nd l ls (a ++ src :: b) -> found (a ++ src :: b) oname = Some src -> found (a ++ src :: b) nname = None ->
  tail_reserved ncl v d -> storable nname -> attr_ok (de_attr (e_de src)) ->
  exists rc h d' rk, fatfs_rename_op v d dir nd oname dir nd nname = Some (rc, hinted h, d', rk) /\ rename_result (ncl := ncl) (v := v) d' dir nd a b src nname rc rk.
Proof using Hv HL Hstack Hclock. apply (rename_spec Hv Hstack Hclock). Qed.

(** C23: Listing a directory: entry by entry in the order of the slots, each with the inode number that looking it up
    gives when names are unique, and -ENOENT behind the last one. *)
Theorem fatfs_readdir_correct d dir nd l ls es i : dir_at d dir nd l ls es -> NoDup (e_name <$> es) -> 0 <= i < W32 -> zlen es < W32 ->
  match es !! Z.to_nat i with
  | None => fatfs_readdir_op v d dir nd i = Some (inl (- ENOENT))
  | Some e => fatfs_readdir_op v d dir nd i = Some (inr (entry_id e, take 255 (e_name e), if has_attr (e_de e) FAT_ATTR_DIRECTORY then DT_DIR else DT_REG)) /\
      fatfs_lookup v d dir nd (e_name e) = Some (inr (entry_id e))
  end.
Proof using Hv HL Hstack.
  intros Hat Hnd Hi Hes. rewrite (readdir_spec Hv Hstack d dir nd l ls es i Hat Hi Hes). destruct (es !! Z.to_nat i) as [e|] eqn:E; [|done]. split; [done|].
  rewrite (lookup_spec Hv Hstack d dir nd l ls es _ Hat). by rewrite (found_unique es _ e E Hnd).
Qed.
End theorems.

(** ** A small volume

    FAT16 with 254 clusters of one sector: two tables of one sector each, a root directory of one
    sector, 258 sectors in all. *)

Abbreviation sv := (Volume FAT_16 512 1 1 4 1 2 3 1 16 0 2).
#[local] Instance sample_env : FatEnv := {| stack_chars := replicate 260 0; rtc_is_real := false; rtc_boot_epoch := 0; timer_ticks := 0 |}.

(** The volume with the given table entries from cluster 2 on and the given root sector. *)
Definition sample (table root : list Z) : image 258 :=
  <[1 := [248; 255; 255; 255] ++ table]> (<[2 := [248; 255; 255; 255] ++ table]> (<[3 := root]> (∅ : gmap Z (list Z)))).
Abbreviation root_vnode := (Vnode 0 VNODE_DIR 0 0 0 0 (Some 0)).
Abbreviation root_inode := (Inode true 0 0 0 0 true false).
(** The entry of a file A with its first cluster and size. *)
Abbreviation file_a c size := ([65; 32; 32; 32; 32; 32; 32; 32; 32; 32; 32; 0] ++ replicate 14 0 ++ [c; 0; size; 0; 0; 0]).
Abbreviation vnode_a := (Vnode 0x30000 VNODE_FILE 3 0 0 0 (Some 1)).
Abbreviation inode_a := (Inode true 2 3 0 3 false false).
Abbreviation entry_a c size := (Entry [65] (file_a c size) 3 0 3 0 1).

Lemma sv_ok : vol_ok 258 254 sv.
Proof. split; try (vm_compute; done); cbn; lia. Qed.

Lemma sample_tail table root : tail_reserved 254 sv (sample table root).
Proof. intros c Hc. change (table_entries sv) with 256 in Hc. lia. Qed.

Lemma sample_root table root es : layout (all_slots (sample table root) [3]) es -> dir_at (ncl := 254) (v := sv) (sample table root) root_vnode root_inode [] [3] es.
Proof. intros Hl. split; [|done]. by split. Qed.

Lemma sample_empty table : layout (all_slots (sample table []) [3]) [].
Proof. apply lay_end. vm_compute. repeat constructor. Qed.

Lemma sample_a table c size : is_byte c -> is_byte size -> layout (all_slots (sample table (file_a c size)) [3]) [entry_a c size].
Proof.
  intros Hc Hs. assert (E : all_slots (sample table (file_a c size)) [3] = [(file_a (u8 c) (u8 size), 3, 0)] ++ drop 1 (all_slots (sample table []) [3])) by (vm_compute; reflexivity).
  unfold u8 in E. rewrite !Z.mod_small in E by done. rewrite E. apply lay_run; [|apply lay_end; vm_compute; repeat constructor].
  by apply (short_whole [65] (file_a c size) [3] 0).
Qed.

Lemma storable_b : storable [66].
Proof.
  split.
  - by repeat constructor.
  - by intros [?|?%elem_of_nil]%elem_of_cons.
  - intros u E. vm_compute in E. injection E as <-. by intros [?|?%elem_of_nil]%elem_of_cons.
  - intros _ [|x [|y b]]; done.
Qed.

Lemma stack_ok : zlen (stack_chars (FatEnv := sample_env)) = 260.
Proof. done. Qed.
Lemma clock_ok : fat_now_epoch < 86400 * 2 ^ 39.
Proof. done. Qed.

(** Clusters 2 and 3 are a cycle. *)
Abbreviation cyclic := (sample [3; 0; 2; 0] []).
Lemma cyclic_reach x : rtc (link sv cyclic) 2 x -> x = 2 \/ x = 3.
Proof.
  intros Hr. revert x Hr. apply rtc_ind_r; [by left|]. intros y z _ [_ <-] [->| ->]; [right|left]; vm_compute; reflexivity.
Qed.

Lemma fat_free_chain_ends_witness : exists v' d', fat16_free_chain sv cyclic 2 = Some (v', d') /\ fat16_next_cluster sv d' 2 = 0 /\ fat16_next_cluster sv d' 3 = 0.
Proof.
  destruct (fat_free_chain_ends sv_ok cyclic 2) as (v' & d' & E & Hz & _).
  { intros x Hr _. change (table_entries sv) with 256. destruct (cyclic_reach x Hr); lia. }
  exists v', d'. split; [exact E|]. split; apply Hz; try (split; [lia|vm_compute; reflexivity]); [constructor|]. apply rtc_once. split; [split; [lia|vm_compute; reflexivity]|vm_compute; reflexivity].
Defined.

Lemma fat_alloc_spec_witness : exists c v' d', fat16_alloc_cluster sv (sample [255; 255] []) = Some (c, v', d') /\ c = 3 /\ fat16_next_cluster sv d' 2 = 0xFFFF.
Proof.
  destruct (fat_alloc_spec sv_ok (sample [255; 255] [])) as (c & v' & d' & E & H).
  assert (Ec : fst (fst (default (0, sv, sample [] []) (fat16_alloc_cluster sv (sample [255; 255] [])))) = 3) by (vm_compute; reflexivity).
  rewrite E in Ec. cbn in Ec. subst c. exists 3, v', d'. split; [exact E|]. split; [reflexivity|]. cbn [Z.eqb] in H. destruct H as (_ & _ & _ & H & _).
  rewrite H by (change (table_entries sv) with 256; lia). vm_compute; reflexivity.
Defined.

Lemma fat_cursor_exact_witness : exists w', cluster_at_offset sv (sample [3; 0; 255; 255] []) 2 600 (Walk 2 1 3) = (3, w').
Proof.
  destruct (fat_cursor_exact sv_ok (sample [3; 0; 255; 255] []) [2; 3] 600 (Walk 2 1 3)) as (w' & E & E2 & _).
  - vm_compute. repeat split; congruence.
  - intros _ _. split; [cbn; lia|reflexivity].
  - vm_compute. split; congruence.
  - exists w'. rewrite E2 in E. exact E.
Defined.

Lemma fatfs_create_correct_witness : exists r h d', fatfs_create sv (sample [] (file_a 0 0)) root_vnode root_inode [66] = Some (r, sv <| next_free_hint := h |>, d') /\
  match r with inl e => e = - EEXIST \/ name_error [66] = Some e \/ e = - ENOSPC | inr id => fatfs_lookup (sv <| next_free_hint := h |>) d' root_vnode root_inode [66] = Some (inr id) end.
Proof.
  destruct (fatfs_create_correct sv_ok stack_ok clock_ok (sample [] (file_a 0 0)) root_vnode root_inode [] [3] [entry_a 0 0] [66]) as (r & h & d' & E & Hr & _).
  - apply sample_root, sample_a; done.
  - apply sample_tail.
  - apply storable_b.
  - exists r, h, d'. split; [exact E|]. destruct r as [e|id]; [|apply Hr]. destruct Hr as [_ [[He _]|[_ He]]]; auto.
Defined.

Lemma sample_file : file_at (ncl := 254) (v := sv) (sample [255; 255] (file_a 2 3)) vnode_a inode_a [2].
Proof. split; [|vm_compute; repeat split; congruence]. vm_compute. repeat split; congruence. Qed.

Lemma fatfs_write_correct_witness : exists rc h d' vn' ni',
  fatfs_write sv (sample [255; 255] (file_a 2 3)) vnode_a inode_a 5 [72; 105] 2 = Some (rc, sv <| next_free_hint := h |>, d', vn', ni') /\
  (rc = - ENOSPC \/ rc = 2 /\ exists cur, fbytes sv d' cur 0 (vn_size vn') = overwrite [0; 0; 0] 5 [72; 105]).
Proof.
  destruct (fatfs_write_correct sv_ok (sample [255; 255] (file_a 2 3)) root_vnode root_inode [] [3] [] (entry_a 2 3) [] vnode_a inode_a [2] 5 [72; 105])
    as (rc & h & d' & vn' & ni' & E & Hr).
  - apply sample_root, sample_a; done.
  - reflexivity.
  - reflexivity.
  - apply sample_file.
  - intros c _ Hc. by apply elem_of_nil in Hc.
  - apply sample_tail.
  - lia.
  - cbn; lia.
  - repeat constructor; cbn; lia.
  - vm_compute; congruence.
  - exists rc, h, d', vn', ni'. split; [exact E|]. destruct Hr as [(-> & _)|(-> & cur & Hw)]; [left; reflexivity|right]. split; [reflexivity|]. exists cur.
    rewrite (wr_bytes _ _ _ _ _ _ _ _ _ _ _ _ _ _ _ _ Hw). vm_compute; reflexivity.
Defined.

Lemma fatfs_read_correct_witness : fatfs_read sv (sample [255; 255] (file_a 2 3)) vnode_a inode_a 1 100 = Some (2, [0; 0]).
Proof.
  rewrite (fatfs_read_correct sv_ok (sample [255; 255] (file_a 2 3)) vnode_a inode_a [2] 1 100); [vm_compute; reflexivity|apply sample_file|lia|lia].
Defined.

Lemma fatfs_unlink_correct_witness : exists h d', fatfs_unlink_op sv (sample [255; 255] (file_a 2 3)) root_vnode root_inode [65] = Some (0, sv <| next_free_hint := h |>, d') /\
  fat16_next_cluster sv d' 2 = 0 /\ fatfs_lookup (sv <| next_free_hint := h |>) d' root_vnode root_inode [65] = Some (inl (- ENOENT)).
Proof.
  pose proof (fatfs_unlink_correct sv_ok stack_ok (sample [255; 255] (file_a 2 3)) root_vnode root_inode [] [3] [entry_a 2 3] [65] [2]) as H.
  change (found [entry_a 2 3] [65]) with (Some (entry_a 2 3)) in H. cbv beta iota in H. change (has_attr (e_de (entry_a 2 3)) FAT_ATTR_DIRECTORY) with false in H. cbv iota in H.
  destruct H as (h & d' & es1 & es2 & E & _ & _ & Hr & Hl & _).
  - apply sample_root, sample_a; done.
  - vm_compute. repeat split; congruence.
  - intros c Hc. by apply elem_of_nil in Hc.
  - exists h, d'. split; [exact E|]. split; [|apply Hl, NoDup_singleton]. apply (rm_freed _ _ _ _ _ Hr). by left.
Defined.

Lemma fatfs_mkdir_correct_witness : exists rc h d', fatfs_mkdir_op sv (sample [] (file_a 0 0)) root_vnode root_inode [66] = Some (rc, sv <| next_free_hint := h |>, d') /\
  mkdir_result (ncl := 254) (v := sv) (sample [] (file_a 0 0)) d' root_vnode root_inode [entry_a 0 0] [66] rc.
Proof.
  pose proof (fatfs_mkdir_correct sv_ok stack_ok clock_ok (sample [] (file_a 0 0)) root_vnode root_inode [] [3] [entry_a 0 0] [66]) as H.
  change (found [entry_a 0 0] [66]) with (@None fat_entry) in H. cbv beta iota in H. apply H.
  - apply sample_root, sample_a; done.
  - apply sample_tail.
  - apply storable_b.
  - cbn; lia.
Defined.

Lemma fatfs_rename_correct_witness : exists rc h d' rk, fatfs_rename_op sv (sample [] (file_a 0 0)) root_vnode root_inode [65] root_vnode root_inode [66] = Some (rc, sv <| next_free_hint := h |>, d', rk) /\
  rename_result (ncl := 254) (v := sv) d' root_vnode root_inode [] [] (entry_a 0 0) [66] rc rk.
Proof.
  apply (fatfs_rename_correct sv_ok stack_ok clock_ok (sample [] (file_a 0 0)) root_vnode root_inode [] [3] [] (entry_a 0 0) [] [65] [66]).
  - apply sample_root, sample_a; done.
  - reflexivity.
  - reflexivity.
  - apply sample_tail.
  - apply storable_b.
  - repeat split; vm_compute; congruence.
Defined.

Lemma fatfs_readdir_correct_witness : fatfs_readdir_op sv (sample [] (file_a 0 0)) root_vnode root_inode 0 = Some (inr (0x30000, [65], DT_REG)) /\
  fatfs_lookup sv (sample [] (file_a 0 0)) root_vnode root_inode [65] = Some (inr 0x30000).
Proof.
  pose proof (fatfs_readdir_correct sv_ok stack_ok (sample [] (file_a 0 0)) root_vnode root_inode [] [3] [entry_a 0 0] 0) as H. cbn [lookup list_lookup Z.to_nat] in H. apply H.
  - apply sample_root, sample_a; done.
  - apply NoDup_singleton.
  - lia.
  - cbn; lia.
Defined.
