(* ===== verification/FatFlaws.v ===== *)
(** * The FAT filesystem: where the driver goes wrong

    Volumes and calls outside the hypotheses of the correctness theorems, on which the code does not
    do what it means to: clusters behind the end of the volume, chains with a cycle, names that cannot
    be found again, short names that repeat. *)

From stdpp Require Import base numbers list option sets relations gmap.
From S2P Require Import Prelude Loop Bytes Fat FatTable FatFile FatName FatDir FatImage FatUpdate FatLayout FatRun FatCreate FatVfs FatOps FatTheorems.

Section flaws.
Context {D : Type} `{HB : BlockStore D} {n ncl : Z} {HL : BlockLaws D n}.
Context {v : fat_volume} (Hv : vol_ok n ncl v).
Implicit Types (d : D).

(** C36: Allocation looks at every entry of the table, not only at those of the clusters the volume has.  When all
    clusters are in use but an entry behind them is zero, as formatting leaves it, it hands out a cluster whose sectors
    start at or behind the end of the data area. *)
Theorem fat_alloc_past_end d : (forall c, 2 <= c < ncl + 2 -> fat16_next_cluster v d c <> 0) ->
  (exists c, ncl + 2 <= c < table_entries v /\ fat16_next_cluster v d c = 0) ->
  data_start_lba v + table_entries v * sectors_per_cluster v < W32 ->
  exists c v' d', fat16_alloc_cluster v d = Some (c, v', d') /\ c <> 0 /\ data_start_lba v + ncl * sectors_per_cluster v <= cluster_to_lba v c.
Proof using Hv HL.
  intros Hused (c0 & Hc0 & E0) Hw. destruct (alloc_spec Hv d) as (c & v' & d' & E & [(_ & _ & _ & Hfull)|(Hc & Hfree & _)]).
  - exfalso. apply (Hfull c0); [destruct (ok_ncl _ _ _ Hv); lia|done].
  - exists c, v', d'. split; [done|]. split; [lia|]. assert (ncl + 2 <= c) by (destruct (Z.le_gt_cases (ncl + 2) c); [done|destruct (Hused c); [lia|done]]).
    pose proof (ok_spc _ _ _ Hv). pose proof (data_start_pos Hv). assert (c * sectors_per_cluster v <= table_entries v * sectors_per_cluster v) by (apply Z.mul_le_mono_nonneg_r; lia).
    assert (ncl * sectors_per_cluster v <= (c - 2) * sectors_per_cluster v) by (apply Z.mul_le_mono_nonneg_r; lia).
    pose proof (ok_ncl _ _ _ Hv). assert (c * 1 <= c * sectors_per_cluster v) by (apply Z.mul_le_mono_nonneg_l; lia). unfold cluster_to_lba. rewrite (u32_small (c - 2)) by lia. rewrite (u32_small (_ * _)) by lia. rewrite u32_small by lia. lia.
Qed.

(** C37: A chain that never reaches an end mark makes a write to the file run for ever: the count of its clusters follows the
    chain without a bound. Freeing the same chain ends, when its links stay inside the table. *)
Theorem fat_cycle_hangs d first size pos buf : (forall x, rtc (fun a b => fat16_next_cluster v d a = b) first x -> fat_is_eoc v x = false) -> first <> 0 -> buf <> [] ->
  fat16_write_file_v v d first size pos buf (zlen buf) = None /\
  ((forall x, rtc (link v d) first x -> live v x -> x < table_entries v) -> exists v' d', fat16_free_chain v d first = Some (v', d')).
Proof using Hv HL.
  intros Hcyc H0 Hb. split; [|intros Hin; destruct (free_chain_spec Hv d first Hin) as (v' & d' & E & _); by exists v', d'].
  unfold fat16_write_file_v, ctrue. rewrite (proj2 (Z.eqb_neq (zlen buf) 0)) by (destruct buf; [done|]; cbn [length]; lia). rewrite (proj2 (Z.eqb_neq first 0)) by done.
  assert (E : chain_end v d first = None); [|by rewrite E].
  unfold chain_end. apply (while_diverges (fun '(c, _) => rtc (fun a b => fat16_next_cluster v d a = b) first c)); [|done].
  intros [c k] Hr. assert (Hn : rtc (fun a b => fat16_next_cluster v d a = b) first (fat16_next_cluster v d c)) by (eapply rtc_r; [exact Hr|done]).
  rewrite (Hcyc _ Hn). by eexists.
Qed.

(** ** A dot at the end of a short name *)

Lemma ok83_ascii c : is_byte c -> fat_char_ok_in_83 c = true -> 0 < c < 128.
Proof.
  intros Hb E. pose proof (byte_enum (fun c => negb (fat_char_ok_in_83 c) || ((0 <? c) && (c <? 128))) eq_refl c Hb) as H.
  cbv beta in H. rewrite E in H. cbn [negb orb] in H. zbool. lia.
Qed.

Lemma utf8_ascii p : forall fuel out cap, Forall (fun c => 0 < c < 128) p -> (length p <= fuel)%nat -> zlen out + zlen p <= cap -> utf8_loop fuel p out cap = inr (out ++ p).
Proof.
  induction p as [|c p IH]; intros fuel out cap Hp Hf Hc; destruct fuel as [|fuel]; try (cbn in Hf; lia); [by rewrite app_nil_r..|].
  inversion Hp as [|? ? Hc0 Hp']; subst. cbn [length] in *. assert (Eu : cp_units c = [c]) by (unfold cp_units; rewrite (proj2 (Z.leb_gt _ _)) by lia; unfold u16; by rewrite Z.mod_small by lia).
  cbn [utf8_loop]. unfold utf8_lead. rewrite (proj2 (Z.ltb_lt c 0x80)) by lia. cbn [utf8_rest Nat.sub min_for_len nth].
  rewrite (proj2 (Z.ltb_ge c 0)), (proj2 (Z.ltb_ge 0x10FFFF c)), (proj2 (Z.leb_gt 0xD800 c)), Eu by lia. cbn [orb andb length].
  rewrite (proj2 (Z.ltb_ge _ _)) by lia. cbn [drop]. rewrite drop_0, IH by (done || (rewrite ?length_app; cbn [length]; lia)). by rewrite <- app_assoc.
Qed.

Lemma dotted b : Forall is_byte b -> fits_83 (b ++ [DOT]) = true -> Forall (fun c => is_byte c /\ fat_char_ok_in_83 c = true) b /\ 1 <= zlen b <= 8.
Proof.
  intros Hb E. destruct (fits_base (b ++ [DOT]) 0) as (base & rest & En & Ho & Hlen & Hrest); [apply Forall_app; split; [done|]; by repeat constructor|done|].
  destruct Hrest as [->|(ext & -> & He & _)].
  - rewrite app_nil_r in En. subst base. apply Forall_app in Ho as [_ Ho]. inversion Ho as [|? ? [_ Hd] _]; subst. done.
  - destruct ext as [|x ext _] using rev_ind; [apply app_inj_tail in En as [-> _]; done|].
    rewrite app_comm_cons, app_assoc in En. apply app_inj_tail in En as [_ <-]. apply Forall_app in He as [_ He]. inversion He as [|? ? [_ Hd] _]; subst. done.
Qed.

Lemma fits_plain b : forall k, Forall (fun c => is_byte c /\ fat_char_ok_in_83 c = true) b -> fits_loop b k 0 0 = negb ((k + zlen b <? 1) || (8 <? k + zlen b) || false).
Proof.
  induction b as [|c b IH]; intros k Hb; [cbn; by rewrite Z.add_0_r|]. inversion Hb as [|? ? [Hc Ho] Hb']; subst. destruct (ok83 c Hc Ho) as (Hd & _).
  cbn [fits_loop]. rewrite (proj2 (Z.eqb_neq c DOT)) by done. rewrite Ho. cbn [negb]. change (ctrue 0) with false. cbv iota. rewrite IH by done. cbn [length].
  by replace (k + 1 + zlen b) with (k + Z.of_nat (S (length b))) by lia.
Qed.

Context `{HE : FatEnv} (Hstack : zlen stack_chars = 260) (Hclock : fat_now_epoch < 86400 * 2 ^ 39).

Lemma lfn_run_none u sum : lfn_run u 0 sum = [].
Proof. done. Qed.

(** What is written for the name is what would be written for the name without the dot. *)
Lemma create_dotted d root cl b attr c size : Forall is_byte b -> fits_83 (b ++ [DOT]) = true ->
  fits_83 b = true /\ storable b /\ name_error b = None /\ fat_create_named v d root cl (b ++ [DOT]) attr c size = fat_create_named v d root cl b attr c size.
Proof.
  intros Hb E. destruct (dotted b Hb E) as [Ho Hl].
  assert (Ha : Forall (fun c => 0 < c < 128) b) by (eapply Forall_impl; [exact Ho|]; intros x [Hx1 Hx2]; by apply ok83_ascii).
  assert (Ef : fits_83 b = true) by (unfold fits_83; rewrite fits_plain by done; zcases; try lia; done).
  assert (Eu : forall s, Forall (fun c => 0 < c < 128) s -> zlen s <= 9 -> utf8_to_utf16 s (LFN_MAX_SLOTS * LFN_CHARS) = inr s)
    by (intros s Hs Hk; unfold utf8_to_utf16; apply utf8_ascii; [done|lia|change (LFN_MAX_SLOTS * LFN_CHARS) with 260; cbn [length]; lia]).
  assert (Had : Forall (fun c => 0 < c < 128) (b ++ [DOT])) by (apply Forall_app; split; [done|]; repeat constructor).
  assert (HD : DOT ∉ b) by (apply (ok_notin b DOT Ho); auto).
  split; [done|]. split; [|split].
  - split; [done|apply (ok_notin b 0 Ho); auto| |].
    + intros u E'. rewrite Eu in E' by (done || lia). injection E' as <-. intros Hin. rewrite Forall_forall in Ha. apply Ha in Hin. lia.
    + intros _ b' ->. apply HD. apply elem_of_app. right. by left.
  - unfold name_error. rewrite Eu by (done || lia). change (VFS_NAME_MAX - 1) with 255. zcases; try lia; done.
  - unfold fat_create_named. rewrite !Eu by (try done; rewrite ?length_app; cbn [length]; lia). rewrite E, Ef. cbn [negb]. rewrite !length_app. cbn [length]. change (VFS_NAME_MAX - 1) with 255.
    rewrite !(proj2 (Z.eqb_neq _ 0)), !(proj2 (Z.ltb_ge 255 _)) by lia. cbn [orb]. cbv zeta. rewrite !some_bind. change (LFN_MAX_SLOTS <? 0) with false. cbv iota.
    assert (En : to_fat_name (b ++ [DOT]) = to_fat_name b) by (unfold to_fat_name; rewrite break_at_app, break_at_all by auto; done).
    rewrite En. unfold create_run. by rewrite !lfn_run_none.
Qed.

(** C38: A short name with a dot and nothing behind it is stored without the dot. In a well-formed directory that has no such name, on a volume whose table has no zero
    entry behind that of its last cluster, creating it answers an inode number (or there is no room),
    but looking the name up then fails: what the directory has gained is an entry with the name without the dot, also when it
    had one of that name; and when it had none, that name, which nobody created, is now found. *)
Theorem fat_trailing_dot d dir nd l ls es b : dir_at (ncl := ncl) (v := v) d dir nd l ls es -> tail_reserved ncl v d ->
  Forall is_byte b -> fits_83 (b ++ [DOT]) = true -> found es (b ++ [DOT]) = None ->
  exists r h d', fatfs_create v d dir nd (b ++ [DOT]) = Some (r, v <| next_free_hint := h |>, d') /\
    match r with
    | inl e => e = - ENOSPC
    | inr id => exists l' ls' es1 e es2, es = es1 ++ es2 /\ dir_at (ncl := ncl) (v := v) d' dir nd l' ls' (es1 ++ e :: es2) /\ e_name e = b /\ id = entry_id e /\
        fatfs_lookup (v <| next_free_hint := h |>) d' dir nd (b ++ [DOT]) = Some (inl (- ENOENT)) /\
        (found es b = None -> fatfs_lookup (v <| next_free_hint := h |>) d' dir nd b = Some (inr id))
    end.
Proof using Hv HL Hstack Hclock.
  intros Hat Htail Hb E Hn. pose proof Hat as [Hd Hl]. unfold fatfs_create. rewrite (dir_find_at Hv Hstack d dir nd l ls es _ Hat), Hn, some_bind. cbv beta iota.
  destruct (create_dotted d (in_root_of v dir) (first_cluster nd) b 0 0 0 Hb E) as (_ & Hst & En & ->).
  pose proof (create_named_spec Hv Hclock d (in_root_of v dir) (first_cluster nd) l ls es b 0 0 0 Hd Hl Htail Hst) as Hc. rewrite En in Hc.
  destruct Hc as (r & h & d' & l' & ls' & -> & Hd' & _ & Hr); [done|destruct (is_32 v); lia|]. rewrite some_bind. cbv beta iota. eexists _, h, d'. split; [done|].
  destruct r as [e|[lba off]]; [apply Hr|]. destruct Hr as (es1 & e & es2 & short & -> & Hl' & (He1 & He2 & He3 & _)). exists l', ls', es1, e, es2.
  assert (Hat' : dir_at (ncl := ncl) (v := v) d' dir nd l' ls' (es1 ++ e :: es2)) by done. assert (Eid : inode_id_of lba off = entry_id e) by (by unfold entry_id; rewrite He2, He3).
  split; [done|]. split; [done|]. split; [done|]. split; [done|]. rewrite !(lookup_hint Hv Hstack h d' dir nd l' ls' _ _ Hat'). split.
  - rewrite found_insert by (rewrite He1; intros Eq; apply (f_equal length) in Eq; rewrite length_app in Eq; cbn [length] in Eq; lia). by rewrite Hn.
  - intros Hnb. rewrite <- He1 in Hnb |- *. by rewrite found_new, Eid.
Qed.
End flaws.

(** A volume of one cluster with 254 entries in its table. *)
Lemma tiny_ok : vol_ok 5 1 sv.
Proof. split; try (vm_compute; done); cbn; lia. Qed.
Abbreviation tiny := (sample [255; 255] [] : image 5).

Lemma fat_alloc_past_end_witness : exists c v' d', fat16_alloc_cluster sv tiny = Some (c, v', d') /\ c <> 0 /\ 5 <= cluster_to_lba sv c.
Proof.
  apply (fat_alloc_past_end tiny_ok tiny).
  - intros c Hc. assert (c = 2) as -> by lia. vm_compute; congruence.
  - exists 3. split; [change (table_entries sv) with 256; lia|vm_compute; reflexivity].
  - vm_compute; reflexivity.
Defined.

Lemma fat_cycle_hangs_witness : fat16_write_file_v sv cyclic 2 0 0 [72] 1 = None /\ exists v' d', fat16_free_chain sv cyclic 2 = Some (v', d').
Proof.
  destruct (fat_cycle_hangs sv_ok cyclic 2 0 0 [72]) as [Hw Hf]; [|lia|congruence|].
  - intros x Hr. assert (x = 2 \/ x = 3) as [-> | ->]; [|vm_compute; reflexivity..].
    revert x Hr. apply rtc_ind_r; [left; reflexivity|]. intros y z _ <- [-> | ->]; [right|left]; vm_compute; reflexivity.
  - split; [exact Hw|]. apply Hf. intros x Hr _. change (table_entries sv) with 256. destruct (cyclic_reach x Hr); lia.
Defined.

#[local] Existing Instance sample_env.

(** FOO. in an empty root. *)
Abbreviation created_foo := (fatfs_create sv (sample [] []) root_vnode root_inode [70; 79; 79; 46]).
Lemma fat_trailing_dot_witness : exists h d', created_foo = Some (inr 0x30000, sv <| next_free_hint := h |>, d') /\
  fatfs_lookup (sv <| next_free_hint := h |>) d' root_vnode root_inode [70; 79; 79; 46] = Some (inl (- ENOENT)) /\
  fatfs_lookup (sv <| next_free_hint := h |>) d' root_vnode root_inode [70; 79; 79] = Some (inr 0x30000).
Proof.
  destruct (fat_trailing_dot sv_ok stack_ok clock_ok (sample [] []) root_vnode root_inode [] [3] [] [70; 79; 79]) as (r & h & d' & E & Hr).
  - apply sample_root, sample_empty.
  - apply sample_tail.
  - by repeat constructor.
  - reflexivity.
  - reflexivity.
  - cbn [app] in E, Hr. assert (Er : (fun o => match o with Some (r, _, _) => r | None => inl 0 end) created_foo = inr 0x30000) by (vm_compute; reflexivity). rewrite E in Er. cbv beta iota in Er. subst r.
    exists h, d'. split; [exact E|]. destruct Hr as (_ & _ & _ & _ & _ & _ & _ & _ & _ & Hl & Hf). split; [exact Hl|apply Hf; reflexivity].
Defined.

(** Of the 999 short names tried for a long name whose shortened base has six characters and that has an
    extension of three, only nine differ: from the tenth on the extension overwrites the last digits. *)
Theorem fat_alias_nine base ext k : length base = 6%nat -> length ext = 3%nat -> 1 <= k < 1000 ->
  exists j, 1 <= j <= 9 /\ alias_name base ext k = alias_name base ext j.
Proof.
  intros Hb He Hk. destruct base as [|b1 [|b2 [|b3 [|b4 [|b5 [|b6 [|]]]]]]]; try done. destruct ext as [|e1 [|e2 [|e3 [|]]]]; try done.
  unfold alias_name, alias_digits. destruct (Z.ltb_spec k 10); [exists k; split; [lia|]; by rewrite (proj2 (Z.ltb_lt k 10))|].
  destruct (Z.ltb_spec k 100).
  - exists (k / 10). split; [dlia|]. rewrite (proj2 (Z.ltb_lt (k / 10) 10)) by dlia. reflexivity.
  - exists (k / 100). split; [dlia|]. rewrite (proj2 (Z.ltb_lt (k / 100) 10)) by dlia. reflexivity.
Qed.

Lemma fat_alias_nine_witness : exists j, 1 <= j <= 9 /\ alias_name [65; 66; 67; 68; 69; 70] [84; 88; 84] 123 = alias_name [65; 66; 67; 68; 69; 70] [84; 88; 84] j.
Proof. apply (fat_alias_nine [65; 66; 67; 68; 69; 70] [84; 88; 84] 123); [reflexivity|reflexivity|lia]. Defined.
